(* ===== verification/_CoqProject ===== *)
-Q . S2P
Prelude.v
ReliableSession.v
Protocol.v
TaskChangeLog.v
ClientLifecycle.v
StateSync.v
ServerRequests.v
Frame.v
Chat.v
Records.v
Journal.v
Scheduler.v
Mutation.v
ChatImages.v
Draft.v
TaskFiles.v
ToolArtifacts.v
TaskStore.v
Projects.v
Publication.v
Turns.v
TurnRules.v
Subagents.v
SubagentRules.v
Paging.v
Pairing.v
Questions.v
RequestRuntime.v
RemoteDevices.v
Methods.v
Gateway.v
Updates.v
Http.v
Attachments.v
WebSocket.v
Uploads.v
AgentProcesses.v
