(* ===== verification/Prelude.v ===== *)
(** * OpenAIDE App Server: a verification library

    The App Server ([openaide-rs/app-server]) keeps Tasks, the conversations of a
    user with an Agent, and serves them to client shells over the protocol of
    [openaide-rs/app-server-protocol].  A client talks to it through a resumable
    RPC session; the server answers requests, pushes state changes, and sends
    requests of its own (permissions, questions) that a client answers.  Every
    change of a Task is a transaction on a draft; its commit becomes operations
    of the Task's journal, a file of checksummed frames that a scheduler writes,
    and is published to the subscribed clients as a delta of their snapshot.

    The library translates these parts into executable definitions and proves
    what makes them correct.  Names follow the source; where two source names
    clash the definition has a prefix, and every definition that models code is
    written beside the lines it translates.

    ** The files, in the order of their dependencies

    - [Prelude]: 64-bit integers with wrap-around and saturation, the error
      monad with [let?] and [check?], shared lemmas and tactics.
    - [ReliableSession]: [protocol_edge/reliable_session.rs], the registry of
      resumable sessions.  Client frames are accepted exactly once and in order,
      replay after a lost connection is complete, a poll stays within its window.
    - [Protocol]: ids, scopes, summaries and snapshots of the wire protocol.
    - [TaskChangeLog]: [state_sync/task_change_log.rs], the bounded log of changes
      a returning client catches up from: exact when it answers, bounded always.
    - [ClientLifecycle]: [client_lifecycle.rs], which connection belongs to which
      client, and in [Module App] [app_lifecycle.rs], the shutdown of the process.
    - [StateSync]: [state_sync.rs] and [storage_runtime/cursor], subscriptions and
      the event cursors of a scope.  Events chain from the baseline without gap,
      each subscriber gets each event once, a resume is exact.
    - [ServerRequests]: the broker of requests to clients.  A request is sent
      once, ends once and is answered only by a client that was asked.
    - [Frame]: [storage/task_journal/frame.rs] over a file system that can fail and
      crash at every step.  Acknowledged frames survive a crash, replay trims a
      torn tail only, compaction is atomic.
    - [Chat], [Records]: the rows of Chat, Tool details and the Task record.
    - [Journal]: [task_journal/model.rs], [projection.rs] and the reducer of the
      store.  The reduction of a batch is exact, what validates applies, a
      replayed Task is well formed.
    - [Scheduler]: [task_journal/scheduler.rs], lanes, batches and admission.
      Lanes keep their order, queues are bounded, no caller waits forever.
    - [Mutation], [Draft]: [tasks/mutation.rs] and its modules, the draft, its
      edits and the commit.  A committed draft is durable: its operations rebuild
      exactly the committed Task; the guards of the commit hold for any edit.
    - [TaskFiles]: [task_journal/split.rs], the metadata, snapshot and journal of
      one Task and its status byte.  Under failures and crashes at every write
      the files refine a register that a commit writes as a whole or not at all.
    - [ToolArtifacts]: [task_journal/artifact.rs] and [artifact/compaction.rs], the
      journals of Tool details: a reader sees the frames up to the head that the
      Task names.  The class [ArtifactBytes] says how long an encoded frame is.
    - [TaskStore]: [task_journal/store.rs] with [store/recovery.rs], [reads.rs] and
      [maintenance.rs], which compose [Journal], [TaskFiles] and [ToolArtifacts].
      The record [Outside] holds what the file system answers at each write.  A
      batch is atomic over all its files, and a start gives what was committed.
    - [ChatImages]: [storage/chat_images.rs] and the image sweep of the journal.
      A reference always has its bytes, through every write and sweep.
    - [Projects]: [projects.rs], the registry of workspaces and its file, which
      survives a restart.
    - [Publication]: the projection of a Task to its snapshot and the fields a
      commit publishes.  A client that applies the deltas has what opening the
      Task gives; a row that navigation shows is published when it changes.
    - [Turns], [TurnRules]: [tasks/transitions], [tasks/product_api/send.rs],
      [queue.rs] and [scheduled_queue.rs], requests of the Agent and recovery.  A
      turn settles once, the turn fields stay consistent, queued messages are
      delivered once and in order, the queue revision is a compare-and-set token,
      the end of work and a restart leave nothing running, and all of it is
      durable through [Draft].
    - [Subagents], [SubagentRules]: [storage/subagents.rs], the catalog and the
      histories of Subagents on disk.  Whatever write fails, an open history is
      what its files hold and only durable revisions are published.
    - [Paging]: [storage/message_store.rs], the pages of a Chat, which tile it.
    - [Pairing], [RemoteDevices]: [remote_devices.rs] with its store and the codes
      that carry an invite.  Trust refines an access-control automaton.
    - [Questions]: [agent/acp_elicitation_form.rs], forms and their answers.
    - [RequestRuntime]: [server_requests/runtime.rs], the broker with the threads
      that wait for it.  The end of a request releases its waiter; a permission is
      granted only by an answer of a client that was asked.
    - [Methods], [Gateway]: the routing table and the core of [protocol_edge],
      composed of [ClientLifecycle], [StateSync], [RequestRuntime] and [Projects].
      Every subscription belongs to a connected client that has initialized, the
      update barrier lets no request pass, queued events leave in order.
    - [Updates]: [task_events.rs] and the publisher of Task updates.  Entries
      that clients are shown never go back; coalescing is invisible to them.
    - [Http], [WebSocket], [Uploads]: requests, socket messages, uploads and event
      streams of [protocol_edge/local_http], and the bridge of remote devices.
    - [Attachments]: [attachment_runtime.rs], the resources of a message that is
      being written.  A handle is sent once, a dropped send can be tried again,
      and files are opened under the folder they were chosen in only.
    - [AgentProcesses]: [agent/acp_agent_process_pool.rs] with the lifetimes, the
      launch backoff and the locks of the kernel, as threads that interleave at
      every lock and wait.  An Agent has one live process, and an operation loses
      its process only when this ends by itself or is told to stop.

    ** How state and effects are modelled

    Every component's state is a record and every operation a function from state
    to state and result; a fallible operation returns [result] with the error of
    the source.  Locks make each operation atomic, so interleavings are sequences
    of operations: [turn_run], the runs of [StateSync], [ServerRequests],
    [Scheduler], [RequestRuntime], [Gateway], [Attachments] and [AgentProcesses]
    are sequences of steps.  Maps are [gmap], ordered collections lists; a JSON value is the
    inductive type of [Chat].  Clocks, fresh identifiers, file availability and the
    payloads the code passes through unread are arguments or type classes
    ([PayloadTypes], [ChatPayloads], [Json]), and so are the third-party packages
    ([ImageCodecs], [KeyCodecs], [FormCodecs], [GatewayCodecs]), instantiated
    concretely by the witnesses.  Serialization by serde is a parameter with a
    round-trip law where a property needs one ([SplitCodecs], [SplitLaws]).

    [u64] and [usize] arithmetic wraps ([u64_add]) or saturates where the source
    says so; the release profile has no overflow checks.  Loops over lists recurse
    on them; where a loop consumes bytes or frames the fuel is the length of the
    input plus one, which is enough because each round consumes at least one
    element, and termination is a theorem ([Frame.replay_terminates]).

    ** Not modelled

    - What an Agent process does and the ACP schema ([agent]): external programs
      and a third-party package.  The events an Agent reports reach the model as
      arguments of the transactions of [Turns]; their conversion to Chat rows
      ([tasks/turn_events]) depends on that schema.
    - The handlers of [protocol_edge] that decode typed parameters and call a
      product workflow; [Gateway] hands such a request on as [Product].  The two
      routes of [shared_gateway.rs] that leave its lock (the file viewer and
      authentication) are not modelled.
    - The threads of the listener, static files and the session sockets
      ([local_http.rs], [session_dispatch.rs]); what they read and write is.
    - Task journals of old releases (their import is an argument of [TaskStore]),
      the reset and the usage report of the store, worktrees, settings, terminals,
      project files, diagnostics and support exports, which are mostly calls of
      the file system, of Git and of other processes.
    - The clients in other languages.

    Waiting on condition variables is represented by the state the waiter reads. *)

From Stdlib Require Export ZArith Lia.
From stdpp Require Export base option numbers sets list list_numbers strings gmap fin_maps.

#[export] Set Default Goal Selector "!".
#[export] Set Warnings "-clear-no-such-hyp".

(** ** Machine integers

    The App Server is built in the release profile without overflow checks, so
    [+] on [u64] and [usize] wraps.  Values are [Z] with their width written
    out; [usize] has 64 bits on every packaged platform. *)

Declare Scope u64_scope.
Delimit Scope u64_scope with u64.

Section MachineIntegers.
Local Open Scope Z_scope.

Definition u64_modulus : Z := 2 ^ 64.
Definition u64_max : Z := u64_modulus - 1.

(** The range of a [u64]. *)
Definition is_u64 (x : Z) : Prop := 0 <= x < u64_modulus.

(** [a + b] on [u64] (release profile). *)
Definition u64_add (a b : Z) : Z := (a + b) mod u64_modulus.
(** [a - b] on [u64] (release profile). *)
Definition u64_sub (a b : Z) : Z := (a - b) mod u64_modulus.
(** [u64::saturating_add], [u64::saturating_sub] and [u64::checked_add]. *)
Definition u64_saturating_add (a b : Z) : Z := Z.min (a + b) u64_max.
Definition u64_saturating_sub (a b : Z) : Z := Z.max (a - b) 0.
Definition u64_checked_add (a b : Z) : option Z :=
  if bool_decide (a + b < u64_modulus) then Some (a + b) else None.
Definition u64_saturating_mul (a b : Z) : Z := Z.min (a * b) u64_max.

#[global] Instance is_u64_dec x : Decision (is_u64 x).
Proof. unfold is_u64. apply _. Defined.

Lemma u64_add_small a b : is_u64 (a + b) -> u64_add a b = a + b.
Proof. intros H. unfold u64_add. by apply Z.mod_small. Qed.

Lemma u64_sub_small a b : is_u64 (a - b) -> u64_sub a b = a - b.
Proof. intros H. unfold u64_sub. by apply Z.mod_small. Qed.

Lemma u64_add_range a b : is_u64 (u64_add a b).
Proof. unfold u64_add, is_u64. apply Z.mod_pos_bound. done. Qed.

(** The successor of a machine integer is never the integer itself, also when
    it wraps. *)
Lemma u64_succ_ne a : is_u64 a -> u64_add a 1 <> a.
Proof.
  unfold is_u64, u64_add. intros Ha.
  destruct (decide (a + 1 = u64_modulus)) as [He|Hne].
  - rewrite He, Z.mod_same by done. intros <-. done.
  - rewrite Z.mod_small by lia. lia.
Qed.
End MachineIntegers.

#[global] Arguments u64_modulus : simpl never.
#[global] Arguments u64_max : simpl never.
#[global] Arguments u64_add : simpl never.
#[global] Arguments u64_sub : simpl never.
#[global] Arguments u64_saturating_add : simpl never.
#[global] Arguments u64_saturating_sub : simpl never.
#[global] Arguments u64_checked_add : simpl never.
#[global] Arguments u64_saturating_mul : simpl never.

Infix "+64" := u64_add (at level 50, left associativity) : u64_scope.
Open Scope u64_scope.

(** ** Results

    Rust's [Result<T, E>]. *)

Inductive result (T E : Type) : Type :=
| Ok (value : T)
| Err (error : E).
Arguments Ok {T E} _.
Arguments Err {T E} _.

Definition is_ok {T E} (r : result T E) : bool :=
  match r with Ok _ => true | Err _ => false end.

Definition result_bind {T U E} (r : result T E) (k : T -> result U E) : result U E :=
  match r with Ok v => k v | Err e => Err e end.

(** The [?] operator. *)
Declare Scope result_scope.
Delimit Scope result_scope with result.
Notation "'let?' x := r 'in' k" := (result_bind r (fun x => k))
  (at level 10, x name, r at level 100, k at level 200) : result_scope.
Notation "'check?' r 'in' k" := (result_bind r (fun _ => k))
  (at level 10, r at level 100, k at level 200) : result_scope.
Open Scope result_scope.

Definition ok_or {T E} (o : option T) (e : E) : result T E :=
  match o with Some v => Ok v | None => Err e end.

Lemma result_bind_ok {T U E} (r : result T E) (k : T -> result U E) v :
  result_bind r k = Ok v <-> exists w, r = Ok w /\ k w = Ok v.
Proof.
  destruct r as [w|e]; cbn; split.
  - intros H. by exists w.
  - intros (w' & [= ->] & H). done.
  - discriminate.
  - intros (w & [=] & _).
Qed.

(** ** Automation *)

Create HintDb openaide.
Create Rewrite HintDb openaide.
#[export] Hint Rewrite @length_app @length_drop @length_take @length_fmap
  @fmap_app @filter_app : openaide.

(** Reduce [bool_decide] and [decide] tests, equations between constructors
    and pairs, and map lookups, then try to finish. *)
Ltac simp_all :=
  repeat match goal with
  | H : Some _ = Some _ |- _ => injection H as H
  | H : Ok _ = Ok _ |- _ => injection H as H
  | H : Err _ = Err _ |- _ => injection H as H
  | H : (_, _) = (_, _) |- _ => injection H as H
  | H : Some _ = None |- _ => discriminate H
  | H : None = Some _ |- _ => discriminate H
  | H : Ok _ = Err _ |- _ => discriminate H
  | H : Err _ = Ok _ |- _ => discriminate H
  | H : bool_decide _ = true |- _ => apply bool_decide_eq_true in H
  | H : bool_decide _ = false |- _ => apply bool_decide_eq_false in H
  | H : andb _ _ = true |- _ => apply andb_true_iff in H as [? ?]
  | H : negb _ = true |- _ => apply negb_true_iff in H
  end; subst.

(** Case analysis on the first test of the goal or of a hypothesis. *)
Ltac split_test :=
  match goal with
  | |- context [bool_decide ?P] => destruct (bool_decide_reflect P)
  | H : context [bool_decide ?P] |- _ => destruct (bool_decide_reflect P)
  end.

(** ** Sums over maps and lists *)

Section Sums.
Context {K V : Type} `{Countable K}.
Local Open Scope Z_scope.

Fixpoint list_sum {A} (f : A -> Z) (l : list A) : Z :=
  match l with [] => 0 | x :: l => f x + list_sum f l end.

(** The sum of [f] over the values of a map. *)
Definition map_sum (f : V -> Z) (m : gmap K V) : Z := map_fold (fun _ v s => f v + s) 0 m.

Lemma list_sum_app {A} (f : A -> Z) l k : list_sum f (l ++ k) = list_sum f l + list_sum f k.
Proof. induction l; cbn; lia. Qed.

Lemma list_sum_nonneg {A} (f : A -> Z) l : (forall x, x ∈ l -> 0 <= f x) -> 0 <= list_sum f l.
Proof.
  induction l as [|x l IH]; intros Hf; cbn; [lia|].
  assert (0 <= f x) by (apply Hf; left). assert (0 <= list_sum f l); [|lia].
  apply IH. intros y Hy. apply Hf. by right.
Qed.

Lemma map_sum_empty f : map_sum f ∅ = 0.
Proof. apply map_fold_empty. Qed.

Lemma map_sum_insert_new f m k v :
  m !! k = None -> map_sum f (<[k := v]> m) = f v + map_sum f m.
Proof.
  intros Hk. unfold map_sum. rewrite map_fold_insert_L; [done| |done].
  intros. lia.
Qed.

Lemma map_sum_delete f m k v : m !! k = Some v -> map_sum f m = f v + map_sum f (delete k m).
Proof.
  intros Hk. rewrite <- (map_sum_insert_new f (delete k m) k v) by apply lookup_delete_eq.
  by rewrite insert_delete_eq, insert_id.
Qed.

Lemma map_sum_insert f m k v :
  map_sum f (<[k := v]> m) = f v + map_sum f m - default 0 (f <$> m !! k).
Proof.
  destruct (m !! k) as [w|] eqn:Hk; cbn.
  - rewrite <- insert_delete_eq, map_sum_insert_new by apply lookup_delete_eq.
    rewrite (map_sum_delete f m k w Hk). lia.
  - rewrite map_sum_insert_new by done. lia.
Qed.

Lemma map_sum_nonneg f m : (forall k v, m !! k = Some v -> 0 <= f v) -> 0 <= map_sum f m.
Proof.
  induction m as [|k v m Hk IH] using map_ind; intros Hf.
  - by rewrite map_sum_empty.
  - rewrite map_sum_insert_new by done.
    assert (0 <= f v) by (apply (Hf k); apply lookup_insert_eq).
    assert (0 <= map_sum f m); [|lia]. apply IH. intros j w Hj. apply (Hf j).
    rewrite lookup_insert_ne; [done|]. intros ->. congruence.
Qed.

Lemma map_sum_lookup_le f m k v :
  (forall j w, m !! j = Some w -> 0 <= f w) -> m !! k = Some v -> f v <= map_sum f m.
Proof.
  intros Hf Hk. rewrite (map_sum_delete f m k v Hk).
  assert (0 <= map_sum f (delete k m)); [|lia]. apply map_sum_nonneg.
  intros j w Hj. apply lookup_delete_Some in Hj as [_ Hj]. eauto.
Qed.

Lemma map_sum_ext f g m :
  (forall k v, m !! k = Some v -> f v = g v) -> map_sum f m = map_sum g m.
Proof.
  induction m as [|k v m Hk IH] using map_ind; intros Hfg; [by rewrite !map_sum_empty|].
  rewrite !map_sum_insert_new by done. rewrite (Hfg k v) by apply lookup_insert_eq.
  rewrite IH; [done|]. intros j w Hj. apply (Hfg j). rewrite lookup_insert_ne; [done|].
  intros ->. congruence.
Qed.

(** A sum in which every value but one is zero. *)
Lemma map_sum_single f m k :
  (forall j v, m !! j = Some v -> j <> k -> f v = 0) -> map_sum f m = default 0 (f <$> m !! k).
Proof.
  intros Hz.
  assert (forall m' : gmap K V, (forall j v, m' !! j = Some v -> f v = 0) -> map_sum f m' = 0) as Hzero.
  { intros m'. induction m' as [|j v m' Hj IH] using map_ind; intros Hf.
    - apply map_sum_empty.
    - rewrite map_sum_insert_new, (Hf j) by (done || apply lookup_insert_eq).
      rewrite IH; [done|]. intros i w Hi. apply (Hf i). rewrite lookup_insert_ne; [done|].
      intros ->. congruence. }
  destruct (m !! k) as [v|] eqn:Hk; cbn.
  - rewrite (map_sum_delete f m k v Hk), Hzero; [lia|].
    intros j w Hj. apply lookup_delete_Some in Hj as [Hne Hj]. by apply (Hz j).
  - apply Hzero. intros j v Hj. apply (Hz j); [done|]. intros ->. congruence.
Qed.
End Sums.

(** [Iterator::min_by_key]: the first element with the least key. *)
Definition min_by_key {A} (key : A -> Z) (l : list A) : option A :=
  foldl (fun acc x => match acc with
                      | None => Some x
                      | Some y => if bool_decide (key x < key y)%Z then Some x else Some y
                      end) None l.

Lemma min_by_key_spec {A} (key : A -> Z) l :
  match min_by_key key l with
  | None => l = []
  | Some x => x ∈ l /\ forall y, y ∈ l -> (key x <= key y)%Z
  end.
Proof.
  induction l as [|a l IH] using rev_ind; [done|].
  unfold min_by_key in *. rewrite foldl_snoc. destruct (foldl _ None l) as [y|]; cbn.
  - destruct IH as [Hin Hmin]. split_test; (split; [set_solver|]); intros z Hz;
      (apply elem_of_app in Hz as [Hz|Hz%list_elem_of_singleton];
       [specialize (Hmin _ Hz)|subst]; lia).
  - subst l. cbn. split; [set_solver|]. intros y Hy%list_elem_of_singleton. subst. lia.
Qed.

(** ** Filters *)

Lemma filter_all {A} (P : A -> Prop) `{forall x, Decision (P x)} (l : list A) :
  (forall x, x ∈ l -> P x) -> filter P l = l.
Proof.
  induction l as [|x l IH]; intros Hl; [done|]. rewrite filter_cons_True by (apply Hl; left).
  f_equal. apply IH. intros y Hy. apply Hl. by right.
Qed.

Lemma filter_none {A} (P : A -> Prop) `{forall x, Decision (P x)} (l : list A) :
  (forall x, x ∈ l -> ~ P x) -> filter P l = [].
Proof.
  induction l as [|x l IH]; intros Hl; [done|]. rewrite filter_cons_False by (apply Hl; left).
  apply IH. intros y Hy. apply Hl. by right.
Qed.
