(* ===== verification/ReliableSession.v ===== *)
(** * Resumable RPC sessions

    Models [openaide-rs/app-server/src/protocol_edge/reliable_session.rs] and
    [protocol_edge/delivery_signal.rs]: the transport independent half of a
    resumable RPC session.  A registry maps session ids to sessions; each session
    accepts client frames in sequence, exactly once, and keeps a bounded window
    of server frames for replay.  Every registry method runs under the registry
    mutex, so a concurrent execution is a sequence of the atomic operations
    below in any order ([poll] takes the lock twice and is two operations).

    The JSON message type and the UUIDs drawn by [open] are parameters. *)

From S2P Require Import Prelude.

Local Open Scope Z_scope.

Section ReliableSession.
Context {Value : Type}.

Definition MAX_SERVER_REPLAY_FRAMES : Z := 1024.

Record ServerFrame := mkServerFrame { sequence : Z; message : Value }.

Record ReliableSession := mkSession {
  connection_id : string;
  last_client_sequence : Z;
  next_server_sequence : Z;
  server_frames : list ServerFrame;
  link_epoch : Z;
}.

(** The [DeliverySignal] is its generation counter. *)
Record Registry := mkRegistry {
  server_id : string;
  sessions : gmap string ReliableSession;
  deliveries : Z;
}.

Record AttachedLink := mkLink {
  link_session_id : string;
  link_server_id : string;
  link_connection_id : string;
  link_last_client_sequence : Z;
  epoch : Z;
}.

Inductive AttachError := UnknownSession | WrongConnection.

Record OpenedSession := mkOpened { opened_session_id : string; opened_server_id : string }.

Inductive AcceptClientFrame :=
| Accepted
| Duplicate
| Gap (expected : Z)
| AcceptUnknownSession
| AcceptWrongConnection.

Inductive PollError :=
| PollUnknownSession
| InvalidAcknowledgement
| ReplayExpired.

(** [DeliverySignal::notify]. *)
Definition notify (r : Registry) : Registry :=
  mkRegistry (server_id r) (sessions r) (u64_add (deliveries r) 1).

Definition set_session (sid : string) (s : ReliableSession) (r : Registry) : Registry :=
  mkRegistry (server_id r) (<[sid := s]> (sessions r)) (deliveries r).

Definition with_delivery_signal (server : string) (signal : Z) : Registry :=
  mkRegistry server ∅ signal.

(** [uuid] is the session id drawn by [Uuid::new_v4]. *)
Definition open (uuid : string) (c : string) (r : Registry) : OpenedSession * Registry :=
  (mkOpened uuid (server_id r),
   set_session uuid (mkSession c 0 1 [] 0) r).

Definition attach_link (uuid : string) (c : string) (resume : option string) (r : Registry)
  : result AttachedLink AttachError * Registry :=
  let '(sid, r) :=
    match resume with
    | Some sid => (sid, r)
    | None => let '(o, r') := open uuid c r in (opened_session_id o, r')
    end in
  match sessions r !! sid with
  | None => (Err UnknownSession, r)
  | Some s =>
      if bool_decide (connection_id s <> c) then (Err WrongConnection, r)
      else
        let e := u64_add (link_epoch s) 1 in
        let s' := mkSession (connection_id s) (last_client_sequence s)
                    (next_server_sequence s) (server_frames s) e in
        (Ok (mkLink sid (server_id r) c (last_client_sequence s) e),
         notify (set_session sid s' r))
  end.

Definition link_is_current (l : AttachedLink) (r : Registry) : bool :=
  match sessions r !! link_session_id l with
  | Some s => bool_decide (link_epoch s = epoch l)
  | None => false
  end.

(** The second component is the message handed to [dispatch], if any. *)
Definition accept_client_frame (sid c : string) (q : Z) (m : Value) (r : Registry)
  : AcceptClientFrame * option Value * Registry :=
  match sessions r !! sid with
  | None => (AcceptUnknownSession, None, r)
  | Some s =>
      if bool_decide (connection_id s <> c) then (AcceptWrongConnection, None, r)
      else if bool_decide (q <= last_client_sequence s) then (Duplicate, None, r)
      else
        let expected := u64_add (last_client_sequence s) 1 in
        if bool_decide (q <> expected) then (Gap expected, None, r)
        else
          let s' := mkSession (connection_id s) q (next_server_sequence s)
                      (server_frames s) (link_epoch s) in
          (Accepted, Some m, set_session sid s' r)
  end.

Definition enqueue_server_message (sid : string) (m : Value) (r : Registry)
  : bool * Registry :=
  match sessions r !! sid with
  | None => (false, r)
  | Some s =>
      let q := next_server_sequence s in
      let frames := server_frames s ++ [mkServerFrame q m] in
      let frames :=
        if bool_decide (MAX_SERVER_REPLAY_FRAMES < Z.of_nat (length frames))
        then tail frames else frames in
      let s' := mkSession (connection_id s) (last_client_sequence s)
                  (u64_add q 1) frames (link_epoch s) in
      (true, notify (set_session sid s' r))
  end.

Definition session_connection_id (sid : string) (r : Registry) : option string :=
  connection_id <$> sessions r !! sid.

Definition checked_session (sid : string) (after : Z) (r : Registry)
  : result ReliableSession PollError :=
  match sessions r !! sid with
  | None => Err PollUnknownSession
  | Some s =>
      if bool_decide (next_server_sequence s <= after) then Err InvalidAcknowledgement
      else
        match head (server_frames s) with
        | Some f =>
            if bool_decide (u64_saturating_add after 1 < sequence f)
            then Err ReplayExpired else Ok s
        | None => Ok s
        end
  end.

(** The loop of [acknowledge]: pop acknowledged frames off the front. *)
Fixpoint pop_acknowledged (through : Z) (frames : list ServerFrame) : list ServerFrame :=
  match frames with
  | [] => []
  | f :: rest =>
      if bool_decide (sequence f <= through) then pop_acknowledged through rest else frames
  end.

Definition acknowledge (sid : string) (through : Z) (r : Registry)
  : result unit PollError * Registry :=
  match checked_session sid through r with
  | Err e => (Err e, r)
  | Ok s =>
      let s' := mkSession (connection_id s) (last_client_sequence s)
                  (next_server_sequence s) (pop_acknowledged through (server_frames s))
                  (link_epoch s) in
      (Ok tt, set_session sid s' r)
  end.

Definition frames_after (sid : string) (after : Z) (r : Registry)
  : result (list ServerFrame) PollError :=
  let? s := checked_session sid after r in
  Ok (filter (fun f => after < sequence f) (server_frames s)).

Definition poll (sid : string) (after : Z) (r : Registry)
  : result (list ServerFrame) PollError * Registry :=
  match acknowledge sid after r with
  | (Err e, r') => (Err e, r')
  | (Ok _, r') => (frames_after sid after r', r')
  end.

(** ** Executions

    An execution is a list of atomic operations.  It records what a client or
    the application observes: dispatched messages, enqueued server messages and
    accepted acknowledgements. *)

Inductive operation :=
| OpOpen (uuid c : string)
| OpAttach (uuid c : string) (resume : option string)
| OpAccept (sid c : string) (q : Z) (m : Value)
| OpEnqueue (sid : string) (m : Value)
| OpAcknowledge (sid : string) (through : Z).

Inductive event :=
| Dispatched (sid : string) (q : Z) (m : Value)
| Enqueued (sid : string) (m : Value)
| Acknowledged (sid : string) (through : Z).

Definition exec (o : operation) (r : Registry) : Registry * list event :=
  match o with
  | OpOpen uuid c => ((open uuid c r).2, [])
  | OpAttach uuid c resume => ((attach_link uuid c resume r).2, [])
  | OpAccept sid c q m =>
      let '(_, dispatched, r') := accept_client_frame sid c q m r in
      (r', match dispatched with Some m' => [Dispatched sid q m'] | None => [] end)
  | OpEnqueue sid m =>
      let '(queued, r') := enqueue_server_message sid m r in
      (r', if queued then [Enqueued sid m] else [])
  | OpAcknowledge sid through =>
      match acknowledge sid through r with
      | (Ok _, r') => (r', [Acknowledged sid through])
      | (Err _, r') => (r', [])
      end
  end.

Fixpoint run (ops : list operation) (r : Registry) : Registry * list event :=
  match ops with
  | [] => (r, [])
  | o :: ops => let '(r1, e1) := exec o r in let '(r2, e2) := run ops r1 in (r2, e1 ++ e2)
  end.

(** Ids drawn by an operation. *)
Definition drawn (o : operation) : list string :=
  match o with
  | OpOpen uuid _ | OpAttach uuid _ None => [uuid]
  | _ => []
  end.

(** Operation arguments are [u64] values. *)
Definition well_typed (o : operation) : Prop :=
  match o with
  | OpAccept _ _ q _ => is_u64 q
  | OpAcknowledge _ t => is_u64 t
  | _ => True
  end.

Definition dispatched_of (sid : string) (evs : list event) : list (Z * Value) :=
  omap (fun e => match e with
                 | Dispatched s q m => if bool_decide (s = sid) then Some (q, m) else None
                 | _ => None end) evs.

Definition enqueued_of (sid : string) (evs : list event) : list Value :=
  omap (fun e => match e with
                 | Enqueued s m => if bool_decide (s = sid) then Some m else None
                 | _ => None end) evs.

Definition acknowledged_of (sid : string) (evs : list event) : list Z :=
  omap (fun e => match e with
                 | Acknowledged s t => if bool_decide (s = sid) then Some t else None
                 | _ => None end) evs.

(** The abstract server stream: the n-th enqueued message has sequence n. *)
Fixpoint number_from (q : Z) (l : list Value) : list ServerFrame :=
  match l with
  | [] => []
  | m :: l => mkServerFrame q m :: number_from (q + 1) l
  end.
(** ** The numbered stream *)

Lemma length_number_from q l : length (number_from q l) = length l.
Proof. revert q. induction l; intros q; cbn; auto. Qed.

Lemma number_from_app q l k :
  number_from q (l ++ k) = number_from q l ++ number_from (q + Z.of_nat (length l)) k.
Proof.
  revert q. induction l as [|m l IH]; intros q; cbn [number_from app length].
  - f_equal. lia.
  - rewrite IH. cbn. do 3 f_equal. lia.
Qed.

Lemma pop_number_from t q l :
  pop_acknowledged t (number_from q l)
  = number_from (Z.max q (t + 1)) (drop (Z.to_nat (t + 1 - q)) l).
Proof.
  revert q. induction l as [|m l IH]; intros q; cbn [number_from pop_acknowledged].
  - by rewrite drop_nil.
  - cbn [sequence]. split_test.
    + rewrite IH. replace (Z.to_nat (t + 1 - q)) with (S (Z.to_nat (t + 1 - (q + 1)))) by lia.
      cbn. f_equal. lia.
    + replace (Z.to_nat (t + 1 - q)) with O by lia. cbn. by replace (Z.max q (t + 1)) with q by lia.
Qed.

Lemma filter_number_from t q l :
  filter (fun f => t < sequence f) (number_from q l)
  = number_from (Z.max q (t + 1)) (drop (Z.to_nat (t + 1 - q)) l).
Proof.
  revert q. induction l as [|m l IH]; intros q; cbn [number_from].
  - by rewrite drop_nil.
  - rewrite filter_cons, IH. cbn [sequence]. case_decide.
    + replace (Z.to_nat (t + 1 - q)) with O by lia.
      replace (Z.to_nat (t + 1 - (q + 1))) with O by lia. rewrite !drop_0.
      replace (Z.max q (t + 1)) with q by lia. by replace (Z.max (q + 1) (t + 1)) with (q + 1) by lia.
    + replace (Z.to_nat (t + 1 - q)) with (S (Z.to_nat (t + 1 - (q + 1)))) by lia.
      cbn. f_equal. lia.
Qed.

(** ** The session invariant

    [enq], [disp] and [acks] are the histories of the session: every message
    ever enqueued, every frame ever dispatched and every accepted
    acknowledgement.  [d] frames have left the replay window. *)

Record session_inv (s : ReliableSession) (enq : list Value)
    (disp : list (Z * Value)) (acks : list Z) : Prop := {
  si_last : is_u64 (last_client_sequence s);
  si_dispatched : disp.*1 = seqZ 1 (last_client_sequence s);
  si_next : next_server_sequence s = Z.of_nat (length enq) + 1;
  si_window : exists d : nat,
    server_frames s = number_from (Z.of_nat d + 1) (drop d enq) /\
    (d <= length enq)%nat /\
    Z.of_nat d <= Z.max (foldr Z.max 0 acks)
                   (Z.of_nat (length enq) - MAX_SERVER_REPLAY_FRAMES);
  si_fits : is_u64 (next_server_sequence s);
  si_bound : Z.of_nat (length (server_frames s)) <= MAX_SERVER_REPLAY_FRAMES;
}.

Lemma session_inv_new c : session_inv (mkSession c 0 1 [] 0) [] [] [].
Proof.
  split; cbn; try done. exists O. cbn. repeat split; lia.
Qed.

Lemma session_inv_epoch s e enq disp acks :
  session_inv s enq disp acks ->
  session_inv (mkSession (connection_id s) (last_client_sequence s)
                 (next_server_sequence s) (server_frames s) e) enq disp acks.
Proof. by intros []. Qed.

Lemma session_inv_accept s q m enq disp acks :
  session_inv s enq disp acks ->
  is_u64 q -> last_client_sequence s < q -> q = u64_add (last_client_sequence s) 1 ->
  session_inv (mkSession (connection_id s) q (next_server_sequence s)
                 (server_frames s) (link_epoch s)) enq (disp ++ [(q, m)]) acks.
Proof.
  intros [Hl Hd Hn Hw Hfit Hb] Hq Hlt He. split; cbn; try done.
  assert (q = last_client_sequence s + 1) as ->.
  { rewrite He. apply u64_add_small. unfold is_u64, u64_modulus in *. lia. }
  rewrite fmap_app, Hd. unfold is_u64 in Hl.
  rewrite (seqZ_app 1 (last_client_sequence s) 1) by lia. cbn.
  f_equal. rewrite Z.add_comm. done.
Qed.

Lemma session_inv_enqueue s m enq disp acks :
  session_inv s enq disp acks ->
  Z.of_nat (length enq) + 1 < u64_max ->
  let frames := server_frames s ++ [mkServerFrame (next_server_sequence s) m] in
  session_inv
    (mkSession (connection_id s) (last_client_sequence s)
       (u64_add (next_server_sequence s) 1)
       (if bool_decide (MAX_SERVER_REPLAY_FRAMES < Z.of_nat (length frames))
        then tail frames else frames) (link_epoch s))
    (enq ++ [m]) disp acks.
Proof.
  intros [Hl Hd Hn (d & Hw & Hdl & Hda) Hfit Hb] Hsz frames.
  assert (frames = number_from (Z.of_nat d + 1) (drop d (enq ++ [m]))) as Hf.
  { unfold frames. rewrite Hw, Hn, drop_app_le, number_from_app by done. cbn.
    do 3 f_equal. rewrite length_drop. lia. }
  assert (length frames = (S (length enq) - d)%nat) as Hlen.
  { rewrite Hf, length_number_from, length_drop, length_app. cbn. lia. }
  split; cbn [last_client_sequence next_server_sequence server_frames]; try done.
  - rewrite Hn, u64_add_small, length_app; cbn; [lia|].
    unfold is_u64, u64_max, u64_modulus in *. lia.
  - rewrite length_app. cbn [length]. split_test.
    + exists (S d). rewrite Hf, <- Nat.add_1_r, <- drop_drop. split.
      * destruct (drop d (enq ++ [m])); cbn; [done|]. f_equal. lia.
      * rewrite Hw in Hb. unfold MAX_SERVER_REPLAY_FRAMES in *. lia.
    + exists d. split; [done|]. unfold MAX_SERVER_REPLAY_FRAMES in *. lia.
  - apply u64_add_range.
  - assert (Z.of_nat (length frames) <= MAX_SERVER_REPLAY_FRAMES + 1) as Hle.
    { unfold frames. rewrite length_app. cbn. lia. }
    split_test; [|lia]. destruct frames; cbn in *; lia.
Qed.

Lemma session_inv_acknowledge s t enq disp acks :
  session_inv s enq disp acks -> 0 <= t < next_server_sequence s ->
  session_inv (mkSession (connection_id s) (last_client_sequence s)
                 (next_server_sequence s) (pop_acknowledged t (server_frames s))
                 (link_epoch s)) enq disp (acks ++ [t]).
Proof.
  intros [Hl Hd Hn (d & Hw & Hdl & Hda) Hfit Hb] Ht. rewrite Hn in Ht.
  split; cbn; try done.
  - exists (Nat.max d (Z.to_nat t)). rewrite Hw, pop_number_from, drop_drop. split.
    + f_equal; [lia|]. f_equal. lia.
    + rewrite foldr_app. cbn. split; [lia|].
      assert (forall b, 0 <= b -> Z.max b (foldr Z.max 0 acks) <= foldr Z.max b acks) as Hmax.
      { clear. intros b Hb. induction acks as [|a l IH]; cbn in *; lia. }
      specialize (Hmax (Z.max t 0)). lia.
  - rewrite Hw, length_number_from in Hb. rewrite Hw, pop_number_from, length_number_from.
    rewrite drop_drop, length_drop. rewrite length_drop in Hb. lia.
Qed.

(** ** The registry invariant *)

Definition history (sid : string) (evs : list event) : list Value * list (Z * Value) * list Z :=
  (enqueued_of sid evs, dispatched_of sid evs, acknowledged_of sid evs).

Lemma history_app sid evs es :
  history sid (evs ++ es)
  = (enqueued_of sid evs ++ enqueued_of sid es,
     dispatched_of sid evs ++ dispatched_of sid es,
     acknowledged_of sid evs ++ acknowledged_of sid es).
Proof. unfold history, enqueued_of, dispatched_of, acknowledged_of. by rewrite !omap_app. Qed.

Definition session_ok (s : ReliableSession) (h : list Value * list (Z * Value) * list Z) : Prop :=
  session_inv s h.1.1 h.1.2 h.2.

Record registry_inv (r : Registry) (evs : list event) (ids : list string) : Prop := {
  ri_session : forall sid s, sessions r !! sid = Some s ->
    sid ∈ ids /\ session_ok s (history sid evs);
  ri_absent : forall sid, sessions r !! sid = None -> history sid evs = ([], [], []);
}.

(** Updating one session and observing events of that session only. *)
Lemma registry_inv_update r r' evs es ids ids' sid s' :
  registry_inv r evs ids ->
  sessions r' = <[sid := s']> (sessions r) ->
  sid ∈ ids' -> ids ⊆ ids' ->
  (forall sid', sid' <> sid -> history sid' es = ([], [], [])) ->
  session_ok s' (history sid (evs ++ es)) ->
  registry_inv r' (evs ++ es) ids'.
Proof.
  intros [Hs Ha] Hr Hin Hsub Hes Hok.
  assert (forall sid', sid' <> sid -> history sid' (evs ++ es) = history sid' evs) as Hother.
  { intros sid' Hne. specialize (Hes sid' Hne). unfold history in Hes.
    injection Hes as He Hd Hk. rewrite history_app, He, Hd, Hk, !app_nil_r. done. }
  split; intros sid'; rewrite Hr; destruct (decide (sid' = sid)) as [->|Hne].
  - rewrite lookup_insert_eq. intros s [= <-]. done.
  - rewrite lookup_insert_ne, Hother by done. intros s Hl.
    destruct (Hs _ _ Hl). eauto.
  - rewrite lookup_insert_eq. discriminate.
  - rewrite lookup_insert_ne, Hother by done. apply Ha.
Qed.

(** An operation that changes no session and is observed by nobody. *)
Lemma registry_inv_skip r evs ids ids' :
  registry_inv r evs ids -> ids ⊆ ids' -> registry_inv r (evs ++ []) ids'.
Proof.
  rewrite app_nil_r. intros [Hs Ha] Hsub. split; [|done].
  intros sid s Hl. destruct (Hs _ _ Hl). eauto.
Qed.

(** A message enqueued once more still has a [u64] sequence. *)
Definition room (evs : list event) : Prop := Z.of_nat (length evs) + 1 < u64_max.

Lemma enqueued_length sid evs : (length (enqueued_of sid evs) <= length evs)%nat.
Proof.
  unfold enqueued_of. induction evs as [|[] evs IH]; cbn; try split_test; cbn; lia.
Qed.

Ltac other_session :=
  intros ? ?; unfold history, enqueued_of, dispatched_of, acknowledged_of; cbn;
  try (rewrite bool_decide_eq_false_2 by done); reflexivity.

Ltac own_session :=
  rewrite history_app; unfold session_ok, enqueued_of at 2, dispatched_of at 2,
    acknowledged_of at 2; cbn;
  repeat match goal with
  | |- context [bool_decide (?x = ?x)] => rewrite (bool_decide_eq_true_2 (x = x)) by done
  end; rewrite ?app_nil_r.

Lemma exec_open uuid c r evs ids :
  registry_inv r evs ids -> uuid ∉ ids ->
  registry_inv (open uuid c r).2 (evs ++ []) (ids ++ [uuid]).
Proof.
  intros Hinv Hfresh. eapply registry_inv_update; [done|reflexivity|set_solver|set_solver|done|].
  assert (sessions r !! uuid = None) as Hnone.
  { destruct (sessions r !! uuid) eqn:E; [|done].
    by destruct (ri_session _ _ _ Hinv _ _ E). }
  apply (ri_absent _ _ _ Hinv) in Hnone. rewrite app_nil_r, Hnone. apply session_inv_new.
Qed.

Lemma exec_attach_existing uuid c sid r evs ids :
  registry_inv r evs ids ->
  registry_inv (attach_link uuid c (Some sid) r).2 (evs ++ []) ids.
Proof.
  intros Hinv. cbn. destruct (sessions r !! sid) as [s|] eqn:E;
    [|by apply (registry_inv_skip _ _ ids)].
  destruct (ri_session _ _ _ Hinv _ _ E) as [Hin Hok].
  split_test; [by apply (registry_inv_skip _ _ ids)|].
  eapply registry_inv_update; [done|reflexivity|done|done|done|].
  rewrite app_nil_r. by apply session_inv_epoch.
Qed.

Lemma exec_preserves o r evs ids :
  registry_inv r evs ids -> well_typed o -> room evs ->
  (forall uuid, uuid ∈ drawn o -> uuid ∉ ids) ->
  registry_inv (exec o r).1 (evs ++ (exec o r).2) (ids ++ drawn o).
Proof.
  intros Hinv Hwt Hroom Hfresh. destruct o as [uuid c|uuid c [sid|]|sid c q m|sid m|sid t]; cbn [drawn] in *.
  - apply exec_open; [done|]. apply Hfresh. set_solver.
  - rewrite (app_nil_r ids). by apply exec_attach_existing.
  - apply (exec_open uuid c) in Hinv; [|apply Hfresh; set_solver].
    apply (exec_attach_existing uuid c uuid) in Hinv. rewrite app_nil_r in Hinv. exact Hinv.
  - rewrite (app_nil_r ids). cbn. unfold accept_client_frame.
    destruct (sessions r !! sid) as [s|] eqn:E; [|by apply (registry_inv_skip _ _ ids)].
    destruct (ri_session _ _ _ Hinv _ _ E) as [Hin Hok].
    repeat (split_test; [by apply (registry_inv_skip _ _ ids)|]).
    eapply registry_inv_update; [done|reflexivity|done|done|other_session|].
    own_session. apply session_inv_accept; [done|done|lia|].
    by destruct (decide (q = u64_add (last_client_sequence s) 1)).
  - rewrite (app_nil_r ids). cbn. unfold enqueue_server_message.
    destruct (sessions r !! sid) as [s|] eqn:E; [|by apply (registry_inv_skip _ _ ids)].
    destruct (ri_session _ _ _ Hinv _ _ E) as [Hin Hok].
    eapply registry_inv_update; [done|reflexivity|done|done|other_session|].
    own_session. apply session_inv_enqueue; [done|].
    pose proof (enqueued_length sid evs). unfold room in Hroom. cbn. lia.
  - rewrite (app_nil_r ids). cbn. unfold acknowledge, checked_session.
    destruct (sessions r !! sid) as [s|] eqn:E; [|by apply (registry_inv_skip _ _ ids)].
    destruct (ri_session _ _ _ Hinv _ _ E) as [Hin Hok].
    split_test; [by apply (registry_inv_skip _ _ ids)|].
    destruct (head (server_frames s)) as [f|] eqn:Hh;
      [split_test; [by apply (registry_inv_skip _ _ ids)|]|];
      (eapply registry_inv_update; [done|reflexivity|done|done|other_session|];
       own_session; apply session_inv_acknowledge; [done|]; unfold well_typed, is_u64 in Hwt; lia).
Qed.

(** ** Executions preserve the invariant *)

Definition all_drawn (ops : list operation) : list string := mjoin (drawn <$> ops).

(** A well-typed execution short enough for its sequences to fit a [u64],
    in which no UUID is drawn twice. *)
Record valid_ops (ops : list operation) : Prop := {
  vo_typed : Forall well_typed ops;
  vo_short : Z.of_nat (length ops) + 1 < u64_max;
  vo_fresh : NoDup (all_drawn ops);
}.

Lemma exec_events o r : (length (exec o r).2 <= 1)%nat.
Proof.
  destruct o as [| |sid c q m|sid m|sid t]; cbn; try lia.
  - destruct (accept_client_frame sid c q m r) as [[? []] ?]; cbn; lia.
  - destruct (enqueue_server_message sid m r) as [[] ?]; cbn; lia.
  - destruct (acknowledge sid t r) as [[] ?]; cbn; lia.
Qed.

Lemma run_cons o ops r :
  run (o :: ops) r
  = ((run ops (exec o r).1).1, (exec o r).2 ++ (run ops (exec o r).1).2).
Proof. cbn [run]. destruct (exec o r) as [r1 e1]. cbn [fst snd]. by destruct (run ops r1). Qed.

Lemma run_preserves ops r evs ids :
  registry_inv r evs ids -> Forall well_typed ops ->
  Z.of_nat (length evs + length ops) + 1 < u64_max ->
  NoDup (ids ++ all_drawn ops) ->
  registry_inv (run ops r).1 (evs ++ (run ops r).2) (ids ++ all_drawn ops).
Proof.
  revert r evs ids. induction ops as [|o ops IH]; intros r evs ids Hinv Hwt Hlen Hnd.
  { apply (registry_inv_skip _ _ ids); [done|set_solver]. }
  apply Forall_cons_1 in Hwt as [Ho Hwt]. rewrite run_cons. cbn [fst snd all_drawn fmap list_fmap mjoin list_join] in *.
  rewrite !app_assoc. apply IH; [|done| |].
  - apply exec_preserves; [done|done| |].
    + unfold room. cbn in Hlen. lia.
    + intros uuid Hin Hids. apply NoDup_app in Hnd as (_ & Hdis & _).
      apply (Hdis uuid Hids). cbn. set_solver.
  - pose proof (exec_events o r). rewrite length_app. cbn in Hlen. lia.
  - rewrite <- app_assoc. exact Hnd.
Qed.

Definition execution (server : string) (signal : Z) (ops : list operation)
  : Registry * list event := run ops (with_delivery_signal server signal).

Lemma execution_inv server signal ops :
  valid_ops ops ->
  registry_inv (execution server signal ops).1 (execution server signal ops).2 (all_drawn ops).
Proof.
  intros [Hwt Hlen Hnd]. apply (run_preserves ops _ [] []); [|done|cbn; lia|done].
  split; intros sid; cbn; [by rewrite lookup_empty|done].
Qed.

Lemma execution_session server signal ops sid s :
  valid_ops ops -> sessions (execution server signal ops).1 !! sid = Some s ->
  session_ok s (history sid (execution server signal ops).2).
Proof. intros Hv Hl. by apply (ri_session _ _ _ (execution_inv server signal ops Hv)). Qed.

(** [frames_after] on a session that satisfies the invariant: the stream from
    [after] on, unless the window is empty, when it is the empty batch. *)
Lemma frames_after_spec s sid after r h :
  sessions r !! sid = Some s -> session_ok s h -> is_u64 after ->
  frames_after sid after r
  = if bool_decide (next_server_sequence s <= after) then Err InvalidAcknowledgement
    else match head (server_frames s) with
         | Some f => if bool_decide (after + 1 < sequence f) then Err ReplayExpired
                     else Ok (number_from (after + 1) (drop (Z.to_nat after) h.1.1))
         | None => Ok []
         end.
Proof.
  intros Hs [_ _ Hn (d & Hw & Hdl & _) Hfit _] Ha. unfold frames_after, checked_session. rewrite Hs.
  split_test; [done|]. rewrite Hn in *. unfold is_u64 in *.
  destruct (drop d h.1.1) as [|m rest] eqn:Hd; rewrite Hw; cbn; [by rewrite Hw|].
  unfold u64_saturating_add.
  repeat split_test; cbn; try done; try (unfold u64_max, u64_modulus in *; lia).
  f_equal. rewrite Hw. change (mkServerFrame (Z.of_nat d + 1) m :: number_from (Z.of_nat d + 1 + 1) rest)
    with (number_from (Z.of_nat d + 1) (m :: rest)).
  rewrite <- Hd, filter_number_from, drop_drop. f_equal; [lia|]. f_equal. lia.
Qed.

(** An empty window means that the whole stream was acknowledged. *)
Lemma empty_window_acknowledged s h :
  session_ok s h -> head (server_frames s) = None ->
  Z.of_nat (length h.1.1) <= foldr Z.max 0 h.2.
Proof.
  intros [_ _ _ (d & Hw & Hdl & Hda) _ _] Hh.
  assert (drop d h.1.1 = []) as Hd.
  { rewrite Hw in Hh. by destruct (drop d h.1.1). }
  apply (f_equal length) in Hd. rewrite length_drop in Hd. cbn in Hd.
  unfold MAX_SERVER_REPLAY_FRAMES in Hda.
  destruct (decide (d = O)) as [->|]; [|lia].
  assert (0 <= foldr Z.max 0 h.2) by (clear; induction h.2; cbn; lia). lia.
Qed.

Lemma foldr_max_le acks t : 0 <= t -> Forall (fun a => a <= t) acks -> foldr Z.max 0 acks <= t.
Proof. intros Ht. induction 1; cbn; lia. Qed.

(** An accepted acknowledgement leaves the session invariant with the
    acknowledgement appended to its history. *)
Lemma acknowledge_ok s sid t r h :
  sessions r !! sid = Some s -> session_ok s h ->
  0 <= t <= Z.of_nat (length h.1.1) ->
  Forall (fun a => a <= t) h.2 -> Z.of_nat (length h.1.1) - t <= MAX_SERVER_REPLAY_FRAMES ->
  exists s' r', acknowledge sid t r = (Ok tt, r') /\ sessions r' !! sid = Some s' /\
    session_ok s' (h.1.1, h.1.2, h.2 ++ [t]) /\
    server_frames s' = number_from (t + 1) (drop (Z.to_nat t) h.1.1).
Proof.
  intros Hs Hok Ht Hacks Hlag. pose proof Hok as [_ _ Hn (d & Hw & Hdl & Hda) Hfit _].
  pose proof (foldr_max_le _ t ltac:(lia) Hacks).
  assert (checked_session sid t r = Ok s) as Hc.
  { unfold checked_session. rewrite Hs, bool_decide_eq_false_2 by lia. rewrite Hw.
    destruct (drop d h.1.1); cbn; [done|]. rewrite bool_decide_eq_false_2; [done|].
    unfold u64_saturating_add, is_u64, u64_max in *. lia. }
  eexists _, _. unfold acknowledge. rewrite Hc. split; [done|]. cbn. rewrite lookup_insert_eq.
  split; [done|]. split; [apply session_inv_acknowledge; [done|lia]|]. cbn.
  rewrite Hw, pop_number_from, drop_drop. f_equal; [lia|]. f_equal. lia.
Qed.

Lemma session_epoch_monotone o r sid s :
  sessions r !! sid = Some s -> is_u64 (link_epoch s + 1) -> sid ∉ drawn o ->
  exists s', sessions (exec o r).1 !! sid = Some s' /\
    link_epoch s <= link_epoch s' <= link_epoch s + 1.
Proof.
  intros Hs Hfit Hfresh.
  assert (forall x s1, (x = sid -> link_epoch s <= link_epoch s1 <= link_epoch s + 1) ->
    exists s', <[x := s1]> (sessions r) !! sid = Some s'
               /\ link_epoch s <= link_epoch s' <= link_epoch s + 1) as Hupd.
  { intros x s1 Hx. rewrite lookup_insert. case_decide as Hd; eauto with lia. }
  pose proof (u64_add_small (link_epoch s) 1 Hfit) as Hadd.
  destruct o as [uuid c|uuid c [x|]|x c q m|x m|x t]; cbn in Hfresh |- *.
  - apply Hupd. set_solver.
  - destruct (sessions r !! x) as [sx|] eqn:Hx; [|eauto with lia].
    split_test; [eauto with lia|]. apply Hupd. intros ->. simplify_eq. cbn. lia.
  - rewrite lookup_insert_eq. cbn. split_test; cbn.
    + apply Hupd. set_solver.
    + rewrite insert_insert_eq. apply Hupd. set_solver.
  - unfold accept_client_frame. destruct (sessions r !! x) as [sx|] eqn:Hx; [|eauto with lia].
    repeat (split_test; [eauto with lia|]).
    apply Hupd. intros ->. simplify_eq. cbn. lia.
  - unfold enqueue_server_message. destruct (sessions r !! x) as [sx|] eqn:Hx; [|eauto with lia].
    apply Hupd. intros ->. simplify_eq. cbn. lia.
  - unfold acknowledge, checked_session. destruct (sessions r !! x) as [sx|] eqn:Hx; [|eauto with lia].
    split_test; [eauto with lia|].
    destruct (head (server_frames sx)); [split_test; [eauto with lia|]|];
      (apply Hupd; intros ->; simplify_eq; cbn; lia).
Qed.

Lemma run_epoch_monotone ops r sid s :
  sessions r !! sid = Some s -> 0 <= link_epoch s ->
  link_epoch s + Z.of_nat (length ops) < u64_modulus -> sid ∉ all_drawn ops ->
  exists s', sessions (run ops r).1 !! sid = Some s' /\ link_epoch s <= link_epoch s'.
Proof.
  revert r s. induction ops as [|o ops IH]; intros r s Hs H0 Hlt Hfresh; [eauto with lia|].
  rewrite run_cons. cbn [fst]. cbn [length] in Hlt.
  destruct (session_epoch_monotone o r sid s Hs) as (s1 & Hs1 & Hle).
  { unfold is_u64. lia. }
  { unfold all_drawn in Hfresh. cbn in Hfresh. set_solver. }
  destruct (IH _ s1 Hs1) as (s2 & Hs2 & Hle2); [lia|lia| |eauto with lia].
  unfold all_drawn in *. cbn in Hfresh. set_solver.
Qed.

(** ** Properties *)


(** In every execution, a batch returned after cursor [after] is the
    complete numbered suffix of the messages enqueued for the session: nothing
    is skipped, repeated or reordered.  The one exception is a cursor behind a
    stream that was already acknowledged to its end: the empty window is not
    checked, and the batch is empty. *)
Theorem replay_is_complete server signal ops sid after frames :
  valid_ops ops -> is_u64 after ->
  frames_after sid after (execution server signal ops).1 = Ok frames ->
  let enqueued := enqueued_of sid (execution server signal ops).2 in
  frames = number_from (after + 1) (drop (Z.to_nat after) enqueued)
  \/ (frames = [] /\ Z.of_nat (length enqueued)
                    <= foldr Z.max 0 (acknowledged_of sid (execution server signal ops).2)).
Proof.
  intros Hv Ha Hf.
  destruct (sessions (execution server signal ops).1 !! sid) as [s|] eqn:Hs.
  2: { unfold frames_after, checked_session in Hf. rewrite Hs in Hf. discriminate. }
  pose proof (execution_session _ _ _ _ _ Hv Hs) as Hok.
  rewrite (frames_after_spec _ _ _ _ _ Hs Hok Ha) in Hf.
  destruct (bool_decide _); [discriminate|].
  destruct (head (server_frames s)) eqn:Hh.
  - destruct (bool_decide _); [discriminate|]. injection Hf as <-. by left.
  - injection Hf as <-. right. split; [done|]. exact (empty_window_acknowledged _ _ Hok Hh).
Qed.

(** In every execution, a client whose cursor is not behind its own
    acknowledgements and that lags by at most [MAX_SERVER_REPLAY_FRAMES]
    messages can always poll: the poll succeeds and returns every message after
    the cursor. *)
Theorem poll_delivers_within_window server signal ops sid after s :
  valid_ops ops -> sessions (execution server signal ops).1 !! sid = Some s ->
  let enqueued := enqueued_of sid (execution server signal ops).2 in
  0 <= after <= Z.of_nat (length enqueued) ->
  Z.of_nat (length enqueued) - after <= MAX_SERVER_REPLAY_FRAMES ->
  Forall (fun t => t <= after) (acknowledged_of sid (execution server signal ops).2) ->
  (poll sid after (execution server signal ops).1).1
  = Ok (number_from (after + 1) (drop (Z.to_nat after) enqueued)).
Proof.
  intros Hv Hs enqueued Ha Hlag Hacks. pose proof (execution_session _ _ _ _ _ Hv Hs) as Hok.
  destruct (acknowledge_ok _ _ after _ _ Hs Hok Ha Hacks Hlag) as (s' & r' & Hack & Hs' & Hok' & Hw).
  unfold poll. rewrite Hack. cbn [fst].
  assert (is_u64 after) as Hu.
  { destruct Hok as [_ _ Hn _ Hfit _]. unfold is_u64 in *. cbn in Hn. fold enqueued in Hn. lia. }
  rewrite (frames_after_spec _ _ _ _ _ Hs' Hok' Hu). destruct Hok' as [_ _ Hn _ _ _]. cbn in Hn.
  cbn in Hw. fold enqueued in Hn, Hw. rewrite bool_decide_eq_false_2 by lia. rewrite Hw.
  cbn [fst snd history]. fold enqueued.
  destruct (drop (Z.to_nat after) enqueued); cbn; [done|].
  by rewrite bool_decide_eq_false_2 by lia.
Qed.

(** Attaching a link to a session makes it the current one, and every link
    attached before stays superseded through any later execution. *)
Theorem attach_supersedes uuid c sid r l r1 s old ops :
  attach_link uuid c (Some sid) r = (Ok l, r1) ->
  sessions r !! sid = Some s -> 0 <= link_epoch s ->
  link_session_id old = sid -> epoch old <= link_epoch s ->
  link_epoch s + 1 + Z.of_nat (length ops) < u64_modulus -> sid ∉ all_drawn ops ->
  link_is_current l r1 = true /\ link_is_current old (run ops r1).1 = false.
Proof.
  intros Hatt Hs H0 Hold Hep Hlt Hfresh. unfold attach_link in Hatt. rewrite Hs in Hatt.
  destruct (bool_decide _); [discriminate|]. injection Hatt as <- <-.
  assert (link_epoch s +64 1 = link_epoch s + 1) as He by (apply u64_add_small; unfold is_u64; lia).
  split.
  - unfold link_is_current. cbn. rewrite lookup_insert_eq. by apply bool_decide_eq_true.
  - set (r1 := notify _).
    destruct (run_epoch_monotone ops r1 sid
      (mkSession (connection_id s) (last_client_sequence s) (next_server_sequence s)
         (server_frames s) (link_epoch s +64 1))) as (s' & Hs' & Hle); cbn; try lia; try done.
    + apply lookup_insert_eq.
    + unfold link_is_current. rewrite Hold, Hs'. apply bool_decide_eq_false. cbn in Hle. lia.
Qed.
End ReliableSession.

Arguments ServerFrame : clear implicits.
Arguments ReliableSession : clear implicits.
Arguments Registry : clear implicits.
Arguments operation : clear implicits.
Arguments event : clear implicits.

(** ** Witnesses *)

Module Witness.
Definition ops : list (operation nat) :=
  [OpOpen "s" "c"; OpAccept "s" "c" 1 10%nat; OpAccept "s" "c" 1 10%nat;
   OpAccept "s" "c" 2 20%nat; OpAccept "s" "c" 4 40%nat;
   OpEnqueue "s" 7%nat; OpEnqueue "s" 8%nat; OpEnqueue "s" 9%nat; OpAcknowledge "s" 1].

Ltac decide_ops :=
  split; [repeat constructor; vm_compute; done
         |vm_compute; reflexivity
         |apply (bool_decide_unpack _); vm_compute; exact I].


Lemma replay_is_complete_witness :
  let frames := [mkServerFrame 3 9%nat] in
  frames = number_from 3 (drop 2 (enqueued_of "s" (execution "srv" 0 ops).2))
  \/ (frames = [] /\ 3 <= 1).
Proof.
  apply (replay_is_complete "srv" 0 ops "s" 2 [mkServerFrame 3 9%nat]);
    [decide_ops|vm_compute; done|vm_compute; reflexivity].
Defined.

Lemma poll_delivers_within_window_witness :
  (poll "s" 1 (execution "srv" 0 ops).1).1
  = Ok [mkServerFrame 2 8%nat; mkServerFrame 3 9%nat].
Proof.
  eapply eq_trans; [eapply (poll_delivers_within_window "srv" 0 ops "s" 1)|reflexivity].
  - decide_ops.
  - vm_compute. reflexivity.
  - vm_compute. done.
  - vm_compute. done.
  - vm_compute. repeat constructor. done.
Defined.

Lemma attach_supersedes_witness :
  let r := (execution "srv" 0 ops).1 in
  let old := mkLink "s" "srv" "c" 0 0 in
  let '(_, r1) := attach_link "u" "c" (Some "s") r in
  link_is_current (mkLink "s" "srv" "c" 2 1) r1 = true
  /\ link_is_current old (run [OpEnqueue "s" 5%nat] r1).1 = false.
Proof.
  apply (attach_supersedes "u" "c" "s" (execution "srv" 0 ops).1 (mkLink "s" "srv" "c" 2 1)
           (attach_link "u" "c" (Some "s") (execution "srv" 0 ops).1).2
           (mkSession "c" 2 4 [mkServerFrame 2 8%nat; mkServerFrame 3 9%nat] 0)
           (mkLink "s" "srv" "c" 0 0) [OpEnqueue "s" 5%nat]);
    try (vm_compute; reflexivity); try (vm_compute; discriminate).
  vm_compute. intros H. inversion H.
Defined.
End Witness.
