(* ===== verification/Protocol.v ===== *)
(** * Protocol data

    The data of the [app-server-protocol] crate that the modelled components
    exchange: client descriptions ([client.rs]), pending requests
    ([snapshot/pending_request.rs], [envelopes.rs]), subscription scopes and
    results ([state.rs]) and published events ([events.rs]).  Every id type of
    [ids.rs] is a transparent string.

    Snapshots and deltas that the modelled code only carries, and never looks
    into, are the types of the class [PayloadTypes]: definitions and theorems are
    generic in them.  Constructors carry a prefix naming their type. *)

From S2P Require Import Prelude.

(** ** Clients *)

Inductive ClientRole := Interactive | ShellHold.
#[global] Instance ClientRole_eq_dec : EqDecision ClientRole.
Proof. solve_decision. Defined.

Inductive ShellKind := Web | Desktop | Mobile | VscodeExtension | Terminal | Keeper.
#[global] Instance ShellKind_eq_dec : EqDecision ShellKind.
Proof. solve_decision. Defined.

Record ShellDescriptor := mkShell {
  shell_kind : ShellKind;
  shell_name : option string;
  shell_version : option string;
}.

Inductive SettingsSection := Agents | McpServers | Skills | CommonSettings.
#[global] Instance SettingsSection_eq_dec : EqDecision SettingsSection.
Proof. solve_decision. Defined.

Inductive RequestedSurface :=
| SurfaceHome
| SurfaceProject (project_id : string)
| SurfaceNewTask (project_id : option string)
| SurfaceTask (task_id : string)
| SurfaceSettings (section : option SettingsSection).

Inductive ClientProtocolCapability :=
| Resync | RequestResponses | StableClientRequestIds | PermissionResponses | QuestionResponses.
#[global] Instance ClientProtocolCapability_eq_dec : EqDecision ClientProtocolCapability.
Proof. solve_decision. Defined.

Inductive ShellCapability :=
| OpenExternal | RevealFile | ResolveFileReveal | PickLocalFile
| OpenTerminal | ReadSecret | WriteSecret | ShowNotification.
#[global] Instance ShellCapability_eq_dec : EqDecision ShellCapability.
Proof. solve_decision. Defined.

Record ClientCapabilities := mkCapabilities {
  cap_protocol : list ClientProtocolCapability;
  cap_shell : list ShellCapability;
}.

Record ProtocolVersion := mkVersion { major : Z; minor : Z }.

Record InitializeParams := mkInitialize {
  init_client_instance_id : string;
  init_shell : ShellDescriptor;
  init_requested_surface : RequestedSurface;
  init_capabilities : ClientCapabilities;
  init_workspace_roots : list string;
  init_protocol_version : option ProtocolVersion;
  init_role : ClientRole;
}.

Record AttachedClientSummary := mkClientSummary {
  sum_kind : ShellKind;
  sum_name : option string;
  sum_app_version : option string;
  sum_protocol_version : option ProtocolVersion;
  sum_reconnecting : bool;
}.

(** ** Pending requests *)

Inductive PendingRequestScope :=
| ScopeClient (client_instance_id : string)
| ScopeTask (task_id : string).
#[global] Instance PendingRequestScope_eq_dec : EqDecision PendingRequestScope.
Proof. solve_decision. Defined.

Inductive PendingRequestKind :=
| KindPermission | KindQuestion | KindSecret | KindShellCapability.

Definition PERMISSION_REQUEST : string := "permission/request".
Definition QUESTION_REQUEST : string := "question/request".
Definition SHELL_AUTH_TERMINAL : string := "shell/authTerminal".

(** ** Tasks and navigation *)

Inductive TaskLifecycle := LifecyclePrepared | LifecycleOpen | LifecycleArchived.
Inductive TaskNavigationSection := SectionTasks | SectionArchive.
#[global] Instance TaskNavigationSection_eq_dec : EqDecision TaskNavigationSection.
Proof. solve_decision. Defined.

Inductive TaskTitleSource := SourcePrompt | SourceAgent | SourceUser.
Record TaskTitle := mkTitle { title_value : string; title_source : TaskTitleSource }.
Inductive TaskStatus :=
| StatusPreparing | StatusStarting | StatusIdle | StatusRunning | StatusBackground
| StatusStopping | StatusWaiting | StatusInterrupted | StatusFailed | StatusCompleted.
Inductive TaskAttentionReason :=
| AttentionFinished | AttentionNeedsPermission | AttentionNeedsAnswer
| AttentionStopped | AttentionFailed.
Record TaskAttentionEvent := mkAttention {
  attention_event_id : string;
  attention_reason : TaskAttentionReason;
  attention_occurred_at : string;
}.

Record TaskSummary := mkTaskSummary {
  ts_task_id : string;
  ts_project_id : string;
  ts_agent_id : string;
  ts_lifecycle : TaskLifecycle;
  ts_title : option TaskTitle;
  ts_status : TaskStatus;
  ts_updated_at : string;
  ts_last_activity : string;
  ts_unread : bool;
  ts_pinned : bool;
  ts_attention : option TaskAttentionEvent;
  ts_has_messages : bool;
  ts_worktree_id : option string;
  ts_workspace_available : bool;
}.

Inductive TaskPermissionPolicy := AskEveryTime | AutoApprove.

Inductive TaskNavigationRefreshState := RefreshIdle | Refreshing | RefreshFailed (message : string).

(** ** Payloads that are only carried

    [catalog_task_id] is the one field of a carried payload that routing reads. *)

Class PayloadTypes := {
  PermissionRequestParams : Type;
  QuestionRequestParams : Type;
  ClientSnapshot : Type;
  TaskHistorySyncSnapshot : Type;
  TaskNavigationEntry : Type;
  TaskNavigationGroup : Type;
  ProjectCollectionSnapshot : Type;
  SubagentCatalogSnapshot : Type;
  catalog_task_id : SubagentCatalogSnapshot -> string;
  SubagentHistorySnapshot : Type;
  SubagentOverviewSnapshot : Type;
  AgentPlanSnapshot : Type;
  ToolDetailSnapshot : Type;
  AgentCollectionSnapshot : Type;
  WorktreeRepositorySnapshot : Type;
  DeviceCollectionSnapshot : Type;
  TerminalCollectionSnapshot : Type;
  SettingsSnapshot : Type;
  TaskSnapshot : Type;
  BackgroundCommandSnapshot : Type;
  TaskPreparationSnapshot : Type;
  TaskAgentConfigSnapshot : Type;
  TaskAgentCommandsSnapshot : Type;
  TaskSendCapabilitySnapshot : Type;
  TaskInputCapabilities : Type;
  TaskContextUsage : Type;
  TaskMessageQueueSnapshot : Type;
  ChatItem : Type;
  ChatSnapshot : Type;
}.

(** Every carried payload is a string, for examples. *)
Definition string_payloads : PayloadTypes :=
  {| PermissionRequestParams := string; QuestionRequestParams := string;
     ClientSnapshot := string; TaskHistorySyncSnapshot := string;
     TaskNavigationEntry := string; TaskNavigationGroup := string;
     ProjectCollectionSnapshot := string; SubagentCatalogSnapshot := string;
     catalog_task_id := fun c => c; SubagentHistorySnapshot := string;
     SubagentOverviewSnapshot := string; AgentPlanSnapshot := string;
     ToolDetailSnapshot := string; AgentCollectionSnapshot := string;
     WorktreeRepositorySnapshot := string; DeviceCollectionSnapshot := string;
     TerminalCollectionSnapshot := string; SettingsSnapshot := string;
     TaskSnapshot := string; BackgroundCommandSnapshot := string;
     TaskPreparationSnapshot := string; TaskAgentConfigSnapshot := string;
     TaskAgentCommandsSnapshot := string; TaskSendCapabilitySnapshot := string;
     TaskInputCapabilities := string; TaskContextUsage := string;
     TaskMessageQueueSnapshot := string; ChatItem := string; ChatSnapshot := string |}.

Record PendingRequestSnapshot `{PayloadTypes} := mkPendingSnapshot {
  pr_request_id : string;
  pr_scope : PendingRequestScope;
  pr_kind : PendingRequestKind;
  pr_title : string;
  pr_permission : option PermissionRequestParams;
  pr_question : option QuestionRequestParams;
  pr_created_at : option string;
}.

Record ServerRequestEnvelope {P : Type} := mkRequestEnvelope {
  env_request_id : string;
  env_scope : PendingRequestScope;
  env_method : string;
  env_params : P;
}.
Arguments ServerRequestEnvelope : clear implicits.

Record TaskNavigationSnapshot `{PayloadTypes} := mkNavigation {
  nav_section : TaskNavigationSection;
  nav_groups : list TaskNavigationGroup;
  nav_refresh : TaskNavigationRefreshState;
}.

(** ** Subscription scopes *)

Inductive SubscriptionScope :=
| SubProjects
| SubAgents
| SubSettings (section : option SettingsSection)
| SubTaskNavigation (section : TaskNavigationSection) (project_ids : option (list string))
| SubTask (task_id : string)
| SubSubagentCatalog (task_id : string)
| SubSubagentHistory (task_id subagent_id : string)
| SubToolDetail (task_id artifact_id : string)
| SubWorktreeRepository (repository_id : string)
| SubDevices
| SubTerminals.
#[global] Instance SubscriptionScope_eq_dec : EqDecision SubscriptionScope.
Proof. solve_decision. Defined.

#[global] Instance SettingsSection_countable : Countable SettingsSection.
Proof.
  refine (inj_countable' (fun s => match s with Agents => 0 | McpServers => 1 | Skills => 2 | CommonSettings => 3 end)
    (fun n => match n with 0 => Agents | 1 => McpServers | 2 => Skills | _ => CommonSettings end) _).
  by intros [].
Defined.

#[global] Instance TaskNavigationSection_countable : Countable TaskNavigationSection.
Proof.
  refine (inj_countable' (fun s => match s with SectionTasks => true | SectionArchive => false end)
    (fun b : bool => if b then SectionTasks else SectionArchive) _).
  by intros [].
Defined.

(** Subscription scopes key a hash map. *)
#[global] Instance SubscriptionScope_countable : Countable SubscriptionScope.
Proof.
  refine (inj_countable'
    (fun s => match s with
     | SubProjects => inl (inl 0)
     | SubAgents => inl (inl 1)
     | SubDevices => inl (inl 2)
     | SubTerminals => inl (inl 3)
     | SubSettings o => inl (inr (inl o))
     | SubTaskNavigation n p => inl (inr (inr (n, p)))
     | SubTask t => inr (0, t, "")
     | SubSubagentCatalog t => inr (1, t, "")
     | SubSubagentHistory t a => inr (2, t, a)
     | SubToolDetail t a => inr (3, t, a)
     | SubWorktreeRepository t => inr (4, t, "")
     end)
    (fun x => match x with
     | inl (inl 0) => SubProjects
     | inl (inl 1) => SubAgents
     | inl (inl 2) => SubDevices
     | inl (inl _) => SubTerminals
     | inl (inr (inl o)) => SubSettings o
     | inl (inr (inr (n, p))) => SubTaskNavigation n p
     | inr (0, t, _) => SubTask t
     | inr (1, t, _) => SubSubagentCatalog t
     | inr (2, t, a) => SubSubagentHistory t a
     | inr (3, t, a) => SubToolDetail t a
     | inr (_, t, _) => SubWorktreeRepository t
     end) _).
  by intros [].
Defined.

(** ** Events *)

Inductive EventScope :=
| EventStateRoot (state_root_id : string)
| EventClient (state_root_id client_instance_id : string)
| EventTask (state_root_id task_id : string).

Inductive TaskChatChange `{PayloadTypes} :=
| ChatAppend (item : ChatItem)
| ChatUpsert (item : ChatItem)
| ChatAppendText (message_id text : string)
| ChatReplace (chat : ChatSnapshot).

Inductive ToolDetailDelta `{PayloadTypes} :=
| DeltaReplaceDetails (details : ToolDetailSnapshot)
| DeltaAppendTerminal (terminal_id data : string).

Record TaskChanges `{PayloadTypes} := mkChanges {
  ch_task : option TaskSummary;
  ch_active_turn_started_at : option (option string);
  ch_background_commands : option (list BackgroundCommandSnapshot);
  ch_lifecycle : option TaskLifecycle;
  ch_preparation : option TaskPreparationSnapshot;
  ch_permission_policy : option TaskPermissionPolicy;
  ch_agent_config : option TaskAgentConfigSnapshot;
  ch_agent_commands : option TaskAgentCommandsSnapshot;
  ch_send_capability : option TaskSendCapabilitySnapshot;
  ch_input_capabilities : option TaskInputCapabilities;
  ch_context_usage : option (option TaskContextUsage);
  ch_current_plan : option (option AgentPlanSnapshot);
  ch_message_queue : option TaskMessageQueueSnapshot;
  ch_chat : list TaskChatChange;
  ch_removed : bool;
}.

Inductive AppServerEventPayload `{PayloadTypes} :=
| SnapshotReplaced (snapshot : ClientSnapshot)
| TaskChanged (task_id : string) (revision : Z) (changes : TaskChanges)
| TaskHistorySyncUpdated (task_id : string) (history_sync : TaskHistorySyncSnapshot)
| TaskUpdated (project_id : string) (task : TaskSummary)
| ProjectEntriesReplaced (section : TaskNavigationSection) (project_id : string)
    (task_count : Z) (entries : list TaskNavigationEntry) (has_more loading : bool)
| RefreshStateChanged (refresh : TaskNavigationRefreshState)
| NavigationReplaced (navigation : TaskNavigationSnapshot)
| ProjectCollectionUpdated (projects : ProjectCollectionSnapshot)
| TaskRequestsUpdated (task_id : string) (requests : list PendingRequestSnapshot)
| SubagentCatalogUpdated (catalog : SubagentCatalogSnapshot)
| SubagentHistoryChanged (task_id subagent_id : string) (revision : Z)
    (chat : list TaskChatChange) (current_plan : option (option AgentPlanSnapshot))
| ToolDetailUpdated (task_id artifact_id : string) (details : ToolDetailSnapshot)
| ToolDetailChanged (task_id artifact_id : string) (revision : Z) (deltas : list ToolDetailDelta)
| RequestUpdated (request : PendingRequestSnapshot)
| AgentCollectionUpdated (agents : AgentCollectionSnapshot)
| WorktreeRepositoryUpdated (repository_id : string) (repository : WorktreeRepositorySnapshot)
| DeviceCollectionUpdated (devices : DeviceCollectionSnapshot)
| TerminalCollectionUpdated (terminals : TerminalCollectionSnapshot).

Record AppServerEvent `{PayloadTypes} := mkEvent {
  ev_subscription : SubscriptionScope;
  ev_previous_cursor : string;
  ev_cursor : string;
  ev_scope : EventScope;
  ev_payload : AppServerEventPayload;
}.

(** ** Subscription results *)

Record TaskRevisionChanges `{PayloadTypes} := mkRevisionChanges {
  rc_revision : Z;
  rc_changes : TaskChanges;
}.

Record TaskResumeSnapshot `{PayloadTypes} := mkResume {
  rs_task_id : string;
  rs_known_revision : Z;
  rs_changes : list TaskRevisionChanges;
  rs_history_sync : TaskHistorySyncSnapshot;
  rs_pending_requests : list PendingRequestSnapshot;
  rs_subagents : SubagentOverviewSnapshot;
  rs_workspace_available : bool;
}.

Inductive SubscriptionSnapshot `{PayloadTypes} :=
| SnapProjects (projects : ProjectCollectionSnapshot)
| SnapAgents (agents : AgentCollectionSnapshot)
| SnapSettings (settings : SettingsSnapshot)
| SnapTaskNavigation (navigation : TaskNavigationSnapshot)
| SnapTask (task : TaskSnapshot)
| SnapTaskResume (resume : TaskResumeSnapshot)
| SnapSubagentCatalog (catalog : SubagentCatalogSnapshot)
| SnapSubagentHistory (history : SubagentHistorySnapshot)
| SnapToolDetail (task_id artifact_id : string) (details : ToolDetailSnapshot)
| SnapWorktreeRepository (repository : WorktreeRepositorySnapshot)
| SnapDevices (devices : DeviceCollectionSnapshot)
| SnapTerminals (terminals : TerminalCollectionSnapshot).

Record StateSubscribeResult `{PayloadTypes} := mkSubscribeResult {
  sr_cursor : string;
  sr_scope : SubscriptionScope;
  sr_snapshot : SubscriptionSnapshot;
}.

(** ** Errors *)

Inductive ProtocolErrorCode :=
| InvalidRequest | NotInitialized | Unauthorized | NotFound | Conflict | ValidationFailed
| AttachmentHandleInvalid | CapabilityUnavailable | NodeJsRequired | RequestAlreadyResolved
| ServerStopping | IncompatibleProtocol | StaleCursor | Internal.

Record ErrorTarget `{PayloadTypes} := mkErrorTarget {
  target_method : option string;
  target_field : option string;
  target_current_task : option TaskSnapshot;
}.

Record ProtocolError `{PayloadTypes} := mkProtocolError {
  err_code : ProtocolErrorCode;
  err_message : string;
  err_recoverable : bool;
  err_target : option ErrorTarget;
}.

Definition task_changes_is_empty `{PayloadTypes} (c : TaskChanges) : bool :=
  let none {A} (o : option A) := match o with None => true | Some _ => false end in
  none (ch_task c) && none (ch_active_turn_started_at c) && none (ch_lifecycle c)
  && none (ch_preparation c) && none (ch_permission_policy c) && none (ch_agent_config c)
  && none (ch_agent_commands c) && none (ch_send_capability c)
  && none (ch_input_capabilities c) && none (ch_context_usage c) && none (ch_current_plan c)
  && none (ch_message_queue c)
  && match ch_chat c with [] => true | _ => false end
  && negb (ch_removed c).

(** [ProtocolVersion::accepts_client]. *)
Definition accepts_client (server client : ProtocolVersion) : bool :=
  bool_decide (major server = major client) && bool_decide (minor client <= minor server)%Z.

Arguments mkPendingSnapshot {_} _ _ _ _ _ _ _.
Arguments mkNavigation {_} _ _ _.
Arguments ChatAppend {_} _.
Arguments ChatUpsert {_} _.
Arguments ChatAppendText {_} _ _.
Arguments ChatReplace {_} _.
Arguments DeltaReplaceDetails {_} _.
Arguments DeltaAppendTerminal {_} _ _.
Arguments mkChanges {_} _ _ _ _ _ _ _ _ _ _ _ _ _ _ _.
Arguments SnapshotReplaced {_} _.
Arguments TaskChanged {_} _ _ _.
Arguments TaskHistorySyncUpdated {_} _ _.
Arguments TaskUpdated {_} _ _.
Arguments ProjectEntriesReplaced {_} _ _ _ _ _ _.
Arguments RefreshStateChanged {_} _.
Arguments NavigationReplaced {_} _.
Arguments ProjectCollectionUpdated {_} _.
Arguments TaskRequestsUpdated {_} _ _.
Arguments SubagentCatalogUpdated {_} _.
Arguments SubagentHistoryChanged {_} _ _ _ _ _.
Arguments ToolDetailUpdated {_} _ _ _.
Arguments ToolDetailChanged {_} _ _ _ _.
Arguments RequestUpdated {_} _.
Arguments AgentCollectionUpdated {_} _.
Arguments WorktreeRepositoryUpdated {_} _ _.
Arguments DeviceCollectionUpdated {_} _.
Arguments TerminalCollectionUpdated {_} _.
Arguments mkEvent {_} _ _ _ _ _.
Arguments mkRevisionChanges {_} _ _.
Arguments mkResume {_} _ _ _ _ _ _ _.
Arguments SnapProjects {_} _.
Arguments SnapAgents {_} _.
Arguments SnapSettings {_} _.
Arguments SnapTaskNavigation {_} _.
Arguments SnapTask {_} _.
Arguments SnapTaskResume {_} _.
Arguments SnapSubagentCatalog {_} _.
Arguments SnapSubagentHistory {_} _.
Arguments SnapToolDetail {_} _ _ _.
Arguments SnapWorktreeRepository {_} _.
Arguments SnapDevices {_} _.
Arguments SnapTerminals {_} _.
Arguments mkSubscribeResult {_} _ _ _.
Arguments mkErrorTarget {_} _ _ _.
Arguments mkProtocolError {_} _ _ _ _.
