(* ===== verification/TaskChangeLog.v ===== *)
(** * The retained log of published Task changes

    Models [openaide-rs/app-server/src/state_sync/task_change_log.rs].  The log
    keeps recently published [taskChanged] events per Task, bounded per Task and
    in total, so that a returning client receives only what it missed.

    The length of a serialized change ([serde_json::to_vec]) is the parameter
    [json_len]; [None] is a serialization failure.  A definition that returns
    [option] returns [None] where the Rust code would panic or would not leave
    its loop; the theorems show that neither happens. *)

From S2P Require Import Prelude Protocol.

Local Open Scope Z_scope.

Definition MAX_TASK_BYTES : Z := 2 * 1024 * 1024.
Definition MAX_TOTAL_BYTES : Z := 16 * 1024 * 1024.

Section TaskChangeLog.
Context `{PayloadTypes}.
Context (json_len : TaskChanges -> option Z).

Record Entry := mkEntry { e_revision : Z; e_changes : TaskChanges; e_bytes : Z }.

Record TaskEntries := mkEntries {
  last_published : Z;
  entries : list Entry;
  bytes : Z;
  last_recorded : Z;
}.

(** [TaskEntries::default]. *)
Definition default_entries : TaskEntries := mkEntries 0 [] 0 0.

Record TaskChangeLog := mkLog {
  tasks : gmap string TaskEntries;
  total_bytes : Z;
  max_task_bytes : Z;
  max_total_bytes : Z;
  sequence : Z;
}.

Inductive ChangesSince :=
| Changes (changes : list TaskRevisionChanges) (bytes : Z)
| Unknown
| Evicted.

Definition with_bounds (task_bound total_bound : Z) : TaskChangeLog :=
  mkLog ∅ 0 task_bound total_bound 0.

Definition default_log : TaskChangeLog := with_bounds MAX_TASK_BYTES MAX_TOTAL_BYTES.

(** [TaskEntries::clear] and [TaskEntries::pop_oldest]: the released bytes and
    the entries left. *)
Definition clear (t : TaskEntries) : Z * TaskEntries :=
  (bytes t, mkEntries (last_published t) [] 0 (last_recorded t)).

Definition pop_oldest (t : TaskEntries) : Z * TaskEntries :=
  let '(released, rest) :=
    match entries t with e :: es => (e_bytes e, es) | [] => (0, []) end in
  (released, mkEntries (last_published t) rest (u64_sub (bytes t) released) (last_recorded t)).

Definition forget (task_id : string) (log : TaskChangeLog) : TaskChangeLog :=
  match tasks log !! task_id with
  | None => log
  | Some t => mkLog (delete task_id (tasks log)) (u64_sub (total_bytes log) (bytes t))
                (max_task_bytes log) (max_total_bytes log) (sequence log)
  end.

(** The loop [while task.bytes > max_task_bytes] of [record]. *)
Fixpoint pop_to_task_bound (fuel : nat) (bound released : Z) (t : TaskEntries)
  : option (Z * TaskEntries) :=
  if bool_decide (bytes t <= bound) then Some (released, t)
  else match fuel with
       | O => None
       | S fuel =>
           let '(r, t') := pop_oldest t in
           pop_to_task_bound fuel bound (u64_add released r) t'
       end.

Definition set_task (task_id : string) (t : TaskEntries) (total : Z) (log : TaskChangeLog)
  : TaskChangeLog :=
  mkLog (<[task_id := t]> (tasks log)) total (max_task_bytes log) (max_total_bytes log)
    (sequence log).

(** The Task other than [keep] that holds entries and was recorded longest ago. *)
Definition oldest_other (keep : string) (log : TaskChangeLog) : option (string * TaskEntries) :=
  min_by_key (fun kt => last_recorded kt.2)
    (filter (fun kt => kt.1 <> keep /\ entries kt.2 <> []) (map_to_list (tasks log))).

Fixpoint evict_to_total_bound (fuel : nat) (keep : string) (log : TaskChangeLog)
  : option TaskChangeLog :=
  if bool_decide (total_bytes log <= max_total_bytes log) then Some log
  else match fuel with
       | O => None
       | S fuel =>
           match oldest_other keep log with
           | Some (task_id, _) =>
               t ← tasks log !! task_id;
               let '(r, t') := clear t in
               evict_to_total_bound fuel keep
                 (set_task task_id t' (u64_sub (total_bytes log) r) log)
           | None =>
               t ← tasks log !! keep;
               let '(r, t') := pop_oldest t in
               evict_to_total_bound fuel keep
                 (set_task keep t' (u64_sub (total_bytes log) r) log)
           end
       end.

(** Retained entries over all Tasks: every loop iteration drops one at least. *)
Definition retained (log : TaskChangeLog) : Z :=
  map_sum (fun t => Z.of_nat (length (entries t))) (tasks log).

Definition is_nil {A} (l : list A) : bool := match l with [] => true | _ => false end.

(** The part of [record] that updates the entries of the Task: the released
    and the added bytes, and the new entries. *)
Definition record_in_task (bound revision : Z) (changes : TaskChanges) (change_bytes seq : Z)
    (t : TaskEntries) : option (Z * Z * TaskEntries) :=
  let '(released, t) :=
    if negb (is_nil (entries t)) && bool_decide (revision <> u64_add (last_published t) 1)
    then clear t else (0, t) in
  let t := mkEntries (Z.max (last_published t) revision) (entries t) (bytes t) seq in
  if bool_decide (bound < change_bytes)
  then let '(r, t) := clear t in Some (u64_add released r, 0, t)
  else
    let t := mkEntries (last_published t)
               (entries t ++ [mkEntry revision changes change_bytes])
               (u64_add (bytes t) change_bytes) (last_recorded t) in
    '(released, t) ← pop_to_task_bound (length (entries t)) bound released t;
    Some (released, change_bytes, t).

Definition record (task_id : string) (revision : Z) (changes : TaskChanges)
    (log : TaskChangeLog) : option TaskChangeLog :=
  if ch_removed changes then Some (forget task_id log)
  else
    let change_bytes := default u64_max (json_len changes) in
    let seq := u64_add (sequence log) 1 in
    let t := default default_entries (tasks log !! task_id) in
    '(released, added, t) ←
      record_in_task (max_task_bytes log) revision changes change_bytes seq t;
    let log := mkLog (<[task_id := t]> (tasks log))
                 (u64_sub (u64_add (total_bytes log) added) released)
                 (max_task_bytes log) (max_total_bytes log) seq in
    evict_to_total_bound (Z.to_nat (retained log)) task_id log.

Definition changes_since (task_id : string) (known_revision : Z) (log : TaskChangeLog)
  : ChangesSince :=
  match tasks log !! task_id with
  | None => Unknown
  | Some t =>
      if bool_decide (last_published t <= known_revision) then Changes [] 0
      else
        match entries t with
        | first :: _ =>
            if bool_decide (e_revision first <= u64_add known_revision 1) then
              let missed := filter (fun e => known_revision < e_revision e) (entries t) in
              Changes ((fun e => mkRevisionChanges (e_revision e) (e_changes e)) <$> missed)
                (list_sum e_bytes missed)
            else Evicted
        | [] => Evicted
        end
  end.

(** ** The accounting invariant *)

(** Byte bounds small enough for the sums of [record] to fit a [usize]. *)
Definition bounds_fit (log : TaskChangeLog) : Prop :=
  0 <= max_task_bytes log /\ 0 <= max_total_bytes log /\
  max_total_bytes log + 2 * max_task_bytes log < u64_modulus.

Record entries_inv (t : TaskEntries) : Prop := {
  ei_bytes : bytes t = list_sum e_bytes (entries t);
  ei_nonneg : Forall (fun e => 0 <= e_bytes e) (entries t);
}.

(** [total_bytes] is exact; each Task satisfies its bound [max_task_bytes]. *)
Record accounting (log : TaskChangeLog) : Prop := {
  ac_entries : forall id t, tasks log !! id = Some t ->
    entries_inv t /\ bytes t <= max_task_bytes log;
  ac_total : total_bytes log = map_sum bytes (tasks log);
  ac_fit : bounds_fit log;
}.

Record log_inv (log : TaskChangeLog) : Prop := {
  li_accounting : accounting log;
  li_bound : total_bytes log <= max_total_bytes log;
}.

Lemma entries_bytes_nonneg t : entries_inv t -> 0 <= bytes t.
Proof.
  intros [-> Hf]. apply list_sum_nonneg. by rewrite Forall_forall in Hf.
Qed.

Lemma entries_inv_default : entries_inv default_entries.
Proof. split; cbn; [done|constructor]. Qed.

Lemma entries_inv_clear t : entries_inv (clear t).2.
Proof. split; cbn; [done|constructor]. Qed.

Lemma pop_oldest_spec t :
  entries_inv t -> is_u64 (bytes t) ->
  entries_inv (pop_oldest t).2 /\
  bytes (pop_oldest t).2 = bytes t - (pop_oldest t).1 /\
  0 <= (pop_oldest t).1 <= bytes t /\
  entries (pop_oldest t).2 = drop 1 (entries t) /\
  last_published (pop_oldest t).2 = last_published t.
Proof.
  intros [Hb Hf] Hu. unfold pop_oldest. destruct (entries t) as [|e es] eqn:He; cbn in *.
  - rewrite u64_sub_small by (rewrite Z.sub_0_r; done). unfold is_u64 in *.
    split; [split; cbn; [lia|constructor]|]. repeat split; lia.
  - apply Forall_cons in Hf as [He0 Hf].
    assert (0 <= list_sum e_bytes es).
    { apply list_sum_nonneg. by rewrite Forall_forall in Hf. }
    rewrite u64_sub_small by (unfold is_u64 in *; lia).
    split; [split; cbn; [lia|done]|]. repeat split; lia || done.
Qed.

Lemma pop_to_task_bound_spec fuel bound released t :
  entries_inv t -> bytes t < u64_modulus -> 0 <= bound -> 0 <= released ->
  released + bytes t < u64_modulus -> (length (entries t) <= fuel)%nat ->
  exists r t' d, pop_to_task_bound fuel bound released t = Some (r, t') /\
    entries_inv t' /\ bytes t' <= bound /\ r + bytes t' = released + bytes t /\
    released <= r /\
    entries t' = drop d (entries t) /\ last_published t' = last_published t /\
    (forall e, last (entries t) = Some e -> e_bytes e <= bound -> last (entries t') = Some e).
Proof.
  revert released t. induction fuel as [|fuel IH]; intros released t Hi Hu Hb0 Hr0 Hsum Hfuel;
    cbn [pop_to_task_bound]; pose proof (entries_bytes_nonneg _ Hi) as Hnn;
    (split_test; [exists released, t, O; repeat split; try lia; try done; apply Hi|]).
  - destruct Hi as [Hb _]. destruct (entries t); cbn in *; lia.
  - destruct (pop_oldest_spec t Hi) as (Hi' & Hb' & Hr & He' & Hl'); [unfold is_u64; lia|].
    destruct (pop_oldest t) as [r t'] eqn:Hpop. cbn [fst snd] in *.
    rewrite u64_add_small by (unfold is_u64; lia).
    destruct (IH (released + r) t') as (r2 & t2 & d & Heq & Hi2 & Hb2 & Hsum2 & Hle2 & He2 & Hl2 & Hlast);
      try lia; [done|rewrite He', length_drop; lia|].
    exists r2, t2, (S d). repeat split; try lia; try apply Hi2; try done.
    + rewrite He2, He', drop_drop. f_equal.
    + intros e Hlst Hle. apply Hlast; [|done]. rewrite He'. destruct Hi as [Hbt _].
      destruct (entries t) as [|e0 [|e1 es]]; [done| |done]. cbn in Hlst, Hbt. simplify_eq. lia.
Qed.

(** ** Eviction *)

(** A Task keeps its high-water mark and a suffix of its entries; the Task just
    recorded keeps its newest entry when that fits the total bound. *)
Definition task_shrinks (newest_kept : Prop) (bound : Z) (t t' : TaskEntries) : Prop :=
  last_published t' = last_published t /\
  (exists d, entries t' = drop d (entries t)) /\
  (newest_kept -> forall e, last (entries t) = Some e -> e_bytes e <= bound ->
    last (entries t') = Some e).

Definition shrinks (keep : string) (log log' : TaskChangeLog) : Prop :=
  max_task_bytes log' = max_task_bytes log /\ max_total_bytes log' = max_total_bytes log /\
  forall id, match tasks log !! id, tasks log' !! id with
             | Some t, Some t' => task_shrinks (id = keep) (max_total_bytes log) t t'
             | None, None => True
             | _, _ => False
             end.

Lemma task_shrinks_refl P b t : task_shrinks P b t t.
Proof. repeat split; [by exists O|done]. Qed.

Lemma task_shrinks_trans P b t1 t2 t3 :
  task_shrinks P b t1 t2 -> task_shrinks P b t2 t3 -> task_shrinks P b t1 t3.
Proof.
  intros (H1 & [d1 H2] & H3) (H4 & [d2 H5] & H6). repeat split; [congruence| |eauto].
  exists (d1 + d2)%nat. by rewrite H5, H2, drop_drop.
Qed.

Lemma shrinks_refl keep log : shrinks keep log log.
Proof.
  repeat split. intros id. destruct (tasks log !! id); [apply task_shrinks_refl|done].
Qed.

Lemma shrinks_trans keep l1 l2 l3 :
  shrinks keep l1 l2 -> shrinks keep l2 l3 -> shrinks keep l1 l3.
Proof.
  intros (H1 & H2 & H3) (H4 & H5 & H6). split; [congruence|]. split; [congruence|].
  intros id. specialize (H3 id). specialize (H6 id). rewrite H2 in H6.
  destruct (tasks l1 !! id), (tasks l2 !! id), (tasks l3 !! id); try done.
  eauto using task_shrinks_trans.
Qed.

Lemma shrinks_set_task keep id t t' total log :
  tasks log !! id = Some t -> task_shrinks (id = keep) (max_total_bytes log) t t' ->
  shrinks keep log (set_task id t' total log).
Proof.
  intros Ht Hs. repeat split. intros j. cbn. rewrite lookup_insert. case_decide as Hd.
  - subst. by rewrite Ht.
  - destruct (tasks log !! j); [apply task_shrinks_refl|done].
Qed.

Lemma accounting_bytes log id t :
  accounting log -> tasks log !! id = Some t -> 0 <= bytes t <= total_bytes log.
Proof.
  intros [He Ht _] Hl. split; [apply entries_bytes_nonneg, (He _ _ Hl)|].
  rewrite Ht. eapply map_sum_lookup_le; [|exact Hl].
  intros j w Hj. apply entries_bytes_nonneg, (He _ _ Hj).
Qed.

Lemma accounting_set_task log id t t' r :
  accounting log -> tasks log !! id = Some t -> total_bytes log < u64_modulus ->
  entries_inv t' -> 0 <= r -> bytes t' = bytes t - r -> 0 <= bytes t' ->
  accounting (set_task id t' (u64_sub (total_bytes log) r) log) /\
  total_bytes (set_task id t' (u64_sub (total_bytes log) r) log) = total_bytes log - r.
Proof.
  intros Hac Ht Hu Hi Hr Hb Hnn. pose proof (accounting_bytes _ _ _ Hac Ht) as Hle.
  destruct Hac as [He Hs Hf]. cbn. rewrite u64_sub_small by (unfold is_u64; lia).
  split; [|done]. split; cbn; [| |done].
  - intros j w. rewrite lookup_insert. case_decide; [|apply He].
    intros [= <-]. split; [done|]. destruct (He _ _ Ht). lia.
  - rewrite map_sum_insert, Ht. cbn. lia.
Qed.

Lemma retained_set_task log id t t' total :
  tasks log !! id = Some t ->
  retained (set_task id t' total log)
  = retained log - Z.of_nat (length (entries t)) + Z.of_nat (length (entries t')).
Proof. intros Ht. unfold retained. cbn. rewrite map_sum_insert, Ht. cbn. lia. Qed.

(** When no other Task holds entries, the recorded Task accounts for the total. *)
Lemma no_other_total keep log :
  accounting log -> oldest_other keep log = None ->
  total_bytes log = default 0 (bytes <$> tasks log !! keep).
Proof.
  intros [He Ht _] Hnone. rewrite Ht. apply map_sum_single. intros j t Hj Hne.
  pose proof (min_by_key_spec (fun kt : string * TaskEntries => last_recorded kt.2)
    (filter (fun kt => kt.1 <> keep /\ entries kt.2 <> []) (map_to_list (tasks log)))) as Hm.
  unfold oldest_other in Hnone. rewrite Hnone in Hm.
  destruct (He _ _ Hj) as [[Hb _] _]. rewrite Hb.
  destruct (entries t) eqn:E; [done|]. exfalso.
  assert ((j, t) ∈ filter (fun kt => kt.1 <> keep /\ entries kt.2 <> []) (map_to_list (tasks log))) as Hin.
  { apply list_elem_of_filter. split; [cbn; rewrite E; done|]. by apply elem_of_map_to_list. }
  rewrite Hm in Hin. by apply elem_of_nil in Hin.
Qed.

Lemma oldest_other_lookup keep log id t :
  oldest_other keep log = Some (id, t) ->
  tasks log !! id = Some t /\ id <> keep /\ entries t <> [].
Proof.
  intros Ho. pose proof (min_by_key_spec (fun kt : string * TaskEntries => last_recorded kt.2)
    (filter (fun kt => kt.1 <> keep /\ entries kt.2 <> []) (map_to_list (tasks log)))) as Hm.
  unfold oldest_other in Ho. rewrite Ho in Hm. destruct Hm as [Hin _].
  apply list_elem_of_filter in Hin as [[??] Hin%elem_of_map_to_list]. done.
Qed.

(** The loop state. *)
Record evicting (fuel : nat) (keep : string) (log : TaskChangeLog) : Prop := {
  ev_accounting : accounting log;
  ev_keep : is_Some (tasks log !! keep);
  ev_total : total_bytes log < u64_modulus;
  ev_fuel : retained log <= Z.of_nat fuel;
}.

(** One iteration drops entries of one Task. *)
Lemma evict_step fuel keep log id t t' r :
  evicting (S fuel) keep log -> tasks log !! id = Some t ->
  entries_inv t' -> 0 <= r -> bytes t' = bytes t - r ->
  task_shrinks (id = keep) (max_total_bytes log) t t' ->
  (length (entries t') < length (entries t))%nat ->
  evicting fuel keep (set_task id t' (u64_sub (total_bytes log) r) log) /\
  shrinks keep log (set_task id t' (u64_sub (total_bytes log) r) log).
Proof.
  intros [Hac Hkeep Hu Hf] Ht Hi Hr Hb Hsh Hlen.
  destruct (accounting_set_task log id t t' r Hac Ht Hu Hi Hr Hb) as [Hac' Htot].
  { by apply entries_bytes_nonneg. }
  split; [|by apply (shrinks_set_task _ _ t)]. split; [done| | |].
  - cbn. rewrite lookup_insert. case_decide; eauto.
  - lia.
  - rewrite (retained_set_task _ _ _ _ _ Ht). lia.
Qed.

Lemma retained_lookup log id t :
  tasks log !! id = Some t -> Z.of_nat (length (entries t)) <= retained log.
Proof.
  intros Ht. unfold retained. pattern t.
  eapply (map_sum_lookup_le (fun t => Z.of_nat (length (entries t)))); [|exact Ht].
  intros. lia.
Qed.

Lemma retained_zero keep log :
  evicting O keep log -> total_bytes log = 0.
Proof.
  intros [Hac _ _ Hf]. rewrite (ac_total _ Hac), (map_sum_single _ _ keep);
    [destruct (tasks log !! keep) as [t|] eqn:Ht; [|done]|]; cbn.
  - destruct (ac_entries _ Hac _ _ Ht) as [[-> _] _].
    apply retained_lookup in Ht. destruct (entries t); cbn in *; lia.
  - intros j t Ht _. destruct (ac_entries _ Hac _ _ Ht) as [[-> _] _].
    apply retained_lookup in Ht. destruct (entries t); cbn in *; lia.
Qed.

Lemma evict_spec fuel keep log :
  evicting fuel keep log ->
  exists log', evict_to_total_bound fuel keep log = Some log' /\ log_inv log' /\
    shrinks keep log log'.
Proof.
  revert log. induction fuel as [|fuel IH]; intros log Hev; cbn [evict_to_total_bound];
    (split_test; [exists log; split; [done|]; split; [split; [apply Hev|done]|apply shrinks_refl]|]);
    pose proof (ac_fit _ (ev_accounting _ _ _ Hev)) as (Hb1 & Hb2 & Hb3).
  { apply retained_zero in Hev. lia. }
  pose proof Hev as [Hac [k Hk] Hu _]. destruct (oldest_other keep log) as [[id t]|] eqn:Ho.
  - apply oldest_other_lookup in Ho as (Ht & Hne & Hnil). rewrite Ht. cbn.
    pose proof (accounting_bytes _ _ _ Hac Ht).
    destruct (evict_step _ _ _ id t (clear t).2 (bytes t) Hev Ht) as [Hev' Hsh];
      [apply entries_inv_clear|lia|cbn; lia| |destruct (entries t); [done|cbn; lia]|].
    { repeat split; [|done]. exists (length (entries t)). cbn. by rewrite drop_all. }
    destruct (IH _ Hev') as (log' & Heq & Hinv & Hsh'). eauto using shrinks_trans.
  - pose proof (no_other_total _ _ Hac Ho) as Htotal. rewrite Hk in *. cbn in *.
    pose proof (accounting_bytes _ _ _ Hac Hk). destruct (ac_entries _ Hac _ _ Hk) as [Hik _].
    destruct (pop_oldest_spec k Hik) as (Hi' & Hb' & Hr & He' & Hl'); [unfold is_u64; lia|].
    destruct (pop_oldest k) as [r k'] eqn:Hpop. cbn [fst snd] in *. pose proof (ei_bytes _ Hik) as Hbk.
    destruct (evict_step _ _ _ keep k k' r Hev Hk Hi') as [Hev' Hsh]; try lia.
    + repeat split; [done|by exists 1%nat|]. intros _ e Hlast Hfit. rewrite He'.
      destruct (entries k) as [|e0 [|e1 es]]; [done| |done]. cbn in *. simplify_eq. lia.
    + rewrite He', length_drop. destruct (entries k); cbn in *; lia.
    + destruct (IH _ Hev') as (log' & Heq & Hinv & Hsh'). eauto using shrinks_trans.
Qed.

(** ** Recording *)

Lemma record_in_task_spec bound revision changes b seq t :
  entries_inv t -> bytes t <= bound -> 0 <= b -> 2 * bound < u64_modulus ->
  exists released added t', record_in_task bound revision changes b seq t = Some (released, added, t') /\
    entries_inv t' /\ bytes t' <= bound /\ 0 <= released /\ 0 <= added <= bound /\
    released + bytes t' = bytes t + added /\
    last_published t' = Z.max (last_published t) revision /\
    (exists d, entries t' = drop d (entries t ++ [mkEntry revision changes b]) /\
      (revision <> u64_add (last_published t) 1 -> (length (entries t) <= d)%nat)) /\
    (b <= bound -> last (entries t') = Some (mkEntry revision changes b)).
Proof.
  intros Hi Hb Hb0 Hfit. pose proof (entries_bytes_nonneg _ Hi) as Hnn. unfold record_in_task.
  set (cond := negb _ && _).
  assert (exists released t1 d, (if cond then clear t else (0, t)) = (released, t1) /\
    entries_inv t1 /\ released + bytes t1 = bytes t /\ 0 <= released /\
    last_published t1 = last_published t /\ (d <= length (entries t))%nat /\
    entries t1 = drop d (entries t) /\
    (revision <> u64_add (last_published t) 1 -> (length (entries t) <= d)%nat))
    as (released & t1 & d & -> & Hi1 & Hs1 & Hr1 & Hl1 & Hd1 & He1 & Hgap).
  { destruct cond eqn:Hc.
    - exists (bytes t), (clear t).2, (length (entries t)).
      repeat split; try (cbn; lia); [constructor|by rewrite drop_all].
    - exists 0, t, O. repeat split; try apply Hi; try (lia || done). intros Hne.
      unfold cond in Hc. rewrite (bool_decide_eq_true_2 _ Hne), andb_true_r in Hc.
      destruct (entries t); cbn in *; [lia|done]. }
  pose proof (entries_bytes_nonneg _ Hi1). destruct Hi1 as [Hb1 Hf1].
  destruct (bool_decide_reflect (bound < b)) as [Hbig|Hsmall].
  - cbn. rewrite u64_add_small by (unfold is_u64; lia). eexists _, _, _. split; [done|]. cbn.
    repeat split; try (cbn; lia); [by constructor|].
    exists (S (length (entries t))). rewrite drop_ge; [split; [done|lia]|]. rewrite length_app. cbn. lia.
  - cbn [bytes entries last_published last_recorded]. rewrite u64_add_small by (unfold is_u64; lia).
    edestruct (pop_to_task_bound_spec (length (entries t1 ++ [mkEntry revision changes b])) bound
      released (mkEntries (Z.max (last_published t1) revision)
        (entries t1 ++ [mkEntry revision changes b]) (bytes t1 + b) seq))
      as (r & t2 & d2 & Heq & Hi2 & Hb2 & Hsum2 & Hle2 & He2 & Hl2 & Hlast2); cbn; try lia.
    { split; cbn; [rewrite list_sum_app, <- Hb1; cbn; lia|].
      apply Forall_app. split; [done|]. constructor; [done|constructor]. }
    rewrite Heq. cbn. eexists _, _, _. split; [done|]. cbn in *.
    repeat split; try apply Hi2; try lia.
    + exists (d + d2)%nat. rewrite He2, He1, <- drop_drop, (drop_app_le _ _ d) by done.
      split; [done|]. intros Hne%Hgap. lia.
    + intros _. apply Hlast2; [by rewrite last_snoc|cbn; lia].
Qed.

(** [record] on a log that satisfies the invariant: it terminates without
    panicking, keeps the invariant, shrinks other Tasks at most, and appends the
    change to a suffix of the Task's entries. *)
Definition records (id : string) (revision : Z) (changes : TaskChanges) (log log' : TaskChangeLog) : Prop :=
  let t := default default_entries (tasks log !! id) in
  let b := default u64_max (json_len changes) in
  (forall j, j <> id -> match tasks log !! j, tasks log' !! j with
     | Some t, Some t' => task_shrinks False (max_total_bytes log) t t'
     | None, None => True
     | _, _ => False end) /\
  exists t', tasks log' !! id = Some t' /\
    last_published t' = Z.max (last_published t) revision /\
    (exists d, entries t' = drop d (entries t ++ [mkEntry revision changes b]) /\
      (revision <> u64_add (last_published t) 1 -> (length (entries t) <= d)%nat)) /\
    (b <= max_task_bytes log -> b <= max_total_bytes log ->
     last (entries t') = Some (mkEntry revision changes b)).

Definition same_bounds (log log' : TaskChangeLog) : Prop :=
  max_task_bytes log' = max_task_bytes log /\ max_total_bytes log' = max_total_bytes log.

Hypothesis json_len_nonneg : forall c n, json_len c = Some n -> 0 <= n.

Lemma change_bytes_nonneg c : 0 <= default u64_max (json_len c).
Proof. destruct (json_len c) eqn:E; cbn; [eauto|done]. Qed.

Lemma record_spec id revision changes log :
  log_inv log -> ch_removed changes = false ->
  exists log', record id revision changes log = Some log' /\ log_inv log' /\
    same_bounds log log' /\ records id revision changes log log'.
Proof.
  intros [Hac Hbound] Hrem. pose proof (ac_fit _ Hac) as (Hf1 & Hf2 & Hf3).
  set (t := default default_entries (tasks log !! id)). set (b := default u64_max (json_len changes)).
  assert (entries_inv t /\ bytes t <= max_task_bytes log) as [Hi Hb].
  { unfold t. destruct (tasks log !! id) eqn:E; [by apply (ac_entries _ Hac id)|].
    split; [apply entries_inv_default|cbn; lia]. }
  assert (0 <= bytes t <= total_bytes log /\ default 0 (bytes <$> tasks log !! id) = bytes t) as [Hle Hdef].
  { unfold t. destruct (tasks log !! id) eqn:E; cbn.
    - split; [by eapply accounting_bytes|done].
    - rewrite (ac_total _ Hac). split; [|done]. split; [done|]. apply map_sum_nonneg.
      intros j w Hj. apply entries_bytes_nonneg, (ac_entries _ Hac _ _ Hj). }
  destruct (record_in_task_spec (max_task_bytes log) revision changes b (u64_add (sequence log) 1) t Hi Hb
    (change_bytes_nonneg _) ltac:(lia)) as (released & added & t1 & Heq & Hi1 & Hb1 & Hr1 & Ha1 & Hs1 & Hl1 & Hd1 & Hn1).
  pose proof (entries_bytes_nonneg _ Hi1).
  unfold record. rewrite Hrem. fold t b. rewrite Heq. cbn.
  rewrite u64_add_small, u64_sub_small by (unfold is_u64; lia).
  set (log1 := mkLog _ _ _ _ _).
  assert (evicting (Z.to_nat (retained log1)) id log1) as Hev.
  { assert (0 <= retained log1) by (apply map_sum_nonneg; intros; lia).
    split; [|unfold log1; cbn; rewrite lookup_insert_eq; eauto|unfold log1; cbn; lia|lia].
    split; [|unfold log1; cbn; rewrite map_sum_insert, Hdef, <- (ac_total _ Hac); lia|done].
    intros j w. unfold log1. cbn. rewrite lookup_insert. case_decide; [by intros [= <-]|apply Hac]. }
  destruct (evict_spec _ _ _ Hev) as (log' & Heq' & Hinv & Hm1 & Hm2 & Hsh).
  exists log'. split; [exact Heq'|]. split; [done|]. split; [by split|]. split.
  - intros j Hj. specialize (Hsh j). unfold log1 in Hsh. cbn in Hsh.
    rewrite lookup_insert_ne in Hsh by done. destruct (tasks log !! j), (tasks log' !! j); try done.
    destruct Hsh as (?&?&_). done.
  - specialize (Hsh id). unfold log1 in Hsh. cbn in Hsh. rewrite lookup_insert_eq in Hsh.
    destruct (tasks log' !! id) as [t'|] eqn:E; [|done]. destruct Hsh as (Hl & [d2 He] & Hlast).
    exists t'. split; [done|]. split; [by rewrite Hl|]. split.
    + destruct Hd1 as (d1 & Hd1 & Hgap). exists (d1 + d2)%nat. rewrite He, Hd1, drop_drop.
      split; [done|]. intros Hne. transitivity d1; [by apply Hgap|lia].
    + intros Hle1 Hle2. apply Hlast; [done|by apply Hn1|done].
Qed.

Lemma forget_spec id log :
  log_inv log -> log_inv (forget id log) /\ same_bounds log (forget id log) /\
  tasks (forget id log) = delete id (tasks log).
Proof.
  intros [Hac Hb]. unfold forget. destruct (tasks log !! id) as [t|] eqn:Ht.
  2: { split; [by split|]. split; [by split|]. by rewrite delete_id. }
  pose proof (accounting_bytes _ _ _ Hac Ht) as Hle. destruct (ac_fit _ Hac) as (?&?&?).
  split; [|done]. cbn. rewrite u64_sub_small by (unfold is_u64; lia).
  split; [split|]; cbn; [| |apply Hac|lia].
  - intros j w Hj. apply lookup_delete_Some in Hj as [_ Hj]. by apply (ac_entries _ Hac j).
  - rewrite (ac_total _ Hac), (map_sum_delete _ _ _ _ Ht). lia.
Qed.

(** ** The published history

    What subscribers were told about each Task since it was last removed. *)

Definition Op : Type := string * Z * TaskChanges.
Definition History : Type := string -> list (Z * TaskChanges).

Definition publish_history (h : History) (op : Op) : History :=
  let '(id, revision, changes) := op in
  fun j => if bool_decide (j = id)
           then if ch_removed changes then [] else h id ++ [(revision, changes)]
           else h j.

Definition last_revision (l : list (Z * TaskChanges)) : Z := default (-1) (fst <$> last l).

(** Revisions of a Task grow between removals and fit a [u64] with a successor. *)
Fixpoint ordered_from (h : History) (ops : list Op) : Prop :=
  match ops with
  | [] => True
  | (id, revision, changes) :: ops =>
      (ch_removed changes = false -> last_revision (h id) < revision < u64_max) /\
      ordered_from (publish_history h (id, revision, changes)) ops
  end.

Fixpoint record_all (ops : list Op) (log : TaskChangeLog) : option TaskChangeLog :=
  match ops with
  | [] => Some log
  | (id, revision, changes) :: ops =>
      log ← record id revision changes log; record_all ops log
  end.

Definition no_history : History := fun _ => [].
Definition history (ops : list Op) : History := foldl publish_history no_history ops.

Definition entry_pair (e : Entry) : Z * TaskChanges := (e_revision e, e_changes e).

(** The retained entries are a suffix of the history and have consecutive
    revisions up to [last_published]. *)
Record task_tracks (l : list (Z * TaskChanges)) (t : TaskEntries) : Prop := {
  tt_suffix : exists d, entry_pair <$> entries t = drop d l;
  tt_last : last_published t = last_revision l;
  tt_contiguous : forall i e, entries t !! i = Some e ->
    e_revision e = last_published t + 1 - Z.of_nat (length (entries t)) + Z.of_nat i;
  tt_bytes : forall e, e ∈ entries t -> e_bytes e = default u64_max (json_len (e_changes e));
}.

Record history_ok (l : list (Z * TaskChanges)) : Prop := {
  ho_sorted : forall i j p q, (i < j)%nat -> l !! i = Some p -> l !! j = Some q -> p.1 < q.1;
  ho_range : forall p, p ∈ l -> 0 <= p.1 < u64_max;
}.

Record tracks (h : History) (log : TaskChangeLog) : Prop := {
  tr_history : forall id, history_ok (h id);
  tr_task : forall id, match tasks log !! id with
                       | Some t => h id <> [] /\ task_tracks (h id) t
                       | None => h id = []
                       end;
}.

Lemma drop_entries_contiguous t es d last :
  entries t = drop d es ->
  (forall i e, es !! i = Some e -> e_revision e = last + 1 - Z.of_nat (length es) + Z.of_nat i) ->
  forall i e, entries t !! i = Some e ->
    e_revision e = last + 1 - Z.of_nat (length (entries t)) + Z.of_nat i.
Proof.
  intros -> Hc i e Hi. pose proof (lookup_lt_Some _ _ _ Hi) as Hlt. rewrite length_drop in *.
  rewrite lookup_drop in Hi. rewrite (Hc _ _ Hi). lia.
Qed.

Lemma task_tracks_shrink P b l t t' :
  task_shrinks P b t t' -> task_tracks l t -> task_tracks l t'.
Proof.
  intros (Hl & [d Hd] & _) [[d0 Hs] Hlast Hc Hby]. split.
  - exists (d0 + d)%nat. by rewrite Hd, fmap_drop, Hs, drop_drop.
  - congruence.
  - rewrite Hl. by apply (drop_entries_contiguous _ (entries t) d).
  - rewrite Hd. intros e He. apply Hby. by apply (subseteq_drop d).
Qed.

Lemma last_revision_snoc l p : last_revision (l ++ [p]) = p.1.
Proof. unfold last_revision. by rewrite last_snoc. Qed.

Lemma last_revision_ge l : history_ok l -> -1 <= last_revision l < u64_max.
Proof.
  intros [_ Hr]. unfold last_revision. destruct (last l) as [p|] eqn:E; cbn; [|done].
  apply last_Some_elem_of, Hr in E. lia.
Qed.

Lemma history_ok_nil : history_ok [].
Proof. split; [done|]. by intros p Hp%elem_of_nil. Qed.

Lemma history_ok_le_last l p : history_ok l -> p ∈ l -> p.1 <= last_revision l.
Proof.
  intros [Hs _] [i Hi]%list_elem_of_lookup. unfold last_revision.
  destruct l as [|x l] using rev_ind; [done|]. rewrite last_snoc. cbn.
  apply lookup_snoc_Some in Hi as [[Hlt Hi]|[_ ->]]; [|lia].
  assert (p.1 < x.1); [|lia]. apply (Hs i (length l)); [done| |apply list_lookup_middle; done].
  by rewrite lookup_app_l.
Qed.

Lemma history_ok_snoc l p :
  history_ok l -> last_revision l < p.1 < u64_max -> history_ok (l ++ [p]).
Proof.
  intros Hok Hp. pose proof (last_revision_ge _ Hok). split.
  - intros i j x y Hlt Hi Hj. apply lookup_snoc_Some in Hj as [[Hj' Hj]|[-> <-]].
    + rewrite lookup_app_l in Hi by lia. by apply (ho_sorted _ Hok i j).
    + rewrite lookup_app_l in Hi by done. apply list_elem_of_lookup_2 in Hi.
      apply history_ok_le_last in Hi; [lia|done].
  - intros x [Hx|Hx%list_elem_of_singleton]%elem_of_app; [by apply Hok|]. subst. lia.
Qed.

(** Appending a published change to tracked entries, of which a prefix may be
    dropped and must be when the revision skips one. *)
Lemma task_tracks_append l t t' e d :
  history_ok l -> task_tracks l t -> last_revision l < e_revision e ->
  entries t' = drop d (entries t ++ [e]) ->
  e_bytes e = default u64_max (json_len (e_changes e)) ->
  (e_revision e <> u64_add (last_published t) 1 -> (length (entries t) <= d)%nat) ->
  last_published t' = Z.max (last_published t) (e_revision e) ->
  task_tracks (l ++ [entry_pair e]) t'.
Proof.
  intros Hok [[d0 Hs] Hlast Hc Hby] Hr He Hbe Hgap Hl. pose proof (last_revision_ge _ Hok) as Hge.
  rewrite Z.max_r in Hl by lia. split.
  - assert (Hs' : entry_pair <$> (entries t ++ [e]) = drop (d0 `min` length l) (l ++ [entry_pair e])).
    { rewrite fmap_app, drop_app_le, Hs by lia. f_equal.
      destruct (Nat.min_spec d0 (length l)) as [[_ ->]|[? ->]]; [done|].
      rewrite !drop_ge; done || lia. }
    exists (d0 `min` length l + d)%nat. by rewrite He, fmap_drop, Hs', drop_drop.
  - by rewrite last_revision_snoc.
  - rewrite Hl. destruct (decide (e_revision e = u64_add (last_published t) 1)) as [Heq|Hne].
    + apply (drop_entries_contiguous _ _ d _ He). intros i x Hi. rewrite length_app. cbn.
      rewrite Hlast, u64_add_small in Heq by (unfold is_u64, u64_max in *; lia).
      apply lookup_snoc_Some in Hi as [[_ Hi]|[-> <-]]; [|lia].
      rewrite (Hc _ _ Hi), Hlast. lia.
    + specialize (Hgap Hne). rewrite drop_app_ge in He by done. intros i x. rewrite He.
      destruct (d - length (entries t))%nat as [|k]; cbn; [|by rewrite drop_nil].
      destruct i; [|done]. intros [= ->]. cbn. lia.
  - rewrite He. intros x Hx%subseteq_drop.
    apply elem_of_app in Hx as [Hx|Hx%list_elem_of_singleton]; [by apply Hby|by subst].
Qed.

Lemma tracks_record id revision changes h log log' :
  tracks h log -> (ch_removed changes = false -> last_revision (h id) < revision < u64_max) ->
  ch_removed changes = false -> records id revision changes log log' ->
  tracks (publish_history h (id, revision, changes)) log'.
Proof.
  intros [Hok Ht] Hord Hrem [Hother (t' & Ht' & Hl & (d & Hd & Hgap) & _)].
  specialize (Hord Hrem). split; intros j; cbn; rewrite Hrem.
  - split_test; [subst; by apply history_ok_snoc|apply Hok].
  - split_test.
    + subst j. rewrite Ht'. split; [by destruct (h id)|].
      specialize (Ht id). destruct (tasks log !! id) as [t|] eqn:E; cbn in *.
      * destruct Ht as [_ Ht]. apply (task_tracks_append _ t t'
          (mkEntry revision changes (default u64_max (json_len changes))) d);
          cbn; try done. lia.
      * rewrite Ht in *. pose proof (last_revision_ge _ history_ok_nil) as Hge. split.
        { exists d. by rewrite Hd, fmap_drop. }
        { rewrite Hl. unfold last_revision in *. cbn in *. lia. }
        { intros i x. rewrite Hd, Hl. destruct d; cbn; [|by rewrite drop_nil].
          destruct i; [|done]. intros [= <-]. unfold last_revision in *. cbn in *. lia. }
        rewrite Hd. by intros x Hx%subseteq_drop%list_elem_of_singleton; subst.
    + specialize (Ht j). specialize (Hother j ltac:(done)).
      destruct (tasks log !! j), (tasks log' !! j); try done. destruct Ht as [Hne Ht].
      eauto using task_tracks_shrink.
Qed.

Lemma tracks_forget id revision changes h log log' :
  tracks h log -> ch_removed changes = true -> tasks log' = delete id (tasks log) ->
  tracks (publish_history h (id, revision, changes)) log'.
Proof.
  intros [Hok Ht] Hrem Hl. split; intros j; cbn; rewrite Hrem.
  - split_test; [apply history_ok_nil|apply Hok].
  - rewrite Hl. split_test; [subst; by rewrite lookup_delete_eq|].
    rewrite lookup_delete_ne by done. apply Ht.
Qed.

(** One publication. *)
Lemma record_step id revision changes h log :
  log_inv log -> tracks h log ->
  (ch_removed changes = false -> last_revision (h id) < revision < u64_max) ->
  exists log', record id revision changes log = Some log' /\ log_inv log' /\
    same_bounds log log' /\ tracks (publish_history h (id, revision, changes)) log'.
Proof.
  intros Hinv Htr Hord. destruct (ch_removed changes) eqn:Hrem.
  - destruct (forget_spec id log Hinv) as (Hi & Hb & Hd). unfold record. rewrite Hrem.
    eauto 6 using tracks_forget.
  - destruct (record_spec id revision changes log Hinv Hrem) as (log' & Heq & Hi & Hb & Hrec).
    exists log'. split; [done|]. split; [done|]. split; [done|]. eapply tracks_record; eauto.
Qed.

Lemma record_all_spec ops h log :
  log_inv log -> tracks h log -> ordered_from h ops ->
  exists log', record_all ops log = Some log' /\ log_inv log' /\ same_bounds log log' /\
    tracks (foldl publish_history h ops) log'.
Proof.
  revert h log. induction ops as [|[[id r] c] ops IH]; intros h log Hi Ht Ho; cbn.
  - by exists log.
  - destruct Ho as [Hr Ho]. destruct (record_step id r c h log Hi Ht Hr) as (l1 & -> & Hi1 & [Hb1 Hb2] & Ht1).
    destruct (IH _ _ Hi1 Ht1 Ho) as (l2 & Heq & Hi2 & [Hb3 Hb4] & Ht2). cbn.
    exists l2. split; [done|]. split; [done|]. split; [split; congruence|done].
Qed.

Lemma with_bounds_ok task_bound total_bound :
  bounds_fit (with_bounds task_bound total_bound) ->
  log_inv (with_bounds task_bound total_bound) /\
  tracks no_history (with_bounds task_bound total_bound).
Proof.
  intros Hf. split; [split; [split|]; cbn|split; [intros; apply history_ok_nil|done]].
  - intros id t. by rewrite lookup_empty.
  - by rewrite map_sum_empty.
  - done.
  - apply Hf.
Qed.

Lemma filter_entry_pair known (es : list Entry) :
  entry_pair <$> filter (fun e => known < e_revision e) es
  = filter (fun p => known < p.1) (entry_pair <$> es).
Proof.
  induction es as [|e es IH]; [done|]. rewrite fmap_cons, !filter_cons.
  destruct (decide (known < e_revision e)) as [Hd|Hd]; [|by rewrite decide_False by exact Hd].
  rewrite fmap_cons, IH. by rewrite decide_True by exact Hd.
Qed.

(** When the oldest retained revision is at most one above [known], everything
    newer than [known] is retained. *)
Lemma filter_suffix_complete (l : list (Z * TaskChanges)) es e0 d known :
  history_ok l -> entry_pair <$> e0 :: es = drop d l -> e_revision e0 <= known + 1 ->
  filter (fun p => known < p.1) l
  = entry_pair <$> filter (fun e => known < e_revision e) (e0 :: es).
Proof.
  intros [Hs _] Hes Hfirst. rewrite filter_entry_pair, Hes.
  rewrite <- (take_drop d l) at 1. rewrite filter_app, (filter_none _ (take d l)); [done|].
  intros p Hp. apply list_elem_of_lookup in Hp as [i Hi].
  apply lookup_take_Some in Hi as [Hi Hlt].
  assert (l !! d = Some (entry_pair e0)) as Hd.
  { rewrite <- (Nat.add_0_r d), <- lookup_drop, <- Hes. done. }
  specialize (Hs i d _ _ Hlt Hi Hd). cbn in Hs. lia.
Qed.

(** Consecutive revisions: what is newer than [known] is a suffix that starts
    right above it. *)
Lemma filter_contiguous (es : list Entry) last known i e :
  (forall i e, es !! i = Some e -> e_revision e = last + 1 - Z.of_nat (length es) + Z.of_nat i) ->
  last + 1 - Z.of_nat (length es) <= known + 1 ->
  filter (fun e => known < e_revision e) es !! i = Some e ->
  e_revision e = known + 1 + Z.of_nat i.
Proof.
  revert i e. induction es as [|a es IH]; intros i e Hc Hk; [done|].
  pose proof (Hc O a eq_refl) as Ha. cbn [length] in *. rewrite filter_cons.
  assert (forall i e, es !! i = Some e ->
    e_revision e = last + 1 - Z.of_nat (length es) + Z.of_nat i) as Hc'.
  { intros j x Hj. rewrite (Hc (S j) x Hj). lia. }
  destruct (decide (known < e_revision a)) as [Hlt|Hge].
  - rewrite filter_all.
    + destruct i as [|i]; cbn; [intros [= <-]; lia|]. intros Hi. rewrite (Hc' i e Hi). lia.
    + intros x [j Hj]%list_elem_of_lookup. rewrite (Hc' _ _ Hj). lia.
  - intros Hi. apply IH; [done|lia|done].
Qed.

Definition change_bytes (c : TaskRevisionChanges) : Z :=
  default u64_max (json_len (rc_changes c)).

Lemma changes_since_tracks h log id known :
  tracks h log -> is_u64 known ->
  match changes_since id known log with
  | Unknown => h id = []
  | Evicted => h id <> [] /\ known < last_revision (h id)
  | Changes cs n =>
      h id <> [] /\
      cs = (fun p => mkRevisionChanges p.1 p.2) <$> filter (fun p => known < p.1) (h id) /\
      (forall i c, cs !! i = Some c -> rc_revision c = known + 1 + Z.of_nat i) /\
      n = list_sum change_bytes cs
  end.
Proof.
  intros [Hok Ht] Hu. unfold changes_since. specialize (Ht id). specialize (Hok id).
  destruct (tasks log !! id) as [t|]; [|done]. destruct Ht as [Hne [[d Hs] Hlast Hc Hby]].
  pose proof (last_revision_ge _ Hok) as Hge. split_test.
  { split; [done|]. split; [|done]. symmetry. rewrite filter_none; [done|]. intros p Hp%history_ok_le_last; [|done]. cbn. lia. }
  destruct (entries t) as [|e0 es] eqn:He; [split; [done|lia]|].
  split_test; [|split; [done|lia]].
  rewrite u64_add_small in * by (unfold is_u64, u64_max in *; lia).
  split; [done|]. rewrite (filter_suffix_complete _ es e0 d); [|done..].
  rewrite <- list_fmap_compose. split; [done|]. split.
  - intros i c Hi. apply list_lookup_fmap_Some in Hi as (e & -> & Hi). cbn [rc_revision].
    eapply (filter_contiguous (e0 :: es) (last_published t)); [exact Hc| |exact Hi].
    rewrite (Hc O e0 eq_refl) in *. cbn in *. lia.
  - assert (forall e, e ∈ filter (fun e => known < e_revision e) (e0 :: es) ->
      e_bytes e = default u64_max (json_len (e_changes e))) as Hb.
    { intros e [_ He']%list_elem_of_filter. by apply Hby. }
    induction (filter _ (e0 :: es)) as [|e missed IH]; [done|]. cbn.
    rewrite Hb by left. rewrite IH; [done|]. intros; apply Hb; by right.
Qed.

Lemma record_inv id revision changes log :
  log_inv log ->
  exists log', record id revision changes log = Some log' /\ log_inv log' /\ same_bounds log log'.
Proof.
  intros Hinv. destruct (ch_removed changes) eqn:Hrem.
  - destruct (forget_spec id log Hinv) as (Hi & Hb & _). unfold record. rewrite Hrem. eauto.
  - destruct (record_spec id revision changes log Hinv Hrem) as (log' & ? & ? & ? & _). eauto.
Qed.

(** Any sequence of publications, in whatever order of revisions, is
    recorded: the loops of [record] end, no index or map access panics, the byte
    accounting stays exact, every Task stays within [max_task_bytes] and the
    whole log within [max_total_bytes]. *)
Theorem record_all_bounded task_bound total_bound ops :
  bounds_fit (with_bounds task_bound total_bound) ->
  exists log, record_all ops (with_bounds task_bound total_bound) = Some log /\
    total_bytes log = map_sum (fun t => list_sum e_bytes (entries t)) (tasks log) /\
    total_bytes log <= total_bound /\
    forall id t, tasks log !! id = Some t -> list_sum e_bytes (entries t) <= task_bound.
Proof.
  intros Hf. destruct (with_bounds_ok _ _ Hf) as [Hi _].
  assert (exists log, record_all ops (with_bounds task_bound total_bound) = Some log /\
    log_inv log /\ same_bounds (with_bounds task_bound total_bound) log) as (log & -> & [Hac Hb] & Hb1 & Hb2).
  { clear Hf. revert Hi. generalize (with_bounds task_bound total_bound).
    induction ops as [|[[id r] c] ops IH]; intros log Hi; cbn; [by exists log|].
    destruct (record_inv id r c log Hi) as (l1 & -> & Hi1 & [Ha1 Ha2]). cbn.
    destruct (IH _ Hi1) as (l2 & ? & ? & [? ?]). exists l2. split; [done|]. split; [done|].
    split; congruence. }
  cbn in *. exists log. split; [done|]. split; [|split; [lia|]].
  - rewrite (ac_total _ Hac). apply map_sum_ext. intros id t Ht. apply (ac_entries _ Hac id t Ht).
  - intros id t Ht. destruct (ac_entries _ Hac id t Ht) as [[<- _] ?]. lia.
Qed.

(** After any publications in revision order, the answer to a client that
    knows [known] is exact: [Unknown] only for a Task nothing was published of,
    [Evicted] only when something is missed, and [Changes] carries exactly the
    published changes above [known], with the consecutive revisions
    [known + 1 ..] and their serialized size. *)
Theorem changes_since_exact task_bound total_bound ops id known :
  bounds_fit (with_bounds task_bound total_bound) -> ordered_from no_history ops -> is_u64 known ->
  exists log, record_all ops (with_bounds task_bound total_bound) = Some log /\
    match changes_since id known log with
    | Unknown => history ops id = []
    | Evicted => history ops id <> [] /\ known < last_revision (history ops id)
    | Changes cs n =>
        history ops id <> [] /\
        cs = (fun p => mkRevisionChanges p.1 p.2)
               <$> filter (fun p => known < p.1) (history ops id) /\
        (forall i c, cs !! i = Some c -> rc_revision c = known + 1 + Z.of_nat i) /\
        n = list_sum change_bytes cs
    end.
Proof.
  intros Hf Ho Hu. destruct (with_bounds_ok _ _ Hf) as [Hi Ht].
  destruct (record_all_spec _ _ _ Hi Ht Ho) as (log & Heq & _ & _ & Htr).
  exists log. split; [done|]. by apply changes_since_tracks.
Qed.

Lemma record_all_app ops1 ops2 log :
  record_all (ops1 ++ ops2) log = record_all ops1 log ≫= record_all ops2.
Proof.
  revert log. induction ops1 as [|[[id r] c] ops1 IH]; intros log; cbn; [done|].
  destruct (record id r c log); cbn; [apply IH|done].
Qed.

Lemma ordered_from_app ops1 ops2 h :
  ordered_from h (ops1 ++ ops2) <->
  ordered_from h ops1 /\ ordered_from (foldl publish_history h ops1) ops2.
Proof.
  revert h. induction ops1 as [|[[id r] c] ops1 IH]; intros h; cbn; [tauto|].
  rewrite IH. tauto.
Qed.

(** The newest retained entry answers a client one revision behind. *)
Lemma changes_since_newest id t e log :
  tasks log !! id = Some t -> last (entries t) = Some e ->
  last_published t = e_revision e -> 0 < e_revision e < u64_max ->
  (forall i e, entries t !! i = Some e ->
    e_revision e = last_published t + 1 - Z.of_nat (length (entries t)) + Z.of_nat i) ->
  changes_since id (e_revision e - 1) log
  = Changes [mkRevisionChanges (e_revision e) (e_changes e)] (e_bytes e).
Proof.
  intros Ht Hlast Hl Hr Hc. unfold changes_since. rewrite Ht, Hl.
  rewrite bool_decide_eq_false_2 by lia.
  apply last_Some in Hlast as [es He]. rewrite He in *.
  assert (filter (fun x => e_revision e - 1 < e_revision x) (es ++ [e]) = [e]) as Hfil.
  { rewrite filter_app, filter_none, filter_all; [done| |].
    - intros x Hx%list_elem_of_singleton. subst. lia.
    - intros x [i Hi]%list_elem_of_lookup. pose proof (lookup_lt_Some _ _ _ Hi).
      rewrite (Hc i x) by (by rewrite lookup_app_l). rewrite length_app. cbn. lia. }
  rewrite Hfil. destruct (es ++ [e]) as [|e0 rest] eqn:E; [by destruct es|].
  rewrite u64_add_small by (unfold is_u64, u64_max in *; lia).
  rewrite bool_decide_eq_true_2; [cbn; f_equal; lia|].
  rewrite (Hc O e0 eq_refl). cbn. lia.
Qed.

(** A change just published that fits both bounds is available: the
    client that knows the preceding revision receives exactly that change,
    whatever was published, skipped, evicted or removed before. *)
Theorem newest_change_available task_bound total_bound ops id revision changes n :
  bounds_fit (with_bounds task_bound total_bound) ->
  ordered_from no_history (ops ++ [(id, revision, changes)]) ->
  ch_removed changes = false -> 0 < revision ->
  json_len changes = Some n -> n <= task_bound -> n <= total_bound ->
  exists log,
    record_all (ops ++ [(id, revision, changes)]) (with_bounds task_bound total_bound) = Some log /\
    changes_since id (revision - 1) log = Changes [mkRevisionChanges revision changes] n.
Proof.
  intros Hf Ho Hrem Hr Hn Hn1 Hn2. destruct (with_bounds_ok _ _ Hf) as [Hi Ht].
  apply ordered_from_app in Ho as [Ho1 [Ho2 _]].
  destruct (record_all_spec _ _ _ Hi Ht Ho1) as (l1 & Heq & Hi1 & [Hb1 Hb2] & Htr).
  destruct (record_spec id revision changes l1 Hi1 Hrem) as (l2 & Heq2 & _ & _ & Hrec).
  pose proof (tracks_record _ _ _ _ _ _ Htr Ho2 Hrem Hrec) as [_ Htr2]. specialize (Htr2 id).
  destruct Hrec as [_ (t & Hlk & _ & _ & Hlast)]. rewrite Hlk in Htr2.
  destruct Htr2 as [_ [_ Hl Hc _]]. rewrite Hn in Hlast. cbn in *.
  specialize (Ho2 Hrem). rewrite Hrem, bool_decide_eq_true_2, last_revision_snoc in Hl by done.
  exists l2. rewrite record_all_app, Heq. cbn. rewrite Heq2. split; [done|].
  apply (changes_since_newest id t (mkEntry revision changes n)); cbn;
    [done|apply Hlast; lia|done|lia|exact Hc].
Qed.

End TaskChangeLog.

Module Witness.
#[local] Existing Instance string_payloads.

Definition change (chat : list TaskChatChange) (removed : bool) : TaskChanges :=
  mkChanges None None None None None None None None None None None None None chat removed.

Definition len (c : TaskChanges) : option Z := Some 3.
Definition c0 : TaskChanges := change [] false.
Definition gone : TaskChanges := change [] true.

(** Bounds of three and five entries: the sequence skips a revision, removes a
    Task and evicts the Task recorded longest ago. *)
Definition ops : list Op :=
  [("a", 1, c0); ("a", 2, c0); ("b", 7, c0); ("a", 3, c0); ("b", 9, c0); ("b", 10, c0);
   ("c", 1, c0); ("c", 1, gone); ("d", 4, c0); ("b", 11, c0)]%string.

Lemma len_nonneg : forall c n, len c = Some n -> 0 <= n.
Proof. by intros c n [= <-]. Defined.

Lemma fit : bounds_fit (with_bounds 9 15).
Proof. vm_compute. repeat split; discriminate. Defined.

Lemma ordered : ordered_from no_history ops.
Proof. vm_compute. repeat split; intros; discriminate || reflexivity. Defined.

Lemma record_all_bounded_witness :
  exists log, record_all len ops (with_bounds 9 15) = Some log /\ total_bytes log <= 15.
Proof.
  destruct (record_all_bounded len len_nonneg 9 15 ops fit) as (log & Heq & _ & Hb & _).
  exists log. split; [exact Heq|exact Hb].
Defined.

Lemma changes_since_exact_witness :
  (exists log, record_all len ops (with_bounds 9 15) = Some log /\
     changes_since "b" 9 log = Changes [mkRevisionChanges 10 c0; mkRevisionChanges 11 c0] 6) /\
  history ops "b" = [(7, c0); (9, c0); (10, c0); (11, c0)].
Proof.
  destruct (changes_since_exact len len_nonneg 9 15 ops "b" 9 fit ordered) as (log & Heq & Hm);
    [vm_compute; split; discriminate || reflexivity|].
  split; [|vm_compute; reflexivity]. exists log. split; [exact Heq|].
  vm_compute in Heq. injection Heq as <-. vm_compute. reflexivity.
Defined.

Lemma newest_change_available_witness :
  exists log, record_all len (ops ++ [("a"%string, 6, c0)]) (with_bounds 9 15) = Some log /\
    changes_since "a" 5 log = Changes [mkRevisionChanges 6 c0] 3.
Proof.
  apply (newest_change_available len len_nonneg 9 15 ops "a" 6 c0 3 fit);
    vm_compute; repeat split; intros; discriminate || reflexivity.
Defined.
End Witness.
