(* ===== verification/ClientLifecycle.v ===== *)
(** * Client and process lifecycle

    Models [openaide-rs/app-server/src/client_lifecycle.rs] (the [ClientHub] that
    tracks initialized clients, their connections, heartbeats and reconnect
    grace) and [app_lifecycle.rs] (the running, draining and stopping states of
    the process).  [ConnectionId] and [AppServerTime] are their contents.  Hash
    map iteration is [map_to_list]; the theorems do not depend on its order. *)

From stdpp Require Import sorting.
From S2P Require Import Prelude Protocol.

Local Open Scope Z_scope.

(** ** Client data *)

Record ClientContext := mkContext {
  client_instance_id : string;
  connection_id : string;
  ctx_shell : ShellDescriptor;
  requested_surface : RequestedSurface;
  capabilities : ClientCapabilities;
  role : ClientRole;
}.

Inductive InitializeClientOutcome :=
| NewClient (context : ClientContext)
| ReattachedClient (context : ClientContext).

Inductive TransportClosedOutcome :=
| EnteredReconnectGrace (client : string) (expires_at : Z)
| UnknownConnection.

Inductive ClientExpiryOutcome :=
| Expired (client : string) (last_client : bool)
| StillInGrace (expires_at : Z)
| ClientConnected
| ExpiryUnknownClient.

Record ClientExpiryBatch := mkExpiryBatch {
  entered_reconnect_grace : list (string * Z);
  expired : list string;
  last_client_expired : bool;
}.

Inductive CapabilityChangeOutcome :=
| CapabilityUpdated (context : ClientContext)
| CapabilityUnknownClient.

Inductive DetachOutcome :=
| Detached (client : string) (last_client : bool)
| DetachUnknownClient.

Inductive RequestCapability := CapPermission | CapQuestion.
#[global] Instance RequestCapability_eq_dec : EqDecision RequestCapability.
Proof. solve_decision. Defined.

Record Delivery := mkDelivery {
  d_client : string;
  d_connection : string;
  d_capabilities : list RequestCapability;
}.

#[global] Instance Delivery_eq_dec : EqDecision Delivery.
Proof. solve_decision. Defined.

Definition supports_method (d : Delivery) (method : string) : bool :=
  if bool_decide (method = PERMISSION_REQUEST) then bool_decide (CapPermission ∈ d_capabilities d)
  else if bool_decide (method = QUESTION_REQUEST) then bool_decide (CapQuestion ∈ d_capabilities d)
  else true.

Record ClientRecord := mkClient {
  context : ClientContext;
  protocol_version : option ProtocolVersion;
  reconnect_expires_at : option Z;
  liveness_expires_at : Z;
}.

Record ClientLivenessPolicy := mkPolicy {
  reconnect_grace_ms : Z;
  heartbeat_timeout_ms : Z;
}.

Record ClientHub := mkHub {
  liveness_policy : ClientLivenessPolicy;
  clients : gmap string ClientRecord;
  connections : gmap string string;
  has_ever_initialized : bool;
}.

(** ** Operations of the hub *)

Definition new (policy : ClientLivenessPolicy) : ClientHub := mkHub policy ∅ ∅ false.

(** [connections.retain(|_, value| value != client)]. *)
Definition drop_connections (client : string) (m : gmap string string) : gmap string string :=
  filter (fun kv : string * string => kv.2 <> client) m.

Definition initialize (conn : string) (params : InitializeParams) (now : Z) (hub : ClientHub)
  : InitializeClientOutcome * ClientHub :=
  let ctx := mkContext (init_client_instance_id params) conn (init_shell params)
               (init_requested_surface params) (init_capabilities params) (init_role params) in
  let id := client_instance_id ctx in
  let was_present := bool_decide (is_Some (clients hub !! id)) in
  let record := mkClient ctx (init_protocol_version params) None
                  (u64_add now (heartbeat_timeout_ms (liveness_policy hub))) in
  let hub := mkHub (liveness_policy hub) (<[id := record]> (clients hub))
               (<[conn := id]> (drop_connections id (connections hub))) true in
  (if was_present then ReattachedClient ctx else NewClient ctx, hub).

Definition set_client (id : string) (r : ClientRecord) (hub : ClientHub) : ClientHub :=
  mkHub (liveness_policy hub) (<[id := r]> (clients hub)) (connections hub) (has_ever_initialized hub).

Definition set_connections (m : gmap string string) (hub : ClientHub) : ClientHub :=
  mkHub (liveness_policy hub) (clients hub) m (has_ever_initialized hub).

Definition update_capabilities (id : string) (caps : ClientCapabilities) (hub : ClientHub)
  : CapabilityChangeOutcome * ClientHub :=
  match clients hub !! id with
  | None => (CapabilityUnknownClient, hub)
  | Some r =>
      let c := context r in
      let c := mkContext (client_instance_id c) (connection_id c) (ctx_shell c)
                 (requested_surface c) caps (role c) in
      (CapabilityUpdated c,
       set_client id (mkClient c (protocol_version r) (reconnect_expires_at r)
                        (liveness_expires_at r)) hub)
  end.

Definition with_grace (expires_at : Z) (r : ClientRecord) : ClientRecord :=
  mkClient (context r) (protocol_version r) (Some expires_at) (liveness_expires_at r).

Definition observe_transport_closed (conn : string) (now : Z) (hub : ClientHub)
  : TransportClosedOutcome * ClientHub :=
  match connections hub !! conn with
  | None => (UnknownConnection, hub)
  | Some id =>
      let hub := set_connections (delete conn (connections hub)) hub in
      let expires_at := u64_add now (reconnect_grace_ms (liveness_policy hub)) in
      let hub := match clients hub !! id with
                 | Some r => set_client id (with_grace expires_at r) hub
                 | None => hub
                 end in
      (EnteredReconnectGrace id expires_at, hub)
  end.

Definition observe_connection_activity (conn : string) (now : Z) (hub : ClientHub)
  : option string * ClientHub :=
  match connections hub !! conn with
  | None => (None, hub)
  | Some id =>
      match clients hub !! id with
      | None => (None, hub)
      | Some r =>
          (Some id,
           set_client id (mkClient (context r) (protocol_version r) (reconnect_expires_at r)
             (u64_add now (heartbeat_timeout_ms (liveness_policy hub)))) hub)
      end
  end.

(** [clients.remove(id)] and the [retain] that follows it. *)
Definition remove_client (id : string) (hub : ClientHub) : ClientHub :=
  mkHub (liveness_policy hub) (delete id (clients hub))
    (drop_connections id (connections hub)) (has_ever_initialized hub).

Definition no_clients (hub : ClientHub) : bool := bool_decide (clients hub = ∅).

Definition expire_after_grace (id : string) (now : Z) (hub : ClientHub)
  : ClientExpiryOutcome * ClientHub :=
  match clients hub !! id with
  | None => (ExpiryUnknownClient, hub)
  | Some r =>
      match reconnect_expires_at r with
      | None => (ClientConnected, hub)
      | Some expires_at =>
          if bool_decide (now < expires_at) then (StillInGrace expires_at, hub)
          else let hub := remove_client id hub in (Expired id (no_clients hub), hub)
      end
  end.

(** The clients whose heartbeats stopped, and those whose grace has ended. *)
Definition is_silent (now : Z) (r : ClientRecord) : Prop :=
  reconnect_expires_at r = None /\ liveness_expires_at r <= now.

#[global] Instance is_silent_dec now r : Decision (is_silent now r).
Proof. unfold is_silent. apply _. Defined.

Definition grace_over (now : Z) (r : ClientRecord) : Prop :=
  match reconnect_expires_at r with Some e => e <= now | None => False end.

#[global] Instance grace_over_dec now r : Decision (grace_over now r).
Proof. unfold grace_over. destruct (reconnect_expires_at r); apply _. Defined.

Definition select (P : ClientRecord -> Prop) `{forall r, Decision (P r)} (hub : ClientHub) : list string :=
  (filter (fun kv : string * ClientRecord => P kv.2) (map_to_list (clients hub))).*1.

Definition enter_grace (expires_at : Z) (hub : ClientHub) (id : string) : ClientHub :=
  let hub := match clients hub !! id with
             | Some r => set_client id (with_grace expires_at r) hub
             | None => hub
             end in
  set_connections (drop_connections id (connections hub)) hub.

Definition expire_inactive_clients (now : Z) (hub : ClientHub) : ClientExpiryBatch * ClientHub :=
  let entered := select (is_silent now) hub in
  let grace_expires_at := u64_add now (reconnect_grace_ms (liveness_policy hub)) in
  let hub := foldl (enter_grace grace_expires_at) hub entered in
  let expired := select (grace_over now) hub in
  let hub := foldl (fun hub id => remove_client id hub) hub expired in
  (mkExpiryBatch ((fun id => (id, grace_expires_at)) <$> entered) expired
     (negb (bool_decide (expired = [])) && no_clients hub), hub).

Definition detach (id : string) (hub : ClientHub) : DetachOutcome * ClientHub :=
  match clients hub !! id with
  | None => (DetachUnknownClient, hub)
  | Some _ => let hub := remove_client id hub in (Detached id (no_clients hub), hub)
  end.

Definition context_for_connection (conn : string) (hub : ClientHub) : option ClientContext :=
  id ← connections hub !! conn; context <$> clients hub !! id.

Definition has_initialized_clients (hub : ClientHub) : bool := negb (no_clients hub).

Definition other_owners (id : string) (hub : ClientHub) : list ClientContext :=
  (fun kv : string * ClientRecord => context kv.2) <$>
    filter (fun kv : string * ClientRecord => kv.1 <> id /\ role (context kv.2) <> ShellHold)
      (map_to_list (clients hub)).

Definition has_other_initialized_client (id : string) (hub : ClientHub) : bool :=
  negb (bool_decide (other_owners id hub = [])).

Definition summary (kv : string * ClientRecord) : AttachedClientSummary :=
  let r := kv.2 in
  mkClientSummary (shell_kind (ctx_shell (context r))) (shell_name (ctx_shell (context r)))
    (shell_version (ctx_shell (context r))) (protocol_version r)
    (bool_decide (is_Some (reconnect_expires_at r))).

(** [sort_by] on the client ids; the ids are distinct keys of a map. *)
Definition id_le (a b : string * ClientRecord) : Prop := String.leb a.1 b.1 = true.
#[global] Instance id_le_dec a b : Decision (id_le a b).
Proof. unfold id_le. apply _. Defined.

Definition other_client_summaries (id : string) (hub : ClientHub) : list AttachedClientSummary :=
  summary <$> merge_sort id_le
    (filter (fun kv : string * ClientRecord => kv.1 <> id) (map_to_list (clients hub))).

Definition client_by_instance (id : string) (hub : ClientHub) : option ClientContext :=
  context <$> clients hub !! id.

Definition request_capabilities (caps : ClientCapabilities) : list RequestCapability :=
  (if bool_decide (PermissionResponses ∈ cap_protocol caps) then [CapPermission] else []) ++
  (if bool_decide (QuestionResponses ∈ cap_protocol caps) then [CapQuestion] else []).

Definition delivery_for (hub : ClientHub) (id : string) : option Delivery :=
  r ← clients hub !! id;
  Some (mkDelivery id (connection_id (context r)) (request_capabilities (capabilities (context r)))).

Definition deliveries_supporting (method : string) (hub : ClientHub) : list Delivery :=
  filter (fun d => supports_method d method = true)
    (omap (delivery_for hub) (map_to_list (clients hub)).*1).

Definition live_with (capability : ShellCapability) (hub : ClientHub) (r : ClientRecord) : Prop :=
  capability ∈ cap_shell (capabilities (context r)) /\
  reconnect_expires_at r = None /\ is_Some (connections hub !! connection_id (context r)).

#[global] Instance live_with_dec c hub r : Decision (live_with c hub r).
Proof. unfold live_with. apply _. Defined.

Definition deliveries_with_shell_capability (capability : ShellCapability) (hub : ClientHub)
  : list Delivery :=
  omap (fun kv : string * ClientRecord => delivery_for hub (client_instance_id (context kv.2)))
    (filter (fun kv : string * ClientRecord => live_with capability hub kv.2)
       (map_to_list (clients hub))).

(** ** Executions *)

Inductive HubOp :=
| OpInitialize (conn : string) (params : InitializeParams) (now : Z)
| OpCapabilities (id : string) (caps : ClientCapabilities)
| OpTransportClosed (conn : string) (now : Z)
| OpActivity (conn : string) (now : Z)
| OpExpireAfterGrace (id : string) (now : Z)
| OpExpireInactive (now : Z)
| OpDetach (id : string).

Definition apply_op (hub : ClientHub) (op : HubOp) : ClientHub :=
  match op with
  | OpInitialize conn params now => (initialize conn params now hub).2
  | OpCapabilities id caps => (update_capabilities id caps hub).2
  | OpTransportClosed conn now => (observe_transport_closed conn now hub).2
  | OpActivity conn now => (observe_connection_activity conn now hub).2
  | OpExpireAfterGrace id now => (expire_after_grace id now hub).2
  | OpExpireInactive now => (expire_inactive_clients now hub).2
  | OpDetach id => (detach id hub).2
  end.

Definition run (policy : ClientLivenessPolicy) (ops : list HubOp) : ClientHub :=
  foldl apply_op (new policy) ops.

(** ** The connection invariant *)

Record hub_inv (hub : ClientHub) : Prop := {
  hi_key : forall id r, clients hub !! id = Some r -> client_instance_id (context r) = id;
  hi_conn : forall c id, connections hub !! c = Some id ->
    exists r, clients hub !! id = Some r /\ connection_id (context r) = c /\
              reconnect_expires_at r = None;
}.

Lemma drop_connections_lookup id m c k :
  drop_connections id m !! c = Some k <-> m !! c = Some k /\ k <> id.
Proof. unfold drop_connections. by rewrite map_lookup_filter_Some. Qed.

Lemma hub_inv_new policy : hub_inv (new policy).
Proof. split; intros ??; cbn; by rewrite lookup_empty. Qed.

(** Replacing a record that keeps the identity, and the connection unless the
    client enters its grace. *)
Lemma hub_inv_set_client hub id r r' :
  hub_inv hub -> clients hub !! id = Some r ->
  client_instance_id (context r') = client_instance_id (context r) ->
  (forall c, connections hub !! c = Some id ->
     connection_id (context r') = c /\ reconnect_expires_at r' = None) ->
  hub_inv (set_client id r' hub).
Proof.
  intros [Hk Hc] Hr Hid Hcon. split; cbn.
  - intros j w. rewrite lookup_insert. case_decide; [|apply Hk].
    intros [= <-]. subst. rewrite Hid. by apply Hk.
  - intros c j Hj. rewrite lookup_insert. case_decide; [|by apply Hc].
    subst j. exists r'. split; [done|]. by apply Hcon.
Qed.

Lemma hub_inv_enter_grace e hub id : hub_inv hub -> hub_inv (enter_grace e hub id).
Proof.
  intros [Hk Hc]. unfold enter_grace. split.
  - intros j w. destruct (clients hub !! id) as [r|] eqn:Hr; cbn; [|apply Hk].
    rewrite lookup_insert. case_decide; [|apply Hk]. intros [= <-]. subst. cbn. by apply Hk.
  - intros c j. cbn. intros [Hj Hne]%drop_connections_lookup.
    destruct (clients hub !! id) as [r|] eqn:Hr; cbn in *; [|by apply Hc].
    rewrite lookup_insert_ne by done. by apply Hc.
Qed.

Lemma hub_inv_remove_client id hub : hub_inv hub -> hub_inv (remove_client id hub).
Proof.
  intros [Hk Hc]. split; cbn.
  - intros j w [_ Hj]%lookup_delete_Some. by apply Hk.
  - intros c j [Hj Hne]%drop_connections_lookup. rewrite lookup_delete_ne by done. by apply Hc.
Qed.

Lemma hub_inv_foldl {A} (f : ClientHub -> A -> ClientHub) l hub :
  (forall hub x, hub_inv hub -> hub_inv (f hub x)) -> hub_inv hub -> hub_inv (foldl f hub l).
Proof. intros Hf. revert hub. induction l; cbn; auto. Qed.

Lemma hub_inv_initialize conn params now hub :
  hub_inv hub -> hub_inv (initialize conn params now hub).2.
Proof.
  intros [Hk Hc]. split; cbn.
  - intros j w. rewrite lookup_insert. case_decide; [|apply Hk]. by intros [= <-].
  - intros c j. rewrite lookup_insert. case_decide as Hd.
    + intros [= <-]. subst. rewrite lookup_insert_eq. eauto.
    + intros [Hj Hne]%drop_connections_lookup. rewrite lookup_insert_ne by done. by apply Hc.
Qed.

Lemma hub_inv_transport_closed conn now hub :
  hub_inv hub -> hub_inv (observe_transport_closed conn now hub).2.
Proof.
  intros Hi. unfold observe_transport_closed. destruct (connections hub !! conn) as [id|] eqn:E; [|done].
  destruct (hi_conn _ Hi _ _ E) as (r & Hr & Hrc & _). cbn. rewrite Hr.
  apply (hub_inv_set_client _ _ r); [|done..|].
  - destruct Hi as [Hk Hc]. split; cbn; [done|]. intros c j [_ Hj]%lookup_delete_Some. by apply Hc.
  - cbn. intros c [Hne Hj]%lookup_delete_Some. destruct (hi_conn _ Hi _ _ Hj) as (r' & Hr' & Hc' & _).
    congruence.
Qed.

Lemma hub_inv_step hub op : hub_inv hub -> hub_inv (apply_op hub op).
Proof.
  intros Hi. destruct op; cbn [apply_op].
  - by apply hub_inv_initialize.
  - unfold update_capabilities. destruct (clients hub !! id) as [r|] eqn:E; [|done].
    apply (hub_inv_set_client _ _ r); [done..|]. cbn. intros c Hc.
    destruct (hi_conn _ Hi _ _ Hc) as (r' & ? & ? & ?). by simplify_eq.
  - by apply hub_inv_transport_closed.
  - unfold observe_connection_activity. destruct (connections hub !! conn) as [id|]; [|done].
    destruct (clients hub !! id) as [r|] eqn:E; [|done].
    apply (hub_inv_set_client _ _ r); [done..|]. cbn. intros c Hc.
    destruct (hi_conn _ Hi _ _ Hc) as (r' & ? & ? & ?). by simplify_eq.
  - unfold expire_after_grace. destruct (clients hub !! id) as [r|]; [|done].
    destruct (reconnect_expires_at r); [|done]. split_test; [done|]. by apply hub_inv_remove_client.
  - unfold expire_inactive_clients. apply hub_inv_foldl; [intros; by apply hub_inv_remove_client|].
    apply hub_inv_foldl; [intros; by apply hub_inv_enter_grace|done].
  - unfold detach. destruct (clients hub !! id); [by apply hub_inv_remove_client|done].
Qed.

Lemma run_inv policy ops : hub_inv (run policy ops).
Proof. apply hub_inv_foldl; [intros; by apply hub_inv_step|apply hub_inv_new]. Qed.

(** In every execution a connection resolves to exactly one client, that
    client's context names this connection and no other connection resolves to
    it, the client is not in reconnect grace, and replies routed to the client
    go to this connection. *)
Theorem connection_resolves_uniquely policy ops conn :
  let hub := run policy ops in
  match connections hub !! conn with
  | None => context_for_connection conn hub = None
  | Some id =>
      (exists ctx, context_for_connection conn hub = Some ctx /\
         client_by_instance id hub = Some ctx /\
         client_instance_id ctx = id /\ connection_id ctx = conn) /\
      (exists d, delivery_for hub id = Some d /\ d_connection d = conn /\ d_client d = id) /\
      (forall other, connections hub !! other = Some id -> other = conn)
  end.
Proof.
  pose proof (run_inv policy ops) as [Hk Hc]. cbv zeta.
  unfold context_for_connection, client_by_instance, delivery_for.
  destruct (connections (run policy ops) !! conn) as [id|] eqn:E; [|done].
  destruct (Hc _ _ E) as (r & Hr & Hrc & _). cbn. rewrite !Hr. cbn. split; [|split].
  - exists (context r). repeat split; auto.
  - eexists. by rewrite Hrc.
  - intros other Ho. destruct (Hc _ _ Ho) as (r' & Hr' & <- & _). congruence.
Qed.

(** ** Heartbeat expiry *)

Lemma elem_of_select P `{forall r, Decision (P r)} hub id :
  id ∈ select P hub <-> exists r, clients hub !! id = Some r /\ P r.
Proof.
  unfold select. rewrite list_elem_of_fmap. split.
  - intros ([j r] & -> & [HP Hin%elem_of_map_to_list]%list_elem_of_filter). eauto.
  - intros (r & Hr & HP). exists (id, r). split; [done|].
    apply list_elem_of_filter. split; [done|]. by apply elem_of_map_to_list.
Qed.

Lemma NoDup_select P `{forall r, Decision (P r)} hub : NoDup (select P hub).
Proof.
  unfold select. apply (sublist_NoDup _ (map_to_list (clients hub)).*1); [apply NoDup_fst_map_to_list|].
  apply fmap_sublist. induction (map_to_list (clients hub)) as [|kv l IH]; [done|].
  rewrite filter_cons. case_decide; by constructor.
Qed.

Lemma enter_grace_lookup e hub j id :
  clients (enter_grace e hub j) !! id
  = if bool_decide (id = j) then with_grace e <$> clients hub !! id else clients hub !! id.
Proof.
  unfold enter_grace. cbn. split_test; [subst|]; destruct (clients hub !! j) as [r|] eqn:Hj; cbn.
  - by rewrite lookup_insert_eq.
  - done.
  - by rewrite lookup_insert_ne.
  - done.
Qed.

Lemma enter_grace_all e ids hub :
  let hub' := foldl (enter_grace e) hub ids in
  liveness_policy hub' = liveness_policy hub /\
  (forall id, clients hub' !! id
     = if bool_decide (id ∈ ids) then with_grace e <$> clients hub !! id else clients hub !! id) /\
  (forall c k, connections hub' !! c = Some k <-> connections hub !! c = Some k /\ k ∉ ids).
Proof.
  revert hub. induction ids as [|j ids IH]; intros hub; cbn [foldl]; cbv zeta.
  { split; [done|]. split; [done|]. set_solver. }
  destruct (IH (enter_grace e hub j)) as (Hp & Hcl & Hco). split; [|split].
  - rewrite Hp. unfold enter_grace. by destruct (clients hub !! j).
  - intros id. rewrite Hcl, enter_grace_lookup.
    rewrite (bool_decide_ext (id ∈ j :: ids) (id = j \/ id ∈ ids)) by apply elem_of_cons.
    rewrite bool_decide_or. destruct (bool_decide_reflect (id = j)), (bool_decide (id ∈ ids)); cbn;
      try done. by destruct (clients hub !! id).
  - intros c k. rewrite Hco. unfold enter_grace. cbn. rewrite drop_connections_lookup.
    destruct (clients hub !! j); cbn; set_solver.
Qed.

Lemma remove_all ids hub :
  let hub' := foldl (fun hub id => remove_client id hub) hub ids in
  (forall id, clients hub' !! id = if bool_decide (id ∈ ids) then None else clients hub !! id) /\
  (forall c k, connections hub' !! c = Some k <-> connections hub !! c = Some k /\ k ∉ ids).
Proof.
  revert hub. induction ids as [|j ids IH]; intros hub; cbn [foldl]; cbv zeta.
  { split; [done|set_solver]. }
  destruct (IH (remove_client j hub)) as (Hcl & Hco). split.
  - intros id. rewrite Hcl. cbn. rewrite lookup_delete.
    rewrite (bool_decide_ext (id ∈ j :: ids) (id = j \/ id ∈ ids)) by apply elem_of_cons.
    rewrite bool_decide_or. destruct (bool_decide (id ∈ ids)); [by rewrite orb_true_r|].
    split_test; case_decide; by subst.
  - intros c k. rewrite Hco. cbn. rewrite drop_connections_lookup. set_solver.
Qed.

(** The two passes of a sweep, client by client. *)
Definition graced (now e : Z) (r : ClientRecord) : ClientRecord :=
  if bool_decide (is_silent now r) then with_grace e r else r.

Definition kept (now : Z) (r : ClientRecord) : option ClientRecord :=
  if bool_decide (grace_over now r) then None else Some r.

Lemma sweep_grace now e hub id :
  clients (foldl (enter_grace e) hub (select (is_silent now) hub)) !! id
  = graced now e <$> clients hub !! id.
Proof.
  destruct (enter_grace_all e (select (is_silent now) hub) hub) as (_ & -> & _).
  destruct (clients hub !! id) as [r|] eqn:Hr; cbn; [|by split_test]. unfold graced.
  rewrite (bool_decide_ext _ (is_silent now r)); [by split_test|].
  rewrite elem_of_select. naive_solver.
Qed.

Lemma sweep_remove now hub id :
  clients (foldl (fun hub id => remove_client id hub) hub (select (grace_over now) hub)) !! id
  = clients hub !! id ≫= kept now.
Proof.
  destruct (remove_all (select (grace_over now) hub) hub) as [-> _].
  destruct (clients hub !! id) as [r|] eqn:Hr; cbn; [|by split_test]. unfold kept.
  rewrite (bool_decide_ext _ (grace_over now r)); [done|].
  rewrite elem_of_select. naive_solver.
Qed.

(** A sweep, whatever the iteration order of the client map, decides each
    client by itself: a silent client enters reconnect grace, a client whose
    grace has ended (or that is given none) is removed, every other client is
    untouched; the batch reports exactly the two groups, each client once, and
    exactly the clients that were not silent keep their connection. *)
Theorem expire_inactive_exact policy ops now :
  let hub := run policy ops in
  let e := u64_add now (reconnect_grace_ms (liveness_policy hub)) in
  let '(batch, hub') := expire_inactive_clients now hub in
  (forall id, clients hub' !! id = clients hub !! id ≫= kept now ∘ graced now e) /\
  (forall id, id ∈ expired batch <-> is_Some (clients hub !! id) /\ clients hub' !! id = None) /\
  (forall id x, (id, x) ∈ entered_reconnect_grace batch <->
     x = e /\ exists r, clients hub !! id = Some r /\ is_silent now r) /\
  NoDup (expired batch) /\ NoDup (entered_reconnect_grace batch) /\
  (forall c id, connections hub' !! c = Some id <->
     connections hub !! c = Some id /\ exists r, clients hub !! id = Some r /\ ~ is_silent now r).
Proof.
  cbv zeta. pose proof (run_inv policy ops) as Hinv. set (hub := run policy ops) in *.
  unfold expire_inactive_clients. cbv zeta. set (e := u64_add now _).
  pose proof (sweep_grace now e hub) as Hcl1.
  destruct (enter_grace_all e (select (is_silent now) hub) hub) as (_ & _ & Hco1).
  set (hub1 := foldl (enter_grace e) hub _) in *.
  pose proof (sweep_remove now hub1) as Hcl2.
  destruct (remove_all (select (grace_over now) hub1) hub1) as (_ & Hco2).
  set (hub2 := foldl _ hub1 _) in *. cbn [expired entered_reconnect_grace].
  assert (forall id, clients hub2 !! id = clients hub !! id ≫= kept now ∘ graced now e) as Hcl.
  { intros id. rewrite Hcl2, Hcl1. by destruct (clients hub !! id). }
  split; [exact Hcl|]. split; [|split; [|split; [|split]]].
  - intros id. rewrite elem_of_select, Hcl, Hcl1. destruct (clients hub !! id) as [r|]; cbn; [|naive_solver].
    unfold kept. split_test; naive_solver.
  - intros id x. rewrite list_elem_of_fmap. setoid_rewrite elem_of_select. naive_solver.
  - apply NoDup_select.
  - apply NoDup_fmap; [|apply NoDup_select]. by intros ?? [= ->].
  - intros c id. rewrite Hco2, Hco1, !elem_of_select, Hcl1. split.
    + intros [[Hc Hs] Hg]. split; [done|]. destruct (hi_conn _ Hinv _ _ Hc) as (r & Hr & _). naive_solver.
    + intros [Hc (r & Hr & Hs)]. split; [naive_solver|]. rewrite Hr. cbn.
      intros (r' & [= <-] & Hg). unfold graced in Hg. rewrite bool_decide_eq_false_2 in Hg by done.
      destruct (hi_conn _ Hinv _ _ Hc) as (r2 & Hr2 & _ & Hn). simplify_eq.
      unfold grace_over in Hg. by rewrite Hn in Hg.
Qed.

(** ** Reconnect grace and heartbeats over time *)

Definition sweep (hub : ClientHub) (now : Z) : ClientHub := (expire_inactive_clients now hub).2.

Lemma sweep_lookup hub now id :
  clients (sweep hub now) !! id
  = clients hub !! id ≫= kept now ∘ graced now (u64_add now (reconnect_grace_ms (liveness_policy hub))).
Proof.
  unfold sweep, expire_inactive_clients. cbn. rewrite sweep_remove, sweep_grace.
  by destruct (clients hub !! id).
Qed.

Lemma sweeps_keep_grace hub id r e times :
  clients hub !! id = Some r -> reconnect_expires_at r = Some e ->
  Forall (fun now => now < e) times ->
  clients (foldl sweep hub times) !! id = Some r.
Proof.
  intros Hr He Ht. revert hub Hr. induction Ht as [|now times Hlt Ht IH]; intros hub Hr; [done|].
  cbn [foldl]. apply IH. rewrite sweep_lookup, Hr. cbn. unfold kept, graced.
  rewrite (bool_decide_eq_false_2 (is_silent now r)) by (unfold is_silent; rewrite He; naive_solver).
  rewrite bool_decide_eq_false_2; [done|]. unfold grace_over. rewrite He. lia.
Qed.

(** A client whose transport closes at [t0] keeps its identity for the whole
    reconnect grace: after any sweeps before [t0 + grace] a new connection of
    the same client reattaches, is connected again, and gets the replies. *)
Theorem reconnect_within_grace policy ops conn id t0 times conn' params now :
  let hub := run policy ops in
  connections hub !! conn = Some id -> init_client_instance_id params = id ->
  t0 + reconnect_grace_ms (liveness_policy hub) < u64_modulus -> 0 <= t0 ->
  0 <= reconnect_grace_ms (liveness_policy hub) ->
  Forall (fun t => t < t0 + reconnect_grace_ms (liveness_policy hub)) times ->
  let hub := foldl sweep (observe_transport_closed conn t0 hub).2 times in
  let '(outcome, hub') := initialize conn' params now hub in
  (exists ctx, outcome = ReattachedClient ctx /\ context_for_connection conn' hub' = Some ctx /\
     client_instance_id ctx = id) /\
  (exists d, delivery_for hub' id = Some d /\ d_connection d = conn').
Proof.
  cbv zeta. pose proof (run_inv policy ops) as Hinv. set (hub := run policy ops) in *.
  intros Hc Hid Hfit Ht0 Hg Htimes. destruct (hi_conn _ Hinv _ _ Hc) as (r & Hr & _ & _).
  assert (clients (foldl sweep (observe_transport_closed conn t0 hub).2 times) !! id
    = Some (with_grace (t0 + reconnect_grace_ms (liveness_policy hub)) r)) as Hkeep.
  { unfold observe_transport_closed. rewrite Hc. cbn. rewrite Hr. cbn.
    rewrite u64_add_small by (unfold is_u64; lia).
    eapply sweeps_keep_grace; [apply lookup_insert_eq|done|done]. }
  unfold initialize. cbn. rewrite Hid, Hkeep, bool_decide_eq_true_2 by eauto.
  unfold context_for_connection, delivery_for. cbn. rewrite !lookup_insert_eq. cbn.
  rewrite lookup_insert_eq. split; eexists; repeat split.
Qed.

(** A silent client does not stay forever: the first sweep at or after its
    liveness deadline puts it in grace and the next sweep at or after the end of
    the grace removes the client and all its connections. *)
Theorem silent_client_is_removed policy ops id r t1 t2 :
  let hub := run policy ops in
  clients hub !! id = Some r -> reconnect_expires_at r = None -> liveness_expires_at r <= t1 ->
  0 <= t1 -> 0 <= reconnect_grace_ms (liveness_policy hub) ->
  t1 + reconnect_grace_ms (liveness_policy hub) < u64_modulus ->
  t1 + reconnect_grace_ms (liveness_policy hub) <= t2 ->
  let hub' := sweep (sweep hub t1) t2 in
  clients hub' !! id = None /\ forall c, connections hub' !! c <> Some id.
Proof.
  cbv zeta. pose proof (run_inv policy ops) as Hinv. set (hub := run policy ops) in *.
  intros Hr Hn Hl Ht Hg Hfit Ht2.
  assert (clients (sweep (sweep hub t1) t2) !! id = None) as Hgone.
  { rewrite !sweep_lookup, Hr. cbn. unfold graced at 2. rewrite bool_decide_eq_true_2 by done.
    rewrite (u64_add_small t1) by (unfold is_u64; lia). unfold kept at 2. split_test; [done|]. cbn.
    unfold kept. by rewrite bool_decide_eq_true_2. }
  split; [exact Hgone|]. intros c Hc.
  assert (hub_inv (sweep (sweep hub t1) t2)) as Hinv'.
  { apply (hub_inv_step _ (OpExpireInactive t2)), (hub_inv_step _ (OpExpireInactive t1)), Hinv. }
  destruct (hi_conn _ Hinv' _ _ Hc) as (r' & Hr' & _). congruence.
Qed.

(** ** Live transports

    Executions in which no client initializes on a connection that another
    client holds. *)

Definition no_takeover_op (hub : ClientHub) (op : HubOp) : Prop :=
  match op with
  | OpInitialize conn params _ =>
      match connections hub !! conn with
      | Some id => id = init_client_instance_id params
      | None => True
      end
  | _ => True
  end.

Fixpoint no_takeover (hub : ClientHub) (ops : list HubOp) : Prop :=
  match ops with
  | [] => True
  | op :: ops => no_takeover_op hub op /\ no_takeover (apply_op hub op) ops
  end.

(** A client outside its grace holds the connection its context names. *)
Definition attached (hub : ClientHub) : Prop :=
  forall id r, clients hub !! id = Some r -> reconnect_expires_at r = None ->
    connections hub !! connection_id (context r) = Some id.

Lemma attached_remove_client id hub : attached hub -> attached (remove_client id hub).
Proof.
  intros Ha j w. cbn. intros [Hne Hj]%lookup_delete_Some Hn.
  apply drop_connections_lookup. split; [by apply Ha|done].
Qed.

Lemma attached_enter_grace e hub id : attached hub -> attached (enter_grace e hub id).
Proof.
  intros Ha j w. rewrite enter_grace_lookup. split_test.
  - destruct (clients hub !! j); [|done]. by intros [= <-].
  - intros Hj Hn. unfold enter_grace. cbn. apply drop_connections_lookup. split; [|done].
    destruct (clients hub !! id); cbn; by apply Ha.
Qed.

Lemma attached_foldl {A} (f : ClientHub -> A -> ClientHub) l hub :
  (forall hub x, attached hub -> attached (f hub x)) -> attached hub -> attached (foldl f hub l).
Proof. intros Hf. revert hub. induction l; cbn; auto. Qed.

Lemma attached_set_client hub id r r' :
  attached hub -> clients hub !! id = Some r ->
  connection_id (context r') = connection_id (context r) ->
  reconnect_expires_at r' = reconnect_expires_at r -> attached (set_client id r' hub).
Proof.
  intros Ha Hr Hc Hn j w. cbn. rewrite lookup_insert. case_decide; [|apply Ha].
  intros [= <-]. subst. rewrite Hc, Hn. by apply Ha.
Qed.

Lemma attached_initialize conn params now hub :
  hub_inv hub -> attached hub -> no_takeover_op hub (OpInitialize conn params now) ->
  attached (initialize conn params now hub).2.
Proof.
  intros Hi Ha Hno j w. cbn in *. rewrite lookup_insert. case_decide as Hd.
  - intros [= <-] _. subst. cbn. by rewrite lookup_insert_eq.
  - intros Hj Hn. specialize (Ha _ _ Hj Hn).
    rewrite lookup_insert_ne; [by apply drop_connections_lookup|].
    intros Heq. rewrite Heq, Ha in Hno. congruence.
Qed.

Lemma attached_transport_closed conn now hub :
  hub_inv hub -> attached hub -> attached (observe_transport_closed conn now hub).2.
Proof.
  intros Hi Ha. unfold observe_transport_closed.
  destruct (connections hub !! conn) as [id|] eqn:E; [|done].
  destruct (hi_conn _ Hi _ _ E) as (r & Hr & Hrc & _). cbn. rewrite Hr. intros j w. cbn.
  rewrite lookup_insert. case_decide; [by intros [= <-]|]. intros Hj Hn.
  specialize (Ha _ _ Hj Hn). rewrite lookup_delete_ne; [done|]. intros Heq. rewrite <- Heq in Ha. congruence.
Qed.

Lemma attached_step hub op :
  hub_inv hub -> attached hub -> no_takeover_op hub op -> attached (apply_op hub op).
Proof.
  intros Hi Ha Hno. destruct op; cbn [apply_op].
  - by apply attached_initialize.
  - unfold update_capabilities. destruct (clients hub !! id) as [r|] eqn:E; [|done].
    by apply (attached_set_client _ _ r).
  - by apply attached_transport_closed.
  - unfold observe_connection_activity. destruct (connections hub !! conn) as [id|]; [|done].
    destruct (clients hub !! id) as [r|] eqn:E; [|done]. by apply (attached_set_client _ _ r).
  - unfold expire_after_grace. destruct (clients hub !! id) as [r|]; [|done].
    destruct (reconnect_expires_at r); [|done]. split_test; [done|]. by apply attached_remove_client.
  - unfold expire_inactive_clients. apply attached_foldl; [intros; by apply attached_remove_client|].
    apply attached_foldl; [intros; by apply attached_enter_grace|done].
  - unfold detach. destruct (clients hub !! id); [by apply attached_remove_client|done].
Qed.

Lemma run_attached policy ops : no_takeover (new policy) ops -> attached (run policy ops).
Proof.
  assert (attached (new policy)) as Ha by (intros ??; cbn; by rewrite lookup_empty).
  revert Ha. unfold run. generalize (hub_inv_new policy). generalize (new policy).
  induction ops as [|op ops IH]; intros hub Hi Ha; [done|]. cbn [no_takeover foldl].
  intros [Hop Hops]. apply IH; [by apply hub_inv_step|by apply attached_step|done].
Qed.

(** A request that needs a capability of the shell is offered to exactly the
    clients that declared the capability and hold a live transport, each on its
    own current connection; a client waiting in reconnect grace is never
    offered one. *)
Theorem shell_deliveries_are_live policy ops capability d :
  no_takeover (new policy) ops ->
  let hub := run policy ops in
  d ∈ deliveries_with_shell_capability capability hub <->
  exists r, clients hub !! d_client d = Some r /\ delivery_for hub (d_client d) = Some d /\
    capability ∈ cap_shell (capabilities (context r)) /\
    connections hub !! d_connection d = Some (d_client d).
Proof.
  intros Hno. pose proof (run_inv policy ops) as Hi. pose proof (run_attached policy ops Hno) as Ha.
  cbv zeta. set (hub := run policy ops) in *. unfold deliveries_with_shell_capability.
  rewrite list_elem_of_omap. split.
  - intros ([id r] & [(Hcap & Hn & _) Hin%elem_of_map_to_list]%list_elem_of_filter & Hd). cbn in *.
    rewrite (hi_key _ Hi _ _ Hin) in Hd. unfold delivery_for in *. rewrite Hin in Hd.
    injection Hd as <-. cbn. rewrite Hin. exists r. repeat split; [done|]. by apply Ha.
  - intros (r & Hr & Hd & Hcap & Hc). exists (d_client d, r). cbn.
    rewrite (hi_key _ Hi _ _ Hr). split; [|done]. apply list_elem_of_filter.
    split; [|by apply elem_of_map_to_list]. cbn.
    destruct (hi_conn _ Hi _ _ Hc) as (r' & Hr' & Hcon & Hn). simplify_eq.
    split; [done|]. split; [done|]. rewrite Hcon, Hc. eauto.
Qed.

(** ** The process lifecycle *)

Module App.
Section AppLifecycle.
Context `{PayloadTypes}.

Inductive LifecycleState := Running | Draining | Stopping.
#[global] Instance LifecycleState_eq_dec : EqDecision LifecycleState.
Proof. solve_decision. Defined.

Inductive InitializeAdmission :=
| Accepted
| AcceptedAndAbortedDraining
| Rejected (error : ProtocolError).

Inductive ShutdownCause :=
| LastClientExpired | LastClientDetached | ReplacementRequested | RequestersGone.

Definition reason_code (c : ShutdownCause) : string :=
  match c with
  | LastClientExpired => "last_client_expired"
  | LastClientDetached => "last_client_detached"
  | ReplacementRequested => "replacement_requested"
  | RequestersGone => "requesters_gone"
  end.

Record ShutdownPlan := mkPlan {
  stop_accepting_new_work : bool;
  interrupt_pending_requests : bool;
  detach_agent_transports : bool;
  remove_endpoint_records : bool;
}.

Inductive ShutdownRequestOutcome :=
| AlreadyStopping
| ShutdownPlanned (plan : ShutdownPlan).

Inductive ShutdownCompletion := CleanRelease | UncleanLeaseExpiryRequired.

Definition initial : LifecycleState := Running.

Definition admit_initialize (s : LifecycleState) : InitializeAdmission * LifecycleState :=
  match s with
  | Running => (Accepted, s)
  | Draining => (AcceptedAndAbortedDraining, Running)
  | Stopping =>
      (Rejected (mkProtocolError ServerStopping "App Server is stopping" true None), s)
  end.

Definition begin_draining (s : LifecycleState) : LifecycleState :=
  if bool_decide (s = Running) then Draining else s.

Definition begin_stopping (s : LifecycleState) : LifecycleState := Stopping.

Definition request_shutdown (s : LifecycleState) : ShutdownRequestOutcome * LifecycleState :=
  if bool_decide (s = Stopping) then (AlreadyStopping, s)
  else (ShutdownPlanned (mkPlan true true true true), Stopping).

Definition complete_shutdown (coherent_persistence : bool) : ShutdownCompletion :=
  if coherent_persistence then CleanRelease else UncleanLeaseExpiryRequired.

Inductive LifecycleOp := OpAdmit | OpDrain | OpStop | OpShutdown.

Inductive LifecycleOutput :=
| Admission (a : InitializeAdmission)
| Shutdown (o : ShutdownRequestOutcome).

Definition step (s : LifecycleState) (op : LifecycleOp) : list LifecycleOutput * LifecycleState :=
  match op with
  | OpAdmit => let '(a, s) := admit_initialize s in ([Admission a], s)
  | OpDrain => ([], begin_draining s)
  | OpStop => ([], begin_stopping s)
  | OpShutdown => let '(o, s) := request_shutdown s in ([Shutdown o], s)
  end.

Fixpoint execute (s : LifecycleState) (ops : list LifecycleOp) : list LifecycleOutput * LifecycleState :=
  match ops with
  | [] => ([], s)
  | op :: ops =>
      let '(out, s) := step s op in
      let '(outs, s) := execute s ops in (out ++ outs, s)
  end.

Definition is_plan (o : LifecycleOutput) : bool :=
  match o with Shutdown (ShutdownPlanned _) => true | _ => false end.

Definition is_admitted (o : LifecycleOutput) : bool :=
  match o with Admission Accepted | Admission AcceptedAndAbortedDraining => true | _ => false end.

Lemma stopping_execute ops :
  (execute Stopping ops).2 = Stopping /\
  Forall (fun o => is_plan o = false /\ is_admitted o = false) (execute Stopping ops).1.
Proof.
  induction ops as [|op ops [IH1 IH2]]; [split; [done|constructor]|].
  assert (exists out, step Stopping op = (out, Stopping) /\
    Forall (fun o => is_plan o = false /\ is_admitted o = false) out) as (out & Hstep & Hout).
  { destruct op; eexists; (split; [reflexivity|]); by repeat constructor. }
  cbn. rewrite Hstep. destruct (execute Stopping ops) as [outs s]. cbn in *.
  split; [done|]. by apply Forall_app.
Qed.

(** Shutdown is planned at most once in the life of the process, and after
    the plan no client is admitted: every later initialize is rejected with
    [ServerStopping] and the state stays [Stopping]. *)
Theorem shutdown_once_and_final s ops before plan after :
  (execute s ops).1 = before ++ Shutdown (ShutdownPlanned plan) :: after ->
  (execute s ops).2 = Stopping /\
  Forall (fun o => is_plan o = false) before /\
  Forall (fun o => is_plan o = false /\ is_admitted o = false) after.
Proof.
  revert s before. induction ops as [|op ops IH]; intros s before; cbn; [by destruct before|].
  destruct (stopping_execute ops) as [Hs1 Hs2].
  destruct op; cbn.
  - destruct (admit_initialize s) as [a s'] eqn:Ha. specialize (IH s').
    destruct (execute s' ops) as [outs s'']. cbn in *. intros Heq.
    destruct before as [|o before]; [done|]. injection Heq as <- Heq.
    destruct (IH _ Heq) as (? & ? & ?). split; [done|]. split; [by constructor|done].
  - specialize (IH (begin_draining s)). destruct (execute (begin_draining s) ops). apply IH.
  - specialize (IH (begin_stopping s)). destruct (execute (begin_stopping s) ops). apply IH.
  - unfold request_shutdown. split_test.
    + subst. specialize (IH Stopping). destruct (execute Stopping ops) as [outs s'']. cbn in *.
      intros Heq. destruct before as [|o before]; [done|]. injection Heq as <- Heq.
      destruct (IH _ Heq) as (? & ? & ?). split; [done|]. split; [by constructor|done].
    + destruct (execute Stopping ops) as [outs s'']. cbn in *. intros Heq. subst s''.
      split; [done|]. destruct before as [|o before]; injection Heq.
      * intros <- _. split; [constructor|done].
      * intros -> _. exfalso. apply Forall_app in Hs2 as [_ Hs2]. apply Forall_cons in Hs2. naive_solver.
Qed.
End AppLifecycle.
End App.

(** ** Examples *)

Module Witness.
Definition caps : ClientCapabilities := mkCapabilities [PermissionResponses] [OpenExternal].
Definition params (id : string) : InitializeParams :=
  mkInitialize id (mkShell Web None None) SurfaceHome caps [] None Interactive.
Definition policy : ClientLivenessPolicy := mkPolicy 100 30.

Definition ops : list HubOp :=
  [OpInitialize "c1" (params "a") 0; OpInitialize "c2" (params "b") 10; OpActivity "c2" 20;
   OpExpireInactive 35]%string.

Lemma reconnect_within_grace_witness :
  let hub := foldl sweep (observe_transport_closed "c2" 40 (run policy ops)).2 [60; 139] in
  exists ctx, (initialize "c3" (params "b") 139 hub).1 = ReattachedClient ctx.
Proof.
  pose proof (reconnect_within_grace policy ops "c2" "b" 40 [60; 139] "c3" (params "b") 139) as H.
  cbv zeta in H |- *. destruct (initialize _ _ _ _) as [outcome hub'].
  destruct H as [(ctx & -> & _) _]; [vm_compute; reflexivity|reflexivity|vm_compute; reflexivity|
    vm_compute; discriminate|vm_compute; discriminate|repeat constructor|].
  exists ctx. reflexivity.
Defined.

Lemma silent_client_is_removed_witness :
  clients (sweep (sweep (run policy ops) 50) 150) !! "b"%string = None.
Proof.
  eapply (silent_client_is_removed policy ops "b" _ 50 150);
    [vm_compute; reflexivity|reflexivity|vm_compute; discriminate..|vm_compute; reflexivity|
     vm_compute; discriminate].
Defined.

Lemma shell_deliveries_are_live_witness :
  mkDelivery "b" "c2" [CapPermission] ∈ deliveries_with_shell_capability OpenExternal (run policy ops).
Proof.
  apply (shell_deliveries_are_live policy ops OpenExternal (mkDelivery "b" "c2" [CapPermission]));
    [vm_compute; tauto|].
  eexists. split; [vm_compute; reflexivity|]. split; [vm_compute; reflexivity|].
  split; [apply (bool_decide_unpack _); vm_compute; exact I|vm_compute; reflexivity].
Defined.

Lemma shutdown_once_and_final_witness :
  (App.execute (H := string_payloads) App.Running
     [App.OpDrain; App.OpShutdown; App.OpAdmit; App.OpShutdown]).2 = App.Stopping.
Proof.
  eapply (App.shutdown_once_and_final (H := string_payloads) App.Running
    [App.OpDrain; App.OpShutdown; App.OpAdmit; App.OpShutdown] []).
  vm_compute. reflexivity.
Defined.

(** Without [no_takeover]: client [b] initializes on the connection of [a], and
    [a], which holds no transport any more, is still offered requests there. *)
Definition takeover : list HubOp :=
  [OpInitialize "c1" (params "a") 0; OpInitialize "c1" (params "b") 1]%string.

Example takeover_offers_to_detached_client :
  mkDelivery "a" "c1" [CapPermission]
    ∈ deliveries_with_shell_capability OpenExternal (run policy takeover) /\
  connections (run policy takeover) !! "c1"%string = Some "b"%string.
Proof. split; [apply (bool_decide_unpack _); vm_compute; exact I|vm_compute; reflexivity]. Qed.
End Witness.
