(* ===== verification/StateSync.v ===== *)
(** * State synchronization

    Models [openaide-rs/app-server/src/state_sync.rs] (subscriptions, event
    publication, Task resume and the presence of Task viewers) and
    [storage_runtime/cursor.rs] (the cursors of the streams).

    The trait [SnapshotProvider] of [snapshots.rs] is the class of the same
    name: what follows holds for every provider.  The retained Task changes are
    used through the lemmas of [TaskChangeLog]; the clients a delivery goes to
    are a function argument of [publish_committed], as in the source.  Mutexes
    are not modelled: every operation runs under the gateway lock.  Logging is
    left out. *)

From stdpp Require Import pretty.
From S2P Require Import Prelude Protocol TaskChangeLog ClientLifecycle.

Local Open Scope Z_scope.

(** ** Cursors ([CursorSequencer])

    A sequencer is its [sequence]. *)

Definition cursor_string (sequence : Z) : string := ("cursor-" +:+ pretty (Z.to_N sequence))%string.

Definition cursor_read_token (sequence : Z) : string := cursor_string sequence.

(** The previous and the new cursor, and the advanced sequencer. *)
Definition advance (sequence : Z) : string * string * Z :=
  let next := u64_add sequence 1 in
  (cursor_string sequence, cursor_string next, next).

(** ** Presence of Task viewers *)

Abbreviation TaskSubscriptionPresence := (gmap string (gset string)).

Definition observe_subscribed (client task_id : string) (p : TaskSubscriptionPresence)
  : TaskSubscriptionPresence :=
  <[task_id := {[client]} ∪ default ∅ (p !! task_id)]> p.

Definition observe_unsubscribed (client task_id : string) (p : TaskSubscriptionPresence)
  : TaskSubscriptionPresence :=
  match p !! task_id with
  | None => p
  | Some s =>
      let s := s ∖ {[client]} in
      if bool_decide (s = ∅) then delete task_id p else <[task_id := s]> p
  end.

Definition observe_client_expired (client : string) (p : TaskSubscriptionPresence)
  : TaskSubscriptionPresence :=
  omap (fun s : gset string =>
    let s := s ∖ {[client]} in if bool_decide (s = ∅) then None else Some s) p.

Definition has_subscribers (task_id : string) (p : TaskSubscriptionPresence) : bool :=
  existsb (fun kv : string * gset string =>
    bool_decide (kv.1 = task_id) && negb (bool_decide (kv.2 = ∅))) (map_to_list p).

(** ** Matching events and subscriptions *)

Record SubscriptionRecord := mkSubscription {
  sub_client : string;
  sub_scope : SubscriptionScope;
}.
#[global] Instance SubscriptionRecord_eq_dec : EqDecision SubscriptionRecord.
Proof. solve_decision. Defined.

Section StateSync.
Context `{PayloadTypes}.

Record TaskResumeBasis := mkBasis {
  tb_revision : Z;
  tb_history_sync : TaskHistorySyncSnapshot;
  tb_subagents : SubagentOverviewSnapshot;
  tb_workspace_available : bool;
}.

(** The trait [SnapshotProvider]; the token is its cursor. *)
Class SnapshotProvider := {
  provider_snapshot : ClientContext -> SubscriptionScope -> string ->
    result SubscriptionSnapshot ProtocolError;
  task_resume_basis : ClientContext -> string -> result (option TaskResumeBasis) ProtocolError;
}.

Record StateEventDelivery := mkEventDelivery {
  sed_delivery : Delivery;
  sed_event : AppServerEvent;
}.

Record StateStream := mkStream {
  state_root_id : string;
  cursors : Z;
  scope_cursors : gmap SubscriptionScope Z;
  subscriptions : list SubscriptionRecord;
  task_subscription_presence : TaskSubscriptionPresence;
  task_changes : TaskChangeLog;
}.

Definition with_task_subscription_presence (root : string) (p : TaskSubscriptionPresence)
  : StateStream := mkStream root 0 ∅ [] p default_log.

Definition new (root : string) : StateStream := with_task_subscription_presence root ∅.

Definition event_scope_state_root_matches (scope : EventScope) (root : string) : bool :=
  match scope with
  | EventStateRoot r | EventClient r _ | EventTask r _ => bool_decide (r = root)
  end.

Definition task_lifecycle_matches_navigation_section
    (lifecycle : TaskLifecycle) (section : TaskNavigationSection) : bool :=
  match lifecycle, section with
  | LifecycleOpen, SectionTasks | LifecycleArchived, SectionArchive => true
  | _, _ => false
  end.

(** [project_ids.is_none_or(|ids| ids.contains(project_id))]. *)
Definition project_selected (project_ids : option (list string)) (project_id : string) : bool :=
  match project_ids with None => true | Some ids => bool_decide (project_id ∈ ids) end.

Definition is_snapshot_replaced (p : AppServerEventPayload) : bool :=
  match p with SnapshotReplaced _ => true | _ => false end.

Definition payload_matches_subscription (payload : AppServerEventPayload)
    (scope : SubscriptionScope) : bool :=
  match scope with
  | SubProjects =>
      match payload with SnapshotReplaced _ | ProjectCollectionUpdated _ => true | _ => false end
  | SubAgents =>
      match payload with SnapshotReplaced _ | AgentCollectionUpdated _ => true | _ => false end
  | SubSettings _ => is_snapshot_replaced payload
  | SubDevices =>
      match payload with SnapshotReplaced _ | DeviceCollectionUpdated _ => true | _ => false end
  | SubTerminals =>
      match payload with TerminalCollectionUpdated _ | SnapshotReplaced _ => true | _ => false end
  | SubTaskNavigation section project_ids =>
      match payload with
      | SnapshotReplaced _ => true
      | NavigationReplaced navigation => bool_decide (nav_section navigation = section)
      | RefreshStateChanged _ => bool_decide (section = SectionTasks)
      | ProjectEntriesReplaced changed project_id _ _ _ _ =>
          bool_decide (changed = section) && project_selected project_ids project_id
      | TaskUpdated project_id task =>
          project_selected project_ids project_id &&
          task_lifecycle_matches_navigation_section (ts_lifecycle task) section
      | _ => false
      end
  | SubTask _ =>
      match payload with
      | SnapshotReplaced _ | TaskChanged _ _ _ | TaskHistorySyncUpdated _ _
      | TaskRequestsUpdated _ _ | RequestUpdated _ => true
      | _ => false
      end
  | SubSubagentCatalog task_id =>
      match payload with
      | SubagentCatalogUpdated catalog => bool_decide (catalog_task_id catalog = task_id)
      | _ => false
      end
  | SubSubagentHistory task_id subagent_id =>
      match payload with
      | SubagentHistoryChanged t s _ _ _ => bool_decide (t = task_id) && bool_decide (s = subagent_id)
      | _ => false
      end
  | SubToolDetail task_id artifact_id =>
      match payload with
      | ToolDetailUpdated t a _ | ToolDetailChanged t a _ _ =>
          bool_decide (t = task_id) && bool_decide (a = artifact_id)
      | _ => false
      end
  | SubWorktreeRepository repository_id =>
      match payload with
      | SnapshotReplaced _ => true
      | WorktreeRepositoryUpdated r _ => bool_decide (r = repository_id)
      | _ => false
      end
  end.

Definition is_task_view (scope : SubscriptionScope) : bool :=
  match scope with SubTask _ | SubSubagentCatalog _ | SubSubagentHistory _ _ => true | _ => false end.

Definition event_matches_subscription (scope : EventScope) (payload : AppServerEventPayload)
    (s : SubscriptionRecord) (root : string) : bool :=
  match payload with
  | ProjectCollectionUpdated _ =>
      event_scope_state_root_matches scope root && payload_matches_subscription payload (sub_scope s)
  | _ =>
      let scope_matches :=
        match scope with
        | EventStateRoot r => bool_decide (r = root) && negb (is_task_view (sub_scope s))
        | EventClient r client =>
            bool_decide (r = root) && bool_decide (client = sub_client s) &&
            negb (is_task_view (sub_scope s))
        | EventTask r task_id =>
            bool_decide (r = root) &&
            match sub_scope s with
            | SubTask t | SubToolDetail t _ | SubSubagentCatalog t | SubSubagentHistory t _ =>
                bool_decide (t = task_id)
            | _ => false
            end
        end in
      scope_matches && payload_matches_subscription payload (sub_scope s)
  end.

(** ** Operations *)

Definition set_scope_cursors (m : gmap SubscriptionScope Z) (st : StateStream) : StateStream :=
  mkStream (state_root_id st) (cursors st) m (subscriptions st)
    (task_subscription_presence st) (task_changes st).

Definition set_subscriptions (subs : list SubscriptionRecord) (p : TaskSubscriptionPresence)
    (st : StateStream) : StateStream :=
  mkStream (state_root_id st) (cursors st) (scope_cursors st) subs p (task_changes st).

Definition read_token_for_scope (scope : SubscriptionScope) (st : StateStream)
  : string * StateStream :=
  let sequence := default 0 (scope_cursors st !! scope) in
  (cursor_read_token sequence, set_scope_cursors (<[scope := sequence]> (scope_cursors st)) st).

Definition upsert_subscription (client : string) (scope : SubscriptionScope) (st : StateStream)
  : bool * StateStream :=
  if bool_decide (mkSubscription client scope ∈ subscriptions st) then (false, st)
  else (true, set_subscriptions (subscriptions st ++ [mkSubscription client scope])
                (task_subscription_presence st) st).

Definition task_snapshot `{SnapshotProvider} (ctx : ClientContext) (task_id : string)
    (known_revision : option Z) (token : string) (st : StateStream)
  : result SubscriptionSnapshot ProtocolError :=
  let scope := SubTask task_id in
  match known_revision with
  | None => provider_snapshot ctx scope token
  | Some known =>
      let? basis := task_resume_basis ctx task_id in
      match basis with
      | None => provider_snapshot ctx scope token
      | Some basis =>
          let missed :=
            if bool_decide (tb_revision basis < known) then None
            else if bool_decide (known = tb_revision basis) then Some []
            else match changes_since task_id known (task_changes st) with
                 | Changes changes _ => Some changes
                 | Unknown | Evicted => None
                 end in
          match missed with
          | None => provider_snapshot ctx scope token
          | Some changes =>
              Ok (SnapTaskResume (mkResume task_id known changes (tb_history_sync basis) []
                    (tb_subagents basis) (tb_workspace_available basis)))
          end
      end
  end.

Definition subscribe_with_membership `{SnapshotProvider} (ctx : ClientContext)
    (scope : SubscriptionScope) (known_revision : option Z) (st : StateStream)
  : result (StateSubscribeResult * bool) ProtocolError * StateStream :=
  let '(token, st) := read_token_for_scope scope st in
  let snapshot := match scope with
                  | SubTask task_id => task_snapshot ctx task_id known_revision token st
                  | _ => provider_snapshot ctx scope token
                  end in
  match snapshot with
  | Err e => (Err e, st)
  | Ok snapshot =>
      let '(added, st) := upsert_subscription (client_instance_id ctx) scope st in
      let st := match scope with
                | SubTask task_id =>
                    if added
                    then set_subscriptions (subscriptions st)
                           (observe_subscribed (client_instance_id ctx) task_id
                              (task_subscription_presence st)) st
                    else st
                | _ => st
                end in
      (Ok (mkSubscribeResult token scope snapshot, added), st)
  end.

Definition subscribe `{SnapshotProvider} (ctx : ClientContext) (scope : SubscriptionScope)
    (st : StateStream) : result StateSubscribeResult ProtocolError * StateStream :=
  let '(r, st) := subscribe_with_membership ctx scope None st in
  (let? p := r in Ok p.1, st).

Definition unsubscribe (ctx : ClientContext) (scope : SubscriptionScope) (st : StateStream)
  : SubscriptionScope * StateStream :=
  let subs := filter (fun s => sub_client s <> client_instance_id ctx \/ sub_scope s <> scope)
                (subscriptions st) in
  let presence :=
    match scope with
    | SubTask task_id =>
        if bool_decide (length subs <> length (subscriptions st))
        then observe_unsubscribed (client_instance_id ctx) task_id (task_subscription_presence st)
        else task_subscription_presence st
    | _ => task_subscription_presence st
    end in
  (scope, set_subscriptions subs presence st).

Definition drop_client_subscriptions (client : string) (st : StateStream) : StateStream :=
  set_subscriptions (filter (fun s => sub_client s <> client) (subscriptions st))
    (observe_client_expired client (task_subscription_presence st)) st.

Definition subscribers_for_scope (scope : SubscriptionScope) (st : StateStream) : list string :=
  sub_client <$> filter (fun s => sub_scope s = scope) (subscriptions st).

Definition subscriptions_for_client (client : string) (st : StateStream) : list SubscriptionScope :=
  sub_scope <$> filter (fun s => sub_client s = client) (subscriptions st).

(** The grouping of matching subscriptions by scope. *)
Fixpoint add_to_groups (s : SubscriptionRecord) (groups : list (SubscriptionScope * list string))
  : list (SubscriptionScope * list string) :=
  match groups with
  | [] => [(sub_scope s, [sub_client s])]
  | (scope, clients) :: rest =>
      if bool_decide (scope = sub_scope s)
      then (scope, if bool_decide (sub_client s ∈ clients) then clients
                   else clients ++ [sub_client s]) :: rest
      else (scope, clients) :: add_to_groups s rest
  end.

Definition group_by_scope (subs : list SubscriptionRecord) : list (SubscriptionScope * list string) :=
  foldl (fun groups s => add_to_groups s groups) [] subs.

(** The loop over the groups: each scope advances its own cursor. *)
Fixpoint publish_groups (scope : EventScope) (payload : AppServerEventPayload)
    (deliveries : string -> option Delivery) (groups : list (SubscriptionScope * list string))
    (m : gmap SubscriptionScope Z) : list StateEventDelivery * gmap SubscriptionScope Z :=
  match groups with
  | [] => ([], m)
  | (subscription, clients) :: groups =>
      let '(previous, cursor, sequence) := advance (default 0 (m !! subscription)) in
      let published :=
        omap (fun client =>
          d ← deliveries client;
          Some (mkEventDelivery d (mkEvent subscription previous cursor scope payload))) clients in
      let '(rest, m) := publish_groups scope payload deliveries groups
                          (<[subscription := sequence]> m) in
      (published ++ rest, m)
  end.

Context (json_len : TaskChanges -> option Z).

Definition publish_committed (scope : EventScope) (payload : AppServerEventPayload)
    (deliveries : string -> option Delivery) (st : StateStream)
  : option (list StateEventDelivery * StateStream) :=
  let '(_, _, coarse) := advance (cursors st) in
  log ← match scope, payload with
        | EventTask _ task_id, TaskChanged _ revision changes =>
            record json_len task_id revision changes (task_changes st)
        | _, _ => Some (task_changes st)
        end;
  let matching := filter (fun s => event_matches_subscription scope payload s (state_root_id st) = true)
                    (subscriptions st) in
  let '(published, m) := publish_groups scope payload deliveries (group_by_scope matching)
                           (scope_cursors st) in
  Some (published, mkStream (state_root_id st) coarse m (subscriptions st)
                     (task_subscription_presence st) log).

(** ** Executions *)

Context `{SnapshotProvider}.

Inductive SyncOp :=
| OpSubscribe (ctx : ClientContext) (scope : SubscriptionScope) (known_revision : option Z)
| OpUnsubscribe (ctx : ClientContext) (scope : SubscriptionScope)
| OpPublish (scope : EventScope) (payload : AppServerEventPayload) (deliveries : string -> option Delivery)
| OpDropClient (client : string).

Definition apply_op (op : SyncOp) (st : StateStream) : option (list StateEventDelivery * StateStream) :=
  match op with
  | OpSubscribe ctx scope known => Some ([], (subscribe_with_membership ctx scope known st).2)
  | OpUnsubscribe ctx scope => Some ([], (unsubscribe ctx scope st).2)
  | OpPublish scope payload deliveries => publish_committed scope payload deliveries st
  | OpDropClient client => Some ([], drop_client_subscriptions client st)
  end.

Fixpoint run (ops : list SyncOp) (st : StateStream) : option (list StateEventDelivery * StateStream) :=
  match ops with
  | [] => Some ([], st)
  | op :: ops =>
      '(out, st) ← apply_op op st;
      '(outs, st) ← run ops st;
      Some (out ++ outs, st)
  end.

(** ** The invariant *)

Record sync_inv (st : StateStream) : Prop := {
  si_nodup : NoDup (subscriptions st);
  si_nonempty : forall t s, task_subscription_presence st !! t = Some s -> s <> ∅;
  si_presence : forall t c, c ∈ default ∅ (task_subscription_presence st !! t) <->
    mkSubscription c (SubTask t) ∈ subscriptions st;
  si_log : log_inv (task_changes st);
}.

Hypothesis json_len_nonneg : forall c n, json_len c = Some n -> 0 <= n.

Lemma sync_inv_new root : sync_inv (new root).
Proof.
  split; cbn.
  - constructor.
  - intros t s Hs. by apply lookup_empty_Some in Hs.
  - intros t c. split; [|set_solver]. by intros Hc%elem_of_empty.
  - refine (proj1 (with_bounds_ok json_len _ _ _)). vm_compute. repeat split; discriminate.
Qed.

Lemma observe_subscribed_lookup c t p t' :
  default ∅ (observe_subscribed c t p !! t')
  = if bool_decide (t' = t) then {[c]} ∪ default ∅ (p !! t') else default ∅ (p !! t').
Proof.
  unfold observe_subscribed. rewrite lookup_insert. split_test; case_decide; subst; done.
Qed.

Lemma observe_unsubscribed_lookup c t p t' :
  default ∅ (observe_unsubscribed c t p !! t')
  = if bool_decide (t' = t) then default ∅ (p !! t') ∖ {[c]} else default ∅ (p !! t').
Proof.
  unfold observe_unsubscribed. destruct (p !! t) as [s|] eqn:E.
  - repeat split_test; subst; rewrite ?lookup_delete_eq, ?lookup_insert_eq,
      ?lookup_delete_ne, ?lookup_insert_ne by done; rewrite ?E; cbn; done.
  - split_test; [subst; rewrite E; cbn; set_solver|done].
Qed.

Lemma observe_client_expired_lookup c p t :
  default ∅ (observe_client_expired c p !! t) = default ∅ (p !! t) ∖ {[c]}.
Proof.
  unfold observe_client_expired. rewrite lookup_omap. destruct (p !! t) as [s|]; cbn; [|set_solver].
  by split_test.
Qed.

Lemma sync_inv_same st st' :
  subscriptions st' = subscriptions st ->
  task_subscription_presence st' = task_subscription_presence st ->
  log_inv (task_changes st') -> sync_inv st -> sync_inv st'.
Proof. intros Hs Hp Hl [H1 H2 H3 _]. split; rewrite ?Hs, ?Hp; done. Qed.

Lemma sync_inv_subscribe ctx scope known st :
  sync_inv st -> sync_inv (subscribe_with_membership ctx scope known st).2.
Proof.
  intros Hi. unfold subscribe_with_membership. cbn.
  set (snap := match scope with SubTask _ => _ | _ => _ end). destruct snap; [|by apply (sync_inv_same st); try apply Hi].
  unfold upsert_subscription. cbn. split_test; cbn.
  { by destruct scope; apply (sync_inv_same st); try apply Hi. }
  destruct Hi as [Hnd Hne Hp Hl]. set (c := client_instance_id ctx) in *.
  assert (NoDup (subscriptions st ++ [mkSubscription c scope])) as Hnd'.
  { apply NoDup_app. split; [done|]. split; [|apply NoDup_singleton]. set_solver. }
  destruct scope; split; cbn; try done; try (intros t k; rewrite Hp; set_solver).
  - intros t s. unfold observe_subscribed. rewrite lookup_insert. case_decide; [|apply Hne].
    intros [= <-]. set_solver.
  - intros t k. rewrite observe_subscribed_lookup. split_test; subst; set_solver.
Qed.
Lemma filter_same_length {A} (P : A -> Prop) `{forall x, Decision (P x)} (l : list A) :
  length (filter P l) = length l -> filter P l = l.
Proof.
  intros Hlen. apply filter_all. intros x Hx. destruct (decide (P x)) as [Hp|Hp]; [done|].
  pose proof (length_filter_lt P l x Hx Hp). lia.
Qed.

Lemma sync_inv_unsubscribe ctx scope st :
  sync_inv st -> sync_inv (unsubscribe ctx scope st).2.
Proof.
  intros [Hnd Hne Hp Hl]. unfold unsubscribe. cbn. set (c := client_instance_id ctx).
  set (subs := filter _ _).
  assert (NoDup subs) as Hnd' by by apply NoDup_filter.
  assert (forall s, s ∈ subs <-> (sub_client s <> c \/ sub_scope s <> scope) /\ s ∈ subscriptions st) as Hin.
  { intros s. unfold subs. by rewrite list_elem_of_filter. }
  destruct scope; split; cbn; try done; try (intros t k; rewrite Hp, Hin; cbn; naive_solver).
  - intros t s. split_test; [|apply Hne]. unfold observe_unsubscribed.
    destruct (task_subscription_presence st !! task_id) as [s0|] eqn:E; [|apply Hne].
    split_test; [intros [_ Ht]%lookup_delete_Some; by eapply Hne|].
    rewrite lookup_insert. case_decide; [by intros [= <-]|apply Hne].
  - intros t k. rewrite Hin. cbn. split_test.
    + rewrite observe_unsubscribed_lookup. split_test; [subst|].
      * rewrite elem_of_difference, Hp, elem_of_singleton. naive_solver.
      * rewrite Hp. naive_solver.
    + rewrite Hp. split; [|naive_solver]. intros Hk. split; [|done].
      assert (subs = subscriptions st) as Heq by (apply (filter_same_length _ (subscriptions st)); fold subs; lia).
      rewrite <- Heq, Hin in Hk. apply Hk.
Qed.

Lemma sync_inv_drop client st : sync_inv st -> sync_inv (drop_client_subscriptions client st).
Proof.
  intros [Hnd Hne Hp Hl]. split; cbn; [by apply NoDup_filter| | |done].
  - intros t s. unfold observe_client_expired. rewrite lookup_omap.
    destruct (task_subscription_presence st !! t); cbn; [|done]. split_test; [done|]. by intros [= <-].
  - intros t c. rewrite observe_client_expired_lookup, elem_of_difference, Hp, list_elem_of_filter.
    cbn. set_solver.
Qed.

(** Publication is total on states that satisfy the invariant. *)
Lemma publish_total scope payload deliveries st :
  sync_inv st ->
  exists out st', publish_committed scope payload deliveries st = Some (out, st') /\ sync_inv st' /\
    subscriptions st' = subscriptions st /\ state_root_id st' = state_root_id st /\
    match scope, payload with
    | EventTask _ t, TaskChanged _ r c => record json_len t r c (task_changes st) = Some (task_changes st')
    | _, _ => task_changes st' = task_changes st
    end /\
    (out, scope_cursors st')
    = publish_groups scope payload deliveries
        (group_by_scope (filter (fun s => event_matches_subscription scope payload s (state_root_id st) = true)
           (subscriptions st))) (scope_cursors st).
Proof.
  intros Hi. unfold publish_committed. cbn.
  assert (exists log, match scope, payload with
    | EventTask _ t, TaskChanged _ r c => record json_len t r c (task_changes st)
    | _, _ => Some (task_changes st) end = Some log /\ log_inv log) as (log & Hlog & Hli).
  { pose proof (si_log _ Hi). destruct scope; eauto. destruct payload; eauto.
    destruct (record_inv json_len json_len_nonneg task_id revision changes (task_changes st))
      as (log & ? & ? & _); eauto. }
  rewrite Hlog. cbn. destruct (publish_groups _ _ _ _ _) as [out m] eqn:E.
  eexists _, _. split; [done|]. split; [by apply (sync_inv_same st)|].
  split; [done|]. split; [done|]. split; [|done].
  cbn. destruct scope; [congruence..|]. destruct payload; congruence.
Qed.

Lemma apply_op_total op st :
  sync_inv st -> exists out st', apply_op op st = Some (out, st') /\ sync_inv st' /\
    state_root_id st' = state_root_id st.
Proof.
  intros Hi. destruct op; cbn.
  - eexists _, _. split; [done|]. split; [by apply sync_inv_subscribe|].
    unfold subscribe_with_membership, upsert_subscription. cbn.
    destruct (match scope with SubTask _ => _ | _ => _ end); [|done].
    split_test; by destruct scope.
  - eexists _, _. split; [done|]. split; [by apply sync_inv_unsubscribe|done].
  - destruct (publish_total scope payload deliveries st Hi) as (out & st' & ? & ? & ? & ? & _). eauto 6.
  - eexists _, _. split; [done|]. split; [by apply sync_inv_drop|done].
Qed.

Lemma run_total ops st :
  sync_inv st -> exists out st', run ops st = Some (out, st') /\ sync_inv st' /\
    state_root_id st' = state_root_id st.
Proof.
  revert st. induction ops as [|op ops IH]; intros st Hi; cbn; [eauto 6|].
  destruct (apply_op_total op st Hi) as (out & st1 & -> & Hi1 & Hr1). cbn.
  destruct (IH st1 Hi1) as (outs & st2 & -> & Hi2 & Hr2). cbn. eexists _, _.
  split; [done|]. split; [done|]. congruence.
Qed.

Lemma run_sync_inv ops root out st : run ops (new root) = Some (out, st) -> sync_inv st.
Proof.
  intros Hr. destruct (run_total ops (new root) (sync_inv_new root)) as (out' & st' & Hr' & Hi & _).
  congruence.
Qed.

(** No operation of the stream panics or loops, and in every execution the
    shared presence map says exactly which clients have a subscription to a
    Task: product workflows that ask [has_subscribers] learn whether some client
    is subscribed to that Task, also after duplicate subscriptions, failed
    snapshots, unsubscriptions and client expiry. *)
Theorem presence_matches_subscriptions root ops :
  exists out st, run ops (new root) = Some (out, st) /\
    NoDup (subscriptions st) /\
    (forall task_id, has_subscribers task_id (task_subscription_presence st) = true <->
       exists client, mkSubscription client (SubTask task_id) ∈ subscriptions st).
Proof.
  destruct (run_total ops (new root) (sync_inv_new root)) as (out & st & Hr & [Hnd Hne Hp _] & _).
  exists out, st. split; [done|]. split; [done|]. intros t. unfold has_subscribers.
  rewrite existsb_exists. split.
  - intros ([k s] & Hin%list_elem_of_In%elem_of_map_to_list & Htest). cbn in Htest. simp_all.
    destruct (set_choose_L s) as [c Hc]; [done|]. exists c. apply Hp. by rewrite Hin.
  - intros [c Hc%Hp]. destruct (task_subscription_presence st !! t) as [s|] eqn:E; [|set_solver].
    exists (t, s). split; [by apply list_elem_of_In, elem_of_map_to_list|]. cbn.
    rewrite bool_decide_eq_true_2 by done. rewrite bool_decide_eq_false_2; [done|]. by eapply Hne.
Qed.
(** ** Grouping by scope *)

Fixpoint clients_of (scope : SubscriptionScope) (groups : list (SubscriptionScope * list string))
  : list string :=
  match groups with
  | [] => []
  | g :: groups => if bool_decide (g.1 = scope) then g.2 else clients_of scope groups
  end.

Lemma elem_of_add_to_groups s groups scope :
  scope ∈ (add_to_groups s groups).*1 <-> scope = sub_scope s \/ scope ∈ groups.*1.
Proof.
  induction groups as [|[sc cl] groups IH]; cbn [add_to_groups fmap list_fmap fst]; [set_solver|].
  split_test; cbn [fmap list_fmap fst]; rewrite !elem_of_cons; [subst; naive_solver|].
  rewrite IH. naive_solver.
Qed.

Lemma add_to_groups_nodup s groups : NoDup groups.*1 -> NoDup (add_to_groups s groups).*1.
Proof.
  induction groups as [|[sc cl] groups IH]; cbn [add_to_groups]; intros Hnd.
  { apply NoDup_singleton. }
  apply NoDup_cons in Hnd as [Hnin Hnd]. split_test; cbn; apply NoDup_cons; (split; [|auto]).
  - done.
  - intros [->|Hin]%elem_of_add_to_groups; done.
Qed.

Lemma add_to_groups_clients s groups scope :
  clients_of scope (add_to_groups s groups)
  = if bool_decide (sub_scope s = scope)
    then (if bool_decide (sub_client s ∈ clients_of scope groups) then clients_of scope groups
          else clients_of scope groups ++ [sub_client s])
    else clients_of scope groups.
Proof.
  induction groups as [|[sc cl] groups IH]; cbn [add_to_groups].
  - cbn [clients_of fst snd]. repeat split_test; set_solver.
  - destruct (bool_decide_reflect (sc = sub_scope s)) as [->|Hne]; cbn [clients_of fst snd].
    + destruct (bool_decide_reflect (sub_scope s = scope)); done.
    + rewrite IH. destruct (bool_decide_reflect (sc = scope)) as [->|]; [|done].
      by rewrite bool_decide_eq_false_2.
Qed.

Lemma group_by_scope_spec subs :
  NoDup subs ->
  NoDup (group_by_scope subs).*1 /\
  (forall scope, clients_of scope (group_by_scope subs)
     = sub_client <$> filter (fun s => sub_scope s = scope) subs) /\
  (forall scope, scope ∈ (group_by_scope subs).*1 <-> exists s, s ∈ subs /\ sub_scope s = scope).
Proof.
  induction subs as [|s subs IH] using rev_ind; intros Hnd.
  { split; [constructor|]. split; [done|]. cbn. set_solver. }
  apply NoDup_app in Hnd as (Hnd & Hdis & _). destruct (IH Hnd) as (H1 & H2 & H3).
  unfold group_by_scope in *. rewrite foldl_snoc. split; [by apply add_to_groups_nodup|]. split.
  - intros scope. rewrite add_to_groups_clients, H2, filter_app, fmap_app, filter_cons.
    destruct (bool_decide_reflect (sub_scope s = scope)) as [Heq|Hne];
      [rewrite decide_True by done|rewrite decide_False by done; by rewrite app_nil_r].
    rewrite bool_decide_eq_false_2; [done|].
    intros (s' & Hc & [Hs' Hin]%list_elem_of_filter)%list_elem_of_fmap.
    apply (Hdis _ Hin). destruct s, s'. cbn in *. set_solver.
  - intros scope. rewrite elem_of_add_to_groups, H3. split.
    + intros [->|(s' & Hin & <-)]; [exists s|exists s']; set_solver.
    + intros (s' & [Hin|Hin%list_elem_of_singleton]%elem_of_app & <-); [right|left; subst]; eauto.
Qed.

(** The clients of one scope, each once. *)
Lemma scope_clients_nodup (subs : list SubscriptionRecord) scope :
  NoDup subs -> NoDup (sub_client <$> filter (fun s => sub_scope s = scope) subs).
Proof.
  intros Hnd. apply NoDup_fmap_2_strong; [|by apply NoDup_filter].
  intros [c1 s1] [c2 s2] [H1 _]%list_elem_of_filter [H2 _]%list_elem_of_filter. cbn in *. by intros ->; subst.
Qed.

Lemma elem_of_scope_clients (subs : list SubscriptionRecord) scope c :
  c ∈ sub_client <$> filter (fun s => sub_scope s = scope) subs <-> mkSubscription c scope ∈ subs.
Proof.
  rewrite list_elem_of_fmap. split.
  - intros ([c' s'] & -> & [HS Hin]%list_elem_of_filter). cbn in *. by subst.
  - intros Hin. exists (mkSubscription c scope). split; [done|]. by apply list_elem_of_filter.
Qed.

Lemma clients_of_none scope (groups : list (SubscriptionScope * list string)) : scope ∉ groups.*1 -> clients_of scope groups = [].
Proof.
  intros Hnin. induction groups as [|g groups IH]; [done|]. cbn [clients_of].
  rewrite bool_decide_eq_false_2 by set_solver. apply IH. set_solver.
Qed.

(** ** Publication *)

(** The event of one scope, to one client. *)
Definition deliver (scope : EventScope) (payload : AppServerEventPayload)
    (deliveries : string -> option Delivery) (subscription : SubscriptionScope) (sequence : Z)
    (client : string) : option StateEventDelivery :=
  d ← deliveries client;
  Some (mkEventDelivery d (mkEvent subscription (cursor_string sequence)
          (cursor_string (u64_add sequence 1)) scope payload)).

Lemma filter_omap_deliver scope payload deliveries sub seq clients S :
  filter (fun x => ev_subscription (sed_event x) = S)
    (omap (deliver scope payload deliveries sub seq) clients)
  = if bool_decide (sub = S) then omap (deliver scope payload deliveries sub seq) clients else [].
Proof.
  assert (forall x, x ∈ omap (deliver scope payload deliveries sub seq) clients ->
    ev_subscription (sed_event x) = sub) as Hx.
  { intros x (c & _ & Hd)%list_elem_of_omap. unfold deliver in Hd.
    destruct (deliveries c); by simplify_eq/=. }
  split_test; [apply filter_all|apply filter_none]; intros x Hin; rewrite (Hx _ Hin); done.
Qed.

Lemma publish_groups_spec scope payload deliveries groups m S :
  NoDup groups.*1 ->
  let '(out, m') := publish_groups scope payload deliveries groups m in
  filter (fun x => ev_subscription (sed_event x) = S) out
  = omap (deliver scope payload deliveries S (default 0 (m !! S))) (clients_of S groups) /\
  default 0 (m' !! S)
  = if bool_decide (S ∈ groups.*1) then u64_add (default 0 (m !! S)) 1 else default 0 (m !! S).
Proof.
  revert m. induction groups as [|[sub clients] groups IH]; intros m Hnd; cbn [publish_groups].
  { split; [done|]. by rewrite bool_decide_eq_false_2 by set_solver. }
  apply NoDup_cons in Hnd as [Hnin Hnd]. cbn [advance]. specialize (IH (<[sub := u64_add (default 0 (m !! sub)) 1]> m) Hnd).
  unfold advance. destruct (publish_groups _ _ _ groups _) as [rest m'].
  destruct IH as [IH1 IH2]. rewrite filter_app. cbn [clients_of fst snd].
  fold (deliver scope payload deliveries sub (default 0 (m !! sub))).
  rewrite filter_omap_deliver, IH1, IH2. cbn [fmap list_fmap fst].
  rewrite (bool_decide_ext (S ∈ sub :: groups.*1) (S = sub \/ S ∈ groups.*1)) by apply elem_of_cons.
  destruct (decide (sub = S)) as [->|Hne].
  - rewrite lookup_insert_eq, (bool_decide_eq_true_2 (S = S)) by done. cbn.
    rewrite (bool_decide_eq_false_2 (S ∈ _)), (bool_decide_eq_true_2 (S = S \/ _)) by auto.
    split; [|done]. by rewrite (clients_of_none S groups Hnin), app_nil_r.
  - rewrite lookup_insert_ne, (bool_decide_eq_false_2 (sub = S)) by done. split; [done|].
    by rewrite (bool_decide_ext (S ∈ groups.*1) (S = sub \/ S ∈ groups.*1)) by naive_solver.
Qed.
(** The deliveries of one client on one subscription. *)
Definition received (client : string) (S : SubscriptionScope) (out : list StateEventDelivery)
  : list StateEventDelivery :=
  filter (fun x => d_client (sed_delivery x) = client)
    (filter (fun x => ev_subscription (sed_event x) = S) out).

(** [ClientHub::delivery_for] names the client it is asked for. *)
Definition names_client (deliveries : string -> option Delivery) : Prop :=
  forall c d, deliveries c = Some d -> d_client d = c.

Lemma received_app client S out1 out2 :
  received client S (out1 ++ out2) = received client S out1 ++ received client S out2.
Proof. unfold received. by rewrite !filter_app. Qed.

Lemma filter_omap_one scope payload deliveries S seq clients client d :
  names_client deliveries -> deliveries client = Some d -> NoDup clients ->
  filter (fun x => d_client (sed_delivery x) = client)
    (omap (deliver scope payload deliveries S seq) clients)
  = if bool_decide (client ∈ clients)
    then [mkEventDelivery d (mkEvent S (cursor_string seq) (cursor_string (u64_add seq 1)) scope payload)]
    else [].
Proof.
  intros Hn Hd Hnd. induction Hnd as [|c clients Hnin Hnd IH]; [done|]. cbn [omap list_omap].
  unfold deliver at 1. rewrite (bool_decide_ext (client ∈ c :: clients) (client = c \/ client ∈ clients))
    by apply elem_of_cons.
  destruct (decide (client = c)) as [<-|Hne].
  - rewrite Hd. cbn [mbind option_bind]. rewrite filter_cons_True by (by apply Hn).
    rewrite IH, bool_decide_eq_false_2, bool_decide_eq_true_2 by auto. done.
  - rewrite (bool_decide_ext (client = c \/ client ∈ clients) (client ∈ clients)) by naive_solver.
    destruct (deliveries c) as [d'|] eqn:Hc; cbn [mbind option_bind]; [|done].
    rewrite filter_cons_False; [done|]. cbn. rewrite (Hn _ _ Hc). done.
Qed.

Definition token (S : SubscriptionScope) (st : StateStream) : Z := default 0 (scope_cursors st !! S).

(** Every subscriber of a scope sees the event when one of them does: all
    events but those addressed to another client. *)
Definition not_for_others (client : string) (scope : EventScope) : Prop :=
  match scope with EventClient _ c => c = client | _ => True end.

Lemma matches_shared client other scope payload S root :
  not_for_others client scope ->
  event_matches_subscription scope payload (mkSubscription other S) root = true ->
  event_matches_subscription scope payload (mkSubscription client S) root = true.
Proof.
  intros Hs Hm. destruct scope; cbn in Hs; [by destruct payload| |by destruct payload]. subst.
  unfold event_matches_subscription in *. cbn [sub_client sub_scope] in *.
  destruct payload; try done; rewrite (bool_decide_eq_true_2 (client = client)) by done;
    rewrite !andb_true_iff in *; tauto.
Qed.

Lemma publish_step scope payload deliveries st :
  sync_inv st -> names_client deliveries ->
  exists out st', publish_committed scope payload deliveries st = Some (out, st') /\ sync_inv st' /\
    subscriptions st' = subscriptions st /\
    forall client S d, deliveries client = Some d ->
      let hit := bool_decide (mkSubscription client S ∈ subscriptions st) &&
                 event_matches_subscription scope payload (mkSubscription client S) (state_root_id st) in
      received client S out
      = (if hit then [mkEventDelivery d (mkEvent S (cursor_string (token S st))
                        (cursor_string (token S st')) scope payload)] else []) /\
      (hit = true -> token S st' = u64_add (token S st) 1) /\
      (hit = false -> mkSubscription client S ∈ subscriptions st ->
       not_for_others client scope -> token S st' = token S st).
Proof.
  intros Hi Hn. destruct (publish_total scope payload deliveries st Hi)
    as (out & st' & Heq & Hi' & Hs & _ & _ & Hout).
  exists out, st'. split; [done|]. split; [done|]. split; [done|].
  set (matching := filter _ (subscriptions st)) in Hout.
  assert (NoDup matching) as Hndm by (apply NoDup_filter, Hi).
  assert (forall s, s ∈ matching <-> event_matches_subscription scope payload s (state_root_id st) = true /\
    s ∈ subscriptions st) as Hm by (intros s; unfold matching; by rewrite list_elem_of_filter).
  destruct (group_by_scope_spec matching Hndm) as (Hg1 & Hg2 & Hg3).
  intros client S d Hd hit.
  pose proof (publish_groups_spec scope payload deliveries (group_by_scope matching) (scope_cursors st) S Hg1) as Hp.
  rewrite <- Hout in Hp. destruct Hp as [Hp1 Hp2]. rewrite Hg2 in Hp1.
  fold (token S st') (token S st) in Hp1, Hp2.
  assert (hit = bool_decide (mkSubscription client S ∈ matching)) as Hhit.
  { unfold hit. apply eq_bool_prop_intro. rewrite !bool_decide_spec, andb_True, bool_decide_spec, Hm.
    rewrite Is_true_true. tauto. }
  split; [|split].
  - unfold received. rewrite Hp1, (filter_omap_one _ _ _ _ _ _ _ d Hn Hd) by by apply scope_clients_nodup.
    rewrite Hp2, (bool_decide_ext (client ∈ _) _ (elem_of_scope_clients _ _ _)), <- Hhit.
    destruct hit; [|done]. symmetry in Hhit. apply bool_decide_eq_true in Hhit.
    rewrite bool_decide_eq_true_2; [done|]. apply Hg3. eauto.
  - rewrite Hhit, Hp2. intros Hin%bool_decide_eq_true. rewrite bool_decide_eq_true_2; [done|].
    apply Hg3. eauto.
  - intros Hno Hsub Hshare. rewrite Hp2, bool_decide_eq_false_2; [done|].
    intros ([c S'] & [Hmatch _]%Hm & HS)%Hg3. cbn in HS. subst S'.
    apply (matches_shared client) in Hmatch; [|done]. unfold hit in Hno.
    by rewrite bool_decide_eq_true_2, Hmatch in Hno.
Qed.
(** After any execution, publishing an event reaches every client that has
    a delivery exactly once per matching subscription it holds, with the cursor
    link of that scope, and not at all on any other scope. *)
Theorem publish_delivers_exactly_once root pre out0 st scope payload deliveries :
  run pre (new root) = Some (out0, st) -> names_client deliveries ->
  exists out st', publish_committed scope payload deliveries st = Some (out, st') /\
    forall client S d, deliveries client = Some d ->
      received client S out
      = if bool_decide (mkSubscription client S ∈ subscriptions st) &&
           event_matches_subscription scope payload (mkSubscription client S) (state_root_id st)
        then [mkEventDelivery d (mkEvent S (cursor_string (token S st))
                (cursor_string (token S st')) scope payload)]
        else [].
Proof.
  intros Hr Hn. destruct (publish_step scope payload deliveries st (run_sync_inv _ _ _ _ Hr) Hn)
    as (out & st' & Heq & _ & _ & Hs).
  exists out, st'. split; [done|]. intros client S d Hd. apply (Hs client S d Hd).
Qed.

(** The events link from cursor [a] to cursor [b] without a gap. *)
Fixpoint chain (a : string) (es : list AppServerEvent) (b : string) : Prop :=
  match es with
  | [] => a = b
  | e :: es => ev_previous_cursor e = a /\ chain (ev_cursor e) es b
  end.

Lemma chain_app a es1 b es2 c : chain a es1 b -> chain b es2 c -> chain a (es1 ++ es2) c.
Proof.
  revert a. induction es1 as [|e es1 IH]; cbn; intros a; [by intros ->|].
  intros [H1 H2] H3. split; [done|]. by apply IH.
Qed.

(** What may happen while a subscription is held: other clients and scopes do
    anything, events find the client deliverable, and no event is addressed to
    another single client. *)
Definition keeps (client : string) (S : SubscriptionScope) (op : SyncOp) : Prop :=
  match op with
  | OpSubscribe _ _ _ => True
  | OpUnsubscribe ctx scope => client_instance_id ctx <> client \/ scope <> S
  | OpPublish scope _ deliveries =>
      names_client deliveries /\ is_Some (deliveries client) /\ not_for_others client scope
  | OpDropClient c => c <> client
  end.

Lemma subscribe_state ctx scope known st :
  let st' := (subscribe_with_membership ctx scope known st).2 in
  (forall S, token S st' = token S st) /\
  (forall s, s ∈ subscriptions st -> s ∈ subscriptions st') /\
  (forall r b, (subscribe_with_membership ctx scope known st).1 = Ok (r, b) ->
     sr_cursor r = cursor_string (token scope st) /\ sr_scope r = scope /\
     mkSubscription (client_instance_id ctx) scope ∈ subscriptions st').
Proof.
  assert (forall S, default 0 (<[scope := default 0 (scope_cursors st !! scope)]> (scope_cursors st) !! S)
    = token S st) as Ht.
  { intros S. rewrite lookup_insert. by case_decide; subst. }
  unfold subscribe_with_membership, upsert_subscription. cbn.
  destruct (match scope with SubTask _ => _ | _ => _ end) as [snap|e]; cbn.
  - destruct (bool_decide_reflect (mkSubscription (client_instance_id ctx) scope ∈ subscriptions st));
      (split; [destruct scope; exact Ht|]); (split; [destruct scope; set_solver|]);
      intros r b [= <- <-]; (split; [done|]); (split; [done|]); destruct scope; set_solver.
  - split; [exact Ht|]. by split.
Qed.

Lemma chain_step client S op st :
  sync_inv st -> mkSubscription client S ∈ subscriptions st -> keeps client S op ->
  exists out st', apply_op op st = Some (out, st') /\ sync_inv st' /\
    mkSubscription client S ∈ subscriptions st' /\
    chain (cursor_string (token S st)) (sed_event <$> received client S out) (cursor_string (token S st')).
Proof.
  intros Hi Hsub Hk. destruct op as [ctx scope known|ctx scope|scope payload deliveries|c]; cbn [apply_op].
  - destruct (subscribe_state ctx scope known st) as (Ht & Hs & _). eexists _, _. split; [done|].
    split; [by apply sync_inv_subscribe|]. split; [by apply Hs|]. cbn. by rewrite Ht.
  - eexists _, _. split; [done|]. split; [by apply sync_inv_unsubscribe|]. split; [|done].
    cbn. apply list_elem_of_filter. cbn in *. split; [naive_solver|done].
  - destruct Hk as (Hn & [d Hd] & Hshare).
    destruct (publish_step scope payload deliveries st Hi Hn) as (out & st' & Heq & Hi' & Hs & Hp).
    exists out, st'. split; [done|]. split; [done|]. split; [by rewrite Hs|].
    destruct (Hp client S d Hd) as (-> & _ & Hmiss). destruct (_ && _); cbn; [done|].
    by rewrite Hmiss.
  - eexists _, _. split; [done|]. split; [by apply sync_inv_drop|]. split; [|done].
    cbn. apply list_elem_of_filter. cbn in *. split; [naive_solver|done].
Qed.

Lemma chain_run client S ops st :
  sync_inv st -> mkSubscription client S ∈ subscriptions st -> Forall (keeps client S) ops ->
  exists out st', run ops st = Some (out, st') /\
    chain (cursor_string (token S st)) (sed_event <$> received client S out) (cursor_string (token S st')).
Proof.
  intros Hi Hs Hk. revert st Hi Hs. induction Hk as [|op ops Hop Hk IH]; intros st Hi Hs; cbn [run].
  { by exists [], st. }
  destruct (chain_step client S op st Hi Hs Hop) as (out & st1 & -> & Hi1 & Hs1 & Hc1). cbn.
  destruct (IH st1 Hi1 Hs1) as (outs & st2 & -> & Hc2). cbn. eexists _, _. split; [done|].
  rewrite received_app, fmap_app. by eapply chain_app.
Qed.


(** ** Where events go *)

Lemma publish_sound scope payload deliveries st out st' x :
  sync_inv st -> publish_committed scope payload deliveries st = Some (out, st') -> x ∈ out ->
  exists s, s ∈ subscriptions st /\
    event_matches_subscription scope payload s (state_root_id st) = true /\
    ev_subscription (sed_event x) = sub_scope s /\ deliveries (sub_client s) = Some (sed_delivery x).
Proof.
  intros Hi Heq Hx. destruct (publish_total scope payload deliveries st Hi)
    as (out' & st'' & Heq' & _ & _ & _ & _ & Hout).
  rewrite Heq in Heq'. injection Heq' as <- <-. set (matching := filter _ _) in Hout.
  assert (NoDup matching) as Hndm by (apply NoDup_filter, Hi).
  destruct (group_by_scope_spec matching Hndm) as (Hg1 & Hg2 & _).
  pose proof (publish_groups_spec scope payload deliveries (group_by_scope matching) (scope_cursors st)
    (ev_subscription (sed_event x)) Hg1) as Hp.
  rewrite <- Hout in Hp. destruct Hp as [Hp _]. rewrite Hg2 in Hp.
  assert (x ∈ filter (fun y => ev_subscription (sed_event y) = ev_subscription (sed_event x)) out) as Hf
    by by apply list_elem_of_filter.
  rewrite Hp in Hf. apply list_elem_of_omap in Hf as (c & Hc%elem_of_scope_clients & Hd).
  apply list_elem_of_filter in Hc as [Hm Hin]. unfold deliver in Hd.
  destruct (deliveries c) as [d|] eqn:E; [|done]. injection Hd as <-. eauto 6.
Qed.

Definition scope_task (S : SubscriptionScope) : option string :=
  match S with
  | SubTask t | SubToolDetail t _ | SubSubagentCatalog t | SubSubagentHistory t _ => Some t
  | _ => None
  end.

Lemma matches_routing scope payload c S root :
  event_matches_subscription scope payload (mkSubscription c S) root = true ->
  match scope with
  | EventStateRoot r => r = root /\ is_task_view S = false
  | EventClient r client => r = root /\ is_task_view S = false /\
      (c = client \/ exists p, payload = ProjectCollectionUpdated p)
  | EventTask r t => r = root /\
      (scope_task S = Some t \/ exists p, payload = ProjectCollectionUpdated p /\ S = SubProjects)
  end.
Proof.
  unfold event_matches_subscription. cbn [sub_client sub_scope]. intros Hm.
  destruct payload, scope; simp_all; destruct S; cbn in *; simp_all; eauto 8; done.
Qed.

(** Events stay in their scope: an event of another state root reaches
    nobody, a Task event reaches only views of that Task, an event addressed to a
    client reaches only that client, and only an event of the Task itself
    reaches a Task view.  The project collection is the one payload that is
    routed by its kind alone. *)
Theorem events_stay_in_scope root pre out0 st scope payload deliveries out st' x :
  run pre (new root) = Some (out0, st) -> names_client deliveries ->
  publish_committed scope payload deliveries st = Some (out, st') -> x ∈ out ->
  let S := ev_subscription (sed_event x) in
  match scope with
  | EventStateRoot r => r = root /\ is_task_view S = false
  | EventClient r c => r = root /\ is_task_view S = false /\
      (d_client (sed_delivery x) = c \/ exists p, payload = ProjectCollectionUpdated p)
  | EventTask r t => r = root /\
      (scope_task S = Some t \/ exists p, payload = ProjectCollectionUpdated p /\ S = SubProjects)
  end.
Proof.
  intros Hr Hn Heq Hx S. pose proof (run_sync_inv _ _ _ _ Hr) as Hi.
  destruct (run_total pre (new root) (sync_inv_new root)) as (o & st1 & Hr' & _ & Hroot).
  rewrite Hr in Hr'. injection Hr' as <- <-. cbn in Hroot.
  destruct (publish_sound _ _ _ _ _ _ _ Hi Heq Hx) as ([c sc] & _ & Hm & HS & Hd). cbn in *.
  subst S. rewrite HS. apply Hn in Hd. rewrite Hd. rewrite <- Hroot. by apply matches_routing.
Qed.
(** ** Task resume *)

Definition published_op (op : SyncOp) : list Op :=
  match op with
  | OpPublish (EventTask _ t) (TaskChanged _ r c) _ => [(t, r, c)]
  | _ => []
  end.

(** The changes published by an execution, in order. *)
Definition published (ops : list SyncOp) : list Op := ops ≫= published_op.

Lemma step_log op st out st' :
  sync_inv st -> apply_op op st = Some (out, st') ->
  record_all json_len (published_op op) (task_changes st) = Some (task_changes st').
Proof.
  intros Hi. destruct op as [ctx scope known|ctx scope|scope payload deliveries|c]; cbn [apply_op].
  - intros [= _ <-]. unfold subscribe_with_membership, upsert_subscription. cbn.
    destruct (match scope with SubTask _ => _ | _ => _ end); cbn; [|done].
    split_test; by destruct scope.
  - by intros [= _ <-].
  - intros Heq. destruct (publish_total scope payload deliveries st Hi)
      as (out' & st'' & Heq' & _ & _ & _ & Hlog & _).
    rewrite Heq in Heq'. injection Heq' as <- <-.
    destruct scope; [cbn; by rewrite Hlog..|]. destruct payload; cbn; rewrite Hlog; done.
  - by intros [= _ <-].
Qed.

Lemma run_log ops st out st' :
  sync_inv st -> run ops st = Some (out, st') ->
  record_all json_len (published ops) (task_changes st) = Some (task_changes st').
Proof.
  revert st out. induction ops as [|op ops IH]; intros st out Hi; cbn [run].
  { by intros [= _ <-]. }
  destruct (apply_op_total op st Hi) as (o1 & st1 & Heq & Hi1 & _). rewrite Heq. cbn.
  destruct (run ops st1) as [[o2 st2]|] eqn:E; cbn; [|done]. intros [= _ <-].
  unfold published in *. cbn. rewrite record_all_app, (step_log _ _ _ _ Hi Heq). cbn. by eapply IH.
Qed.

(** Consecutive changes above [known], up to the last published revision. *)
Lemma missed_reach_last (h : list (Z * TaskChanges)) known cs :
  history_ok h -> 0 <= known < last_revision h ->
  cs = (fun p => mkRevisionChanges p.1 p.2) <$> filter (fun p => known < p.1) h ->
  (forall i c, cs !! i = Some c -> rc_revision c = known + 1 + Z.of_nat i) ->
  known + Z.of_nat (length cs) = last_revision h.
Proof.
  intros Hok Hlt Hcs Hc.
  assert (exists p, p ∈ h /\ p.1 = last_revision h) as (p & Hp & Hrev).
  { unfold last_revision in *. destruct (last h) as [p|] eqn:E; cbn in *; [|lia].
    exists p. split; [by apply last_Some_elem_of|done]. }
  assert (mkRevisionChanges p.1 p.2 ∈ cs) as [i Hi]%list_elem_of_lookup.
  { rewrite Hcs. apply list_elem_of_fmap. exists p. split; [done|]. apply list_elem_of_filter.
    split; [lia|done]. }
  pose proof (lookup_lt_Some _ _ _ Hi) as Hlen. apply Hc in Hi. cbn in Hi.
  destruct (lookup_lt_is_Some_2 cs (length cs - 1)) as [c Hlast]; [lia|].
  pose proof (Hc _ _ Hlast) as Hcr. apply list_elem_of_lookup_2 in Hlast. rewrite Hcs in Hlast.
  apply list_elem_of_fmap in Hlast as (q & -> & [_ Hq]%list_elem_of_filter).
  apply (history_ok_le_last h) in Hq; [|done]. cbn in *. lia.
Qed.

(** A provider builds baselines; only the stream builds a resume. *)
Definition baseline_provider : Prop :=
  forall ctx scope token r, provider_snapshot ctx scope token <> Ok (SnapTaskResume r).

Lemma task_snapshot_resume ctx task_id known token st r :
  baseline_provider -> task_snapshot ctx task_id (Some known) token st = Ok (SnapTaskResume r) ->
  exists basis changes, task_resume_basis ctx task_id = Ok (Some basis) /\
    r = mkResume task_id known changes (tb_history_sync basis) [] (tb_subagents basis)
          (tb_workspace_available basis) /\
    known <= tb_revision basis /\
    if bool_decide (known = tb_revision basis) then changes = []
    else exists n, changes_since task_id known (task_changes st) = Changes changes n.
Proof.
  intros Hprov. cbn. destruct (task_resume_basis ctx task_id) as [[basis|]|e]; cbn; [|by intros ?%Hprov|done].
  destruct (bool_decide_reflect (tb_revision basis < known)); [by intros ?%Hprov|].
  split_test.
  - intros [= <-]. exists basis, []. split; [done|]. split; [done|]. split; [lia|].
    by rewrite bool_decide_eq_true_2.
  - destruct (changes_since _ _ _) as [cs n'| |] eqn:E; [|by intros ?%Hprov..].
    intros [= <-]. exists basis, cs. split; [done|]. split; [done|]. split; [lia|].
    rewrite bool_decide_eq_false_2 by done. eauto.
Qed.

Lemma subscribe_task_ok ctx task_id known st result added :
  (subscribe_with_membership ctx (SubTask task_id) known st).1 = Ok (result, added) ->
  exists token st', task_snapshot ctx task_id known token st' = Ok (sr_snapshot result) /\
    task_changes st' = task_changes st.
Proof.
  unfold subscribe_with_membership, upsert_subscription. cbn.
  destruct (task_snapshot _ _ _ _ _) eqn:E; cbn; [|done].
  split_test; intros [= <- _]; by eexists _, _.
Qed.

(** The retained changes of an execution that publishes in revision order. *)
Lemma run_tracks root ops out st :
  run ops (new root) = Some (out, st) -> ordered_from no_history (published ops) ->
  tracks json_len (history (published ops)) (task_changes st).
Proof.
  intros Hr Ho. assert (bounds_fit default_log) as Hfit by (vm_compute; repeat split; discriminate).
  destruct (with_bounds_ok json_len _ _ Hfit) as [Hi0 Ht0].
  destruct (record_all_spec json_len json_len_nonneg _ _ _ Hi0 Ht0 Ho) as (log & Hrec & _ & _ & Htr).
  pose proof (run_log _ _ _ _ (sync_inv_new root) Hr) as Hlog. cbn in Hlog.
  unfold default_log in *. rewrite Hrec in Hlog. by injection Hlog as <-.
Qed.

(** C29. A Task resume is complete: when a client that knows revision [known] is
    answered with a resume instead of a baseline, the resume carries exactly the
    published changes above [known] with consecutive revisions, and when every
    committed revision was published it brings the client to the current
    revision of the Task. *)
Theorem resume_is_exact root ops out st ctx task_id known result added r :
  run ops (new root) = Some (out, st) -> ordered_from no_history (published ops) -> is_u64 known ->
  baseline_provider ->
  (subscribe_with_membership ctx (SubTask task_id) (Some known) st).1 = Ok (result, added) ->
  sr_snapshot result = SnapTaskResume r ->
  let h := history (published ops) task_id in
  exists basis, task_resume_basis ctx task_id = Ok (Some basis) /\
    rs_task_id r = task_id /\ rs_known_revision r = known /\ known <= tb_revision basis /\
    rs_changes r = (if bool_decide (known = tb_revision basis) then []
                    else (fun p => mkRevisionChanges p.1 p.2) <$> filter (fun p => known < p.1) h) /\
    (forall i c, rs_changes r !! i = Some c -> rc_revision c = known + 1 + Z.of_nat i) /\
    (last_revision h = tb_revision basis ->
     known + Z.of_nat (length (rs_changes r)) = tb_revision basis).
Proof.
  intros Hr Ho Hu Hprov Hsub Hsnap h. pose proof (run_tracks _ _ _ _ Hr Ho) as Htr.
  destruct (subscribe_task_ok _ _ _ _ _ _ Hsub) as (tok & st' & Hts & Hlog). rewrite Hsnap in Hts.
  destruct (task_snapshot_resume _ _ _ _ _ _ Hprov Hts) as (basis & cs & Hb & -> & Hle & Hcs).
  exists basis. cbn. split; [done|]. split; [done|]. split; [done|]. split; [done|].
  rewrite Hlog in Hcs. destruct (bool_decide_reflect (known = tb_revision basis)) as [Heq|Hne].
  - subst cs. split; [done|]. split; [done|]. cbn. lia.
  - destruct Hcs as [n Hcs]. pose proof (changes_since_tracks json_len _ _ task_id known Htr Hu) as Hex.
    rewrite Hcs in Hex. destruct Hex as (Hne' & Hfil & Hcon & _).
    split; [exact Hfil|]. split; [exact Hcon|]. intros Hlast. rewrite <- Hlast.
    eapply missed_reach_last; [apply Htr| |exact Hfil|exact Hcon]. fold h. unfold is_u64 in Hu. lia.
Qed.
End StateSync.

(** ** Examples *)

Module SyncWitness.
#[local] Existing Instance string_payloads.

Definition projects : @ProjectCollectionSnapshot string_payloads := "p"%string.

Definition provider : SnapshotProvider :=
  {| provider_snapshot := fun _ _ _ => Ok (SnapProjects projects);
     task_resume_basis := fun _ _ => Ok (Some (mkBasis 6 "h"%string "s"%string true)) |}.
#[local] Existing Instance provider.

Definition ctx (id conn : string) : ClientContext :=
  mkContext id conn (mkShell Web None None) SurfaceHome (mkCapabilities [] []) Interactive.
Definition deliveries (c : string) : option Delivery :=
  if bool_decide (c = "x"%string) then None else Some (mkDelivery c (c +:+ "-conn") []).

Definition len (c : TaskChanges) : option Z := Some 10.
Definition change : TaskChanges :=
  mkChanges None None None None None None None None None None None None None [] false.

Lemma sync_len_nonneg : forall c n, len c = Some n -> 0 <= n.
Proof. by intros c n [= <-]. Defined.

Lemma deliveries_named : names_client deliveries.
Proof. intros c d. unfold deliveries. case_match; [done|]. by intros [= <-]. Defined.

Definition task_event (revision : Z) : SyncOp :=
  OpPublish (EventTask "root" "t") (TaskChanged "t" revision change) deliveries.

Definition pre : list SyncOp :=
  [OpSubscribe (ctx "a" "c1") (SubTask "t") None; OpSubscribe (ctx "x" "c2") (SubTask "t") None;
   task_event 4; OpSubscribe (ctx "a" "c1") (SubTask "t") None; task_event 5;
   OpUnsubscribe (ctx "a" "c1") (SubTask "t"); task_event 6; OpDropClient "x"].

(** The state after [pre]. *)
Definition after_pre : StateStream :=
  match run len pre (new "root") with Some (_, st) => st | None => new "root" end.
Definition out_pre : list StateEventDelivery :=
  match run len pre (new "root") with Some (out, _) => out | None => [] end.

Lemma run_pre : run len pre (new "root") = Some (out_pre, after_pre).
Proof. vm_compute. reflexivity. Defined.

Lemma presence_matches_subscriptions_witness :
  exists out st, run len pre (new "root") = Some (out, st) /\ NoDup (subscriptions st).
Proof.
  destruct (presence_matches_subscriptions len sync_len_nonneg "root" pre) as (out & st & Hr & Hnd & _).
  exists out, st. split; [exact Hr|exact Hnd].
Defined.

Lemma publish_delivers_exactly_once_witness :
  exists out st', publish_committed len (EventTask "root" "t") (TaskChanged "t" 7 change) deliveries
                    after_pre = Some (out, st') /\ received "a" (SubTask "t") out = [].
Proof.
  destruct (publish_delivers_exactly_once len sync_len_nonneg "root" pre out_pre after_pre
    (EventTask "root" "t") (TaskChanged "t" 7 change) deliveries run_pre deliveries_named)
    as (out & st' & Heq & Hd).
  exists out, st'. split; [exact Heq|].
  rewrite (Hd "a"%string (SubTask "t") (mkDelivery "a" "a-conn" [])); [|reflexivity].
  vm_compute. reflexivity.
Defined.


Definition ops_b : list SyncOp := pre ++ [OpSubscribe (ctx "b" "c3") (SubTask "t") None].
Definition after_b : StateStream :=
  match run len ops_b (new "root") with Some (_, st) => st | None => new "root" end.
Definition event_b : StateEventDelivery :=
  mkEventDelivery (mkDelivery "b" "b-conn" [])
    (mkEvent (SubTask "t") "cursor-3" "cursor-4" (EventTask "root" "t") (TaskChanged "t" 7 change)).
Definition published_b : StateStream :=
  match publish_committed len (EventTask "root" "t") (TaskChanged "t" 7 change) deliveries after_b with
  | Some (_, st) => st | None => new "root" end.

Lemma events_stay_in_scope_witness :
  scope_task (ev_subscription (sed_event event_b)) = Some "t"%string.
Proof.
  destruct (events_stay_in_scope len sync_len_nonneg "root" ops_b out_pre after_b (EventTask "root" "t")
    (TaskChanged "t" 7 change) deliveries [event_b] published_b event_b) as [_ [Ht|(p & Hp & _)]].
  - vm_compute. reflexivity.
  - exact deliveries_named.
  - vm_compute. reflexivity.
  - apply elem_of_cons. left. reflexivity.
  - exact Ht.
  - discriminate Hp.
Defined.

Definition resume : TaskResumeSnapshot :=
  mkResume "t" 4 [mkRevisionChanges 5 change; mkRevisionChanges 6 change]
    ("h"%string : @TaskHistorySyncSnapshot string_payloads) []
    ("s"%string : @SubagentOverviewSnapshot string_payloads) true.

Lemma resume_is_exact_witness :
  exists basis, task_resume_basis (ctx "a" "c1") "t" = Ok (Some basis) /\
    4 + Z.of_nat 2 = tb_revision basis.
Proof.
  destruct (resume_is_exact len sync_len_nonneg "root" pre out_pre after_pre (ctx "a" "c1") "t" 4
    (mkSubscribeResult "cursor-3" (SubTask "t") (SnapTaskResume resume)) true resume run_pre) as (basis & Hb & _ & _ & _ & _ & _ & Hlast).
  - vm_compute. repeat split; intros; discriminate || reflexivity.
  - vm_compute. split; discriminate || reflexivity.
  - intros ? ? ? ? [=].
  - vm_compute. reflexivity.
  - reflexivity.
  - exists basis. split; [exact Hb|]. apply Hlast. vm_compute in Hb. injection Hb as <-. reflexivity.
Defined.

(** An event addressed to one client advances the cursor of the scope it shares
    with the other subscribers: the next event [b] receives does not link to the
    cursor of its baseline. *)
Definition shared_ops : list SyncOp :=
  [OpPublish (EventClient "root" "a") (SnapshotReplaced ("s"%string : @ClientSnapshot string_payloads)) deliveries;
   OpPublish (EventStateRoot "root") (ProjectCollectionUpdated projects) deliveries].

Example client_event_breaks_chain :
  let st := (subscribe_with_membership (ctx "b" "c2") SubProjects None
               (subscribe_with_membership (ctx "a" "c1") SubProjects None (new "root")).2) in
  (exists added snapshot, st.1 = Ok (mkSubscribeResult "cursor-0" SubProjects snapshot, added)) /\
  (fun r => ev_previous_cursor <$> (sed_event <$> received "b" SubProjects r.1))
    <$> run len shared_ops st.2 = Some ["cursor-1"%string].
Proof. split; [do 2 eexists; vm_compute; reflexivity|vm_compute; reflexivity]. Qed.
End SyncWitness.
