(* ===== verification/ServerRequests.v ===== *)
(** * Server requests

    Models [openaide-rs/app-server/src/server_requests/] ([types.rs],
    [records.rs], [broker.rs], [lifecycle.rs]): requests the App Server opens for
    its clients, their responders, their delivery and their resolution.

    A JSON value is the type [Value]; decoding the parameters of a permission or
    a question ([serde_json::from_value]) and the time stamp of a snapshot are
    parameters.  A loop over [values_mut] is a map over the records; hash map
    iteration is [map_to_list]. *)

From stdpp Require Import pretty sorting.
From S2P Require Import Prelude Protocol ClientLifecycle.

Local Open Scope Z_scope.

Section ServerRequests.
Context `{PayloadTypes} {Value : Type}.
Context (parse_permission : Value -> option PermissionRequestParams)
        (parse_question : Value -> option QuestionRequestParams).

(** ** Types *)

Record ServerRequestDraft := mkDraft {
  dr_scope : PendingRequestScope;
  dr_method : string;
  dr_title : string;
  dr_params : Value;
}.

Record ServerRequestDelivery := mkRequestDelivery {
  rd_delivery : Delivery;
  rd_envelope : ServerRequestEnvelope Value;
}.

Inductive RequestUnavailableReason :=
| NoEligibleResponder | CapabilityUnavailable | UnsupportedMethod.

Inductive OpenRequestOutcome :=
| Opened (snapshot : PendingRequestSnapshot) (deliveries : list ServerRequestDelivery)
| Unavailable (reason : RequestUnavailableReason).

Inductive ServerRequestAnswer :=
| AnswerResult (value : Value)
| AnswerInvalid (message : string).

Inductive ResponseOutcome :=
| ResponseAccepted (request_id : string) (scope : PendingRequestScope) (responder : string) (result : Value)
| InvalidResponse (request_id responder message : string)
| AlreadyResolved (request_id : string)
| UnknownRequest (request_id : string)
| UnauthorizedResponder (request_id responder : string)
| StaleRequest (request_id responder : string)
| ResponseInterrupted (request_id : string).

Inductive RequestLifecycleOutcome :=
| RequestInterrupted (request_id : string) (scope : PendingRequestScope).

Inductive ResponderScope :=
| ResponderClient (client : string)
| ResponderTask (task_id : string).
#[global] Instance ResponderScope_eq_dec : EqDecision ResponderScope.
Proof. solve_decision. Defined.

Inductive ResponderState := Eligible | Delivered | Stale.
#[global] Instance ResponderState_eq_dec : EqDecision ResponderState.
Proof. solve_decision. Defined.

Inductive RequestStatus := Pending | Resolved | Interrupted.
#[global] Instance RequestStatus_eq_dec : EqDecision RequestStatus.
Proof. solve_decision. Defined.

Record PendingRecord := mkRecord {
  pd_snapshot : PendingRequestSnapshot;
  pd_method : string;
  pd_params : Value;
  pd_responders : gmap string ResponderState;
  pd_status : RequestStatus;
}.

Record AvailableResponder := mkResponder {
  ar_delivery : Delivery;
  ar_scopes : list ResponderScope;
}.

Record ServerRequestBroker := mkBroker {
  next_request_id : Z;
  records : gmap string PendingRecord;
  available_responders : gmap string AvailableResponder;
}.

(** ** Records *)

(** [PendingRecord::new]. *)
Definition new_record (snapshot : PendingRequestSnapshot) (method : string) (params : Value)
    (clients : list string) : PendingRecord :=
  mkRecord snapshot method params (list_to_map ((fun c => (c, Eligible)) <$> clients)) Pending.

Definition set_responder (client : string) (s : ResponderState) (r : PendingRecord) : PendingRecord :=
  mkRecord (pd_snapshot r) (pd_method r) (pd_params r) (<[client := s]> (pd_responders r)) (pd_status r).

Definition mark_responder_eligible (client : string) (r : PendingRecord) : PendingRecord :=
  set_responder client Eligible r.

Definition mark_responder_delivered (client : string) (r : PendingRecord) : PendingRecord :=
  set_responder client Delivered r.

Definition mark_responder_stale (client : string) (r : PendingRecord) : PendingRecord :=
  if bool_decide (is_Some (pd_responders r !! client)) then set_responder client Stale r else r.

Definition set_status (s : RequestStatus) (r : PendingRecord) : PendingRecord :=
  mkRecord (pd_snapshot r) (pd_method r) (pd_params r) (pd_responders r) s.

Definition can_deliver_to (r : PendingRecord) (client : string) : bool :=
  negb (bool_decide (pd_responders r !! client = Some Delivered)).

Definition record_matches_responder (r : PendingRecord) (client : string)
    (scopes : list ResponderScope) : bool :=
  match pr_scope (pd_snapshot r) with
  | ScopeClient target =>
      bool_decide (target = client) && bool_decide (ResponderClient target ∈ scopes)
  | ScopeTask task_id =>
      if bool_decide (pd_method r = PERMISSION_REQUEST \/ pd_method r = QUESTION_REQUEST)
      then bool_decide (ResponderClient client ∈ scopes)
      else bool_decide (ResponderTask task_id ∈ scopes)
  end.

(** ** The broker *)

Definition new : ServerRequestBroker := mkBroker 1 ∅ ∅.

Definition set_records (m : gmap string PendingRecord) (b : ServerRequestBroker) : ServerRequestBroker :=
  mkBroker (next_request_id b) m (available_responders b).

Definition set_available (m : gmap string AvailableResponder) (b : ServerRequestBroker)
  : ServerRequestBroker := mkBroker (next_request_id b) (records b) m.

Definition is_auth_terminal_exchange (id : string) (b : ServerRequestBroker) : bool :=
  match records b !! id with
  | Some r => bool_decide (pd_method r = SHELL_AUTH_TERMINAL)
  | None => false
  end.

Definition forget_auth_terminal_exchange (id : string) (b : ServerRequestBroker) : ServerRequestBroker :=
  if is_auth_terminal_exchange id b then set_records (delete id (records b)) b else b.

Definition classify_request_method (method : string) : option PendingRequestKind :=
  if String.prefix "permission/" method then Some KindPermission
  else if String.prefix "question/" method then Some KindQuestion
  else if String.prefix "secret/" method then Some KindSecret
  else if String.prefix "shell/" method then Some KindShellCapability
  else None.

Definition question_snapshot (method : string) (params : Value) : option QuestionRequestParams :=
  if bool_decide (method <> QUESTION_REQUEST) then None else parse_question params.

Definition permission_snapshot (method : string) (params : Value) : option PermissionRequestParams :=
  if bool_decide (method <> PERMISSION_REQUEST) then None else parse_permission params.

Definition filter_eligible_deliveries (scope : PendingRequestScope) (method : string)
    (deliveries : list Delivery) : list Delivery :=
  let deliveries := match scope with
                    | ScopeClient client => filter (fun d => d_client d = client) deliveries
                    | ScopeTask _ => deliveries
                    end in
  filter (fun d => supports_method d method = true) deliveries.

(** [scope_matches_responder] matches a record made for the check; its JSON
    parameters are not looked at. *)
Definition scope_matches_responder (null : Value) (scope : PendingRequestScope) (method client : string)
    (scopes : list ResponderScope) : bool :=
  let snapshot := mkPendingSnapshot "capability-check" scope KindPermission "" None None None in
  record_matches_responder (new_record snapshot method null []) client scopes.

Definition request_id_string (n : Z) : string := ("server-request-" +:+ pretty (Z.to_N n))%string.

Definition allocate_request_id (b : ServerRequestBroker) : string * ServerRequestBroker :=
  (request_id_string (next_request_id b),
   mkBroker (u64_add (next_request_id b) 1) (records b) (available_responders b)).

(** [scan] with a set of seen clients: it ends at the first repeated client. *)
Fixpoint scan_unseen (seen : list string) (deliveries : list Delivery) : list Delivery :=
  match deliveries with
  | [] => []
  | d :: rest =>
      if bool_decide (d_client d ∈ seen) then []
      else d :: scan_unseen (d_client d :: seen) rest
  end.

Definition mark_and_build_deliveries (id : string) (deliveries : list Delivery)
    (b : ServerRequestBroker) : list ServerRequestDelivery * ServerRequestBroker :=
  match records b !! id with
  | None => ([], b)
  | Some r =>
      let deliveries := filter (fun d => can_deliver_to r (d_client d) = true)
                          (scan_unseen [] deliveries) in
      let r' := foldl (fun r d => mark_responder_delivered (d_client d) r) r deliveries in
      ((fun d => mkRequestDelivery d
          (mkRequestEnvelope Value id (pr_scope (pd_snapshot r)) (pd_method r) (pd_params r)))
         <$> deliveries,
       set_records (<[id := r']> (records b)) b)
  end.

(** The loop of [open] that notes the responders named by the caller. *)
Definition note_responder (scope : PendingRequestScope) (m : gmap string AvailableResponder)
    (d : Delivery) : gmap string AvailableResponder :=
  let responder := default (mkResponder d [ResponderClient (d_client d)]) (m !! d_client d) in
  let scopes := match scope with
                | ScopeTask task_id =>
                    if bool_decide (ResponderTask task_id ∈ ar_scopes responder)
                    then ar_scopes responder else ar_scopes responder ++ [ResponderTask task_id]
                | ScopeClient _ => ar_scopes responder
                end in
  <[d_client d := mkResponder d scopes]> m.

(** The other available responders a new request goes to. *)
Definition available_deliveries (draft : ServerRequestDraft) (eligible : list Delivery)
    (m : gmap string AvailableResponder) : list Delivery :=
  ar_delivery <$> filter (fun a =>
    supports_method (ar_delivery a) (dr_method draft) = true /\
    scope_matches_responder (dr_params draft) (dr_scope draft) (dr_method draft)
      (d_client (ar_delivery a)) (ar_scopes a) = true /\
    d_client (ar_delivery a) ∉ d_client <$> eligible)
    (map_to_list m).*2.

Definition is_client_scope (scope : PendingRequestScope) : bool :=
  match scope with ScopeClient _ => true | ScopeTask _ => false end.

Definition open (draft : ServerRequestDraft) (eligible : list Delivery) (now_string : string)
    (b : ServerRequestBroker) : OpenRequestOutcome * ServerRequestBroker :=
  match classify_request_method (dr_method draft) with
  | None => (Unavailable UnsupportedMethod, b)
  | Some kind =>
      let eligible := filter_eligible_deliveries (dr_scope draft) (dr_method draft) eligible in
      let b := set_available (foldl (note_responder (dr_scope draft)) (available_responders b) eligible) b in
      let eligible := eligible ++ available_deliveries draft eligible (available_responders b) in
      if bool_decide (eligible = []) && is_client_scope (dr_scope draft)
      then (Unavailable NoEligibleResponder, b)
      else
        let '(id, b) := allocate_request_id b in
        let snapshot := mkPendingSnapshot id (dr_scope draft) kind (dr_title draft)
                          (permission_snapshot (dr_method draft) (dr_params draft))
                          (question_snapshot (dr_method draft) (dr_params draft)) (Some now_string) in
        let record := new_record snapshot (dr_method draft) (dr_params draft) (d_client <$> eligible) in
        let b := set_records (<[id := record]> (records b)) b in
        let '(deliveries, b) := mark_and_build_deliveries id eligible b in
        (Opened snapshot deliveries, b)
  end.

Definition handle_response_from_scopes (responder id : string) (answer : ServerRequestAnswer)
    (scopes : list ResponderScope) (b : ServerRequestBroker) : ResponseOutcome * ServerRequestBroker :=
  match records b !! id with
  | None => (UnknownRequest id, b)
  | Some r =>
      let r := if bool_decide (pd_responders r !! responder = None)
                  && record_matches_responder r responder scopes
               then mark_responder_eligible responder r else r in
      let b := set_records (<[id := r]> (records b)) b in
      match pd_responders r !! responder with
      | Some Stale => (StaleRequest id responder, b)
      | None => (UnauthorizedResponder id responder, b)
      | Some Eligible | Some Delivered =>
          match pd_status r with
          | Resolved => (AlreadyResolved id, b)
          | Interrupted => (ResponseInterrupted id, b)
          | Pending =>
              match answer with
              | AnswerInvalid message => (InvalidResponse id responder message, b)
              | AnswerResult value =>
                  (ResponseAccepted id (pr_scope (pd_snapshot r)) responder value,
                   set_records (<[id := set_status Resolved r]> (records b)) b)
              end
          end
      end
  end.

Definition handle_response (responder id : string) (answer : ServerRequestAnswer)
    (b : ServerRequestBroker) : ResponseOutcome * ServerRequestBroker :=
  handle_response_from_scopes responder id answer [] b.

(** [interrupt_request] and [resolve_request_without_responder]. *)
Definition finish_request (s : RequestStatus) (id : string) (b : ServerRequestBroker)
  : option PendingRequestScope * ServerRequestBroker :=
  match records b !! id with
  | None => (None, b)
  | Some r =>
      if bool_decide (pd_status r <> Pending) then (None, b)
      else (Some (pr_scope (pd_snapshot r)), set_records (<[id := set_status s r]> (records b)) b)
  end.

Definition interrupt_request (id : string) (b : ServerRequestBroker)
  : option PendingRequestScope * ServerRequestBroker := finish_request Interrupted id b.

Definition resolve_request_without_responder (id : string) (b : ServerRequestBroker)
  : option PendingRequestScope * ServerRequestBroker := finish_request Resolved id b.

Definition defer_deliveries (deliveries : list ServerRequestDelivery) (b : ServerRequestBroker)
  : ServerRequestBroker :=
  foldl (fun b d =>
    match records b !! env_request_id (rd_envelope d) with
    | Some r => set_records (<[env_request_id (rd_envelope d) :=
                    mark_responder_eligible (d_client (rd_delivery d)) r]> (records b)) b
    | None => b
    end) b deliveries.

(** ** Client lifecycle *)

Definition interrupted_outcome (r : PendingRecord) : RequestLifecycleOutcome :=
  RequestInterrupted (pr_request_id (pd_snapshot r)) (pr_scope (pd_snapshot r)).

(** A loop over [values_mut] that interrupts the records [P] selects and
    reports them, and changes the others by [other]. *)
Definition interrupt_where (P : PendingRecord -> bool) (other : PendingRecord -> PendingRecord)
    (b : ServerRequestBroker) : list RequestLifecycleOutcome * ServerRequestBroker :=
  (interrupted_outcome <$> filter (fun r => P r = true) (map_to_list (records b)).*2,
   set_records ((fun r => if P r then set_status Interrupted r else other r) <$> records b) b).

Definition is_pending (r : PendingRecord) : bool := bool_decide (pd_status r = Pending).

Definition observe_responder_unavailable (client : string) (b : ServerRequestBroker)
  : list RequestLifecycleOutcome * ServerRequestBroker :=
  interrupt_where
    (fun r => is_pending r && bool_decide (pr_scope (pd_snapshot r) = ScopeClient client))
    (fun r => if is_pending r && negb (is_client_scope (pr_scope (pd_snapshot r)))
              then mark_responder_stale client r else r)
    (set_available (delete client (available_responders b)) b).

Definition observe_transport_unavailable (client : string) (b : ServerRequestBroker)
  : list RequestLifecycleOutcome * ServerRequestBroker := observe_responder_unavailable client b.

Definition observe_client_expired (client : string) (b : ServerRequestBroker)
  : list RequestLifecycleOutcome * ServerRequestBroker := observe_responder_unavailable client b.

(** One request of the loop of [observe_responder_available]. *)
Definition offer_request (d : Delivery) (acc : list ServerRequestDelivery * ServerRequestBroker)
    (id : string) : list ServerRequestDelivery * ServerRequestBroker :=
  let '(out, b) := acc in
  let b := match records b !! id with
           | Some r => set_records (<[id := mark_responder_eligible (d_client d) r]> (records b)) b
           | None => b
           end in
  let '(more, b) := mark_and_build_deliveries id [d] b in
  (out ++ more, b).

Definition offered (d : Delivery) (scopes : list ResponderScope) (r : PendingRecord) : bool :=
  is_pending r && can_deliver_to r (d_client d) && supports_method d (pd_method r) &&
  record_matches_responder r (d_client d) scopes.

Definition observe_responder_available (d : Delivery) (scopes : list ResponderScope)
    (b : ServerRequestBroker) : list ServerRequestDelivery * ServerRequestBroker :=
  let b := set_available (<[d_client d := mkResponder d scopes]> (available_responders b)) b in
  let ids := (filter (fun kv : string * PendingRecord => offered d scopes kv.2 = true)
                (map_to_list (records b))).*1 in
  foldl (offer_request d) ([], b) ids.

Definition observe_client_initialized_or_reattached (d : Delivery) (scopes : list ResponderScope)
    (b : ServerRequestBroker) : list ServerRequestDelivery * ServerRequestBroker :=
  observe_responder_available d scopes b.

Definition observe_capability_available (d : Delivery) (scopes : list ResponderScope)
    (b : ServerRequestBroker) : list ServerRequestDelivery * ServerRequestBroker :=
  observe_responder_available d scopes b.

Definition observe_subscription_added (d : Delivery) (task_id : string) (b : ServerRequestBroker)
  : list ServerRequestDelivery * ServerRequestBroker :=
  let scopes := match available_responders b !! d_client d with
                | Some a => ar_scopes a
                | None => [ResponderClient (d_client d)]
                end in
  let scopes := if bool_decide (ResponderTask task_id ∈ scopes) then scopes
                else scopes ++ [ResponderTask task_id] in
  observe_responder_available d scopes b.

Definition observe_subscription_removed (client task_id : string) (b : ServerRequestBroker)
  : list RequestLifecycleOutcome * ServerRequestBroker :=
  let '(scopes, b) :=
    match available_responders b !! client with
    | Some a =>
        let scopes := filter (fun s => s <> ResponderTask task_id) (ar_scopes a) in
        (scopes, set_available (<[client := mkResponder (ar_delivery a) scopes]>
                                  (available_responders b)) b)
    | None => ([], b)
    end in
  ([], set_records
    ((fun r =>
        if is_pending r && bool_decide (pr_scope (pd_snapshot r) = ScopeTask task_id) &&
           negb (record_matches_responder r client scopes)
        then mark_responder_stale client r else r) <$> records b) b).

Definition observe_capability_unavailable (client : string) (scopes : list ResponderScope)
    (b : ServerRequestBroker) : list RequestLifecycleOutcome * ServerRequestBroker :=
  let b := match available_responders b !! client with
           | Some a =>
               let d := ar_delivery a in
               set_available (<[client := mkResponder (mkDelivery (d_client d) (d_connection d) [])
                                            (ar_scopes a)]> (available_responders b)) b
           | None => b
           end in
  ([], set_records
    ((fun r => if is_pending r && record_matches_responder r client scopes
               then mark_responder_stale client r else r) <$> records b) b).

Definition interrupt_scope (scope : PendingRequestScope) (b : ServerRequestBroker)
  : list RequestLifecycleOutcome * ServerRequestBroker :=
  interrupt_where (fun r => is_pending r && bool_decide (pr_scope (pd_snapshot r) = scope))
    (fun r => r) b.

Definition fail_scope (scope : PendingRequestScope) (b : ServerRequestBroker)
  : list RequestLifecycleOutcome * ServerRequestBroker := interrupt_scope scope b.

Definition observe_task_completed (task_id : string) (b : ServerRequestBroker)
  : list RequestLifecycleOutcome * ServerRequestBroker := interrupt_scope (ScopeTask task_id) b.

Definition request_id_le (a b : PendingRequestSnapshot) : Prop :=
  String.leb (pr_request_id a) (pr_request_id b) = true.
#[global] Instance request_id_le_dec a b : Decision (request_id_le a b).
Proof. unfold request_id_le. apply _. Defined.

Definition pending_snapshots (matches_scope : PendingRequestScope -> bool) (b : ServerRequestBroker)
  : list PendingRequestSnapshot :=
  merge_sort request_id_le
    (pd_snapshot <$> filter (fun r => is_pending r && matches_scope (pr_scope (pd_snapshot r)) = true)
       (map_to_list (records b)).*2).

Definition pending_for_client (client : string) (b : ServerRequestBroker) : list PendingRequestSnapshot :=
  pending_snapshots (fun scope => bool_decide (scope = ScopeClient client)) b.

Definition pending_for_task (task_id : string) (b : ServerRequestBroker) : list PendingRequestSnapshot :=
  pending_snapshots (fun scope => bool_decide (scope = ScopeTask task_id)) b.

Definition pending_count (b : ServerRequestBroker) : nat :=
  length (filter (fun r => is_pending r = true) (map_to_list (records b)).*2).

(** ** Executions *)

Inductive BrokerOp :=
| OpOpen (draft : ServerRequestDraft) (eligible : list Delivery) (now_string : string)
| OpRespond (responder id : string) (answer : ServerRequestAnswer) (scopes : list ResponderScope)
| OpInterrupt (id : string)
| OpResolve (id : string)
| OpForgetAuthTerminal (id : string)
| OpDefer (deliveries : list ServerRequestDelivery)
| OpUnavailable (client : string)
| OpAvailable (d : Delivery) (scopes : list ResponderScope)
| OpSubscriptionAdded (d : Delivery) (task_id : string)
| OpSubscriptionRemoved (client task_id : string)
| OpCapabilityUnavailable (client : string) (scopes : list ResponderScope)
| OpInterruptScope (scope : PendingRequestScope).

(** What an observer sees: a request sent to a client, and the end of a request. *)
Inductive BrokerEvent :=
| Sent (id client : string)
| Ended (id : string).

Definition sent_event (d : ServerRequestDelivery) : BrokerEvent :=
  Sent (env_request_id (rd_envelope d)) (d_client (rd_delivery d)).

Definition ended_event (o : RequestLifecycleOutcome) : BrokerEvent :=
  match o with RequestInterrupted id _ => Ended id end.

Definition step (op : BrokerOp) (b : ServerRequestBroker) : list BrokerEvent * ServerRequestBroker :=
  match op with
  | OpOpen draft eligible now =>
      let '(o, b) := open draft eligible now b in
      (match o with Opened _ deliveries => sent_event <$> deliveries | Unavailable _ => [] end, b)
  | OpRespond responder id answer scopes =>
      let '(o, b) := handle_response_from_scopes responder id answer scopes b in
      (match o with ResponseAccepted id _ _ _ => [Ended id] | _ => [] end, b)
  | OpInterrupt id =>
      let '(o, b) := interrupt_request id b in
      (match o with Some _ => [Ended id] | None => [] end, b)
  | OpResolve id =>
      let '(o, b) := resolve_request_without_responder id b in
      (match o with Some _ => [Ended id] | None => [] end, b)
  | OpForgetAuthTerminal id => ([], forget_auth_terminal_exchange id b)
  | OpDefer deliveries => ([], defer_deliveries deliveries b)
  | OpUnavailable client =>
      let '(o, b) := observe_responder_unavailable client b in (ended_event <$> o, b)
  | OpAvailable d scopes =>
      let '(o, b) := observe_responder_available d scopes b in (sent_event <$> o, b)
  | OpSubscriptionAdded d task_id =>
      let '(o, b) := observe_subscription_added d task_id b in (sent_event <$> o, b)
  | OpSubscriptionRemoved client task_id =>
      let '(o, b) := observe_subscription_removed client task_id b in (ended_event <$> o, b)
  | OpCapabilityUnavailable client scopes =>
      let '(o, b) := observe_capability_unavailable client scopes b in (ended_event <$> o, b)
  | OpInterruptScope scope =>
      let '(o, b) := interrupt_scope scope b in (ended_event <$> o, b)
  end.

Fixpoint run (ops : list BrokerOp) (b : ServerRequestBroker) : list BrokerEvent * ServerRequestBroker :=
  match ops with
  | [] => ([], b)
  | op :: ops =>
      let '(out, b) := step op b in
      let '(outs, b) := run ops b in (out ++ outs, b)
  end.

(** ** How requests evolve *)

(** Identity is fixed, and a request that has ended stays as it ended. *)
Record evolves (r r' : PendingRecord) : Prop := {
  ev_snapshot : pd_snapshot r' = pd_snapshot r;
  ev_method : pd_method r' = pd_method r;
  ev_params : pd_params r' = pd_params r;
  ev_status : pd_status r <> Pending -> pd_status r' = pd_status r;
}.

#[local] Instance evolves_preorder : PreOrder evolves.
Proof.
  split; [done|]. intros r1 r2 r3 [H1 H2 H3 H4] [H5 H6 H7 H8].
  split; try congruence. intros Hs. rewrite H8; [by apply H4|]. by rewrite H4.
Qed.

Lemma evolves_set_responder c s r : evolves r (set_responder c s r).
Proof. done. Qed.

Lemma evolves_stale c r : evolves r (mark_responder_stale c r).
Proof. unfold mark_responder_stale. split_test; [apply evolves_set_responder|done]. Qed.

Lemma evolves_set_status s r : pd_status r = Pending -> evolves r (set_status s r).
Proof. by split. Qed.

(** Steps that neither open nor forget a request. *)
Record same_requests (b b' : ServerRequestBroker) : Prop := {
  sq_next : next_request_id b' = next_request_id b;
  sq_records : forall id, match records b !! id, records b' !! id with
                          | Some r, Some r' => evolves r r'
                          | None, None => True
                          | _, _ => False
                          end;
}.

#[local] Instance same_requests_preorder : PreOrder same_requests.
Proof.
  split.
  - intros b. split; [done|]. intros id. by destruct (records b !! id).
  - intros b1 b2 b3 [H1 H2] [H3 H4]. split; [congruence|]. intros id. specialize (H2 id). specialize (H4 id).
    destruct (records b1 !! id), (records b2 !! id), (records b3 !! id); try done. by etrans.
Qed.

Lemma same_requests_available m b : same_requests b (set_available m b).
Proof. split; [done|]. intros id. cbn. by destruct (records b !! id). Qed.

Lemma same_requests_insert id r r' b :
  records b !! id = Some r -> evolves r r' ->
  same_requests b (set_records (<[id := r']> (records b)) b).
Proof.
  intros Hr He. split; [done|]. intros j. cbn. rewrite lookup_insert. case_decide.
  - subst. by rewrite Hr.
  - by destruct (records b !! j).
Qed.

Lemma same_requests_fmap f b :
  (forall r, evolves r (f r)) -> same_requests b (set_records (f <$> records b) b).
Proof.
  intros Hf. split; [done|]. intros id. cbn. rewrite lookup_fmap.
  destruct (records b !! id); [apply Hf|done].
Qed.

Lemma same_requests_mark_and_build id ds b :
  same_requests b (mark_and_build_deliveries id ds b).2.
Proof.
  unfold mark_and_build_deliveries. destruct (records b !! id) as [r|] eqn:Hr; [|done].
  cbn. apply (same_requests_insert _ r); [done|].
  generalize (filter (fun d => can_deliver_to r (d_client d) = true) (scan_unseen [] ds)).
  intros l. assert (evolves r r) as He by done. revert He. generalize r at 2 4.
  induction l as [|d l IH]; cbn; [done|]. intros r' He. apply IH. etrans; [exact He|apply evolves_set_responder].
Qed.

Lemma same_requests_offers d ids acc :
  same_requests acc.2 (foldl (offer_request d) acc ids).2.
Proof.
  revert acc. induction ids as [|id ids IH]; intros [out b]; [done|]. cbn [foldl].
  etrans; [|apply IH]. unfold offer_request.
  set (b1 := match records b !! id with Some _ => _ | None => _ end).
  pose proof (same_requests_mark_and_build id [d] b1) as Hm.
  destruct (mark_and_build_deliveries id [d] b1) as [more b2]. cbn in *. etrans; [|exact Hm].
  unfold b1. destruct (records b !! id) eqn:Hr; [|done].
  eapply same_requests_insert; [done|apply evolves_set_responder].
Qed.

Lemma same_requests_interrupt_where P other b :
  (forall r, P r = true -> pd_status r = Pending) -> (forall r, evolves r (other r)) ->
  same_requests b (interrupt_where P other b).2.
Proof.
  intros HP Ho. apply same_requests_fmap. intros r. destruct (P r) eqn:E; [|done].
  by apply evolves_set_status, HP.
Qed.

Lemma same_requests_defer ds b : same_requests b (defer_deliveries ds b).
Proof.
  unfold defer_deliveries. revert b. induction ds as [|d ds IH]; intros b; [done|]. cbn [foldl].
  etrans; [|apply IH]. destruct (records b !! _) eqn:Hr; [|done].
  eapply same_requests_insert; [done|apply evolves_set_responder].
Qed.

Lemma same_requests_respond responder id answer scopes b :
  same_requests b (handle_response_from_scopes responder id answer scopes b).2.
Proof.
  unfold handle_response_from_scopes. destruct (records b !! id) as [r|] eqn:Hr; [|done].
  set (r1 := if bool_decide (pd_responders r !! responder = None) &&
                record_matches_responder r responder scopes
             then mark_responder_eligible responder r else r).
  assert (evolves r r1) as He by (unfold r1; destruct (_ && _); [apply evolves_set_responder|done]).
  assert (same_requests b (set_records (<[id := r1]> (records b)) b)) as Hb
    by by apply (same_requests_insert _ r).
  destruct (pd_responders r1 !! responder) as [[]|]; try done;
    (destruct (pd_status r1) eqn:Hs; try done; destruct answer; [|done]; cbn; etrans; [exact Hb|];
     apply (same_requests_insert _ r1); [apply lookup_insert_eq|by apply evolves_set_status]).
Qed.
(** ** Delivery *)

Definition build_delivery (id : string) (r : PendingRecord) (d : Delivery) : ServerRequestDelivery :=
  mkRequestDelivery d
    (mkRequestEnvelope Value id (pr_scope (pd_snapshot r)) (pd_method r) (pd_params r)).

Lemma scan_unseen_spec seen ds :
  NoDup (d_client <$> scan_unseen seen ds) /\
  (forall d, d ∈ scan_unseen seen ds -> d ∈ ds /\ d_client d ∉ seen) /\
  (NoDup (d_client <$> ds) -> (forall d, d ∈ ds -> d_client d ∉ seen) -> scan_unseen seen ds = ds).
Proof.
  revert seen. induction ds as [|d ds IH]; intros seen; cbn.
  { split; [constructor|]. split; [|done]. by intros d Hd%elem_of_nil. }
  destruct (IH (d_client d :: seen)) as (H1 & H2 & H3). split_test.
  - split; [constructor|]. split; [by intros x Hx%elem_of_nil|]. intros _ Hs. exfalso.
    apply (Hs d); [left|done].
  - split; [|split].
    + cbn. apply NoDup_cons. split; [|done]. intros (x & Hx & Hin)%list_elem_of_fmap.
      destruct (H2 _ Hin) as [_ Hns]. apply Hns. rewrite Hx. left.
    + intros x [->|Hx]%elem_of_cons; [split; [left|done]|]. destruct (H2 _ Hx) as [Hin Hns].
      split; [by right|]. set_solver.
    + intros [Hn1 Hn2]%NoDup_cons Hs. f_equal. apply H3; [done|]. intros x Hx [Heq|Hseen]%elem_of_cons.
      * apply Hn1, list_elem_of_fmap. by exists x.
      * apply (Hs x); [by right|done].
Qed.

Lemma mark_all_delivered ds r c :
  pd_responders (foldl (fun r d => mark_responder_delivered (d_client d) r) r ds) !! c
  = if bool_decide (c ∈ d_client <$> ds) then Some Delivered else pd_responders r !! c.
Proof.
  revert r. induction ds as [|d ds IH]; intros r; [done|]. cbn [foldl]. rewrite IH. cbn.
  rewrite lookup_insert.
  rewrite (bool_decide_ext (c ∈ d_client d :: (d_client <$> ds))
             (c = d_client d \/ c ∈ d_client <$> ds)) by apply elem_of_cons.
  rewrite bool_decide_or. destruct (bool_decide (c ∈ d_client <$> ds)); [by rewrite orb_true_r|].
  rewrite orb_false_r. split_test; case_decide; congruence.
Qed.

(** [mark_and_build_deliveries] sends to distinct clients that were not sent the
    request before and marks exactly those. *)
Lemma mark_and_build_spec id r ds b :
  records b !! id = Some r ->
  exists sent r', mark_and_build_deliveries id ds b
    = (build_delivery id r <$> sent, set_records (<[id := r']> (records b)) b) /\
    evolves r r' /\ pd_status r' = pd_status r /\
    NoDup (d_client <$> sent) /\
    (forall d, d ∈ sent -> d ∈ ds /\ pd_responders r !! d_client d <> Some Delivered) /\
    (forall c, pd_responders r' !! c
       = if bool_decide (c ∈ d_client <$> sent) then Some Delivered else pd_responders r !! c) /\
    (NoDup (d_client <$> ds) -> sent = filter (fun d => can_deliver_to r (d_client d) = true) ds).
Proof.
  intros Hr. unfold mark_and_build_deliveries. rewrite Hr.
  destruct (scan_unseen_spec [] ds) as (Hnd & Hin & Hall).
  set (sent := filter (fun d => can_deliver_to r (d_client d) = true) (scan_unseen [] ds)).
  exists sent, (foldl (fun r d => mark_responder_delivered (d_client d) r) r sent).
  split; [done|].
  assert (forall ds r0, evolves r0 (foldl (fun r d => mark_responder_delivered (d_client d) r) r0 ds) /\
    pd_status (foldl (fun r d => mark_responder_delivered (d_client d) r) r0 ds) = pd_status r0) as Hev.
  { clear. induction ds as [|d ds IH]; intros r0; [done|]. cbn. destruct (IH (mark_responder_delivered (d_client d) r0)).
    split; [|done]. etrans; [apply (evolves_set_responder (d_client d) Delivered)|done]. }
  destruct (Hev sent r) as [He Hs]. split; [exact He|]. split; [exact Hs|]. split; [|split; [|split]].
  - eapply sublist_NoDup; [exact Hnd|]. apply fmap_sublist, sublist_filter.
  - intros d [Hc Hd]%list_elem_of_filter. split; [by apply Hin|]. unfold can_deliver_to in Hc.
    by apply negb_true_iff, bool_decide_eq_false in Hc.
  - intros c. apply mark_all_delivered.
  - intros Hds. unfold sent. rewrite Hall; [done|done|]. intros d _ Hd%elem_of_nil. done.
Qed.

Lemma offer_request_spec d id r out b :
  records b !! id = Some r ->
  offer_request d (out, b) id
  = (out ++ [build_delivery id r d],
     set_records (<[id := set_responder (d_client d) Delivered r]> (records b)) b).
Proof.
  intros Hr. unfold offer_request. rewrite Hr. unfold mark_and_build_deliveries. cbn.
  rewrite lookup_insert_eq. cbn. rewrite bool_decide_eq_false_2 by (intros ?%elem_of_nil; done).
  rewrite filter_cons_True.
  2: { unfold can_deliver_to. cbn. rewrite lookup_insert_eq. by rewrite bool_decide_eq_false_2. }
  cbn. f_equal. unfold set_records. cbn. f_equal. rewrite insert_insert_eq. f_equal.
  unfold mark_responder_delivered, mark_responder_eligible, set_responder. cbn. by rewrite insert_insert_eq.
Qed.

Lemma offers_spec d ids out b :
  NoDup ids -> (forall id, id ∈ ids -> is_Some (records b !! id)) ->
  let '(out', b') := foldl (offer_request d) (out, b) ids in
  out' = out ++ omap (fun id => (fun r => build_delivery id r d) <$> records b !! id) ids /\
  next_request_id b' = next_request_id b /\ available_responders b' = available_responders b /\
  forall id, records b' !! id
    = if bool_decide (id ∈ ids) then set_responder (d_client d) Delivered <$> records b !! id
      else records b !! id.
Proof.
  intros Hnd. revert out b. induction Hnd as [|id ids Hnin Hnd IH]; intros out b Hin.
  { cbn. by rewrite app_nil_r. }
  destruct (Hin id) as [r Hr]; [left|]. cbn [foldl]. rewrite (offer_request_spec d id r) by done.
  set (b1 := set_records _ b).
  specialize (IH (out ++ [build_delivery id r d]) b1).
  destruct (foldl (offer_request d) (out ++ [build_delivery id r d], b1) ids) as [out' b'].
  destruct IH as (-> & Hn & Ha & Hrec).
  { intros j Hj. cbn. rewrite lookup_insert_ne; [apply Hin; by right|set_solver]. }
  split; [|split; [done|split; [done|]]].
  - cbn. rewrite Hr. cbn. rewrite <- app_assoc. cbn. do 2 f_equal. apply list_omap_ext, Forall2_same_length_lookup.
    split; [done|]. intros i j k Hj Hk. simplify_eq. cbn. rewrite lookup_insert_ne; [done|].
    intros ->. apply Hnin. by eapply list_elem_of_lookup_2.
  - intros j. rewrite Hrec. cbn.
    rewrite (bool_decide_ext (j ∈ id :: ids) (j = id \/ j ∈ ids)) by apply elem_of_cons.
    rewrite bool_decide_or. destruct (bool_decide_reflect (j = id)) as [->|Hne]; cbn.
    + rewrite bool_decide_eq_false_2 by done. by rewrite lookup_insert_eq, Hr.
    + by rewrite !lookup_insert_ne by done.
Qed.

(** The requests [observe_responder_available] offers. *)
Definition offered_ids (d : Delivery) (scopes : list ResponderScope) (b : ServerRequestBroker) : list string :=
  (filter (fun kv : string * PendingRecord => offered d scopes kv.2 = true) (map_to_list (records b))).*1.

Lemma elem_of_offered_ids d scopes b id :
  id ∈ offered_ids d scopes b <-> exists r, records b !! id = Some r /\ offered d scopes r = true.
Proof.
  unfold offered_ids. rewrite list_elem_of_fmap. split.
  - intros ([j r] & -> & [Ho Hin%elem_of_map_to_list]%list_elem_of_filter). eauto.
  - intros (r & Hr & Ho). exists (id, r). split; [done|]. apply list_elem_of_filter.
    split; [done|]. by apply elem_of_map_to_list.
Qed.

Lemma offered_ids_nodup d scopes b : NoDup (offered_ids d scopes b).
Proof.
  unfold offered_ids. apply (sublist_NoDup _ (map_to_list (records b)).*1); [apply NoDup_fst_map_to_list|].
  apply fmap_sublist, sublist_filter.
Qed.
(** ** Opening *)

(** [open] either leaves the requests alone or adds one under the next id, sent
    to distinct clients. *)
Lemma open_spec draft eligible now b :
  let '(o, b') := open draft eligible now b in
  match o with
  | Unavailable _ => next_request_id b' = next_request_id b /\ records b' = records b
  | Opened snapshot ds =>
      let id := request_id_string (next_request_id b) in
      next_request_id b' = u64_add (next_request_id b) 1 /\
      exists r' sent, records b' = <[id := r']> (records b) /\
        pd_snapshot r' = snapshot /\ pr_request_id snapshot = id /\ pd_status r' = Pending /\
        ds = build_delivery id r' <$> sent /\ NoDup (d_client <$> sent) /\
        (forall d, d ∈ sent -> pd_responders r' !! d_client d = Some Delivered)
  end.
Proof.
  unfold open. destruct (classify_request_method (dr_method draft)) as [kind|]; [|done].
  set (el := filter_eligible_deliveries _ _ _). set (b0 := set_available _ b).
  set (av := available_deliveries _ _ _). destruct (_ && _); [done|].
  cbn [allocate_request_id]. set (id := request_id_string (next_request_id b0)).
  set (snapshot := mkPendingSnapshot id _ _ _ _ _ _).
  set (r := new_record snapshot _ _ _). set (b1 := set_records _ _).
  destruct (mark_and_build_spec id r (el ++ av) b1) as (sent & r' & Heq & [E1 E2 E3 _] & Hst & Hnd & Hin & Hresp & _).
  { apply lookup_insert_eq. }
  rewrite Heq. cbv zeta. split; [done|]. exists r', sent.
  split; [unfold b1; cbn; by rewrite insert_insert_eq|]. split; [done|]. split; [done|].
  split; [done|]. split; [|split; [done|]].
  - apply list_fmap_ext. intros i d _. unfold build_delivery. by rewrite E1, E2, E3.
  - intros d Hd. rewrite Hresp, bool_decide_eq_true_2; [done|]. apply list_elem_of_fmap. eauto.
Qed.

(** ** What one operation does *)

Definition ended (events : list BrokerEvent) : list string :=
  omap (fun e => match e with Ended id => Some id | Sent _ _ => None end) events.

Lemma ended_sent ds : ended (sent_event <$> ds) = [].
Proof. induction ds; done. Qed.

Lemma ended_outcomes os :
  ended (ended_event <$> os) = (fun o => match o with RequestInterrupted id _ => id end) <$> os.
Proof. unfold ended. induction os as [|[id sc] os IH]; [done|]. cbn. by rewrite IH. Qed.

(** Requests are stored under their own id. *)
Definition keyed (b : ServerRequestBroker) : Prop :=
  forall id r, records b !! id = Some r -> pr_request_id (pd_snapshot r) = id.

Record step_ok (b : ServerRequestBroker) (out : list BrokerEvent) (b' : ServerRequestBroker) : Prop := {
  so_records : forall id r', records b' !! id = Some r' ->
    (exists r, records b !! id = Some r /\ evolves r r') \/
    (next_request_id b' = u64_add (next_request_id b) 1 /\
     id = request_id_string (next_request_id b) /\ pr_request_id (pd_snapshot r') = id);
  so_next : next_request_id b' = next_request_id b \/ next_request_id b' = u64_add (next_request_id b) 1;
  so_ended_nodup : NoDup (ended out);
  so_ended : forall id, id ∈ ended out -> exists r r', records b !! id = Some r /\ pd_status r = Pending /\
    records b' !! id = Some r' /\ pd_status r' <> Pending;
}.

Lemma step_ok_same b b' out : same_requests b b' -> ended out = [] -> step_ok b out b'.
Proof.
  intros [Hn Hr] He. split; rewrite ?He; [|by left|constructor|by intros id ?%elem_of_nil].
  intros id r' Hr'. left. specialize (Hr id). rewrite Hr' in Hr.
  destruct (records b !! id) as [r|]; [eauto|done].
Qed.

Lemma step_ok_available m b out b' : step_ok (set_available m b) out b' -> step_ok b out b'.
Proof. by intros [? ? ? ?]. Qed.

Lemma step_ok_one b b' id r r' :
  same_requests b b' -> records b !! id = Some r -> pd_status r = Pending ->
  records b' !! id = Some r' -> pd_status r' <> Pending -> step_ok b [Ended id] b'.
Proof.
  intros Hs Hr Hp Hr' Hp'. destruct (step_ok_same b b' [] Hs eq_refl) as [S1 S2 _ _].
  split; [done|done|cbn; apply NoDup_singleton|]. intros j Hj. cbn in Hj.
  apply list_elem_of_singleton in Hj as ->. eauto 7.
Qed.

Lemma interrupt_where_ok P other b :
  keyed b -> (forall r, P r = true -> pd_status r = Pending) -> (forall r, evolves r (other r)) ->
  step_ok b (ended_event <$> (interrupt_where P other b).1) (interrupt_where P other b).2.
Proof.
  intros Hk HP Ho. pose proof (same_requests_interrupt_where P other b HP Ho) as Hs.
  destruct (step_ok_same b _ [] Hs eq_refl) as [S1 S2 _ _].
  assert (ended (ended_event <$> (interrupt_where P other b).1)
    = (fun r => pr_request_id (pd_snapshot r)) <$> filter (fun r => P r = true) (map_to_list (records b)).*2) as He.
  { rewrite ended_outcomes. unfold interrupt_where. cbn. by rewrite <- list_fmap_compose. }
  assert (forall r, r ∈ (map_to_list (records b)).*2 -> records b !! pr_request_id (pd_snapshot r) = Some r) as Hin.
  { intros r ([j r'] & -> & Hj%elem_of_map_to_list)%list_elem_of_fmap. cbn. by rewrite (Hk _ _ Hj). }
  split; [done|done| |]; rewrite He.
  - apply (sublist_NoDup _ ((fun r => pr_request_id (pd_snapshot r)) <$> (map_to_list (records b)).*2)).
    2: { apply fmap_sublist, sublist_filter. }
    replace ((fun r => pr_request_id (pd_snapshot r)) <$> (map_to_list (records b)).*2)
      with (map_to_list (records b)).*1; [apply NoDup_fst_map_to_list|].
    rewrite <- list_fmap_compose. apply list_fmap_ext. intros i [j r] Hj%list_elem_of_lookup_2%elem_of_map_to_list.
    cbn. by rewrite (Hk _ _ Hj).
  - intros id (r & -> & [HPr Hr%Hin]%list_elem_of_filter)%list_elem_of_fmap.
    exists r, (set_status Interrupted r). split; [done|]. split; [by apply HP|]. split; [|done].
    unfold interrupt_where. cbn. rewrite lookup_fmap, Hr. cbn. by rewrite HPr.
Qed.
Lemma respond_ok responder id answer scopes b :
  step_ok b (step (OpRespond responder id answer scopes) b).1 (step (OpRespond responder id answer scopes) b).2.
Proof.
  pose proof (same_requests_respond responder id answer scopes b) as Hs. cbn.
  destruct (handle_response_from_scopes responder id answer scopes b) as [o b'] eqn:E. cbn in *.
  destruct o; try by apply step_ok_same.
  unfold handle_response_from_scopes in E. destruct (records b !! id) as [r|] eqn:Hr; [|done].
  set (r1 := if bool_decide _ && _ then _ else _) in E.
  assert (pd_status r1 = pd_status r) as Hst by (unfold r1; by destruct (_ && _)).
  destruct (pd_responders r1 !! responder) as [[]|]; try done;
    (destruct (pd_status r1) eqn:Hp; try done; destruct answer; simplify_eq/=;
     eapply step_ok_one; [done|done|congruence|apply lookup_insert_eq|done]).
Qed.

Lemma finish_ok s id b :
  s <> Pending ->
  step_ok b (match (finish_request s id b).1 with Some _ => [Ended id] | None => [] end)
    (finish_request s id b).2.
Proof.
  intros Hs. unfold finish_request. destruct (records b !! id) as [r|] eqn:Hr; [|by apply step_ok_same].
  split_test; cbn; [by apply step_ok_same|]. apply dec_stable in n.
  eapply (step_ok_one _ _ _ r); [eapply same_requests_insert; [done|by apply evolves_set_status]|done|done
    |apply lookup_insert_eq|done].
Qed.

Lemma available_same d scopes b : same_requests b (observe_responder_available d scopes b).2.
Proof.
  unfold observe_responder_available. etrans; [|apply same_requests_offers]. apply same_requests_available.
Qed.

Lemma forget_ok id b : step_ok b [] (forget_auth_terminal_exchange id b).
Proof.
  unfold forget_auth_terminal_exchange. destruct (is_auth_terminal_exchange id b); [|by apply step_ok_same].
  split; [|by left|constructor|by intros j ?%elem_of_nil]. cbn.
  intros j r' [_ Hj]%lookup_delete_Some. left. by exists r'.
Qed.

Lemma open_ok draft eligible now b :
  step_ok b (step (OpOpen draft eligible now) b).1 (step (OpOpen draft eligible now) b).2.
Proof.
  cbn. pose proof (open_spec draft eligible now b) as Ho. destruct (open draft eligible now b) as [o b']. cbn.
  destruct o as [snapshot ds|reason].
  - destruct Ho as (Hn & r' & sent & Hr & Hsn & Hid & _ & _ & _ & _).
    split; [|by right|rewrite ended_sent; constructor|rewrite ended_sent; by intros j ?%elem_of_nil].
    intros j w. rewrite Hr, lookup_insert. case_decide; [|intros Hw; left; by exists w].
    intros [= <-]. subst j. right. rewrite Hsn. done.
  - destruct Ho as [Hn Hr]. apply step_ok_same; [|done]. split; [done|]. intros j. rewrite Hr.
    by destruct (records b !! j).
Qed.

Lemma stale_where_same (P : PendingRecord -> bool) client b :
  same_requests b (set_records ((fun r => if P r then mark_responder_stale client r else r) <$> records b) b).
Proof. apply same_requests_fmap. intros r. destruct (P r); [apply evolves_stale|done]. Qed.

Lemma step_step_ok op b : keyed b -> step_ok b (step op b).1 (step op b).2.
Proof.
  intros Hk. destruct op; cbn [step].
  - apply open_ok.
  - apply respond_ok.
  - pose proof (finish_ok Interrupted id b) as Hf. unfold interrupt_request.
    destruct (finish_request Interrupted id b). by apply Hf.
  - pose proof (finish_ok Resolved id b) as Hf. unfold resolve_request_without_responder.
    destruct (finish_request Resolved id b). by apply Hf.
  - apply forget_ok.
  - apply step_ok_same; [apply same_requests_defer|done].
  - pose proof (interrupt_where_ok
      (fun r => is_pending r && bool_decide (pr_scope (pd_snapshot r) = ScopeClient client))
      (fun r => if is_pending r && negb (is_client_scope (pr_scope (pd_snapshot r)))
                then mark_responder_stale client r else r)
      (set_available (delete client (available_responders b)) b)) as Hi.
    unfold observe_responder_unavailable. destruct (interrupt_where _ _ _) as [o b'].
    eapply step_ok_available, Hi.
    + done.
    + intros r Hr. unfold is_pending in Hr. by simp_all.
    + intros r. destruct (_ && _); [apply evolves_stale|done].
  - pose proof (available_same d scopes b) as Hs. destruct (observe_responder_available d scopes b).
    apply step_ok_same; [done|apply ended_sent].
  - unfold observe_subscription_added. set (sc := if bool_decide _ then _ else _).
    pose proof (available_same d sc b) as Hs. destruct (observe_responder_available d sc b).
    apply step_ok_same; [done|apply ended_sent].
  - unfold observe_subscription_removed. destruct (available_responders b !! client);
      (apply step_ok_same; [|done]); [|apply stale_where_same].
    etrans; [apply same_requests_available|apply (stale_where_same _ client (set_available _ b))].
  - unfold observe_capability_unavailable. cbn. apply step_ok_same; [|done].
    destruct (available_responders b !! client); [|apply stale_where_same].
    etrans; [apply same_requests_available|apply (stale_where_same _ client (set_available _ b))].
  - unfold interrupt_scope. pose proof (interrupt_where_ok
      (fun r => is_pending r && bool_decide (pr_scope (pd_snapshot r) = scope)) (fun r => r) b) as Hi.
    destruct (interrupt_where _ _ _) as [o b']. apply Hi; [done| |done].
    intros r Hr. unfold is_pending in Hr. by simp_all.
Qed.

(** ** A request ends at most once *)

Definition issued (b : ServerRequestBroker) (id : string) : Prop :=
  exists k, 1 <= k < next_request_id b /\ id = request_id_string k.

Record trace_inv (n : nat) (events : list BrokerEvent) (b : ServerRequestBroker) : Prop := {
  ti_next : 1 <= next_request_id b <= Z.of_nat n + 1;
  ti_keyed : keyed b;
  ti_issued : forall id r, records b !! id = Some r -> issued b id;
  ti_nodup : NoDup (ended events);
  ti_ended : forall id, id ∈ ended events ->
    issued b id /\ forall r, records b !! id = Some r -> pd_status r <> Pending;
}.

Lemma request_id_string_inj j k : 0 <= j -> 0 <= k -> request_id_string j = request_id_string k -> j = k.
Proof.
  unfold request_id_string. intros Hj Hk Heq. apply (inj (String.app "server-request-")) in Heq.
  apply (inj pretty) in Heq. lia.
Qed.

Lemma trace_inv_step n events b op :
  Z.of_nat n < u64_max - 1 -> trace_inv n events b ->
  trace_inv (S n) (events ++ (step op b).1) (step op b).2.
Proof.
  intros Hn [Hnext Hk Hi Hnd He]. destruct (step_step_ok op b Hk) as [S1 S2 S3 S4].
  destruct (step op b) as [out b']. cbn [fst snd] in *.
  rewrite u64_add_small in S1, S2 by (unfold is_u64, u64_max in *; lia).
  assert (forall id, issued b id -> issued b' id) as Hmono.
  { intros id (k & Hk1 & ->). exists k. split; [lia|done]. }
  split.
  - lia.
  - intros id r' Hr'. destruct (S1 _ _ Hr') as [(r & Hr & [-> _ _ _])|(_ & _ & ?)]; [by apply Hk|done].
  - intros id r' Hr'. destruct (S1 _ _ Hr') as [(r & Hr & _)|(Hb & -> & _)].
    + apply Hmono. by eapply Hi.
    + exists (next_request_id b). split; [lia|done].
  - unfold ended in *. rewrite omap_app. apply NoDup_app. split; [done|]. split; [|done].
    intros id Hin Hin'. destruct (S4 _ Hin') as (r & _ & Hr & Hp & _).
    destruct (He _ Hin) as [_ Hnp]. by apply (Hnp r).
  - intros id Hin. unfold ended in *. rewrite omap_app in Hin. apply elem_of_app in Hin as [Hin|Hin].
    + destruct (He _ Hin) as [Hiss Hnp]. split; [by apply Hmono|]. intros r' Hr'.
      destruct (S1 _ _ Hr') as [(r & Hr & Hev)|(_ & -> & _)].
      * rewrite (ev_status _ _ Hev); by apply Hnp.
      * destruct Hiss as (k & Hk1 & Heq). apply request_id_string_inj in Heq; lia.
    + destruct (S4 _ Hin) as (r & r' & Hr & _ & Hr' & Hp'). split; [apply Hmono; by eapply Hi|]. congruence.
Qed.

Lemma trace_inv_new : trace_inv 0 [] new.
Proof.
  split; cbn; [lia|intros ??; cbn; by rewrite lookup_empty|intros ??; by rewrite lookup_empty|constructor
    |by intros id ?%elem_of_nil].
Qed.

Lemma trace_inv_run n events b ops :
  Z.of_nat n + Z.of_nat (length ops) < u64_max -> trace_inv n events b ->
  trace_inv (n + length ops) (events ++ (run ops b).1) (run ops b).2.
Proof.
  revert n events b. induction ops as [|op ops IH]; intros n events b Hn Ht.
  { cbn. by rewrite app_nil_r, Nat.add_0_r. }
  pose proof (trace_inv_step n events b op) as Hs. cbn [length run] in *.
  destruct (step op b) as [out b1]. specialize (IH (S n) (events ++ out) b1).
  destruct (run ops b1) as [outs b2]. cbn in *. rewrite app_assoc, Nat.add_succ_r.
  apply IH; [lia|]. apply Hs; [lia|done].
Qed.

(** A request ends at most once: in every execution, among accepted
    responses, interruptions of the request, of its scope or of its client, and
    resolutions by policy, at most one is reported for each request id, and no
    id is issued twice. *)
Theorem request_ends_once ops :
  Z.of_nat (length ops) < u64_max -> NoDup (ended (run ops new).1).
Proof.
  intros Hlen. pose proof (trace_inv_run 0 [] new ops) as Ht. apply Ht; [lia|apply trace_inv_new].
Qed.
(** ** A client is sent a request at most once *)

Definition sent_to (c : string) (events : list BrokerEvent) : list string :=
  omap (fun e => match e with
                 | Sent id c' => if bool_decide (c' = c) then Some id else None
                 | Ended _ => None
                 end) events.

Definition delivered (c : string) (r : PendingRecord) : Prop := pd_responders r !! c = Some Delivered.

(** Operations that make no delivery to [c] void. *)
Definition keeps_deliveries (c : string) (op : BrokerOp) : Prop :=
  match op with
  | OpDefer _ => False
  | OpUnavailable client | OpSubscriptionRemoved client _ | OpCapabilityUnavailable client _ => client <> c
  | _ => True
  end.

Record sends_ok (c : string) (b : ServerRequestBroker) (out : list BrokerEvent) (b' : ServerRequestBroker)
  : Prop := {
  se_keep : forall id r r', records b !! id = Some r -> records b' !! id = Some r' ->
    delivered c r -> delivered c r';
  se_nodup : NoDup (sent_to c out);
  se_sent : forall id, id ∈ sent_to c out ->
    (forall r, records b !! id = Some r -> ~ delivered c r) /\
    exists r', records b' !! id = Some r' /\ delivered c r';
}.

Lemma sends_ok_quiet c b out b' :
  sent_to c out = [] ->
  (forall id r r', records b !! id = Some r -> records b' !! id = Some r' -> delivered c r -> delivered c r') ->
  sends_ok c b out b'.
Proof. intros Ho Hk. split; rewrite ?Ho; [done|constructor|by intros id ?%elem_of_nil]. Qed.

Lemma sends_ok_refl c b out : sent_to c out = [] -> sends_ok c b out b.
Proof. intros Ho. apply sends_ok_quiet; [done|congruence]. Qed.

Lemma sends_ok_map c f b out b' :
  sent_to c out = [] -> records b' = f <$> records b -> (forall r, delivered c r -> delivered c (f r)) ->
  sends_ok c b out b'.
Proof.
  intros Ho Hr Hf. apply sends_ok_quiet; [done|]. intros id r r' H1. rewrite Hr, lookup_fmap, H1.
  intros [= <-]. apply Hf.
Qed.

Lemma delivered_stale c client r : client <> c -> delivered c r -> delivered c (mark_responder_stale client r).
Proof.
  intros Hne Hd. unfold mark_responder_stale. split_test; [|done]. unfold delivered in *. cbn.
  by rewrite lookup_insert_ne.
Qed.

Lemma sent_to_ended c os : sent_to c (ended_event <$> os) = [].
Proof. induction os as [|[]]; done. Qed.

Lemma sent_to_cons c id c' es :
  sent_to c (Sent id c' :: es) = (if bool_decide (c' = c) then [id] else []) ++ sent_to c es.
Proof. unfold sent_to. cbn. by destruct (bool_decide (c' = c)). Qed.

Lemma sent_to_deliveries c id r (ds : list Delivery) :
  NoDup (d_client <$> ds) ->
  sent_to c (sent_event <$> (build_delivery id r <$> ds))
  = if bool_decide (c ∈ d_client <$> ds) then [id] else [].
Proof.
  induction ds as [|d ds IH]; [done|]. rewrite !fmap_cons. intros [Hnin Hnd]%NoDup_cons.
  unfold sent_event at 1. rewrite sent_to_cons, (IH Hnd). cbn [build_delivery rd_delivery].
  rewrite (bool_decide_ext (c ∈ d_client d :: (d_client <$> ds)) (c = d_client d \/ c ∈ d_client <$> ds))
    by apply elem_of_cons.
  destruct (bool_decide_reflect (d_client d = c)) as [<-|Hne].
  - rewrite bool_decide_eq_false_2, bool_decide_eq_true_2 by auto. done.
  - by rewrite (bool_decide_ext (c = d_client d \/ c ∈ d_client <$> ds) (c ∈ d_client <$> ds)) by naive_solver.
Qed.

Lemma sends_ok_open c draft eligible now b :
  records b !! request_id_string (next_request_id b) = None ->
  sends_ok c b (step (OpOpen draft eligible now) b).1 (step (OpOpen draft eligible now) b).2.
Proof.
  intros Hfresh. cbn. pose proof (open_spec draft eligible now b) as Ho.
  destruct (open draft eligible now b) as [o b']. cbn. destruct o as [snapshot ds|reason].
  - destruct Ho as (_ & r' & sent & Hr & _ & _ & _ & -> & Hnd & Hd). split.
    + intros id r r2 H1. rewrite Hr, lookup_insert. case_decide; [congruence|]. intros H2. by simplify_eq.
    + rewrite sent_to_deliveries by done. split_test; [apply NoDup_singleton|constructor].
    + intros id. rewrite sent_to_deliveries by done. split_test; [|by intros ?%elem_of_nil].
      intros ->%list_elem_of_singleton. split; [congruence|]. exists r'. rewrite Hr, lookup_insert_eq.
      split; [done|]. apply list_elem_of_fmap in e as (d & -> & Hin). by apply Hd.
  - destruct Ho as [_ Hr]. apply sends_ok_quiet; [done|]. intros id r r'. rewrite Hr. congruence.
Qed.

Lemma available_spec d scopes b :
  let '(out, b') := observe_responder_available d scopes b in
  out = omap (fun id => (fun r => build_delivery id r d) <$> records b !! id) (offered_ids d scopes b) /\
  forall id, records b' !! id
    = if bool_decide (id ∈ offered_ids d scopes b)
      then set_responder (d_client d) Delivered <$> records b !! id else records b !! id.
Proof.
  unfold observe_responder_available. fold (offered_ids d scopes (set_available
    (<[d_client d := mkResponder d scopes]> (available_responders b)) b)).
  set (b0 := set_available _ b). change (offered_ids d scopes b0) with (offered_ids d scopes b).
  pose proof (offers_spec d (offered_ids d scopes b) [] b0 (offered_ids_nodup d scopes b)) as Hs.
  destruct (foldl (offer_request d) ([], b0) (offered_ids d scopes b)) as [out b'].
  destruct Hs as (-> & _ & _ & Hr); [|done].
  intros id (r & Hr & _)%elem_of_offered_ids. cbn. by exists r.
Qed.

(** The ids sent to [c] when a responder becomes available. *)
Lemma sent_to_available c d (f : string -> option PendingRecord) ids :
  sent_to c (sent_event <$> omap (fun id => (fun r => build_delivery id r d) <$> f id) ids)
  = if bool_decide (d_client d = c) then filter (fun id => is_Some (f id)) ids else [].
Proof.
  induction ids as [|id ids IH]; [by split_test|]. cbn [omap list_omap]. rewrite filter_cons.
  destruct (f id) as [r|]; cbn [fmap option_fmap option_map].
  - rewrite decide_True, fmap_cons by eauto. unfold sent_event at 1.
    rewrite sent_to_cons, IH. cbn. by split_test.
  - rewrite decide_False by (by intros [? ?]). exact IH.
Qed.

Lemma offered_envelope_ids d (f : string -> option PendingRecord) (ids : list string) :
  (fun x => env_request_id (rd_envelope x))
    <$> omap (fun id => (fun r => build_delivery id r d) <$> f id) ids
  = filter (fun id => is_Some (f id)) ids.
Proof.
  induction ids as [|id ids IH]; [done|]. cbn [omap list_omap]. rewrite filter_cons.
  destruct (f id) as [r|]; cbn [fmap option_fmap option_map].
  - rewrite decide_True, fmap_cons, IH by eauto. done.
  - rewrite decide_False by (by intros [? ?]). exact IH.
Qed.

Lemma sends_ok_available c d scopes b :
  let '(o, b') := observe_responder_available d scopes b in sends_ok c b (sent_event <$> o) b'.
Proof.
  pose proof (available_spec d scopes b) as Hs.
  destruct (observe_responder_available d scopes b) as [o b']. destruct Hs as [-> Hr].
  assert (forall r, delivered c r -> delivered c (set_responder (d_client d) Delivered r)) as Hset.
  { intros r Hd. unfold delivered in *. cbn. rewrite lookup_insert. by case_decide. }
  split.
  - intros id r r' H1. rewrite Hr, H1. split_test; cbn; intros [= <-]; [by apply Hset|done].
  - rewrite sent_to_available. split_test; [|constructor]. apply NoDup_filter, offered_ids_nodup.
  - intros id. rewrite sent_to_available. split_test; [|by intros ?%elem_of_nil].
    intros [_ Hin]%list_elem_of_filter. rewrite Hr, bool_decide_eq_true_2 by done.
    apply elem_of_offered_ids in Hin as (r & -> & Ho). split.
    + intros ? [= <-]. unfold offered, can_deliver_to in Ho. simp_all. done.
    + eexists. split; [done|]. unfold delivered. cbn. subst. apply lookup_insert_eq.
Qed.
Lemma sends_ok_respond c responder id answer scopes b :
  sends_ok c b (step (OpRespond responder id answer scopes) b).1
    (step (OpRespond responder id answer scopes) b).2.
Proof.
  cbn. unfold handle_response_from_scopes. destruct (records b !! id) as [r|] eqn:Hr; [|by apply sends_ok_refl].
  set (r1 := if bool_decide _ && _ then _ else _).
  assert (delivered c r -> delivered c r1) as Hd.
  { unfold r1, delivered. destruct (bool_decide_reflect (pd_responders r !! responder = None)) as [Hn|];
      [|done]. destruct (record_matches_responder r responder scopes); cbn; [|done].
    rewrite lookup_insert. case_decide; [congruence|done]. }
  assert (forall rf, (delivered c r1 -> delivered c rf) -> forall j w w', records b !! j = Some w ->
    <[id := rf]> (records b) !! j = Some w' -> delivered c w -> delivered c w') as Hins.
  { intros rf Hrf j w w' Hw. rewrite lookup_insert. case_decide; [|congruence]. intros [= <-]. subst.
    rewrite Hr in Hw. injection Hw as <-. auto. }
  destruct (pd_responders r1 !! responder) as [[]|];
    try (destruct (pd_status r1)); try (destruct answer);
    (apply sends_ok_quiet; [done|]); cbn; rewrite ?insert_insert_eq; apply Hins; done.
Qed.

Lemma sends_ok_finish c s id b :
  sends_ok c b (match (finish_request s id b).1 with Some _ => [Ended id] | None => [] end)
    (finish_request s id b).2.
Proof.
  unfold finish_request. destruct (records b !! id) as [r|] eqn:Hr; [|by apply sends_ok_refl].
  split_test; cbn; (apply sends_ok_quiet; [done|]); [congruence|]. cbn. intros j w w' Hw.
  rewrite lookup_insert. case_decide; [|congruence]. intros [= <-]. subst. by simplify_eq.
Qed.

Lemma sends_ok_step c op b :
  keeps_deliveries c op -> records b !! request_id_string (next_request_id b) = None ->
  sends_ok c b (step op b).1 (step op b).2.
Proof.
  intros Hk Hfresh. destruct op; cbn [step keeps_deliveries] in *.
  - by apply sends_ok_open.
  - apply sends_ok_respond.
  - pose proof (sends_ok_finish c Interrupted id b) as Hf. unfold interrupt_request.
    by destruct (finish_request Interrupted id b).
  - pose proof (sends_ok_finish c Resolved id b) as Hf. unfold resolve_request_without_responder.
    by destruct (finish_request Resolved id b).
  - unfold forget_auth_terminal_exchange. destruct (is_auth_terminal_exchange id b); [|by apply sends_ok_refl].
    apply sends_ok_quiet; [done|]. cbn. intros j r r' Hr [_ Hr']%lookup_delete_Some. congruence.
  - done.
  - eapply sends_ok_map; [apply sent_to_ended|done|]. intros r Hd. cbn.
    destruct (_ && _); [done|]. destruct (_ && _); [by apply delivered_stale|done].
  - pose proof (sends_ok_available c d scopes b). by destruct (observe_responder_available d scopes b).
  - unfold observe_subscription_added. set (sc := if bool_decide _ then _ else _).
    pose proof (sends_ok_available c d sc b). by destruct (observe_responder_available d sc b).
  - unfold observe_subscription_removed. destruct (available_responders b !! client);
      (eapply sends_ok_map; [done|done|]; intros r Hd; cbn;
       destruct (_ && _); [by apply delivered_stale|done]).
  - unfold observe_capability_unavailable. destruct (available_responders b !! client);
      (eapply sends_ok_map; [done|done|]; intros r Hd; cbn;
       destruct (_ && _); [by apply delivered_stale|done]).
  - eapply sends_ok_map; [apply sent_to_ended|done|]. intros r Hd. cbn. by destruct (_ && _).
Qed.

Record sent_inv (c : string) (events : list BrokerEvent) (b : ServerRequestBroker) : Prop := {
  si_nodup : NoDup (sent_to c events);
  si_sent : forall id, id ∈ sent_to c events ->
    issued b id /\ forall r, records b !! id = Some r -> delivered c r;
}.

Lemma sent_inv_step c n evs events b op :
  Z.of_nat n < u64_max - 1 -> trace_inv n evs b -> keeps_deliveries c op -> sent_inv c events b ->
  sent_inv c (events ++ (step op b).1) (step op b).2.
Proof.
  intros Hn Ht Hk [Hnd Hs]. pose proof (trace_inv_step _ _ _ op Hn Ht) as Ht'.
  destruct Ht as [Hnext Hkey Hiss _ _].
  assert (records b !! request_id_string (next_request_id b) = None) as Hfresh.
  { destruct (records b !! _) as [r|] eqn:E; [|done]. destruct (Hiss _ _ E) as (k & Hk1 & Heq).
    apply request_id_string_inj in Heq; lia. }
  destruct (step_step_ok op b Hkey) as [S1 S2 _ _].
  rewrite u64_add_small in S1, S2 by (unfold is_u64, u64_max in *; lia).
  destruct (sends_ok_step c op b Hk Hfresh) as [K1 K2 K3]. destruct (step op b) as [out b']. cbn [fst snd] in *.
  split; unfold sent_to in *; rewrite omap_app.
  - apply NoDup_app. split; [done|]. split; [|done]. intros id Hin Hin'.
    destruct (K3 _ Hin') as [Hnot (r' & Hr' & _)]. destruct (Hs _ Hin) as [(k & Hk1 & ->) Hd].
    destruct (S1 _ _ Hr') as [(r & Hr & _)|(_ & Heq & _)]; [by apply (Hnot r), Hd|].
    apply request_id_string_inj in Heq; lia.
  - intros id [Hin|Hin]%elem_of_app.
    + destruct (Hs _ Hin) as [(k & Hk1 & Hid) Hd]. split; [exists k; split; [lia|done]|]. intros r' Hr'.
      destruct (S1 _ _ Hr') as [(r & Hr & _)|(_ & Heq & _)]; [eapply K1; eauto|].
      subst id. apply request_id_string_inj in Heq; lia.
    + destruct (K3 _ Hin) as [_ (r' & Hr' & Hd)]. split; [by eapply (ti_issued _ _ _ Ht')|]. congruence.
Qed.

Lemma sent_inv_run c n evs events b ops :
  Z.of_nat n + Z.of_nat (length ops) < u64_max -> trace_inv n evs b ->
  Forall (keeps_deliveries c) ops -> sent_inv c events b ->
  sent_inv c (events ++ (run ops b).1) (run ops b).2.
Proof.
  intros Hn Ht Hk. revert n evs events b Hn Ht. induction Hk as [|op ops Hop Hk IH]; intros n evs events b Hn Ht Hs.
  { cbn. by rewrite app_nil_r. }
  cbn [length] in Hn. pose proof (sent_inv_step c n evs events b op) as Hstep.
  pose proof (trace_inv_step n evs b op) as Htr. cbn [run].
  destruct (step op b) as [out b1]. specialize (IH (S n) (evs ++ out) (events ++ out) b1).
  destruct (run ops b1) as [outs b2]. cbn in *. rewrite app_assoc.
  apply IH; [lia|apply Htr; [lia|done]|apply Hstep; [lia|done..]].
Qed.

(** A client is asked once: while nothing makes its deliveries void (it
    stays available, keeps its subscriptions and capabilities, and no delivery is
    deferred), a client is sent each request at most once, through reattachment,
    new subscriptions and capability changes. *)
Theorem request_sent_once c ops :
  Z.of_nat (length ops) < u64_max -> Forall (keeps_deliveries c) ops ->
  NoDup (sent_to c (run ops new).1).
Proof.
  intros Hlen Hk. apply (sent_inv_run c 0 [] [] new ops); [lia|apply trace_inv_new|done|].
  split; [constructor|by intros id ?%elem_of_nil].
Qed.

(** A responder that becomes available, by initializing, reattaching,
    subscribing or gaining a capability, is sent exactly the pending requests it
    may answer and was not sent already, each once and with the content of its
    record; those, and no others, are marked delivered to it. *)
Theorem responder_receives_pending d scopes b :
  let '(out, b') := observe_responder_available d scopes b in
  (forall x, x ∈ out <-> exists id r, records b !! id = Some r /\ x = build_delivery id r d /\
     pd_status r = Pending /\ pd_responders r !! d_client d <> Some Delivered /\
     supports_method d (pd_method r) = true /\ record_matches_responder r (d_client d) scopes = true) /\
  NoDup ((fun x => env_request_id (rd_envelope x)) <$> out) /\
  (forall id r, records b !! id = Some r -> exists r', records b' !! id = Some r' /\
     pd_status r' = pd_status r /\
     forall c, pd_responders r' !! c
       = if bool_decide (c = d_client d /\ offered d scopes r = true) then Some Delivered
         else pd_responders r !! c).
Proof.
  pose proof (available_spec d scopes b) as Hs.
  destruct (observe_responder_available d scopes b) as [out b']. destruct Hs as [-> Hr]. split; [|split].
  - intros x. rewrite list_elem_of_omap. split.
    + intros (id & (r & Hid & Ho)%elem_of_offered_ids & Hx). rewrite Hid in Hx. injection Hx as <-.
      unfold offered, is_pending, can_deliver_to in Ho. simp_all. exists id, r. done.
    + intros (id & r & Hid & -> & Hp & Hd & Hm & Hsc). exists id. rewrite elem_of_offered_ids, Hid.
      split; [|done]. exists r. split; [done|]. unfold offered, is_pending, can_deliver_to.
      rewrite bool_decide_eq_true_2, bool_decide_eq_false_2, Hm, Hsc by done. done.
  - rewrite offered_envelope_ids. apply NoDup_filter, offered_ids_nodup.
  - intros id r Hid. rewrite Hr, Hid. split_test.
    + apply elem_of_offered_ids in e as (r0 & H0 & Ho). simplify_eq. eexists. split; [done|]. split; [done|].
      intros c. cbn. rewrite lookup_insert. case_decide as Hd; [subst; by rewrite bool_decide_eq_true_2|].
      by rewrite bool_decide_eq_false_2 by naive_solver.
    + exists r. split; [done|]. split; [done|]. intros c. rewrite bool_decide_eq_false_2; [done|].
      intros [_ Ho]. apply n, elem_of_offered_ids. eauto.
Qed.
(** ** Responses *)

(** Who may answer: a responder that was offered the request and did not go
    stale, or an unknown client whose scopes match the request. *)
Definition authorized (responder : string) (scopes : list ResponderScope) (r : PendingRecord) : bool :=
  match pd_responders r !! responder with
  | Some Eligible | Some Delivered => true
  | Some Stale => false
  | None => record_matches_responder r responder scopes
  end.

(** The status of every request after outcome [o] of a response to [id]. *)
Definition status_after (o : ResponseOutcome) (id : string) (b : ServerRequestBroker) (j : string)
  : option RequestStatus :=
  match o with
  | ResponseAccepted _ _ _ _ => if bool_decide (j = id) then Some Resolved else pd_status <$> records b !! j
  | _ => pd_status <$> records b !! j
  end.

Lemma response_refused responder id answer scopes b r r1 o :
  records b !! id = Some r -> pd_status r1 = pd_status r ->
  (forall i s c v, o <> ResponseAccepted i s c v) ->
  (pd_status r = Pending -> authorized responder scopes r = true -> forall v, answer <> AnswerResult v) ->
  (forall value, (exists scope, o = ResponseAccepted id scope responder value) <->
     answer = AnswerResult value /\
     exists r, records b !! id = Some r /\ pd_status r = Pending /\ authorized responder scopes r = true) /\
  (forall j, pd_status <$> records (set_records (<[id := r1]> (records b)) b) !! j = status_after o id b j) /\
  (forall j, j <> id -> records (set_records (<[id := r1]> (records b)) b) !! j = records b !! j).
Proof.
  intros Hr Hst Ho Hno. split; [|split].
  - intros v. split; [intros [s Hs]; by apply Ho in Hs|]. rewrite Hr. intros (Ha & r0 & [= <-] & Hp & Hauth).
    by destruct (Hno Hp Hauth v).
  - intros j. cbn. rewrite lookup_insert. assert (pd_status <$> records b !! id = Some (pd_status r)) as Hid
      by by rewrite Hr. destruct o; try (by exfalso; eapply Ho); cbn; case_decide; subst; cbn;
      by rewrite ?Hid, ?Hst.
  - intros j Hj. cbn. by rewrite lookup_insert_ne.
Qed.

(** A response is accepted exactly when the request is pending, the
    responder is authorized and the answer is a result; the request is then
    resolved, and in every other case the status of no request changes and the
    other requests are untouched. *)
Theorem response_accepted_iff responder id answer scopes b :
  let '(o, b') := handle_response_from_scopes responder id answer scopes b in
  (forall value, (exists scope, o = ResponseAccepted id scope responder value) <->
     answer = AnswerResult value /\
     exists r, records b !! id = Some r /\ pd_status r = Pending /\ authorized responder scopes r = true) /\
  (forall j, pd_status <$> records b' !! j = status_after o id b j) /\
  (forall j, j <> id -> records b' !! j = records b !! j).
Proof.
  unfold handle_response_from_scopes. destruct (records b !! id) as [r|] eqn:Hr.
  2: { split; [|done]. intros v. split; [by intros [? [=]]|naive_solver]. }
  set (r1 := if bool_decide _ && _ then _ else _).
  assert (pd_status r1 = pd_status r) as Hst by (unfold r1; by destruct (_ && _)).
  assert (authorized responder scopes r = match pd_responders r1 !! responder with
    | Some Eligible | Some Delivered => true | _ => false end) as Hauth.
  { unfold r1, authorized. destruct (pd_responders r !! responder) as [st|] eqn:E; cbn.
    - rewrite E. by destruct st.
    - destruct (record_matches_responder r responder scopes); cbn; [by rewrite lookup_insert_eq|by rewrite E]. }
  rewrite <- Hr. destruct (pd_responders r1 !! responder) as [[]|].
  3,4: apply (response_refused _ _ _ _ _ r); [done|done|done|congruence].
  all: destruct (pd_status r1) eqn:Hp; [destruct answer as [value|message]|..];
    try (apply (response_refused _ _ _ _ _ r); [done|congruence|done|congruence]).
  all: cbn; rewrite insert_insert_eq; (split; [|split]);
    [|intros j; rewrite lookup_insert; split_test; case_decide; by subst
     |intros j Hj; by rewrite lookup_insert_ne].
  all: intros v; split; [intros [? [= _ ->]]; split; [done|]; exists r; by rewrite <- Hst
                        |intros [[= ->] _]; eauto].
Qed.

(** ** Interruption *)

Lemma run_keyed ops : Z.of_nat (length ops) < u64_max -> keyed (run ops new).2.
Proof.
  intros Hlen. pose proof (trace_inv_run 0 [] new ops) as Ht.
  apply (ti_keyed (0 + length ops) (run ops new).1). apply Ht; [lia|apply trace_inv_new].
Qed.

Lemma elem_of_interrupted P other b id scope :
  keyed b ->
  RequestInterrupted id scope ∈ (interrupt_where P other b).1 <->
  exists r, records b !! id = Some r /\ P r = true /\ pr_scope (pd_snapshot r) = scope.
Proof.
  intros Hk. unfold interrupt_where. cbn. rewrite list_elem_of_fmap. split.
  - intros (r & [= -> ->] & [HP ([j r'] & -> & Hj%elem_of_map_to_list)%list_elem_of_fmap]%list_elem_of_filter).
    cbn in *. rewrite (Hk _ _ Hj). eauto.
  - intros (r & Hr & HP & <-). exists r. unfold interrupted_outcome. rewrite (Hk _ _ Hr). split; [done|].
    apply list_elem_of_filter. split; [done|]. apply list_elem_of_fmap. exists (id, r).
    split; [done|]. by apply elem_of_map_to_list.
Qed.

Lemma elem_of_pending_snapshots (f : PendingRequestScope -> bool) b s :
  s ∈ pending_snapshots f b <->
  exists id r, records b !! id = Some r /\ pd_snapshot r = s /\ pd_status r = Pending /\ f (pr_scope s) = true.
Proof.
  unfold pending_snapshots. rewrite merge_sort_Permutation, list_elem_of_fmap. split.
  - intros (r & -> & [Hf ([id r'] & -> & Hin%elem_of_map_to_list)%list_elem_of_fmap]%list_elem_of_filter).
    cbn in *. unfold is_pending in Hf. simp_all. eauto 6.
  - intros (id & r & Hr & <- & Hp & Hf). exists r. split; [done|]. apply list_elem_of_filter.
    unfold is_pending. rewrite bool_decide_eq_true_2, Hf by done. split; [done|].
    apply list_elem_of_fmap. exists (id, r). split; [done|]. by apply elem_of_map_to_list.
Qed.

(** When a Task completes, exactly its pending requests are reported
    interrupted, each once; none of them is pending afterwards, and every other
    request is left as it was. *)
Theorem task_completion_interrupts_all ops task_id :
  Z.of_nat (length ops) < u64_max ->
  let b := (run ops new).2 in
  let '(o, b') := observe_task_completed task_id b in
  (forall id scope, RequestInterrupted id scope ∈ o <->
     scope = ScopeTask task_id /\ exists s, s ∈ pending_for_task task_id b /\ pr_request_id s = id) /\
  NoDup (ended (ended_event <$> o)) /\
  pending_for_task task_id b' = [] /\
  (forall id r, records b !! id = Some r -> pr_scope (pd_snapshot r) <> ScopeTask task_id ->
     records b' !! id = Some r).
Proof.
  intros Hlen. cbv zeta. pose proof (run_keyed ops Hlen) as Hk. set (b := (run ops new).2) in *.
  unfold observe_task_completed, interrupt_scope.
  set (P := fun r => is_pending r && bool_decide (pr_scope (pd_snapshot r) = ScopeTask task_id)).
  assert (forall r, P r = true <-> pd_status r = Pending /\ pr_scope (pd_snapshot r) = ScopeTask task_id) as HP.
  { intros r. unfold P, is_pending. by rewrite andb_true_iff, !bool_decide_eq_true. }
  pose proof (elem_of_interrupted P (fun r => r) b) as Hel.
  destruct (interrupt_where_ok P (fun r => r) b Hk) as [_ _ Hnd _]; [apply HP|done|].
  destruct (interrupt_where P (fun r => r) b) as [o b'] eqn:E. cbn [fst snd] in *.
  assert (records b' = (fun r => if P r then set_status Interrupted r else r) <$> records b) as Hb'
    by (unfold interrupt_where in E; by injection E as _ <-).
  split; [|split; [done|split]].
  - intros id scope. rewrite Hel by done. unfold pending_for_task. setoid_rewrite elem_of_pending_snapshots. split.
    + intros (r & Hr & [Hp Hs]%HP & <-). rewrite Hs. split; [done|]. exists (pd_snapshot r).
      split; [|by apply Hk]. exists id, r. rewrite Hs, bool_decide_eq_true_2 by done. done.
    + intros [-> (s & (j & r & Hr & <- & Hp & Hs) & <-)]. simp_all. exists r. rewrite (Hk _ _ Hr).
      split; [done|]. split; [by apply HP|done].
  - apply elem_of_nil_inv. intros s (id & r & Hr & <- & Hp & Hs)%elem_of_pending_snapshots. simp_all.
    rewrite Hb', lookup_fmap in Hr. destruct (records b !! id) as [r0|]; [|done]. injection Hr as <-.
    destruct (P r0) eqn:EP; [done|]. assert (P r0 = true) by by apply HP. congruence.
  - intros id r Hr Hs. rewrite Hb', lookup_fmap, Hr. cbn. destruct (P r) eqn:EP; [|done].
    by apply HP in EP as [_ ?].
Qed.
(** ** Responders of a new request *)

(** A responder is stored under the client its delivery names. *)
Definition responders_keyed (b : ServerRequestBroker) : Prop :=
  forall c a, available_responders b !! c = Some a -> d_client (ar_delivery a) = c.

Lemma note_responder_keyed scope ds (m : gmap string AvailableResponder) :
  (forall c a, m !! c = Some a -> d_client (ar_delivery a) = c) ->
  forall c a, foldl (note_responder scope) m ds !! c = Some a -> d_client (ar_delivery a) = c.
Proof.
  revert m. induction ds as [|d ds IH]; intros m Hm; [done|]. apply IH. intros c a.
  unfold note_responder. rewrite lookup_insert. case_decide; [|apply Hm]. by intros [= <-].
Qed.

Lemma mark_and_build_available id ds b :
  available_responders (mark_and_build_deliveries id ds b).2 = available_responders b.
Proof. unfold mark_and_build_deliveries. by destruct (records b !! id). Qed.

Lemma open_responders_keyed draft eligible now b :
  responders_keyed b -> responders_keyed (open draft eligible now b).2.
Proof.
  intros Hk. unfold open. destruct (classify_request_method (dr_method draft)); [|done].
  set (b0 := set_available _ b).
  assert (responders_keyed b0) as Hk0 by (unfold responders_keyed; by apply note_responder_keyed).
  destruct (_ && _); [done|]. cbn [allocate_request_id]. set (b1 := set_records _ _).
  match goal with |- context [mark_and_build_deliveries ?id ?ds b1] =>
    pose proof (mark_and_build_available id ds b1) as Hm;
    destruct (mark_and_build_deliveries id ds b1) as [out b2] end.
  cbn in *. unfold responders_keyed. rewrite Hm. exact Hk0.
Qed.

Lemma available_responders_keyed d scopes b :
  responders_keyed b -> responders_keyed (observe_responder_available d scopes b).2.
Proof.
  intros Hk. unfold observe_responder_available. set (b0 := set_available _ b).
  fold (offered_ids d scopes b0).
  pose proof (offers_spec d (offered_ids d scopes b0) [] b0 (offered_ids_nodup _ _ _)) as Ho.
  destruct (foldl (offer_request d) ([], b0) (offered_ids d scopes b0)) as [out b'].
  destruct Ho as (_ & _ & Ha & _); [intros id (r & Hr & _)%elem_of_offered_ids; eauto|].
  unfold responders_keyed. cbn. rewrite Ha. cbn. intros c a. rewrite lookup_insert.
  case_decide; [by intros [= <-]|apply Hk].
Qed.

Lemma defer_available ds b : available_responders (defer_deliveries ds b) = available_responders b.
Proof.
  unfold defer_deliveries. revert b. induction ds as [|d ds IH]; intros b; [done|]. cbn [foldl].
  rewrite IH. by destruct (records b !! _).
Qed.

Lemma update_responder_keyed client a0 a b :
  responders_keyed b -> available_responders b !! client = Some a0 ->
  d_client (ar_delivery a) = d_client (ar_delivery a0) ->
  forall c a', <[client := a]> (available_responders b) !! c = Some a' -> d_client (ar_delivery a') = c.
Proof.
  intros Hk H0 Hd c a'. rewrite lookup_insert. case_decide; [|apply Hk].
  intros [= <-]. subst. rewrite Hd. by apply Hk.
Qed.

Lemma step_responders_keyed op b : responders_keyed b -> responders_keyed (step op b).2.
Proof.
  intros Hk. destruct op; cbn [step].
  - pose proof (open_responders_keyed draft eligible now_string b Hk).
    by destruct (open draft eligible now_string b).
  - unfold handle_response_from_scopes. destruct (records b !! id) as [r|]; [|done].
    destruct (pd_responders _ !! responder) as [[]|]; try done;
      (destruct (pd_status _); try done; by destruct answer).
  - unfold interrupt_request, finish_request. destruct (records b !! id); [|done]. by split_test.
  - unfold resolve_request_without_responder, finish_request. destruct (records b !! id); [|done]. by split_test.
  - unfold forget_auth_terminal_exchange. by destruct (is_auth_terminal_exchange id b).
  - unfold responders_keyed. cbn. by rewrite defer_available.
  - unfold responders_keyed. cbn. intros c a [_ Ha]%lookup_delete_Some. by apply Hk.
  - pose proof (available_responders_keyed d scopes b Hk). by destruct (observe_responder_available d scopes b).
  - unfold observe_subscription_added. set (sc := if bool_decide _ then _ else _).
    pose proof (available_responders_keyed d sc b Hk). by destruct (observe_responder_available d sc b).
  - unfold observe_subscription_removed. destruct (available_responders b !! client) as [a0|] eqn:E; [|done].
    unfold responders_keyed. cbn. by eapply update_responder_keyed.
  - unfold observe_capability_unavailable. destruct (available_responders b !! client) as [a0|] eqn:E; [|done].
    unfold responders_keyed. cbn. by eapply update_responder_keyed.
  - done.
Qed.

Lemma run_responders_keyed ops b : responders_keyed b -> responders_keyed (run ops b).2.
Proof.
  revert b. induction ops as [|op ops IH]; intros b Hk; [done|]. cbn [run].
  pose proof (step_responders_keyed op b Hk) as Hs. destruct (step op b) as [out b1]. specialize (IH b1 Hs).
  by destruct (run ops b1).
Qed.

(** The deliveries of a new request: those the caller names and every other
    available responder that supports the method and matches the scope. *)
Definition new_request_deliveries (draft : ServerRequestDraft) (eligible : list Delivery)
    (b : ServerRequestBroker) : list Delivery :=
  let el := filter_eligible_deliveries (dr_scope draft) (dr_method draft) eligible in
  el ++ available_deliveries draft el
          (foldl (note_responder (dr_scope draft)) (available_responders b) el).

Lemma new_request_deliveries_nodup draft eligible b :
  responders_keyed b -> NoDup (d_client <$> eligible) ->
  NoDup (d_client <$> new_request_deliveries draft eligible b).
Proof.
  intros Hk Hnd. unfold new_request_deliveries, available_deliveries. set (el := filter_eligible_deliveries _ _ _).
  set (m := foldl _ _ el).
  assert (forall c a, m !! c = Some a -> d_client (ar_delivery a) = c) as Hm by by apply note_responder_keyed.
  rewrite fmap_app. apply NoDup_app. split; [|split].
  - apply (sublist_NoDup _ (d_client <$> eligible)); [done|]. apply fmap_sublist. unfold el, filter_eligible_deliveries.
    destruct (dr_scope draft); [etrans; apply sublist_filter|apply sublist_filter].
  - intros c Hc (d & -> & (a & -> & [(_ & _ & Hnin) _]%list_elem_of_filter)%list_elem_of_fmap)%list_elem_of_fmap.
    by apply Hnin.
  - rewrite <- list_fmap_compose. apply (sublist_NoDup _ ((d_client ∘ ar_delivery) <$> (map_to_list m).*2)).
    2: { apply fmap_sublist, sublist_filter. }
    replace ((d_client ∘ ar_delivery) <$> (map_to_list m).*2) with (map_to_list m).*1;
      [apply NoDup_fst_map_to_list|].
    rewrite <- list_fmap_compose. apply list_fmap_ext.
    intros i [c a] Hi%list_elem_of_lookup_2%elem_of_map_to_list. cbn. by rewrite (Hm _ _ Hi).
Qed.

(** Opening a request reaches everyone: in every execution, when the
    caller names each client at most once, the new request is sent to exactly
    the named clients that support it and every other available responder that
    supports the method and matches the scope, each once, in that order. *)
Theorem open_reaches_everyone ops draft eligible now snapshot ds b' :
  let b := (run ops new).2 in
  NoDup (d_client <$> eligible) -> open draft eligible now b = (Opened snapshot ds, b') ->
  rd_delivery <$> ds = new_request_deliveries draft eligible b.
Proof.
  cbv zeta. set (b := (run ops new).2). intros Hnd Heq.
  assert (responders_keyed b) as Hk by (apply run_responders_keyed; intros c a; cbn; by rewrite lookup_empty).
  pose proof (new_request_deliveries_nodup draft eligible b Hk Hnd) as Hall.
  unfold open in Heq. destruct (classify_request_method (dr_method draft)) as [kind|]; [|done].
  cbn [available_responders set_available] in Heq. unfold new_request_deliveries in *.
  set (l := filter_eligible_deliveries _ _ _ ++ _) in *. destruct (_ && _); [done|].
  cbn [allocate_request_id] in Heq. set (id := request_id_string _) in Heq.
  set (r := new_record _ _ _ _) in Heq. set (b1 := set_records _ _) in Heq.
  destruct (mark_and_build_spec id r l b1) as (sent & r' & Hm & _ & _ & _ & _ & _ & Hsent).
  { apply lookup_insert_eq. }
  rewrite Hm in Heq. injection Heq as <- <- _. rewrite <- list_fmap_compose. cbn.
  rewrite (Hsent Hall), filter_all; [by rewrite list_fmap_id|].
  intros d Hd. unfold can_deliver_to. rewrite bool_decide_eq_false_2; [done|]. cbn.
  intros Hl%elem_of_list_to_map_2. apply list_elem_of_fmap in Hl as (c & [=] & _).
Qed.
End ServerRequests.

(** ** Examples *)

Module RequestWitness.
#[local] Existing Instance string_payloads.

Definition draft : ServerRequestDraft (Value := string) :=
  mkDraft (ScopeTask "t") PERMISSION_REQUEST "Run tool?" "{}".
Definition delivery (c : string) : Delivery := mkDelivery c (c +:+ "-conn") [CapPermission].

Definition parse (v : string) : option (@PermissionRequestParams string_payloads) := Some v.
Definition parse_q (v : string) : option (@QuestionRequestParams string_payloads) := Some v.
Definition exec (ops : list BrokerOp) := run (Value := string) parse parse_q ops new.

Definition ops : list BrokerOp :=
  [OpAvailable (delivery "a") [ResponderClient "a"]; OpOpen draft [delivery "b"] "now";
   OpAvailable (delivery "a") [ResponderClient "a"]; OpAvailable (delivery "c") [ResponderClient "c"];
   OpRespond "b" "server-request-1" (AnswerResult "allow") [];
   OpRespond "a" "server-request-1" (AnswerResult "deny") []; OpOpen draft [] "later";
   OpInterruptScope (ScopeTask "t"); OpInterrupt "server-request-2"].

Lemma request_ends_once_witness :
  ended (exec ops).1 = ["server-request-1"; "server-request-2"]%string /\ NoDup (ended (exec ops).1).
Proof.
  split; [vm_compute; reflexivity|]. apply (request_ends_once parse parse_q ops). vm_compute. reflexivity.
Defined.

Lemma request_sent_once_witness :
  sent_to "a" (exec ops).1 = ["server-request-1"; "server-request-2"]%string /\ NoDup (sent_to "a" (exec ops).1).
Proof.
  split; [vm_compute; reflexivity|].
  apply (request_sent_once parse parse_q "a" ops); [vm_compute; reflexivity|repeat constructor].
Defined.

Lemma task_completion_interrupts_all_witness :
  pending_for_task "t" (observe_task_completed "t" (exec (take 4 ops)).2).2 = [] /\
  length (pending_for_task "t" (exec (take 4 ops)).2) = 1%nat.
Proof.
  split; [|vm_compute; reflexivity].
  pose proof (task_completion_interrupts_all parse parse_q (take 4 ops) "t") as Ht. cbv zeta in Ht.
  unfold exec. destruct (observe_task_completed _ _) as [o b'].
  destruct Ht as (_ & _ & Hp & _); [vm_compute; reflexivity|exact Hp].
Defined.

Definition opened := open parse parse_q draft [delivery "b"] "now" (exec (take 1 ops)).2.
Definition opened_deliveries : list ServerRequestDelivery :=
  match opened.1 with Opened _ ds => ds | Unavailable _ => [] end.
Definition opened_snapshot : PendingRequestSnapshot :=
  mkPendingSnapshot "server-request-1" (ScopeTask "t") KindPermission "Run tool?"
    (Some ("{}"%string : @PermissionRequestParams string_payloads)) None (Some "now"%string).

Lemma open_reaches_everyone_witness :
  rd_delivery <$> opened_deliveries = [delivery "b"; delivery "a"].
Proof.
  eapply eq_trans;
    [eapply (open_reaches_everyone parse parse_q (take 1 ops) draft [delivery "b"] "now" _
       opened_deliveries opened.2)|vm_compute; reflexivity].
  - repeat constructor. intros Hin. by apply elem_of_nil in Hin.
  - vm_compute. reflexivity.
Defined.

(** A caller that names a client twice: [scan] ends at the repetition, and the
    clients after it are not sent the request although they are recorded as its
    responders. *)
Example duplicate_cuts_deliveries :
  (match (open parse parse_q draft [delivery "a"; delivery "a"; delivery "b"] "now" new).1 with
   | Opened _ ds => d_client <$> (rd_delivery <$> ds)
   | Unavailable _ => []
   end) = ["a"%string].
Proof. vm_compute. reflexivity. Qed.
End RequestWitness.
