(* ===== verification/Frame.v ===== *)
(** * Framed journals

    Models [openaide-rs/app-server/src/storage/task_journal/frame.rs]: the file
    format of the journals (header, length, payload, CRC-32), their creation,
    append, compaction, truncation and replay, with the fault points of the
    source.

    A byte is a [Z] below 256.  A path is the list of its components, innermost
    first.  The file system keeps for each file its content and the content that
    was last synced: after a power loss a file holds the synced content and some
    prefix of what was appended since.  Operations run in the monad [IO] of
    state and error.  The error cases of the file system that are modelled are a
    missing file or directory, an existing file, and the armed fault; unix
    directory syncs and renames.  The JSON codec of a record type is the class
    [FramedRecord], its laws the class [FramedRecordLaws]. *)

From stdpp Require Import pretty.
From S2P Require Import Prelude.

Local Open Scope Z_scope.

(** ** Errors and fault points *)

(** [RuntimeError::Storage]. *)
Definition RuntimeError : Type := string.

Inductive JournalKind := KindRoot | KindTask | KindArtifact | KindArtifactReference | KindCompaction.
#[global] Instance JournalKind_eq_dec : EqDecision JournalKind.
Proof. solve_decision. Defined.

Inductive FaultPoint :=
| DirectoryParentSync | CreateOpen | CreateHeaderWrite | FrameLengthWrite | FramePayloadWrite
| FrameChecksumWrite | FileSync | ParentSync | AppendOpen | TruncateOpen | TruncateSetLen
| TruncateSync | CompactionValidate | CompactionPublish | CompactionPublishParentSync | WorkerDispatch.
#[global] Instance FaultPoint_eq_dec : EqDecision FaultPoint.
Proof. solve_decision. Defined.

Record ArmedFault := mkFault { af_kind : JournalKind; af_point : FaultPoint }.
#[global] Instance ArmedFault_eq_dec : EqDecision ArmedFault.
Proof. solve_decision. Defined.

Definition kind_debug (k : JournalKind) : string :=
  match k with
  | KindRoot => "Root" | KindTask => "Task" | KindArtifact => "Artifact"
  | KindArtifactReference => "ArtifactReference" | KindCompaction => "Compaction"
  end.

Definition point_debug (p : FaultPoint) : string :=
  match p with
  | DirectoryParentSync => "DirectoryParentSync" | CreateOpen => "CreateOpen"
  | CreateHeaderWrite => "CreateHeaderWrite" | FrameLengthWrite => "FrameLengthWrite"
  | FramePayloadWrite => "FramePayloadWrite" | FrameChecksumWrite => "FrameChecksumWrite"
  | FileSync => "FileSync" | ParentSync => "ParentSync" | AppendOpen => "AppendOpen"
  | TruncateOpen => "TruncateOpen" | TruncateSetLen => "TruncateSetLen" | TruncateSync => "TruncateSync"
  | CompactionValidate => "CompactionValidate" | CompactionPublish => "CompactionPublish"
  | CompactionPublishParentSync => "CompactionPublishParentSync" | WorkerDispatch => "WorkerDispatch"
  end.

Definition io_error (stage kind : string) : RuntimeError :=
  ("Task journal " +:+ stage +:+ " failed (kind=" +:+ kind +:+ ")")%string.

(** ** The file system *)

Definition Path : Type := list string.
Definition parent (p : Path) : option Path := match p with [] => None | _ :: p => Some p end.

Record FileSystem := mkFs {
  files : gmap Path (list Z);
  synced : gmap Path (list Z);
  dirs : gset Path;
  dir_syncs : list Path;
  armed : option ArmedFault;
  sync_calls : Z;
}.

Definition IO (A : Type) : Type := FileSystem -> result A RuntimeError * FileSystem.
#[global] Instance IO_ret : MRet IO := fun A a fs => (Ok a, fs).
#[global] Instance IO_bind : MBind IO := fun A B k m fs =>
  match m fs with (Ok a, fs) => k a fs | (Err e, fs) => (Err e, fs) end.

Definition fail {A} (e : RuntimeError) : IO A := fun fs => (Err e, fs).
Definition lift {A} (r : result A RuntimeError) : IO A := fun fs => (r, fs).
Definition get : IO FileSystem := fun fs => (Ok fs, fs).
Definition modify (f : FileSystem -> FileSystem) : IO unit := fun fs => (Ok tt, f fs).

Definition set_file (p : Path) (content : list Z) (fs : FileSystem) : FileSystem :=
  mkFs (<[p := content]> (files fs)) (synced fs) (dirs fs) (dir_syncs fs) (armed fs) (sync_calls fs).
Definition set_dirs (d : gset Path) (fs : FileSystem) : FileSystem :=
  mkFs (files fs) (synced fs) d (dir_syncs fs) (armed fs) (sync_calls fs).

(** [FaultInjector::check] and [record_sync]. *)
Definition check (kind : JournalKind) (point : FaultPoint) : IO unit := fun fs =>
  if bool_decide (armed fs = Some (mkFault kind point))
  then (Err ("Task journal injected durability fault at " +:+ kind_debug kind +:+ "/" +:+ point_debug point)%string,
        mkFs (files fs) (synced fs) (dirs fs) (dir_syncs fs) None (sync_calls fs))
  else (Ok tt, fs).

Definition record_sync : IO unit :=
  modify (fun fs => mkFs (files fs) (synced fs) (dirs fs) (dir_syncs fs) (armed fs) (u64_add (sync_calls fs) 1)).

(** Opening a new file, opening an existing one, appending, and syncing. *)
Definition open_new (p : Path) : IO unit := fun fs =>
  if bool_decide (is_Some (files fs !! p)) then (Err (io_error "create_open" "already_exists"), fs)
  else (Ok tt, set_file p [] fs).

Definition read_file (stage : string) (p : Path) : IO (list Z) := fun fs =>
  match files fs !! p with
  | Some content => (Ok content, fs)
  | None => (Err (io_error stage "not_found"), fs)
  end.

Definition open_existing (stage : string) (p : Path) : IO unit := read_file stage p ≫= fun _ => mret tt.

Definition write_all (p : Path) (bytes : list Z) : IO unit :=
  modify (fun fs => set_file p (default [] (files fs !! p) ++ bytes) fs).

Definition set_len (p : Path) (len : Z) : IO unit :=
  modify (fun fs => set_file p (take (Z.to_nat len) (default [] (files fs !! p))) fs).

Definition sync_all (p : Path) : IO unit :=
  modify (fun fs => mkFs (files fs) (<[p := default [] (files fs !! p)]> (synced fs)) (dirs fs)
                      (dir_syncs fs) (armed fs) (sync_calls fs)).

(** ** The format *)

Definition MAGIC : list Z := [79; 65; 73; 68; 69; 84; 74; 0].
Definition FORMAT_VERSION : Z := 1.
Definition FILE_HEADER_LEN : nat := length MAGIC + 2.
Definition FRAME_LENGTH_LEN : nat := 8.
Definition FRAME_CHECKSUM_LEN : nat := 4.
Definition MAX_FRAME_BYTES : Z := 256 * 1024 * 1024.

(** [to_le_bytes] and [from_le_bytes] of an [n]-byte integer. *)
Fixpoint to_le_bytes (n : nat) (v : Z) : list Z :=
  match n with O => [] | S n => (v mod 256) :: to_le_bytes n (v / 256) end.
Fixpoint from_le_bytes (l : list Z) : Z :=
  match l with [] => 0 | b :: l => b + 256 * from_le_bytes l end.

Definition u32_max : Z := 2 ^ 32 - 1.

(** One bit of [crc32]: [0_u32.wrapping_sub(crc & 1)] is the mask. *)
Definition crc32_bit (crc : Z) : Z :=
  let mask := (0 - Z.land crc 1) mod 2 ^ 32 in
  Z.lxor (Z.shiftr crc 1) (Z.land 0xedb88320 mask).

Definition crc32_byte (crc byte : Z) : Z := Nat.iter 8 crc32_bit (Z.lxor crc byte).

Definition crc32 (bytes : list Z) : Z := Z.lxor u32_max (foldl crc32_byte u32_max bytes).

Definition header : list Z := MAGIC ++ to_le_bytes 2 FORMAT_VERSION.

Definition validate_header (bytes : list Z) : result unit RuntimeError :=
  if bool_decide ((length bytes < FILE_HEADER_LEN)%nat) || negb (bool_decide (take (length MAGIC) bytes = MAGIC))
  then Err "Invalid Task journal header"%string
  else
    let version := from_le_bytes (take 2 (drop (length MAGIC) bytes)) in
    if bool_decide (version <> FORMAT_VERSION)
    then Err ("Unsupported Task journal version " +:+ pretty (Z.to_N version))%string
    else Ok tt.

(** [FramedRecord]: the codec of a record type.  [encode] is
    [serde_json::to_vec]; its error is that of the stage. *)
Class FramedRecord (T : Type) := {
  encode : T -> result (list Z) RuntimeError;
  decode : list Z -> result T RuntimeError;
  format_version : T -> Z;
  sequence : T -> Z;
}.

(** What serde documents of a derived codec: encoding yields bytes and decoding
    inverts it. *)
Class FramedRecordLaws (T : Type) `{FramedRecord T} := {
  encode_bytes : forall f p, encode f = Ok p -> Forall (fun b => 0 <= b < 256) p;
  decode_encode : forall f p, encode f = Ok p -> decode p = Ok f;
}.

(** ** Bytes *)

Lemma length_to_le_bytes n v : length (to_le_bytes n v) = n.
Proof. revert v. induction n; intros v; cbn; auto. Qed.

Lemma from_to_le_bytes n v : 0 <= v < 256 ^ Z.of_nat n -> from_le_bytes (to_le_bytes n v) = v.
Proof.
  revert v. induction n as [|n IH]; intros v Hv; cbn; [lia|].
  rewrite Nat2Z.inj_succ, Z.pow_succ_r in Hv by lia.
  rewrite IH; [pose proof (Z_div_mod_eq_full v 256); lia|].
  split; [apply Z.div_pos; lia|]. apply Z.div_lt_upper_bound; lia.
Qed.

Lemma lxor_u32 a b : 0 <= a < 2 ^ 32 -> 0 <= b < 2 ^ 32 -> 0 <= Z.lxor a b < 2 ^ 32.
Proof.
  intros Ha Hb. assert (0 <= Z.lxor a b) by (apply Z.lxor_nonneg; lia). split; [done|].
  destruct (Z.eq_dec (Z.lxor a b) 0) as [->|Hne]; [done|]. apply Z.log2_lt_pow2; [lia|].
  pose proof (Z.log2_lxor a b ltac:(lia) ltac:(lia)).
  assert (forall x, 0 <= x < 2 ^ 32 -> Z.log2 x < 32) as Hlog.
  { intros x Hx. destruct (Z.eq_dec x 0) as [->|]; [done|]. apply Z.log2_lt_pow2; lia. }
  pose proof (Hlog a Ha). pose proof (Hlog b Hb). lia.
Qed.

Lemma crc32_bit_u32 crc : 0 <= crc < 2 ^ 32 -> 0 <= crc32_bit crc < 2 ^ 32.
Proof.
  intros Hc. unfold crc32_bit. apply lxor_u32.
  - rewrite Z.shiftr_div_pow2 by lia. split; [apply Z.div_pos; lia|]. apply Z.div_lt_upper_bound; lia.
  - set (m := _ mod _). assert (0 <= Z.land 0xedb88320 m) by (apply Z.land_nonneg; left; lia).
    split; [done|]. assert (0 <= m) by (apply Z.mod_pos_bound; lia).
    destruct (Z.eq_dec (Z.land 0xedb88320 m) 0) as [->|]; [done|]. apply Z.log2_lt_pow2; [lia|].
    pose proof (Z.log2_land 0xedb88320 m ltac:(lia) ltac:(lia)) as Hl.
    change (Z.log2 0xedb88320) with 31 in Hl. lia.
Qed.

Lemma crc32_byte_u32 crc byte : 0 <= crc < 2 ^ 32 -> 0 <= byte < 256 -> 0 <= crc32_byte crc byte < 2 ^ 32.
Proof.
  intros Hc Hb. unfold crc32_byte. assert (0 <= Z.lxor crc byte < 2 ^ 32) as Hx by (apply lxor_u32; lia).
  generalize 8%nat. intros n. induction n as [|n IH]; [exact Hx|]. by apply crc32_bit_u32.
Qed.

(** The checksum is a [u32]. *)
Lemma crc32_u32 bytes : Forall (fun b => 0 <= b < 256) bytes -> 0 <= crc32 bytes < 2 ^ 32.
Proof.
  intros Hb. unfold crc32. apply lxor_u32; [done|].
  assert (0 <= u32_max < 2 ^ 32) as Hm by done. revert Hm. generalize u32_max.
  induction Hb as [|b bytes Hb Hbs IH]; intros crc Hc; [done|]. apply IH. by apply crc32_byte_u32.
Qed.

Section Frame.
Context {T : Type} `{FramedRecord T}.

Definition frame_too_large : RuntimeError :=
  ("Task journal frame exceeds " +:+ pretty (Z.to_N MAX_FRAME_BYTES) +:+ " bytes")%string.

Definition framed_len (payload : list Z) : Z :=
  Z.of_nat FRAME_LENGTH_LEN + Z.of_nat (length payload) + Z.of_nat FRAME_CHECKSUM_LEN.

Definition size_overflow : RuntimeError := "Task journal frame size overflow"%string.

(** One frame of the loop of [framed_file_len], on [usize]. *)
Definition add_frame_len (length : Z) (payload : list Z) : result Z RuntimeError :=
  if bool_decide (MAX_FRAME_BYTES < Z.of_nat (List.length payload)) then Err frame_too_large
  else ok_or (l ← u64_checked_add length (Z.of_nat FRAME_LENGTH_LEN);
              l ← u64_checked_add l (Z.of_nat (List.length payload));
              u64_checked_add l (Z.of_nat FRAME_CHECKSUM_LEN)) size_overflow.

Fixpoint framed_len_loop (length : Z) (frames : list T) : result Z RuntimeError :=
  match frames with
  | [] => Ok length
  | f :: frames =>
      let? payload := encode f in
      let? length := add_frame_len length payload in
      framed_len_loop length frames
  end.

Definition framed_file_len (frames : list T) : result Z RuntimeError :=
  framed_len_loop (Z.of_nat FILE_HEADER_LEN) frames.

Definition one_frame_file_len (frame : T) : result Z RuntimeError := framed_file_len [frame].

Definition write_frame (p : Path) (frame : T) (kind : JournalKind) : IO unit :=
  payload ← lift (encode frame);
  if bool_decide (MAX_FRAME_BYTES < Z.of_nat (length payload)) then fail frame_too_large
  else
    check kind FrameLengthWrite ;;
    write_all p (to_le_bytes FRAME_LENGTH_LEN (Z.of_nat (length payload))) ;;
    check kind FramePayloadWrite ;;
    write_all p payload ;;
    check kind FrameChecksumWrite ;;
    write_all p (to_le_bytes FRAME_CHECKSUM_LEN (crc32 payload)).

(** [sync_directory] on unix. *)
Definition sync_directory (p : Path) (kind : JournalKind) (point : FaultPoint) : IO unit :=
  check kind point ;;
  record_sync ;;
  fs ← get;
  if bool_decide (p ∈ dirs fs)
  then modify (fun fs => mkFs (files fs) (synced fs) (dirs fs) (p :: dir_syncs fs) (armed fs) (sync_calls fs))
  else fail (io_error "parent_sync_open" "not_found").

(** The directories from [directory] up that do not exist; the walk fails when
    it leaves the root. *)
Fixpoint missing_dirs (directory : Path) (fs : FileSystem) : result (list Path) RuntimeError :=
  if bool_decide (directory ∈ dirs fs) then Ok []
  else match directory with
       | [] => Err "Task journal directory has no existing ancestor"%string
       | _ :: up => let? rest := missing_dirs up fs in Ok (directory :: rest)
       end.

(** [fs::create_dir_all]: the directory and all its ancestors. *)
Fixpoint ancestors (p : Path) : list Path := p :: match p with [] => [] | _ :: up => ancestors up end.

Fixpoint sync_parents (created : list Path) (kind : JournalKind) : IO unit :=
  match created with
  | [] => mret tt
  | d :: created =>
      match parent d with
      | None => fail "Task journal directory has no parent"%string
      | Some up => sync_directory up kind DirectoryParentSync ;; sync_parents created kind
      end
  end.

Definition create_directory_durably (directory : Path) (kind : JournalKind) : IO unit :=
  fs ← get;
  missing ← lift (missing_dirs directory fs);
  modify (fun fs => set_dirs (list_to_set (ancestors directory) ∪ dirs fs) fs) ;;
  match missing with
  | [] =>
      match parent directory with
      | None => fail "Task journal directory has no parent"%string
      | Some up => sync_directory up kind DirectoryParentSync
      end
  | _ => sync_parents (rev missing) kind
  end.

Definition create_with_faults (p : Path) (frame : T) (kind : JournalKind) : IO unit :=
  match parent p with
  | None => fail "Task journal path has no parent"%string
  | Some up =>
      create_directory_durably up kind ;;
      check kind CreateOpen ;;
      open_new p ;;
      check kind CreateHeaderWrite ;;
      write_all p MAGIC ;;
      write_all p (to_le_bytes 2 FORMAT_VERSION) ;;
      write_frame p frame kind ;;
      check kind FileSync ;;
      record_sync ;;
      sync_all p ;;
      sync_directory up kind ParentSync
  end.

Definition append_with_faults (p : Path) (frame : T) (kind : JournalKind) : IO unit :=
  check kind AppendOpen ;;
  open_existing "append_open" p ;;
  write_frame p frame kind ;;
  check kind FileSync ;;
  record_sync ;;
  sync_all p.

Record ReplayedFrames := mkReplayed {
  frames : list T;
  frame_ends : list Z;
  frame_count : nat;
}.

(** The loop of [replay_internal] on the bytes from [cursor] on; [None] when the
    fuel is too small. *)
Fixpoint replay_loop (fuel : nat) (retain : bool) (rest : list Z) (cursor expected : Z)
    (acc : list T) (ends : list Z) : option (result (list T * list Z) RuntimeError) :=
  if bool_decide (rest = []) then Some (Ok (acc, ends))
  else if bool_decide ((length rest < FRAME_LENGTH_LEN)%nat) then Some (Ok (acc, ends))
  else
    let payload_len := from_le_bytes (take FRAME_LENGTH_LEN rest) in
    if bool_decide (MAX_FRAME_BYTES < payload_len) then Some (Err frame_too_large)
    else
      let frame_len := Z.of_nat FRAME_LENGTH_LEN + payload_len + Z.of_nat FRAME_CHECKSUM_LEN in
      if bool_decide (Z.of_nat (length rest) < frame_len) then Some (Ok (acc, ends))
      else
        let payload := take (Z.to_nat payload_len) (drop FRAME_LENGTH_LEN rest) in
        let checksum := from_le_bytes (take FRAME_CHECKSUM_LEN
                          (drop (FRAME_LENGTH_LEN + Z.to_nat payload_len) rest)) in
        if bool_decide (crc32 payload <> checksum)
        then Some (Err ("Task journal checksum mismatch at sequence " +:+ pretty (Z.to_N expected))%string)
        else
          match decode payload with
          | Err e => Some (Err e)
          | Ok frame =>
              if bool_decide (format_version frame <> FORMAT_VERSION)
              then Some (Err ("Unsupported journal frame version " +:+ pretty (Z.to_N (format_version frame)))%string)
              else if bool_decide (sequence frame <> expected)
              then Some (Err ("Task journal sequence gap: expected " +:+ pretty (Z.to_N expected)
                              +:+ ", found " +:+ pretty (Z.to_N (sequence frame)))%string)
              else match fuel with
                   | O => None
                   | S fuel =>
                       let cursor := u64_add cursor frame_len in
                       replay_loop fuel retain (drop (Z.to_nat frame_len) rest) cursor
                         (u64_add expected 1) (if retain then acc ++ [frame] else acc) (ends ++ [cursor])
                   end
          end.

Definition replay_internal (p : Path) (retain : bool) : IO ReplayedFrames :=
  bytes ← read_file "replay_open" p;
  let file_len := Z.of_nat (length bytes) in
  if bool_decide ((length bytes < FILE_HEADER_LEN)%nat) then fail "Invalid Task journal header"%string
  else
    lift (validate_header (take FILE_HEADER_LEN bytes)) ;;
    let rest := drop FILE_HEADER_LEN bytes in
    match replay_loop (length rest) retain rest (Z.of_nat FILE_HEADER_LEN) 1 [] [] with
    | None => fail "out of fuel"%string
    | Some r =>
        '(acc, ends) ← lift r;
        let complete_len := default (Z.of_nat FILE_HEADER_LEN) (last ends) in
        (if bool_decide (0 < u64_saturating_sub file_len complete_len)
         then open_existing "tail_recovery_open" p ;; set_len p complete_len ;; sync_all p
         else mret tt) ;;
        mret (mkReplayed acc ends (length ends))
    end.

Definition replay (p : Path) : IO ReplayedFrames := replay_internal p true.
Definition scan (p : Path) : IO ReplayedFrames := replay_internal p false.

(** An index past [frame_ends] would panic; the lengths [replay_internal]
    returns rule it out. *)
Definition truncate_after_with_faults (p : Path) (replayed : ReplayedFrames) (retained_frames : nat)
    (kind : JournalKind) : IO unit :=
  if bool_decide ((frame_count replayed <= retained_frames)%nat) then mret tt
  else
    let retained_len := match retained_frames with
                        | O => Z.of_nat FILE_HEADER_LEN
                        | S k => default 0 (frame_ends replayed !! k)
                        end in
    check kind TruncateOpen ;;
    open_existing "reconcile_open" p ;;
    check kind TruncateSetLen ;;
    set_len p retained_len ;;
    check kind TruncateSync ;;
    record_sync ;;
    sync_all p.

Fixpoint write_frames (p : Path) (fs : list T) (kind : JournalKind) : IO unit :=
  match fs with
  | [] => mret tt
  | f :: fs => write_frame p f kind ;; write_frames p fs kind
  end.

Definition create_compacted_file (p : Path) (fs : list T) : IO unit :=
  match parent p with
  | None => fail "Task journal path has no parent"%string
  | Some up =>
      create_directory_durably up KindCompaction ;;
      check KindCompaction CreateOpen ;;
      open_new p ;;
      check KindCompaction CreateHeaderWrite ;;
      write_all p MAGIC ;;
      write_all p (to_le_bytes 2 FORMAT_VERSION) ;;
      write_frames p fs KindCompaction ;;
      check KindCompaction FileSync ;;
      record_sync ;;
      sync_all p ;;
      sync_directory up KindCompaction ParentSync
  end.

(** [durable_replace] on unix: [rename]. *)
Definition durable_replace (temporary p : Path) : IO unit :=
  content ← read_file "compact_replace" temporary;
  modify (fun fs => mkFs (<[p := content]> (delete temporary (files fs)))
                      (match synced fs !! temporary with
                       | Some s => <[p := s]> (delete temporary (synced fs))
                       | None => delete p (synced fs)
                       end)
                      (dirs fs) (dir_syncs fs) (armed fs) (sync_calls fs)).

Definition remove_file (p : Path) (fs : FileSystem) : FileSystem :=
  mkFs (delete p (files fs)) (delete p (synced fs)) (dirs fs) (dir_syncs fs) (armed fs) (sync_calls fs).

(** [temporary] is the fresh name drawn from a UUID. *)
Definition replace_frames_with_faults (p : Path) (fs : list T) (temporary : string) : IO unit :=
  if bool_decide (length fs = 0%nat) then fail "Task journal compaction requires at least one frame"%string
  else
    match parent p with
    | None => fail "Task journal path has no parent"%string
    | Some up =>
        let tmp := temporary :: up in
        fun st =>
          let '(r, st) :=
            (create_compacted_file tmp fs ;;
             check KindCompaction CompactionValidate ;;
             verified ← replay tmp;
             (if bool_decide (length (frames verified) <> length fs)
              then fail "Task journal compaction validation failed"%string else mret tt) ;;
             check KindCompaction CompactionPublish ;;
             durable_replace tmp p ;;
             sync_directory up KindCompaction CompactionPublishParentSync) st in
          (r, if is_ok r then st else remove_file tmp st)
    end.

Definition replace_with_faults (p : Path) (frame : T) (temporary : string) : IO unit :=
  replace_frames_with_faults p [frame] temporary.

(** ** Journals as bytes *)

Context `{!FramedRecordLaws T}.

Definition frame_bytes (f : T) : list Z :=
  match encode f with
  | Ok p => to_le_bytes FRAME_LENGTH_LEN (Z.of_nat (length p)) ++ p ++
            to_le_bytes FRAME_CHECKSUM_LEN (crc32 p)
  | Err _ => []
  end.

Definition journal (fs : list T) : list Z := header ++ concat (frame_bytes <$> fs).
Arguments journal : simpl never.

(** A frame that can be written as number [k]. *)
Definition good_frame (k : Z) (f : T) : Prop :=
  (exists p, encode f = Ok p /\ Z.of_nat (length p) <= MAX_FRAME_BYTES) /\
  format_version f = FORMAT_VERSION /\ sequence f = k.

Fixpoint good_frames (k : Z) (fs : list T) : Prop :=
  match fs with [] => True | f :: fs => good_frame k f /\ good_frames (k + 1) fs end.

(** A proper prefix of a frame: what an interrupted append leaves. *)
Definition torn (tail : list Z) : Prop :=
  exists k f, good_frame k f /\ tail `prefix_of` frame_bytes f /\ tail <> frame_bytes f.

Lemma good_frame_bytes k f :
  good_frame k f -> exists p, encode f = Ok p /\ decode p = Ok f /\ Z.of_nat (length p) <= MAX_FRAME_BYTES /\
    frame_bytes f = to_le_bytes FRAME_LENGTH_LEN (Z.of_nat (length p)) ++ p ++
                    to_le_bytes FRAME_CHECKSUM_LEN (crc32 p) /\
    from_le_bytes (to_le_bytes FRAME_LENGTH_LEN (Z.of_nat (length p))) = Z.of_nat (length p) /\
    from_le_bytes (to_le_bytes FRAME_CHECKSUM_LEN (crc32 p)) = crc32 p /\
    length (frame_bytes f) = (FRAME_LENGTH_LEN + length p + FRAME_CHECKSUM_LEN)%nat.
Proof.
  intros ((p & Hp & Hlen) & _ & _). exists p. unfold frame_bytes. rewrite Hp.
  split; [done|]. split; [by apply decode_encode|]. split; [done|]. split; [done|]. split; [|split].
  - apply from_to_le_bytes. unfold MAX_FRAME_BYTES in Hlen.
    change (256 ^ Z.of_nat FRAME_LENGTH_LEN) with (2 ^ 64). lia.
  - apply from_to_le_bytes. pose proof (crc32_u32 p (encode_bytes _ _ Hp)).
    by change (256 ^ Z.of_nat FRAME_CHECKSUM_LEN) with (2 ^ 32).
  - rewrite !length_app, !length_to_le_bytes. lia.
Qed.

(** One iteration of the replay loop. *)
Lemma replay_loop_step fuel retain f more cursor expected acc ends :
  good_frame expected f ->
  replay_loop (S fuel) retain (frame_bytes f ++ more) cursor expected acc ends
  = replay_loop fuel retain more (u64_add cursor (Z.of_nat (length (frame_bytes f)))) (u64_add expected 1)
      (if retain then acc ++ [f] else acc)
      (ends ++ [u64_add cursor (Z.of_nat (length (frame_bytes f)))]).
Proof.
  intros Hg. destruct (good_frame_bytes _ _ Hg) as (p & _ & Hdec & Hmax & Hb & Hl & Hc & Hlen).
  destruct Hg as (_ & Hv & Hs). cbn [replay_loop]. rewrite Hlen.
  assert (take FRAME_LENGTH_LEN (frame_bytes f ++ more)
    = to_le_bytes FRAME_LENGTH_LEN (Z.of_nat (length p))) as Htake.
  { rewrite Hb, <- app_assoc. rewrite take_app_length'; [done|]. by rewrite length_to_le_bytes. }
  assert (drop FRAME_LENGTH_LEN (frame_bytes f ++ more)
    = p ++ to_le_bytes FRAME_CHECKSUM_LEN (crc32 p) ++ more) as Hdrop.
  { rewrite Hb, <- !app_assoc. rewrite drop_app_length'; [done|]. by rewrite length_to_le_bytes. }
  rewrite Htake, Hl, Nat2Z.id, <- drop_drop, Hdrop.
  rewrite take_app_length, drop_app_length, take_app_length' by by rewrite length_to_le_bytes.
  rewrite Hc, Hdec, Hv, Hs.
  assert (length (frame_bytes f ++ more) = FRAME_LENGTH_LEN + length p + FRAME_CHECKSUM_LEN + length more)%nat
    as Hall by by rewrite length_app, Hlen.
  rewrite (bool_decide_eq_false_2 (frame_bytes f ++ more = [])).
  2: { intros Hnil. rewrite Hnil in Hall. cbn in Hall. lia. }
  rewrite (bool_decide_eq_false_2 (length (frame_bytes f ++ more) < FRAME_LENGTH_LEN)%nat) by lia.
  rewrite (bool_decide_eq_false_2 (MAX_FRAME_BYTES < _)) by lia.
  rewrite (bool_decide_eq_false_2 (Z.of_nat (length (frame_bytes f ++ more)) < _)) by lia.
  rewrite (bool_decide_eq_false_2 (crc32 p <> crc32 p)) by tauto.
  rewrite (bool_decide_eq_false_2 (FORMAT_VERSION <> FORMAT_VERSION)) by tauto.
  rewrite (bool_decide_eq_false_2 (expected <> expected)) by tauto.
  replace (Z.of_nat (FRAME_LENGTH_LEN + length p + FRAME_CHECKSUM_LEN))
    with (Z.of_nat FRAME_LENGTH_LEN + Z.of_nat (length p) + Z.of_nat FRAME_CHECKSUM_LEN) by lia.
  replace (drop _ (frame_bytes f ++ more)) with more; [done|].
  rewrite drop_app_length'; [done|]. lia.
Qed.

Lemma replay_loop_torn fuel retain tail cursor expected acc ends :
  torn tail -> replay_loop fuel retain tail cursor expected acc ends = Some (Ok (acc, ends)).
Proof.
  intros (k & f & Hg & [more Hpre] & Hne).
  destruct (good_frame_bytes _ _ Hg) as (p & _ & _ & Hmax & Hb & Hl & _ & Hlen).
  assert (length tail < length (frame_bytes f))%nat as Hlt.
  { rewrite Hpre, length_app. destruct more; [|cbn; lia]. rewrite app_nil_r in Hpre. done. }
  assert (replay_loop fuel retain tail cursor expected acc ends
    = if bool_decide (tail = []) then Some (Ok (acc, ends))
      else if bool_decide ((length tail < FRAME_LENGTH_LEN)%nat) then Some (Ok (acc, ends))
      else replay_loop fuel retain tail cursor expected acc ends) as ->.
  { destruct fuel; cbn [replay_loop]; repeat split_test; done. }
  split_test; [done|]. split_test; [done|].
  assert (from_le_bytes (take FRAME_LENGTH_LEN tail) = Z.of_nat (length p)) as Hpl.
  { rewrite <- Hl. f_equal. rewrite Hb in Hpre. apply (f_equal (take FRAME_LENGTH_LEN)) in Hpre.
    rewrite take_app_length' in Hpre by by rewrite length_to_le_bytes.
    rewrite take_app_le in Hpre by lia. done. }
  destruct fuel; cbn [replay_loop]; rewrite Hpl;
    do 2 (rewrite bool_decide_eq_false_2 by done); rewrite bool_decide_eq_false_2 by lia;
    rewrite bool_decide_eq_true_2; done || (rewrite Hlen in Hlt; lia).
Qed.
(** The ends of the frames of a journal that starts at [cursor]. *)
Fixpoint ends_from (cursor : Z) (fs : list T) : list Z :=
  match fs with
  | [] => []
  | f :: fs => let c := cursor + Z.of_nat (length (frame_bytes f)) in c :: ends_from c fs
  end.

Lemma replay_loop_spec fuel retain fs tail cursor expected acc ends :
  good_frames expected fs -> (tail = [] \/ torn tail) -> (length fs <= fuel)%nat ->
  0 <= cursor -> 0 <= expected ->
  cursor + Z.of_nat (length (concat (frame_bytes <$> fs))) < u64_modulus ->
  expected + Z.of_nat (length fs) < u64_modulus ->
  replay_loop fuel retain (concat (frame_bytes <$> fs) ++ tail) cursor expected acc ends
  = Some (Ok (if retain then acc ++ fs else acc, ends ++ ends_from cursor fs)).
Proof.
  intros Hg Ht Hfuel. revert fuel cursor expected acc ends Hg Hfuel.
  induction fs as [|f fs IH]; intros fuel cursor expected acc ends Hg Hfuel Hc0 He0 Hc He.
  { cbn [fmap list_fmap concat app ends_from]. rewrite !app_nil_r.
    assert (forall b : bool, (if b then acc else acc) = acc) as -> by by intros [].
    destruct Ht as [->|Ht]; [by destruct fuel|]. by apply replay_loop_torn. }
  destruct Hg as [Hf Hg]. destruct fuel as [|fuel]; [cbn in Hfuel; lia|].
  cbn [fmap list_fmap concat] in *. rewrite length_app in Hc. rewrite <- app_assoc, replay_loop_step by done.
  cbn [length] in *. rewrite !u64_add_small by (unfold is_u64; lia).
  rewrite IH; [|done|lia..]. f_equal. f_equal. cbn [ends_from]. rewrite <- app_assoc.
  destruct retain; [by rewrite <- app_assoc|done].
Qed.

Lemma last_ends_from cursor fs :
  default cursor (last (ends_from cursor fs)) = cursor + Z.of_nat (length (concat (frame_bytes <$> fs))).
Proof.
  revert cursor. induction fs as [|f fs IH]; intros cursor; cbn [ends_from]; [cbn; lia|].
  cbn [fmap list_fmap concat]. rewrite length_app, last_cons.
  specialize (IH (cursor + Z.of_nat (length (frame_bytes f)))).
  destruct (last _); cbn [from_option id] in *; unfold id in *; lia.
Qed.

Lemma length_ends_from cursor fs : length (ends_from cursor fs) = length fs.
Proof. revert cursor. induction fs; intros cursor; cbn; auto. Qed.

(** What a replayed journal reports. *)
Definition replayed (retain : bool) (fs : list T) : ReplayedFrames :=
  mkReplayed (if retain then fs else []) (ends_from (Z.of_nat FILE_HEADER_LEN) fs) (length fs).

Lemma header_ok rest :
  validate_header (take FILE_HEADER_LEN (header ++ rest)) = Ok tt.
Proof. reflexivity. Qed.

Definition journal_fits (fs : list T) : Prop :=
  Z.of_nat (length (journal fs)) + 1 < u64_modulus.

Lemma good_frames_length k fs :
  good_frames k fs -> (length fs <= length (concat (frame_bytes <$> fs)))%nat.
Proof.
  revert k. induction fs as [|f fs IH]; intros k; [done|]. intros [Hf Hg].
  cbn [fmap list_fmap concat length]. rewrite length_app.
  destruct (good_frame_bytes _ _ Hf) as (p & _ & _ & _ & _ & _ & _ & ->).
  specialize (IH _ Hg). unfold FRAME_LENGTH_LEN. lia.
Qed.

Lemma replay_spec p retain fs tail st :
  good_frames 1 fs -> (tail = [] \/ torn tail) -> journal_fits fs ->
  files st !! p = Some (journal fs ++ tail) ->
  exists st', replay_internal p retain st = (Ok (replayed retain fs), st') /\
    files st' = <[p := journal fs]> (files st) /\ dirs st' = dirs st /\
    (tail = [] -> st' = st) /\ (tail <> [] -> synced st' = <[p := journal fs]> (synced st)).
Proof.
  intros Hg Ht Hfit Hfile. pose proof (good_frames_length _ _ Hg) as Hlen.
  assert (length (journal fs) = FILE_HEADER_LEN + length (concat (frame_bytes <$> fs)))%nat as Hjl
    by apply length_app.
  unfold journal_fits in Hfit.
  assert (exists rest, drop FILE_HEADER_LEN (journal fs ++ tail) = rest /\
    replay_loop (length rest) retain rest (Z.of_nat FILE_HEADER_LEN) 1 [] []
    = Some (Ok (if retain then fs else [], ends_from (Z.of_nat FILE_HEADER_LEN) fs))) as (rest & Hrest & Hloop).
  { exists (concat (frame_bytes <$> fs) ++ tail). split.
    - unfold journal. rewrite <- app_assoc. by apply drop_app_length'.
    - rewrite replay_loop_spec; [done|done|done|rewrite length_app; lia|lia|lia|lia|lia]. }
  unfold replay_internal, mbind, IO_bind, read_file. rewrite Hfile, length_app, Hrest, Hloop.
  rewrite bool_decide_eq_false_2 by lia.
  assert (validate_header (take FILE_HEADER_LEN (journal fs ++ tail)) = Ok tt) as ->
    by (unfold journal; rewrite <- app_assoc; apply header_ok).
  unfold lift. rewrite last_ends_from, length_ends_from.
  replace (Z.of_nat FILE_HEADER_LEN + _) with (Z.of_nat (length (journal fs))) by lia.
  unfold u64_saturating_sub. destruct tail as [|b tail].
  - rewrite bool_decide_eq_false_2 by (cbn [length]; lia). exists st. split; [done|].
    rewrite app_nil_r in Hfile. split; [by rewrite insert_id|done].
  - rewrite bool_decide_eq_true_2 by (cbn [length]; lia).
    unfold open_existing, mbind, IO_bind, read_file, mret, IO_ret, set_len, sync_all, modify.
    rewrite Hfile. eexists. split; [done|]. cbn [files synced dirs set_file].
    rewrite lookup_insert_eq, Hfile. cbn [from_option]. unfold id. rewrite Nat2Z.id, take_app_length.
    split; [done|]. split; [done|]. done.
Qed.

(** ** Any file *)

Definition bytes_ok (l : list Z) : Prop := Forall (fun b => 0 <= b < 256) l.

Lemma from_le_bytes_nonneg l : bytes_ok l -> 0 <= from_le_bytes l.
Proof. induction 1; cbn; lia. Qed.

(** [rest] starts with the complete frame [f] of [len] bytes. *)
Record frame_at (rest : list Z) (expected : Z) (f : T) (len : Z) : Prop := {
  fa_len : len = Z.of_nat FRAME_LENGTH_LEN + from_le_bytes (take FRAME_LENGTH_LEN rest) + Z.of_nat FRAME_CHECKSUM_LEN;
  fa_head : (FRAME_LENGTH_LEN <= length rest)%nat;
  fa_max : from_le_bytes (take FRAME_LENGTH_LEN rest) <= MAX_FRAME_BYTES;
  fa_all : len <= Z.of_nat (length rest);
  fa_crc : let n := Z.to_nat (from_le_bytes (take FRAME_LENGTH_LEN rest)) in
    crc32 (take n (drop FRAME_LENGTH_LEN rest))
    = from_le_bytes (take FRAME_CHECKSUM_LEN (drop (FRAME_LENGTH_LEN + n) rest));
  fa_decode : decode (take (Z.to_nat (from_le_bytes (take FRAME_LENGTH_LEN rest))) (drop FRAME_LENGTH_LEN rest)) = Ok f;
  fa_version : format_version f = FORMAT_VERSION;
  fa_sequence : sequence f = expected;
}.

(** The loop stops, fails, or reads a complete frame and goes on after it. *)
Lemma replay_loop_cases fuel retain rest cursor expected acc ends :
  replay_loop fuel retain rest cursor expected acc ends = Some (Ok (acc, ends)) \/
  (exists e, replay_loop fuel retain rest cursor expected acc ends = Some (Err e)) \/
  (exists f len, frame_at rest expected f len /\
     replay_loop fuel retain rest cursor expected acc ends
     = match fuel with
       | O => None
       | S fuel => replay_loop fuel retain (drop (Z.to_nat len) rest) (u64_add cursor len) (u64_add expected 1)
                     (if retain then acc ++ [f] else acc) (ends ++ [u64_add cursor len])
       end).
Proof.
  destruct fuel; cbn [replay_loop]; repeat (split_test; [by eauto|]);
    (destruct (decode _) as [f|e] eqn:Hd; [|by eauto]); repeat (split_test; [by eauto|]);
    right; right; exists f; eexists; (split; [constructor; [reflexivity|..]|done]);
    cbv zeta; try done; try lia; by apply dec_stable.
Qed.

Lemma replay_loop_frame fuel retain rest cursor expected acc ends f len :
  frame_at rest expected f len ->
  replay_loop (S fuel) retain rest cursor expected acc ends
  = replay_loop fuel retain (drop (Z.to_nat len) rest) (u64_add cursor len) (u64_add expected 1)
      (if retain then acc ++ [f] else acc) (ends ++ [u64_add cursor len]).
Proof.
  intros []. cbn [replay_loop]. rewrite (bool_decide_eq_false_2 (rest = [])).
  2: { intros ->. unfold FRAME_LENGTH_LEN in *. cbn in *. lia. }
  rewrite (bool_decide_eq_false_2 (length rest < FRAME_LENGTH_LEN)%nat) by lia.
  rewrite (bool_decide_eq_false_2 (MAX_FRAME_BYTES < _)) by lia.
  rewrite (bool_decide_eq_false_2 (Z.of_nat (length rest) < _)) by lia.
  rewrite (bool_decide_eq_false_2 (crc32 _ <> _)) by tauto. rewrite fa_decode0, fa_version0, fa_sequence0.
  rewrite (bool_decide_eq_false_2 (FORMAT_VERSION <> FORMAT_VERSION)) by tauto.
  rewrite (bool_decide_eq_false_2 (expected <> expected)) by tauto. by subst len.
Qed.

Lemma frame_at_nonneg rest expected f len : bytes_ok rest -> frame_at rest expected f len -> 12 <= len.
Proof.
  intros Hb [Hl]. pose proof (from_le_bytes_nonneg (take FRAME_LENGTH_LEN rest) (Forall_take _ _ _ Hb)).
  unfold FRAME_LENGTH_LEN, FRAME_CHECKSUM_LEN in *. lia.
Qed.

(** Cutting the file after the frame leaves the frame. *)
Lemma frame_at_take rest expected f len n :
  bytes_ok rest -> frame_at rest expected f len -> len <= Z.of_nat n -> frame_at (take n rest) expected f len.
Proof.
  intros Hb Hf Hn. pose proof (frame_at_nonneg _ _ _ _ Hb Hf) as H12. destruct Hf as [Hl Hh Hm Ha Hc Hd Hv Hs].
  pose proof (from_le_bytes_nonneg (take FRAME_LENGTH_LEN rest) (Forall_take _ _ _ Hb)) as Hpos.
  unfold FRAME_LENGTH_LEN, FRAME_CHECKSUM_LEN in *.
  assert (take 8 (take n rest) = take 8 rest) as Ht by (rewrite take_take; f_equal; lia).
  assert (forall k m, (k + m <= n)%nat -> take m (drop k (take n rest)) = take m (drop k rest)) as Hcut.
  { intros k m Hkm. rewrite skipn_firstn_comm, take_take. f_equal. lia. }
  constructor; unfold FRAME_LENGTH_LEN, FRAME_CHECKSUM_LEN; rewrite ?Ht, ?length_take; try done; try lia.
  - cbv zeta in *. rewrite !Hcut by lia. done.
  - rewrite !Hcut by lia. done.
Qed.

Lemma frame_at_rest rest expected f len :
  bytes_ok rest -> frame_at rest expected f len ->
  bytes_ok (drop (Z.to_nat len) rest) /\ Z.of_nat (length (drop (Z.to_nat len) rest)) = Z.of_nat (length rest) - len.
Proof.
  intros Hb Hf. pose proof (frame_at_nonneg _ _ _ _ Hb Hf). destruct Hf. split; [by apply Forall_drop|].
  rewrite length_drop. lia.
Qed.

(** C40. Replay terminates on every file: with one step of fuel per byte the
    loop of [replay_internal] always ends. *)
Theorem replay_terminates fuel retain rest cursor expected acc ends :
  bytes_ok rest -> (length rest <= fuel)%nat ->
  is_Some (replay_loop fuel retain rest cursor expected acc ends).
Proof.
  revert rest cursor expected acc ends. induction fuel as [|fuel IH]; intros rest cursor expected acc ends Hb Hfuel.
  { destruct rest; [|cbn in Hfuel; lia]. eexists. done. }
  destruct (replay_loop_cases (S fuel) retain rest cursor expected acc ends)
    as [-> | [[e ->] | (f & len & Hf & ->)]]; [by eexists..|].
  pose proof (frame_at_nonneg _ _ _ _ Hb Hf). destruct (frame_at_rest _ _ _ _ Hb Hf). apply IH; [done|lia].
Qed.

(** The loop reads the same when the file is cut after the last frame it
    accepted. *)
Lemma replay_loop_cut fuel retain rest cursor expected acc ends acc' ends' :
  bytes_ok rest -> 0 <= cursor -> cursor + Z.of_nat (length rest) < u64_modulus ->
  replay_loop fuel retain rest cursor expected acc ends = Some (Ok (acc', ends')) ->
  exists more, ends' = ends ++ more /\ let n := default cursor (last more) in
    cursor <= n <= cursor + Z.of_nat (length rest) /\
    forall fuel', n - cursor <= Z.of_nat fuel' ->
      replay_loop fuel' retain (take (Z.to_nat (n - cursor)) rest) cursor expected acc ends = Some (Ok (acc', ends')).
Proof.
  revert rest cursor expected acc ends. induction fuel as [|fuel IH]; intros rest cursor expected acc ends Hb Hc Hlt Hok;
    match type of Hok with replay_loop ?k _ _ _ _ _ _ = _ =>
      destruct (replay_loop_cases k retain rest cursor expected acc ends)
        as [Hl | [[e Hl] | (f & len & Hf & Hl)]] end; rewrite Hok in Hl; try done.
  1, 2: injection Hl as -> ->; exists []; rewrite app_nil_r; split; [done|]; cbn; unfold id;
    split; [lia|]; intros fuel' _; rewrite Z.sub_diag; by destruct fuel'.
  pose proof (frame_at_nonneg _ _ _ _ Hb Hf) as H12. destruct (frame_at_rest _ _ _ _ Hb Hf) as [Hb' Hlen].
  pose proof (fa_all _ _ _ _ Hf) as Hall. rewrite (u64_add_small cursor len) in Hl by (unfold is_u64; lia).
  destruct (IH _ (cursor + len) _ _ _ Hb' ltac:(lia) ltac:(lia) (eq_sym Hl)) as (more & -> & Hn & Hcut).
  exists ((cursor + len) :: more). rewrite <- app_assoc. split; [done|]. cbv zeta.
  assert (default cursor (last ((cursor + len) :: more)) = default (cursor + len) (last more)) as ->
    by (rewrite last_cons; by destruct (last more)).
  set (n := default (cursor + len) (last more)) in *. split; [lia|]. intros fuel' Hfuel.
  destruct fuel' as [|fuel']; [lia|]. rewrite (replay_loop_frame _ _ _ _ _ _ _ f len) by (apply frame_at_take; auto; lia).
  rewrite (u64_add_small cursor len) by (unfold is_u64; lia). rewrite skipn_firstn_comm.
  replace (Z.to_nat (n - cursor) - Z.to_nat len)%nat with (Z.to_nat (n - (cursor + len))) by lia.
  rewrite Hcut by lia. by rewrite <- app_assoc.
Qed.

(** [replay_internal] as a function of the content: what is read, and where the
    file is cut. *)
Definition read_journal (retain : bool) (bytes : list Z) : result (list T * list Z) RuntimeError :=
  if bool_decide ((length bytes < FILE_HEADER_LEN)%nat) then Err "Invalid Task journal header"%string
  else
    let? _ := validate_header (take FILE_HEADER_LEN bytes) in
    let rest := drop FILE_HEADER_LEN bytes in
    default (Err "out of fuel"%string)
      (replay_loop (length rest) retain rest (Z.of_nat FILE_HEADER_LEN) 1 [] []).

Definition trimmed (p : Path) (bytes : list Z) (len : Z) (st : FileSystem) : FileSystem :=
  if bool_decide (0 < u64_saturating_sub (Z.of_nat (length bytes)) len)
  then mkFs (<[p := take (Z.to_nat len) bytes]> (files st)) (<[p := take (Z.to_nat len) bytes]> (synced st))
         (dirs st) (dir_syncs st) (armed st) (sync_calls st)
  else st.

Lemma replay_internal_eq p retain st bytes :
  files st !! p = Some bytes ->
  replay_internal p retain st =
  match read_journal retain bytes with
  | Err e => (Err e, st)
  | Ok (acc, ends) => (Ok (mkReplayed acc ends (length ends)),
                       trimmed p bytes (default (Z.of_nat FILE_HEADER_LEN) (last ends)) st)
  end.
Proof.
  intros Hfile. unfold replay_internal, read_journal, trimmed, mbind, IO_bind, read_file. rewrite Hfile.
  split_test; [done|]. unfold lift. destruct (validate_header _) as [[]|e]; [|done]. cbn [result_bind].
  destruct (replay_loop _ _ _ _ _ _ _) as [[[acc ends]|e]|]; [|done..]. cbn [from_option id].
  split_test; [|done]. unfold open_existing, mbind, IO_bind, read_file, set_len, sync_all, modify, mret, IO_ret.
  rewrite Hfile. cbn [files set_file synced dirs dir_syncs armed sync_calls]. by rewrite lookup_insert_eq, Hfile.
Qed.

Lemma read_journal_cut retain bytes acc ends :
  bytes_ok bytes -> Z.of_nat (length bytes) < u64_modulus -> read_journal retain bytes = Ok (acc, ends) ->
  let n := default (Z.of_nat FILE_HEADER_LEN) (last ends) in
  Z.of_nat FILE_HEADER_LEN <= n <= Z.of_nat (length bytes) /\
  read_journal retain (take (Z.to_nat n) bytes) = Ok (acc, ends).
Proof.
  intros Hb Hlt. unfold read_journal. split_test; [done|].
  destruct (validate_header _) as [u|e] eqn:Hv; [|done]. cbn [result_bind].
  destruct (replay_loop _ _ _ _ _ _ _) as [r|] eqn:Hl; [|done]. cbn [from_option id]. intros ->.
  assert (length (drop FILE_HEADER_LEN bytes) = length bytes - FILE_HEADER_LEN)%nat as Hd by apply length_drop.
  apply replay_loop_cut in Hl as (more & -> & Hn & Hcut); [|by apply Forall_drop|lia|lia].
  cbn [app]. set (m := default _ (last more)) in *. split; [lia|].
  rewrite length_take, bool_decide_eq_false_2 by lia.
  rewrite take_take, Nat.min_l, Hv by lia. cbn [result_bind].
  rewrite skipn_firstn_comm. replace (Z.to_nat m - FILE_HEADER_LEN)%nat with (Z.to_nat (m - Z.of_nat FILE_HEADER_LEN)) by lia.
  rewrite Hcut; [done|]. rewrite length_take. lia.
Qed.

(** Replay only trims: on any file, an error leaves the disk as it was; a
    success leaves a prefix of the file, and replaying that prefix gives the
    same frames and changes nothing more. *)
Theorem replay_only_trims p retain st bytes :
  files st !! p = Some bytes -> bytes_ok bytes -> Z.of_nat (length bytes) < u64_modulus ->
  match replay_internal p retain st with
  | (Ok r, st') => (exists n, files st' = <[p := take n bytes]> (files st)) /\
                   replay_internal p retain st' = (Ok r, st')
  | (Err _, st') => st' = st
  end.
Proof.
  intros Hfile Hb Hlt. rewrite (replay_internal_eq _ _ _ _ Hfile).
  destruct (read_journal retain bytes) as [[acc ends]|e] eqn:Hr; [|done].
  destruct (read_journal_cut _ _ _ _ Hb Hlt Hr) as [Hn Hcut]. cbv zeta in *.
  set (n := default _ (last ends)) in *.
  assert (files (trimmed p bytes n st) = <[p := take (Z.to_nat n) bytes]> (files st)) as Hf.
  { unfold trimmed. split_test; [done|]. unfold u64_saturating_sub in *. rewrite take_ge by lia. by rewrite insert_id. }
  split; [by eexists|]. rewrite (replay_internal_eq _ _ _ (take (Z.to_nat n) bytes)) by (rewrite Hf; apply lookup_insert_eq).
  rewrite Hcut. f_equal. fold n. unfold trimmed at 1. rewrite bool_decide_eq_false_2; [done|].
  unfold u64_saturating_sub. rewrite length_take. lia.
Qed.

(** ** Writing *)

(** The disk but for the content of [p], to which [w] was appended. *)
Record extends (p : Path) (w : list Z) (st st' : FileSystem) : Prop := {
  ex_content : forall c, files st !! p = Some c -> files st' !! p = Some (c ++ w);
  ex_other : forall q, q <> p -> files st' !! q = files st !! q;
  ex_synced : synced st' = synced st;
  ex_dirs : dirs st' = dirs st;
}.

Lemma extends_refl p st : extends p [] st st.
Proof. split; try done. intros c Hc. by rewrite app_nil_r. Qed.

Lemma extends_trans p w1 w2 st1 st2 st3 :
  extends p w1 st1 st2 -> extends p w2 st2 st3 -> extends p (w1 ++ w2) st1 st3.
Proof.
  intros [H1 H2 H3 H4] [H5 H6 H7 H8]. split; try congruence.
  - intros c Hc. rewrite (H5 _ (H1 _ Hc)). by rewrite app_assoc.
  - intros q Hq. by rewrite H6, H2.
Qed.

Lemma check_spec kind point st :
  exists r st', check kind point st = (r, st') /\ (forall p, extends p [] st st') /\
    dir_syncs st' = dir_syncs st /\ (r = Ok tt -> st' = st).
Proof.
  unfold check. split_test; eexists _, _; (split; [done|]); (split; [|done]).
  - intros p. split; try done. intros c Hc. by rewrite app_nil_r.
  - intros p. apply extends_refl.
Qed.

Lemma write_all_extends p w st : is_Some (files st !! p) -> extends p w st (write_all p w st).2.
Proof.
  intros [c Hc]. split; cbn; try done.
  - intros c' Hc'. simplify_eq. rewrite Hc. cbn. by rewrite lookup_insert_eq.
  - intros q Hq. by rewrite lookup_insert_ne.
Qed.

Lemma extends_exists p w st st' : extends p w st st' -> is_Some (files st !! p) -> is_Some (files st' !! p).
Proof. intros [Hc _ _ _] [c Hf]. rewrite (Hc _ Hf). eauto. Qed.

(** A fault point followed by a write. *)
Lemma checked_write kind point p w st :
  is_Some (files st !! p) ->
  exists r st', (check kind point ;; write_all p w) st = (r, st') /\
    ((exists e, r = Err e) /\ extends p [] st st' \/ r = Ok tt /\ extends p w st st').
Proof.
  intros Hf. unfold mbind, IO_bind. destruct (check_spec kind point st) as (r & st1 & -> & He & _ & Hok).
  destruct r as [[]|e].
  - rewrite Hok by done. eexists _, _. split; [done|]. right. split; [done|]. by apply write_all_extends.
  - eexists _, _. split; [done|]. left. split; [eauto|]. apply He.
Qed.

Lemma write_frame_spec p f k kind st :
  good_frame k f -> is_Some (files st !! p) ->
  exists r w st', write_frame p f kind st = (r, st') /\ w `prefix_of` frame_bytes f /\
    extends p w st st' /\ (r = Ok tt -> w = frame_bytes f).
Proof.
  intros Hg Hf. destruct (good_frame_bytes _ _ Hg) as (payload & Henc & _ & Hmax & Hb & _).
  assert (write_frame p f kind st
    = ((check kind FrameLengthWrite ;; write_all p (to_le_bytes FRAME_LENGTH_LEN (Z.of_nat (length payload)))) ;;
       (check kind FramePayloadWrite ;; write_all p payload) ;;
       (check kind FrameChecksumWrite ;; write_all p (to_le_bytes FRAME_CHECKSUM_LEN (crc32 payload)))) st) as ->.
  { unfold write_frame, mbind, IO_bind, lift. rewrite Henc, bool_decide_eq_false_2 by lia.
    destruct (check kind FrameLengthWrite st) as [[[]|e] st1]; [|done].
    destruct (write_all p _ st1) as [[[]|e] st2]; [|done].
    by destruct (check kind FramePayloadWrite st2) as [[[]|e] st3]. }
  unfold mbind at 1, IO_bind at 1.
  destruct (checked_write kind FrameLengthWrite p (to_le_bytes FRAME_LENGTH_LEN (Z.of_nat (length payload))) st Hf)
    as (r1 & st1 & -> & [[[e ->] He]|[-> He1]]).
  { eexists _, [], _. split; [done|]. split; [apply prefix_nil|]. split; [done|done]. }
  pose proof (extends_exists _ _ _ _ He1 Hf) as Hf1. unfold mbind at 1, IO_bind at 1.
  destruct (checked_write kind FramePayloadWrite p payload st1 Hf1) as (r2 & st2 & -> & [[[e ->] He]|[-> He2]]).
  { eexists _, _, _. split; [done|]. rewrite Hb. split; [apply prefix_app_r; done|].
    split; [|done]. rewrite <- (app_nil_r (to_le_bytes _ _)). by eapply extends_trans. }
  pose proof (extends_trans _ _ _ _ _ _ He1 He2) as He12.
  destruct (checked_write kind FrameChecksumWrite p (to_le_bytes FRAME_CHECKSUM_LEN (crc32 payload)) st2
    (extends_exists _ _ _ _ He2 Hf1)) as (r3 & st3 & -> & [[[e ->] He]|[-> He3]]).
  - eexists _, _, _. split; [done|]. rewrite Hb. split; [rewrite app_assoc; by apply prefix_app_r|].
    split; [|done]. pose proof (extends_trans _ _ _ _ _ _ He12 He) as Hall. by rewrite app_nil_r in Hall.
  - eexists _, _, _. split; [done|]. rewrite Hb. split; [done|]. split; [|done].
    rewrite app_assoc. by eapply extends_trans.
Qed.
Lemma bind_ok {A B} (m : IO A) (k : A -> IO B) st b st' :
  (m ≫= k) st = (Ok b, st') <-> exists a st1, m st = (Ok a, st1) /\ k a st1 = (Ok b, st').
Proof.
  unfold mbind, IO_bind. destruct (m st) as [[a|e] st1]; split.
  - eauto.
  - by intros (a' & st2 & [= -> ->] & Hk).
  - done.
  - by intros (a' & st2 & ? & _).
Qed.

Lemma check_ok kind point st st' : check kind point st = (Ok tt, st') -> st' = st.
Proof. unfold check. split_test; [done|]. by intros [= ->]. Qed.

Lemma append_spec p f k kind c st :
  good_frame k f -> files st !! p = Some c ->
  exists r w st', append_with_faults p f kind st = (r, st') /\ w `prefix_of` frame_bytes f /\
    files st' !! p = Some (c ++ w) /\ (forall q, q <> p -> files st' !! q = files st !! q) /\
    (r = Ok tt -> w = frame_bytes f /\ synced st' = <[p := c ++ w]> (synced st)) /\
    (r <> Ok tt -> synced st' = synced st).
Proof.
  intros Hg Hf. unfold append_with_faults, mbind, IO_bind.
  destruct (check_spec kind AppendOpen st) as (r0 & st0 & -> & He0 & _ & Hok0). destruct r0 as [[]|e].
  2: { destruct (He0 p) as [H1 H2 H3 H4]. exists (Err e), [], st0. split; [done|].
       split; [apply prefix_nil|]. split; [by apply H1|]. by split. }
  rewrite Hok0 by done. unfold open_existing, mbind, IO_bind, read_file. rewrite Hf. cbn [mret IO_ret].
  destruct (write_frame_spec p f k kind st Hg) as (r1 & w & st1 & -> & Hw & [E1 E2 E3 E4] & Hw1); [eauto|].
  destruct r1 as [[]|e]; [|exists (Err e), w, st1; split; [done|]; split; [done|]; split; [by apply E1|]; by split].
  destruct (check_spec kind FileSync st1) as (r2 & st2 & -> & He2 & _ & Hok2). destruct (He2 p) as [F1 F2 F3 F4].
  specialize (F1 _ (E1 _ Hf)). rewrite app_nil_r in F1. destruct r2 as [[]|e].
  - rewrite Hok2 by done. exists (Ok tt), w. eexists. split; [done|]. split; [done|]. cbn.
    split; [by apply E1|]. split; [done|]. split; [|done]. intros _. split; [by apply Hw1|].
    rewrite (E1 _ Hf). cbn. by rewrite E3.
  - exists (Err e), w, st2. split; [done|]. split; [done|]. split; [done|].
    split; [intros q Hq; by rewrite F2, E2|]. split; [done|]. intros _. by rewrite F3.
Qed.

Fixpoint append_all (p : Path) (fs : list T) (kind : JournalKind) : IO unit :=
  match fs with
  | [] => mret tt
  | f :: fs => append_with_faults p f kind ;; append_all p fs kind
  end.

(** Content and synced content of a journal whose every write was confirmed. *)
Definition acknowledged (p : Path) (fs : list T) (st : FileSystem) : Prop :=
  files st !! p = Some (journal fs) /\ synced st !! p = Some (journal fs).

Lemma journal_snoc fs f : journal (fs ++ [f]) = journal fs ++ frame_bytes f.
Proof.
  unfold journal. rewrite fmap_app, concat_app. cbn [fmap list_fmap concat].
  rewrite app_nil_r. apply app_assoc.
Qed.

Lemma good_frames_app k fs1 fs2 :
  good_frames k (fs1 ++ fs2) <-> good_frames k fs1 /\ good_frames (k + Z.of_nat (length fs1)) fs2.
Proof.
  revert k. induction fs1 as [|f fs1 IH]; intros k; cbn [app good_frames length].
  - rewrite Z.add_0_r. tauto.
  - rewrite IH. replace (k + 1 + Z.of_nat (length fs1)) with (k + Z.of_nat (S (length fs1))) by lia. tauto.
Qed.

Lemma append_all_acknowledged p kind done_ fs st st' :
  acknowledged p done_ st -> good_frames 1 (done_ ++ fs) -> append_all p fs kind st = (Ok tt, st') ->
  acknowledged p (done_ ++ fs) st'.
Proof.
  revert done_ st. induction fs as [|f fs IH]; intros done_ st Ha Hg.
  { intros [= <-]. by rewrite app_nil_r. }
  cbn [append_all]. rewrite bind_ok. intros ([] & st1 & Happ & Hrest).
  assert (good_frame (1 + Z.of_nat (length done_)) f) as Hf.
  { apply good_frames_app in Hg as [_ [Hf _]]. done. }
  destruct Ha as [Hc Hs]. destruct (append_spec p f _ kind _ st Hf Hc)
    as (r & w & st2 & Heq & _ & Hc2 & _ & Hok & _).
  rewrite Happ in Heq. injection Heq as <- <-. destruct Hok as [-> Hs2]; [done|].
  rewrite cons_middle, app_assoc in Hg |- *. apply (IH (done_ ++ [f]) st1); [|done|done].
  unfold acknowledged. rewrite journal_snoc, Hs2, lookup_insert_eq. done.
Qed.

(** ** Directories *)

Lemma sync_directory_disk d kind point st :
  let '(r, st') := sync_directory d kind point st in
  files st' = files st /\ synced st' = synced st /\ dirs st' = dirs st /\
  (forall x, x ∈ dir_syncs st -> x ∈ dir_syncs st') /\ (r = Ok tt -> d ∈ dir_syncs st').
Proof.
  unfold sync_directory, mbind, IO_bind, check. split_test; [done|].
  unfold record_sync, modify, get. cbn. split_test; cbn; [|done]. set_solver.
Qed.

Lemma sync_parents_disk created kind st :
  let '(r, st') := sync_parents created kind st in
  files st' = files st /\ synced st' = synced st /\ dirs st' = dirs st /\
  (forall x, x ∈ dir_syncs st -> x ∈ dir_syncs st') /\
  (r = Ok tt -> forall d, d ∈ created -> exists up, parent d = Some up /\ up ∈ dir_syncs st').
Proof.
  revert st. induction created as [|d created IH]; intros st; cbn [sync_parents].
  { cbn. repeat (split; [done|]). by intros _ d ?%elem_of_nil. }
  destruct (parent d) as [up|] eqn:Hp; [|done]. unfold mbind, IO_bind.
  pose proof (sync_directory_disk up kind DirectoryParentSync st) as Hs.
  destruct (sync_directory up kind DirectoryParentSync st) as [[[]|e] st1]; [|naive_solver].
  specialize (IH st1). destruct (sync_parents created kind st1) as [r st2].
  destruct IH as (-> & -> & -> & I4 & I5), Hs as (-> & -> & -> & H4 & H5). repeat (split; [done|]).
  split; [auto|]. intros Hr x [->|Hx]%elem_of_cons; [|by apply I5]. exists up. split; [done|]. auto.
Qed.

Lemma create_directory_disk d kind st :
  let '(r, st') := create_directory_durably d kind st in
  files st' = files st /\ synced st' = synced st.
Proof.
  unfold create_directory_durably, mbind, IO_bind, get, lift, modify.
  destruct (missing_dirs d st) as [[|m missing]|e]; [| |done].
  - destruct (parent d) as [up|]; [|done].
    set (st1 := set_dirs _ st). pose proof (sync_directory_disk up kind DirectoryParentSync st1) as Hs.
    destruct (sync_directory up kind DirectoryParentSync st1). destruct Hs as (-> & -> & _). done.
  - set (st1 := set_dirs _ st). pose proof (sync_parents_disk (rev (m :: missing)) kind st1) as Hs.
    destruct (sync_parents (rev (m :: missing)) kind st1). destruct Hs as (-> & -> & _). done.
Qed.

Lemma create_acknowledged p f kind st st' :
  good_frame 1 f -> create_with_faults p f kind st = (Ok tt, st') -> acknowledged p [f] st'.
Proof.
  intros Hg. unfold create_with_faults. destruct (parent p) as [up|]; [|done].
  rewrite bind_ok. intros ([] & st1 & Hd & Hrest). revert Hrest.
  rewrite bind_ok. intros ([] & st2 & ->%check_ok & Hrest). revert Hrest.
  rewrite bind_ok. intros ([] & st3 & Ho & Hrest). revert Hrest.
  unfold open_new in Ho. destruct (bool_decide _); [done|]. injection Ho as <-.
  rewrite bind_ok. intros ([] & st4 & ->%check_ok & Hrest). revert Hrest.
  rewrite bind_ok. intros ([] & st5 & [= <-] & Hrest). revert Hrest.
  rewrite bind_ok. intros ([] & st6 & [= <-] & Hrest). revert Hrest.
  rewrite bind_ok. intros ([] & st7 & Hw & Hrest). revert Hrest.
  rewrite bind_ok. intros ([] & st8 & ->%check_ok & Hrest). revert Hrest.
  rewrite bind_ok. intros ([] & st9 & [= <-] & Hrest). revert Hrest.
  rewrite bind_ok. intros ([] & st10 & [= <-] & Hs).
  set (st6 := set_file p _ (set_file p _ (set_file p [] st1))) in Hw.
  assert (files st6 !! p = Some header) as Hh.
  { unfold st6. cbn. rewrite !lookup_insert_eq. done. }
  destruct (write_frame_spec p f 1 kind st6 Hg) as (r & w & st7' & Heq & _ & [E1 _ _ _] & Hw7); [eauto|].
  rewrite Hw in Heq. injection Heq as <- <-. rewrite Hw7 in E1 by done. specialize (E1 _ Hh).
  pose proof (sync_directory_disk up kind ParentSync (mkFs (files st7)
    (<[p := default [] (files st7 !! p)]> (synced st7)) (dirs st7) (dir_syncs st7) (armed st7)
    (u64_add (sync_calls st7) 1))) as Hsd. cbn in Hs, Hsd. rewrite Hs in Hsd. destruct Hsd as (Hf & Hsy & _).
  unfold acknowledged. rewrite Hf, Hsy, E1. cbn. rewrite lookup_insert_eq.
  unfold journal. cbn [fmap list_fmap concat]. by rewrite app_nil_r.
Qed.
(** ** Round trip and crash recovery *)

(** Creating a journal and appending to it, all confirmed. *)
Definition write_journal (p : Path) (f : T) (fs : list T) (kind : JournalKind) : IO unit :=
  create_with_faults p f kind ;; append_all p fs kind.

Lemma write_journal_acknowledged p f fs kind st st' :
  good_frames 1 (f :: fs) -> write_journal p f fs kind st = (Ok tt, st') -> acknowledged p (f :: fs) st'.
Proof.
  intros Hg. unfold write_journal. rewrite bind_ok. intros ([] & st1 & Hc & Ha).
  apply (append_all_acknowledged p kind [f] fs st1); [|done|done].
  eapply create_acknowledged; [apply Hg|done].
Qed.

(** What was written is read back: replaying a journal whose creation and
    appends were all confirmed yields exactly the frames, in order, with the end
    of each, and leaves the disk as it is. *)
Theorem replay_round_trip p f fs kind st st' :
  good_frames 1 (f :: fs) -> journal_fits (f :: fs) ->
  write_journal p f fs kind st = (Ok tt, st') ->
  replay p st' = (Ok (replayed true (f :: fs)), st').
Proof.
  intros Hg Hfit Hw. destruct (write_journal_acknowledged _ _ _ _ _ _ Hg Hw) as [Hc _].
  destruct (replay_spec p true (f :: fs) [] st' Hg) as (st2 & Heq & _ & _ & Hsame & _);
    [by left|done|by rewrite app_nil_r|].
  unfold replay. rewrite Heq. by rewrite Hsame.
Qed.

Definition arm (fault : option ArmedFault) (st : FileSystem) : FileSystem :=
  mkFs (files st) (synced st) (dirs st) (dir_syncs st) fault (sync_calls st).

(** What [p] may hold after power is lost in state [st]: the synced content and
    a prefix of what was appended since. *)
Definition crash_content (p : Path) (st : FileSystem) (c : list Z) : Prop :=
  default [] (synced st !! p) `prefix_of` c /\ c `prefix_of` default [] (files st !! p).

Lemma crash_tail J w c f k :
  good_frame k f -> w `prefix_of` frame_bytes f -> J `prefix_of` c -> c `prefix_of` J ++ w ->
  exists tail, c = J ++ tail /\ (tail = frame_bytes f \/ tail = [] \/ torn tail) /\ tail `prefix_of` w.
Proof.
  intros Hg Hw [tail ->] Hc. apply prefix_app_inv in Hc. exists tail. split; [done|]. split; [|done].
  destruct (decide (tail = frame_bytes f)) as [|Hne]; [by left|]. right. right. exists k, f.
  split; [done|]. split; [|done]. by etrans.
Qed.

(** C2. A crash never loses a confirmed frame nor corrupts a journal: whichever
    fault stops an append, and whatever prefix of its bytes reached the disk, the
    next replay succeeds, yields the confirmed frames and possibly the new one,
    always the new one when the append was confirmed, and leaves a well-formed
    journal of exactly the frames it yields. *)
Theorem crash_recovery p f0 fs f kind fault st0 st :
  good_frames 1 (f0 :: fs ++ [f]) -> journal_fits (f0 :: fs ++ [f]) ->
  write_journal p f0 fs kind st0 = (Ok tt, st) ->
  let '(r, st') := append_with_faults p f kind (arm fault st) in
  forall c st2, crash_content p st' c -> files st2 !! p = Some c ->
  exists got st3, replay p st2 = (Ok (replayed true got), st3) /\
    files st3 !! p = Some (journal got) /\
    (got = f0 :: fs \/ got = f0 :: fs ++ [f]) /\ (r = Ok tt -> got = f0 :: fs ++ [f]).
Proof.
  rewrite app_comm_cons. intros Hg Hfit Hw. pose proof (proj1 (good_frames_app _ _ _) Hg) as [Hg0 [Hf _]].
  destruct (write_journal_acknowledged _ _ _ _ _ _ Hg0 Hw) as [Hc Hs].
  destruct (append_spec p f _ kind _ (arm fault st) Hf Hc) as (r & w & st' & -> & Hpre & Hc' & _ & Hok & Herr).
  intros c st2 [Hsync Hcur] Hfile. rewrite Hc' in Hcur. cbn in Hcur.
  assert (journal (f0 :: fs) `prefix_of` c /\ (r = Ok tt -> c = journal ((f0 :: fs) ++ [f]))) as [Hlow Hall].
  { destruct r as [[]|e].
    - destruct Hok as [-> Hs']; [done|]. rewrite Hs', lookup_insert_eq in Hsync. cbn in Hsync.
      rewrite journal_snoc. pose proof (partial_order_anti_symm (R := prefix) _ _ Hsync Hcur) as <-.
      split; [by apply prefix_app_r|done].
    - rewrite Herr in Hsync by done. cbn in Hsync. rewrite Hs in Hsync. by split. }
  destruct (crash_tail _ w c f _ Hf Hpre Hlow Hcur) as (tail & -> & Htail & _).
  assert (tail = frame_bytes f \/ (tail <> frame_bytes f /\ (tail = [] \/ torn tail))) as [->|[Hne Ht]].
  { destruct (decide (tail = frame_bytes f)); [by left|right]. naive_solver. }
  - destruct (replay_spec p true ((f0 :: fs) ++ [f]) [] st2 Hg) as (st3 & Heq & Hf3 & _);
      [by left|done|by rewrite app_nil_r, journal_snoc|].
    exists ((f0 :: fs) ++ [f]), st3. split; [done|]. rewrite Hf3, lookup_insert_eq. auto.
  - destruct (replay_spec p true (f0 :: fs) tail st2 Hg0) as (st3 & Heq & Hf3 & _); [done| |done|].
    { unfold journal_fits in *. rewrite journal_snoc, length_app in Hfit. lia. }
    exists (f0 :: fs), st3. split; [done|]. rewrite Hf3, lookup_insert_eq. split; [done|]. split; [by left|].
    intros Hr. specialize (Hall Hr). rewrite journal_snoc in Hall. by apply app_inv_head in Hall.
Qed.
(** ** Compaction *)

Lemma write_frames_spec p fs k kind st :
  good_frames k fs -> is_Some (files st !! p) ->
  exists r w st', write_frames p fs kind st = (r, st') /\ extends p w st st' /\
    (r = Ok tt -> w = concat (frame_bytes <$> fs)).
Proof.
  revert k st. induction fs as [|f fs IH]; intros k st Hg Hf; cbn [write_frames].
  { eexists _, [], _. split; [done|]. split; [apply extends_refl|done]. }
  destruct Hg as [Hg1 Hg]. unfold mbind, IO_bind.
  destruct (write_frame_spec p f k kind st Hg1 Hf) as (r & w & st1 & -> & _ & He & Hw).
  destruct r as [[]|e]; [|by eexists _, _, _].
  destruct (IH (k + 1) st1 Hg) as (r2 & w2 & st2 & -> & He2 & Hw2); [by eapply extends_exists|].
  eexists _, _, _. split; [done|]. split; [by eapply extends_trans|]. intros Hr. cbn. by rewrite Hw, Hw2.
Qed.

(** Only [p] changes. *)
Definition only (p : Path) (st st' : FileSystem) : Prop :=
  forall q, q <> p -> files st' !! q = files st !! q /\ synced st' !! q = synced st !! q.

#[local] Instance only_preorder p : PreOrder (only p).
Proof.
  split; [done|]. intros s1 s2 s3 H1 H2 q Hq. destruct (H1 q Hq) as [<- <-]. by apply H2.
Qed.

Lemma only_extends p w st st' : extends p w st st' -> only p st st'.
Proof. intros [_ H2 H3 _] q Hq. rewrite H3. split; [by apply H2|done]. Qed.

Lemma only_check p kind point st : only p st (check kind point st).2.
Proof. unfold check. by split_test. Qed.

Lemma only_sync_directory p d kind point st : only p st (sync_directory d kind point st).2.
Proof.
  pose proof (sync_directory_disk d kind point st) as Hs.
  destruct (sync_directory d kind point st). destruct Hs as (Hf & Hsy & _). intros q _. cbn. by rewrite Hf, Hsy.
Qed.

Lemma only_bind {A B} p (m : IO A) (k : A -> IO B) st :
  only p st (m st).2 -> (forall a st1, m st = (Ok a, st1) -> only p st1 (k a st1).2) ->
  only p st ((m ≫= k) st).2.
Proof.
  intros Hm Hk. unfold mbind, IO_bind. destruct (m st) as [[a|e] st1]; [|done].
  etrans; [exact Hm|by apply Hk].
Qed.

Lemma create_compacted_spec up name fs st :
  good_frames 1 fs ->
  let p := name :: up in
  only p st (create_compacted_file p fs st).2 /\
  ((create_compacted_file p fs st).1 = Ok tt -> acknowledged p fs (create_compacted_file p fs st).2).
Proof.
  intros Hg p. unfold create_compacted_file. cbn [parent p].
  pose proof (create_directory_disk up KindCompaction st) as Hd. unfold mbind, IO_bind.
  destruct (create_directory_durably up KindCompaction st) as [[[]|e] st1]; destruct Hd as [Hd1 Hd2];
    (assert (only p st st1) as Ho1 by (intros q _; by rewrite Hd1, Hd2)); [|done].
  pose proof (only_check p KindCompaction CreateOpen st1) as Ho2.
  destruct (check KindCompaction CreateOpen st1) as [[[]|e] st2]; cbn in Ho2; [|split; [by etrans|done]].
  unfold open_new. destruct (bool_decide _); [split; [by etrans|done]|].
  set (st3 := set_file p [] st2).
  assert (only p st st3) as Ho3.
  { etrans; [exact Ho1|]. etrans; [exact Ho2|]. intros q Hq. cbn. by rewrite lookup_insert_ne. }
  pose proof (check_spec KindCompaction CreateHeaderWrite st3) as (r4 & st4 & -> & He4 & _ & Hok4).
  destruct r4 as [[]|e]; [|split; [etrans; [exact Ho3|apply (only_extends _ _ _ _ (He4 p))]|done]].
  rewrite Hok4 by done. unfold write_all, modify.
  set (st5 := set_file p _ (set_file p _ st3)).
  assert (files st5 !! p = Some header) as Hh.
  { unfold st5, st3. cbn. by rewrite !lookup_insert_eq. }
  assert (only p st st5) as Ho5.
  { etrans; [exact Ho3|]. intros q Hq. cbn. by rewrite !lookup_insert_ne. }
  destruct (write_frames_spec p fs 1 KindCompaction st5 Hg) as (r6 & w & st6 & -> & He6 & Hw); [eauto|].
  assert (only p st st6) as Ho6 by (etrans; [exact Ho5|by eapply only_extends]).
  destruct r6 as [[]|e]; [|done]. pose proof (ex_content _ _ _ _ He6 _ Hh) as Hc. rewrite Hw in Hc by done.
  fold (journal fs) in Hc.
  pose proof (check_spec KindCompaction FileSync st6) as (r7 & st7 & -> & He7 & _ & Hok7).
  destruct r7 as [[]|e]; [|split; [etrans; [exact Ho6|apply (only_extends _ _ _ _ (He7 p))]|done]].
  rewrite Hok7 by done. unfold record_sync, sync_all, modify. cbn [files synced dirs dir_syncs armed sync_calls].
  set (st8 := mkFs _ _ _ _ _ _). pose proof (sync_directory_disk up KindCompaction ParentSync st8) as Hs.
  destruct (sync_directory up KindCompaction ParentSync st8) as [r9 st9]. destruct Hs as (Hf9 & Hs9 & _). split.
  - etrans; [exact Ho6|]. intros q Hq. cbn. rewrite Hf9, Hs9. cbn. by rewrite lookup_insert_ne.
  - intros _. unfold acknowledged. cbn. rewrite Hf9, Hs9. cbn. rewrite Hc. cbn. by rewrite lookup_insert_eq.
Qed.

(** A failure before publication: the temporary is removed. *)
Lemma cleanup_spec p tmp st st' :
  tmp <> p -> only tmp st st' ->
  files (remove_file tmp st') !! p = files st !! p /\ files (remove_file tmp st') !! tmp = None /\
  forall q, q <> p -> q <> tmp -> files (remove_file tmp st') !! q = files st !! q.
Proof.
  intros Hne Ho. cbn. split; [|split].
  - rewrite lookup_delete_ne by done. by apply Ho.
  - apply lookup_delete_eq.
  - intros q _ Hq. rewrite lookup_delete_ne by done. by apply Ho.
Qed.

Lemma check_cases kind point st :
  (exists e st', check kind point st = (Err e, st') /\ files st' = files st /\ synced st' = synced st) \/
  check kind point st = (Ok tt, st).
Proof. unfold check. split_test; [left; by eexists _, _|by right]. Qed.

(** The publication of a verified temporary. *)
Lemma publish_spec p tmp up fs st :
  tmp <> p -> acknowledged tmp fs st ->
  exists r st', (durable_replace tmp p ;; sync_directory up KindCompaction CompactionPublishParentSync) st = (r, st') /\
    acknowledged p fs st' /\ files st' !! tmp = None /\
    forall q, q <> p -> q <> tmp -> files st' !! q = files st !! q.
Proof.
  intros Hne [Hc Hs]. unfold durable_replace, mbind, IO_bind, read_file, modify. rewrite Hc, Hs.
  set (st1 := mkFs _ _ _ _ _ _).
  pose proof (sync_directory_disk up KindCompaction CompactionPublishParentSync st1) as Hd.
  destruct (sync_directory up KindCompaction CompactionPublishParentSync st1) as [r st'].
  destruct Hd as (Hf & Hsy & _). exists r, st'. split; [done|]. unfold acknowledged. rewrite Hf, Hsy. cbn.
  rewrite !lookup_insert_eq. split; [done|]. split.
  - by rewrite lookup_insert_ne, lookup_delete_eq.
  - intros q Hq Hqt. by rewrite lookup_insert_ne, lookup_delete_ne.
Qed.

(** C30. Compaction replaces a journal as a whole or not at all: whichever
    fault occurs, the canonical journal holds its former content or the complete
    verified compacted one, never a part; a confirmed compaction holds the
    compacted one, synced; no other file changes and the temporary is gone. *)
Theorem compaction_is_atomic name up fs temporary st old :
  let p := name :: up in
  good_frames 1 fs -> fs <> [] -> journal_fits fs -> temporary <> name ->
  files st !! p = Some old ->
  let '(r, st') := replace_frames_with_faults p fs temporary st in
  (files st' !! p = Some old \/ files st' !! p = Some (journal fs)) /\
  (r = Ok tt -> acknowledged p fs st') /\
  files st' !! (temporary :: up) = None /\
  (forall q, q <> p -> q <> temporary :: up -> files st' !! q = files st !! q).
Proof.
  intros p Hg Hne Hfit Hname Hold. unfold replace_frames_with_faults. cbn [parent p].
  rewrite bool_decide_eq_false_2 by (by destruct fs). set (tmp := temporary :: up).
  assert (tmp <> p) as Htp by (unfold tmp, p; congruence).
  assert (forall (e : RuntimeError) st', only tmp st st' -> let '(r, st'') := (Err e : result unit RuntimeError,
      if is_ok (Err e : result unit RuntimeError) then st' else remove_file tmp st') in
    (files st'' !! p = Some old \/ files st'' !! p = Some (journal fs)) /\ (r = Ok tt -> acknowledged p fs st'') /\
    files st'' !! tmp = None /\ (forall q, q <> p -> q <> tmp -> files st'' !! q = files st !! q)) as Hfail.
  { intros e st' Ho. destruct (cleanup_spec p tmp st st' Htp Ho) as (H1 & H2 & H3). cbn [is_ok].
    split; [left; exact (eq_trans H1 Hold)|]. by split. }
  destruct (create_compacted_spec up temporary fs st Hg) as [Ho1 Hack1]. fold tmp in Ho1, Hack1.
  unfold mbind at 1, IO_bind at 1.
  destruct (create_compacted_file tmp fs st) as [[[]|e] st1]; cbn in Ho1, Hack1; [|by apply Hfail].
  specialize (Hack1 eq_refl). unfold mbind at 1, IO_bind at 1.
  destruct (check_cases KindCompaction CompactionValidate st1) as [(e & st2 & -> & Hf & Hs)| ->].
  { apply Hfail. intros q Hq. rewrite Hf, Hs. by apply Ho1. }
  destruct (replay_spec tmp true fs [] st1 Hg) as (st2 & Hrep & _ & _ & Hsame & _);
    [by left|done|rewrite app_nil_r; apply Hack1|]. rewrite Hsame in Hrep by done.
  unfold replay, mbind at 1, IO_bind at 1. rewrite Hrep. cbn [frames replayed].
  rewrite bool_decide_eq_false_2 by tauto. unfold mbind at 1, IO_bind at 1. cbn [mret IO_ret].
  unfold mbind at 1, IO_bind at 1.
  destruct (check_cases KindCompaction CompactionPublish st1) as [(e & st3 & -> & Hf & Hs)| ->].
  { apply Hfail. intros q Hq. rewrite Hf, Hs. by apply Ho1. }
  destruct (publish_spec p tmp up fs st1 Htp Hack1) as (r & st4 & -> & Hack & Htmp4 & Hoth).
  assert (forall q, q <> p -> q <> tmp -> files st4 !! q = files st !! q) as Hq4.
  { intros q Hq Hqt. rewrite Hoth by done. by apply Ho1. }
  destruct r as [[]|e]; cbn [is_ok]; cbn.
  - destruct Hack as [Hc Hs]. split; [by right|]. split; [by split|]. by split.
  - rewrite !lookup_delete_ne, lookup_delete_eq by done. destruct Hack as [Hc Hs].
    split; [by right|]. split; [done|]. split; [done|]. intros q Hq Hqt. rewrite lookup_delete_ne by done. auto.
Qed.

(** ** Truncation *)

Lemma ends_from_lookup cursor fs k :
  (k < length fs)%nat ->
  ends_from cursor fs !! k = Some (cursor + Z.of_nat (length (concat (frame_bytes <$> take (S k) fs)))).
Proof.
  revert cursor k. induction fs as [|f fs IH]; intros cursor k Hk; cbn in Hk; [lia|].
  destruct k as [|k]; cbn [ends_from take fmap list_fmap concat lookup list_lookup].
  - by rewrite app_nil_r.
  - rewrite IH by lia. rewrite length_app. cbn [take]. f_equal. lia.
Qed.

Lemma take_journal fs k :
  take (length (journal (take k fs))) (journal fs) = journal (take k fs).
Proof.
  rewrite <- (take_drop k fs) at 2. unfold journal at 2. rewrite fmap_app, concat_app, app_assoc.
  apply take_app_length.
Qed.

(** Truncation after [k] frames keeps exactly the first [k]: a confirmed
    truncation leaves the journal of those frames, synced, and whichever fault
    occurs the file is the former journal or that one. *)
Theorem truncate_keeps_prefix p fs k kind retain st :
  files st !! p = Some (journal fs) -> (k < length fs)%nat ->
  let '(r, st') := truncate_after_with_faults p (replayed retain fs) k kind st in
  (files st' !! p = Some (journal fs) \/ files st' !! p = Some (journal (take k fs))) /\
  (r = Ok tt -> acknowledged p (take k fs) st').
Proof.
  intros Hf Hk. unfold truncate_after_with_faults. cbn [frame_count replayed frame_ends].
  rewrite bool_decide_eq_false_2 by lia.
  set (len := match k with O => _ | S _ => _ end).
  assert (len = Z.of_nat (length (journal (take k fs)))) as ->.
  { unfold len, journal. rewrite length_app. destruct k as [|k]; [reflexivity|].
    rewrite ends_from_lookup by lia. unfold FILE_HEADER_LEN. cbn [from_option]. unfold id.
    change (length header) with (length MAGIC + 2)%nat. lia. }
  unfold mbind, IO_bind, open_existing, read_file, set_len, sync_all, record_sync, modify, mret, IO_ret.
  destruct (check_cases kind TruncateOpen st) as [(e & st1 & -> & Hf1 & _)| ->].
  { rewrite Hf1. split; [by left|done]. }
  cbn [mbind IO_bind]. unfold mbind, IO_bind. rewrite Hf.
  destruct (check_cases kind TruncateSetLen st) as [(e & st1 & -> & Hf1 & _)| ->].
  { rewrite Hf1. split; [by left|done]. }
  set (st1 := set_file p _ st).
  assert (files st1 !! p = Some (journal (take k fs))) as Hc1.
  { unfold st1. cbn. rewrite lookup_insert_eq, Hf. cbn. by rewrite Nat2Z.id, take_journal. }
  destruct (check_cases kind TruncateSync st1) as [(e & st2 & -> & Hf1 & _)| ->].
  { rewrite Hf1. split; [by right|done]. }
  unfold acknowledged. cbn [files synced]. rewrite Hc1, lookup_insert_eq. split; [by right|done].
Qed.

(** ** Sizes *)

Lemma framed_len_loop_spec k fs n :
  good_frames k fs -> 0 <= n -> n + Z.of_nat (length (concat (frame_bytes <$> fs))) < u64_modulus ->
  framed_len_loop n fs = Ok (n + Z.of_nat (length (concat (frame_bytes <$> fs)))).
Proof.
  revert k n. induction fs as [|f fs IH]; intros k n Hg Hn Hfit; [cbn; f_equal; lia|].
  destruct Hg as [Hf Hg]. destruct (good_frame_bytes _ _ Hf) as (payload & Henc & _ & Hmax & _ & _ & _ & Hlen).
  cbn [fmap list_fmap concat] in *. rewrite length_app, Hlen in *. cbn [framed_len_loop]. rewrite Henc. cbn [result_bind].
  unfold add_frame_len, u64_checked_add. rewrite bool_decide_eq_false_2 by lia.
  rewrite bool_decide_eq_true_2 by lia. cbn [mbind option_bind].
  rewrite bool_decide_eq_true_2 by lia. cbn [mbind option_bind].
  rewrite bool_decide_eq_true_2 by lia. cbn [ok_or result_bind].
  rewrite (IH (k + 1)) by (done || lia). f_equal. lia.
Qed.

(** The size compaction plans with is the size it writes: for frames that
    can be written, [framed_file_len] is the exact length of their journal. *)
Theorem framed_file_len_exact fs :
  good_frames 1 fs -> journal_fits fs -> framed_file_len fs = Ok (Z.of_nat (length (journal fs))).
Proof.
  intros Hg Hfit. unfold journal_fits, journal, framed_file_len in *. rewrite length_app in *.
  rewrite (framed_len_loop_spec 1); [f_equal; unfold FILE_HEADER_LEN; change (length header) with (length MAGIC + 2)%nat; lia
    |done|lia|]. change (length header) with FILE_HEADER_LEN in Hfit. lia.
Qed.
(** ** Durable directories *)

(** A directory exists only inside an existing directory. *)
Definition dirs_closed (st : FileSystem) : Prop :=
  forall x d, x :: d ∈ dirs st -> d ∈ dirs st.

Lemma ancestors_dirs st d a : dirs_closed st -> d ∈ dirs st -> a ∈ ancestors d -> a ∈ dirs st.
Proof.
  intros Hc. induction d as [|x d IH]; intros Hd Ha; cbn in Ha.
  - by apply list_elem_of_singleton in Ha as ->.
  - apply elem_of_cons in Ha as [->|Ha]; [done|]. apply IH; [by eapply Hc|done].
Qed.

Lemma missing_dirs_spec d st missing :
  dirs_closed st -> missing_dirs d st = Ok missing ->
  forall a, a ∈ ancestors d -> a ∉ dirs st -> a ∈ missing.
Proof.
  intros Hc. revert missing. induction d as [|x d IH]; intros missing; cbn [missing_dirs]; split_test.
  - intros _ a Ha Hn. destruct Hn. by apply (ancestors_dirs st []).
  - done.
  - intros _ a Ha Hn. destruct Hn. by apply (ancestors_dirs st (x :: d)).
  - destruct (missing_dirs d st) as [rest|e]; cbn; [|done]. intros [= <-] a Ha Hn.
    cbn in Ha. apply elem_of_cons in Ha as [->|Ha]; [left|]. right. by apply (IH rest).
Qed.

(** A new directory is anchored before it is used: when
    [create_directory_durably] succeeds, the directory and all its ancestors
    exist and the parent of each one that was missing has been synced. *)
Theorem directories_are_anchored d kind st st' a :
  dirs_closed st -> create_directory_durably d kind st = (Ok tt, st') -> a ∈ ancestors d ->
  a ∈ dirs st' /\ (a ∉ dirs st -> exists up, parent a = Some up /\ up ∈ dir_syncs st').
Proof.
  intros Hc Hok Ha. unfold create_directory_durably, mbind, IO_bind, get, lift, modify in Hok.
  destruct (missing_dirs d st) as [missing|e] eqn:Hm; [|done].
  pose proof (missing_dirs_spec d st missing Hc Hm a Ha) as Hin. set (st1 := set_dirs _ st) in Hok.
  assert (a ∈ dirs st1) as Ha1 by (unfold st1; cbn; set_solver).
  destruct missing as [|m missing].
  - destruct (parent d) as [up|]; [|done].
    pose proof (sync_directory_disk up kind DirectoryParentSync st1) as Hs. rewrite Hok in Hs.
    destruct Hs as (_ & _ & -> & _). split; [done|]. intros Hn. specialize (Hin Hn). by apply elem_of_nil in Hin.
  - pose proof (sync_parents_disk (rev (m :: missing)) kind st1) as Hs. rewrite Hok in Hs.
    destruct Hs as (_ & _ & -> & _ & Hsync). split; [done|]. intros Hn. apply Hsync; [done|].
    apply list_elem_of_In, (proj1 (in_rev _ _)), list_elem_of_In, Hin, Hn.
Qed.
End Frame.

(** ** Examples *)

Module FrameWitness.
(** A record with a number and one byte of content. *)
Definition Rec : Type := Z * Z.
Definition rec_ok (f : Rec) : bool := bool_decide (0 <= f.1 < 256 /\ 0 <= f.2 < 256).

#[global] Instance rec_framed : FramedRecord Rec :=
  {| encode := fun f => if rec_ok f then Ok [f.1; f.2] else Err "encode"%string;
     decode := fun p => match p with [a; b] => Ok (a, b) | _ => Err "decode"%string end;
     format_version := fun _ => 1; sequence := fst |}.

#[global] Instance rec_laws : FramedRecordLaws Rec.
Proof.
  split.
  - intros [a b] p. cbn. unfold rec_ok. split_test; [|done]. intros [= <-]. cbn in *.
    repeat constructor; lia.
  - intros [a b] p. cbn. by destruct (rec_ok (a, b)); intros [= <-].
Defined.

Definition root : FileSystem := mkFs ∅ ∅ {[ [] ]} [] None 0.
Definition path : Path := ["journal"; "task"]%string.
Definition written : FileSystem := (write_journal path (1, 7) [(2, 8)] KindTask root).2.

Lemma write_ok : write_journal path (1, 7) [(2, 8)] KindTask root = (Ok tt, written).
Proof. vm_compute. reflexivity. Defined.

Lemma good3 : good_frames 1 [(1, 7); (2, 8); (3, 9)].
Proof.
  repeat split; eexists; (split; [reflexivity|]); vm_compute; discriminate.
Defined.

Lemma fits3 : journal_fits [(1, 7); (2, 8); (3, 9)].
Proof. vm_compute. reflexivity. Defined.

Lemma replay_round_trip_witness :
  replay path written = (Ok (mkReplayed [(1, 7); (2, 8)] [24; 38] 2), written).
Proof.
  eapply eq_trans; [apply (replay_round_trip path (1, 7) [(2, 8)] KindTask root written)|vm_compute; reflexivity];
    [repeat split; eexists; (split; [reflexivity|]); vm_compute; discriminate
    |vm_compute; reflexivity|exact write_ok].
Defined.

(** The append of a third record stops before its checksum; five of its bytes
    survive. *)
Definition fault : ArmedFault := mkFault KindTask FrameChecksumWrite.
Definition stopped : FileSystem := (append_with_faults path (3, 9) KindTask (arm (Some fault) written)).2.
Definition torn_content : list Z := take 43 (default [] (files stopped !! path)).

Lemma crash_recovery_witness :
  exists got st3, replay path (set_file path torn_content stopped) = (Ok (replayed true got), st3) /\
    files st3 !! path = Some (journal got) /\ (got = [(1, 7); (2, 8)] \/ got = [(1, 7); (2, 8); (3, 9)]).
Proof.
  pose proof (crash_recovery path (1, 7) [(2, 8)] (3, 9) KindTask (Some fault) root written good3 fits3 write_ok) as Hc.
  destruct (append_with_faults path (3, 9) KindTask (arm (Some fault) written)) as [r st'] eqn:E.
  destruct (Hc torn_content (set_file path torn_content stopped)) as (got & st3 & H1 & H2 & H3 & _).
  - vm_compute in E. injection E as _ <-. split; apply (bool_decide_unpack _); vm_compute; exact I.
  - apply lookup_insert_eq.
  - exists got, st3. split; [exact H1|]. split; [exact H2|exact H3].
Defined.

Lemma compaction_is_atomic_witness :
  files (replace_frames_with_faults path [(1, 5)] ".journal.compact-x" written).2 !! (path : Path)
  = Some (journal [(1, 5)]).
Proof.
  pose proof (compaction_is_atomic "journal" ["task"%string] [(1, 5)] ".journal.compact-x" written
    (journal [(1, 7); (2, 8)])) as Hc. cbv zeta in Hc. unfold path.
  destruct (replace_frames_with_faults _ _ _ _) as [r st'] eqn:E.
  destruct Hc as (_ & Hok & _).
  - repeat split; eexists; (split; [reflexivity|]); vm_compute; discriminate.
  - discriminate.
  - vm_compute. reflexivity.
  - discriminate.
  - vm_compute. reflexivity.
  - vm_compute in E. injection E as <- <-. apply Hok. reflexivity.
Defined.

Lemma truncate_keeps_prefix_witness :
  acknowledged path [(1, 7)]
    (truncate_after_with_faults path (replayed true [(1, 7); (2, 8)]) 1 KindArtifact written).2.
Proof.
  pose proof (truncate_keeps_prefix path [(1, 7); (2, 8)] 1 KindArtifact true written) as Ht.
  destruct (truncate_after_with_faults _ _ _ _ _) as [r st'] eqn:E.
  destruct Ht as [_ Hok]; [vm_compute; reflexivity|cbn; lia|].
  vm_compute in E. injection E as <- <-. apply Hok. reflexivity.
Defined.

Lemma framed_file_len_exact_witness : framed_file_len [(1, 7); (2, 8); (3, 9)] = Ok 52.
Proof.
  eapply eq_trans; [apply (framed_file_len_exact [(1, 7); (2, 8); (3, 9)] good3 fits3)|vm_compute; reflexivity].
Defined.

Lemma directories_are_anchored_witness :
  [ "task"%string ] ∈ dirs (create_directory_durably ["task"%string] KindTask root).2.
Proof.
  apply (directories_are_anchored ["task"%string] KindTask root
    (create_directory_durably ["task"%string] KindTask root).2 ["task"%string]);
    [|vm_compute; reflexivity|left].
  intros x d Hd. change (x :: d ∈ ({[ [] ]} : gset Path)) in Hd. apply elem_of_singleton in Hd. discriminate Hd.
Defined.
Lemma replay_terminates_witness :
  is_Some (replay_loop 7 true [3; 0; 0; 0; 0; 0; 0] 10 1 [] []).
Proof.
  apply (replay_terminates 7 true [3; 0; 0; 0; 0; 0; 0] 10 1 [] []); [|cbn; lia].
  repeat constructor; discriminate.
Defined.

(** A journal with five stray bytes at its end. *)
Definition stray : list Z := journal [(1, 7); (2, 8)] ++ [1; 2; 3; 4; 5].

Lemma replay_only_trims_witness :
  let st' := (replay path (set_file path stray written)).2 in
  files st' !! path = Some (journal [(1, 7); (2, 8)]) /\ (replay path st').2 = st'.
Proof.
  pose proof (replay_only_trims path true (set_file path stray written) stray) as Ht.
  unfold replay. destruct (replay_internal path true (set_file path stray written)) as [[r|e] st'] eqn:E.
  - destruct Ht as [_ Hagain]; [apply lookup_insert_eq| |vm_compute; reflexivity|].
    + apply (bool_decide_unpack _). vm_compute. exact I.
    + cbn [snd]. rewrite Hagain. split; [|reflexivity]. vm_compute in E. injection E as <- <-. reflexivity.
  - vm_compute in E. discriminate E.
Defined.
End FrameWitness.
