(* ===== verification/Chat.v ===== *)
(** * Chat rows

    Models [openaide-rs/app-server/src/protocol/model/chat.rs] and the data of
    [protocol/model/activity.rs] and [protocol/model/task.rs] that Chat rows
    carry: normalized messages with their accessors, and what an Agent update of
    a row must keep from the row it replaces.

    Question fields and values are only carried by the modelled code; they are
    the types of the class [ChatPayloads]. *)

From S2P Require Import Prelude.

Local Open Scope Z_scope.

Class ChatPayloads := {
  QuestionField : Type;
  QuestionValue : Type;
}.

(** ** JSON values

    [serde_json::Value]; the fields of an object are in the order of their keys. *)

Inductive JsonValue :=
| JNull
| JBool (b : bool)
| JNumber (n : Z)
| JFloat (bits : Z)
| JString (s : string)
| JArray (items : list JsonValue)
| JObject (fields : list (string * JsonValue)).

#[global] Instance JsonValue_eq_dec : EqDecision JsonValue.
Proof.
  refine (fix go (x y : JsonValue) {struct x} : Decision (x = y) :=
    match x, y with
    | JNull, JNull => left eq_refl
    | JBool a, JBool b => cast_if (decide (a = b))
    | JNumber a, JNumber b | JFloat a, JFloat b => cast_if (decide (a = b))
    | JString a, JString b => cast_if (decide (a = b))
    | JArray a, JArray b => cast_if (@list_eq_dec _ go a b)
    | JObject a, JObject b =>
        cast_if (@list_eq_dec _ (fun '(k, v) '(l, w) =>
          match decide (k = l) with
          | left _ => match go v w with left _ => left _ | right _ => right _ end
          | right _ => right _
          end) a b)
    | _, _ => right _
    end); abstract congruence.
Defined.

Definition as_str (v : JsonValue) : option string := match v with JString s => Some s | _ => None end.
Definition as_u64 (v : JsonValue) : option Z :=
  match v with JNumber n => if bool_decide (0 <= n <= u64_max) then Some n else None | _ => None end.
Definition as_object (v : JsonValue) : option (list (string * JsonValue)) :=
  match v with JObject fields => Some fields | _ => None end.

Fixpoint field (k : string) (fields : list (string * JsonValue)) : option JsonValue :=
  match fields with
  | [] => None
  | (l, v) :: fields => if bool_decide (k = l) then Some v else field k fields
  end.
(** [Value::get] with a string: nothing for a value that is not an object. *)
Definition json_get (k : string) (v : JsonValue) : option JsonValue := as_object v ≫= field k.

Fixpoint insert_field (k : string) (v : JsonValue) (fields : list (string * JsonValue)) : list (string * JsonValue) :=
  match fields with
  | [] => [(k, v)]
  | (l, w) :: rest =>
      if bool_decide (k = l) then (k, v) :: rest
      else if String.ltb k l then (k, v) :: fields else (l, w) :: insert_field k v rest
  end.
Definition remove_field (k : string) (fields : list (string * JsonValue)) : list (string * JsonValue) :=
  filter (fun f => f.1 <> k) fields.

Lemma field_insert_eq k v fields : field k (insert_field k v fields) = Some v.
Proof.
  induction fields as [|[l w] fields IH]; cbn; [by rewrite bool_decide_eq_true_2|].
  case_bool_decide as E; cbn; [by rewrite bool_decide_eq_true_2|].
  destruct (String.ltb k l); cbn; [by rewrite bool_decide_eq_true_2|]. by rewrite bool_decide_eq_false_2.
Qed.

Lemma field_insert_ne k l v fields : k <> l -> field l (insert_field k v fields) = field l fields.
Proof.
  intros Hne. induction fields as [|[j w] fields IH]; cbn; [by rewrite bool_decide_eq_false_2|].
  case_bool_decide as E; cbn; [subst j; by rewrite !bool_decide_eq_false_2|].
  destruct (String.ltb k j); cbn; [by rewrite bool_decide_eq_false_2|]. by rewrite IH.
Qed.

Lemma field_remove_eq k fields : field k (remove_field k fields) = None.
Proof.
  unfold remove_field. induction fields as [|[l w] fields IH]; [done|]. rewrite filter_cons. case_decide as E; [|done].
  cbn in *. rewrite bool_decide_eq_false_2; [done|]. by intros ->.
Qed.

Lemma field_remove_ne k l fields : k <> l -> field l (remove_field k fields) = field l fields.
Proof.
  intros Hne. unfold remove_field. induction fields as [|[j w] fields IH]; [done|]. rewrite filter_cons. case_decide as E; cbn in *.
  - by rewrite IH.
  - subst j. by rewrite bool_decide_eq_false_2.
Qed.

(** ** Activities *)

Inductive ActivityStatus := Running | Completed | Interrupted | ActError.
#[global] Instance ActivityStatus_eq_dec : EqDecision ActivityStatus.
Proof. solve_decision. Defined.

Inductive SubagentActivity :=
| SubDelegated | SubInteracted | SubRunning | SubCompleted | SubFailed | SubStopped.

Inductive ToolSearchTarget := Contents | Paths.

Inductive ToolPresentationKind := PKSkill | PKRead | PKView | PKList | PKSearch.
#[global] Instance ToolPresentationKind_eq_dec : EqDecision ToolPresentationKind.
Proof. solve_decision. Defined.

Inductive ToolPresentationAction :=
| PSkill (subjects : list string)
| PRead (subjects : list string)
| PView (subjects : list string)
| PList (subjects : list string)
| PSearch (query : string) (scopes : list string) (target : ToolSearchTarget).

Record ToolPresentation := mkPresentation { actions : list ToolPresentationAction }.

(** [None] is the [unreachable!] of a search without its facts. *)
Definition single (kind : ToolPresentationKind) (subjects : list string) : option ToolPresentation :=
  action ← match kind with
           | PKSkill => Some (PSkill subjects)
           | PKRead => Some (PRead subjects)
           | PKView => Some (PView subjects)
           | PKList => Some (PList subjects)
           | PKSearch => None
           end;
  Some (mkPresentation [action]).

Definition action_kind (a : ToolPresentationAction) : ToolPresentationKind :=
  match a with
  | PSkill _ => PKSkill | PRead _ => PKRead | PView _ => PKView | PList _ => PKList | PSearch _ _ _ => PKSearch
  end.

Definition action_subjects (a : ToolPresentationAction) : option (list string) :=
  match a with
  | PSkill s | PRead s | PView s | PList s => Some s
  | PSearch _ _ _ => None
  end.

Inductive ToolPermissionDecision := Approved | Rejected | PermCancelled.

Record ToolPermissionOutcome := mkOutcome {
  po_request_id : string;
  po_decision : ToolPermissionDecision;
  po_option_id : option string;
  po_option_label : option string;
  po_resolved_at : string;
}.

Inductive BackgroundCommandOutcome := BgCompleted | BgFailed | BgStopped.
#[global] Instance BackgroundCommandOutcome_eq_dec : EqDecision BackgroundCommandOutcome.
Proof. solve_decision. Defined.

(** Raw Tool input and output. *)
Inductive ActivityToolValue :=
| VNull
| VBoolean (value : bool)
| VNumber (value : string)
| VString (value : string)
| VArray (items : list ActivityToolValue)
| VObject (fields : list ActivityToolField)
| VRedacted
with ActivityToolField :=
| mkField (name : string) (value : ActivityToolValue).

Inductive ActivityToolContent :=
| ContentText (text : string)
| ContentDiff (path : string) (old_text : option string) (new_text : string)
| ContentTerminal (terminal_id : string)
| ContentImage (media_type data : string) (uri : option string)
| ContentAudio (media_type data : string)
| ContentResource (uri : string) (name title description media_type : option string) (size_bytes : option Z)
    (text : option string)
| ContentUnsupported (content_type : string) (media_type uri : option string).

Record ActivityToolLocation := mkLocation { loc_path : string; loc_line : option Z }.

Record ActivityToolInput := mkInput {
  in_command : list string;
  in_cwd : option string;
  in_query : option string;
  in_queries : list string;
  in_url : option string;
  in_path : option string;
  in_fields : list ActivityToolField;
}.

Record ActivityToolOutput := mkOutput {
  out_stdout : option string;
  out_stderr : option string;
  out_formatted_output : option string;
  out_aggregated_output : option string;
  out_exit_code : option Z;
  out_success : option bool;
  out_fields : list ActivityToolField;
}.

Record ActivityToolDetails := mkDetails {
  ad_locations : list ActivityToolLocation;
  ad_content : list ActivityToolContent;
  ad_input : option ActivityToolInput;
  ad_output : option ActivityToolOutput;
}.

Section Chat.
Context `{ChatPayloads}.

Record ToolStep := mkTool {
  ts_tool_call_id : option string;
  ts_name : string;
  ts_status : ActivityStatus;
  ts_presentation : option ToolPresentation;
  ts_description : option string;
  ts_input_summary : option string;
  ts_output_preview : option string;
  ts_detail_artifact_id : option string;
  ts_details : option ActivityToolDetails;
  ts_permission_outcomes : list ToolPermissionOutcome;
  ts_background_outcome : option BackgroundCommandOutcome;
  ts_pending : bool;
}.

Inductive ActivityStep :=
| StepText (text : string) (level : option string)
| StepTool (tool : ToolStep)
| StepCommand (command_label : string) (status : ActivityStatus) (exit_code : option Z)
    (output_preview : option string)
| StepSubagent (subagent_id tool_call_id title thread_id raw_path activity : option string)
    (name : string) (path : list string) (status : ActivityStatus) (events : list SubagentActivity).

(** ** Messages *)

Inductive AgentMessageRole := RoleAgent | RoleThought.
#[global] Instance AgentMessageRole_eq_dec : EqDecision AgentMessageRole.
Proof. solve_decision. Defined.

Inductive AgentMessagePart :=
| PartText (text : string)
| PartImage (media_type data : string) (image_id : option string) (size_bytes width height : option Z)
    (uri : option string)
| PartResource (uri : string) (name title description media_type : option string) (size_bytes : option Z)
    (text : option string)
| PartUnsupported (content_type : string) (media_type uri : option string).

Inductive AgentPlanPriority := High | Medium | Low.
Inductive AgentPlanStatus := PlanPending | PlanInProgress | PlanCompleted.
Record AgentPlanEntry := mkPlanEntry {
  pe_content : string; pe_priority : AgentPlanPriority; pe_status : AgentPlanStatus;
}.
Record AgentPlan := mkPlan { plan_entries : list AgentPlanEntry }.

Inductive QuestionState := QPending | QResolved | QCancelled | QError.
Inductive QuestionAction := QSubmit | QCancel.
Inductive InterruptionReason := IntCanceled | IntFailed | BackendUnavailable.
Inductive CompactionStatus := CInProgress | CCompleted | CFailed | CCancelled | CUnknown.
#[global] Instance CompactionStatus_eq_dec : EqDecision CompactionStatus.
Proof. solve_decision. Defined.

Record Attachment := mkAttachment {
  att_kind : string; att_label : string; att_path : option string; att_payload : option JsonValue;
}.

Inductive NormalizedMessage :=
| MUser (id text created_at : string) (attachments : list Attachment)
| MAgentMessage (id : string) (role : AgentMessageRole) (parts : list AgentMessagePart) (created_at : string)
| MActivity (id title : string) (status : ActivityStatus) (created_at : string) (collapsed : bool)
    (steps : list ActivityStep)
| MCompletedPlan (id : string) (entries : list AgentPlanEntry) (created_at : string)
| MClosedPlan (id : string) (entries : list AgentPlanEntry) (created_at : string)
| MQuestion (id request_id message : string) (fields : list QuestionField) (state : QuestionState)
    (created_at : string) (action : option QuestionAction) (content : option (gmap string QuestionValue))
    (error resolution_message : option string)
| MInterruption (id : string) (reason : InterruptionReason) (message created_at : string) (recoverable : bool)
| MCompaction (id : string) (status : CompactionStatus) (summary error : option string) (created_at : string).

Record ObservedSpan := mkSpan { started_at : string; ended_at : option string }.
Record ChatTiming := mkTiming {
  sent_at : option string; run_span : option ObservedSpan; closed_turn : option ObservedSpan;
}.
Definition timing_is_empty (t : ChatTiming) : bool :=
  match t with mkTiming None None None => true | _ => false end.

Record ChatMessage := mkChat {
  cm_cursor : string;
  cm_identity : string;
  cm_message_type : string;
  cm_message_id : string;
  cm_message : NormalizedMessage;
  cm_timing : ChatTiming;
}.

Definition message_type (m : NormalizedMessage) : string :=
  match m with
  | MUser _ _ _ _ => "user"
  | MAgentMessage _ RoleAgent _ _ => "agent_message"
  | MAgentMessage _ RoleThought _ _ => "thought_message"
  | MActivity _ _ _ _ _ _ => "activity"
  | MCompletedPlan _ _ _ => "completed_plan"
  | MClosedPlan _ _ _ => "closed_plan"
  | MQuestion _ _ _ _ _ _ _ _ _ _ => "question"
  | MInterruption _ _ _ _ _ => "interruption"
  | MCompaction _ _ _ _ _ => "compaction"
  end.

Definition identity (m : NormalizedMessage) : string :=
  match m with
  | MUser id _ _ _ | MAgentMessage id _ _ _ | MActivity id _ _ _ _ _ | MCompletedPlan id _ _
  | MClosedPlan id _ _ | MQuestion id _ _ _ _ _ _ _ _ _ | MInterruption id _ _ _ _
  | MCompaction id _ _ _ _ => id
  end.

Definition is_in_progress (m : NormalizedMessage) : bool :=
  match m with
  | MActivity _ _ status _ _ _ => bool_decide (status = Running)
  | MCompaction _ status _ _ _ => bool_decide (status = CInProgress)
  | _ => false
  end.

Definition is_awaiting_start (m : NormalizedMessage) : bool :=
  match m with
  | MActivity _ _ status _ _ steps =>
      bool_decide (status = Running) &&
      negb (match steps with [] => true | _ => false end) &&
      forallb (fun step => match step with StepTool t => ts_pending t | _ => false end) steps
  | _ => false
  end.

Definition created_at (m : NormalizedMessage) : string :=
  match m with
  | MUser _ _ c _ | MAgentMessage _ _ _ c | MActivity _ _ _ c _ _ | MCompletedPlan _ _ c
  | MClosedPlan _ _ c | MQuestion _ _ _ _ _ c _ _ _ _ | MInterruption _ _ _ c _
  | MCompaction _ _ _ _ c => c
  end.

Definition set_created_at (c : string) (m : NormalizedMessage) : NormalizedMessage :=
  match m with
  | MUser id text _ a => MUser id text c a
  | MAgentMessage id role parts _ => MAgentMessage id role parts c
  | MActivity id title status _ col steps => MActivity id title status c col steps
  | MCompletedPlan id entries _ => MCompletedPlan id entries c
  | MClosedPlan id entries _ => MClosedPlan id entries c
  | MQuestion id rid msg fields st _ act cont err res => MQuestion id rid msg fields st c act cont err res
  | MInterruption id reason msg _ rec => MInterruption id reason msg c rec
  | MCompaction id st sum err _ => MCompaction id st sum err c
  end.

Definition preserve_created_at_from (m existing : NormalizedMessage) : NormalizedMessage :=
  set_created_at (created_at existing) m.

(** The App Server's own facts of a Tool step. *)
Definition tool_outcomes (t : ToolStep) : list ToolPermissionOutcome * option BackgroundCommandOutcome :=
  (ts_permission_outcomes t, ts_background_outcome t).

Definition set_outcomes (o : list ToolPermissionOutcome * option BackgroundCommandOutcome) (t : ToolStep) : ToolStep :=
  mkTool (ts_tool_call_id t) (ts_name t) (ts_status t) (ts_presentation t) (ts_description t)
    (ts_input_summary t) (ts_output_preview t) (ts_detail_artifact_id t) (ts_details t) o.1 o.2 (ts_pending t).

(** The first Tool step with a call id; two absent ids are equal. *)
Fixpoint find_tool (id : option string) (steps : list ActivityStep) : option ToolStep :=
  match steps with
  | [] => None
  | StepTool t :: steps => if bool_decide (ts_tool_call_id t = id) then Some t else find_tool id steps
  | _ :: steps => find_tool id steps
  end.

Definition preserve_step (existing_steps : list ActivityStep) (step : ActivityStep) : ActivityStep :=
  match step with
  | StepTool t =>
      match find_tool (ts_tool_call_id t) existing_steps with
      | Some old => StepTool (set_outcomes (tool_outcomes old) t)
      | None => step
      end
  | _ => step
  end.

Definition preserve_tool_permission_outcomes_from (m existing : NormalizedMessage) : NormalizedMessage :=
  match m, existing with
  | MActivity id title status c col steps, MActivity _ _ _ _ _ existing_steps =>
      MActivity id title status c col (preserve_step existing_steps <$> steps)
  | _, _ => m
  end.

(** The message part of [upsert_message_with_details] for a row that exists. *)
Definition replace_row (existing update : NormalizedMessage) : NormalizedMessage :=
  preserve_created_at_from (preserve_tool_permission_outcomes_from update existing) existing.

(** ** Updates keep the App Server's facts *)

Definition steps_of (m : NormalizedMessage) : list ActivityStep :=
  match m with MActivity _ _ _ _ _ steps => steps | _ => [] end.

Definition outcomes_in (id : option string) (m : NormalizedMessage) :=
  tool_outcomes <$> find_tool id (steps_of m).

Lemma find_tool_id id steps t : find_tool id steps = Some t -> ts_tool_call_id t = id.
Proof.
  induction steps as [|[] steps IH]; cbn; try done. split_test; [|done]. by intros [= ->].
Qed.

Lemma find_tool_preserve id old new :
  find_tool id (preserve_step old <$> new)
  = (fun t => match find_tool id old with Some o => set_outcomes (tool_outcomes o) t | None => t end)
    <$> find_tool id new.
Proof.
  induction new as [|step new IH]; [done|]. rewrite fmap_cons.
  destruct step as [| t| |]; cbn [preserve_step find_tool]; try done.
  destruct (find_tool (ts_tool_call_id t) old) as [o|] eqn:Ho; cbn [find_tool];
    [change (ts_tool_call_id (set_outcomes _ t)) with (ts_tool_call_id t)|]; split_test; try done;
    simplify_eq/=; by rewrite Ho.
Qed.

Lemma outcomes_in_replace id existing update :
  outcomes_in id (replace_row existing update)
  = match outcomes_in id update with
    | None => None
    | Some o => Some (default o (outcomes_in id existing))
    end.
Proof.
  unfold outcomes_in, replace_row, preserve_created_at_from.
  destruct update as [| |uid title status c col new| | | | |]; try done.
  destruct existing as [| |eid etitle estatus ec ecol old| | | | |]; cbn [preserve_tool_permission_outcomes_from set_created_at steps_of];
    try (by destruct (find_tool id new)).
  rewrite find_tool_preserve. destruct (find_tool id new) as [t|]; [|done]. cbn.
  by destruct (find_tool id old).
Qed.

(** Agent updates never erase the App Server's facts: through any series of
    updates of a Chat row that keep a Tool call, the row keeps the permission
    and background outcomes the call had, and the row's creation time. *)
Theorem outcomes_survive_updates id row updates o :
  outcomes_in id row = Some o -> Forall (fun u => is_Some (outcomes_in id u)) updates ->
  let final := foldl replace_row row updates in
  outcomes_in id final = Some o /\ created_at final = created_at row.
Proof.
  revert row. induction updates as [|u updates IH]; intros row Ho Hu; cbn [foldl]; [done|].
  apply Forall_cons in Hu as [[uo Hu] Hus]. destruct (IH (replace_row row u)) as [Hf Hc]; [|done|].
  { by rewrite outcomes_in_replace, Hu, Ho. }
  split; [done|]. rewrite Hc. unfold replace_row, preserve_created_at_from.
  by destruct (preserve_tool_permission_outcomes_from u row).
Qed.
End Chat.

(** ** Examples *)

Module ChatWitness.
#[global] Instance string_chat : ChatPayloads := {| QuestionField := string;
  QuestionValue := string |}.

Definition outcome : ToolPermissionOutcome := mkOutcome "r1" Approved None None "5".
Definition tool (status : ActivityStatus) (outcomes : list ToolPermissionOutcome) : ActivityStep :=
  StepTool (mkTool (Some "call") "execute" status None None None None None None outcomes None false).
Definition row : NormalizedMessage := MActivity "a" "Run" Running "1" false [tool Running [outcome]].
Definition update (status : ActivityStatus) : NormalizedMessage :=
  MActivity "a" "Run" status "9" false [StepText "note" None; tool status []].

Lemma outcomes_survive_updates_witness :
  outcomes_in (Some "call") (foldl replace_row row [update Running; update Completed]) = Some ([outcome], None).
Proof.
  apply (outcomes_survive_updates (Some "call") row [update Running; update Completed] ([outcome], None)).
  - reflexivity.
  - repeat constructor; eexists; reflexivity.
Defined.
End ChatWitness.
