(* ===== verification/Records.v ===== *)
(** * Task records

    Models [openaide-rs/app-server/src/storage/records.rs] with
    [storage/config_state.rs], [storage/composer_history.rs] and
    [storage/id.rs]: the durable Task record, its title state with the user's
    override, the freshness of Agent catalogs, the state that a new process
    clears, and the composer history.

    A string is its UTF-8 bytes, so [str::trim] is modelled on bytes, with every
    white-space character of Unicode written out. *)

From S2P Require Import Prelude Chat.

Local Open Scope Z_scope.

Inductive RuntimeError :=
| InvalidParams (what : string)
| TaskNotFound (task_id : string)
| NativeSessionMissing (what : string)
| NotReady (what : string)
| Conflict (what : string)
| OutcomeUnknown (what : string)
| ErrAuthRequired (what : string)
| ErrSetupRequired (what : string)
| ErrNodeJsRequired (what : string)
| Unsupported (what : string)
| CapabilityMissing (what : string)
| MethodNotFound (what : string)
| Storage (what : string)
| Internal (what : string)
| AgentReported (what : string).

(** [Display], as written in the [#[error]] attributes. *)
Definition error_to_string (e : RuntimeError) : string :=
  match e with
  | InvalidParams w => "invalid params: " +:+ w
  | TaskNotFound w => "task not found: " +:+ w
  | NativeSessionMissing w => "native session missing: " +:+ w
  | NotReady w => "runtime not ready: " +:+ w
  | Conflict w => "conflict: " +:+ w
  | OutcomeUnknown w => "outcome unknown: " +:+ w
  | ErrAuthRequired w => "agent authentication required: " +:+ w
  | ErrSetupRequired w => "agent setup required: " +:+ w
  | ErrNodeJsRequired w => "Node.js required: " +:+ w
  | Unsupported w => "agent unsupported: " +:+ w
  | CapabilityMissing w => "capability missing: " +:+ w
  | MethodNotFound w => "method not found: " +:+ w
  | Storage w => "storage error: " +:+ w
  | Internal w => "internal error: " +:+ w
  | AgentReported w => "agent reported a failure: " +:+ w
  end.

Definition error_code (e : RuntimeError) : Z :=
  match e with
  | InvalidParams _ => -32602
  | TaskNotFound _ | NativeSessionMissing _ => -32005
  | Conflict _ | OutcomeUnknown _ => -32009
  | NotReady _ | ErrAuthRequired _ | ErrSetupRequired _ | ErrNodeJsRequired _ => -32002
  | CapabilityMissing _ | Unsupported _ => -32004
  | MethodNotFound _ => -32601
  | Storage _ | Internal _ | AgentReported _ => -32603
  end.

Definition error_reason (e : RuntimeError) : string :=
  match e with
  | InvalidParams _ => "validation_failed"
  | TaskNotFound _ => "task_not_found"
  | NativeSessionMissing _ => "native_session_missing"
  | NotReady _ => "not_ready"
  | Conflict _ => "conflict"
  | OutcomeUnknown _ => "outcome_unknown"
  | ErrAuthRequired _ => "auth_required"
  | ErrSetupRequired _ => "setup_required"
  | ErrNodeJsRequired _ => "node_js_required"
  | Unsupported _ => "unsupported"
  | CapabilityMissing _ => "capability_missing"
  | MethodNotFound _ => "method_not_found"
  | Storage _ => "storage_error"
  | Internal _ => "internal_error"
  | AgentReported _ => "agent_reported_failure"
  end.

(** ** Trimming *)

Definition bytes_of (s : string) : list Z := (fun a => Z.of_N (Ascii.N_of_ascii a)) <$> String.list_ascii_of_string s.
Definition of_bytes (l : list Z) : string :=
  String.string_of_list_ascii ((fun b => Ascii.ascii_of_N (Z.to_N b)) <$> l).

(** The UTF-8 encodings of the white-space characters. *)
Definition whitespace : list (list Z) :=
  [[9]; [10]; [11]; [12]; [13]; [32]; [194; 133]; [194; 160]; [225; 154; 128];
   [226; 128; 128]; [226; 128; 129]; [226; 128; 130]; [226; 128; 131]; [226; 128; 132];
   [226; 128; 133]; [226; 128; 134]; [226; 128; 135]; [226; 128; 136]; [226; 128; 137];
   [226; 128; 138]; [226; 128; 168]; [226; 128; 169]; [226; 128; 175]; [226; 129; 159];
   [227; 128; 128]].

Fixpoint strip_prefix (w l : list Z) : option (list Z) :=
  match w, l with
  | [], _ => Some l
  | a :: w, b :: l => if bool_decide (a = b) then strip_prefix w l else None
  | _ :: _, [] => None
  end.

(** One leading white-space character, as a list of alternatives. *)
Fixpoint strip_one (ws : list (list Z)) (l : list Z) : option (list Z) :=
  match ws with
  | [] => None
  | w :: ws => match strip_prefix w l with Some rest => Some rest | None => strip_one ws l end
  end.

Fixpoint strip_all (fuel : nat) (ws : list (list Z)) (l : list Z) : list Z :=
  match fuel with
  | O => l
  | S fuel => match strip_one ws l with Some rest => strip_all fuel ws rest | None => l end
  end.

Definition trim_start (l : list Z) : list Z := strip_all (length l) whitespace l.
Definition trim_end (l : list Z) : list Z := rev (strip_all (length l) (@rev Z <$> whitespace) (rev l)).
Definition trim_bytes (l : list Z) : list Z := trim_end (trim_start l).
Definition trim (s : string) : string := of_bytes (trim_bytes (bytes_of s)).

Lemma of_bytes_of s : of_bytes (bytes_of s) = s.
Proof.
  unfold of_bytes, bytes_of. rewrite <- list_fmap_compose.
  rewrite (list_fmap_ext _ id); [rewrite list_fmap_id; apply String.string_of_list_ascii_of_string|].
  intros i a _. unfold compose. rewrite N2Z.id. apply Ascii.ascii_N_embedding.
Qed.

Definition bytes_ok (l : list Z) : Prop := Forall (fun b => 0 <= b < 256) l.

Lemma bytes_of_ok s : bytes_ok (bytes_of s).
Proof.
  apply Forall_fmap, Forall_forall. intros a _. unfold compose.
  pose proof (Ascii.N_ascii_bounded a). lia.
Qed.

Lemma bytes_of_bytes l : bytes_ok l -> bytes_of (of_bytes l) = l.
Proof.
  unfold bytes_ok. intros Hl. unfold of_bytes, bytes_of. rewrite String.list_ascii_of_string_of_list_ascii.
  rewrite <- list_fmap_compose. rewrite <- (list_fmap_id l) at 2. apply list_fmap_ext.
  intros i b Hb. rewrite Forall_lookup in Hl. specialize (Hl _ _ Hb). cbn in Hl. unfold compose. cbn.
  rewrite Ascii.N_ascii_embedding by lia. lia.
Qed.

Lemma strip_prefix_spec w l rest : strip_prefix w l = Some rest <-> l = w ++ rest.
Proof.
  revert l. induction w as [|a w IH]; intros l; cbn; [split; [by intros [= ->]|by intros ->]|].
  destruct l as [|b l]; [done|]. split_test; [subst; rewrite IH; split; [by intros ->|by intros [= ->]]|].
  split; [done|]. by intros [= -> ->].
Qed.

Lemma strip_one_spec ws l rest : strip_one ws l = Some rest -> exists w, w ∈ ws /\ l = w ++ rest.
Proof.
  induction ws as [|w ws IH]; cbn; [done|]. destruct (strip_prefix w l) as [r|] eqn:E.
  - intros [= ->]. apply strip_prefix_spec in E. exists w. split; [left|done].
  - intros H. destruct (IH H) as (w' & Hw & Hl). exists w'. split; [by right|done].
Qed.

Lemma strip_one_none ws l : strip_one ws l = None <-> forall w, w ∈ ws -> strip_prefix w l = None.
Proof.
  induction ws as [|w ws IH]; cbn; [split; [by intros _ ? ?%elem_of_nil|done]|].
  destruct (strip_prefix w l) eqn:E; [split; [done|]|].
  - intros H. specialize (H w ltac:(left)). congruence.
  - rewrite IH. split; [intros H w' [->|Hw]%elem_of_cons; auto|intros H w' Hw; apply H; by right].
Qed.

(** A list with no leading white space keeps that when its end is cut. *)
Lemma strip_one_app ws l more : strip_one ws (l ++ more) = None -> strip_one ws l = None.
Proof.
  rewrite !strip_one_none. intros H w Hw. specialize (H w Hw).
  destruct (strip_prefix w l) as [rest|] eqn:E; [|done]. apply strip_prefix_spec in E as ->.
  rewrite <- app_assoc in H. by rewrite (proj2 (strip_prefix_spec w _ (rest ++ more)) eq_refl) in H.
Qed.

Lemma strip_all_spec ws fuel l :
  Forall (fun w => w <> []) ws -> (length l <= fuel)%nat ->
  exists cut, l = cut ++ strip_all fuel ws l /\ strip_one ws (strip_all fuel ws l) = None.
Proof.
  intros Hne. revert l. induction fuel as [|fuel IH]; intros l Hl; cbn.
  - destruct l; [|cbn in Hl; lia]. exists []. split; [done|]. apply strip_one_none. intros w Hw.
    rewrite Forall_forall in Hne. specialize (Hne w Hw). by destruct w.
  - destruct (strip_one ws l) as [rest|] eqn:E; [|by exists []].
    apply strip_one_spec in E as (w & Hw & ->). rewrite Forall_forall in Hne. specialize (Hne w Hw).
    rewrite length_app in Hl. destruct (IH rest) as (cut & Hc & Hn); [destruct w; [done|cbn in Hl; lia]|].
    exists (w ++ cut). split; [|done]. by rewrite <- app_assoc, <- Hc.
Qed.

Lemma strip_all_none ws fuel l : strip_one ws l = None -> strip_all fuel ws l = l.
Proof. intros H. destruct fuel; cbn; [done|]. by rewrite H. Qed.

Lemma trim_bytes_spec l :
  exists front back, l = front ++ trim_bytes l ++ back /\
    strip_one whitespace (trim_bytes l) = None /\
    strip_one (@rev Z <$> whitespace) (rev (trim_bytes l)) = None.
Proof.
  destruct (strip_all_spec whitespace (length l) l) as (front & Hf & Hn); [by repeat constructor|done|].
  fold (trim_start l) in *.
  destruct (strip_all_spec (@rev Z <$> whitespace) (length (trim_start l)) (rev (trim_start l)))
    as (back & Hb & Hn'); [by repeat constructor|by rewrite length_rev|].
  exists front, (rev back). unfold trim_bytes, trim_end. rewrite rev_involutive.
  apply (f_equal (@rev Z)) in Hb. rewrite rev_involutive, rev_app_distr in Hb.
  split; [by rewrite <- Hb|]. split; [|done]. eapply (strip_one_app _ _ (rev back)). by rewrite <- Hb.
Qed.

Lemma trim_bytes_idempotent l : trim_bytes (trim_bytes l) = trim_bytes l.
Proof.
  destruct (trim_bytes_spec l) as (front & back & _ & Hs & He). set (t := trim_bytes l) in *.
  unfold trim_bytes, trim_start, trim_end. rewrite (strip_all_none whitespace) by done.
  rewrite strip_all_none by done. apply rev_involutive.
Qed.

Lemma trim_idempotent s : trim (trim s) = trim s.
Proof.
  unfold trim. rewrite bytes_of_bytes, trim_bytes_idempotent; [done|].
  destruct (trim_bytes_spec (bytes_of s)) as (front & back & Hl & _). pose proof (bytes_of_ok s) as Hb.
  rewrite Hl in Hb. apply Forall_app in Hb as [_ Hb]. by apply Forall_app in Hb as [Hb _].
Qed.

(** ** Titles *)

Inductive TaskTitleSource := SourcePrompt | SourceAgent | SourceUser.
#[global] Instance TaskTitleSource_eq_dec : EqDecision TaskTitleSource.
Proof. solve_decision. Defined.

Record TaskTitle := mkTitle { title_value : string; title_source : TaskTitleSource }.
#[global] Instance TaskTitle_eq_dec : EqDecision TaskTitle.
Proof. solve_decision. Defined.

(** [TaskTitle::new], also the constructor used when a title is read back. *)
Definition title_new (value : string) (source : TaskTitleSource) : option TaskTitle :=
  let value := trim value in
  if bool_decide (value = ""%string) then None else Some (mkTitle value source).

Inductive TaskTitleState :=
| Automatic (title : option TaskTitle)
| UserOverride (title : TaskTitle) (automatic : option TaskTitle).
#[global] Instance TaskTitleState_eq_dec : EqDecision TaskTitleState.
Proof. solve_decision. Defined.

Definition title_default : TaskTitleState := Automatic None.

Definition from_title (title : option TaskTitle) : TaskTitleState :=
  match title with
  | Some t => if bool_decide (title_source t = SourceUser) then UserOverride t None else Automatic title
  | None => Automatic None
  end.

Definition effective (s : TaskTitleState) : option TaskTitle :=
  match s with Automatic t => t | UserOverride t _ => Some t end.

Definition is_empty (s : TaskTitleState) : bool := match effective s with None => true | Some _ => false end.
Definition has_user_override (s : TaskTitleState) : bool :=
  match s with UserOverride _ _ => true | Automatic _ => false end.

Definition set_prompt_title (title : option TaskTitle) (s : TaskTitleState) : bool * TaskTitleState :=
  if negb (is_empty s) || match title with None => true | Some _ => false end then (false, s)
  else
    let next := Automatic title in
    if bool_decide (s = next) then (false, s) else (true, next).

Definition replace_automatic (next : option TaskTitle) (s : TaskTitleState) : bool * TaskTitleState :=
  match s with
  | Automatic current => if bool_decide (current = next) then (false, s) else (true, Automatic next)
  | UserOverride t current => if bool_decide (current = next) then (false, s) else (true, UserOverride t next)
  end.

Definition set_agent_title (value : string) (s : TaskTitleState) : bool * TaskTitleState :=
  match title_new value SourceAgent with
  | None => (false, s)
  | Some next => replace_automatic (Some next) s
  end.

Definition clear_agent_title (s : TaskTitleState) : bool * TaskTitleState := replace_automatic None s.

Definition set_user_title (value : string) (s : TaskTitleState) : bool * TaskTitleState :=
  match title_new value SourceUser with
  | None => (false, s)
  | Some title =>
      let automatic := match s with Automatic t => t | UserOverride _ a => a end in
      let next := UserOverride title automatic in
      if bool_decide (s = next) then (false, s) else (true, next)
  end.

Definition reset_to_automatic (s : TaskTitleState) : bool * TaskTitleState :=
  match s with
  | UserOverride _ automatic => (true, Automatic automatic)
  | Automatic _ => (false, s)
  end.

Definition validate (s : TaskTitleState) : result unit string :=
  let '(user, automatic) := match s with
                            | Automatic t => (None, t)
                            | UserOverride t a => (Some t, a)
                            end in
  if match user with Some t => bool_decide (title_source t <> SourceUser) | None => false end
  then Err "Task user title must have user ownership"%string
  else if match automatic with Some t => bool_decide (title_source t = SourceUser) | None => false end
  then Err "Task automatic title cannot have user ownership"%string
  else Ok tt.

(** ** The contract of a title

    Two independent titles, the user's and the automatic one; the visible title
    is the user's if there is one. *)

Inductive TitleOp :=
| SetPrompt (title : option TaskTitle) | SetAgent (value : string) | ClearAgent
| SetUser (value : string) | ResetTitle.

Definition title_step (op : TitleOp) (s : TaskTitleState) : bool * TaskTitleState :=
  match op with
  | SetPrompt t => set_prompt_title t s
  | SetAgent v => set_agent_title v s
  | ClearAgent => clear_agent_title s
  | SetUser v => set_user_title v s
  | ResetTitle => reset_to_automatic s
  end.

Fixpoint title_run (ops : list TitleOp) (s : TaskTitleState) : list bool * TaskTitleState :=
  match ops with
  | [] => ([], s)
  | op :: ops => let '(b, s) := title_step op s in let '(bs, s) := title_run ops s in (b :: bs, s)
  end.

Definition Titles : Type := option TaskTitle * option TaskTitle.
Definition titles_of (s : TaskTitleState) : Titles :=
  match s with Automatic t => (None, t) | UserOverride t a => (Some t, a) end.

Definition titles_after (op : TitleOp) (t : Titles) : Titles :=
  let '(user, auto) := t in
  match op with
  | SetPrompt p => (user, match user, auto with None, None => p | _, _ => auto end)
  | SetAgent v => (user, match title_new v SourceAgent with Some n => Some n | None => auto end)
  | ClearAgent => (user, None)
  | SetUser v => (match title_new v SourceUser with Some n => Some n | None => user end, auto)
  | ResetTitle => (None, auto)
  end.

Fixpoint titles_run (ops : list TitleOp) (t : Titles) : list bool * Titles :=
  match ops with
  | [] => ([], t)
  | op :: ops =>
      let t' := titles_after op t in
      let '(bs, t'') := titles_run ops t' in (bool_decide (t' <> t) :: bs, t'')
  end.

(** A prompt title is never the user's. *)
Definition title_op_ok (op : TitleOp) : Prop :=
  match op with SetPrompt (Some t) => title_source t <> SourceUser | _ => True end.

Lemma title_new_source v s t : title_new v s = Some t -> title_source t = s.
Proof. unfold title_new. cbv zeta. split_test; [done|]. by intros [= <-]. Qed.

Lemma validate_iff s :
  validate s = Ok tt <->
  match titles_of s with
  | (user, auto) => (forall t, user = Some t -> title_source t = SourceUser) /\
                    (forall t, auto = Some t -> title_source t <> SourceUser)
  end.
Proof.
  unfold validate. destruct s as [[t|]|t [a|]]; cbn; repeat split_test; (split; [intros H|intros [H1 H2]]); try done;
    try (split; intros ? [= <-]); try done; try (by apply dec_stable); naive_solver.
Qed.

Lemma title_step_refines op s :
  title_op_ok op -> validate s = Ok tt ->
  let '(b, s') := title_step op s in
  titles_of s' = titles_after op (titles_of s) /\
  b = bool_decide (titles_after op (titles_of s) <> titles_of s) /\ validate s' = Ok tt.
Proof.
  intros Hop Hv. assert (forall s', titles_of s' = titles_of s -> s' = s) as Hinj
    by (intros s'; destruct s, s'; cbn; naive_solver).
  destruct (title_step op s) as [b s'] eqn:E.
  assert (titles_of s' = titles_after op (titles_of s) /\ (b = true <-> s' <> s)) as [Ht Hb].
  { destruct op as [p|v| |v|], s as [t|t a]; cbn in E;
      unfold set_prompt_title, set_agent_title, clear_agent_title, set_user_title, replace_automatic, is_empty in E; cbn in *;
      repeat (case_match; simplify_eq/=; simp_all); naive_solver. }
  split; [done|]. split.
  - destruct b; symmetry; [apply bool_decide_eq_true|apply bool_decide_eq_false]; rewrite <- Ht.
    + intros Heq. apply (proj1 Hb); [done|]. by apply Hinj.
    + intros Hne. assert (false = true); [|done]. apply Hb. intros ->. by apply Hne.
  - apply validate_iff in Hv. apply validate_iff. rewrite Ht. destruct (titles_of s) as [user auto].
    destruct Hv as [Hu Ha]. destruct op as [p|v| |v|]; cbn; (split; [|]); intros t Hteq.
    all: repeat (case_match; simplify_eq/=); eauto using title_new_source.
    all: try done.
    by rewrite (title_new_source v SourceAgent t).
Qed.

(** Title ownership: for every history of title operations the title state
    implements two independent titles.  Agent and prompt updates never touch the
    user's title, a reset shows the latest automatic one, each call reports
    exactly whether it changed the state, and every reached state validates when
    it is read back. *)
Theorem title_state_refines ops s :
  validate s = Ok tt -> Forall title_op_ok ops ->
  let '(bs, s') := title_run ops s in
  titles_run ops (titles_of s) = (bs, titles_of s') /\ validate s' = Ok tt /\
  effective s' = (let '(user, auto) := titles_of s' in match user with Some t => Some t | None => auto end).
Proof.
  revert s. induction ops as [|op ops IH]; intros s Hv Hops; cbn [title_run titles_run].
  - split; [done|]. split; [done|]. by destruct s.
  - apply Forall_cons in Hops as [Hop Hops]. pose proof (title_step_refines op s Hop Hv) as Hs.
    destruct (title_step op s) as [b s1]. destruct Hs as (Ht & Hb & Hv1). rewrite <- Ht in *.
    specialize (IH s1 Hv1 Hops). destruct (title_run ops s1) as [bs s2]. destruct IH as (Hr & Hv2 & He).
    rewrite Hr, Hb. done.
Qed.

(** Reading a stored title back yields the same title. *)
Lemma title_new_stable v s t : title_new v s = Some t -> title_new (title_value t) s = Some t.
Proof.
  unfold title_new. cbv zeta. split_test; [done|]. intros [= <-]. cbn [title_value].
  rewrite trim_idempotent. by rewrite bool_decide_eq_false_2.
Qed.

(** ** Freshness of Agent catalogs *)

Inductive TaskNativeSessionCatalogFreshness := Fresh | Recovering | StaleCatalog.
#[global] Instance TaskNativeSessionCatalogFreshness_eq_dec : EqDecision TaskNativeSessionCatalogFreshness.
Proof. solve_decision. Defined.

Record TaskNativeSessionDataFreshness := mkFreshness {
  fr_config : TaskNativeSessionCatalogFreshness;
  fr_commands : TaskNativeSessionCatalogFreshness;
}.
#[global] Instance TaskNativeSessionDataFreshness_eq_dec : EqDecision TaskNativeSessionDataFreshness.
Proof. solve_decision. Defined.

Definition is_fresh (f : TaskNativeSessionDataFreshness) : bool :=
  bool_decide (fr_config f = Fresh) && bool_decide (fr_commands f = Fresh).
Definition is_recovering (f : TaskNativeSessionDataFreshness) : bool :=
  bool_decide (fr_config f = Recovering) || bool_decide (fr_commands f = Recovering).
Definition is_fully_recovering (f : TaskNativeSessionDataFreshness) : bool :=
  bool_decide (fr_config f = Recovering) && bool_decide (fr_commands f = Recovering).
Definition is_stale (f : TaskNativeSessionDataFreshness) : bool :=
  bool_decide (fr_config f = StaleCatalog) && bool_decide (fr_commands f = StaleCatalog).

Definition mark_recovering (f : TaskNativeSessionDataFreshness) : bool * TaskNativeSessionDataFreshness :=
  if is_fully_recovering f then (false, f) else (true, mkFreshness Recovering Recovering).
Definition mark_stale (f : TaskNativeSessionDataFreshness) : bool * TaskNativeSessionDataFreshness :=
  if is_stale f then (false, f) else (true, mkFreshness StaleCatalog StaleCatalog).
Definition mark_config_fresh (f : TaskNativeSessionDataFreshness) : TaskNativeSessionDataFreshness :=
  mkFreshness Fresh (fr_commands f).
Definition mark_commands_fresh (f : TaskNativeSessionDataFreshness) : TaskNativeSessionDataFreshness :=
  mkFreshness (fr_config f) Fresh.

(** ** Composer history *)

Definition HISTORY_LIMIT : nat := 50.

Record ComposerHistoryEntryRecord := mkEntry {
  ch_entry_id : string; ch_project_id : string; ch_text : string; ch_accepted_at : string;
}.
Definition ComposerHistory : Type := list ComposerHistoryEntryRecord.

(** Remove the first entry with a text; the loop of [position] and [remove]. *)
Fixpoint take_text (text : string) (h : list ComposerHistoryEntryRecord)
  : option (ComposerHistoryEntryRecord * list ComposerHistoryEntryRecord) :=
  match h with
  | [] => None
  | e :: h =>
      if bool_decide (ch_text e = text) then Some (e, h)
      else '(found, rest) ← take_text text h; Some (found, e :: rest)
  end.

Definition record (incoming : ComposerHistoryEntryRecord) (h : list ComposerHistoryEntryRecord)
  : list ComposerHistoryEntryRecord :=
  match take_text (ch_text incoming) h with
  | Some (existing, rest) =>
      mkEntry (ch_entry_id existing) (ch_project_id incoming) (ch_text existing) (ch_accepted_at incoming) :: rest
  | None => take HISTORY_LIMIT (incoming :: h)
  end.

Definition texts (h : list ComposerHistoryEntryRecord) : list string := ch_text <$> h.

Lemma take_text_spec text h :
  match take_text text h with
  | Some (e, rest) => ch_text e = text /\ exists before after, h = before ++ e :: after /\ rest = before ++ after
  | None => text ∉ texts h
  end.
Proof.
  induction h as [|e h IH]; cbn; [by apply not_elem_of_nil|]. split_test.
  - split; [done|]. by exists [], h.
  - destruct (take_text text h) as [[found rest]|]; cbn.
    + destruct IH as (Hf & before & after & -> & ->). split; [done|]. by exists (e :: before), after.
    + intros [->|Hin]%elem_of_cons; [done|]. by apply IH.
Qed.

(** Recording keeps the history short and without repeated texts, and puts the
    accepted text first. *)
Lemma record_keeps_history incoming h :
  (length h <= HISTORY_LIMIT)%nat -> NoDup (texts h) ->
  (length (record incoming h) <= HISTORY_LIMIT)%nat /\ NoDup (texts (record incoming h)) /\
  head (texts (record incoming h)) = Some (ch_text incoming).
Proof.
  intros Hlen Hnd. pose proof (take_text_spec (ch_text incoming) h) as Ht. unfold record.
  destruct (take_text (ch_text incoming) h) as [[e rest]|].
  - destruct Ht as (He & before & after & -> & ->). unfold texts in *. rewrite fmap_app in *. cbn in *.
    rewrite !length_app in *. cbn in Hlen. split; [lia|]. split; [|by rewrite He].
    rewrite fmap_app. apply NoDup_app in Hnd as (Hb & Hba & Ha). apply NoDup_cons in Ha as [Hea Ha].
    apply NoDup_cons. split; [set_solver|]. apply NoDup_app. set_solver.
  - split; [rewrite length_take; lia|]. unfold texts. rewrite !fmap_take. split; [|done].
    apply (sublist_NoDup _ (ch_text <$> incoming :: h)); [|apply sublist_take].
    rewrite fmap_cons. apply NoDup_cons. done.
Qed.

(** [validate_task_id]: ASCII letters, digits, [_] and [-], at most 96 bytes. *)
Definition id_byte (b : Z) : bool :=
  bool_decide (48 <= b <= 57) || bool_decide (65 <= b <= 90) || bool_decide (97 <= b <= 122)
  || bool_decide (b = 95) || bool_decide (b = 45).

Definition validate_task_id (task_id : string) : result unit RuntimeError :=
  let bytes := bytes_of task_id in
  if negb (bool_decide (bytes = [])) && bool_decide ((length bytes <= 96)%nat) && forallb id_byte bytes
  then Ok tt else Err (InvalidParams "task_id").

(** ** The Task record *)

Inductive TaskStatus := StStarting | StActive | StStopping | StInactive | StFailed | StCompleted | StWaiting.
#[global] Instance TaskStatus_eq_dec : EqDecision TaskStatus.
Proof. solve_decision. Defined.

Inductive IsolationKind := Local_ | GitWorktree | Docker.

Record TaskBackgroundCommand := mkCommand {
  bc_command_id : string; bc_description : string; bc_kind_label : option string; bc_started_at : string;
  bc_paused : bool; bc_can_stop : bool; bc_stop_failed : bool; bc_tool_call_id : option string;
}.
#[global] Instance TaskBackgroundCommand_eq_dec : EqDecision TaskBackgroundCommand.
Proof. solve_decision. Defined.
Record TaskBackgroundWork := mkWork { bw_held : bool; bw_commands : list TaskBackgroundCommand }.
#[global] Instance TaskBackgroundWork_eq_dec : EqDecision TaskBackgroundWork.
Proof. solve_decision. Defined.

Inductive TaskPreparationBlockerRecord := AuthRequired | SetupRequired | NodeJsRequired.
Inductive TaskPreparationRecord :=
| PrepNeeded | PrepPreparing | PrepReady
| PrepBlocked (reason : TaskPreparationBlockerRecord) (message : string)
| PrepFailed (message : string) (native_session_missing : bool).
#[global] Instance TaskPreparationBlockerRecord_eq_dec : EqDecision TaskPreparationBlockerRecord.
Proof. solve_decision. Defined.
#[global] Instance TaskPreparationRecord_eq_dec : EqDecision TaskPreparationRecord.
Proof. solve_decision. Defined.

Definition is_default_preparation (p : TaskPreparationRecord) : bool :=
  match p with PrepReady => true | _ => false end.

Inductive TaskLifecycle := Prepared (lease : option string) | Open | Archived.
#[global] Instance TaskLifecycle_eq_dec : EqDecision TaskLifecycle.
Proof. solve_decision. Defined.
Definition is_open (l : TaskLifecycle) : bool := match l with Open => true | _ => false end.
Definition is_archived (l : TaskLifecycle) : bool := match l with Archived => true | _ => false end.
Definition is_listed (l : TaskLifecycle) : bool := match l with Open | Archived => true | _ => false end.

Inductive TaskAttentionReason := AttFinished | AttNeedsPermission | AttNeedsAnswer | AttStopped | AttFailed.
Record TaskAttentionEvent := mkAttention {
  ae_event_id : string; ae_reason : TaskAttentionReason; ae_occurred_at : string;
}.
#[global] Instance TaskAttentionReason_eq_dec : EqDecision TaskAttentionReason.
Proof. solve_decision. Defined.
#[global] Instance TaskAttentionEvent_eq_dec : EqDecision TaskAttentionEvent.
Proof. solve_decision. Defined.

Record TaskNativeSessionReloadRequirement := mkReload { observed_activity_at : string }.

Inductive TaskPermissionPolicy := AskEveryTime | AutoApprove.
#[global] Instance TaskPermissionPolicy_eq_dec : EqDecision TaskPermissionPolicy.
Proof. solve_decision. Defined.
Inductive TaskMessageQueuePauseRecord := Restarted | UnsuccessfulTurn | AttachmentUnavailable.
#[global] Instance TaskMessageQueuePauseRecord_eq_dec : EqDecision TaskMessageQueuePauseRecord.
Proof. solve_decision. Defined.

(** ** Agent catalogs and usage *)

Inductive ConfigOptionsStatus := CatalogReady | CatalogEmpty.
Inductive ConfigOptionCategory := CatMode | CatModel | CatThoughtLevel | CatOther.
Inductive ConfigOptionKind := KindSelect | KindBoolean.
Inductive ConfigOptionCurrentValue := CurrentId (value : string) | CurrentBoolean (value : bool).
#[global] Instance ConfigOptionsStatus_eq_dec : EqDecision ConfigOptionsStatus.
Proof. solve_decision. Defined.
#[global] Instance ConfigOptionCategory_eq_dec : EqDecision ConfigOptionCategory.
Proof. solve_decision. Defined.
#[global] Instance ConfigOptionKind_eq_dec : EqDecision ConfigOptionKind.
Proof. solve_decision. Defined.
#[global] Instance ConfigOptionCurrentValue_eq_dec : EqDecision ConfigOptionCurrentValue.
Proof. solve_decision. Defined.

Record ConfigOptionValue := mkOptionValue {
  ov_id : string; ov_label : string; ov_description : option string; ov_group_id : option string;
  ov_group_label : option string;
}.
#[global] Instance ConfigOptionValue_eq_dec : EqDecision ConfigOptionValue.
Proof. solve_decision. Defined.
Record ConfigOption := mkOption {
  co_id : string; co_label : string; co_description : option string; co_category : option ConfigOptionCategory;
  co_kind : ConfigOptionKind; co_current_value : ConfigOptionCurrentValue; co_values : list ConfigOptionValue;
}.
#[global] Instance ConfigOption_eq_dec : EqDecision ConfigOption.
Proof. solve_decision. Defined.
Record ConfigOptionsCatalog := mkConfigCatalog {
  oc_agent_id : string; oc_status : ConfigOptionsStatus; oc_options : list ConfigOption;
}.
#[global] Instance ConfigOptionsCatalog_eq_dec : EqDecision ConfigOptionsCatalog.
Proof. solve_decision. Defined.

Record AgentCommand := mkAgentCommand { ac_name : string; ac_description : string; ac_input_hint : option string }.
#[global] Instance AgentCommand_eq_dec : EqDecision AgentCommand.
Proof. solve_decision. Defined.
Definition AgentCommandsCatalog : Type := list AgentCommand.
#[global] Instance AgentCommandsCatalog_eq_dec : EqDecision AgentCommandsCatalog.
Proof. unfold AgentCommandsCatalog. solve_decision. Defined.

Record TaskUsageCost := mkCost { uc_amount : string; uc_currency : string }.
#[global] Instance TaskUsageCost_eq_dec : EqDecision TaskUsageCost.
Proof. solve_decision. Defined.
Record TaskTurnUsage := mkTurnUsage {
  tu_total_tokens : Z; tu_input_tokens : Z; tu_output_tokens : Z; tu_reasoning_tokens : option Z;
  tu_cached_read_tokens : option Z; tu_cached_write_tokens : option Z;
}.
#[global] Instance TaskTurnUsage_eq_dec : EqDecision TaskTurnUsage.
Proof. solve_decision. Defined.
Record TaskContextUsage := mkUsage {
  cu_used_tokens : Z; cu_capacity_tokens : Z; cu_cost : option TaskUsageCost; cu_last_turn : option TaskTurnUsage;
}.
#[global] Instance TaskContextUsage_eq_dec : EqDecision TaskContextUsage.
Proof. solve_decision. Defined.

Inductive AgentConfigPreferencesState := PrefApplying | PrefFailed | PrefSettled.
Record AgentConfigPreferencesSnapshot := mkPreferences { ps_state : AgentConfigPreferencesState; ps_skipped_count : Z }.
#[global] Instance AgentConfigPreferencesState_eq_dec : EqDecision AgentConfigPreferencesState.
Proof. solve_decision. Defined.
#[global] Instance AgentConfigPreferencesSnapshot_eq_dec : EqDecision AgentConfigPreferencesSnapshot.
Proof. solve_decision. Defined.
Record AgentConfigPreference := mkPreference { pf_id : string; pf_value : ConfigOptionCurrentValue }.
#[global] Instance AgentConfigPreference_eq_dec : EqDecision AgentConfigPreference.
Proof. solve_decision. Defined.

Section TaskRecord.
Context `{ChatPayloads}.

Record QueuedMessageRecord := mkQueued {
  qm_id : string; qm_not_before : option string; qm_text : string; qm_created_at : string;
  qm_chat_attachments : list Attachment; qm_agent_attachments : list Attachment;
}.

Record TaskMessageQueueRecord := mkQueue {
  mq_revision : Z; mq_pause : option TaskMessageQueuePauseRecord; mq_items : list QueuedMessageRecord;
}.
Definition is_initial (q : TaskMessageQueueRecord) : bool :=
  bool_decide (mq_revision q = 0) &&
  match mq_pause q, mq_items q with None, [] => true | _, _ => false end.

Record PendingTaskConfigChange := mkPendingConfig {
  pc_sequence : Z; pc_client_mutation_id : string; pc_config_id : string;
  pc_requested_value : ConfigOptionCurrentValue;
}.
Record TaskConfigMutationState := mkConfigMutation {
  cf_sequence : Z;
  cf_pending : option PendingTaskConfigChange;
  cf_preferences : option AgentConfigPreferencesSnapshot;
  cf_chosen : list AgentConfigPreference;
}.

Record TaskRecord := mkTask {
  tr_task_id : string;
  tr_title : TaskTitleState;
  tr_status : TaskStatus;
  tr_task_version : Z;
  tr_message_history_version : Z;
  tr_unread : bool;
  tr_pinned : bool;
  tr_attention : option TaskAttentionEvent;
  tr_created_at : string;
  tr_updated_at : string;
  tr_last_activity : string;
  tr_permission_policy : TaskPermissionPolicy;
  tr_composer_history : ComposerHistory;
  tr_message_queue : TaskMessageQueueRecord;
  tr_agent_id : string;
  tr_agent_name : string;
  tr_isolation : IsolationKind;
  tr_workspace_root : string;
  tr_project_root : option string;
  tr_worktree_id : option string;
  tr_lifecycle : TaskLifecycle;
  tr_agent_session_id : option string;
  tr_active_turn_id : option string;
  tr_active_turn_started_at : option string;
  tr_background_work : option TaskBackgroundWork;
  tr_tombstoned : bool;
  tr_revision : Z;
  tr_config_options_catalog : option ConfigOptionsCatalog;
  tr_native_session_data_freshness : TaskNativeSessionDataFreshness;
  tr_native_session_reload_requirement : option TaskNativeSessionReloadRequirement;
  tr_native_session_own_activity_at : option string;
  tr_config_mutation : TaskConfigMutationState;
  tr_agent_commands_catalog : option AgentCommandsCatalog;
  tr_context_usage : option TaskContextUsage;
  tr_current_plan : option AgentPlan;
  tr_completed_plan_message_id : option string;
  tr_last_turn_usage : option TaskTurnUsage;
  tr_model_id : option string;
  tr_supports_image_input : bool;
  tr_preparation : TaskPreparationRecord;
}.

(** Updates of the fields the modelled code writes. *)
Definition set_versions (task_version revision : Z) (updated_at : string) (t : TaskRecord) : TaskRecord :=
  mkTask (tr_task_id t) (tr_title t) (tr_status t) task_version (tr_message_history_version t) (tr_unread t)
    (tr_pinned t) (tr_attention t) (tr_created_at t) updated_at (tr_last_activity t)
    (tr_permission_policy t) (tr_composer_history t) (tr_message_queue t) (tr_agent_id t) (tr_agent_name t)
    (tr_isolation t) (tr_workspace_root t) (tr_project_root t) (tr_worktree_id t) (tr_lifecycle t)
    (tr_agent_session_id t) (tr_active_turn_id t) (tr_active_turn_started_at t) (tr_background_work t)
    (tr_tombstoned t) revision (tr_config_options_catalog t) (tr_native_session_data_freshness t)
    (tr_native_session_reload_requirement t) (tr_native_session_own_activity_at t) (tr_config_mutation t)
    (tr_agent_commands_catalog t) (tr_context_usage t) (tr_current_plan t) (tr_completed_plan_message_id t)
    (tr_last_turn_usage t) (tr_model_id t) (tr_supports_image_input t) (tr_preparation t).

Definition set_history_version (v : Z) (t : TaskRecord) : TaskRecord :=
  mkTask (tr_task_id t) (tr_title t) (tr_status t) (tr_task_version t) v (tr_unread t)
    (tr_pinned t) (tr_attention t) (tr_created_at t) (tr_updated_at t) (tr_last_activity t)
    (tr_permission_policy t) (tr_composer_history t) (tr_message_queue t) (tr_agent_id t) (tr_agent_name t)
    (tr_isolation t) (tr_workspace_root t) (tr_project_root t) (tr_worktree_id t) (tr_lifecycle t)
    (tr_agent_session_id t) (tr_active_turn_id t) (tr_active_turn_started_at t) (tr_background_work t)
    (tr_tombstoned t) (tr_revision t) (tr_config_options_catalog t) (tr_native_session_data_freshness t)
    (tr_native_session_reload_requirement t) (tr_native_session_own_activity_at t) (tr_config_mutation t)
    (tr_agent_commands_catalog t) (tr_context_usage t) (tr_current_plan t) (tr_completed_plan_message_id t)
    (tr_last_turn_usage t) (tr_model_id t) (tr_supports_image_input t) (tr_preparation t).

(** The process-local part: catalog, freshness, configuration changes, usage. *)
Definition set_process_local (catalog : option ConfigOptionsCatalog) (fresh : TaskNativeSessionDataFreshness)
    (config : TaskConfigMutationState) (usage : option TaskContextUsage) (turn : option TaskTurnUsage)
    (t : TaskRecord) : TaskRecord :=
  mkTask (tr_task_id t) (tr_title t) (tr_status t) (tr_task_version t) (tr_message_history_version t) (tr_unread t)
    (tr_pinned t) (tr_attention t) (tr_created_at t) (tr_updated_at t) (tr_last_activity t)
    (tr_permission_policy t) (tr_composer_history t) (tr_message_queue t) (tr_agent_id t) (tr_agent_name t)
    (tr_isolation t) (tr_workspace_root t) (tr_project_root t) (tr_worktree_id t) (tr_lifecycle t)
    (tr_agent_session_id t) (tr_active_turn_id t) (tr_active_turn_started_at t) (tr_background_work t)
    (tr_tombstoned t) (tr_revision t) catalog fresh
    (tr_native_session_reload_requirement t) (tr_native_session_own_activity_at t) config
    (tr_agent_commands_catalog t) usage (tr_current_plan t) (tr_completed_plan_message_id t)
    turn (tr_model_id t) (tr_supports_image_input t) (tr_preparation t).

Definition set_removed (tombstoned : bool) (revision : Z) (t : TaskRecord) : TaskRecord :=
  mkTask (tr_task_id t) (tr_title t) (tr_status t) (tr_task_version t) (tr_message_history_version t) (tr_unread t)
    (tr_pinned t) (tr_attention t) (tr_created_at t) (tr_updated_at t) (tr_last_activity t) (tr_permission_policy t)
    (tr_composer_history t) (tr_message_queue t) (tr_agent_id t) (tr_agent_name t) (tr_isolation t)
    (tr_workspace_root t) (tr_project_root t) (tr_worktree_id t) (tr_lifecycle t) (tr_agent_session_id t)
    (tr_active_turn_id t) (tr_active_turn_started_at t) (tr_background_work t) tombstoned revision
    (tr_config_options_catalog t) (tr_native_session_data_freshness t) (tr_native_session_reload_requirement t)
    (tr_native_session_own_activity_at t) (tr_config_mutation t) (tr_agent_commands_catalog t) (tr_context_usage t)
    (tr_current_plan t) (tr_completed_plan_message_id t) (tr_last_turn_usage t) (tr_model_id t)
    (tr_supports_image_input t) (tr_preparation t).
Definition set_membership (lifecycle : TaskLifecycle) (pinned : bool) (updated_at : string) (t : TaskRecord) : TaskRecord :=
  mkTask (tr_task_id t) (tr_title t) (tr_status t) (tr_task_version t) (tr_message_history_version t) (tr_unread t)
    pinned (tr_attention t) (tr_created_at t) updated_at (tr_last_activity t) (tr_permission_policy t)
    (tr_composer_history t) (tr_message_queue t) (tr_agent_id t) (tr_agent_name t) (tr_isolation t)
    (tr_workspace_root t) (tr_project_root t) (tr_worktree_id t) lifecycle (tr_agent_session_id t)
    (tr_active_turn_id t) (tr_active_turn_started_at t) (tr_background_work t) (tr_tombstoned t) (tr_revision t)
    (tr_config_options_catalog t) (tr_native_session_data_freshness t) (tr_native_session_reload_requirement t)
    (tr_native_session_own_activity_at t) (tr_config_mutation t) (tr_agent_commands_catalog t) (tr_context_usage t)
    (tr_current_plan t) (tr_completed_plan_message_id t) (tr_last_turn_usage t) (tr_model_id t)
    (tr_supports_image_input t) (tr_preparation t).

Definition mark_native_session_data_recovering (t : TaskRecord) : bool * TaskRecord :=
  let '(b, f) := mark_recovering (tr_native_session_data_freshness t) in
  (b, set_process_local (tr_config_options_catalog t) f (tr_config_mutation t) (tr_context_usage t)
        (tr_last_turn_usage t) t).

Definition mark_native_session_data_stale (t : TaskRecord) : bool * TaskRecord :=
  let '(b, f) := mark_stale (tr_native_session_data_freshness t) in
  (b, set_process_local (tr_config_options_catalog t) f (tr_config_mutation t) (tr_context_usage t)
        (tr_last_turn_usage t) t).

Definition is_some {A} (o : option A) : bool := match o with Some _ => true | None => false end.

Definition clear_process_local_agent_state (t : TaskRecord) : bool * TaskRecord :=
  let became_stale :=
    (is_some (tr_config_options_catalog t) || is_some (tr_agent_commands_catalog t))
    && negb (is_stale (tr_native_session_data_freshness t)) in
  let config := tr_config_mutation t in
  let had_catalog := is_some (tr_config_options_catalog t) in
  let had_preferences := is_some (cf_preferences config) in
  let had_pending_mutation := is_some (cf_pending config) in
  let had_context_usage := is_some (tr_context_usage t) in
  let had_turn_usage := is_some (tr_last_turn_usage t) in
  let t := set_process_local None (tr_native_session_data_freshness t)
             (mkConfigMutation (cf_sequence config) None None (cf_chosen config)) None None t in
  let t := if became_stale then (mark_native_session_data_stale t).2 else t in
  (became_stale || had_catalog || had_preferences || had_pending_mutation || had_context_usage
   || had_turn_usage, t).

Record TaskSummary := mkSummary {
  sm_task_id : string; sm_title : option TaskTitle; sm_status : TaskStatus; sm_task_version : Z;
  sm_message_history_version : Z; sm_unread : bool; sm_pinned : bool; sm_attention : option TaskAttentionEvent;
  sm_created_at : string; sm_updated_at : string; sm_last_activity : string; sm_agent_id : string;
  sm_agent_name : string; sm_isolation : IsolationKind; sm_workspace_root : string;
  sm_project_root : option string; sm_worktree_id : option string; sm_background_work : option TaskBackgroundWork;
}.

Definition live_background_work (t : TaskRecord) : option TaskBackgroundWork :=
  if bool_decide (tr_status t = StActive) && is_some (tr_active_turn_id t) then tr_background_work t else None.

Definition background_only (t : TaskRecord) : bool :=
  match live_background_work t with Some work => bw_held work | None => false end.

Definition summary (t : TaskRecord) : TaskSummary :=
  mkSummary (tr_task_id t) (effective (tr_title t)) (tr_status t) (tr_task_version t)
    (tr_message_history_version t) (tr_unread t) (tr_pinned t) (tr_attention t) (tr_created_at t)
    (tr_updated_at t) (tr_last_activity t) (tr_agent_id t) (tr_agent_name t) (tr_isolation t)
    (tr_workspace_root t) (tr_project_root t) (tr_worktree_id t) (live_background_work t).

(** ** What a new process starts with *)

(** Nothing in the record presents the last process's Agent state as live. *)
Definition no_live_agent_state (t : TaskRecord) : Prop :=
  tr_config_options_catalog t = None /\ cf_preferences (tr_config_mutation t) = None /\
  cf_pending (tr_config_mutation t) = None /\ tr_context_usage t = None /\ tr_last_turn_usage t = None /\
  (is_some (tr_agent_commands_catalog t) = true -> is_stale (tr_native_session_data_freshness t) = true).

Lemma set_process_local_id a b c d e t :
  set_process_local a b c d e t = t <->
  a = tr_config_options_catalog t /\ b = tr_native_session_data_freshness t /\ c = tr_config_mutation t /\
  d = tr_context_usage t /\ e = tr_last_turn_usage t.
Proof.
  split; [|intros (-> & -> & -> & -> & ->); by destruct t].
  intros Heq. split; [|split; [|split; [|split]]].
  - exact (f_equal tr_config_options_catalog Heq).
  - exact (f_equal tr_native_session_data_freshness Heq).
  - exact (f_equal tr_config_mutation Heq).
  - exact (f_equal tr_context_usage Heq).
  - exact (f_equal tr_last_turn_usage Heq).
Qed.

(** The record after clearing, in one update. *)
Lemma clear_process_local_eq t :
  let stale := (is_some (tr_config_options_catalog t) || is_some (tr_agent_commands_catalog t))
               && negb (is_stale (tr_native_session_data_freshness t)) in
  let config := tr_config_mutation t in
  (clear_process_local_agent_state t).2
  = set_process_local None (if stale then mkFreshness StaleCatalog StaleCatalog else tr_native_session_data_freshness t)
      (mkConfigMutation (cf_sequence config) None None (cf_chosen config)) None None t.
Proof.
  cbv zeta. unfold clear_process_local_agent_state, mark_native_session_data_stale. cbn [snd].
  destruct (_ && _) eqn:E; [|done]. apply andb_true_iff in E as [_ E]. apply negb_true_iff in E.
  unfold mark_stale. cbn [set_process_local tr_native_session_data_freshness]. by rewrite E.
Qed.

Lemma is_stale_iff f : is_stale f = true <-> f = mkFreshness StaleCatalog StaleCatalog.
Proof. destruct f as [[] []]; by split. Qed.

(** A new process presents no stale Agent state: clearing a record removes
    the option catalog, the running initialization, the pending change and the
    usage figures, marks a remaining command catalog stale, reports exactly
    whether the record changed, leaves the public summary alone, and has nothing
    left to do a second time. *)
Theorem startup_clears_agent_state t :
  let '(changed, t') := clear_process_local_agent_state t in
  no_live_agent_state t' /\ (changed = true <-> t' <> t) /\ summary t' = summary t /\
  clear_process_local_agent_state t' = (false, t').
Proof.
  pose proof (clear_process_local_eq t) as Ht. cbv zeta in Ht.
  destruct (clear_process_local_agent_state t) as [changed t'] eqn:E. cbn [snd] in Ht.
  injection E as Hc _. set (stale := _ && _) in *.
  assert (stale = true -> tr_native_session_data_freshness t <> mkFreshness StaleCatalog StaleCatalog) as Hs.
  { intros [_ Hn]%andb_true_iff Heq%is_stale_iff. by rewrite Heq in Hn. }
  assert (no_live_agent_state t') as Hno.
  { subst t'. repeat split. cbn. intros Hcmd. apply is_stale_iff. destruct stale eqn:Est; [done|].
    apply is_stale_iff. unfold stale in Est. rewrite Hcmd, orb_true_r in Est. cbn in Est.
    by destruct (is_stale _). }
  split; [done|]. split; [|split; [by subst t'|]].
  - rewrite <- Hc. rewrite Ht at 1. rewrite set_process_local_id.
    destruct (tr_config_mutation t) as [seq pending prefs chosen]; cbn [cf_sequence cf_pending cf_preferences cf_chosen].
    destruct stale, (tr_config_options_catalog t), prefs, pending, (tr_context_usage t), (tr_last_turn_usage t);
      cbn; naive_solver.
  - destruct Hno as (H1 & H2 & H3 & H4 & H5 & H6).
    pose proof (clear_process_local_eq t') as Ht2. cbv zeta in Ht2.
    assert ((is_some (tr_config_options_catalog t') || is_some (tr_agent_commands_catalog t'))
      && negb (is_stale (tr_native_session_data_freshness t')) = false) as Hstale.
    { rewrite H1. cbn [is_some orb]. destruct (is_some (tr_agent_commands_catalog t')); [|done]. by rewrite H6. }
    destruct (clear_process_local_agent_state t') as [c2 t2] eqn:E2. cbn [snd] in Ht2. injection E2 as Hc2 _.
    rewrite Hstale in Ht2, Hc2. rewrite H1, H2, H3, H4, H5 in Hc2. cbn in Hc2. subst c2. f_equal.
    rewrite Ht2. apply set_process_local_id. repeat split; try done.
    destruct (tr_config_mutation t'); cbn in *; congruence.
Qed.
End TaskRecord.

(** ** Examples *)

Module RecordWitness.
(** An open Task that has done nothing yet. *)
Definition sample (id : string) : TaskRecord :=
  mkTask id title_default StInactive 1 0 false false None "1" "1" "1" AskEveryTime [] (mkQueue 0 None [])
    "agent" "Agent" Local_ "/work" None None Open None None None None false 1 None (mkFreshness Fresh Fresh) None None
    (mkConfigMutation 0 None None []) None None None None None None false PrepReady.

Definition ops : list TitleOp :=
  [SetPrompt (Some (mkTitle "fix the parser" SourcePrompt)); SetUser " Parser "; SetAgent "Parser fix"; ResetTitle].

Lemma title_state_refines_witness :
  title_run ops title_default
  = ([true; true; true; true], Automatic (Some (mkTitle "Parser fix" SourceAgent))).
Proof.
  pose proof (title_state_refines ops title_default) as Ht.
  destruct (title_run ops title_default) as [bs s'] eqn:E. destruct Ht as (Hr & _ & _).
  - reflexivity.
  - repeat constructor. discriminate.
  - vm_compute in E. injection E as <- <-. reflexivity.
Defined.
End RecordWitness.
