(* ===== verification/Journal.v ===== *)
(** * The Task journal model

    Models [openaide-rs/app-server/src/storage/task_journal/model.rs] (writes,
    operations, projections), [projection.rs] (validation and application of the
    operations of one frame, replay), [store/reduce.rs] (the operations of a
    batch of writes), [store/semantic_noops.rs], [store/chat_changes.rs] and
    [store/compaction.rs] ([requested_compaction]).

    Operations run on the map of recovered Tasks; as in the source, a failed
    application may leave it partly changed, so functions return the result and
    the new map.  [serde_json::to_vec] on the types of this file is the class
    [Json]. *)

From stdpp Require Import pretty.
From S2P Require Import Prelude Chat Records.

Local Open Scope Z_scope.

(** ** Data of Subagent writes *)

Inductive SubagentStatusRecord := SrWaitingForActivity | SrRunning | SrCompleted | SrFailed | SrCancelled | SrDisconnected.
#[global] Instance SubagentStatusRecord_eq_dec : EqDecision SubagentStatusRecord.
Proof. solve_decision. Defined.
Record SubagentCapabilitiesRecord := mkCapabilities { sc_cancel : bool; sc_close : bool }.
Record SubagentDetailRecord := mkSubDetail { sd_label : string; sd_value : string }.

Inductive CompactionMode := CompactNone | IfWorthwhile | Force.
#[global] Instance CompactionMode_eq_dec : EqDecision CompactionMode.
Proof. solve_decision. Defined.

Inductive CommitBoundary := Stream | TextStream | TextBarrier | Barrier.
#[global] Instance CommitBoundary_eq_dec : EqDecision CommitBoundary.
Proof. solve_decision. Defined.

Record CommittedChatTextAppend := mkTextAppend { ca_message_id : string; ca_text : string }.

Definition string_len (s : string) : Z := Z.of_nat (String.length s).

Section Journal.
Context `{CP : ChatPayloads}.

(** ** Projections and operations *)

Record StoredMessage := mkStored { st_sequence : Z; st_chat : ChatMessage }.

Record MessageMeta := mkMeta {
  mm_task_id : string;
  mm_version : Z;
  mm_message_count : Z;
  mm_local_history_updated_at : string;
  mm_first_cursor : option string;
  mm_last_cursor : option string;
}.

Record TaskProjection := mkProjection {
  pj_task : TaskRecord;
  pj_messages : list StoredMessage;
  pj_message_meta : MessageMeta;
  pj_artifact_heads : gmap string Z;
}.

Inductive TaskOperation :=
| Create (projection : TaskProjection)
| ReplaceTask (task : TaskRecord)
| ReplaceProjection (projection : TaskProjection)
| AppendText (identity text local_history_updated_at : string) (task_updated_at : option string)
| AppendMessage (message : StoredMessage)
| UpsertMessage (message : StoredMessage)
| ReplaceMessages (messages : list StoredMessage) (message_meta : MessageMeta)
| ReplaceMessageMeta (message_meta : MessageMeta)
| CommitArtifact (artifact_id : string) (artifact_sequence : Z).

Inductive ArtifactOperation :=
| ReplaceDetails (details : ActivityToolDetails)
| AppendTerminal (terminal_id data : string).

Record ArtifactWrite := mkArtifactWrite { aw_artifact_id : string; aw_operation : ArtifactOperation }.

Inductive SubagentOperation :=
| SubSpawn (parent_native_session_id name delegated_task : string)
    (capabilities : SubagentCapabilitiesRecord) (details : list SubagentDetailRecord)
| SubSetStatus (status : SubagentStatusRecord)
| SubUpdateIdentity (name delegated_task : option string) (cancel : option bool)
| SubMergeDetails (details : list SubagentDetailRecord)
| SubAppendMessage (message : NormalizedMessage) (upsert : bool)
| SubAppendMessagePart (message : NormalizedMessage)
| SubSetPlan (plan : AgentPlan)
| SubRecordPermissionOutcome (tool_call_id : string) (outcome : ToolPermissionOutcome).

Record SubagentWrite := mkSubagentWrite { sw_native_session_id : string; sw_operation : SubagentOperation }.

Record TaskWrite := mkWrite {
  w_task_id : string;
  w_boundary : CommitBoundary;
  w_operations : list TaskOperation;
  w_artifacts : list ArtifactWrite;
  w_compaction : CompactionMode;
  w_subagent : option SubagentWrite;
}.

Record ToolArtifactReplacement := mkReplacement { ar_artifact_id : string; ar_details : ActivityToolDetails }.
Record ToolTerminalAppend := mkTerminalAppend {
  ta_artifact_id : string; ta_terminal_id : string; ta_data : string;
}.

Definition replacement_writes (l : list ToolArtifactReplacement) : list ArtifactWrite :=
  (fun r => mkArtifactWrite (ar_artifact_id r) (ReplaceDetails (ar_details r))) <$> l.
Definition terminal_writes (l : list ToolTerminalAppend) : list ArtifactWrite :=
  (fun a => mkArtifactWrite (ta_artifact_id a) (AppendTerminal (ta_terminal_id a) (ta_data a))) <$> l.

(** ** The constructors of [TaskWrite] *)

Definition barrier_create_with_artifacts (p : TaskProjection) (artifacts : list ToolArtifactReplacement) : TaskWrite :=
  mkWrite (tr_task_id (pj_task p)) Barrier [Create p] (replacement_writes artifacts) CompactNone None.
Definition barrier_create (p : TaskProjection) : TaskWrite := barrier_create_with_artifacts p [].
Definition barrier_replace_task (t : TaskRecord) : TaskWrite :=
  mkWrite (tr_task_id t) Barrier [ReplaceTask t] [] CompactNone None.
Definition barrier_replace_projection_with_terminal (p : TaskProjection)
    (artifacts : list ToolArtifactReplacement) (terminal : list ToolTerminalAppend) : TaskWrite :=
  mkWrite (tr_task_id (pj_task p)) Barrier [ReplaceProjection p]
    (replacement_writes artifacts ++ terminal_writes terminal) CompactNone None.
Definition barrier_replace_projection (p : TaskProjection) (artifacts : list ToolArtifactReplacement) : TaskWrite :=
  barrier_replace_projection_with_terminal p artifacts [].
Definition barrier_operations_with_artifacts (task_id : string) (operations : list TaskOperation)
    (artifacts : list ToolArtifactReplacement) (terminal : list ToolTerminalAppend) : TaskWrite :=
  mkWrite task_id Barrier operations (replacement_writes artifacts ++ terminal_writes terminal) CompactNone None.
Definition stream_append_terminals (task_id : string) (terminal : list ToolTerminalAppend) : TaskWrite :=
  mkWrite task_id Stream [] (terminal_writes terminal) CompactNone None.
Definition stream_append_text_with_metadata (task_id identity text updated_at : string)
    (task_updated_at : option string) : TaskWrite :=
  mkWrite task_id TextStream [AppendText identity text updated_at task_updated_at] [] CompactNone None.
Definition stream_append_text (task_id identity text updated_at : string) : TaskWrite :=
  stream_append_text_with_metadata task_id identity text updated_at None.
Definition stream_append_text_with_task_update (task_id identity text updated_at task_updated_at : string) : TaskWrite :=
  stream_append_text_with_metadata task_id identity text updated_at (Some task_updated_at).
Definition barrier_streamed_text (task_id : string) : TaskWrite := mkWrite task_id TextBarrier [] [] CompactNone None.
Definition stream_append_terminal (task_id artifact_id terminal_id data : string) : TaskWrite :=
  mkWrite task_id Stream [] [mkArtifactWrite artifact_id (AppendTerminal terminal_id data)] CompactNone None.
Definition barrier (task_id : string) : TaskWrite := mkWrite task_id Barrier [] [] CompactNone None.
Definition compaction_barrier (task_id : string) : TaskWrite := mkWrite task_id Barrier [] [] Force None.
Definition compaction_if_worthwhile_barrier (task_id : string) : TaskWrite :=
  mkWrite task_id Barrier [] [] IfWorthwhile None.
Definition subagent (task_id : string) (boundary : CommitBoundary) (write : SubagentWrite) : TaskWrite :=
  mkWrite task_id boundary [] [] CompactNone (Some write).
Definition barrier_subagent (task_id : string) (write : SubagentWrite) : TaskWrite := subagent task_id Barrier write.

Definition is_subagent (w : TaskWrite) : bool := is_some (w_subagent w).

(** A Subagent write counts as one operation. *)
Definition operation_count (w : TaskWrite) : Z :=
  u64_add (u64_add (Z.of_nat (length (w_operations w))) (Z.of_nat (length (w_artifacts w))))
    (if is_subagent w then 1 else 0).

Definition requested_compaction (batch : list TaskWrite) : CompactionMode :=
  foldl (fun current w =>
    match current, w_compaction w with
    | Force, _ | _, Force => Force
    | IfWorthwhile, _ | _, IfWorthwhile => IfWorthwhile
    | _, _ => CompactNone
    end) CompactNone batch.

(** ** Sizes *)

(** [serde_json::to_vec]; [None] when serialization fails. *)
Class Json := {
  task_vec : TaskRecord -> option (list Z);
  projection_vec : TaskProjection -> option (list Z);
  meta_vec : MessageMeta -> option (list Z);
  stored_vec : StoredMessage -> option (list Z);
  stored_list_vec : list StoredMessage -> option (list Z);
  details_vec : ActivityToolDetails -> option (list Z);
  message_vec : NormalizedMessage -> option (list Z);
  plan_vec : AgentPlan -> option (list Z);
}.

Definition vec_len (v : option (list Z)) : Z :=
  match v with Some bytes => Z.of_nat (length bytes) | None => u64_max end.

(** [sum::<usize>()]. *)
Definition usize_sum (l : list Z) : Z := foldl u64_add 0 l.

Definition operation_estimated_bytes `{Json} (op : TaskOperation) : Z :=
  match op with
  | Create p => u64_add (u64_saturating_mul (Z.of_nat (length (pj_messages p))) 128) 2048
  | ReplaceTask _ => 2048
  | ReplaceProjection p => vec_len (projection_vec p)
  | AppendText _ text _ _ => u64_add (string_len text) 96
  | AppendMessage m | UpsertMessage m => vec_len (stored_vec m)
  | ReplaceMessages ms _ => vec_len (stored_list_vec ms)
  | ReplaceMessageMeta _ => 256
  | CommitArtifact artifact_id _ => u64_add (string_len artifact_id) 64
  end.

Definition artifact_operation_estimated_bytes `{Json} (op : ArtifactOperation) : Z :=
  match op with
  | ReplaceDetails d => vec_len (details_vec d)
  | AppendTerminal terminal_id data => u64_add (u64_add (string_len terminal_id) (string_len data)) 64
  end.

Definition artifact_estimated_bytes `{Json} (w : ArtifactWrite) : Z :=
  u64_add (string_len (aw_artifact_id w)) (artifact_operation_estimated_bytes (aw_operation w)).

Definition subagent_estimated_bytes `{Json} (w : SubagentWrite) : Z :=
  let payload := match sw_operation w with
                 | SubAppendMessage m _ | SubAppendMessagePart m => vec_len (message_vec m)
                 | SubSetPlan plan => vec_len (plan_vec plan)
                 | _ => 512
                 end in
  u64_saturating_add payload (string_len (sw_native_session_id w)).

Definition operation_bytes `{Json} (w : TaskWrite) : Z :=
  u64_saturating_add (usize_sum (operation_estimated_bytes <$> w_operations w))
    (usize_sum (artifact_estimated_bytes <$> w_artifacts w)).

Definition estimated_bytes `{Json} (w : TaskWrite) : Z :=
  u64_saturating_add (match w_subagent w with Some s => subagent_estimated_bytes s | None => 0 end)
    (operation_bytes w).

(** ** Messages *)

Local Abbreviation with_identity identity m := (cm_identity (st_chat m) = identity).

(** [iter().find] by identity. *)
Fixpoint find_message (identity : string) (messages : list StoredMessage) : option StoredMessage :=
  match messages with
  | [] => None
  | m :: messages => if decide (with_identity identity m) then Some m else find_message identity messages
  end.

(** [iter_mut().find] by identity. *)
Fixpoint update_message (identity : string) (f : StoredMessage -> StoredMessage) (messages : list StoredMessage)
  : list StoredMessage :=
  match messages with
  | [] => []
  | m :: messages =>
      if decide (with_identity identity m) then f m :: messages else m :: update_message identity f messages
  end.

Definition parts_of (m : StoredMessage) : option (list AgentMessagePart) :=
  match cm_message (st_chat m) with MAgentMessage _ _ parts _ => Some parts | _ => None end.

Definition is_text_part (p : AgentMessagePart) : bool := match p with PartText _ => true | _ => false end.

Definition validate_text_target (messages : list StoredMessage) (identity : string) : result unit RuntimeError :=
  match find_message identity messages with
  | None => Err (Conflict "Agent text target is missing")
  | Some stored =>
      match parts_of stored with
      | None => Err (Conflict "Agent text target changed content channel")
      | Some parts =>
          if match last parts with Some p => is_text_part p | None => false end then Ok tt
          else Err (Conflict "Agent text target has no trailing text part")
      end
  end.

(** [parts.last_mut()] with [push_str]. *)
Fixpoint push_last (chunk : string) (parts : list AgentMessagePart) : list AgentMessagePart :=
  match parts with
  | [] => []
  | [PartText text] => [PartText (text +:+ chunk)]
  | [p] => [p]
  | p :: parts => p :: push_last chunk parts
  end.

Definition push_text (chunk : string) (m : StoredMessage) : StoredMessage :=
  let c := st_chat m in
  match cm_message c with
  | MAgentMessage id role parts created =>
      mkStored (st_sequence m)
        (mkChat (cm_cursor c) (cm_identity c) (cm_message_type c) (cm_message_id c)
           (MAgentMessage id role (push_last chunk parts) created) (cm_timing c))
  | _ => m
  end.

Definition append_text (messages : list StoredMessage) (identity chunk : string)
  : result (list StoredMessage) RuntimeError :=
  check? validate_text_target messages identity in Ok (update_message identity (push_text chunk) messages).

Definition validate_message_meta (task_id : string) (meta : MessageMeta) : result unit RuntimeError :=
  if bool_decide (mm_task_id meta <> task_id)
  then Err (Storage "Task journal message metadata identity does not match") else Ok tt.

Definition duplicate_append : RuntimeError := Conflict "Task journal message append duplicates durable identity".

(** The three sets of [validate_message_set]. *)
Fixpoint validate_message_set_loop (sequences : gset Z) (identities message_ids : gset string)
    (messages : list StoredMessage) : result unit RuntimeError :=
  match messages with
  | [] => Ok tt
  | m :: messages =>
      if bool_decide (st_sequence m ∈ sequences) || bool_decide (cm_identity (st_chat m) ∈ identities)
         || bool_decide (cm_message_id (st_chat m) ∈ message_ids)
      then Err duplicate_append
      else validate_message_set_loop ({[st_sequence m]} ∪ sequences) ({[cm_identity (st_chat m)]} ∪ identities)
             ({[cm_message_id (st_chat m)]} ∪ message_ids) messages
  end.

Definition validate_message_set (messages : list StoredMessage) : result unit RuntimeError :=
  validate_message_set_loop ∅ ∅ ∅ messages.

Definition collides (message stored : StoredMessage) : bool :=
  bool_decide (st_sequence stored = st_sequence message)
  || bool_decide (cm_identity (st_chat stored) = cm_identity (st_chat message))
  || bool_decide (cm_message_id (st_chat stored) = cm_message_id (st_chat message)).

Definition validate_message_append (messages : list StoredMessage) (message : StoredMessage)
  : result unit RuntimeError :=
  if existsb (collides message) messages then Err duplicate_append else Ok tt.

(** [position] of a message with an identity. *)
Fixpoint message_position (identity : string) (messages : list StoredMessage) : option nat :=
  match messages with
  | [] => None
  | m :: messages =>
      if decide (with_identity identity m) then Some O else S <$> message_position identity messages
  end.

Definition collides_upsert (message stored : StoredMessage) : bool :=
  bool_decide (st_sequence stored = st_sequence message)
  || bool_decide (cm_message_id (st_chat stored) = cm_message_id (st_chat message)).

Definition upsert_message (messages : list StoredMessage) (message : StoredMessage)
  : result (list StoredMessage) RuntimeError :=
  match message_position (cm_identity (st_chat message)) messages with
  | Some index =>
      if existsb (collides_upsert message) (delete index messages)
      then Err (Conflict "Task journal message upsert collides with durable identity")
      else Ok (<[index := message]> messages)
  | None => check? validate_message_append messages message in Ok (messages ++ [message])
  end.

(** ** Validation *)

Inductive RecoveredTask :=
| Available (projection : TaskProjection) (journal_sequence : Z)
| Unavailable (error : string).

Definition validate_artifact_id (artifact_id : string) : result unit RuntimeError :=
  let bytes := bytes_of artifact_id in
  if bool_decide (bytes = []) || negb (forallb id_byte bytes) then Err (Storage "Invalid Tool artifact id")
  else Ok tt.

Definition identities_match (task_id : string) (p : TaskProjection) : bool :=
  bool_decide (tr_task_id (pj_task p) = task_id) && bool_decide (mm_task_id (pj_message_meta p) = task_id).

Definition set_task (t : TaskRecord) (p : TaskProjection) : TaskProjection :=
  mkProjection t (pj_messages p) (pj_message_meta p) (pj_artifact_heads p).
Definition set_messages (ms : list StoredMessage) (p : TaskProjection) : TaskProjection :=
  mkProjection (pj_task p) ms (pj_message_meta p) (pj_artifact_heads p).
Definition set_meta (meta : MessageMeta) (p : TaskProjection) : TaskProjection :=
  mkProjection (pj_task p) (pj_messages p) meta (pj_artifact_heads p).
Definition set_head (artifact_id : string) (sequence : Z) (p : TaskProjection) : TaskProjection :=
  mkProjection (pj_task p) (pj_messages p) (pj_message_meta p) (<[artifact_id := sequence]> (pj_artifact_heads p)).
Definition set_updated_at (at_ : string) (m : MessageMeta) : MessageMeta :=
  mkMeta (mm_task_id m) (mm_version m) (mm_message_count m) at_ (mm_first_cursor m) (mm_last_cursor m).
Definition set_version (v : Z) (m : MessageMeta) : MessageMeta :=
  mkMeta (mm_task_id m) v (mm_message_count m) (mm_local_history_updated_at m) (mm_first_cursor m) (mm_last_cursor m).

Definition require (task_id : string) (shadow : option TaskProjection) : result TaskProjection RuntimeError :=
  ok_or shadow (TaskNotFound task_id).

(** The expected head of a [CommitArtifact]. *)
Definition next_head (artifact_id : string) (p : TaskProjection) : result Z RuntimeError :=
  ok_or (u64_checked_add (default 0 (pj_artifact_heads p !! artifact_id)) 1)
    (Storage "Tool artifact sequence overflow").

(** One iteration of [validate_operations] on the shadow projection. *)
Definition validate_operation (task_id : string) (shadow : option TaskProjection) (op : TaskOperation)
  : result (option TaskProjection) RuntimeError :=
  match op with
  | Create created =>
      if is_some shadow then Err (Conflict ("Task already exists: " +:+ task_id))
      else if negb (identities_match task_id created)
      then Err (Storage "Task journal create identities do not match")
      else Ok (Some created)
  | ReplaceTask task =>
      let? p := require task_id shadow in
      if bool_decide (tr_task_id task <> task_id)
      then Err (Storage "Task journal replacement identity does not match")
      else Ok (Some (set_task task p))
  | ReplaceProjection replacement =>
      let? p := require task_id shadow in
      if negb (identities_match task_id replacement)
      then Err (Storage "Task journal replacement identities do not match")
      else Ok (Some replacement)
  | AppendText identity _ _ _ =>
      let? p := require task_id shadow in
      check? validate_text_target (pj_messages p) identity in Ok shadow
  | AppendMessage message =>
      let? p := require task_id shadow in
      check? validate_message_append (pj_messages p) message in
      Ok (Some (set_messages (pj_messages p ++ [message]) p))
  | UpsertMessage message =>
      let? p := require task_id shadow in
      let? ms := upsert_message (pj_messages p) message in Ok (Some (set_messages ms p))
  | ReplaceMessages messages meta =>
      let? p := require task_id shadow in
      check? validate_message_meta task_id meta in
      check? validate_message_set messages in
      Ok (Some (set_meta meta (set_messages messages p)))
  | ReplaceMessageMeta meta =>
      let? p := require task_id shadow in
      check? validate_message_meta task_id meta in Ok (Some (set_meta meta p))
  | CommitArtifact artifact_id artifact_sequence =>
      let? p := require task_id shadow in
      check? validate_artifact_id artifact_id in
      let? expected := next_head artifact_id p in
      if bool_decide (artifact_sequence <> expected)
      then Err (Storage ("Tool artifact sequence gap: expected " +:+ pretty (Z.to_N expected) +:+ ", found "
                         +:+ pretty (Z.to_N artifact_sequence)))
      else Ok (Some (set_head artifact_id artifact_sequence p))
  end.

Fixpoint validate_loop (task_id : string) (shadow : option TaskProjection) (ops : list TaskOperation)
  : result unit RuntimeError :=
  match ops with
  | [] => Ok tt
  | op :: ops => let? shadow := validate_operation task_id shadow op in validate_loop task_id shadow ops
  end.

Definition validate_operations (current : option RecoveredTask) (task_id : string) (ops : list TaskOperation)
  : result unit RuntimeError :=
  match current with
  | Some (Available p _) => validate_loop task_id (Some p) ops
  | Some (Unavailable error) => Err (Storage error)
  | None => validate_loop task_id None ops
  end.

(** ** Application *)

(** [available_projection_mut] and the change made through it. *)
Definition with_projection (task_id : string) (f : TaskProjection -> result TaskProjection RuntimeError)
    (state : gmap string RecoveredTask) : result unit RuntimeError * gmap string RecoveredTask :=
  match state !! task_id with
  | Some (Available p seq) =>
      match f p with
      | Ok p => (Ok tt, <[task_id := Available p seq]> state)
      | Err e => (Err e, state)
      end
  | Some (Unavailable error) => (Err (Storage error), state)
  | None => (Err (TaskNotFound task_id), state)
  end.

(** The metadata replaced by the journal also sets the Task's copy of the
    history version. *)
Definition install_meta (meta : MessageMeta) (p : TaskProjection) : TaskProjection :=
  set_task (set_history_version (mm_version meta) (pj_task p)) (set_meta meta p).

(** One iteration of [apply_operations]. *)
Definition apply_operation (task_id : string) (sequence : Z) (op : TaskOperation) (state : gmap string RecoveredTask)
  : result unit RuntimeError * gmap string RecoveredTask :=
  match op with
  | Create p => (Ok tt, <[task_id := Available p sequence]> state)
  | ReplaceTask task => with_projection task_id (fun p => Ok (set_task task p)) state
  | ReplaceProjection p =>
      match state !! task_id with
      | None => (Err (TaskNotFound task_id), state)
      | Some (Unavailable _) => (Err (Storage "Task is unavailable"), state)
      | Some (Available _ seq) => (Ok tt, <[task_id := Available p seq]> state)
      end
  | AppendText identity text updated_at _ =>
      with_projection task_id (fun p =>
        let? ms := append_text (pj_messages p) identity text in
        Ok (set_meta (set_updated_at updated_at (pj_message_meta p)) (set_messages ms p))) state
  | AppendMessage message =>
      with_projection task_id (fun p =>
        check? validate_message_append (pj_messages p) message in
        Ok (set_messages (pj_messages p ++ [message]) p)) state
  | UpsertMessage message =>
      with_projection task_id (fun p =>
        let? ms := upsert_message (pj_messages p) message in Ok (set_messages ms p)) state
  | ReplaceMessages messages meta =>
      match validate_message_set messages, validate_message_meta task_id meta with
      | Err e, _ | Ok _, Err e => (Err e, state)
      | Ok _, Ok _ => with_projection task_id (fun p => Ok (install_meta meta (set_messages messages p))) state
      end
  | ReplaceMessageMeta meta =>
      match validate_message_meta task_id meta with
      | Err e => (Err e, state)
      | Ok _ => with_projection task_id (fun p => Ok (install_meta meta p)) state
      end
  | CommitArtifact artifact_id artifact_sequence =>
      with_projection task_id (fun p => Ok (set_head artifact_id artifact_sequence p)) state
  end.

Fixpoint apply_loop (task_id : string) (sequence : Z) (ops : list TaskOperation) (state : gmap string RecoveredTask)
  : result unit RuntimeError * gmap string RecoveredTask :=
  match ops with
  | [] => (Ok tt, state)
  | op :: ops =>
      match apply_operation task_id sequence op state with
      | (Ok _, state) => apply_loop task_id sequence ops state
      | (Err e, state) => (Err e, state)
      end
  end.

(** The flags of [apply_operations]. *)
Definition changes_history (op : TaskOperation) : bool :=
  match op with AppendText _ _ _ _ | AppendMessage _ | UpsertMessage _ => true | _ => false end.
Definition replaces_meta (op : TaskOperation) : bool :=
  match op with ReplaceMessages _ _ | ReplaceMessageMeta _ => true | _ => false end.

Definition version_overflow : RuntimeError := Storage "Message history version overflow".

Definition bump_version (p : TaskProjection) : result TaskProjection RuntimeError :=
  let? v := ok_or (u64_checked_add (mm_version (pj_message_meta p)) 1) version_overflow in
  Ok (install_meta (set_version v (pj_message_meta p)) p).

Definition apply_operations (task_id : string) (ops : list TaskOperation) (sequence : Z) (state : gmap string RecoveredTask)
  : result unit RuntimeError * gmap string RecoveredTask :=
  match apply_loop task_id sequence ops state with
  | (Err e, state) => (Err e, state)
  | (Ok _, state) =>
      let '(r, state) :=
        if existsb changes_history ops && negb (existsb replaces_meta ops)
        then with_projection task_id bump_version state else (Ok tt, state) in
      match r with
      | Err e => (Err e, state)
      | Ok _ =>
          match state !! task_id with
          | None => (Err (TaskNotFound task_id), state)
          | Some (Unavailable _) => (Err (Storage ("Task is unavailable: " +:+ task_id)), state)
          | Some (Available p _) => (Ok tt, <[task_id := Available p sequence]> state)
          end
      end
  end.

(** The loop of [replay_task]: a frame is validated and applied; the first
    failure makes the Task unavailable. *)
Fixpoint replay_frames (task_id : string)
    (frames : list (Z * list TaskOperation)) (state : gmap string RecoveredTask) : option RecoveredTask :=
  match frames with
  | [] => state !! task_id
  | (sequence, ops) :: frames =>
      match validate_operations (state !! task_id) task_id ops with
      | Err e => Some (Unavailable (error_to_string e))
      | Ok _ =>
          match apply_operations task_id ops sequence state with
          | (Err e, _) => Some (Unavailable (error_to_string e))
          | (Ok _, state) => replay_frames task_id frames state
          end
      end
  end.

(** ** The operations of a batch *)

Record ReducedBatch := mkReduced {
  rb_task_operations : list TaskOperation;
  rb_artifacts : gmap string (list ArtifactOperation);
}.

(** The last element and the elements before it, for [last_mut]. *)
Fixpoint split_last {A} (l : list A) : option (list A * A) :=
  match l with
  | [] => None
  | x :: l => match split_last l with None => Some ([], x) | Some (init, y) => Some (x :: init, y) end
  end.

(** [None] is the [unreachable!] of a [CommitArtifact]. *)
Definition reduce_operation (ops : list TaskOperation) (op : TaskOperation) : option (list TaskOperation) :=
  match op with
  | AppendText identity text updated_at task_updated_at =>
      match split_last ops with
      | Some (init, AppendText existing_identity existing_text _ existing_task_updated_at) =>
          if bool_decide (existing_identity = identity)
          then Some (init ++ [AppendText existing_identity (existing_text +:+ text) updated_at
                                (if is_some task_updated_at then task_updated_at else existing_task_updated_at)])
          else Some (ops ++ [op])
      | _ => Some (ops ++ [op])
      end
  | CommitArtifact _ _ => None
  | _ => Some (ops ++ [op])
  end.

Definition reduce_artifact (artifacts : gmap string (list ArtifactOperation)) (w : ArtifactWrite)
  : gmap string (list ArtifactOperation) :=
  let ops := default [] (artifacts !! aw_artifact_id w) in
  match aw_operation w with
  | ReplaceDetails details => <[aw_artifact_id w := ops ++ [ReplaceDetails details]]> artifacts
  | AppendTerminal terminal_id data =>
      if bool_decide (data = ""%string) then artifacts
      else
        match split_last ops with
        | Some (init, AppendTerminal existing_id existing_data) =>
            if bool_decide (existing_id = terminal_id)
            then <[aw_artifact_id w := init ++ [AppendTerminal existing_id (existing_data +:+ data)]]> artifacts
            else <[aw_artifact_id w := ops ++ [aw_operation w]]> artifacts
        | _ => <[aw_artifact_id w := ops ++ [aw_operation w]]> artifacts
        end
  end.

Fixpoint reduce_operations (acc ops : list TaskOperation) : option (list TaskOperation) :=
  match ops with
  | [] => Some acc
  | op :: ops => acc ← reduce_operation acc op; reduce_operations acc ops
  end.

Fixpoint reduce_loop (acc : ReducedBatch) (batch : list TaskWrite) : option ReducedBatch :=
  match batch with
  | [] => Some acc
  | w :: batch =>
      ops ← reduce_operations (rb_task_operations acc) (w_operations w);
      reduce_loop (mkReduced ops (foldl reduce_artifact (rb_artifacts acc) (w_artifacts w))) batch
  end.

Definition reduce_batch (batch : list TaskWrite) : option ReducedBatch := reduce_loop (mkReduced [] ∅) batch.

(** [semantic_noops::remove]: every replacement is compared with the projection
    before the batch. *)
Definition serialized_equal (l r : option (list Z)) : bool := bool_decide (l = r).

Definition retained `{Json} (current : option TaskProjection) (op : TaskOperation) : bool :=
  match op with
  | AppendText _ text _ _ => negb (bool_decide (text = ""%string))
  | ReplaceTask task =>
      match current with Some p => negb (serialized_equal (task_vec (pj_task p)) (task_vec task)) | None => true end
  | ReplaceProjection p' =>
      match current with Some p => negb (serialized_equal (projection_vec p) (projection_vec p')) | None => true end
  | ReplaceMessageMeta meta =>
      match current with
      | Some p => negb (serialized_equal (meta_vec (pj_message_meta p)) (meta_vec meta))
      | None => true
      end
  | _ => true
  end.

Definition remove_noops `{Json} (task : option RecoveredTask) (ops : list TaskOperation)
  : result (list TaskOperation) RuntimeError :=
  match task with
  | Some (Available p _) => Ok (filter (fun op => retained (Some p) op = true) ops)
  | Some (Unavailable error) => Err (Storage error)
  | None => Ok (filter (fun op => retained None op = true) ops)
  end.

(** [committed_chat_text_appends]. *)
Fixpoint committed_chat_text_appends (ops : list TaskOperation) (p : TaskProjection)
  : result (list CommittedChatTextAppend) RuntimeError :=
  match ops with
  | [] => Ok []
  | AppendText identity text _ (Some _) :: ops =>
      let? stored := ok_or (find_message identity (pj_messages p))
                       (Internal "Committed streamed Chat change is missing from its projection") in
      let? rest := committed_chat_text_appends ops p in
      Ok (mkTextAppend (cm_message_id (st_chat stored)) text :: rest)
  | _ :: ops => committed_chat_text_appends ops p
  end.

(** ** Coalescing text *)

Lemma split_last_spec {A} (l : list A) :
  match split_last l with Some (init, x) => l = init ++ [x] | None => l = [] end.
Proof.
  induction l as [|x l IH]; cbn; [done|]. destruct (split_last l) as [[init y]|]; by rewrite IH.
Qed.

Lemma apply_loop_app task_id seq ops1 ops2 state :
  apply_loop task_id seq (ops1 ++ ops2) state
  = match apply_loop task_id seq ops1 state with
    | (Ok _, state) => apply_loop task_id seq ops2 state
    | (Err e, state) => (Err e, state)
    end.
Proof.
  revert state. induction ops1 as [|op ops1 IH]; intros state; cbn; [done|].
  destruct (apply_operation _ _ _ _) as [[[]|e] st]; [apply IH|done].
Qed.

Lemma string_app_assoc (a b c : string) : (a +:+ b) +:+ c = a +:+ (b +:+ c).
Proof. induction a as [|x a IH]; [done|]. exact (f_equal (String.String x) IH). Qed.

Lemma push_last_cons a p parts : parts <> [] -> push_last a (p :: parts) = p :: push_last a parts.
Proof. destruct parts as [|q parts]; [done|]. by destruct p. Qed.

Lemma push_last_nil a parts : push_last a parts = [] <-> parts = [].
Proof. destruct parts as [|p [|q parts]]; [done|by destruct p|]. by rewrite push_last_cons. Qed.

Lemma push_last_push a b parts : push_last b (push_last a parts) = push_last (a +:+ b) parts.
Proof.
  induction parts as [|p parts IH]; [done|]. destruct parts as [|q parts].
  - destruct p; cbn; [|done..]. do 2 f_equal. apply string_app_assoc.
  - rewrite (push_last_cons a p), (push_last_cons (a +:+ b) p) by done.
    rewrite push_last_cons by by rewrite push_last_nil. by rewrite IH.
Qed.

Lemma push_text_identity a i m : with_identity i (push_text a m) <-> with_identity i m.
Proof. unfold push_text. destruct m as [q c], c as [cu ide ty mid msg ti]. by destruct msg. Qed.

Lemma push_text_push a b m : push_text b (push_text a m) = push_text (a +:+ b) m.
Proof.
  unfold push_text. destruct m as [q c], c as [cu ide ty mid msg ti]. destruct msg; cbn; try done.
  by rewrite push_last_push.
Qed.

Lemma find_update i j a ms :
  find_message j (update_message i (push_text a) ms)
  = (if decide (i = j) then push_text a else id) <$> find_message j ms.
Proof.
  induction ms as [|m ms IH]; cbn; [done|]. destruct (decide (with_identity i m)) as [Hm|Hm]; cbn.
  - destruct (decide (with_identity j m)) as [Hj|Hj].
    + rewrite decide_True by by apply push_text_identity. rewrite decide_True by congruence. done.
    + rewrite decide_False by by rewrite push_text_identity. rewrite decide_False by congruence. by rewrite option_fmap_id.
  - destruct (decide (with_identity j m)) as [Hj|Hj]; [|done]. rewrite decide_False by congruence. done.
Qed.

Lemma update_update i a b ms :
  update_message i (push_text b) (update_message i (push_text a) ms) = update_message i (push_text (a +:+ b)) ms.
Proof.
  induction ms as [|m ms IH]; cbn; [done|]. destruct (decide (with_identity i m)) as [Hm|Hm]; cbn.
  - rewrite decide_True by by apply push_text_identity. by rewrite push_text_push.
  - rewrite decide_False by done. by rewrite IH.
Qed.

Lemma last_push_last a parts : is_text_part <$> last (push_last a parts) = is_text_part <$> last parts.
Proof.
  induction parts as [|p parts IH]; [done|]. destruct parts as [|q parts]; [by destruct p|].
  rewrite push_last_cons, !(last_cons p) by done.
  destruct (last (push_last a (q :: parts))), (last (q :: parts)); done.
Qed.

Lemma parts_of_push a m : parts_of (push_text a m) = push_last a <$> parts_of m.
Proof. unfold parts_of, push_text. destruct m as [q c], c as [cu ide ty mid msg ti]. by destruct msg. Qed.

Lemma text_target_push ms i a j :
  validate_text_target (update_message i (push_text a) ms) j = validate_text_target ms j.
Proof.
  unfold validate_text_target. rewrite find_update. destruct (find_message j ms) as [m|]; [|done]. cbn.
  case_decide; [|done]. rewrite parts_of_push. destruct (parts_of m) as [parts|]; [|done]. cbn.
  pose proof (last_push_last a parts) as Hl. destruct (last (push_last a parts)), (last parts); try discriminate Hl; [|done].
  injection Hl as Hl. by rewrite Hl.
Qed.

(** Two appends to a message are one append of both texts. *)
Lemma append_text_twice ms i a b :
  (let? ms' := append_text ms i a in append_text ms' i b) = append_text ms i (a +:+ b).
Proof.
  unfold append_text. destruct (validate_text_target ms i) as [[]|e] eqn:E; cbn; [|done].
  by rewrite text_target_push, E, update_update.
Qed.

Lemma apply_merged task_id seq i a b u1 u2 k1 k2 k state :
  apply_operation task_id seq (AppendText i (a +:+ b) u2 k) state
  = apply_loop task_id seq [AppendText i a u1 k1; AppendText i b u2 k2] state.
Proof.
  cbn [apply_loop apply_operation]. unfold with_projection.
  destruct (state !! task_id) as [[p q|error]|] eqn:Hs; [|done..].
  unfold append_text. destruct (validate_text_target (pj_messages p) i) as [[]|e] eqn:E; cbn [result_bind]; [|done].
  rewrite lookup_insert_eq. cbn [pj_messages set_meta set_messages pj_message_meta pj_task pj_artifact_heads].
  rewrite text_target_push, E. cbn [result_bind]. by rewrite insert_insert_eq, update_update.
Qed.

Lemma apply_loop_single task_id seq op state :
  apply_loop task_id seq [op] state = apply_operation task_id seq op state.
Proof. cbn. by destruct (apply_operation _ _ _ _) as [[[]|e] st]. Qed.

(** ** Reduction preserves the effect of a batch *)

Lemma reduce_operation_spec ops op ops' :
  reduce_operation ops op = Some ops' ->
  (forall task_id seq state, apply_loop task_id seq ops' state = apply_loop task_id seq (ops ++ [op]) state) /\
  existsb changes_history ops' = existsb changes_history (ops ++ [op]) /\
  existsb replaces_meta ops' = existsb replaces_meta (ops ++ [op]).
Proof.
  destruct op as [| | |i text u k| | | | |]; cbn [reduce_operation]; try by intros [= <-].
  pose proof (split_last_spec ops) as Hs. destruct (split_last ops) as [[init x]|]; [|by intros [= <-]].
  destruct x as [| | |i' text' u' k'| | | | |]; try by intros [= <-].
  split_test; [|by intros [= <-]]. intros [= <-]. subst. rewrite !existsb_app. cbn [existsb changes_history replaces_meta].
  rewrite !orb_false_r, !orb_true_r. split; [|done]. intros task_id seq state.
  rewrite <- app_assoc, !apply_loop_app. destruct (apply_loop task_id seq init state) as [[[]|e] st]; [|done].
  rewrite apply_loop_single. apply apply_merged.
Qed.

Lemma reduce_operations_spec acc ops ops' :
  reduce_operations acc ops = Some ops' ->
  (forall task_id seq state, apply_loop task_id seq ops' state = apply_loop task_id seq (acc ++ ops) state) /\
  existsb changes_history ops' = existsb changes_history (acc ++ ops) /\
  existsb replaces_meta ops' = existsb replaces_meta (acc ++ ops).
Proof.
  revert acc. induction ops as [|op ops IH]; intros acc; cbn; [intros [= <-]; by rewrite app_nil_r|].
  destruct (reduce_operation acc op) as [acc'|] eqn:E; [|done]. cbn. intros Hr.
  destruct (reduce_operation_spec _ _ _ E) as (H1 & H2 & H3). destruct (IH _ Hr) as (H4 & H5 & H6).
  rewrite H5, H6, !existsb_app, H2, H3, !existsb_app. cbn [existsb]. rewrite !orb_false_r, !orb_assoc.
  split; [|done]. intros task_id seq state. rewrite H4. rewrite (apply_loop_app _ _ acc'), H1.
  rewrite !apply_loop_app. destruct (apply_loop task_id seq acc state) as [[[]|e] st]; [|done].
  rewrite apply_loop_single. cbn [apply_loop]. by destruct (apply_operation _ _ _ _) as [[[]|e] st'].
Qed.

Lemma reduce_loop_spec acc batch r :
  reduce_loop acc batch = Some r ->
  reduce_operations (rb_task_operations acc) (batch ≫= w_operations) = Some (rb_task_operations r).
Proof.
  revert acc. induction batch as [|w batch IH]; intros acc; cbn; [by intros [= ->]|].
  destruct (reduce_operations _ (w_operations w)) as [ops|] eqn:E; [|done]. cbn. intros Hr.
  apply IH in Hr. cbn in Hr. revert E Hr. generalize (rb_task_operations acc). clear.
  induction (w_operations w) as [|op ops' IH]; intros acc; cbn; [by intros [= ->]|].
  destruct (reduce_operation acc op) as [acc'|]; cbn; [|done]. apply IH.
Qed.

(** C10. Coalescing is exact: applying the reduced operations of a batch, with
    adjacent text of a message merged, has on every state the result, errors
    included, of applying the operations of the writes one after the other. *)
Theorem reduction_is_exact batch r task_id sequence state :
  reduce_batch batch = Some r ->
  apply_operations task_id (rb_task_operations r) sequence state
  = apply_operations task_id (batch ≫= w_operations) sequence state.
Proof.
  intros Hr%reduce_loop_spec. cbn [rb_task_operations] in Hr.
  destruct (reduce_operations_spec _ _ _ Hr) as (H1 & H2 & H3). unfold apply_operations.
  by rewrite H1, H2, H3.
Qed.

(** ** Tool artifacts

    The loop of [artifact::load] over the operations of the visible frames, and
    the three variables it fills. *)

Record ArtifactContents := mkArtifact {
  ap_details : option ActivityToolDetails;
  ap_terminal_order : list string;
  ap_terminal_outputs : gmap string string;
}.

Definition empty_artifact : ArtifactContents := mkArtifact None [] ∅.

Definition load_operation (v : ArtifactContents) (op : ArtifactOperation) : ArtifactContents :=
  match op with
  | ReplaceDetails details => mkArtifact (Some details) (ap_terminal_order v) (ap_terminal_outputs v)
  | AppendTerminal terminal_id data =>
      match ap_terminal_outputs v !! terminal_id with
      | Some output => mkArtifact (ap_details v) (ap_terminal_order v)
                         (<[terminal_id := output +:+ data]> (ap_terminal_outputs v))
      | None => mkArtifact (ap_details v) (ap_terminal_order v ++ [terminal_id])
                  (<[terminal_id := data]> (ap_terminal_outputs v))
      end
  end.

(** What the writes do to one artifact; empty output is dropped. *)
Definition significant (artifact_id : string) (w : ArtifactWrite) : bool :=
  bool_decide (aw_artifact_id w = artifact_id) &&
  match aw_operation w with AppendTerminal _ data => negb (bool_decide (data = ""%string)) | _ => true end.

Definition artifact_operations (artifact_id : string) (writes : list ArtifactWrite) : list ArtifactOperation :=
  aw_operation <$> filter (fun w => significant artifact_id w = true) writes.

Lemma load_merged v t a b :
  load_operation v (AppendTerminal t (a +:+ b)) = load_operation (load_operation v (AppendTerminal t a)) (AppendTerminal t b).
Proof.
  cbn. destruct (ap_terminal_outputs v !! t) as [output|] eqn:E; cbn [load_operation ap_terminal_outputs ap_details ap_terminal_order];
    rewrite lookup_insert_eq, insert_insert_eq; [by rewrite string_app_assoc|done].
Qed.

Lemma reduce_artifact_spec artifacts w id v :
  foldl load_operation v (default [] (reduce_artifact artifacts w !! id))
  = foldl load_operation v (default [] (artifacts !! id) ++ artifact_operations id [w]).
Proof.
  unfold artifact_operations. rewrite filter_cons, filter_nil. unfold significant, reduce_artifact.
  destruct (decide (aw_artifact_id w = id)) as [<-|Hne].
  - rewrite bool_decide_eq_true_2 by done. cbn [andb]. destruct (aw_operation w) as [d|t data] eqn:Eop.
    + rewrite lookup_insert_eq. rewrite decide_True by done. cbn. by rewrite Eop.
    + destruct (decide (data = ""%string)) as [->|Hd].
      { rewrite bool_decide_eq_true_2 by done. rewrite decide_False by done. by rewrite app_nil_r. }
      rewrite bool_decide_eq_false_2 by done. rewrite decide_True by done. rewrite fmap_cons, Eop, fmap_nil.
      set (ops := default [] (artifacts !! _)). pose proof (split_last_spec ops) as Hs.
      destruct (split_last ops) as [[init [d|t' data']]|]; try (by rewrite lookup_insert_eq).
      split_test; [|by rewrite lookup_insert_eq]. subst t'. rewrite lookup_insert_eq. rewrite Hs.
      cbn [from_option id]. rewrite <- app_assoc, !foldl_app. apply load_merged.
  - rewrite bool_decide_eq_false_2 by done. cbn [andb]. rewrite decide_False by done. rewrite app_nil_r.
    f_equal. f_equal. destruct (aw_operation w) as [d|t data]; [by rewrite lookup_insert_ne|].
    split_test; [done|]. destruct (split_last _) as [[init [d|t' data']]|]; try (by rewrite lookup_insert_ne).
    split_test; by rewrite lookup_insert_ne.
Qed.

Lemma reduce_artifacts_spec writes artifacts id v :
  foldl load_operation v (default [] (foldl reduce_artifact artifacts writes !! id))
  = foldl load_operation v (default [] (artifacts !! id) ++ artifact_operations id writes).
Proof.
  revert artifacts. induction writes as [|w writes IH]; intros artifacts; cbn [foldl].
  { unfold artifact_operations. by rewrite filter_nil, app_nil_r. }
  rewrite IH, foldl_app, reduce_artifact_spec, <- foldl_app, <- app_assoc. f_equal. f_equal.
  unfold artifact_operations. rewrite <- fmap_app. f_equal. by rewrite <- filter_app.
Qed.

Lemma reduce_loop_artifacts acc batch r :
  reduce_loop acc batch = Some r ->
  rb_artifacts r = foldl reduce_artifact (rb_artifacts acc) (batch ≫= w_artifacts).
Proof.
  revert acc. induction batch as [|w batch IH]; intros acc; cbn; [by intros [= ->]|].
  destruct (reduce_operations _ _) as [ops|]; [|done]. cbn. intros Hr. rewrite (IH _ Hr). cbn.
  by rewrite foldl_app.
Qed.

(** Coalesced Tool output is exact: for every artifact and every content it
    had, loading the reduced operations of a batch shows the details, terminals
    and output that the writes produce one after the other, empty output
    ignored. *)
Theorem artifact_reduction_is_exact batch r artifact_id v :
  reduce_batch batch = Some r ->
  foldl load_operation v (default [] (rb_artifacts r !! artifact_id))
  = foldl load_operation v (artifact_operations artifact_id (batch ≫= w_artifacts)).
Proof.
  intros Hr%reduce_loop_artifacts. rewrite Hr. cbn [rb_artifacts].
  rewrite reduce_artifacts_spec. by rewrite lookup_empty.
Qed.

(** ** Validation is enough

    [validate_operations] runs on a shadow that skips text and clocks.  What
    validation looks at is the skeleton of the messages and the artifact
    heads. *)

Definition skeleton (m : StoredMessage) : Z * string * string * option bool :=
  (st_sequence m, cm_identity (st_chat m), cm_message_id (st_chat m),
   (fun parts => match last parts with Some p => is_text_part p | None => false end) <$> parts_of m).

Definition alike (m m' : StoredMessage) : Prop := skeleton m = skeleton m'.
Definition same_shape (p q : TaskProjection) : Prop :=
  Forall2 alike (pj_messages p) (pj_messages q) /\ pj_artifact_heads p = pj_artifact_heads q.

Lemma alike_refl m : alike m m.
Proof. done. Qed.

Lemma alike_list_refl ms : Forall2 alike ms ms.
Proof. apply Forall2_same_length_lookup_2; [done|]. intros i x y Hx Hy. rewrite Hx in Hy. by injection Hy as ->. Qed.

Lemma same_shape_refl p : same_shape p p.
Proof. split; [apply alike_list_refl|done]. Qed.

Lemma alike_fields m m' :
  alike m m' ->
  st_sequence m = st_sequence m' /\ cm_identity (st_chat m) = cm_identity (st_chat m') /\
  cm_message_id (st_chat m) = cm_message_id (st_chat m').
Proof. unfold alike, skeleton. by intros [= -> -> -> _]. Qed.

Lemma push_text_skeleton a m : skeleton (push_text a m) = skeleton m.
Proof.
  unfold skeleton. rewrite parts_of_push.
  assert (st_sequence (push_text a m) = st_sequence m /\ cm_identity (st_chat (push_text a m)) = cm_identity (st_chat m) /\
    cm_message_id (st_chat (push_text a m)) = cm_message_id (st_chat m)) as (-> & -> & ->)
    by (unfold push_text; destruct m as [q c], c as [cu ide ty mid msg ti]; by destruct msg).
  f_equal. destruct (parts_of m) as [parts|]; [|done]. cbn. f_equal.
  pose proof (last_push_last a parts) as Hl.
  destruct (last (push_last a parts)), (last parts); try discriminate Hl; [|done]. by injection Hl.
Qed.

Lemma update_alike i a ms : Forall2 alike (update_message i (push_text a) ms) ms.
Proof.
  induction ms as [|m ms IH]; [constructor|]. cbn. destruct (decide (with_identity i m)).
  - constructor; [apply push_text_skeleton|apply alike_list_refl].
  - by constructor.
Qed.

Lemma alike_trans l1 l2 l3 : Forall2 alike l1 l2 -> Forall2 alike l2 l3 -> Forall2 alike l1 l3.
Proof.
  intros H12. revert l3. induction H12 as [|x y l1 l2 Hxy H12 IH]; intros l3 H23; inversion H23; subst; constructor.
  - unfold alike in *. congruence.
  - by apply IH.
Qed.

Lemma with_identity_alike i m m' : alike m m' -> with_identity i m <-> with_identity i m'.
Proof. intros (_ & Hi & _)%alike_fields. by rewrite Hi. Qed.

Lemma text_target_alike ms ms' i :
  Forall2 alike ms ms' -> validate_text_target ms i = validate_text_target ms' i.
Proof.
  unfold validate_text_target. induction 1 as [|m m' ms ms' Hm Hms IH]; [done|]. cbn [find_message].
  pose proof (with_identity_alike i _ _ Hm) as Hi. repeat case_decide; try tauto.
  unfold alike, skeleton in Hm. injection Hm as _ _ _ Hp.
  destruct (parts_of m), (parts_of m'); cbn in Hp; try discriminate Hp; [|done]. injection Hp as Hp. by rewrite Hp.
Qed.

Lemma collides_alike x m m' : alike m m' -> collides x m = collides x m'.
Proof. intros (Hs & Hi & Hm)%alike_fields. unfold collides. by rewrite Hs, Hi, Hm. Qed.

Lemma collides_upsert_alike x m m' : alike m m' -> collides_upsert x m = collides_upsert x m'.
Proof. intros (Hs & Hi & Hm)%alike_fields. unfold collides_upsert. by rewrite Hs, Hm. Qed.

Lemma existsb_alike f ms ms' :
  (forall m m', alike m m' -> f m = f m') -> Forall2 alike ms ms' -> existsb f ms = existsb f ms'.
Proof. intros Hf. induction 1 as [|m m' ms ms' Hm Hms IH]; cbn; [done|]. by rewrite (Hf _ _ Hm), IH. Qed.

Lemma message_append_alike ms ms' x :
  Forall2 alike ms ms' -> validate_message_append ms x = validate_message_append ms' x.
Proof.
  intros Hms. unfold validate_message_append. by rewrite (existsb_alike _ ms ms') by (done || apply collides_alike).
Qed.

Lemma message_position_alike i ms ms' : Forall2 alike ms ms' -> message_position i ms = message_position i ms'.
Proof.
  induction 1 as [|m m' ms ms' Hm Hms IH]; [done|]. cbn. pose proof (with_identity_alike i _ _ Hm) as Hi.
  rewrite IH. repeat case_decide; tauto.
Qed.

Lemma upsert_alike ms ms' x out' :
  Forall2 alike ms ms' -> upsert_message ms' x = Ok out' ->
  exists out, upsert_message ms x = Ok out /\ Forall2 alike out out'.
Proof.
  intros Hms. unfold upsert_message. rewrite (message_position_alike _ _ _ Hms).
  destruct (message_position _ ms') as [index|].
  - rewrite (existsb_alike _ (delete index ms) (delete index ms')) by (apply collides_upsert_alike || by apply Forall2_delete).
    destruct (existsb _ _); [done|]. intros [= <-]. eexists. split; [done|]. by apply Forall2_insert.
  - rewrite (message_append_alike _ _ _ Hms). destruct (validate_message_append ms' x); cbn; [|done].
    intros [= <-]. eexists. split; [done|]. apply Forall2_app; [done|]. by repeat constructor.
Qed.

(** A validated operation applies to every projection of the shadow's shape. *)
Lemma validated_operation_applies task_id seq op state p s q shadow :
  state !! task_id = Some (Available p s) -> same_shape p q ->
  validate_operation task_id (Some q) op = Ok shadow ->
  exists p' q', apply_operation task_id seq op state = (Ok tt, <[task_id := Available p' s]> state) /\
    shadow = Some q' /\ same_shape p' q'.
Proof.
  intros Hst Hpq. destruct Hpq as [Hms Hheads]. 
  destruct op as [c|t|r|i text u k|x|x|msgs meta|meta|aid aseq]; cbn [validate_operation require ok_or result_bind apply_operation];
    unfold with_projection; rewrite ?Hst; cbn [is_some].
  - done.
  - split_test; [done|]. intros [= <-]. eexists _, _. by repeat split.
  - destruct (negb _); [done|]. intros [= <-]. eexists _, _. split; [done|]. split; [done|]. apply same_shape_refl.
  - unfold append_text. rewrite (text_target_alike _ _ _ Hms). destruct (validate_text_target _ _) as [[]|]; cbn; [|done].
    intros [= <-]. eexists _, _. split; [done|]. split; [done|]. split; [|done]. cbn.
    exact (alike_trans _ _ _ (update_alike _ _ _) Hms).
  - rewrite (message_append_alike _ _ _ Hms). destruct (validate_message_append _ _) as [[]|]; cbn; [|done].
    intros [= <-]. eexists _, _. split; [done|]. split; [done|]. split; [|done]. cbn.
    apply Forall2_app; [done|]. by repeat constructor.
  - destruct (upsert_message (pj_messages q) x) as [out'|] eqn:E; cbn; [|done]. intros [= <-].
    destruct (upsert_alike _ _ _ _ Hms E) as (out & -> & Ho). cbn. eexists _, _. by repeat split.
  - destruct (validate_message_meta task_id meta) as [[]|]; cbn; [|done].
    destruct (validate_message_set msgs) as [[]|]; cbn; [|done]. intros [= <-]. eexists _, _.
    repeat split; [apply alike_list_refl|done].
  - destruct (validate_message_meta task_id meta) as [[]|]; cbn; [|done]. intros [= <-]. eexists _, _. by repeat split.
  - destruct (validate_artifact_id aid) as [[]|]; cbn; [|done]. destruct (next_head aid q); cbn; [|done].
    split_test; [done|]. intros [= <-]. eexists _, _. repeat split; [done|]. cbn. by rewrite Hheads.
Qed.

Lemma validated_loop_applies task_id seq ops state p s q :
  state !! task_id = Some (Available p s) -> same_shape p q ->
  validate_loop task_id (Some q) ops = Ok tt ->
  exists state' p', apply_loop task_id seq ops state = (Ok tt, state') /\ state' !! task_id = Some (Available p' s).
Proof.
  revert state p q. induction ops as [|op ops IH]; intros state p q Hst Hpq; cbn [validate_loop apply_loop]; [eauto|].
  destruct (validate_operation task_id (Some q) op) as [shadow|] eqn:E; cbn; [|done]. intros Hv.
  destruct (validated_operation_applies _ seq _ _ _ _ _ _ Hst Hpq E) as (p' & q' & -> & -> & Hpq').
  by apply (IH _ p' q'); [rewrite lookup_insert_eq|..].
Qed.

(** The first operation of a new Task is its creation. *)
Lemma validated_create task_id ops :
  ops <> [] -> validate_loop task_id None ops = Ok tt ->
  exists p rest, ops = Create p :: rest /\ validate_loop task_id (Some p) rest = Ok tt /\ identities_match task_id p = true.
Proof.
  destruct ops as [|[p|t|r|i text u k|x|x|msgs meta|meta|aid aseq] rest]; try done. intros _. cbn.
  destruct (identities_match task_id p) eqn:E; [|done]. cbn. eauto.
Qed.

Definition tasks_of (task_id : string) (current : option RecoveredTask) : gmap string RecoveredTask :=
  match current with Some t => {[task_id := t]} | None => ∅ end.

Lemma validated_ops_apply current task_id ops seq :
  validate_operations current task_id ops = Ok tt -> ops <> [] ->
  exists state p s, apply_loop task_id seq ops (tasks_of task_id current) = (Ok tt, state) /\
    state !! task_id = Some (Available p s).
Proof.
  intros Hv Hne. destruct current as [[p s|error]|]; cbn in Hv; [|done|].
  - destruct (validated_loop_applies task_id seq ops {[task_id := Available p s]} p s p)
      as (st & p' & Ha & Hp); [by rewrite lookup_singleton_eq|apply same_shape_refl|done|]. eauto.
  - apply validated_create in Hv as (p & rest & -> & Hv & _); [|done]. cbn [apply_loop apply_operation tasks_of].
    destruct (validated_loop_applies task_id seq rest {[task_id := Available p seq]} p seq p)
      as (st & p' & Ha & Hp); [by rewrite lookup_singleton_eq|apply same_shape_refl|done|]. eauto.
Qed.

(** Publication cannot fail: operations that validate against the current
    Task apply, at the given sequence; the only error left is the overflow of
    the history version. *)
Theorem validated_operations_apply current task_id ops sequence :
  validate_operations current task_id ops = Ok tt -> ops <> [] ->
  match apply_operations task_id ops sequence (tasks_of task_id current) with
  | (Ok _, state) => exists p, state !! task_id = Some (Available p sequence)
  | (Err e, _) => e = version_overflow
  end.
Proof.
  intros Hv Hne. destruct (validated_ops_apply current task_id ops sequence Hv Hne) as (st & p & s & Ha & Hp).
  unfold apply_operations. rewrite Ha. destruct (_ && _).
  - unfold with_projection, bump_version. rewrite Hp.
    destruct (u64_checked_add _ _); cbn [ok_or result_bind]; [|done]. rewrite lookup_insert_eq. eexists.
    by rewrite lookup_insert_eq.
  - rewrite Hp. eexists. by rewrite lookup_insert_eq.
Qed.

(** ** Identities stay unique *)

Definition unique_messages (ms : list StoredMessage) : Prop :=
  NoDup (st_sequence <$> ms) /\ NoDup (cm_identity ∘ st_chat <$> ms) /\ NoDup (cm_message_id ∘ st_chat <$> ms).

Record projection_wf (task_id : string) (p : TaskProjection) : Prop := {
  wf_task : tr_task_id (pj_task p) = task_id;
  wf_meta : mm_task_id (pj_message_meta p) = task_id;
  wf_messages : unique_messages (pj_messages p);
}.

(** Whole projections carry their own messages. *)
Definition operation_wf (op : TaskOperation) : Prop :=
  match op with Create p | ReplaceProjection p => unique_messages (pj_messages p) | _ => True end.

Lemma unique_alike ms ms' : Forall2 alike ms ms' -> unique_messages ms -> unique_messages ms'.
Proof.
  intros Hms. assert (st_sequence <$> ms = st_sequence <$> ms' /\ cm_identity ∘ st_chat <$> ms = cm_identity ∘ st_chat <$> ms' /\
    cm_message_id ∘ st_chat <$> ms = cm_message_id ∘ st_chat <$> ms') as (H1 & H2 & H3).
  { induction Hms as [|m m' ms ms' Hm Hms (IH1 & IH2 & IH3)]; [done|]. rewrite !fmap_cons.
    apply alike_fields in Hm as (Ha & Hb & Hc). unfold compose in *. by rewrite Ha, Hb, Hc, IH1, IH2, IH3. }
  unfold unique_messages. by rewrite H1, H2, H3.
Qed.

Lemma existsb_false {A} (f : A -> bool) l : existsb f l = false <-> forall x, x ∈ l -> f x = false.
Proof.
  induction l as [|y l IH]; cbn; [split; [by intros _ x ?%elem_of_nil|done]|].
  rewrite orb_false_iff, IH. split; [intros [Hy Hl] x [->|Hx]%elem_of_cons; auto|].
  intros Hx. split; [apply Hx; left|intros x Hin; apply Hx; by right].
Qed.

Lemma unique_snoc ms x : unique_messages ms -> validate_message_append ms x = Ok tt -> unique_messages (ms ++ [x]).
Proof.
  unfold unique_messages, validate_message_append. intros (H1 & H2 & H3). destruct (existsb _ _) eqn:E; [done|]. intros _.
  rewrite existsb_false in E. rewrite !fmap_app. rewrite !NoDup_app.
  assert (forall m, m ∈ ms -> st_sequence m <> st_sequence x /\ cm_identity (st_chat m) <> cm_identity (st_chat x) /\
    cm_message_id (st_chat m) <> cm_message_id (st_chat x)) as Hx.
  { intros m Hm. specialize (E m Hm). unfold collides in E. apply orb_false_iff in E as [E ?]. apply orb_false_iff in E as [? ?].
    by simp_all. }
  assert (forall B (f : StoredMessage -> B), (forall m, m ∈ ms -> f m <> f x) ->
    (forall y, y ∈ f <$> ms -> y ∉ f <$> [x]) /\ NoDup (f <$> [x])) as Hf.
  { intros B f Hne. split; [|apply NoDup_singleton]. intros y (m & -> & Hm)%list_elem_of_fmap.
    rewrite fmap_cons, fmap_nil, list_elem_of_singleton. by apply Hne. }
  repeat split; try done; apply Hf; intros m Hm; unfold compose; by apply Hx.
Qed.

Lemma insert_middle {A} (l1 l2 : list A) x y : <[length l1 := y]> (l1 ++ x :: l2) = l1 ++ y :: l2.
Proof. induction l1 as [|z l1 IH]; [done|]. exact (f_equal (cons z) IH). Qed.

Lemma NoDup_replace {A B} (f : A -> B) l1 l2 x y :
  NoDup (f <$> l1 ++ x :: l2) -> (f y = f x \/ forall z, z ∈ l1 ++ l2 -> f z <> f y) -> NoDup (f <$> l1 ++ y :: l2).
Proof.
  rewrite !fmap_app, !fmap_cons, !NoDup_app, !NoDup_cons. intros (H1 & H12 & Hx & H2) [->|Hne]; [done|].
  split; [done|]. split.
  - intros z Hz [->|Hz2]%elem_of_cons.
    + apply list_elem_of_fmap in Hz as (m & Hm & Hin). apply (Hne m); [|done]. apply elem_of_app. by left.
    + apply (H12 z Hz). by right.
  - split; [|done]. intros (m & Hm & Hin)%list_elem_of_fmap. apply (Hne m); [|done]. apply elem_of_app. by right.
Qed.

Lemma message_position_spec i ms :
  match message_position i ms with
  | Some k => exists l1 m l2, ms = l1 ++ m :: l2 /\ k = length l1 /\ with_identity i m
  | None => True
  end.
Proof.
  induction ms as [|m ms IH]; cbn; [done|]. case_decide as Hd; [by exists [], m, ms|].
  destruct (message_position i ms); cbn; [|done]. destruct IH as (l1 & m' & l2 & -> & -> & Hi).
  by exists (m :: l1), m', l2.
Qed.

Lemma unique_upsert ms x out : unique_messages ms -> upsert_message ms x = Ok out -> unique_messages out.
Proof.
  intros Hu. unfold upsert_message. pose proof (message_position_spec (cm_identity (st_chat x)) ms) as Hp.
  destruct (message_position _ ms) as [k|].
  - destruct Hp as (l1 & m & l2 & -> & -> & Hi). rewrite delete_middle, insert_middle.
    destruct (existsb _ _) eqn:E; [done|]. intros [= <-]. rewrite existsb_false in E.
    destruct Hu as (H1 & H2 & H3).
    assert (forall z, z ∈ l1 ++ l2 -> st_sequence z <> st_sequence x /\ cm_message_id (st_chat z) <> cm_message_id (st_chat x)) as Hz.
    { intros z Hz. specialize (E z Hz). unfold collides_upsert in E. apply orb_false_iff in E as [? ?]. by simp_all. }
    split; [|split]; (eapply NoDup_replace; [eassumption|]).
    + right. intros z Hin. by apply Hz.
    + left. by unfold compose.
    + right. intros z Hin. by apply Hz.
  - destruct (validate_message_append ms x) as [[]|] eqn:E; cbn; [|done]. intros [= <-]. by apply unique_snoc.
Qed.

Lemma message_set_loop_unique S I M ms :
  validate_message_set_loop S I M ms = Ok tt ->
  unique_messages ms /\ forall m, m ∈ ms -> (st_sequence m ∉ S) /\ (cm_identity (st_chat m) ∉ I) /\ (cm_message_id (st_chat m) ∉ M).
Proof.
  revert S I M. induction ms as [|m ms IH]; intros S I M; cbn [validate_message_set_loop].
  { intros _. split; [|by intros m ?%elem_of_nil]. by repeat constructor. }
  destruct (_ || _) eqn:E; [done|]. intros ((H1 & H2 & H3) & Hin)%IH.
  apply orb_false_iff in E as [E Em]. apply orb_false_iff in E as [Es Ei]. simp_all.
  assert (forall m', m' ∈ ms -> st_sequence m' <> st_sequence m /\ cm_identity (st_chat m') <> cm_identity (st_chat m) /\
    cm_message_id (st_chat m') <> cm_message_id (st_chat m)) as Hne by (intros m' Hm'; specialize (Hin m' Hm'); set_solver).
  split.
  - split; [|split]; rewrite fmap_cons; apply NoDup_cons; (split; [|done]); unfold compose;
      intros (m' & Hm' & Hx)%list_elem_of_fmap; destruct (Hne m' Hx) as (? & ? & ?); congruence.
  - intros m' [->|Hm']%elem_of_cons; [done|]. specialize (Hin m' Hm'). set_solver.
Qed.

Lemma identities_match_iff task_id p :
  identities_match task_id p = true <-> tr_task_id (pj_task p) = task_id /\ mm_task_id (pj_message_meta p) = task_id.
Proof. unfold identities_match. rewrite andb_true_iff, !bool_decide_eq_true. done. Qed.

(** Applying a validated operation keeps the projection well formed. *)
Lemma apply_operation_wf task_id seq op state p s q shadow state' :
  state !! task_id = Some (Available p s) -> same_shape p q -> projection_wf task_id p -> operation_wf op ->
  validate_operation task_id (Some q) op = Ok shadow -> apply_operation task_id seq op state = (Ok tt, state') ->
  exists p', state' !! task_id = Some (Available p' s) /\ projection_wf task_id p'.
Proof.
  intros Hst Hpq Hwf Hop Hv Ha. pose proof Hwf as [Ht Hm Hu].
  destruct op as [c|t|r|i text u k|x|x|msgs meta|meta|aid aseq]; cbn [validate_operation require ok_or result_bind is_some] in Hv;
    cbn [apply_operation] in Ha; unfold with_projection in Ha; rewrite ?Hst in Ha.
  - done.
  - revert Hv. split_test; [done|]. intros _. injection Ha as <-. rewrite lookup_insert_eq. eexists. split; [done|].
    constructor; cbn; try done. by apply dec_stable.
  - destruct (identities_match task_id r) eqn:E; [|done]. apply identities_match_iff in E as [? ?].
    injection Ha as <-. rewrite lookup_insert_eq. eexists. split; [done|]. by constructor.
  - unfold append_text in Ha. destruct (validate_text_target (pj_messages p) _); cbn in Ha; [|done]. injection Ha as <-.
    rewrite lookup_insert_eq. eexists. split; [done|]. constructor; cbn; try done.
    eapply unique_alike; [|exact Hu]. apply Forall2_flip. eapply Forall2_impl; [apply update_alike|]. by unfold alike.
  - destruct (validate_message_append (pj_messages p) x) as [[]|] eqn:E; cbn in Ha; [|done]. injection Ha as <-.
    rewrite lookup_insert_eq. eexists. split; [done|]. constructor; cbn; try done. by apply unique_snoc.
  - destruct (upsert_message (pj_messages p) x) as [out|] eqn:E; cbn in Ha; [|done]. injection Ha as <-.
    rewrite lookup_insert_eq. eexists. split; [done|]. constructor; cbn; try done. by eapply unique_upsert.
  - destruct (validate_message_set msgs) as [[]|] eqn:Es; [|done].
    destruct (validate_message_meta task_id meta) as [[]|] eqn:Em; [|done]. injection Ha as <-.
    rewrite lookup_insert_eq. eexists. split; [done|]. apply message_set_loop_unique in Es as [Hs _].
    unfold validate_message_meta in Em. revert Em. split_test; [done|]. intros _.
    constructor; cbn; try done. by apply dec_stable.
  - destruct (validate_message_meta task_id meta) as [[]|] eqn:Em; [|done]. injection Ha as <-.
    rewrite lookup_insert_eq. eexists. split; [done|].
    unfold validate_message_meta in Em. revert Em. split_test; [done|]. intros _.
    constructor; cbn; try done. by apply dec_stable.
  - injection Ha as <-. rewrite lookup_insert_eq. eexists. split; [done|]. by constructor.
Qed.

Lemma apply_loop_wf task_id seq ops state p s q state' :
  state !! task_id = Some (Available p s) -> same_shape p q -> projection_wf task_id p -> Forall operation_wf ops ->
  validate_loop task_id (Some q) ops = Ok tt -> apply_loop task_id seq ops state = (Ok tt, state') ->
  exists p', state' !! task_id = Some (Available p' s) /\ projection_wf task_id p'.
Proof.
  revert state p q. induction ops as [|op ops IH]; intros state p q Hst Hpq Hwf Hops; cbn [validate_loop apply_loop].
  { intros _ [= <-]. eauto. }
  apply Forall_cons in Hops as [Hop Hops].
  destruct (validate_operation task_id (Some q) op) as [shadow|] eqn:E; cbn; [|done]. intros Hv.
  destruct (validated_operation_applies _ seq _ _ _ _ _ _ Hst Hpq E) as (p' & q' & Ha & -> & Hpq').
  destruct (apply_operation_wf _ seq _ _ _ _ _ _ _ Hst Hpq Hwf Hop E Ha) as (p'' & Hp'' & Hwf').
  rewrite lookup_insert_eq in Hp''. injection Hp'' as <-. rewrite Ha.
  apply (IH _ p' q'); [by rewrite lookup_insert_eq|done..].
Qed.

Lemma apply_operations_wf task_id ops seq state state' :
  validate_operations (state !! task_id) task_id ops = Ok tt ->
  (forall p s, state !! task_id = Some (Available p s) -> projection_wf task_id p) -> Forall operation_wf ops ->
  apply_operations task_id ops seq state = (Ok tt, state') ->
  exists p, state' !! task_id = Some (Available p seq) /\ projection_wf task_id p.
Proof.
  intros Hv Hwf Hops. unfold apply_operations.
  destruct (apply_loop task_id seq ops state) as [[[]|e] st] eqn:Ha; [|done].
  assert (forall p s, st !! task_id = Some (Available p s) -> projection_wf task_id p) as Hst.
  { destruct (state !! task_id) as [[p s|error]|] eqn:Hs; cbn in Hv; [|done|].
    - destruct (apply_loop_wf task_id seq ops state p s p st) as (p' & Hp' & Hw);
        [done|apply same_shape_refl|by eapply Hwf|done..|]. rewrite Hp'. by intros ? ? [= <- <-].
    - destruct ops as [|op ops]; [injection Ha as <-; by rewrite Hs|].
      apply validated_create in Hv as (p & rest & [= -> ->] & Hv & [Ht Hm]%identities_match_iff); [|done].
      apply Forall_cons in Hops as [Hop Hops]. cbn [apply_loop apply_operation] in Ha.
      destruct (apply_loop_wf task_id seq rest (<[task_id := Available p seq]> state) p seq p st) as (p' & Hp' & Hw);
        [by rewrite lookup_insert_eq|apply same_shape_refl|by constructor|done..|]. rewrite Hp'. by intros ? ? [= <- <-]. }
  assert (forall p : TaskProjection, projection_wf task_id p -> forall v,
    projection_wf task_id (install_meta (set_version v (pj_message_meta p)) p)) as Hbump
    by (intros p []; by constructor).
  destruct (_ && _).
  - unfold with_projection, bump_version. destruct (st !! task_id) as [[p s|error]|] eqn:Hs; [|done..].
    destruct (u64_checked_add _ _) as [v|]; cbn [ok_or result_bind]; [|done]. rewrite lookup_insert_eq. intros [= <-].
    eexists. rewrite lookup_insert_eq. split; [done|]. apply Hbump. by eapply Hst.
  - destruct (st !! task_id) as [[p s|error]|] eqn:Hs; [|done..]. intros [= <-]. eexists. rewrite lookup_insert_eq.
    split; [done|]. by eapply Hst.
Qed.

End Journal.

(** ** Examples *)

Module JournalWitness.
Definition message (q : Z) (id text : string) : StoredMessage :=
  mkStored q (mkChat id id "agent_message" id (MAgentMessage id RoleAgent [PartText text] "1") (mkTiming None None None)).
Definition meta (v : Z) : MessageMeta := mkMeta "t" v 1 "1" None None.
Definition projection : TaskProjection := mkProjection (RecordWitness.sample "t") [message 1 "m" "a"] (meta 1) ∅.

Definition batch : list TaskWrite :=
  [stream_append_text "t" "m" "b" "2"; stream_append_text_with_task_update "t" "m" "c" "3" "3";
   stream_append_terminal "t" "out" "term" "x"; stream_append_terminal "t" "out" "term" "";
   stream_append_terminal "t" "out" "term" "y"].
Definition reduced : ReducedBatch :=
  mkReduced [AppendText "m" "bc" "3" (Some "3")] {["out" := [AppendTerminal "term" "xy"]]}.

Lemma reduction_is_exact_witness :
  apply_operations "t" [AppendText "m" "bc" "3" (Some "3")] 2 {["t" := Available projection 1]}
  = apply_operations "t" (batch ≫= w_operations) 2 {["t" := Available projection 1]}.
Proof. apply (reduction_is_exact batch reduced). vm_compute. reflexivity. Defined.

Lemma artifact_reduction_is_exact_witness :
  foldl load_operation empty_artifact [AppendTerminal "term" "xy"]
  = foldl load_operation empty_artifact (artifact_operations "out" (batch ≫= w_artifacts)).
Proof. apply (artifact_reduction_is_exact batch reduced "out" empty_artifact). vm_compute. reflexivity. Defined.

Definition ops : list TaskOperation := [Create projection; AppendMessage (message 2 "n" "x"); AppendText "n" "y" "5" None].

Lemma validated_operations_apply_witness :
  exists p, (apply_operations "t" ops 1 ∅).2 !! "t"%string = Some (Available p 1).
Proof.
  pose proof (validated_operations_apply None "t" ops 1) as Hv. cbn [tasks_of] in Hv.
  destruct (apply_operations "t" ops 1 ∅) as [[u|e] st] eqn:E.
  - apply Hv; [vm_compute; reflexivity|discriminate].
  - vm_compute in E. discriminate E.
Defined.


(** A replacement that restores the projection from before the batch is taken
    for a no-op, although an earlier operation of the batch changed it. *)
Example noop_ignores_earlier_operations (J : Json (CP := ChatWitness.string_chat)) :
  let ops := [AppendText "m" "b" "2" None; ReplaceProjection projection] in
  remove_noops (Some (Available projection 1)) ops = Ok [AppendText "m" "b" "2" None] /\
  (apply_operations "t" [AppendText "m" "b" "2" None] 2 {["t" := Available projection 1]}).2
  <> (apply_operations "t" ops 2 {["t" := Available projection 1]}).2.
Proof.
  cbv zeta. split.
  - unfold remove_noops. rewrite filter_cons_True by reflexivity. rewrite filter_cons_False; [done|].
    cbn [retained]. unfold serialized_equal. rewrite bool_decide_eq_true_2 by done. done.
  - intros Heq. apply (f_equal (fun st => st !! "t"%string)) in Heq. vm_compute in Heq. discriminate Heq.
Qed.
End JournalWitness.
