(* ===== verification/Scheduler.v ===== *)
(** * The Task journal scheduler

    Models [openaide-rs/app-server/src/storage/task_journal/scheduler.rs]: the
    bounded admission queue between the callers of the Task journal and its one
    worker.

    Every method holds the state mutex, so an execution is a sequence of atomic
    operations.  A condition-variable wait ends one operation: [admit] and
    [wait_for_capacity] are given by one turn of their loop ([None]: wait again),
    and [next] by one pass of its loop and by what it does when its timed wait
    elapsed.  A failed [expect] is [None] in the functions of the worker.  Reply
    channels are numbers; time is in milliseconds. *)

From S2P Require Import Prelude Chat Records Journal.

Local Open Scope Z_scope.

Definition GLOBAL_STREAM_BYTE_CAPACITY : Z := 8 * 1024 * 1024.
Definition PER_TASK_STREAM_BYTE_CAPACITY : Z := 2 * 1024 * 1024.
Definition CONTROL_CAPACITY : Z := 64.
Definition MAX_BATCH_AGE : Z := 32.
Definition MAX_BATCH_BYTES : Z := 64 * 1024.
Definition MAX_BATCH_OPERATIONS : Z := 256.

Definition is_stream (b : CommitBoundary) : bool := match b with Stream | TextStream => true | _ => false end.

Definition unavailable : RuntimeError := Storage "Task journal worker is unavailable".

Section Scheduler.
Context `{CP : ChatPayloads} `{JS : !Json}.

Record QueuedWrite := mkQueuedWrite { qw_write : TaskWrite; qw_reply : Z; qw_admitted_at : Z }.

Record PendingTask := mkPending {
  pt_writes : list QueuedWrite;
  pt_queued_bytes : Z;
  pt_queued_operations : Z;
  pt_stream_bytes : Z;
  pt_control_writes : Z;
}.
Definition default_pending : PendingTask := mkPending [] 0 0 0 0.

Record SchedulerState := mkState {
  pending : gmap string PendingTask;
  ready : list string;
  global_stream_bytes : Z;
  global_control_writes : Z;
  peak_global_stream_bytes : Z;
  peak_task_stream_bytes : Z;
  reset_reply : option Z;
  resetting : bool;
  purge_reply : option (string * Z);
  purging : bool;
  shutdown_reply : option Z;
  closed : bool;
}.
Definition new : SchedulerState := mkState ∅ [] 0 0 0 0 None false None false None false.

Inductive NextWork :=
| Batch (task_id : string) (writes : list QueuedWrite)
| Reset (reply : Z)
| Purge (task_id : string) (reply : Z)
| Shutdown (reply : Z)
| Closed.

Definition w_bytes (q : QueuedWrite) : Z := estimated_bytes (qw_write q).
Definition w_ops (q : QueuedWrite) : Z := operation_count (qw_write q).
Definition w_bound (q : QueuedWrite) : CommitBoundary := w_boundary (qw_write q).

(** The parts of the state that the operations change together. *)
Definition set_queues (m : gmap string PendingTask) (r : list string) (gs gc pg pt : Z) (st : SchedulerState)
  : SchedulerState :=
  mkState m r gs gc pg pt (reset_reply st) (resetting st) (purge_reply st) (purging st) (shutdown_reply st) (closed st).
Definition set_control (rr : option Z) (rs : bool) (pr : option (string * Z)) (pu : bool) (sr : option Z) (c : bool)
    (st : SchedulerState) : SchedulerState :=
  mkState (pending st) (ready st) (global_stream_bytes st) (global_control_writes st) (peak_global_stream_bytes st)
    (peak_task_stream_bytes st) rr rs pr pu sr c.

(** ** Admission *)

Definition has_pending_exclusive_control (st : SchedulerState) : bool :=
  is_some (reset_reply st) || resetting st || is_some (purge_reply st) || purging st.

Definition validate_write_size (write : TaskWrite) : result unit RuntimeError :=
  if is_stream (w_boundary write) && bool_decide (PER_TASK_STREAM_BYTE_CAPACITY < estimated_bytes write)
  then Err (Storage "Task journal stream write exceeds admission capacity") else Ok tt.

Definition has_capacity (st : SchedulerState) (write : TaskWrite) : bool :=
  match w_boundary write with
  | Stream | TextStream =>
      let write_bytes := estimated_bytes write in
      let task_bytes := match pending st !! w_task_id write with Some t => pt_stream_bytes t | None => 0 end in
      bool_decide (write_bytes <= u64_saturating_sub GLOBAL_STREAM_BYTE_CAPACITY (global_stream_bytes st))
      && bool_decide (write_bytes <= u64_saturating_sub PER_TASK_STREAM_BYTE_CAPACITY task_bytes)
  | TextBarrier | Barrier => bool_decide (global_control_writes st < CONTROL_CAPACITY)
  end.

Definition enqueue (write : TaskWrite) (reply now : Z) (st : SchedulerState) : SchedulerState :=
  let task_id := w_task_id write in
  let is_new := negb (is_some (pending st !! task_id)) in
  let write_bytes := estimated_bytes write in
  let entry := default default_pending (pending st !! task_id) in
  let bytes := u64_saturating_add (pt_queued_bytes entry) write_bytes in
  let operations := u64_saturating_add (pt_queued_operations entry) (operation_count write) in
  let queue := pt_writes entry ++ [mkQueuedWrite write reply now] in
  let ready := if is_new then ready st ++ [task_id] else ready st in
  if is_stream (w_boundary write) then
    let stream := u64_add (pt_stream_bytes entry) write_bytes in
    let global := u64_add (global_stream_bytes st) write_bytes in
    set_queues (<[task_id := mkPending queue bytes operations stream (pt_control_writes entry)]> (pending st)) ready
      global (global_control_writes st) (Z.max (peak_global_stream_bytes st) global)
      (Z.max (peak_task_stream_bytes st) stream) st
  else
    set_queues (<[task_id := mkPending queue bytes operations (pt_stream_bytes entry)
                                (u64_add (pt_control_writes entry) 1)]> (pending st)) ready
      (global_stream_bytes st) (u64_add (global_control_writes st) 1) (peak_global_stream_bytes st)
      (peak_task_stream_bytes st) st.

Definition refuses (st : SchedulerState) : bool := closed st || is_some (shutdown_reply st).

(** The condition of the wait loops. *)
Definition must_wait (st : SchedulerState) (write : TaskWrite) : bool :=
  negb (closed st) && negb (is_some (shutdown_reply st))
  && (has_pending_exclusive_control st || negb (has_capacity st write)).

Definition scheduler_admit (write : TaskWrite) (reply now : Z) (st : SchedulerState)
  : option (result unit RuntimeError * SchedulerState) :=
  match validate_write_size write with
  | Err e => Some (Err e, st)
  | Ok _ =>
      if must_wait st write then None
      else if refuses st then Some (Err unavailable, st)
      else Some (Ok tt, enqueue write reply now st)
  end.

Definition try_admit (write : TaskWrite) (reply now : Z) (st : SchedulerState)
  : result (option TaskWrite) RuntimeError * SchedulerState :=
  match validate_write_size write with
  | Err e => (Err e, st)
  | Ok _ =>
      if refuses st then (Err unavailable, st)
      else if has_pending_exclusive_control st || negb (has_capacity st write) then (Ok (Some write), st)
      else (Ok None, enqueue write reply now st)
  end.

Definition wait_for_capacity (write : TaskWrite) (st : SchedulerState) : option (result unit RuntimeError) :=
  if must_wait st write then None else if refuses st then Some (Err unavailable) else Some (Ok tt).

(** ** Control *)

Definition request_shutdown (reply : Z) (st : SchedulerState) : result unit RuntimeError * SchedulerState :=
  if refuses st then (Err unavailable, st)
  else (Ok tt, set_control (reset_reply st) (resetting st) (purge_reply st) (purging st) (Some reply) (closed st) st).

Definition request_reset (reply : Z) (st : SchedulerState) : result unit RuntimeError * SchedulerState :=
  if refuses st || has_pending_exclusive_control st then (Err unavailable, st)
  else (Ok tt, set_control (Some reply) (resetting st) (purge_reply st) (purging st) (shutdown_reply st) (closed st) st).

Definition finish_reset (st : SchedulerState) : SchedulerState :=
  set_control (reset_reply st) false (purge_reply st) (purging st) (shutdown_reply st) (closed st) st.

Definition request_purge (task_id : string) (reply : Z) (st : SchedulerState) : result unit RuntimeError * SchedulerState :=
  if refuses st || has_pending_exclusive_control st then (Err unavailable, st)
  else (Ok tt, set_control (reset_reply st) (resetting st) (Some (task_id, reply)) (purging st) (shutdown_reply st)
                 (closed st) st).

Definition finish_purge (st : SchedulerState) : SchedulerState :=
  set_control (reset_reply st) (resetting st) (purge_reply st) false (shutdown_reply st) (closed st) st.

Definition close (st : SchedulerState) : SchedulerState :=
  set_control (reset_reply st) (resetting st) (purge_reply st) (purging st) (shutdown_reply st) true st.

(** The writes whose receipts fail, and the control replies that are answered. *)
Definition fail_all (st : SchedulerState) : list QueuedWrite * list Z * SchedulerState :=
  (map_to_list (pending st) ≫= (fun kt => pt_writes kt.2),
   option_list (shutdown_reply st) ++ option_list (reset_reply st) ++ option_list (snd <$> purge_reply st),
   mkState ∅ [] 0 0 (peak_global_stream_bytes st) (peak_task_stream_bytes st) None (resetting st) None (purging st)
     None true).

Definition metrics (st : SchedulerState) : Z * Z := (peak_global_stream_bytes st, peak_task_stream_bytes st).

(** ** The worker *)

Definition should_wait_for_batch (st : SchedulerState) (task_id : string) : option bool :=
  task ← pending st !! task_id;
  Some (bool_decide (length (ready st) = 1%nat) && negb (is_some (shutdown_reply st))
        && bool_decide (pt_control_writes task = 0) && bool_decide (pt_queued_bytes task < MAX_BATCH_BYTES)
        && bool_decide (pt_queued_operations task < MAX_BATCH_OPERATIONS)).

Fixpoint first_control_boundary (writes : list QueuedWrite) : option CommitBoundary :=
  match writes with
  | [] => None
  | q :: writes => if is_stream (w_bound q) then first_control_boundary writes else Some (w_bound q)
  end.

(** The counters that the removal of a write changes. *)
Record Counters := mkCounters {
  ct_bytes : Z; ct_operations : Z; ct_stream : Z; ct_control : Z; ct_global_stream : Z; ct_global_control : Z;
}.

Definition counters (task : PendingTask) (st : SchedulerState) : Counters :=
  mkCounters (pt_queued_bytes task) (pt_queued_operations task) (pt_stream_bytes task) (pt_control_writes task)
    (global_stream_bytes st) (global_control_writes st).

Definition remove_write (q : QueuedWrite) (c : Counters) : Counters :=
  let bytes := u64_saturating_sub (ct_bytes c) (w_bytes q) in
  let operations := u64_saturating_sub (ct_operations c) (w_ops q) in
  if is_stream (w_bound q)
  then mkCounters bytes operations (u64_sub (ct_stream c) (w_bytes q)) (ct_control c)
         (u64_sub (ct_global_stream c) (w_bytes q)) (ct_global_control c)
  else mkCounters bytes operations (ct_stream c) (u64_sub (ct_control c) 1) (ct_global_stream c)
         (u64_sub (ct_global_control c) 1).

(** Whether the loop of [take_batch] stops before the front write. *)
Definition stops_before (batch : list QueuedWrite) (bytes operations : Z) (front : QueuedWrite) : bool :=
  match batch with
  | [] => false
  | first :: _ =>
      xorb (is_subagent (qw_write first)) (is_subagent (qw_write front))
      || bool_decide (MAX_BATCH_BYTES < u64_add bytes (w_bytes front))
      || bool_decide (MAX_BATCH_OPERATIONS < u64_add operations (w_ops front))
  end.

(** The loop of [take_batch]: the batch, the writes left, the counters. *)
Fixpoint take_loop (writes batch : list QueuedWrite) (bytes operations : Z) (c : Counters)
  : list QueuedWrite * list QueuedWrite * Counters :=
  match writes with
  | [] => (batch, [], c)
  | front :: rest =>
      if stops_before batch bytes operations front then (batch, writes, c)
      else
        let c := remove_write front c in
        let batch := batch ++ [front] in
        if is_stream (w_bound front)
        then take_loop rest batch (u64_add bytes (w_bytes front)) (u64_add operations (w_ops front)) c
        else (batch, rest, c)
  end.

(** The loop of [take_text_barrier_batch]: the selected and the retained writes. *)
Fixpoint select_text (queued selected retained : list QueuedWrite) (bytes operations : Z)
    (barrier_seen limits_reached : bool) : list QueuedWrite * list QueuedWrite :=
  match queued with
  | [] => (selected, retained)
  | q :: queued =>
      if barrier_seen || limits_reached
      then select_text queued selected (retained ++ [q]) bytes operations barrier_seen limits_reached
      else
        match w_bound q with
        | TextStream =>
            if negb (bool_decide (selected = [])) &&
               (bool_decide (MAX_BATCH_BYTES < u64_add bytes (w_bytes q))
                || bool_decide (MAX_BATCH_OPERATIONS < u64_add operations (w_ops q)))
            then select_text queued selected (retained ++ [q]) bytes operations barrier_seen true
            else select_text queued (selected ++ [q]) retained (u64_add bytes (w_bytes q))
                   (u64_add operations (w_ops q)) barrier_seen limits_reached
        | TextBarrier => select_text queued (selected ++ [q]) retained bytes operations true limits_reached
        | Stream | Barrier => select_text queued selected (retained ++ [q]) bytes operations barrier_seen limits_reached
        end
  end.

(** [take_text_barrier_batch] subtracts with saturation. *)
Definition remove_write_saturating (c : Counters) (q : QueuedWrite) : Counters :=
  let bytes := u64_saturating_sub (ct_bytes c) (w_bytes q) in
  let operations := u64_saturating_sub (ct_operations c) (w_ops q) in
  if is_stream (w_bound q)
  then mkCounters bytes operations (u64_saturating_sub (ct_stream c) (w_bytes q)) (ct_control c)
         (u64_saturating_sub (ct_global_stream c) (w_bytes q)) (ct_global_control c)
  else mkCounters bytes operations (ct_stream c) (u64_saturating_sub (ct_control c) 1) (ct_global_stream c)
         (u64_saturating_sub (ct_global_control c) 1).

(** The end of both functions: the Task leaves the map or goes to the back. *)
Definition finish_take (task_id : string) (rest : list QueuedWrite) (c : Counters) (st : SchedulerState)
  : SchedulerState :=
  let task := mkPending rest (ct_bytes c) (ct_operations c) (ct_stream c) (ct_control c) in
  match rest with
  | [] => set_queues (delete task_id (pending st)) (ready st) (ct_global_stream c) (ct_global_control c)
            (peak_global_stream_bytes st) (peak_task_stream_bytes st) st
  | _ => set_queues (<[task_id := task]> (pending st)) (ready st ++ [task_id]) (ct_global_stream c)
           (ct_global_control c) (peak_global_stream_bytes st) (peak_task_stream_bytes st) st
  end.

Definition take_text_barrier_batch (task_id : string) (st : SchedulerState)
  : option (list QueuedWrite * SchedulerState) :=
  task ← pending st !! task_id;
  let '(selected, retained) := select_text (pt_writes task) [] [] 0 0 false false in
  Some (selected, finish_take task_id retained (foldl remove_write_saturating (counters task st) selected) st).

Definition take_batch (task_id : string) (st : SchedulerState) : option (list QueuedWrite * SchedulerState) :=
  if bool_decide ((task ← pending st !! task_id; first_control_boundary (pt_writes task)) = Some TextBarrier)
  then take_text_barrier_batch task_id st
  else
    task ← pending st !! task_id;
    let '(batch, rest, c) := take_loop (pt_writes task) [] 0 0 (counters task st) in
    Some (batch, finish_take task_id rest c st).

(** [ready.pop_front()] and [take_batch]. *)
Definition take_next (st : SchedulerState) : option (NextWork * SchedulerState) :=
  match ready st with
  | [] => None
  | task_id :: rest =>
      '(writes, st) ← take_batch task_id
        (set_queues (pending st) rest (global_stream_bytes st) (global_control_writes st)
           (peak_global_stream_bytes st) (peak_task_stream_bytes st) st);
      Some (Batch task_id writes, st)
  end.

Inductive Pass :=
| Work (work : NextWork) (st : SchedulerState)
| WaitTimeout (remaining : Z)
| Wait.

(** One pass of the loop of [next]. *)
Definition next_pass (now : Z) (st : SchedulerState) : option Pass :=
  match ready st with
  | task_id :: _ =>
      wait ← should_wait_for_batch st task_id;
      task ← pending st !! task_id;
      if (wait : bool) then
        front ← head (pt_writes task);
        let remaining := u64_saturating_sub MAX_BATCH_AGE (now - qw_admitted_at front) in
        if bool_decide (remaining <> 0) then Some (WaitTimeout remaining)
        else '(work, st) ← take_next st; Some (Work work st)
      else '(work, st) ← take_next st; Some (Work work st)
  | [] =>
      match reset_reply st with
      | Some reply =>
          Some (Work (Reset reply) (set_control None true (purge_reply st) (purging st) (shutdown_reply st) (closed st) st))
      | None =>
          match purge_reply st with
          | Some (task_id, reply) =>
              Some (Work (Purge task_id reply)
                      (set_control (reset_reply st) (resetting st) None true (shutdown_reply st) (closed st) st))
          | None =>
              match negb (resetting st) && negb (purging st), shutdown_reply st with
              | true, Some reply =>
                  Some (Work (Shutdown reply)
                          (set_control (reset_reply st) (resetting st) (purge_reply st) (purging st) None true st))
              | _, _ => Some (if closed st then Work Closed st else Wait)
              end
          end
      end
  end.

(** The worker's timed wait elapsed: it takes the front Task of the state it
    finds. *)
Definition next_timed_out (st : SchedulerState) : option (NextWork * SchedulerState) := take_next st.

(** A Subagent write that the caller does not wait for: the stream lane would
    refuse a larger one. *)
Definition stream_subagent (task_id : string) (write : SubagentWrite) : TaskWrite :=
  subagent task_id
    (if bool_decide (PER_TASK_STREAM_BYTE_CAPACITY < subagent_estimated_bytes write) then Barrier else Stream) write.

(** ** Executions

    The worker thread of [store.rs] runs the loop of [store/worker.rs] around
    the scheduler; any other thread calls the other operations at any time. *)

Inductive Worker :=
| Looping (** at the head of the loop of [next], also after an untimed wait *)
| TimedWait
| Busy (work : NextWork)
| Stopped
| Panicked.

(** The history is kept beside the state: the writes admitted, the batches
    handed to the worker, the writes that [fail_all] failed. *)
Record System := mkSystem {
  sy_state : SchedulerState;
  sy_worker : Worker;
  sy_admitted : list QueuedWrite;
  sy_dispatched : list (string * list QueuedWrite);
  sy_failed : list QueuedWrite;
}.
Definition start : System := mkSystem new Looping [] [] [].

Inductive Op :=
| OpAdmit (write : TaskWrite) (reply now : Z)
| OpTryAdmit (write : TaskWrite) (reply now : Z)
| OpShutdown (reply : Z)
| OpReset (reply : Z)
| OpPurge (task_id : string) (reply : Z)
| OpClose
| OpNext (now : Z)
| OpNotified (** the timed wait ends by a notification *)
| OpTimedOut (** the timed wait elapses *)
| OpDone (** the worker finishes its work *)
| OpPanic (** the worker panics in its work *).

Definition on_state (f : SchedulerState -> SchedulerState) (s : System) : System :=
  mkSystem (f (sy_state s)) (sy_worker s) (sy_admitted s) (sy_dispatched s) (sy_failed s).
Definition on_worker (w : Worker) (s : System) : System :=
  mkSystem (sy_state s) w (sy_admitted s) (sy_dispatched s) (sy_failed s).
Definition admitted (write : TaskWrite) (reply now : Z) (st : SchedulerState) (s : System) : System :=
  mkSystem st (sy_worker s) (sy_admitted s ++ [mkQueuedWrite write reply now]) (sy_dispatched s) (sy_failed s).

(** What [next] returned to the worker. *)
Definition returned (work : NextWork) (st : SchedulerState) (s : System) : System :=
  let batch := match work with Batch task_id writes => [(task_id, writes)] | _ => [] end in
  mkSystem st (Busy work) (sy_admitted s) (sy_dispatched s ++ batch) (sy_failed s).

(** The end of an arm of the worker's match. *)
Definition done (work : NextWork) (s : System) : System :=
  match work with
  | Batch _ _ => on_worker Looping s
  | Reset _ => on_worker Looping (on_state finish_reset s)
  | Purge _ _ => on_worker Looping (on_state finish_purge s)
  | Shutdown _ | Closed => on_worker Stopped s
  end.

(** One atomic operation; one that is not enabled, or has to wait, changes
    nothing. *)
Definition exec (s : System) (op : Op) : System :=
  match op with
  | OpAdmit w r now =>
      match scheduler_admit w r now (sy_state s) with Some (Ok _, st) => admitted w r now st s | _ => s end
  | OpTryAdmit w r now =>
      match try_admit w r now (sy_state s) with (Ok None, st) => admitted w r now st s | _ => s end
  | OpShutdown r => on_state (fun st => (request_shutdown r st).2) s
  | OpReset r => on_state (fun st => (request_reset r st).2) s
  | OpPurge id r => on_state (fun st => (request_purge id r st).2) s
  | OpClose => on_state close s
  | OpNext now =>
      match sy_worker s with
      | Looping =>
          match next_pass now (sy_state s) with
          | Some (Work work st) => returned work st s
          | Some (WaitTimeout _) => on_worker TimedWait s
          | Some Wait => s
          | None => on_worker Panicked s
          end
      | _ => s
      end
  | OpNotified => match sy_worker s with TimedWait => on_worker Looping s | _ => s end
  | OpTimedOut =>
      match sy_worker s with
      | TimedWait =>
          match next_timed_out (sy_state s) with
          | Some (work, st) => returned work st s
          | None => on_worker Panicked s
          end
      | _ => s
      end
  | OpDone => match sy_worker s with Busy work => done work s | _ => s end
  | OpPanic =>
      match sy_worker s with
      | Busy _ =>
          let '(failed, _, st) := fail_all (sy_state s) in
          mkSystem st Stopped (sy_admitted s) (sy_dispatched s) (sy_failed s ++ failed)
      | _ => s
      end
  end.

Definition run (ops : list Op) (s : System) : System := foldl exec s ops.

(** ** Sizes *)

Lemma usize_sum_u64 l : is_u64 (usize_sum l).
Proof.
  destruct l as [|x l] using rev_ind; [done|]. unfold usize_sum. rewrite foldl_snoc. apply u64_add_range.
Qed.

Lemma saturating_add_u64 a b : 0 <= a -> 0 <= b -> is_u64 (u64_saturating_add a b).
Proof. unfold is_u64, u64_saturating_add, u64_max, u64_modulus. lia. Qed.

Lemma w_bytes_u64 q : is_u64 (w_bytes q).
Proof.
  unfold w_bytes, estimated_bytes. apply saturating_add_u64.
  - destruct (w_subagent _) as [w|]; [|done]. apply saturating_add_u64; [|unfold string_len; lia].
    destruct (sw_operation w); try done; unfold vec_len; case_match; done || lia.
  - apply saturating_add_u64; apply usize_sum_u64.
Qed.

(** ** The accounting invariant *)

Definition stream_size (q : QueuedWrite) : Z := if is_stream (w_bound q) then w_bytes q else 0.
Definition control_size (q : QueuedWrite) : Z := if is_stream (w_bound q) then 0 else 1.

Lemma stream_size_nonneg q : 0 <= stream_size q.
Proof. unfold stream_size. pose proof (w_bytes_u64 q) as Hq. unfold is_u64 in Hq. case_match; lia. Qed.
Lemma control_size_nonneg q : 0 <= control_size q.
Proof. unfold control_size. case_match; lia. Qed.

Record task_ok (id : string) (t : PendingTask) : Prop := {
  to_nonempty : pt_writes t <> [];
  to_owner q : q ∈ pt_writes t -> w_task_id (qw_write q) = id;
  to_stream : pt_stream_bytes t = list_sum stream_size (pt_writes t);
  to_control : pt_control_writes t = list_sum control_size (pt_writes t);
  to_bound : pt_stream_bytes t <= PER_TASK_STREAM_BYTE_CAPACITY;
}.

(** The queues, the ready list and the counters agree and are bounded. *)
Record accounted (st : SchedulerState) : Prop := {
  ac_tasks id t : pending st !! id = Some t -> task_ok id t;
  ac_ready id : (id ∈ ready st) <-> is_Some (pending st !! id);
  ac_nodup : NoDup (ready st);
  ac_stream : global_stream_bytes st = map_sum pt_stream_bytes (pending st);
  ac_control : global_control_writes st = map_sum pt_control_writes (pending st);
  ac_stream_bound : global_stream_bytes st <= GLOBAL_STREAM_BYTE_CAPACITY;
  ac_control_bound : global_control_writes st <= CONTROL_CAPACITY;
  ac_peak : global_stream_bytes st <= peak_global_stream_bytes st <= GLOBAL_STREAM_BYTE_CAPACITY;
  ac_task_peak : 0 <= peak_task_stream_bytes st <= PER_TASK_STREAM_BYTE_CAPACITY;
  ac_below_peak id t : pending st !! id = Some t -> pt_stream_bytes t <= peak_task_stream_bytes st;
}.

Definition task_writes (st : SchedulerState) (id : string) : list QueuedWrite :=
  match pending st !! id with Some t => pt_writes t | None => [] end.

Lemma list_sum_stream_nonneg l : 0 <= list_sum stream_size l.
Proof. apply list_sum_nonneg. intros q _. apply stream_size_nonneg. Qed.
Lemma list_sum_control_nonneg l : 0 <= list_sum control_size l.
Proof. apply list_sum_nonneg. intros q _. apply control_size_nonneg. Qed.

(** The counters of a queue with [writes], beside other Tasks that hold
    [streams] bytes and [controls] control writes. *)
Record settled (streams controls : Z) (writes : list QueuedWrite) (c : Counters) : Prop := {
  se_stream : ct_stream c = list_sum stream_size writes;
  se_control : ct_control c = list_sum control_size writes;
  se_global_stream : ct_global_stream c = streams + list_sum stream_size writes;
  se_global_control : ct_global_control c = controls + list_sum control_size writes;
  se_stream_u64 : is_u64 (streams + list_sum stream_size writes);
  se_control_u64 : is_u64 (controls + list_sum control_size writes);
  se_others : 0 <= streams /\ 0 <= controls;
}.

Ltac settle q ws :=
  pose proof (list_sum_stream_nonneg ws); pose proof (list_sum_control_nonneg ws);
  pose proof (stream_size_nonneg q); pose proof (control_size_nonneg q);
  split; cbn; unfold stream_size, control_size, is_u64 in *;
  destruct (is_stream (w_bound q)); cbn in *;
  rewrite ?u64_sub_small by (unfold is_u64, u64_modulus in *; lia);
  unfold u64_saturating_sub, u64_modulus in *; lia.

Lemma remove_write_settled streams controls q ws c :
  settled streams controls (q :: ws) c -> settled streams controls ws (remove_write q c).
Proof. intros [H1 H2 H3 H4 H5 H6 H7]. cbn in *. unfold remove_write. settle q ws. Qed.

Lemma remove_write_saturating_settled streams controls q ws c :
  settled streams controls (q :: ws) c -> settled streams controls ws (remove_write_saturating c q).
Proof. intros [H1 H2 H3 H4 H5 H6 H7]. cbn in *. unfold remove_write_saturating. settle q ws. Qed.

Lemma remove_all_settled streams controls qs ws c :
  settled streams controls (qs ++ ws) c -> settled streams controls ws (foldl remove_write_saturating c qs).
Proof.
  revert c. induction qs as [|q qs IH]; intros c Hc; [done|]. apply IH. by apply remove_write_saturating_settled.
Qed.

Lemma list_sum_perm {A} (f : A -> Z) l k : l ≡ₚ k -> list_sum f l = list_sum f k.
Proof. induction 1; cbn; lia. Qed.

Lemma settled_perm streams controls ws ws' c :
  ws ≡ₚ ws' -> settled streams controls ws c -> settled streams controls ws' c.
Proof.
  intros Hp [H1 H2 H3 H4 H5 H6 H7].
  rewrite !(list_sum_perm _ _ _ Hp) in *. by split.
Qed.

(** *** The two selections *)

Lemma take_loop_spec streams controls ws batch bytes operations c batch' rest c' :
  take_loop ws batch bytes operations c = (batch', rest, c') ->
  settled streams controls ws c ->
  exists taken, batch' = batch ++ taken /\ ws = taken ++ rest /\ settled streams controls rest c'
    /\ (batch = [] -> ws <> [] -> taken <> []).
Proof.
  revert batch bytes operations c. induction ws as [|q ws IH]; intros batch bytes operations c; cbn.
  - intros [= <- <- <-] Hc. exists []. by rewrite app_nil_r.
  - destruct (stops_before _ _ _ _) eqn:Hstop.
    + intros [= <- <- <-] Hc. exists []. rewrite app_nil_r. repeat split_and!; try done.
      intros ->. done.
    + intros Htake Hc%remove_write_settled. destruct (is_stream (w_bound q)).
      * apply IH in Htake as (taken & -> & -> & Hrest & _); [|done].
        exists (q :: taken). rewrite <- app_assoc. by repeat split_and!.
      * injection Htake as <- <- <-. exists [q]. by repeat split_and!.
Qed.

Definition is_text (q : QueuedWrite) : Prop := w_bound q = TextStream \/ w_bound q = TextBarrier.
#[global] Instance is_text_dec q : Decision (is_text q).
Proof. unfold is_text. apply _. Defined.

(** Once the loop has stopped selecting, it retains the rest. *)
Lemma select_text_stopped queued selected retained bytes operations seen limits :
  seen || limits = true ->
  select_text queued selected retained bytes operations seen limits = (selected, retained ++ queued).
Proof.
  revert retained. induction queued as [|q queued IH]; intros retained Hs; cbn; [by rewrite app_nil_r|].
  rewrite Hs, IH by done. by rewrite <- app_assoc.
Qed.

(** The loop before a text barrier, up to where it stops: it takes the text
    writes of a prefix of the queue. *)
Lemma select_text_spec queued selected retained bytes operations selected' retained' :
  select_text queued selected retained bytes operations false false = (selected', retained') ->
  first_control_boundary queued = Some TextBarrier ->
  exists scanned rest,
    queued = scanned ++ rest /\ selected' = selected ++ filter is_text scanned
    /\ retained' = retained ++ filter (fun q => ~ is_text q) scanned ++ rest
    /\ Forall (fun q => w_bound q <> Barrier) scanned /\ selected' <> [].
Proof.
  revert selected retained bytes operations. induction queued as [|q queued IH];
    intros selected retained bytes operations; cbn; [done|].
  destruct (w_bound q) eqn:Hb; cbn; [| | |done].
  - assert (~ is_text q) by (unfold is_text; rewrite Hb; naive_solver).
    intros Hsel Hf. apply IH in Hsel as (scanned & rest & -> & -> & -> & Hne & ?); [|done].
    exists (q :: scanned), rest. rewrite filter_cons_False, filter_cons_True, <- app_assoc by done.
    repeat split_and!; try done. constructor; [by rewrite Hb|done].
  - assert (is_text q) by (by left). destruct (negb _ && _) eqn:Hfull.
    + rewrite select_text_stopped by done. intros [= <- <-] _. exists [], (q :: queued).
      rewrite !app_nil_r, <- app_assoc. repeat split_and!; try done. by simp_all.
    + intros Hsel Hf. apply IH in Hsel as (scanned & rest & -> & -> & -> & Hne & ?); [|done].
      exists (q :: scanned), rest. rewrite filter_cons_True, filter_cons_False by naive_solver.
      rewrite <- app_assoc in *. repeat split_and!; try done. constructor; [by rewrite Hb|done].
  - rewrite select_text_stopped by done. intros [= <- <-] _. assert (is_text q) by (by right).
    exists [q], queued. rewrite filter_cons_True, filter_cons_False by naive_solver.
    repeat split_and!; try done; [|by destruct selected]. constructor; [by rewrite Hb|done].
Qed.

(** ** Lanes

    Agent text and Tool output have independent publication owners.  A plain
    barrier belongs to both lanes. *)

Inductive Lane := ToolLane | TextLane.
Definition in_lane (lane : Lane) (q : QueuedWrite) : Prop :=
  match lane with
  | ToolLane => w_bound q = Stream \/ w_bound q = Barrier
  | TextLane => is_text q \/ w_bound q = Barrier
  end.
#[global] Instance in_lane_dec lane q : Decision (in_lane lane q).
Proof. destruct lane; cbn; apply _. Defined.

Lemma filter_lane_select lane scanned :
  Forall (fun q => w_bound q <> Barrier) scanned ->
  filter (in_lane lane) scanned
  = filter (in_lane lane) (filter is_text scanned) ++ filter (in_lane lane) (filter (fun q => ~ is_text q) scanned).
Proof.
  intros Hs. destruct lane.
  - rewrite (filter_none _ (filter is_text scanned)); cbn [app].
    + induction Hs as [|q scanned Hq Hs IH]; [done|]. destruct (decide (is_text q)) as [Ht|Ht].
      * rewrite (filter_cons_False (in_lane ToolLane)), (filter_cons_False (fun q => ~ is_text q)); auto.
        destruct Ht as [Ht|Ht]; cbn; rewrite Ht; naive_solver.
      * rewrite (filter_cons_True (fun q => ~ is_text q)) by done. rewrite !(filter_cons (in_lane ToolLane)), IH. done.
    + intros q [Hq _]%list_elem_of_filter. cbn. destruct Hq as [-> | ->]; naive_solver.
  - rewrite (filter_none _ (filter (fun q => ~ is_text q) scanned)), app_nil_r.
    + rewrite (filter_all _ (filter is_text scanned)) by (intros q [? _]%list_elem_of_filter; by left).
      induction Hs as [|q scanned Hq Hs IH]; [done|]. rewrite !filter_cons, IH. cbn.
      repeat case_decide; naive_solver.
    + intros q [Hq Hin]%list_elem_of_filter. rewrite Forall_forall in Hs. specialize (Hs _ Hin). cbn. naive_solver.
Qed.

(** What a batch takes from the queue of its Task: the earlier writes of each
    lane. *)
Record takes (writes batch rest : list QueuedWrite) : Prop := {
  tk_nonempty : batch <> [];
  tk_perm : writes ≡ₚ batch ++ rest;
  tk_lane lane : filter (in_lane lane) writes = filter (in_lane lane) batch ++ filter (in_lane lane) rest;
}.

Lemma take_batch_spec streams controls id t st :
  pending st !! id = Some t -> pt_writes t <> [] -> settled streams controls (pt_writes t) (counters t st) ->
  exists batch rest c, take_batch id st = Some (batch, finish_take id rest c st)
    /\ takes (pt_writes t) batch rest /\ settled streams controls rest c.
Proof.
  intros Ht Hne Hc. unfold take_batch, take_text_barrier_batch. rewrite Ht. cbn.
  destruct (bool_decide_reflect (first_control_boundary (pt_writes t) = Some TextBarrier)) as [Hf|_].
  - destruct (select_text _ _ _ _ _ _ _) as [selected retained] eqn:Hsel.
    apply select_text_spec in Hsel as (scanned & rest & Hw & Hs & Hr & Hnb & Hns); [|done]. cbn in *. subst.
    eexists _, _, _. split; [done|].
    assert (pt_writes t ≡ₚ filter is_text scanned ++ filter (fun q => ~ is_text q) scanned ++ rest) as Hp.
    { rewrite Hw, app_assoc. apply Permutation_app_tail. symmetry. apply filter_app_complement. }
    split; [split|]; [done|done| |].
    + intros lane. rewrite Hw, !filter_app, filter_lane_select by done. by rewrite app_assoc.
    + apply remove_all_settled. by eapply settled_perm.
  - destruct (take_loop _ _ _ _ _) as [[batch rest] c] eqn:Htake.
    eapply take_loop_spec in Htake as (taken & -> & Hw & Hrest & Hn); [|exact Hc]. cbn in *.
    eexists _, _, _. split; [done|]. split; [split|done].
    + by apply Hn.
    + by rewrite Hw.
    + intros lane. by rewrite Hw, filter_app.
Qed.

(** ** Every operation keeps the accounts *)

Lemma task_settled st id t :
  accounted st -> pending st !! id = Some t ->
  settled (map_sum pt_stream_bytes (delete id (pending st))) (map_sum pt_control_writes (delete id (pending st)))
    (pt_writes t) (counters t st).
Proof.
  intros Hac Ht. pose proof (ac_tasks _ Hac id t Ht) as [_ _ Hs Hc _].
  assert (forall id' t', delete id (pending st) !! id' = Some t' -> 0 <= pt_stream_bytes t' /\ 0 <= pt_control_writes t')
    as Hpos.
  { intros id' t' [_ Ht']%lookup_delete_Some. destruct (ac_tasks _ Hac id' t' Ht') as [_ _ -> -> _].
    split; [apply list_sum_stream_nonneg|apply list_sum_control_nonneg]. }
  assert (0 <= map_sum pt_stream_bytes (delete id (pending st))) by (apply map_sum_nonneg; intros; by eapply Hpos).
  assert (0 <= map_sum pt_control_writes (delete id (pending st))) by (apply map_sum_nonneg; intros; by eapply Hpos).
  pose proof (ac_stream _ Hac) as Hgs. rewrite (map_sum_delete _ _ _ _ Ht) in Hgs.
  pose proof (ac_control _ Hac) as Hgc. rewrite (map_sum_delete _ _ _ _ Ht) in Hgc.
  pose proof (ac_stream_bound _ Hac). pose proof (ac_control_bound _ Hac).
  pose proof (list_sum_stream_nonneg (pt_writes t)). pose proof (list_sum_control_nonneg (pt_writes t)).
  unfold GLOBAL_STREAM_BYTE_CAPACITY, CONTROL_CAPACITY in *.
  split; cbn; rewrite <- ?Hs, <- ?Hc in *; unfold is_u64, u64_modulus; lia.
Qed.

Definition same_control (st st' : SchedulerState) : Prop :=
  (reset_reply st', resetting st', purge_reply st', purging st', shutdown_reply st', closed st')
  = (reset_reply st, resetting st, purge_reply st, purging st, shutdown_reply st, closed st).

Definition popped (r : list string) (st : SchedulerState) : SchedulerState :=
  set_queues (pending st) r (global_stream_bytes st) (global_control_writes st)
    (peak_global_stream_bytes st) (peak_task_stream_bytes st) st.

Lemma finish_take_accounted st id r t batch rest c :
  accounted st -> ready st = id :: r -> pending st !! id = Some t -> takes (pt_writes t) batch rest ->
  settled (map_sum pt_stream_bytes (delete id (pending st))) (map_sum pt_control_writes (delete id (pending st)))
    rest c ->
  accounted (finish_take id rest c (popped r st)).
Proof.
  intros Hac Hr Ht [_ Hp _] Hc.
  assert (list_sum stream_size rest <= pt_stream_bytes t /\ list_sum control_size rest <= pt_control_writes t) as [Hls Hlc].
  { destruct (ac_tasks _ Hac id t Ht) as [_ _ -> -> _]. rewrite !(list_sum_perm _ _ _ Hp), !list_sum_app.
    pose proof (list_sum_stream_nonneg batch). pose proof (list_sum_control_nonneg batch). lia. }
  assert ((id ∉ r) /\ NoDup r) as [Hnin Hnd] by (apply NoDup_cons; rewrite <- Hr; apply (ac_nodup _ Hac)).
  assert (forall j, (j ∈ r) <-> is_Some (delete id (pending st) !! j)) as Hrdy.
  { intros j. pose proof (ac_ready _ Hac j) as Hj. rewrite Hr, elem_of_cons in Hj.
    destruct (decide (j = id)) as [->|Hne]; [rewrite lookup_delete_eq; split; [done|by intros [? ?]]|].
    rewrite lookup_delete_ne by done. naive_solver. }
  pose proof (ac_stream_bound _ Hac) as Hsb. rewrite (ac_stream _ Hac), (map_sum_delete _ _ _ _ Ht) in Hsb.
  pose proof (ac_control_bound _ Hac) as Hcb. rewrite (ac_control _ Hac), (map_sum_delete _ _ _ _ Ht) in Hcb.
  pose proof (ac_peak _ Hac) as Hpk. rewrite (ac_stream _ Hac), (map_sum_delete _ _ _ _ Ht) in Hpk.
  pose proof (ac_task_peak _ Hac) as Htpk.
  destruct Hc as [H1 H2 H3 H4 _ _ _]. unfold finish_take. destruct rest as [|q rest]; cbn [list_sum] in *.
  - split; cbn; try lia; try done.
    + intros j t' [_ Hj]%lookup_delete_Some. by apply (ac_tasks _ Hac).
    + intros j t' [_ Hj]%lookup_delete_Some. by apply (ac_below_peak _ Hac j).
  - split; cbn -[list_sum].
    + intros j t' Hj. apply lookup_insert_Some in Hj as [[<- <-]|[Hne Hj]]; [|by apply (ac_tasks _ Hac)].
      pose proof (to_bound _ _ (ac_tasks _ Hac id t Ht)). split; cbn -[list_sum]; try done; try lia.
      intros q' Hq'. apply (to_owner _ _ (ac_tasks _ Hac id t Ht)). rewrite Hp. apply elem_of_app. by right.
    + intros j. rewrite elem_of_app, list_elem_of_singleton, Hrdy.
      destruct (decide (j = id)) as [->|Hne]; [rewrite lookup_insert_eq; naive_solver|].
      rewrite lookup_delete_ne, lookup_insert_ne by done. naive_solver.
    + apply NoDup_app. split_and!; [done|set_solver|apply NoDup_singleton].
    + rewrite map_sum_insert, (map_sum_delete _ _ _ _ Ht), Ht. cbn -[list_sum]. lia.
    + rewrite map_sum_insert, (map_sum_delete _ _ _ _ Ht), Ht. cbn -[list_sum]. lia.
    + lia.
    + lia.
    + lia.
    + lia.
    + intros j t' [[<- <-]|[_ Hj]]%lookup_insert_Some; [|by apply (ac_below_peak _ Hac j)].
      pose proof (ac_below_peak _ Hac id t Ht). cbn -[list_sum]. lia.
Qed.

(** The worker takes from the front Task, which goes to the back when it has
    more. *)
Lemma take_next_spec st id r :
  accounted st -> ready st = id :: r ->
  exists batch rest st', take_next st = Some (Batch id batch, st') /\ accounted st'
    /\ takes (task_writes st id) batch rest
    /\ (forall j, task_writes st' j = if decide (j = id) then rest else task_writes st j)
    /\ ready st' = r ++ (match rest with [] => [] | _ => [id] end) /\ same_control st st'.
Proof.
  intros Hac Hr. assert (is_Some (pending st !! id)) as [t Ht] by (apply (ac_ready _ Hac); rewrite Hr; left).
  unfold take_next. rewrite Hr. change (set_queues _ r _ _ _ _ st) with (popped r st).
  pose proof (task_settled _ _ _ Hac Ht) as Hset.
  destruct (take_batch_spec _ _ id t (popped r st) Ht (to_nonempty _ _ (ac_tasks _ Hac id t Ht)) Hset)
    as (batch & rest & c & Htake & Htk & Hc).
  exists batch, rest, (finish_take id rest c (popped r st)). rewrite Htake.
  unfold task_writes. rewrite Ht. split_and!; [done|by eapply finish_take_accounted|done| | |].
  - intros j. unfold finish_take. destruct rest; cbn; case_decide; subst.
    + by rewrite lookup_delete_eq.
    + by rewrite lookup_delete_ne.
    + by rewrite lookup_insert_eq.
    + by rewrite lookup_insert_ne.
  - unfold finish_take. destruct rest; cbn; by rewrite ?app_nil_r.
  - unfold finish_take. by destruct rest.
Qed.

(** A Task gets one more write at the back and its counters grow with it. *)
Lemma push_accounted st id t q gs gc pg pt :
  accounted st -> w_task_id (qw_write q) = id ->
  pt_writes t = task_writes st id ++ [q] ->
  pt_stream_bytes t = list_sum stream_size (pt_writes t) -> pt_control_writes t = list_sum control_size (pt_writes t) ->
  pt_stream_bytes t <= PER_TASK_STREAM_BYTE_CAPACITY ->
  gs = global_stream_bytes st + stream_size q -> gc = global_control_writes st + control_size q ->
  gs <= GLOBAL_STREAM_BYTE_CAPACITY -> gc <= CONTROL_CAPACITY ->
  pg = Z.max (peak_global_stream_bytes st) gs -> pt = Z.max (peak_task_stream_bytes st) (pt_stream_bytes t) ->
  accounted (set_queues (<[id := t]> (pending st))
               (if negb (is_some (pending st !! id)) then ready st ++ [id] else ready st) gs gc pg pt st).
Proof.
  intros Hac Hid Hw Hts Htc Htb Hgs Hgc Hgsb Hgcb Hpg Hpt.
  pose proof (ac_peak _ Hac). pose proof (ac_task_peak _ Hac).
  assert (default 0 (pt_stream_bytes <$> pending st !! id) = list_sum stream_size (task_writes st id)
          /\ default 0 (pt_control_writes <$> pending st !! id) = list_sum control_size (task_writes st id))
    as [Hes Hec].
  { unfold task_writes. destruct (pending st !! id) as [e|] eqn:He; [|done].
    destruct (ac_tasks _ Hac id e He) as [_ _ Hs Hc _]. done. }
  pose proof (ac_ready _ Hac) as Hready. pose proof (ac_nodup _ Hac) as Hnd.
  split; cbn; try done; try lia.
  - intros j t' [[<- <-]|[Hne Hj]]%lookup_insert_Some; [|by apply (ac_tasks _ Hac)].
    split; try done; [rewrite Hw; by destruct (task_writes st id)|].
    intros q' Hq'. rewrite Hw in Hq'. apply elem_of_app in Hq' as [Hq'|Hq'%list_elem_of_singleton]; [|by subst].
    unfold task_writes in Hq'. destruct (pending st !! id) as [e|] eqn:He; [|set_solver].
    by apply (to_owner _ _ (ac_tasks _ Hac id e He)).
  - intros j. destruct (decide (j = id)) as [->|Hne].
    + rewrite lookup_insert_eq. split; [by eexists|]. intros _.
      destruct (pending st !! id) eqn:He; cbn; [apply Hready; rewrite He; by eexists|set_solver].
    + rewrite lookup_insert_ne by done. rewrite <- Hready.
      destruct (pending st !! id); cbn; [done|]. rewrite elem_of_app, list_elem_of_singleton. naive_solver.
  - destruct (pending st !! id) eqn:He; cbn; [done|]. apply NoDup_app.
    split_and!; [done| |apply NoDup_singleton]. intros j Hj%Hready ->%list_elem_of_singleton.
    rewrite He in Hj. by destruct Hj.
  - rewrite map_sum_insert, Hes, Hts, Hw, list_sum_app, Hgs, (ac_stream _ Hac). cbn. lia.
  - rewrite map_sum_insert, Hec, Htc, Hw, list_sum_app, Hgc, (ac_control _ Hac). cbn. lia.
  - intros j t' [[<- <-]|[_ Hj]]%lookup_insert_Some; [lia|]. pose proof (ac_below_peak _ Hac j t' Hj). lia.
Qed.

Lemma enqueue_accounted st w r now :
  accounted st -> has_capacity st w = true -> accounted (enqueue w r now st).
Proof.
  intros Hac Hcap. set (q := mkQueuedWrite w r now).
  pose proof (ac_stream_bound _ Hac) as Hsb. pose proof (ac_control_bound _ Hac) as Hcb.
  pose proof (w_bytes_u64 q) as Hb. change (w_bytes q) with (estimated_bytes w) in Hb.
  assert (0 <= global_stream_bytes st /\ 0 <= global_control_writes st) as [Hg1 Hg2].
  { rewrite (ac_stream _ Hac), (ac_control _ Hac). split; apply map_sum_nonneg; intros j t Ht;
      destruct (ac_tasks _ Hac j t Ht) as [_ _ Hs Hc _]; rewrite ?Hs, ?Hc;
      [apply list_sum_stream_nonneg|apply list_sum_control_nonneg]. }
  set (e := default default_pending (pending st !! w_task_id w)).
  assert (pt_writes e = task_writes st (w_task_id w) /\ pt_stream_bytes e = list_sum stream_size (pt_writes e)
    /\ pt_control_writes e = list_sum control_size (pt_writes e) /\ pt_stream_bytes e <= PER_TASK_STREAM_BYTE_CAPACITY
    /\ pt_control_writes e <= global_control_writes st) as (Hw & Hs & Hc & Htb & Htc).
  { unfold e, task_writes. destruct (pending st !! w_task_id w) as [t|] eqn:Ht; [|by cbn; repeat split_and!].
    destruct (ac_tasks _ Hac _ t Ht) as [_ _ Hs Hc Hbd]. cbn. repeat split_and!; try done.
    rewrite (ac_control _ Hac). apply (map_sum_lookup_le _ _ (w_task_id w)); [|done].
    intros j t' Ht'. rewrite (to_control _ _ (ac_tasks _ Hac _ t' Ht')). apply list_sum_control_nonneg. }
  pose proof (list_sum_stream_nonneg (pt_writes e)). pose proof (list_sum_control_nonneg (pt_writes e)).
  assert (pt_stream_bytes e <= Z.max (peak_task_stream_bytes st) 0) as Hep.
  { unfold e. destruct (pending st !! w_task_id w) as [t|] eqn:Ht; cbn; [|lia].
    pose proof (ac_below_peak _ Hac _ t Ht). lia. }
  pose proof (ac_peak _ Hac) as Hpk. pose proof (ac_task_peak _ Hac) as Htpk.
  assert (match pending st !! w_task_id w with Some t => pt_stream_bytes t | None => 0 end = pt_stream_bytes e) as Heq
    by (unfold e; by destruct (pending st !! w_task_id w)).
  unfold has_capacity in Hcap. rewrite Heq in Hcap. unfold enqueue. fold e.
  assert (is_stream (w_boundary w) = true -> estimated_bytes w <= GLOBAL_STREAM_BYTE_CAPACITY - global_stream_bytes st
    /\ estimated_bytes w <= PER_TASK_STREAM_BYTE_CAPACITY - pt_stream_bytes e) as Hstream.
  { destruct (w_boundary w); try done; intros _; simp_all; unfold u64_saturating_sub in *; lia. }
  assert (is_stream (w_boundary w) = false -> global_control_writes st < CONTROL_CAPACITY) as Hcontrol.
  { destruct (w_boundary w); try done; intros _; by simp_all. }
  unfold GLOBAL_STREAM_BYTE_CAPACITY, PER_TASK_STREAM_BYTE_CAPACITY, CONTROL_CAPACITY, is_u64 in *.
  assert (stream_size q = if is_stream (w_boundary w) then estimated_bytes w else 0) as Hqs by done.
  assert (control_size q = if is_stream (w_boundary w) then 0 else 1) as Hqc by done.
  destruct (is_stream (w_boundary w)); [destruct Hstream; [done|]|specialize (Hcontrol eq_refl)];
    apply push_accounted with (q := q); try done; cbn; rewrite ?Hw; try done; rewrite <- ?Hw;
    rewrite ?list_sum_app; cbn; fold q; rewrite ?Hqs, ?Hqc, ?u64_add_small by (unfold is_u64, u64_modulus; lia); try lia;
    unfold PER_TASK_STREAM_BYTE_CAPACITY, GLOBAL_STREAM_BYTE_CAPACITY, CONTROL_CAPACITY; lia.
Qed.

Lemma enqueue_effect st w r now :
  same_control st (enqueue w r now st)
  /\ (forall j, task_writes (enqueue w r now st) j
        = task_writes st j ++ (if decide (j = w_task_id w) then [mkQueuedWrite w r now] else []))
  /\ exists x, ready (enqueue w r now st) = ready st ++ x.
Proof.
  unfold enqueue, task_writes.
  split_and!.
  - by destruct (is_stream _).
  - intros j. destruct (is_stream _); cbn; case_decide as Hj; subst;
      rewrite ?lookup_insert_eq, ?lookup_insert_ne, ?app_nil_r by done; try done; cbn; by destruct (pending st !! _).
  - destruct (is_stream _); cbn; destruct (pending st !! w_task_id w); cbn; eauto; exists []; by rewrite app_nil_r.
Qed.

(** ** What a step does to the queues *)

Definition same_queues (st st' : SchedulerState) : Prop :=
  (pending st', ready st', global_stream_bytes st', global_control_writes st', peak_global_stream_bytes st',
   peak_task_stream_bytes st')
  = (pending st, ready st, global_stream_bytes st, global_control_writes st, peak_global_stream_bytes st,
     peak_task_stream_bytes st).

Lemma same_queues_accounted st st' : same_queues st st' -> accounted st -> accounted st'.
Proof. intros [= H1 H2 H3 H4 H5 H6] [? ? ? ? ? ? ? ? ?]. split; rewrite ?H1, ?H2, ?H3, ?H4, ?H5, ?H6; done. Qed.

Inductive moved (op : Op) (s s' : System) : Prop :=
| MvControl :
    same_queues (sy_state s) (sy_state s') -> sy_admitted s' = sy_admitted s ->
    sy_dispatched s' = sy_dispatched s -> sy_failed s' = sy_failed s ->
    (sy_worker s = Stopped -> sy_worker s' = Stopped) ->
    (closed (sy_state s) = true -> closed (sy_state s') = true) -> moved op s s'
| MvAdmit w r now :
    op = OpAdmit w r now \/ op = OpTryAdmit w r now ->
    validate_write_size w = Ok tt -> has_capacity (sy_state s) w = true ->
    has_pending_exclusive_control (sy_state s) = false -> refuses (sy_state s) = false ->
    s' = admitted w r now (enqueue w r now (sy_state s)) s -> moved op s s'
| MvBatch id batch st :
    (sy_worker s = Looping \/ sy_worker s = TimedWait) ->
    take_next (sy_state s) = Some (Batch id batch, st) -> s' = returned (Batch id batch) st s -> moved op s s'
| MvFail :
    (exists work, sy_worker s = Busy work) ->
    s' = mkSystem (fail_all (sy_state s)).2 Stopped (sy_admitted s) (sy_dispatched s)
           (sy_failed s ++ (fail_all (sy_state s)).1.1) -> moved op s s'.

Lemma take_next_batch st work st' : take_next st = Some (work, st') -> exists id batch, work = Batch id batch.
Proof.
  unfold take_next. destruct (ready st); [done|]. destruct (take_batch _ _) as [[batch st'']|]; [|done].
  intros [= <- <-]. eauto.
Qed.

Lemma admit_cases w r now st st' :
  scheduler_admit w r now st = Some (Ok tt, st') <->
  validate_write_size w = Ok tt /\ has_capacity st w = true /\ has_pending_exclusive_control st = false
  /\ refuses st = false /\ st' = enqueue w r now st.
Proof.
  unfold scheduler_admit, must_wait, refuses. destruct (validate_write_size w) as [[]|e]; [|naive_solver].
  destruct (closed st), (is_some (shutdown_reply st)), (has_pending_exclusive_control st), (has_capacity st w);
    cbn; naive_solver.
Qed.

(** [try_admit] admits exactly when [scheduler_admit] would not wait. *)
Lemma try_admit_cases w r now st st' :
  try_admit w r now st = (Ok None, st') <-> scheduler_admit w r now st = Some (Ok tt, st').
Proof.
  rewrite admit_cases. unfold try_admit, refuses. destruct (validate_write_size w) as [[]|e]; [|naive_solver].
  destruct (closed st), (is_some (shutdown_reply st)), (has_pending_exclusive_control st), (has_capacity st w);
    cbn; naive_solver.
Qed.

Lemma next_pass_cases now st :
  match next_pass now st with
  | Some (Work work st') =>
      take_next st = Some (work, st')
      \/ ready st = [] /\ same_queues st st' /\ (closed st = true -> closed st' = true)
         /\ forall id batch, work <> Batch id batch
  | _ => True
  end.
Proof.
  unfold next_pass. destruct (ready st) eqn:Hr.
  - destruct (reset_reply st); [by right|]. destruct (purge_reply st) as [[id r]|]; [by right|].
    destruct (negb _ && _), (shutdown_reply st); try (destruct (closed st) eqn:Hc); by right || done.
  - destruct (should_wait_for_batch _ _) as [b|]; [|done]. cbn. destruct (pending st !! _); [|done]. cbn.
    destruct b; [destruct (head _); [cbn; split_test|done]|]; try done;
      (destruct (take_next st) as [[work st']|]; [by left|done]).
Qed.

Lemma exec_moved s op : moved op s (exec s op).
Proof.
  assert (forall f, (forall st, same_queues st (f st)) ->
            (forall st, closed st = true -> closed (f st) = true) -> moved op s (on_state f s)) as Hctl.
  { intros f Hf Hc. apply MvControl; cbn; auto. }
  destruct op as [w r now|w r now|r|r|id r| |now| | | |]; cbn [exec].
  - destruct (scheduler_admit w r now (sy_state s)) as [[[[]|e] st]|] eqn:Ha; try (apply MvControl; by try done).
    apply admit_cases in Ha as (? & ? & ? & ? & ->). eapply MvAdmit; eauto.
  - destruct (try_admit w r now (sy_state s)) as [[[w'|]|e] st] eqn:Ha; try (apply MvControl; by try done).
    apply try_admit_cases, admit_cases in Ha as (? & ? & ? & ? & ->). eapply MvAdmit; eauto.
  - apply Hctl; intros st; unfold request_shutdown; by destruct (refuses st).
  - apply Hctl; intros st; unfold request_reset; by destruct (_ || _).
  - apply Hctl; intros st; unfold request_purge; by destruct (_ || _).
  - by apply Hctl.
  - destruct (sy_worker s) eqn:Hw; try (apply MvControl; by try done).
    pose proof (next_pass_cases now (sy_state s)) as Hn.
    destruct (next_pass now (sy_state s)) as [[work st'| |]|];
      try (apply MvControl; cbn; rewrite ?Hw; by try done).
    destruct Hn as [Hn|(Hr & Hq & Hc & Hnb)].
    + destruct (take_next_batch _ _ _ Hn) as (id & batch & ->). eapply MvBatch; eauto.
    + apply MvControl; try done; cbn; [|by rewrite Hw]. destruct work; try apply app_nil_r. by destruct (Hnb task_id writes).
  - destruct (sy_worker s) eqn:Hw; apply MvControl; cbn; rewrite ?Hw; by try done.
  - destruct (sy_worker s) eqn:Hw; try (apply MvControl; by try done).
    unfold next_timed_out. destruct (take_next (sy_state s)) as [[work st']|] eqn:Hn.
    + destruct (take_next_batch _ _ _ Hn) as (id & batch & ->). eapply MvBatch; eauto.
    + apply MvControl; cbn; rewrite ?Hw; by try done.
  - destruct (sy_worker s) as [| |work| |] eqn:Hw; try (apply MvControl; by try done).
    destruct work; apply MvControl; cbn; rewrite ?Hw; by try done.
  - destruct (sy_worker s) eqn:Hw; try (apply MvControl; by try done). by eapply MvFail; eauto.
Qed.

(** *** The accounts in every execution *)

Lemma new_accounted : accounted new.
Proof.
  split; cbn; try done; try (by intros ? ?).
  - intros id. rewrite lookup_empty. split; [by intros ?%not_elem_of_nil|by intros [? ?]].
  - constructor.
Qed.

Lemma fail_all_accounted st : accounted st -> accounted (fail_all st).2.
Proof.
  intros Hac. pose proof new_accounted as [? ? ? ? ? ? ? _ _ _]. pose proof (ac_task_peak _ Hac) as Hp.
  split; cbn in *; try done. pose proof (ac_peak _ Hac).
  assert (0 <= global_stream_bytes st); [|lia]. rewrite (ac_stream _ Hac). apply map_sum_nonneg. intros j t Ht.
  rewrite (to_stream _ _ (ac_tasks _ Hac j t Ht)). apply list_sum_stream_nonneg.
Qed.

Lemma moved_accounted op s s' : moved op s s' -> accounted (sy_state s) -> accounted (sy_state s').
Proof.
  intros [Hq _ _ _ _ _|w r now _ _ Hcap _ _ ->|id batch st _ Hn ->|_ ->] Hac; cbn.
  - by eapply same_queues_accounted.
  - by apply enqueue_accounted.
  - destruct (ready (sy_state s)) as [|id' r] eqn:Hr; [unfold take_next in Hn; by rewrite Hr in Hn|].
    destruct (take_next_spec _ _ _ Hac Hr) as (b & rest & st' & Hn' & Hac' & _). congruence.
  - by apply fail_all_accounted.
Qed.

(** Every reachable system satisfies what each step keeps. *)
Lemma run_invariant (P : System -> Prop) s ops :
  (forall s op, P s -> P (exec s op)) -> P s -> P (run ops s).
Proof. intros Hstep. unfold run. revert s. induction ops as [|op ops IH]; cbn; auto. Qed.

Lemma run_accounted ops s : accounted (sy_state s) -> accounted (sy_state (run ops s)).
Proof. intros Hs. apply run_invariant with (P := fun s => accounted (sy_state s)); [|done].
  intros s' op. eapply moved_accounted, exec_moved. Qed.

(** C38. In every execution the queues stay within their capacities: at most
    2 MiB of stream writes for a Task, 8 MiB and 64 control writes in all; the
    counters are exact and the reported high-water marks bound them. *)
Theorem queues_are_bounded ops id :
  let st := sy_state (run ops start) in
  list_sum stream_size (task_writes st id) <= PER_TASK_STREAM_BYTE_CAPACITY
  /\ global_stream_bytes st = map_sum (fun t => list_sum stream_size (pt_writes t)) (pending st)
  /\ global_control_writes st = map_sum (fun t => list_sum control_size (pt_writes t)) (pending st)
  /\ global_control_writes st <= CONTROL_CAPACITY
  /\ list_sum stream_size (task_writes st id) <= (metrics st).2 <= PER_TASK_STREAM_BYTE_CAPACITY
  /\ global_stream_bytes st <= (metrics st).1 <= GLOBAL_STREAM_BYTE_CAPACITY.
Proof.
  intros st. pose proof (run_accounted ops start new_accounted) as Hac. fold st in Hac.
  pose proof (ac_task_peak _ Hac) as Hpk. unfold metrics, task_writes. cbn [fst snd].
  split_and!; try apply (ac_peak _ Hac); try lia.
  - destruct (pending st !! id) as [t|] eqn:Ht; [|done].
    destruct (ac_tasks _ Hac id t Ht) as [_ _ <- _ Hb]. done.
  - rewrite (ac_stream _ Hac). apply map_sum_ext. intros k t Ht. apply (to_stream _ _ (ac_tasks _ Hac k t Ht)).
  - rewrite (ac_control _ Hac). apply map_sum_ext. intros k t Ht. apply (to_control _ _ (ac_tasks _ Hac k t Ht)).
  - apply (ac_control_bound _ Hac).
  - destruct (pending st !! id) as [t|] eqn:Ht; [|cbn; lia].
    rewrite <- (to_stream _ _ (ac_tasks _ Hac id t Ht)). by apply (ac_below_peak _ Hac id).
Qed.

(** ** Order and loss *)

Abbreviation of_task id := (fun q => w_task_id (qw_write q) = id).

(** The writes of a Task in one lane. *)
Definition lane_of (lane : Lane) (id : string) (l : list QueuedWrite) : list QueuedWrite :=
  filter (in_lane lane) (filter (of_task id) l).

#[local] Arguments lane_of : simpl never.

Definition dispatched_writes (s : System) : list QueuedWrite := sy_dispatched s ≫= snd.

Lemma lane_of_app lane id l k : lane_of lane id (l ++ k) = lane_of lane id l ++ lane_of lane id k.
Proof. unfold lane_of. by rewrite !filter_app. Qed.

Lemma lane_of_own lane id l : (forall q, q ∈ l -> w_task_id (qw_write q) = id) -> lane_of lane id l = filter (in_lane lane) l.
Proof. intros Hl. unfold lane_of. by rewrite (filter_all (of_task id)). Qed.

Lemma lane_of_other lane id id' l :
  (forall q, q ∈ l -> w_task_id (qw_write q) = id') -> id <> id' -> lane_of lane id l = [].
Proof.
  intros Hl Hne. unfold lane_of. rewrite (filter_none (of_task id)); [done|].
  intros q Hq. rewrite (Hl q Hq). by intros ->.
Qed.

Lemma task_writes_owner st id q : accounted st -> q ∈ task_writes st id -> w_task_id (qw_write q) = id.
Proof.
  intros Hac. unfold task_writes. destruct (pending st !! id) as [t|] eqn:Ht; [|by intros ?%not_elem_of_nil].
  apply (to_owner _ _ (ac_tasks _ Hac id t Ht)).
Qed.

(** [fail_all] fails exactly the queued writes of each Task. *)
Lemma fail_all_lane lane id st :
  accounted st -> lane_of lane id (fail_all st).1.1 = filter (in_lane lane) (task_writes st id).
Proof.
  intros Hac. cbn.
  assert (forall k t, (k, t) ∈ map_to_list (pending st) ->
            forall q, q ∈ pt_writes t -> w_task_id (qw_write q) = k) as Hown.
  { intros k t Hk%elem_of_map_to_list. apply (to_owner _ _ (ac_tasks _ Hac k t Hk)). }
  pose proof (NoDup_fst_map_to_list (pending st)) as Hnd.
  assert (forall l, NoDup l.*1 -> (forall k t, (k, t) ∈ l -> forall q, q ∈ pt_writes t -> w_task_id (qw_write q) = k) ->
    lane_of lane id (l ≫= fun kt => pt_writes kt.2)
    = filter (in_lane lane) (match (list_to_map l : gmap string PendingTask) !! id with Some t => pt_writes t | None => [] end)) as Hlist.
  { clear. induction l as [|[k t] l IH]; intros Hnd Hown; [done|]. cbn in Hnd. apply NoDup_cons in Hnd as [Hk Hnd].
    rewrite bind_cons, lane_of_app, IH; [|done|intros; eapply Hown; [by right|done]].
    rewrite list_to_map_cons. destruct (decide (k = id)) as [->|Hne].
    - rewrite lookup_insert_eq, lane_of_own by (apply Hown; left).
      rewrite not_elem_of_list_to_map_1 by done. apply app_nil_r.
    - rewrite lookup_insert_ne, (lane_of_other _ _ k) by (done || apply Hown; left). done. }
  etransitivity; [by apply Hlist|]. unfold task_writes. by rewrite list_to_map_to_list.
Qed.

Record ordered (s : System) : Prop := {
  or_lanes lane id :
    lane_of lane id (sy_admitted s)
    = lane_of lane id (dispatched_writes s) ++ lane_of lane id (sy_failed s)
      ++ filter (in_lane lane) (task_writes (sy_state s) id);
  or_failed : sy_failed s = [] \/ sy_worker s = Stopped /\ closed (sy_state s) = true;
  or_accounted : accounted (sy_state s);
}.

Lemma exec_ordered s op : ordered s -> ordered (exec s op).
Proof.
  intros [Hl Hf Hac]. pose proof (exec_moved s op) as Hmv.
  pose proof (moved_accounted _ _ _ Hmv Hac) as Hac'.
  destruct Hmv as [Hq Ha Hd Hfl Hst Hcl|w r now _ _ _ _ Hrf Hs'|id batch st Hw Hn Hs'|[work Hw] Hs'].
  - split; [|rewrite Hfl; naive_solver|done]. intros lane id. unfold dispatched_writes.
    rewrite Ha, Hd, Hfl, Hl. unfold task_writes. by injection Hq as -> _ _ _ _ _.
  - rewrite Hs' in *. destruct Hf as [Hf|[_ Hc]]; [|unfold refuses in Hrf; by rewrite Hc in Hrf].
    destruct (enqueue_effect (sy_state s) w r now) as (Hctl & Htw & _).
    split; cbn; [|by left|done]. intros lane id. rewrite lane_of_app, Hl, Htw, filter_app, Hf. cbn.
    unfold dispatched_writes. cbn. rewrite <- !app_assoc. do 3 f_equal. case_decide as Hid; [|unfold lane_of; cbn].
    + by apply lane_of_own; intros q ->%list_elem_of_singleton.
    + by rewrite decide_False by congruence.
  - rewrite Hs' in *. destruct Hf as [Hf|[Hst _]]; [|destruct Hw; congruence].
    destruct (ready (sy_state s)) as [|id' r] eqn:Hr; [unfold take_next in Hn; by rewrite Hr in Hn|].
    destruct (take_next_spec _ _ _ Hac Hr) as (b & rest & st' & Hn' & _ & Htk & Htw & _).
    simplify_eq. split; cbn; [|by left|done]. intros lane j. rewrite Hl, Hf, Htw. cbn.
    unfold dispatched_writes. cbn. rewrite bind_app, lane_of_app, <- app_assoc. cbn. rewrite app_nil_r. f_equal.
    change (lane_of lane j []) with (@nil QueuedWrite). cbn [app].
    assert (forall q, q ∈ batch -> w_task_id (qw_write q) = id) as Hown.
    { intros q Hq. apply (task_writes_owner _ _ _ Hac). rewrite (tk_perm _ _ _ Htk). apply elem_of_app. by left. }
    case_decide as Hj; [subst; by rewrite (tk_lane _ _ _ Htk), lane_of_own|].
    by rewrite (lane_of_other _ _ id).
  - rewrite Hs' in *. destruct Hf as [Hf|[Hst _]]; [|congruence].
    split; cbn -[fail_all]; [|by right|done].
    intros lane id. rewrite Hl, Hf. unfold dispatched_writes. cbn -[fail_all]. rewrite fail_all_lane by done.
    change (task_writes (fail_all (sy_state s)).2 id) with (@nil QueuedWrite). by rewrite filter_nil, app_nil_r.
Qed.

(** C9. No admitted write is lost, duplicated or overtaken: in every execution,
    for each Task and lane, the admitted writes are those handed to the worker,
    those failed by a dead worker and those still queued, in admission order.  A
    plain barrier is in both lanes, so all earlier writes of its Task precede
    it. *)
Theorem lanes_keep_order ops lane id :
  let s := run ops start in
  lane_of lane id (sy_admitted s)
  = lane_of lane id (dispatched_writes s) ++ lane_of lane id (sy_failed s)
    ++ filter (in_lane lane) (task_writes (sy_state s) id).
Proof.
  intros s. apply or_lanes. apply run_invariant; [apply exec_ordered|]. split; [done|by left|apply new_accounted].
Qed.

(** ** Fairness *)

Definition served (s : System) : list string := (sy_dispatched s).*1.

Lemma exec_serves s op :
  accounted (sy_state s) -> sy_worker (exec s op) <> Stopped \/ sy_worker s = Stopped ->
  exists d x, served (exec s op) = served s ++ d /\ ready (sy_state s) ++ x = d ++ ready (sy_state (exec s op)).
Proof.
  intros Hac Hrun. unfold served.
  destruct (exec_moved s op) as [Hq _ Hd _ _ _|w r now _ _ _ _ _ Hs'|id batch st _ Hn Hs'|[work Hw] Hs'].
  - exists [], []. rewrite Hd, !app_nil_r. injection Hq as _ -> _ _ _ _. done.
  - rewrite Hs'. destruct (enqueue_effect (sy_state s) w r now) as (_ & _ & x & Hx).
    exists [], x. cbn. by rewrite app_nil_r, Hx.
  - rewrite Hs'. destruct (ready (sy_state s)) as [|id' r] eqn:Hr; [unfold take_next in Hn; by rewrite Hr in Hn|].
    destruct (take_next_spec _ _ _ Hac Hr) as (b & rest & st' & Hn' & _ & _ & _ & Hrd & _). simplify_eq.
    eexists [id], _. cbn. rewrite fmap_app, Hrd. done.
  - rewrite Hs', Hw in Hrun. cbn in Hrun. naive_solver.
Qed.

(** The ready list up to a point of an execution and the Tasks served from
    there. *)
Lemma run_serves s ops :
  accounted (sy_state s) -> sy_worker (run ops s) <> Stopped ->
  exists d x, served (run ops s) = served s ++ d /\ ready (sy_state s) ++ x = d ++ ready (sy_state (run ops s)).
Proof.
  unfold run. revert s. induction ops as [|op ops IH]; intros s Hac Hrun; cbn in *.
  { exists [], []. by rewrite !app_nil_r. }
  assert (sy_worker (exec s op) <> Stopped) as Hlive.
  { intros Hst. apply Hrun. apply run_invariant with (P := fun s => sy_worker s = Stopped); [|done].
    intros s' op' Hs'. destruct (exec_moved s' op') as [_ _ _ _ Hk _|w r now _ _ _ _ _ ->|id batch st [Hw|Hw] _ _|[work Hw] _];
      auto; congruence. }
  destruct (exec_serves s op Hac) as (d1 & x1 & Hs1 & Hr1); [by left|].
  destruct (IH (exec s op)) as (d2 & x2 & Hs2 & Hr2);
    [by eapply moved_accounted; [apply exec_moved|]|done|].
  exists (d1 ++ d2), (x1 ++ x2). rewrite Hs2, Hs1, app_assoc. split; [done|].
  by rewrite app_assoc, Hr1, <- !app_assoc, Hr2.
Qed.

(** Ready Tasks are served in turn: whatever is admitted meanwhile, a Task
    with [n] others before it gets the batch after the next [n]. *)
Theorem tasks_served_in_turn ops ops' id n :
  let s := run ops start in let s' := run ops' s in
  ready (sy_state s) !! n = Some id -> sy_worker s' <> Stopped ->
  (length (served s) + n < length (served s'))%nat ->
  served s' !! (length (served s) + n)%nat = Some id.
Proof.
  intros s s' Hn Hrun Hlen.
  destruct (run_serves s ops') as (d & x & Hs & Hr); [by apply run_accounted, new_accounted|done|].
  fold s' in Hs, Hr. rewrite Hs, length_app in Hlen. rewrite Hs, lookup_app_r by lia.
  replace (_ + n - _)%nat with n by lia.
  assert ((d ++ ready (sy_state s')) !! n = Some id) as Hd.
  { rewrite <- Hr. by apply lookup_app_l_Some. }
  by rewrite lookup_app_l in Hd by lia.
Qed.

(** ** Exclusive control, and progress *)

(** What the worker may be doing in a state. *)
Record coherent (s : System) : Prop := {
  co_accounted : accounted (sy_state s);
  co_panic : sy_worker s <> Panicked;
  co_timed : sy_worker s = TimedWait -> ready (sy_state s) <> [];
  co_resetting : resetting (sy_state s) = true -> sy_worker s = Stopped \/ exists r, sy_worker s = Busy (Reset r);
  co_purging : purging (sy_state s) = true -> sy_worker s = Stopped \/ exists id r, sy_worker s = Busy (Purge id r);
  co_reset r : sy_worker s = Busy (Reset r) -> resetting (sy_state s) = true /\ ready (sy_state s) = [];
  co_purge id r : sy_worker s = Busy (Purge id r) -> purging (sy_state s) = true /\ ready (sy_state s) = [];
  co_batch id batch : sy_worker s = Busy (Batch id batch) -> batch <> [];
  co_closed : sy_worker s = Stopped \/ sy_worker s = Busy Closed \/ (exists r, sy_worker s = Busy (Shutdown r)) ->
    closed (sy_state s) = true /\ ready (sy_state s) = [];
}.

Lemma coherent_requests s f :
  (forall st, same_queues st (f st) /\ resetting (f st) = resetting st /\ purging (f st) = purging st
              /\ (closed st = true -> closed (f st) = true)) ->
  coherent s -> coherent (on_state f s).
Proof.
  intros Hf [Hac Hp Ht Hr Hpu Hbr Hbp Hbb Hcl]. destruct (Hf (sy_state s)) as (Hq & Hrs & Hpr & Hc).
  pose proof (same_queues_accounted _ _ Hq Hac). injection Hq as Hpend Hrdy _ _ _ _.
  split; cbn; rewrite ?Hrs, ?Hpr, ?Hrdy; auto. intros Hw. destruct (Hcl Hw). auto.
Qed.

Lemma coherent_admitted s w r now :
  has_capacity (sy_state s) w = true -> has_pending_exclusive_control (sy_state s) = false ->
  refuses (sy_state s) = false -> coherent s -> coherent (admitted w r now (enqueue w r now (sy_state s)) s).
Proof.
  intros Hcap Hex Hrf [Hac Hp Ht Hr Hpu Hbr Hbp Hbb Hcl].
  destruct (enqueue_effect (sy_state s) w r now) as (Hctl & _ & x & Hx). injection Hctl as _ Hrs _ Hps _ Hc.
  assert (resetting (sy_state s) = false /\ purging (sy_state s) = false /\ closed (sy_state s) = false) as (Hr0 & Hp0 & Hc0).
  { unfold has_pending_exclusive_control, refuses in *. rewrite !orb_false_iff in *. naive_solver. }
  split; cbn; rewrite ?Hrs, ?Hps, ?Hc, ?Hr0, ?Hp0, ?Hc0, ?Hx; try done.
  - by apply enqueue_accounted.
  - intros Hw He. apply (Ht Hw). by apply app_nil in He as [? _].
  - intros r' Hw. destruct (Hbr _ Hw). congruence.
  - intros id r' Hw. destruct (Hbp _ _ Hw). congruence.
  - intros Hw. destruct (Hcl Hw). congruence.
Qed.

Lemma coherent_batch s id batch st :
  sy_worker s = Looping \/ sy_worker s = TimedWait ->
  take_next (sy_state s) = Some (Batch id batch, st) -> coherent s -> coherent (returned (Batch id batch) st s).
Proof.
  intros Hw Hn [Hac Hp Ht Hr Hpu Hbr Hbp Hbb Hcl].
  destruct (ready (sy_state s)) as [|id' r] eqn:Hrd; [unfold take_next in Hn; by rewrite Hrd in Hn|].
  destruct (take_next_spec _ _ _ Hac Hrd) as (b & rest & st' & Hn' & Hac' & Htk & _ & _ & Hctl). simplify_eq.
  injection Hctl as _ Hrs _ Hps _ Hc.
  split; cbn; rewrite ?Hrs, ?Hps; try done.
  - intros Hr'. destruct (Hr Hr') as [?|[? ?]]; destruct Hw; congruence.
  - intros Hr'. destruct (Hpu Hr') as [?|(? & ? & ?)]; destruct Hw; congruence.
  - intros ? ? [= <- <-]. by apply Htk.
  - intros [?|[?|[? ?]]]; done.
Qed.

(** The pass of [next] on a state with nothing ready. *)
Lemma next_pass_idle now st :
  ready st = [] -> resetting st = false -> purging st = false ->
  next_pass now st =
    match reset_reply st, purge_reply st, shutdown_reply st with
    | Some r, _, _ => Some (Work (Reset r) (set_control None true (purge_reply st) false (shutdown_reply st) (closed st) st))
    | None, Some (id, r), _ => Some (Work (Purge id r) (set_control None false None true (shutdown_reply st) (closed st) st))
    | None, None, Some r => Some (Work (Shutdown r) (set_control None false None false None true st))
    | None, None, None => Some (if closed st then Work Closed st else Wait)
    end.
Proof.
  intros Hr Hrs Hps. unfold next_pass. rewrite Hr, Hrs, Hps.
  destruct (reset_reply st) as [r|] eqn:Hrr; [done|]. destruct (purge_reply st) as [[id r]|] eqn:Hpr; [done|].
  by destruct (shutdown_reply st).
Qed.

(** On a state with a ready Task it waits for a fuller batch or takes one. *)
Lemma next_pass_ready now st id r :
  accounted st -> ready st = id :: r ->
  (exists batch st', next_pass now st = Some (Work (Batch id batch) st') /\ take_next st = Some (Batch id batch, st'))
  \/ exists remaining, next_pass now st = Some (WaitTimeout remaining).
Proof.
  intros Hac Hr. destruct (take_next_spec _ _ _ Hac Hr) as (b & rest & st' & Hn & _).
  assert (is_Some (pending st !! id)) as [t Ht] by (apply (ac_ready _ Hac); rewrite Hr; left).
  unfold next_pass. rewrite Hr. unfold should_wait_for_batch. rewrite Ht. cbn. rewrite Hn. cbn.
  destruct (pt_writes t) as [|q ws] eqn:Hw; [by destruct (to_nonempty _ _ (ac_tasks _ Hac id t Ht))|].
  cbn. destruct (_ && _); [|left; eauto]. split_test; [right; eauto|left; eauto].
Qed.

(** A worker in [next] is in no exclusive work. *)
Lemma waiting_flags s :
  coherent s -> sy_worker s = Looping \/ sy_worker s = TimedWait ->
  resetting (sy_state s) = false /\ purging (sy_state s) = false.
Proof.
  intros Hco Hw. split; apply not_true_is_false; intros Hx.
  - destruct (co_resetting _ Hco Hx) as [?|[? ?]]; destruct Hw; congruence.
  - destruct (co_purging _ Hco Hx) as [?|(? & ? & ?)]; destruct Hw; congruence.
Qed.

(** Case analysis on the premise of [co_closed]. *)
Ltac no_stop := by intros [?|[?|[? ?]]].

Lemma coherent_waiting s w :
  coherent s -> sy_worker s = Looping \/ sy_worker s = TimedWait ->
  w = Looping \/ w = TimedWait /\ ready (sy_state s) <> [] -> coherent (on_worker w s).
Proof.
  intros Hco Hw Hw'. destruct (waiting_flags _ Hco Hw) as [Hr Hp]. pose proof (co_accounted _ Hco).
  destruct Hw' as [->|[-> Hne]]; split; cbn; rewrite ?Hr, ?Hp; try done; no_stop.
Qed.

Lemma coherent_next s now : coherent s -> coherent (exec s (OpNext now)).
Proof.
  intros Hco. cbn. destruct (sy_worker s) eqn:Hw; try done. pose proof (co_accounted _ Hco) as Hac.
  destruct (waiting_flags s Hco) as [Hr0 Hp0]; [by left|].
  destruct (ready (sy_state s)) as [|id r] eqn:Hrd.
  - rewrite next_pass_idle by done.
    destruct (reset_reply _);
      [|destruct (purge_reply _) as [[? ?]|]; [|destruct (shutdown_reply _)]];
      [| | |destruct (closed (sy_state s)) eqn:Hc; [|done]];
      split; cbn; rewrite ?Hr0, ?Hp0; try done; try (by apply (same_queues_accounted (sy_state s))); eauto; no_stop.
  - destruct (next_pass_ready now _ _ _ Hac Hrd) as [(batch & st' & -> & Hn)|[rem ->]].
    + by apply coherent_batch; [left| |].
    + apply coherent_waiting; [done|by left|right]. by rewrite Hrd.
Qed.

Lemma exec_coherent s op : coherent s -> coherent (exec s op).
Proof.
  intros Hco. destruct op as [w r now|w r now|r|r|id r| |now| | | |].
  - cbn. destruct (scheduler_admit w r now (sy_state s)) as [[[[]|e] st]|] eqn:Ha; try done.
    apply admit_cases in Ha as (? & ? & ? & ? & ->). by apply coherent_admitted.
  - cbn. destruct (try_admit w r now (sy_state s)) as [[[w'|]|e] st] eqn:Ha; try done.
    apply try_admit_cases, admit_cases in Ha as (? & ? & ? & ? & ->). by apply coherent_admitted.
  - apply coherent_requests; [|done]. intros st. unfold request_shutdown. by destruct (refuses st).
  - apply coherent_requests; [|done]. intros st. unfold request_reset. by destruct (_ || _).
  - apply coherent_requests; [|done]. intros st. unfold request_purge. by destruct (_ || _).
  - by apply coherent_requests.
  - by apply coherent_next.
  - cbn. destruct (sy_worker s) eqn:Hw; try done. apply coherent_waiting; auto.
  - cbn. destruct (sy_worker s) eqn:Hw; try done. pose proof (co_timed _ Hco Hw) as Hne.
    destruct (ready (sy_state s)) as [|id r] eqn:Hrd; [done|].
    destruct (take_next_spec _ _ _ (co_accounted _ Hco) Hrd) as (b & rest & st' & Hn & _).
    unfold next_timed_out. rewrite Hn. by apply coherent_batch; [right| |].
  - cbn. destruct (sy_worker s) as [| |work| |] eqn:Hw; try done.
    destruct Hco as [Hac Hp Ht Hr Hpu Hbr Hbp Hbb Hcl].
    destruct work; split; cbn; try done; try (by apply (same_queues_accounted (sy_state s))); try no_stop; try (by left);
      try (intros Hx; first [destruct (Hr Hx) as [?|[? ?]]|destruct (Hpu Hx) as [?|(? & ? & ?)]]; congruence);
      intros _; apply Hcl; eauto.
  - cbn -[fail_all]. destruct (sy_worker s) eqn:Hw; try done. destruct Hco as [Hac Hp Ht Hr Hpu Hbr Hbp Hbb Hcl].
    split; cbn; try done; [by apply fail_all_accounted|by left|by left].
Qed.

Lemma run_coherent ops : coherent (run ops start).
Proof.
  apply run_invariant; [apply exec_coherent|]. pose proof new_accounted. split; cbn; try done; naive_solver.
Qed.

Lemma nothing_ready st : accounted st -> ready st = [] -> pending st = ∅.
Proof.
  intros Hac Hr. apply map_empty. intros id. apply eq_None_not_Some. rewrite <- (ac_ready _ Hac), Hr.
  apply not_elem_of_nil.
Qed.

(** A reset or a purge runs alone: while the worker is in one, no write is
    queued and none can be admitted.  The worker never panics in the scheduler,
    and the batches it is handed are not empty. *)
Theorem exclusive_control_is_alone ops :
  let s := run ops start in
  sy_worker s <> Panicked
  /\ (forall id batch, sy_worker s = Busy (Batch id batch) -> batch <> [])
  /\ (forall work, sy_worker s = Busy work -> (exists r, work = Reset r) \/ (exists id r, work = Purge id r) ->
       pending (sy_state s) = ∅
       /\ forall w r now st, scheduler_admit w r now (sy_state s) <> Some (Ok tt, st)
                             /\ try_admit w r now (sy_state s) <> (Ok None, st)).
Proof.
  intros s. pose proof (run_coherent ops) as Hco. fold s in Hco.
  split_and!; [apply (co_panic _ Hco)|apply (co_batch _ Hco)|]. intros work Hw Hk.
  assert (ready (sy_state s) = [] /\ has_pending_exclusive_control (sy_state s) = true) as [Hr Hex].
  { unfold has_pending_exclusive_control.
    destruct Hk as [[r ->]|(id & r & ->)].
    - destruct (co_reset _ Hco _ Hw) as [-> ->]. by rewrite orb_true_r.
    - destruct (co_purge _ Hco _ _ Hw) as [-> ->]. by rewrite orb_true_r. }
  split; [by apply nothing_ready; [apply Hco|]|]. intros w r now st.
  split; [intros Ha|intros Ha%try_admit_cases]; apply admit_cases in Ha; destruct Ha as (_ & _ & Ha & _); congruence.
Qed.

(** C39. No caller waits for ever.  When the worker blocks without a timeout,
    nothing is queued or requested and every write of a valid size is admitted at
    once; when the worker has stopped, every admitted write was handed to it or
    failed, and further writes are refused. *)
Theorem no_caller_waits_forever ops :
  let s := run ops start in
  (forall now w r now', sy_worker s = Looping -> next_pass now (sy_state s) = Some Wait ->
     pending (sy_state s) = ∅ /\ reset_reply (sy_state s) = None /\ purge_reply (sy_state s) = None
     /\ shutdown_reply (sy_state s) = None
     /\ (validate_write_size w = Ok tt -> exists st, scheduler_admit w r now' (sy_state s) = Some (Ok tt, st)))
  /\ (sy_worker s = Stopped ->
      (forall lane id, lane_of lane id (sy_admitted s)
         = lane_of lane id (dispatched_writes s) ++ lane_of lane id (sy_failed s))
      /\ forall w r now, exists e, scheduler_admit w r now (sy_state s) = Some (Err e, sy_state s)).
Proof.
  intros s. pose proof (run_coherent ops) as Hco. fold s in Hco. pose proof (co_accounted _ Hco) as Hac. split.
  - intros now w r now' Hw Hp. destruct (waiting_flags _ Hco) as [Hr0 Hp0]; [by left|].
    destruct (ready (sy_state s)) as [|id rd] eqn:Hrd.
    2: { destruct (next_pass_ready now _ _ _ Hac Hrd) as [(? & ? & ? & _)|[? ?]]; congruence. }
    rewrite next_pass_idle in Hp by done.
    destruct (reset_reply _) eqn:Hrr; [done|]. destruct (purge_reply _) as [[? ?]|] eqn:Hpr; [done|].
    destruct (shutdown_reply _) eqn:Hsr; [done|]. destruct (closed (sy_state s)) eqn:Hc; [done|].
    pose proof (nothing_ready _ Hac Hrd) as Hpd. split_and!; try done. intros Hv.
    eexists. apply admit_cases. split_and!; try done.
    + unfold has_capacity. pose proof (ac_stream _ Hac) as Hgs. pose proof (ac_control _ Hac) as Hgc.
      rewrite Hpd, map_sum_empty in Hgs, Hgc. rewrite Hgs, Hgc, Hpd, lookup_empty.
      unfold validate_write_size in Hv. destruct (w_boundary w); cbn [is_stream andb] in Hv; try done;
        destruct (bool_decide_reflect (PER_TASK_STREAM_BYTE_CAPACITY < estimated_bytes w)) as [|Hle]; try done;
        apply andb_true_intro; split; apply bool_decide_eq_true_2;
        unfold u64_saturating_sub, PER_TASK_STREAM_BYTE_CAPACITY, GLOBAL_STREAM_BYTE_CAPACITY in *; lia.
    + unfold has_pending_exclusive_control. by rewrite Hrr, Hpr, Hr0, Hp0.
    + unfold refuses. by rewrite Hc, Hsr.
  - intros Hw. destruct (co_closed _ Hco) as [Hc Hrd]; [by left|].
    pose proof (nothing_ready _ Hac Hrd) as Hpd. split.
    + intros lane id. assert (ordered s) as Ho.
      { apply run_invariant; [apply exec_ordered|]. split; [done|by left|apply new_accounted]. }
      rewrite (or_lanes _ Ho). unfold task_writes. rewrite Hpd, lookup_empty. by rewrite filter_nil, app_nil_r.
    + intros w r now. unfold scheduler_admit, must_wait, refuses. rewrite Hc. cbn. destruct (validate_write_size w); eauto.
Qed.

(** ** The shape of a batch *)

Abbreviation streams l := (filter (fun q => is_stream (w_bound q) = true) l).

(** The limits of a batch, which one write alone may exceed. *)
Definition within_limits (l : list QueuedWrite) : Prop :=
  (length l <= 1)%nat \/ list_sum w_bytes l <= MAX_BATCH_BYTES /\ list_sum w_ops l <= MAX_BATCH_OPERATIONS.

Record batch_ok (batch : list QueuedWrite) : Prop := {
  bo_last : forall before q after, batch = before ++ q :: after -> is_stream (w_bound q) = false -> after = [];
  bo_limits : within_limits (streams batch);
  bo_kind : forall q q', q ∈ batch -> q' ∈ batch -> is_subagent (qw_write q) = is_subagent (qw_write q');
}.

(** What the writes satisfy by construction: a [Vec] has less than [2 ^ 62]
    elements of more than one byte, text writes are no Subagent writes; and what
    admission checks. *)
Record constructed (w : TaskWrite) : Prop := {
  cw_ops : 0 <= operation_count w < 2 ^ 62;
  cw_text : w_boundary w = TextStream \/ w_boundary w = TextBarrier -> is_subagent w = false;
}.
Record queueable (q : QueuedWrite) : Prop := {
  qb_constructed : constructed (qw_write q);
  qb_size : is_stream (w_bound q) = true -> w_bytes q <= PER_TASK_STREAM_BYTE_CAPACITY;
}.

(** The selection so far: stream writes only, and the exact totals. *)
Record collecting (batch : list QueuedWrite) (bytes operations : Z) : Prop := {
  cl_streams q : q ∈ batch -> is_stream (w_bound q) = true;
  cl_bytes : bytes = list_sum w_bytes batch;
  cl_ops : operations = list_sum w_ops batch;
  cl_limits : within_limits batch;
  cl_small : 0 <= bytes <= PER_TASK_STREAM_BYTE_CAPACITY /\ 0 <= operations < 2 ^ 62;
  cl_kind q q' : q ∈ batch -> q' ∈ batch -> is_subagent (qw_write q) = is_subagent (qw_write q');
}.

Lemma collecting_snoc batch bytes operations q :
  collecting batch bytes operations -> queueable q -> is_stream (w_bound q) = true ->
  (forall first, first ∈ batch -> is_subagent (qw_write first) = is_subagent (qw_write q)) ->
  batch = [] \/ ~ MAX_BATCH_BYTES < u64_add bytes (w_bytes q) /\ ~ MAX_BATCH_OPERATIONS < u64_add operations (w_ops q) ->
  collecting (batch ++ [q]) (u64_add bytes (w_bytes q)) (u64_add operations (w_ops q)).
Proof.
  intros [Hs Hb Ho Hl [Hsb Hso] Hk] [[Hqo _] Hqs] Hq Hkq Hfit. specialize (Hqs Hq).
  pose proof (w_bytes_u64 q) as Hq0. unfold is_u64 in Hq0. change (operation_count (qw_write q)) with (w_ops q) in Hqo.
  unfold PER_TASK_STREAM_BYTE_CAPACITY in *.
  assert (u64_add bytes (w_bytes q) = bytes + w_bytes q) as Hab
    by (apply u64_add_small; unfold is_u64, u64_modulus; lia).
  assert (u64_add operations (w_ops q) = operations + w_ops q) as Hao
    by (apply u64_add_small; unfold is_u64, u64_modulus; lia).
  rewrite Hab, Hao in *. unfold MAX_BATCH_BYTES, MAX_BATCH_OPERATIONS in *.
  split; rewrite ?list_sum_app; cbn; try lia.
  - intros q' [Hq'|Hq'%list_elem_of_singleton]%elem_of_app; subst; auto.
  - destruct Hfit as [->|[Hfb Hfo]]; [by left|right]. rewrite !list_sum_app. cbn.
    unfold MAX_BATCH_BYTES, MAX_BATCH_OPERATIONS. lia.
  - destruct Hfit as [->|[Hfb Hfo]]; cbn in *; unfold PER_TASK_STREAM_BYTE_CAPACITY; lia.
  - intros q1 q2 [H1|H1%list_elem_of_singleton]%elem_of_app [H2|H2%list_elem_of_singleton]%elem_of_app; subst; auto.
    symmetry. auto.
Qed.

Lemma snoc_streams batch q : (forall q, q ∈ batch -> is_stream (w_bound q) = true) ->
  streams (batch ++ [q]) = batch ++ streams [q].
Proof. intros Hs. by rewrite filter_app, (filter_all _ batch). Qed.

(** A selection is a batch, alone or closed by a control write. *)
Lemma collecting_batch batch bytes operations : collecting batch bytes operations -> batch_ok batch.
Proof.
  intros [Hs _ _ Hl _ Hk]. split; [|by rewrite filter_all|done].
  intros before q after -> Hq. rewrite (Hs q) in Hq; [done|]. apply elem_of_app. right. left.
Qed.

Lemma collecting_close batch bytes operations q :
  collecting batch bytes operations -> is_stream (w_bound q) = false ->
  (forall first, first ∈ batch -> is_subagent (qw_write first) = is_subagent (qw_write q)) ->
  batch_ok (batch ++ [q]).
Proof.
  intros [Hs _ _ Hl _ Hk] Hq Hkq. split.
  - intros before q' after He Hq'. destruct after as [|x after _] using rev_ind; [done|].
    rewrite app_comm_cons, app_assoc in He. apply app_inj_tail in He as [He _].
    rewrite (Hs q') in Hq'; [done|]. rewrite He. apply elem_of_app. right. left.
  - rewrite snoc_streams by done. rewrite filter_cons_False by (rewrite Hq; done). by rewrite filter_nil, app_nil_r.
  - intros q1 q2 [H1|H1%list_elem_of_singleton]%elem_of_app [H2|H2%list_elem_of_singleton]%elem_of_app; subst; auto.
    symmetry. auto.
Qed.

Lemma take_loop_batch_ok ws batch bytes operations c :
  (forall q, q ∈ ws -> queueable q) -> collecting batch bytes operations ->
  batch_ok (take_loop ws batch bytes operations c).1.1.
Proof.
  revert batch bytes operations c. induction ws as [|q ws IH]; intros batch bytes operations c Hws Hcl; cbn.
  { by eapply collecting_batch. }
  destruct (stops_before _ _ _ _) eqn:Hstop; [by eapply collecting_batch|].
  assert ((forall first, first ∈ batch -> is_subagent (qw_write first) = is_subagent (qw_write q)) /\
    (batch = [] \/ ~ MAX_BATCH_BYTES < u64_add bytes (w_bytes q) /\ ~ MAX_BATCH_OPERATIONS < u64_add operations (w_ops q)))
    as [Hk Hfit].
  { destruct batch as [|first batch]; [split; [by intros ? ?%not_elem_of_nil|by left]|]. cbn in Hstop.
    rewrite !orb_false_iff, !bool_decide_eq_false in Hstop. destruct Hstop as [[Hx Hb] Ho]. split; [|by right].
    intros x Hin. rewrite (cl_kind _ _ _ Hcl x first) by (done || left). by apply xorb_eq. }
  destruct (is_stream (w_bound q)) eqn:Hq.
  - apply IH; [intros; apply Hws; by right|]. apply collecting_snoc; auto. apply Hws. left.
  - by eapply collecting_close.
Qed.

Lemma select_text_batch_ok ws batch retained bytes operations :
  (forall q, q ∈ ws -> queueable q) -> collecting batch bytes operations ->
  (forall q, q ∈ batch -> is_subagent (qw_write q) = false) ->
  batch_ok (select_text ws batch retained bytes operations false false).1.
Proof.
  revert batch retained bytes operations. induction ws as [|q ws IH]; intros batch retained bytes operations Hws Hcl Hsub; cbn.
  { by eapply collecting_batch. }
  assert (forall x, x ∈ ws -> queueable x) as Hws' by (intros; apply Hws; by right).
  assert (queueable q) as Hq by (apply Hws; left).
  destruct (w_bound q) eqn:Hb; [by apply IH| | |by apply IH].
  - assert (is_subagent (qw_write q) = false) as Hqs by (apply (qb_constructed _ Hq); by left).
    destruct (negb _ && _) eqn:Hfull.
    + rewrite select_text_stopped by done. by eapply collecting_batch.
    + apply IH; [done| |set_solver]. apply collecting_snoc; try done.
      * by rewrite Hb.
      * intros first Hf. by rewrite Hqs, Hsub.
      * destruct (bool_decide_reflect (batch = [])); [by left|right]. cbn in Hfull.
        by rewrite orb_false_iff, !bool_decide_eq_false in Hfull.
  - rewrite select_text_stopped by done.
    assert (is_subagent (qw_write q) = false) as Hqs by (apply (qb_constructed _ Hq); by right).
    eapply collecting_close; [done|by rewrite Hb|]. intros first Hf. by rewrite Hqs, Hsub.
Qed.

Lemma collecting_nil : collecting [] 0 0.
Proof. split; cbn; try done; [by intros ? ?%not_elem_of_nil|left; cbn; lia|by intros ? ? ?%not_elem_of_nil]. Qed.

Lemma take_next_batch_ok st id batch st' :
  (forall q, q ∈ task_writes st id -> queueable q) -> take_next st = Some (Batch id batch, st') -> batch_ok batch.
Proof.
  intros Hq Hn. unfold take_next in Hn. destruct (ready st) as [|id' r]; [done|].
  unfold take_batch, take_text_barrier_batch in Hn. cbn [pending set_queues] in Hn.
  destruct (bool_decide _), (pending st !! id') as [t|] eqn:Ht; cbn in Hn; try done.
  - destruct (select_text _ _ _ _ _ _ _) as [selected retained] eqn:Hsel. cbn in Hn. simplify_eq.
    replace batch with (select_text (pt_writes t) [] [] 0 0 false false).1 by (by rewrite Hsel).
    apply select_text_batch_ok; [|apply collecting_nil|by intros ? ?%not_elem_of_nil].
    unfold task_writes in Hq. by rewrite Ht in Hq.
  - destruct (take_loop _ _ _ _ _) as [[b rest] c] eqn:Htake. cbn in Hn. simplify_eq.
    match type of Htake with take_loop _ _ _ _ ?c0 = _ =>
      replace batch with (take_loop (pt_writes t) [] 0 0 c0).1.1 by (by rewrite Htake) end.
    apply take_loop_batch_ok; [|apply collecting_nil]. unfold task_writes in Hq. by rewrite Ht in Hq.
Qed.

Definition op_constructed (op : Op) : Prop :=
  match op with OpAdmit w _ _ | OpTryAdmit w _ _ => constructed w | _ => True end.

Record shaped (s : System) : Prop := {
  sh_accounted : accounted (sy_state s);
  sh_queued id q : q ∈ task_writes (sy_state s) id -> queueable q;
  sh_dispatched id batch : (id, batch) ∈ sy_dispatched s -> batch_ok batch;
}.

Lemma exec_shaped s op : op_constructed op -> shaped s -> shaped (exec s op).
Proof.
  intros Hop [Hac Hq Hd]. pose proof (exec_moved s op) as Hmv. pose proof (moved_accounted _ _ _ Hmv Hac) as Hac'.
  destruct Hmv as [Hsq _ Hds _ _ _|w r now Hw Hv _ _ _ Hs'|id batch st _ Hn Hs'|_ Hs'].
  - split; [done| |by rewrite Hds]. intros id q. unfold task_writes. injection Hsq as -> _ _ _ _ _. apply Hq.
  - assert (constructed w) by (by destruct Hw; subst op). rewrite Hs' in *. split; [done| |done]. cbn.
    intros id q. destruct (enqueue_effect (sy_state s) w r now) as (_ & -> & _).
    intros [Hin|Hin]%elem_of_app; [by eapply Hq|]. case_decide; [|by apply not_elem_of_nil in Hin].
    apply list_elem_of_singleton in Hin as ->. split; [done|]. intros Hs. change (w_bound _) with (w_boundary w) in Hs.
    unfold validate_write_size in Hv. rewrite Hs in Hv. cbn [andb] in Hv.
    change (w_bytes _) with (estimated_bytes w). split_test; [done|lia].
  - rewrite Hs' in *.
    destruct (ready (sy_state s)) as [|id' r] eqn:Hr; [unfold take_next in Hn; by rewrite Hr in Hn|].
    destruct (take_next_spec _ _ _ Hac Hr) as (b & rest & st' & Hn' & _ & Htk & Htw & _).
    simplify_eq. split; cbn; [done| |].
    + intros j q. rewrite Htw. case_decide; [|apply Hq]. intros Hin. apply (Hq id).
      rewrite (tk_perm _ _ _ Htk). apply elem_of_app. by right.
    + intros j b' [Hin|Hin%list_elem_of_singleton]%elem_of_app; [by eapply Hd|]. simplify_eq.
      eapply take_next_batch_ok; [apply Hq|done].
  - rewrite Hs' in *. split; cbn -[fail_all]; [done| |done]. intros id q Hin.
    change (task_writes (fail_all (sy_state s)).2 id) with (@nil QueuedWrite) in Hin. by apply not_elem_of_nil in Hin.
Qed.

(** Every batch handed to the worker holds one kind of write (Task or
    Subagent), a control write only at its end, and stream writes that respect
    the byte and operation limits unless there is only one. *)
Theorem batches_are_limited ops id batch :
  Forall op_constructed ops -> (id, batch) ∈ sy_dispatched (run ops start) -> batch_ok batch.
Proof.
  intros Hops. assert (shaped (run ops start)) as Hs; [|apply (sh_dispatched _ Hs)].
  assert (shaped start) as Hst.
  { split; [apply new_accounted| |by intros ? ? ?%not_elem_of_nil]. intros j q Hq. by apply not_elem_of_nil in Hq. }
  revert Hst. unfold run. generalize start. induction Hops as [|op ops Hop Hops IH]; intros s Hs; cbn; [done|].
  apply IH. by apply exec_shaped.
Qed.
End Scheduler.

Module SchedulerWitness.
#[global] Instance no_json : Json (CP := ChatWitness.string_chat) :=
  {| task_vec _ := None; projection_vec _ := None; meta_vec _ := None; stored_vec _ := None; stored_list_vec _ := None;
     details_vec _ := None; message_vec _ := None; plan_vec _ := None |}.

Definition text (id : string) : TaskWrite := stream_append_text id "m" "b" "2".
Definition output (id : string) : TaskWrite := stream_append_terminal id "out" "term" "x".

(** Text of [a] and [b], Tool output and a text barrier of [a]. *)
Definition admissions : list Op :=
  [OpAdmit (text "a") 1 0; OpAdmit (text "b") 2 0; OpTryAdmit (output "a") 3 0;
   OpAdmit (mkWrite "a" TextBarrier [] [] CompactNone None) 4 0].
Definition cycle : list Op := [OpNext 0; OpDone].

Lemma tasks_served_in_turn_witness :
  served (run (cycle ++ cycle) (run admissions start)) !! (length (served (run admissions start)) + 1)%nat = Some "b"%string.
Proof.
  apply (tasks_served_in_turn admissions (cycle ++ cycle) "b" 1);
    [vm_compute; reflexivity|vm_compute; discriminate|vm_compute; lia].
Defined.

Lemma batches_are_limited_witness :
  exists batch, (sy_dispatched (run (admissions ++ cycle) start)) !! 0%nat = Some ("a"%string, batch) /\ batch_ok batch.
Proof.
  destruct (sy_dispatched (run (admissions ++ cycle) start) !! 0%nat) as [[id batch]|] eqn:E;
    [|vm_compute in E; discriminate E].
  exists batch. assert (id = "a"%string) as -> by (vm_compute in E; congruence). split; [reflexivity|].
  apply (batches_are_limited (admissions ++ cycle) "a").
  - unfold admissions, cycle. cbn [app]. rewrite !Forall_cons. split_and!; try exact I; [..|apply Forall_nil_2];
      (split; [vm_compute; split; congruence|intros; reflexivity]).
  - apply list_elem_of_lookup_2 with (i := 0%nat). exact E.
Defined.

(** The text barrier passes the Tool output, which stays queued. *)
Example text_barrier_keeps_output :
  map (fun b => (b.1, map qw_reply b.2)) (sy_dispatched (run (admissions ++ cycle ++ cycle ++ cycle) start))
  = [("a"%string, [1; 4]); ("b"%string, [2])]
  /\ sy_worker (run (admissions ++ cycle ++ cycle ++ cycle) start) = TimedWait.
Proof. split; vm_compute; reflexivity. Qed.

(** A reset waits for the queues to drain and keeps writes out meanwhile. *)
Lemma exclusive_control_is_alone_witness :
  pending (sy_state (run (admissions ++ OpReset 9 :: cycle ++ cycle ++ [OpNext 0; OpTimedOut; OpDone; OpNext 40]) start)) = ∅.
Proof.
  set (ops := (admissions ++ _)).
  destruct (exclusive_control_is_alone ops) as (_ & _ & Hex).
  apply (Hex (Reset 9)); [vm_compute; reflexivity|left; eauto].
Defined.

Lemma no_caller_waits_forever_witness :
  pending (sy_state (run [] start)) = ∅
  /\ forall lane id, lane_of lane id (sy_admitted (run [OpClose; OpNext 0; OpDone] start)) = [].
Proof.
  split.
  - apply (proj1 (no_caller_waits_forever []) 0 (text "a") 0 0); vm_compute; reflexivity.
  - intros lane id. rewrite (proj1 (proj2 (no_caller_waits_forever [OpClose; OpNext 0; OpDone]) eq_refl)). reflexivity.
Defined.
End SchedulerWitness.
