(* ===== verification/Mutation.v ===== *)
(** * Task mutations

    Models [openaide-rs/app-server/src/tasks/mutation.rs] with its modules
    [observed_timing], [message_lookup], [commit], [commit/journal_operations]
    and [commit/native_session_binding], [storage/tool_artifacts.rs], [storage/cursor.rs] and
    [advance_message_meta] of [storage/message_store.rs]: the draft of one Task
    that a transaction edits, and the journal operations that make it durable.

    A client publication carries projected Chat items; here the item is the
    [ChatMessage] it is projected from, which has the same message id, and a
    Tool detail is the one before its projection.  The clock and fresh
    identifiers are arguments.  [now_string] prints milliseconds. *)

From stdpp Require Import pretty.
From S2P Require Import Prelude Chat Records Journal.

Local Open Scope Z_scope.

Definition now_string (now : Z) : string := pretty (Z.to_N now).

(** ** Strings *)

Definition is_digit (b : Z) : bool := bool_decide (48 <= b <= 57).

(** [str::parse] for an unsigned type with the given bound. *)
Definition parse_unsigned (bound : Z) (s : string) : option Z :=
  let digits := match bytes_of s with 43 :: (_ :: _) as rest => drop 1 rest | l => l end in
  if bool_decide (digits = []) || negb (forallb is_digit digits) then None
  else let v := foldl (fun acc b => 10 * acc + (b - 48)) 0 digits in
       if bool_decide (v < bound) then Some v else None.

Definition u128_modulus : Z := 2 ^ 128.
Definition parse_u128 : string -> option Z := parse_unsigned u128_modulus.

(** [storage/cursor.rs]. *)
Definition from_sequence (sequence : Z) : string := "m:" +:+ pretty (Z.to_N sequence).
Definition to_sequence (cursor : string) : result Z RuntimeError :=
  let error := InvalidParams "before_cursor" in
  let? rest := ok_or (strip_prefix (bytes_of "m:") (bytes_of cursor)) error in
  ok_or (parse_unsigned u64_modulus (of_bytes rest)) error.

Definition to_ascii_lowercase (s : string) : string :=
  of_bytes ((fun b => if bool_decide (65 <= b <= 90) then b + 32 else b) <$> bytes_of s).

(** ** Tool artifacts *)

Fixpoint field_string (fields : list ActivityToolField) (name : string) : option string :=
  match fields with
  | [] => None
  | mkField n v :: fields =>
      if bool_decide (n <> name) then field_string fields name
      else match v with VString value => Some value | _ => field_string fields name end
  end.

Fixpoint field_object (fields : list ActivityToolField) (name : string) : option (list ActivityToolField) :=
  match fields with
  | [] => None
  | mkField n v :: fields =>
      if bool_decide (n <> name) then field_object fields name
      else match v with VObject fs => Some fs | _ => field_object fields name end
  end.

Definition legacy_tool_name (details : ActivityToolDetails) : option string :=
  input ← ad_input details; field_string (in_fields input) "name".

Definition legacy_tool_argument (details : ActivityToolDetails) (name : string) : option string :=
  input ← ad_input details; arguments ← field_object (in_fields input) "arguments"; field_string arguments name.

Fixpoint first_diff_path (content : list ActivityToolContent) : option string :=
  match content with
  | [] => None
  | ContentDiff path _ _ :: _ => Some path
  | _ :: content => first_diff_path content
  end.

(** [trim_matches] and [trim_end_matches] for one-byte characters. *)
Definition trim_matches (chars : list Z) (l : list Z) : list Z :=
  let ws := (fun c => [c]) <$> chars in
  let l := strip_all (length l) ws l in rev (strip_all (length l) ws (rev l)).
Definition trim_end_matches (chars : list Z) (l : list Z) : list Z :=
  rev (strip_all (length l) ((fun c => [c]) <$> chars) (rev l)).

(** The pieces of [split], the last one first as [rsplit] yields them. *)
Fixpoint rsplit (chars : list Z) (l piece : list Z) (done : list (list Z)) : list (list Z) :=
  match l with
  | [] => piece :: done
  | b :: l => if bool_decide (b ∈ chars) then rsplit chars l [] (piece :: done) else rsplit chars l (piece ++ [b]) done
  end.

Fixpoint first_nonempty (pieces : list (list Z)) : option (list Z) :=
  match pieces with [] => None | [] :: pieces => first_nonempty pieces | p :: _ => Some p end.

(** Quotes are 39, 34 and 96; separators 47 and 92. *)
Definition path_leaf (value : string) : string :=
  let l := trim_end_matches [47; 92] (trim_matches [39; 34; 96] (trim_bytes (bytes_of value))) in
  default value (of_bytes <$> first_nonempty (rsplit [47; 92] l [] [])).

Definition lightweight_detail_summary (details : ActivityToolDetails) : option string :=
  path_leaf <$>
    match head (ad_locations details) with
    | Some location => Some (loc_path location)
    | None =>
        match first_diff_path (ad_content details) with
        | Some path => Some path
        | None =>
            match ad_input details ≫= in_path with
            | Some path => Some path
            | None => legacy_tool_argument details "path"
            end
        end
    end.

Definition legacy_view_presentation (details : ActivityToolDetails) : option ToolPresentation :=
  name ← legacy_tool_name details;
  if bool_decide (name = "view_image"%string)
  then single PKView (option_list (lightweight_detail_summary details)) else None.

Definition should_replace_input_summary (tool_name : string) (summary : option string) : bool :=
  match trim <$> summary with
  | None => true
  | Some summary =>
      bool_decide (summary = ""%string) ||
      bool_decide ((tool_name, to_ascii_lowercase summary) ∈
        [("edit", "edit"); ("edit", "updated file"); ("edit", "created file"); ("read", "read"); ("read", "read file");
         ("read", "name view_image"); ("delete", "delete"); ("delete", "deleted file"); ("move", "move");
         ("move", "moved file")]%string)
  end.

Definition fnv64 (bytes : list Z) (seed : Z) : Z :=
  foldl (fun hash byte => (Z.lxor hash byte * 0x100000001b3) mod u64_modulus) seed bytes.

Definition hex_digit (d : Z) : Z := if bool_decide (d < 10) then 48 + d else 87 + d.
Fixpoint hex (width : nat) (x : Z) (acc : list Z) : list Z :=
  match width with O => acc | S width => hex width (Z.shiftr x 4) (hex_digit (Z.land x 15) :: acc) end.

Definition tool_artifact_id (message_id : string) (step_index : nat) : string :=
  let input := bytes_of message_id ++ [0] ++ bytes_of (pretty (N.of_nat step_index)) in
  "artifact_" +:+ of_bytes (hex 16 (fnv64 input 0xcbf29ce484222325) []) +:+
  of_bytes (hex 16 (fnv64 input 0x84222325cbf29ce4) []).

Section Mutation.
Context `{CP : ChatPayloads}.

(** [PersistedToolDetail]. *)
Record PersistedToolDetail := mkDetail { pd_artifact_id : string; pd_details : ActivityToolDetails }.

Definition set_artifact (artifact_id : string) (summary : option string) (t : ToolStep) : ToolStep :=
  mkTool (ts_tool_call_id t) (ts_name t) (ts_status t) (ts_presentation t) (ts_description t) summary
    (ts_output_preview t) (Some artifact_id) None (ts_permission_outcomes t) (ts_background_outcome t) (ts_pending t).

Fixpoint extract_steps (id : string) (index : nat) (steps : list ActivityStep)
  : list PersistedToolDetail * list ActivityStep :=
  match steps with
  | [] => ([], [])
  | step :: steps =>
      let '(persisted, rest) := extract_steps id (S index) steps in
      match step with
      | StepTool t =>
          match ts_details t with
          | Some details =>
              let summary := if should_replace_input_summary (ts_name t) (ts_input_summary t)
                             then lightweight_detail_summary details else ts_input_summary t in
              let artifact_id := default (tool_artifact_id id index) (ts_detail_artifact_id t) in
              (mkDetail artifact_id details :: persisted, StepTool (set_artifact artifact_id summary t) :: rest)
          | None => (persisted, step :: rest)
          end
      | _ => (persisted, step :: rest)
      end
  end.

Definition extract_tool_artifacts (m : NormalizedMessage) : list PersistedToolDetail * NormalizedMessage :=
  match m with
  | MActivity id title status created col steps =>
      let '(persisted, steps) := extract_steps id 0 steps in (persisted, MActivity id title status created col steps)
  | _ => ([], m)
  end.

(** ** Observed timing *)

Definition no_timing : ChatTiming := mkTiming None None None.

Definition first_observation (m : NormalizedMessage) : ChatTiming :=
  mkTiming (match m with MUser _ _ _ _ => Some (created_at m) | _ => None end)
    (if is_in_progress m && negb (is_awaiting_start m) then Some (mkSpan (created_at m) None) else None) None.

Definition carried_over (existing : ChatTiming) (existing_message replacement : NormalizedMessage) (now : string)
  : ChatTiming :=
  if negb (is_some (run_span existing)) && is_awaiting_start existing_message && is_in_progress replacement
     && negb (is_awaiting_start replacement)
  then mkTiming (sent_at existing) (Some (mkSpan now None)) (closed_turn existing)
  else
    match run_span existing with
    | Some run =>
        let run := if is_in_progress replacement then mkSpan (started_at run) None
                   else if is_some (ended_at run) then run else mkSpan (started_at run) (Some now) in
        mkTiming (sent_at existing) (Some run) (closed_turn existing)
    | None => existing
    end.

Definition settle_step (status : ActivityStatus) (step : ActivityStep) : ActivityStep :=
  match step with
  | StepTool t =>
      if bool_decide (ts_status t = Running)
      then StepTool (mkTool (ts_tool_call_id t) (ts_name t) status (ts_presentation t) (ts_description t)
                       (ts_input_summary t) (ts_output_preview t) (ts_detail_artifact_id t) (ts_details t)
                       (ts_permission_outcomes t) (ts_background_outcome t) (ts_pending t))
      else step
  | StepCommand label s code preview =>
      if bool_decide (s = Running) then StepCommand label status code preview else step
  | StepSubagent sid tc title thread path act name p s events =>
      if bool_decide (s = Running) then StepSubagent sid tc title thread path act name p status events else step
  | StepText _ _ => step
  end.

Definition set_message (message : NormalizedMessage) (timing : ChatTiming) (c : ChatMessage) : ChatMessage :=
  mkChat (cm_cursor c) (cm_identity c) (cm_message_type c) (cm_message_id c) message timing.

(** [None]: nothing was running. *)
Definition finish_running (chat : ChatMessage) (status : ActivityStatus) (now : string) : option ChatMessage :=
  match cm_message chat with
  | MActivity id title Running created col steps =>
      let timing := cm_timing chat in
      let run := (fun run => mkSpan (started_at run) (Some (default now (ended_at run)))) <$> run_span timing in
      Some (set_message (MActivity id title status created col (settle_step status <$> steps))
              (mkTiming (sent_at timing) run (closed_turn timing)) chat)
  | _ => None
  end.

Definition close_turn (span : ObservedSpan) (m : StoredMessage) : StoredMessage :=
  let c := st_chat m in
  mkStored (st_sequence m)
    (set_message (cm_message c) (mkTiming (sent_at (cm_timing c)) (run_span (cm_timing c)) (Some span)) c).

(** ** The draft *)

Inductive CommittedChatChange :=
| ChatAppend (item : ChatMessage)
| ChatUpsert (item : ChatMessage)
| ChatAppendText (message_id text : string)
| ChatReplace.

Record TaskMutationContext := mkCtx {
  cx_projection : TaskProjection;
  cx_artifact_replacements : list PersistedToolDetail;
  cx_terminal_appends : list ToolTerminalAppend;
  cx_chat_changes : list CommittedChatChange;
  cx_tool_details : list PersistedToolDetail;
}.
Definition draft (p : TaskProjection) : TaskMutationContext := mkCtx p [] [] [] [].

Definition cx_task (ctx : TaskMutationContext) : TaskRecord := pj_task (cx_projection ctx).
Definition cx_messages (ctx : TaskMutationContext) : list StoredMessage := pj_messages (cx_projection ctx).

Definition task_mut (f : TaskRecord -> TaskRecord) (ctx : TaskMutationContext) : TaskMutationContext :=
  mkCtx (set_task (f (cx_task ctx)) (cx_projection ctx)) (cx_artifact_replacements ctx) (cx_terminal_appends ctx)
    (cx_chat_changes ctx) (cx_tool_details ctx).

Definition advance_message_meta (minimum_updated_at now : Z) (p : TaskProjection) : TaskProjection :=
  let meta := pj_message_meta p in
  let previous := default 0 (parse_u128 (mm_local_history_updated_at meta)) in
  let now := default 0 (parse_u128 (now_string now)) in
  let count := Z.of_nat (length (pj_messages p)) in
  let updated := Z.max (Z.max now (Z.min (previous + 1) (u128_modulus - 1))) minimum_updated_at in
  set_meta (mkMeta (tr_task_id (pj_task p)) (Z.max (u64_saturating_add (mm_version meta) 1) count) count
              (pretty (Z.to_N updated))
              (cm_cursor ∘ st_chat <$> head (pj_messages p)) (cm_cursor ∘ st_chat <$> last (pj_messages p))) p.

(** The messages change, the metadata advances and the changes are recorded. *)
Definition record_chat (messages : list StoredMessage) (changes : list CommittedChatChange)
    (minimum_updated_at now : Z) (ctx : TaskMutationContext) : TaskMutationContext :=
  mkCtx (advance_message_meta minimum_updated_at now (set_messages messages (cx_projection ctx)))
    (cx_artifact_replacements ctx) (cx_terminal_appends ctx) (cx_chat_changes ctx ++ changes) (cx_tool_details ctx).

Definition add_artifacts (details : list PersistedToolDetail) (ctx : TaskMutationContext) : TaskMutationContext :=
  mkCtx (cx_projection ctx) (cx_artifact_replacements ctx ++ details) (cx_terminal_appends ctx) (cx_chat_changes ctx)
    (cx_tool_details ctx).
Definition add_tool_details (details : list PersistedToolDetail) (ctx : TaskMutationContext) : TaskMutationContext :=
  mkCtx (cx_projection ctx) (cx_artifact_replacements ctx) (cx_terminal_appends ctx) (cx_chat_changes ctx)
    (cx_tool_details ctx ++ details).

Definition next_sequence (messages : list StoredMessage) : Z :=
  match last messages with Some m => u64_add (st_sequence m) 1 | None => 1 end.

(** A new row identified by its message. *)
Definition new_row (messages : list StoredMessage) (timing : ChatTiming) (m : NormalizedMessage) : StoredMessage :=
  let sequence := next_sequence messages in
  mkStored sequence (mkChat (from_sequence sequence) (identity m) (message_type m) (identity m) m timing).

Definition append_message (message : NormalizedMessage) (now : Z) (ctx : TaskMutationContext) : TaskMutationContext :=
  let '(details, message) := extract_tool_artifacts message in
  let stored := new_row (cx_messages ctx) (first_observation message) message in
  record_chat (cx_messages ctx ++ [stored]) [ChatAppend (st_chat stored)] 0 now (add_artifacts details ctx).

Definition append_chat_message (message : ChatMessage) (now : Z) (ctx : TaskMutationContext) : TaskMutationContext :=
  let sequence := next_sequence (cx_messages ctx) in
  let timing := if timing_is_empty (cm_timing message) then first_observation (cm_message message) else cm_timing message in
  let stored := mkStored sequence
    (mkChat (from_sequence sequence) (cm_identity message) (cm_message_type message) (cm_message_id message)
       (cm_message message) timing) in
  record_chat (cx_messages ctx ++ [stored]) [ChatAppend (st_chat stored)] 0 now ctx.

Definition append_terminal (artifact_id terminal_id data : string) (ctx : TaskMutationContext) : TaskMutationContext :=
  mkCtx (cx_projection ctx) (cx_artifact_replacements ctx)
    (cx_terminal_appends ctx ++ [mkTerminalAppend artifact_id terminal_id data]) (cx_chat_changes ctx)
    (cx_tool_details ctx).

(** The first Tool step with the given call id, changed by [f]; [None] when
    there is none or [f] declines. *)
Fixpoint update_tool (id : string) (f : ToolStep -> option ToolStep) (steps : list ActivityStep)
  : option (list ActivityStep) :=
  match steps with
  | [] => None
  | StepTool t :: rest =>
      if bool_decide (ts_tool_call_id t = Some id)
      then (fun t => StepTool t :: rest) <$> f t else cons (StepTool t) <$> update_tool id f rest
  | step :: rest => cons step <$> update_tool id f rest
  end.

Definition update_row_tool (id : string) (f : ToolStep -> option ToolStep) (m : StoredMessage) : option StoredMessage :=
  match cm_message (st_chat m) with
  | MActivity mid title status created col steps =>
      steps ← update_tool id f steps;
      Some (mkStored (st_sequence m)
              (set_message (MActivity mid title status created col steps) (cm_timing (st_chat m)) (st_chat m)))
  | _ => None
  end.

(** The outcome replaces the one of the same request or is added. *)
Fixpoint put_outcome (outcome : ToolPermissionOutcome) (outcomes : list ToolPermissionOutcome)
  : list ToolPermissionOutcome :=
  match outcomes with
  | [] => [outcome]
  | o :: outcomes =>
      if bool_decide (po_request_id o = po_request_id outcome) then outcome :: outcomes
      else o :: put_outcome outcome outcomes
  end.

Definition record_permission_outcome (messages : list StoredMessage) (activity_identity tool_call_id : string)
    (outcome : ToolPermissionOutcome) : option (StoredMessage * list StoredMessage) :=
  stored ← find_message activity_identity messages;
  changed ← update_row_tool tool_call_id (fun t =>
    Some (set_outcomes (put_outcome outcome (ts_permission_outcomes t), ts_background_outcome t) t)) stored;
  Some (changed, update_message activity_identity (fun _ => changed) messages).

Definition record_tool_permission_outcome (activity_identity tool_call_id : string) (outcome : ToolPermissionOutcome)
    (now : Z) (ctx : TaskMutationContext) : bool * TaskMutationContext :=
  match record_permission_outcome (cx_messages ctx) activity_identity tool_call_id outcome with
  | Some (changed, messages) => (true, record_chat messages [ChatUpsert (st_chat changed)] 0 now ctx)
  | None => (false, ctx)
  end.

(** The row that replaces [stored] in [upsert_message_with_details]. *)
Definition updated_row (stored : StoredMessage) (message : NormalizedMessage) (now : Z) : StoredMessage :=
  let c := st_chat stored in
  let message' := replace_row (cm_message c) message in
  mkStored (st_sequence stored)
    (mkChat (cm_cursor c) (identity message) (message_type message) (cm_message_id c) message'
       (carried_over (cm_timing c) (cm_message c) message' (now_string now))).

Definition upsert_message_with_details (message : NormalizedMessage) (now : Z) (ctx : TaskMutationContext)
  : StoredMessage * TaskMutationContext :=
  let '(details, message) := extract_tool_artifacts message in
  let messages := cx_messages ctx in
  let '(stored, messages) :=
    match find_message (identity message) messages with
    | Some existing =>
        let stored := updated_row existing message now in
        (stored, update_message (identity message) (fun _ => stored) messages)
    | None => let stored := new_row messages (first_observation message) message in (stored, messages ++ [stored])
    end in
  (stored, add_tool_details details (record_chat messages [ChatUpsert (st_chat stored)] 0 now (add_artifacts details ctx))).

(** [append_agent_part]: the flag tells a text append. *)
Definition append_agent_part (existing incoming : NormalizedMessage) : result (bool * NormalizedMessage) RuntimeError :=
  match existing, incoming with
  | MAgentMessage id role parts created, MAgentMessage _ incoming_role [part] _ =>
      if bool_decide (role = incoming_role) then
        match last parts, part with
        | Some (PartText _), PartText chunk => Ok (true, MAgentMessage id role (push_last chunk parts) created)
        | _, _ => Ok (false, MAgentMessage id role (parts ++ [part]) created)
        end
      else Err (Conflict "ACP message id changed content channel")
  | _, _ => Err (Conflict "ACP message id changed content channel")
  end.

Inductive AgentMessageAppend :=
| Appended (stored : StoredMessage)
| TextAppended (message_id : string)
| PartAppended (stored : StoredMessage).

(** [None] is the failed [expect] on the incoming text. *)
Definition append_agent_message_part (message : NormalizedMessage) (now : Z) (ctx : TaskMutationContext)
  : option (result (AgentMessageAppend * TaskMutationContext) RuntimeError) :=
  let text := match message with MAgentMessage _ _ [PartText text] _ => Some text | _ => None end in
  let messages := cx_messages ctx in
  match find_message (identity message) messages with
  | Some stored =>
      match append_agent_part (cm_message (st_chat stored)) message with
      | Err e => Some (Err e)
      | Ok (text_appended, m) =>
          let updated := mkStored (st_sequence stored) (set_message m (cm_timing (st_chat stored)) (st_chat stored)) in
          let messages := update_message (identity message) (fun _ => updated) messages in
          let message_id := cm_message_id (st_chat updated) in
          if (text_appended : bool) then
            text ← text;
            Some (Ok (TextAppended message_id, record_chat messages [ChatAppendText message_id text] 0 now ctx))
          else Some (Ok (PartAppended updated, record_chat messages [ChatUpsert (st_chat updated)] 0 now ctx))
      end
  | None =>
      let stored := new_row messages no_timing message in
      Some (Ok (Appended stored, record_chat (messages ++ [stored]) [ChatAppend (st_chat stored)] 0 now ctx))
  end.

(** The identities of the old rows; a later row wins. *)
Definition existing_ids (messages : list StoredMessage) : gmap string (string * ChatTiming) :=
  foldl (fun m s => <[cm_identity (st_chat s) := (cm_message_id (st_chat s), cm_timing (st_chat s))]> m) ∅ messages.

Fixpoint rebuild_rows (existing : gmap string (string * ChatTiming)) (fresh : nat -> string) (index : nat)
    (messages : list NormalizedMessage) : list PersistedToolDetail * list StoredMessage :=
  match messages with
  | [] => ([], [])
  | message :: messages =>
      let '(details, message) := extract_tool_artifacts message in
      let sequence := u64_add (Z.of_nat index) 1 in
      let '(message_id, timing) := default (fresh index, no_timing) (existing !! identity message) in
      let '(rest_details, rest) := rebuild_rows existing fresh (S index) messages in
      (details ++ rest_details,
       mkStored sequence (mkChat (from_sequence sequence) (identity message) (message_type message) message_id message
                            timing) :: rest)
  end.

Definition replace_messages_from_native_session (messages : list NormalizedMessage) (native_updated_at now : Z)
    (fresh : nat -> string) (ctx : TaskMutationContext) : TaskMutationContext :=
  let '(details, rows) := rebuild_rows (existing_ids (cx_messages ctx)) fresh 0 messages in
  record_chat rows [ChatReplace] native_updated_at now (add_artifacts details ctx).

(** Settles the row when it runs. *)
Definition finish_row (status : ActivityStatus) (now : Z) (m : StoredMessage) : option StoredMessage :=
  mkStored (st_sequence m) <$> finish_running (st_chat m) status (now_string now).

Definition finish_running_activities (status : ActivityStatus) (now : Z) (ctx : TaskMutationContext)
  : bool * TaskMutationContext :=
  let changed := omap (finish_row status now) (reverse (cx_messages ctx)) in
  match changed with
  | [] => (false, ctx)
  | _ => (true, record_chat ((fun m => default m (finish_row status now m)) <$> cx_messages ctx)
                  (ChatUpsert ∘ st_chat <$> changed) 0 now ctx)
  end.

Definition finish_running_activity (ident : string) (status : ActivityStatus) (now : Z) (ctx : TaskMutationContext)
  : bool * TaskMutationContext :=
  match find_message ident (cx_messages ctx) ≫= finish_row status now with
  | Some changed =>
      (true, record_chat (update_message ident (fun _ => changed) (cx_messages ctx)) [ChatUpsert (st_chat changed)] 0 now ctx)
  | None => (false, ctx)
  end.

(** The newest row of [f] up to the first that [stop] rejects: the changed row
    and all rows.  [rows] come newest first. *)
Fixpoint update_newest (stop : StoredMessage -> bool) (f : StoredMessage -> option StoredMessage) (rows : list StoredMessage)
  : option (StoredMessage * list StoredMessage) :=
  match rows with
  | [] => None
  | m :: rows =>
      if stop m then None
      else match f m with
           | Some m => Some (m, m :: rows)
           | None => '(changed, rest) ← update_newest stop f rows; Some (changed, m :: rest)
           end
  end.

Definition active_turn_span (ended : string) (ctx : TaskMutationContext) : option ObservedSpan :=
  started ← tr_active_turn_started_at (cx_task ctx); Some (mkSpan started (Some ended)).

Definition is_user_row (m : StoredMessage) : bool := match cm_message (st_chat m) with MUser _ _ _ _ => true | _ => false end.
Definition is_answer_row (m : StoredMessage) : bool :=
  match cm_message (st_chat m) with MAgentMessage _ RoleAgent _ _ => true | _ => false end.

(** [publish_closed_turn] after the row was changed. *)
Definition publish_closed_turn (changed : option (StoredMessage * list StoredMessage)) (now : Z) (ctx : TaskMutationContext)
  : TaskMutationContext :=
  match changed with
  | Some (m, rows) => record_chat (reverse rows) [ChatUpsert (st_chat m)] 0 now ctx
  | None => ctx
  end.

Definition close_turn_on_final_answer (ended : string) (now : Z) (ctx : TaskMutationContext) : TaskMutationContext :=
  match active_turn_span ended ctx with
  | None => ctx
  | Some span =>
      publish_closed_turn
        (update_newest is_user_row (fun m => if is_answer_row m then Some (close_turn span m) else None)
           (reverse (cx_messages ctx))) now ctx
  end.

Definition close_turn_on_last_row (ended : string) (now : Z) (ctx : TaskMutationContext) : TaskMutationContext :=
  match active_turn_span ended ctx with
  | None => ctx
  | Some span =>
      publish_closed_turn
        (update_newest (fun _ => false) (fun m => Some (close_turn span m)) (reverse (cx_messages ctx))) now ctx
  end.

Definition message_by_identity (ident : string) (ctx : TaskMutationContext) : option NormalizedMessage :=
  cm_message ∘ st_chat <$> find_message ident (cx_messages ctx).

Definition record_tool_background_outcome (tool_call_id : string) (outcome : BackgroundCommandOutcome) (now : Z)
    (ctx : TaskMutationContext) : bool * TaskMutationContext :=
  match update_newest (fun _ => false)
          (update_row_tool tool_call_id (fun t =>
             if bool_decide (ts_background_outcome t = Some outcome) then None
             else Some (set_outcomes (ts_permission_outcomes t, Some outcome) t)))
          (reverse (cx_messages ctx)) with
  | Some (m, rows) => (true, record_chat (reverse rows) [ChatUpsert (st_chat m)] 0 now ctx)
  | None => (false, ctx)
  end.

(** ** Journal operations *)

Definition change_message_id (c : CommittedChatChange) : option string :=
  match c with
  | ChatAppend item | ChatUpsert item => Some (cm_message_id item)
  | ChatAppendText message_id _ => Some message_id
  | ChatReplace => None
  end.

Definition is_replace (c : CommittedChatChange) : bool := match c with ChatReplace => true | _ => false end.

Definition appended_ids (chat : list CommittedChatChange) : gset string :=
  list_to_set (omap (fun c => match c with ChatAppend item => Some (cm_message_id item) | _ => None end) chat).
Definition upserted_ids (chat : list CommittedChatChange) : gset string :=
  list_to_set (omap (fun c => match c with ChatUpsert item => Some (cm_message_id item) | _ => None end) chat).

(** [iter().find] by message id. *)
Fixpoint find_by_id (message_id : string) (messages : list StoredMessage) : option StoredMessage :=
  match messages with
  | [] => None
  | m :: messages =>
      if decide (cm_message_id (st_chat m) = message_id) then Some m else find_by_id message_id messages
  end.

Definition missing_change : RuntimeError := Internal "Committed Chat change is missing from its durable projection".

(** The loop of [journal_operations]; a replacement was handled before it. *)
Fixpoint emit_operations (p : TaskProjection) (appended upserted emitted : gset string)
    (chat : list CommittedChatChange) : result (list TaskOperation) RuntimeError :=
  match chat with
  | [] => Ok []
  | change :: chat =>
      match change_message_id change with
      | None => Err missing_change
      | Some id =>
          let? stored := ok_or (find_by_id id (pj_messages p)) missing_change in
          if decide (id ∈ appended) then
            if decide (id ∈ emitted) then emit_operations p appended upserted emitted chat
            else let? rest := emit_operations p appended upserted ({[id]} ∪ emitted) chat in
                 Ok (AppendMessage stored :: rest)
          else if decide (id ∈ upserted) then
            if decide (id ∈ emitted) then emit_operations p appended upserted emitted chat
            else let? rest := emit_operations p appended upserted ({[id]} ∪ emitted) chat in
                 Ok (UpsertMessage stored :: rest)
          else
            match change with
            | ChatAppendText _ text =>
                let? rest := emit_operations p appended upserted emitted chat in
                Ok (AppendText (cm_identity (st_chat stored)) text
                      (mm_local_history_updated_at (pj_message_meta p)) None :: rest)
            | _ => emit_operations p appended upserted emitted chat
            end
      end
  end.

Definition journal_operations (p : TaskProjection) (chat : list CommittedChatChange)
  : result (list TaskOperation) RuntimeError :=
  let replace_task := ReplaceTask (pj_task p) in
  match chat with
  | [] => Ok [replace_task]
  | _ =>
      if existsb is_replace chat then Ok [replace_task; ReplaceMessages (pj_messages p) (pj_message_meta p)]
      else
        let? ops := emit_operations p (appended_ids chat) (upserted_ids chat) ∅ chat in
        Ok (replace_task :: ops ++ [ReplaceMessageMeta (pj_message_meta p)])
  end.

(** ** Commit *)

Inductive NativeSessionBindingPolicy :=
| Preserve
| ReplaceMissingPreparedTask (expected_session_id : string)
| ReplaceMissingInitialPrompt (turn_id expected_session_id : string).

Definition initial_prompt_messages (turn_id : string) (messages : list StoredMessage) : bool :=
  match messages with
  | [user; activity] =>
      is_user_row user &&
      match cm_message (st_chat activity) with
      | MActivity id _ Running _ _ _ => bool_decide (id = ("turn:" +:+ turn_id)%string)
      | _ => false
      end
  | _ => false
  end.

Definition validate_replacement_boundary (policy : NativeSessionBindingPolicy) (p : TaskProjection)
  : result unit RuntimeError :=
  let task := pj_task p in
  let eligible :=
    match policy with
    | Preserve => true
    | ReplaceMissingPreparedTask expected =>
        bool_decide (tr_agent_session_id task = Some expected)
        && match tr_lifecycle task with Prepared _ => true | _ => false end
        && match tr_preparation task with PrepPreparing => true | _ => false end
        && match pj_messages p with [] => true | _ => false end
    | ReplaceMissingInitialPrompt turn_id expected =>
        bool_decide (tr_agent_session_id task = Some expected) && bool_decide (tr_active_turn_id task = Some turn_id)
        && bool_decide (tr_status task = StStarting) && initial_prompt_messages turn_id (pj_messages p)
    end in
  if eligible then Ok tt
  else Err (NotReady "Task is no longer eligible for missing Native Session recovery").

Definition allows_replacement (policy : NativeSessionBindingPolicy) (replacement : option string) : bool :=
  match policy with Preserve => false | _ => true end && is_some replacement.

Record VersionFields := mkVersionFields {
  vf_task_version : Z; vf_message_history_version : Z; vf_revision : Z; vf_bound_native_session_id : option string;
}.
Definition from_task (t : TaskRecord) : VersionFields :=
  mkVersionFields (tr_task_version t) (tr_message_history_version t) (tr_revision t) (tr_agent_session_id t).

Definition validate_task_invariants (requested_task_id : string) (original : VersionFields) (task : TaskRecord)
    (policy : NativeSessionBindingPolicy) : result unit RuntimeError :=
  if bool_decide (tr_task_id task <> requested_task_id) then Err (Internal "task mutation changed task identity")
  else if bool_decide (tr_task_version task <> vf_task_version original)
          || bool_decide (tr_message_history_version task <> vf_message_history_version original)
          || bool_decide (tr_revision task <> vf_revision original)
  then Err (Internal "task mutation changed commit-managed version fields")
  else if is_some (vf_bound_native_session_id original)
          && bool_decide (tr_agent_session_id task <> vf_bound_native_session_id original)
          && negb (allows_replacement policy (tr_agent_session_id task))
  then Err (Internal "task mutation changed bound Native Session identity")
  else Ok tt.

Inductive TaskMutationResult := Changed | Unchanged | MutRejected.

(** [refresh_message_history]; the response snapshot is not modelled. *)
Record TaskCommitOptions := mkOptions { refresh_message_history : bool }.
Definition metadata : TaskCommitOptions := mkOptions false.
Definition chat_commit_options : TaskCommitOptions := mkOptions true.

(** What a commit submits to the journal and publishes. *)
Record Commit := mkCommit { ct_projection : TaskProjection; ct_chat : list CommittedChatChange; ct_write : TaskWrite }.

Definition persist_changed_projection (original : TaskRecord) (options : TaskCommitOptions) (ctx : TaskMutationContext)
  : result Commit RuntimeError :=
  let p := cx_projection ctx in
  let task := if refresh_message_history options
              then set_history_version (mm_version (pj_message_meta p)) (pj_task p) else pj_task p in
  let? revision := ok_or (u64_checked_add (tr_revision original) 1) (Internal "Task revision overflow") in
  let task := set_versions (u64_add (tr_task_version task) 1) revision (tr_updated_at task) task in
  let p := set_task task p in
  let chat := match cx_chat_changes ctx with
              | [] => if bool_decide (tr_message_history_version task <> tr_message_history_version original)
                      then [ChatReplace] else []
              | chat => chat
              end in
  let? ops := journal_operations p chat in
  Ok (mkCommit p chat
        (barrier_operations_with_artifacts (tr_task_id task) ops
           ((fun d => mkReplacement (pd_artifact_id d) (pd_details d)) <$> cx_artifact_replacements ctx)
           (cx_terminal_appends ctx))).

(** [commit_existing_task_with_session_policy] on the projection loaded after
    the barrier for streamed text; [None]: nothing was committed. *)
Definition commit_existing_task (policy : NativeSessionBindingPolicy) (task_id : string) (options : TaskCommitOptions)
    (mutation : TaskMutationContext -> result (TaskMutationResult * TaskMutationContext) RuntimeError)
    (p : TaskProjection) : result (option Commit) RuntimeError :=
  check? validate_replacement_boundary policy p in
  let original := pj_task p in
  let? changed := mutation (draft p) in
  let '(outcome, ctx) := changed in
  let immutable := is_archived (tr_lifecycle original) && is_archived (tr_lifecycle (cx_task ctx))
                   && negb (tr_tombstoned (cx_task ctx)) in
  match (if immutable then Unchanged else outcome) with
  | Changed =>
      check? validate_task_invariants task_id (from_task original) (cx_task ctx) policy in
      let? c := persist_changed_projection original options ctx in Ok (Some c)
  | Unchanged | MutRejected => Ok None
  end.
End Mutation.
