(* ===== verification/ChatImages.v ===== *)
(** * Images of a Chat

    Models [openaide-rs/app-server/src/storage/chat_images.rs],
    [storage/task_journal/images.rs], [display_dimensions] of [media.rs] and
    [subagent_image_references] of [storage/subagents.rs]: inline images become
    files named by their hash, rows keep references, and a sweep removes the
    files that nothing references.

    A Task's image files are a map from names to bytes and modification times.
    The crates that decode base64, hash, read image headers and match the old
    text syntax are the class [ImageCodecs].  Shows that a reference always has
    its bytes, through every write and sweep; that moving images leaves none
    inline; and that a name a client asks for never leaves the directory. *)

From S2P Require Import Prelude Chat Records Journal Mutation.

Local Open Scope Z_scope.

Abbreviation Bytes := (list Z).

Inductive Orientation := NoTransforms | Rotate90 | Rotate180 | Rotate270 | FlipHorizontal | FlipVertical | Rotate90FlipH | Rotate270FlipH.

(** base64's [STANDARD.decode], SHA-256, the header of an image (its width,
    height and orientation) and the regular expression of the old syntax: the
    media types and data it captures, and the text with every match removed. *)
Class ImageCodecs := {
  base64_decode : string -> option Bytes;
  sha256 : Bytes -> Bytes;
  image_header : Bytes -> option (Z * Z * option Orientation);
  legacy_captures : string -> list (string * string);
  legacy_removed : string -> string;
}.

(** ** Files *)

Record ImageFile := mkImageFile { if_bytes : Bytes; if_modified : Z }.
#[global] Instance ImageFile_eq_dec : EqDecision ImageFile.
Proof. solve_decision. Defined.
Abbreviation ImageFiles := (gmap string ImageFile).

Definition UNREFERENCED_GRACE : Z := 24 * 60 * 60 * 1000.

Definition lower_hex (b : Z) : bool := bool_decide (48 <= b <= 57) || bool_decide (97 <= b <= 102).
Definition is_image_id (value : string) : bool :=
  bool_decide (length (bytes_of value) = 64%nat) && forallb lower_hex (bytes_of value).

Definition hex_digit (n : Z) : Z := if bool_decide (n < 10) then 48 + n else 87 + n.
Definition hex (bytes : Bytes) : string := of_bytes (bytes ≫= fun b => [hex_digit (Z.shiftr b 4); hex_digit (Z.land b 15)]).

Section Images.
Context `{CP : ChatPayloads} `{IC : !ImageCodecs}.

(** [store]: an existing file of the same length is kept and refreshed. *)
Definition store (now : Z) (bytes : Bytes) (files : ImageFiles) : string * ImageFiles :=
  let image_id := hex (sha256 bytes) in
  (image_id,
   match files !! image_id with
   | Some f => if bool_decide (length (if_bytes f) = length bytes) then <[image_id := mkImageFile (if_bytes f) now]> files
               else <[image_id := mkImageFile bytes now]> files
   | None => <[image_id := mkImageFile bytes now]> files
   end).

Definition read (image_id : string) (files : ImageFiles) : option Bytes :=
  if negb (is_image_id image_id) then None else if_bytes <$> files !! image_id.

(** ** References *)

Record ImageReference := mkReference { ir_image_id : string; ir_size_bytes : Z; ir_dimensions : option (Z * Z) }.

Definition display_dimensions (bytes : Bytes) : option (Z * Z) :=
  '(width, height, orientation) ← image_header bytes;
  if bool_decide (width = 0) || bool_decide (height = 0) then None
  else
    turned ← orientation;
    Some (match turned with
          | Rotate90 | Rotate270 | Rotate90FlipH | Rotate270FlipH => (height, width)
          | _ => (width, height)
          end).

(** [describe]. *)
Definition describe_image (image_id : string) (bytes : Bytes) : ImageReference :=
  mkReference image_id (Z.of_nat (length bytes)) (display_dimensions bytes).

Definition split_dimensions (d : option (Z * Z)) : option Z * option Z := (fst <$> d, snd <$> d).

Definition insert_dimensions (d : option (Z * Z)) (payload : list (string * JsonValue)) : list (string * JsonValue) :=
  match d with
  | Some (width, height) => insert_field "height" (JNumber height) (insert_field "width" (JNumber width) payload)
  | None => payload
  end.

Definition attachment_image_id (a : Attachment) : option string :=
  payload ← att_payload a; v ← json_get "imageId" payload; id ← as_str v; if is_image_id id then Some id else None.

Definition as_u32 (v : JsonValue) : option Z := n ← as_u64 v; if bool_decide (n < 2 ^ 32) then Some n else None.
Definition attachment_dimensions (a : Attachment) : option (Z * Z) :=
  payload ← att_payload a;
  width ← json_get "width" payload ≫= as_u32;
  height ← json_get "height" payload ≫= as_u32;
  Some (width, height).

Definition starts_with (prefix : string) (l : string) : bool := is_some (strip_prefix (bytes_of prefix) (bytes_of l)).

Definition inline_image_payload (a : Attachment) : option string :=
  payload ← att_payload a;
  fields ← as_object payload;
  media_type ← field "mimeType" fields ≫= as_str;
  if negb (starts_with "image/" media_type) then None
  else data ← field "data" fields ≫= as_str; if bool_decide (data = ""%string) then None else Some data.

Definition inline_reference (data : string) : option ImageReference :=
  bytes ← base64_decode data; Some (describe_image (hex (sha256 bytes)) bytes).
Definition inline_attachment_reference (a : Attachment) : option ImageReference := inline_image_payload a ≫= inline_reference.

(** ** Moving images out of rows

    A moved message comes with the bytes it stores, in order; [None] when data is
    not valid base64. *)

Definition set_payload (payload : JsonValue) (a : Attachment) : Attachment :=
  mkAttachment (att_kind a) (att_label a) (att_path a) (Some payload).

Definition referenced_payload (r : ImageReference) (fields : list (string * JsonValue)) : list (string * JsonValue) :=
  insert_dimensions (ir_dimensions r)
    (insert_field "sizeBytes" (JNumber (ir_size_bytes r))
       (insert_field "imageId" (JString (ir_image_id r)) (remove_field "data" fields))).

Definition externalize_attachment (a : Attachment) : option (Attachment * list Bytes) :=
  match inline_image_payload a, att_payload a ≫= as_object with
  | Some data, Some fields =>
      bytes ← base64_decode data;
      Some (set_payload (JObject (referenced_payload (describe_image (hex (sha256 bytes)) bytes) fields)) a, [bytes])
  | _, _ => Some (a, [])
  end.

(** The characters that are not white space. *)
Fixpoint without_whitespace (fuel : nat) (l : list Z) : list Z :=
  match fuel with
  | O => l
  | S fuel =>
      match strip_one whitespace l with
      | Some rest => without_whitespace fuel rest
      | None => match l with [] => [] | b :: l => b :: without_whitespace fuel l end
      end
  end.

Definition legacy_attachment (capture : string * string) : Attachment :=
  let data := of_bytes (without_whitespace (length (bytes_of capture.2)) (bytes_of capture.2)) in
  mkAttachment "image" "Image" None
    (Some (JObject [("data"%string, JString data); ("mimeType"%string, JString (to_ascii_lowercase capture.1))])).

Definition move_legacy_text_images (text : string) (attachments : list Attachment) : string * list Attachment :=
  match legacy_captures text with
  | [] => (text, attachments)
  | captures => (trim (legacy_removed text), attachments ++ (legacy_attachment <$> captures))
  end.

(** [mapM] that also gathers what each element stores. *)
Fixpoint map_moved {A} (f : A -> option (A * list Bytes)) (l : list A) : option (list A * list Bytes) :=
  match l with
  | [] => Some ([], [])
  | x :: l => '(x, stored) ← f x; '(l, rest) ← map_moved f l; Some (x :: l, stored ++ rest)
  end.

Definition externalize_part (part : AgentMessagePart) : option (AgentMessagePart * list Bytes) :=
  match part with
  | PartImage media_type data image_id size_bytes width height uri =>
      if bool_decide (data = ""%string) then Some (part, [])
      else
        bytes ← base64_decode data;
        let reference := describe_image (hex (sha256 bytes)) bytes in
        let '(w, h) := split_dimensions (ir_dimensions reference) in
        Some (PartImage media_type "" (Some (ir_image_id reference)) (Some (ir_size_bytes reference)) w h uri, [bytes])
  | _ => Some (part, [])
  end.

Definition externalize_message (m : NormalizedMessage) : option (NormalizedMessage * list Bytes) :=
  match m with
  | MUser id text created attachments =>
      let '(text, attachments) := move_legacy_text_images text attachments in
      '(attachments, stored) ← map_moved externalize_attachment attachments;
      Some (MUser id text created attachments, stored)
  | MAgentMessage id role parts created =>
      '(parts, stored) ← map_moved externalize_part parts; Some (MAgentMessage id role parts created, stored)
  | _ => Some (m, [])
  end.

(** The row with another message. *)
Definition set_row_message (message : NormalizedMessage) (m : StoredMessage) : StoredMessage :=
  mkStored (st_sequence m) (set_message message (cm_timing (st_chat m)) (st_chat m)).

Definition externalize_row (m : StoredMessage) : option (StoredMessage * list Bytes) :=
  '(message, stored) ← externalize_message (cm_message (st_chat m)); Some (set_row_message message m, stored).
Definition externalize_messages (ms : list StoredMessage) : option (list StoredMessage * list Bytes) := map_moved externalize_row ms.

Definition has_inline_part (part : AgentMessagePart) : bool :=
  match part with PartImage _ data _ _ _ _ _ => negb (bool_decide (data = ""%string)) | _ => false end.
Definition has_inline (m : NormalizedMessage) : bool :=
  match m with
  | MUser _ text _ attachments =>
      match legacy_captures text with [] => false | _ => true end || existsb (fun a => is_some (inline_image_payload a)) attachments
  | MAgentMessage _ _ parts _ => existsb has_inline_part parts
  | _ => false
  end.
Definition has_inline_images (ms : list StoredMessage) : bool := existsb (fun m => has_inline (cm_message (st_chat m))) ms.

(** ** Display sizes of references *)

Definition stored_dimensions (files : ImageFiles) (image_id : string) : option (Z * Z) :=
  if negb (is_image_id image_id) then None else f ← files !! image_id; display_dimensions (if_bytes f).

(** The size a reference lacks and its file gives. *)
Definition missing_attachment_dimensions (lookup : string -> option (Z * Z)) (a : Attachment) : option (Z * Z) :=
  image_id ← attachment_image_id a;
  match attachment_dimensions a with Some _ => None | None => lookup image_id end.
Definition missing_part_dimensions (lookup : string -> option (Z * Z)) (part : AgentMessagePart) : option (Z * Z) :=
  match part with PartImage _ _ (Some image_id) _ None _ _ => lookup image_id | _ => None end.

Definition add_attachment_dimensions (lookup : string -> option (Z * Z)) (a : Attachment) : Attachment :=
  match missing_attachment_dimensions lookup a, att_payload a ≫= as_object with
  | Some d, Some fields => set_payload (JObject (insert_dimensions (Some d) fields)) a
  | _, _ => a
  end.
Definition add_part_dimensions (lookup : string -> option (Z * Z)) (part : AgentMessagePart) : AgentMessagePart :=
  match missing_part_dimensions lookup part, part with
  | Some (w, h), PartImage media_type data image_id size_bytes _ _ uri =>
      PartImage media_type data image_id size_bytes (Some w) (Some h) uri
  | _, _ => part
  end.
Definition add_message_dimensions (lookup : string -> option (Z * Z)) (m : NormalizedMessage) : NormalizedMessage :=
  match m with
  | MUser id text created attachments => MUser id text created (add_attachment_dimensions lookup <$> attachments)
  | MAgentMessage id role parts created => MAgentMessage id role (add_part_dimensions lookup <$> parts) created
  | _ => m
  end.
Definition add_missing_dimensions (lookup : string -> option (Z * Z)) (ms : list StoredMessage) : list StoredMessage :=
  (fun m => set_row_message (add_message_dimensions lookup (cm_message (st_chat m))) m) <$> ms.

(** How many references [add_missing_dimensions] changes. *)
Definition described_references (lookup : string -> option (Z * Z)) (m : NormalizedMessage) : nat :=
  match m with
  | MUser _ _ _ attachments => length (omap (missing_attachment_dimensions lookup) attachments)
  | MAgentMessage _ _ parts _ => length (omap (missing_part_dimensions lookup) parts)
  | _ => 0%nat
  end.

Definition lacks_dimensions (m : NormalizedMessage) : bool :=
  match m with
  | MUser _ _ _ attachments =>
      existsb (fun a => is_some (attachment_image_id a) && negb (is_some (attachment_dimensions a))) attachments
  | MAgentMessage _ _ parts _ =>
      existsb (fun part => match part with PartImage _ _ (Some _) _ None _ _ => true | _ => false end) parts
  | _ => false
  end.
Definition has_references_without_dimensions (ms : list StoredMessage) : bool :=
  existsb (fun m => lacks_dimensions (cm_message (st_chat m))) ms.

(** ** What a row references *)

Definition referenced (m : NormalizedMessage) : list string :=
  match m with
  | MUser _ _ _ attachments => omap attachment_image_id attachments
  | MAgentMessage _ _ parts _ => omap (fun part => match part with PartImage _ _ image_id _ _ _ _ => image_id | _ => None end) parts
  | _ => []
  end.
Definition referenced_ids (ms : list StoredMessage) : gset string := 
  list_to_set (ms ≫= (fun m => referenced (cm_message (st_chat m)))).

(** ** The sweep *)

(** Non-overlapping matches of any of the ids, from the left. *)
Fixpoint find_ids (fuel : nat) (ids : list (list Z)) (bytes : Bytes) : list (list Z) :=
  match fuel with
  | O => []
  | S fuel =>
      match bytes with
      | [] => []
      | _ :: rest =>
          match head (filter (fun id => is_some (strip_prefix id bytes) = true) ids) with
          | Some id => id :: find_ids fuel ids (drop (length id) bytes)
          | None => find_ids fuel ids rest
          end
      end
  end.
Definition ids_mentioned_in (bytes : Bytes) (image_ids : list string) (into : gset string) : gset string :=
  let pending := filter (fun id => is_image_id id = true /\ id ∉ into) image_ids in
  list_to_set (of_bytes <$> find_ids (S (length bytes)) (bytes_of <$> pending) bytes) ∪ into.

(** The files of the Subagents' histories: their names and bytes; a file that a
    compaction removed meanwhile is skipped. *)
Definition STREAM_HEAD_FILE : string := "stream.json".
Definition subagent_image_references (histories : list (string * option Bytes)) (image_ids : list string) : gset string :=
  foldl (fun found file =>
           if bool_decide (file.1 = STREAM_HEAD_FILE) then found
           else match file.2 with Some bytes => ids_mentioned_in bytes image_ids found | None => found end) ∅ histories.

Definition sweep_candidates (now : Z) (chat_referenced : gset string) (files : ImageFiles) : list string :=
  (filter (fun e => is_image_id e.1 = true /\ (e.1 ∉ chat_referenced) /\ (if_modified e.2 <= now) /\
                    (UNREFERENCED_GRACE <= now - if_modified e.2)) (map_to_list files)).*1.

(** [remove_unreferenced]; [failed] tells the first removal that fails, if any. *)
Definition remove_unreferenced (now : Z) (chat_referenced : gset string)
    (also_referenced : list string -> result (gset string) RuntimeError) (failed : nat) (files : ImageFiles)
  : result nat RuntimeError * ImageFiles :=
  match sweep_candidates now chat_referenced files with
  | [] => (Ok 0%nat, files)
  | candidates =>
      match also_referenced candidates with
      | Err e => (Err e, files)
      | Ok kept =>
          let unreferenced := filter (fun id => id ∉ kept) candidates in
          let removed := take failed unreferenced in
          (if bool_decide (failed < length unreferenced)%nat then Err (Storage "remove_file") else Ok (length unreferenced),
           foldr delete files removed)
      end
  end.

Definition sweep_unreferenced (now : Z) (histories : result (list (string * option Bytes)) RuntimeError) (failed : nat)
    (p : TaskProjection) (files : ImageFiles) : ImageFiles :=
  (remove_unreferenced now (referenced_ids (pj_messages p))
     (fun candidates => let? h := histories in Ok (subagent_image_references h candidates)) failed files).2.

(** ** The Task journal *)

Definition externalize_operation (op : TaskOperation) : option (TaskOperation * list Bytes) :=
  let moved p := '(ms, stored) ← externalize_messages (pj_messages p);
                 Some (mkProjection (pj_task p) ms (pj_message_meta p) (pj_artifact_heads p), stored) in
  match op with
  | Create p => '(p, stored) ← moved p; Some (Create p, stored)
  | ReplaceProjection p => '(p, stored) ← moved p; Some (ReplaceProjection p, stored)
  | AppendMessage m => '(m, stored) ← externalize_row m; Some (AppendMessage m, stored)
  | UpsertMessage m => '(m, stored) ← externalize_row m; Some (UpsertMessage m, stored)
  | ReplaceMessages ms meta => '(ms, stored) ← externalize_messages ms; Some (ReplaceMessages ms meta, stored)
  | _ => Some (op, [])
  end.
Definition externalize_operations (ops : list TaskOperation) : option (list TaskOperation * list Bytes) :=
  map_moved externalize_operation ops.

Definition store_all (now : Z) (stored : list Bytes) (files : ImageFiles) : ImageFiles :=
  foldl (fun files bytes => (store now bytes files).2) files stored.

(** [migrate_projection]: whether it changed, the projection and the files. *)
Definition migrate_projection (now : Z) (p : TaskProjection) (files : ImageFiles)
  : result (bool * TaskProjection) RuntimeError * ImageFiles :=
  if negb (has_inline_images (pj_messages p)) && negb (has_references_without_dimensions (pj_messages p))
  then (Ok (false, p), files)
  else
    match externalize_messages (pj_messages p) with
    | None => (Err (Storage "Stored Chat image is not valid base64"), files)
    | Some (ms, stored) =>
        let files := store_all now stored files in
        let lookup := stored_dimensions files in
        let described := sum_list ((fun m => described_references lookup (cm_message (st_chat m))) <$> ms) in
        (Ok (bool_decide (0 < length stored + described)%nat,
             mkProjection (pj_task p) (add_missing_dimensions lookup ms) (pj_message_meta p) (pj_artifact_heads p)), files)
    end.

(** ** Rows that were moved *)

Lemma map_moved_Some {A} (f : A -> option (A * list Bytes)) l l' stored : map_moved f l = Some (l', stored) ->
  Forall2 (fun x y => exists b, f x = Some (y, b) /\ b ⊆ stored) l l'.
Proof.
  revert l' stored. induction l as [|x l IH]; intros l' stored; cbn; [by intros [= <- <-]|].
  destruct (f x) as [[y b]|] eqn:Ex; cbn; [|done]. destruct (map_moved f l) as [[l1 rest]|]; cbn; [|done]. intros [= <- <-].
  constructor; [exists b; split; [done|set_solver]|]. eapply Forall2_impl; [by apply IH|]. intros u v (c & Hc & Hs). exists c. split; [done|set_solver].
Qed.

Lemma map_moved_again {A} (f : A -> option (A * list Bytes)) l l' stored : (forall x y b, f x = Some (y, b) -> f y = Some (y, [])) ->
  map_moved f l = Some (l', stored) -> map_moved f l' = Some (l', []).
Proof.
  intros Hf H. apply map_moved_Some in H. induction H as [|x y l l' (b & Hx & _) _ IH]; [done|]. cbn. by rewrite (Hf _ _ _ Hx), IH.
Qed.

Lemma map_moved_none {A} (f : A -> option (A * list Bytes)) l : map_moved f l = Some (l, []) <-> Forall (fun x => f x = Some (x, [])) l.
Proof.
  induction l as [|x l IH]; cbn; [done|]. rewrite Forall_cons, <- IH. destruct (f x) as [[y b]|]; cbn; [|naive_solver].
  destruct (map_moved f l) as [[l1 rest]|]; cbn; [|naive_solver]. destruct b, rest; naive_solver.
Qed.

Lemma part_again part part' b : externalize_part part = Some (part', b) -> externalize_part part' = Some (part', []).
Proof.
  destruct part as [text|mt data id size w h uri|u n t d m s x|c m u]; cbn; try by intros [= <- <-].
  case_bool_decide as Hd; [intros [= <- <-]; cbn; by rewrite bool_decide_eq_true_2|].
  destruct (base64_decode data); cbn; [|done]. intros [= <- <-]. done.
Qed.

Lemma insert_dimensions_other k d fields : k <> "width"%string -> k <> "height"%string -> field k (insert_dimensions d fields) = field k fields.
Proof. intros Hw Hh. unfold insert_dimensions. destruct d as [[w h]|]; [|done]. rewrite !field_insert_ne; done. Qed.

Lemma no_data_no_payload kind label path fields : field "data" fields = None ->
  inline_image_payload (mkAttachment kind label path (Some (JObject fields))) = None.
Proof.
  intros H. unfold inline_image_payload. cbn. rewrite H. destruct (field "mimeType" fields) as [v|]; cbn; [|done].
  destruct (as_str v); cbn; [|done]. by destruct (negb _).
Qed.

Lemma attachment_again a a' b : externalize_attachment a = Some (a', b) -> externalize_attachment a' = Some (a', []).
Proof.
  unfold externalize_attachment at 1. destruct (inline_image_payload a) as [data|] eqn:Ei.
  2: { intros [= <- <-]. unfold externalize_attachment. by rewrite Ei. }
  destruct (att_payload a ≫= as_object) as [fields|] eqn:Ef.
  2: { intros [= <- <-]. unfold externalize_attachment. by rewrite Ei, Ef. }
  destruct (base64_decode data); cbn [mbind option_bind]; [|done]. intros [= <- <-]. unfold externalize_attachment, set_payload.
  rewrite no_data_no_payload; [done|]. unfold referenced_payload. rewrite insert_dimensions_other, !field_insert_ne, field_remove_eq; done.
Qed.

(** A message whose images have moved and whose text holds none. *)
Definition settled (m : NormalizedMessage) : Prop := externalize_message m = Some (m, []).
Definition plain_text (m : NormalizedMessage) : Prop := match m with MUser _ text _ _ => legacy_captures text = [] | _ => True end.

Lemma message_again m m' b : externalize_message m = Some (m', b) -> plain_text m' -> settled m'.
Proof.
  unfold settled. destruct m as [id text created attachments|id role parts created| | | | | |]; cbn; try by intros [= <- <-].
  - destruct (move_legacy_text_images text attachments) as [text1 attachments1].
    destruct (map_moved externalize_attachment attachments1) as [[l b']|] eqn:E; cbn [mbind option_bind]; [|done]. intros [= <- <-]. cbn.
    intros Hp. unfold move_legacy_text_images. rewrite Hp. by rewrite (map_moved_again _ _ _ _ attachment_again E).
  - destruct (map_moved externalize_part parts) as [[l b']|] eqn:E; cbn [mbind option_bind]; [|done]. intros [= <- <-] _. cbn.
    by rewrite (map_moved_again _ _ _ _ part_again E).
Qed.

Lemma part_inline part part' b : externalize_part part = Some (part', b) -> has_inline_part part' = false.
Proof.
  destruct part as [text|mt data id size w h uri|u n t d m s x|c m u]; cbn; try by intros [= <- <-].
  case_bool_decide as Hd; [intros [= <- <-]; cbn; by rewrite bool_decide_eq_true_2|].
  destruct (base64_decode data); cbn; [|done]. by intros [= <- <-].
Qed.

Lemma payload_fields a data : inline_image_payload a = Some data -> exists fields, att_payload a ≫= as_object = Some fields.
Proof.
  unfold inline_image_payload. destruct (att_payload a) as [p|]; cbn; [|done]. destruct (as_object p) as [fields|]; cbn; [|done]. by eexists.
Qed.

Lemma attachment_inline a a' b : externalize_attachment a = Some (a', b) -> inline_image_payload a' = None.
Proof.
  unfold externalize_attachment. destruct (inline_image_payload a) as [data|] eqn:Ei; [|by intros [= <- <-]].
  destruct (payload_fields _ _ Ei) as [fields ->]. destruct (base64_decode data); cbn [mbind option_bind]; [|done]. intros [= <- <-].
  apply no_data_no_payload. unfold referenced_payload. rewrite insert_dimensions_other, !field_insert_ne, field_remove_eq; done.
Qed.

Lemma none_satisfies {A} (p : A -> bool) l : Forall (fun x => p x = false) l -> existsb p l = false.
Proof. induction 1 as [|x l Hx _ IH]; cbn; [done|]. by rewrite Hx, IH. Qed.

Lemma moved_result {A} (f : A -> option (A * list Bytes)) (P : A -> Prop) l l' stored : (forall x y b, f x = Some (y, b) -> P y) ->
  map_moved f l = Some (l', stored) -> Forall P l'.
Proof. intros Hf H. apply map_moved_Some in H. induction H as [|x y l l' (b & Hx & _) _ IH]; constructor; [by eapply Hf|done]. Qed.

Lemma message_inline m m' b : externalize_message m = Some (m', b) -> plain_text m' -> has_inline m' = false.
Proof.
  destruct m as [id text created attachments|id role parts created| | | | | |]; cbn; try by intros [= <- <-].
  - destruct (move_legacy_text_images text attachments) as [text1 attachments1].
    destruct (map_moved externalize_attachment attachments1) as [[l b']|] eqn:E; cbn [mbind option_bind]; [|done]. intros [= <- <-] Hp. cbn in *.
    rewrite Hp. cbn. apply none_satisfies. apply (moved_result _ _ _ _ _ (fun x y b H => f_equal is_some (attachment_inline x y b H)) E).
  - destruct (map_moved externalize_part parts) as [[l b']|] eqn:E; cbn [mbind option_bind]; [|done]. intros [= <- <-] _. cbn.
    apply none_satisfies. apply (moved_result _ _ _ _ _ part_inline E).
Qed.

(** ** References have their bytes *)

(** Every file is named by the hash of its bytes. *)
Definition files_ok (files : ImageFiles) : Prop := forall id f, files !! id = Some f -> hex (sha256 (if_bytes f)) = id.
Definition backed (files : ImageFiles) (ids : list string) : Prop := Forall (fun id => is_Some (files !! id)) ids.

Lemma store_files now bytes files : files_ok files ->
  files_ok (store now bytes files).2 /\ is_Some ((store now bytes files).2 !! hex (sha256 bytes)) /\
  forall id, is_Some (files !! id) -> is_Some ((store now bytes files).2 !! id).
Proof.
  intros Hok. unfold store. cbn.
  assert (forall f, hex (sha256 (if_bytes f)) = hex (sha256 bytes) ->
    files_ok (<[hex (sha256 bytes) := f]> files) /\ is_Some ((<[hex (sha256 bytes) := f]> files : ImageFiles) !! hex (sha256 bytes)) /\
    forall id, is_Some (files !! id) -> is_Some ((<[hex (sha256 bytes) := f]> files : ImageFiles) !! id)) as Hins.
  { intros f Hf. split_and!.
    - intros id g [[<- <-]|[_ Hg]]%lookup_insert_Some; [done|by apply Hok].
    - by rewrite lookup_insert_eq.
    - intros id Hid. destruct (decide (hex (sha256 bytes) = id)) as [<- |E]; [by rewrite lookup_insert_eq|by rewrite lookup_insert_ne]. }
  destruct (files !! hex (sha256 bytes)) as [f|] eqn:E; [|by apply Hins]. case_bool_decide; apply Hins; [by apply (Hok _ _ E)|done].
Qed.

Lemma store_all_files now stored files : files_ok files ->
  files_ok (store_all now stored files) /\ backed (store_all now stored files) ((fun b => hex (sha256 b)) <$> stored) /\
  forall id, is_Some (files !! id) -> is_Some (store_all now stored files !! id).
Proof.
  unfold store_all, backed. revert files. induction stored as [|b stored IH]; intros files Hok; cbn [foldl]; [split_and!; [done|constructor|done]|].
  destruct (store_files now b files Hok) as (H1 & H2 & H3). destruct (IH _ H1) as (G1 & G2 & G3). split_and!; [done| |by eauto].
  rewrite fmap_cons. constructor; [by apply G3|done].
Qed.

Definition part_image_id (part : AgentMessagePart) : option string := match part with PartImage _ _ image_id _ _ _ _ => image_id | _ => None end.

(** A moved row references what it referenced and what it stored. *)
Lemma part_references part part' b id : externalize_part part = Some (part', b) -> part_image_id part' = Some id ->
  part_image_id part = Some id \/ id ∈ (fun b => hex (sha256 b)) <$> b.
Proof.
  destruct part as [text|mt data i size w h uri|u n t d m s x|c m u]; cbn; try by (intros [= <- <-]; cbn; auto).
  case_bool_decide as Hd; [intros [= <- <-]; cbn; auto|]. destruct (base64_decode data) as [bytes|]; cbn; [|done].
  intros [= <- <-] [= <-]. right. set_solver.
Qed.

Lemma attachment_references a a' b id : externalize_attachment a = Some (a', b) -> attachment_image_id a' = Some id ->
  attachment_image_id a = Some id \/ id ∈ (fun b => hex (sha256 b)) <$> b.
Proof.
  unfold externalize_attachment. destruct (inline_image_payload a) as [data|] eqn:Ei; [|intros [= <- <-]; auto].
  destruct (payload_fields _ _ Ei) as [fields ->]. destruct (base64_decode data) as [bytes|]; cbn [mbind option_bind]; [|done]. intros [= <- <-].
  unfold attachment_image_id at 1. cbn. unfold referenced_payload. rewrite insert_dimensions_other, field_insert_ne, field_insert_eq by done. cbn.
  destruct (is_image_id _); [|done]. intros [= <-]. right. set_solver.
Qed.

Lemma moved_references {A} (f : A -> option (A * list Bytes)) (ref : A -> option string) l l' stored id :
  (forall x y b, f x = Some (y, b) -> ref y = Some id -> ref x = Some id \/ id ∈ (fun b => hex (sha256 b)) <$> b) ->
  map_moved f l = Some (l', stored) -> id ∈ omap ref l' -> id ∈ omap ref l \/ id ∈ (fun b => hex (sha256 b)) <$> stored.
Proof.
  intros Hf. revert l' stored. induction l as [|x l IH]; intros l' stored; cbn [map_moved]; [by intros [= <- <-]; auto|].
  destruct (f x) as [[y b]|] eqn:Ex; cbn [mbind option_bind]; [|done].
  destruct (map_moved f l) as [[l1 rest]|] eqn:El; cbn [mbind option_bind]; [|done]. intros [= <- <-] Hin.
  rewrite fmap_app, elem_of_app. apply list_elem_of_omap in Hin as (z & Hz & Hr). apply elem_of_cons in Hz as [-> |Hz].
  - destruct (Hf _ _ _ Ex Hr) as [H|H]; [left|by right; left]. apply list_elem_of_omap. exists x. split; [by left|done].
  - destruct (IH l1 rest eq_refl) as [H|H]; [by apply list_elem_of_omap; exists z| |by right; right].
    left. apply list_elem_of_omap in H as (u & Hu & Hru). apply list_elem_of_omap. exists u. split; [by right|done].
Qed.

Lemma legacy_no_reference captures : omap attachment_image_id (legacy_attachment <$> captures) = [].
Proof. by induction captures. Qed.

Lemma message_references m m' stored id : externalize_message m = Some (m', stored) -> id ∈ referenced m' ->
  id ∈ referenced m \/ id ∈ (fun b => hex (sha256 b)) <$> stored.
Proof.
  destruct m as [i text created attachments|i role parts created| | | | | |]; cbn; try by (intros [= <- <-]; auto).
  - destruct (move_legacy_text_images text attachments) as [text1 attachments1] eqn:El.
    destruct (map_moved externalize_attachment attachments1) as [[l b']|] eqn:E; cbn [mbind option_bind]; [|done]. intros [= <- <-] Hin. cbn in Hin.
    destruct (moved_references _ _ _ _ _ id (fun x y b => attachment_references x y b id) E Hin) as [H|H]; [left|by right].
    unfold move_legacy_text_images in El. destruct (legacy_captures text) as [|c captures]; injection El as <- <-; [done|].
    rewrite omap_app in H. change (_ :: list_fmap _ _ _ _) with (legacy_attachment <$> c :: captures) in H.
    by rewrite legacy_no_reference, app_nil_r in H.
  - destruct (map_moved externalize_part parts) as [[l b']|] eqn:E; cbn [mbind option_bind]; [|done]. intros [= <- <-] Hin. cbn in Hin.
    exact (moved_references _ part_image_id _ _ _ id (fun x y b => part_references x y b id) E Hin).
Qed.

Lemma rows_references ms ms' stored id : externalize_messages ms = Some (ms', stored) -> id ∈ referenced_ids ms' ->
  id ∈ referenced_ids ms \/ id ∈ (fun b => hex (sha256 b)) <$> stored.
Proof.
  unfold referenced_ids. rewrite !elem_of_list_to_set. unfold externalize_messages. revert ms' stored.
  induction ms as [|m ms IH]; intros ms' stored; cbn [map_moved]; [by intros [= <- <-]; auto|].
  destruct (externalize_row m) as [[row b]|] eqn:Er; cbn [mbind option_bind]; [|done].
  destruct (map_moved externalize_row ms) as [[l rest]|]; cbn [mbind option_bind]; [|done]. intros [= <- <-].
  rewrite fmap_app. cbn [mbind list_bind]. rewrite !elem_of_app. intros [H|H].
  - unfold externalize_row in Er. destruct (externalize_message _) as [[message b']|] eqn:Em; cbn in Er; [|done]. injection Er as <- <-.
    cbn in H. destruct (message_references _ _ _ _ Em H); tauto.
  - destruct (IH l rest eq_refl H); tauto.
Qed.

(** ** The sweep *)

Lemma strip_prefix_Some w l rest : strip_prefix w l = Some rest <-> l = w ++ rest.
Proof.
  revert l. induction w as [|a w IH]; intros l; cbn; [naive_solver|]. destruct l as [|b l]; cbn; [naive_solver|].
  case_bool_decide as E; [subst; rewrite IH; naive_solver|]. split; [done|]. by intros [= -> _].
Qed.

Lemma image_id_bytes id : is_image_id id = true -> length (bytes_of id) = 64%nat /\ Forall (fun b => lower_hex b = true) (bytes_of id).
Proof. unfold is_image_id. intros [H1 H2]%andb_true_iff. apply bool_decide_eq_true in H1. split; [done|]. apply Forall_forall. intros b Hb.
  rewrite forallb_forall in H2. by apply H2, list_elem_of_In. Qed.

(** An id in quotes: what comes before it is not part of an id. *)
Definition quoted (id : string) (bytes : Bytes) : Prop :=
  exists pre q post, bytes = pre ++ q :: bytes_of id ++ post /\ lower_hex q = false.

(** A match cannot reach over a byte that is not part of an id. *)
Lemma match_before w pre q post rest : Forall (fun b => lower_hex b = true) w -> lower_hex q = false ->
  pre ++ q :: post = w ++ rest -> exists pre', pre = w ++ pre' /\ rest = pre' ++ q :: post.
Proof.
  intros Hw Hq. revert pre. induction w as [|b w IH]; intros pre E; cbn in E; [by exists pre|]. apply Forall_cons in Hw as [Hb Hw].
  destruct pre as [|c pre]; cbn in E; injection E as -> E; [congruence|]. destruct (IH Hw pre E) as (pre' & -> & ->). by exists pre'.
Qed.

Lemma found_id ids w post fuel : Forall (fun v => length v = length w) ids -> w ∈ ids -> (0 < length w)%nat ->
  w ∈ find_ids (S fuel) ids (w ++ post).
Proof.
  intros Hl Hin Hpos. cbn. destruct (w ++ post) as [|x rest] eqn:E; [destruct w; cbn in *; [lia|done]|].
  destruct (head _) as [v|] eqn:Eh.
  - apply head_Some_elem_of, list_elem_of_filter in Eh as [Hv Hvin]. destruct (strip_prefix v (x :: rest)) as [r|] eqn:Ev; [|done].
    apply strip_prefix_Some in Ev. rewrite <- E in Ev. rewrite Forall_forall in Hl. apply app_inj_1 in Ev as [-> _]; [by left|]. by rewrite (Hl v Hvin).
  - apply head_None in Eh. assert (w ∈ (filter (fun id => is_some (strip_prefix id (x :: rest)) = true) ids)) as Hf.
    { apply list_elem_of_filter. split; [|done]. assert (strip_prefix w (x :: rest) = Some post) as -> by (by apply strip_prefix_Some). done. }
    rewrite Eh in Hf. by apply not_elem_of_nil in Hf.
Qed.

Lemma find_ids_quoted fuel ids w pre q post : Forall (fun v => length v = length w /\ Forall (fun b => lower_hex b = true) v) ids ->
  w ∈ ids -> (0 < length w)%nat -> lower_hex q = false -> (S (length pre) < fuel)%nat -> w ∈ find_ids fuel ids (pre ++ q :: w ++ post).
Proof.
  intros Hids Hin Hpos Hq. assert (Forall (fun v => length v = length w) ids) as Hl by (eapply Forall_impl; [exact Hids|]; by intros v []).
  revert pre. induction fuel as [|fuel IH]; intros pre Hf; [lia|]. cbn [find_ids].
  destruct (pre ++ q :: w ++ post) as [|x rest] eqn:E; [by destruct pre|].
  destruct (head _) as [v|] eqn:Eh.
  - apply head_Some_elem_of, list_elem_of_filter in Eh as [Hv Hvin]. destruct (strip_prefix v (x :: rest)) as [r|] eqn:Ev; [|done].
    apply strip_prefix_Some in Ev. rewrite <- E in Ev. rewrite Forall_forall in Hids. destruct (Hids v Hvin) as [Hlen Hhex].
    destruct (match_before _ _ _ _ _ Hhex Hq Ev) as (pre' & -> & ->). right. rewrite <- E, Ev, drop_app_length. apply IH.
    rewrite length_app in Hf. lia.
  - destruct pre as [|c pre]; cbn in E, Hf; injection E as <- <-; [|apply IH; lia]. destruct fuel as [|fuel]; [lia|]. by apply found_id.
Qed.

Lemma mentioned_grows bytes ids into : into ⊆ ids_mentioned_in bytes ids into.
Proof. unfold ids_mentioned_in. set_solver. Qed.

Lemma mentioned_quoted bytes ids into id : is_image_id id = true -> id ∈ ids -> quoted id bytes -> id ∈ ids_mentioned_in bytes ids into.
Proof.
  intros Hid Hin (pre & q & post & -> & Hq). unfold ids_mentioned_in. destruct (decide (id ∈ into)) as [Hi|Hi]; [set_solver|].
  apply elem_of_union. left. apply elem_of_list_to_set, list_elem_of_fmap. exists (bytes_of id). split; [by rewrite of_bytes_of|].
  destruct (image_id_bytes id Hid) as [Hlen _]. apply find_ids_quoted; [| |lia|done|rewrite length_app; cbn; lia].
  - apply Forall_fmap, Forall_forall. intros v [[Hv _] _]%list_elem_of_filter. cbn. destruct (image_id_bytes v Hv). split; [lia|done].
  - apply list_elem_of_fmap. exists id. split; [done|]. by apply list_elem_of_filter.
Qed.

Lemma history_mentions histories ids id name bytes : is_image_id id = true -> id ∈ ids -> (name, Some bytes) ∈ histories ->
  name <> STREAM_HEAD_FILE -> quoted id bytes -> id ∈ subagent_image_references histories ids.
Proof.
  intros Hid Hin Hfile Hname Hq. unfold subagent_image_references. set (step := fun (found : gset string) (file : string * option Bytes) => _).
  assert (forall hs found, found ⊆ foldl step found hs) as Hgrow.
  { intros hs. induction hs as [|h hs IH]; intros found; cbn [foldl]; [done|]. etrans; [|apply IH]. unfold step. case_bool_decide; [done|].
    destruct h.2; [apply mentioned_grows|done]. }
  cut (forall found, id ∈ foldl step found histories); [auto|]. induction histories as [|h hs IH]; intros found; [by apply not_elem_of_nil in Hfile|].
  cbn [foldl]. apply elem_of_cons in Hfile as [<- |Hfile]; [|by apply IH]. apply Hgrow. unfold step. cbn [fst snd].
  rewrite bool_decide_eq_false_2 by done. by apply mentioned_quoted.
Qed.

Lemma deleted_lookup (ids : list string) (files : ImageFiles) id : id ∉ ids -> foldr delete files ids !! id = files !! id.
Proof. induction ids as [|x ids IH]; cbn; [done|]. intros [Hx Hn]%not_elem_of_cons. rewrite lookup_delete_ne by done. by apply IH. Qed.

Lemma removed_only now referenced also failed files id : files !! id <> (remove_unreferenced now referenced also failed files).2 !! id ->
  exists kept, also (sweep_candidates now referenced files) = Ok kept /\ id ∈ sweep_candidates now referenced files /\ id ∉ kept.
Proof.
  unfold remove_unreferenced. destruct (sweep_candidates now referenced files) as [|c cs] eqn:E; [done|].
  destruct (also (c :: cs)) as [kept|e]; cbn [snd]; [|done]. intros Hne. exists kept. split; [done|].
  destruct (decide (id ∈ take failed (filter (fun id => id ∉ kept) (c :: cs)))) as [Hin|Hn].
  - assert (id ∈ filter (fun id => id ∉ kept) (c :: cs)) as H.
    { rewrite <- (take_drop failed (filter _ _)). apply elem_of_app. by left. }
    by apply list_elem_of_filter in H as [H1 H2].
  - destruct Hne. by rewrite deleted_lookup.
Qed.

(** What keeps an image file through a sweep. *)
Definition in_use (now : Z) (histories : result (list (string * option Bytes)) RuntimeError) (p : TaskProjection) (id : string) (f : ImageFile)
  : Prop :=
  id ∈ referenced_ids (pj_messages p) \/
  (exists h name bytes, histories = Ok h /\ (name, Some bytes) ∈ h /\ name <> STREAM_HEAD_FILE /\ quoted id bytes) \/
  now - if_modified f < UNREFERENCED_GRACE.

(** C36. The sweep of image files never takes bytes that may be referenced: a file
    that a Chat row of the Task references, that any readable history file of a
    Subagent names, or that was written or refreshed within the grace period is
    still there, unchanged, whatever removal fails; and only files named like
    images are removed at all. *)
Theorem sweep_keeps_images_in_use now histories failed p files id f : files !! id = Some f ->
  in_use now histories p id f \/ is_image_id id = false -> sweep_unreferenced now histories failed p files !! id = Some f.
Proof.
  intros Hf Huse. unfold sweep_unreferenced. set (also := fun candidates : list string => _).
  destruct (decide (files !! id = (remove_unreferenced now (referenced_ids (pj_messages p)) also failed files).2 !! id)) as [E|E]; [congruence|].
  exfalso. apply removed_only in E as (kept & Hkept & Hin & Hn). pose proof Hin as Hcand. unfold sweep_candidates in Hcand.
  apply list_elem_of_fmap in Hcand as ([k g] & -> & [(Hid & Href & Hpast & Hage) Hg]%list_elem_of_filter). cbn in *.
  apply elem_of_map_to_list in Hg. assert (g = f) as -> by congruence. destruct Huse as [[H|[(h & name & bytes & -> & Hfile & Hname & Hq)|H]]|H].
  - done.
  - unfold also in Hkept. cbn in Hkept. injection Hkept as <-. by eapply Hn, history_mentions.
  - lia.
  - congruence.
Qed.

(** A row never references bytes the Task does not have: when the images of
    messages move to files, every image the moved rows reference has a file whose
    bytes hash to its name, given that of the rows before; files that were there
    stay; and the moved rows hold no inline image. *)
Theorem moved_images_are_backed now ms ms' stored files : externalize_messages ms = Some (ms', stored) -> files_ok files ->
  (forall id, id ∈ referenced_ids ms -> is_Some (files !! id)) -> Forall (fun m => plain_text (cm_message (st_chat m))) ms' ->
  let files' := store_all now stored files in
  files_ok files' /\ (forall id, id ∈ referenced_ids ms' -> is_Some (files' !! id)) /\ (forall id, is_Some (files !! id) -> is_Some (files' !! id)) /\
  has_inline_images ms' = false.
Proof.
  intros He Hok Hrefs Hplain files'. destruct (store_all_files now stored files Hok) as (H1 & H2 & H3). split_and!; [done| |done|].
  - intros id Hid. destruct (rows_references _ _ _ _ He Hid) as [H|H]; [by apply H3, Hrefs|]. unfold backed in H2. rewrite Forall_forall in H2. by apply H2.
  - apply none_satisfies. unfold externalize_messages in He. apply map_moved_Some in He.
    clear - He Hplain. induction He as [|x y l l' (b & Hx & _) _ IH]; [constructor|]. apply Forall_cons in Hplain as [Hp Hplain].
    constructor; [|by apply IH]. unfold externalize_row in Hx. destruct (externalize_message _) as [[message b']|] eqn:Em; cbn in Hx; [|done].
    injection Hx as <- <-. by eapply message_inline.
Qed.
End Images.

(** ** Witnesses *)

Module ImageWitness.
Import ChatWitness.

(** Codecs for examples: data is its own encoding, a hash pads its input. *)
#[global] Instance plain_codecs : ImageCodecs :=
  {| base64_decode := fun s => Some (bytes_of s); sha256 := fun b => take 32 (b ++ repeat 171 32);
     image_header := fun b => Some (4, 3, Some Rotate90);
     legacy_captures := fun s => if bool_decide (s = "[@image](x)"%string) then [("image/PNG"%string, "leg acy"%string)] else [];
     legacy_removed := fun _ => " "%string |}.

Definition image_row (data : string) (id : option string) : StoredMessage :=
  mkStored 1 (mkChat "m:1" "m" "agent_message" "m"
    (MAgentMessage "m" RoleAgent [PartText "see"; PartImage "image/png" data id None None None None] "1") (mkTiming None None None)).
Definition user_row : StoredMessage :=
  mkStored 2 (mkChat "m:2" "u" "user" "u"
    (MUser "u" "[@image](x)" "1" [mkAttachment "image" "Shot" None
       (Some (JObject [("data"%string, JString "shot"); ("mimeType"%string, JString "image/png")]))]) (mkTiming None None None)).

Definition rows : list StoredMessage := [image_row "cat" None; user_row].
Definition moved : list StoredMessage * list Bytes := default ([], []) (externalize_messages rows).
Definition id_of (data : string) : string := hex (sha256 (bytes_of data)).

Example rows_move :
  externalize_messages rows = Some moved /\ moved.2 = [bytes_of "cat"; bytes_of "shot"; bytes_of "legacy"] /\
  referenced ∘ cm_message ∘ st_chat <$> moved.1 = [[id_of "cat"]; [id_of "shot"; id_of "legacy"]] /\ is_image_id (id_of "cat") = true.
Proof. split_and!; vm_compute; reflexivity. Qed.

Lemma moved_images_are_backed_witness :
  let files := store_all 5 moved.2 ∅ in
  files_ok files /\ (forall id, id ∈ referenced_ids moved.1 -> is_Some (files !! id)) /\
  (forall id, is_Some ((∅ : ImageFiles) !! id) -> is_Some (files !! id)) /\ has_inline_images moved.1 = false.
Proof.
  apply (moved_images_are_backed 5 rows moved.1 moved.2 ∅).
  - vm_compute. reflexivity.
  - intros id f. by rewrite lookup_empty.
  - intros id Hid. assert (referenced_ids rows = ∅) as E by (vm_compute; reflexivity). rewrite E in Hid. by apply not_elem_of_empty in Hid.
  - vm_compute. repeat constructor.
Defined.

(** An old file that only a Subagent's history names, in quotes. *)
Definition old_files : ImageFiles := {[id_of "cat" := mkImageFile (bytes_of "cat") 0; id_of "gone" := mkImageFile (bytes_of "gone") 0]}.
Definition named : list Z := bytes_of "'" ++ bytes_of (id_of "cat") ++ bytes_of "'".
Definition histories : result (list (string * option Bytes)) RuntimeError := Ok [("chat.journal.1"%string, Some named)].
Definition now : Z := UNREFERENCED_GRACE + 1.
Definition swept : TaskProjection := mkProjection (RecordWitness.sample "t") [] (JournalWitness.meta 1) ∅.

Lemma sweep_keeps_images_in_use_witness :
  sweep_unreferenced now histories 9 swept old_files !! id_of "gone" = None /\
  sweep_unreferenced now histories 9 swept old_files !! id_of "cat" = Some (mkImageFile (bytes_of "cat") 0).
Proof.
  split; [vm_compute; reflexivity|].
  apply (sweep_keeps_images_in_use now histories 9 swept old_files (id_of "cat") (mkImageFile (bytes_of "cat") 0)).
  - vm_compute. reflexivity.
  - left. right. left. exists [("chat.journal.1"%string, Some named)], "chat.journal.1"%string, named. split_and!; [reflexivity|by left|done|].
    exists [], 39, (bytes_of "'"). split; reflexivity.
Defined.
End ImageWitness.
