(* ===== verification/Draft.v ===== *)
(** * A draft and its journal operations agree

    The client of [Mutation] edits a draft of a Task and records Chat changes
    for publication; [journal_operations] turns the recorded changes into the
    operations that reach the disk.  This file proves that the journal rebuilds
    the draft exactly, for every sequence of edits. *)

From S2P Require Import Prelude Chat Records Journal Mutation.

Local Open Scope Z_scope.

Section Draft.
Context `{CP : ChatPayloads}.

(** ** Rows *)

(** What no edit changes of a row. *)
Definition core (m : StoredMessage) : Z * string * string :=
  (st_sequence m, cm_identity (st_chat m), cm_message_id (st_chat m)).
Definition row_id (m : StoredMessage) : string := cm_message_id (st_chat m).
Definition row_ids (ms : list StoredMessage) : list string := row_id <$> ms.

Lemma row_ids_core ms ms' : core <$> ms = core <$> ms' -> row_ids ms = row_ids ms'.
Proof.
  intros H. apply (f_equal (fmap (fun c : Z * string * string => c.2))) in H.
  by rewrite <- !list_fmap_compose in H.
Qed.

Lemma unique_core ms ms' : core <$> ms = core <$> ms' -> unique_messages ms -> unique_messages ms'.
Proof.
  intros H. unfold unique_messages.
  pose proof (f_equal (fmap (fun c : Z * string * string => c.1.1)) H) as H1.
  pose proof (f_equal (fmap (fun c : Z * string * string => c.1.2)) H) as H2.
  pose proof (f_equal (fmap (fun c : Z * string * string => c.2)) H) as H3.
  rewrite <- !list_fmap_compose in H1, H2, H3.
  change (st_sequence <$> ms = st_sequence <$> ms') in H1.
  change (cm_identity ∘ st_chat <$> ms = cm_identity ∘ st_chat <$> ms') in H2.
  change (cm_message_id ∘ st_chat <$> ms = cm_message_id ∘ st_chat <$> ms') in H3.
  by rewrite H1, H2, H3.
Qed.

Lemma unique_app_l ms ms' : unique_messages (ms ++ ms') -> unique_messages ms.
Proof. unfold unique_messages. rewrite !fmap_app, !NoDup_app. naive_solver. Qed.

(** Rows of a unique list that share a part of their core are the same. *)
Lemma unique_lookup {A} (f : StoredMessage -> A) ms i j m m' :
  NoDup (f <$> ms) -> ms !! i = Some m -> ms !! j = Some m' -> f m = f m' -> i = j.
Proof.
  intros Hnd Hi Hj Hf. eapply (NoDup_lookup (f <$> ms) i j (f m)); [done|..]; rewrite list_lookup_fmap.
  - by rewrite Hi.
  - by rewrite Hj, Hf.
Qed.

Lemma find_message_lookup ms i m :
  NoDup (cm_identity ∘ st_chat <$> ms) -> ms !! i = Some m ->
  find_message (cm_identity (st_chat m)) ms = Some m
  /\ message_position (cm_identity (st_chat m)) ms = Some i
  /\ forall f, update_message (cm_identity (st_chat m)) f ms = <[i := f m]> ms.
Proof.
  revert i. induction ms as [|x ms IH]; intros i Hnd Hi; [done|]. rewrite fmap_cons in Hnd.
  apply NoDup_cons in Hnd as [Hx Hnd]. destruct i as [|i]; cbn in *.
  - injection Hi as ->. split_and!; [| |intros f]; by rewrite decide_True.
  - assert (cm_identity (st_chat x) <> cm_identity (st_chat m)) as Hne.
    { intros Heq. apply Hx. unfold compose. rewrite Heq. apply list_elem_of_fmap. exists m. split; [done|].
      by eapply list_elem_of_lookup_2. }
    rewrite !decide_False by done. destruct (IH i Hnd Hi) as (-> & -> & Hu). split; [done|]. split; [done|].
    intros f. rewrite decide_False by done. by rewrite Hu.
Qed.

Lemma find_by_id_lookup ms i m :
  NoDup (row_ids ms) -> ms !! i = Some m -> find_by_id (row_id m) ms = Some m.
Proof.
  revert i. induction ms as [|x ms IH]; intros i Hnd Hi; [done|]. unfold row_ids in Hnd. rewrite fmap_cons in Hnd.
  apply NoDup_cons in Hnd as [Hx Hnd]. destruct i as [|i]; cbn in *.
  - injection Hi as ->. by rewrite decide_True.
  - rewrite decide_False; [by eapply IH|]. intros Heq. apply Hx. unfold row_id at 1. rewrite Heq.
    apply list_elem_of_fmap. exists m. split; [done|]. by eapply list_elem_of_lookup_2.
Qed.

Lemma find_message_Some i ms m :
  find_message i ms = Some m -> cm_identity (st_chat m) = i /\ exists k, ms !! k = Some m.
Proof.
  induction ms as [|x ms IH]; cbn; [done|]. case_decide; [intros [= ->]; split; [done|by exists 0%nat]|].
  intros H'. destruct (IH H') as [Hi [k Hk]]. split; [done|]. by exists (S k).
Qed.

Lemma upsert_existing ms i m m' :
  unique_messages ms -> ms !! i = Some m -> core m' = core m -> upsert_message ms m' = Ok (<[i := m']> ms).
Proof.
  intros (Hs & Hi & Hid) Hm Hc. injection Hc as Hcs Hci Hcd. unfold upsert_message. rewrite Hci.
  destruct (find_message_lookup ms i m Hi Hm) as (_ & -> & _).
  replace (existsb _ _) with false; [done|]. symmetry. apply existsb_false. intros x Hx.
  apply list_elem_of_lookup in Hx as [j Hj].
  assert (exists k, k <> i /\ ms !! k = Some x) as (k & Hk & Hx).
  { destruct (decide (j < i)%nat).
    - exists j. split; [lia|]. by rewrite list_lookup_delete_lt in Hj.
    - exists (S j). split; [lia|]. by rewrite list_lookup_delete_ge in Hj by lia. }
  unfold collides_upsert. rewrite Hcs, Hcd. apply orb_false_iff. rewrite !bool_decide_eq_false.
  split; intros Heq; apply Hk.
  - by eapply (unique_lookup st_sequence).
  - by eapply (unique_lookup (cm_message_id ∘ st_chat)).
Qed.

Lemma append_fresh ms m :
  unique_messages (ms ++ [m]) ->
  validate_message_append ms m = Ok tt /\ upsert_message ms m = Ok (ms ++ [m]).
Proof.
  intros (Hs & Hi & Hid). rewrite fmap_app, NoDup_app in Hs. rewrite fmap_app, NoDup_app in Hi.
  rewrite fmap_app, NoDup_app in Hid.
  assert (forall {A} (f : StoredMessage -> A) x, (forall y, y ∈ f <$> ms -> y ∉ f <$> [m]) -> x ∈ ms -> f x <> f m) as Hne.
  { intros A f x Hf Hx Heq. apply (Hf (f x)); [by apply list_elem_of_fmap_2|]. rewrite Heq. left. }
  assert (validate_message_append ms m = Ok tt) as Hv.
  { unfold validate_message_append. replace (existsb _ _) with false; [done|]. symmetry. apply existsb_false.
    intros x Hx. unfold collides. rewrite !orb_false_iff, !bool_decide_eq_false.
    split_and!; [apply (Hne _ st_sequence)|apply (Hne _ (cm_identity ∘ st_chat))|apply (Hne _ (cm_message_id ∘ st_chat))];
      naive_solver. }
  split; [done|]. unfold upsert_message. pose proof (message_position_spec (cm_identity (st_chat m)) ms) as Hp.
  destruct (message_position _ ms) as [k|]; [|by rewrite Hv].
  destruct Hp as (l1 & x & l2 & -> & _ & Hx). exfalso.
  apply (Hne _ (cm_identity ∘ st_chat) x); [naive_solver| |done]. apply elem_of_app. right. left.
Qed.

(** ** What the recorded changes say of the draft *)

Definition change_ids (chat : list CommittedChatChange) : list string := omap change_message_id chat.

Definition texts_of (id : string) (chat : list CommittedChatChange) : list string :=
  omap (fun c => match c with ChatAppendText i text => if decide (i = id) then Some text else None | _ => None end) chat.

Definition push_texts (m : StoredMessage) (texts : list string) : StoredMessage := foldl (fun m t => push_text t m) m texts.

(** A row that [AppendText] accepts. *)
Definition text_row (m : StoredMessage) : Prop :=
  exists parts, parts_of m = Some parts /\ match last parts with Some p => is_text_part p | None => false end = true.

(** The ids of new rows in the order of their first change. *)
Definition add_new (base : list string) (acc : list string) (id : string) : list string :=
  if decide (id ∈ base ++ acc) then acc else acc ++ [id].
Definition new_ids (base : list StoredMessage) (chat : list CommittedChatChange) : list string :=
  foldl (add_new (row_ids base)) [] (change_ids chat).

(** A row of the base and what the draft made of it. *)
Record row_tracks (chat : list CommittedChatChange) (b f : StoredMessage) : Prop := {
  rt_core : core f = core b;
  rt_base : row_id b ∉ appended_ids chat;
  rt_text : row_id b ∉ upserted_ids chat -> f = push_texts b (texts_of (row_id b) chat);
  rt_target : row_id b ∉ upserted_ids chat -> texts_of (row_id b) chat <> [] -> text_row b;
}.

Record tracks (base : list StoredMessage) (chat : list CommittedChatChange) (old new : list StoredMessage) : Prop := {
  tr_old : Forall2 (row_tracks chat) base old;
  tr_new : new_ids base chat = row_ids new;
  tr_kind id : id ∈ row_ids new -> (id ∈ appended_ids chat) \/ (id ∈ upserted_ids chat);
  tr_plain : existsb is_replace chat = false;
}.

Lemma change_ids_snoc chat c : change_ids (chat ++ [c]) = change_ids chat ++ option_list (change_message_id c).
Proof. unfold change_ids. rewrite omap_app. cbn. by destruct (change_message_id c). Qed.

Lemma new_ids_snoc base chat c id :
  change_message_id c = Some id -> new_ids base (chat ++ [c]) = add_new (row_ids base) (new_ids base chat) id.
Proof. intros Hc. unfold new_ids. rewrite change_ids_snoc, Hc. cbn. by rewrite foldl_snoc. Qed.

Lemma elem_of_appended id chat : (id ∈ appended_ids chat) <-> exists item, (ChatAppend item ∈ chat) /\ cm_message_id item = id.
Proof.
  unfold appended_ids. rewrite elem_of_list_to_set, list_elem_of_omap. split.
  - intros (c & Hc & He). destruct c; simplify_eq. eauto.
  - intros (item & Hc & <-). by exists (ChatAppend item).
Qed.

Lemma elem_of_upserted id chat : (id ∈ upserted_ids chat) <-> exists item, (ChatUpsert item ∈ chat) /\ cm_message_id item = id.
Proof.
  unfold upserted_ids. rewrite elem_of_list_to_set, list_elem_of_omap. split.
  - intros (c & Hc & He). destruct c; simplify_eq. eauto.
  - intros (item & Hc & <-). by exists (ChatUpsert item).
Qed.

Lemma appended_snoc chat c :
  appended_ids (chat ++ [c]) = appended_ids chat ∪ match c with ChatAppend item => {[cm_message_id item]} | _ => ∅ end.
Proof. unfold appended_ids. rewrite omap_app, list_to_set_app_L. f_equal. destruct c; cbn; set_solver. Qed.

Lemma upserted_snoc chat c :
  upserted_ids (chat ++ [c]) = upserted_ids chat ∪ match c with ChatUpsert item => {[cm_message_id item]} | _ => ∅ end.
Proof. unfold upserted_ids. rewrite omap_app, list_to_set_app_L. f_equal. destruct c; cbn; set_solver. Qed.

Lemma texts_of_snoc id chat c :
  texts_of id (chat ++ [c])
  = texts_of id chat ++ match c with ChatAppendText i t => if decide (i = id) then [t] else [] | _ => [] end.
Proof. unfold texts_of. rewrite omap_app. f_equal. destruct c; cbn; try done. by case_decide. Qed.

(** A change of another row leaves a base row alone. *)
Lemma row_tracks_other chat c b f id :
  change_message_id c = Some id -> id <> row_id b -> row_tracks chat b f -> row_tracks (chat ++ [c]) b f.
Proof.
  intros Hc Hne [H1 H2 H3 H4]. split; [done|..]; rewrite ?appended_snoc, ?upserted_snoc, ?texts_of_snoc;
    destruct c; cbn in Hc; simplify_eq; rewrite ?decide_False by done; rewrite ?app_nil_r; set_solver.
Qed.

Lemma row_ids_lookup ms i m : ms !! i = Some m -> row_id m ∈ row_ids ms.
Proof. intros Hi. apply list_elem_of_fmap_2. by eapply list_elem_of_lookup_2. Qed.

Lemma row_ids_old base chat old : Forall2 (row_tracks chat) base old -> row_ids old = row_ids base.
Proof.
  induction 1 as [|b f base old Hr _ IH]; [done|].
  unfold row_ids in *. rewrite !fmap_cons, IH. f_equal.
  pose proof (rt_core _ _ _ Hr) as Hc. by injection Hc.
Qed.

Lemma is_replace_snoc chat c id :
  change_message_id c = Some id -> existsb is_replace chat = false -> existsb is_replace (chat ++ [c]) = false.
Proof. intros Hc He. rewrite existsb_app, He. by destruct c. Qed.

(** *** The moves of a draft *)

Lemma tracks_push base chat old new r c :
  tracks base chat old new -> NoDup (row_ids (old ++ new ++ [r])) ->
  c = ChatAppend (st_chat r) \/ c = ChatUpsert (st_chat r) -> tracks base (chat ++ [c]) old (new ++ [r]).
Proof.
  intros [Ho Hn Hk Hp] Hnd Hc. assert (change_message_id c = Some (row_id r)) as Hid by (by destruct Hc as [-> | ->]).
  assert (row_id r ∉ row_ids old ++ row_ids new) as Hfresh.
  { rewrite app_assoc in Hnd. unfold row_ids in Hnd. rewrite fmap_app, NoDup_app in Hnd.
    destruct Hnd as (_ & Hd & _). intros Hin. apply (Hd (row_id r)); [|left]. by rewrite fmap_app. }
  pose proof (row_ids_old _ _ _ Ho) as Hold.
  split.
  - rewrite Forall2_lookup in Ho |- *. intros i. specialize (Ho i).
    destruct (base !! i) as [b|] eqn:Hb; inversion Ho as [? f Hbf|]; subst; constructor.
    eapply row_tracks_other; [done| |done]. intros Heq. apply Hfresh. rewrite Hold, Heq. apply elem_of_app. left.
    by eapply row_ids_lookup.
  - rewrite (new_ids_snoc _ _ _ (row_id r)) by done. unfold add_new. rewrite Hn, <- Hold, decide_False by done.
    unfold row_ids. by rewrite fmap_app.
  - intros id. unfold row_ids. rewrite fmap_app, elem_of_app, appended_snoc, upserted_snoc.
    intros [Hin|Hin%list_elem_of_singleton]; [destruct (Hk id Hin); set_solver|]. destruct Hc as [-> | ->]; set_solver.
  - by eapply is_replace_snoc.
Qed.

Lemma new_ids_known base chat new c id :
  change_message_id c = Some id -> new_ids base chat = row_ids new -> id ∈ row_ids base ++ row_ids new ->
  new_ids base (chat ++ [c]) = row_ids new.
Proof. intros Hc Hn Hin. rewrite (new_ids_snoc _ _ _ id) by done. unfold add_new. by rewrite Hn, decide_True. Qed.

Lemma tr_kind_snoc chat c id :
  (id ∈ appended_ids chat) \/ (id ∈ upserted_ids chat) ->
  (id ∈ appended_ids (chat ++ [c])) \/ (id ∈ upserted_ids (chat ++ [c])).
Proof. rewrite appended_snoc, upserted_snoc. set_solver. Qed.

(** A row changes and a change of it is recorded: for a base row either an
    upsert or the text that was pushed. *)
Definition row_change (c : CommittedChatChange) (m m' : StoredMessage) : Prop :=
  core m' = core m /\
  (c = ChatUpsert (st_chat m') \/ exists t, c = ChatAppendText (row_id m) t /\ m' = push_text t m /\ text_row m).

Lemma row_change_id c m m' : row_change c m m' -> change_message_id c = Some (row_id m).
Proof. intros [Hc [-> |(t & -> & _)]]; cbn; [|done]. injection Hc as _ _ Hd. unfold row_id. by rewrite Hd. Qed.

Lemma text_row_push t m : text_row (push_text t m) <-> text_row m.
Proof.
  unfold text_row. pose proof (push_text_skeleton t m) as Hs. unfold skeleton in Hs. injection Hs as _ _ _ Hp.
  destruct (parts_of (push_text t m)) as [p'|], (parts_of m) as [p|]; cbn in Hp; try discriminate Hp.
  - injection Hp as Hp. split; intros (? & [= <-] & Hl); eexists; (split; [done|]); congruence.
  - split; intros (? & ? & _); discriminate.
Qed.

Lemma text_row_pushes m texts : text_row (push_texts m texts) <-> text_row m.
Proof.
  unfold push_texts. revert m. induction texts as [|t texts IH]; intros m; cbn; [done|]. by rewrite IH, text_row_push.
Qed.

Lemma tracks_change_old base chat old new i m m' c :
  tracks base chat old new -> NoDup (row_ids (old ++ new)) -> old !! i = Some m -> row_change c m m' ->
  tracks base (chat ++ [c]) (<[i := m']> old) new.
Proof.
  intros [Ho Hn Hk Hp] Hnd Hi Hch. pose proof (row_change_id _ _ _ Hch) as Hid.
  pose proof (row_ids_old _ _ _ Ho) as Hold. rewrite Forall2_lookup in Ho.
  unfold row_ids in Hnd. rewrite fmap_app, NoDup_app in Hnd. destruct Hnd as (Hnd & _ & _).
  split; [|..|by eapply is_replace_snoc].
  - rewrite Forall2_lookup. intros j. pose proof (Ho j) as Hj. destruct (decide (i = j)) as [<-|Hne].
    + rewrite list_lookup_insert_eq by (by eapply lookup_lt_Some). rewrite Hi in Hj.
      inversion Hj as [b ? Hbf He|]; subst. constructor. destruct Hch as [Hcore Hch].
      assert (row_id m = row_id b) as Hrid by (pose proof (rt_core _ _ _ Hbf) as Hc0; by injection Hc0).
      split.
      * rewrite Hcore. apply (rt_core _ _ _ Hbf).
      * rewrite appended_snoc. pose proof (rt_base _ _ _ Hbf). destruct Hch as [-> |(t & -> & _)]; set_solver.
      * rewrite upserted_snoc, texts_of_snoc. destruct Hch as [-> |(t & -> & -> & _)].
        { intros Hnu. exfalso. apply Hnu, elem_of_union. right. apply elem_of_singleton.
          injection Hcore as _ _ Hd. unfold row_id in *. congruence. }
        intros Hnu. rewrite decide_True by done. unfold push_texts. rewrite foldl_app. cbn. f_equal.
        apply (rt_text _ _ _ Hbf). set_solver.
      * rewrite upserted_snoc. destruct Hch as [-> |(t & -> & -> & Ht)].
        { intros Hnu. exfalso. apply Hnu, elem_of_union. right. apply elem_of_singleton.
          injection Hcore as _ _ Hd. unfold row_id in *. congruence. }
        intros Hnu _. assert (m = push_texts b (texts_of (row_id b) chat)) as -> by (apply (rt_text _ _ _ Hbf); set_solver).
        by apply text_row_pushes in Ht.
    + rewrite list_lookup_insert_ne by done. inversion Hj as [b f Hbf Hb Hf|]; subst; constructor.
      eapply row_tracks_other; [done| |done]. intros Heq. apply Hne.
      pose proof (rt_core _ _ _ Hbf) as Hc0. eapply (unique_lookup row_id old); [done|done|by symmetry in Hf|].
      injection Hc0 as _ _ Hd. unfold row_id in *. congruence.
  - apply new_ids_known with (id := row_id m); [done|done|]. rewrite <- Hold. apply elem_of_app. left.
    by eapply row_ids_lookup.
  - intros id Hin. by apply tr_kind_snoc, Hk.
Qed.

Lemma tracks_change_new base chat old new i m m' c :
  tracks base chat old new -> NoDup (row_ids (old ++ new)) -> new !! i = Some m -> row_change c m m' ->
  tracks base (chat ++ [c]) old (<[i := m']> new).
Proof.
  intros [Ho Hn Hk Hp] Hnd Hi Hch. pose proof (row_change_id _ _ _ Hch) as Hid.
  pose proof (row_ids_old _ _ _ Ho) as Hold.
  unfold row_ids in Hnd. rewrite fmap_app, NoDup_app in Hnd. destruct Hnd as (_ & Hd & _).
  assert (row_ids (<[i := m']> new) = row_ids new) as Hids.
  { unfold row_ids. rewrite list_fmap_insert. apply list_insert_id. rewrite list_lookup_fmap, Hi. cbn. f_equal.
    destruct Hch as [Hc _]. by injection Hc. }
  split; [|..|by eapply is_replace_snoc].
  - rewrite Forall2_lookup in Ho |- *. intros j. specialize (Ho j).
    destruct (base !! j) as [b|] eqn:Hb; inversion Ho as [? f Hbf|]; subst; constructor.
    eapply row_tracks_other; [done| |done]. intros Heq. apply (Hd (row_id b)).
    + change (row_id b ∈ row_ids old). rewrite Hold. by eapply row_ids_lookup.
    + rewrite <- Heq. by eapply row_ids_lookup.
  - rewrite Hids. apply new_ids_known with (id := row_id m); [done|done|]. apply elem_of_app. right.
    by eapply row_ids_lookup.
  - intros id. rewrite Hids. intros Hin. by apply tr_kind_snoc, Hk.
Qed.

(** ** Message operations *)

(** What the three incremental operations do to the messages. *)
Definition edit_message (op : TaskOperation) (ms : list StoredMessage) : result (list StoredMessage) RuntimeError :=
  match op with
  | AppendText ident text _ _ => append_text ms ident text
  | AppendMessage m => check? validate_message_append ms m in Ok (ms ++ [m])
  | UpsertMessage m => upsert_message ms m
  | _ => Err missing_change
  end.

Fixpoint edit_messages (ops : list TaskOperation) (ms : list StoredMessage) : result (list StoredMessage) RuntimeError :=
  match ops with
  | [] => Ok ms
  | op :: ops => let? ms := edit_message op ms in edit_messages ops ms
  end.

Section Replay.
Context (base old new : list StoredMessage) (chat : list CommittedChatChange) (p : TaskProjection).
Context (Htracks : tracks base chat old new) (Hrows : pj_messages p = old ++ new) (Huniq : unique_messages (old ++ new)).

(** A base row when the changes [done] have been processed. *)
Definition current_row (done : list CommittedChatChange) (b f : StoredMessage) : StoredMessage :=
  if decide (row_id b ∈ upserted_ids chat) then if decide (row_id b ∈ change_ids done) then f else b
  else push_texts b (texts_of (row_id b) done).

Definition current (done : list CommittedChatChange) : list StoredMessage :=
  zip_with (current_row done) base old ++ take (length (new_ids base done)) new.

Lemma push_texts_core m texts : core (push_texts m texts) = core m.
Proof.
  unfold push_texts. revert m. induction texts as [|t texts IH]; intros m; cbn; [done|]. rewrite IH.
  pose proof (push_text_skeleton t m) as Hs. unfold skeleton in Hs. unfold core. congruence.
Qed.

Lemma current_core done : core <$> zip_with (current_row done) base old = core <$> old.
Proof.
  pose proof (tr_old _ _ _ _ Htracks) as Ho. clear - Ho.
  induction Ho as [|b f bs os Hr _ IH]; [done|]. cbn [zip_with]. rewrite !fmap_cons. f_equal; [|done].
  rewrite (rt_core _ _ _ Hr). unfold current_row. repeat case_decide; [apply (rt_core _ _ _ Hr)|done|apply push_texts_core].
Qed.

Lemma current_unique done more :
  more `prefix_of` drop (length (new_ids base done)) new -> unique_messages (current done ++ more).
Proof.
  intros [x Hx]. unfold current. apply (unique_app_l _ x). eapply unique_core; [|exact Huniq].
  rewrite !fmap_app, current_core, <- !fmap_app, <- !app_assoc, <- Hx, take_drop. done.
Qed.

Lemma current_lookup done i b f :
  base !! i = Some b -> old !! i = Some f -> current done !! i = Some (current_row done b f).
Proof.
  intros Hb Hf. unfold current. rewrite lookup_app_l by (rewrite length_zip_with; apply lookup_lt_Some in Hb, Hf; lia).
  by rewrite lookup_zip_with, Hb, Hf.
Qed.

(** Processing a change of base row [i] moves only that row. *)
Lemma current_step_base done c i b f :
  base !! i = Some b -> old !! i = Some f -> change_message_id c = Some (row_id b) ->
  current (done ++ [c]) = <[i := current_row (done ++ [c]) b f]> (current done).
Proof.
  intros Hb Hf Hc. unfold current.
  assert (new_ids base (done ++ [c]) = new_ids base done) as ->.
  { rewrite (new_ids_snoc _ _ _ (row_id b)) by done. unfold add_new. rewrite decide_True; [done|].
    apply elem_of_app. left. by eapply row_ids_lookup. }
  rewrite insert_app_l by (rewrite length_zip_with; apply lookup_lt_Some in Hb, Hf; lia). f_equal.
  apply list_eq. intros j. destruct (decide (j = i)) as [->|Hne].
  - rewrite list_lookup_insert_eq by (rewrite length_zip_with; apply lookup_lt_Some in Hb, Hf; lia).
    by rewrite lookup_zip_with, Hb, Hf.
  - rewrite list_lookup_insert_ne by done. rewrite !lookup_zip_with.
    destruct (base !! j) as [b'|] eqn:Hb'; [|done]. destruct (old !! j) as [f'|]; [|done]. cbn. f_equal.
    assert (row_id b' <> row_id b) as Hid.
    { intros Heq. apply Hne. pose proof (row_ids_old _ _ _ (tr_old _ _ _ _ Htracks)) as Hold.
      eapply (unique_lookup row_id base); [|done|done|done]. change (NoDup (row_ids base)). rewrite <- Hold.
      apply unique_app_l in Huniq. apply Huniq. }
    unfold current_row. rewrite change_ids_snoc, Hc, texts_of_snoc. cbn.
    destruct (decide (row_id b' ∈ change_ids done ++ [row_id b])), (decide (row_id b' ∈ change_ids done)); try set_solver.
    + destruct (decide (row_id b' ∈ upserted_ids chat)); [done|]. destruct c; cbn in Hc; simplify_eq; rewrite ?app_nil_r; try done.
      rewrite decide_False by congruence. by rewrite app_nil_r.
    + destruct (decide (row_id b' ∈ upserted_ids chat)); [done|]. destruct c; cbn in Hc; simplify_eq; rewrite ?app_nil_r; try done.
      rewrite decide_False by congruence. by rewrite app_nil_r.
Qed.

Lemma foldl_add_new_prefix bs acc l : acc `prefix_of` foldl (add_new bs) acc l.
Proof.
  revert acc. induction l as [|x l IH]; intros acc; cbn; [done|]. etransitivity; [|apply IH].
  unfold add_new. case_decide; [done|]. by exists [x].
Qed.

Lemma new_ids_prefix done rest : new_ids base done `prefix_of` new_ids base (done ++ rest).
Proof. unfold new_ids, change_ids. rewrite omap_app, foldl_app. apply foldl_add_new_prefix. Qed.

Lemma new_ids_elem done id :
  id ∈ change_ids done -> id ∉ row_ids base -> id ∈ new_ids base done.
Proof.
  unfold new_ids. induction (change_ids done) as [|x l IH] using rev_ind; [by intros ?%not_elem_of_nil|].
  rewrite foldl_snoc. intros [Hin|Hin%list_elem_of_singleton]%elem_of_app Hb; unfold add_new; case_decide; set_solver.
Qed.

Lemma new_ids_only done id : id ∈ new_ids base done -> id ∈ change_ids done /\ id ∉ row_ids base.
Proof.
  unfold new_ids. induction (change_ids done) as [|x l IH] using rev_ind; [by intros ?%not_elem_of_nil|].
  rewrite foldl_snoc. unfold add_new at 1. case_decide; set_solver.
Qed.

(** The first change of a new row appends that row. *)
Lemma current_step_new done c rest id :
  chat = done ++ c :: rest -> change_message_id c = Some id -> id ∉ row_ids base -> id ∉ change_ids done ->
  exists r, new !! length (new_ids base done) = Some r /\ row_id r = id /\ current (done ++ [c]) = current done ++ [r].
Proof.
  intros Hchat Hc Hb Hd.
  assert (new_ids base (done ++ [c]) = new_ids base done ++ [id]) as Hsnoc.
  { rewrite (new_ids_snoc _ _ _ id) by done. unfold add_new. rewrite decide_False; [done|].
    intros [?|Hin]%elem_of_app; [done|]. by apply new_ids_only in Hin as [? _]. }
  assert (new_ids base (done ++ [c]) `prefix_of` row_ids new) as [x Hx].
  { rewrite <- (tr_new _ _ _ _ Htracks). replace chat with ((done ++ [c]) ++ rest); [apply new_ids_prefix|].
    by rewrite Hchat, <- app_assoc. }
  rewrite Hsnoc in Hx.
  assert (row_ids new !! length (new_ids base done) = Some id) as Hl.
  { rewrite Hx, <- app_assoc. by rewrite lookup_app_r, Nat.sub_diag by done. }
  unfold row_ids in Hl. rewrite list_lookup_fmap in Hl. destruct (new !! _) as [r|] eqn:Hr; [|done].
  cbn in Hl. injection Hl as Hl. exists r. split; [done|]. split; [done|].
  unfold current. rewrite Hsnoc, length_app. cbn. rewrite Nat.add_1_r, (take_S_r _ _ r) by done. rewrite app_assoc. f_equal.
  f_equal. apply list_eq. intros j. rewrite !lookup_zip_with.
  destruct (base !! j) as [b'|] eqn:Hb'; [|done]. destruct (old !! j) as [f'|]; [|done]. cbn. f_equal.
  assert (row_id b' <> id) as Hid by (intros <-; apply Hb; by eapply row_ids_lookup).
  unfold current_row. rewrite change_ids_snoc, Hc, texts_of_snoc. cbn.
  destruct (decide (row_id b' ∈ upserted_ids chat)).
  - destruct (decide (row_id b' ∈ change_ids done ++ [id])), (decide (row_id b' ∈ change_ids done)); set_solver.
  - destruct c; cbn in Hc; simplify_eq; rewrite ?app_nil_r; try done. rewrite decide_False by congruence. by rewrite app_nil_r.
Qed.

(** A further change of a row that is emitted whole changes nothing. *)
Lemma current_step_known done c id :
  change_message_id c = Some id -> id ∈ change_ids done -> (id ∈ row_ids base -> id ∈ upserted_ids chat) ->
  current (done ++ [c]) = current done.
Proof.
  intros Hc Hd Hu. unfold current.
  assert (new_ids base (done ++ [c]) = new_ids base done) as ->.
  { rewrite (new_ids_snoc _ _ _ id) by done. unfold add_new. rewrite decide_True; [done|]. apply elem_of_app.
    destruct (decide (id ∈ row_ids base)); [by left|right; by apply new_ids_elem]. }
  f_equal. apply list_eq. intros j. rewrite !lookup_zip_with.
  destruct (base !! j) as [b'|] eqn:Hb'; [|done]. destruct (old !! j) as [f'|]; [|done]. cbn. f_equal.
  unfold current_row. rewrite change_ids_snoc, Hc, texts_of_snoc. cbn.
  destruct (decide (row_id b' ∈ upserted_ids chat)).
  - destruct (decide (row_id b' ∈ change_ids done ++ [id])), (decide (row_id b' ∈ change_ids done)); set_solver.
  - assert (row_id b' <> id) by (intros <-; naive_solver eauto using row_ids_lookup).
    destruct c; cbn in Hc; simplify_eq; rewrite ?app_nil_r; try done. rewrite decide_False by congruence. by rewrite app_nil_r.
Qed.

Lemma current_all : current chat = old ++ new.
Proof.
  unfold current. rewrite (tr_new _ _ _ _ Htracks). unfold row_ids. rewrite length_fmap, firstn_all. f_equal.
  pose proof (tr_old _ _ _ _ Htracks) as Ho. rewrite Forall2_lookup in Ho. apply list_eq. intros j.
  rewrite lookup_zip_with. specialize (Ho j). inversion Ho as [b f Hr Hb Hf|Hb Hf]; cbn; [|done]. f_equal.
  unfold current_row. case_decide as Hu; [|symmetry; by apply (rt_text _ _ _ Hr)]. rewrite decide_True; [done|].
  apply elem_of_upserted in Hu as (item & Hin & Hid). unfold change_ids. apply list_elem_of_omap.
  exists (ChatUpsert item). cbn. by rewrite Hid.
Qed.

Lemma current_none : current [] = base.
Proof.
  unfold current. cbn. rewrite app_nil_r. apply list_eq. intros j. rewrite lookup_zip_with.
  pose proof (tr_old _ _ _ _ Htracks) as Ho. rewrite Forall2_lookup in Ho. specialize (Ho j).
  inversion Ho as [b f Hr Hb Hf|Hb Hf]; cbn; [|done]. f_equal. unfold current_row.
  rewrite (decide_False (P := row_id b ∈ change_ids [])) by apply not_elem_of_nil. by case_decide.
Qed.

(** The rows emitted so far. *)
Definition emitted_ok (done : list CommittedChatChange) (emitted : gset string) : Prop :=
  forall id, (id ∈ emitted) <-> (id ∈ change_ids done) /\ ((id ∈ appended_ids chat) \/ (id ∈ upserted_ids chat)).

Lemma emitted_ok_add done c id emitted :
  emitted_ok done emitted -> change_message_id c = Some id ->
  (id ∈ appended_ids chat) \/ (id ∈ upserted_ids chat) -> emitted_ok (done ++ [c]) ({[id]} ∪ emitted).
Proof. intros He Hc Hk j. rewrite change_ids_snoc, Hc. cbn. specialize (He j). set_solver. Qed.

Lemma emitted_ok_same done c id emitted :
  emitted_ok done emitted -> change_message_id c = Some id ->
  (id ∈ emitted) \/ (id ∉ appended_ids chat) /\ (id ∉ upserted_ids chat) -> emitted_ok (done ++ [c]) emitted.
Proof.
  intros He Hc Hk j. rewrite change_ids_snoc, Hc. cbn. pose proof (He j). pose proof (He id). set_solver.
Qed.

(** A change names a base row or a new one. *)
Lemma change_row done c rest id :
  chat = done ++ c :: rest -> change_message_id c = Some id ->
  (exists i b f, base !! i = Some b /\ old !! i = Some f /\ row_tracks chat b f /\ row_id b = id)
  \/ (id ∉ row_ids base) /\ id ∈ row_ids new.
Proof.
  intros Hchat Hc. destruct (decide (id ∈ row_ids base)) as [Hin|Hin].
  - left. apply list_elem_of_lookup in Hin as [i Hi]. unfold row_ids in Hi. rewrite list_lookup_fmap in Hi.
    destruct (base !! i) as [b|] eqn:Hb; [|done]. cbn in Hi. injection Hi as Hi.
    pose proof (tr_old _ _ _ _ Htracks) as Ho. rewrite Forall2_lookup in Ho. specialize (Ho i). rewrite Hb in Ho.
    inversion Ho as [? f Hr He Hf|]; subst. by exists i, b, f.
  - right. split; [done|]. rewrite <- (tr_new _ _ _ _ Htracks). apply new_ids_elem; [|done].
    rewrite Hchat. unfold change_ids. rewrite omap_app. cbn. rewrite Hc. apply elem_of_app. right. left.
Qed.

Lemma stored_row i r : (old ++ new) !! i = Some r -> find_by_id (row_id r) (pj_messages p) = Some r.
Proof. intros Hr. rewrite Hrows. eapply find_by_id_lookup; [apply Huniq|exact Hr]. Qed.

(** The operation of one change, if any, moves the messages along. *)
Lemma emit_step done c rest id emitted :
  chat = done ++ c :: rest -> change_message_id c = Some id -> emitted_ok done emitted ->
  exists ops emitted', emitted_ok (done ++ [c]) emitted'
    /\ edit_messages ops (current done) = Ok (current (done ++ [c]))
    /\ emit_operations p (appended_ids chat) (upserted_ids chat) emitted (c :: rest)
       = (let? more := emit_operations p (appended_ids chat) (upserted_ids chat) emitted' rest in Ok (ops ++ more)).
Proof.
  intros Hchat Hc He. cbn [emit_operations]. rewrite Hc. pose proof (He id) as Hid.
  assert (forall e r, (let? more := emit_operations p (appended_ids chat) (upserted_ids chat) e r in Ok ([] ++ more))
    = emit_operations p (appended_ids chat) (upserted_ids chat) e r) as Hnil.
  { intros e r. by destruct (emit_operations _ _ _ e r). }
  assert (id ∈ change_ids chat) as Hmem.
  { rewrite Hchat. unfold change_ids. rewrite omap_app. cbn. rewrite Hc. apply elem_of_app. right. left. }
  destruct (change_row done c rest id Hchat Hc) as [(i & b & f & Hb & Hf & Hr & <-)|[Hnb Hn]].
  - pose proof (rt_core _ _ _ Hr) as Hcore. assert (row_id f = row_id b) as Hfid by (by injection Hcore).
    pose proof (stored_row i f (lookup_app_l_Some _ _ _ _ Hf)) as Hst. rewrite Hfid in Hst. rewrite Hst. cbn.
    rewrite decide_False by apply (rt_base _ _ _ Hr). pose proof (current_lookup done i b f Hb Hf) as Hcur.
    assert (unique_messages (current done)) as Hu by (rewrite <- (app_nil_r (current done)); by apply current_unique; exists (drop (length (new_ids base done)) new)).
    destruct (decide (row_id b ∈ upserted_ids chat)) as [Hup|Hup].
    + destruct (decide (row_id b ∈ emitted)) as [Hem|Hem].
      * exists [], emitted. rewrite Hnil. split_and!; [by eapply emitted_ok_same; eauto| |done]. cbn.
        rewrite (current_step_known _ _ (row_id b)); [done|done|by apply Hid|done].
      * exists [UpsertMessage f], ({[row_id b]} ∪ emitted). split_and!; [by eapply emitted_ok_add; eauto| |].
        -- cbn. rewrite (upsert_existing _ i (current_row done b f)); [|done|done|].
           ++ cbn. rewrite (current_step_base _ _ i b f) by done. unfold current_row at 1.
              rewrite decide_True by done. rewrite decide_True; [done|]. rewrite change_ids_snoc, Hc. set_solver.
           ++ unfold current_row. rewrite decide_True by done. by case_decide.
        -- done.
    + assert (exists t, c = ChatAppendText (row_id b) t) as [t ->].
      { assert (c ∈ chat) as Hin by (rewrite Hchat; apply elem_of_app; right; left).
        destruct c as [item|item|j t|]; cbn in Hc; simplify_eq; [..|by eauto].
        - destruct (rt_base _ _ _ Hr). apply elem_of_appended. eauto.
        - destruct Hup. apply elem_of_upserted. eauto. }
      exists [AppendText (cm_identity (st_chat f)) t (mm_local_history_updated_at (pj_message_meta p)) None], emitted.
      split_and!; [eapply emitted_ok_same; eauto; right; split; [apply (rt_base _ _ _ Hr)|done]| |done].
      cbn. unfold append_text, validate_text_target.
      assert (current_row done b f = push_texts b (texts_of (row_id b) done)) as Hrow
        by (unfold current_row; by rewrite decide_False).
      assert (cm_identity (st_chat f) = cm_identity (st_chat (current_row done b f))) as ->.
      { rewrite Hrow. pose proof (push_texts_core b (texts_of (row_id b) done)) as Hpc. unfold core in *. congruence. }
      destruct (find_message_lookup (current done) i _ (proj1 (proj2 Hu)) Hcur) as (-> & _ & Hupd).
      assert (text_row (current_row done b f)) as (parts & Hparts & Hlast).
      { rewrite Hrow, text_row_pushes. apply (rt_target _ _ _ Hr); [done|]. rewrite Hchat. unfold texts_of.
        rewrite omap_app. cbn. rewrite decide_True by done. by destruct (omap _ done). }
      rewrite Hparts, Hlast. cbn. rewrite Hupd, (current_step_base _ _ i b f) by done. do 2 f_equal.
      unfold current_row. rewrite !decide_False by done. rewrite texts_of_snoc, decide_True by done.
      unfold push_texts. by rewrite foldl_snoc.
  - pose proof (tr_kind _ _ _ _ Htracks id Hn) as Hkind.
    destruct (decide (id ∈ change_ids done)) as [Hd|Hd].
    + assert (id ∈ emitted) as Hem by naive_solver. exists [], emitted. rewrite Hnil.
      split_and!; [by eapply emitted_ok_same; eauto| |].
      * cbn. rewrite (current_step_known _ _ id); [done|done|done|]. by intros ?.
      * apply list_elem_of_lookup in Hn as [k Hk]. unfold row_ids in Hk. rewrite list_lookup_fmap in Hk.
        destruct (new !! k) as [r|] eqn:Hr; [|done]. cbn in Hk. injection Hk as <-.
        rewrite (stored_row (length old + k) r) by (rewrite lookup_app_r by lia; by replace (_ + k - _)%nat with k by lia).
        cbn. rewrite !(decide_True (P := row_id r ∈ emitted)) by done. repeat case_decide; naive_solver.
    + destruct (current_step_new done c rest id Hchat Hc Hnb Hd) as (r & Hr & <- & Hcur).
      rewrite (stored_row (length old + length (new_ids base done)) r)
        by (rewrite lookup_app_r by lia; by replace (_ + _ - _)%nat with (length (new_ids base done)) by lia).
      cbn. assert (row_id r ∉ emitted) as Hem by naive_solver. rewrite !(decide_False (P := row_id r ∈ emitted)) by done.
      assert (unique_messages (current done ++ [r])) as Hu.
      { apply current_unique. rewrite (drop_S _ r) by done. by exists (drop (S (length (new_ids base done))) new). }
      destruct (append_fresh _ _ Hu) as [Hval Hups].
      destruct (decide (row_id r ∈ appended_ids chat)) as [Hap|Hap].
      * exists [AppendMessage r], ({[row_id r]} ∪ emitted). split_and!; [by eapply emitted_ok_add; eauto| |done].
        cbn. by rewrite Hval, Hcur.
      * rewrite decide_True by naive_solver. exists [UpsertMessage r], ({[row_id r]} ∪ emitted).
        split_and!; [by eapply emitted_ok_add; eauto| |done]. cbn. by rewrite Hups, Hcur.
Qed.

Lemma edit_messages_app ops ops' ms :
  edit_messages (ops ++ ops') ms = (let? ms := edit_messages ops ms in edit_messages ops' ms).
Proof.
  revert ms. induction ops as [|op ops IH]; intros ms; cbn; [done|]. destruct (edit_message op ms); cbn; [apply IH|done].
Qed.

Lemma emit_rest done rest emitted :
  chat = done ++ rest -> emitted_ok done emitted ->
  exists ops, emit_operations p (appended_ids chat) (upserted_ids chat) emitted rest = Ok ops
    /\ edit_messages ops (current done) = Ok (old ++ new).
Proof.
  revert done emitted. induction rest as [|c rest IH]; intros done emitted Hchat He.
  - exists []. rewrite app_nil_r in Hchat. cbn. by rewrite <- Hchat, current_all.
  - assert (exists id, change_message_id c = Some id) as [id Hc].
    { pose proof (tr_plain _ _ _ _ Htracks) as Hp. rewrite existsb_false in Hp.
      specialize (Hp c ltac:(rewrite Hchat; apply elem_of_app; right; left)). destruct c; cbn; eauto; done. }
    destruct (emit_step done c rest id emitted Hchat Hc He) as (ops & emitted' & He' & Hedit & ->).
    destruct (IH (done ++ [c]) emitted') as (more & -> & Hmore); [by rewrite <- app_assoc|done|].
    exists (ops ++ more). split; [done|]. by rewrite edit_messages_app, Hedit.
Qed.

Lemma emit_all :
  exists ops, emit_operations p (appended_ids chat) (upserted_ids chat) ∅ chat = Ok ops
    /\ edit_messages ops base = Ok (old ++ new).
Proof.
  rewrite <- current_none. apply (emit_rest []); [done|]. intros id. cbn. set_solver.
Qed.
End Replay.

(** ** From messages to projections *)

(** The incremental operations validate: the shadow skips text only. *)
Lemma edits_validate task_id ops ms ms' q k :
  edit_messages ops ms = Ok ms' -> Forall2 alike (pj_messages q) ms ->
  (forall q', Forall2 alike (pj_messages q') ms' -> pj_task q' = pj_task q -> validate_loop task_id (Some q') k = Ok tt) ->
  validate_loop task_id (Some q) (ops ++ k) = Ok tt.
Proof.
  revert ms q. induction ops as [|op ops IH]; intros ms q He Hq Hk; cbn in *; [by simp_all; apply Hk|].
  destruct (edit_message op ms) as [ms1|] eqn:Hop; [|done]. cbn in He.
  destruct op as [| | |ident text u tu|m|m| | |]; cbn in Hop; try done; cbn [validate_operation require ok_or result_bind].
  - unfold append_text in Hop. rewrite (text_target_alike _ _ _ Hq).
    destruct (validate_text_target ms ident) as [[]|]; cbn in *; [|done]. injection Hop as <-.
    eapply IH; [done| |done]. eapply alike_trans; [done|]. 
    pose proof (update_alike ident text ms) as Hu. clear -Hu. induction Hu; constructor; [by symmetry|done].
  - rewrite (message_append_alike _ _ _ Hq). destruct (validate_message_append ms m) as [[]|]; cbn in *; [|done].
    injection Hop as <-. eapply IH; [done| |done]. cbn. apply Forall2_app; [done|]. by repeat constructor.
  - destruct (upsert_alike _ _ _ _ Hq Hop) as (out & -> & Ho). cbn. by eapply IH.
Qed.

(** They apply, and touch the messages and the history clock only. *)
Lemma edits_apply task_id seq ops ms' q s :
  edit_messages ops (pj_messages q) = Ok ms' ->
  exists meta, mm_task_id meta = mm_task_id (pj_message_meta q) /\
    apply_loop task_id seq ops {[task_id := Available q s]}
    = (Ok tt, {[task_id := Available (set_meta meta (set_messages ms' q)) s]}).
Proof.
  revert q. induction ops as [|op ops IH]; intros q He; cbn in *.
  { injection He as <-. exists (pj_message_meta q). by destruct q. }
  destruct (edit_message op (pj_messages q)) as [ms1|] eqn:Hop; [|done]. cbn in He.
  destruct op as [| | |ident text u tu|m|m| | |]; cbn in Hop; try done; cbn [apply_operation]; unfold with_projection;
    rewrite lookup_singleton_eq.
  - rewrite Hop. cbn. rewrite insert_singleton_eq.
    destruct (IH (set_meta (set_updated_at u (pj_message_meta q)) (set_messages ms1 q)) He) as (meta & Hm & Ha).
    exists meta. rewrite Ha. split; [|by destruct q]. rewrite Hm. by destruct q as [? ? [] ?].
  - destruct (validate_message_append _ _) as [[]|]; cbn in *; [|done]. injection Hop as <-. rewrite insert_singleton_eq.
    destruct (IH (set_messages (pj_messages q ++ [m]) q) He) as (meta & Hm & Ha). exists meta. rewrite Ha. by destruct q.
  - rewrite Hop. cbn. rewrite insert_singleton_eq.
    destruct (IH (set_messages ms1 q) He) as (meta & Hm & Ha). exists meta. rewrite Ha. by destruct q.
Qed.

(** ** Edits *)

(** The edits a transaction can make of its draft. *)
Inductive Edit :=
| ETask (f : TaskRecord -> TaskRecord)
| EAppend (m : NormalizedMessage) (now : Z)
| EAppendChat (c : ChatMessage) (now : Z)
| ETerminal (artifact_id terminal_id data : string)
| EPermission (activity call : string) (outcome : ToolPermissionOutcome) (now : Z)
| EUpsert (m : NormalizedMessage) (now : Z)
| EPart (m : NormalizedMessage) (now : Z)
| EReplaceAll (ms : list NormalizedMessage) (native_updated_at now : Z) (fresh : nat -> string)
| EFinishAll (status : ActivityStatus) (now : Z)
| EFinish (ident : string) (status : ActivityStatus) (now : Z)
| ECloseAnswer (ended : string) (now : Z)
| ECloseLast (ended : string) (now : Z)
| EBackground (call : string) (outcome : BackgroundCommandOutcome) (now : Z).

Definition apply_edit (ctx : TaskMutationContext) (e : Edit) : TaskMutationContext :=
  match e with
  | ETask f => task_mut f ctx
  | EAppend m now => append_message m now ctx
  | EAppendChat c now => append_chat_message c now ctx
  | ETerminal a t d => append_terminal a t d ctx
  | EPermission activity call outcome now => (record_tool_permission_outcome activity call outcome now ctx).2
  | EUpsert m now => (upsert_message_with_details m now ctx).2
  | EPart m now => match append_agent_message_part m now ctx with Some (Ok (_, ctx)) => ctx | _ => ctx end
  | EReplaceAll ms updated now fresh => replace_messages_from_native_session ms updated now fresh ctx
  | EFinishAll status now => (finish_running_activities status now ctx).2
  | EFinish ident status now => (finish_running_activity ident status now ctx).2
  | ECloseAnswer ended now => close_turn_on_final_answer ended now ctx
  | ECloseLast ended now => close_turn_on_last_row ended now ctx
  | EBackground call outcome now => (record_tool_background_outcome call outcome now ctx).2
  end.

(** Transactions keep the identity of their Task. *)
Definition edit_ok (e : Edit) : Prop :=
  match e with ETask f => forall t, tr_task_id (f t) = tr_task_id t | _ => True end.

(** Rows pushed or changed, with the changes recorded for them. *)
Inductive moves : list StoredMessage -> list CommittedChatChange -> list StoredMessage -> Prop :=
| mv_nil rows : moves rows [] rows
| mv_push rows r c : c = ChatAppend (st_chat r) \/ c = ChatUpsert (st_chat r) -> moves rows [c] (rows ++ [r])
| mv_change l1 m l2 m' c : row_change c m m' -> moves (l1 ++ m :: l2) [c] (l1 ++ m' :: l2)
| mv_replace rows rows' : moves rows [ChatReplace] rows'
| mv_trans r1 c1 r2 c2 r3 : moves r1 c1 r2 -> moves r2 c2 r3 -> moves r1 (c1 ++ c2) r3.

Lemma moves_core r cs r' :
  moves r cs r' -> existsb is_replace cs = false -> (core <$> r) `prefix_of` (core <$> r').
Proof.
  induction 1 as [rows|rows x c _|l1 m l2 m' c [Hc _]| |r1 c1 r2 c2 r3 _ IH1 _ IH2]; intros Hp; try done.
  - rewrite fmap_app. by eexists.
  - rewrite !fmap_app, !fmap_cons, Hc. done.
  - rewrite existsb_app in Hp. apply orb_false_iff in Hp as [Hp1 Hp2]. etransitivity; [by apply IH1|by apply IH2].
Qed.

Lemma unique_prefix r r' : (core <$> r) `prefix_of` (core <$> r') -> unique_messages r' -> unique_messages r.
Proof.
  intros [k Hk] Hu. apply (unique_core (take (length r) r')).
  - rewrite fmap_take, Hk, take_app_le by (by rewrite length_fmap). by rewrite <- (length_fmap core r), firstn_all.
  - rewrite <- (take_drop (length r) r') in Hu. by eapply unique_app_l.
Qed.

(** Where a draft stands: its whole history was replaced, or its changes
    track it. *)
Definition follows (base rows : list StoredMessage) (chat : list CommittedChatChange) : Prop :=
  existsb is_replace chat = true \/ exists old new, rows = old ++ new /\ tracks base chat old new.

Lemma moves_follow base r cs r' chat :
  moves r cs r' -> unique_messages r' -> follows base r chat -> follows base r' (chat ++ cs).
Proof.
  intros Hm. revert chat. induction Hm as [rows|rows x c Hc|l1 m l2 m' c Hc|rows rows'|r1 c1 r2 c2 r3 Hm1 IH1 Hm2 IH2];
    intros chat Hu Hf.
  - by rewrite app_nil_r.
  - destruct Hf as [Hf|(old & new & -> & Ht)]; [left; by rewrite existsb_app, Hf|right].
    exists old, (new ++ [x]). split; [by rewrite app_assoc|]. apply tracks_push; [done| |done].
    rewrite <- app_assoc in Hu. apply Hu.
  - destruct Hf as [Hf|(old & new & Heq & Ht)]; [left; by rewrite existsb_app, Hf|right].
    assert (unique_messages (l1 ++ m :: l2)) as Hu0.
    { eapply unique_core; [|exact Hu]. rewrite !fmap_app, !fmap_cons. by rewrite (proj1 Hc). }
    rewrite Heq in Hu0. assert (NoDup (row_ids (old ++ new))) as Hnd by apply Hu0.
    apply app_eq_app in Heq as (k & [[-> Hk]|[-> Hk]]).
    + exists old, (k ++ m' :: l2). split; [by rewrite <- app_assoc|]. subst new.
      rewrite <- (insert_middle k l2 m m'). by eapply tracks_change_new; [done|done|by apply list_lookup_middle|].
    + destruct k as [|y k]; cbn in Hk.
      * rewrite app_nil_r in *. exists l1, (m' :: l2). split; [done|]. subst new.
        by apply (tracks_change_new _ _ _ _ 0 m m' c Ht Hnd).
      * injection Hk as -> ->. exists (l1 ++ m' :: k), new. split; [by rewrite <- app_assoc|].
        rewrite <- (insert_middle l1 k y m'). by eapply tracks_change_old; [done|done|by apply list_lookup_middle|].
  - left. rewrite existsb_app. cbn. by rewrite orb_true_r.
  - rewrite app_assoc. destruct (existsb is_replace c2) eqn:Hp.
    + left. by rewrite existsb_app, Hp, orb_true_r.
    + apply IH2; [done|]. apply IH1; [|done]. eapply unique_prefix; [|done]. by eapply moves_core.
Qed.

(** *** Every edit is such a move *)

Lemma update_message_split i ms m :
  find_message i ms = Some m ->
  exists l1 l2, ms = l1 ++ m :: l2 /\ cm_identity (st_chat m) = i /\ forall m', update_message i (fun _ => m') ms = l1 ++ m' :: l2.
Proof.
  induction ms as [|x ms IH]; cbn; [done|]. case_decide as Hx.
  - intros [= ->]. exists [], ms. split_and!; [done|done|]. intros m'. done.
  - intros Hf. destruct (IH Hf) as (l1 & l2 & -> & Hi & Hu). exists (x :: l1), l2. split_and!; [done|done|].
    intros m'. by rewrite Hu.
Qed.

Lemma update_newest_split stop f rows m' rows' :
  update_newest stop f rows = Some (m', rows') ->
  exists l1 m l2, rows = l1 ++ m :: l2 /\ f m = Some m' /\ rows' = l1 ++ m' :: l2.
Proof.
  revert rows'. induction rows as [|x rows IH]; intros rows'; cbn; [done|]. destruct (stop x); [done|].
  destruct (f x) as [y|] eqn:Hf; [intros [= -> <-]; by exists [], x, rows|].
  destruct (update_newest stop f rows) as [[c r]|]; [|done]. cbn. intros [= -> <-].
  destruct (IH r eq_refl) as (l1 & m & l2 & -> & Hm & ->). by exists (x :: l1), m, l2.
Qed.

Lemma newest_moves stop f ms m' rows' :
  (forall m m', f m = Some m' -> core m' = core m) -> update_newest stop f (reverse ms) = Some (m', rows') ->
  moves ms [ChatUpsert (st_chat m')] (reverse rows').
Proof.
  intros Hf (l1 & m & l2 & Hms & Hm & ->)%update_newest_split.
  apply (f_equal reverse) in Hms. rewrite reverse_involutive in Hms. subst ms.
  rewrite !reverse_app, !reverse_cons, <- !app_assoc. apply mv_change. split; [by apply Hf|by left].
Qed.

Lemma finish_row_core status now m m' : finish_row status now m = Some m' -> core m' = core m.
Proof.
  unfold finish_row, finish_running. destruct (cm_message (st_chat m)) as [| |? ? [] | | | | |]; cbn; try done.
  by intros [= <-].
Qed.

Lemma update_row_tool_core id f m m' : update_row_tool id f m = Some m' -> core m' = core m.
Proof.
  unfold update_row_tool. destruct (cm_message (st_chat m)); try done. destruct (update_tool _ _ _); [|done].
  by intros [= <-].
Qed.

Lemma finish_all_moves status now ms more :
  moves (ms ++ more) (ChatUpsert ∘ st_chat <$> omap (finish_row status now) (reverse ms))
    (((fun m => default m (finish_row status now m)) <$> ms) ++ more).
Proof.
  revert more. induction ms as [|x ms IH] using rev_ind; intros more; [constructor|].
  rewrite reverse_snoc, fmap_app, <- !app_assoc. cbn. destruct (finish_row status now x) as [y|] eqn:Hx; cbn.
  - apply (mv_trans _ [ChatUpsert (st_chat y)] (ms ++ y :: more)); [|apply IH]. apply mv_change.
    split; [by eapply finish_row_core|by left].
  - apply IH.
Qed.

Lemma append_part_text existing incoming m :
  append_agent_part existing incoming = Ok (true, m) ->
  exists id role parts created chunk, existing = MAgentMessage id role parts created
    /\ m = MAgentMessage id role (push_last chunk parts) created
    /\ match incoming with MAgentMessage _ _ [PartText text] _ => Some text | _ => None end = Some chunk
    /\ match last parts with Some p => is_text_part p | None => false end = true.
Proof.
  unfold append_agent_part. destruct existing as [|id role parts created| | | | | |]; try done.
  destruct incoming as [|id' role' parts' created'| | | | | |]; try done.
  destruct parts' as [|part [|]]; try done. split_test; [|done].
  destruct (last parts) as [[]|] eqn:Hl, part; try done. intros [= <-]. eexists _, _, _, _, _. by rewrite Hl.
Qed.

(** What an edit does to the draft. *)
Record edited (ctx ctx' : TaskMutationContext) : Prop := {
  ed_heads : pj_artifact_heads (cx_projection ctx') = pj_artifact_heads (cx_projection ctx);
  ed_task : tr_task_id (cx_task ctx') = tr_task_id (cx_task ctx);
  ed_moves :
    cx_messages ctx' = cx_messages ctx /\ pj_message_meta (cx_projection ctx') = pj_message_meta (cx_projection ctx)
    /\ cx_chat_changes ctx' = cx_chat_changes ctx
    \/ exists cs, cs <> [] /\ moves (cx_messages ctx) cs (cx_messages ctx')
       /\ cx_chat_changes ctx' = cx_chat_changes ctx ++ cs
       /\ mm_task_id (pj_message_meta (cx_projection ctx')) = tr_task_id (cx_task ctx');
}.

Lemma edited_refl ctx : edited ctx ctx.
Proof. split; [done|done|by left]. Qed.

Lemma edited_record ctx ctx0 rows cs minimum now :
  cs <> [] -> cx_projection ctx0 = cx_projection ctx -> cx_chat_changes ctx0 = cx_chat_changes ctx ->
  moves (cx_messages ctx) cs rows -> edited ctx (record_chat rows cs minimum now ctx0).
Proof.
  intros Hcs Hp Hch Hm. split; unfold cx_task, cx_messages; cbn; rewrite ?Hp; [done|done|]. right. exists cs. by rewrite Hch.
Qed.

Lemma edited_newest ctx stop f m' rows now :
  (forall m m', f m = Some m' -> core m' = core m) ->
  update_newest stop f (reverse (cx_messages ctx)) = Some (m', rows) ->
  edited ctx (record_chat (reverse rows) [ChatUpsert (st_chat m')] 0 now ctx).
Proof. intros Hf Hn. apply edited_record; try done. by eapply newest_moves. Qed.

Lemma edited_close ctx stop f now :
  (forall m m', f m = Some m' -> core m' = core m) ->
  edited ctx (publish_closed_turn (update_newest stop f (reverse (cx_messages ctx))) now ctx).
Proof.
  intros Hf. unfold publish_closed_turn. destruct (update_newest _ _ _) as [[m rows]|] eqn:E; [|apply edited_refl].
  by eapply edited_newest.
Qed.

Lemma edited_upsert_at ctx ctx0 i m m' now :
  find_message i (cx_messages ctx) = Some m -> core m' = core m ->
  cx_projection ctx0 = cx_projection ctx -> cx_chat_changes ctx0 = cx_chat_changes ctx ->
  edited ctx (record_chat (update_message i (fun _ => m') (cx_messages ctx)) [ChatUpsert (st_chat m')] 0 now ctx0).
Proof.
  intros (l1 & l2 & Hms & Hi & Hu)%update_message_split Hc Hp Hch. rewrite Hu. apply edited_record; try done.
  rewrite Hms. apply mv_change. split; [done|by left].
Qed.

Lemma apply_edit_edited ctx e : edit_ok e -> edited ctx (apply_edit ctx e).
Proof.
  destruct e as [f|m now|c now|a t d|act call o now|m now|m now|ms u now fresh|st now|i st now|en now|en now|call o now];
    intros Hok; cbn [apply_edit].
  - split; unfold cx_task, cx_messages; cbn; [done|apply Hok|by left].
  - unfold append_message. destruct (extract_tool_artifacts m) as [details m']. apply edited_record; try done.
    apply mv_push. by left.
  - apply edited_record; try done. apply mv_push. by left.
  - split; [done|done|by left].
  - unfold record_tool_permission_outcome, record_permission_outcome.
    destruct (find_message act (cx_messages ctx)) as [s|] eqn:Hs; [|apply edited_refl]. cbn.
    destruct (update_row_tool _ _ _) as [m'|] eqn:Hm; [|apply edited_refl]. cbn.
    eapply edited_upsert_at; [done|by eapply update_row_tool_core|done|done].
  - unfold upsert_message_with_details. destruct (extract_tool_artifacts m) as [details m'].
    destruct (find_message (identity m') (cx_messages ctx)) as [s|] eqn:Hs.
    + assert (edited ctx (record_chat (update_message (identity m') (fun _ => updated_row s m' now) (cx_messages ctx))
        [ChatUpsert (st_chat (updated_row s m' now))] 0 now (add_artifacts details ctx))) as [H1 H2 H3]; [|by split].
      apply (edited_upsert_at _ _ _ s); try done. apply find_message_Some in Hs as [Hi _].
      unfold updated_row, core. cbn. by rewrite Hi.
    + match goal with |- edited ctx (_, add_tool_details _ ?c).2 => assert (edited ctx c) as [H1 H2 H3]; [|by split] end.
      apply edited_record; try done. apply mv_push. by right.
  - unfold append_agent_message_part.
    destruct (find_message (identity m) (cx_messages ctx)) as [s|] eqn:Hs.
    + destruct (append_agent_part _ _) as [[[] m']|] eqn:Ha; [..|apply edited_refl].
      * apply append_part_text in Ha as (id & role & parts & created & chunk & Hex & -> & Htx & Hlast).
        rewrite Htx. cbn. apply update_message_split in Hs as (l1 & l2 & Hms & Hi & Hu). rewrite Hu.
        apply edited_record; try done. rewrite Hms. apply mv_change.
        assert (push_text chunk s = mkStored (st_sequence s)
          (set_message (MAgentMessage id role (push_last chunk parts) created) (cm_timing (st_chat s)) (st_chat s))) as <-.
        { unfold push_text. by rewrite Hex. }
        assert (core (push_text chunk s) = core s) as Hcore
          by (pose proof (push_text_skeleton chunk s) as Hsk; unfold skeleton in Hsk; unfold core; congruence).
        split; [done|]. right. exists chunk. split; [|split; [done|]].
        -- done.
        -- exists parts. split; [|done]. unfold parts_of. by rewrite Hex.
      * cbn. by apply (edited_upsert_at _ _ _ s).
    + apply edited_record; try done. apply mv_push. by left.
  - unfold replace_messages_from_native_session. destruct (rebuild_rows _ _ _ _) as [details rows].
    apply edited_record; try done. apply mv_replace.
  - unfold finish_running_activities. pose proof (finish_all_moves st now (cx_messages ctx) []) as Hm.
    rewrite !app_nil_r in Hm. destruct (omap _ _) as [|c cs] eqn:Hcs; [apply edited_refl|]. by apply edited_record.
  - unfold finish_running_activity. destruct (find_message i (cx_messages ctx)) as [s|] eqn:Hs; [|apply edited_refl].
    cbn. destruct (finish_row st now s) as [m'|] eqn:Hm; [|apply edited_refl].
    eapply edited_upsert_at; [done|by eapply finish_row_core|done|done].
  - unfold close_turn_on_final_answer. destruct (active_turn_span _ _) as [span|]; [|apply edited_refl].
    apply edited_close. intros m m'. destruct (is_answer_row m); [|done]. by intros [= <-].
  - unfold close_turn_on_last_row. destruct (active_turn_span _ _) as [span|]; [|apply edited_refl].
    apply edited_close. by intros m m' [= <-].
  - unfold record_tool_background_outcome. destruct (update_newest _ _ _) as [[m rows]|] eqn:E; [|apply edited_refl].
    eapply edited_newest; [|done]. apply update_row_tool_core.
Qed.

Lemma edited_trans a b c : edited a b -> edited b c -> edited a c.
Proof.
  intros [H1 H2 H3] [G1 G2 G3]. split; [congruence|congruence|].
  destruct G3 as [(Gm & Gt & Gc)|(cs' & Hcs' & Gm & Gc & Gt)].
  - destruct H3 as [(Hm & Ht & Hc)|(cs & Hcs & Hm & Hc & Ht)]; [left; split_and!; congruence|right].
    exists cs. rewrite Gm, Gc. split_and!; try done. congruence.
  - right. destruct H3 as [(Hm & Ht & Hc)|(cs & Hcs & Hm & Hc & Ht)].
    + exists cs'. rewrite <- Hm, Gc, Hc. done.
    + exists (cs ++ cs'). split_and!; [by destruct cs| |by rewrite Gc, Hc, app_assoc|done]. by eapply mv_trans.
Qed.

Lemma edits_edited ctx edits : Forall edit_ok edits -> edited ctx (foldl apply_edit ctx edits).
Proof.
  intros He. revert ctx. induction He as [|e edits Hok _ IH]; intros ctx; cbn; [apply edited_refl|].
  eapply edited_trans; [by apply apply_edit_edited|apply IH].
Qed.

Lemma tracks_start base : tracks base [] base [].
Proof.
  split; cbn; [|done|by intros ? ?%not_elem_of_nil|done]. apply Forall2_same_length_lookup_2; [done|].
  intros i b f Hb Hf. rewrite Hb in Hf. injection Hf as ->. split; cbn; try done.
Qed.

Lemma message_set_ok sequences idents ids ms :
  unique_messages ms ->
  (forall m, m ∈ ms -> (st_sequence m ∉ sequences) /\ (cm_identity (st_chat m) ∉ idents) /\ (cm_message_id (st_chat m) ∉ ids)) ->
  validate_message_set_loop sequences idents ids ms = Ok tt.
Proof.
  revert sequences idents ids. induction ms as [|m ms IH]; intros sequences idents ids (H1 & H2 & H3) Hd; cbn; [done|].
  rewrite !fmap_cons in *. apply NoDup_cons in H1 as [Hs H1], H2 as [Hi H2], H3 as [Hm H3].
  destruct (Hd m ltac:(left)) as (Ds & Di & Dm). rewrite !bool_decide_eq_false_2 by done. cbn.
  apply IH; [done|]. intros x Hx. destruct (Hd x ltac:(by right)) as (Es & Ei & Em).
  rewrite !not_elem_of_union, !not_elem_of_singleton. split_and!; try done.
  - intros Heq. apply Hs. rewrite <- Heq. by apply list_elem_of_fmap_2.
  - intros Heq. apply Hi. unfold compose. rewrite <- Heq. by apply (list_elem_of_fmap_2 (cm_identity ∘ st_chat)).
  - intros Heq. apply Hm. unfold compose. rewrite <- Heq. by apply (list_elem_of_fmap_2 (cm_message_id ∘ st_chat)).
Qed.

Lemma install_same meta q :
  tr_message_history_version (pj_task q) = mm_version meta -> install_meta meta q = set_meta meta q.
Proof.
  intros Hv. unfold install_meta. destruct q as [t ms m h]. cbn in *. unfold set_task. cbn. f_equal.
  rewrite <- Hv. by destruct t.
Qed.

(** *** The journal rebuilds the draft *)

Lemma same_not_different (a b : string) : a = b -> bool_decide (a <> b) = false.
Proof. intros ->. apply bool_decide_eq_false_2. intros Hn. by apply Hn. Qed.

Definition rebuilds (task_id : string) (p0 p : TaskProjection) (ops : list TaskOperation) : Prop :=
  forall s sequence,
    validate_operations (Some (Available p0 s)) task_id ops = Ok tt
    /\ apply_operations task_id ops sequence {[task_id := Available p0 s]}
       = (Ok tt, {[task_id := Available p sequence]}).

Lemma rebuilds_task task_id p0 p :
  p = set_task (pj_task p) p0 -> tr_task_id (pj_task p) = task_id -> rebuilds task_id p0 p [ReplaceTask (pj_task p)].
Proof.
  intros Hp Hid s sequence. split.
  - cbn. by rewrite same_not_different.
  - unfold apply_operations. cbn. unfold with_projection. rewrite lookup_singleton_eq, insert_singleton_eq, lookup_singleton_eq.
    by rewrite insert_singleton_eq, <- Hp.
Qed.

Lemma rebuilds_replace task_id p0 p :
  pj_artifact_heads p = pj_artifact_heads p0 -> unique_messages (pj_messages p) ->
  tr_task_id (pj_task p) = task_id -> mm_task_id (pj_message_meta p) = task_id ->
  tr_message_history_version (pj_task p) = mm_version (pj_message_meta p) ->
  rebuilds task_id p0 p [ReplaceTask (pj_task p); ReplaceMessages (pj_messages p) (pj_message_meta p)].
Proof.
  intros Hh Hu Hid Hm Hv s sequence.
  assert (validate_message_meta task_id (pj_message_meta p) = Ok tt) as Hmeta
    by (unfold validate_message_meta; by rewrite same_not_different).
  assert (validate_message_set (pj_messages p) = Ok tt) as Hset by (apply message_set_ok; [done|]; set_solver).
  split.
  - cbn. rewrite same_not_different by done. cbn. by rewrite Hmeta, Hset.
  - unfold apply_operations. cbn. unfold with_projection. rewrite Hmeta, Hset.
    rewrite lookup_singleton_eq, insert_singleton_eq, lookup_singleton_eq, insert_singleton_eq, lookup_singleton_eq, insert_singleton_eq.
    rewrite install_same by done. destruct p, p0. cbn in *. by subst.
Qed.

Lemma rebuilds_edits task_id p0 p ops :
  pj_artifact_heads p = pj_artifact_heads p0 -> edit_messages ops (pj_messages p0) = Ok (pj_messages p) ->
  tr_task_id (pj_task p) = task_id -> mm_task_id (pj_message_meta p) = task_id ->
  tr_message_history_version (pj_task p) = mm_version (pj_message_meta p) ->
  rebuilds task_id p0 p (ReplaceTask (pj_task p) :: ops ++ [ReplaceMessageMeta (pj_message_meta p)]).
Proof.
  intros Hh He Hid Hm Hv s sequence.
  assert (validate_message_meta task_id (pj_message_meta p) = Ok tt) as Hmeta
    by (unfold validate_message_meta; by rewrite same_not_different).
  split.
  - cbn. rewrite same_not_different by done. cbn. eapply edits_validate; [exact He|apply alike_list_refl|].
    intros q' _ _. cbn. by rewrite Hmeta.
  - unfold apply_operations.
    assert (existsb replaces_meta (ReplaceTask (pj_task p) :: ops ++ [ReplaceMessageMeta (pj_message_meta p)]) = true) as ->
      by (cbn; rewrite existsb_app; cbn; by rewrite orb_true_r).
    rewrite andb_false_r. cbn [apply_loop apply_operation]. unfold with_projection.
    rewrite lookup_singleton_eq, insert_singleton_eq, apply_loop_app.
    destruct (edits_apply task_id sequence ops (pj_messages p) (set_task (pj_task p) p0) s He) as (meta & _ & ->).
    cbn [apply_loop apply_operation]. rewrite Hmeta. unfold with_projection.
    rewrite lookup_singleton_eq, insert_singleton_eq, lookup_singleton_eq, insert_singleton_eq.
    rewrite install_same by done. destruct p, p0. cbn in *. by subst.
Qed.

Lemma rebuilds_journal task_id p0 p chat :
  pj_artifact_heads p = pj_artifact_heads p0 -> unique_messages (pj_messages p) ->
  tr_task_id (pj_task p) = task_id -> mm_task_id (pj_message_meta p) = task_id ->
  tr_message_history_version (pj_task p) = mm_version (pj_message_meta p) ->
  chat <> [] -> follows (pj_messages p0) (pj_messages p) chat ->
  exists ops, journal_operations p chat = Ok ops /\ rebuilds task_id p0 p ops.
Proof.
  intros Hh Hu Hid Hm Hv Hne Hf. unfold journal_operations. destruct chat as [|c chat]; [done|].
  destruct (existsb is_replace (c :: chat)) eqn:Hr; [eexists; split; [done|]; by apply rebuilds_replace|].
  destruct Hf as [Hf|(old & new & Hrows & Ht)]; [congruence|]. rewrite Hrows in Hu.
  destruct (emit_all _ _ _ _ p Ht Hrows Hu) as (ops & -> & He). cbn. eexists. split; [done|].
  apply rebuilds_edits; try done. by rewrite Hrows.
Qed.

(** What the commit of an edited draft submits. *)
Definition commits_durably (task_id : string) (p0 : TaskProjection) (options : TaskCommitOptions)
    (ctx : TaskMutationContext) : Prop :=
  exists c, persist_changed_projection (pj_task p0) options ctx = Ok c
    /\ rebuilds task_id p0 (ct_projection c) (w_operations (ct_write c)) /\ w_task_id (ct_write c) = task_id
    /\ pj_messages (ct_projection c) = cx_messages ctx
    /\ tr_revision (pj_task (ct_projection c)) = tr_revision (pj_task p0) + 1.

Lemma edited_durable task_id p0 ctx options :
  edited (draft p0) ctx -> projection_wf task_id p0 -> unique_messages (cx_messages ctx) ->
  tr_revision (pj_task p0) < u64_max ->
  refresh_message_history options = true \/
    cx_chat_changes ctx = [] /\ tr_message_history_version (cx_task ctx) = tr_message_history_version (pj_task p0) ->
  commits_durably task_id p0 options ctx.
Proof.
  intros [Hh Ht Hmv] [Hwt Hwm Hwu] Hu Hrev Hopt. unfold commits_durably.
  change (cx_projection (draft p0)) with p0 in *. change (cx_task (draft p0)) with (pj_task p0) in *.
  change (cx_messages (draft p0)) with (pj_messages p0) in *. rewrite Hwt in Ht.
  unfold persist_changed_projection, u64_checked_add.
  rewrite bool_decide_eq_true_2 by (unfold u64_max in Hrev; lia). cbn [ok_or result_bind].
  set (task := if refresh_message_history options then _ else _).
  assert (tr_task_id task = task_id) as Htid by (unfold task; by destruct (refresh_message_history options)).
  set (p := set_task (set_versions _ _ _ _) (cx_projection ctx)).
  assert (tr_message_history_version task = tr_message_history_version (pj_task p0) \/
    tr_message_history_version task = mm_version (pj_message_meta (cx_projection ctx))) as Hv.
  { unfold task. destruct Hopt as [-> |[_ Hv]]; [by right|]. destruct (refresh_message_history options); [by right|by left]. }
  assert (forall chat, chat <> [] -> refresh_message_history options = true -> follows (pj_messages p0) (cx_messages ctx) chat ->
    mm_task_id (pj_message_meta (cx_projection ctx)) = task_id ->
    exists ops, journal_operations p chat = Ok ops /\ rebuilds task_id p0 p ops) as Hjr.
  { intros chat Hne Hr Hf Hmid. apply rebuilds_journal; try done. unfold p. cbn. unfold task. by rewrite Hr. }
  assert (forall chat ops, journal_operations p chat = Ok ops -> rebuilds task_id p0 p ops ->
    exists c, (let? ops := journal_operations p chat in Ok (mkCommit p chat (barrier_operations_with_artifacts
      (tr_task_id (set_versions (u64_add (tr_task_version task) 1) (tr_revision (pj_task p0) + 1) (tr_updated_at task) task)) ops
           ((fun d => mkReplacement (pd_artifact_id d) (pd_details d)) <$> cx_artifact_replacements ctx)
           (cx_terminal_appends ctx)))) = Ok c
    /\ rebuilds task_id p0 (ct_projection c) (w_operations (ct_write c)) /\ w_task_id (ct_write c) = task_id
    /\ pj_messages (ct_projection c) = cx_messages ctx
    /\ tr_revision (pj_task (ct_projection c)) = tr_revision (pj_task p0) + 1) as Hdone.
  { intros chat ops -> Hb. cbn. eexists. split; [done|]. by split_and!. }
  change (tr_message_history_version (set_versions _ _ _ task)) with (tr_message_history_version task).
  destruct Hmv as [(Hm & Hmeta & Hc)|(cs & Hcs & Hm & Hc & Hmid)]; rewrite Hc; cbn [cx_chat_changes draft app].
  - split_test.
    + assert (refresh_message_history options = true) as Hr.
      { unfold task in n. destruct Hopt as [?|[_ Hv']]; [done|]. by destruct (refresh_message_history options). }
      destruct (Hjr [ChatReplace]) as (ops & Hj & Hb); [done|done|by left|by rewrite Hmeta|]. by eapply Hdone.
    + apply (Hdone [] [ReplaceTask (pj_task p)]); [done|]. apply rebuilds_task; [|done].
      unfold p. unfold cx_messages in Hm. destruct (cx_projection ctx), p0. cbn in *. by subst.
  - destruct cs as [|c0 cs]; [done|].
    assert (refresh_message_history options = true) as Hr by (destruct Hopt as [?|[Hn _]]; [done|by rewrite Hc in Hn]).
    destruct (Hjr (c0 :: cs)) as (ops & Hj & Hb); [done|done| |by rewrite Hmid|by eapply Hdone].
    apply (moves_follow _ _ (c0 :: cs) _ [] Hm Hu). right. exists (pj_messages p0), []. rewrite app_nil_r.
    split; [done|apply tracks_start].
Qed.

(** C11. The journal rebuilds every draft: whatever edits a transaction makes of
    a well-formed Task, as long as the draft's messages stay unique and the
    revision does not overflow, the commit produces journal operations that
    validate against the stored Task and turn it into exactly the committed
    projection; the commit advances the revision by one and submits nothing for
    another Task. *)
Theorem draft_is_durable task_id p0 edits options :
  let ctx := foldl apply_edit (draft p0) edits in
  projection_wf task_id p0 -> Forall edit_ok edits -> unique_messages (cx_messages ctx) ->
  tr_revision (pj_task p0) < u64_max ->
  refresh_message_history options = true \/
    cx_chat_changes ctx = [] /\ tr_message_history_version (cx_task ctx) = tr_message_history_version (pj_task p0) ->
  exists c, persist_changed_projection (pj_task p0) options ctx = Ok c
    /\ rebuilds task_id p0 (ct_projection c) (w_operations (ct_write c)) /\ w_task_id (ct_write c) = task_id
    /\ pj_messages (ct_projection c) = cx_messages ctx
    /\ tr_revision (pj_task (ct_projection c)) = tr_revision (pj_task p0) + 1.
Proof. intros ctx Hwf He Hu Hrev Hopt. apply edited_durable; try done. by apply edits_edited. Qed.

(** ** What no transaction can do *)

(** The commit guards every mutation: whatever the mutation does, a
    committed Task keeps its identity, advances its revision and version by
    one, an archived Task stays as it is unless it is deleted or restored, and a
    bound Native Session is replaced only by another one and only from one of
    the two states where it may be missing. *)
Theorem commit_is_guarded policy task_id options mutation p c :
  commit_existing_task policy task_id options mutation p = Ok (Some c) ->
  let t := pj_task p in let t' := pj_task (ct_projection c) in
  tr_task_id t' = task_id /\ w_task_id (ct_write c) = task_id
  /\ tr_revision t' = tr_revision t + 1 /\ tr_task_version t' = u64_add (tr_task_version t) 1
  /\ (is_archived (tr_lifecycle t) = true -> is_archived (tr_lifecycle t') = false \/ tr_tombstoned t' = true)
  /\ (forall session, tr_agent_session_id t = Some session ->
        tr_agent_session_id t' = Some session
        \/ policy <> Preserve /\ is_Some (tr_agent_session_id t') /\ validate_replacement_boundary policy p = Ok tt).
Proof.
  unfold commit_existing_task. destruct (validate_replacement_boundary policy p) as [[]|] eqn:Hb; [|done]. cbn.
  destruct (mutation (draft p)) as [[outcome ctx]|]; [|done]. cbn.
  destruct (is_archived (tr_lifecycle (pj_task p)) && is_archived (tr_lifecycle (cx_task ctx)) && negb (tr_tombstoned (cx_task ctx)))
    eqn:Him; [done|]. destruct outcome; try done.
  destruct (validate_task_invariants _ _ _ _) as [[]|] eqn:Hv; [|done]. cbn.
  unfold persist_changed_projection. destruct (u64_checked_add (tr_revision (pj_task p)) 1) as [rev|] eqn:Hrev; [|done]. cbn.
  set (task := if refresh_message_history options then _ else _).
  assert (tr_task_id task = tr_task_id (cx_task ctx) /\ tr_task_version task = tr_task_version (cx_task ctx)
    /\ tr_lifecycle task = tr_lifecycle (cx_task ctx) /\ tr_tombstoned task = tr_tombstoned (cx_task ctx)
    /\ tr_agent_session_id task = tr_agent_session_id (cx_task ctx)) as (E1 & E2 & E3 & E4 & E5)
    by (unfold task; by destruct (refresh_message_history options)).
  destruct (journal_operations _ _) as [ops|]; [|done]. cbn. intros [= <-]. cbn.
  unfold validate_task_invariants in Hv. cbn in Hv.
  destruct (bool_decide_reflect (tr_task_id (cx_task ctx) <> task_id)) as [|Hid]; [done|]. apply dec_stable in Hid.
  destruct (_ || _ || _) eqn:Hver in Hv; [done|]. rewrite !orb_false_iff, !bool_decide_eq_false in Hver.
  destruct Hver as [[Hver _] _]. apply dec_stable in Hver.
  unfold u64_checked_add in Hrev. rewrite E1, E2, E3, E4, E5, Hver. split_and!; try congruence.
  - split_test; [by injection Hrev as <-|done].
  - intros Ha. rewrite Ha in Him. cbn in Him. destruct (is_archived (tr_lifecycle (cx_task ctx))); [|by left].
    right. by destruct (tr_tombstoned (cx_task ctx)).
  - intros session Hs. rewrite Hs in Hv. cbn in Hv.
    destruct (bool_decide_reflect (tr_agent_session_id (cx_task ctx) <> Some session)) as [Hne|Heq];
      [right|left; by apply dec_stable]. cbn in Hv.
    destruct (allows_replacement policy _) eqn:Hal; [|done]. unfold allows_replacement in Hal.
    apply andb_true_iff in Hal as [Hpol Hsome]. split_and!; [by destruct policy| |done].
    destruct (tr_agent_session_id (cx_task ctx)); [by eexists|done].
Qed.
End Draft.

Module DraftWitness.
Import JournalWitness.

(** A turn's text, a Tool row with details, an interruption. *)
Definition tool_step : ActivityStep :=
  StepTool (mkTool (Some "call") "read" Running None None None None None
              (Some (mkDetails [mkLocation "/w/a.rs" None] [] None None)) [] None false).
Definition edits : list Edit :=
  [EPart (MAgentMessage "m" RoleAgent [PartText "b"] "2") 5;
   EUpsert (MActivity "act" "Read" Running "3" false [tool_step]) 6;
   EPart (MAgentMessage "m" RoleAgent [PartText "c"] "2") 7;
   EPermission "act" "call" (mkOutcome "r" Approved None None "8") 8;
   EAppend (MInterruption "i" IntFailed "stopped" "9" true) 9;
   EFinishAll Interrupted 10; ECloseLast "11" 11; ETask (fun t => t)].

Lemma projection_ok : projection_wf "t" projection.
Proof. split; [done|done|]. repeat split; repeat constructor; set_solver. Qed.

Lemma draft_is_durable_witness :
  exists c, persist_changed_projection (pj_task projection) chat_commit_options (foldl apply_edit (draft projection) edits) = Ok c
    /\ rebuilds "t" projection (ct_projection c) (w_operations (ct_write c)).
Proof.
  destruct (draft_is_durable "t" projection edits chat_commit_options) as (c & Hc & Hr & _);
    [apply projection_ok| | | |by left|by exists c].
  - repeat constructor; cbn; intros; reflexivity.
  - apply (bool_decide_unpack _). vm_compute. exact I.
  - vm_compute. reflexivity.
Defined.

(** The operations of that draft: the text row is not rewritten. *)
Example draft_operations :
  match persist_changed_projection (pj_task projection) chat_commit_options (foldl apply_edit (draft projection) edits) with
  | Ok c => map (fun op => match op with
                           | ReplaceTask _ => "task" | AppendText _ t _ _ => t | AppendMessage m => cm_message_id (st_chat m)
                           | UpsertMessage m => cm_message_id (st_chat m) | ReplaceMessageMeta _ => "meta" | _ => "?"
                           end)%string (w_operations (ct_write c))
  | Err _ => []
  end = ["task"; "b"; "act"; "c"; "i"; "meta"]%string.
Proof. vm_compute. reflexivity. Qed.

Lemma commit_is_guarded_witness :
  match commit_existing_task Preserve "t" chat_commit_options (fun ctx => Ok (Changed, foldl apply_edit ctx edits)) projection with
  | Ok (Some c) => tr_task_id (pj_task (ct_projection c)) = "t"%string
  | _ => False
  end.
Proof.
  destruct (commit_existing_task Preserve "t" chat_commit_options (fun ctx => Ok (Changed, foldl apply_edit ctx edits)) projection)
    as [[c|]|] eqn:E; [|vm_compute in E; discriminate E|vm_compute in E; discriminate E].
  apply (commit_is_guarded Preserve "t" chat_commit_options (fun ctx => Ok (Changed, foldl apply_edit ctx edits)) projection c E).
Defined.

(** A reported outcome that the newest row of a reused Tool call id already has
    is written to an older row of that id. *)
Example repeated_outcome_changes_older_row :
  let row id outcome := MActivity id "Run" Completed "1" false
    [StepTool (mkTool (Some "call") "execute" Completed None None None None None None [] outcome false)] in
  let ctx := foldl apply_edit (draft projection) [EAppend (row "old" (Some BgFailed)) 1; EAppend (row "new" None) 2;
                                                 EBackground "call" BgCompleted 3; EBackground "call" BgCompleted 4] in
  outcomes_in (Some "call") <$> message_by_identity "new" ctx = Some (Some ([], Some BgCompleted))
  /\ outcomes_in (Some "call") <$> message_by_identity "old" ctx = Some (Some ([], Some BgCompleted)).
Proof. split; vm_compute; reflexivity. Qed.
End DraftWitness.
