(* ===== verification/TaskFiles.v ===== *)
(** * The files of a Task

    Models [openaide-rs/app-server/src/storage/task_journal/split.rs],
    [store/failure.rs] and [persist_split_commit] of [store/maintenance.rs]: a
    Task is a metadata file, a snapshot of its Chat and a journal of the changes
    since; a commit appends to the journal and then replaces the metadata.

    The state is one Task's directory.  A journal file is its frames and the
    length of a torn tail, or a header that is not complete: what
    [Frame] shows [frame::replay] to read.  Every write can fail or be cut off by
    a crash, and its fault tells what the disk holds then; what follows a fault
    does not run.  Serialization by serde is the class [SplitCodecs], and
    [SplitLaws] what it promises.

    Shows that a commit is atomic: whatever fault ends it, loading the directory
    gives the Task before or after the commit, and after it once the commit was
    acknowledged; that loading, which repairs the files, can itself be cut off
    anywhere; that compaction changes nothing that loading gives; and that the
    metadata a start reads without the Chat is that of the loaded Task. *)

From stdpp Require Import pretty.
From S2P Require Import Prelude Chat Records Journal.
Local Open Scope Z_scope.

(** ** Migration of old Chat snapshots *)

Definition search_action (query : JsonValue) : JsonValue :=
  JObject [("kind"%string, JString "search"); ("query"%string, query); ("scopes"%string, JArray []);
           ("target"%string, JString "contents")].

(** The actions that the kind and the subjects of an old presentation make. *)
Definition v1_actions (kind subjects : option JsonValue) : option JsonValue :=
  match kind, subjects with
  | Some (JString k), Some (JArray subjects) =>
      if bool_decide (k = "search"%string) then Some (JArray (search_action <$> subjects))
      else Some (JArray [JObject [("kind"%string, JString k); ("subjects"%string, JArray subjects)]])
  | Some kind, Some subjects => Some (JArray [JObject [("kind"%string, kind); ("subjects"%string, subjects)]])
  | _, _ => None
  end.

Definition migrate_presentation (fields : list (string * JsonValue)) : list (string * JsonValue) :=
  if is_some (field "actions" fields) then fields
  else
    let rest := remove_field "subjects" (remove_field "kind" fields) in
    match v1_actions (field "kind" fields) (field "subjects" fields) with
    | Some actions => insert_field "actions" actions rest
    | None => rest
    end.

Definition migrate_fields (fields : list (string * JsonValue)) : list (string * JsonValue) :=
  (fun f => (f.1, match f.2 with
                  | JObject presentation => if bool_decide (f.1 = "presentation"%string)
                                            then JObject (migrate_presentation presentation) else f.2
                  | v => v
                  end)) <$> fields.

(** The recursion of [migrate_v1_tool_presentations] goes into the values after
    the presentation at hand was changed.  A change adds at most two levels, so
    three times the depth of the value is fuel enough. *)
Fixpoint migrate_v1 (fuel : nat) (value : JsonValue) : JsonValue :=
  match fuel with
  | O => value
  | S fuel =>
      match value with
      | JArray values => JArray (migrate_v1 fuel <$> values)
      | JObject fields => JObject ((fun f => (f.1, migrate_v1 fuel f.2)) <$> migrate_fields fields)
      | v => v
      end
  end.

Fixpoint json_depth (value : JsonValue) : nat :=
  match value with
  | JArray values => S (foldr (fun v d => Nat.max (json_depth v) d) O values)
  | JObject fields => S (foldr (fun f d => Nat.max (json_depth f.2) d) O fields)
  | _ => 1%nat
  end.
Definition migrate_v1_tool_presentations (value : JsonValue) : JsonValue := migrate_v1 (3 * json_depth value) value.

(** ** Files *)

Definition TASK_SCHEMA_VERSION : Z := 1.
Definition CHAT_SCHEMA_VERSION : Z := 3.
Definition CHAT_SNAPSHOT_FILE : string := "chat.snapshot".
Definition CHAT_JOURNAL_FILE : string := "chat.journal".
Definition FILE_HEADER_LEN : Z := 10.

(** ** The status byte *)

(** What a write leaves when it does not succeed: the old content, some of the
    bytes of an append, or all of the new content. *)
Inductive WriteFault :=
| WriteOk
| WriteLost (e : RuntimeError)
| WriteTorn (bytes : Z) (e : RuntimeError)
| WriteKept (e : RuntimeError).

Definition HEALTHY : Z := 72.
Definition QUARANTINED : Z := 81.

(** The bytes of [storage.quarantined], when it exists. *)
Abbreviation StatusFile := (option (list Z)).

Definition ensure_status (fault : WriteFault) (s : StatusFile) : result unit RuntimeError * StatusFile :=
  match s, fault with
  | Some _, _ => (Ok tt, s)
  | None, WriteOk => (Ok tt, Some [HEALTHY])
  | None, WriteLost e => (Err e, None)
  | None, WriteTorn _ e => (Err e, Some [])
  | None, WriteKept e => (Err e, Some [HEALTHY])
  end.

Definition is_quarantined (s : StatusFile) : bool :=
  match s with None => false | Some [] => true | Some (b :: _) => negb (bool_decide (b = HEALTHY)) end.

(** One byte is overwritten in place, so that nothing has to be allocated. *)
Definition quarantine (fault : WriteFault) (s : StatusFile) : result unit RuntimeError * StatusFile :=
  match s, fault with
  | None, _ => (Err (Storage "No such file or directory"), None)
  | Some bytes, WriteOk => (Ok tt, Some (QUARANTINED :: tail bytes))
  | Some bytes, WriteKept e => (Err e, Some (QUARANTINED :: tail bytes))
  | Some _, (WriteLost e | WriteTorn _ e) => (Err e, s)
  end.

(** A Task that was provisioned stays as it is, a quarantined one for good. *)
Lemma quarantine_is_final fault s s' : quarantine WriteOk s = (Ok tt, s') ->
  is_quarantined s' = true /\ ensure_status fault s' = (Ok tt, s').
Proof. destruct s; [|done]. intros [= <-]. done. Qed.

Lemma provisioned_can_be_quarantined fault s s' : ensure_status fault s = (Ok tt, s') ->
  (quarantine WriteOk s').1 = Ok tt /\ (is_quarantined s = false -> is_quarantined s' = false).
Proof. destruct s; [intros [= <-]|destruct fault; intros [= <-]]; done. Qed.

(** ** Framed files

    A journal file as [frame::replay] reads it: fewer bytes than the header, or
    frames and a torn tail. *)

Inductive JournalFile (F : Type) := JHeader (written : Z) | JFrames (frames : list F) (tail : Z).
Arguments JHeader {F}.
Arguments JFrames {F}.

Section Framed.
Context {F : Type} (sequence : F -> Z) (bytes : F -> Z).

Definition framed_bytes (frames : list F) : Z := FILE_HEADER_LEN + list_sum bytes frames.
Definition framed_length (j : JournalFile F) : Z :=
  match j with JHeader n => n | JFrames frames tail => framed_bytes frames + tail end.

Fixpoint numbered (expected : Z) (frames : list F) : bool :=
  match frames with [] => true | f :: frames => bool_decide (sequence f = expected) && numbered (expected + 1) frames end.

(** [frame::replay]: the frames, once a torn tail was cut off. *)
Definition replay (fault : WriteFault) (j : JournalFile F) : result (list F) RuntimeError * JournalFile F :=
  match j with
  | JHeader _ => (Err (Storage "Invalid Task journal header"), j)
  | JFrames frames tail =>
      if negb (numbered 1 frames) then (Err (Storage "Task journal sequence gap"), j)
      else if bool_decide (tail = 0) then (Ok frames, j)
      else match fault with
           | WriteOk => (Ok frames, JFrames frames 0)
           | WriteLost e | WriteTorn _ e => (Err e, j)
           | WriteKept e => (Err e, JFrames frames 0)
           end
  end.

(** The bytes of [n] that a cut leaves, and never the whole. *)
Definition cut (n size : Z) : Z := Z.max 0 (Z.min n (size - 1)).

(** [frame::create_with_faults]: the header and the first frame. *)
Definition create_frames (fault : WriteFault) (name : string) (f : F) (files : gmap string (JournalFile F))
  : result unit RuntimeError * gmap string (JournalFile F) :=
  match files !! name with
  | Some _ => (Err (Storage "Task journal create_open failed (kind=already_exists)"), files)
  | None =>
      match fault with
      | WriteOk => (Ok tt, <[name := JFrames [f] 0]> files)
      | WriteLost e => (Err e, files)
      | WriteTorn n e =>
          let n := cut n (framed_bytes [f]) in
          (Err e, <[name := if bool_decide (n < FILE_HEADER_LEN) then JHeader n else JFrames [] (n - FILE_HEADER_LEN)]> files)
      | WriteKept e => (Err e, <[name := JFrames [f] 0]> files)
      end
  end.

(** [frame::append_with_faults]; what follows a torn tail is never read. *)
Definition append_frame (fault : WriteFault) (name : string) (f : F) (files : gmap string (JournalFile F))
  : result unit RuntimeError * gmap string (JournalFile F) :=
  match files !! name with
  | None => (Err (Storage "Task journal append_open failed (kind=not_found)"), files)
  | Some j =>
      let part n := match j with
                    | JHeader written => JHeader (written + n)
                    | JFrames frames tail => JFrames frames (tail + n)
                    end in
      let whole := match j with
                   | JFrames frames 0 => JFrames (frames ++ [f]) 0
                   | _ => part (bytes f)
                   end in
      match fault with
      | WriteOk => (Ok tt, <[name := whole]> files)
      | WriteLost e => (Err e, files)
      | WriteTorn n e => (Err e, <[name := part (cut n (bytes f))]> files)
      | WriteKept e => (Err e, <[name := whole]> files)
      end
  end.

Lemma numbered_app k fs gs : numbered k (fs ++ gs) = numbered k fs && numbered (k + Z.of_nat (length fs)) gs.
Proof.
  revert k. induction fs as [|f fs IH]; intros k; cbn [app numbered length].
  - by replace (k + Z.of_nat 0) with k by lia.
  - rewrite IH, andb_assoc. do 2 f_equal. lia.
Qed.
End Framed.

(** ** The directory of a Task *)

Section TaskFiles.
Context `{CP : ChatPayloads}.

Record TaskMetadataPatch := mkPatch { pt_fields : gmap string JsonValue; pt_removed_fields : gset string }.

Record ChatFrame := mkChatFrame {
  fr_schema_version : Z; fr_sequence : Z; fr_operations : list TaskOperation; fr_task_patch : TaskMetadataPatch }.

Record ChatSnapshotFile := mkSnapshot {
  ss_schema_version : Z; ss_messages : list StoredMessage; ss_message_meta : MessageMeta; ss_artifact_heads : gmap string Z }.

Record DurableTaskFile := mkTaskFile {
  df_schema_version : Z; df_storage_sequence : Z; df_chat_sequence : Z; df_chat_snapshot : string;
  df_chat_journal : string; df_chat_journal_bytes : option Z; df_task : TaskRecord }.

(** serde for the Task record, as the object it writes, and the Chat snapshot,
    with the values that JSON can hold (numbers in their range, strings of UTF-8);
    the length of a frame with its length and checksum. *)
Class SplitCodecs := {
  task_to_value : TaskRecord -> gmap string JsonValue;
  task_from_value : gmap string JsonValue -> result TaskRecord RuntimeError;
  snapshot_to_value : ChatSnapshotFile -> JsonValue;
  snapshot_from_value : JsonValue -> result ChatSnapshotFile RuntimeError;
  encodable_task : TaskRecord -> Prop;
  encodable_snapshot : ChatSnapshotFile -> Prop;
  frame_bytes : ChatFrame -> Z;
}.

(** A record without live Agent state reads back; each field has its own key;
    a snapshot reads back and has its version under its key. *)
Class SplitLaws `{SplitCodecs} := {
  task_reads_back t : no_live_agent_state t -> encodable_task t -> task_from_value (task_to_value t) = Ok t;
  history_version_key v t :
    task_to_value (set_history_version v t) = <["message_history_version"%string := JNumber v]> (task_to_value t);
  snapshot_reads_back s : encodable_snapshot s -> snapshot_from_value (snapshot_to_value s) = Ok s;
  snapshot_version_key s : json_get "schemaVersion" (snapshot_to_value s) = Some (JNumber (ss_schema_version s));
  frame_bytes_pos f : 0 < frame_bytes f;
}.

Record TaskDirectory := mkTaskDirectory {
  td_task : option DurableTaskFile;
  td_snapshots : gmap string JsonValue;
  td_journals : gmap string (JournalFile ChatFrame);
  td_legacy_journal : bool;
  td_legacy_catalog : bool;
}.

Definition set_task_file (f : DurableTaskFile) (d : TaskDirectory) : TaskDirectory :=
  mkTaskDirectory (Some f) (td_snapshots d) (td_journals d) (td_legacy_journal d) (td_legacy_catalog d).
Definition set_snapshots (m : gmap string JsonValue) (d : TaskDirectory) : TaskDirectory :=
  mkTaskDirectory (td_task d) m (td_journals d) (td_legacy_journal d) (td_legacy_catalog d).
Definition set_journals (m : gmap string (JournalFile ChatFrame)) (d : TaskDirectory) : TaskDirectory :=
  mkTaskDirectory (td_task d) (td_snapshots d) m (td_legacy_journal d) (td_legacy_catalog d).

Section Codecs.
Context `{SC : !SplitCodecs}.

Definition file_length_or_zero (name : string) (d : TaskDirectory) : Z :=
  match td_journals d !! name with Some j => framed_length frame_bytes j | None => 0 end.

Definition create_journal (fault : WriteFault) (name : string) (f : ChatFrame) (d : TaskDirectory)
  : result unit RuntimeError * TaskDirectory :=
  let '(r, journals) := create_frames frame_bytes fault name f (td_journals d) in (r, set_journals journals d).
Definition append_journal (fault : WriteFault) (name : string) (f : ChatFrame) (d : TaskDirectory)
  : result unit RuntimeError * TaskDirectory :=
  let '(r, journals) := append_frame frame_bytes fault name f (td_journals d) in (r, set_journals journals d).

(** [durable_replace_json]: a temporary file is renamed over the old one, so that
    a write that is torn leaves the old content. *)
Definition durable_replace (fault : WriteFault) (old new : TaskDirectory) : result unit RuntimeError * TaskDirectory :=
  match fault with
  | WriteOk => (Ok tt, new)
  | WriteLost e | WriteTorn _ e => (Err e, old)
  | WriteKept e => (Err e, new)
  end.

Definition replace_snapshot (fault : WriteFault) (name : string) (s : ChatSnapshotFile) (d : TaskDirectory)
  : result unit RuntimeError * TaskDirectory :=
  durable_replace fault d (set_snapshots (<[name := snapshot_to_value s]> (td_snapshots d)) d).

(** [fs::remove_file] and the sync of the directory. *)
Definition remove_journal (fault : WriteFault) (name : string) (d : TaskDirectory) : result unit RuntimeError * TaskDirectory :=
  durable_replace fault d (set_journals (delete name (td_journals d)) d).

Definition cleared (t : TaskRecord) : TaskRecord := (clear_process_local_agent_state t).2.
#[local] Arguments cleared : simpl never.

Definition publish_task (fault : WriteFault) (t : TaskRecord) (storage_sequence chat_sequence : Z) (chat_snapshot chat_journal : string)
    (d : TaskDirectory) : result unit RuntimeError * TaskDirectory :=
  durable_replace fault d
    (set_task_file (mkTaskFile TASK_SCHEMA_VERSION storage_sequence chat_sequence chat_snapshot chat_journal
                      (Some (file_length_or_zero chat_journal d)) (cleared t)) d).

(** ** Recovery metadata of a frame *)

(** [TaskMetadataPatch::between]. *)
Definition patch_between (before after : TaskRecord) : TaskMetadataPatch :=
  let before := task_to_value before in
  let after := task_to_value (cleared after) in
  mkPatch (filter (fun e => before !! e.1 <> Some e.2) after) (filter (fun k => after !! k = None) (dom before)).

(** [TaskMetadataPatch::apply]. *)
Definition patch_apply (p : TaskMetadataPatch) (t : TaskRecord) : result TaskRecord RuntimeError :=
  if bool_decide (pt_fields p = ∅) && bool_decide (pt_removed_fields p = ∅) then Ok t
  else
    let? recovered := task_from_value (pt_fields p ∪ filter (fun e => e.1 ∉ pt_removed_fields p) (task_to_value t)) in
    if bool_decide (tr_task_id recovered <> tr_task_id t)
    then Err (Storage "Chat recovery metadata changes Task identity") else Ok recovered.

(** ** Loading *)

(** Option catalogs of older releases are not read as live controls. *)
Definition drop_stored_controls (t : TaskRecord) : TaskRecord :=
  let c := tr_config_mutation t in
  set_process_local None (tr_native_session_data_freshness t) (mkConfigMutation (cf_sequence c) (cf_pending c) None (cf_chosen c))
    (tr_context_usage t) (tr_last_turn_usage t) t.

Definition validate_schema (kind : string) (version current : Z) : result unit RuntimeError :=
  if bool_decide (version = current) then Ok tt
  else Err (Storage ("Unsupported " +:+ kind +:+ " schema version " +:+ pretty version)).

Definition load_task (d : TaskDirectory) : result (option DurableTaskFile) RuntimeError :=
  match td_task d with
  | None => Ok None
  | Some f =>
      check? validate_schema "Task metadata" (df_schema_version f) TASK_SCHEMA_VERSION in
      Ok (Some (mkTaskFile (df_schema_version f) (df_storage_sequence f) (df_chat_sequence f) (df_chat_snapshot f)
                  (df_chat_journal f) (df_chat_journal_bytes f) (drop_stored_controls (df_task f))))
  end.

Definition task_files_exist (d : TaskDirectory) : bool :=
  match load_task d with Ok (Some f) => is_some (td_snapshots d !! df_chat_snapshot f) | _ => false end.

(** [value["schemaVersion"] = version]. *)
Definition set_schema_version (value : JsonValue) : JsonValue :=
  match value with JObject fields => JObject (insert_field "schemaVersion" (JNumber CHAT_SCHEMA_VERSION) fields) | v => v end.

(** The snapshot and whether it was migrated. *)
Definition load_chat_snapshot (name : string) (d : TaskDirectory) : result (ChatSnapshotFile * bool) RuntimeError :=
  let? value := ok_or (td_snapshots d !! name) (Storage "No such file or directory") in
  let? version := ok_or (v ← json_get "schemaVersion" value; n ← as_u64 v; if bool_decide (n < 2 ^ 16) then Some n else None)
                    (Storage "Chat snapshot schema version is missing") in
  let? migrated := (if bool_decide (version = CHAT_SCHEMA_VERSION) then Ok (value, false)
                    else if bool_decide (version = 2) then Ok (set_schema_version value, false)
                    else if bool_decide (version = 1) then Ok (set_schema_version (migrate_v1_tool_presentations value), true)
                    else Err (Storage ("Unsupported Chat snapshot schema version " +:+ pretty version))) in
  let? snapshot := snapshot_from_value migrated.1 in
  check? validate_schema "Chat snapshot" (ss_schema_version snapshot) CHAT_SCHEMA_VERSION in
  Ok (snapshot, migrated.2).

(** The loop over the frames of [load_projection]. *)
Fixpoint replay_chat (f : DurableTaskFile) (frames : list ChatFrame) (state : gmap string RecoveredTask)
  : result (gmap string RecoveredTask) RuntimeError :=
  match frames with
  | [] => Ok state
  | frame :: frames =>
      let task_id := tr_task_id (df_task f) in
      match apply_operations task_id (fr_operations frame) (fr_sequence frame) state with
      | (Err e, _) => Err e
      | (Ok _, state) =>
          match state !! task_id with
          | Some (Available p s) =>
              if bool_decide (fr_sequence frame = df_chat_sequence f)
              then replay_chat f frames (<[task_id := Available (set_task (df_task f) p) s]> state)
              else if bool_decide (df_chat_sequence f < fr_sequence frame)
              then let? t := patch_apply (fr_task_patch frame) (pj_task p) in
                   replay_chat f frames (<[task_id := Available (set_task t p) s]> state)
              else replay_chat f frames state
          | _ => Err (Storage "split replay cannot quarantine Task")
          end
      end
  end.

(** The writes of [load_projection]: the journal that is cut or removed, the
    metadata and the snapshot. *)
Record LoadFaults := mkLoadFaults {
  lf_header : WriteFault; lf_trim : WriteFault; lf_remove : WriteFault; lf_publish : WriteFault; lf_snapshot : WriteFault }.
Definition no_load_faults : LoadFaults := mkLoadFaults WriteOk WriteOk WriteOk WriteOk WriteOk.

Definition migrate_snapshot (fault : WriteFault) (migrated : bool) (name : string) (s : ChatSnapshotFile) (d : TaskDirectory)
  : result unit RuntimeError * TaskDirectory :=
  if migrated then replace_snapshot fault name s d else (Ok tt, d).

(** The end of [load_projection], when nothing was ahead of the metadata. *)
Definition finish_load (faults : LoadFaults) (f : DurableTaskFile) (snapshot : ChatSnapshotFile * bool) (p : TaskProjection)
    (d : TaskDirectory) : result (option (TaskProjection * Z)) RuntimeError * TaskDirectory :=
  match migrate_snapshot (lf_snapshot faults) snapshot.2 (df_chat_snapshot f) snapshot.1 d with
  | (Err e, d) => (Err e, d)
  | (Ok _, d) =>
      if is_some (df_chat_journal_bytes f) then (Ok (Some (p, df_storage_sequence f)), d)
      else match publish_task (lf_publish faults) (pj_task p) (df_storage_sequence f) (df_chat_sequence f) (df_chat_snapshot f)
                   (df_chat_journal f) d with
           | (Err e, d) => (Err e, d)
           | (Ok _, d) => (Ok (Some (p, df_storage_sequence f)), d)
           end
  end.

(** The part of [load_projection] for a journal that is there. *)
Definition load_journal (faults : LoadFaults) (f : DurableTaskFile) (snapshot : ChatSnapshotFile * bool) (p : TaskProjection)
    (j : JournalFile ChatFrame) (d : TaskDirectory) : result (option (TaskProjection * Z)) RuntimeError * TaskDirectory :=
  let '(replayed, j) := replay fr_sequence (lf_trim faults) j in
  let d := set_journals (<[df_chat_journal f := j]> (td_journals d)) d in
  match replayed with
  | Err e => (Err e, d)
  | Ok frames =>
      let recovered_chat_sequence := Z.of_nat (length frames) in
      if bool_decide (recovered_chat_sequence < df_chat_sequence f)
      then (Err (Storage "Chat journal is behind its committed Task metadata"), d)
      else
        let task_id := tr_task_id (df_task f) in
        match (let? state := replay_chat f frames {[task_id := Available p 0]} in
               match state !! task_id with
               | Some (Available p _) => Ok (set_task (set_history_version (mm_version (pj_message_meta p)) (pj_task p)) p)
               | _ => Err (Storage "split replay retains Task")
               end) with
        | Err e => (Err e, d)
        | Ok p =>
            match (if bool_decide (recovered_chat_sequence = 0) then remove_journal (lf_remove faults) (df_chat_journal f) d
                   else (Ok tt, d)) with
            | (Err e, d) => (Err e, d)
            | (Ok _, d) =>
                let bytes := file_length_or_zero (df_chat_journal f) d in
                if bool_decide (df_chat_sequence f < recovered_chat_sequence)
                   || match df_chat_journal_bytes f with Some b => negb (bool_decide (b = bytes)) | None => false end
                then
                  let repaired := u64_saturating_add (df_storage_sequence f) (recovered_chat_sequence - df_chat_sequence f) in
                  match publish_task (lf_publish faults) (pj_task p) repaired recovered_chat_sequence (df_chat_snapshot f)
                          (df_chat_journal f) d with
                  | (Err e, d) => (Err e, d)
                  | (Ok _, d) =>
                      match migrate_snapshot (lf_snapshot faults) snapshot.2 (df_chat_snapshot f) snapshot.1 d with
                      | (Err e, d) => (Err e, d)
                      | (Ok _, d) => (Ok (Some (p, repaired)), d)
                      end
                  end
                else finish_load faults f snapshot p d
            end
        end
  end.

(** A journal without a whole header, of metadata that has none, is disposable. *)
Definition drop_partial_header (fault : WriteFault) (f : DurableTaskFile) (d : TaskDirectory) : result unit RuntimeError * TaskDirectory :=
  match td_journals d !! df_chat_journal f with
  | Some j => if bool_decide (df_chat_sequence f = 0) && bool_decide (framed_length frame_bytes j < FILE_HEADER_LEN)
              then remove_journal fault (df_chat_journal f) d else (Ok tt, d)
  | None => (Ok tt, d)
  end.

Definition load_projection (faults : LoadFaults) (d : TaskDirectory)
  : result (option (TaskProjection * Z)) RuntimeError * TaskDirectory :=
  match load_task d with
  | Err e => (Err e, d)
  | Ok None => (Ok None, d)
  | Ok (Some f) =>
      match load_chat_snapshot (df_chat_snapshot f) d with
      | Err e => (Err e, d)
      | Ok snapshot =>
          let s := snapshot.1 in
          let p := mkProjection (df_task f) (ss_messages s) (ss_message_meta s) (ss_artifact_heads s) in
          match drop_partial_header (lf_header faults) f d with
          | (Err e, d) => (Err e, d)
          | (Ok _, d) =>
              match td_journals d !! df_chat_journal f with
              | Some j => load_journal faults f snapshot p j d
              | None => if bool_decide (0 < df_chat_sequence f)
                        then (Err (Storage "Committed Chat journal generation is missing"), d)
                        else finish_load faults f snapshot p d
              end
          end
      end
  end.

(** What a start reads of a Task, without its Chat unless that is ahead. *)
Definition load_catalog_task (faults : LoadFaults) (d : TaskDirectory) : result (option DurableTaskFile) RuntimeError * TaskDirectory :=
  match load_task d with
  | Err e => (Err e, d)
  | Ok None => (Ok None, d)
  | Ok (Some f) =>
      match df_chat_journal_bytes f with
      | Some committed =>
          if bool_decide (committed < file_length_or_zero (df_chat_journal f) d) then
            match load_projection faults d with
            | (Err e, d) => (Err e, d)
            | (Ok _, d) => (load_task d, d)
            end
          else (Ok (Some f), d)
      | None => (Ok (Some f), d)
      end
  end.

(** ** Writing *)

Definition snapshot_of (p : TaskProjection) : ChatSnapshotFile :=
  mkSnapshot CHAT_SCHEMA_VERSION (pj_messages p) (pj_message_meta p) (pj_artifact_heads p).

(** The snapshot first: metadata makes the Task visible. *)
Definition publish_initial (snapshot_fault publish_fault : WriteFault) (p : TaskProjection) (storage_sequence : Z) (d : TaskDirectory)
  : result unit RuntimeError * TaskDirectory :=
  match replace_snapshot snapshot_fault CHAT_SNAPSHOT_FILE (snapshot_of p) d with
  | (Err e, d) => (Err e, d)
  | (Ok _, d) => publish_task publish_fault (pj_task p) storage_sequence 0 CHAT_SNAPSHOT_FILE CHAT_JOURNAL_FILE d
  end.

(** [durable_chat_operations]. *)
Definition durable_chat_operation (op : TaskOperation) : option TaskOperation :=
  match op with
  | Create _ | ReplaceTask _ => None
  | ReplaceProjection p => Some (ReplaceProjection (set_task (cleared (pj_task p)) p))
  | op => Some op
  end.
Definition durable_chat_operations (ops : list TaskOperation) : list TaskOperation := omap durable_chat_operation ops.

Definition metadata_missing : RuntimeError := Storage "Split Task metadata is missing".

Definition append (frame_fault publish_fault : WriteFault) (p : TaskProjection) (ops : list TaskOperation) (storage_sequence : Z)
    (d : TaskDirectory) : result unit RuntimeError * TaskDirectory :=
  match (let? f := load_task d in ok_or f metadata_missing) with
  | Err e => (Err e, d)
  | Ok f =>
      let chat_operations := durable_chat_operations ops in
      let written :=
        match chat_operations with
        | [] => (Ok (df_chat_sequence f), d)
        | _ =>
            match u64_checked_add (df_chat_sequence f) 1 with
            | None => (Err (Storage "Chat journal sequence overflow"), d)
            | Some next =>
                let frame := mkChatFrame CHAT_SCHEMA_VERSION next chat_operations (patch_between (df_task f) (pj_task p)) in
                let '(r, d) := if bool_decide (next = 1) then create_journal frame_fault (df_chat_journal f) frame d
                               else append_journal frame_fault (df_chat_journal f) frame d in
                (let? _ := r in Ok next, d)
            end
        end in
      match written with
      | (Err e, d) => (Err e, d)
      | (Ok next, d) =>
          publish_task publish_fault (pj_task p) storage_sequence next (df_chat_snapshot f) (df_chat_journal f) d
      end
  end.

(** The faults of [compact]: the snapshot, the metadata, the removals and the
    last sync.  The generation is fresh. *)
Record CompactFaults := mkCompactFaults {
  cp_snapshot : WriteFault; cp_before_publish : option RuntimeError; cp_publish : WriteFault;
  cp_remove_journal : option RuntimeError; cp_remove_snapshot : option RuntimeError; cp_sync : option RuntimeError }.

(** [remove_if_present]. *)
Definition remove_unless (fault : option RuntimeError) (new old : TaskDirectory) : result unit RuntimeError * TaskDirectory :=
  match fault with Some e => (Err e, old) | None => (Ok tt, new) end.

Definition compact (faults : CompactFaults) (generation : string) (p : TaskProjection) (storage_sequence : Z) (d : TaskDirectory)
  : result unit RuntimeError * TaskDirectory :=
  match (let? f := load_task d in ok_or f metadata_missing) with
  | Err e => (Err e, d)
  | Ok f =>
      let new_snapshot := CHAT_SNAPSHOT_FILE +:+ "." +:+ generation in
      let new_journal := CHAT_JOURNAL_FILE +:+ "." +:+ generation in
      match replace_snapshot (cp_snapshot faults) new_snapshot (snapshot_of p) d with
      | (Err e, d) => (Err e, d)
      | (Ok _, d) =>
          match cp_before_publish faults with
          | Some e => (Err e, d)
          | None =>
              match publish_task (cp_publish faults) (pj_task p) storage_sequence 0 new_snapshot new_journal d with
              | (Err e, d) => (Err e, d)
              | (Ok _, d) =>
                  match remove_unless (cp_remove_journal faults) (set_journals (delete (df_chat_journal f) (td_journals d)) d) d with
                  | (Err e, d) => (Err e, d)
                  | (Ok _, d) =>
                      match (if bool_decide (df_chat_snapshot f = new_snapshot) then (Ok tt, d)
                             else remove_unless (cp_remove_snapshot faults)
                                    (set_snapshots (delete (df_chat_snapshot f) (td_snapshots d)) d) d) with
                      | (Err e, d) => (Err e, d)
                      | (Ok _, d) => match cp_sync faults with Some e => (Err e, d) | None => (Ok tt, d) end
                      end
                  end
              end
          end
      end
  end.

(** [compaction_is_worthwhile]; the size of the snapshot file is an argument. *)
Definition compaction_is_worthwhile (snapshot_bytes : Z) (d : TaskDirectory) : result bool RuntimeError * TaskDirectory :=
  match (let? f := load_task d in ok_or f metadata_missing) with
  | Err e => (Err e, d)
  | Ok f =>
      match td_journals d !! df_chat_journal f with
      | None => (Ok false, d)
      | Some j =>
          let '(scanned, j) := replay fr_sequence WriteOk j in
          let d := set_journals (<[df_chat_journal f := j]> (td_journals d)) d in
          match scanned with
          | Err e => (Err e, d)
          | Ok frames =>
              (Ok (bool_decide (128 <= Z.of_nat (length frames))
                   || (bool_decide (snapshot_bytes <= framed_length frame_bytes j) && bool_decide (1024 * 1024 <= framed_length frame_bytes j))), d)
          end
      end
  end.

Definition remove_legacy_files (fault : option RuntimeError) (d : TaskDirectory) : result unit RuntimeError * TaskDirectory :=
  match fault with
  | Some e => (Err e, d)
  | None => (Ok tt, mkTaskDirectory (td_task d) (td_snapshots d) (td_journals d) false false)
  end.

(** [migrate]: the new files are read back before the old ones go; [same] is the
    comparison of the two projections as values. *)
Definition migrate (same : TaskProjection -> TaskProjection -> bool) (snapshot_fault publish_fault : WriteFault) (faults : LoadFaults)
    (cleanup : option RuntimeError) (p : TaskProjection) (storage_sequence : Z) (d : TaskDirectory)
  : result unit RuntimeError * TaskDirectory :=
  match publish_initial snapshot_fault publish_fault p storage_sequence d with
  | (Err e, d) => (Err e, d)
  | (Ok _, d) =>
      match load_projection faults d with
      | (Err e, d) => (Err e, d)
      | (Ok None, d) => (Err (Storage "Published split Task could not be loaded"), d)
      | (Ok (Some (verified, verified_sequence)), d) =>
          if negb (same verified (set_task (cleared (pj_task p)) p)) || negb (bool_decide (verified_sequence = storage_sequence))
          then (Err (Storage "Published split Task failed validation"), d)
          else (Ok tt, (remove_legacy_files cleanup d).2)
      end
  end.

Definition persist_split_commit (first_fault second_fault : WriteFault) (p : TaskProjection) (ops : list TaskOperation)
    (storage_sequence : Z) (d : TaskDirectory) : result unit RuntimeError * TaskDirectory :=
  if bool_decide (storage_sequence = 1) then publish_initial first_fault second_fault p storage_sequence d
  else append first_fault second_fault p ops storage_sequence d.

(** ** Operations on one projection *)

(** [apply_operation] for a Task that is there. *)
Definition op_step (task_id : string) (op : TaskOperation) (p : TaskProjection) : result TaskProjection RuntimeError :=
  match op with
  | Create q | ReplaceProjection q => Ok q
  | ReplaceTask t => Ok (set_task t p)
  | AppendText identity text updated_at _ =>
      let? ms := append_text (pj_messages p) identity text in
      Ok (set_meta (set_updated_at updated_at (pj_message_meta p)) (set_messages ms p))
  | AppendMessage m => check? validate_message_append (pj_messages p) m in Ok (set_messages (pj_messages p ++ [m]) p)
  | UpsertMessage m => let? ms := upsert_message (pj_messages p) m in Ok (set_messages ms p)
  | ReplaceMessages ms meta =>
      check? validate_message_set ms in check? validate_message_meta task_id meta in Ok (install_meta meta (set_messages ms p))
  | ReplaceMessageMeta meta => check? validate_message_meta task_id meta in Ok (install_meta meta p)
  | CommitArtifact artifact_id sequence => Ok (set_head artifact_id sequence p)
  end.

Fixpoint op_loop (task_id : string) (ops : list TaskOperation) (p : TaskProjection) : result TaskProjection RuntimeError :=
  match ops with [] => Ok p | op :: ops => let? p := op_step task_id op p in op_loop task_id ops p end.

Definition bumps (ops : list TaskOperation) : bool := existsb changes_history ops && negb (existsb replaces_meta ops).

(** [apply_operations] for a Task that is there. *)
Definition apply_p (task_id : string) (ops : list TaskOperation) (p : TaskProjection) : result TaskProjection RuntimeError :=
  let? p := op_loop task_id ops p in if bumps ops then bump_version p else Ok p.

Definition not_create (op : TaskOperation) : Prop := match op with Create _ => False | _ => True end.

Lemma with_single task_id g p s :
  with_projection task_id g {[task_id := Available p s]} =
  match g p with Ok p' => (Ok tt, {[task_id := Available p' s]}) | Err e => (Err e, {[task_id := Available p s]}) end.
Proof. unfold with_projection. rewrite lookup_singleton_eq. destruct (g p); [|done]. by rewrite insert_singleton_eq. Qed.

Lemma apply_operation_single task_id seq op p s : not_create op ->
  apply_operation task_id seq op {[task_id := Available p s]} =
  match op_step task_id op p with
  | Ok p' => (Ok tt, {[task_id := Available p' s]})
  | Err e => (Err e, {[task_id := Available p s]})
  end.
Proof.
  intros Hc. destruct op; try done; cbn [apply_operation op_step]; rewrite ?with_single; try done.
  - rewrite lookup_singleton_eq. by rewrite insert_singleton_eq.
  - destruct (validate_message_set messages); [|done]. by destruct (validate_message_meta task_id message_meta).
  - by destruct (validate_message_meta task_id message_meta).
Qed.

Lemma apply_loop_one task_id seq ops p s : Forall not_create ops ->
  apply_loop task_id seq ops {[task_id := Available p s]} =
  match op_loop task_id ops p with
  | Ok p' => (Ok tt, {[task_id := Available p' s]})
  | Err e => (Err e, (apply_loop task_id seq ops {[task_id := Available p s]}).2)
  end.
Proof.
  intros Hc. revert p. induction Hc as [|op ops Ho Hc IH]; intros p; cbn [apply_loop op_loop]; [done|].
  rewrite apply_operation_single by done. destruct (op_step task_id op p) as [p'|e]; cbn [result_bind]; [|done].
  apply IH.
Qed.

Lemma apply_operations_single task_id ops seq p s p' : Forall not_create ops -> apply_p task_id ops p = Ok p' ->
  apply_operations task_id ops seq {[task_id := Available p s]} = (Ok tt, {[task_id := Available p' seq]}).
Proof.
  intros Hc H. unfold apply_p in H. apply result_bind_ok in H as (q & Hq & H). unfold apply_operations.
  rewrite apply_loop_one, Hq by done. unfold bumps in H. destruct (_ && _).
  - rewrite with_single, H. rewrite lookup_singleton_eq. by rewrite insert_singleton_eq.
  - injection H as ->. rewrite lookup_singleton_eq. by rewrite insert_singleton_eq.
Qed.

Lemma set_journals_same d : set_journals (td_journals d) d = d.
Proof. by destruct d. Qed.

(** *** The Chat of a projection *)

Definition chat_of (p : TaskProjection) : list StoredMessage * MessageMeta * gmap string Z :=
  (pj_messages p, pj_message_meta p, pj_artifact_heads p).
Definition versions_agree (p : TaskProjection) : Prop := tr_message_history_version (pj_task p) = mm_version (pj_message_meta p).

Lemma set_version_agree v t : tr_message_history_version t = v -> set_history_version v t = t.
Proof. intros <-. by destruct t. Qed.
Lemma set_version_twice v v' t : set_history_version v (set_history_version v' t) = set_history_version v t.
Proof. by destruct t. Qed.
Lemma cleared_set_version v t : cleared (set_history_version v t) = set_history_version v (cleared t).
Proof.
  unfold cleared. rewrite !clear_process_local_eq. by destruct t.
Qed.
Lemma cleared_version t : tr_message_history_version (cleared t) = tr_message_history_version t.
Proof. unfold cleared. rewrite clear_process_local_eq. by destruct t. Qed.
Lemma cleared_id t : tr_task_id (cleared t) = tr_task_id t.
Proof. unfold cleared. rewrite clear_process_local_eq. by destruct t. Qed.
Lemma cleared_live t : no_live_agent_state (cleared t).
Proof.
  pose proof (startup_clears_agent_state t) as H. unfold cleared. destruct (clear_process_local_agent_state t). apply H.
Qed.
Lemma cleared_cleared t : cleared (cleared t) = cleared t.
Proof.
  pose proof (startup_clears_agent_state t) as H. unfold cleared. destruct (clear_process_local_agent_state t) as [b t'].
  destruct H as (_ & _ & _ & H). cbn [snd]. by rewrite H.
Qed.
Lemma cleared_stored t : drop_stored_controls (cleared t) = cleared t.
Proof. unfold cleared. rewrite clear_process_local_eq. by destruct t. Qed.

(** What the journal keeps of a batch: no Task is created, a projection that is
    replaced is consistent and not followed by another Task record. *)
Fixpoint durable_ops (replaced : bool) (ops : list TaskOperation) : Prop :=
  match ops with
  | [] => True
  | Create _ :: _ => False
  | ReplaceTask _ :: ops => replaced = false /\ durable_ops replaced ops
  | ReplaceProjection q :: ops => versions_agree q /\ durable_ops true ops
  | _ :: ops => durable_ops replaced ops
  end.

(** The projection in memory and the one that the journal rebuilds: the same
    Chat; the Task of the checkpoint, or that of a replaced projection. *)
Definition alongside (b : TaskRecord) (replaced : bool) (p s : TaskProjection) : Prop :=
  chat_of s = chat_of p /\ versions_agree s /\
  (if replaced then pj_task s = cleared (pj_task p) else pj_task s = set_history_version (mm_version (pj_message_meta s)) b).

Lemma alongside_messages b rep p s ms : alongside b rep p s -> alongside b rep (set_messages ms p) (set_messages ms s).
Proof. intros (Hc & Hv & Ht). unfold chat_of in Hc. injection Hc as E1 E2 E3. unfold alongside, chat_of. cbn. rewrite E2, E3 at 1.
  split; [done|]. exact (conj Hv Ht). Qed.

Lemma alongside_install b rep p s meta : alongside b rep p s -> alongside b rep (install_meta meta p) (install_meta meta s).
Proof.
  intros (Hc & Hv & Ht). unfold chat_of in Hc. injection Hc as E1 E2 E3. unfold alongside, chat_of, versions_agree. cbn.
  rewrite E1, E3. split; [done|]. split; [done|]. destruct rep; rewrite Ht.
  - by rewrite cleared_set_version.
  - by rewrite set_version_twice.
Qed.

Lemma op_step_alongside task_id b rep op p s p' rest :
  durable_ops rep (op :: rest) -> alongside b rep p s -> op_step task_id op p = Ok p' ->
  exists rep', durable_ops rep' rest /\
    match durable_chat_operation op with
    | None => alongside b rep' p' s
    | Some op' => exists s', op_step task_id op' s = Ok s' /\ alongside b rep' p' s'
    end.
Proof.
  intros Hd Ha. pose proof Ha as (Hc & Hv & Ht). pose proof Hc as Hc0. unfold chat_of in Hc. injection Hc as E1 E2 E3.
  destruct op; cbn [op_step durable_chat_operation durable_ops] in *; rewrite ?E1, ?E2; intros H; try done.
  - destruct Hd as [-> Hd]. injection H as <-. exists false. split; [done|]. split; [exact Hc0|]. exact (conj Hv Ht).
  - destruct Hd as [Hq Hd]. injection H as <-. exists true. split; [done|]. eexists. split; [done|].
    unfold alongside, chat_of, versions_agree in *. cbn. by rewrite cleared_version.
  - apply result_bind_ok in H as (ms & -> & [= <-]). exists rep. split; [done|]. eexists. split; [done|].
    unfold alongside, chat_of, versions_agree in *. cbn. rewrite E2 in Hv, Ht. rewrite E3. by split.
  - apply result_bind_ok in H as ([] & -> & [= <-]). exists rep. split; [done|]. eexists. split; [done|]. by apply alongside_messages.
  - apply result_bind_ok in H as (ms & -> & [= <-]). exists rep. split; [done|]. eexists. split; [done|]. by apply alongside_messages.
  - apply result_bind_ok in H as ([] & -> & H). apply result_bind_ok in H as ([] & -> & [= <-]).
    exists rep. split; [done|]. eexists. split; [done|]. by apply alongside_install, alongside_messages.
  - apply result_bind_ok in H as ([] & -> & [= <-]). exists rep. split; [done|]. eexists. split; [done|]. by apply alongside_install.
  - injection H as <-. exists rep. split; [done|]. eexists. split; [done|].
    unfold alongside, chat_of. cbn. rewrite E1, E3, E2 at 1. split; [done|]. exact (conj Hv Ht).
Qed.

Lemma op_loop_alongside task_id b rep ops p s p' :
  durable_ops rep ops -> alongside b rep p s -> op_loop task_id ops p = Ok p' ->
  exists rep' s', op_loop task_id (durable_chat_operations ops) s = Ok s' /\ alongside b rep' p' s'.
Proof.
  revert rep p s. induction ops as [|op ops IH]; intros rep p s Hd Ha; cbn [op_loop].
  - intros [= <-]. by exists rep, s.
  - intros H. apply result_bind_ok in H as (p1 & Hp1 & H).
    destruct (op_step_alongside _ _ _ _ _ _ _ _ Hd Ha Hp1) as (rep' & Hd' & Hop).
    unfold durable_chat_operations. cbn [omap list_omap]. destruct (durable_chat_operation op) as [op'|].
    + destruct Hop as (s1 & Hs1 & Ha1). destruct (IH _ _ _ Hd' Ha1 H) as (rep2 & s2 & Hs2 & Ha2).
      exists rep2, s2. cbn [op_loop]. by rewrite Hs1.
    + by eapply IH.
Qed.

Lemma bumps_durable ops : bumps (durable_chat_operations ops) = bumps ops.
Proof.
  unfold bumps. f_equal; [|f_equal]; (induction ops as [|op ops IH]; [done|]; unfold durable_chat_operations in *;
    cbn [omap list_omap]; destruct op; cbn; rewrite ?IH; done).
Qed.

Lemma apply_alongside task_id b ops p s p' :
  durable_ops false ops -> alongside b false p s -> apply_p task_id ops p = Ok p' ->
  exists rep' s', apply_p task_id (durable_chat_operations ops) s = Ok s' /\ alongside b rep' p' s'.
Proof.
  intros Hd Ha H. unfold apply_p in H. apply result_bind_ok in H as (q & Hq & H).
  destruct (op_loop_alongside _ _ _ _ _ _ _ Hd Ha Hq) as (rep' & s1 & Hs1 & Ha1). exists rep'.
  unfold apply_p. rewrite Hs1, bumps_durable. cbn [result_bind]. destruct (bumps ops); [|injection H as <-; eauto].
  unfold bump_version in *. pose proof Ha1 as (Hc & _). unfold chat_of in Hc. injection Hc as _ -> _.
  apply result_bind_ok in H as (v & -> & [= <-]). cbn. eexists. split; [done|]. by apply alongside_install.
Qed.

(** *** The recovery copy of the metadata *)

Section Laws.
Context `{SL : !SplitLaws}.

(** A patch rebuilds the Task after the commit from any record that has its
    values in the fields the commit did not change. *)
Lemma patch_exact b a s : encodable_task (cleared a) ->
  tr_task_id s = tr_task_id a ->
  (forall k, task_to_value b !! k = task_to_value (cleared a) !! k -> task_to_value s !! k = task_to_value (cleared a) !! k) ->
  (task_to_value b = task_to_value (cleared a) -> s = cleared a) ->
  patch_apply (patch_between b a) s = Ok (cleared a).
Proof.
  intros Henc Hid Hk Heq. unfold patch_apply, patch_between. cbn [pt_fields pt_removed_fields].
  set (B := task_to_value b) in *. set (A := task_to_value (cleared a)) in *.
  destruct (bool_decide _ && bool_decide _) eqn:E.
  - apply andb_true_iff in E as [E1%bool_decide_eq_true E2%bool_decide_eq_true]. rewrite Heq; [done|].
    apply map_eq. intros k. destruct (A !! k) as [v|] eqn:Ek.
    + destruct (decide (B !! k = Some v)) as [|Hn]; [done|]. exfalso.
      assert (filter (fun e : string * JsonValue => B !! e.1 <> Some e.2) A !! k = Some v) as Hf by (by apply map_lookup_filter_Some).
      by rewrite E1, lookup_empty in Hf.
    + destruct (B !! k) as [v|] eqn:Eb; [|done]. exfalso.
      assert (k ∈ filter (fun k => A !! k = None) (dom B)) as Hf by (apply elem_of_filter; split; [done|by apply elem_of_dom]).
      rewrite E2 in Hf. by apply not_elem_of_empty in Hf.
  - match goal with |- context [task_from_value ?m] => assert (m = A) as -> end.
    { apply map_eq. intros k. rewrite lookup_union.
      set (L := filter (fun e : string * JsonValue => B !! e.1 <> Some e.2) A). set (R := filter _ (task_to_value s)).
      destruct (A !! k) as [v|] eqn:Ek.
      - destruct (decide (B !! k = Some v)) as [Hb|Hb].
        + assert (L !! k = None) as -> by (apply map_lookup_filter_None; right; intros x Hx; cbn; congruence).
          assert (R !! k = Some v) as ->; [|done]. apply map_lookup_filter_Some. split; [rewrite Hk; congruence|]. cbn.
          rewrite elem_of_filter. intros [? _]. congruence.
        + assert (L !! k = Some v) as -> by (by apply map_lookup_filter_Some). by destruct (R !! k).
      - assert (L !! k = None) as -> by (apply map_lookup_filter_None; by left).
        assert (R !! k = None) as ->; [|done]. apply map_lookup_filter_None.
        destruct (B !! k) as [v|] eqn:Eb; [right|left; rewrite Hk; congruence].
        intros x _. cbn. rewrite elem_of_filter. intros Hn. apply Hn. split; [done|by apply elem_of_dom]. }
    unfold A. rewrite (task_reads_back (cleared a)) by (apply cleared_live || done). cbn.
    rewrite bool_decide_eq_false_2; [done|]. rewrite cleared_id. congruence.
Qed.

Lemma set_version_values v t k :
  task_to_value (set_history_version v t) !! k
  = if bool_decide (k = "message_history_version"%string) then Some (JNumber v) else task_to_value t !! k.
Proof. rewrite history_version_key. case_bool_decide as E; [subst; apply lookup_insert_eq|by rewrite lookup_insert_ne]. Qed.

Lemma task_values_inj t t' : no_live_agent_state t -> no_live_agent_state t' -> encodable_task t -> encodable_task t' ->
  task_to_value t = task_to_value t' -> t = t'.
Proof. intros H H' He He' E. pose proof (task_reads_back t H He) as R. rewrite E, task_reads_back in R by done. congruence. Qed.

(** The record the journal rebuilds, with the patch, is that of the commit. *)
Lemma patch_alongside b rep p s : alongside b rep p s -> versions_agree p -> no_live_agent_state b ->
  encodable_task b -> encodable_task (cleared (pj_task p)) -> tr_task_id b = tr_task_id (pj_task p) ->
  patch_apply (patch_between b (pj_task p)) (pj_task s) = Ok (cleared (pj_task p)).
Proof.
  intros (Hc & Hv & Ht) Hp Hb Heb Hep Hid. destruct rep.
  - rewrite Ht. apply patch_exact; [done|apply cleared_id|done|done].
  - assert (mm_version (pj_message_meta s) = tr_message_history_version (cleared (pj_task p))) as Ev.
    { rewrite cleared_version, Hp. by injection Hc as _ -> _. }
    assert (set_history_version (mm_version (pj_message_meta s)) (cleared (pj_task p)) = cleared (pj_task p)) as Ea
      by (by apply set_version_agree).
    rewrite Ht. apply patch_exact; [done|..].
    + by destruct b.
    + intros k Hk. rewrite <- Ea. rewrite !set_version_values. by case_bool_decide.
    + intros E. apply task_values_inj in E as ->; [done|done|apply cleared_live|done|done].
Qed.

(** *** The Chat does not depend on the Task *)

Definition chat_op (op : TaskOperation) : Prop := match op with Create _ | ReplaceTask _ => False | _ => True end.

Lemma op_step_chat task_id op s1 s2 s1' : chat_op op -> chat_of s1 = chat_of s2 -> op_step task_id op s1 = Ok s1' ->
  exists s2', op_step task_id op s2 = Ok s2' /\ chat_of s1' = chat_of s2'.
Proof.
  intros Ho Hc. pose proof Hc as Hc0. unfold chat_of in Hc. injection Hc as E1 E2 E3. unfold chat_of.
  destruct op; cbn [op_step chat_op] in *; rewrite ?E1, ?E2; intros H; try done;
    repeat (apply result_bind_ok in H as (? & -> & H)); injection H as <-; eexists; (split; [done|]);
    cbn; by rewrite ?E1, ?E2, ?E3.
Qed.

Lemma apply_chat task_id ops s1 s2 s1' : Forall chat_op ops -> chat_of s1 = chat_of s2 -> apply_p task_id ops s1 = Ok s1' ->
  exists s2', apply_p task_id ops s2 = Ok s2' /\ chat_of s1' = chat_of s2'.
Proof.
  intros Ho Hc H. unfold apply_p in H. apply result_bind_ok in H as (q1 & Hq & H).
  assert (exists q2, op_loop task_id ops s2 = Ok q2 /\ chat_of q1 = chat_of q2) as (q2 & Hq2 & Hcq).
  { clear H. revert s1 s2 Hc Hq. induction Ho as [|op ops Hop Ho IH]; intros s1 s2 Hc Hq; cbn in *.
    - injection Hq as <-. by exists s2.
    - apply result_bind_ok in Hq as (r1 & Hr1 & Hq). destruct (op_step_chat _ _ _ _ _ Hop Hc Hr1) as (r2 & -> & Hcr).
      cbn. by eapply IH. }
  unfold apply_p. rewrite Hq2. cbn. destruct (bumps ops); [|injection H as <-; eauto].
  unfold bump_version in *. unfold chat_of in Hcq. injection Hcq as E1 E2 E3. rewrite E2 in H.
  apply result_bind_ok in H as (v & -> & [= <-]). cbn. eexists. split; [done|]. unfold chat_of. cbn. by rewrite E1, ?E2, E3.
Qed.

Lemma durable_chat_ops ops : Forall chat_op (durable_chat_operations ops).
Proof. apply Forall_forall. intros op Hop. apply list_elem_of_omap in Hop as (op0 & _ & H). by destruct op0; cbn in H; simplify_eq. Qed.
Lemma chat_op_not_create ops : Forall chat_op ops -> Forall not_create ops.
Proof. intros H. eapply Forall_impl; [exact H|]. by intros []. Qed.

(** *** Frames *)

Fixpoint run_frames (task_id : string) (frames : list ChatFrame) (p : TaskProjection) : result TaskProjection RuntimeError :=
  match frames with [] => Ok p | f :: frames => let? p := apply_p task_id (fr_operations f) p in run_frames task_id frames p end.

Definition with_chat (t : TaskRecord) (s : ChatSnapshotFile) : TaskProjection :=
  mkProjection t (ss_messages s) (ss_message_meta s) (ss_artifact_heads s).

(** The frames lead from the snapshot to the Chat of [p]. *)
Definition leads (task_id : string) (s : ChatSnapshotFile) (frames : list ChatFrame) (p : TaskProjection) : Prop :=
  Forall (fun f => Forall chat_op (fr_operations f)) frames /\
  forall t, exists q, run_frames task_id frames (with_chat t s) = Ok q /\ chat_of q = chat_of p.

Lemma run_frames_app task_id fs gs p :
  run_frames task_id (fs ++ gs) p = (let? p := run_frames task_id fs p in run_frames task_id gs p).
Proof. revert p. induction fs as [|f fs IH]; intros p; cbn; [done|]. destruct (apply_p _ _ p); cbn; [apply IH|done]. Qed.

Lemma leads_snoc task_id s fs p p' f :
  leads task_id s fs p -> Forall chat_op (fr_operations f) ->
  (exists q q', chat_of q = chat_of p /\ apply_p task_id (fr_operations f) q = Ok q' /\ chat_of q' = chat_of p') ->
  leads task_id s (fs ++ [f]) p'.
Proof.
  intros [Hc Hl] Hf (q & q' & Hq & Ha & Hq'). split; [apply Forall_app; split; [done|by constructor]|].
  intros t. destruct (Hl t) as (r & Hr & Hcr).
  destruct (apply_chat task_id (fr_operations f) q r q' Hf) as (r' & Hr' & Hcr'); [congruence|done|].
  exists r'. rewrite run_frames_app, Hr. cbn. rewrite Hr'. cbn. split; [done|congruence].
Qed.

(** Replay up to the checkpoint gives the metadata's Task. *)
Lemma replay_to_checkpoint f fs k p s q :
  let task_id := tr_task_id (df_task f) in
  fs <> [] -> numbered fr_sequence k fs = true -> k + Z.of_nat (length fs) = df_chat_sequence f + 1 ->
  Forall (fun f => Forall chat_op (fr_operations f)) fs -> run_frames task_id fs p = Ok q ->
  replay_chat f fs {[task_id := Available p s]} = Ok {[task_id := Available (set_task (df_task f) q) (df_chat_sequence f)]}.
Proof.
  cbn. intros Hne Hn Hlen Hc Hr. revert k p s Hne Hn Hlen Hr. induction Hc as [|fr fs Hf Hc IH]; intros k p s Hne Hn Hlen Hr; [done|].
  cbn [numbered] in Hn. apply andb_true_iff in Hn as [Hk%bool_decide_eq_true Hn]. cbn [run_frames] in Hr.
  apply result_bind_ok in Hr as (p1 & Hp1 & Hr). cbn [replay_chat].
  rewrite (apply_operations_single _ _ _ _ _ _ (chat_op_not_create _ Hf) Hp1). rewrite lookup_singleton_eq.
  cbn [length] in Hlen. destruct fs as [|fr' fs].
  - rewrite bool_decide_eq_true_2 by (cbn in Hlen; lia). cbn in *. injection Hr as <-. rewrite insert_singleton_eq. do 3 f_equal. lia.
  - rewrite bool_decide_eq_false_2 by (cbn in Hlen; lia). rewrite bool_decide_eq_false_2 by (cbn in Hlen; lia).
    eapply (IH (k + 1)); [done|done|lia|done].
Qed.

Lemma replay_chat_app f fs gs state : replay_chat f (fs ++ gs) state = (let? state := replay_chat f fs state in replay_chat f gs state).
Proof.
  revert state. induction fs as [|fr fs IH]; intros state; cbn [app replay_chat]; [done|].
  destruct (apply_operations _ _ _ _) as [[] state']; [|done]. destruct (state' !! _) as [[]|]; try done.
  repeat (case_bool_decide; [|]); try apply IH; try done. destruct (patch_apply _ _); cbn; [apply IH|done].
Qed.

(** ** What the files hold *)

Definition encodable (p : TaskProjection) : Prop := encodable_task (cleared (pj_task p)) /\ encodable_snapshot (snapshot_of p).

Definition settled_length (fs : list ChatFrame) : Z := match fs with [] => 0 | _ => framed_bytes frame_bytes fs end.

(** Metadata, snapshot and committed frames agree on [p] at [seq]. *)
Record settled (d : TaskDirectory) (f : DurableTaskFile) (s : ChatSnapshotFile) (migrated : bool) (fs : list ChatFrame)
    (p : TaskProjection) (seq : Z) : Prop := {
  se_file : td_task d = Some f;
  se_schema : df_schema_version f = TASK_SCHEMA_VERSION;
  se_sequence : df_storage_sequence f = seq;
  se_frames : df_chat_sequence f = Z.of_nat (length fs);
  se_task : df_task f = cleared (pj_task p);
  se_bytes : df_chat_journal_bytes f = None \/ df_chat_journal_bytes f = Some (settled_length fs);
  se_snapshot : load_chat_snapshot (df_chat_snapshot f) d = Ok (s, migrated);
  se_numbered : numbered fr_sequence 1 fs = true;
  se_leads : leads (tr_task_id (pj_task p)) s fs p;
  se_versions : versions_agree p;
  se_count : Z.of_nat (length fs) < seq;
  se_encodable : encodable p;
  se_old_encodable : encodable_snapshot s;
}.

(** The journal of the committed frames, whole, or with what a crash left. *)
Definition whole_journal (fs : list ChatFrame) : option (JournalFile ChatFrame) := match fs with [] => None | _ => Some (JFrames fs 0) end.
Definition torn_journal (fs : list ChatFrame) (j : option (JournalFile ChatFrame)) : Prop :=
  match j with
  | None => fs = []
  | Some (JHeader n) => fs = [] /\ 0 <= n < FILE_HEADER_LEN
  | Some (JFrames fs' tail) => fs' = fs /\ 0 <= tail
  end.

Definition holds (d : TaskDirectory) (p : TaskProjection) (seq : Z) : Prop :=
  exists f s fs, settled d f s false fs p seq /\ df_chat_journal_bytes f = Some (settled_length fs) /\
    td_journals d !! df_chat_journal f = whole_journal fs.

Definition torn (d : TaskDirectory) (p : TaskProjection) (seq : Z) : Prop :=
  exists f s m fs, settled d f s m fs p seq /\ torn_journal fs (td_journals d !! df_chat_journal f).

(** A frame was appended that the metadata does not know of. *)
Definition ahead (d : TaskDirectory) (p : TaskProjection) (seq : Z) : Prop :=
  exists f s m fs p0 ops fr, settled d f s m fs p0 (seq - 1) /\ seq <= u64_max /\
    td_journals d !! df_chat_journal f = Some (JFrames (fs ++ [fr]) 0) /\
    fr_sequence fr = Z.of_nat (length fs) + 1 /\ fr_operations fr = durable_chat_operations ops /\
    fr_task_patch fr = patch_between (df_task f) (pj_task p) /\
    durable_ops false ops /\ apply_p (tr_task_id (pj_task p)) ops p0 = Ok p /\ versions_agree p /\ encodable p /\
    tr_task_id (pj_task p0) = tr_task_id (pj_task p).

Definition recoverable (d : TaskDirectory) (p : TaskProjection) (seq : Z) : Prop := torn d p seq \/ ahead d p seq.

(** What a load gives: the Task without the live state of an Agent. *)
Definition durable (p : TaskProjection) : TaskProjection := set_task (cleared (pj_task p)) p.

Lemma holds_torn d p seq : holds d p seq -> torn d p seq.
Proof.
  intros (f & s & fs & H & _ & Hj). exists f, s, false, fs. split; [done|]. rewrite Hj. destruct fs; cbn; [done|]. split; [done|lia].
Qed.

Lemma loaded_file d f s m fs p seq : settled d f s m fs p seq -> load_task d = Ok (Some f).
Proof.
  intros H. unfold load_task. rewrite (se_file _ _ _ _ _ _ _ H). unfold validate_schema.
  rewrite bool_decide_eq_true_2 by apply H. cbn. rewrite (se_task _ _ _ _ _ _ _ H), cleared_stored, <- (se_task _ _ _ _ _ _ _ H).
  by destruct f.
Qed.

(** Another directory with the same metadata and snapshot. *)
Lemma settled_ext d d' f s m fs p seq : settled d f s m fs p seq -> td_task d' = td_task d ->
  td_snapshots d' !! df_chat_snapshot f = td_snapshots d !! df_chat_snapshot f -> settled d' f s m fs p seq.
Proof.
  intros [] Ht Hs. constructor; try done; [congruence|]. unfold load_chat_snapshot in *. by rewrite Hs.
Qed.

Lemma snapshot_current s d name : encodable_snapshot s ->
  ss_schema_version s = CHAT_SCHEMA_VERSION -> load_chat_snapshot name (set_snapshots (<[name := snapshot_to_value s]> (td_snapshots d)) d) = Ok (s, false).
Proof.
  intros He Hv. unfold load_chat_snapshot. cbn [td_snapshots set_snapshots]. rewrite lookup_insert_eq. cbn [ok_or result_bind].
  rewrite snapshot_version_key, Hv. change (result_bind _ _) with (result_bind (snapshot_from_value (snapshot_to_value s))
    (fun s => check? validate_schema "Chat snapshot" (ss_schema_version s) CHAT_SCHEMA_VERSION in Ok (s, false))).
  rewrite snapshot_reads_back by done. cbn. by rewrite Hv.
Qed.

Lemma snapshot_version d name s m : load_chat_snapshot name d = Ok (s, m) -> ss_schema_version s = CHAT_SCHEMA_VERSION.
Proof.
  unfold load_chat_snapshot. intros H. repeat (apply result_bind_ok in H as (? & ? & H)). injection H as -> _.
  unfold validate_schema in *. by case_bool_decide.
Qed.

(** ** Loading repairs the files *)

Lemma durable_id p : tr_task_id (pj_task (durable p)) = tr_task_id (pj_task p).
Proof. apply cleared_id. Qed.
Lemma durable_agrees p : versions_agree p -> versions_agree (durable p).
Proof. unfold versions_agree. cbn. by rewrite cleared_version. Qed.

Lemma settled_id d f s m fs p seq : settled d f s m fs p seq -> tr_task_id (df_task f) = tr_task_id (pj_task p).
Proof. intros H. by rewrite (se_task _ _ _ _ _ _ _ H), cleared_id. Qed.

(** The committed frames rebuild the durable projection. *)
Lemma replay_settled d f s m fs p seq : settled d f s m fs p seq ->
  replay_chat f fs {[tr_task_id (df_task f) := Available (with_chat (df_task f) s) 0]}
  = Ok {[tr_task_id (df_task f) := Available (durable p) (df_chat_sequence f)]}.
Proof.
  intros H. destruct (se_leads _ _ _ _ _ _ _ H) as [Hc Hl]. destruct (Hl (df_task f)) as (q & Hq & Ecq).
  rewrite <- (settled_id _ _ _ _ _ _ _ H) in Hq.
  assert (set_task (df_task f) q = durable p) as Ed.
  { unfold chat_of in Ecq. injection Ecq as E1 E2 E3. unfold set_task, durable. rewrite E1, E2, E3, (se_task _ _ _ _ _ _ _ H). done. }
  pose proof (se_frames _ _ _ _ _ _ _ H) as Hf. destruct fs as [|fr fs].
  - cbn in *. injection Hq as <-. rewrite <- Ed, Hf. done.
  - rewrite <- Ed. apply (replay_to_checkpoint f (fr :: fs) 1); [done|apply H|rewrite Hf; lia|done|done].
Qed.

(** An error is what a fault of a write left. *)
Definition load_good (faults : LoadFaults) (p : TaskProjection) (seq : Z) (out : result (option (TaskProjection * Z)) RuntimeError * TaskDirectory) : Prop :=
  match out with
  | (Ok r, d) => r = Some (durable p, seq) /\ holds d p seq
  | (Err _, d) => recoverable d p seq /\ faults <> no_load_faults
  end.

Lemma load_cut faults p seq e d : recoverable d p seq -> faults <> no_load_faults -> load_good faults p seq (Err e, d).
Proof. done. Qed.

(** Metadata that is written for the frames of the journal. *)
Lemma settled_publish d f s m fs p seq fs' p' seq' t :
  settled d f s m fs p seq -> td_journals d !! df_chat_journal f = whole_journal fs' ->
  cleared t = cleared (pj_task p') -> numbered fr_sequence 1 fs' = true -> leads (tr_task_id (pj_task p')) s fs' p' -> versions_agree p' ->
  Z.of_nat (length fs') < seq' -> encodable p' ->
  let f' := mkTaskFile TASK_SCHEMA_VERSION seq' (Z.of_nat (length fs')) (df_chat_snapshot f) (df_chat_journal f)
              (Some (file_length_or_zero (df_chat_journal f) d)) (cleared t) in
  settled (set_task_file f' d) f' s m fs' p' seq' /\ df_chat_journal_bytes f' = Some (settled_length fs').
Proof.
  intros H Hj Ht Hn Hl Hv Hc He f'. assert (df_chat_journal_bytes f' = Some (settled_length fs')) as Hb.
  { cbn. unfold file_length_or_zero. rewrite Hj. destruct fs'; cbn; [done|]. do 2 f_equal. lia. }
  split; [|done]. constructor; try done; [by right|exact (se_snapshot _ _ _ _ _ _ _ H)|apply H].
Qed.

Lemma settled_migrate fault d f s m fs p seq r d' : settled d f s m fs p seq ->
  migrate_snapshot fault m (df_chat_snapshot f) s d = (r, d') ->
  td_journals d' = td_journals d /\ (exists m', settled d' f s m' fs p seq) /\ (r = Ok tt -> settled d' f s false fs p seq) /\
  (fault = WriteOk -> r = Ok tt).
Proof.
  intros H. unfold migrate_snapshot. destruct m; [|intros [= <- <-]; eauto].
  assert (settled (set_snapshots (<[df_chat_snapshot f := snapshot_to_value s]> (td_snapshots d)) d) f s false fs p seq) as H'.
  { pose proof (snapshot_current s d (df_chat_snapshot f) (se_old_encodable _ _ _ _ _ _ _ H) (snapshot_version _ _ _ _ (se_snapshot _ _ _ _ _ _ _ H))) as Hs.
    destruct H. by constructor. }
  unfold replace_snapshot, durable_replace. destruct fault; intros [= <- <-]; (split; [done|]); (split; [by eauto|]); done.
Qed.

Lemma finish_load_good faults d f s m fs p seq : settled d f s m fs p seq ->
  td_journals d !! df_chat_journal f = whole_journal fs -> load_good faults p seq (finish_load faults f (s, m) (durable p) d).
Proof.
  intros H Hj. unfold finish_load. cbn [fst snd].
  destruct (migrate_snapshot _ _ _ _ _) as [r d1] eqn:Em.
  destruct (settled_migrate _ _ _ _ _ _ _ _ _ _ H Em) as (Ej & (m' & H1) & Hok & Hfault). rewrite <- Ej in Hj.
  assert (torn_journal fs (td_journals d1 !! df_chat_journal f)) as Htorn.
  { rewrite Hj. destruct fs; cbn; [done|]. split; [done|lia]. }
  destruct r as [[]|e]; [|apply load_cut; [left; by exists f, s, m', fs|by intros ->; specialize (Hfault eq_refl)]].
  specialize (Hok eq_refl).
  rewrite (se_sequence _ _ _ _ _ _ _ H). destruct (df_chat_journal_bytes f) as [b|] eqn:Eb; cbn [is_some].
  - split; [done|]. exists f, s, fs. split; [done|]. split; [|done]. destruct (se_bytes _ _ _ _ _ _ _ H); congruence.
  - rewrite (se_frames _ _ _ _ _ _ _ H).
    destruct (settled_publish d1 f s false fs p seq fs p seq (cleared (pj_task p)) Hok Hj) as [H2 Hb];
      [apply cleared_cleared|apply H..|]. unfold publish_task.
    cbn [durable pj_task set_task]. set (f' := mkTaskFile _ _ _ _ _ _ _) in *.
    assert (holds (set_task_file f' d1) p seq) as Hholds by (by exists f', s, fs).
    assert (torn d1 p seq) as Hold by (by exists f, s, false, fs).
    unfold durable_replace. destruct (lf_publish faults) eqn:Ef; [by split|..]; (apply load_cut; [|by intros ->]);
      [left; exact Hold|left; exact Hold|left; by apply holds_torn].
Qed.

(** The history version that [load_journal] writes is the one that is there. *)
Lemma durable_version p : versions_agree p ->
  set_task (set_history_version (mm_version (pj_message_meta (durable p))) (pj_task (durable p))) (durable p) = durable p.
Proof. intros Hv. unfold durable. cbn. rewrite set_version_agree; [done|]. by rewrite cleared_version, Hv. Qed.

Lemma settled_journals d f s m fs p seq g : settled d f s m fs p seq -> settled (set_journals g d) f s m fs p seq.
Proof. intros H. by eapply settled_ext. Qed.

Lemma load_torn_journal faults d f s m fs p seq tail : settled d f s m fs p seq -> 0 <= tail ->
  load_good faults p seq (load_journal faults f (s, m) (with_chat (df_task f) s) (JFrames fs tail) d).
Proof.
  intros H Ht. unfold load_journal, replay. rewrite (se_numbered _ _ _ _ _ _ _ H). cbn [negb].
  assert (forall tail', 0 <= tail' -> torn (set_journals (<[df_chat_journal f := JFrames fs tail']> (td_journals d)) d) p seq) as Htorn.
  { intros tail' Ht'. exists f, s, m, fs. split; [by apply settled_journals|]. cbn. rewrite lookup_insert_eq. done. }
  destruct (bool_decide_reflect (tail = 0)) as [->|_]; [|destruct (lf_trim faults) eqn:Ef];
    try (apply load_cut; [left; by apply Htorn|by intros ->]).
  all: set (d1 := set_journals _ d); rewrite bool_decide_eq_false_2 by (rewrite (se_frames _ _ _ _ _ _ _ H); lia);
    rewrite (replay_settled _ _ _ _ _ _ _ H); cbn [result_bind]; rewrite lookup_singleton_eq, durable_version by apply H.
  all: assert (settled d1 f s m fs p seq) as H1 by (by apply settled_journals).
  all: assert (td_journals d1 !! df_chat_journal f = Some (JFrames fs 0)) as Hj1 by apply lookup_insert_eq.
  all: rewrite (se_frames _ _ _ _ _ _ _ H).
  all: destruct fs as [|fr fs]; cbn [length].
  1, 3: rewrite (bool_decide_eq_true_2 (Z.of_nat 0 = 0)) by done; unfold remove_journal, durable_replace;
    set (d2 := set_journals (delete _ _) d1).
  1, 2: assert (settled d2 f s m [] p seq) as H2 by (by apply settled_journals).
  1, 2: assert (td_journals d2 !! df_chat_journal f = None) as Hj2 by apply lookup_delete_eq.
  1, 2: assert (torn d2 p seq) as Ht2 by (exists f, s, m, []; split; [done|]; by rewrite Hj2).
  1, 2: destruct (lf_remove faults) eqn:Er; try (apply load_cut; [left; by apply Htorn || exact Ht2|by intros ->]);
    rewrite bool_decide_eq_false_2 by lia; unfold file_length_or_zero; rewrite Hj2;
    destruct (se_bytes _ _ _ _ _ _ _ H) as [->| ->]; cbn [orb settled_length]; rewrite ?bool_decide_eq_true_2 by done;
    cbn [negb]; by apply (finish_load_good faults d2 f s m []).
  all: rewrite (bool_decide_eq_false_2 (Z.of_nat (S _) = 0)) by lia; rewrite bool_decide_eq_false_2 by lia;
    unfold file_length_or_zero; rewrite Hj1; cbn [framed_length];
    destruct (se_bytes _ _ _ _ _ _ _ H) as [->| ->]; cbn [orb settled_length]; rewrite ?bool_decide_eq_true_2 by lia;
    cbn [negb]; by apply (finish_load_good faults d1 f s m (fr :: fs)).
Qed.

(** A frame that is ahead takes the projection before it to the one after. *)
Lemma replay_ahead f fr ops p0 p seq :
  df_task f = cleared (pj_task p0) -> versions_agree p0 -> versions_agree p -> encodable p0 -> encodable p ->
  tr_task_id (pj_task p0) = tr_task_id (pj_task p) -> fr_operations fr = durable_chat_operations ops -> fr_task_patch fr = patch_between (df_task f) (pj_task p) ->
  df_chat_sequence f < fr_sequence fr -> durable_ops false ops -> apply_p (tr_task_id (pj_task p)) ops p0 = Ok p ->
  replay_chat f [fr] {[tr_task_id (df_task f) := Available (durable p0) seq]}
    = Ok {[tr_task_id (df_task f) := Available (durable p) (fr_sequence fr)]} /\
  exists q q', chat_of q = chat_of p0 /\ apply_p (tr_task_id (pj_task p)) (fr_operations fr) q = Ok q' /\ chat_of q' = chat_of p.
Proof.
  intros Ht Hv0 Hv He0 He Hid Eo Ep Hseq Hd Ha.
  assert (tr_task_id (df_task f) = tr_task_id (pj_task p)) as Ef by (by rewrite Ht, cleared_id).
  assert (alongside (df_task f) false p0 (durable p0)) as Hal.
  { split; [done|]. split; [by apply durable_agrees|]. cbn. rewrite Ht, set_version_agree; [done|]. by rewrite cleared_version. }
  destruct (apply_alongside _ _ _ _ _ _ Hd Hal Ha) as (rep & s' & Hs' & Ha').
  pose proof Ha' as (Ec & _). split; [|exists (durable p0), s'; by rewrite Eo].
  cbn [replay_chat]. rewrite Ef. rewrite Eo.
  rewrite (apply_operations_single _ _ _ _ _ _ (chat_op_not_create _ (durable_chat_ops ops)) Hs').
  rewrite lookup_singleton_eq, bool_decide_eq_false_2, bool_decide_eq_true_2 by lia. rewrite Ep.
  rewrite (patch_alongside _ _ _ _ Ha' Hv); [|rewrite Ht; apply cleared_live|rewrite Ht; apply He0|apply He|by rewrite Ef].
  cbn [result_bind]. rewrite insert_singleton_eq. do 4 f_equal. unfold set_task, durable.
  unfold chat_of in Ec. injection Ec as E1 E2 E3. by rewrite E1, E2, E3.
Qed.

Lemma load_ahead_journal faults d f s m fs fr ops p0 p seq :
  settled d f s m fs p0 (seq - 1) -> seq <= u64_max -> td_journals d !! df_chat_journal f = Some (JFrames (fs ++ [fr]) 0) ->
  fr_sequence fr = Z.of_nat (length fs) + 1 -> fr_operations fr = durable_chat_operations ops ->
  fr_task_patch fr = patch_between (df_task f) (pj_task p) -> durable_ops false ops ->
  apply_p (tr_task_id (pj_task p)) ops p0 = Ok p -> versions_agree p -> encodable p ->
  tr_task_id (pj_task p0) = tr_task_id (pj_task p) ->
  load_good faults p seq (load_journal faults f (s, m) (with_chat (df_task f) s) (JFrames (fs ++ [fr]) 0) d).
Proof.
  intros H Hmax Hj Hs Eo Ep Hd Ha Hv He Hid. pose proof (se_frames _ _ _ _ _ _ _ H) as Hn.
  assert (numbered fr_sequence 1 (fs ++ [fr]) = true) as Hnum.
  { rewrite numbered_app, (se_numbered _ _ _ _ _ _ _ H). cbn. rewrite bool_decide_eq_true_2; [done|lia]. }
  destruct (replay_ahead f fr ops p0 p (df_chat_sequence f)) as [Hrep Hq];
    [apply H|apply H|done|apply H|done|done|done|done|lia|done|done|].
  assert (leads (tr_task_id (pj_task p)) s (fs ++ [fr]) p) as Hleads.
  { eapply leads_snoc; [rewrite <- Hid; apply H|rewrite Eo; apply durable_chat_ops|done]. }
  unfold load_journal, replay. rewrite Hnum. cbn [negb]. rewrite bool_decide_eq_true_2 by done.
  rewrite insert_id by done. assert (set_journals (td_journals d) d = d) as -> by (by destruct d).
  rewrite length_app. cbn [length]. rewrite bool_decide_eq_false_2 by lia.
  rewrite replay_chat_app, (replay_settled _ _ _ _ _ _ _ H). cbn [result_bind]. rewrite Hrep. cbn [result_bind].
  rewrite lookup_singleton_eq, durable_version by done. rewrite (bool_decide_eq_false_2 (_ = 0)) by lia.
  rewrite (bool_decide_eq_true_2 (_ < _)) by lia. cbn [orb].
  replace (u64_saturating_add _ _) with seq
    by (rewrite (se_sequence _ _ _ _ _ _ _ H), Hn; unfold u64_saturating_add; lia).
  destruct (settled_publish d f s m fs p0 (seq - 1) (fs ++ [fr]) p seq (cleared (pj_task p)) H) as [H2 Hb];
    [rewrite Hj; by destruct fs|apply cleared_cleared|done|done|done|
      pose proof (se_count _ _ _ _ _ _ _ H); rewrite length_app; cbn; lia|done|].
  unfold publish_task. cbn [durable pj_task set_task]. rewrite length_app in H2, Hb. cbn [length] in H2, Hb.
  set (f' := mkTaskFile _ _ _ _ _ _ _) in *. set (d2 := set_task_file f' d) in *.
  assert (ahead d p seq) as Hahead by (by exists f, s, m, fs, p0, ops, fr).
  assert (forall d' m', settled d' f' s m' (fs ++ [fr]) p seq -> td_journals d' = td_journals d -> torn d' p seq) as Htorn.
  { intros d' m' Hd' Ej. exists f', s, m', (fs ++ [fr]). split; [done|]. rewrite Ej. cbn. rewrite Hj. done. }
  unfold durable_replace. destruct (lf_publish faults) eqn:Ef; [|apply load_cut; [|by intros ->]..];
    [|right; exact Hahead|right; exact Hahead|left; by eapply Htorn].
  change (df_chat_snapshot f) with (df_chat_snapshot f'). destruct (migrate_snapshot _ _ _ _ _) as [r d3] eqn:Em.
  destruct (settled_migrate _ _ _ _ _ _ _ _ _ _ H2 Em) as (Ej & (m' & H3) & Hok & Hfault).
  destruct r as [[]|e]; [|apply load_cut; [left; by eapply Htorn|by intros ->; specialize (Hfault eq_refl)]]. split; [done|]. exists f', s, (fs ++ [fr]). split; [by apply Hok|]. split; [done|].
  rewrite Ej. cbn. rewrite Hj. by destruct fs.
Qed.

Lemma settled_snapshot d f s m p seq : settled d f s m [] p seq -> with_chat (df_task f) s = durable p.
Proof.
  intros H. destruct (se_leads _ _ _ _ _ _ _ H) as [_ Hl]. destruct (Hl (df_task f)) as (q & [= <-] & Eq).
  unfold chat_of in Eq. cbn in Eq. injection Eq as E1 E2 E3. unfold with_chat, durable, set_task.
  by rewrite E1, E2, E3, (se_task _ _ _ _ _ _ _ H).
Qed.

Lemma journal_has_header fs tail : 0 <= tail -> ~ framed_bytes frame_bytes fs + tail < FILE_HEADER_LEN.
Proof.
  intros Ht. unfold framed_bytes. assert (0 <= list_sum frame_bytes fs); [|lia].
  apply list_sum_nonneg. intros x _. pose proof (frame_bytes_pos x). lia.
Qed.

Lemma load_is_good faults d p seq : recoverable d p seq -> load_good faults p seq (load_projection faults d).
Proof.
  intros [(f & s & m & fs & H & Hj)|(f & s & m & fs & p0 & ops & fr & H & Hmax & Hj & Hs & Eo & Ep & Hd & Ha & Hv & He & Hid)];
    unfold load_projection; rewrite (loaded_file _ _ _ _ _ _ _ H), (se_snapshot _ _ _ _ _ _ _ H); cbn [fst snd];
    fold (with_chat (df_task f) s); unfold drop_partial_header.
  - destruct (td_journals d !! df_chat_journal f) as [j|] eqn:Ej.
    + destruct j as [n|fs' tail]; cbn [torn_journal] in Hj.
      * destruct Hj as [-> Hn]. rewrite (se_frames _ _ _ _ _ _ _ H). cbn [length framed_length].
        rewrite (bool_decide_eq_true_2 (_ = 0)), (bool_decide_eq_true_2 (n < _)) by lia. cbn [andb].
        unfold remove_journal, durable_replace. set (d2 := set_journals (delete _ _) d).
        assert (settled d2 f s m [] p seq) as H2 by (by apply settled_journals).
        assert (td_journals d2 !! df_chat_journal f = None) as Hj2 by apply lookup_delete_eq.
        assert (torn d p seq) as Ht by (exists f, s, m, []; split; [done|]; by rewrite Ej).
        assert (torn d2 p seq) as Ht2 by (exists f, s, m, []; split; [done|]; by rewrite Hj2).
        destruct (lf_header faults) eqn:Ef; try (apply load_cut; [left; exact Ht || exact Ht2|by intros ->]). rewrite Hj2.
        rewrite bool_decide_eq_false_2 by lia. rewrite (settled_snapshot _ _ _ _ _ _ H).
        by apply (finish_load_good faults d2 f s m []).
      * destruct Hj as [-> Ht]. cbn [framed_length].
        rewrite (bool_decide_eq_false_2 (_ < FILE_HEADER_LEN)) by (by apply journal_has_header).
        rewrite andb_false_r, Ej. by apply load_torn_journal.
    + cbn [torn_journal] in Hj. subst fs. rewrite Ej. rewrite (se_frames _ _ _ _ _ _ _ H). cbn [length].
      rewrite bool_decide_eq_false_2 by lia. rewrite (settled_snapshot _ _ _ _ _ _ H).
      by apply (finish_load_good faults d f s m []).
  - rewrite Hj. cbn [framed_length]. rewrite (bool_decide_eq_false_2 (_ < FILE_HEADER_LEN)) by (by apply journal_has_header).
    rewrite andb_false_r, Hj. by eapply load_ahead_journal.
Qed.

(** ** A commit is atomic *)

(** A commit of operations that take [p] to [p']. *)
Record commits (p p' : TaskProjection) (ops : list TaskOperation) : Prop := {
  cm_applied : apply_p (tr_task_id (pj_task p)) ops p = Ok p';
  cm_durable : durable_ops false ops;
  cm_agrees : versions_agree p';
  cm_task : tr_task_id (pj_task p') = tr_task_id (pj_task p);
  cm_encodable : encodable p';
}.

Definition commit_good (p p' : TaskProjection) (seq : Z) (out : result unit RuntimeError * TaskDirectory) : Prop :=
  match out with
  | (Ok _, d) => holds d p' (seq + 1)
  | (Err _, d) => recoverable d p seq \/ recoverable d p' (seq + 1)
  end.

(** What the journal rebuilds after the operations is the Chat after them. *)
Lemma commit_leads d f s m fs p seq p' ops : settled d f s m fs p seq -> commits p p' ops ->
  exists q', apply_p (tr_task_id (pj_task p')) (durable_chat_operations ops) (durable p) = Ok q' /\ chat_of q' = chat_of p'.
Proof.
  intros H [Ha Hd Hv Hid _].
  assert (alongside (df_task f) false p (durable p)) as Hal.
  { split; [done|]. split; [by apply durable_agrees, H|]. cbn. rewrite (se_task _ _ _ _ _ _ _ H), set_version_agree; [done|].
    rewrite cleared_version. apply H. }
  destruct (apply_alongside _ _ _ _ _ _ Hd Hal Ha) as (rep & q' & Hq & Hc & _). exists q'. by rewrite Hid.
Qed.

Lemma publish_good fault d f s m fs p seq fs' p' seq' :
  settled d f s m fs p seq -> td_journals d !! df_chat_journal f = whole_journal fs' -> m = false ->
  numbered fr_sequence 1 fs' = true -> leads (tr_task_id (pj_task p')) s fs' p' -> versions_agree p' -> Z.of_nat (length fs') < seq' ->
  encodable p' ->
  match publish_task fault (pj_task p') seq' (Z.of_nat (length fs')) (df_chat_snapshot f) (df_chat_journal f) d with
  | (Ok _, d') => holds d' p' seq'
  | (Err _, d') => d' = d \/ holds d' p' seq'
  end.
Proof.
  intros H Hj -> Hn Hl Hv Hc He.
  destruct (settled_publish d f s false fs p seq fs' p' seq' (pj_task p') H Hj eq_refl Hn Hl Hv Hc He) as [H2 Hb].
  unfold publish_task. set (f' := mkTaskFile _ _ _ _ _ _ _) in *.
  assert (holds (set_task_file f' d) p' seq') by (by exists f', s, fs'). destruct fault; cbn; auto.
Qed.

(** The frame of a commit, once it is in the journal. *)
Lemma frame_ahead d f s fs p seq p' ops d' :
  settled d f s false fs p seq -> commits p p' ops -> seq + 1 <= u64_max ->
  let fr := mkChatFrame CHAT_SCHEMA_VERSION (df_chat_sequence f + 1) (durable_chat_operations ops)
              (patch_between (df_task f) (pj_task p')) in
  d' = set_journals (<[df_chat_journal f := JFrames (fs ++ [fr]) 0]> (td_journals d)) d ->
  ahead d' p' (seq + 1) /\ settled d' f s false fs p seq /\ td_journals d' !! df_chat_journal f = whole_journal (fs ++ [fr]) /\
  numbered fr_sequence 1 (fs ++ [fr]) = true /\ leads (tr_task_id (pj_task p')) s (fs ++ [fr]) p' /\
  Z.of_nat (length (fs ++ [fr])) = df_chat_sequence f + 1.
Proof.
  intros H Hc Hmax fr ->. set (d' := set_journals _ d).
  assert (settled d' f s false fs p seq) as H' by (by apply settled_journals).
  assert (td_journals d' !! df_chat_journal f = Some (JFrames (fs ++ [fr]) 0)) as Hj by apply lookup_insert_eq.
  pose proof (se_frames _ _ _ _ _ _ _ H) as Hn. split.
  { exists f, s, false, fs, p, ops, fr. replace (seq + 1 - 1) with seq by lia. destruct Hc as [Ha Hd Hv Hid He].
    do 3 (split; [done|]). split; [cbn; lia|]. do 3 (split; [done|]). by rewrite Hid. }
  split; [done|]. split; [rewrite Hj; by destruct fs|]. split; [|split; [|rewrite length_app; cbn; lia]].
  - rewrite numbered_app, (se_numbered _ _ _ _ _ _ _ H). cbn. rewrite bool_decide_eq_true_2; [done|lia].
  - destruct (commit_leads _ _ _ _ _ _ _ _ _ H Hc) as (q' & Hq & Ecq).
    eapply leads_snoc; [rewrite (cm_task _ _ _ Hc); apply H|apply durable_chat_ops|]. by exists (durable p), q'.
Qed.

Lemma append_is_good frame_fault publish_fault d p seq p' ops : holds d p seq -> commits p p' ops -> seq + 1 <= u64_max ->
  commit_good p p' seq (append frame_fault publish_fault p' ops (seq + 1) d).
Proof.
  intros Hh Hc Hmax. pose proof (holds_torn _ _ _ Hh) as Hold. destruct Hh as (f & s & fs & H & Hb & Hj).
  unfold append. rewrite (loaded_file _ _ _ _ _ _ _ H). cbn [result_bind ok_or].
  pose proof (se_frames _ _ _ _ _ _ _ H) as Hn. pose proof (se_count _ _ _ _ _ _ _ H) as Hcount.
  destruct (commit_leads _ _ _ _ _ _ _ _ _ H Hc) as (q' & Hq & Ecq).
  destruct (durable_chat_operations ops) as [|op ops'] eqn:Eo.
  - cbn in Hq. injection Hq as <-. rewrite Hn.
    assert (leads (tr_task_id (pj_task p')) s fs p') as Hl'.
    { destruct (se_leads _ _ _ _ _ _ _ H) as [Hco Hl]. split; [done|]. rewrite (cm_task _ _ _ Hc). intros t.
      destruct (Hl t) as (q & ? & Eq). exists q. split; [done|]. by rewrite Eq, <- Ecq. }
    pose proof (publish_good publish_fault d f s false fs p seq fs p' (seq + 1) H Hj eq_refl (se_numbered _ _ _ _ _ _ _ H)
                  Hl' (cm_agrees _ _ _ Hc) ltac:(lia) (cm_encodable _ _ _ Hc)) as Hp.
    destruct (publish_task _ _ _ _ _ _ _) as [[] d']; [done|]. cbn. destruct Hp as [->|Hp]; [left; by left|right; left; by apply holds_torn].
  - rewrite <- Eo. clear Hq Ecq q' Eo op ops'. unfold u64_checked_add. rewrite bool_decide_eq_true_2 by (unfold u64_max in *; lia).
    set (fr := mkChatFrame _ _ _ _).
    set (d1 := set_journals (<[df_chat_journal f := JFrames (fs ++ [fr]) 0]> (td_journals d)) d).
    destruct (frame_ahead d f s fs p seq p' ops d1 H Hc Hmax eq_refl) as (Hahead & H1 & Hj1 & Hnum & Hleads & Hlen).
    pose proof (publish_good publish_fault d1 f s false fs p seq (fs ++ [fr]) p' (seq + 1) H1 Hj1 eq_refl Hnum Hleads
                  (cm_agrees _ _ _ Hc) ltac:(rewrite length_app; cbn; lia) (cm_encodable _ _ _ Hc)) as Hp.
    assert (Z.of_nat (length (fs ++ [fr])) = df_chat_sequence f + 1) as Hlen' by exact Hlen. rewrite Hlen' in Hp.
    assert (forall j, torn_journal fs (Some j) -> recoverable (set_journals (<[df_chat_journal f := j]> (td_journals d)) d) p seq) as Htorn.
    { intros j Ht. left. exists f, s, false, fs. split; [by apply settled_journals|]. cbn. by rewrite lookup_insert_eq. }
    assert (forall (r : result unit RuntimeError) d', d' = d1 -> r = Ok tt -> commit_good p p' seq
      match (let? _ := r in Ok (df_chat_sequence f + 1), d') with
      | (Ok next, d0) => publish_task publish_fault (pj_task p') (seq + 1) next (df_chat_snapshot f) (df_chat_journal f) d0
      | (Err e, d0) => (Err e, d0)
      end) as Hdone.
    { intros r d' -> ->. cbn [result_bind]. destruct (publish_task _ _ _ _ _ _ _) as [[] d2]; [done|]. cbn.
      destruct Hp as [->|Hp]; [right; by right|right; left; by apply holds_torn]. }
    destruct fs as [|fr0 fs].
    + rewrite (bool_decide_eq_true_2 (_ = 1)) by (cbn in Hn; lia). unfold create_journal, create_frames. rewrite Hj. cbn [whole_journal].
      destruct frame_fault as [|e|n e|e]; [by apply Hdone|rewrite set_journals_same; left; by left| |right; by right].
      left. apply Htorn. cbn. unfold cut. case_bool_decide; cbn; split; done || lia.
    + rewrite (bool_decide_eq_false_2 (_ = 1)) by (cbn in Hn; lia). unfold append_journal, append_frame. rewrite Hj. cbn [whole_journal].
      destruct frame_fault as [|e|n e|e]; [by apply Hdone|rewrite set_journals_same; left; by left| |right; by right].
      left. apply Htorn. cbn. unfold cut. split; [done|lia].
Qed.

(** ** Compaction and the first files *)

Lemma snapshot_leads task_id p : leads task_id (snapshot_of p) [] p.
Proof. split; [done|]. intros t. by eexists. Qed.

(** Metadata that names a snapshot of [p] and no journal yet. *)
Lemma fresh_holds d p seq name journal bytes : 0 < seq -> versions_agree p -> encodable p -> td_journals d !! journal = None -> bytes = 0 ->
  load_chat_snapshot name d = Ok (snapshot_of p, false) ->
  holds (set_task_file (mkTaskFile TASK_SCHEMA_VERSION seq 0 name journal (Some bytes) (cleared (pj_task p))) d) p seq.
Proof.
  intros Hseq Hv He Hj -> Hs. set (f := mkTaskFile _ _ _ _ _ _ _). exists f, (snapshot_of p), [].
  split; [|split; [done|exact Hj]]. constructor; try done; [by right|apply snapshot_leads|apply He].
Qed.

Lemma holds_remove d p seq f name : holds d p seq -> td_task d = Some f -> td_journals d !! df_chat_journal f = None ->
  holds (set_journals (delete name (td_journals d)) d) p seq.
Proof.
  intros (f' & s & fs & H & Hb & Hj) Ef Hn. rewrite (se_file _ _ _ _ _ _ _ H) in Ef. injection Ef as ->.
  exists f, s, fs. split; [by apply settled_journals|]. split; [done|]. rewrite Hj in Hn. rewrite Hn. cbn.
  apply lookup_delete_None. right. by rewrite Hj, Hn.
Qed.

Lemma holds_remove_snapshot d p seq f name : holds d p seq -> td_task d = Some f -> df_chat_snapshot f <> name ->
  holds (set_snapshots (delete name (td_snapshots d)) d) p seq.
Proof.
  intros (f' & s & fs & H & Hb & Hj) Ef Hn. rewrite (se_file _ _ _ _ _ _ _ H) in Ef. injection Ef as ->.
  exists f, s, fs. split; [|done]. eapply settled_ext; [done|done|]. cbn. by rewrite lookup_delete_ne.
Qed.

(** Compaction changes nothing that a load gives, wherever it is cut off. *)
Lemma compact_is_good faults generation d p seq : holds d p seq ->
  td_journals d !! (CHAT_JOURNAL_FILE +:+ "." +:+ generation) = None ->
  td_snapshots d !! (CHAT_SNAPSHOT_FILE +:+ "." +:+ generation) = None ->
  match compact faults generation p seq d with
  | (Ok _, d') => holds d' p seq
  | (Err _, d') => recoverable d' p seq
  end.
Proof.
  intros Hh Hnj Hns. pose proof (holds_torn _ _ _ Hh) as Hold. destruct Hh as (f & s & fs & H & Hb & Hj).
  unfold compact. rewrite (loaded_file _ _ _ _ _ _ _ H). cbn [result_bind ok_or].
  set (snap := CHAT_SNAPSHOT_FILE +:+ "." +:+ generation) in *. set (jour := CHAT_JOURNAL_FILE +:+ "." +:+ generation) in *.
  assert (df_chat_snapshot f <> snap) as Hne.
  { intros E. pose proof (se_snapshot _ _ _ _ _ _ _ H) as Hs. unfold load_chat_snapshot in Hs. by rewrite E, Hns in Hs. }
  set (d1 := set_snapshots (<[snap := snapshot_to_value (snapshot_of p)]> (td_snapshots d)) d).
  assert (torn d1 p seq) as Ht1.
  { exists f, s, false, fs. split; [eapply settled_ext; [done|done|]; cbn; by rewrite lookup_insert_ne|].
    cbn. rewrite Hj. destruct fs; cbn; [done|]. split; [done|lia]. }
  unfold replace_snapshot, durable_replace. fold d1. destruct (cp_snapshot faults); try (left; exact Hold || exact Ht1).
  destruct (cp_before_publish faults); [left; exact Ht1|].
  unfold publish_task, durable_replace. set (f' := mkTaskFile _ _ _ _ _ _ _). set (d2 := set_task_file f' d1).
  assert (holds d2 p seq) as H2.
  { apply fresh_holds; [pose proof (se_count _ _ _ _ _ _ _ H); lia|apply H|apply H|exact Hnj| |apply snapshot_current; [apply H|done]].
    unfold file_length_or_zero. cbn. by rewrite Hnj. }
  destruct (cp_publish faults); try (left; exact Ht1 || by apply holds_torn).
  unfold remove_unless. destruct (cp_remove_journal faults); [left; by apply holds_torn|].
  set (d3 := set_journals (delete (df_chat_journal f) (td_journals d2)) d2).
  assert (holds d3 p seq) as H3 by (by apply (holds_remove _ _ _ f')).
  rewrite bool_decide_eq_false_2 by done. destruct (cp_remove_snapshot faults); [left; by apply holds_torn|].
  set (d4 := set_snapshots (delete (df_chat_snapshot f) (td_snapshots d3)) d3).
  assert (holds d4 p seq) as H4 by (by apply (holds_remove_snapshot _ _ _ f')).
  destruct (cp_sync faults); [left; by apply holds_torn|done].
Qed.

(** The first commit of a Task: without metadata there is no Task yet. *)
Lemma initial_is_good snapshot_fault publish_fault d p seq : td_task d = None -> 0 < seq -> versions_agree p -> encodable p ->
  td_journals d !! CHAT_JOURNAL_FILE = None ->
  match publish_initial snapshot_fault publish_fault p seq d with
  | (Ok _, d') => holds d' p seq
  | (Err _, d') => td_task d' = None \/ recoverable d' p seq
  end.
Proof.
  intros Hn Hseq Hv He Hj. unfold publish_initial, replace_snapshot, durable_replace.
  set (d1 := set_snapshots _ d). destruct snapshot_fault; [|by left..]. unfold publish_task, durable_replace.
  set (f' := mkTaskFile _ _ _ _ _ _ _). assert (holds (set_task_file f' d1) p seq) as Hh.
  { apply fresh_holds; [done|done|done|done| |apply snapshot_current; [apply He|done]]. unfold file_length_or_zero. cbn. by rewrite Hj. }
  destruct publish_fault; [done|by left|by left|]. right. left. by apply holds_torn.
Qed.

(** ** What a start reads *)

Lemma catalog_is_good faults d p seq r d' f0 : recoverable d p seq -> td_task d = Some f0 -> is_Some (df_chat_journal_bytes f0) ->
  load_catalog_task faults d = (r, d') ->
  match r with
  | Ok r => exists f, r = Some f /\ df_task f = cleared (pj_task p) /\ df_storage_sequence f = seq
  | Err _ => True
  end /\ recoverable d' p seq.
Proof.
  intros Hr E0 Hb. assert (exists f, load_task d = Ok (Some f) /\ td_task d = Some f) as (f & Ef & Efd).
  { destruct Hr as [(f & s & m & fs & H & _)|(f & s & m & fs & p0 & ops & fr & H & _)];
      exists f; (split; [by eapply loaded_file|apply H]). }
  rewrite E0 in Efd. injection Efd as ->. unfold load_catalog_task. rewrite Ef. destruct Hb as [b Hb]. rewrite Hb.
  case_bool_decide as Hlen.
  - pose proof (load_is_good faults d p seq Hr) as Hg. destruct (load_projection faults d) as [[r'|e] d2]; intros [= <- <-]; [|split; [done|apply Hg]].
    destruct Hg as [_ Hh]. split; [|left; by apply holds_torn]. destruct Hh as (f' & s & fs & H & _).
    rewrite (loaded_file _ _ _ _ _ _ _ H). exists f'. split; [done|]. split; apply H.
  - intros [= <- <-]. split; [|done]. exists f. split; [done|].
    destruct Hr as [(f1 & s & m & fs & H & _)|(f1 & s & m & fs & p0 & ops & fr & H & _ & Hj & _)];
      pose proof (se_file _ _ _ _ _ _ _ H) as E1; rewrite E0 in E1; injection E1 as <-; [split; apply H|]. exfalso. apply Hlen.
    assert (b = settled_length fs) as -> by (destruct (se_bytes _ _ _ _ _ _ _ H); congruence).
    unfold file_length_or_zero. rewrite Hj. cbn [framed_length]. unfold settled_length, framed_bytes. rewrite list_sum_app. cbn.
    pose proof (frame_bytes_pos fr). destruct fs; cbn; unfold FILE_HEADER_LEN; lia.
Qed.

(** ** The files as a register *)

Inductive FileOp :=
| CommitTask (frame_fault publish_fault : WriteFault) (next : TaskProjection) (ops : list TaskOperation)
| CompactTask (faults : CompactFaults) (generation : string)
| LoadTask (faults : LoadFaults)
| StopProcess.

(** The directory and what the process has in memory. *)
Record FileWorld := mkFileWorld { fw_disk : TaskDirectory; fw_memory : option (TaskProjection * Z) }.

(** Whether the operation was acknowledged, and the world after it.  After a
    failure the process does not go on with the Task. *)
Definition perform (op : FileOp) (w : FileWorld) : bool * FileWorld :=
  match op, fw_memory w with
  | CommitTask frame_fault publish_fault next ops, Some (p, seq) =>
      match append frame_fault publish_fault next ops (seq + 1) (fw_disk w) with
      | (Ok _, d) => (true, mkFileWorld d (Some (next, seq + 1)))
      | (Err _, d) => (false, mkFileWorld d None)
      end
  | CompactTask faults generation, Some (p, seq) =>
      match compact faults generation p seq (fw_disk w) with
      | (Ok _, d) => (true, mkFileWorld d (Some (p, seq)))
      | (Err _, d) => (false, mkFileWorld d None)
      end
  | LoadTask faults, None =>
      match load_projection faults (fw_disk w) with
      | (Ok r, d) => (true, mkFileWorld d r)
      | (Err _, d) => (false, mkFileWorld d None)
      end
  | StopProcess, _ => (true, mkFileWorld (fw_disk w) None)
  | _, _ => (false, w)
  end.

Definition may_perform (op : FileOp) (w : FileWorld) : Prop :=
  match op, fw_memory w with
  | CommitTask _ _ next ops, Some (p, seq) => commits p next ops /\ seq + 1 <= u64_max
  | CompactTask _ generation, _ =>
      td_journals (fw_disk w) !! (CHAT_JOURNAL_FILE +:+ "." +:+ generation) = None /\
      td_snapshots (fw_disk w) !! (CHAT_SNAPSHOT_FILE +:+ "." +:+ generation) = None
  | _, _ => True
  end.

(** The world stands for the register [(p, seq)]; live Agent state is lost with
    the process. *)
Definition stands_for (w : FileWorld) (p : TaskProjection) (seq : Z) : Prop :=
  exists q, durable q = durable p /\
    match fw_memory w with
    | Some (m, s) => m = q /\ s = seq /\ holds (fw_disk w) q seq
    | None => recoverable (fw_disk w) q seq
    end.

(** A commit writes the register when it is acknowledged, and may have written it
    when it is not; nothing else does. *)
Definition register_step (op : FileOp) (acknowledged : bool) (p : TaskProjection) (seq : Z) (p' : TaskProjection) (seq' : Z) : Prop :=
  match op with
  | CommitTask _ _ next _ =>
      (p' = next /\ seq' = seq + 1) \/ (acknowledged = false /\ p' = p /\ seq' = seq)
  | _ => p' = p /\ seq' = seq
  end.

Lemma durable_durable p : durable (durable p) = durable p.
Proof. unfold durable, set_task. cbn. by rewrite cleared_cleared. Qed.

Lemma holds_durable d p seq : holds d p seq -> holds d (durable p) seq.
Proof.
  intros (f & s & fs & H & Hb & Hj). exists f, s, fs. split; [|done]. destruct H. constructor; try done.
  - cbn. by rewrite cleared_cleared.
  - rewrite durable_id. done.
  - by apply durable_agrees.
  - unfold encodable. cbn. by rewrite cleared_cleared.
Qed.

Lemma perform_stands_for op w p seq : stands_for w p seq -> may_perform op w ->
  exists p' seq', stands_for (perform op w).2 p' seq' /\ register_step op (perform op w).1 p seq p' seq'.
Proof.
  intros (q & Eq & Hw) Hm. destruct w as [d mem]. cbn [fw_memory fw_disk] in *.
  destruct op as [ff pf next ops|faults generation|faults|]; destruct mem as [[m s]|]; cbn [perform may_perform fw_memory fw_disk] in *.
  - destruct Hw as (-> & -> & Hh). destruct Hm as [Hc Hmax].
    pose proof (append_is_good ff pf d q seq next ops Hh Hc Hmax) as Hg. unfold commit_good in Hg.
    destruct (append _ _ _ _ _ _) as [[]d']; cbn [fst snd].
    + exists next, (seq + 1). split; [by exists next|by left].
    + destruct Hg as [Hg|Hg]; [exists p, seq; split; [by exists q|by right]|].
      exists next, (seq + 1). split; [by exists next|by left].
  - exists p, seq. split; [by exists q|by right].
  - destruct Hw as (-> & -> & Hh). destruct Hm as [H1 H2]. pose proof (compact_is_good faults generation d q seq Hh H1 H2) as Hg.
    exists p, seq. destruct (compact _ _ _ _ _) as [[]d']; (split; [by exists q|done]).
  - exists p, seq. split; [by exists q|done].
  - exists p, seq. split; [by exists q|done].
  - pose proof (load_is_good faults d q seq Hw) as Hg. exists p, seq.
    destruct (load_projection faults d) as [[r|e] d']; cbn [fst snd]; (split; [|done]); [|exists q; split; [done|apply Hg]].
    destruct Hg as [-> Hh]. exists (durable q). split; [by rewrite durable_durable|]. cbn. split; [done|]. split; [done|].
    by apply holds_durable.
  - exists p, seq. destruct Hw as (-> & -> & Hh). split; [|done]. exists q. split; [done|]. left. by apply holds_torn.
  - exists p, seq. split; [by exists q|done].
Qed.

(** C3. The files of a Task refine a register that a commit writes: the first
    acknowledged commit gives it its value; under every sequence of commits,
    compactions, loads and stops, each cut off by a failure at any of its writes,
    a commit takes effect as a whole or not at all, and does when it is
    acknowledged; and at any time a load that is not cut off gives the value,
    without the live state of an Agent. *)
Theorem task_files_refine_register :
  (forall p seq d d' f g, td_task d = None -> 0 < seq -> versions_agree p -> encodable p ->
     td_journals d !! CHAT_JOURNAL_FILE = None -> publish_initial f g p seq d = (Ok tt, d') -> stands_for (mkFileWorld d' (Some (p, seq))) p seq) /\
  (forall op w p seq, stands_for w p seq -> may_perform op w ->
     exists p' seq', stands_for (perform op w).2 p' seq' /\ register_step op (perform op w).1 p seq p' seq') /\
  (forall w p seq, stands_for w p seq ->
     (load_projection no_load_faults (fw_disk w)).1 = Ok (Some (durable p, seq))).
Proof.
  split; [|split; [exact perform_stands_for|]].
  - intros p seq d d' f g Hn Hs Hv He Hj E. pose proof (initial_is_good f g d p seq Hn Hs Hv He Hj) as Hg. rewrite E in Hg.
    by exists p.
  - intros w p seq (q & Eq & Hw).
    assert (recoverable (fw_disk w) q seq) as Hr.
    { destruct (fw_memory w) as [[m s]|]; [|done]. left. by apply holds_torn, Hw. }
    pose proof (load_is_good no_load_faults (fw_disk w) q seq Hr) as Hg.
    destruct (load_projection no_load_faults (fw_disk w)) as [[r|e] d']; [|by destruct Hg]. cbn. destruct Hg as [-> _]. by rewrite Eq.
Qed.


(** C4. A start reads the Tasks without their Chats: while the metadata knows the
    length of its journal, what a start that succeeds reads is the metadata of
    the Task that a load gives, at the same sequence, also when the process
    stopped between the frame of a commit and its metadata; and whether or not
    it succeeds, a later load gives the same Task. *)
Theorem start_reads_loaded_task d p seq f0 faults r d' :
  stands_for (mkFileWorld d None) p seq -> td_task d = Some f0 -> is_Some (df_chat_journal_bytes f0) ->
  load_catalog_task faults d = (r, d') ->
  match r with
  | Ok r => exists f, r = Some f /\ df_task f = pj_task (durable p) /\ df_storage_sequence f = seq
  | Err _ => True
  end /\ (load_projection no_load_faults d').1 = Ok (Some (durable p, seq)).
Proof.
  intros (q & Eq & Hr) Ef Hb E. cbn in Hr. destruct (catalog_is_good faults d q seq r d' f0 Hr Ef Hb E) as [H1 H2].
  assert (cleared (pj_task q) = pj_task (durable p)) as Et by (by rewrite <- Eq).
  split; [by rewrite <- Et|].
  pose proof (load_is_good no_load_faults d' q seq H2) as Hg.
  destruct (load_projection no_load_faults d') as [[x|e] d2]; [|by destruct Hg]. cbn. destruct Hg as [-> _]. by rewrite Eq.
Qed.
End Laws.
End Codecs.
End TaskFiles.

(** ** Witnesses *)

Module TaskFilesWitness.
Import JournalWitness.

(** Records that differ in their id and history version, and messages of an
    Agent, are what these codecs can hold. *)
Definition to_task (m : gmap string JsonValue) : result TaskRecord RuntimeError :=
  match m !! "task_id"%string, m !! "message_history_version"%string with
  | Some (JString id), Some (JNumber v) => Ok (set_history_version v (RecordWitness.sample id))
  | _, _ => Err (Storage "task")
  end.
Definition of_message (m : StoredMessage) : JsonValue :=
  JArray [JNumber (st_sequence m); JString (cm_identity (st_chat m))].
Definition to_message (v : JsonValue) : option StoredMessage :=
  match v with JArray [JNumber q; JString id] => Some (message q id "text") | _ => None end.
Definition of_snapshot (s : ChatSnapshotFile) : JsonValue :=
  JObject [("schemaVersion"%string, JNumber (ss_schema_version s)); ("messages"%string, JArray (of_message <$> ss_messages s));
           ("version"%string, JNumber (mm_version (ss_message_meta s)));
           ("heads"%string, JObject (prod_map id JNumber <$> map_to_list (ss_artifact_heads s)))].
Definition to_snapshot (v : JsonValue) : result ChatSnapshotFile RuntimeError :=
  match v with
  | JObject [(_, JNumber schema); (_, JArray messages); (_, JNumber version); (_, JObject heads)] =>
      Ok (mkSnapshot schema (omap to_message messages) (meta version)
            (list_to_map (omap (fun e => match e.2 with JNumber n => Some (e.1, n) | _ => None end) heads)))
  | _ => Err (Storage "snapshot")
  end.

#[local] Instance file_codecs : SplitCodecs := {
  task_to_value t := {["message_history_version" := JNumber (tr_message_history_version t); "task_id" := JString (tr_task_id t)]};
  task_from_value := to_task;
  snapshot_to_value := of_snapshot;
  snapshot_from_value := to_snapshot;
  encodable_task t := t = set_history_version (tr_message_history_version t) (RecordWitness.sample (tr_task_id t));
  encodable_snapshot s := to_snapshot (of_snapshot s) = Ok s;
  frame_bytes f := 8 + Z.of_nat (length (fr_operations f));
}.

#[local] Instance file_laws : SplitLaws.
Proof.
  constructor.
  - intros t _ E. cbn in E |- *. unfold to_task. rewrite lookup_insert_ne by done. rewrite lookup_singleton_eq, lookup_insert_eq. by rewrite <- E.
  - intros v t. cbn. by rewrite insert_insert_eq.
  - done.
  - done.
  - intros f. cbn. lia.
Qed.

Definition first_projection : TaskProjection :=
  mkProjection (set_history_version 1 (RecordWitness.sample "t")) [message 1 "m" "text"] (meta 1) ∅.
Definition added : list TaskOperation := [AppendMessage (message 2 "n" "text")].
Definition second_projection : TaskProjection :=
  mkProjection (set_history_version 2 (RecordWitness.sample "t")) [message 1 "m" "text"; message 2 "n" "text"] (meta 2) ∅.
Definition empty_directory : TaskDirectory := mkTaskDirectory None ∅ ∅ false false.
Definition first_directory : TaskDirectory := (publish_initial WriteOk WriteOk first_projection 1 empty_directory).2.

(** A crash between the frame and the metadata, after a crash within a frame. *)
Definition crashed : list FileOp :=
  [CommitTask (WriteTorn 12 (Storage "cut")) WriteOk second_projection added; LoadTask no_load_faults;
   CommitTask WriteOk (WriteLost (Storage "cut")) second_projection added].
Definition runs (ops : list FileOp) (w : FileWorld) : FileWorld := foldl (fun w op => (perform op w).2) w ops.

Lemma second_commits : commits first_projection second_projection added.
Proof. constructor; vm_compute; done. Qed.

Definition first_world : FileWorld := mkFileWorld first_directory (Some (first_projection, 1)).
Definition cut_commit : FileOp := CommitTask WriteOk (WriteLost (Storage "cut")) second_projection added.

Example crash_is_recovered :
  (perform cut_commit first_world).1 = false /\
  (load_projection no_load_faults (fw_disk (runs crashed first_world))).1 = Ok (Some (second_projection, 2)).
Proof. vm_compute. split; reflexivity. Qed.

Lemma cut_commit_allowed : may_perform cut_commit first_world.
Proof. split; [exact second_commits|apply (bool_decide_unpack _); vm_compute; exact I]. Qed.

Lemma task_files_refine_register_witness :
  exists p seq, stands_for (perform cut_commit first_world).2 p seq /\
    register_step cut_commit false first_projection 1 p seq /\
    (load_projection no_load_faults (fw_disk (perform cut_commit first_world).2)).1 = Ok (Some (durable p, seq)).
Proof.
  destruct task_files_refine_register as (Hfirst & Hstep & Hload).
  destruct (Hstep cut_commit first_world first_projection 1) as (p & seq & Hw & Hr).
  - apply (Hfirst first_projection 1 empty_directory first_directory WriteOk WriteOk); try (vm_compute; done).
  - exact cut_commit_allowed.
  - exists p, seq. split; [exact Hw|]. split; [|exact (Hload _ p seq Hw)].
    replace false with (perform cut_commit first_world).1 by apply crash_is_recovered. exact Hr.
Defined.

Lemma cut_commit_stands : exists p seq, stands_for (perform cut_commit first_world).2 p seq.
Proof.
  destruct (perform_stands_for cut_commit first_world first_projection 1) as (p & seq & Hw & _); [|exact cut_commit_allowed|by exists p, seq].
  exists first_projection. split; [done|]. split; [done|]. split; [done|].
  pose proof (initial_is_good WriteOk WriteOk empty_directory first_projection 1 eq_refl) as Hi.
  apply Hi; vm_compute; done.
Qed.

Lemma start_reads_loaded_task_witness :
  let d := fw_disk (perform cut_commit first_world).2 in
  exists f d', load_catalog_task no_load_faults d = (Ok (Some f), d') /\
    (load_projection no_load_faults d').1 = Ok (Some (set_task (df_task f) second_projection, df_storage_sequence f)).
Proof.
  cbv zeta. destruct cut_commit_stands as (p & seq & Hw).
  assert (Hd : (perform cut_commit first_world).2 = mkFileWorld (fw_disk (perform cut_commit first_world).2) None) by (vm_compute; reflexivity).
  rewrite Hd in Hw. destruct (td_task (fw_disk (perform cut_commit first_world).2)) as [f0|] eqn:E0; [|vm_compute in E0; discriminate E0].
  destruct (load_catalog_task no_load_faults (fw_disk (perform cut_commit first_world).2)) as [r d'] eqn:E.
  destruct (start_reads_loaded_task _ p seq f0 no_load_faults r d' Hw E0) as [Hr Hl]; [|exact E|].
  - vm_compute in E0. injection E0 as <-. vm_compute. by eexists.
  - destruct r as [r|e]; [|vm_compute in E; discriminate E]. destruct Hr as (f & -> & Ht & <-). exists f, d'. split; [reflexivity|].
    assert (Hv : exists x, (load_projection no_load_faults d').1 = Ok (Some x) /\ set_task (df_task f) x.1 = set_task (df_task f) second_projection).
    { vm_compute in E. injection E as <- <-. eexists. split; vm_compute; reflexivity. }
    destruct Hv as (x & Hx & Hs). rewrite Hl in Hx. injection Hx as <-. cbn in Hs. rewrite Hl. do 3 f_equal.
    rewrite <- Hs, Ht. reflexivity.
Defined.
End TaskFilesWitness.
