(* ===== verification/ToolArtifacts.v ===== *)
(** * Tool details

    Models [openaide-rs/app-server/src/storage/task_journal/artifact.rs] and
    [artifact/compaction.rs]: the details and terminal output of a Tool are a
    framed journal of their own, and the journal of the Task names the frames of
    it that count.  The files of one Task are a map from artifact ids, as a path
    is made of a valid id.

    Shows what the commit of a batch builds on: a new frame is invisible until the
    Task names it, whatever cuts it off; a reconciled file has exactly the named
    frames; compaction, which drops replaced details, changes nothing visible. *)

From stdpp Require Import pretty sorting.
From S2P Require Import Prelude Chat Records Journal TaskFiles.
Local Open Scope Z_scope.

Section Artifacts.
Context `{CP : ChatPayloads}.

Record ArtifactFrame := mkArtifactFrame { af_sequence : Z; af_operations : list ArtifactOperation }.

Record CommittedArtifactChange := mkArtifactChange {
  ch_artifact_id : string; ch_artifact_sequence : Z; ch_terminal_appends : list (string * string) }.

Record ToolArtifactProjection := mkToolArtifact {
  ta_artifact_id : string; ta_revision : Z; ta_contents : ArtifactContents }.

(** The length of a frame in its file. *)
Class ArtifactBytes := artifact_bytes : ArtifactFrame -> Z.

Definition artifact_path (task_id artifact_id : string) : result unit RuntimeError :=
  check? validate_task_id task_id in validate_artifact_id artifact_id.

Definition artifact_frame_error (stage task_id artifact_id : string) (e : RuntimeError) : RuntimeError :=
  Storage ("Tool artifact " +:+ artifact_id +:+ " for Task " +:+ task_id +:+ " " +:+ stage +:+ " failed (kind="
           +:+ error_reason e +:+ ", diagnostic=" +:+ error_to_string e +:+ ")").

Definition ends_before (artifact_id : string) (committed_head : Z) : RuntimeError :=
  Storage ("Tool artifact " +:+ artifact_id +:+ " ends before committed sequence " +:+ pretty committed_head).
Definition missing_sequence (artifact_id : string) (committed_head : Z) : RuntimeError :=
  Storage ("Tool artifact " +:+ artifact_id +:+ " is missing committed sequence " +:+ pretty committed_head).
Definition artifact_overflow : RuntimeError := Storage "Tool artifact sequence overflow".

Definition map_error {A} (f : RuntimeError -> RuntimeError) (r : result A RuntimeError) : result A RuntimeError :=
  match r with Ok x => Ok x | Err e => Err (f e) end.

(** [committed_change]. *)
Definition committed_change (artifact_id : string) (artifact_sequence : Z) (ops : list ArtifactOperation) : CommittedArtifactChange :=
  mkArtifactChange artifact_id artifact_sequence
    (omap (fun op => match op with ReplaceDetails _ => None | AppendTerminal terminal_id data => Some (terminal_id, data) end) ops).

(** ** Operations of the files *)

Section Files.
Context `{AB : !ArtifactBytes}.
Abbreviation ArtifactFiles := (gmap string (JournalFile ArtifactFrame)).

(** [frame::replay] and [frame::scan] at a path. *)
Definition replay_artifact (fault : WriteFault) (name : string) (files : ArtifactFiles)
  : result (list ArtifactFrame) RuntimeError * ArtifactFiles :=
  match files !! name with
  | None => (Err (Storage "Task journal replay_open failed (kind=not_found)"), files)
  | Some j => let '(r, j) := replay af_sequence fault j in (r, <[name := j]> files)
  end.

(** [frame::truncate_after], of a file that was just replayed. *)
Definition truncate_after (fault : WriteFault) (name : string) (replayed : list ArtifactFrame) (retained : Z) (files : ArtifactFiles)
  : result unit RuntimeError * ArtifactFiles :=
  if bool_decide (Z.of_nat (length replayed) <= retained) then (Ok tt, files)
  else
    let shorter := <[name := JFrames (take (Z.to_nat retained) replayed) 0]> files in
    match fault with
    | WriteOk => (Ok tt, shorter)
    | WriteLost e | WriteTorn _ e => (Err e, files)
    | WriteKept e => (Err e, shorter)
    end.

Definition prepare_reconciled (fault : WriteFault) (task_id artifact_id : string) (committed_head : Z) (reconciled_head : option Z)
    (ops : list ArtifactOperation) (files : ArtifactFiles) : result CommittedArtifactChange RuntimeError * ArtifactFiles :=
  match ok_or (u64_checked_add committed_head 1) artifact_overflow with
  | Err e => (Err e, files)
  | Ok sequence =>
      let frame := mkArtifactFrame sequence ops in
      match artifact_path task_id artifact_id with
      | Err e => (Err e, files)
      | Ok _ =>
          let finish stage out :=
            (let? _ := map_error (artifact_frame_error stage task_id artifact_id) out.1 in
             Ok (committed_change artifact_id sequence ops), out.2) in
          if is_some (files !! artifact_id) then
            if bool_decide (reconciled_head = Some committed_head)
            then finish "prepare_append" (append_frame artifact_bytes fault artifact_id frame files)
            else (Err (Storage "Tool artifact is unavailable after startup reconciliation"), files)
          else if bool_decide (sequence = 1)
          then finish "prepare_create" (create_frames artifact_bytes fault artifact_id frame files)
          else (Err (missing_sequence artifact_id committed_head), files)
      end
  end.

(** [load]: the frames that the Task names. *)
Definition load_artifact (fault : WriteFault) (task_id artifact_id : string) (committed_head : Z) (files : ArtifactFiles)
  : result ToolArtifactProjection RuntimeError * ArtifactFiles :=
  match artifact_path task_id artifact_id with
  | Err e => (Err e, files)
  | Ok _ =>
      let '(r, files) := replay_artifact fault artifact_id files in
      (let? frames := map_error (artifact_frame_error "load_replay" task_id artifact_id) r in
       if bool_decide (Z.of_nat (length frames) < committed_head) then Err (ends_before artifact_id committed_head)
       else Ok (mkToolArtifact artifact_id committed_head
                  (foldl load_operation empty_artifact (take (Z.to_nat committed_head) frames ≫= af_operations))), files)
  end.

Definition replaces_details (op : ArtifactOperation) : bool := match op with ReplaceDetails _ => true | _ => false end.
Definition details_of (op : ArtifactOperation) : option ActivityToolDetails := match op with ReplaceDetails d => Some d | _ => None end.

Definition latest_details (fault : WriteFault) (task_id artifact_id : string) (committed_head : Z) (files : ArtifactFiles)
  : result (option ActivityToolDetails) RuntimeError * ArtifactFiles :=
  if bool_decide (committed_head = 0) then (Ok None, files)
  else
    match artifact_path task_id artifact_id with
    | Err e => (Err e, files)
    | Ok _ =>
        let '(r, files) := replay_artifact fault artifact_id files in
        (let? frames := map_error (artifact_frame_error "noop_replay" task_id artifact_id) r in
         if bool_decide (Z.of_nat (length frames) < committed_head) then Err (ends_before artifact_id committed_head)
         else Ok (head (omap details_of (reverse (take (Z.to_nat committed_head) frames) ≫= (fun f => reverse (af_operations f))))), files)
    end.

(** The loop of [remove_semantic_noops]. *)
Fixpoint drop_unchanged `{!Json} (current : option (list Z)) (ops : list ArtifactOperation)
  : result (list ArtifactOperation) RuntimeError :=
  match ops with
  | [] => Ok []
  | ReplaceDetails details :: ops =>
      let? replacement := ok_or (details_vec details) (Internal "serde_json") in
      if bool_decide (current = Some replacement) then drop_unchanged current ops
      else let? rest := drop_unchanged (Some replacement) ops in Ok (ReplaceDetails details :: rest)
  | op :: ops => let? rest := drop_unchanged current ops in Ok (op :: rest)
  end.

Definition remove_semantic_noops `{!Json} (fault : WriteFault) (task_id artifact_id : string) (committed_head : Z)
    (ops : list ArtifactOperation) (files : ArtifactFiles) : result (list ArtifactOperation) RuntimeError * ArtifactFiles :=
  if negb (existsb replaces_details ops) then (Ok ops, files)
  else
    let '(r, files) := latest_details fault task_id artifact_id committed_head files in
    (let? latest := r in
     let? current := match latest with
                     | None => Ok None
                     | Some details => let? v := ok_or (details_vec details) (Internal "serde_json") in Ok (Some v)
                     end in
     drop_unchanged current ops, files).

(** The faults of a reconciliation: the torn tail and the frames that are cut. *)
Definition reconcile_one (trim truncate : WriteFault) (task_id artifact_id : string) (committed_head : Z) (files : ArtifactFiles)
  : result Z RuntimeError * ArtifactFiles :=
  match artifact_path task_id artifact_id with
  | Err e => (Err e, files)
  | Ok _ =>
      if negb (is_some (files !! artifact_id))
      then (if bool_decide (committed_head = 0) then Ok 0 else Err (missing_sequence artifact_id committed_head), files)
      else
        let '(r, files) := replay_artifact trim artifact_id files in
        match map_error (artifact_frame_error "reconcile_replay" task_id artifact_id) r with
        | Err e => (Err e, files)
        | Ok frames =>
            if bool_decide (Z.of_nat (length frames) < committed_head) then (Err (ends_before artifact_id committed_head), files)
            else
              let '(r, files) := truncate_after truncate artifact_id frames committed_head files in
              (let? _ := map_error (artifact_frame_error "reconcile_truncate" task_id artifact_id) r in Ok committed_head, files)
        end
  end.

(** ** Compaction *)

Definition SUPERSEDED_FRAME_THRESHOLD : Z := 128.
Definition BYTE_RATIO : Z := 2.
Definition MIN_RECLAIM_BYTES : Z := 1024 * 1024.

(** The loop that keeps the last replacement: [index] counts those before. *)
Fixpoint retain_last (count index : nat) (ops : list ArtifactOperation) : list ArtifactOperation * nat :=
  match ops with
  | [] => ([], index)
  | op :: ops =>
      if replaces_details op then
        let '(rest, last) := retain_last count (S index) ops in
        (if bool_decide (S index = count) then op :: rest else rest, last)
      else let '(rest, last) := retain_last count index ops in (op :: rest, last)
  end.
Fixpoint retain_frames (count index : nat) (frames : list ArtifactFrame) : list ArtifactFrame :=
  match frames with
  | [] => []
  | f :: frames =>
      let '(ops, index) := retain_last count index (af_operations f) in
      mkArtifactFrame (af_sequence f) ops :: retain_frames count index frames
  end.

Definition replacement_count (frames : list ArtifactFrame) : nat :=
  length (filter (fun op => replaces_details op = true) (frames ≫= af_operations)).

Definition compaction_pays (mode : CompactionMode) (removed physical compacted : Z) : bool :=
  let reclaimable := u64_saturating_sub physical compacted in
  match mode with
  | CompactNone => false
  | Force => bool_decide (0 < reclaimable)
  | IfWorthwhile =>
      bool_decide (SUPERSEDED_FRAME_THRESHOLD <= removed)
      || (bool_decide (u64_saturating_mul compacted BYTE_RATIO <= physical) && bool_decide (MIN_RECLAIM_BYTES <= reclaimable))
  end.

(** [compact_one]: the number of dropped replacements, when it rewrote the file. *)
Definition compact_one (trim replace : WriteFault) (task_id artifact_id : string) (committed_head : Z) (mode : CompactionMode)
    (files : ArtifactFiles) : result (option Z) RuntimeError * ArtifactFiles :=
  if bool_decide (committed_head = 0) || bool_decide (mode = CompactNone) then (Ok None, files)
  else
    match artifact_path task_id artifact_id with
    | Err e => (Err e, files)
    | Ok _ =>
        let '(r, files) := replay_artifact trim artifact_id files in
        match r with
        | Err e => (Err e, files)
        | Ok replayed =>
            if bool_decide (Z.of_nat (length replayed) < committed_head) then (Err (ends_before artifact_id committed_head), files)
            else
              let physical := framed_bytes artifact_bytes replayed in
              let committed := take (Z.to_nat committed_head) replayed in
              let count := replacement_count committed in
              let removed := u64_saturating_sub (Z.of_nat count) 1 in
              let frames := retain_frames count 0 committed in
              if compaction_pays mode removed physical (framed_bytes artifact_bytes frames) then
                let compacted := <[artifact_id := JFrames frames 0]> files in
                match replace with
                | WriteOk => (Ok (Some removed), compacted)
                | WriteLost e | WriteTorn _ e => (Err e, files)
                | WriteKept e => (Err e, compacted)
                end
              else (Ok None, files)
        end
    end.

(** The loop of [compact_artifacts] over the sorted candidates. *)
Fixpoint compact_loop (faults : string -> WriteFault * WriteFault) (task_id : string) (mode : CompactionMode)
    (artifacts : list (string * Z)) (files : ArtifactFiles) : result unit RuntimeError * ArtifactFiles :=
  match artifacts with
  | [] => (Ok tt, files)
  | (id, head) :: artifacts =>
      let '(trim, replace) := faults id in
      match compact_one trim replace task_id id head mode files with
      | (Err e, files) => (Err e, files)
      | (Ok _, files) => compact_loop faults task_id mode artifacts files
      end
  end.

Definition artifact_le {A} (a b : string * A) : Prop := String.leb a.1 b.1 = true.
#[global] Instance artifact_le_dec {A} (a b : string * A) : Decision (artifact_le a b) := decide (_ = true).
(** The entries in the order of their ids. *)
Definition by_id {A} (m : gmap string A) : list (string * A) := merge_sort artifact_le (map_to_list m).

Definition compact_artifacts (faults : string -> WriteFault * WriteFault) (task_id : string) (heads : gmap string Z)
    (written : option (gset string)) (mode : CompactionMode) (files : ArtifactFiles) : result unit RuntimeError * ArtifactFiles :=
  compact_loop faults task_id mode
    (filter (fun e => match written with Some w => bool_decide (e.1 ∈ w) | None => true end = true) (by_id heads)) files.

(** ** What a Task sees *)

(** The contents at a head: those of the first frames of the file. *)
Definition visible (files : ArtifactFiles) (id : string) (head : Z) : option ArtifactContents :=
  match files !! id with
  | Some (JFrames fs _) =>
      if numbered af_sequence 1 fs && bool_decide (head <= Z.of_nat (length fs))
      then Some (foldl load_operation empty_artifact (take (Z.to_nat head) fs ≫= af_operations)) else None
  | _ => None
  end.

(** A file with the frames up to the head and nothing after them. *)
Definition clean (files : ArtifactFiles) (id : string) (head : Z) : Prop :=
  (head = 0 /\ files !! id = None) \/
  exists fs, files !! id = Some (JFrames fs 0) /\ numbered af_sequence 1 fs = true /\ Z.of_nat (length fs) = head.

Lemma visible_lookup files files' id head : files' !! id = files !! id -> visible files' id head = visible files id head.
Proof. unfold visible. by intros ->. Qed.

Lemma visible_whole files id fs : files !! id = Some (JFrames fs 0) -> numbered af_sequence 1 fs = true ->
  visible files id (Z.of_nat (length fs)) = Some (foldl load_operation empty_artifact (fs ≫= af_operations)).
Proof.
  intros E Hn. unfold visible. rewrite E, Hn, bool_decide_eq_true_2 by lia. cbn. by rewrite Nat2Z.id, take_ge.
Qed.

Lemma visible_prefix files files' id fs gs tail tail' head :
  files !! id = Some (JFrames fs tail) -> files' !! id = Some (JFrames gs tail') -> head <= Z.of_nat (length fs) -> 0 <= head ->
  gs `prefix_of` fs \/ fs `prefix_of` gs -> head <= Z.of_nat (length gs) ->
  numbered af_sequence 1 fs = true -> numbered af_sequence 1 gs = true -> visible files' id head = visible files id head.
Proof.
  intros E E' Hh H0 Hp Hg Hn Hn'. unfold visible. rewrite E, E', Hn, Hn', !bool_decide_eq_true_2 by done. cbn. do 3 f_equal.
  destruct Hp as [[k ->]|[k ->]]; rewrite take_app_le; done || lia.
Qed.

(** The file with the same frames and another tail. *)
Lemma visible_same_frames files id j j' : files !! id = Some j ->
  match j', j with JFrames fs _, JFrames fs' _ => fs = fs' | JHeader n, JHeader n' => n = n' | _, _ => False end ->
  (forall id' head, visible (<[id := j']> files) id' head = visible files id' head) /\
  (forall id', id' <> id -> <[id := j']> files !! id' = files !! id').
Proof.
  intros E Hj. split; [|intros; by rewrite lookup_insert_ne]. intros id' head. destruct (decide (id' = id)) as [->|].
  - unfold visible. rewrite lookup_insert_eq, E. destruct j', j; naive_solver.
  - apply visible_lookup. by rewrite lookup_insert_ne.
Qed.

Lemma replay_artifact_spec fault id files r files' : replay_artifact fault id files = (r, files') ->
  (forall id' head, visible files' id' head = visible files id' head) /\ (forall id', id' <> id -> files' !! id' = files !! id') /\
  match r with Ok fs => files' !! id = Some (JFrames fs 0) /\ numbered af_sequence 1 fs = true | Err _ => True end.
Proof.
  unfold replay_artifact. destruct (files !! id) as [j|] eqn:E; [|by intros [= <- <-]].
  pose proof (fun j' => visible_same_frames files id j j' E) as Hset.
  destruct j as [n|fs tail]; cbn [replay].
  { intros [= <- <-]. destruct (Hset (JHeader n) eq_refl). done. }
  destruct (numbered af_sequence 1 fs) eqn:Hn; cbn [negb].
  2: { intros [= <- <-]. destruct (Hset (JFrames fs tail) eq_refl). done. }
  pose proof (Hset (JFrames fs 0) eq_refl) as [A1 A2]. pose proof (Hset (JFrames fs tail) eq_refl) as [B1 B2].
  case_bool_decide as Ht; [subst tail; intros [= <- <-]; rewrite lookup_insert_eq; done|].
  destruct fault; intros [= <- <-]; rewrite ?lookup_insert_eq; done.
Qed.

Lemma numbered_take k n fs : numbered af_sequence k fs = true -> numbered af_sequence k (take n fs) = true.
Proof. rewrite <- (take_drop n fs) at 1. rewrite numbered_app. by intros [H _]%andb_prop. Qed.

Lemma truncate_spec fault id fs head files r files' :
  files !! id = Some (JFrames fs 0) -> numbered af_sequence 1 fs = true -> 0 <= head <= Z.of_nat (length fs) ->
  truncate_after fault id fs head files = (r, files') ->
  (forall h, 0 <= h <= head -> visible files' id h = visible files id h) /\ (forall id', id' <> id -> files' !! id' = files !! id') /\
  (r = Ok tt -> clean files' id head).
Proof.
  intros E Hn Hh. unfold truncate_after. case_bool_decide as Hl.
  { intros [= <- <-]. split; [done|]. split; [done|]. intros _. right. exists fs. do 2 (split; [done|]). lia. }
  assert (length (take (Z.to_nat head) fs) = Z.to_nat head) as Hlen by (rewrite length_take; lia).
  set (files1 := <[id := _]> files).
  assert (forall h, 0 <= h <= head -> visible files1 id h = visible files id h) as Hv.
  { intros h Hx. apply (visible_prefix _ _ _ fs (take (Z.to_nat head) fs) 0 0); try done; [by apply lookup_insert_eq|lia|lia| |lia|by apply numbered_take].
    left. apply prefix_take. }
  assert (forall id', id' <> id -> files1 !! id' = files !! id') as Ho by (intros; by apply lookup_insert_ne).
  destruct fault; intros [= <- <-]; try done; (do 2 (split; [done|])); intros; try done.
  right. exists (take (Z.to_nat head) fs). split; [by apply lookup_insert_eq|]. split; [by apply numbered_take|lia].
Qed.

Lemma reconcile_spec trim truncate task_id id head files r files' : 0 <= head ->
  reconcile_one trim truncate task_id id head files = (r, files') ->
  (forall h, 0 <= h <= head -> visible files' id h = visible files id h) /\ (forall id', id' <> id -> files' !! id' = files !! id') /\
  match r with Ok k => k = head /\ clean files' id head | Err _ => True end.
Proof.
  intros Hh. unfold reconcile_one. destruct (artifact_path task_id id) as [[]|e]; [|by intros [= <- <-]].
  destruct (files !! id) as [j|] eqn:E; cbn [is_some negb].
  2: { case_bool_decide as H0; intros [= <- <-]; [|done]. do 2 (split; [done|]). split; [done|]. by left. }
  destruct (replay_artifact trim id files) as [r1 files1] eqn:E1. destruct (replay_artifact_spec _ _ _ _ _ E1) as (Hv1 & Ho1 & Hr1).
  destruct r1 as [fs|e]; cbn [map_error]; [|by intros [= <- <-]]. destruct Hr1 as [Ef Hn].
  case_bool_decide as Hl; [by intros [= <- <-]|].
  destruct (truncate_after truncate id fs head files1) as [r2 files2] eqn:E2.
  assert (0 <= head <= Z.of_nat (length fs)) as Hb by lia.
  destruct (truncate_spec _ _ _ _ _ _ _ Ef Hn Hb E2) as (Hv2 & Ho2 & Hr2). intros H. injection H as <- <-.
  split; [intros h Hx; by rewrite Hv2, Hv1|]. split; [intros id' Hid; by rewrite Ho2, Ho1|].
  destruct r2 as [[]|e]; cbn; [|done]. split; [done|by apply Hr2].
Qed.

(** A frame that is prepared changes nothing that was visible, and shows its
    operations at the next head. *)
Lemma prepare_spec fault task_id id head reconciled ops files r files' : 0 <= head -> clean files id head ->
  prepare_reconciled fault task_id id head reconciled ops files = (r, files') ->
  (forall h, 0 < h <= head -> visible files' id h = visible files id h) /\ (forall id', id' <> id -> files' !! id' = files !! id') /\
  match r with
  | Ok change => head + 1 <= u64_max /\ change = committed_change id (head + 1) ops /\ clean files' id (head + 1) /\
      visible files' id (head + 1) = Some (foldl load_operation (default empty_artifact (visible files id head)) ops)
  | Err _ => True
  end.
Proof.
  intros Hh Hc. unfold prepare_reconciled, ok_or. unfold u64_checked_add. case_bool_decide as Hmax; [|by intros [= <- <-]].
  assert (head + 1 <= u64_max) as Hmax' by (unfold u64_max; lia).
  destruct (artifact_path task_id id) as [[]|e]; [|by intros [= <- <-]]. set (fr := mkArtifactFrame (head + 1) ops).
  destruct Hc as [[-> En]|(fs & En & Hn & Hl)]; rewrite En; cbn [is_some].
  - rewrite bool_decide_eq_true_2 by done. destruct (create_frames _ _ _ _ _) as [r1 files1] eqn:E. intros H. injection H as <- <-. cbn [fst snd].
    split; [lia|]. unfold create_frames in E. rewrite En in E.
    split; [destruct fault; injection E as <- <-; intros; by try rewrite lookup_insert_ne|].
    destruct fault; injection E as <- <-; cbn; try done. split; [done|]. split; [done|].
    assert (<[id:=JFrames [fr] 0]> files !! id = Some (JFrames [fr] 0)) as E1 by apply lookup_insert_eq.
    split; [right; by exists [fr]|]. change (0 + 1) with (Z.of_nat (length [fr])). rewrite (visible_whole _ _ _ E1) by done. cbn. rewrite app_nil_r. unfold visible. by rewrite En.
  - case_bool_decide as Hr; [|by intros [= <- <-]]. destruct (append_frame _ _ _ _ _) as [r1 files1] eqn:E. intros H. injection H as <- <-. cbn [fst snd].
    unfold append_frame in E. rewrite En in E.
    assert (numbered af_sequence 1 (fs ++ [fr]) = true) as Hn1.
    { rewrite numbered_app, Hn. cbn. rewrite bool_decide_eq_true_2; [done|lia]. }
    assert (<[id:=JFrames (fs ++ [fr]) 0]> files !! id = Some (JFrames (fs ++ [fr]) 0)) as E1 by apply lookup_insert_eq.
    assert (Z.of_nat (length (fs ++ [fr])) = head + 1) as Hl1 by (rewrite length_app; cbn; lia).
    split; [|split].
    + intros h Hx. destruct fault; injection E as <- <-; try done.
      1, 3: apply (visible_prefix _ _ _ fs (fs ++ [fr]) 0 0); try done; [lia|lia| |lia]; right; by apply prefix_app_r.
      apply (visible_same_frames _ _ _ _ En). done.
    + intros id' Hid. destruct fault; injection E as <- <-; by try rewrite lookup_insert_ne.
    + destruct fault; injection E as <- <-; cbn; try done. split; [done|]. split; [done|]. split; [right; by eexists|].
      rewrite <- Hl1, (visible_whole _ _ _ E1 Hn1), <- Hl, (visible_whole _ _ _ En Hn). cbn. by rewrite bind_app, foldl_app, bind_singleton.
Qed.

(** ** Reads keep clean files clean *)

Definition calm (files files' : ArtifactFiles) : Prop :=
  (forall id head, visible files' id head = visible files id head) /\ (forall id head, clean files id head -> clean files' id head).

Lemma calm_refl files : calm files files.
Proof. done. Qed.

Lemma replay_calm fault id files : calm files (replay_artifact fault id files).2.
Proof.
  destruct (replay_artifact fault id files) as [r files'] eqn:E. destruct (replay_artifact_spec _ _ _ _ _ E) as (Hv & Ho & _). cbn [snd]. split; [done|].
  intros id' head Hc. destruct (decide (id' = id)) as [->|Hne]; [|unfold clean; by rewrite (Ho _ Hne)].
  unfold replay_artifact in E. destruct Hc as [[-> En]|(fs & En & Hn & Hl)]; rewrite En in E; [injection E as <- <-; by left|].
  cbn in E. rewrite Hn in E. cbn in E. injection E as <- <-. right. exists fs. by rewrite lookup_insert_eq.
Qed.

Lemma load_calm fault task_id id head files : calm files (load_artifact fault task_id id head files).2.
Proof.
  unfold load_artifact. destruct (artifact_path task_id id); [|apply calm_refl]. pose proof (replay_calm fault id files) as H.
  by destruct (replay_artifact fault id files).
Qed.

Lemma noops_calm `{!Json} fault task_id id head ops files : calm files (remove_semantic_noops fault task_id id head ops files).2.
Proof.
  unfold remove_semantic_noops, latest_details. destruct (negb _); [apply calm_refl|]. case_bool_decide; [apply calm_refl|].
  destruct (artifact_path task_id id); [|apply calm_refl]. pose proof (replay_calm fault id files) as Hcalm. by destruct (replay_artifact fault id files).
Qed.

(** A load gives what is visible. *)
Lemma artifact_load_spec fault task_id id head files r files' : 0 <= head -> artifact_path task_id id = Ok tt ->
  load_artifact fault task_id id head files = (r, files') ->
  (forall id' h, visible files' id' h = visible files id' h) /\ (forall id', id' <> id -> files' !! id' = files !! id') /\
  match r with
  | Ok a => visible files id head = Some (ta_contents a) /\ ta_revision a = head
  | Err _ => fault = WriteOk -> visible files id head = None
  end.
Proof.
  intros Hh Hp. unfold load_artifact. rewrite Hp. destruct (replay_artifact fault id files) as [r1 files1] eqn:E. intros H. injection H as <- <-.
  destruct (replay_artifact_spec _ _ _ _ _ E) as (Hv & Ho & Hr). split; [done|]. split; [done|].
  destruct r1 as [fs|e]; cbn [map_error result_bind].
  - destruct Hr as [Ef Hn]. rewrite <- Hv. unfold visible. rewrite Ef, Hn. case_bool_decide; cbn.
    + intros _. rewrite bool_decide_eq_false_2 by lia. done.
    + rewrite bool_decide_eq_true_2 by lia. done.
  - intros ->. unfold replay_artifact in E. unfold visible. destruct (files !! id) as [[n|fs tail]|]; try done.
    cbn in E. destruct (numbered af_sequence 1 fs); cbn in E; [|done]. case_bool_decide; injection E; done.
Qed.

(** ** Replacements that change nothing *)

Lemma details_after v ops : ap_details (foldl load_operation v ops) = match last (omap details_of ops) with Some d => Some d | None => ap_details v end.
Proof.
  induction ops as [|op ops IH] using rev_ind; [done|]. rewrite foldl_app, omap_app. cbn.
  destruct op as [d|t data]; cbn; [by rewrite last_snoc|]. rewrite app_nil_r, <- IH. by destruct (ap_terminal_outputs _ !! t).
Qed.

Lemma latest_spec fault task_id id head files r files' : 0 <= head ->
  latest_details fault task_id id head files = (r, files') ->
  (forall id' h, visible files' id' h = visible files id' h) /\ (forall id', id' <> id -> files' !! id' = files !! id') /\
  match r with Ok d => d = if bool_decide (head = 0) then None else visible files id head ≫= ap_details | Err _ => True end.
Proof.
  intros Hh. unfold latest_details. case_bool_decide as H0; [by intros [= <- <-]|].
  destruct (artifact_path task_id id) as [[]|e]; [|by intros [= <- <-]].
  destruct (replay_artifact fault id files) as [r1 files1] eqn:E. intros H. injection H as <- <-.
  destruct (replay_artifact_spec _ _ _ _ _ E) as (Hv & Ho & Hr). split; [done|]. split; [done|].
  destruct r1 as [fs|e]; cbn [map_error result_bind]; [|done]. case_bool_decide; [done|]. destruct Hr as [Ef Hn].
  rewrite <- Hv. unfold visible. rewrite Ef, Hn, bool_decide_eq_true_2 by lia. cbn. rewrite details_after.
  set (l := take _ fs). assert (reverse l ≫= (fun f => reverse (af_operations f)) = reverse (l ≫= af_operations)) as ->.
  { induction l as [|f l IH]; [done|]. rewrite reverse_cons, bind_app, IH, bind_singleton, bind_cons, reverse_app. done. }
  assert (forall k, hd_error (omap details_of (reverse k)) = last (omap details_of k)) as ->; [|by destruct (last _)].
  intros k. induction k as [|op k IH] using rev_ind; [done|]. rewrite reverse_snoc, omap_app. destruct op; cbn [omap list_omap details_of].
  - cbn. by rewrite last_snoc.
  - rewrite app_nil_r. exact IH.
Qed.

Section Noops.
Context `{J : !Json}.
(** The serialization of details tells them apart. *)
Hypothesis details_vec_inj : forall d d' v, details_vec d = Some v -> details_vec d' = Some v -> d = d'.

Lemma drop_unchanged_exact current ops ops' c : current = ap_details c ≫= details_vec -> drop_unchanged current ops = Ok ops' ->
  foldl load_operation c ops' = foldl load_operation c ops.
Proof.
  revert current ops' c. induction ops as [|op ops IH]; intros current ops' c Hc; cbn; [by intros [= <-]|].
  destruct op as [d|t data].
  - destruct (details_vec d) as [v|] eqn:Ev; cbn; [|done]. case_bool_decide as Hs.
    + intros H. rewrite (IH _ _ c Hc H). f_equal. rewrite Hc in Hs. destruct c as [[d'|] order outputs]; cbn in *; [|done].
      by rewrite (details_vec_inj _ _ _ Hs Ev).
    + destruct (drop_unchanged (Some v) ops) as [rest|e] eqn:E; cbn; [|done]. intros [= <-]. cbn. apply (IH (Some v)); [by cbn; rewrite Ev|done].
  - destruct (drop_unchanged current ops) as [rest|e] eqn:E; cbn; [|done]. intros [= <-]. cbn [foldl]. apply (IH current); [|done].
    rewrite Hc. cbn. by destruct (ap_terminal_outputs c !! t).
Qed.

(** What is left of the operations of a batch has the same effect. *)
Lemma noops_spec fault task_id id head ops files r files' : 0 <= head ->
  (0 < head -> is_Some (visible files id head)) ->
  remove_semantic_noops fault task_id id head ops files = (r, files') ->
  (forall id' h, visible files' id' h = visible files id' h) /\ (forall id', id' <> id -> files' !! id' = files !! id') /\
  match r with
  | Ok ops' => let c := if bool_decide (head = 0) then empty_artifact else default empty_artifact (visible files id head) in
               foldl load_operation c ops' = foldl load_operation c ops
  | Err _ => True
  end.
Proof.
  intros Hh Hs. unfold remove_semantic_noops. destruct (existsb replaces_details ops); cbn [negb]; [|by intros [= <- <-]].
  destruct (latest_details fault task_id id head files) as [r1 files1] eqn:E. intros H. injection H as <- <-.
  destruct (latest_spec _ _ _ _ _ _ _ Hh E) as (Hv & Ho & Hr). split; [done|]. split; [done|].
  destruct r1 as [latest|e]; cbn [result_bind]; [|done].
  set (c := if bool_decide (head = 0) then _ else _). assert (latest = ap_details c) as ->.
  { rewrite Hr. unfold c. case_bool_decide; [done|]. destruct Hs as [x ->]; [lia|]. done. }
  destruct (ap_details c) as [d|] eqn:Ed; cbn [result_bind].
  - destruct (details_vec d) as [v|] eqn:Ev; cbn; [|done]. destruct (drop_unchanged (Some v) ops) eqn:E2; [|done].
    apply (drop_unchanged_exact (Some v)); [by rewrite Ed; cbn|done].
  - destruct (drop_unchanged None ops) eqn:E2; [|done]. apply (drop_unchanged_exact None); [by rewrite Ed|done].
Qed.
End Noops.

(** ** Compaction is invisible *)

Definition with_details (d : option ActivityToolDetails) (c : ArtifactContents) : ArtifactContents :=
  mkArtifact d (ap_terminal_order c) (ap_terminal_outputs c).

Lemma load_other_details d c ops : existsb replaces_details ops = true ->
  foldl load_operation (with_details d c) ops = foldl load_operation c ops.
Proof.
  revert c. induction ops as [|op ops IH]; intros c; [done|]. cbn [existsb foldl]. destruct op as [d'|t data]; [done|]. cbn [replaces_details orb].
  intros H. rewrite <- (IH (load_operation c (AppendTerminal t data)) H). f_equal. cbn. by destruct (ap_terminal_outputs c !! t).
Qed.

Definition replacements (ops : list ArtifactOperation) : nat := length (filter (fun op => replaces_details op = true) ops).

Lemma replacements_cons op ops : replacements (op :: ops) = ((if replaces_details op then 1 else 0) + replacements ops)%nat.
Proof. unfold replacements. rewrite filter_cons. by destruct (replaces_details op). Qed.

Lemma replacements_none ops : replacements ops = O <-> existsb replaces_details ops = false.
Proof.
  induction ops as [|op ops IH]; [done|]. rewrite replacements_cons. cbn. destruct (replaces_details op); cbn; [done|]. done.
Qed.

Lemma retain_none count index ops : replacements ops = O -> (retain_last count index ops) = (ops, index).
Proof.
  revert index. induction ops as [|op ops IH]; intros index; [done|]. rewrite replacements_cons. cbn.
  destruct (replaces_details op); [done|]. intros H. by rewrite IH.
Qed.

Lemma retain_exact index ops c :
  foldl load_operation c (retain_last (index + replacements ops) index ops).1 = foldl load_operation c ops.
Proof.
  revert index c. induction ops as [|op ops IH]; intros index c; [done|]. rewrite replacements_cons. cbn [retain_last].
  destruct (replaces_details op) eqn:Er.
  - replace (index + (1 + replacements ops))%nat with (S index + replacements ops)%nat by lia.
    specialize (IH (S index)). destruct (retain_last _ (S index) ops) as [rest last] eqn:E. cbn [fst] in IH.
    case_bool_decide as Hn; cbn [fst foldl]; [by rewrite IH|]. rewrite IH. destruct op as [d|]; [|done].
    symmetry. apply (load_other_details (Some d) c). destruct (existsb replaces_details ops) eqn:Eb; [done|]. apply replacements_none in Eb. lia.
  - cbn [plus]. specialize (IH index). destruct (retain_last _ index ops) as [rest last]. cbn [fst foldl] in *. by rewrite IH.
Qed.

Lemma retain_app count index ops ops' :
  retain_last count index (ops ++ ops') =
  let '(l, i) := retain_last count index ops in let '(l', i') := retain_last count i ops' in (l ++ l', i').
Proof.
  revert index. induction ops as [|op ops IH]; intros index; cbn [retain_last app]; [by destruct (retain_last count index ops')|].
  destruct (replaces_details op); rewrite IH; destruct (retain_last count _ ops) as [l i]; destruct (retain_last count i ops') as [l' i'];
    [|done]. by case_bool_decide.
Qed.

Lemma retain_frames_flat count index fs : retain_frames count index fs ≫= af_operations = (retain_last count index (fs ≫= af_operations)).1.
Proof.
  revert index. induction fs as [|f fs IH]; intros index; [done|]. cbn [retain_frames]. rewrite bind_cons, retain_app.
  destruct (retain_last count index (af_operations f)) as [l i]. rewrite bind_cons, IH. by destruct (retain_last count i _).
Qed.

Lemma retain_frames_shape count index fs k : length (retain_frames count index fs) = length fs /\
  numbered af_sequence k (retain_frames count index fs) = numbered af_sequence k fs.
Proof.
  revert index k. induction fs as [|f fs IH]; intros index k; [done|]. cbn. destruct (retain_last count index (af_operations f)) as [l i]. cbn.
  destruct (IH i (k + 1)) as [-> ->]. done.
Qed.

Lemma compact_one_spec trim replace task_id id head mode files r files' : 0 <= head ->
  compact_one trim replace task_id id head mode files = (r, files') ->
  visible files' id head = visible files id head /\ (forall id', id' <> id -> files' !! id' = files !! id') /\
  (clean files id head -> clean files' id head).
Proof.
  intros Hh. unfold compact_one. destruct (_ || _); [by intros [= <- <-]|]. destruct (artifact_path task_id id) as [[]|e]; [|by intros [= <- <-]].
  destruct (replay_artifact trim id files) as [r1 files1] eqn:E. destruct (replay_artifact_spec _ _ _ _ _ E) as (Hv & Ho & Hr).
  pose proof (replay_calm trim id files) as [_ Hc0]. rewrite E in Hc0. specialize (Hc0 id head). cbn [snd] in Hc0.
  destruct r1 as [fs|e]; [|by intros [= <- <-]]. destruct Hr as [Ef Hn]. case_bool_decide as Hl; [by intros [= <- <-]|].
  destruct (compaction_pays _ _ _ _); [|by intros [= <- <-]].
  set (committed := take (Z.to_nat head) fs). set (frames := retain_frames (replacement_count committed) 0 committed).
  destruct (retain_frames_shape (replacement_count committed) 0 committed 1) as [Hlen Hnum]. fold frames in Hlen, Hnum.
  assert (Z.of_nat (length frames) = head) as Hlen' by (rewrite Hlen; unfold committed; rewrite length_take; lia).
  rewrite (numbered_take 1 (Z.to_nat head) fs Hn : numbered _ 1 committed = true) in Hnum. set (files2 := <[id := JFrames frames 0]> files1).
  assert (files2 !! id = Some (JFrames frames 0)) as E2 by apply lookup_insert_eq.
  assert (visible files2 id head = visible files id head) as Hv2.
  { rewrite <- Hlen' at 1. rewrite (visible_whole _ _ _ E2 Hnum), <- Hv. unfold visible. rewrite Ef, Hn, bool_decide_eq_true_2 by lia. cbn.
    fold committed. unfold frames. rewrite retain_frames_flat. f_equal. exact (retain_exact 0 (committed ≫= af_operations) empty_artifact). }
  assert (forall id', id' <> id -> files2 !! id' = files !! id') as Ho2 by (intros id' H; rewrite <- Ho by done; by apply lookup_insert_ne).
  destruct replace; intros [= <- <-]; try done; (do 2 (split; [done|])); intros _; right; by exists frames.
Qed.

(** The entries of a map in order. *)
Lemma elem_of_by_id {A} (m : gmap string A) id x : (id, x) ∈ by_id m <-> m !! id = Some x.
Proof. unfold by_id. rewrite merge_sort_Permutation. apply elem_of_map_to_list. Qed.
Lemma NoDup_by_id {A} (m : gmap string A) : NoDup (by_id m).*1.
Proof. unfold by_id. rewrite merge_sort_Permutation. apply NoDup_fst_map_to_list. Qed.

Lemma compact_loop_spec faults task_id mode artifacts files r files' :
  Forall (fun e => 0 <= e.2) artifacts -> compact_loop faults task_id mode artifacts files = (r, files') ->
  (forall id head, ((id, head) ∈ artifacts /\ NoDup artifacts.*1) \/ id ∉ artifacts.*1 -> visible files' id head = visible files id head) /\
  (forall id head, ((id, head) ∈ artifacts /\ NoDup artifacts.*1) \/ id ∉ artifacts.*1 -> clean files id head -> clean files' id head).
Proof.
  revert files. induction artifacts as [|[id0 head0] artifacts IH]; intros files; cbn [compact_loop]; [by intros _ [= <- <-]|].
  rewrite Forall_cons. intros [H0 Hf]. destruct (faults id0) as [trim replace].
  destruct (compact_one trim replace task_id id0 head0 mode files) as [r1 files1] eqn:E.
  destruct (compact_one_spec _ _ _ _ _ _ _ _ _ H0 E) as (Hv & Ho & Hc).
  assert (forall id head, (id = id0 -> head = head0) -> visible files1 id head = visible files id head /\ (clean files id head -> clean files1 id head)) as Hone.
  { intros id head Hid. destruct (decide (id = id0)) as [->|Hne]; [by rewrite (Hid eq_refl)|]. split; [apply visible_lookup; by apply Ho|].
    unfold clean. by rewrite (Ho _ Hne). }
  assert (forall id head, ((id, head) ∈ (id0, head0) :: artifacts /\ NoDup ((id0, head0) :: artifacts).*1) \/ id ∉ ((id0, head0) :: artifacts).*1 ->
    (id = id0 -> head = head0) /\ (((id, head) ∈ artifacts /\ NoDup artifacts.*1) \/ id ∉ artifacts.*1)) as Hcase.
  { intros id head. rewrite fmap_cons, NoDup_cons. cbn. intros [[[[= -> ->]|Hin]%elem_of_cons [Hni Hnd]]|Hni%not_elem_of_cons].
    - by split; [|right].
    - split; [|by left]. intros ->. exfalso. apply Hni. apply list_elem_of_fmap. by exists (id0, head).
    - split; [naive_solver|naive_solver]. }
  destruct r1 as [x|e].
  - intros H. destruct (IH _ Hf H) as [IH1 IH2].
    split; intros id head [Hid Hrest]%Hcase; destruct (Hone id head Hid) as [A B]; [by rewrite IH1, A|eauto].
  - intros [= <- <-]. split; intros id head [Hid _]%Hcase; by apply Hone.
Qed.

Lemma compact_artifacts_spec faults task_id heads written mode files r files' :
  (forall id head, heads !! id = Some head -> 0 <= head) -> compact_artifacts faults task_id heads written mode files = (r, files') ->
  forall id head, head = default 0 (heads !! id) ->
    (0 < head -> visible files' id head = visible files id head) /\ (clean files id head -> clean files' id head).
Proof.
  intros Hh. unfold compact_artifacts. set (l := filter _ (by_id heads)). intros H id head Hd.
  assert (l ⊆ by_id heads) as Hsub by (intros x Hx; by apply list_elem_of_filter in Hx as [_ Hx]).
  assert (NoDup l.*1) as Hnd.
  { apply NoDup_fmap_fst; [|apply NoDup_filter, (NoDup_fmap_1 fst), NoDup_by_id].
    intros i x y Hx%Hsub%elem_of_by_id Hy%Hsub%elem_of_by_id. congruence. }
  destruct (compact_loop_spec _ _ _ _ _ _ _ ltac:(apply Forall_forall; intros [i h] Hi%Hsub%elem_of_by_id; by apply (Hh i)) H) as [Hv Hc].
  assert (((id, head) ∈ l /\ NoDup l.*1) \/ id ∉ l.*1) as Hcase; [|split; [intros _; by apply Hv|by apply Hc]].
  destruct (decide (id ∈ l.*1)) as [Hin|]; [|by right]. left. split; [|done].
  apply list_elem_of_fmap in Hin as ([i h] & -> & Hi). cbn in *. pose proof (proj1 (elem_of_by_id heads i h) (Hsub _ Hi)) as E. rewrite E in Hd.
  cbn in Hd. by subst head.
Qed.
End Files.
End Artifacts.
