(* ===== verification/TaskStore.v ===== *)
(** * The Task store

    Models [openaide-rs/app-server/src/storage/task_journal/store.rs],
    [store/{recovery,reads,maintenance}.rs]: what the storage worker does with a
    batch of one Task, and how a Task is opened, loaded and read.

    The state is what one Task has on the disk (its files, the files of its Tool
    details and images, its status byte) and in memory (its entries of the
    catalog, of the projections and of the reconciled heads).  Everything that is
    not decided by the store is in [Outside]: the fault of every write, the
    clock, fresh names, the bytes of other histories, and what a journal of an
    old release holds.  The worker commits one batch at a time and readers hold
    the locks of the entries, so operations are atomic; a crash is a fault after
    which memory is lost.

    Shows that a batch is atomic over all files that it writes, and that a start
    and a load after it give exactly what was committed. *)

From stdpp Require Import pretty sorting.
From S2P Require Import Prelude Chat Records Journal ChatImages TaskFiles ToolArtifacts.
Local Open Scope Z_scope.

(** What becomes of a commit: a panic stops the worker. *)
Inductive CommitOutcome (A : Type) :=
| Done (x : A)
| Failed (e : RuntimeError)
| Panicked.
Arguments Done {A}.
Arguments Failed {A}.
Arguments Panicked {A}.

Section Store.
Context `{CP : ChatPayloads} `{IC : !ImageCodecs} `{J : !Json} `{SC : !SplitCodecs} `{AB : !ArtifactBytes}.

Abbreviation ArtifactFiles := (gmap string (JournalFile ArtifactFrame)).

(** ** State *)

Record TaskDisk := mkDisk {
  dk_files : TaskDirectory; dk_artifacts : ArtifactFiles; dk_images : ImageFiles; dk_status : StatusFile }.

Record TaskMemory := mkMemory {
  me_catalog : option TaskRecord; me_overlay : option TaskRecord; me_projection : option RecoveredTask;
  me_heads : gmap string Z; me_written : option (gset string) }.

Record TaskStore := mkStore { ts_disk : TaskDisk; ts_memory : TaskMemory }.

Definition set_files (d : TaskDirectory) (s : TaskStore) : TaskStore :=
  mkStore (mkDisk d (dk_artifacts (ts_disk s)) (dk_images (ts_disk s)) (dk_status (ts_disk s))) (ts_memory s).
Definition set_artifacts (a : ArtifactFiles) (s : TaskStore) : TaskStore :=
  mkStore (mkDisk (dk_files (ts_disk s)) a (dk_images (ts_disk s)) (dk_status (ts_disk s))) (ts_memory s).
Definition set_images (i : ImageFiles) (s : TaskStore) : TaskStore :=
  mkStore (mkDisk (dk_files (ts_disk s)) (dk_artifacts (ts_disk s)) i (dk_status (ts_disk s))) (ts_memory s).
Definition set_status (st : StatusFile) (s : TaskStore) : TaskStore :=
  mkStore (mkDisk (dk_files (ts_disk s)) (dk_artifacts (ts_disk s)) (dk_images (ts_disk s)) st) (ts_memory s).
Definition set_projection (t : option RecoveredTask) (s : TaskStore) : TaskStore :=
  let m := ts_memory s in mkStore (ts_disk s) (mkMemory (me_catalog m) (me_overlay m) t (me_heads m) (me_written m)).
Definition set_catalog (t : option TaskRecord) (s : TaskStore) : TaskStore :=
  let m := ts_memory s in mkStore (ts_disk s) (mkMemory t (me_overlay m) (me_projection m) (me_heads m) (me_written m)).
Definition set_heads (h : gmap string Z) (s : TaskStore) : TaskStore :=
  let m := ts_memory s in mkStore (ts_disk s) (mkMemory (me_catalog m) (me_overlay m) (me_projection m) h (me_written m)).
Definition set_written (w : option (gset string)) (s : TaskStore) : TaskStore :=
  let m := ts_memory s in mkStore (ts_disk s) (mkMemory (me_catalog m) (me_overlay m) (me_projection m) (me_heads m) w).

(** [o_images] tells how many images are stored before a write of them fails. *)
Record Outside := mkOutside {
  o_now : Z; o_generation : string; o_snapshot_bytes : Z;
  o_histories : result (list (string * option Bytes)) RuntimeError; o_swept : nat;
  o_same : TaskProjection -> TaskProjection -> bool;
  o_legacy : result (option (string * RecoveredTask)) RuntimeError;
  o_legacy_catalog : result (option TaskRecord) RuntimeError;
  o_legacy_compaction : result bool RuntimeError;
  o_status : WriteFault; o_quarantine : WriteFault; o_images : option (nat * RuntimeError);
  o_load : LoadFaults; o_migrate : WriteFault * WriteFault; o_cleanup : option RuntimeError;
  o_noops : string -> WriteFault; o_reconcile : string -> WriteFault * WriteFault; o_prepare : string -> WriteFault;
  o_read : WriteFault; o_commit : WriteFault * WriteFault; o_compact : CompactFaults;
  o_compact_artifacts : string -> WriteFault * WriteFault;
}.

(** ** Failures *)

(** [freeze_task]. *)
Definition freeze_message (e : RuntimeError) : string :=
  "Task storage is frozen after a durability failure: " +:+ error_to_string e.

(** [quarantine_or_abort] and [freeze_shared_task]. *)
Definition freeze {A} (o : Outside) (e : RuntimeError) (s : TaskStore) : CommitOutcome A * TaskStore :=
  match quarantine (o_quarantine o) (dk_status (ts_disk s)) with
  | (Ok _, st) => (Failed (Storage (freeze_message e)), set_projection (Some (Unavailable (freeze_message e))) (set_status st s))
  | (Err _, st) => (Panicked, set_status st s)
  end.

Definition require_available (t : option RecoveredTask) (task_id : string) : result unit RuntimeError :=
  match t with
  | Some (Available _ _) => Ok tt
  | Some (Unavailable error) => Err (Storage error)
  | None => Err (TaskNotFound task_id)
  end.

(** ** Loading *)

(** [refresh_catalog_cache]: the cache of an old journal, when there is one. *)
Definition refresh_catalog_cache (d : TaskDirectory) : TaskDirectory :=
  if td_legacy_journal d then mkTaskDirectory (td_task d) (td_snapshots d) (td_journals d) true true else d.

(** [split::compact] with the sweep of images that ends it. *)
Definition compact_files (o : Outside) (p : TaskProjection) (sequence : Z) (s : TaskStore) : result unit RuntimeError * TaskStore :=
  match compact (o_compact o) (o_generation o) p sequence (dk_files (ts_disk s)) with
  | (Err e, d) => (Err e, set_files d s)
  | (Ok _, d) => (Ok tt, set_images (sweep_unreferenced (o_now o) (o_histories o) (o_swept o) p (dk_images (ts_disk s))) (set_files d s))
  end.

Definition migrate_inline_images (o : Outside) (p : TaskProjection) (sequence : Z) (s : TaskStore)
  : result TaskProjection RuntimeError * TaskStore :=
  match migrate_projection (o_now o) p (dk_images (ts_disk s)) with
  | (Err e, images) => (Err e, set_images images s)
  | (Ok (false, _), images) => (Ok p, set_images images s)
  | (Ok (true, migrated), images) =>
      match compact_files o migrated sequence (set_images images s) with
      | (Err e, s) => (Err e, s)
      | (Ok _, s) => (Ok migrated, s)
      end
  end.

(** [load_projection], or the journal of an old release and its migration. *)
Definition recover_task (o : Outside) (s : TaskStore) : result (option (string * RecoveredTask)) RuntimeError * TaskStore :=
  match load_projection (o_load o) (dk_files (ts_disk s)) with
  | (Err e, d) => (Err e, set_files d s)
  | (Ok (Some (p, sequence)), d) => (Ok (Some (tr_task_id (pj_task p), Available p sequence)), set_files d s)
  | (Ok None, d) =>
      let s := set_files d s in
      match o_legacy o with
      | Ok (Some (replayed_id, Available p sequence)) =>
          match migrate (o_same o) (o_migrate o).1 (o_migrate o).2 (o_load o) (o_cleanup o) p sequence d with
          | (Err e, d) => (Err e, set_files d s)
          | (Ok _, d) => (Ok (Some (replayed_id, Available p sequence)), set_files d s)
          end
      | r => (r, s)
      end
  end.

(** What follows the images of [ensure_task_loaded].  A replayed id that is not
    the id of the directory is the entry of another Task. *)
Definition install_task (task_id replayed_id : string) (t : RecoveredTask) (s : TaskStore) : TaskStore :=
  let overlay := me_overlay (ts_memory s) in
  let t := match t, overlay with Available p n, Some task => Available (set_task task p) n | t, _ => t end in
  let s :=
    match t with
    | Available p _ =>
        let d := dk_files (ts_disk s) in
        let s := if negb (is_some overlay) && negb (task_files_exist d) then set_files (refresh_catalog_cache d) s else s in
        if bool_decide (replayed_id = task_id) then set_catalog (Some (pj_task p)) s else s
    | Unavailable _ => s
    end in
  if bool_decide (replayed_id = task_id) then set_projection (Some t) s else s.

Definition ensure_task_loaded (o : Outside) (task_id : string) (s : TaskStore) : result bool RuntimeError * TaskStore :=
  if is_some (me_projection (ts_memory s)) then (Ok true, s)
  else if negb (is_some (me_catalog (ts_memory s))) then (Ok false, s)
  else
    match recover_task o s with
    | (Err e, s) => (Err e, s)
    | (Ok None, s) => (Ok false, s)
    | (Ok (Some (replayed_id, Available p sequence)), s) =>
        match migrate_inline_images o p sequence s with
        | (Err e, s) => (Err e, s)
        | (Ok p, s) => (Ok true, install_task task_id replayed_id (Available p sequence) s)
        end
    | (Ok (Some (replayed_id, t)), s) => (Ok true, install_task task_id replayed_id t s)
    end.

(** One directory of [open_catalog], and the overlay that [open_with_faults]
    keeps_shown of its record.  Nothing of the memory of an earlier process is left. *)
Definition open_task (o : Outside) (task_id : string) (disk : TaskDisk) : result TaskStore RuntimeError :=
  let empty := mkMemory None None None ∅ None in
  let unavailable error disk := Ok (mkStore disk (mkMemory None None (Some (Unavailable error)) ∅ None)) in
  let listed disk t :=
    let '(changed, t) := clear_process_local_agent_state t in
    Ok (mkStore disk (mkMemory (Some t) (if changed then Some t else None) None ∅ None)) in
  check? validate_task_id task_id in
  if is_quarantined (dk_status disk) then unavailable "Task storage is quarantined after a durability failure"%string disk
  else
    let '(r, status) := ensure_status (o_status o) (dk_status disk) in
    check? r in
    let '(r, d) := load_catalog_task (o_load o) (dk_files disk) in
    let disk := mkDisk d (dk_artifacts disk) (dk_images disk) status in
    let legacy :=
      let from_journal :=
        let? replayed := o_legacy o in
        match replayed with
        | None => Ok (mkStore disk empty)
        | Some (_, Available p _) =>
            listed (mkDisk (refresh_catalog_cache d) (dk_artifacts disk) (dk_images disk) status) (pj_task p)
        | Some (_, Unavailable error) => unavailable error disk
        end in
      match o_legacy_catalog o with
      | Ok (Some t) => if bool_decide (tr_task_id t = task_id) then listed disk t else from_journal
      | _ => from_journal
      end in
    match r with
    | Ok (Some f) =>
        if bool_decide (tr_task_id (df_task f) = task_id)
        then listed (mkDisk (remove_legacy_files (o_cleanup o) d).2 (dk_artifacts disk) (dk_images disk) status) (df_task f)
        else unavailable "Split Task metadata identity does not match its directory"%string disk
    | Err e => if td_legacy_journal d then legacy else unavailable (error_to_string e) disk
    | Ok None => legacy
    end.

(** ** Reads *)

Definition load (o : Outside) (task_id : string) (s : TaskStore) : result TaskProjection RuntimeError * TaskStore :=
  match validate_task_id task_id with
  | Err e => (Err e, s)
  | Ok _ =>
      match ensure_task_loaded o task_id s with
      | (Err e, s) => (Err e, s)
      | (Ok _, s) =>
          (match me_projection (ts_memory s) with
           | Some (Available p _) => Ok p
           | Some (Unavailable error) => Err (Storage error)
           | None => Err (TaskNotFound task_id)
           end, s)
      end
  end.

(** The reconciliation at the first use of an artifact. *)
Definition reconcile_artifact (o : Outside) (task_id artifact_id : string) (committed_head : Z) (s : TaskStore)
  : result unit RuntimeError * TaskStore :=
  let heads := me_heads (ts_memory s) in
  match heads !! artifact_id with
  | Some _ => (Ok tt, s)
  | None =>
      let '(trim, truncate) := o_reconcile o artifact_id in
      let '(r, files) := reconcile_one trim truncate task_id artifact_id committed_head (dk_artifacts (ts_disk s)) in
      match r with
      | Ok head => (Ok tt, set_heads (<[artifact_id := head]> heads) (set_artifacts files s))
      | Err e => (Err e, set_artifacts files s)
      end
  end.

(** [load_tool_artifact], which holds the lock of the heads. *)
Definition load_tool_artifact (o : Outside) (task_id artifact_id : string) (s : TaskStore)
  : result ToolArtifactProjection RuntimeError * TaskStore :=
  match (check? validate_task_id task_id in validate_artifact_id artifact_id) with
  | Err e => (Err e, s)
  | Ok _ =>
      let '(r, s) := load o task_id s in
      match (let? p := r in
             ok_or (pj_artifact_heads p !! artifact_id) (Storage ("Tool artifact is not committed: " +:+ artifact_id))) with
      | Err e => (Err e, s)
      | Ok committed_head =>
          let '(r, s) := reconcile_artifact o task_id artifact_id committed_head s in
          match r with
          | Err e => (Err e, s)
          | Ok _ =>
              let '(r, files) := load_artifact (o_read o) task_id artifact_id committed_head (dk_artifacts (ts_disk s)) in
              (r, set_artifacts files s)
          end
      end
  end.

(** ** Maintenance *)

(** [publish_catalog]. *)
Definition publish_catalog (p : TaskProjection) (s : TaskStore) : TaskStore :=
  let d := dk_files (ts_disk s) in
  set_catalog (Some (pj_task p)) (if task_files_exist d then s else set_files (refresh_catalog_cache d) s).

(** [compact_loaded_task]; a journal of an old release has its own compaction. *)
Definition compact_loaded_task (o : Outside) (task_id : string) (t : RecoveredTask) (mode : CompactionMode) (s : TaskStore)
  : CommitOutcome unit * TaskStore :=
  match t with
  | Unavailable _ => (Failed (Storage "Task is unavailable"), s)
  | Available p sequence =>
      let physical : CommitOutcome (TaskProjection * Z) * TaskStore :=
        if task_files_exist (dk_files (ts_disk s)) then
          let '(should, s) :=
            match mode with
            | Force => (Ok true, s)
            | IfWorthwhile => let '(r, d) := compaction_is_worthwhile (o_snapshot_bytes o) (dk_files (ts_disk s)) in (r, set_files d s)
            | CompactNone => (Ok false, s)
            end in
          match should with
          | Err e => (Failed e, s)
          | Ok false => (Done (p, sequence), s)
          | Ok true =>
              match compact_files o p sequence s with
              | (Err e, s) => freeze o e s
              | (Ok _, s) => (Done (p, sequence), s)
              end
          end
        else
          match o_legacy_compaction o with
          | Err e => freeze o e s
          | Ok false => (Done (p, sequence), s)
          | Ok true => (Done (p, 1), publish_catalog p s)
          end in
      match physical with
      | (Failed e, s) => (Failed e, s)
      | (Panicked, s) => (Panicked, s)
      | (Done (p, sequence), s) =>
          let written := match mode with Force => None | _ => me_written (ts_memory s) end in
          match compact_artifacts (o_compact_artifacts o) task_id (pj_artifact_heads p) written mode (dk_artifacts (ts_disk s)) with
          | (Err e, files) => (Failed e, set_artifacts files s)
          | (Ok _, files) =>
              (Done tt, set_projection (Some (Available p sequence)) (set_written (Some ∅) (set_artifacts files s)))
          end
      end
  end.

(** ** The commit of a batch *)

Record CommittedTaskBatch := mkCommitted {
  cb_task_id : string; cb_journal_sequence : Z; cb_task_revision : Z; cb_task_snapshot_changed : bool;
  cb_chat_text_appends : list CommittedChatTextAppend; cb_streamed_text_write_count : nat;
  cb_replaced_artifact_ids : list string; cb_artifact_changes : list CommittedArtifactChange }.

Definition replaced_artifact_ids (batch : list TaskWrite) : list string :=
  let replaced := filter (fun w => replaces_details (aw_operation w) = true) (batch ≫= w_artifacts) in
  (by_id (list_to_map ((fun w => (aw_artifact_id w, tt)) <$> replaced) : gmap string unit)).*1.

Definition streamed_at (op : TaskOperation) : option string :=
  match op with AppendText _ _ _ at_ => at_ | _ => None end.
Definition streamed_text_write_count (batch : list TaskWrite) : nat := length (omap streamed_at (batch ≫= w_operations)).

Definition is_commit_artifact (op : TaskOperation) : bool := match op with CommitArtifact _ _ => true | _ => false end.

(** [externalize_operations] with its writes. *)
Definition externalize (o : Outside) (ops : list TaskOperation) (s : TaskStore) : result (list TaskOperation) RuntimeError * TaskStore :=
  match externalize_operations ops with
  | None => (Err (Storage "Stored Chat image is not valid base64"), s)
  | Some (ops, stored) =>
      match o_images o, stored with
      | Some (n, e), _ :: _ => (Err e, set_images (store_all (o_now o) (take n stored) (dk_images (ts_disk s))) s)
      | _, _ => (Ok ops, set_images (store_all (o_now o) stored (dk_images (ts_disk s))) s)
      end
  end.

(** Streamed text that updates the Task adds one version and revision. *)
Definition with_streamed_task (task_id : string) (current : option RecoveredTask) (ops : list TaskOperation)
  : result (list TaskOperation) RuntimeError :=
  match last (omap streamed_at ops) with
  | None => Ok ops
  | Some updated_at =>
      match current with
      | Some (Available p _) =>
          let t := pj_task p in
          let? version := ok_or (u64_checked_add (tr_task_version t) 1) (Storage "Task version overflow") in
          let? revision := ok_or (u64_checked_add (tr_revision t) 1) (Storage "Task revision overflow") in
          Ok (ReplaceTask (set_versions version revision updated_at t) :: ops)
      | Some (Unavailable error) => Err (Storage error)
      | None => Err (TaskNotFound task_id)
      end
  end.

(** An artifact of a batch: its committed head and the operations to append. *)
Abbreviation PlannedArtifact := (string * Z * list ArtifactOperation)%type.

Definition base_heads (task_id : string) (current : option RecoveredTask) (ops : list TaskOperation)
  : result (gmap string Z) RuntimeError :=
  match current with
  | Some (Available p _) => Ok (pj_artifact_heads p)
  | Some (Unavailable error) => Err (Storage error)
  | None => ok_or (head (omap (fun op => match op with Create p => Some (pj_artifact_heads p) | _ => None end) ops)) (TaskNotFound task_id)
  end.

(** The loop that plans the frames of Tool details. *)
Fixpoint plan_artifacts (o : Outside) (task_id : string) (heads : gmap string Z) (artifacts : list (string * list ArtifactOperation))
    (files : ArtifactFiles) : result (list PlannedArtifact) RuntimeError * ArtifactFiles :=
  match artifacts with
  | [] => (Ok [], files)
  | (id, ops) :: artifacts =>
      let committed_head := default 0 (heads !! id) in
      match validate_artifact_id id with
      | Err e => (Err e, files)
      | Ok _ =>
          let '(r, files) := remove_semantic_noops (o_noops o id) task_id id committed_head ops files in
          match r with
          | Err e => (Err e, files)
          | Ok [] => plan_artifacts o task_id heads artifacts files
          | Ok ops =>
              match u64_checked_add committed_head 1 with
              | None => (Err artifact_overflow, files)
              | Some _ =>
                  let '(rest, files) := plan_artifacts o task_id heads artifacts files in
                  (let? rest := rest in Ok ((id, committed_head, ops) :: rest), files)
              end
          end
      end
  end.
Definition commit_operations (planned : list PlannedArtifact) : list TaskOperation :=
  (fun '(id, committed_head, _) => CommitArtifact id (committed_head + 1)) <$> planned.

(** What is to be written, once nothing but a write can fail. *)
Record Plan := mkPlan {
  pl_operations : list TaskOperation; pl_sequence : Z; pl_next : TaskProjection;
  pl_artifacts : list PlannedArtifact; pl_appends : list CommittedChatTextAppend; pl_snapshot_changed : bool }.

Definition next_sequence (current : option RecoveredTask) : result Z RuntimeError :=
  match current with
  | Some (Available _ sequence) => ok_or (u64_checked_add sequence 1) (Storage "Task journal sequence overflow")
  | Some (Unavailable error) => Err (Storage error)
  | None => Ok 1
  end.

(** From the validation of the operations to the projection after them. *)
Definition plan_operations (o : Outside) (task_id : string) (current : option RecoveredTask) (ops : list TaskOperation)
    (planned : list PlannedArtifact) (snapshot_changed : bool) (s : TaskStore) : result Plan RuntimeError * TaskStore :=
  match (check? validate_operations current task_id ops in
         let? sequence := next_sequence current in
         check? validate_task_id task_id in Ok sequence) with
  | Err e => (Err e, s)
  | Ok sequence =>
      let '(r, status) := if bool_decide (sequence = 1) then ensure_status (o_status o) (dk_status (ts_disk s))
                          else (Ok tt, dk_status (ts_disk s)) in
      let s := set_status status s in
      match r with
      | Err e => (Err e, s)
      | Ok _ =>
          match externalize o ops s with
          | (Err e, s) => (Err e, s)
          | (Ok ops, s) =>
              (match apply_operations task_id ops sequence (tasks_of task_id current) with
               | (Err e, _) => Err e
               | (Ok _, state) =>
                   match state !! task_id with
                   | Some (Available p _) =>
                       let? appends := committed_chat_text_appends ops p in
                       Ok (mkPlan ops sequence p planned appends snapshot_changed)
                   | Some (Unavailable error) => Err (Storage error)
                   | None => Err (Internal "Task reducer must publish its target")
                   end
               end, s)
          end
      end
  end.

(** A batch that writes nothing: maintenance that it asks for, or an answer. *)
Definition maintain (o : Outside) (task_id : string) (batch : list TaskWrite) (current : option RecoveredTask) (s : TaskStore)
  : CommitOutcome (option Plan) * TaskStore :=
  match current with
  | None => (Failed (TaskNotFound task_id), s)
  | Some t => match compact_loaded_task o task_id t (requested_compaction batch) s with
              | (Done _, s) => (Done None, s)
              | (Failed e, s) => (Failed e, s)
              | (Panicked, s) => (Panicked, s)
              end
  end.
Definition answer (task_id : string) (current : option RecoveredTask) (s : TaskStore) : CommitOutcome (option Plan) * TaskStore :=
  match require_available current task_id with Ok _ => (Done None, s) | Err e => (Failed e, s) end.

(** The artifacts of a batch, then its operations with their heads. *)
Definition plan_writes (o : Outside) (task_id : string) (batch : list TaskWrite) (artifacts : gmap string (list ArtifactOperation))
    (current : option RecoveredTask) (ops : list TaskOperation) (s : TaskStore) : CommitOutcome (option Plan) * TaskStore :=
  let snapshot_changed := existsb (fun op => negb (is_commit_artifact op)) ops in
  let '(r, files) :=
    if bool_decide (artifacts = ∅) then (Ok [], dk_artifacts (ts_disk s))
    else match base_heads task_id current ops with
         | Err e => (Err e, dk_artifacts (ts_disk s))
         | Ok heads => plan_artifacts o task_id heads (by_id artifacts) (dk_artifacts (ts_disk s))
         end in
  let s := set_artifacts files s in
  match r with
  | Err e => (Failed e, s)
  | Ok planned =>
      let ops := ops ++ commit_operations planned in
      if bool_decide (ops = []) && bool_decide (planned = [])
      then if bool_decide (requested_compaction batch <> CompactNone) then maintain o task_id batch current s else answer task_id current s
      else
        match plan_operations o task_id current ops planned snapshot_changed s with
        | (Err e, s) => (Failed e, s)
        | (Ok plan, s) => (Done (Some plan), s)
        end
  end.

(** The steps before the first write of a frame; [None] when there is nothing to
    write. *)
Definition plan_batch (o : Outside) (task_id : string) (batch : list TaskWrite) (s : TaskStore)
  : CommitOutcome (option Plan) * TaskStore :=
  match reduce_batch batch with
  | None => (Panicked, s)
  | Some reduced =>
      match ensure_task_loaded o task_id s with
      | (Err e, s) => (Failed e, s)
      | (Ok _, s) =>
          let current := me_projection (ts_memory s) in
          match (if is_some current then externalize o (rb_task_operations reduced) s else (Ok (rb_task_operations reduced), s)) with
          | (Err e, s) => (Failed e, s)
          | (Ok ops, s) =>
              match remove_noops current ops with
              | Err e => (Failed e, s)
              | Ok ops =>
                  let no_artifacts := bool_decide (rb_artifacts reduced = ∅) in
                  if bool_decide (ops = []) && no_artifacts && bool_decide (requested_compaction batch = CompactNone)
                  then answer task_id current s
                  else
                    match with_streamed_task task_id current ops with
                    | Err e => (Failed e, s)
                    | Ok ops =>
                        if bool_decide (ops = []) && no_artifacts then maintain o task_id batch current s
                        else plan_writes o task_id batch (rb_artifacts reduced) current ops s
                    end
              end
          end
      end
  end.

(** One artifact of the loop that prepares them. *)
Definition append_artifact (o : Outside) (task_id id : string) (committed_head : Z) (ops : list ArtifactOperation) (s : TaskStore)
  : result CommittedArtifactChange RuntimeError * TaskStore :=
  let heads := me_heads (ts_memory s) in
  let '(r, files) := prepare_reconciled (o_prepare o id) task_id id committed_head (heads !! id) ops (dk_artifacts (ts_disk s)) in
  let s := set_artifacts files s in
  match r with
  | Err e => (Err e, s)
  | Ok change =>
      (Ok change, set_written (union {[id]} <$> me_written (ts_memory s)) (set_heads (<[id := ch_artifact_sequence change]> heads) s))
  end.
Definition prepare_artifact (o : Outside) (task_id : string) (planned : PlannedArtifact) (s : TaskStore)
  : result CommittedArtifactChange RuntimeError * TaskStore :=
  let '(id, committed_head, ops) := planned in
  match reconcile_artifact o task_id id committed_head s with
  | (Err e, s) => (Err e, s)
  | (Ok _, s) => append_artifact o task_id id committed_head ops s
  end.

Fixpoint prepare_artifacts (o : Outside) (task_id : string) (planned : list PlannedArtifact) (s : TaskStore)
  : result (list CommittedArtifactChange) RuntimeError * TaskStore :=
  match planned with
  | [] => (Ok [], s)
  | a :: planned =>
      match prepare_artifact o task_id a s with
      | (Err e, s) => (Err e, s)
      | (Ok change, s) =>
          let '(rest, s) := prepare_artifacts o task_id planned s in (let? rest := rest in Ok (change :: rest), s)
      end
  end.

(** The writes: Tool details first, then the frame that names them. *)
Definition commit_plan (o : Outside) (task_id : string) (batch : list TaskWrite) (plan : Plan) (s : TaskStore)
  : CommitOutcome CommittedTaskBatch * TaskStore :=
  match prepare_artifacts o task_id (pl_artifacts plan) s with
  | (Err e, s) => freeze o e s
  | (Ok changes, s) =>
      match persist_split_commit (o_commit o).1 (o_commit o).2 (pl_next plan) (pl_operations plan) (pl_sequence plan) (dk_files (ts_disk s)) with
      | (Err e, d) => freeze o e (set_files d s)
      | (Ok _, d) =>
          let s := publish_catalog (pl_next plan) (set_files d s) in
          (Done (mkCommitted task_id (pl_sequence plan) (tr_revision (pj_task (pl_next plan))) (pl_snapshot_changed plan) (pl_appends plan)
                   (streamed_text_write_count batch) (replaced_artifact_ids batch) changes),
           set_projection (Some (Available (pl_next plan) (pl_sequence plan))) s)
      end
  end.

Definition commit_batch (o : Outside) (task_id : string) (batch : list TaskWrite) (s : TaskStore)
  : CommitOutcome (option CommittedTaskBatch) * TaskStore :=
  match plan_batch o task_id batch s with
  | (Failed e, s) => (Failed e, s)
  | (Panicked, s) => (Panicked, s)
  | (Done None, s) => (Done None, s)
  | (Done (Some plan), s) =>
      match commit_plan o task_id batch plan s with
      | (Done c, s) => (Done (Some c), s)
      | (Failed e, s) => (Failed e, s)
      | (Panicked, s) => (Panicked, s)
      end
  end.

(** [current_commit]. *)
Definition current_commit (task_id : string) (s : TaskStore) : result CommittedTaskBatch RuntimeError :=
  match me_projection (ts_memory s) with
  | Some (Available p sequence) => Ok (mkCommitted task_id sequence (tr_revision (pj_task p)) false [] 0 [] [])
  | Some (Unavailable error) => Err (Storage error)
  | None => Err (TaskNotFound task_id)
  end.

(** What the worker answers to every write of the batch. *)
Definition receipt (task_id : string) (out : CommitOutcome (option CommittedTaskBatch)) (s : TaskStore)
  : option (result CommittedTaskBatch RuntimeError) :=
  match out with
  | Done (Some c) => Some (Ok c)
  | Done None => Some (match current_commit task_id s with Ok c => Ok c | Err e => Err (Storage (error_to_string e)) end)
  | Failed e => Some (Err (Storage (error_to_string e)))
  | Panicked => None
  end.

(** [tombstoned_task]: the directory is moved away before memory forgets it. *)
Definition purge_task (fault : WriteFault) (task_id : string) (s : TaskStore) : result unit RuntimeError * TaskStore :=
  let gone := mkDisk (mkTaskDirectory None ∅ ∅ false false) ∅ ∅ None in
  match me_catalog (ts_memory s) with
  | None => (Err (TaskNotFound task_id), s)
  | Some t =>
      if negb (tr_tombstoned t) then (Err (Conflict "Only a tombstoned Task can be physically purged"), s)
      else match fault with
           | WriteOk => (Ok tt, mkStore gone (mkMemory None None None ∅ None))
           | WriteLost e | WriteTorn _ e => (Err e, s)
           | WriteKept e => (Err e, mkStore gone (ts_memory s))
           end
  end.

(** ** What the files stand for *)

Context `{SL : !SplitLaws}.
(** The serialization of Tool details tells them apart. *)
Hypothesis details_vec_inj : forall d d' v, details_vec d = Some v -> details_vec d' = Some v -> d = d'.

(** The Task, if there is one, with the sequence of its last commit, and the
    contents of its Tool details. *)
Abbreviation TaskValue := (option (TaskProjection * Z)).

Definition heads_of (v : TaskValue) : gmap string Z := match v with Some (p, _) => pj_artifact_heads p | None => ∅ end.

Definition artifacts_stand (files : ArtifactFiles) (heads : gmap string Z) (c : gmap string ArtifactContents) : Prop :=
  forall id, match heads !! id with
             | Some head => 0 < head /\ exists x, c !! id = Some x /\ visible files id head = Some x
             | None => c !! id = None
             end.

Definition no_task (d : TaskDirectory) : Prop := td_task d = None /\ td_journals d !! CHAT_JOURNAL_FILE = None.

(** A start and a load after a crash give this value. *)
Definition disk_stands (d : TaskDisk) (v : TaskValue) (c : gmap string ArtifactContents) : Prop :=
  match v with Some (p, seq) => recoverable (dk_files d) p seq | None => no_task (dk_files d) end /\
  artifacts_stand (dk_artifacts d) (heads_of v) c.

Definition heads_clean (files : ArtifactFiles) (known heads : gmap string Z) : Prop :=
  forall id k, known !! id = Some k -> k = default 0 (heads !! id) /\ clean files id k.

(** A store that is at work with the value. *)
Record live (task_id : string) (s : TaskStore) (v : TaskValue) (c : gmap string ArtifactContents) : Prop := {
  lv_overlay : me_overlay (ts_memory s) = None;
  lv_projection : me_projection (ts_memory s) = (fun '(p, seq) => Available p seq) <$> v;
  lv_catalog : is_Some (me_catalog (ts_memory s)) <-> is_Some v;
  lv_status : is_Some v -> is_Some (dk_status (ts_disk s));
  lv_files : match v with
             | Some (p, seq) => tr_task_id (pj_task p) = task_id /\ holds (dk_files (ts_disk s)) p seq
             | None => no_task (dk_files (ts_disk s))
             end;
  lv_artifacts : artifacts_stand (dk_artifacts (ts_disk s)) (heads_of v) c;
  lv_heads : heads_clean (dk_artifacts (ts_disk s)) (me_heads (ts_memory s)) (heads_of v);
}.

Lemma live_disk task_id s v c : live task_id s v c -> disk_stands (ts_disk s) v c.
Proof. intros H. split; [|apply H]. destruct v as [[p seq]|]; [left; apply holds_torn|]; apply H. Qed.

(** *** Artifacts *)

Lemma stand_same files files' heads c : (forall id head, heads !! id = Some head -> visible files' id head = visible files id head) ->
  artifacts_stand files heads c -> artifacts_stand files' heads c.
Proof.
  intros Hv H id. specialize (H id). destruct (heads !! id) as [head|] eqn:E; [|done]. by rewrite (Hv _ _ E).
Qed.

Lemma stand_contents files heads c id : artifacts_stand files heads c ->
  default empty_artifact (c !! id) = if bool_decide (default 0 (heads !! id) = 0) then empty_artifact
                                     else default empty_artifact (visible files id (default 0 (heads !! id))).
Proof.
  intros H. specialize (H id). destruct (heads !! id) as [head|]; cbn.
  - destruct H as (Hp & x & -> & ->). by rewrite bool_decide_eq_false_2 by lia.
  - by rewrite H.
Qed.

Lemma stand_nonneg files heads c id : artifacts_stand files heads c -> 0 <= default 0 (heads !! id).
Proof. intros H. specialize (H id). destruct (heads !! id); cbn; [|done]. destruct H. lia. Qed.

(** Another file, with the frames of this id up to the head kept. *)
Lemma stand_touched files files' id head heads c :
  (forall h, 0 < h <= head -> visible files' id h = visible files id h) -> (forall id', id' <> id -> files' !! id' = files !! id') ->
  default 0 (heads !! id) <= head -> artifacts_stand files heads c -> artifacts_stand files' heads c.
Proof.
  intros Hv Ho Hh H. eapply stand_same; [|done]. intros id' h E. destruct (decide (id' = id)) as [->|Hne]; [|by apply visible_lookup, Ho].
  specialize (H id). rewrite E in Hh, H. cbn in Hh. apply Hv. destruct H. lia.
Qed.

Lemma heads_touched files files' id known heads : (forall id', id' <> id -> files' !! id' = files !! id') ->
  heads_clean files known heads -> known !! id = None -> heads_clean files' known heads.
Proof.
  intros Ho H Hn id' k E. destruct (H id' k E) as [-> Hc]. split; [done|]. unfold clean. rewrite Ho; [done|]. intros ->. congruence.
Qed.

(** *** Preparing the frames of Tool details *)

Definition same_task (s s' : TaskStore) : Prop :=
  dk_files (ts_disk s') = dk_files (ts_disk s) /\ dk_status (ts_disk s') = dk_status (ts_disk s) /\
  me_catalog (ts_memory s') = me_catalog (ts_memory s) /\ me_overlay (ts_memory s') = me_overlay (ts_memory s) /\
  me_projection (ts_memory s') = me_projection (ts_memory s).

Lemma same_task_refl s : same_task s s.
Proof. by repeat split. Qed.
#[local] Hint Resolve same_task_refl : core.

Lemma same_task_trans s1 s2 s3 : same_task s1 s2 -> same_task s2 s3 -> same_task s1 s3.
Proof. intros (?&?&?&?&?) (?&?&?&?&?). repeat split; congruence. Qed.

(** The files after a step show what they showed at heads up to this one. *)
Definition keeps_shown (id : string) (head : Z) (files files' : ArtifactFiles) : Prop :=
  forall heads c, default 0 (heads !! id) <= head -> artifacts_stand files heads c -> artifacts_stand files' heads c.

Lemma shown_refl id head files : keeps_shown id head files files.
Proof. by intros heads c _. Qed.
#[local] Hint Resolve shown_refl : core.

Lemma shown_trans id head f1 f2 f3 : keeps_shown id head f1 f2 -> keeps_shown id head f2 f3 -> keeps_shown id head f1 f3.
Proof. unfold keeps_shown. eauto. Qed.

(** After the reconciliation the head is known and the file is clean. *)
Lemma reconciled_step trim truncate task_id id head heads known files r files' : 0 <= head -> head = default 0 (heads !! id) ->
  heads_clean files known heads -> known !! id = None -> reconcile_one trim truncate task_id id head files = (r, files') ->
  keeps_shown id head files files' /\ heads_clean files' known heads /\
  match r with
  | Ok k => heads_clean files' (<[id := k]> known) heads
  | Err _ => True
  end.
Proof.
  intros Hh Hd Hc Hn E. destruct (reconcile_spec _ _ _ _ _ _ _ _ Hh E) as (Hv & Ho & Hr). split; [|split].
  - intros heads0 c0. apply stand_touched; [intros h Hx; apply Hv; lia|done].
  - by apply (heads_touched _ _ _ _ _ Ho).
  - destruct r as [k|e]; [|done]. destruct Hr as [-> Hr]. intros id' k'. destruct (decide (id' = id)) as [->|Hne].
    + rewrite lookup_insert_eq. by intros [= <-].
    + rewrite lookup_insert_ne by done. by apply (heads_touched _ _ _ _ _ Ho Hc Hn).
Qed.

Lemma prepared_step fault task_id id head ops heads c known files r files' : head = default 0 (heads !! id) ->
  artifacts_stand files heads c -> heads_clean files known heads -> known !! id = Some head ->
  prepare_reconciled fault task_id id head (known !! id) ops files = (r, files') ->
  keeps_shown id head files files' /\
  match r with
  | Ok change => ch_artifact_sequence change = head + 1 /\
      artifacts_stand files' (<[id := head + 1]> heads) (<[id := foldl load_operation (default empty_artifact (c !! id)) ops]> c) /\
      heads_clean files' (<[id := head + 1]> known) (<[id := head + 1]> heads)
  | Err _ => True
  end.
Proof.
  intros Hd Hs Hc Hk E. pose proof (stand_nonneg _ _ _ id Hs) as H0. rewrite <- Hd in H0. destruct (Hc _ _ Hk) as [_ Hcl].
  destruct (prepare_spec _ _ _ _ _ _ _ _ _ H0 Hcl E) as (Hv & Ho & Hr). split; [intros heads0 c0; by apply stand_touched|].
  destruct r as [change|e]; [|done]. destruct Hr as (_ & -> & Hc' & Hv'). split; [done|]. split.
  - intros id'. destruct (decide (id' = id)) as [->|Hne].
    + rewrite !lookup_insert_eq. split; [lia|]. eexists. split; [done|]. rewrite Hv'. do 2 f_equal.
      rewrite (stand_contents _ _ _ id Hs), <- Hd. case_bool_decide as Hz; [|done].
      destruct Hcl as [[_ En]|(fs & En & _ & Hl)]; unfold visible; rewrite En; [done|].
      destruct fs as [|f fs]; [|cbn in Hl; lia]. rewrite take_nil. cbn. by destruct (bool_decide _).
    + rewrite !lookup_insert_ne by done. specialize (Hs id'). destruct (heads !! id'); [|done]. rewrite (visible_lookup files files'); [done|by apply Ho].
  - intros id' k. destruct (decide (id' = id)) as [->|Hne].
    + rewrite !lookup_insert_eq. by intros [= <-].
    + rewrite !lookup_insert_ne by done. intros Ek. destruct (Hc _ _ Ek) as [-> Hx]. split; [done|]. unfold clean. by rewrite Ho.
Qed.

Lemma reconcile_artifact_spec o task_id id head heads s r s' : 0 <= head -> head = default 0 (heads !! id) ->
  heads_clean (dk_artifacts (ts_disk s)) (me_heads (ts_memory s)) heads -> reconcile_artifact o task_id id head s = (r, s') ->
  same_task s s' /\ keeps_shown id head (dk_artifacts (ts_disk s)) (dk_artifacts (ts_disk s')) /\
  (r = Ok tt -> is_Some (me_heads (ts_memory s') !! id)) /\
  heads_clean (dk_artifacts (ts_disk s')) (me_heads (ts_memory s')) heads.
Proof.
  intros H0 Hd Hc. unfold reconcile_artifact. destruct (me_heads (ts_memory s) !! id) as [k|] eqn:Ek.
  { intros [= <- <-]. split; [done|]. split; [done|]. split; [by rewrite Ek|done]. }
  destruct (o_reconcile o id) as [trim truncate]. destruct (reconcile_one _ _ _ _ _ _) as [r1 files1] eqn:E1.
  destruct (reconciled_step _ _ _ _ _ _ _ _ _ _ H0 Hd Hc Ek E1) as (Hk1 & Hc1 & Hr1).
  destruct r1 as [k|e]; intros [= <- <-]; (split; [by repeat split|]); (split; [done|]); (split; [|done]); [|done].
  intros _. cbn. rewrite lookup_insert_eq. done.
Qed.

Lemma prepare_artifact_spec o task_id id head ops s r s' heads c : head = default 0 (heads !! id) ->
  artifacts_stand (dk_artifacts (ts_disk s)) heads c -> heads_clean (dk_artifacts (ts_disk s)) (me_heads (ts_memory s)) heads ->
  prepare_artifact o task_id (id, head, ops) s = (r, s') ->
  same_task s s' /\ keeps_shown id head (dk_artifacts (ts_disk s)) (dk_artifacts (ts_disk s')) /\
  match r with
  | Ok _ => artifacts_stand (dk_artifacts (ts_disk s')) (<[id := head + 1]> heads)
              (<[id := foldl load_operation (default empty_artifact (c !! id)) ops]> c) /\
            heads_clean (dk_artifacts (ts_disk s')) (me_heads (ts_memory s')) (<[id := head + 1]> heads)
  | Err _ => True
  end.
Proof.
  intros Hd Hs Hc. pose proof (stand_nonneg _ _ _ id Hs) as H0. rewrite <- Hd in H0. unfold prepare_artifact.
  destruct (reconcile_artifact o task_id id head s) as [r1 s1] eqn:E1.
  destruct (reconcile_artifact_spec _ _ _ _ _ _ _ _ H0 Hd Hc E1) as (Hst & Hk & Hr & Hc1). destruct r1 as [[]|e]; [|by intros [= <- <-]].
  destruct (Hr eq_refl) as [k Ek]. pose proof Ek as Ek'. destruct (Hc1 _ _ Ek) as [-> _]. rewrite <- Hd in Ek'.
  assert (artifacts_stand (dk_artifacts (ts_disk s1)) heads c) as Hs1 by (apply Hk; [lia|done]).
  unfold append_artifact. destruct (prepare_reconciled _ _ _ _ _ _ _) as [r2 files2] eqn:E2.
  destruct (prepared_step _ _ _ _ _ _ _ _ _ _ _ Hd Hs1 Hc1 Ek' E2) as [Hk2 Hr2].
  destruct r2 as [change|e]; intros [= <- <-]; (split; [eapply same_task_trans; [done|by repeat split]|]); (split; [by eapply shown_trans|]); [|done].
  destruct Hr2 as (-> & H1 & H2). done.
Qed.

(** The heads and contents once the planned artifacts are named. *)
Definition planned_heads (planned : list PlannedArtifact) (heads : gmap string Z) : gmap string Z :=
  foldl (fun heads '(id, head, _) => <[id := head + 1]> heads) heads planned.
Definition planned_contents (planned : list PlannedArtifact) (c : gmap string ArtifactContents) : gmap string ArtifactContents :=
  foldl (fun c '(id, _, ops) => <[id := foldl load_operation (default empty_artifact (c !! id)) ops]> c) c planned.

Definition plan_matches (planned : list PlannedArtifact) (heads : gmap string Z) : Prop :=
  NoDup (fst <$> (fst <$> planned)) /\ Forall (fun a => a.1.2 = default 0 (heads !! a.1.1)) planned.

Lemma plan_matches_step id head ops planned heads : plan_matches ((id, head, ops) :: planned) heads ->
  head = default 0 (heads !! id) /\ plan_matches planned (<[id := head + 1]> heads) /\ (forall a, a ∈ planned -> a.1.1 <> id).
Proof.
  intros [Hnd Hf]. rewrite !fmap_cons, NoDup_cons in Hnd. cbn in Hnd. destruct Hnd as [Hni Hnd]. apply Forall_cons in Hf as [Hh Hf]. cbn in Hh.
  assert (forall a, a ∈ planned -> a.1.1 <> id) as Hne.
  { intros a Ha <-. apply Hni. by do 2 apply list_elem_of_fmap_2. }
  split; [done|]. split; [|done]. split; [done|]. apply Forall_forall. intros a Ha. rewrite lookup_insert_ne by (symmetry; by apply Hne).
  rewrite Forall_forall in Hf. by apply Hf.
Qed.

(** All artifacts of a batch: the value before it is still what the old heads
    show; when all are written the new heads show the new contents. *)
Lemma prepare_artifacts_spec o task_id planned s r s' heads c heads0 c0 : plan_matches planned heads ->
  artifacts_stand (dk_artifacts (ts_disk s)) heads c -> heads_clean (dk_artifacts (ts_disk s)) (me_heads (ts_memory s)) heads ->
  artifacts_stand (dk_artifacts (ts_disk s)) heads0 c0 -> (forall id, default 0 (heads0 !! id) <= default 0 (heads !! id)) ->
  prepare_artifacts o task_id planned s = (r, s') ->
  same_task s s' /\ artifacts_stand (dk_artifacts (ts_disk s')) heads0 c0 /\
  match r with
  | Ok _ => artifacts_stand (dk_artifacts (ts_disk s')) (planned_heads planned heads) (planned_contents planned c) /\
            heads_clean (dk_artifacts (ts_disk s')) (me_heads (ts_memory s')) (planned_heads planned heads)
  | Err _ => True
  end.
Proof.
  revert s r s' heads c. induction planned as [|[[id head] ops] planned IH]; intros s r s' heads c Hm Hs Hc H0 Hle; cbn [prepare_artifacts];
    [by intros [= <- <-]|].
  destruct (plan_matches_step _ _ _ _ _ Hm) as (Hd & Hm' & _). destruct (prepare_artifact _ _ _ _) as [r1 s1] eqn:E1.
  destruct (prepare_artifact_spec _ _ _ _ _ _ _ _ _ _ Hd Hs Hc E1) as (Hst & Hk & Hr1).
  assert (artifacts_stand (dk_artifacts (ts_disk s1)) heads0 c0) as H1 by (apply Hk; [rewrite Hd; apply Hle|done]).
  destruct r1 as [change|e]; [|by intros [= <- <-]]. destruct Hr1 as [Hs1 Hc1].
  destruct (prepare_artifacts o task_id planned s1) as [r2 s2] eqn:E2.
  assert (forall id', default 0 (heads0 !! id') <= default 0 (<[id := head + 1]> heads !! id')) as Hle1.
  { intros id'. specialize (Hle id'). destruct (decide (id' = id)) as [->|Hne]; [rewrite lookup_insert_eq; cbn; lia|by rewrite lookup_insert_ne]. }
  destruct (IH _ _ _ _ _ Hm' Hs1 Hc1 H1 Hle1 E2) as (Hst2 & Hs2 & Hr2). intros [= <- <-].
  split; [by eapply same_task_trans|]. split; [done|]. destruct r2; [|done]. apply Hr2.
Qed.

(** *** Planning *)

Lemma live_images task_id images s v c : live task_id s v c -> live task_id (set_images images s) v c.
Proof. intros []. by constructor. Qed.

Lemma live_calm task_id files s v c : calm (dk_artifacts (ts_disk s)) files -> live task_id s v c -> live task_id (set_artifacts files s) v c.
Proof.
  intros [Hv Hc] []. constructor; try done; cbn.
  - eapply stand_same; [|done]. intros. apply Hv.
  - intros id k E. destruct (lv_heads0 id k E) as [-> H]. split; [done|]. by apply Hc.
Qed.

Lemma live_status task_id status s v c : (is_Some v -> is_Some status) -> live task_id s v c -> live task_id (set_status status s) v c.
Proof. intros Hs []. by constructor. Qed.

Lemma planned_contents_cons id head ops planned c :
  planned_contents ((id, head, ops) :: planned) c
  = planned_contents planned (<[id := foldl load_operation (default empty_artifact (c !! id)) ops]> c).
Proof. done. Qed.

Lemma planned_contents_ext planned c c' id : c !! id = c' !! id -> planned_contents planned c !! id = planned_contents planned c' !! id.
Proof.
  revert c c'. induction planned as [|[[i h] ops] planned IH]; intros c c' E; [done|]. rewrite !planned_contents_cons. apply IH.
  destruct (decide (i = id)) as [->|Hne]; [by rewrite !lookup_insert_eq, E|by rewrite !lookup_insert_ne].
Qed.

Lemma planned_contents_other planned c id : (forall a, a ∈ planned -> a.1.1 <> id) -> planned_contents planned c !! id = c !! id.
Proof.
  revert c. induction planned as [|[[i h] ops] planned IH]; intros c Hn; [done|].
  rewrite planned_contents_cons, IH by (intros a Ha; apply Hn; by right). rewrite lookup_insert_ne; [done|]. apply (Hn (i, h, ops)). left.
Qed.

(** The operations that a batch has for an artifact. *)
Definition operations_of (id : string) (artifacts : list (string * list ArtifactOperation)) : list ArtifactOperation :=
  default [] ((list_to_map artifacts : gmap string _) !! id).

Lemma plan_artifacts_spec o task_id heads c artifacts files r files' : artifacts_stand files heads c -> NoDup artifacts.*1 ->
  plan_artifacts o task_id heads artifacts files = (r, files') ->
  calm files files' /\
  match r with
  | Ok planned => plan_matches planned heads /\ (forall a, a ∈ planned -> a.1.1 ∈ artifacts.*1) /\
      forall id, default empty_artifact (planned_contents planned c !! id)
                 = foldl load_operation (default empty_artifact (c !! id)) (operations_of id artifacts)
  | Err _ => True
  end.
Proof.
  revert files r files'. induction artifacts as [|[id ops] artifacts IH]; intros files r files' Hs Hnd; cbn [plan_artifacts].
  { intros [= <- <-]. split; [done|]. split; [split; [constructor|done]|]. split; [by intros a Ha%elem_of_nil|done]. }
  apply NoDup_cons in Hnd as [Hni Hnd]. cbn in Hni. set (h := default 0 (heads !! id)).
  destruct (validate_artifact_id id) as [[]|e]; [|by intros [= <- <-]].
  destruct (remove_semantic_noops _ _ _ _ _ _) as [r1 files1] eqn:E1.
  pose proof (noops_calm (o_noops o id) task_id id h ops files) as Hcalm1. rewrite E1 in Hcalm1. cbn [snd] in Hcalm1.
  assert (0 < h -> is_Some (visible files id h)) as Hvis.
  { intros Hp. specialize (Hs id). unfold h in *. destruct (heads !! id); cbn in *; [|lia]. destruct Hs as (_ & x & _ & ->). done. }
  destruct (noops_spec details_vec_inj _ _ _ _ _ _ _ _ (stand_nonneg _ _ _ id Hs) Hvis E1) as (_ & _ & Hr1).
  destruct r1 as [ops1|e]; [|by intros [= <- <-]]. rewrite <- (stand_contents _ _ _ id Hs) in Hr1.
  assert (artifacts_stand files1 heads c) as Hs1 by (eapply stand_same; [|done]; intros; apply Hcalm1).
  assert (forall files2, calm files1 files2 -> calm files files2) as Htrans.
  { intros files2 [Hv2 Hc2]. destruct Hcalm1 as [Hv1 Hc1]. split; [intros; by rewrite Hv2, Hv1|eauto]. }
  assert (forall i, operations_of i ((id, ops) :: artifacts) = if decide (i = id) then ops else operations_of i artifacts) as Hof.
  { intros i. unfold operations_of. cbn. destruct (decide (i = id)) as [->|Hne]; [by rewrite lookup_insert_eq|by rewrite lookup_insert_ne]. }
  destruct ops1 as [|op ops1].
  - intros H. destruct (IH _ _ _ Hs1 Hnd H) as [Hcalm Hr]. split; [by apply Htrans|]. destruct r as [planned|e]; [|done].
    destruct Hr as (Hm & Hin & Hcs). split; [done|]. split; [intros a Ha; cbn; right; by apply Hin|].
    intros i. rewrite Hof. destruct (decide (i = id)) as [->|Hne]; [|apply Hcs]. cbn in Hr1. rewrite <- Hr1.
    rewrite planned_contents_other; [done|]. intros a Ha <-. by apply Hni, Hin.
  - destruct (u64_checked_add h 1) as [n|]; [|intros [= <- <-]; split; [by apply Htrans|done]].
    destruct (plan_artifacts o task_id heads artifacts files1) as [rest files2] eqn:E2. destruct (IH _ _ _ Hs1 Hnd E2) as [Hcalm Hr].
    intros [= <- <-]. split; [by apply Htrans|]. destruct rest as [planned|e]; cbn [result_bind]; [|done].
    destruct Hr as ([Hn Hf] & Hin & Hcs). split; [split|split].
    + rewrite !fmap_cons. apply NoDup_cons. split; [|done]. cbn. intros (x & E & Hx)%list_elem_of_fmap.
      apply list_elem_of_fmap in Hx as (a & -> & Ha). apply Hni. rewrite E. by apply Hin.
    + by constructor.
    + intros a [->|Ha]%elem_of_cons; cbn; [left|right; by apply Hin].
    + intros i. rewrite Hof, planned_contents_cons.
      destruct (decide (i = id)) as [->|Hne].
      * rewrite planned_contents_other by (intros a Ha <-; by apply Hni, Hin). by rewrite lookup_insert_eq.
      * rewrite (planned_contents_ext _ _ c) by (by rewrite lookup_insert_ne). apply Hcs.
Qed.

(** *** The operations of a batch *)

(** A record of the Task does not follow a replaced projection: the barrier that
    replaces it ends its batch. *)
Fixpoint ordered (replaced : bool) (ops : list TaskOperation) : Prop :=
  match ops with
  | [] => True
  | ReplaceTask _ :: ops => replaced = false /\ ordered replaced ops
  | ReplaceProjection q :: ops => versions_agree q /\ ordered true ops
  | _ :: ops => ordered replaced ops
  end.

(** The heads that an operation of a caller gives are those that are committed. *)
Definition op_heads (heads : gmap string Z) (op : TaskOperation) : Prop :=
  match op with
  | Create q | ReplaceProjection q => pj_artifact_heads q = heads
  | CommitArtifact _ _ => False
  | _ => True
  end.

Definition batch_ok (heads : gmap string Z) (ops : list TaskOperation) : Prop := ordered false ops /\ Forall (op_heads heads) ops.

(** The same operation with other messages. *)
Definition same_kind (op op' : TaskOperation) : Prop :=
  match op, op' with
  | Create q, Create q' | ReplaceProjection q, ReplaceProjection q' =>
      pj_task q' = pj_task q /\ pj_message_meta q' = pj_message_meta q /\ pj_artifact_heads q' = pj_artifact_heads q
  | ReplaceTask t, ReplaceTask t' => t' = t
  | AppendText _ _ _ _, AppendText _ _ _ _ | AppendMessage _, AppendMessage _ | UpsertMessage _, UpsertMessage _
  | ReplaceMessages _ _, ReplaceMessages _ _ | ReplaceMessageMeta _, ReplaceMessageMeta _ => True
  | CommitArtifact i n, CommitArtifact i' n' => i' = i /\ n' = n
  | _, _ => False
  end.

Lemma ordered_weaken ops : ordered true ops -> ordered false ops.
Proof. induction ops as [|[] ops IH]; cbn; naive_solver. Qed.

Lemma ordered_filter r (P : TaskOperation -> Prop) `{!forall op, Decision (P op)} ops : ordered r ops -> ordered r (filter P ops).
Proof.
  revert r. induction ops as [|op ops IH]; intros r; [done|]. rewrite filter_cons. destruct (decide (P op)).
  - destruct op; cbn; naive_solver.
  - destruct op; cbn; try naive_solver. intros [_ Hx]. destruct r; [by apply IH|]. apply ordered_weaken. by apply IH.
Qed.

Lemma ordered_app r ops ops' : Forall (fun op => is_commit_artifact op = true) ops' -> ordered r ops -> ordered r (ops ++ ops').
Proof.
  intros Hc. revert r. induction ops as [|op ops IH]; intros r; cbn.
  - intros _. induction Hc as [|op ops' Ho _ IH]; [done|]. destruct op; done.
  - destruct op; cbn; naive_solver.
Qed.

Lemma same_kind_ordered r ops ops' : Forall2 same_kind ops ops' -> ordered r ops -> ordered r ops'.
Proof.
  intros H. revert r. induction H as [|op op' ops ops' Hk _ IH]; intros r; [done|].
  destruct op, op'; cbn in *; try done; try apply IH; [naive_solver|]. destruct Hk as (Ht & Hm & _). unfold versions_agree. rewrite Ht, Hm.
  naive_solver.
Qed.

Lemma same_kind_heads heads ops ops' : Forall2 same_kind ops ops' -> Forall (op_heads heads) ops -> Forall (op_heads heads) ops'.
Proof.
  induction 1 as [|op op' ops ops' Hk _ IH]; [done|]. rewrite !Forall_cons. intros [H1 H2]. split; [|by apply IH].
  destruct op, op'; cbn in *; try done; destruct Hk as (_ & _ & ->); done.
Qed.

(** Coalescing text touches nothing else. *)
Definition structural (op : TaskOperation) : bool := match op with AppendText _ _ _ _ => false | _ => true end.

Lemma reduce_structural acc ops out : reduce_operations acc ops = Some out ->
  filter (fun op => structural op = true) out = filter (fun op => structural op = true) acc ++ filter (fun op => structural op = true) ops.
Proof.
  revert acc. induction ops as [|op ops IH]; intros acc; cbn [reduce_operations]; [intros [= <-]; by rewrite filter_nil, app_nil_r|].
  destruct (reduce_operation acc op) as [acc1|] eqn:E; cbn; [|done]. intros H. rewrite (IH _ H).
  assert (filter (fun op => structural op = true) acc1 =
    filter (fun op => structural op = true) acc ++ (if structural op then [op] else [])) as ->; [|rewrite <- app_assoc; by destruct op].
  assert (filter (fun op => structural op = true) (acc ++ [op]) =
    filter (fun op => structural op = true) acc ++ (if structural op then [op] else [])) as Hsnoc.
  { rewrite filter_app. f_equal. rewrite filter_cons, filter_nil. by destruct (structural op). }
  destruct op; cbn in E; try (injection E as <-; exact Hsnoc); [|done]. cbn [structural]. rewrite app_nil_r.
  pose proof (split_last_spec acc) as Hs. destruct (split_last acc) as [[init lst]|]; [|injection E as <-; by rewrite Hsnoc, app_nil_r].
  destruct lst; try (injection E as <-; by rewrite Hsnoc, app_nil_r).
  revert E. case_bool_decide; intros E; injection E as <-; [|by rewrite Hsnoc, app_nil_r]. rewrite Hs, !filter_app. done.
Qed.

Lemma ordered_structural r ops : ordered r (filter (fun op => structural op = true) ops) -> ordered r ops.
Proof. revert r. induction ops as [|op ops IH]; intros r; [done|]. rewrite filter_cons. destruct op; cbn; naive_solver. Qed.

Lemma reduced_ok heads batch reduced : reduce_batch batch = Some reduced -> batch_ok heads (batch ≫= w_operations) ->
  batch_ok heads (rb_task_operations reduced).
Proof.
  intros H%reduce_loop_spec [Ho Hh]. cbn in H. apply reduce_structural in H. rewrite filter_nil in H. cbn in H. split.
  - apply ordered_structural. rewrite H. by apply ordered_filter.
  - apply Forall_forall. intros op Hop. destruct (structural op) eqn:E; [|by destruct op].
    assert (op ∈ filter (fun op => structural op = true) (rb_task_operations reduced)) as Hin by (by apply list_elem_of_filter).
    rewrite H in Hin. apply list_elem_of_filter in Hin as [_ Hin]. rewrite Forall_forall in Hh. by apply Hh.
Qed.

Lemma externalized_kind op op' stored : externalize_operation op = Some (op', stored) -> same_kind op op'.
Proof.
  destruct op; cbn; try (by intros [= <- <-]); unfold externalize_row.
  1, 2: destruct (externalize_messages _) as [[ms b]|]; cbn; [|done]; by intros [= <- <-].
  1, 2: destruct (externalize_message _) as [[m b]|]; cbn; [|done]; by intros [= <- <-].
  destruct (externalize_messages _) as [[ms b]|]; cbn; [|done]; by intros [= <- <-].
Qed.

Lemma externalize_spec o task_id ops s r s' v c : live task_id s v c -> externalize o ops s = (r, s') ->
  live task_id s' v c /\ me_projection (ts_memory s') = me_projection (ts_memory s) /\ dk_artifacts (ts_disk s') = dk_artifacts (ts_disk s) /\
  match r with Ok ops' => Forall2 same_kind ops ops' | Err _ => True end.
Proof.
  intros Hl. unfold externalize. destruct (externalize_operations ops) as [[ops' stored]|] eqn:E; [|by intros [= <- <-]].
  assert (Forall2 same_kind ops ops') as Hk.
  { apply map_moved_Some in E. eapply Forall2_impl; [exact E|]. intros x y (b & Hx & _). by eapply externalized_kind. }
  destruct (o_images o) as [[n e]|]; [destruct stored|]; intros [= <- <-]; (split; [by apply live_images|done]).
Qed.

(** *** Applying them *)

Definition op_id (task_id : string) (op : TaskOperation) : Prop :=
  match op with
  | Create q | ReplaceProjection q => tr_task_id (pj_task q) = task_id
  | ReplaceTask t => tr_task_id t = task_id
  | _ => True
  end.

Lemma validated_operations task_id shadow ops : validate_loop task_id (Some shadow) ops = Ok tt ->
  Forall not_create ops /\ Forall (op_id task_id) ops.
Proof.
  revert shadow. induction ops as [|op ops IH]; intros shadow; cbn [validate_loop]; [done|]. intros H. apply result_bind_ok in H as (next & Hv & H).
  assert (exists q, next = Some q /\ not_create op /\ op_id task_id op) as (q & -> & Hn & Hi).
  { destruct op; cbn [validate_operation require ok_or result_bind is_some] in Hv; [done|..].
    - revert Hv. case_bool_decide as Hid; [done|]. intros [= <-]. eexists. do 2 (split; [done|]). by destruct (decide (tr_task_id task = task_id)).
    - destruct (identities_match task_id projection) eqn:E; [|done]. injection Hv as <-. apply identities_match_iff in E as [E _]. by eexists.
    - apply result_bind_ok in Hv as (? & _ & [= <-]). by eexists.
    - apply result_bind_ok in Hv as (? & _ & [= <-]). by eexists.
    - apply result_bind_ok in Hv as (? & _ & [= <-]). by eexists.
    - apply result_bind_ok in Hv as (? & _ & Hv). apply result_bind_ok in Hv as (? & _ & [= <-]). by eexists.
    - apply result_bind_ok in Hv as (? & _ & [= <-]). by eexists.
    - apply result_bind_ok in Hv as (? & _ & Hv). apply result_bind_ok in Hv as (? & _ & Hv). revert Hv. case_bool_decide; [done|]. intros [= <-]. by eexists. }
  destruct (IH _ H). split; by constructor.
Qed.

Lemma same_kind_ids task_id ops ops' : Forall2 same_kind ops ops' -> Forall (op_id task_id) ops -> Forall (op_id task_id) ops'.
Proof.
  induction 1 as [|op op' ops ops' Hk _ IH]; [done|]. rewrite !Forall_cons. intros [H1 H2]. split; [|by apply IH].
  destruct op, op'; cbn in *; try done; [by destruct Hk as (-> & _)|by rewrite Hk|by destruct Hk as (-> & _)].
Qed.

Lemma same_kind_create ops ops' : Forall2 same_kind ops ops' -> Forall not_create ops -> Forall not_create ops'.
Proof.
  induction 1 as [|op op' ops ops' Hk _ IH]; [done|]. rewrite !Forall_cons. intros [H1 H2]. split; [|by apply IH]. by destruct op, op'.
Qed.

Lemma op_step_fields task_id heads op p p' : op_step task_id op p = Ok p' -> op_id task_id op -> tr_task_id (pj_task p) = task_id ->
  tr_task_id (pj_task p') = task_id /\ (op_heads heads op -> pj_artifact_heads p = heads -> pj_artifact_heads p' = heads).
Proof.
  destruct op; cbn; intros H Hi Hp.
  - injection H as <-. done.
  - by injection H as <-.
  - injection H as <-. done.
  - apply result_bind_ok in H as (? & _ & [= <-]). done.
  - apply result_bind_ok in H as (? & _ & [= <-]). done.
  - apply result_bind_ok in H as (? & _ & [= <-]). done.
  - apply result_bind_ok in H as (? & _ & H). apply result_bind_ok in H as (? & _ & [= <-]). done.
  - apply result_bind_ok in H as (? & _ & [= <-]). done.
  - injection H as <-. done.
Qed.

Lemma op_loop_fields task_id heads ops p p' : op_loop task_id ops p = Ok p' -> Forall (op_id task_id) ops -> tr_task_id (pj_task p) = task_id ->
  tr_task_id (pj_task p') = task_id /\ (Forall (op_heads heads) ops -> pj_artifact_heads p = heads -> pj_artifact_heads p' = heads).
Proof.
  revert p. induction ops as [|op ops IH]; intros p; cbn [op_loop]; [by intros [= <-]|]. intros H. apply result_bind_ok in H as (q & Hq & H).
  rewrite !Forall_cons. intros [Hi His] Hp. destruct (op_step_fields task_id heads _ _ _ Hq Hi Hp) as [Hp' Hh'].
  destruct (IH _ H His Hp') as [Hp'' Hh'']. split; [done|]. intros [H1 H2] Heq. apply Hh''; [done|]. by apply Hh'.
Qed.

Lemma op_loop_app task_id ops ops' p : op_loop task_id (ops ++ ops') p = (let? p := op_loop task_id ops p in op_loop task_id ops' p).
Proof. revert p. induction ops as [|op ops IH]; intros p; cbn; [done|]. by destruct (op_step task_id op p); cbn. Qed.

Lemma op_loop_commits task_id planned p p' : op_loop task_id (commit_operations planned) p = Ok p' ->
  pj_artifact_heads p' = planned_heads planned (pj_artifact_heads p).
Proof. revert p. induction planned as [|[[id head] ops] planned IH]; intros p; cbn; [by intros [= <-]|]. apply IH. Qed.

Lemma commits_externalized planned ops : Forall2 same_kind (commit_operations planned) ops -> ops = commit_operations planned.
Proof.
  revert ops. induction planned as [|[[id head] aops] planned IH]; intros ops; [by intros ->%Forall2_nil_inv_l|].
  intros (op & rest & Hk & Hrest & ->)%Forall2_cons_inv_l. rewrite (IH _ Hrest). destruct op; try done. destruct Hk as [-> ->]. done.
Qed.

Lemma bumped_fields p p' : bump_version p = Ok p' -> tr_task_id (pj_task p') = tr_task_id (pj_task p) /\ pj_artifact_heads p' = pj_artifact_heads p.
Proof. intros H. apply result_bind_ok in H as (v & _ & [= <-]). done. Qed.

Lemma applied_single task_id ops seq p s u st : Forall not_create ops ->
  apply_operations task_id ops seq {[task_id := Available p s]} = (Ok u, st) ->
  exists p', apply_p task_id ops p = Ok p' /\ st !! task_id = Some (Available p' seq).
Proof.
  intros Hc. unfold apply_operations, apply_p, bumps. rewrite apply_loop_one by done. destruct (op_loop task_id ops p) as [q|e]; [|done].
  cbn [result_bind]. destruct (_ && _).
  - rewrite with_single. destruct (bump_version q) as [q'|e]; [|done]. rewrite lookup_singleton_eq. intros [= <- <-]. exists q'.
    by rewrite lookup_insert_eq.
  - rewrite lookup_singleton_eq. intros [= <- <-]. exists q. by rewrite lookup_insert_eq.
Qed.

(** The projection after a batch that names its artifacts. *)
Lemma applied_fields task_id planned ops0 p p' : apply_p task_id (ops0 ++ commit_operations planned) p = Ok p' ->
  Forall (op_id task_id) ops0 -> Forall (op_heads (pj_artifact_heads p)) ops0 -> tr_task_id (pj_task p) = task_id ->
  tr_task_id (pj_task p') = task_id /\ pj_artifact_heads p' = planned_heads planned (pj_artifact_heads p).
Proof.
  intros H Hi Hh Hp. apply result_bind_ok in H as (q & Hq & H). rewrite op_loop_app in Hq. apply result_bind_ok in Hq as (q0 & Hq0 & Hq).
  destruct (op_loop_fields task_id (pj_artifact_heads p) _ _ _ Hq0 Hi Hp) as [H1 H2]. specialize (H2 Hh eq_refl).
  pose proof (op_loop_commits _ _ _ _ Hq) as H3. rewrite H2 in H3.
  assert (tr_task_id (pj_task q) = task_id) as H4.
  { destruct (op_loop_fields task_id ∅ _ _ _ Hq) as [H4 _]; [|done|done]. apply Forall_fmap, Forall_forall. by intros [[i h] o] _. }
  destruct (bumps _); [apply bumped_fields in H as [-> ->]; done|by injection H as <-].
Qed.

(** *** The plan of a batch *)

Definition next_of (v : TaskValue) : Z := match v with Some (_, seq) => seq + 1 | None => 1 end.

Record plan_ok (task_id : string) (v : TaskValue) (plan : Plan) : Prop := {
  po_matches : plan_matches (pl_artifacts plan) (heads_of v);
  po_sequence : pl_sequence plan = next_of v;
  po_heads : pj_artifact_heads (pl_next plan) = planned_heads (pl_artifacts plan) (heads_of v);
  po_id : tr_task_id (pj_task (pl_next plan)) = task_id;
  po_applied : match v with
               | Some (p, seq) => apply_p task_id (pl_operations plan) p = Ok (pl_next plan) /\
                                  durable_ops false (pl_operations plan) /\ seq + 1 <= u64_max
               | None => True
               end;
}.

Lemma ordered_durable r ops : ordered r ops -> Forall not_create ops -> durable_ops r ops.
Proof. revert r. induction ops as [|op ops IH]; intros r; [done|]. rewrite Forall_cons. destruct op; cbn; naive_solver. Qed.

Lemma commits_are_commits planned : Forall (fun op => is_commit_artifact op = true) (commit_operations planned).
Proof. apply Forall_fmap, Forall_forall. by intros [[i h] o] _. Qed.

Lemma ensure_status_provides fault s s' : ensure_status fault s = (Ok tt, s') -> is_Some s'.
Proof. destruct s; [by intros [= <-]|]. by destruct fault; intros [= <-]. Qed.

(** The projection that follows from the operations, from a Task that is there or
    from the one that the batch creates. *)
Lemma applied_plan task_id v planned ops0 seq u st : batch_ok (heads_of v) ops0 -> (forall p n, v = Some (p, n) -> tr_task_id (pj_task p) = task_id) ->
  (exists ops00, Forall2 same_kind ops00 (ops0 ++ commit_operations planned) /\ ops00 <> [] /\
     validate_operations ((fun '(p, n) => Available p n) <$> v) task_id ops00 = Ok tt) ->
  apply_operations task_id (ops0 ++ commit_operations planned) seq (tasks_of task_id ((fun '(p, n) => Available p n) <$> v)) = (Ok u, st) ->
  exists p', st !! task_id = Some (Available p' seq) /\ tr_task_id (pj_task p') = task_id /\
    pj_artifact_heads p' = planned_heads planned (heads_of v) /\
    match v with
    | Some (p, _) => apply_p task_id (ops0 ++ commit_operations planned) p = Ok p' /\ durable_ops false (ops0 ++ commit_operations planned)
    | None => True
    end.
Proof.
  intros [Ho Hh] Hid (ops00 & Hk & Hne & Hv) Ha. destruct v as [[p n]|]; cbn in Hv, Ha.
  - apply validated_operations in Hv as [Hn Hi]. pose proof (same_kind_create _ _ Hk Hn) as Hn'. pose proof (same_kind_ids _ _ _ Hk Hi) as Hi'.
    destruct (applied_single _ _ _ _ _ _ _ Hn' Ha) as (p' & Hp' & Hst). apply Forall_app in Hi' as [Hi' _].
    destruct (applied_fields _ _ _ _ _ Hp' Hi' Hh (Hid _ _ eq_refl)) as [H1 H2]. exists p'. do 3 (split; [done|]). split; [done|].
    apply ordered_durable; [|done]. apply ordered_app; [apply commits_are_commits|done].
  - apply validated_create in Hv as (q0 & rest00 & -> & Hv & [Ht _]%identities_match_iff); [|done].
    apply Forall2_cons_inv_l in Hk as (op & rest & Hop & Hk & E). apply validated_operations in Hv as [Hn Hi].
    pose proof (same_kind_create _ _ Hk Hn) as Hn'. pose proof (same_kind_ids _ _ _ Hk Hi) as Hi'.
    destruct op as [q| | | | | | | |]; try done. destruct Hop as (Hqt & _ & _).
    destruct ops0 as [|op0 ops0].
    { destruct planned as [|[[i h] o] planned]; [done|]. by injection E. }
    injection E as -> <-. apply Forall_cons in Hh as [Hq Hh]. cbn in Hq, Hh.
    assert (apply_operations task_id (ops0 ++ commit_operations planned) seq {[task_id := Available q seq]} = (Ok u, st)) as Ha' by (by destruct u).
    destruct (applied_single _ _ _ _ _ _ _ Hn' Ha') as (p' & Hp' & Hst). apply Forall_app in Hi' as [Hi' _].
    destruct (applied_fields _ _ _ _ _ Hp' Hi') as [H1 H2]; [by rewrite Hq|by rewrite Hqt|]. exists p'. do 2 (split; [done|]).
    split; [|done]. by rewrite H2, Hq.
Qed.

Lemma plan_operations_spec o task_id s v c ops0 planned changed r s' : live task_id s v c -> batch_ok (heads_of v) ops0 ->
  plan_matches planned (heads_of v) -> ops0 ++ commit_operations planned <> [] ->
  plan_operations o task_id (me_projection (ts_memory s)) (ops0 ++ commit_operations planned) planned changed s = (r, s') ->
  live task_id s' v c /\
  match r with Ok plan => plan_ok task_id v plan /\ pl_artifacts plan = planned /\ is_Some (dk_status (ts_disk s')) | Err _ => True end.
Proof.
  intros Hl Hok Hm Hne. unfold plan_operations. rewrite (lv_projection _ _ _ _ Hl). set (current := _ <$> v).
  destruct (validate_operations current task_id _) as [[]|e] eqn:Hv; cbn [result_bind]; [|by intros [= <- <-]].
  destruct (next_sequence current) as [sequence|e] eqn:Hs; cbn [result_bind]; [|by intros [= <- <-]].
  destruct (validate_task_id task_id) as [[]|e]; cbn [result_bind]; [|by intros [= <- <-]].
  assert (sequence = next_of v /\ match v with Some (_, seq) => seq + 1 <= u64_max /\ 0 < seq | None => True end) as [-> Hmax].
  { unfold current in Hs. destruct v as [[p seq]|]; cbn in Hs; [|by injection Hs as <-].
    unfold u64_checked_add in Hs. revert Hs. case_bool_decide; [|done]. intros [= <-]. split; [done|]. split; [unfold u64_max; lia|].
    destruct (proj2 (lv_files _ _ _ _ Hl)) as (f & sn & fs & Hse & _). pose proof (se_count _ _ _ _ _ _ _ Hse). lia. }
  destruct (if bool_decide _ then _ else _) as [r1 status] eqn:E1.
  assert (is_Some v -> is_Some status) as Hst.
  { intros Hv0. revert E1. case_bool_decide; [|intros [= <- <-]; by apply (lv_status _ _ _ _ Hl)]. destruct v as [[p seq]|]; [cbn in *; lia|].
    by destruct Hv0. }
  pose proof (live_status _ status _ _ _ Hst Hl) as Hl1. destruct r1 as [[]|e]; [|by intros [= <- <-]].
  destruct (externalize o _ _) as [r2 s2] eqn:E2. destruct (externalize_spec _ _ _ _ _ _ _ _ Hl1 E2) as (Hl2 & _ & _ & Hk).
  destruct r2 as [ops|e]; [|by intros [= <- <-]].
  destruct (apply_operations task_id ops _ _) as [[[]|e] st] eqn:Ha; [|by intros [= <- <-]].
  apply Forall2_app_inv_l in Hk as (ops' & commits & Hk1 & Hk2 & ->). apply commits_externalized in Hk2 as ->.
  assert (batch_ok (heads_of v) ops') as Hok' by (split; [by eapply same_kind_ordered, Hok|by eapply same_kind_heads, Hok]).
  destruct (applied_plan task_id v planned ops' (next_of v) tt st) as (p' & Hp' & Hid & Hh & Hap); [done| |exists (ops0 ++ commit_operations planned)|done|].
  { intros p n ->. apply (lv_files _ _ _ _ Hl). }
  { split; [|done]. apply Forall2_app; [done|]. apply Forall_Forall2_diag, Forall_fmap, Forall_forall. by intros [[i h] x] _. }
  rewrite Hp'. destruct (committed_chat_text_appends _ p') as [appends|e]; cbn [result_bind]; intros [= <- <-]; [|done].
  split; [done|]. split; [|split; [done|]].
  - constructor; try done. destruct v as [[p seq]|]; [|done]. destruct Hap. split; [done|]. split; [done|lia].
  - assert (dk_status (ts_disk s2) = status) as ->.
    { revert E2. unfold externalize. destruct (externalize_operations _) as [[? stored]|]; [|done].
      destruct (o_images o) as [[n e]|]; [destruct stored|]; by intros [= _ <-]. }
    destruct v as [v|]; [by apply Hst|]. revert E1. cbn. rewrite bool_decide_eq_true_2 by done. apply ensure_status_provides.
Qed.

(** *** Failures and maintenance *)

Definition frozen (s : TaskStore) : Prop :=
  (exists e, me_projection (ts_memory s) = Some (Unavailable (freeze_message e))) /\ is_quarantined (dk_status (ts_disk s)) = true.

Lemma freeze_spec {A} o e s (out : CommitOutcome A) s' v c : freeze o e s = (out, s') -> disk_stands (ts_disk s) v c ->
  disk_stands (ts_disk s') v c /\ match out with Done _ => False | Failed _ => frozen s' | Panicked => True end.
Proof.
  unfold freeze. destruct (quarantine _ _) as [r st] eqn:E. destruct r as [[]|e0]; intros [= <- <-] Hd; (split; [exact Hd|]); [|done].
  split; [by exists e|]. cbn. destruct (dk_status (ts_disk s)) as [bytes|]; [|done]. destruct (o_quarantine o); cbn in E; try done.
  injection E as <-. done.
Qed.

(** The names of a compaction are new. *)
Definition fresh_generation (o : Outside) (d : TaskDirectory) : Prop :=
  td_journals d !! (CHAT_JOURNAL_FILE +:+ "." +:+ o_generation o) = None /\
  td_snapshots d !! (CHAT_SNAPSHOT_FILE +:+ "." +:+ o_generation o) = None.

Lemma holds_exist d p seq : holds d p seq -> task_files_exist d = true.
Proof.
  intros (f & s & fs & H & _). unfold task_files_exist. rewrite (loaded_file _ _ _ _ _ _ _ H). pose proof (se_snapshot _ _ _ _ _ _ _ H) as E.
  unfold load_chat_snapshot in E. by destruct (td_snapshots d !! df_chat_snapshot f).
Qed.

Lemma worthwhile_reads n d p seq r d' : holds d p seq -> compaction_is_worthwhile n d = (r, d') -> d' = d.
Proof.
  intros (f & s & fs & H & _ & Hj). unfold compaction_is_worthwhile. rewrite (loaded_file _ _ _ _ _ _ _ H). cbn [result_bind ok_or].
  rewrite Hj. destruct fs as [|fr fs]; cbn [whole_journal] in *; [by intros [= <- <-]|]. cbn [replay]. rewrite (se_numbered _ _ _ _ _ _ _ H). cbn.
  intros [= _ <-]. rewrite insert_id by done. apply set_journals_same.
Qed.

Lemma live_files task_id d s p seq c : live task_id s (Some (p, seq)) c -> holds d p seq -> live task_id (set_files d s) (Some (p, seq)) c.
Proof. intros [] H. constructor; try done. cbn. split; [apply lv_files0|done]. Qed.

Definition maintained {A} (task_id : string) (out : CommitOutcome A) (s : TaskStore) (v : TaskValue) (c : gmap string ArtifactContents) : Prop :=
  match out with
  | Done _ => live task_id s v c
  | Failed _ => live task_id s v c \/ (frozen s /\ disk_stands (ts_disk s) v c)
  | Panicked => disk_stands (ts_disk s) v c
  end.

Lemma compact_files_spec o task_id s p seq c r s' : live task_id s (Some (p, seq)) c -> fresh_generation o (dk_files (ts_disk s)) ->
  compact_files o p seq s = (r, s') ->
  match r with Ok _ => live task_id s' (Some (p, seq)) c | Err _ => disk_stands (ts_disk s') (Some (p, seq)) c end.
Proof.
  intros Hl [Hj Hs]. unfold compact_files. destruct (lv_files _ _ _ _ Hl) as [_ Hh].
  pose proof (compact_is_good (o_compact o) (o_generation o) _ p seq Hh Hj Hs) as Hg. destruct (compact _ _ _ _ _) as [[u|e] d]; intros [= <- <-].
  - apply live_images. by apply live_files.
  - split; [done|]. apply Hl.
Qed.

Lemma compact_loaded_spec o task_id s p seq c mode out s' : live task_id s (Some (p, seq)) c -> fresh_generation o (dk_files (ts_disk s)) ->
  compact_loaded_task o task_id (Available p seq) mode s = (out, s') -> maintained task_id out s' (Some (p, seq)) c.
Proof.
  intros Hl Hf. unfold compact_loaded_task. destruct (lv_files _ _ _ _ Hl) as [_ Hh]. rewrite (holds_exist _ _ _ Hh).
  destruct (match mode with CompactNone => _ | IfWorthwhile => _ | Force => _ end) as [should s1] eqn:E1.
  assert (live task_id s1 (Some (p, seq)) c /\ fresh_generation o (dk_files (ts_disk s1))) as [Hl1 Hf1].
  { destruct mode; [by injection E1 as <- <-| |by injection E1 as <- <-].
    destruct (compaction_is_worthwhile _ _) as [r d] eqn:Ew. pose proof (worthwhile_reads _ _ _ _ _ _ Hh Ew) as ->. injection E1 as <- <-.
    by split; [apply live_files|]. }
  assert (forall s2, live task_id s2 (Some (p, seq)) c ->
    match compact_artifacts (o_compact_artifacts o) task_id (pj_artifact_heads p)
            match mode with Force => None | _ => me_written (ts_memory s2) end mode (dk_artifacts (ts_disk s2)) with
    | (Err e, files) => (Failed e, set_artifacts files s2)
    | (Ok _, files) => (Done tt, set_projection (Some (Available p seq)) (set_written (Some ∅) (set_artifacts files s2)))
    end = (out, s') -> maintained task_id out s' (Some (p, seq)) c) as Hend.
  { intros s2 Hl2. destruct (compact_artifacts _ _ _ _ _ _) as [r files] eqn:Ec.
    assert (forall id head, pj_artifact_heads p !! id = Some head -> 0 < head) as Hpos.
    { intros id head E. pose proof (lv_artifacts _ _ _ _ Hl2 id) as Ha. cbn in Ha. rewrite E in Ha. apply Ha. }
    assert (live task_id (set_artifacts files s2) (Some (p, seq)) c) as Hl3.
    { assert (forall id head, pj_artifact_heads p !! id = Some head -> 0 <= head) as Hnn by (intros id head E; specialize (Hpos _ _ E); lia).
      pose proof (compact_artifacts_spec _ _ _ _ _ _ _ _ Hnn Ec) as Hspec. destruct Hl2. constructor; try done; cbn.
      - eapply stand_same; [|done]. intros id head E. cbn in E. apply Hspec; [by rewrite E|by eapply Hpos].
      - intros id k E. destruct (lv_heads0 id k E) as [-> Hk]. split; [done|]. by apply Hspec. }
    destruct r; intros [= <- <-]; cbn [maintained]; [|by left]. destruct Hl3. by constructor. }
  destruct should as [[|]|e]; [|by apply Hend|intros [= <- <-]; by left].
  destruct (compact_files o p seq s1) as [r2 s2] eqn:E2. pose proof (compact_files_spec _ _ _ _ _ _ _ _ Hl1 Hf1 E2) as H2.
  destruct r2 as [u|e]; [by apply Hend|]. destruct (freeze (A := TaskProjection * Z) o e s2) as [out3 s3] eqn:E3.
  destruct (freeze_spec _ _ _ _ _ _ _ E3 H2) as [H3 H4]. destruct out3; [done|intros [= <- <-]; by right|by intros [= <- <-]].
Qed.

(** *** A batch up to its writes *)

(** What the writes of a batch make of the Tool details. *)
Definition contents_after (batch : list TaskWrite) (c c' : gmap string ArtifactContents) : Prop :=
  forall id, default empty_artifact (c' !! id)
             = foldl load_operation (default empty_artifact (c !! id)) (artifact_operations id (batch ≫= w_artifacts)).

Lemma reduced_contents batch reduced v id : reduce_batch batch = Some reduced ->
  foldl load_operation v (default [] (rb_artifacts reduced !! id)) = foldl load_operation v (artifact_operations id (batch ≫= w_artifacts)).
Proof. intros Hr%reduce_loop_artifacts. rewrite Hr. cbn [rb_artifacts]. rewrite reduce_artifacts_spec. by rewrite lookup_empty. Qed.

Lemma operations_by_id (m : gmap string (list ArtifactOperation)) id : operations_of id (by_id m) = default [] (m !! id).
Proof.
  unfold operations_of. do 2 f_equal. transitivity (list_to_map (map_to_list m) : gmap string (list ArtifactOperation)); [|apply list_to_map_to_list].
  apply list_to_map_proper; [apply NoDup_by_id|apply merge_sort_Permutation].
Qed.

Lemma removed_ok heads t ops ops' : remove_noops t ops = Ok ops' -> batch_ok heads ops -> batch_ok heads ops'.
Proof.
  intros H [Ho Hh]. destruct t as [[p n|]|]; cbn in H; [| |]; try done; injection H as <-; (split; [by apply ordered_filter|]);
    apply Forall_forall; intros op [_ Hop]%list_elem_of_filter; rewrite Forall_forall in Hh; by apply Hh.
Qed.

Lemma streamed_ok heads task_id t ops ops' : with_streamed_task task_id t ops = Ok ops' -> batch_ok heads ops -> batch_ok heads ops'.
Proof.
  unfold with_streamed_task. destruct (last _); [|by intros [= <-]]. destruct t as [[p n|]|]; try done. intros H.
  apply result_bind_ok in H as (version & _ & H). apply result_bind_ok in H as (revision & _ & [= <-]). intros [Ho Hh]. split; [done|by constructor].
Qed.

Lemma base_heads_live task_id s v c ops heads : live task_id s v c -> batch_ok (heads_of v) ops ->
  base_heads task_id (me_projection (ts_memory s)) ops = Ok heads -> heads = heads_of v.
Proof.
  intros Hl [_ Hh]. rewrite (lv_projection _ _ _ _ Hl). destruct v as [[p seq]|]; cbn; [by intros [= <-]|].
  induction Hh as [|op ops Hop Hh IH]; cbn; [done|]. destruct op; cbn in *; try done. by intros [= <-].
Qed.

Definition planned_or_kept (task_id : string) (batch : list TaskWrite) (out : CommitOutcome (option Plan)) (s : TaskStore)
    (v : TaskValue) (c : gmap string ArtifactContents) : Prop :=
  match out with
  | Done (Some plan) => live task_id s v c /\ plan_ok task_id v plan /\ is_Some (dk_status (ts_disk s)) /\
                        contents_after batch c (planned_contents (pl_artifacts plan) c)
  | Done None => live task_id s v c /\ contents_after batch c c
  | out => maintained task_id out s v c
  end.

Lemma maintain_spec o task_id batch current s v c out s' : live task_id s v c -> current = me_projection (ts_memory s) ->
  fresh_generation o (dk_files (ts_disk s)) -> contents_after batch c c -> maintain o task_id batch current s = (out, s') ->
  planned_or_kept task_id batch out s' v c.
Proof.
  intros Hl -> Hf Hcs. unfold maintain. rewrite (lv_projection _ _ _ _ Hl). destruct v as [[p seq]|]; cbn [fmap option_fmap option_map]; [|intros [= <- <-]; by left].
  destruct (compact_loaded_task _ _ _ _ _) as [out2 s3] eqn:E. pose proof (compact_loaded_spec _ _ _ _ _ _ _ _ _ Hl Hf E) as Hm.
  destruct out2; intros [= <- <-]; done.
Qed.

Lemma answer_spec task_id batch current s v c out s' : live task_id s v c -> contents_after batch c c ->
  answer task_id current s = (out, s') -> planned_or_kept task_id batch out s' v c.
Proof. intros Hl Hcs. unfold answer. destruct (require_available current task_id); intros [= <- <-]; [done|by left]. Qed.

Lemma plan_writes_spec o task_id batch reduced current ops s v c out s' : live task_id s v c -> current = me_projection (ts_memory s) ->
  batch_ok (heads_of v) ops -> fresh_generation o (dk_files (ts_disk s)) -> reduce_batch batch = Some reduced ->
  plan_writes o task_id batch (rb_artifacts reduced) current ops s = (out, s') -> planned_or_kept task_id batch out s' v c.
Proof.
  intros Hl Hcur Hok Hf Er. unfold plan_writes. destruct (if bool_decide (rb_artifacts reduced = ∅) then _ else _) as [r4 files] eqn:E4.
  assert (calm (dk_artifacts (ts_disk s)) files /\
    match r4 with
    | Ok planned => plan_matches planned (heads_of v) /\ contents_after batch c (planned_contents planned c)
    | Err _ => True
    end) as [Hcalm Hr4].
  { revert E4. case_bool_decide as Ha.
    - intros [= <- <-]. split; [done|]. split; [split; [constructor|done]|]. intros id. rewrite <- (reduced_contents _ _ _ _ Er), Ha. by rewrite lookup_empty.
    - rewrite Hcur. destruct (base_heads _ _ _) as [heads|e] eqn:Eh; [|by intros [= <- <-]].
      pose proof (base_heads_live _ _ _ _ _ _ Hl Hok Eh) as ->. intros E4.
      destruct (plan_artifacts_spec _ _ _ _ _ _ _ _ (lv_artifacts _ _ _ _ Hl) (NoDup_by_id _) E4) as [H1 H2]. split; [done|].
      destruct r4 as [planned|e]; [|done]. destruct H2 as (H2 & _ & H3). split; [done|]. intros id.
      by rewrite H3, operations_by_id, (reduced_contents _ _ _ _ Er). }
  pose proof (live_calm _ _ _ _ _ Hcalm Hl) as Hl4. destruct r4 as [planned|e]; [|intros [= <- <-]; by left]. destruct Hr4 as [Hm Hcs].
  destruct (_ && _) eqn:Eb.
  { apply andb_prop in Eb as [_ Eb]. apply bool_decide_eq_true in Eb as ->.
    destruct (bool_decide (requested_compaction batch <> CompactNone)); [by apply maintain_spec|by apply answer_spec]. }
  assert (ops ++ commit_operations planned <> []) as Hne.
  { intros E. rewrite E, bool_decide_eq_true_2 in Eb by done. cbn in Eb. apply bool_decide_eq_false in Eb. apply app_eq_nil in E as [_ E].
    by apply fmap_nil_inv in E. }
  destruct (plan_operations _ _ _ _ _ _ _) as [r5 s5] eqn:E5. rewrite Hcur in E5.
  destruct (plan_operations_spec _ _ _ _ _ _ _ _ _ _ Hl4 Hok Hm Hne E5) as [Hl5 Hr5].
  destruct r5 as [plan|e]; intros [= <- <-]; [|by left]. destruct Hr5 as (H1 & H2 & H3). split; [done|]. split; [done|]. split; [done|]. by rewrite H2.
Qed.

Lemma live_loaded o task_id s v c : live task_id s v c -> ensure_task_loaded o task_id s = (Ok (is_some v), s).
Proof.
  intros Hl. unfold ensure_task_loaded. rewrite (lv_projection _ _ _ _ Hl). pose proof (lv_catalog _ _ _ _ Hl) as Hc. destruct v as [[p seq]|]; [done|].
  cbn. destruct (me_catalog (ts_memory s)); [|done]. destruct (proj1 Hc) as [x Hx]; done.
Qed.

Lemma externalize_files o ops s : dk_files (ts_disk (externalize o ops s).2) = dk_files (ts_disk s).
Proof.
  unfold externalize. destruct (externalize_operations _) as [[? stored]|]; [|done].
  by destruct (o_images o) as [[n e]|]; [destruct stored|].
Qed.

Lemma plan_batch_spec o task_id batch s v c out s' : live task_id s v c -> batch_ok (heads_of v) (batch ≫= w_operations) ->
  fresh_generation o (dk_files (ts_disk s)) -> plan_batch o task_id batch s = (out, s') -> planned_or_kept task_id batch out s' v c.
Proof.
  intros Hl Hok Hf. unfold plan_batch. destruct (reduce_batch batch) as [reduced|] eqn:Er; [|intros [= <- <-]; by apply live_disk in Hl].
  pose proof (reduced_ok _ _ _ Er Hok) as Hok1. rewrite (live_loaded _ _ _ _ _ Hl). set (current := me_projection (ts_memory s)).
  destruct (if is_some current then _ else _) as [r1 s1] eqn:E1.
  assert (live task_id s1 v c /\ dk_files (ts_disk s1) = dk_files (ts_disk s) /\ me_projection (ts_memory s1) = current /\
    match r1 with Ok ops => batch_ok (heads_of v) ops | Err _ => True end) as (Hl1 & Hfiles1 & Hcur1 & Hops1).
  { destruct (is_some current); [|by injection E1 as <- <-]. destruct (externalize_spec _ _ _ _ _ _ _ _ Hl E1) as (H1 & H2 & _ & H3).
    split; [done|]. split; [|split; [done|destruct r1; [|done]; split; [by eapply same_kind_ordered, Hok1|by eapply same_kind_heads, Hok1]]].
    pose proof (externalize_files o (rb_task_operations reduced) s) as Hx. by rewrite E1 in Hx. }
  destruct r1 as [ops1|e]; [|intros [= <- <-]; by left]. destruct (remove_noops current ops1) as [ops2|e] eqn:E2; [|intros [= <- <-]; by left].
  pose proof (removed_ok _ _ _ _ E2 Hops1) as Hops2.
  assert (fresh_generation o (dk_files (ts_disk s1))) as Hf1 by (by rewrite Hfiles1).
  assert (rb_artifacts reduced = ∅ -> contents_after batch c c) as Hnone.
  { intros E id. rewrite <- (reduced_contents _ _ _ _ Er), E. by rewrite lookup_empty. }
  destruct (_ && _ && _) eqn:Eb.
  { apply andb_prop in Eb as [[_ Eb]%andb_prop _]. apply bool_decide_eq_true in Eb. by apply answer_spec, Hnone. }
  clear Eb. destruct (with_streamed_task task_id current ops2) as [ops3|e] eqn:E3; [|intros [= <- <-]; by left].
  pose proof (streamed_ok _ _ _ _ _ E3 Hops2) as Hops3. destruct (bool_decide (ops3 = []) && _) eqn:Eb.
  { apply andb_prop in Eb as [_ Eb]. apply bool_decide_eq_true in Eb. by apply maintain_spec, Hnone. }
  by apply plan_writes_spec.
Qed.

(** *** The writes of a batch *)

Lemma initial_journals f g p seq d : td_journals (publish_initial f g p seq d).2 = td_journals d.
Proof. unfold publish_initial, replace_snapshot, publish_task, durable_replace. by destruct f, g. Qed.

Lemma persisted task_id s v c plan f g : live task_id s v c -> plan_ok task_id v plan ->
  versions_agree (pl_next plan) -> encodable (pl_next plan) ->
  match persist_split_commit f g (pl_next plan) (pl_operations plan) (pl_sequence plan) (dk_files (ts_disk s)) with
  | (Ok _, d) => holds d (pl_next plan) (pl_sequence plan)
  | (Err _, d) => match v with Some (p, seq) => recoverable d p seq | None => no_task d end \/ recoverable d (pl_next plan) (pl_sequence plan)
  end.
Proof.
  intros Hl [_ Hs _ Hid Hap] Hv He. rewrite Hs. unfold persist_split_commit. pose proof (lv_files _ _ _ _ Hl) as Hf. destruct v as [[p seq]|]; cbn [next_of].
  - destruct Hf as [Hp Hh]. destruct Hap as (Ha & Hd & Hmax). rewrite bool_decide_eq_false_2.
    2: { destruct Hh as (fl & sn & fs & Hse & _). pose proof (se_count _ _ _ _ _ _ _ Hse). lia. }
    apply (append_is_good f g _ p seq _ _ Hh); [|done]. constructor; try done; [by rewrite Hp|by rewrite Hid, Hp].
  - rewrite bool_decide_eq_true_2 by done. destruct Hf as [Hn Hj].
    pose proof (initial_is_good f g (dk_files (ts_disk s)) (pl_next plan) 1 Hn ltac:(lia) Hv He Hj) as Hg.
    pose proof (initial_journals f g (pl_next plan) 1 (dk_files (ts_disk s))) as Hjs.
    destruct (publish_initial f g (pl_next plan) 1 (dk_files (ts_disk s))) as [[u|e] d]; [done|].
    destruct Hg as [Hg|Hg]; [left|by right]. split; [done|]. cbn in Hjs. by rewrite Hjs.
Qed.

(** The value before a batch or the value after it. *)
Definition either (s : TaskStore) (v v' : TaskValue) (c c' : gmap string ArtifactContents) : Prop :=
  disk_stands (ts_disk s) v c \/ disk_stands (ts_disk s) v' c'.

(** A batch that is written, or cut off. *)
Definition atomic {A} (task_id : string) (out : CommitOutcome A) (s : TaskStore) (v v' : TaskValue) (c c' : gmap string ArtifactContents) : Prop :=
  match out with
  | Done _ => live task_id s v' c'
  | Failed _ => frozen s /\ either s v v' c c'
  | Panicked => either s v v' c c'
  end.

Lemma freeze_atomic {A} o e task_id s (out : CommitOutcome A) s' v v' c c' : freeze o e s = (out, s') -> either s v v' c c' ->
  atomic task_id out s' v v' c c'.
Proof.
  intros E [H|H]; destruct (freeze_spec _ _ _ _ _ _ _ E H) as [H1 H2]; unfold atomic, either; destruct out; naive_solver.
Qed.

Lemma commit_plan_spec o task_id batch plan s v c out s' : live task_id s v c -> plan_ok task_id v plan -> is_Some (dk_status (ts_disk s)) ->
  versions_agree (pl_next plan) -> encodable (pl_next plan) -> commit_plan o task_id batch plan s = (out, s') ->
  atomic task_id out s' v (Some (pl_next plan, pl_sequence plan)) c (planned_contents (pl_artifacts plan) c).
Proof.
  intros Hl Hp Hst Hv He. unfold commit_plan. destruct (prepare_artifacts _ _ _ _) as [r1 s1] eqn:E1.
  destruct (prepare_artifacts_spec _ _ _ _ _ _ _ _ _ _ (po_matches _ _ _ Hp) (lv_artifacts _ _ _ _ Hl) (lv_heads _ _ _ _ Hl)
    (lv_artifacts _ _ _ _ Hl) (fun _ => Z.le_refl _) E1) as (Hsame & Hold & Hnew).
  destruct Hsame as (Hfiles & Hstatus & Hcat & Hover & Hproj). destruct r1 as [changes|e].
  2: { intros E. apply (freeze_atomic _ _ _ _ _ _ _ _ _ _ E). left. split; [rewrite Hfiles; apply (live_disk _ _ _ _ Hl)|done]. }
  destruct Hnew as [Hnew Hclean]. rewrite <- (po_heads _ _ _ Hp) in Hnew, Hclean.
  pose proof (persisted _ _ _ _ _ (o_commit o).1 (o_commit o).2 Hl Hp Hv He) as Hper. rewrite <- Hfiles in Hper.
  destruct (persist_split_commit _ _ _ _ _ _) as [[u|e] d].
  - intros [= <- <-]. unfold publish_catalog. cbn [dk_files ts_disk set_files]. rewrite (holds_exist _ _ _ Hper).
    constructor; cbn; try done; [by rewrite Hover; apply Hl|by rewrite Hstatus|by split; [apply Hp|]].
  - intros E. apply (freeze_atomic _ _ _ _ _ _ _ _ _ _ E). destruct Hper as [Hper|Hper]; [left|right]; by split.
Qed.

Lemma committed_sequence o task_id batch plan s b s' : commit_plan o task_id batch plan s = (Done b, s') ->
  cb_journal_sequence b = pl_sequence plan.
Proof.
  unfold commit_plan, freeze. destruct (prepare_artifacts _ _ _ _) as [[changes|e] s1]; [|by destruct (quarantine _ _) as [[]]].
  destruct (persist_split_commit _ _ _ _ _ _) as [[u|e] d]; [by intros [= <- _]|]. by destruct (quarantine _ _) as [[]].
Qed.

(** The value that a batch makes: the planned projection at the next sequence,
    and Tool details to which exactly the writes of the batch were applied. *)
Definition after_batch (o : Outside) (task_id : string) (batch : list TaskWrite) (s : TaskStore)
    (v v' : TaskValue) (c c' : gmap string ArtifactContents) : Prop :=
  exists plan s1, plan_batch o task_id batch s = (Done (Some plan), s1) /\ v' = Some (pl_next plan, next_of v) /\ contents_after batch c c'.

Lemma batch_outcome o task_id batch s v c out s' :
  live task_id s v c -> batch_ok (heads_of v) (batch ≫= w_operations) -> fresh_generation o (dk_files (ts_disk s)) ->
  (forall plan s1, plan_batch o task_id batch s = (Done (Some plan), s1) -> versions_agree (pl_next plan) /\ encodable (pl_next plan)) ->
  commit_batch o task_id batch s = (out, s') ->
  let either := disk_stands (ts_disk s') v c \/
                exists v' c', after_batch o task_id batch s v v' c c' /\ disk_stands (ts_disk s') v' c' in
  match out with
  | Done None => live task_id s' v c /\ contents_after batch c c
  | Done (Some b) => cb_journal_sequence b = next_of v /\
                     exists v' c', after_batch o task_id batch s v v' c c' /\ live task_id s' v' c'
  | Failed _ => live task_id s' v c \/ (frozen s' /\ either)
  | Panicked => either
  end.
Proof.
  intros Hl Hok Hf Hsound. unfold commit_batch. destruct (plan_batch o task_id batch s) as [out1 s1] eqn:E1.
  pose proof (plan_batch_spec _ _ _ _ _ _ _ _ Hl Hok Hf E1) as Hp. destruct out1 as [[plan|]|e|].
  - destruct Hp as (Hl1 & Hplan & Hst & Hcs). destruct (Hsound _ _ eq_refl) as [Hv He]. destruct (commit_plan _ _ _ _ _) as [out2 s2] eqn:E2.
    pose proof (commit_plan_spec _ _ _ _ _ _ _ _ _ Hl1 Hplan Hst Hv He E2) as Ha.
    assert (after_batch o task_id batch s v (Some (pl_next plan, pl_sequence plan)) c (planned_contents (pl_artifacts plan) c)) as Hafter.
    { exists plan, s1. by rewrite (po_sequence _ _ _ Hplan). }
    unfold atomic, either in Ha. destruct out2 as [b|e|]; intros [= <- <-].
    + split; [rewrite (committed_sequence _ _ _ _ _ _ _ E2); apply Hplan|]. by do 2 eexists.
    + right. destruct Ha as [H1 [H2|H2]]; (split; [done|]); [by left|right; by do 2 eexists].
    + destruct Ha as [H2|H2]; [by left|right; by do 2 eexists].
  - by intros [= <- <-].
  - intros [= <- <-]. destruct Hp as [Hp|[H1 H2]]; [by left|right]. split; [done|by left].
  - intros [= <- <-]. by left.
Qed.

(** C5. A batch is atomic over all the files that it writes, those of Tool details,
    its frame and its metadata.  From a store at work: when the commit is done,
    the store is at work with the value after the batch; a batch without a plan
    changes nothing; when it fails, nothing has changed, or the Task is frozen and
    quarantined; and then, as after a crash at any write, the files stand for the
    value before the batch or for the one after it, never for a part of it. *)
Theorem batch_is_atomic o task_id batch s v c out s' :
  live task_id s v c -> batch_ok (heads_of v) (batch ≫= w_operations) -> fresh_generation o (dk_files (ts_disk s)) ->
  (forall plan s1, plan_batch o task_id batch s = (Done (Some plan), s1) -> versions_agree (pl_next plan) /\ encodable (pl_next plan)) ->
  commit_batch o task_id batch s = (out, s') ->
  let either := disk_stands (ts_disk s') v c \/
                exists v' c', after_batch o task_id batch s v v' c c' /\ disk_stands (ts_disk s') v' c' in
  match out with
  | Done None => live task_id s' v c /\ contents_after batch c c
  | Done (Some b) => cb_journal_sequence b = next_of v /\
                     exists v' c', after_batch o task_id batch s v v' c c' /\ live task_id s' v' c'
  | Failed _ => live task_id s' v c \/ (frozen s' /\ either)
  | Panicked => either
  end.
Proof. apply batch_outcome. Qed.

(** ** A start after a crash *)

(** Nothing fails while the Task is opened and read. *)
Record quiet (o : Outside) : Prop := {
  qu_status : o_status o = WriteOk;
  qu_load : o_load o = no_load_faults;
  qu_reconcile : forall id, o_reconcile o id = (WriteOk, WriteOk);
  qu_read : o_read o = WriteOk;
}.

Lemma recoverable_ext d d' p seq : recoverable d p seq -> td_task d' = td_task d -> td_snapshots d' = td_snapshots d ->
  td_journals d' = td_journals d -> recoverable d' p seq.
Proof.
  intros [(f & s & m & fs & H & Hj)|(f & s & m & fs & p0 & ops & fr & H & Hm & Hj & Hrest)] Ht Hs Hjs.
  - left. exists f, s, m, fs. split; [by eapply settled_ext; [| |rewrite Hs]|by rewrite Hjs].
  - right. exists f, s, m, fs, p0, ops, fr. split; [by eapply settled_ext; [| |rewrite Hs]|]. by rewrite Hjs.
Qed.

Lemma listed_task d p seq f0 : recoverable d p seq -> td_task d = Some f0 -> is_Some (df_chat_journal_bytes f0) ->
  exists f d', load_catalog_task no_load_faults d = (Ok (Some f), d') /\ df_task f = cleared (pj_task p) /\ recoverable d' p seq.
Proof.
  intros Hr Ef Hb. destruct (load_catalog_task no_load_faults d) as [r d'] eqn:E.
  destruct (catalog_is_good _ _ _ _ _ _ _ Hr Ef Hb E) as [H1 H2]. destruct r as [r|e]; [destruct H1 as (f & -> & H1 & _); by exists f, d'|]. exfalso.
  revert E. unfold load_catalog_task. assert (exists f, load_task d = Ok (Some f)) as [f ->].
  { destruct Hr as [(f & s & m & fs & H & _)|(f & s & m & fs & p0 & ops & fr & H & _)]; exists f; by eapply loaded_file. }
  destruct (df_chat_journal_bytes f); [|done]. destruct (bool_decide _); [|done]. pose proof (load_is_good no_load_faults d p seq Hr) as Hg.
  destruct (load_projection no_load_faults d) as [[x|e1] d1]; [|by destruct Hg]. destruct Hg as [_ (f' & s & fs & H & _)].
  by rewrite (loaded_file _ _ _ _ _ _ _ H).
Qed.

Lemma opened_task o task_id d p seq c f0 : quiet o -> disk_stands d (Some (p, seq)) c -> tr_task_id (pj_task p) = task_id ->
  validate_task_id task_id = Ok tt -> is_quarantined (dk_status d) = false -> td_task (dk_files d) = Some f0 -> is_Some (df_chat_journal_bytes f0) ->
  exists s, open_task o task_id d = Ok s /\ disk_stands (ts_disk s) (Some (p, seq)) c /\ is_Some (dk_status (ts_disk s)) /\
    ts_memory s = mkMemory (Some (cleared (pj_task p))) None None ∅ None.
Proof.
  intros Hq [Hr Ha] Hid Hv Hn Ef Hb. unfold open_task. rewrite Hv, Hn, (qu_status _ Hq), (qu_load _ Hq). cbn [result_bind].
  destruct (ensure_status WriteOk (dk_status d)) as [r status] eqn:Es. assert (r = Ok tt /\ is_Some status) as [-> Hst].
  { destruct (dk_status d); injection Es as <- <-; done. }
  destruct (listed_task _ _ _ _ Hr Ef Hb) as (f & d' & -> & Hf & Hr'). cbn [result_bind]. rewrite Hf, cleared_id, bool_decide_eq_true_2 by done.
  assert (clear_process_local_agent_state (cleared (pj_task p)) = (false, cleared (pj_task p))) as ->.
  { pose proof (startup_clears_agent_state (pj_task p)) as H. unfold cleared. destruct (clear_process_local_agent_state (pj_task p)). apply H. }
  eexists. split; [done|]. split; [|done]. split; [|done]. cbn. destruct (o_cleanup o); [done|]. by eapply recoverable_ext.
Qed.

Lemma loaded_task o task_id s p seq c : quiet o -> disk_stands (ts_disk s) (Some (p, seq)) c -> tr_task_id (pj_task p) = task_id ->
  validate_task_id task_id = Ok tt -> has_inline_images (pj_messages p) = false -> has_references_without_dimensions (pj_messages p) = false ->
  is_Some (dk_status (ts_disk s)) -> ts_memory s = mkMemory (Some (cleared (pj_task p))) None None ∅ None ->
  exists s', load o task_id s = (Ok (durable p), s') /\ live task_id s' (Some (durable p, seq)) c.
Proof.
  intros Hq [Hr Ha] Hid Hv Hi Hd Hst Hm. unfold load, ensure_task_loaded, recover_task. rewrite Hv, Hm, (qu_load _ Hq). cbn [me_projection me_catalog is_some negb].
  pose proof (load_is_good no_load_faults _ p seq Hr) as Hg. destruct (load_projection no_load_faults _) as [[r|e] d]; [|by destruct Hg].
  destruct Hg as [-> Hh]. cbn [pj_messages durable]. unfold migrate_inline_images, migrate_projection.
  change (pj_messages (durable p)) with (pj_messages p). rewrite Hi, Hd. cbn [negb andb]. unfold install_task.
  cbn [ts_memory set_images set_files]. rewrite Hm. cbn [me_overlay is_some negb andb ts_disk dk_files].
  change (dk_files (ts_disk (set_images (dk_images (ts_disk (set_files d s))) (set_files d s)))) with d.
  rewrite (holds_exist _ _ _ Hh). cbn [negb]. rewrite durable_id, bool_decide_eq_true_2 by done.
  eexists. split; [done|]. constructor; try done.
  - cbn. by rewrite Hm.
  - split; [by rewrite durable_id|by apply holds_durable].
  - cbn. rewrite Hm. intros id k. cbn. by rewrite lookup_empty.
Qed.

Lemma reconcile_succeeds task_id id head files x : artifact_path task_id id = Ok tt -> visible files id head = Some x ->
  exists files', reconcile_one WriteOk WriteOk task_id id head files = (Ok head, files').
Proof.
  intros Hp Hv. unfold reconcile_one, replay_artifact. rewrite Hp. unfold visible in Hv. destruct (files !! id) as [[n|fs tail]|]; try done. cbn [is_some negb].
  destruct (numbered af_sequence 1 fs) eqn:Hn; [|done]. cbn [andb] in Hv. revert Hv. case_bool_decide as Hl; [|done]. intros _.
  cbn [replay]. rewrite Hn. cbn [negb].
  assert (forall files1 fs, head <= Z.of_nat (length fs) -> exists files', (let '(r, files) := truncate_after WriteOk id fs head files1 in
    (let? _ := map_error (artifact_frame_error "reconcile_truncate" task_id id) r in Ok head, files)) = (Ok head, files')) as Ht.
  { intros files1 fs1 _. unfold truncate_after. case_bool_decide; by eexists. }
  destruct (bool_decide (tail = 0)); cbn [map_error]; rewrite bool_decide_eq_false_2 by lia; by apply Ht.
Qed.

Lemma artifact_read o task_id s p seq c id x : quiet o -> live task_id s (Some (p, seq)) c -> artifact_path task_id id = Ok tt -> c !! id = Some x ->
  exists a s', load_tool_artifact o task_id id s = (Ok a, s') /\ ta_contents a = x /\ live task_id s' (Some (p, seq)) c.
Proof.
  intros Hq Hl Hp Hx. unfold load_tool_artifact, load. rewrite (live_loaded _ _ _ _ _ Hl), (lv_projection _ _ _ _ Hl).
  pose proof Hp as Hp0. unfold artifact_path in Hp. rewrite Hp. destruct (validate_task_id task_id) as [[]|]; [|done]. cbn [result_bind fmap option_fmap option_map].
  pose proof (lv_artifacts _ _ _ _ Hl id) as Ha. cbn in Ha. destruct (pj_artifact_heads p !! id) as [head|] eqn:Eh; [|congruence]. cbn [ok_or].
  destruct Ha as (Hpos & y & Hy & Hv). rewrite Hx in Hy. injection Hy as <-.
  assert (head = default 0 (heads_of (Some (p, seq)) !! id)) as Hd by (cbn; by rewrite Eh).
  destruct (reconcile_artifact o task_id id head s) as [r1 s1] eqn:E1.
  assert (0 <= head) as H0 by lia. destruct (reconcile_artifact_spec _ _ _ _ _ _ _ _ H0 Hd (lv_heads _ _ _ _ Hl) E1) as (Hsame & Hk & _ & Hc1).
  assert (r1 = Ok tt) as ->.
  { unfold reconcile_artifact in E1. destruct (me_heads (ts_memory s) !! id); [by injection E1 as <- _|]. rewrite (qu_reconcile _ Hq) in E1.
    destruct (reconcile_succeeds _ _ _ _ _ Hp0 Hv) as [files' Er]. rewrite Er in E1. by injection E1 as <- _. }
  assert (artifacts_stand (dk_artifacts (ts_disk s1)) (heads_of (Some (p, seq))) c) as Ha1 by (apply Hk; [lia|apply Hl]).
  pose proof (Ha1 id) as Hv1. cbn in Hv1. rewrite Eh in Hv1. destruct Hv1 as (_ & y & Hy & Hv1). rewrite Hx in Hy. injection Hy as <-.
  rewrite (qu_read _ Hq). pose proof (load_calm WriteOk task_id id head (dk_artifacts (ts_disk s1))) as Hcalm.
  destruct (load_artifact WriteOk task_id id head (dk_artifacts (ts_disk s1))) as [r2 files2] eqn:E2.
  destruct (artifact_load_spec _ _ _ _ _ _ _ H0 Hp0 E2) as (_ & _ & Hr2).
  assert (live task_id s1 (Some (p, seq)) c) as Hl1.
  { destruct Hsame as (Hfi & Hst & Hca & Hov & Hpr). destruct Hl. constructor; try done; rewrite ?Hov, ?Hpr, ?Hca, ?Hst, ?Hfi; done. }
  destruct r2 as [a|e]; [|by rewrite (Hr2 eq_refl) in Hv1]. exists a, (set_artifacts files2 s1). split; [done|].
  destruct Hr2 as [Hr2 _]. rewrite Hv1 in Hr2. injection Hr2 as <-. split; [done|by apply live_calm].
Qed.

(** C6. A start after a crash gives exactly what the files stand for: the Task is
    listed with its record, its load gives the projection without the live
    state of an Agent at the sequence of its last commit, and each of its Tool
    details reads as committed, although frames that were never named may follow
    in their files; the store is then at work with this value. *)
Theorem restart_gives_committed o task_id d p seq c f0 :
  quiet o -> disk_stands d (Some (p, seq)) c -> tr_task_id (pj_task p) = task_id -> validate_task_id task_id = Ok tt ->
  is_quarantined (dk_status d) = false -> td_task (dk_files d) = Some f0 -> is_Some (df_chat_journal_bytes f0) ->
  has_inline_images (pj_messages p) = false -> has_references_without_dimensions (pj_messages p) = false ->
  exists s s', open_task o task_id d = Ok s /\ me_catalog (ts_memory s) = Some (pj_task (durable p)) /\
    load o task_id s = (Ok (durable p), s') /\ live task_id s' (Some (durable p, seq)) c /\
    forall id x, artifact_path task_id id = Ok tt -> c !! id = Some x ->
      exists a s'', load_tool_artifact o task_id id s' = (Ok a, s'') /\ ta_contents a = x /\ live task_id s'' (Some (durable p, seq)) c.
Proof.
  intros Hq Hds Hid Hv Hn Ef Hb Hi Hd. destruct (opened_task _ _ _ _ _ _ _ Hq Hds Hid Hv Hn Ef Hb) as (s & Hopen & Hds1 & Hst & Hm).
  destruct (loaded_task _ _ _ _ _ _ Hq Hds1 Hid Hv Hi Hd Hst Hm) as (s' & Hload & Hl). exists s, s'.
  split; [done|]. split; [by rewrite Hm|]. split; [done|]. split; [done|]. intros id x. by apply artifact_read.
Qed.
End Store.

(** ** Witnesses *)

Module TaskStoreWitness.
Import JournalWitness TaskFilesWitness.
#[local] Existing Instance file_codecs.
#[local] Existing Instance file_laws.

(** Details cannot be serialized here, so that only terminal output is written. *)
#[local] Instance records_json : Json := {
  task_vec t := Some (bytes_of (tr_updated_at t)); projection_vec _ := None; meta_vec _ := None; stored_vec _ := None;
  stored_list_vec _ := None; details_vec _ := None; message_vec _ := None; plan_vec _ := None }.
#[local] Instance tool_bytes : ArtifactBytes := fun f => 8 + Z.of_nat (length (af_operations f)).

Definition no_compaction : CompactFaults := mkCompactFaults WriteOk None WriteOk None None None.
(** Everything succeeds but the status byte, the frames of Tool details, the
    quarantine and the two writes of a commit. *)
Definition outside (status prepare quarantine : WriteFault) (commit : WriteFault * WriteFault) : Outside :=
  mkOutside 0 "g" 0 (Ok []) 0 (fun _ _ => true) (Ok None) (Ok None) (Ok false) status quarantine None no_load_faults (WriteOk, WriteOk) None
    (fun _ => WriteOk) (fun _ => (WriteOk, WriteOk)) (fun _ => prepare) WriteOk commit no_compaction (fun _ => (WriteOk, WriteOk)).
Definition calm_outside : Outside := outside WriteOk WriteOk WriteOk (WriteOk, WriteOk).

Definition empty_store : TaskStore := mkStore (mkDisk empty_directory ∅ ∅ None) (mkMemory None None None ∅ None).
Definition output (text : string) : ArtifactWrite := mkArtifactWrite "tool" (AppendTerminal "term" text).
Definition creation : list TaskWrite := [mkWrite "t" Barrier [Create first_projection] [output "a"] CompactNone None].
Definition extension : list TaskWrite := [mkWrite "t" Barrier [AppendMessage (message 2 "n" "text")] [output "b"] CompactNone None].

Lemma no_details_vec (d d' : ActivityToolDetails) v : details_vec d = Some v -> details_vec d' = Some v -> d = d'.
Proof. done. Qed.

Lemma empty_live : live "t" empty_store None ∅.
Proof.
  constructor; try done. split; intros [x Hx]; done.
Qed.

Definition created : TaskProjection := set_head "tool" 1 first_projection.

Lemma creation_is_sound plan s1 : plan_batch calm_outside "t" creation empty_store = (Done (Some plan), s1) ->
  versions_agree (pl_next plan) /\ encodable (pl_next plan).
Proof.
  intros H. assert (created = pl_next plan) as <-.
  { apply (f_equal (fun r => match r.1 with Done (Some plan) => pl_next plan | _ => first_projection end)) in H. cbn [fst] in H. rewrite <- H.
    vm_compute. reflexivity. }
  split; [reflexivity|]. split; vm_compute; reflexivity.
Qed.

Lemma creation_ok : batch_ok (heads_of None) (creation ≫= w_operations).
Proof. split; [exact I|]. constructor; [reflexivity|constructor]. Qed.
Lemma creation_fresh : fresh_generation calm_outside (dk_files (ts_disk empty_store)).
Proof. split; reflexivity. Qed.

Lemma batch_is_atomic_witness :
  exists b v c, (commit_batch calm_outside "t" creation empty_store).1 = Done (Some b) /\ cb_journal_sequence b = 1 /\
    live "t" (commit_batch calm_outside "t" creation empty_store).2 v c /\
    default empty_artifact (c !! "tool"%string) = mkArtifact None ["term"%string] {["term" := "a"%string]}.
Proof.
  destruct (commit_batch calm_outside "t" creation empty_store) as [out s'] eqn:E.
  destruct out as [[b|]|e|]; try (vm_compute in E; discriminate E).
  destruct (batch_is_atomic no_details_vec calm_outside "t" creation empty_store None ∅ (Done (Some b)) s'
    empty_live creation_ok creation_fresh creation_is_sound E) as [Hb (v & c & (plan & s1 & _ & _ & Hc) & Hl)].
  exists b, v, c. split; [reflexivity|]. split; [exact Hb|]. split; [exact Hl|]. exact (Hc "tool"%string).
Defined.

Definition created_store : TaskStore := (commit_batch calm_outside "t" creation empty_store).2.
Definition tool_output (text : string) : ArtifactContents := mkArtifact None ["term"%string] {["term" := text]}.

Lemma creation_stands : exists c, disk_stands (ts_disk created_store) (Some (created, 1)) c /\ c !! "tool"%string = Some (tool_output "a").
Proof.
  destruct (commit_batch calm_outside "t" creation empty_store) as [out s'] eqn:E.
  assert (created_store = s') as -> by (unfold created_store; by rewrite E).
  destruct out as [[b|]|e|]; try (vm_compute in E; discriminate E).
  destruct (batch_outcome no_details_vec calm_outside "t" creation empty_store None ∅ (Done (Some b)) s'
    empty_live creation_ok creation_fresh creation_is_sound E) as [_ (v & c & (plan & s1 & Hp & -> & Hc) & Hl)].
  assert (created = pl_next plan) as Hn.
  { apply (f_equal (fun r => match r.1 with Done (Some plan) => pl_next plan | _ => first_projection end)) in Hp. cbn [fst] in Hp. rewrite <- Hp.
    vm_compute. reflexivity. }
  rewrite <- Hn in Hl. cbn [next_of] in Hl. exists c. split; [by apply live_disk in Hl|]. specialize (Hc "tool"%string).
  pose proof (lv_artifacts _ _ _ _ Hl "tool"%string) as Ha. change (heads_of (Some (created, 1)) !! "tool"%string) with (Some 1) in Ha.
  destruct Ha as (_ & x & Hx & _). rewrite Hx in *. cbn [default] in Hc. f_equal. exact Hc.
Qed.

Lemma quiet_outside : quiet calm_outside.
Proof. by constructor. Qed.

Lemma restart_gives_committed_witness :
  exists s s' a s'', open_task calm_outside "t" (ts_disk created_store) = Ok s /\ load calm_outside "t" s = (Ok created, s') /\
    load_tool_artifact calm_outside "t" "tool" s' = (Ok a, s'') /\ ta_contents a = tool_output "a".
Proof.
  destruct creation_stands as (c & Hd & Hc).
  destruct (td_task (dk_files (ts_disk created_store))) as [f0|] eqn:Ef; [|vm_compute in Ef; discriminate Ef].
  assert (is_Some (df_chat_journal_bytes f0)) as Hb by (vm_compute in Ef; injection Ef as <-; vm_compute; by eexists).
  assert (is_quarantined (dk_status (ts_disk created_store)) = false) as Hn by (vm_compute; reflexivity).
  destruct (restart_gives_committed calm_outside "t" (ts_disk created_store) created 1 c f0 quiet_outside Hd eq_refl eq_refl Hn Ef Hb eq_refl eq_refl)
    as (s & s' & H1 & _ & H2 & _ & H3).
  destruct (H3 "tool"%string (tool_output "a") eq_refl Hc) as (a & s'' & H4 & H5 & _).
  exists s, s', a, s''. split; [exact H1|]. split; [exact H2|]. split; [exact H4|exact H5].
Defined.

(** What a start reads after the second commit was cut off: the sequence and the
    output of the Tool. *)
Definition lost : RuntimeError := Storage "lost".
Definition after_crash (commit : WriteFault * WriteFault) : option (Z * string) :=
  let disk := ts_disk (commit_batch (outside WriteOk WriteOk (WriteLost lost) commit) "t" extension created_store).2 in
  match open_task calm_outside "t" disk with
  | Ok s =>
      let '(r, s) := load_tool_artifact calm_outside "t" "tool" s in
      match r, me_projection (ts_memory s) with
      | Ok a, Some (Available _ sequence) => Some (sequence, default ""%string (ap_terminal_outputs (ta_contents a) !! "term"%string))
      | _, _ => None
      end
  | Err _ => None
  end.
Example crashes_are_atomic :
  after_crash (WriteLost lost, WriteOk) = Some (1, "a"%string) /\ after_crash (WriteTorn 9 lost, WriteOk) = Some (1, "a"%string) /\
  after_crash (WriteOk, WriteLost lost) = Some (2, "ab"%string) /\ after_crash (WriteOk, WriteKept lost) = Some (2, "ab"%string).
Proof. vm_compute. repeat split. Qed.

(** The file of a Tool whose first frame was cut off within the header is not
    reconciled: the next output of the Tool freezes and quarantines the Task. *)
Definition plain_creation : list TaskWrite := [mkWrite "t" Barrier [Create first_projection] [] CompactNone None].
Definition reopened (disk : TaskDisk) : TaskStore := match open_task calm_outside "t" disk with Ok s => s | Err _ => empty_store end.
Definition is_failed {A} (out : CommitOutcome A) : bool := match out with Failed _ => true | _ => false end.
Definition is_done {A} (out : CommitOutcome A) : bool := match out with Done _ => true | _ => false end.

Example cut_off_artifact_quarantines_the_task :
  let s := (commit_batch calm_outside "t" plain_creation empty_store).2 in
  let cut := commit_batch (outside WriteOk (WriteTorn 3 lost) (WriteLost lost) (WriteOk, WriteOk)) "t" extension s in
  let next := commit_batch calm_outside "t" extension (reopened (ts_disk cut.2)) in
  is_failed next.1 = true /\ is_quarantined (dk_status (ts_disk next.2)) = true.
Proof. vm_compute. split; reflexivity. Qed.

(** A status file that was created but not written is taken for provisioned by
    the next attempt and for a quarantine by the next start: the Task that was
    committed in between cannot be opened. *)
Example empty_status_loses_the_task :
  let failed := commit_batch (outside (WriteTorn 0 lost) WriteOk WriteOk (WriteOk, WriteOk)) "t" plain_creation empty_store in
  let retried := commit_batch calm_outside "t" plain_creation failed.2 in
  is_failed failed.1 = true /\ is_done retried.1 = true /\
  match me_projection (ts_memory (reopened (ts_disk retried.2))) with Some (Unavailable _) => true | _ => false end = true.
Proof. vm_compute. repeat split. Qed.
End TaskStoreWitness.
