(* ===== verification/Projects.v ===== *)
(** * Projects

    Models [openaide-rs/app-server/src/projects.rs] and
    [projects/identity.rs]: the identity of a Project, computed from the lexical
    form of its folder, and the registry of the Projects that the configuration,
    the user and the connected clients contribute.

    Paths are those of Unix.  A [PathBuf] that is only pushed to and popped from
    is its list of components with a flag for the root.  Whether a folder exists
    and whether a write of the store succeeds are arguments.  The registry's
    lock makes every operation one step.  The clients of a hash map are visited
    in the order of [map_to_list], one of the orders the code may see. *)

From Stdlib Require Import Sorting.Sorted.
From S2P Require Import Prelude Protocol Chat Records Journal Mutation.

Local Open Scope Z_scope.

(** ** Paths *)

Inductive Component := RootDir | CurDir | ParentDir | Normal (segment : list Z).
#[global] Instance Component_eq_dec : EqDecision Component.
Proof. solve_decision. Defined.

(** The pieces between slashes, first one first. *)
Fixpoint split_slash (l piece : list Z) : list (list Z) :=
  match l with
  | [] => [piece]
  | b :: l => if bool_decide (b = 47) then piece :: split_slash l [] else split_slash l (piece ++ [b])
  end.

Definition has_root (path : list Z) : bool := match path with 47 :: _ => true | _ => false end.

(** An empty piece is no component; a dot is one only at the start of a
    relative path. *)
Definition component (first : bool) (piece : list Z) : option Component :=
  if bool_decide (piece = []) then None
  else if bool_decide (piece = [46]) then (if first then Some CurDir else None)
  else if bool_decide (piece = [46; 46]) then Some ParentDir
  else Some (Normal piece).

Definition components (path : list Z) : list Component :=
  if has_root path then RootDir :: omap (component false) (split_slash path [])
  else match split_slash path [] with
       | [] => []
       | piece :: pieces => option_list (component true piece) ++ omap (component false) pieces
       end.

(** A [PathBuf] built by [push] and [pop]. *)
Record PathBuf := mkPath { pb_root : bool; pb_segments : list (list Z) }.

Definition pop (p : PathBuf) : bool * PathBuf :=
  match pb_segments p with
  | [] => (false, p)
  | _ => (true, mkPath (pb_root p) (removelast (pb_segments p)))
  end.
Definition push (segment : list Z) (p : PathBuf) : PathBuf := mkPath (pb_root p) (pb_segments p ++ [segment]).

Fixpoint join_slash (segments : list (list Z)) : list Z :=
  match segments with
  | [] => []
  | [s] => s
  | s :: segments => s ++ 47 :: join_slash segments
  end.
Definition path_bytes (p : PathBuf) : list Z := (if pb_root p then [47] else []) ++ join_slash (pb_segments p).

(** The body of the loop of [canonical_workspace_root]. *)
Definition normalize (absolute : bool) (p : PathBuf) (c : Component) : PathBuf :=
  match c with
  | CurDir => p
  | ParentDir =>
      let '(popped, p) := pop p in
      if negb popped && negb absolute then push [46; 46] p else p
  | Normal segment => push segment p
  | RootDir => mkPath true []
  end.

Definition canonical_workspace_root (workspace_root : string) : string :=
  let path := bytes_of workspace_root in
  if bool_decide (path = []) then ""%string
  else
    let normalized := path_bytes (foldl (normalize (has_root path)) (mkPath false []) (components path)) in
    if bool_decide (normalized = []) then "."%string else of_bytes normalized.

Definition project_id_from_canonical_root (workspace_root : string) : string :=
  let bytes := (fun b => if bool_decide (b = 92) then 47 else b) <$> bytes_of workspace_root in
  "project-" +:+ of_bytes (hex 16 (fnv64 bytes 0xcbf29ce484222325) []).

Definition file_name (path : list Z) : option (list Z) :=
  match last (components path) with Some (Normal segment) => Some segment | _ => None end.

Definition safe_project_label (workspace_root : string) : string :=
  match file_name (bytes_of workspace_root) with
  | Some name => if bool_decide (trim (of_bytes name) = ""%string) then "Project" else of_bytes name
  | None => "Project"
  end.

Record ProjectIdentity := mkIdentity { pi_project_id : string; pi_workspace_root : string; pi_label : string }.

Definition from_workspace_root (workspace_root : string) : ProjectIdentity :=
  let root := canonical_workspace_root workspace_root in
  mkIdentity (project_id_from_canonical_root root) root (safe_project_label root).

Definition project_id_for_workspace (workspace_root : string) : string :=
  pi_project_id (from_workspace_root workspace_root).

(** ** The registry *)

Record ProjectTaskContext := mkProject {
  pt_project_id : string; pt_workspace_root : string; pt_label : string; pt_isolation : IsolationKind;
}.
#[global] Instance IsolationKind_eq_dec : EqDecision IsolationKind.
Proof. solve_decision. Defined.
#[global] Instance ProjectTaskContext_eq_dec : EqDecision ProjectTaskContext.
Proof. solve_decision. Defined.

Definition context_of (workspace_root : string) : ProjectTaskContext :=
  let i := from_workspace_root workspace_root in
  mkProject (pi_project_id i) (pi_workspace_root i) (pi_label i) Local_.

(** [str::cmp]: bytes in lexicographic order. *)
Fixpoint compare_bytes (a b : list Z) : comparison :=
  match a, b with
  | [], [] => Eq
  | [], _ => Lt
  | _, [] => Gt
  | x :: a, y :: b => match x ?= y with Eq => compare_bytes a b | c => c end
  end.
Definition compare_strings (a b : string) : comparison := compare_bytes (bytes_of a) (bytes_of b).

(** [a] comes strictly after [b]. *)
Definition after_project (a b : ProjectTaskContext) : bool :=
  match compare_strings (pt_label a) (pt_label b) with
  | Gt => true
  | Lt => false
  | Eq => match compare_strings (pt_project_id a) (pt_project_id b) with Gt => true | _ => false end
  end.

(** [sort_by] is stable, and so is insertion from the right. *)
Fixpoint insert_project (p : ProjectTaskContext) (l : list ProjectTaskContext) : list ProjectTaskContext :=
  match l with
  | [] => [p]
  | q :: l' => if after_project p q then q :: insert_project p l' else p :: l
  end.
Definition sort_projects (l : list ProjectTaskContext) : list ProjectTaskContext := foldr insert_project [] l.

(** [dedup_by]: an element goes when it has the id of the last one kept. *)
Fixpoint dedup_from (kept : string) (l : list ProjectTaskContext) : list ProjectTaskContext :=
  match l with
  | [] => []
  | p :: l =>
      if bool_decide (pt_project_id p = kept) then dedup_from kept l else p :: dedup_from (pt_project_id p) l
  end.
Definition dedup (l : list ProjectTaskContext) : list ProjectTaskContext :=
  match l with [] => [] | p :: l => p :: dedup_from (pt_project_id p) l end.

Definition sort_and_deduplicate_projects (l : list ProjectTaskContext) : list ProjectTaskContext :=
  dedup (sort_projects l).

Definition project_contexts_from_workspace_roots (roots : list string) : list ProjectTaskContext :=
  sort_and_deduplicate_projects
    (context_of <$> filter (fun root => trim root <> ""%string) roots).

Record ProjectRootsState := mkRoots {
  configured_projects : list ProjectTaskContext;
  managed_projects : list ProjectTaskContext;
  client_projects : gmap string (list ProjectTaskContext);
  removed_project_ids : gset string;
}.

Definition visible_projects (s : ProjectRootsState) : list ProjectTaskContext :=
  sort_and_deduplicate_projects
    (filter (fun p => pt_project_id p ∉ removed_project_ids s)
       (configured_projects s ++ managed_projects s ++ concat (snd <$> map_to_list (client_projects s)))).

Definition resolve (project_id : string) (s : ProjectRootsState) : option ProjectTaskContext :=
  head (filter (fun p => pt_project_id p = project_id) (visible_projects s)).

Record StoredProject := mkStoredProject { sp_workspace_root : string; sp_label : string }.
Record StoredProjectCatalog := mkCatalog {
  ca_projects : list StoredProject; ca_removed_project_ids : list string;
}.

Section Registry.
Context `{PT : PayloadTypes} `{CP : ChatPayloads}.

(** What the registry reads and writes of the store. *)
Record ProjectStore := mkProjectStore { st_catalog : StoredProjectCatalog; st_tasks : list TaskRecord }.

(** [ConfiguredProjectRoots]: the store is bound once persistence is enabled. *)
Record Registry := mkRegistry { rg_state : ProjectRootsState; rg_store : option ProjectStore }.

Definition invalid_project_root (message : string) : ProtocolError :=
  mkProtocolError InvalidRequest message true None.
Definition project_storage_error (e : RuntimeError) : ProtocolError :=
  mkProtocolError Protocol.Internal ("Failed to save Project: " +:+ error_to_string e) true None.

Definition from_workspace_roots (roots : list string) : Registry :=
  mkRegistry (mkRoots (project_contexts_from_workspace_roots roots) [] ∅ ∅) None.

Definition set_managed (managed : list ProjectTaskContext) (removed : gset string) (s : ProjectRootsState)
  : ProjectRootsState := mkRoots (configured_projects s) managed (client_projects s) removed.
Definition set_clients (clients : gmap string (list ProjectTaskContext)) (s : ProjectRootsState) : ProjectRootsState :=
  mkRoots (configured_projects s) (managed_projects s) clients (removed_project_ids s).

Definition stored_context (p : StoredProject) : ProjectTaskContext :=
  let i := from_workspace_root (sp_workspace_root p) in
  mkProject (pi_project_id i) (pi_workspace_root i) (sp_label p) Local_.

(** On the store's contents; the read itself may fail before. *)
Definition enable_persistence (store : ProjectStore) (r : Registry) : Registry :=
  let managed := sort_and_deduplicate_projects (stored_context <$> ca_projects (st_catalog store)) in
  mkRegistry (set_managed managed (list_to_set (ca_removed_project_ids (st_catalog store))) (rg_state r)) (Some store).

Definition catalog_of (managed : list ProjectTaskContext) (removed : gset string) : StoredProjectCatalog :=
  mkCatalog ((fun p => mkStoredProject (pt_workspace_root p) (pt_label p)) <$> managed) (elements removed).

(** [write] is what the store answers to the write. *)
Definition persist_project_catalog (write : result unit RuntimeError) (managed : list ProjectTaskContext)
    (removed : gset string) (store : option ProjectStore) : result (option ProjectStore) ProtocolError :=
  match store, write with
  | None, _ => Ok None
  | Some store, Ok _ => Ok (Some (mkProjectStore (catalog_of managed removed) (st_tasks store)))
  | Some _, Err e => Err (project_storage_error e)
  end.

Definition add_project (is_dir : string -> bool) (write : result unit RuntimeError) (workspace_root : string)
    (r : Registry) : result ProjectTaskContext ProtocolError * Registry :=
  let root := trim workspace_root in
  if bool_decide (root = ""%string) then (Err (invalid_project_root "Project folder is required"), r)
  else if negb (is_dir root) then (Err (invalid_project_root "Project folder does not exist"), r)
  else
    let project := context_of root in
    let s := rg_state r in
    let managed := sort_and_deduplicate_projects (managed_projects s ++ [project]) in
    let removed := removed_project_ids s ∖ {[pt_project_id project]} in
    match persist_project_catalog write managed removed (rg_store r) with
    | Ok store => (Ok project, mkRegistry (set_managed managed removed s) store)
    | Err e => (Err e, r)
    end.

Definition rename_project (write : result unit RuntimeError) (project : ProjectTaskContext) (label : string)
    (r : Registry) : result ProjectTaskContext ProtocolError * Registry :=
  let label := trim label in
  if bool_decide (label = ""%string) then (Err (invalid_project_root "Project name is required"), r)
  else
    let renamed := mkProject (pt_project_id project) (pt_workspace_root project) label (pt_isolation project) in
    let s := rg_state r in
    let managed := sort_and_deduplicate_projects
      (filter (fun p => pt_project_id p <> pt_project_id project) (managed_projects s) ++ [renamed]) in
    match persist_project_catalog write managed (removed_project_ids s) (rg_store r) with
    | Ok store => (Ok renamed, mkRegistry (set_managed managed (removed_project_ids s) s) store)
    | Err e => (Err e, r)
    end.

Definition project_root_of (t : TaskRecord) : string := default (tr_workspace_root t) (tr_project_root t).

(** The loop of [tombstone_project_tasks] with the answers to its writes; the
    Tasks written before a failure stay written. *)
Fixpoint tombstone_tasks (write : string -> result unit RuntimeError) (project_id : string) (tasks : list TaskRecord)
  : result Z ProtocolError * list TaskRecord :=
  match tasks with
  | [] => (Ok 0, [])
  | t :: tasks =>
      if tr_tombstoned t || bool_decide (project_id_for_workspace (project_root_of t) <> project_id)
      then let '(count, tasks) := tombstone_tasks write project_id tasks in (count, t :: tasks)
      else
        match write (tr_task_id t) with
        | Err e => (Err (project_storage_error e), t :: tasks)
        | Ok _ =>
            let t := set_removed true (u64_saturating_add (tr_revision t) 1) t in
            let '(count, tasks) := tombstone_tasks write project_id tasks in
            ((let? count := count in Ok (u64_saturating_add count 1)), t :: tasks)
        end
  end.

Definition tombstone_project_tasks (write : string -> result unit RuntimeError) (project_id : string)
    (store : option ProjectStore) : result Z ProtocolError * option ProjectStore :=
  match store with
  | None => (Ok 0, None)
  | Some store =>
      let '(count, tasks) := tombstone_tasks write project_id (st_tasks store) in
      (count, Some (mkProjectStore (st_catalog store) tasks))
  end.

Definition remove_project (write_task : string -> result unit RuntimeError) (write : result unit RuntimeError)
    (project_id : string) (r : Registry) : result Z ProtocolError * Registry :=
  let '(count, store) := tombstone_project_tasks write_task project_id (rg_store r) in
  match count with
  | Err e => (Err e, mkRegistry (rg_state r) store)
  | Ok count =>
      let s := rg_state r in
      let managed := filter (fun p => pt_project_id p <> project_id) (managed_projects s) in
      let removed := {[project_id]} ∪ removed_project_ids s in
      match persist_project_catalog write managed removed store with
      | Ok store => (Ok count, mkRegistry (set_managed managed removed s) store)
      | Err e => (Err e, mkRegistry s store)
      end
  end.

Definition is_removed (project_id : string) (r : Registry) : bool :=
  bool_decide (project_id ∈ removed_project_ids (rg_state r)).

Definition replace_client_workspace_roots (client : string) (roots : list string) (r : Registry) : bool * Registry :=
  let replacement := project_contexts_from_workspace_roots roots in
  let s := rg_state r in
  let clients := match replacement with [] => delete client | _ => <[client := replacement]> end (client_projects s) in
  let s' := set_clients clients s in
  (bool_decide (visible_projects s <> visible_projects s'), mkRegistry s' (rg_store r)).

Definition remove_client_workspace_roots (client : string) (r : Registry) : bool * Registry :=
  let s := rg_state r in
  let s' := set_clients (delete client (client_projects s)) s in
  (bool_decide (visible_projects s <> visible_projects s'), mkRegistry s' (rg_store r)).

(** ** Resolution *)

Definition project_context_from_workspace (project_id : string) (workspace_root : option string)
  : option ProjectTaskContext :=
  root ← trim <$> workspace_root;
  if bool_decide (root = ""%string) then None
  else let c := context_of root in
       if bool_decide (pt_project_id c <> project_id) then None else Some c.

Record ProjectTaskSortKey := mkSortKey { sk_last_activity : string; sk_updated_at : string; sk_task_id : string }.

Definition compare_keys (a b : ProjectTaskSortKey) : comparison :=
  match compare_strings (sk_last_activity a) (sk_last_activity b) with
  | Eq => match compare_strings (sk_updated_at a) (sk_updated_at b) with
          | Eq => compare_strings (sk_task_id a) (sk_task_id b)
          | c => c
          end
  | c => c
  end.

Definition sort_key (t : TaskRecord) : ProjectTaskSortKey :=
  mkSortKey (tr_last_activity t) (tr_updated_at t) (tr_task_id t).

(** The first element of the stable sort by the reversed key: the earliest of
    the Tasks with the greatest key. *)
Fixpoint newest_task (tasks : list TaskRecord) : option TaskRecord :=
  match tasks with
  | [] => None
  | t :: tasks =>
      match newest_task tasks with
      | None => Some t
      | Some u => match compare_keys (sort_key t) (sort_key u) with Lt => Some u | _ => Some t end
      end
  end.

Definition project_not_found (project_id : string) : ProtocolError :=
  mkProtocolError NotFound ("Project not found: " +:+ project_id) false None.

(** [StorageProjectResolver::resolve_task_context] with the Tasks the store
    lists. *)
Definition resolve_task_context (project_id : string) (s : ProjectRootsState) (records : result (list TaskRecord) RuntimeError)
  : result ProjectTaskContext ProtocolError :=
  match resolve project_id s with
  | Some project => Ok project
  | None =>
      match records with
      | Err e => Err (mkProtocolError Protocol.Internal ("Failed to resolve Project: " +:+ error_to_string e) true None)
      | Ok records =>
          let matches := filter (fun t => tr_tombstoned t = false /\
                                          project_id_for_workspace (project_root_of t) = project_id) records in
          match newest_task matches with
          | Some t =>
              let i := from_workspace_root (project_root_of t) in
              Ok (mkProject (pi_project_id i) (pi_workspace_root i) (pi_label i) (tr_isolation t))
          | None => Err (project_not_found project_id)
          end
      end
  end.

Definition resolve_project_context (resolved : result ProjectTaskContext ProtocolError) (project_id : string)
    (workspace_root : option string) : result ProjectTaskContext ProtocolError :=
  match resolved with
  | Ok project => Ok project
  | Err e =>
      match err_code e with
      | NotFound => ok_or (project_context_from_workspace project_id workspace_root) e
      | _ => Err e
      end
  end.
End Registry.

(** ** The canonical form of a folder *)

(** A piece that is a component of its own. *)
Definition plain (s : list Z) : Prop := s <> [] /\ s <> [46] /\ (47 ∉ s) /\ bytes_ok s.
Definition normal (s : list Z) : Prop := plain s /\ s <> [46; 46].

Lemma split_slash_pieces l piece : (47 ∉ piece) -> bytes_ok (piece ++ l) ->
  Forall (fun s => (47 ∉ s) /\ bytes_ok s) (split_slash l piece).
Proof.
  revert piece. induction l as [|b l IH]; intros piece Hp Hok; cbn.
  - rewrite app_nil_r in Hok. by repeat constructor.
  - apply Forall_app in Hok as [Hp1 Hbl]. apply Forall_cons in Hbl as [Hb Hl]. split_test.
    + constructor; [done|]. apply IH; [by apply not_elem_of_nil|done].
    + apply IH; [|rewrite <- app_assoc; cbn; apply Forall_app; split; [done|by constructor]].
      intros [?|?%list_elem_of_singleton]%elem_of_app; [done|by subst].
Qed.

Lemma split_slash_app s l piece : (47 ∉ s) -> split_slash (s ++ 47 :: l) piece = (piece ++ s) :: split_slash l [].
Proof.
  revert piece. induction s as [|b s IH]; intros piece Hs; cbn.
  - by rewrite app_nil_r.
  - apply not_elem_of_cons in Hs as [Hb Hs]. rewrite bool_decide_eq_false_2 by congruence.
    rewrite IH by done. by rewrite <- app_assoc.
Qed.

Lemma split_slash_last s piece : (47 ∉ s) -> split_slash s piece = [piece ++ s].
Proof.
  revert piece. induction s as [|b s IH]; intros piece Hs; cbn; [by rewrite app_nil_r|].
  apply not_elem_of_cons in Hs as [Hb Hs]. rewrite bool_decide_eq_false_2 by congruence.
  rewrite IH by done. by rewrite <- app_assoc.
Qed.

Lemma split_join segments : segments <> [] -> Forall (fun s => 47 ∉ s) segments ->
  split_slash (join_slash segments) [] = segments.
Proof.
  intros Hne Hs. induction Hs as [|s segments Hs Hrest IH]; [done|].
  destruct segments as [|s' segments]; cbn; [by apply split_slash_last|].
  rewrite split_slash_app by done. cbn in IH. by rewrite IH.
Qed.

Lemma component_normal first s : normal s -> component first s = Some (Normal s).
Proof.
  intros ((H1 & H2 & _) & H3). unfold component. by rewrite !bool_decide_eq_false_2.
Qed.
Lemma component_inv first piece c : (47 ∉ piece) -> bytes_ok piece -> component first piece = Some c ->
  match c with Normal s => normal s | RootDir => False | _ => True end.
Proof.
  intros Hs Hok. unfold component. repeat split_test; try destruct first; intros [= <-]; done.
Qed.

(** The paths the loop can build: a parent only in front, and only without a
    root. *)
Definition canonical (p : PathBuf) : Prop :=
  exists up names, pb_segments p = up ++ names /\ Forall normal names /\
    (up = [] \/ (up = [[46; 46]] /\ pb_root p = false)).

Definition fits (absolute : bool) (c : Component) (p : PathBuf) : Prop :=
  match c with Normal s => normal s | RootDir => True | _ => absolute = true -> pb_root p = true end.

Lemma normalize_canonical absolute p c :
  canonical p -> fits absolute c p -> (absolute = false -> pb_root p = false) -> canonical (normalize absolute p c).
Proof.
  intros (up & names & Hseg & Hn & Hup) Hfit Habs. destruct c as [| | |s]; cbn in *.
  - exists [], []. by repeat split; [|left].
  - by exists up, names.
  - unfold pop. rewrite Hseg. destruct names as [|n names _] using rev_ind.
    + destruct Hup as [->|[-> Hr]]; cbn.
      * destruct absolute; cbn; [exists [], []; rewrite Hseg; by repeat split; [|left]|].
        exists [[46; 46]], []. unfold push. rewrite Hseg. cbn. repeat split; [done|]. right. by rewrite Habs.
      * exists [], []. cbn. by repeat split; [|left].
    + assert (exists a l, up ++ names ++ [n] = a :: l) as (a & l & El) by (destruct up, names; cbn; eauto).
      rewrite El. cbn [negb andb]. exists up, names. cbn [pb_segments pb_root]. rewrite <- El, app_assoc, removelast_last.
      apply Forall_app in Hn as [Hn _]. done.
  - exists up, (names ++ [s]). unfold push. cbn. rewrite Hseg, <- app_assoc. repeat split; [|done].
    apply Forall_app. split; [done|by apply Forall_singleton].
Qed.

Lemma normalize_names absolute names p : Forall normal names ->
  foldl (normalize absolute) p (Normal <$> names) = mkPath (pb_root p) (pb_segments p ++ names).
Proof.
  intros Hn. revert p. induction Hn as [|s names Hs Hn IH]; intros p; cbn; [destruct p; cbn; by rewrite app_nil_r|].
  rewrite IH. unfold push. cbn. by rewrite <- app_assoc.
Qed.

Lemma components_names first names : Forall normal names ->
  omap (component first) names = Normal <$> names.
Proof. induction 1 as [|s names Hs _ IH]; cbn; [done|]. rewrite component_normal by done. by rewrite IH. Qed.

Lemma normal_no_slash names : Forall normal names -> Forall (fun s => 47 ∉ s) names.
Proof. intros H. eapply Forall_impl; [exact H|]. by intros s ((_ & _ & ? & _) & _). Qed.

Lemma head_not_slash names : Forall normal names -> has_root (join_slash names) = false.
Proof.
  destruct 1 as [|s names ((Hne & _ & Hs & _) & _) _]; [done|]. destruct s as [|b s]; [done|].
  apply not_elem_of_cons in Hs as [Hb _].
  assert (exists rest, join_slash ((b :: s) :: names) = b :: rest) as (rest & ->) by (destruct names; cbn; eauto).
  cbn. repeat case_match; try done; by subst.
Qed.

Lemma normalize_all absolute cs p :
  canonical p -> (absolute = false -> pb_root p = false) -> (absolute = true -> pb_root p = true) ->
  Forall (fun c => match c with Normal s => normal s | RootDir => False | _ => True end) cs ->
  canonical (foldl (normalize absolute) p cs) /\ pb_root (foldl (normalize absolute) p cs) = pb_root p.
Proof.
  intros Hc Hf Ht Hcs. revert p Hc Hf Ht. induction Hcs as [|c cs Hcomp _ IH]; intros p Hc Hf Ht; cbn; [done|].
  assert (pb_root (normalize absolute p c) = pb_root p) as Hroot.
  { destruct c; cbn; try done. unfold pop. destruct (pb_segments p); by destruct absolute. }
  destruct (IH (normalize absolute p c)) as [H1 H2].
  - apply normalize_canonical; [done| |done]. by destruct c.
  - by rewrite Hroot.
  - by rewrite Hroot.
  - split; [done|congruence].
Qed.

(** The components of a path after the root. *)
Definition relative_components (path : list Z) : list Component :=
  if has_root path then omap (component false) (split_slash path [])
  else match split_slash path [] with
       | [] => []
       | piece :: pieces => option_list (component true piece) ++ omap (component false) pieces
       end.

Lemma components_eq path :
  components path = (if has_root path then [RootDir] else []) ++ relative_components path.
Proof. unfold components, relative_components. by destruct (has_root path). Qed.

Lemma relative_components_ok path : bytes_ok path ->
  Forall (fun c => match c with Normal s => normal s | RootDir => False | _ => True end) (relative_components path).
Proof.
  intros Hok. pose proof (split_slash_pieces path [] (not_elem_of_nil _) Hok) as Hp. unfold relative_components.
  assert (forall first pieces, Forall (fun s => (47 ∉ s) /\ bytes_ok s) pieces ->
    Forall (fun c => match c with Normal s => normal s | RootDir => False | _ => True end) (omap (component first) pieces)) as Hall.
  { intros first pieces. rewrite !Forall_forall. intros H c Hc. apply list_elem_of_omap in Hc as (piece & Hin & Hc).
    destruct (H _ Hin). by eapply component_inv. }
  destruct (has_root path); [by apply Hall|]. destruct Hp as [|piece pieces Hpiece Hp]; [done|].
  apply Forall_app. split; [|by apply Hall].
  specialize (Hall true [piece] ltac:(by apply Forall_singleton)). cbn in Hall. by destruct (component true piece).
Qed.

(** The path [canonical_workspace_root] prints. *)
Definition normal_path (path : list Z) : PathBuf :=
  foldl (normalize (has_root path)) (mkPath false []) (components path).

Lemma normal_path_canonical path : bytes_ok path ->
  canonical (normal_path path) /\ pb_root (normal_path path) = has_root path.
Proof.
  intros Hok. unfold normal_path. rewrite components_eq, foldl_app.
  pose proof (relative_components_ok path Hok) as Hcs. destruct (has_root path) eqn:Hr; cbn.
  - by apply (normalize_all true _ (mkPath true [])); [exists [], []; repeat split; left| | |].
  - by apply (normalize_all false _ (mkPath false [])); [exists [], []; repeat split; left| | |].
Qed.

Lemma join_root names : names <> [] -> join_slash ([] :: names) = 47 :: join_slash names.
Proof. by destruct names. Qed.

Lemma canonical_prints p : canonical p -> path_bytes p <> [] -> normal_path (path_bytes p) = p.
Proof.
  intros (up & names & Hseg & Hn & Hup) Hne. destruct p as [root segments]. cbn in *. subst segments.
  unfold path_bytes in *. cbn in *.
  pose proof (normal_no_slash _ Hn) as Hns. destruct root; cbn [app].
  - destruct Hup as [->|[_ ?]]; [|done]. cbn [app] in *. unfold normal_path. rewrite components_eq. cbn [has_root].
    unfold relative_components. cbn [has_root]. destruct names as [|n names]; [done|].
    rewrite <- (join_root (n :: names)) by done. rewrite split_join; [|done|constructor; [by apply not_elem_of_nil|done]].
    change (omap (component false) ([] :: n :: names)) with (omap (component false) (n :: names)).
    rewrite components_names by done. cbn [app foldl normalize]. by rewrite normalize_names.
  - assert (has_root (join_slash (up ++ names)) = false) as Hr.
    { destruct Hup as [->|[-> _]]; [by apply head_not_slash|]. by destruct names. }
    unfold normal_path. rewrite components_eq, Hr. cbn [app]. unfold relative_components. rewrite Hr.
    assert (up ++ names <> []) as Hne' by (intros E; by rewrite E in Hne).
    rewrite split_join; [|done|]; [|apply Forall_app; split; [|done]; destruct Hup as [->|[-> _]]; [done|]].
    2: { repeat constructor. set_solver. }
    destruct Hup as [->|[-> _]]; cbn [app].
    + destruct Hn as [|n names Hn1 Hn]; [done|]. rewrite component_normal, components_names by done. cbn.
      rewrite normalize_names by done. done.
    + rewrite components_names by done. change (component true [46; 46]) with (Some ParentDir).
      rewrite foldl_app. by rewrite normalize_names.
Qed.

Lemma path_bytes_ok p : canonical p -> bytes_ok (path_bytes p).
Proof.
  intros (up & names & Hseg & Hn & Hup). unfold path_bytes. apply Forall_app. split.
  { destruct (pb_root p); repeat constructor; lia. }
  assert (Forall bytes_ok (pb_segments p)) as Hall.
  { rewrite Hseg. apply Forall_app. split.
    - destruct Hup as [->|[-> _]]; repeat constructor; lia.
    - eapply Forall_impl; [done|]. by intros s ((_ & _ & _ & ?) & _). }
  clear - Hall. induction Hall as [|s segments Hs _ IH]; [constructor|].
  destruct segments as [|s' segments]; [done|]. cbn. apply Forall_app. split; [done|]. constructor; [lia|done].
Qed.

(** The canonical form of a folder is its own canonical form. *)
Lemma canonical_idempotent root :
  canonical_workspace_root (canonical_workspace_root root) = canonical_workspace_root root.
Proof.
  unfold canonical_workspace_root at 2 3. cbv zeta. pose proof (bytes_of_ok root) as Hok.
  split_test; [done|]. fold (normal_path (bytes_of root)).
  destruct (normal_path_canonical _ Hok) as [Hc Hr]. split_test; [by vm_compute|].
  pose proof (path_bytes_ok _ Hc) as Hb. unfold canonical_workspace_root.
  rewrite bytes_of_bytes by done. rewrite bool_decide_eq_false_2 by done. cbv zeta.
  fold (normal_path (path_bytes (normal_path (bytes_of root)))). rewrite canonical_prints by done.
  by rewrite bool_decide_eq_false_2.
Qed.

Lemma identity_idempotent root :
  from_workspace_root (pi_workspace_root (from_workspace_root root)) = from_workspace_root root.
Proof. unfold from_workspace_root at 1 3. cbn. by rewrite canonical_idempotent. Qed.

(** ** The order of Projects *)

Lemma compare_bytes_eq a b : compare_bytes a b = Eq <-> a = b.
Proof.
  revert b. induction a as [|x a IH]; intros [|y b]; cbn; try done.
  destruct (Z.compare_spec x y); subst; rewrite ?IH; split; try done; try congruence; intros [= ?]; subst; lia.
Qed.

Lemma compare_bytes_opp a b : compare_bytes b a = CompOpp (compare_bytes a b).
Proof.
  revert b. induction a as [|x a IH]; intros [|y b]; cbn; try done.
  rewrite (Z.compare_antisym x y). destruct (x ?= y); cbn; auto.
Qed.

Lemma compare_bytes_trans a b c : compare_bytes a b <> Gt -> compare_bytes b c <> Gt -> compare_bytes a c <> Gt.
Proof.
  revert b c. induction a as [|x a IH]; intros [|y b] [|z c]; cbn; try done.
  destruct (Z.compare_spec x y), (Z.compare_spec y z); subst; try done; rewrite ?Z.compare_refl; eauto.
  all: match goal with |- context [?p ?= ?q] => destruct (Z.compare_spec p q) end; try done; lia.
Qed.

Lemma compare_strings_eq a b : compare_strings a b = Eq <-> a = b.
Proof.
  unfold compare_strings. rewrite compare_bytes_eq. split; [|congruence].
  intros H. by rewrite <- (of_bytes_of a), H, of_bytes_of.
Qed.

(** [p] may stand before [q]. *)
Definition before (p q : ProjectTaskContext) : Prop := after_project p q = false.

Lemma before_iff p q :
  before p q <-> compare_strings (pt_label p) (pt_label q) = Lt \/
    (pt_label p = pt_label q /\ compare_strings (pt_project_id p) (pt_project_id q) <> Gt).
Proof.
  unfold before, after_project. rewrite <- compare_strings_eq.
  destruct (compare_strings (pt_label p) (pt_label q)); [|naive_solver|naive_solver].
  destruct (compare_strings (pt_project_id p) (pt_project_id q)); naive_solver.
Qed.

Lemma before_total p q : after_project p q = true -> before q p.
Proof.
  rewrite before_iff. unfold after_project, compare_strings.
  rewrite (compare_bytes_opp (bytes_of (pt_label p))), (compare_bytes_opp (bytes_of (pt_project_id p))).
  destruct (compare_bytes (bytes_of (pt_label p)) _) eqn:E; cbn; [|done|by left].
  apply compare_strings_eq in E. destruct (compare_bytes _ _); try done. right. by split.
Qed.

Lemma before_trans p q r : before p q -> before q r -> before p r.
Proof.
  rewrite !before_iff. unfold compare_strings.
  assert (forall a b c, compare_bytes a b = Lt -> compare_bytes b c <> Gt -> compare_bytes a c = Lt) as Hl.
  { intros a b c H1 H2. destruct (compare_bytes a c) eqn:E; [|done|].
    - apply compare_bytes_eq in E as ->. rewrite compare_bytes_opp, H1 in H2. done.
    - destruct (compare_bytes_trans a b c); congruence. }
  intros [H1|[H1 H1']] [H2|[H2 H2']].
  - left. eapply Hl; [done|congruence].
  - left. by rewrite <- H2.
  - left. by rewrite H1.
  - right. split; [congruence|]. by eapply compare_bytes_trans.
Qed.

Abbreviation in_order := (StronglySorted before).

Lemma insert_project_perm p l : insert_project p l ≡ₚ p :: l.
Proof. induction l as [|q l IH]; cbn; [done|]. destruct (after_project p q); [|done]. rewrite IH. constructor. Qed.
Lemma sort_projects_perm l : sort_projects l ≡ₚ l.
Proof. induction l as [|p l IH]; cbn; [done|]. by rewrite insert_project_perm, IH. Qed.

Lemma insert_project_sorted p l : in_order l -> in_order (insert_project p l).
Proof.
  induction 1 as [|q l Hl IH Hq]; cbn; [by repeat constructor|]. destruct (after_project p q) eqn:E.
  - constructor; [done|]. rewrite insert_project_perm. constructor; [by apply before_total|done].
  - constructor; [by constructor|]. constructor; [done|]. eapply Forall_impl; [done|].
    intros r Hr. by eapply before_trans.
Qed.
Lemma sort_projects_sorted l : in_order (sort_projects l).
Proof. induction l; cbn; [constructor|by apply insert_project_sorted]. Qed.

Lemma sort_projects_id l : in_order l -> sort_projects l = l.
Proof.
  induction 1 as [|p l _ IH Hp]; [done|]. change (sort_projects (p :: l)) with (insert_project p (sort_projects l)).
  rewrite IH. destruct Hp as [|q l Hq _]; cbn; [done|]. by rewrite Hq.
Qed.

Lemma dedup_from_sublist kept l : sublist (dedup_from kept l) l.
Proof.
  revert kept. induction l as [|p l IH]; intros kept; cbn; [constructor|]. split_test; by constructor.
Qed.
Lemma dedup_sublist l : sublist (dedup l) l.
Proof. destruct l; cbn; [done|]. constructor. apply dedup_from_sublist. Qed.

Lemma sublist_sorted l k : sublist l k -> in_order k -> in_order l.
Proof.
  induction 1 as [|p l k Hs IH|p l k Hs IH]; [done| |]; intros Hk; inversion_clear Hk as [|? ? Hk' Hp]; [|by apply IH].
  constructor; [by apply IH|]. rewrite Forall_forall in *. intros q Hq. apply Hp. by eapply elem_of_sublist.
Qed.

Lemma dedup_from_idempotent kept l : dedup_from kept (dedup_from kept l) = dedup_from kept l.
Proof.
  revert kept. induction l as [|p l IH]; intros kept; cbn; [done|]. split_test; [apply IH|]. cbn.
  rewrite bool_decide_eq_false_2 by done. by rewrite IH.
Qed.
Lemma dedup_idempotent l : dedup (dedup l) = dedup l.
Proof. destruct l; cbn; [done|]. by rewrite dedup_from_idempotent. Qed.

(** The first project with an id survives. *)
Lemma dedup_from_first kept id l : id <> kept ->
  head (filter (fun p => pt_project_id p = id) (dedup_from kept l)) = head (filter (fun p => pt_project_id p = id) l).
Proof.
  revert kept. induction l as [|p l IH]; intros kept Hid; cbn [dedup_from]; [done|]. split_test.
  - rewrite IH by done. rewrite filter_cons_False by congruence. done.
  - destruct (decide (pt_project_id p = id)) as [Hp|Hp].
    + by rewrite !filter_cons_True by done.
    + rewrite !filter_cons_False by done. by apply IH.
Qed.
Lemma dedup_first id l :
  head (filter (fun p => pt_project_id p = id) (dedup l)) = head (filter (fun p => pt_project_id p = id) l).
Proof.
  destruct l as [|p l]; cbn [dedup]; [done|]. destruct (decide (pt_project_id p = id)) as [Hp|Hp].
  - by rewrite !filter_cons_True by done.
  - rewrite !filter_cons_False by done. by apply dedup_from_first.
Qed.

(** The isolation is not part of a stored Project. *)
Definition forget (p : ProjectTaskContext) : ProjectTaskContext :=
  mkProject (pt_project_id p) (pt_workspace_root p) (pt_label p) Local_.

Lemma forget_sorted l : in_order l -> in_order (forget <$> l).
Proof.
  induction 1 as [|p l _ IH Hp]; cbn; [constructor|]. constructor; [done|]. apply Forall_fmap.
  eapply Forall_impl; [done|]. by intros q Hq.
Qed.
Lemma forget_dedup l : dedup (forget <$> l) = forget <$> dedup l.
Proof.
  assert (forall kept l, dedup_from kept (forget <$> l) = forget <$> dedup_from kept l) as H.
  { intros kept k. revert kept. induction k as [|p k IH]; intros kept; cbn; [done|]. split_test; cbn; by rewrite IH. }
  destruct l; cbn; [done|]. by rewrite H.
Qed.


(** ** What the registry promises *)

Section Promises.
Context `{PT : PayloadTypes} `{CP : ChatPayloads}.

(** The id and folder of a context belong together. *)
Definition consistent (p : ProjectTaskContext) : Prop :=
  exists root, pt_project_id p = pi_project_id (from_workspace_root root) /\
               pt_workspace_root p = pi_workspace_root (from_workspace_root root).

Inductive ProjectOp :=
| OpAdd (is_dir : string -> bool) (write : result unit RuntimeError) (root : string)
| OpRename (write : result unit RuntimeError) (project : ProjectTaskContext) (label : string)
| OpRemove (write_task : string -> result unit RuntimeError) (write : result unit RuntimeError) (project_id : string)
| OpReplaceClient (client : string) (roots : list string)
| OpRemoveClient (client : string).

(** A rename is for a resolved Project. *)
Definition project_op_ok (op : ProjectOp) : Prop := match op with OpRename _ p _ => consistent p | _ => True end.

Definition project_step (r : Registry) (op : ProjectOp) : Registry :=
  match op with
  | OpAdd d w root => (add_project d w root r).2
  | OpRename w p label => (rename_project w p label r).2
  | OpRemove wt w id => (remove_project wt w id r).2
  | OpReplaceClient c roots => (replace_client_workspace_roots c roots r).2
  | OpRemoveClient c => (remove_client_workspace_roots c r).2
  end.

Definition reload (c : StoredProjectCatalog) : list ProjectTaskContext * gset string :=
  (sort_and_deduplicate_projects (stored_context <$> ca_projects c), list_to_set (ca_removed_project_ids c)).

Definition managed_ok (r : Registry) : Prop :=
  in_order (managed_projects (rg_state r)) /\ Forall consistent (managed_projects (rg_state r)) /\
  match rg_store r with
  | Some store =>
      reload (st_catalog store) = (forget <$> dedup (managed_projects (rg_state r)), removed_project_ids (rg_state r))
  | None => True
  end.

Lemma context_consistent root : consistent (context_of root).
Proof. by exists root. Qed.

Lemma stored_consistent p : consistent p ->
  stored_context (mkStoredProject (pt_workspace_root p) (pt_label p)) = forget p.
Proof.
  intros (root & Hid & Hroot). unfold stored_context, forget. cbn [sp_workspace_root sp_label].
  rewrite Hroot, identity_idempotent. by rewrite <- Hid, <- Hroot.
Qed.

Lemma reload_catalog managed removed : in_order managed -> Forall consistent managed ->
  reload (catalog_of managed removed) = (forget <$> dedup managed, removed).
Proof.
  intros Ho Hc. unfold reload, catalog_of. cbn. rewrite <- list_fmap_compose.
  rewrite (list_fmap_ext _ forget).
  2: { intros j p Hp. rewrite Forall_lookup in Hc. by apply stored_consistent, (Hc j). }
  unfold sort_and_deduplicate_projects. rewrite sort_projects_id by by apply forget_sorted.
  rewrite forget_dedup. f_equal. apply list_to_set_elements_L.
Qed.

Lemma sort_dedup_ok l : Forall consistent l ->
  in_order (sort_and_deduplicate_projects l) /\ Forall consistent (sort_and_deduplicate_projects l).
Proof.
  intros Hl. unfold sort_and_deduplicate_projects. split.
  - eapply sublist_sorted; [apply dedup_sublist|apply sort_projects_sorted].
  - rewrite Forall_forall in *. intros p Hp. apply Hl. rewrite <- sort_projects_perm.
    eapply elem_of_sublist; [done|apply dedup_sublist].
Qed.

Lemma persist_ok write managed removed store store' :
  persist_project_catalog write managed removed store = Ok store' ->
  in_order managed -> Forall consistent managed ->
  match store' with
  | Some st => reload (st_catalog st) = (forget <$> dedup managed, removed)
  | None => True
  end.
Proof.
  unfold persist_project_catalog. intros H Ho Hc. repeat case_match; simplify_eq; try done. by apply reload_catalog.
Qed.

Lemma filter_ok (P : ProjectTaskContext -> Prop) `{!forall p, Decision (P p)} l :
  in_order l -> Forall consistent l -> in_order (filter P l) /\ Forall consistent (filter P l).
Proof.
  intros Ho Hc. split; [eapply sublist_sorted; [apply sublist_filter|done]|].
  rewrite Forall_forall in *. intros p [_ Hp]%list_elem_of_filter. auto.
Qed.

Lemma project_step_ok r op : managed_ok r -> project_op_ok op -> managed_ok (project_step r op).
Proof.
  intros Hr Hop. pose proof Hr as (Ho & Hc & Hs). destruct op as [d w root|w p label|wt w id|c roots|c]; cbn [project_step project_op_ok] in *.
  - clear Hs. unfold add_project. repeat case_match; cbn [snd]; try exact Hr.
    destruct (sort_dedup_ok (managed_projects (rg_state r) ++ [context_of (trim root)])) as [Ho' Hc'].
    { apply Forall_app. split; [done|]. apply Forall_singleton, context_consistent. }
    repeat split; try done. by eapply persist_ok.
  - clear Hs. unfold rename_project. repeat case_match; cbn [snd]; try exact Hr.
    match goal with H : persist_project_catalog _ (sort_and_deduplicate_projects ?l) _ _ = _ |- _ =>
      destruct (sort_dedup_ok l) as [Ho' Hc'] end.
    { apply Forall_app. split; [by apply filter_ok|]. apply Forall_singleton. exact Hop. }
    repeat split; try done. by eapply persist_ok.
  - unfold remove_project. destruct (tombstone_project_tasks wt id (rg_store r)) as [count store] eqn:Et.
    assert (match store with
            | Some st => reload (st_catalog st)
                = (forget <$> dedup (managed_projects (rg_state r)), removed_project_ids (rg_state r))
            | None => True end) as Hst.
    { unfold tombstone_project_tasks in Et. destruct (rg_store r) as [st|]; simplify_eq; [|done].
      by destruct (tombstone_tasks wt id (st_tasks st)); simplify_eq. }
    clear Hs. destruct count as [count|e]; [|by split_and!]. cbv zeta.
    destruct (persist_project_catalog w _ _ store) as [store'|e] eqn:Ep; [|by split_and!].
    destruct (filter_ok (fun p => pt_project_id p <> id) _ Ho Hc) as [Ho' Hc']. split_and!; try done. by eapply persist_ok.
  - done.
  - done.
Qed.

Lemma enable_persistence_ok store r : managed_ok (enable_persistence store r).
Proof.
  destruct (sort_dedup_ok (stored_context <$> ca_projects (st_catalog store))) as [Ho Hc].
  { apply Forall_fmap, Forall_forall. intros p _. by exists (sp_workspace_root p). }
  repeat split; try done. cbn [enable_persistence rg_store rg_state managed_projects set_managed removed_project_ids].
  unfold reload. f_equal. unfold sort_and_deduplicate_projects at 2. rewrite dedup_idempotent.
  rewrite <- (list_fmap_id (sort_and_deduplicate_projects _)) at 1. apply list_fmap_ext. intros j p Hp.
  assert (p ∈ stored_context <$> ca_projects (st_catalog store)) as Hin.
  { rewrite <- sort_projects_perm. eapply elem_of_sublist; [|apply dedup_sublist]. by eapply list_elem_of_lookup_2. }
  by apply list_elem_of_fmap in Hin as (q & -> & _).
Qed.

Lemma project_run_ok ops r : managed_ok r -> Forall project_op_ok ops -> managed_ok (foldl project_step r ops).
Proof. intros Hr Hops. revert r Hr. induction Hops; intros r Hr; cbn; [done|]. eauto using project_step_ok. Qed.

(** Every context that some source contributes. *)
Definition contributed (s : ProjectRootsState) : list ProjectTaskContext :=
  configured_projects s ++ managed_projects s ++ concat (snd <$> map_to_list (client_projects s)).

Lemma visible_first id s :
  resolve id s = head (filter (fun p => pt_project_id p = id)
                         (sort_projects (filter (fun p => pt_project_id p ∉ removed_project_ids s) (contributed s)))).
Proof. apply dedup_first. Qed.

Lemma head_filter_none {A} (P : A -> Prop) {D : forall x, Decision (P x)} (l : list A) :
  head (filter P l) = None <-> forall x, x ∈ l -> ~ P x.
Proof.
  split.
  - intros H x Hx Hp. assert (x ∈ filter P l) as Hin by by apply list_elem_of_filter.
    destruct (filter P l); [by apply elem_of_nil in Hin|done].
  - intros H. destruct (filter P l) as [|x k] eqn:E; [done|].
    assert (x ∈ filter P l) as [Hp Hx]%list_elem_of_filter by (rewrite E; left). by destruct (H x Hx).
Qed.

Lemma resolve_none id s :
  resolve id s = None <-> id ∈ removed_project_ids s \/ forall p, p ∈ contributed s -> pt_project_id p <> id.
Proof.
  rewrite visible_first, head_filter_none. split.
  - intros H. destruct (decide (id ∈ removed_project_ids s)) as [Hin|Hin]; [by left|]. right. intros p Hp Hid.
    apply (H p); [|done]. rewrite sort_projects_perm. apply list_elem_of_filter. by rewrite Hid.
  - intros H p. rewrite sort_projects_perm, list_elem_of_filter. intros [Hr Hp] Hid. subst id.
    destruct H as [H|H]; [done|]. by apply (H p).
Qed.

Definition of_project (id : string) (t : TaskRecord) : Prop := project_id_for_workspace (project_root_of t) = id.
#[local] Instance of_project_dec id t : Decision (of_project id t).
Proof. unfold of_project. apply _. Defined.

(** Nothing of the project is left to show. *)
Definition gone (id : string) (r : Registry) : Prop :=
  id ∈ removed_project_ids (rg_state r) /\
  match rg_store r with
  | Some store => forall t, t ∈ st_tasks store -> of_project id t -> tr_tombstoned t = true
  | None => True
  end.

Lemma tombstone_tasks_spec wt id tasks : 
  let '(count, tasks') := tombstone_tasks wt id tasks in
  Forall2 (fun t t' => t' = t \/ (of_project id t /\ t' = set_removed true (u64_saturating_add (tr_revision t) 1) t))
    tasks tasks' /\
  match count with
  | Ok n => n = Z.min (Z.of_nat (length (filter (fun t => tr_tombstoned t = false /\ of_project id t) tasks))) u64_max /\
            Forall (fun t => of_project id t -> tr_tombstoned t = true) tasks'
  | Err e => exists t err, t ∈ tasks /\ wt (tr_task_id t) = Err err /\ e = project_storage_error err
  end.
Proof.
  induction tasks as [|t tasks IH]; cbn [tombstone_tasks]; [by repeat constructor|].
  destruct (tombstone_tasks wt id tasks) as [count tasks'] eqn:Et. destruct IH as [Hf Hcount].
  destruct (tr_tombstoned t || bool_decide (project_id_for_workspace (project_root_of t) <> id)) eqn:Eskip.
  - split; [constructor; [by left|done]|]. destruct count as [n|e].
    + destruct Hcount as [-> Hall]. rewrite filter_cons_False.
      2: { intros [Ht Hp]. unfold of_project in Hp. rewrite Ht in Eskip. cbn in Eskip. simp_all. done. }
      split; [done|]. constructor; [|done]. intros Hp. unfold of_project in Hp. apply orb_true_iff in Eskip as [?|E]; [done|].
      simp_all. done.
    + destruct Hcount as (u & err & Hu & Hw & ->). exists u, err. split; [by right|done].
  - apply orb_false_iff in Eskip as [Ht Hp]. simp_all. apply dec_stable in Hp.
    destruct (wt (tr_task_id t)) as [ok|err] eqn:Ew.
    + split; [constructor; [right; done|done]|]. rewrite filter_cons_True by done. destruct count as [n|e]; cbn.
      * destruct Hcount as [-> Hall]. split; [|by constructor].
        unfold u64_saturating_add. lia.
      * destruct Hcount as (u & err & Hu & Hw & ->). exists u, err. split; [by right|done].
    + split; [constructor; [by left|]|by exists t, err; split; [left|]].
      clear. induction tasks; constructor; [by left|done].
Qed.

Lemma tombstone_of_project id t rev : of_project id (set_removed true rev t) <-> of_project id t.
Proof. done. Qed.

Definition keeps_removed (id : string) (op : ProjectOp) : Prop :=
  match op with OpAdd _ _ root => pt_project_id (context_of (trim root)) <> id | _ => True end.

Lemma persist_tasks write managed removed store store' :
  persist_project_catalog write managed removed store = Ok store' ->
  st_tasks <$> store' = st_tasks <$> store.
Proof. unfold persist_project_catalog. intros H. by repeat case_match; simplify_eq. Qed.

Lemma tombstone_keeps id id' wt tasks :
  (forall t, t ∈ tasks -> of_project id t -> tr_tombstoned t = true) ->
  forall t, t ∈ (tombstone_tasks wt id' tasks).2 -> of_project id t -> tr_tombstoned t = true.
Proof.
  intros H t Ht Hp. pose proof (tombstone_tasks_spec wt id' tasks) as Hs.
  destruct (tombstone_tasks wt id' tasks) as [count tasks']. destruct Hs as [Hf _]. cbn in Ht.
  apply list_elem_of_lookup in Ht as [j Hj]. eapply Forall2_lookup_r in Hf as (t0 & Ht0 & Hor); [|done].
  destruct Hor as [->|[_ ->]]; [|done]. apply H; [by eapply list_elem_of_lookup_2|done].
Qed.

Lemma tasks_of_store (P : list TaskRecord -> Prop) (store store' : option ProjectStore) :
  st_tasks <$> store' = st_tasks <$> store ->
  match store with Some st => P (st_tasks st) | None => True end ->
  match store' with Some st => P (st_tasks st) | None => True end.
Proof. destruct store, store'; intros H; simplify_eq/=; [by rewrite H|done]. Qed.

Lemma gone_step id r op : gone id r -> keeps_removed id op -> gone id (project_step r op).
Proof.
  intros Hg Hop. pose proof Hg as [Hr Ht].
  set (P := fun tasks : list TaskRecord => forall t, t ∈ tasks -> of_project id t -> tr_tombstoned t = true).
  destruct op as [d w root|w p label|wt w id'|c roots|c]; cbn [project_step keeps_removed] in *; try done.
  - unfold add_project. cbv zeta. split_test; [done|]. destruct (negb (d (trim root))); [done|].
    destruct (persist_project_catalog w _ _ (rg_store r)) as [store'|e] eqn:Ep; [|done].
    split; [set_solver|]. apply persist_tasks in Ep. by apply (tasks_of_store P _ _ Ep).
  - unfold rename_project. cbv zeta. split_test; [done|].
    destruct (persist_project_catalog w _ _ (rg_store r)) as [store'|e] eqn:Ep; [|done].
    split; [done|]. apply persist_tasks in Ep. by apply (tasks_of_store P _ _ Ep).
  - unfold remove_project. destruct (tombstone_project_tasks wt id' (rg_store r)) as [count store] eqn:Et.
    assert (match store with Some st => P (st_tasks st) | None => True end) as Hst.
    { unfold tombstone_project_tasks in Et. destruct (rg_store r) as [st|]; simplify_eq; [|done].
      pose proof (tombstone_keeps id id' wt _ Ht) as Hk. destruct (tombstone_tasks wt id' (st_tasks st)). by simplify_eq. }
    destruct count as [count|e]; [|done]. cbv zeta.
    destruct (persist_project_catalog w _ _ store) as [store'|e] eqn:Ep; [|done].
    split; [set_solver|]. apply persist_tasks in Ep. by apply (tasks_of_store P _ _ Ep).
Qed.

(** A removed Project stays removed: after a removal that succeeded, through
    any later operations that do not add one of its folders again, the Project
    does not resolve, whatever the configuration and the clients contribute, and
    every Task of it is tombstoned; the reported count is the number of Tasks
    the removal tombstoned. *)
Theorem removed_project_stays_gone wt w id r count r1 ops r' :
  remove_project wt w id r = (Ok count, r1) -> Forall (keeps_removed id) ops -> r' = foldl project_step r1 ops ->
  resolve id (rg_state r') = None /\
  (forall store t, rg_store r' = Some store -> t ∈ st_tasks store -> of_project id t -> tr_tombstoned t = true) /\
  count = match rg_store r with
          | Some store => Z.min (Z.of_nat (length (filter (fun t => tr_tombstoned t = false /\ of_project id t)
                                                     (st_tasks store)))) u64_max
          | None => 0
          end.
Proof.
  intros Hrm Hops ->. assert (gone id r1 /\ count = match rg_store r with
          | Some store => Z.min (Z.of_nat (length (filter (fun t => tr_tombstoned t = false /\ of_project id t)
                                                     (st_tasks store)))) u64_max
          | None => 0
          end) as [Hg Hcount].
  { unfold remove_project in Hrm. destruct (tombstone_project_tasks wt id (rg_store r)) as [[n|e] store] eqn:Et; [|done].
    cbv zeta in Hrm. destruct (persist_project_catalog w _ _ store) as [store'|e] eqn:Ep; [|done]. simplify_eq.
    apply persist_tasks in Ep. unfold tombstone_project_tasks in Et. destruct (rg_store r) as [st|]; simplify_eq.
    - pose proof (tombstone_tasks_spec wt id (st_tasks st)) as Hs.
      destruct (tombstone_tasks wt id (st_tasks st)) as [c tasks']. simplify_eq. destruct Hs as (_ & -> & Hall).
      split; [|done]. split; [set_solver|].
      apply (tasks_of_store (fun tasks => forall t, t ∈ tasks -> of_project id t -> tr_tombstoned t = true) _ _ Ep).
      cbn. by rewrite <- Forall_forall.
    - split; [|done]. split; [set_solver|]. by destruct store'. }
  assert (gone id (foldl project_step r1 ops)) as [Hr Ht].
  { clear Hrm Hcount. revert r1 Hg. induction Hops; intros r1 Hg; cbn; [done|]. eauto using gone_step. }
  split; [apply resolve_none; by left|]. split; [|done]. intros store t Hst. by rewrite Hst in Ht; apply Ht.
Qed.
End Promises.

(** ** Examples *)

Module ProjectWitness.
#[local] Existing Instance string_payloads.
#[local] Existing Instance ChatWitness.string_chat.

Example identity_normalizes : from_workspace_root "/workspace/app/./src/.." = from_workspace_root "/workspace/app/".
Proof. vm_compute. reflexivity. Qed.

Example shared_identity : project_id_for_workspace "C:/Users/developer/Repo" = "project-3a48cc7bbcebeec3".
Proof. vm_compute. reflexivity. Qed.

(** Two levels up is taken for the folder itself: the second parent removes the
    first one, which [pop] does not tell from a name. *)
Example two_parents_cancel :
  canonical_workspace_root "../.." = "."%string /\ canonical_workspace_root "../../x" = "x"%string.
Proof. vm_compute. done. Qed.

Definition empty_store : ProjectStore := mkProjectStore (mkCatalog [] []) [RecordWitness.sample "t"].
Definition start : Registry := enable_persistence empty_store (from_workspace_roots ["/app"; "/lib"]).
Definition anything (_ : string) : bool := true.
Definition ok_writes (_ : string) : result unit RuntimeError := Ok tt.

(** The label a user gives to a configured Project is not shown when it sorts
    after the folder's name: of two entries with one id the first stays, and an
    entry between them keeps both. *)
Example rename_is_not_shown :
  let r := project_step start (OpRename (Ok tt) (context_of "/app") "zoo") in
  pt_label <$> visible_projects (rg_state r) = ["app"; "lib"; "zoo"]%string /\
  pt_label <$> resolve (project_id_for_workspace "/app") (rg_state r) = Some "app"%string.
Proof. vm_compute. done. Qed.

Definition work : list ProjectOp :=
  [OpAdd anything (Ok tt) " /work "; OpRename (Ok tt) (context_of "/work") "Main"; OpReplaceClient "c" ["/shell"];
   OpRemove ok_writes (Ok tt) (project_id_for_workspace "/lib")].


Definition removal : result Z ProtocolError * Registry :=
  remove_project ok_writes (Ok tt) (project_id_for_workspace "/work") start.

Lemma removed_project_stays_gone_witness :
  let r' := foldl project_step removal.2 [OpReplaceClient "c" ["/work"]] in
  removal.1 = Ok 1 /\ resolve (project_id_for_workspace "/work") (rg_state r') = None.
Proof.
  cbv zeta. split; [vm_compute; reflexivity|].
  refine (proj1 (removed_project_stays_gone ok_writes (Ok tt) (project_id_for_workspace "/work") start 1 removal.2
    [OpReplaceClient "c" ["/work"%string]] _ _ _ eq_refl)).
  - change (remove_project ok_writes (Ok tt) (project_id_for_workspace "/work") start) with removal.
    rewrite (surjective_pairing removal). by f_equal.
  - repeat constructor.
Defined.
End ProjectWitness.
