(* ===== verification/Publication.v ===== *)
(** * Publication of committed Tasks

    Models the part of a commit that tells clients what changed:
    [snapshots/task_snapshot.rs] with [task_snapshot/readiness.rs] and
    [tasks/snapshot.rs], which project a Task record to the snapshot a client
    opens, [snapshots/task_navigation.rs], which projects its row, and
    [tasks/mutation/commit/changed_fields.rs], [commit/navigation_change.rs] and
    [project_committed_changes] of [commit.rs], which choose what a commit
    publishes to clients that already have a snapshot.  [set_task_pinned] and
    [transition_task_lifecycle] of [tasks/product_api] are two of its callers.

    Whether a folder exists is an argument.  A Chat item is the [ChatMessage] it
    is projected from.  The subagent overview, the pending requests and the
    recovery notice, which this projection leaves at their defaults, are left
    out of [TaskSnapshot]. *)

From S2P Require Import Prelude Protocol Chat Records Journal Mutation Projects.

Local Open Scope Z_scope.

(** ** Snapshot data of the protocol *)

Inductive LiveSessionDataState := LiveLoading | LiveReady | LiveStale | LiveUnavailable | LiveFailed.

Inductive TaskPreparationStepKind :=
| CreatingTask | ResolvingProject | ResolvingMcpServers | StartingAgent | CreatingNativeSession
| CheckingAuthentication | LoadingConfigOptions | LoadingSlashCommands.
Inductive TaskPreparationStepStatus := StepPending | StepRunning | StepDone | StepBlocked | StepFailed.
Record TaskPreparationStep := mkStep {
  pstep_kind : TaskPreparationStepKind; pstep_status : TaskPreparationStepStatus; pstep_label : string;
}.
Inductive TaskSetupBlockerKind :=
| BlockAuthRequired | BlockSetupRequired | BlockNodeJsRequired | BlockCapabilityUnavailable
| BlockNativeSessionUnavailable.
Record TaskSetupBlocker := mkSetupBlocker { sb_kind : TaskSetupBlockerKind; sb_message : string }.
Inductive TaskPreparationAction := Retry | ChangeAgent | Discard | OpenAgentSettings | Authenticate.

Inductive AgentConfigOptionCurrentValue := OptionId (value : string) | OptionBoolean (value : bool).
Inductive AgentConfigOptionKind := OptionSelect | OptionToggle.
Record AgentConfigOptionValueSnapshot := mkValueSnapshot {
  vs_value : string; vs_label : string; vs_description : option string;
}.
Record AgentConfigOptionSnapshot := mkOptionSnapshot {
  os_config_id : string; os_label : string; os_description : option string; os_category : option string;
  os_kind : AgentConfigOptionKind; os_current_value : AgentConfigOptionCurrentValue;
  os_values : list AgentConfigOptionValueSnapshot;
}.
Record PendingAgentConfigChange := mkPendingChange {
  pa_client_mutation_id : string; pa_config_id : string; pa_requested_value : AgentConfigOptionCurrentValue;
}.

(** The command's input is its hint. *)
Record AgentSlashCommandSnapshot := mkSlashCommand {
  sc_name : string; sc_description : string; sc_input : option string;
}.

Inductive TaskSendCapabilityState := SendLoading | SendReady | SendBlocked | SendFailed.
Inductive TaskSendBlockerKind :=
| TaskPreparing | TaskRunning | AgentConfigNotReady | SlashCommandsNotReady | AttachmentsNeedRefresh | EmptyMessage
| MissingRequiredOptions | FailedValidation.
Record TaskSendBlocker := mkSendBlocker { bl_kind : TaskSendBlockerKind; bl_message : string }.
Record TaskSendCapabilitySnapshot := mkSendCapability {
  cap_state : TaskSendCapabilityState; cap_blockers : list TaskSendBlocker;
}.

Record TaskInputCapabilities := mkInputCapabilities { ic_image : bool }.

Inductive TaskMessageQueuePauseSnapshot := PauseRestarted | PauseUnsuccessfulTurn | PauseAttachmentUnavailable.
Record QueuedMessageAttachmentSnapshot := mkQueuedAttachment { qa_kind : string; qa_label : string }.
Record QueuedMessageSnapshot := mkQueuedSnapshot {
  qs_id : string; qs_not_before : option string; qs_text : string; qs_created_at : string;
  qs_attachments : list QueuedMessageAttachmentSnapshot;
}.
Record TaskMessageQueueSnapshot := mkQueueSnapshot {
  qsn_revision : Z; qsn_pause : option TaskMessageQueuePauseSnapshot; qsn_items : list QueuedMessageSnapshot;
}.

Inductive TaskHistorySyncSnapshot :=
| SyncIdle (generation : Z) | ReloadAvailable (generation : Z) | Syncing (generation : Z) | SyncUpdated (generation : Z).
Definition history_sync_default : TaskHistorySyncSnapshot := SyncIdle 0.

Section Publication.
Context `{PT : PayloadTypes} `{CP : ChatPayloads}.

Inductive TaskPreparationSnapshot :=
| SnapPreparing (steps : list TaskPreparationStep)
| SnapReady
| SnapBlocked (blocker : TaskSetupBlocker) (actions : list TaskPreparationAction)
| SnapFailed (error : ProtocolError) (actions : list TaskPreparationAction).

Record TaskAgentConfigSnapshot := mkAgentConfig {
  as_state : LiveSessionDataState; as_options : list AgentConfigOptionSnapshot;
  as_pending_change : option PendingAgentConfigChange; as_preferences : option AgentConfigPreferencesSnapshot;
  as_error : option ProtocolError;
}.
Record TaskAgentCommandsSnapshot := mkAgentCommands {
  cs_state : LiveSessionDataState; cs_commands : list AgentSlashCommandSnapshot; cs_error : option ProtocolError;
}.

Record ChatSnapshot := mkChatSnapshot {
  csn_items : list ChatMessage; csn_has_more_before : bool; csn_has_messages : bool;
  csn_start_cursor : option string; csn_end_cursor : option string;
}.

Record TaskSnapshot := mkTaskSnapshot {
  sn_task : Protocol.TaskSummary;
  sn_permission_policy : Protocol.TaskPermissionPolicy;
  sn_active_turn_started_at : option string;
  sn_background_commands : list TaskBackgroundCommand;
  sn_lifecycle : Protocol.TaskLifecycle;
  sn_revision : Z;
  sn_preparation : TaskPreparationSnapshot;
  sn_agent_config : TaskAgentConfigSnapshot;
  sn_agent_commands : TaskAgentCommandsSnapshot;
  sn_send_capability : TaskSendCapabilitySnapshot;
  sn_input_capabilities : option TaskInputCapabilities;
  sn_context_usage : option Records.TaskContextUsage;
  sn_current_plan : option AgentPlan;
  sn_message_queue : TaskMessageQueueSnapshot;
  sn_chat : ChatSnapshot;
  sn_history_sync : TaskHistorySyncSnapshot;
}.

(** ** The stored snapshot *)

Record MessagePage := mkPage {
  mp_task_id : string; mp_items : list ChatMessage; mp_has_before : bool; mp_total_count : Z; mp_version : Z;
  mp_start_cursor : option string; mp_end_cursor : option string;
}.

Record SettingsSummary := mkSettings {
  ss_agent_id : string; ss_isolation : IsolationKind; ss_model_id : option string;
}.

Record StoredTaskSnapshot := mkStoredSnapshot {
  sto_permission_policy : Records.TaskPermissionPolicy;
  sto_active_turn_started_at : option string;
  sto_settings_summary : SettingsSummary;
  sto_config_options_catalog : option ConfigOptionsCatalog;
  sto_freshness : TaskNativeSessionDataFreshness;
  sto_reload_requirement : option TaskNativeSessionReloadRequirement;
  sto_pending_config_change : option (string * string * ConfigOptionCurrentValue);
  sto_config_preferences : option AgentConfigPreferencesSnapshot;
  sto_agent_commands_catalog : option AgentCommandsCatalog;
  sto_lifecycle : Records.TaskLifecycle;
  sto_message_queue : TaskMessageQueueRecord;
  sto_preparation : TaskPreparationRecord;
  sto_supports_image_input : bool;
  sto_context_usage : option Records.TaskContextUsage;
  sto_current_plan : option AgentPlan;
  sto_revision : Z;
  sto_task : Records.TaskSummary;
  sto_chat : MessagePage;
}.

Definition snapshot_from_record_and_chat (t : TaskRecord) (chat : MessagePage) : StoredTaskSnapshot :=
  let context_usage := (fun u => mkUsage (cu_used_tokens u) (cu_capacity_tokens u) (cu_cost u) (tr_last_turn_usage t))
                       <$> tr_context_usage t in
  mkStoredSnapshot (tr_permission_policy t) (tr_active_turn_started_at t)
    (mkSettings (tr_agent_id t) (tr_isolation t) (tr_model_id t)) (tr_config_options_catalog t)
    (tr_native_session_data_freshness t) (tr_native_session_reload_requirement t)
    ((fun p => (pc_client_mutation_id p, pc_config_id p, pc_requested_value p)) <$> cf_pending (tr_config_mutation t))
    (cf_preferences (tr_config_mutation t)) (tr_agent_commands_catalog t) (tr_lifecycle t) (tr_message_queue t)
    (tr_preparation t) (tr_supports_image_input t) context_usage (tr_current_plan t) (tr_revision t) (summary t) chat.

(** [build_snapshot]: Task and Chat are read apart until their versions agree;
    the argument holds the pairs that the attempts read. *)
Definition CONSISTENT_SNAPSHOT_READ_ATTEMPTS : nat := 4.
Fixpoint first_consistent (reads : list (TaskRecord * MessagePage)) : option StoredTaskSnapshot :=
  match reads with
  | [] => None
  | (task, chat) :: reads =>
      if bool_decide (tr_message_history_version task <> mp_version chat) then first_consistent reads
      else Some (snapshot_from_record_and_chat task chat)
  end.
Definition build_snapshot (reads : list (TaskRecord * MessagePage)) : result StoredTaskSnapshot RuntimeError :=
  ok_or (first_consistent (take CONSISTENT_SNAPSHOT_READ_ATTEMPTS reads))
    (Storage "Task snapshot did not stabilize after 4 reads").

(** ** Readiness *)

Definition preparation_error (message : string) (native_session_missing : bool) : ProtocolError :=
  mkProtocolError (if native_session_missing then NotFound else Protocol.Internal) message true None.

Definition setup_blocker_kind (reason : TaskPreparationBlockerRecord) : TaskSetupBlockerKind :=
  match reason with
  | AuthRequired => BlockAuthRequired
  | SetupRequired => BlockSetupRequired
  | Records.NodeJsRequired => BlockNodeJsRequired
  end.
Definition setup_blocker_actions (reason : TaskPreparationBlockerRecord) : list TaskPreparationAction :=
  match reason with
  | AuthRequired => [Authenticate; OpenAgentSettings]
  | SetupRequired | Records.NodeJsRequired => [Retry; OpenAgentSettings]
  end.
Definition setup_blocker_error (reason : TaskPreparationBlockerRecord) (message : string) : ProtocolError :=
  mkProtocolError
    (match reason with
     | AuthRequired => Unauthorized
     | SetupRequired => CapabilityUnavailable
     | Records.NodeJsRequired => Protocol.NodeJsRequired
     end) message true None.

Definition preparation_snapshot (p : TaskPreparationRecord) : TaskPreparationSnapshot :=
  match p with
  | PrepNeeded | PrepPreparing =>
      SnapPreparing [mkStep CreatingNativeSession StepRunning "Creating Agent session";
                     mkStep LoadingConfigOptions StepPending "Loading Agent options"]
  | PrepReady => SnapReady
  | PrepBlocked reason message =>
      SnapBlocked (mkSetupBlocker (setup_blocker_kind reason) message) (setup_blocker_actions reason)
  | PrepFailed message missing => SnapFailed (preparation_error message missing) [Retry; Discard]
  end.

Definition project_current_value (v : ConfigOptionCurrentValue) : AgentConfigOptionCurrentValue :=
  match v with CurrentId value => OptionId value | CurrentBoolean value => OptionBoolean value end.

Definition project_config_value (v : ConfigOptionValue) : AgentConfigOptionValueSnapshot :=
  mkValueSnapshot (ov_id v) (ov_label v) (ov_description v).

Definition config_category (c : ConfigOptionCategory) : string :=
  match c with
  | CatMode => "mode" | CatModel => "model" | CatThoughtLevel => "thoughtLevel" | CatOther => "other"
  end.

Definition project_config_option (o : ConfigOption) : AgentConfigOptionSnapshot :=
  mkOptionSnapshot (co_id o) (co_label o) (co_description o) (config_category <$> co_category o)
    (match co_kind o with KindSelect => OptionSelect | KindBoolean => OptionToggle end)
    (project_current_value (co_current_value o)) (project_config_value <$> co_values o).

Definition agent_config_options (s : StoredTaskSnapshot) : list AgentConfigOptionSnapshot :=
  match sto_config_options_catalog s with
  | Some catalog => project_config_option <$> oc_options catalog
  | None => []
  end.

Definition pending_config_change (s : StoredTaskSnapshot) : option PendingAgentConfigChange :=
  (fun '(mutation, config, value) => mkPendingChange mutation config (project_current_value value))
  <$> sto_pending_config_change s.

Definition agent_config_snapshot (s : StoredTaskSnapshot) : TaskAgentConfigSnapshot :=
  let preferences := sto_config_preferences s in
  let freshness := fr_config (sto_freshness s) in
  if bool_decide (sto_preparation s = PrepPreparing) && is_some preferences && bool_decide (freshness = Fresh)
  then mkAgentConfig LiveReady (agent_config_options s) (pending_config_change s) preferences None
  else
    match sto_preparation s with
    | PrepNeeded | PrepPreparing => mkAgentConfig LiveLoading [] None preferences None
    | PrepReady =>
        match sto_config_options_catalog s with
        | Some _ =>
            mkAgentConfig
              (match freshness with Fresh => LiveReady | Recovering => LiveLoading | StaleCatalog => LiveStale end)
              (if bool_decide (freshness = Fresh) then agent_config_options s else [])
              (pending_config_change s) preferences None
        | None =>
            mkAgentConfig
              (match freshness with
               | Fresh => LiveUnavailable | Recovering => LiveLoading | StaleCatalog => LiveUnavailable
               end) [] (pending_config_change s) preferences None
        end
    | PrepBlocked reason message =>
        mkAgentConfig LiveUnavailable [] None preferences (Some (setup_blocker_error reason message))
    | PrepFailed message _ => mkAgentConfig LiveFailed [] None preferences (Some (preparation_error message false))
    end.

Definition project_command (c : AgentCommand) : AgentSlashCommandSnapshot :=
  mkSlashCommand (ac_name c) (ac_description c) (ac_input_hint c).

Definition agent_commands_snapshot (s : StoredTaskSnapshot) : TaskAgentCommandsSnapshot :=
  match sto_preparation s with
  | PrepNeeded | PrepPreparing => mkAgentCommands LiveLoading [] None
  | PrepReady =>
      mkAgentCommands
        (match sto_agent_commands_catalog s, fr_commands (sto_freshness s) with
         | Some _, Fresh => LiveReady
         | Some _, Recovering => LiveLoading
         | Some _, StaleCatalog => LiveStale
         | None, Fresh => LiveUnavailable
         | None, Recovering => LiveLoading
         | None, StaleCatalog => LiveUnavailable
         end)
        (match sto_agent_commands_catalog s with Some catalog => project_command <$> catalog | None => [] end) None
  | PrepBlocked reason message => mkAgentCommands LiveUnavailable [] (Some (setup_blocker_error reason message))
  | PrepFailed message _ => mkAgentCommands LiveFailed [] (Some (preparation_error message false))
  end.

Definition send_capability_for_task (status : Records.TaskStatus) (p : TaskPreparationRecord)
  : TaskSendCapabilitySnapshot :=
  match p with
  | PrepNeeded | PrepPreparing =>
      mkSendCapability SendLoading [mkSendBlocker TaskPreparing "Task Agent preparation is still running"]
  | PrepFailed message _ =>
      mkSendCapability SendFailed [mkSendBlocker FailedValidation ("Task Agent preparation failed: " +:+ message)]
  | PrepBlocked _ message => mkSendCapability SendBlocked [mkSendBlocker FailedValidation message]
  | PrepReady =>
      match status with
      | StInactive | StCompleted | StActive | StFailed => mkSendCapability SendReady []
      | StStarting | StStopping | StWaiting =>
          mkSendCapability SendBlocked [mkSendBlocker TaskRunning "Task is already running"]
      end
  end.

(** ** Rows and snapshots *)

Definition project_task_lifecycle (l : Records.TaskLifecycle) : Protocol.TaskLifecycle :=
  match l with Prepared _ => LifecyclePrepared | Open => LifecycleOpen | Archived => LifecycleArchived end.

Definition project_title (t : Records.TaskTitle) : Protocol.TaskTitle :=
  Protocol.mkTitle (Records.title_value t)
    (match Records.title_source t with
     | Records.SourcePrompt => Protocol.SourcePrompt
     | Records.SourceAgent => Protocol.SourceAgent
     | Records.SourceUser => Protocol.SourceUser
     end).

Definition project_attention (a : Records.TaskAttentionEvent) : Protocol.TaskAttentionEvent :=
  Protocol.mkAttention (ae_event_id a)
    (match ae_reason a with
     | AttFinished => AttentionFinished
     | AttNeedsPermission => AttentionNeedsPermission
     | AttNeedsAnswer => AttentionNeedsAnswer
     | AttStopped => AttentionStopped
     | AttFailed => AttentionFailed
     end) (ae_occurred_at a).

Definition project_status (status : Records.TaskStatus) (background_only : bool) : Protocol.TaskStatus :=
  match status with
  | StStarting => StatusStarting
  | StActive => if background_only then StatusBackground else StatusRunning
  | StStopping => StatusStopping
  | StInactive => StatusIdle
  | StFailed => StatusFailed
  | StCompleted => StatusCompleted
  | StWaiting => StatusWaiting
  end.

Definition project_status_with_preparation (status : Records.TaskStatus) (p : TaskPreparationRecord)
    (background_only : bool) : Protocol.TaskStatus :=
  match p with PrepNeeded | PrepPreparing => StatusPreparing | _ => project_status status background_only end.

Definition project_task_summary_with_has_messages (is_dir : string -> bool) (t : TaskRecord) (has_messages : bool)
  : Protocol.TaskSummary :=
  mkTaskSummary (tr_task_id t) (project_id_for_workspace (project_root_of t)) (tr_agent_id t)
    (project_task_lifecycle (tr_lifecycle t)) (project_title <$> effective (tr_title t))
    (project_status_with_preparation (tr_status t) (tr_preparation t) (background_only t)) (tr_updated_at t)
    (tr_last_activity t) (tr_unread t) (tr_pinned t) (project_attention <$> tr_attention t) has_messages
    (tr_worktree_id t) (is_dir (tr_workspace_root t)).

Definition project_task_summary (is_dir : string -> bool) (t : TaskRecord) : Protocol.TaskSummary :=
  project_task_summary_with_has_messages is_dir t (bool_decide (0 < tr_message_history_version t)).

Definition project_legacy_task_summary (is_dir : string -> bool) (s : Records.TaskSummary) (has_messages : bool)
    (lifecycle : Protocol.TaskLifecycle) : Protocol.TaskSummary :=
  mkTaskSummary (sm_task_id s) (project_id_for_workspace (default (sm_workspace_root s) (sm_project_root s)))
    (sm_agent_id s) lifecycle (project_title <$> sm_title s)
    (project_status (sm_status s) (match sm_background_work s with Some work => bw_held work | None => false end))
    (sm_updated_at s) (sm_last_activity s) (sm_unread s) (sm_pinned s) (project_attention <$> sm_attention s)
    has_messages (sm_worktree_id s) (is_dir (sm_workspace_root s)).

Definition set_summary_status (status : Protocol.TaskStatus) (s : Protocol.TaskSummary) : Protocol.TaskSummary :=
  mkTaskSummary (ts_task_id s) (ts_project_id s) (ts_agent_id s) (ts_lifecycle s) (ts_title s) status (ts_updated_at s)
    (ts_last_activity s) (ts_unread s) (ts_pinned s) (ts_attention s) (ts_has_messages s) (ts_worktree_id s)
    (ts_workspace_available s).

Definition project_permission_policy (p : Records.TaskPermissionPolicy) : Protocol.TaskPermissionPolicy :=
  match p with Records.AskEveryTime => Protocol.AskEveryTime | Records.AutoApprove => Protocol.AutoApprove end.

Definition project_queue (q : TaskMessageQueueRecord) : TaskMessageQueueSnapshot :=
  mkQueueSnapshot (mq_revision q)
    ((fun pause => match pause with
      | Restarted => PauseRestarted
      | UnsuccessfulTurn => PauseUnsuccessfulTurn
      | AttachmentUnavailable => PauseAttachmentUnavailable
      end) <$> mq_pause q)
    ((fun item => mkQueuedSnapshot (qm_id item) (qm_not_before item) (qm_text item) (qm_created_at item)
        ((fun a => mkQueuedAttachment (att_kind a) (att_label a)) <$> qm_chat_attachments item)) <$> mq_items q).

Definition effective_history_sync (h : TaskHistorySyncSnapshot) (reload_required : bool) : TaskHistorySyncSnapshot :=
  match h with
  | SyncIdle generation => if reload_required then ReloadAvailable generation else h
  | _ => h
  end.

Definition project_chat_page (p : MessagePage) : ChatSnapshot :=
  mkChatSnapshot (mp_items p) (mp_has_before p) (bool_decide (0 < mp_total_count p)) (mp_start_cursor p) (mp_end_cursor p).

(** Preferences that have not settled block sending. *)
Definition block_on_preferences (preferences : option AgentConfigPreferencesSnapshot) (c : TaskSendCapabilitySnapshot)
  : TaskSendCapabilitySnapshot :=
  match preferences with
  | Some p =>
      if bool_decide (ps_state p <> PrefSettled)
      then mkSendCapability SendBlocked
             [mkSendBlocker TaskPreparing
                (if bool_decide (ps_state p = PrefApplying) then "Applying your preferences…"
                 else "Couldn’t apply your preferences.")]
      else c
  | None => c
  end.

Definition project_stored_task_snapshot_with_history_sync (is_dir : string -> bool) (s : StoredTaskSnapshot)
    (history_sync : TaskHistorySyncSnapshot) : TaskSnapshot :=
  let lifecycle := project_task_lifecycle (sto_lifecycle s) in
  let background_work := default (mkWork false []) (sm_background_work (sto_task s)) in
  mkTaskSnapshot
    (set_summary_status
       (project_status_with_preparation (sm_status (sto_task s)) (sto_preparation s) (bw_held background_work))
       (project_legacy_task_summary is_dir (sto_task s) (bool_decide (0 < mp_total_count (sto_chat s))) lifecycle))
    (project_permission_policy (sto_permission_policy s)) (sto_active_turn_started_at s) (bw_commands background_work)
    lifecycle (sto_revision s) (preparation_snapshot (sto_preparation s)) (agent_config_snapshot s)
    (agent_commands_snapshot s)
    (block_on_preferences (sto_config_preferences s)
       (send_capability_for_task (sm_status (sto_task s)) (sto_preparation s)))
    (Some (mkInputCapabilities (sto_supports_image_input s))) (sto_context_usage s) (sto_current_plan s)
    (project_queue (sto_message_queue s)) (project_chat_page (sto_chat s))
    (effective_history_sync history_sync (is_some (sto_reload_requirement s))).

Definition project_committed_task_state (is_dir : string -> bool) (t : TaskRecord) (has_messages : bool) : TaskSnapshot :=
  project_stored_task_snapshot_with_history_sync is_dir
    (snapshot_from_record_and_chat t
       (mkPage (tr_task_id t) [] false (if has_messages then 1 else 0) (tr_message_history_version t) None None))
    history_sync_default.

(** ** What a commit publishes *)

#[local] Instance AgentPlan_eq_dec : EqDecision AgentPlan.
Proof. unfold EqDecision, Decision. repeat (decide equality || apply String.string_dec). Defined.
#[local] Instance Queue_eq_dec : EqDecision TaskMessageQueueRecord.
Proof.
  assert (EqDecision Attachment) by solve_decision. assert (EqDecision QueuedMessageRecord) by solve_decision.
  solve_decision.
Defined.
#[local] Instance PendingTaskConfigChange_eq_dec : EqDecision PendingTaskConfigChange.
Proof. solve_decision. Defined.
#[local] Instance TaskConfigMutationState_eq_dec : EqDecision TaskConfigMutationState.
Proof. solve_decision. Defined.

Record ChangedFields := mkChanged {
  cf_summary : bool; cf_lifecycle : bool; cf_preparation : bool; cf_permission_policy : bool; cf_agent_config : bool;
  cf_agent_commands : bool; cf_send_capability : bool; cf_input_capabilities : bool; cf_context_usage : bool;
  cf_current_plan : bool; cf_message_queue : bool; cf_removed : bool;
}.

Definition differs {A B} `{EqDecision B} (f : A -> B) (a b : A) : bool := bool_decide (f a <> f b).

Definition changed_fields (original task : TaskRecord) : ChangedFields :=
  let d {B} `{EqDecision B} (f : TaskRecord -> B) := differs f original task in
  let preparation := d tr_preparation in
  let summary :=
    d (fun t => effective (tr_title t)) || d tr_status || d tr_unread || d tr_attention || d tr_active_turn_started_at
    || d tr_background_work || d tr_updated_at || d tr_last_activity || d tr_agent_id || d tr_workspace_root
    || d tr_message_history_version || preparation in
  mkChanged summary (d tr_lifecycle) preparation (d tr_permission_policy)
    (preparation || d tr_config_options_catalog || d tr_config_mutation || d tr_model_id
     || d (fun t => fr_config (tr_native_session_data_freshness t)))
    (preparation || d tr_agent_commands_catalog || d (fun t => fr_commands (tr_native_session_data_freshness t)))
    (preparation || d tr_status || d (fun t => cf_preferences (tr_config_mutation t)))
    (d tr_supports_image_input) (d tr_context_usage || d tr_last_turn_usage) (d tr_current_plan) (d tr_message_queue)
    (negb (tr_tombstoned original) && tr_tombstoned task).

Definition navigation_member (t : TaskRecord) : bool := is_listed (tr_lifecycle t) && negb (tr_tombstoned t).

Inductive CommittedNavigationChange :=
| NavTaskUpdated (task : Protocol.TaskSummary)
| NavProjectEntriesChanged (project_id : string).

Definition navigation_change (original task : TaskRecord) (summary_changed : bool) (summary : Protocol.TaskSummary)
  : option CommittedNavigationChange :=
  let membership_or_order_changed :=
    bool_decide (navigation_member original <> navigation_member task) || differs tr_lifecycle original task
    || differs tr_last_activity original task || differs tr_tombstoned original task in
  match navigation_member original, navigation_member task with
  | _, true =>
      if membership_or_order_changed then Some (NavProjectEntriesChanged (ts_project_id summary))
      else if navigation_member original && summary_changed then Some (NavTaskUpdated summary) else None
  | true, false => Some (NavProjectEntriesChanged (ts_project_id summary))
  | false, false => None
  end.

(** The deltas of the protocol with the snapshot types above. *)
#[local] Instance task_payloads : PayloadTypes := {|
  PermissionRequestParams := Protocol.PermissionRequestParams;
  QuestionRequestParams := Protocol.QuestionRequestParams;
  ClientSnapshot := Protocol.ClientSnapshot;
  Protocol.TaskHistorySyncSnapshot := TaskHistorySyncSnapshot;
  TaskNavigationEntry := Protocol.TaskNavigationEntry;
  TaskNavigationGroup := Protocol.TaskNavigationGroup;
  ProjectCollectionSnapshot := Protocol.ProjectCollectionSnapshot;
  SubagentCatalogSnapshot := Protocol.SubagentCatalogSnapshot;
  catalog_task_id := Protocol.catalog_task_id;
  SubagentHistorySnapshot := Protocol.SubagentHistorySnapshot;
  SubagentOverviewSnapshot := Protocol.SubagentOverviewSnapshot;
  AgentPlanSnapshot := AgentPlan;
  ToolDetailSnapshot := Protocol.ToolDetailSnapshot;
  AgentCollectionSnapshot := Protocol.AgentCollectionSnapshot;
  WorktreeRepositorySnapshot := Protocol.WorktreeRepositorySnapshot;
  DeviceCollectionSnapshot := Protocol.DeviceCollectionSnapshot;
  TerminalCollectionSnapshot := Protocol.TerminalCollectionSnapshot;
  SettingsSnapshot := Protocol.SettingsSnapshot;
  Protocol.TaskSnapshot := TaskSnapshot;
  BackgroundCommandSnapshot := TaskBackgroundCommand;
  Protocol.TaskPreparationSnapshot := TaskPreparationSnapshot;
  Protocol.TaskAgentConfigSnapshot := TaskAgentConfigSnapshot;
  Protocol.TaskAgentCommandsSnapshot := TaskAgentCommandsSnapshot;
  Protocol.TaskSendCapabilitySnapshot := TaskSendCapabilitySnapshot;
  Protocol.TaskInputCapabilities := TaskInputCapabilities;
  Protocol.TaskContextUsage := Records.TaskContextUsage;
  Protocol.TaskMessageQueueSnapshot := TaskMessageQueueSnapshot;
  ChatItem := ChatMessage;
  Protocol.ChatSnapshot := ChatSnapshot |}.

Abbreviation Changes := (@TaskChanges task_payloads).

Definition then_ {A} (b : bool) (a : A) : option A := if b then Some a else None.

(** [replace_page] is the page that stands for a replaced Chat. *)
Definition project_committed_changes (s : TaskSnapshot) (fields : ChangedFields) (replace_page : MessagePage)
    (chat : list CommittedChatChange) : Changes :=
  @mkChanges task_payloads (then_ (cf_summary fields) (sn_task s))
    (then_ (cf_summary fields) (sn_active_turn_started_at s)) (then_ (cf_summary fields) (sn_background_commands s))
    (then_ (cf_lifecycle fields) (sn_lifecycle s)) (then_ (cf_preparation fields) (sn_preparation s))
    (then_ (cf_permission_policy fields) (sn_permission_policy s)) (then_ (cf_agent_config fields) (sn_agent_config s))
    (then_ (cf_agent_commands fields) (sn_agent_commands s)) (then_ (cf_send_capability fields) (sn_send_capability s))
    (then_ (cf_input_capabilities fields) (sn_input_capabilities s) ≫= id)
    (then_ (cf_context_usage fields) (sn_context_usage s)) (then_ (cf_current_plan fields) (sn_current_plan s))
    (then_ (cf_message_queue fields) (sn_message_queue s))
    ((fun change => match change with
      | Mutation.ChatAppend item => @Protocol.ChatAppend task_payloads item
      | Mutation.ChatUpsert item => @Protocol.ChatUpsert task_payloads item
      | Mutation.ChatAppendText message_id text => @Protocol.ChatAppendText task_payloads message_id text
      | Mutation.ChatReplace => @Protocol.ChatReplace task_payloads (project_chat_page replace_page)
      end) <$> chat)
    (cf_removed fields).

(** ** Two operations on the row *)

Definition set_task_pinned (pinned : bool) (now : Z) (ctx : TaskMutationContext)
  : result (TaskMutationResult * TaskMutationContext) RuntimeError :=
  match tr_lifecycle (cx_task ctx) with
  | Prepared _ => Err (Records.Conflict "Prepared Tasks cannot be pinned")
  | Archived => Err (Records.Conflict "Archived Tasks are read-only; restore the Task before pinning it")
  | Open =>
      if bool_decide (tr_pinned (cx_task ctx) = pinned) then Ok (Unchanged, ctx)
      else Ok (Changed, task_mut (set_membership Open pinned (now_string now)) ctx)
  end.

Definition transition_task_lifecycle (next : Records.TaskLifecycle) (now : Z) (ctx : TaskMutationContext)
  : result (TaskMutationResult * TaskMutationContext) RuntimeError :=
  Ok (Changed, task_mut (fun t =>
        if is_archived next
        then let t := (clear_process_local_agent_state (set_membership next false (tr_updated_at t) t)).2 in
             set_membership next (tr_pinned t) (now_string now) t
        else set_membership next (tr_pinned t) (now_string now) t) ctx).

(** ** A client that applies what is published *)

(** Every field a delta carries replaces the client's. *)
Definition apply_changes (c : Changes) (s : TaskSnapshot) : TaskSnapshot :=
  mkTaskSnapshot (default (sn_task s) (ch_task c)) (default (sn_permission_policy s) (ch_permission_policy c))
    (default (sn_active_turn_started_at s) (ch_active_turn_started_at c))
    (default (sn_background_commands s) (ch_background_commands c)) (default (sn_lifecycle s) (ch_lifecycle c))
    (sn_revision s) (default (sn_preparation s) (ch_preparation c)) (default (sn_agent_config s) (ch_agent_config c))
    (default (sn_agent_commands s) (ch_agent_commands c)) (default (sn_send_capability s) (ch_send_capability c))
    (match ch_input_capabilities c with Some i => Some i | None => sn_input_capabilities s end)
    (default (sn_context_usage s) (ch_context_usage c)) (default (sn_current_plan s) (ch_current_plan c))
    (default (sn_message_queue s) (ch_message_queue c)) (sn_chat s) (sn_history_sync s).

(** The revision travels with the event; Chat and history synchronization have
    deltas of their own. *)
Definition with_rest_of (s' s : TaskSnapshot) : TaskSnapshot :=
  mkTaskSnapshot (sn_task s) (sn_permission_policy s) (sn_active_turn_started_at s) (sn_background_commands s)
    (sn_lifecycle s) (sn_revision s') (sn_preparation s) (sn_agent_config s) (sn_agent_commands s)
    (sn_send_capability s) (sn_input_capabilities s) (sn_context_usage s) (sn_current_plan s) (sn_message_queue s)
    (sn_chat s') (sn_history_sync s').

(** The parts of a row that [changed_fields] does not compare. *)
Definition row_rest (t : TaskRecord) (has_messages : bool) :=
  (tr_pinned t, project_task_lifecycle (tr_lifecycle t), tr_project_root t, tr_worktree_id t,
   is_some (tr_active_turn_id t), has_messages).

(** A change of them is visible in a compared part, such as the time. *)
Definition row_change_is_visible (original task : TaskRecord) (before after : bool) : Prop :=
  row_rest original before = row_rest task after \/ cf_summary (changed_fields original task) = true.

Lemma differs_false {B} `{EqDecision B} (f : TaskRecord -> B) a b : differs f a b = false -> f a = f b.
Proof. unfold differs. intros H%bool_decide_eq_false. by apply dec_stable. Qed.

Ltac same_fields :=
  repeat match goal with
  | H : (_ || _) = false |- _ => apply orb_false_iff in H as [? ?]
  | H : differs _ _ _ = false |- _ => apply differs_false in H
  end; cbn beta in *.

Ltac rewrite_fields := repeat match goal with H : _ = _ |- _ => rewrite H; clear H end.

Section OneCommit.
Context (is_dir : string -> bool) (o t : TaskRecord) (before after : bool).
Context (Hid : tr_task_id t = tr_task_id o).
Let so := project_committed_task_state is_dir o before.
Let st := project_committed_task_state is_dir t after.
Let fields := changed_fields o t.

Lemma same_live_work : tr_status o = tr_status t -> is_some (tr_active_turn_id o) = is_some (tr_active_turn_id t) ->
  tr_background_work o = tr_background_work t -> live_background_work o = live_background_work t.
Proof. unfold live_background_work. by intros -> -> ->. Qed.

Lemma row_unchanged :
  cf_summary fields = false -> row_rest o before = row_rest t after ->
  sn_task st = sn_task so /\ sn_active_turn_started_at st = sn_active_turn_started_at so /\
  sn_background_commands st = sn_background_commands so.
Proof.
  intros Hf Hrest. unfold fields, changed_fields in Hf. cbn in Hf. same_fields.
  injection Hrest as Hpin Hlife Hroot Htree Hturn Hmsg. unfold so, st.
  assert (live_background_work o = live_background_work t) as Hwork by by apply same_live_work.
  split; [|split].
  - cbn -[project_id_for_workspace live_background_work effective bool_decide project_status_with_preparation].
    unfold project_legacy_task_summary, summary.
    cbn -[project_id_for_workspace live_background_work effective bool_decide project_status_with_preparation project_status].
    by rewrite_fields.
  - cbn. congruence.
  - cbn. by rewrite Hwork.
Qed.

Lemma config_unchanged : cf_agent_config fields = false -> sn_agent_config st = sn_agent_config so.
Proof.
  unfold fields, changed_fields. cbn. intros Hf. same_fields. unfold so, st. cbn.
  unfold agent_config_snapshot, agent_config_options, pending_config_change. cbn. by rewrite_fields.
Qed.

Lemma commands_unchanged : cf_agent_commands fields = false -> sn_agent_commands st = sn_agent_commands so.
Proof.
  unfold fields, changed_fields. cbn. intros Hf. same_fields. unfold so, st. cbn.
  unfold agent_commands_snapshot. cbn. by rewrite_fields.
Qed.

Lemma capability_unchanged : cf_send_capability fields = false -> sn_send_capability st = sn_send_capability so.
Proof.
  unfold fields, changed_fields. cbn. intros Hf. same_fields. unfold so, st. cbn. by rewrite_fields.
Qed.
End OneCommit.

Lemma default_then {A} (b : bool) (x y : A) : (b = false -> y = x) -> default x (then_ b y) = y.
Proof. destruct b; cbn; [done|]. intros H. by rewrite H. Qed.


Lemma updated_row_is_visible original task before after :
  tr_updated_at original <> tr_updated_at task -> row_change_is_visible original task before after.
Proof.
  intros H. right. unfold changed_fields. cbn. unfold differs at 7. rewrite bool_decide_eq_true_2 by done.
  by rewrite !orb_true_r.
Qed.

(** Both operations on the row write the time. *)
Lemma membership_is_visible mutation p ctx before after now :
  (exists pinned, mutation = set_task_pinned pinned now) \/ (exists next, mutation = transition_task_lifecycle next now) ->
  mutation (draft p) = Ok (Changed, ctx) -> tr_updated_at (pj_task p) <> now_string now ->
  row_change_is_visible (pj_task p) (cx_task ctx) before after /\ tr_task_id (cx_task ctx) = tr_task_id (pj_task p).
Proof.
  intros [[pinned ->]|[next ->]] Hm Hnow.
  - unfold set_task_pinned in Hm. repeat case_match; simplify_eq. split; [by apply updated_row_is_visible|done].
  - unfold transition_task_lifecycle in Hm. simplify_eq. split.
    + apply updated_row_is_visible. cbn. by destruct (is_archived next).
    + cbn. destruct (is_archived next); [|done]. unfold clear_process_local_agent_state, mark_native_session_data_stale.
      cbn. by repeat case_match.
Qed.

(** Navigation is told: when a commit changes the row of a Task that
    navigation shows before or after it, the commit publishes the new row or
    has the Project's entries projected again, and what it publishes is the row
    that navigation would show. *)
Theorem navigation_change_complete is_dir original task before after :
  tr_task_id task = tr_task_id original -> row_change_is_visible original task before after ->
  let row t b := sn_task (project_committed_task_state is_dir t b) in
  match navigation_change original task (cf_summary (changed_fields original task)) (row task after) with
  | None => navigation_member original = navigation_member task /\
            (navigation_member task = true -> row task after = row original before)
  | Some (NavTaskUpdated published) =>
      published = row task after /\ navigation_member original = true /\ navigation_member task = true /\
      tr_lifecycle task = tr_lifecycle original /\ tr_last_activity task = tr_last_activity original
  | Some (NavProjectEntriesChanged project_id) =>
      project_id = project_id_for_workspace (project_root_of task) /\
      (navigation_member original = true \/ navigation_member task = true)
  end.
Proof.
  intros Hid Hvis row. unfold navigation_change.
  destruct (navigation_member original) eqn:Eo, (navigation_member task) eqn:Et; cbn [andb]; try done.
  - rewrite bool_decide_eq_false_2 by (intros H; by apply H). cbn [orb].
    destruct (differs tr_lifecycle original task || differs tr_last_activity original task
              || differs tr_tombstoned original task) eqn:Em; [split; [done|by left]|]. same_fields.
    destruct (cf_summary (changed_fields original task)) eqn:Es; [done|]. split; [done|]. intros _.
    apply row_unchanged; [done|done|]. by destruct Hvis as [?|?]; [|congruence].
  - split; [done|by left].
  - rewrite bool_decide_eq_true_2 by done. cbn [orb]. split; [done|by right].
Qed.
End Publication.

(** ** Examples *)

Module PublicationWitness.
#[local] Existing Instance string_payloads.
#[local] Existing Instance ChatWitness.string_chat.

Definition folder_exists (_ : string) : bool := true.
Definition old : TaskRecord := RecordWitness.sample "t".
Definition pinned_later : TaskRecord := set_membership Open true "2" old.


Lemma navigation_change_complete_witness :
  exists published,
    navigation_change old pinned_later (cf_summary (changed_fields old pinned_later))
      (sn_task (project_committed_task_state folder_exists pinned_later false)) = Some (NavTaskUpdated published) /\
    published = sn_task (project_committed_task_state folder_exists pinned_later false).
Proof.
  pose proof (navigation_change_complete folder_exists old pinned_later false false) as H. cbv beta zeta in H.
  destruct (navigation_change old pinned_later (cf_summary (changed_fields old pinned_later))
      (sn_task (project_committed_task_state folder_exists pinned_later false))) as [[published|project]|] eqn:E.
  - exists published. split; [done|]. apply H; [reflexivity|]. right. vm_compute. reflexivity.
  - vm_compute in E. discriminate.
  - vm_compute in E. discriminate.
Defined.

(** A pin within the millisecond of the last update is committed but neither
    clients of the Task nor navigation hear of it. *)
Example pin_in_the_same_millisecond :
  let task := set_membership Open true (tr_updated_at old) old in
  tr_pinned task = true /\ tr_pinned old = false /\ cf_summary (changed_fields old task) = false /\
  navigation_change old task (cf_summary (changed_fields old task))
    (sn_task (project_committed_task_state folder_exists task false)) = None.
Proof. vm_compute. done. Qed.
End PublicationWitness.
