(* ===== verification/Turns.v ===== *)
(** * Turns and the message queue of a Task

    Models [openaide-rs/app-server/src/tasks/transitions] (active turns, the end
    of active work, failures and recovery), [task_recovery.rs],
    [tasks/attention.rs], the transactions of [tasks/product_api/send.rs],
    [queue.rs] and [scheduled_queue.rs], of [tasks/turn_events/permissions.rs],
    [questions.rs] and [background_work.rs], and the registry of accepted turns
    of [tasks/turn_acceptance.rs].

    Each transaction is an edit of the draft of Mutation, with its checks and
    its result, run by [commit_existing_task].  The clock is read once per
    transaction and printed by [now_string]; fresh identifiers, whether a file
    is available, and the pending requests of the broker are arguments. *)

From stdpp Require Import pretty.
From S2P Require Import Prelude Protocol Chat Records Journal Mutation Projects.

Local Open Scope Z_scope.

Inductive AgentPromptOutcome := EndTurn | MaxTokens | MaxTurnRequests | Refusal | Cancelled | OtherOutcome (reason : string).

Inductive ActiveWorkEnd :=
| UserStopped
| AgentFailed (message : string)
| AgentUnavailable (message : string)
| EndAgentReported (message : string)
| AgentStartFailed (message : string)
| CancellationFailed (message : string)
| EndRestarted
| Shutdown
| SupportRecovery.

Definition AGENT_UNAVAILABLE_MESSAGE : string :=
  "The Agent is not signed in or set up. Finish that, then send again.".

Definition agent_needs_user_setup (e : RuntimeError) : bool :=
  match e with ErrAuthRequired _ | ErrSetupRequired _ | ErrNodeJsRequired _ => true | _ => false end.

Definition prompt_failed (e : RuntimeError) : ActiveWorkEnd :=
  if agent_needs_user_setup e then AgentUnavailable (error_to_string e)
  else match e with
       | Records.AgentReported message => EndAgentReported message
       | e => AgentFailed (error_to_string e)
       end.

Definition start_failed (e : RuntimeError) : ActiveWorkEnd :=
  if agent_needs_user_setup e then AgentUnavailable (error_to_string e) else AgentStartFailed (error_to_string e).

Definition end_reason (c : ActiveWorkEnd) : InterruptionReason :=
  match c with
  | UserStopped | Shutdown | SupportRecovery => IntCanceled
  | EndRestarted => BackendUnavailable
  | _ => IntFailed
  end.

Definition end_message (c : ActiveWorkEnd) : string :=
  match c with
  | UserStopped => "Task was stopped."
  | AgentFailed _ | AgentStartFailed _ => "Agent work stopped unexpectedly. Try again."
  | AgentUnavailable _ => AGENT_UNAVAILABLE_MESSAGE
  | EndAgentReported message => "The Agent stopped: " +:+ message
  | CancellationFailed _ => "Unable to stop the Agent. Try again."
  | EndRestarted => "Task was interrupted because OpenAIDE restarted."
  | Shutdown => "Task was interrupted because OpenAIDE shut down."
  | SupportRecovery => "Task was interrupted by support recovery because the Agent appeared stuck."
  end.

Definition attention_reason (c : ActiveWorkEnd) : option Records.TaskAttentionReason :=
  match c with UserStopped => None | _ => Some AttFailed end.

(** ** Attention *)

Definition fresh_attention (event_id : string) (reason : Records.TaskAttentionReason) (occurred_at : string)
  : Records.TaskAttentionEvent := Records.mkAttention event_id reason occurred_at.

(** [epoch] is the id of the process. *)
Definition request_attention_event_id (epoch request_id : string) : string :=
  "request:" +:+ request_id +:+ ":" +:+ epoch.
Definition request_attention (epoch request_id : string) (reason : Records.TaskAttentionReason) (occurred_at : string)
  : Records.TaskAttentionEvent :=
  Records.mkAttention (request_attention_event_id epoch request_id) reason occurred_at.

(** Of the pending requests of the Task, its id and kind. *)
Definition PendingRequest : Type := string * PendingRequestKind.

Definition server_request_sequence (request_id : string) : Z :=
  default 0 (piece ← head (rsplit [45] (bytes_of request_id) [] []); parse_unsigned u64_modulus (of_bytes piece)).

(** [a] comes before [b] in the order of [max_by]. *)
Definition request_before (a b : PendingRequest) : bool :=
  match server_request_sequence a.1 ?= server_request_sequence b.1 with
  | Lt => true
  | Gt => false
  | Eq => match compare_strings a.1 b.1 with Gt => false | _ => true end
  end.

(** [max_by]: of equal elements the last. *)
Definition newest_request (requests : list PendingRequest) : option PendingRequest :=
  foldl (fun best r => match best with
         | Some b => if request_before b r then Some r else best
         | None => Some r
         end) None requests.

Definition is_human_request (k : PendingRequestKind) : bool :=
  match k with KindPermission | KindQuestion => true | _ => false end.

Definition current_request_attention (epoch : string) (pending : list PendingRequest)
    (current : option Records.TaskAttentionEvent) (occurred_at : string) : option Records.TaskAttentionEvent :=
  let requests := filter (fun r => is_human_request r.2 = true) pending in
  let kept := c ← current;
    if existsb (fun r => bool_decide (ae_event_id c = request_attention_event_id epoch r.1)) requests
    then Some c else None in
  match kept with
  | Some c => Some c
  | None =>
      '(request_id, kind) ← newest_request requests;
      match kind with
      | KindPermission => Some (request_attention epoch request_id AttNeedsPermission occurred_at)
      | KindQuestion => Some (request_attention epoch request_id AttNeedsAnswer occurred_at)
      | KindSecret | KindShellCapability => None
      end
  end.

Section Turns.
Context `{CP : ChatPayloads}.

(** Updates of the fields the transactions write. *)
Definition set_turn (status : TaskStatus) (turn : option string) (started_at : option string) (t : TaskRecord) : TaskRecord :=
  mkTask (tr_task_id t) (tr_title t) status (tr_task_version t) (tr_message_history_version t) (tr_unread t)
    (tr_pinned t) (tr_attention t) (tr_created_at t) (tr_updated_at t) (tr_last_activity t) (tr_permission_policy t)
    (tr_composer_history t) (tr_message_queue t) (tr_agent_id t) (tr_agent_name t) (tr_isolation t)
    (tr_workspace_root t) (tr_project_root t) (tr_worktree_id t) (tr_lifecycle t) (tr_agent_session_id t) turn
    started_at (tr_background_work t) (tr_tombstoned t) (tr_revision t) (tr_config_options_catalog t)
    (tr_native_session_data_freshness t) (tr_native_session_reload_requirement t)
    (tr_native_session_own_activity_at t) (tr_config_mutation t) (tr_agent_commands_catalog t) (tr_context_usage t)
    (tr_current_plan t) (tr_completed_plan_message_id t) (tr_last_turn_usage t) (tr_model_id t)
    (tr_supports_image_input t) (tr_preparation t).
Definition set_attention (unread : bool) (attention : option TaskAttentionEvent) (t : TaskRecord) : TaskRecord :=
  mkTask (tr_task_id t) (tr_title t) (tr_status t) (tr_task_version t) (tr_message_history_version t) unread
    (tr_pinned t) attention (tr_created_at t) (tr_updated_at t) (tr_last_activity t) (tr_permission_policy t)
    (tr_composer_history t) (tr_message_queue t) (tr_agent_id t) (tr_agent_name t) (tr_isolation t)
    (tr_workspace_root t) (tr_project_root t) (tr_worktree_id t) (tr_lifecycle t) (tr_agent_session_id t)
    (tr_active_turn_id t) (tr_active_turn_started_at t) (tr_background_work t) (tr_tombstoned t) (tr_revision t)
    (tr_config_options_catalog t) (tr_native_session_data_freshness t) (tr_native_session_reload_requirement t)
    (tr_native_session_own_activity_at t) (tr_config_mutation t) (tr_agent_commands_catalog t) (tr_context_usage t)
    (tr_current_plan t) (tr_completed_plan_message_id t) (tr_last_turn_usage t) (tr_model_id t)
    (tr_supports_image_input t) (tr_preparation t).
Definition set_times (updated_at : string) (last_activity : string) (t : TaskRecord) : TaskRecord :=
  mkTask (tr_task_id t) (tr_title t) (tr_status t) (tr_task_version t) (tr_message_history_version t) (tr_unread t)
    (tr_pinned t) (tr_attention t) (tr_created_at t) updated_at last_activity (tr_permission_policy t)
    (tr_composer_history t) (tr_message_queue t) (tr_agent_id t) (tr_agent_name t) (tr_isolation t)
    (tr_workspace_root t) (tr_project_root t) (tr_worktree_id t) (tr_lifecycle t) (tr_agent_session_id t)
    (tr_active_turn_id t) (tr_active_turn_started_at t) (tr_background_work t) (tr_tombstoned t) (tr_revision t)
    (tr_config_options_catalog t) (tr_native_session_data_freshness t) (tr_native_session_reload_requirement t)
    (tr_native_session_own_activity_at t) (tr_config_mutation t) (tr_agent_commands_catalog t) (tr_context_usage t)
    (tr_current_plan t) (tr_completed_plan_message_id t) (tr_last_turn_usage t) (tr_model_id t)
    (tr_supports_image_input t) (tr_preparation t).
Definition set_background_work (work : option TaskBackgroundWork) (t : TaskRecord) : TaskRecord :=
  mkTask (tr_task_id t) (tr_title t) (tr_status t) (tr_task_version t) (tr_message_history_version t) (tr_unread t)
    (tr_pinned t) (tr_attention t) (tr_created_at t) (tr_updated_at t) (tr_last_activity t) (tr_permission_policy t)
    (tr_composer_history t) (tr_message_queue t) (tr_agent_id t) (tr_agent_name t) (tr_isolation t)
    (tr_workspace_root t) (tr_project_root t) (tr_worktree_id t) (tr_lifecycle t) (tr_agent_session_id t)
    (tr_active_turn_id t) (tr_active_turn_started_at t) work (tr_tombstoned t) (tr_revision t)
    (tr_config_options_catalog t) (tr_native_session_data_freshness t) (tr_native_session_reload_requirement t)
    (tr_native_session_own_activity_at t) (tr_config_mutation t) (tr_agent_commands_catalog t) (tr_context_usage t)
    (tr_current_plan t) (tr_completed_plan_message_id t) (tr_last_turn_usage t) (tr_model_id t)
    (tr_supports_image_input t) (tr_preparation t).
Definition set_queue (queue : TaskMessageQueueRecord) (t : TaskRecord) : TaskRecord :=
  mkTask (tr_task_id t) (tr_title t) (tr_status t) (tr_task_version t) (tr_message_history_version t) (tr_unread t)
    (tr_pinned t) (tr_attention t) (tr_created_at t) (tr_updated_at t) (tr_last_activity t) (tr_permission_policy t)
    (tr_composer_history t) queue (tr_agent_id t) (tr_agent_name t) (tr_isolation t) (tr_workspace_root t)
    (tr_project_root t) (tr_worktree_id t) (tr_lifecycle t) (tr_agent_session_id t) (tr_active_turn_id t)
    (tr_active_turn_started_at t) (tr_background_work t) (tr_tombstoned t) (tr_revision t)
    (tr_config_options_catalog t) (tr_native_session_data_freshness t) (tr_native_session_reload_requirement t)
    (tr_native_session_own_activity_at t) (tr_config_mutation t) (tr_agent_commands_catalog t) (tr_context_usage t)
    (tr_current_plan t) (tr_completed_plan_message_id t) (tr_last_turn_usage t) (tr_model_id t)
    (tr_supports_image_input t) (tr_preparation t).
Definition set_composer_history (history : ComposerHistory) (t : TaskRecord) : TaskRecord :=
  mkTask (tr_task_id t) (tr_title t) (tr_status t) (tr_task_version t) (tr_message_history_version t) (tr_unread t)
    (tr_pinned t) (tr_attention t) (tr_created_at t) (tr_updated_at t) (tr_last_activity t) (tr_permission_policy t)
    history (tr_message_queue t) (tr_agent_id t) (tr_agent_name t) (tr_isolation t) (tr_workspace_root t)
    (tr_project_root t) (tr_worktree_id t) (tr_lifecycle t) (tr_agent_session_id t) (tr_active_turn_id t)
    (tr_active_turn_started_at t) (tr_background_work t) (tr_tombstoned t) (tr_revision t)
    (tr_config_options_catalog t) (tr_native_session_data_freshness t) (tr_native_session_reload_requirement t)
    (tr_native_session_own_activity_at t) (tr_config_mutation t) (tr_agent_commands_catalog t) (tr_context_usage t)
    (tr_current_plan t) (tr_completed_plan_message_id t) (tr_last_turn_usage t) (tr_model_id t)
    (tr_supports_image_input t) (tr_preparation t).
Definition set_opened (lifecycle : TaskLifecycle) (title : TaskTitleState) (t : TaskRecord) : TaskRecord :=
  mkTask (tr_task_id t) title (tr_status t) (tr_task_version t) (tr_message_history_version t) (tr_unread t)
    (tr_pinned t) (tr_attention t) (tr_created_at t) (tr_updated_at t) (tr_last_activity t) (tr_permission_policy t)
    (tr_composer_history t) (tr_message_queue t) (tr_agent_id t) (tr_agent_name t) (tr_isolation t)
    (tr_workspace_root t) (tr_project_root t) (tr_worktree_id t) lifecycle (tr_agent_session_id t)
    (tr_active_turn_id t) (tr_active_turn_started_at t) (tr_background_work t) (tr_tombstoned t) (tr_revision t)
    (tr_config_options_catalog t) (tr_native_session_data_freshness t) (tr_native_session_reload_requirement t)
    (tr_native_session_own_activity_at t) (tr_config_mutation t) (tr_agent_commands_catalog t) (tr_context_usage t)
    (tr_current_plan t) (tr_completed_plan_message_id t) (tr_last_turn_usage t) (tr_model_id t)
    (tr_supports_image_input t) (tr_preparation t).

Definition transaction (O : Type) : Type := TaskMutationContext -> result (O * TaskMutationResult * TaskMutationContext) RuntimeError.

(** [commit_existing_task] on a Task, with what the caller reads from the
    transaction, whether it was committed, and the Task after it. *)
Definition transact {O} (options : TaskCommitOptions) (t : transaction O) (p : TaskProjection)
  : result (O * bool * TaskProjection) RuntimeError :=
  let? commit := commit_existing_task Preserve (tr_task_id (pj_task p)) options
    (fun ctx => let? r := t ctx in Ok (r.1.2, r.2)) p in
  let? r := t (draft p) in
  Ok (r.1.1, is_some commit, match commit with Some c => ct_projection c | None => p end).

Definition active_turn_is (turn_id : string) (ctx : TaskMutationContext) : bool :=
  bool_decide (tr_active_turn_id (cx_task ctx) = Some turn_id).

(** ** Turns *)

Definition mark_turn_running (turn_id : string) (now : Z) : transaction bool := fun ctx =>
  if negb (active_turn_is turn_id ctx) then Ok (false, Unchanged, ctx)
  else match tr_status (cx_task ctx) with
       | StActive => Ok (true, Unchanged, ctx)
       | StStarting =>
           Ok (true, Changed, task_mut (fun t =>
             set_times (now_string now) (tr_last_activity t)
               (set_turn StActive (tr_active_turn_id t) (tr_active_turn_started_at t) t)) ctx)
       | _ => Ok (false, Unchanged, ctx)
       end.

Definition mark_turn_stopping (turn_id : string) (now : Z) : transaction bool := fun ctx =>
  if negb (active_turn_is turn_id ctx) then Ok (false, Unchanged, ctx)
  else if bool_decide (tr_status (cx_task ctx) = StStopping) then Ok (true, Unchanged, ctx)
  else Ok (true, Changed, task_mut (fun t =>
         set_times (now_string now) (tr_last_activity t)
           (set_turn StStopping (tr_active_turn_id t) (tr_active_turn_started_at t) t)) ctx).

Definition append_interruption (id : string) (reason : InterruptionReason) (message : string) (recoverable : bool)
    (now : Z) (ctx : TaskMutationContext) : TaskMutationContext :=
  append_message (MInterruption id reason message (now_string now) recoverable) now ctx.

(** The queue with a new pause, items and a revision one higher. *)
Definition requeue (pause : option TaskMessageQueuePauseRecord) (items : list QueuedMessageRecord)
    (q : TaskMessageQueueRecord) : TaskMessageQueueRecord := mkQueue (u64_saturating_add (mq_revision q) 1) pause items.

Definition pause_queue (pause : TaskMessageQueuePauseRecord) (t : TaskRecord) : TaskRecord :=
  match mq_items (tr_message_queue t) with
  | [] => t
  | items => set_queue (requeue (Some pause) items (tr_message_queue t)) t
  end.
Definition pause_queue_after_unsuccessful_turn : TaskRecord -> TaskRecord := pause_queue UnsuccessfulTurn.

(** Fresh identifiers of one transaction. *)
Record FreshIds := mkFreshIds { fr_event : string; fr_row : string; fr_marker : string }.

(** The task fields of [apply_active_work_end]. *)
Definition end_work_fields (cause : ActiveWorkEnd) (now : Z) (fresh : FreshIds) (t : TaskRecord) : TaskRecord :=
  let t := pause_queue (match cause with EndRestarted => Restarted | _ => UnsuccessfulTurn end) t in
  let attention := (fun reason => fresh_attention (fr_event fresh) reason (now_string now)) <$> attention_reason cause in
  set_times (now_string now) (now_string now)
    (set_attention true attention (set_background_work None (set_turn StInactive None None t))).

Definition apply_active_work_end (cause : ActiveWorkEnd) (now : Z) (fresh : FreshIds) (ctx : TaskMutationContext)
  : TaskMutationContext :=
  let ctx := (finish_running_activities Interrupted now ctx).2 in
  let ctx := append_interruption (fr_row fresh) (end_reason cause) (end_message cause) true now ctx in
  let ctx := close_turn_on_last_row (now_string now) now ctx in
  task_mut (end_work_fields cause now fresh) ctx.

Definition active_work_matches (expected : option string) (ctx : TaskMutationContext) : bool :=
  match expected with
  | Some turn_id => active_turn_is turn_id ctx
  | None =>
      is_some (tr_active_turn_id (cx_task ctx)) ||
      match tr_status (cx_task ctx) with StStarting | StActive | StStopping | StWaiting => true | _ => false end
  end.

Definition end_active_work (expected : option string) (cause : ActiveWorkEnd) (now : Z) (fresh : FreshIds)
  : transaction unit := fun ctx =>
  if negb (active_work_matches expected ctx) then Ok (tt, Unchanged, ctx)
  else Ok (tt, Changed, apply_active_work_end cause now fresh ctx).

Definition fail_created_task_start (e : RuntimeError) : Z -> FreshIds -> transaction unit :=
  end_active_work None (start_failed e).

Definition fail_adopted_task_attach (session_id : string) (e : RuntimeError) (now : Z) (fresh : FreshIds)
  : transaction unit := fun ctx =>
  if bool_decide (tr_agent_session_id (cx_task ctx) <> Some session_id) then Ok (tt, Unchanged, ctx)
  else
    let ctx := append_interruption (fr_row fresh) IntFailed
      (if agent_needs_user_setup e then AGENT_UNAVAILABLE_MESSAGE
       else "The Agent session could not be opened. Try again.") true now ctx in
    Ok (tt, Changed, task_mut (fun t => set_times (now_string now) (now_string now)
          (set_attention true (tr_attention t) (set_turn StFailed (tr_active_turn_id t) (tr_active_turn_started_at t) t))) ctx).

(** ** Queued messages *)

Definition queued_message_is_due (item : QueuedMessageRecord) (now : string) : bool :=
  match qm_not_before item with
  | None => true
  | Some time =>
      match parse_unsigned u64_modulus time, parse_unsigned u64_modulus now with
      | Some time, Some now => bool_decide (time <= now)
      | _, _ => false
      end
  end.

(** [path_available]: the path is the canonical path of a file. *)
Definition queued_attachment_paths_are_available (path_available : string -> bool) (attachments : list Attachment) : bool :=
  forallb (fun a => match att_path a with None => true | Some path => path_available path end) attachments.

Definition queued_attachments_available (path_available : string -> bool) (t : TaskRecord) (q : QueuedMessageRecord)
  : bool :=
  if negb (tr_supports_image_input t)
     && existsb (fun a => bool_decide (att_kind a = "image"%string)) (qm_agent_attachments q)
  then false
  else queued_attachment_paths_are_available path_available (qm_agent_attachments q).

Definition running_turn_message (id created_at : string) : NormalizedMessage :=
  MActivity id "Working" Running created_at true [StepText "Started" (Some "info"%string)].

(** The user row of an accepted message and the marker of its turn. *)
Definition user_row (message_id text : string) (attachments : list Attachment) (now : Z) : ChatMessage :=
  let id := ("user:" +:+ message_id)%string in
  mkChat "" id "user" message_id (MUser id text (now_string now) attachments) no_timing.
Definition turn_row (turn_id marker_id : string) (now : Z) : ChatMessage :=
  let id := ("turn:" +:+ turn_id)%string in
  mkChat "" id "activity" marker_id (running_turn_message id (now_string now)) no_timing.

(** The task fields of [accept_queued_turn]. *)
Definition accept_fields (q : QueuedMessageRecord) (turn_id message_id : string) (now : Z) (t : TaskRecord) : TaskRecord :=
  let queue := tr_message_queue t in
  let t := set_queue (requeue (mq_pause queue) (drop 1 (mq_items queue)) queue) t in
  let entry := mkEntry message_id (project_id_for_workspace (project_root_of t)) (qm_text q) (now_string now) in
  let t := set_composer_history (record entry (tr_composer_history t)) t in
  set_times (now_string now) (now_string now)
    (set_attention (tr_unread t) None (set_turn StStarting (Some turn_id) (Some (now_string now)) t)).

Definition accept_queued_turn (q : QueuedMessageRecord) (turn_id message_id : string) (now : Z) (fresh : FreshIds)
    (ctx : TaskMutationContext) : TaskMutationContext :=
  let ctx := append_chat_message (user_row message_id (qm_text q) (qm_chat_attachments q) now) now ctx in
  let ctx := append_chat_message (turn_row turn_id (fr_marker fresh) now) now ctx in
  task_mut (accept_fields q turn_id message_id now) ctx.

Definition append_prompt_outcome_activity (outcome : AgentPromptOutcome) (now : Z) (fresh : FreshIds)
    (ctx : TaskMutationContext) : TaskMutationContext :=
  let row message :=
    append_message (MActivity (fr_row fresh) "Agent stopped" ActError (now_string now) false
                      [StepText message (Some "error"%string)]) now ctx in
  match outcome with
  | MaxTokens => row "The Agent reached its token limit."%string
  | MaxTurnRequests => row "The Agent reached its request limit."%string
  | Refusal => row "The Agent refused this request."%string
  | OtherOutcome reason => row ("The Agent stopped: " +:+ reason +:+ ".")%string
  | EndTurn | Cancelled => ctx
  end.

(** The queue head a settled turn may hand over to. *)
Definition due_head (now : Z) (t : TaskRecord) : option QueuedMessageRecord :=
  if is_some (mq_pause (tr_message_queue t)) then None
  else q ← head (mq_items (tr_message_queue t)); if queued_message_is_due q (now_string now) then Some q else None.

(** The fields every settled turn leaves, with the reason for attention. *)
Definition settle_fields (reason : Records.TaskAttentionReason) (now : Z) (fresh : FreshIds) (t : TaskRecord) : TaskRecord :=
  set_times (now_string now) (now_string now)
    (set_attention true (Some (fresh_attention (fr_event fresh) reason (now_string now))) (set_turn StInactive None None t)).

Definition outcome_attention (outcome : AgentPromptOutcome) : Records.TaskAttentionReason :=
  match outcome with EndTurn => AttFinished | _ => AttStopped end.

Definition finish_turn_internal (path_available : string -> bool) (turn_id : string)
    (res : result AgentPromptOutcome RuntimeError) (successor : option (string * string)) (now : Z) (fresh : FreshIds)
  : transaction (option QueuedMessageRecord) := fun ctx =>
  if negb (active_turn_is turn_id ctx) then Ok (None, Unchanged, ctx)
  else
    let ctx := task_mut (set_background_work None) ctx in
    if bool_decide (tr_status (cx_task ctx) = StStopping) then
      let cause := match res with Ok _ => UserStopped | Err e => CancellationFailed (error_to_string e) end in
      Ok (None, Changed, apply_active_work_end cause now fresh ctx)
    else
      match res with
      | Err e => Ok (None, Changed, apply_active_work_end (prompt_failed e) now fresh ctx)
      | Ok outcome =>
          let ctx := close_turn_on_final_answer (now_string now) now ctx in
          let ctx := (finish_running_activity ("turn:" +:+ turn_id) Completed now ctx).2 in
          let settle ctx := Ok (None, Changed, task_mut (settle_fields (outcome_attention outcome) now fresh) ctx) in
          match outcome with
          | EndTurn =>
              match successor, due_head now (cx_task ctx) with
              | Some (next_turn_id, next_message_id), Some q =>
                  if queued_attachments_available path_available (cx_task ctx) q
                  then Ok (Some q, Changed, accept_queued_turn q next_turn_id next_message_id now fresh ctx)
                  else settle (task_mut (pause_queue AttachmentUnavailable) ctx)
              | _, _ => settle ctx
              end
          | Cancelled => settle (task_mut pause_queue_after_unsuccessful_turn ctx)
          | _ =>
              settle (task_mut pause_queue_after_unsuccessful_turn
                        (append_prompt_outcome_activity outcome now fresh ctx))
          end
      end.

Definition finish_turn (turn_id : string) (res : result AgentPromptOutcome RuntimeError)
  : Z -> FreshIds -> transaction (option QueuedMessageRecord) :=
  finish_turn_internal (fun _ => false) turn_id res None.
Definition finish_turn_and_accept_queue (path_available : string -> bool) (turn_id : string)
    (res : result AgentPromptOutcome RuntimeError) (next_turn_id next_message_id : string)
  : Z -> FreshIds -> transaction (option QueuedMessageRecord) :=
  finish_turn_internal path_available turn_id res (Some (next_turn_id, next_message_id)).

(** ** Sending *)

Definition require_client_task_access (t : TaskRecord) (client : string) : result unit RuntimeError :=
  match tr_lifecycle t with
  | Open | Archived => Ok tt
  | Prepared lease => if bool_decide (lease = Some client) then Ok tt else Err (TaskNotFound (tr_task_id t))
  end.

(** Only whether it rejects matters to the transactions. *)
Definition preparation_is_ready (t : TaskRecord) : bool :=
  negb (match cf_preferences (tr_config_mutation t) with
        | Some p => bool_decide (ps_state p <> PrefSettled)
        | None => false
        end)
  && match tr_preparation t with PrepReady => true | _ => false end.

Record TaskQueueSendSelection := mkSelection { qs_queued_message_id : string; qs_queue_revision : Z }.

Definition find_queued (id : string) (items : list QueuedMessageRecord) : option QueuedMessageRecord :=
  head (filter (fun item => qm_id item = id) items).
(** [position] and [remove]. *)
Fixpoint remove_queued (id : string) (items : list QueuedMessageRecord) : list QueuedMessageRecord :=
  match items with
  | [] => []
  | item :: items => if bool_decide (qm_id item = id) then items else item :: remove_queued id items
  end.

Definition consume_selected_queue_message (selection : option TaskQueueSendSelection) (prompt_text : string)
    (t : TaskRecord) : result TaskRecord RuntimeError :=
  match selection with
  | None => Ok t
  | Some s =>
      let q := tr_message_queue t in
      if bool_decide (mq_revision q <> qs_queue_revision s) then Err (Records.Conflict "Task Message Queue changed")
      else
        let? item := ok_or (find_queued (qs_queued_message_id s) (mq_items q))
                       (Records.Conflict "Queued Message no longer exists") in
        if bool_decide (qm_text item <> prompt_text) then Err (Records.Conflict "Queued Message changed")
        else Ok (set_queue (requeue (mq_pause q) (remove_queued (qs_queued_message_id s) (mq_items q)) q) t)
  end.

Definition clear_queue_pause (revision_before : Z) (t : TaskRecord) : TaskRecord :=
  let q := tr_message_queue t in
  set_queue
    (mkQueue (if is_some (mq_pause q) && bool_decide (mq_revision q = revision_before)
              then u64_saturating_add (mq_revision q) 1 else mq_revision q) None (mq_items q)) t.

Definition record_composer_history (entry_id text : string) (now : Z) (t : TaskRecord) : TaskRecord :=
  if bool_decide (text = ""%string) then t
  else set_composer_history
         (record (mkEntry entry_id (project_id_for_workspace (project_root_of t)) text (now_string now))
            (tr_composer_history t)) t.

(** One white-space delimited word of [split_whitespace], and the rest. *)
Fixpoint words (fuel : nat) (l word : list Z) : list (list Z) :=
  let close := if bool_decide (word = []) then [] else [word] in
  match fuel, l with
  | S fuel, b :: rest =>
      match strip_one whitespace l with
      | Some rest => close ++ words fuel rest []
      | None => words fuel rest (word ++ [b])
      end
  | _, _ => close
  end.
Definition split_whitespace (l : list Z) : list (list Z) := words (S (length l)) l [].

Fixpoint join_space (words : list (list Z)) : list Z :=
  match words with [] => [] | [w] => w | w :: words => w ++ 32 :: join_space words end.

(** A UTF-8 byte that starts a character. *)
Definition starts_char (b : Z) : bool := negb (bool_decide (128 <= b < 192)).
Fixpoint take_chars (n : nat) (l : list Z) : list Z :=
  match l with
  | [] => []
  | b :: l =>
      if starts_char b then match n with O => [] | S n => b :: take_chars n l end else b :: take_chars n l
  end.
Definition count_chars (l : list Z) : nat := length (filter (fun b => starts_char b = true) l).

Definition prompt_title (prompt : string) : option Records.TaskTitle :=
  let prompt := join_space (split_whitespace (bytes_of prompt)) in
  let prefix := take_chars 60 prompt in
  title_new (of_bytes (if bool_decide (60 < count_chars prompt)%nat then prefix ++ [46; 46; 46] else prefix))
    Records.SourcePrompt.

(** The fields of an accepted first message of a turn. *)
Definition start_turn_fields (promoted : bool) (turn_id message_id prompt_text : string) (now : Z) (t : TaskRecord)
  : TaskRecord :=
  let t := record_composer_history message_id prompt_text now t in
  let title := if promoted && is_empty (tr_title t) then (set_prompt_title (prompt_title prompt_text) (tr_title t)).2
               else tr_title t in
  set_times (now_string now) (now_string now)
    (set_turn StStarting (Some turn_id) (Some (now_string now)) (set_opened Open title t)).

Definition take_selection (selection : option TaskQueueSendSelection) (prompt_text : string) (ctx : TaskMutationContext)
  : result TaskMutationContext RuntimeError :=
  let before := mq_revision (tr_message_queue (cx_task ctx)) in
  let? t := consume_selected_queue_message selection prompt_text (cx_task ctx) in
  Ok (task_mut (fun _ => clear_queue_pause before t) ctx).

(** The transaction of [send_message_serialized]; the flag tells that a New
    Task became an Open one. *)
Definition accept_primary_message (client : string) (selection : option TaskQueueSendSelection)
    (turn_id message_id prompt_text : string) (attachments : list Attachment) (now : Z) (fresh : FreshIds)
  : transaction bool := fun ctx =>
  let t := cx_task ctx in
  if tr_tombstoned t || match require_client_task_access t client with Ok _ => false | Err _ => true end
     || is_some (tr_active_turn_id t) || negb (preparation_is_ready t)
  then Ok (false, MutRejected, ctx)
  else
    let promoted := match tr_lifecycle t with Prepared _ => true | _ => false end in
    let? ctx := take_selection selection prompt_text ctx in
    let ctx := append_chat_message (user_row message_id prompt_text attachments now) now ctx in
    let ctx := append_chat_message (turn_row turn_id (fr_marker fresh) now) now ctx in
    Ok (promoted, Changed, task_mut (start_turn_fields promoted turn_id message_id prompt_text now) ctx).

Definition accept_steering_message (client : string) (expected_session : option string)
    (selection : option TaskQueueSendSelection) (turn_id message_id prompt_text : string) (attachments : list Attachment)
    (now : Z) : transaction unit := fun ctx =>
  let t := cx_task ctx in
  if tr_tombstoned t || match require_client_task_access t client with Ok _ => false | Err _ => true end
     || bool_decide (tr_status t <> StActive) || negb (active_turn_is turn_id ctx)
     || bool_decide (tr_agent_session_id t <> expected_session)
  then Ok (tt, MutRejected, ctx)
  else
    let? ctx := take_selection selection prompt_text ctx in
    let ctx := append_chat_message (user_row message_id prompt_text attachments now) now ctx in
    Ok (tt, Changed, task_mut (fun t => set_times (now_string now) (now_string now)
          (record_composer_history message_id prompt_text now t)) ctx).

(** ** The message queue *)

Definition MAX_QUEUE_ITEMS : nat := 20.

Definition is_working (s : Records.TaskStatus) : bool :=
  match s with StStarting | StActive | StWaiting | StStopping => true | _ => false end.

Definition queue_append_message (client : string) (item : QueuedMessageRecord) (now : Z) : transaction unit := fun ctx =>
  let t := cx_task ctx in
  let q := tr_message_queue t in
  check? require_client_task_access t client in
  if is_some (qm_not_before item) && negb (is_open (tr_lifecycle t))
  then Err (Records.Conflict "Send the first message before scheduling follow-ups")
  else if negb (is_some (qm_not_before item)) && negb (is_working (tr_status t))
  then Err (Records.Conflict "Queue is available only while Agent work is active")
  else if bool_decide (MAX_QUEUE_ITEMS <= length (mq_items q))%nat
  then Err (Records.Conflict "A Task Message Queue can contain at most 20 items")
  else
    Ok (tt, Changed, task_mut (fun t =>
      let t := set_queue (requeue (mq_pause q) (mq_items q ++ [item]) q) t in
      let t := if is_some (qm_not_before item) then t else record_composer_history (qm_id item) (qm_text item) now t in
      set_times (now_string now) (tr_last_activity t) t) ctx).

(** [queue_remove_message], and the transaction of [queue_take_message]. *)
Definition queue_remove_message (client : string) (queue_revision : Z) (id : string) (now : Z) : transaction unit := fun ctx =>
  let q := tr_message_queue (cx_task ctx) in
  check? require_client_task_access (cx_task ctx) client in
  if bool_decide (mq_revision q <> queue_revision) then Err (Records.Conflict "Task Message Queue changed")
  else match find_queued id (mq_items q) with
       | None => Err (Records.Conflict "Queued Message no longer exists")
       | Some _ =>
           let items := remove_queued id (mq_items q) in
           Ok (tt, Changed, task_mut (fun t =>
             set_times (now_string now) (tr_last_activity t)
               (set_queue (requeue (match items with [] => None | _ => mq_pause q end) items q) t)) ctx)
       end.

Definition queue_move_message (client : string) (id : string) (target_index : Z) (now : Z) : transaction unit := fun ctx =>
  let q := tr_message_queue (cx_task ctx) in
  check? require_client_task_access (cx_task ctx) client in
  match find_queued id (mq_items q) with
  | None => Err (Records.Conflict "Queued Message no longer exists")
  | Some item =>
      let rest := remove_queued id (mq_items q) in
      let target := Nat.min (Z.to_nat target_index) (length rest) in
      Ok (tt, Changed, task_mut (fun t =>
        set_times (now_string now) (tr_last_activity t)
          (set_queue (requeue (mq_pause q) (take target rest ++ item :: drop target rest) q) t)) ctx)
  end.

Definition validate_schedule (value : option string) (now : Z) : bool :=
  match value with
  | None => true
  | Some value =>
      let now := default 0 (parse_unsigned u64_modulus (now_string now)) in
      match parse_unsigned u64_modulus value with
      | Some time => bool_decide (now < time) && bool_decide (time <= 8640000000000000)
      | None => false
      end
  end.

Definition queue_is_waiting (t : TaskRecord) (now : string) : bool :=
  negb (tr_tombstoned t) && is_open (tr_lifecycle t) && negb (is_some (mq_pause (tr_message_queue t)))
  && match head (mq_items (tr_message_queue t)) with
     | Some q =>
         bool_decide (tr_status t <> StInactive) || is_some (tr_active_turn_id t) || negb (queued_message_is_due q now)
     | None => false
     end.

Inductive QueueWake := Dormant | Waiting | Due (q : QueuedMessageRecord) (selection : TaskQueueSendSelection).

(** What a timer finds under the gate of sends. *)
Definition queue_wake (t : TaskRecord) (now : string) : QueueWake :=
  match mq_items (tr_message_queue t) with
  | [] => Dormant
  | q :: _ =>
      if tr_tombstoned t || negb (is_open (tr_lifecycle t)) || is_some (mq_pause (tr_message_queue t)) then Dormant
      else if queue_is_waiting t now then Waiting
      else Due q (mkSelection (qm_id q) (mq_revision (tr_message_queue t)))
  end.

(** After a delivery that failed; the flag tells that the item is still there. *)
Definition pause_failed_delivery (pause : TaskMessageQueuePauseRecord) (id : string) : transaction bool := fun ctx =>
  let t := cx_task ctx in
  let pending := is_some (find_queued id (mq_items (tr_message_queue t))) in
  if negb pending || is_some (tr_active_turn_id t) then Ok (pending, Unchanged, ctx)
  else Ok (pending, Changed, task_mut (pause_queue pause) ctx).

Definition resume_scheduled_queue (queue_revision : Z) : transaction unit := fun ctx =>
  let t := cx_task ctx in
  let q := tr_message_queue t in
  if bool_decide (mq_revision q <> queue_revision) then Err (Records.Conflict "Task Message Queue changed")
  else if bool_decide (tr_status t <> StInactive) || match mq_items q with [] => true | _ => false end
  then Err (Records.Conflict "Queue cannot be resumed")
  else if negb (is_some (mq_pause q)) then Ok (tt, Unchanged, ctx)
  else Ok (tt, Changed, task_mut (set_queue (requeue None (mq_items q) q)) ctx).

(** ** Requests of the Agent *)

Definition mark_permission_waiting (turn_id request_id epoch : string) (cancelled : bool) (now : Z) : transaction unit := fun ctx =>
  if negb (active_turn_is turn_id ctx) || cancelled then Ok (tt, Unchanged, ctx)
  else Ok (tt, Changed, task_mut (fun t =>
         set_times (now_string now) (tr_last_activity t)
           (set_attention true (Some (request_attention epoch request_id AttNeedsPermission (now_string now)))
              (set_turn StWaiting (tr_active_turn_id t) (tr_active_turn_started_at t) t))) ctx).

(** The transaction of [persist_permission_resolution] for a request of the
    Task's own Agent or of a subagent. *)
Definition persist_permission_resolution (subagent : bool) (activity_identity tool_call_id : string)
    (outcome : ToolPermissionOutcome) (epoch : string) (pending : list PendingRequest) (stopped : bool) (now : Z)
  : transaction unit := fun ctx =>
  let '(found, ctx) := if subagent then (true, ctx)
                       else record_tool_permission_outcome activity_identity tool_call_id outcome now ctx in
  if negb found
  then Err (Records.Internal ("permission request " +:+ po_request_id outcome +:+ " has no linked tool " +:+ tool_call_id))
  else
    Ok (tt, Changed, task_mut (fun t =>
      let t := match pending with
               | [] => if negb stopped && bool_decide (tr_status t = StWaiting)
                       then set_turn StActive (tr_active_turn_id t) (tr_active_turn_started_at t) t else t
               | _ => t
               end in
      let attention := current_request_attention epoch pending (tr_attention t) (now_string now) in
      set_times (now_string now) (now_string now) (set_attention (is_some attention) attention t)) ctx).

Definition mark_question_waiting (session_id request_id epoch : string) (now : Z) : transaction unit := fun ctx =>
  if bool_decide (tr_agent_session_id (cx_task ctx) <> Some session_id)
  then Err (InvalidParams "elicitation session is not bound to this Task")
  else Ok (tt, Changed, task_mut (fun t =>
         set_times (now_string now) (tr_last_activity t)
           (set_attention true (Some (request_attention epoch request_id AttNeedsAnswer (now_string now)))
              (set_turn StWaiting (tr_active_turn_id t) (tr_active_turn_started_at t) t))) ctx).

(** The transaction after the answer of [handle_question]; [row] is the question
    with its answer. *)
Definition resolve_question (row : NormalizedMessage) (epoch : string) (pending : list PendingRequest) (stopped : bool)
    (now : Z) : transaction unit := fun ctx =>
  let ctx := append_message row now ctx in
  Ok (tt, Changed, task_mut (fun t =>
    let t := match pending with
             | [] => if negb stopped && bool_decide (tr_status t = StWaiting)
                     then set_turn (if is_some (tr_active_turn_id t) then StActive else StInactive)
                            (tr_active_turn_id t) (tr_active_turn_started_at t) t
                     else t
             | _ => t
             end in
    set_times (now_string now) (now_string now)
      (set_attention (tr_unread t) (current_request_attention epoch pending (tr_attention t) (now_string now)) t)) ctx).

Record AgentBackgroundCommand := mkAgentBackground {
  ab_command_id : string; ab_description : string; ab_kind_label : option string; ab_paused : bool; ab_can_stop : bool;
  ab_tool_call_id : option string;
}.

Definition next_command (previous : option TaskBackgroundWork) (now : Z) (c : AgentBackgroundCommand)
  : TaskBackgroundCommand :=
  let known := w ← previous; head (filter (fun k => bc_command_id k = ab_command_id c) (bw_commands w)) in
  mkCommand (ab_command_id c) (ab_description c) (ab_kind_label c)
    (match known with Some k => bc_started_at k | None => now_string now end) (ab_paused c) (ab_can_stop c)
    (match known with Some k => bc_stop_failed k | None => false end) (ab_tool_call_id c).

Definition update_background_work (session_id : string) (held : bool) (commands : list AgentBackgroundCommand) (now : Z)
  : transaction unit := fun ctx =>
  let t := cx_task ctx in
  if bool_decide (tr_agent_session_id t <> Some session_id) || negb (is_some (tr_active_turn_id t))
  then Ok (tt, Unchanged, ctx)
  else
    let previous := tr_background_work t in
    let next := if held || match commands with [] => false | _ => true end
                then Some (mkWork held (next_command previous now <$> commands)) else None in
    if bool_decide (previous = next) then Ok (tt, Unchanged, ctx)
    else
      let was_held := match previous with Some w => bw_held w | None => false end in
      Ok (tt, Changed, task_mut (fun t =>
        set_times (now_string now) (tr_last_activity t)
          (set_attention (if held && negb was_held then true else tr_unread t) (tr_attention t)
             (set_background_work next t))) ctx).

(** ** Recovery after a restart *)

Record VolatileRecoveryPlan := mkPlanR {
  interrupt_active_turn : bool; mark_live_session_data_stale : bool; clear_pending_config_change : bool;
}.
Definition has_work (p : VolatileRecoveryPlan) : bool :=
  interrupt_active_turn p || mark_live_session_data_stale p || clear_pending_config_change p.

Definition volatile_recovery_plan (t : TaskRecord) : option VolatileRecoveryPlan :=
  let plan := mkPlanR (is_some (tr_active_turn_id t))
    ((is_some (tr_config_options_catalog t) || is_some (tr_agent_commands_catalog t))
     && negb (is_stale (tr_native_session_data_freshness t)))
    (is_some (cf_pending (tr_config_mutation t))) in
  if has_work plan then Some plan else None.

Definition needs_recovery (t : TaskRecord) : bool :=
  is_some (volatile_recovery_plan t) || negb (bool_decide (length (mq_items (tr_message_queue t)) = 0%nat)).

Definition pause_for_restart (t : TaskRecord) : TaskRecord :=
  let q := tr_message_queue t in
  match mq_items q with
  | [] => t
  | items => if bool_decide (mq_pause q = Some Restarted) then t else set_queue (requeue (Some Restarted) items q) t
  end.

(** The transaction of [recover_volatile_runtime_state] on one Task; the flag
    tells that active work was ended. *)
Definition recover_task (now : Z) (fresh : FreshIds) : transaction bool := fun ctx =>
  let plan := default (mkPlanR false false false) (volatile_recovery_plan (cx_task ctx)) in
  let ctx := if interrupt_active_turn plan then apply_active_work_end EndRestarted now fresh ctx else ctx in
  let ctx := task_mut pause_for_restart ctx in
  let ctx := if mark_live_session_data_stale plan
             then task_mut (fun t => let t := (mark_native_session_data_stale t).2 in
                    set_process_local (tr_config_options_catalog t) (tr_native_session_data_freshness t)
                      (tr_config_mutation t) None None t) ctx
             else ctx in
  let ctx := if clear_pending_config_change plan
             then task_mut (fun t => let c := tr_config_mutation t in
                    set_process_local (tr_config_options_catalog t) (tr_native_session_data_freshness t)
                      (mkConfigMutation (cf_sequence c) None (cf_preferences c) (cf_chosen c)) (tr_context_usage t)
                      (tr_last_turn_usage t) t) ctx
             else ctx in
  Ok (interrupt_active_turn plan, Changed, ctx).
End Turns.

(** ** Accepted turns that have not started *)

Module Acceptance.

Record TurnAcceptanceCoordinator := mkAcceptance {
  pending_turns : gmap string string; unresolved_deletions : gset (string * string);
}.
Definition new : TurnAcceptanceCoordinator := mkAcceptance ∅ ∅.

(** A native session is its agent and session id. *)
Definition begin_session_deletion (session : string * string) (a : TurnAcceptanceCoordinator)
  : bool * TurnAcceptanceCoordinator :=
  (bool_decide (session ∉ unresolved_deletions a), mkAcceptance (pending_turns a) ({[session]} ∪ unresolved_deletions a)).
Definition resolve_session_deletion (session : string * string) (a : TurnAcceptanceCoordinator)
  : TurnAcceptanceCoordinator := mkAcceptance (pending_turns a) (unresolved_deletions a ∖ {[session]}).
Definition session_deletion_unresolved (session : string * string) (a : TurnAcceptanceCoordinator) : bool :=
  bool_decide (session ∈ unresolved_deletions a).

Definition clear (a : TurnAcceptanceCoordinator) : TurnAcceptanceCoordinator := mkAcceptance ∅ (unresolved_deletions a).

Definition own_pending_turn (task_id turn_id : string) (a : TurnAcceptanceCoordinator)
  : bool * TurnAcceptanceCoordinator :=
  match pending_turns a !! task_id with
  | Some owned => (bool_decide (owned = turn_id), a)
  | None => (true, mkAcceptance (<[task_id := turn_id]> (pending_turns a)) (unresolved_deletions a))
  end.
Definition owns_pending_turn (task_id turn_id : string) (a : TurnAcceptanceCoordinator) : bool :=
  match pending_turns a !! task_id with Some owned => bool_decide (owned = turn_id) | None => false end.
Definition retire_pending_turn (task_id turn_id : string) (a : TurnAcceptanceCoordinator) : TurnAcceptanceCoordinator :=
  if owns_pending_turn task_id turn_id a
  then mkAcceptance (delete task_id (pending_turns a)) (unresolved_deletions a) else a.
Definition retire_for_idle_task (task_id : string) (a : TurnAcceptanceCoordinator) : TurnAcceptanceCoordinator :=
  mkAcceptance (delete task_id (pending_turns a)) (unresolved_deletions a).
Definition owned_turns (a : TurnAcceptanceCoordinator) : gset (string * string) := list_to_set (map_to_list (pending_turns a)).
End Acceptance.
