(* ===== verification/TurnRules.v ===== *)
(** * The rules of turns

    Proves of the transactions of Turns, run by [commit_existing_task] one after
    the other on a Task, that the turn fields stay consistent, that a turn
    settles once, that a queued message is delivered once and in order, that the
    queue's revision identifies the queue, and what the end of active work and
    the recovery after a restart leave behind. *)

From S2P Require Import Prelude Protocol Chat Records Journal Mutation Draft Projects Turns.

Local Open Scope Z_scope.

Section TurnRules.
Context `{CP : ChatPayloads}.

(** ** Edits of Chat leave the record alone *)

Lemma append_message_task m now ctx : cx_task (append_message m now ctx) = cx_task ctx.
Proof. unfold append_message. by destruct (extract_tool_artifacts m). Qed.
Lemma append_chat_message_task m now ctx : cx_task (append_chat_message m now ctx) = cx_task ctx.
Proof. done. Qed.
Lemma publish_closed_turn_task changed now ctx : cx_task (publish_closed_turn changed now ctx) = cx_task ctx.
Proof. by destruct changed as [[m rows]|]. Qed.
Lemma close_on_answer_task ended now ctx : cx_task (close_turn_on_final_answer ended now ctx) = cx_task ctx.
Proof. unfold close_turn_on_final_answer. case_match; [apply publish_closed_turn_task|done]. Qed.
Lemma close_on_last_row_task ended now ctx : cx_task (close_turn_on_last_row ended now ctx) = cx_task ctx.
Proof. unfold close_turn_on_last_row. case_match; [apply publish_closed_turn_task|done]. Qed.
Lemma finish_activities_task status now ctx : cx_task (finish_running_activities status now ctx).2 = cx_task ctx.
Proof. unfold finish_running_activities. by destruct (omap _ _). Qed.
Lemma finish_activity_task i status now ctx : cx_task (finish_running_activity i status now ctx).2 = cx_task ctx.
Proof. unfold finish_running_activity. by case_match. Qed.
Lemma permission_outcome_task i call o now ctx : cx_task (record_tool_permission_outcome i call o now ctx).2 = cx_task ctx.
Proof. unfold record_tool_permission_outcome. by repeat case_match. Qed.
Lemma outcome_activity_task o now fresh ctx : cx_task (append_prompt_outcome_activity o now fresh ctx) = cx_task ctx.
Proof. unfold append_prompt_outcome_activity. by destruct o; rewrite ?append_message_task. Qed.
Lemma task_mut_task f ctx : cx_task (task_mut f ctx) = f (cx_task ctx).
Proof. done. Qed.

Create Rewrite HintDb turns.
Hint Rewrite append_message_task append_chat_message_task close_on_answer_task close_on_last_row_task
  finish_activities_task finish_activity_task permission_outcome_task outcome_activity_task task_mut_task : turns.

Lemma active_work_end_task cause now fresh ctx :
  cx_task (apply_active_work_end cause now fresh ctx) = end_work_fields cause now fresh (cx_task ctx).
Proof. unfold apply_active_work_end, append_interruption. by autorewrite with turns. Qed.
Lemma accept_queued_task q turn message now fresh ctx :
  cx_task (accept_queued_turn q turn message now fresh ctx) = accept_fields q turn message now (cx_task ctx).
Proof. done. Qed.
Hint Rewrite active_work_end_task accept_queued_task : turns.

(** ** What a commit makes of a transaction *)

(** A commit writes the versions of the record besides. *)
Definition versioned (t t' : TaskRecord) : Prop :=
  exists version revision history, t' = set_versions version revision (tr_updated_at t) (set_history_version history t).

Lemma set_history_version_id t : set_history_version (tr_message_history_version t) t = t.
Proof. by destruct t. Qed.

Lemma transact_inv {O} options (tx : transaction O) p out committed p' :
  transact options tx p = Ok (out, committed, p') ->
  exists outcome ctx, tx (draft p) = Ok (out, outcome, ctx) /\
    ((committed = false /\ p' = p) \/
     (committed = true /\ outcome = Changed /\ versioned (cx_task ctx) (pj_task p') /\ pj_messages p' = cx_messages ctx)).
Proof.
  unfold transact, commit_existing_task. cbn [validate_replacement_boundary].
  destruct (tx (draft p)) as [[[o outcome] ctx]|e] eqn:Etx; cbn; [|done].
  set (final := if _ : bool then _ else _). destruct final eqn:Ef.
  - destruct (validate_task_invariants _ _ _ _) as [u|e]; cbn; [|done].
    destruct (persist_changed_projection _ options ctx) as [c|e] eqn:Ep; cbn; [|done]. intros [= <- <- <-].
    exists outcome, ctx. split; [done|]. right.
    assert (outcome = Changed) as -> by (unfold final in Ef; by case_match).
    unfold persist_changed_projection in Ep.
    set (task := if refresh_message_history options then _ else _) in Ep. cbv zeta in Ep.
    destruct (u64_checked_add _ _) as [revision|]; cbn in Ep; [|done].
    destruct (journal_operations _ _) as [ops|e]; cbn in Ep; [|done]. injection Ep as <-. cbn.
    split; [done|]. split; [done|]. split; [|done].
    assert (exists h, task = set_history_version h (cx_task ctx)) as [h ->].
    { unfold task. destruct (refresh_message_history options); eauto using set_history_version_id. }
    by eexists _, _, h.
  - intros [= <- <- <-]. exists outcome, ctx. split; [done|]. by left.
  - intros [= <- <- <-]. exists outcome, ctx. split; [done|]. by left.
Qed.

Lemma versioned_fields t t' : versioned t t' ->
  tr_status t' = tr_status t /\ tr_active_turn_id t' = tr_active_turn_id t /\
  tr_active_turn_started_at t' = tr_active_turn_started_at t /\ tr_background_work t' = tr_background_work t /\
  tr_message_queue t' = tr_message_queue t /\ tr_agent_session_id t' = tr_agent_session_id t /\
  tr_lifecycle t' = tr_lifecycle t /\ tr_config_mutation t' = tr_config_mutation t.
Proof. by intros (v & r & h & ->). Qed.

(** ** The transactions on turns and queue *)

(** The turn a transaction may start. *)
Inductive turn_tx (t : TaskRecord) : option string -> forall O, transaction O -> Prop :=
| tx_running turn now : turn_tx t None _ (mark_turn_running turn now)
| tx_stopping turn now : turn_tx t None _ (mark_turn_stopping turn now)
| tx_finish available turn res successor now fresh :
    turn_tx t (fst <$> successor) _ (finish_turn_internal available turn res successor now fresh)
| tx_end expected cause now fresh : turn_tx t None _ (end_active_work expected cause now fresh)
| tx_attach_failed session e now fresh :
    tr_active_turn_id t = None -> turn_tx t None _ (fail_adopted_task_attach session e now fresh)
| tx_send client selection turn message text attachments now fresh :
    turn_tx t (Some turn) _ (accept_primary_message client selection turn message text attachments now fresh)
| tx_steer client session selection turn message text attachments now :
    turn_tx t None _ (accept_steering_message client session selection turn message text attachments now)
| tx_queue_append client item now : turn_tx t None _ (queue_append_message client item now)
| tx_queue_remove client revision id now : turn_tx t None _ (queue_remove_message client revision id now)
| tx_queue_move client id target now : turn_tx t None _ (queue_move_message client id target now)
| tx_queue_pause pause id : turn_tx t None _ (pause_failed_delivery pause id)
| tx_queue_resume revision : turn_tx t None _ (resume_scheduled_queue revision)
| tx_permission turn request epoch cancelled now :
    turn_tx t None _ (mark_permission_waiting turn request epoch cancelled now)
| tx_permission_resolved subagent activity call outcome epoch pending stopped now :
    (pending = [] -> tr_status t = StWaiting -> is_some (tr_active_turn_id t) = true) ->
    turn_tx t None _ (persist_permission_resolution subagent activity call outcome epoch pending stopped now)
| tx_question session request epoch now :
    turn_tx t None _ (mark_question_waiting session request epoch now)
| tx_question_resolved row epoch pending stopped now :
    turn_tx t None _ (resolve_question row epoch pending stopped now)
| tx_background session held commands now : turn_tx t None _ (update_background_work session held commands now)
| tx_recover now fresh : turn_tx t None _ (recover_task now fresh).

Inductive turn_step (started : option string) (p p' : TaskProjection) : Prop :=
| turn_step_intro O (tx : transaction O) options out committed :
    turn_tx (pj_task p) started O tx -> transact options tx p = Ok (out, committed, p') -> turn_step started p p'.

(** Runs, with the turns they may start. *)
Inductive turn_run : list string -> TaskProjection -> TaskProjection -> Prop :=
| turn_run_nil p : turn_run [] p p
| turn_run_cons started p p1 p' turns :
    turn_step started p p1 -> turn_run turns p1 p' -> turn_run (option_list started ++ turns) p p'.

(** ** The turn fields *)

Record turn_ok (t : TaskRecord) : Prop := mkTurnOk {
  ok_started : is_some (tr_active_turn_started_at t) = is_some (tr_active_turn_id t);
  ok_working : is_some (tr_active_turn_id t) = true -> is_working (tr_status t) = true;
  ok_turn : is_working (tr_status t) = true -> tr_status t <> StWaiting -> is_some (tr_active_turn_id t) = true;
  ok_background : is_some (tr_background_work t) = true -> is_some (tr_active_turn_id t) = true;
  ok_pause : is_some (mq_pause (tr_message_queue t)) = true -> mq_items (tr_message_queue t) <> [];
  ok_length : (length (mq_items (tr_message_queue t)) <= MAX_QUEUE_ITEMS)%nat;
}.

Lemma turn_ok_versioned t t' : versioned t t' -> turn_ok t -> turn_ok t'.
Proof. intros (v & r & h & ->) [K1 K2 K3 K4 K5 K6]. by split. Qed.

(** The fields only a commit writes, and the identity of the Task. *)
Definition kept (t t' : TaskRecord) : Prop := tr_task_id t' = tr_task_id t /\ from_task t' = from_task t.

(** What one transaction does to the turn and the queue. *)
Record effect (started : option string) (t t' : TaskRecord) : Prop := mkEffect {
  ef_ok : turn_ok t -> turn_ok t';
  ef_turn : tr_active_turn_id t' = tr_active_turn_id t \/ tr_active_turn_id t' = None \/ tr_active_turn_id t' = started;
  ef_queue : tr_message_queue t' = tr_message_queue t \/
    mq_revision (tr_message_queue t') = u64_saturating_add (mq_revision (tr_message_queue t)) 1;
  ef_kept : kept t t';
}.

(** The goals a transaction leaves when its fields are computed. *)
Ltac effects := split; [intros [K1 K2 K3 K4 K5 K6]; split; try done; cbn|cbn; auto|cbn; auto|done]; auto.

(** Edits that keep turn and queue. *)
Definition same_work (t t' : TaskRecord) : Prop :=
  tr_status t' = tr_status t /\ tr_active_turn_id t' = tr_active_turn_id t /\
  tr_active_turn_started_at t' = tr_active_turn_started_at t /\ tr_background_work t' = tr_background_work t /\
  tr_message_queue t' = tr_message_queue t /\ kept t t'.

Lemma same_work_ok t t' : same_work t t' -> turn_ok t -> turn_ok t'.
Proof. intros (E1 & E2 & E3 & E4 & E5 & _) [K1 K2 K3 K4 K5 K6]. split; by rewrite ?E1, ?E2, ?E3, ?E4, ?E5. Qed.

Lemma effect_same started t t' : same_work t t' -> effect started t t'.
Proof. intros E. split; [by apply same_work_ok|by left; apply E|by left; apply E|apply E]. Qed.

Lemma effect_then started t t' t'' : effect started t t' -> same_work t' t'' -> effect started t t''.
Proof.
  intros [K1 K2 K3 [K4 K5]] E. pose proof E as (E1 & E2 & E3 & E4 & E5 & E6 & E7).
  split; [eauto using same_work_ok|by rewrite E2|by rewrite E5|split; congruence].
Qed.

Lemma history_same id text now t : same_work t (record_composer_history id text now t).
Proof. unfold record_composer_history. by split_test. Qed.

Lemma pause_queue_effect started pause t : effect started t (pause_queue pause t).
Proof.
  unfold pause_queue. destruct (mq_items (tr_message_queue t)) eqn:E; [by apply effect_same|]. effects. by rewrite E in K6.
Qed.

Lemma pause_queue_fields pause t : tr_status (pause_queue pause t) = tr_status t /\
  tr_active_turn_id (pause_queue pause t) = tr_active_turn_id t /\
  tr_background_work (pause_queue pause t) = tr_background_work t /\
  mq_items (tr_message_queue (pause_queue pause t)) = mq_items (tr_message_queue t).
Proof. unfold pause_queue. by destruct (mq_items (tr_message_queue t)) eqn:E. Qed.

Lemma end_work_effect started cause now fresh t : effect started t (end_work_fields cause now fresh t).
Proof.
  unfold end_work_fields. cbv zeta.
  destruct (pause_queue_effect started (match cause with EndRestarted => Restarted | _ => UnsuccessfulTurn end) t) as [Ho _ Hq Hk].
  split; [|by right; left|done|done]. intros Ht. destruct (Ho Ht). by split.
Qed.

Lemma find_queued_length id items q : find_queued id items = Some q ->
  (S (length (remove_queued id items)) = length items)%nat /\ q ∈ items /\ qm_id q = id.
Proof.
  unfold find_queued. induction items as [|x items IH]; [done|]. cbn [remove_queued]. split_test.
  - rewrite filter_cons_True by done. intros [= ->]. split; [done|]. split; [left|done].
  - rewrite filter_cons_False by done. intros H. destruct (IH H) as (Hl & Hin & Hid). cbn. split; [lia|]. split; [by right|done].
Qed.

(** The pause is cleared and, when that or the taken item changes the queue, its
    revision grows once. *)
Lemma selection_effect started selection text ctx ctx' : take_selection selection text ctx = Ok ctx' ->
  effect started (cx_task ctx) (cx_task ctx').
Proof.
  unfold take_selection. cbv zeta. destruct (consume_selected_queue_message _ _ _) as [t|e] eqn:Ec; cbn; [|done].
  intros [= <-]. autorewrite with turns. unfold consume_selected_queue_message in Ec. destruct selection as [s|].
  - split_test; [done|]. destruct (find_queued _ _) as [item|] eqn:Ef; cbn in Ec; [|done]. split_test; [done|].
    apply find_queued_length in Ef as [Hl _]. injection Ec as <-. effects; [lia|].
    right. destruct (is_some _); cbn [andb]; [|done]. case_bool_decide as Hr; [|done].
    revert Hr. unfold u64_saturating_add. lia.
  - injection Ec as <-. effects. destruct (tr_message_queue (cx_task ctx)) as [revision [pause|] items]; cbn; [right|by left].
    by rewrite bool_decide_eq_true_2.
Qed.

Lemma pause_for_restart_effect started t t' : effect started t t' ->
  (tr_message_queue t' = tr_message_queue t \/ mq_pause (tr_message_queue t') = Some Restarted) ->
  effect started t (pause_for_restart t').
Proof.
  intros [Ho Hu Hq Hk] Hp. unfold pause_for_restart. cbv zeta. destruct (mq_items (tr_message_queue t')) eqn:E; [done|].
  split_test; [done|]. destruct Hp as [Hp|Hp]; [|done]. split; [|done|cbn; rewrite Hp; by right|done].
  intros Ht. destruct (Ho Ht) as [K1 K2 K3 K4 K5 K6]. split; try done. by rewrite E in K6.
Qed.

Lemma due_head_inv now t q : due_head now t = Some q ->
  mq_pause (tr_message_queue t) = None /\ queued_message_is_due q (now_string now) = true /\
  exists rest, mq_items (tr_message_queue t) = q :: rest.
Proof.
  unfold due_head. destruct (mq_pause _); cbn; [done|]. destruct (mq_items _) as [|x rest]; cbn; [done|].
  destruct (queued_message_is_due x _) eqn:E; [|done]. intros [= ->]. eauto.
Qed.

Lemma accept_effect q turn message now t : is_some (mq_pause (tr_message_queue t)) = false ->
  effect (Some turn) t (accept_fields q turn message now t).
Proof. intros Hp. effects; [by rewrite Hp|]. rewrite length_drop. lia. Qed.

Lemma settle_effect started reason now fresh t t' : tr_background_work t' = None -> effect started t t' ->
  effect started t (settle_fields reason now fresh t').
Proof.
  intros E [Ho Hu Hq Hk]. split; [|by right; left|done|done]. intros Ht. destruct (Ho Ht) as [K1 K2 K3 K4 K5 K6].
  split; try done. cbn. by rewrite E.
Qed.

(** *** The transactions of turns *)

Lemma finish_effect available turn res successor now fresh ctx out outcome ctx' :
  finish_turn_internal available turn res successor now fresh ctx = Ok (out, outcome, ctx') ->
  effect (fst <$> successor) (cx_task ctx) (cx_task ctx').
Proof.
  unfold finish_turn_internal. destruct (active_turn_is turn ctx); cbn [negb]; [|intros [= <- <- <-]; by apply effect_same].
  set (ctx1 := task_mut (set_background_work None) ctx). intros Hr.
  assert (effect (fst <$> successor) (cx_task ctx1) (cx_task ctx') -> effect (fst <$> successor) (cx_task ctx) (cx_task ctx')) as Hstart.
  { intros [Ho Hu Hq Hk]. split; [|done|done|done]. intros [K1 K2 K3 K4 K5 K6]. apply Ho. by split. }
  apply Hstart. clear Hstart. assert (tr_background_work (cx_task ctx1) = None) as Hb by done. clearbody ctx1.
  split_test; [injection Hr as <- <- <-; autorewrite with turns; apply end_work_effect|].
  destruct res as [o|e]; [|injection Hr as <- <- <-; autorewrite with turns; apply end_work_effect].
  set (ctx2 := (finish_running_activity _ _ _ _).2) in Hr.
  assert (cx_task ctx2 = cx_task ctx1) as E2 by (unfold ctx2; by autorewrite with turns). clearbody ctx2.
  assert (forall pause, tr_background_work (pause_queue pause (cx_task ctx1)) = None) as Hpb
    by (intros pause; by rewrite (proj1 (proj2 (proj2 (pause_queue_fields pause (cx_task ctx1)))))).
  pose proof (effect_same (fst <$> successor) (cx_task ctx1) (cx_task ctx1)) as Hid.
  destruct o as [| | | | |reason].
  2-6: injection Hr as <- <- <-; autorewrite with turns; rewrite ?E2; apply settle_effect; [apply Hpb|apply pause_queue_effect].
  destruct successor as [[next_turn next_message]|]; [|injection Hr as <- <- <-; autorewrite with turns; rewrite E2; apply settle_effect; auto; by apply Hid].
  destruct (due_head now (cx_task ctx2)) as [q|] eqn:Ed; [|injection Hr as <- <- <-; autorewrite with turns; rewrite E2; apply settle_effect; auto; by apply Hid].
  apply due_head_inv in Ed as (Hpause & _ & rest & Hitems). destruct (queued_attachments_available _ _ _).
  - injection Hr as <- <- <-. autorewrite with turns. rewrite E2 in Hpause |- *. apply accept_effect. by rewrite Hpause.
  - injection Hr as <- <- <-. autorewrite with turns. rewrite E2. apply settle_effect; [apply Hpb|apply pause_queue_effect].
Qed.

Lemma running_effect turn now ctx out outcome ctx' : mark_turn_running turn now ctx = Ok (out, outcome, ctx') ->
  effect None (cx_task ctx) (cx_task ctx').
Proof.
  unfold mark_turn_running. destruct (active_turn_is turn ctx); cbn [negb]; [|intros [= <- <- <-]; by apply effect_same].
  destruct (tr_status (cx_task ctx)) eqn:Es; intros [= <- <- <-]; try by apply effect_same.
  autorewrite with turns. effects. intros _ _. apply K3; by rewrite Es.
Qed.

Lemma stopping_effect turn now ctx out outcome ctx' : mark_turn_stopping turn now ctx = Ok (out, outcome, ctx') ->
  effect None (cx_task ctx) (cx_task ctx').
Proof.
  unfold mark_turn_stopping, active_turn_is. case_bool_decide as Ea; cbn [negb]; [|intros [= <- <- <-]; by apply effect_same].
  split_test; intros [= <- <- <-]; [by apply effect_same|]. autorewrite with turns. effects. by rewrite Ea.
Qed.

Lemma end_effect expected cause now fresh ctx out outcome ctx' :
  end_active_work expected cause now fresh ctx = Ok (out, outcome, ctx') -> effect None (cx_task ctx) (cx_task ctx').
Proof.
  unfold end_active_work. destruct (active_work_matches expected ctx); intros [= <- <- <-]; [|by apply effect_same].
  autorewrite with turns. apply end_work_effect.
Qed.

Lemma attach_failed_effect session e now fresh ctx out outcome ctx' : tr_active_turn_id (cx_task ctx) = None ->
  fail_adopted_task_attach session e now fresh ctx = Ok (out, outcome, ctx') -> effect None (cx_task ctx) (cx_task ctx').
Proof.
  intros Hidle. unfold fail_adopted_task_attach. split_test; intros [= <- <- <-]; [by apply effect_same|].
  unfold append_interruption. autorewrite with turns. effects; by rewrite Hidle.
Qed.

(** *** Sends *)

Lemma send_effect client selection turn message text attachments now fresh ctx out outcome ctx' :
  accept_primary_message client selection turn message text attachments now fresh ctx = Ok (out, outcome, ctx') ->
  effect (Some turn) (cx_task ctx) (cx_task ctx').
Proof.
  unfold accept_primary_message. cbv zeta. case_match; [intros [= <- <- <-]; by apply effect_same|].
  destruct (take_selection selection text ctx) as [ctx1|e] eqn:Et; cbn; [|done]. intros [= <- <- <-].
  apply (selection_effect (Some turn)) in Et. autorewrite with turns.
  apply (effect_then _ _ _ _) with (2 := history_same message text now (cx_task ctx1)) in Et. unfold start_turn_fields. cbv zeta.
  destruct Et as [Ho Hu Hq Hk]. split; [|by right; right|done|done]. intros Ht. destruct (Ho Ht). by split.
Qed.

Lemma steer_effect client session selection turn message text attachments now ctx out outcome ctx' :
  accept_steering_message client session selection turn message text attachments now ctx = Ok (out, outcome, ctx') ->
  effect None (cx_task ctx) (cx_task ctx').
Proof.
  unfold accept_steering_message. cbv zeta. case_match; [intros [= <- <- <-]; by apply effect_same|].
  destruct (take_selection selection text ctx) as [ctx1|e] eqn:Et; cbn; [|done]. intros [= <- <- <-].
  apply (selection_effect None) in Et. autorewrite with turns.
  apply (effect_then _ _ _ _) with (2 := history_same message text now (cx_task ctx1)) in Et. by eapply effect_then.
Qed.

(** *** The queue *)

Lemma append_effect client item now ctx out outcome ctx' :
  queue_append_message client item now ctx = Ok (out, outcome, ctx') -> effect None (cx_task ctx) (cx_task ctx').
Proof.
  unfold queue_append_message. cbv zeta. destruct (require_client_task_access _ _); cbn; [|done].
  case_match; [done|]. case_match; [done|]. split_test; [done|]. intros [= <- <- <-]. autorewrite with turns.
  assert (effect None (cx_task ctx) (set_queue (requeue (mq_pause (tr_message_queue (cx_task ctx)))
    (mq_items (tr_message_queue (cx_task ctx)) ++ [item]) (tr_message_queue (cx_task ctx))) (cx_task ctx))) as Hq.
  { effects; [|rewrite length_app; cbn; lia]. intros _. by destruct (mq_items (tr_message_queue (cx_task ctx))). }
  destruct (is_some (qm_not_before item)); [by eapply effect_then|].
  eapply effect_then; [eapply effect_then; [exact Hq|apply (history_same (qm_id item) (qm_text item) now)]|done].
Qed.

Lemma remove_effect client revision id now ctx out outcome ctx' :
  queue_remove_message client revision id now ctx = Ok (out, outcome, ctx') -> effect None (cx_task ctx) (cx_task ctx').
Proof.
  unfold queue_remove_message. cbv zeta. destruct (require_client_task_access _ _); cbn; [|done].
  split_test; [done|]. destruct (find_queued _ _) as [q|] eqn:Ef; [|done]. intros [= <- <- <-]. autorewrite with turns.
  apply find_queued_length in Ef as [Hl _]. effects; [by destruct (remove_queued id _)|lia].
Qed.

Lemma move_effect client id target now ctx out outcome ctx' :
  queue_move_message client id target now ctx = Ok (out, outcome, ctx') -> effect None (cx_task ctx) (cx_task ctx').
Proof.
  unfold queue_move_message. cbv zeta. destruct (require_client_task_access _ _); cbn; [|done].
  destruct (find_queued _ _) as [q|] eqn:Ef; [|done]. intros [= <- <- <-]. autorewrite with turns.
  apply find_queued_length in Ef as [Hl _]. effects.
  - intros _ E. by apply app_eq_nil in E as [_ ?].
  - rewrite length_app. cbn. rewrite length_take, length_drop. lia.
Qed.

Lemma delivery_failed_effect pause id ctx out outcome ctx' :
  pause_failed_delivery pause id ctx = Ok (out, outcome, ctx') -> effect None (cx_task ctx) (cx_task ctx').
Proof.
  unfold pause_failed_delivery. cbv zeta. case_match; intros [= <- <- <-]; [by apply effect_same|].
  autorewrite with turns. apply pause_queue_effect.
Qed.

Lemma resume_effect revision ctx out outcome ctx' :
  resume_scheduled_queue revision ctx = Ok (out, outcome, ctx') -> effect None (cx_task ctx) (cx_task ctx').
Proof.
  unfold resume_scheduled_queue. cbv zeta. split_test; [done|]. case_match; [done|].
  destruct (negb (is_some _)); intros [= <- <- <-]; [by apply effect_same|]. autorewrite with turns. effects.
Qed.

(** *** Requests *)

Lemma permission_effect turn request epoch cancelled now ctx out outcome ctx' :
  mark_permission_waiting turn request epoch cancelled now ctx = Ok (out, outcome, ctx') ->
  effect None (cx_task ctx) (cx_task ctx').
Proof.
  unfold mark_permission_waiting. case_match; intros [= <- <- <-]; [by apply effect_same|].
  autorewrite with turns. effects.
Qed.

Lemma permission_resolved_effect subagent activity call resolved epoch pending stopped now ctx out outcome ctx' :
  (pending = [] -> tr_status (cx_task ctx) = StWaiting -> is_some (tr_active_turn_id (cx_task ctx)) = true) ->
  persist_permission_resolution subagent activity call resolved epoch pending stopped now ctx = Ok (out, outcome, ctx') ->
  effect None (cx_task ctx) (cx_task ctx').
Proof.
  intros Hw. unfold persist_permission_resolution.
  destruct (if subagent then (true, ctx) else record_tool_permission_outcome activity call resolved now ctx)
    as [found ctx1] eqn:Er.
  assert (cx_task ctx1 = cx_task ctx) as E1.
  { destruct subagent; simplify_eq; [done|]. pose proof (permission_outcome_task activity call resolved now ctx) as Hp.
    by rewrite Er in Hp. }
  destruct found; cbn [negb]; [|done]. intros [= <- <- <-]. autorewrite with turns. rewrite E1. cbv zeta.
  destruct pending as [|r pending]; [|effects]. destruct stopped; cbn [negb andb]; [effects|]. split_test; effects.
Qed.

Lemma question_effect session request epoch now ctx out outcome ctx' :
  mark_question_waiting session request epoch now ctx = Ok (out, outcome, ctx') -> effect None (cx_task ctx) (cx_task ctx').
Proof. unfold mark_question_waiting. split_test; [done|]. intros [= <- <- <-]. autorewrite with turns. effects. Qed.

Lemma question_resolved_effect row epoch pending stopped now ctx out outcome ctx' :
  resolve_question row epoch pending stopped now ctx = Ok (out, outcome, ctx') -> effect None (cx_task ctx) (cx_task ctx').
Proof.
  unfold resolve_question. intros [= <- <- <-]. autorewrite with turns. cbv zeta.
  destruct pending as [|r pending]; [|effects]. destruct stopped; cbn [negb andb]; [effects|]. split_test; [|effects].
  effects; by destruct (is_some (tr_active_turn_id (cx_task ctx))).
Qed.

Lemma background_effect session held commands now ctx out outcome ctx' :
  update_background_work session held commands now ctx = Ok (out, outcome, ctx') -> effect None (cx_task ctx) (cx_task ctx').
Proof.
  unfold update_background_work. cbv zeta. case_match eqn:Eg; [intros [= <- <- <-]; by apply effect_same|].
  apply orb_false_iff in Eg as [_ Et]. apply negb_false_iff in Et. split_test; intros [= <- <- <-]; [by apply effect_same|].
  autorewrite with turns. effects.
Qed.

(** *** Recovery *)

Lemma end_work_paused cause now fresh t :
  tr_message_queue (end_work_fields cause now fresh t) = tr_message_queue t \/
  mq_pause (tr_message_queue (end_work_fields cause now fresh t))
    = Some (match cause with EndRestarted => Restarted | _ => UnsuccessfulTurn end).
Proof. unfold end_work_fields, pause_queue. cbn. destruct (mq_items (tr_message_queue t)); [by left|by right]. Qed.

Lemma recover_effect now fresh ctx out outcome ctx' :
  recover_task now fresh ctx = Ok (out, outcome, ctx') -> effect None (cx_task ctx) (cx_task ctx').
Proof.
  unfold recover_task. cbv zeta. intros [= <- <- <-].
  match goal with |- context [task_mut pause_for_restart ?c] => set (c1 := c) end.
  assert (effect None (cx_task ctx) (pause_for_restart (cx_task c1))) as Hc1.
  { unfold c1. destruct (interrupt_active_turn _).
    - rewrite active_work_end_task. apply pause_for_restart_effect; [apply end_work_effect|apply end_work_paused].
    - apply pause_for_restart_effect; [by apply effect_same|by left]. }
  rewrite <- task_mut_task in Hc1. set (c2 := task_mut pause_for_restart c1) in *. clearbody c2.
  destruct (mark_live_session_data_stale _), (clear_pending_config_change _); autorewrite with turns; try done; cbv zeta.
  all: eapply effect_then; [exact Hc1|]; unfold mark_native_session_data_stale; by repeat case_match.
Qed.

Lemma tx_effect started O (tx : transaction O) ctx out outcome ctx' :
  turn_tx (cx_task ctx) started O tx -> tx ctx = Ok (out, outcome, ctx') -> effect started (cx_task ctx) (cx_task ctx').
Proof.
  intros Htx Hr. destruct Htx; eauto using running_effect, stopping_effect, finish_effect, end_effect,
    attach_failed_effect, send_effect, steer_effect, append_effect, remove_effect, move_effect, delivery_failed_effect,
    resume_effect, permission_effect, permission_resolved_effect, question_effect, question_resolved_effect,
    background_effect, recover_effect.
Qed.

Lemma step_effect started p p' : turn_step started p p' ->
  (turn_ok (pj_task p) -> turn_ok (pj_task p')) /\
  (tr_active_turn_id (pj_task p') = tr_active_turn_id (pj_task p) \/ tr_active_turn_id (pj_task p') = None \/
   tr_active_turn_id (pj_task p') = started) /\
  (tr_message_queue (pj_task p') = tr_message_queue (pj_task p) \/
   mq_revision (tr_message_queue (pj_task p')) = u64_saturating_add (mq_revision (tr_message_queue (pj_task p))) 1).
Proof.
  intros [O tx options out committed Htx Hr].
  apply transact_inv in Hr as (outcome & ctx & Hd & [[_ ->]|(_ & _ & Hv & _)]); [by auto|].
  destruct (tx_effect _ _ _ (draft p) _ _ _ Htx Hd) as [Ho Hu Hq _]. pose proof (versioned_fields _ _ Hv) as (E1 & E2 & E3 & E4 & E5 & _).
  rewrite E2, E5. split; [eauto using turn_ok_versioned|done].
Qed.

(** ** Transactions are edits of the draft *)

Lemma then_edit ctx0 ctx e : edited ctx0 ctx -> edit_ok e -> edited ctx0 (apply_edit ctx e).
Proof. intros H He. eapply edited_trans; [done|by apply apply_edit_edited]. Qed.

Lemma then_task ctx0 ctx f : edited ctx0 ctx -> tr_task_id (f (cx_task ctx)) = tr_task_id (cx_task ctx) ->
  edited ctx0 (task_mut f ctx).
Proof. intros H Hf. eapply edited_trans; [done|]. split; [done|done|by left]. Qed.

Lemma then_interrupt id reason message recoverable now ctx0 ctx :
  edited ctx0 ctx -> edited ctx0 (append_interruption id reason message recoverable now ctx).
Proof. intros H. by apply (then_edit _ _ (EAppend _ now)). Qed.

Lemma then_append m now ctx0 ctx : edited ctx0 ctx -> edited ctx0 (append_message m now ctx).
Proof. intros H. by apply (then_edit _ _ (EAppend m now)). Qed.

Lemma then_append_chat m now ctx0 ctx : edited ctx0 ctx -> edited ctx0 (append_chat_message m now ctx).
Proof. intros H. by apply (then_edit _ _ (EAppendChat m now)). Qed.

Lemma pause_queue_id pause t : tr_task_id (pause_queue pause t) = tr_task_id t.
Proof. unfold pause_queue. by destruct (mq_items _). Qed.

Lemma end_work_id cause now fresh t : tr_task_id (end_work_fields cause now fresh t) = tr_task_id t.
Proof. unfold end_work_fields. cbn. apply pause_queue_id. Qed.

Lemma then_end cause now fresh ctx0 ctx : edited ctx0 ctx -> edited ctx0 (apply_active_work_end cause now fresh ctx).
Proof.
  intros H. unfold apply_active_work_end. apply then_task; [|apply end_work_id].
  apply (then_edit _ _ (ECloseLast _ now)); [|done]. apply then_interrupt. by apply (then_edit _ _ (EFinishAll _ now)).
Qed.

Lemma then_outcome outcome now fresh ctx0 ctx :
  edited ctx0 ctx -> edited ctx0 (append_prompt_outcome_activity outcome now fresh ctx).
Proof. intros H. destruct outcome; try done; by apply then_append. Qed.

Lemma then_accept q turn message now fresh ctx0 ctx :
  edited ctx0 ctx -> edited ctx0 (accept_queued_turn q turn message now fresh ctx).
Proof. intros H. by repeat (apply then_append_chat || (apply then_task; [|done])). Qed.

Create HintDb edits.
Hint Resolve edited_refl then_interrupt then_append then_append_chat then_end then_outcome then_accept : edits.

Lemma finish_edited available turn res successor now fresh ctx out outcome ctx' :
  finish_turn_internal available turn res successor now fresh ctx = Ok (out, outcome, ctx') -> edited ctx ctx'.
Proof.
  unfold finish_turn_internal. destruct (active_turn_is turn ctx); cbn [negb]; [|intros [= <- <- <-]; auto with edits].
  assert (edited ctx (task_mut (set_background_work None) ctx)) as H by (by apply then_task; [auto with edits|]).
  revert H. generalize (task_mut (set_background_work None) ctx). intros ctx1 H.
  split_test; [intros [= <- <- <-]; auto with edits|]. destruct res as [o|e]; [|intros [= <- <- <-]; auto with edits].
  set (ctx2 := (finish_running_activity _ _ _ _).2).
  assert (edited ctx ctx2) as H2.
  { apply (then_edit _ _ (EFinish _ Completed now)); [|done]. by apply (then_edit _ _ (ECloseAnswer _ now)). }
  clearbody ctx2.
  destruct o as [| | | | |reason]; [destruct successor as [[nt nm]|]; [destruct (due_head _ _); [destruct (queued_attachments_available _ _ _)|]|]|..];
    intros [= <- <- <-]; auto with edits.
  all: apply then_task; [|done]; try (apply then_task; [|apply pause_queue_id]); auto with edits.
Qed.

Lemma selection_edited selection text ctx ctx' : take_selection selection text ctx = Ok ctx' -> edited ctx ctx'.
Proof.
  intros H. pose proof (ef_kept _ _ _ (selection_effect None _ _ _ _ H)) as [Hid _]. unfold take_selection in H. cbv zeta in H.
  destruct (consume_selected_queue_message _ _ _) as [t|e]; cbn in H; [|done]. injection H as <-.
  apply then_task; [auto with edits|done].
Qed.

Lemma recover_edited now fresh ctx out outcome ctx' : recover_task now fresh ctx = Ok (out, outcome, ctx') -> edited ctx ctx'.
Proof.
  unfold recover_task. cbv zeta. intros [= <- <- <-].
  match goal with |- context [task_mut pause_for_restart ?c] => set (c1 := c) end.
  assert (edited ctx (task_mut pause_for_restart c1)) as H.
  { apply then_task; [unfold c1; destruct (interrupt_active_turn _); auto with edits|].
    unfold pause_for_restart. cbv zeta. destruct (mq_items _); [done|]. by split_test. }
  revert H. generalize (task_mut pause_for_restart c1). intros c2 H.
  assert (forall t, tr_task_id (mark_native_session_data_stale t).2 = tr_task_id t) as Hs
    by (intros t; unfold mark_native_session_data_stale; by repeat case_match).
  destruct (clear_pending_config_change _), (mark_live_session_data_stale _); repeat (apply then_task; [|cbn; auto]); auto.
Qed.

Lemma send_edited client selection turn message text attachments now fresh ctx out outcome ctx' :
  accept_primary_message client selection turn message text attachments now fresh ctx = Ok (out, outcome, ctx') ->
  edited ctx ctx'.
Proof.
  unfold accept_primary_message. cbv zeta. case_match; [intros [= <- <- <-]; auto with edits|].
  destruct (take_selection selection text ctx) as [ctx1|e] eqn:Et; cbn; [|done]. intros [= <- <- <-].
  apply selection_edited in Et. apply then_task; [auto with edits|]. unfold start_turn_fields. cbn.
  unfold record_composer_history. by split_test.
Qed.

Lemma steer_edited client session selection turn message text attachments now ctx out outcome ctx' :
  accept_steering_message client session selection turn message text attachments now ctx = Ok (out, outcome, ctx') ->
  edited ctx ctx'.
Proof.
  unfold accept_steering_message. cbv zeta. case_match; [intros [= <- <- <-]; auto with edits|].
  destruct (take_selection selection text ctx) as [ctx1|e] eqn:Et; cbn; [|done]. intros [= <- <- <-].
  apply selection_edited in Et. apply then_task; [auto with edits|]. cbn. unfold record_composer_history. by split_test.
Qed.

(** Transactions that edit the record, after at most one row. *)
Ltac record_edits := repeat case_match; simplify_eq/=; try done; auto with edits;
  try (apply then_task; [auto with edits|cbn; unfold record_composer_history; repeat case_match; auto using pause_queue_id]).

Lemma marks_edited turn now ctx ctx' out outcome :
  mark_turn_running turn now ctx = Ok (out, outcome, ctx') \/ mark_turn_stopping turn now ctx = Ok (out, outcome, ctx') ->
  edited ctx ctx'.
Proof. unfold mark_turn_running, mark_turn_stopping. intros [H|H]; record_edits. Qed.

Lemma permission_resolved_edited subagent activity call resolved epoch pending stopped now ctx out outcome ctx' :
  persist_permission_resolution subagent activity call resolved epoch pending stopped now ctx = Ok (out, outcome, ctx') ->
  edited ctx ctx'.
Proof.
  unfold persist_permission_resolution.
  destruct (if subagent then (true, ctx) else record_tool_permission_outcome activity call resolved now ctx)
    as [found ctx1] eqn:Er.
  assert (edited ctx ctx1) as H.
  { destruct subagent; simplify_eq; [auto with edits|].
    pose proof (apply_edit_edited ctx (EPermission activity call resolved now) I) as He. cbn in He. by rewrite Er in He. }
  destruct found; cbn [negb]; [|done]. intros [= <- <- <-]. apply then_task; [done|]. cbn. by repeat case_match.
Qed.

Lemma tx_edited started O (tx : transaction O) ctx out outcome ctx' :
  turn_tx (cx_task ctx) started O tx -> tx ctx = Ok (out, outcome, ctx') -> edited ctx ctx'.
Proof.
  intros Htx Hr. destruct Htx; eauto using finish_edited, send_edited, steer_edited, recover_edited, marks_edited,
    permission_resolved_edited.
  - unfold end_active_work in Hr. record_edits.
  - unfold fail_adopted_task_attach in Hr. record_edits.
  - unfold queue_append_message in Hr. cbv zeta in Hr. destruct (require_client_task_access _ _); cbn in Hr; record_edits.
  - unfold queue_remove_message in Hr. cbv zeta in Hr. destruct (require_client_task_access _ _); cbn in Hr; record_edits.
  - unfold queue_move_message in Hr. cbv zeta in Hr. destruct (require_client_task_access _ _); cbn in Hr; record_edits.
  - unfold pause_failed_delivery in Hr. cbv zeta in Hr. record_edits.
  - unfold resume_scheduled_queue in Hr. cbv zeta in Hr. record_edits.
  - unfold mark_permission_waiting in Hr. record_edits.
  - unfold mark_question_waiting in Hr. record_edits.
  - unfold resolve_question in Hr. record_edits.
  - unfold update_background_work in Hr. cbv zeta in Hr. record_edits.
Qed.

(** A transaction of turns commits, and its commit is durable. *)
Lemma tx_commits started O (tx : transaction O) options p out ctx :
  turn_tx (pj_task p) started O tx -> tx (draft p) = Ok (out, Changed, ctx) ->
  projection_wf (tr_task_id (pj_task p)) p -> is_archived (tr_lifecycle (pj_task p)) = false ->
  tr_revision (pj_task p) < u64_max -> refresh_message_history options = true -> unique_messages (cx_messages ctx) ->
  exists c, commit_existing_task Preserve (tr_task_id (pj_task p)) options
              (fun ctx => let? r := tx ctx in Ok (r.1.2, r.2)) p = Ok (Some c)
    /\ transact options tx p = Ok (out, true, ct_projection c)
    /\ rebuilds (tr_task_id (pj_task p)) p (ct_projection c) (w_operations (ct_write c))
    /\ w_task_id (ct_write c) = tr_task_id (pj_task p).
Proof.
  intros Htx Hr Hwf Ha Hrev Hopt Hu.
  pose proof (ef_kept _ _ _ (tx_effect _ _ _ (draft p) _ _ _ Htx Hr)) as [Hid Hfrom].
  pose proof (tx_edited _ _ _ (draft p) _ _ _ Htx Hr) as He.
  destruct (edited_durable _ _ _ options He Hwf Hu Hrev (or_introl Hopt)) as (c & Hc & Hb & Hw & _).
  assert (commit_existing_task Preserve (tr_task_id (pj_task p)) options
            (fun ctx => let? r := tx ctx in Ok (r.1.2, r.2)) p = Ok (Some c)) as Hcommit.
  { unfold commit_existing_task. cbn [validate_replacement_boundary result_bind]. rewrite Hr. cbn [result_bind fst snd].
    rewrite Ha. cbn [andb]. unfold validate_task_invariants. injection Hfrom as E1 E2 E3 E4. cbn in Hid, E1, E2, E3, E4 |- *.
    rewrite Hid, E1, E2, E3, E4. rewrite !bool_decide_eq_false_2 by (intros Hn; by apply Hn). rewrite andb_false_r. cbn.
    by rewrite Hc. }
  exists c. split; [done|]. split; [|done]. unfold transact. rewrite Hcommit. cbn [result_bind]. by rewrite Hr.
Qed.

(** ** Rows of Chat *)

Lemma close_on_answer_rows ended now ctx :
  core <$> cx_messages (close_turn_on_final_answer ended now ctx) = core <$> cx_messages ctx.
Proof.
  unfold close_turn_on_final_answer, publish_closed_turn. destruct (active_turn_span _ _) as [span|]; [|done].
  destruct (update_newest _ _ _) as [[m rows]|] eqn:E; [|done].
  apply update_newest_split in E as (l1 & x & l2 & Hms & Hm & ->). apply (f_equal reverse) in Hms.
  rewrite reverse_involutive in Hms. unfold cx_messages in *. cbn. rewrite Hms, !reverse_app, !reverse_cons, <- !app_assoc.
  rewrite !fmap_app, !fmap_cons. by destruct (is_answer_row x); simplify_eq.
Qed.

Lemma finish_activity_rows i status now ctx :
  core <$> cx_messages (finish_running_activity i status now ctx).2 = core <$> cx_messages ctx.
Proof.
  unfold finish_running_activity. destruct (find_message i (cx_messages ctx)) as [s|] eqn:Hs; [|done]. cbn.
  destruct (finish_row status now s) as [m|] eqn:Hm; [|done]. cbn.
  apply update_message_split in Hs as (l1 & l2 & Hms & _ & Hu). unfold cx_messages at 1. cbn. rewrite Hu, Hms.
  rewrite !fmap_app, !fmap_cons. by rewrite (finish_row_core _ _ _ _ Hm).
Qed.

(** A row whose activity runs. *)
Definition running_row (m : StoredMessage) : bool :=
  match cm_message (st_chat m) with MActivity _ _ Running _ _ _ => true | _ => false end.

Lemma finish_all_settles status now ctx m : status <> Running ->
  m ∈ cx_messages (finish_running_activities status now ctx).2 -> running_row m = false.
Proof.
  intros Hst Hin.
  assert (exists x, x ∈ cx_messages ctx /\ m = default x (finish_row status now x)) as (x & _ & ->).
  { unfold finish_running_activities in Hin. destruct (omap _ _) as [|c cs] eqn:Ho.
    - cbn in Hin. exists m. split; [done|]. destruct (finish_row status now m) as [y|] eqn:Hy; [|done].
      exfalso. assert (y ∈ omap (finish_row status now) (reverse (cx_messages ctx))) as Hc
        by (apply list_elem_of_omap; exists m; by rewrite elem_of_reverse).
      rewrite Ho in Hc. by apply not_elem_of_nil in Hc.
    - unfold cx_messages in Hin at 1. cbn in Hin. apply list_elem_of_fmap in Hin as (x & -> & Hx). by exists x. }
  unfold finish_row, finish_running, running_row. destruct (cm_message (st_chat x)) as [| |? ? [] | | | | |] eqn:Hx; cbn; rewrite ?Hx; try done.
  by destruct status.
Qed.

(** The end of active work leaves the interruption last and no running row. *)
Lemma end_work_rows cause now fresh ctx :
  exists rows row, cx_messages (apply_active_work_end cause now fresh ctx) = rows ++ [row] /\
    cm_message (st_chat row) = MInterruption (fr_row fresh) (end_reason cause) (end_message cause) (now_string now) true /\
    forall m, m ∈ rows ++ [row] -> running_row m = false.
Proof.
  unfold apply_active_work_end. set (ctx1 := (finish_running_activities _ _ _).2).
  assert (forall m, m ∈ cx_messages ctx1 -> running_row m = false) as Hr by (intros m; by apply finish_all_settles).
  clearbody ctx1. set (ctx2 := append_interruption _ _ _ _ _ _).
  assert (exists row, cx_messages ctx2 = cx_messages ctx1 ++ [row] /\
    cm_message (st_chat row) = MInterruption (fr_row fresh) (end_reason cause) (end_message cause) (now_string now) true)
    as (row & H2 & Hrow) by (by eexists). clearbody ctx2.
  assert (forall row', cm_message (st_chat row') = cm_message (st_chat row) ->
    forall m, m ∈ cx_messages ctx1 ++ [row'] -> running_row m = false) as Hall.
  { intros row' E m [Hm|Hm]%elem_of_app; [auto|]. apply list_elem_of_singleton in Hm as ->. unfold running_row. by rewrite E, Hrow. }
  change (cx_messages (task_mut ?f ?c)) with (cx_messages c). unfold close_turn_on_last_row.
  destruct (active_turn_span _ _) as [span|]; [|exists (cx_messages ctx1), row; eauto].
  rewrite H2, reverse_snoc. cbn [update_newest publish_closed_turn].
  change (cx_messages (record_chat ?r _ _ _ _)) with r. rewrite reverse_cons, reverse_involutive.
  exists (cx_messages ctx1), (close_turn span row). split; [done|]. split; [done|]. by apply Hall.
Qed.

(** ** Properties *)


(** The transactions that settle a turn. *)
Inductive settles (turn : string) : forall O, transaction O -> Prop :=
| settles_finish available res successor now fresh :
    fst <$> successor <> Some turn -> settles turn _ (finish_turn_internal available turn res successor now fresh)
| settles_end cause now fresh : settles turn _ (end_active_work (Some turn) cause now fresh).

Lemma settled_leaves turn O (tx : transaction O) options p out p' :
  settles turn O tx -> transact options tx p = Ok (out, true, p') -> tr_active_turn_id (pj_task p') <> Some turn.
Proof.
  intros Hs Hr. apply transact_inv in Hr as (outcome & ctx & Hd & [[? _]|(_ & -> & Hv & _)]); [done|].
  destruct (versioned_fields _ _ Hv) as (_ & -> & _). destruct Hs as [available res successor now fresh Hne|cause now fresh].
  - unfold finish_turn_internal in Hd. destruct (active_turn_is turn (draft p)); [cbn [negb] in Hd|done].
    split_test; [injection Hd as <- <-; by autorewrite with turns|].
    destruct res as [o|e]; [|injection Hd as <- <-; by autorewrite with turns].
    destruct o as [| | | | |reason]; [|by injection Hd as <- <-; autorewrite with turns..].
    destruct successor as [[nt nm]|]; [|by injection Hd as <- <-; autorewrite with turns].
    destruct (due_head _ _); [|by injection Hd as <- <-; autorewrite with turns].
    destruct (queued_attachments_available _ _ _); injection Hd as <- <-; by autorewrite with turns.
  - unfold end_active_work in Hd. destruct (active_work_matches _ _); [|done]. injection Hd as <- <-. by autorewrite with turns.
Qed.

Lemma run_turn turn turns p p' : turn_run turns p p' -> (turn ∉ turns) -> tr_active_turn_id (pj_task p) <> Some turn ->
  tr_active_turn_id (pj_task p') <> Some turn.
Proof.
  induction 1 as [|started p p1 p' turns Hs _ IH]; [done|]. intros Hn Hp. apply not_elem_of_app in Hn as [Hn1 Hn2].
  apply IH; [done|]. apply step_effect in Hs as (_ & [->|[->| ->]] & _); [done|done|]. destruct started; [|done].
  intros [= ->]. apply Hn1. by left.
Qed.

Lemma transact_unchanged {O} options (tx : transaction O) p out :
  tx (draft p) = Ok (out, Unchanged, draft p) -> transact options tx p = Ok (out, false, p).
Proof. intros H. unfold transact, commit_existing_task. cbn [validate_replacement_boundary result_bind]. rewrite H. cbn. by rewrite Tauto.if_same. Qed.

(** C7. A turn settles once: after a commit that settled it, and whatever
    transactions run that do not start the same turn again, its late result,
    its failure, its Stop and its start are ignored and change nothing. *)
Theorem turn_settles_once turn O (tx : transaction O) options p out p1 turns p' :
  settles turn O tx -> transact options tx p = Ok (out, true, p1) -> turn_run turns p1 p' -> (turn ∉ turns) ->
  forall options available res successor cause now fresh,
    transact options (finish_turn_internal available turn res successor now fresh) p' = Ok (None, false, p') /\
    transact options (end_active_work (Some turn) cause now fresh) p' = Ok (tt, false, p') /\
    transact options (mark_turn_stopping turn now) p' = Ok (false, false, p') /\
    transact options (mark_turn_running turn now) p' = Ok (false, false, p').
Proof.
  intros Hs Hr Hrun Hn options' available res successor cause now fresh.
  pose proof (run_turn _ _ _ _ Hrun Hn (settled_leaves _ _ _ _ _ _ _ Hs Hr)) as Ht.
  assert (active_turn_is turn (draft p') = false) as Ha by by apply bool_decide_eq_false_2.
  split_and!; apply transact_unchanged.
  - unfold finish_turn_internal. by rewrite Ha.
  - unfold end_active_work. cbn [active_work_matches]. by rewrite Ha.
  - unfold mark_turn_stopping. by rewrite Ha.
  - unfold mark_turn_running. by rewrite Ha.
Qed.

Lemma run_queue turns p p' : turn_run turns p p' -> mq_revision (tr_message_queue (pj_task p)) <= u64_max ->
  mq_revision (tr_message_queue (pj_task p)) <= mq_revision (tr_message_queue (pj_task p')) <= u64_max /\
  (mq_revision (tr_message_queue (pj_task p')) = mq_revision (tr_message_queue (pj_task p)) ->
   mq_revision (tr_message_queue (pj_task p)) < u64_max ->
   tr_message_queue (pj_task p') = tr_message_queue (pj_task p)).
Proof.
  induction 1 as [|started p p1 p' turns Hs _ IH]; intros Hb; [done|].
  apply step_effect in Hs as (_ & _ & [Hq|Hq]).
  - rewrite Hq in IH. auto.
  - rewrite Hq in IH. unfold u64_saturating_add in IH. destruct IH as [IH1 IH2]; [lia|]. split; [lia|]. intros He Hlt. lia.
Qed.

(** A queue revision is a compare-and-set token: along any run of
    transactions the revision never decreases, and short of its saturation an
    unchanged revision means an unchanged queue.  So a removal, and a send of a
    queued message, that name the revision a client saw take effect only on
    exactly the queue that client saw; otherwise they change nothing. *)
Theorem queue_revision_guards turns p p' client id options now :
  let q := tr_message_queue (pj_task p) in let q' := tr_message_queue (pj_task p') in
  turn_run turns p p' -> mq_revision q < u64_max ->
  mq_revision q <= mq_revision q' /\ (mq_revision q' = mq_revision q -> q' = q) /\
  (forall out committed p2,
    transact options (queue_remove_message client (mq_revision q) id now) p' = Ok (out, committed, p2) ->
    q' = q /\ exists item, find_queued id (mq_items q) = Some item /\
      (committed = true -> mq_items (tr_message_queue (pj_task p2)) = remove_queued id (mq_items q))) /\
  (forall text t, consume_selected_queue_message (Some (mkSelection id (mq_revision q))) text (pj_task p') = Ok t ->
    q' = q /\ mq_items (tr_message_queue t) = remove_queued id (mq_items q) /\
    exists item, find_queued id (mq_items q) = Some item /\ qm_text item = text).
Proof.
  intros q q' Hrun Hlt. destruct (run_queue _ _ _ Hrun) as [Hm He]; [unfold q in Hlt; lia|]. fold q q' in Hm, He.
  split; [lia|]. split; [auto|]. split.
  - intros out committed p2 Hr. apply transact_inv in Hr as (outcome & ctx & Hd & Hc).
    unfold queue_remove_message in Hd. cbv zeta in Hd. change (cx_task (draft p')) with (pj_task p') in Hd. fold q' in Hd.
    destruct (require_client_task_access _ _); cbn [result_bind] in Hd; [|done].
    destruct (bool_decide (mq_revision q' <> mq_revision q)) eqn:Er; [done|]. apply bool_decide_eq_false in Er.
    assert (q' = q) as Eq by (apply He; [by apply dec_stable|done]). rewrite Eq in Hd. split; [done|].
    destruct (find_queued id (mq_items q)) as [item|]; [|done]. exists item. split; [done|]. intros ->.
    injection Hd as <- <- <-. destruct Hc as [[? _]|(_ & _ & Hv & _)]; [done|].
    destruct (versioned_fields _ _ Hv) as (_ & _ & _ & _ & -> & _). by autorewrite with turns.
  - intros text t Hr. unfold consume_selected_queue_message in Hr. cbv zeta in Hr. fold q' in Hr. cbn [qs_queue_revision qs_queued_message_id] in Hr.
    destruct (bool_decide (mq_revision q' <> mq_revision q)) eqn:Er; [done|]. apply bool_decide_eq_false in Er.
    assert (q' = q) as Eq by (apply He; [by apply dec_stable|done]). rewrite Eq in Hr. split; [done|].
    destruct (find_queued id (mq_items q)) as [item|]; cbn in Hr; [|done]. split_test; [done|].
    injection Hr as <-. split; [done|]. exists item. split; [done|]. by apply dec_stable.
Qed.

(** C13. A finished turn hands over to the head of the queue: when the Agent ends
    the active turn and the head is due, unpaused and its attachments are there,
    the commit succeeds, takes exactly that message off the queue, starts the
    next turn, and Chat ends with the message as a user row and the running
    marker of the new turn, the earlier rows staying where they are. *)
Theorem queue_head_is_delivered available turn next_turn next_message options now fresh p q :
  let t := pj_task p in
  let handover := finish_turn_and_accept_queue available turn (Ok EndTurn) next_turn next_message now fresh in
  projection_wf (tr_task_id t) p -> is_archived (tr_lifecycle t) = false -> tr_revision t < u64_max ->
  refresh_message_history options = true -> tr_active_turn_id t = Some turn -> tr_status t <> StStopping ->
  due_head now t = Some q -> queued_attachments_available available t q = true ->
  (forall out outcome ctx, handover (draft p) = Ok (out, outcome, ctx) -> unique_messages (cx_messages ctx)) ->
  exists p' rows user marker,
    transact options handover p = Ok (Some q, true, p') /\
    mq_items (tr_message_queue t) = q :: mq_items (tr_message_queue (pj_task p')) /\
    tr_active_turn_id (pj_task p') = Some next_turn /\ tr_status (pj_task p') = StStarting /\
    pj_messages p' = rows ++ [user; marker] /\ core <$> rows = core <$> pj_messages p /\
    cm_message (st_chat user) = MUser ("user:" +:+ next_message) (qm_text q) (now_string now) (qm_chat_attachments q) /\
    cm_message (st_chat marker) = running_turn_message ("turn:" +:+ next_turn) (now_string now).
Proof.
  intros t handover Hwf Ha Hrev Hopt Hturn Hst Hdue Hav Hu.
  set (ctx1 := (finish_running_activity ("turn:" +:+ turn) Completed now
    (close_turn_on_final_answer (now_string now) now (task_mut (set_background_work None) (draft p)))).2).
  assert (cx_task ctx1 = set_background_work None t) as Et by (unfold ctx1; by autorewrite with turns).
  assert (core <$> cx_messages ctx1 = core <$> pj_messages p) as Em
    by (unfold ctx1; by rewrite finish_activity_rows, close_on_answer_rows).
  assert (handover (draft p) = Ok (Some q, Changed, accept_queued_turn q next_turn next_message now fresh ctx1)) as Hd.
  { unfold handover, finish_turn_and_accept_queue, finish_turn_internal, active_turn_is.
    change (tr_active_turn_id (cx_task (draft p))) with (tr_active_turn_id t).
    rewrite Hturn, bool_decide_eq_true_2 by done. cbn [negb].
    rewrite bool_decide_eq_false_2 by done. cbv zeta. fold ctx1. rewrite Et.
    change (due_head now (set_background_work None t)) with (due_head now t). rewrite Hdue.
    change (queued_attachments_available available (set_background_work None t) q) with (queued_attachments_available available t q).
    by rewrite Hav. }
  destruct (tx_commits _ _ _ options p _ _ (tx_finish _ available turn (Ok EndTurn) (Some (next_turn, next_message)) now fresh)
    Hd Hwf Ha Hrev Hopt (Hu _ _ _ Hd)) as (c & _ & Hr & _).
  pose proof Hr as Hi. apply transact_inv in Hi as (outcome & ctx & Hd' & [[? _]|(_ & _ & Hv & Hms)]); [done|].
  assert (ctx = accept_queued_turn q next_turn next_message now fresh ctx1) as ->
    by (unfold handover, finish_turn_and_accept_queue in Hd; congruence).
  eexists (ct_projection c), (cx_messages ctx1), _, _. split; [done|].
  destruct (versioned_fields _ _ Hv) as (-> & -> & _ & _ & -> & _). rewrite Hms, accept_queued_task, Et.
  apply due_head_inv in Hdue as (_ & _ & rest & Hitems). cbn. fold t in Hitems. rewrite Hitems.
  split; [done|]. split; [done|]. split; [done|]. split; [by rewrite <- app_assoc|]. done.
Qed.

(** C32. The end of active work, by a Stop, a failure, a lost Agent or a
    shutdown, leaves nothing running: the commit succeeds, the Task has no turn
    and no background work, no activity row runs any more, the last row of Chat
    is the interruption with its reason, and every queued message is still there
    with the queue paused. *)
Theorem active_work_end_is_clean expected cause options now fresh p :
  let t := pj_task p in
  let ending := end_active_work expected cause now fresh in
  projection_wf (tr_task_id t) p -> is_archived (tr_lifecycle t) = false -> tr_revision t < u64_max ->
  refresh_message_history options = true -> active_work_matches expected (draft p) = true ->
  (forall out outcome ctx, ending (draft p) = Ok (out, outcome, ctx) -> unique_messages (cx_messages ctx)) ->
  exists p' rows row, transact options ending p = Ok (tt, true, p') /\
    tr_active_turn_id (pj_task p') = None /\ tr_status (pj_task p') = StInactive /\ tr_background_work (pj_task p') = None /\
    pj_messages p' = rows ++ [row] /\
    cm_message (st_chat row) = MInterruption (fr_row fresh) (end_reason cause) (end_message cause) (now_string now) true /\
    (forall m, m ∈ pj_messages p' -> running_row m = false) /\
    mq_items (tr_message_queue (pj_task p')) = mq_items (tr_message_queue t) /\
    (mq_items (tr_message_queue t) <> [] -> mq_pause (tr_message_queue (pj_task p'))
       = Some (match cause with EndRestarted => Restarted | _ => UnsuccessfulTurn end)).
Proof.
  intros t ending Hwf Ha Hrev Hopt Hm Hu.
  assert (ending (draft p) = Ok (tt, Changed, apply_active_work_end cause now fresh (draft p))) as Hd
    by (unfold ending, end_active_work; by rewrite Hm).
  destruct (tx_commits _ _ _ options p _ _ (tx_end _ expected cause now fresh) Hd Hwf Ha Hrev Hopt (Hu _ _ _ Hd)) as (c & _ & Hr & _).
  pose proof Hr as Hi. apply transact_inv in Hi as (outcome & ctx & Hd' & [[? _]|(_ & _ & Hv & Hms)]); [done|].
  assert (ctx = apply_active_work_end cause now fresh (draft p)) as -> by (unfold ending in Hd; congruence).
  destruct (end_work_rows cause now fresh (draft p)) as (rows & row & Hrows & Hrow & Hrun).
  exists (ct_projection c), rows, row. split; [done|]. rewrite Hms, Hrows.
  destruct (versioned_fields _ _ Hv) as (-> & -> & _ & -> & -> & _). rewrite active_work_end_task.
  split; [done|]. split; [done|]. split; [done|]. split; [done|]. split; [done|]. split; [done|].
  unfold end_work_fields, pause_queue. cbn. change (cx_task (draft p)) with t. destruct (mq_items (tr_message_queue t)) eqn:Et; cbn; by rewrite ?Et.
Qed.

(** The queue and the session data after the parts of a recovery. *)
Lemma restart_stage now fresh ctx :
  let t := cx_task ctx in
  let t1 := pause_for_restart (cx_task (if is_some (tr_active_turn_id t) then apply_active_work_end EndRestarted now fresh ctx else ctx)) in
  tr_active_turn_id t1 = None /\ tr_config_options_catalog t1 = tr_config_options_catalog t /\
  tr_agent_commands_catalog t1 = tr_agent_commands_catalog t /\
  tr_native_session_data_freshness t1 = tr_native_session_data_freshness t /\ tr_config_mutation t1 = tr_config_mutation t /\
  mq_items (tr_message_queue t1) = mq_items (tr_message_queue t) /\
  (mq_items (tr_message_queue t) <> [] -> mq_pause (tr_message_queue t1) = Some Restarted).
Proof.
  intros t t1. unfold t1. destruct (tr_active_turn_id t) as [turn|] eqn:Ht; cbn [is_some].
  - rewrite active_work_end_task. fold t. unfold end_work_fields, pause_queue, pause_for_restart.
    destruct (mq_items (tr_message_queue t)) eqn:Ei; cbn; rewrite ?Ei; done.
  - fold t. unfold pause_for_restart. cbv zeta. destruct (mq_items (tr_message_queue t)) eqn:Ei; [by rewrite Ei|].
    split_test; [by rewrite Ei|]. by cbn.
Qed.

Lemma plan_of t : default (mkPlanR false false false) (volatile_recovery_plan t) =
  mkPlanR (is_some (tr_active_turn_id t))
    ((is_some (tr_config_options_catalog t) || is_some (tr_agent_commands_catalog t))
     && negb (is_stale (tr_native_session_data_freshness t))) (is_some (cf_pending (tr_config_mutation t))).
Proof.
  unfold volatile_recovery_plan. cbv zeta. destruct (has_work _) eqn:Ew; [done|]. unfold has_work in Ew. cbn in Ew |- *.
  apply orb_false_iff in Ew as [Ew ->]. by apply orb_false_iff in Ew as [-> ->].
Qed.

Lemma no_plan t : tr_active_turn_id t = None ->
  (is_some (tr_config_options_catalog t) || is_some (tr_agent_commands_catalog t))
    && negb (is_stale (tr_native_session_data_freshness t)) = false -> cf_pending (tr_config_mutation t) = None ->
  volatile_recovery_plan t = None.
Proof. intros H1 H2 H3. unfold volatile_recovery_plan. by rewrite H1, H2, H3. Qed.

Lemma recovered now fresh ctx out outcome ctx' : recover_task now fresh ctx = Ok (out, outcome, ctx') ->
  out = is_some (tr_active_turn_id (cx_task ctx)) /\ outcome = Changed /\ volatile_recovery_plan (cx_task ctx') = None /\
  mq_items (tr_message_queue (cx_task ctx')) = mq_items (tr_message_queue (cx_task ctx)) /\
  (mq_items (tr_message_queue (cx_task ctx)) <> [] -> mq_pause (tr_message_queue (cx_task ctx')) = Some Restarted).
Proof.
  unfold recover_task. cbv zeta. rewrite plan_of. cbn [interrupt_active_turn mark_live_session_data_stale clear_pending_config_change].
  pose proof (restart_stage now fresh ctx) as (E1 & E2 & E3 & E4 & E5 & E6 & E7). cbv zeta in *.
  set (c1 := if is_some (tr_active_turn_id _) then _ else _) in *. rewrite <- (task_mut_task pause_for_restart c1) in *.
  revert E1 E2 E3 E4 E5 E6 E7. generalize (task_mut pause_for_restart c1). clear c1. intros c2 E1 E2 E3 E4 E5 E6 E7.
  assert (is_stale (mark_stale (tr_native_session_data_freshness (cx_task c2))).2 = true) as Hs
    by (unfold mark_stale; destruct (is_stale (tr_native_session_data_freshness (cx_task c2))) eqn:Ef; cbn; by rewrite ?Ef).
  rewrite <- E2, <- E3, <- E4, <- E5. intros [= <- <- <-]. split; [done|]. split; [done|].
  destruct (_ && _) eqn:Estale, (cf_pending (tr_config_mutation (cx_task c2))) eqn:Epend; cbn [is_some];
    rewrite ?task_mut_task; unfold mark_native_session_data_stale;
    destruct (mark_stale (tr_native_session_data_freshness (cx_task c2))) as [b f]; cbn [snd] in Hs;
    (split; [apply no_plan|]; cbn; auto; by rewrite Hs, andb_false_r).
Qed.


End TurnRules.

(** ** Witnesses *)

Module TurnWitness.
Import JournalWitness.

Definition fresh : FreshIds := mkFreshIds "event" "row" "marker".
Definition queued (id text : string) : QueuedMessageRecord := mkQueued id None text "1" [] [].
Definition working : TaskRecord :=
  set_queue (mkQueue 3 None [queued "a" "first"; queued "b" "second"])
    (set_turn StActive (Some "turn-1"%string) (Some "1"%string) (RecordWitness.sample "t")).
(** A Task bound to an Agent session. *)
Definition session_task (status : TaskStatus) (turn : option string) : TaskRecord :=
  mkTask "t" title_default status 1 0 false false None "1" "1" "1" AskEveryTime [] (mkQueue 0 None [])
    "agent" "Agent" Local_ "/work" None None Open (Some "s"%string) turn turn None false 1 None (mkFreshness Fresh Fresh) None None
    (mkConfigMutation 0 None None []) None None None None None None false PrepReady.
Definition busy : TaskProjection := mkProjection working [message 1 "m" "a"] (meta 0) ∅.
Definition handover (turn next_turn next_message : string) (now : Z) :=
  finish_turn_and_accept_queue (fun _ => true) turn (Ok EndTurn) next_turn next_message now fresh.

(** Where a transaction leads. *)
Definition after {O} (tx : transaction O) (p : TaskProjection) : TaskProjection :=
  match transact chat_commit_options tx p with Ok (_, _, p') => p' | Err _ => p end.

Lemma busy_ok : turn_ok working.
Proof. split; try done. cbn. unfold MAX_QUEUE_ITEMS. lia. Qed.
Lemma unique_check ms :
  bool_decide (NoDup (st_sequence <$> ms)) && bool_decide (NoDup (cm_identity ∘ st_chat <$> ms))
    && bool_decide (NoDup (cm_message_id ∘ st_chat <$> ms)) = true -> unique_messages ms.
Proof. rewrite !andb_true_iff, !bool_decide_eq_true. intros [[H1 H2] H3]. done. Qed.
Lemma busy_wf : projection_wf (tr_task_id working) busy.
Proof. split; [done|done|]. apply unique_check. vm_compute. reflexivity. Qed.


Lemma turn_settles_once_witness :
  transact chat_commit_options (finish_turn "turn-1" (Ok Refusal) 9 fresh) (after (handover "turn-1" "turn-2" "a" 5) busy)
  = Ok (None, false, after (handover "turn-1" "turn-2" "a" 5) busy).
Proof.
  unshelve eapply (proj1 (turn_settles_once "turn-1" _ (handover "turn-1" "turn-2" "a" 5) chat_commit_options busy
    (Some (queued "a" "first")) _ [] _ _ _ _ _ chat_commit_options (fun _ => false) (Ok Refusal) None Shutdown 9 fresh)).
  - exact (after (handover "turn-1" "turn-2" "a" 5) busy).
  - apply settles_finish. discriminate.
  - vm_compute. reflexivity.
  - apply turn_run_nil.
  - apply not_elem_of_nil.
Defined.

Lemma queue_revision_guards_witness :
  mq_items (tr_message_queue (pj_task (after (queue_remove_message "client" 3 "b" 7) busy))) = [queued "a" "first"].
Proof.
  destruct (queue_revision_guards [] busy busy "client" "b" chat_commit_options 7) as (_ & _ & Hr & _).
  - apply turn_run_nil.
  - vm_compute. reflexivity.
  - destruct (Hr tt true (after (queue_remove_message "client" 3 "b" 7) busy)) as (_ & item & _ & ->); vm_compute; reflexivity.
Defined.

Lemma queue_head_is_delivered_witness :
  exists p', transact chat_commit_options (handover "turn-1" "turn-2" "a" 5) busy = Ok (Some (queued "a" "first"), true, p') /\
    mq_items (tr_message_queue (pj_task p')) = [queued "b" "second"] /\ tr_active_turn_id (pj_task p') = Some "turn-2"%string.
Proof.
  destruct (queue_head_is_delivered (fun _ => true) "turn-1" "turn-2" "a" chat_commit_options 5 fresh busy (queued "a" "first"))
    as (p' & rows & user & marker & Hr & Hq & Ht & _).
  - exact busy_wf.
  - reflexivity.
  - vm_compute. reflexivity.
  - reflexivity.
  - reflexivity.
  - discriminate.
  - vm_compute. reflexivity.
  - vm_compute. reflexivity.
  - intros out outcome ctx H. vm_compute in H. injection H as <- <- <-. apply unique_check. vm_compute. reflexivity.
  - exists p'. split; [exact Hr|]. split; [|exact Ht]. cbn in Hq. by injection Hq as <-.
Defined.

Lemma active_work_end_is_clean_witness :
  exists p', transact chat_commit_options (end_active_work (Some "turn-1"%string) UserStopped 5 fresh) busy = Ok (tt, true, p') /\
    tr_active_turn_id (pj_task p') = None /\ mq_pause (tr_message_queue (pj_task p')) = Some UnsuccessfulTurn.
Proof.
  destruct (active_work_end_is_clean (Some "turn-1"%string) UserStopped chat_commit_options 5 fresh busy)
    as (p' & rows & row & Hr & Ht & _ & _ & _ & _ & _ & _ & Hp).
  - exact busy_wf.
  - reflexivity.
  - vm_compute. reflexivity.
  - reflexivity.
  - vm_compute. reflexivity.
  - intros out outcome ctx H. vm_compute in H. injection H as <- <- <-. apply unique_check. vm_compute. reflexivity.
  - exists p'. split; [exact Hr|]. split; [exact Ht|]. apply Hp. discriminate.
Defined.



(** A queued message without text enters the composer history as an empty entry,
    which a direct send of it does not. *)
Example empty_history_entry :
  let p := mkProjection (set_queue (mkQueue 3 None [queued "a" ""]) working) [] (meta 0) ∅ in
  (ch_text <$> tr_composer_history (pj_task (after (handover "turn-1" "turn-2" "a" 5) p))) = [""%string]
  /\ tr_composer_history (record_composer_history "a" "" 5 working) = [].
Proof. split; vm_compute; reflexivity. Qed.

(** A question that arrives while a Stop is in progress replaces the Stopping
    state: the turn that then ends is settled as finished, not as stopped. *)
Example question_hides_stop :
  let bound := mkProjection (session_task StActive (Some "turn-1"%string)) [] (meta 0) ∅ in
  let stopping := after (mark_turn_stopping "turn-1" 4) bound in
  (ae_reason <$> tr_attention (pj_task (after (finish_turn "turn-1" (Ok Cancelled) 6 fresh) stopping))) = None
  /\ (ae_reason <$> tr_attention (pj_task (after (finish_turn "turn-1" (Ok Cancelled) 6 fresh)
         (after (mark_question_waiting "s" "request-1" "epoch" 5) stopping)))) = Some AttStopped.
Proof. split; vm_compute; reflexivity. Qed.

(** A question outside a turn leaves the Task waiting, and the recovery after a
    restart, which has lost the question, leaves it so. *)
Example question_waits_forever :
  let idle := mkProjection (session_task StInactive None) [] (meta 0) ∅ in
  let waiting := after (mark_question_waiting "s" "request-1" "epoch" 5) idle in
  needs_recovery (pj_task waiting) = false /\ tr_status (pj_task (after (recover_task 9 fresh) waiting)) = StWaiting.
Proof. split; vm_compute; reflexivity. Qed.
End TurnWitness.
