(* ===== verification/Subagents.v ===== *)
(** * Subagent catalogs and histories

    Models [openaide-rs/app-server/src/storage/subagents.rs] with its modules
    [writes] (changes of a catalog entry and of a history), [stream] (a history
    as a snapshot and a journal of changes), [legacy] (the migration of an older
    format) and [state] (the batches the Task journal worker commits).

    The state is that of one Task: its catalog and open histories in memory and
    its directory.  A journal file is the list of frames that [frame::replay]
    gives, a torn tail being trimmed there.  Every write of a file can fail; the
    fault says what the disk holds then.  The sizes of files and the decoding of
    images are arguments. *)

From stdpp Require Import pretty.
From S2P Require Import Prelude Chat Records Journal Mutation ChatImages.

Local Open Scope Z_scope.

(** What a failed write leaves: nothing, a file without its content, or all. *)
Inductive WriteFault :=
| WriteOk
| WriteLost (e : RuntimeError)
| WriteTorn (e : RuntimeError)
| WriteKept (e : RuntimeError).

(** Faults of [publish_generation]; the predicate tells which old files the
    cleanup removes. *)
Record PublishFault := mkPublishFault {
  pf_snapshot : WriteFault; pf_head : WriteFault; pf_removed : string -> bool;
}.

Record StreamHead := mkHead { sh_schema_version : Z; sh_snapshot : string; sh_journal : string }.

(** The current generation of an open stream. *)
Record StreamFiles := mkFiles {
  sf_journal : string; sf_snapshot_bytes : Z; sf_journal_bytes : Z; sf_journal_frames : Z;
}.

Definition FRAME_FORMAT_VERSION : Z := 1.
Definition STREAM_SCHEMA_VERSION : Z := 1.
Definition HISTORY_SCHEMA_VERSION : Z := 2.
Definition CATALOG_SCHEMA_VERSION : Z := 2.
Definition COMPACT_AFTER_FRAMES : Z := 128.
Definition MIN_COMPACTION_BYTES : Z := 2 ^ 20.
Definition SNAPSHOT_FILE : string := "chat.snapshot".
Definition JOURNAL_FILE : string := "chat.journal".

Definition compaction_due (f : StreamFiles) : bool :=
  bool_decide (COMPACT_AFTER_FRAMES <= sf_journal_frames f)
  || (bool_decide (sf_snapshot_bytes f <= sf_journal_bytes f) && bool_decide (MIN_COMPACTION_BYTES <= sf_journal_bytes f)).

(** [validate_schema] of a stream. *)
Definition validate_stream_schema (version : Z) : result unit RuntimeError :=
  if bool_decide (version = STREAM_SCHEMA_VERSION) then Ok tt else Err (Storage "Unsupported Subagent stream schema").
Definition validate_history_schema (version : Z) : result unit RuntimeError :=
  if bool_decide (1 <= version <= HISTORY_SCHEMA_VERSION) then Ok tt else Err (Storage "Unsupported Subagent history schema").
(** [validate_schema] of a catalog. *)
Definition validate_catalog_schema (version : Z) : result unit RuntimeError :=
  if bool_decide (1 <= version <= CATALOG_SCHEMA_VERSION) then Ok tt else Err (Storage "Unsupported Subagent history schema").

Definition is_ascii_hexdigit (b : Z) : bool :=
  bool_decide (48 <= b <= 57) || bool_decide (65 <= b <= 70) || bool_decide (97 <= b <= 102).
Definition validate_subagent_id (value : string) : result unit RuntimeError :=
  let bytes := bytes_of value in
  let prefix := bytes_of "subagent_" in
  if bool_decide (take (length prefix) bytes = prefix)
     && bool_decide (length (drop (length prefix) bytes) = 32%nat) && forallb is_ascii_hexdigit (drop (length prefix) bytes)
  then Ok tt else Err (InvalidParams "subagent_id").

Definition is_terminal (s : SubagentStatusRecord) : bool :=
  match s with SrWaitingForActivity | SrRunning => false | _ => true end.

Record SubagentRecord := mkSubagent {
  sr_subagent_id : string; sr_native_session_id : string; sr_parent_native_session_id : string;
  sr_parent_subagent_id : option string; sr_name : string; sr_delegated_task : string; sr_status : SubagentStatusRecord;
  sr_capabilities : SubagentCapabilitiesRecord; sr_spawned_order : Z; sr_history_revision : Z;
  sr_history_available : bool; sr_details : list SubagentDetailRecord;
}.
Definition set_record_status (s : SubagentStatusRecord) (r : SubagentRecord) : SubagentRecord :=
  mkSubagent (sr_subagent_id r) (sr_native_session_id r) (sr_parent_native_session_id r) (sr_parent_subagent_id r) (sr_name r)
    (sr_delegated_task r) s (sr_capabilities r) (sr_spawned_order r) (sr_history_revision r) (sr_history_available r) (sr_details r).
Definition set_record_history (revision : Z) (available : bool) (r : SubagentRecord) : SubagentRecord :=
  mkSubagent (sr_subagent_id r) (sr_native_session_id r) (sr_parent_native_session_id r) (sr_parent_subagent_id r) (sr_name r)
    (sr_delegated_task r) (sr_status r) (sr_capabilities r) (sr_spawned_order r) revision available (sr_details r).
Definition set_record_identity (name delegated : string) (cancel : bool) (r : SubagentRecord) : SubagentRecord :=
  mkSubagent (sr_subagent_id r) (sr_native_session_id r) (sr_parent_native_session_id r) (sr_parent_subagent_id r) name
    delegated (sr_status r) (mkCapabilities cancel (sc_close (sr_capabilities r))) (sr_spawned_order r)
    (sr_history_revision r) (sr_history_available r) (sr_details r).
Definition set_record_details (details : list SubagentDetailRecord) (r : SubagentRecord) : SubagentRecord :=
  mkSubagent (sr_subagent_id r) (sr_native_session_id r) (sr_parent_native_session_id r) (sr_parent_subagent_id r) (sr_name r)
    (sr_delegated_task r) (sr_status r) (sr_capabilities r) (sr_spawned_order r) (sr_history_revision r)
    (sr_history_available r) details.

Record CatalogFile := mkCatalog {
  ca_schema_version : Z; ca_revision : Z; ca_next_spawn_order : Z; ca_entries : list SubagentRecord;
}.

Fixpoint merge_detail (detail : SubagentDetailRecord) (details : list SubagentDetailRecord) : list SubagentDetailRecord :=
  match details with
  | [] => [detail]
  | d :: details =>
      if bool_decide (sd_label d = sd_label detail) then mkSubDetail (sd_label d) (sd_value detail) :: details
      else d :: merge_detail detail details
  end.

Section Subagents.
Context `{CP : ChatPayloads}.

(** ** Histories *)

Record SubagentChat := mkSubChat {
  ch_revision : Z; ch_messages : list StoredMessage; ch_message_meta : MessageMeta; ch_current_plan : option AgentPlan;
}.
Definition empty_chat (task_id : string) : SubagentChat := mkSubChat 0 [] (mkMeta task_id 0 0 "" None None) None.

Definition set_chat_messages (ms : list StoredMessage) (c : SubagentChat) : SubagentChat :=
  mkSubChat (ch_revision c) ms (ch_message_meta c) (ch_current_plan c).
Definition bump_revision (c : SubagentChat) : SubagentChat :=
  mkSubChat (u64_saturating_add (ch_revision c) 1) (ch_messages c) (ch_message_meta c) (ch_current_plan c).

Definition set_history_meta (updated_at : string) (c : SubagentChat) : SubagentChat :=
  let meta := ch_message_meta c in
  mkSubChat (ch_revision c) (ch_messages c)
    (mkMeta (mm_task_id meta) (u64_saturating_add (mm_version meta) 1) (Z.of_nat (length (ch_messages c))) updated_at
       (cm_cursor ∘ st_chat <$> head (ch_messages c)) (cm_cursor ∘ st_chat <$> last (ch_messages c)))
    (ch_current_plan c).

Definition advance_history_meta (now : Z) (c : SubagentChat) : SubagentChat :=
  let previous := default 0 (parse_u128 (mm_local_history_updated_at (ch_message_meta c))) in
  let now := default 0 (parse_u128 (now_string now)) in
  set_history_meta (pretty (Z.to_N (Z.max now (Z.min (previous + 1) (u128_modulus - 1))))) c.

Inductive HistoryChange :=
| HAppendText (ident text : string)
| HUpsert (ident : string)
| HPlan.

Definition push_message (ident : string) (message : NormalizedMessage) (now : Z) (c : SubagentChat)
  : HistoryChange * SubagentChat :=
  let sequence := match last (ch_messages c) with Some m => u64_saturating_add (st_sequence m) 1 | None => 1 end in
  let row := mkStored sequence (mkChat (from_sequence sequence) ident (message_type message) ident message no_timing) in
  (HUpsert ident, advance_history_meta now (set_chat_messages (ch_messages c ++ [row]) c)).

(** Text goes to the last part when that is text, else to a new part. *)
Definition push_chunk (chunk : string) (parts : list AgentMessagePart) : list AgentMessagePart :=
  match last parts with Some (PartText _) => push_last chunk parts | _ => parts ++ [PartText chunk] end.
Definition push_row_chunk (chunk : string) (m : StoredMessage) : StoredMessage :=
  match cm_message (st_chat m) with
  | MAgentMessage id role parts created => set_row_message (MAgentMessage id role (push_chunk chunk parts) created) m
  | _ => m
  end.

(** [append_message] of a history. *)
Definition append_history_message (message : NormalizedMessage) (upsert : bool) (now : Z) (c : SubagentChat)
  : HistoryChange * SubagentChat :=
  let ident := identity message in
  match (if upsert then find_message ident (ch_messages c) else None) with
  | Some stored =>
      (HUpsert ident, advance_history_meta now (set_chat_messages
         (update_message ident (set_row_message (preserve_created_at_from message (cm_message (st_chat stored)))) (ch_messages c)) c))
  | None => push_message ident message now c
  end.

Definition append_message_part (message : NormalizedMessage) (now : Z) (c : SubagentChat)
  : result (HistoryChange * SubagentChat) RuntimeError :=
  let ident := identity message in
  let mismatch := Storage "Subagent message chunk does not match its stored message" in
  match find_message ident (ch_messages c) with
  | None => Ok (push_message ident message now c)
  | Some stored =>
      let change change f := Ok (change, advance_history_meta now (set_chat_messages (update_message ident f (ch_messages c)) c)) in
      match cm_message (st_chat stored), message with
      | MAgentMessage id role parts created, MAgentMessage _ incoming_role [part] _ =>
          if bool_decide (role = incoming_role) then
            match part with
            | PartText chunk => change (HAppendText ident chunk) (push_row_chunk chunk)
            | _ => change (HUpsert ident) (set_row_message (MAgentMessage id role (parts ++ [part]) created))
            end
          else Err mismatch
      | MUser id text created attachments, MUser _ chunk _ incoming =>
          change (HUpsert ident) (set_row_message (MUser id (text +:+ chunk) created (attachments ++ incoming)))
      | _, _ => Err mismatch
      end
  end.

(** The first row with the Tool call, changed. *)
Fixpoint record_outcome_in (tool_call_id : string) (outcome : ToolPermissionOutcome) (rows : list StoredMessage)
  : option (string * list StoredMessage) :=
  match rows with
  | [] => None
  | m :: rows =>
      match update_row_tool tool_call_id (fun t =>
              Some (set_outcomes (put_outcome outcome (ts_permission_outcomes t), ts_background_outcome t) t)) m with
      | Some m' => Some (cm_identity (st_chat m), m' :: rows)
      | None => '(ident, rows) ← record_outcome_in tool_call_id outcome rows; Some (ident, m :: rows)
      end
  end.

(** [record_permission_outcome] of a history. *)
Definition record_history_outcome (tool_call_id : string) (outcome : ToolPermissionOutcome) (now : Z) (c : SubagentChat)
  : result (HistoryChange * SubagentChat) RuntimeError :=
  let? changed := ok_or (record_outcome_in tool_call_id outcome (ch_messages c))
                    (Storage "Subagent permission outcome has no matching tool call") in
  Ok (HUpsert changed.1, advance_history_meta now (set_chat_messages changed.2 c)).

(** [None] for the operations of the catalog, which are [unreachable!]. *)
Definition apply_to_history (op : SubagentOperation) (now : Z) (c : SubagentChat)
  : option (result (HistoryChange * SubagentChat) RuntimeError) :=
  match op with
  | SubAppendMessage message upsert => Some (Ok (append_history_message message upsert now c))
  | SubAppendMessagePart message => Some (append_message_part message now c)
  | SubSetPlan plan =>
      Some (Ok (HPlan, mkSubChat (ch_revision c) (ch_messages c) (ch_message_meta c)
                         (match plan_entries plan with [] => None | _ => Some plan end)))
  | SubRecordPermissionOutcome tool_call_id outcome => Some (record_history_outcome tool_call_id outcome now c)
  | _ => None
  end.

Definition changes_history (op : SubagentOperation) : bool :=
  match op with
  | SubAppendMessage _ _ | SubAppendMessagePart _ | SubSetPlan _ | SubRecordPermissionOutcome _ _ => true
  | _ => false
  end.

Definition apply_to_record (op : SubagentOperation) (r : SubagentRecord) : SubagentRecord :=
  match op with
  | SubSetStatus status => set_record_status status r
  | SubUpdateIdentity name delegated cancel =>
      set_record_identity (default (sr_name r) name) (default (sr_delegated_task r) delegated)
        (default (sc_cancel (sr_capabilities r)) cancel) r
  | SubMergeDetails details => set_record_details (foldl (fun ds d => merge_detail d ds) (sr_details r) details) r
  | _ => r
  end.

(** ** Streams *)

Inductive StreamOperation :=
| SoAppendText (ident text updated_at : string)
| SoUpsertMessage (message : StoredMessage) (updated_at : string)
| SoSetPlan (plan : option AgentPlan).

Definition describe (c : SubagentChat) (change : HistoryChange) : result StreamOperation RuntimeError :=
  let updated_at := mm_local_history_updated_at (ch_message_meta c) in
  match change with
  | HAppendText ident text => Ok (SoAppendText ident text updated_at)
  | HUpsert ident =>
      let? m := ok_or (find_message ident (ch_messages c)) (Storage "Subagent message change has no stored message") in
      Ok (SoUpsertMessage m updated_at)
  | HPlan => Ok (SoSetPlan (ch_current_plan c))
  end.

(** [append_text] of a stream. *)
Definition append_stream_text (ident text : string) (c : SubagentChat) : result SubagentChat RuntimeError :=
  match cm_message ∘ st_chat <$> find_message ident (ch_messages c) with
  | Some (MAgentMessage _ _ _ _) => Ok (set_chat_messages (update_message ident (push_row_chunk text) (ch_messages c)) c)
  | _ => Err (Storage "Subagent text append has no Agent message")
  end.

(** [StreamOperation::apply]. *)
Definition apply_stream (op : StreamOperation) (c : SubagentChat) : result SubagentChat RuntimeError :=
  let? c := match op with
            | SoAppendText ident text updated_at =>
                let? c := append_stream_text ident text c in Ok (set_history_meta updated_at c)
            | SoUpsertMessage m updated_at =>
                let ident := cm_identity (st_chat m) in
                Ok (set_history_meta updated_at (set_chat_messages
                      (match find_message ident (ch_messages c) with
                       | Some _ => update_message ident (fun _ => m) (ch_messages c)
                       | None => ch_messages c ++ [m]
                       end) c))
            | SoSetPlan plan => Ok (mkSubChat (ch_revision c) (ch_messages c) (ch_message_meta c) plan)
            end in
  Ok (bump_revision c).

Record StreamFrame := mkFrame {
  fm_format_version : Z; fm_schema_version : Z; fm_sequence : Z; fm_revision : Z; fm_operations : list StreamOperation;
}.

(** A history of the older format: its snapshot and the frames of its journal. *)
Inductive HistoryFrame :=
| FFull (revision schema_version : Z) (chat : SubagentChat)
| FAppendText (revision : Z) (ident : string) (role : AgentMessageRole) (text : string) (meta : MessageMeta)
| FUpsert (revision : Z) (m : StoredMessage) (meta : MessageMeta)
| FSetPlan (revision : Z) (plan : option AgentPlan).
Record LegacyHistory := mkLegacy { lg_schema_version : Z; lg_chat : SubagentChat; lg_frames : list HistoryFrame }.

(** The directory of one history. *)
Record StreamDir := mkDir {
  sd_head : option StreamHead;
  sd_snapshots : gmap string (Z * SubagentChat);
  sd_journals : gmap string (list StreamFrame);
  sd_legacy : option LegacyHistory;
}.
Definition no_dir : StreamDir := mkDir None ∅ ∅ None.
Definition set_head (h : StreamHead) (d : StreamDir) : StreamDir := mkDir (Some h) (sd_snapshots d) (sd_journals d) (sd_legacy d).
Definition set_snapshot (name : string) (s : Z * SubagentChat) (d : StreamDir) : StreamDir :=
  mkDir (sd_head d) (<[name := s]> (sd_snapshots d)) (sd_journals d) (sd_legacy d).
Definition set_journal (name : string) (frames : list StreamFrame) (d : StreamDir) : StreamDir :=
  mkDir (sd_head d) (sd_snapshots d) (<[name := frames]> (sd_journals d)) (sd_legacy d).
Definition remove_journal (name : string) (d : StreamDir) : StreamDir :=
  mkDir (sd_head d) (sd_snapshots d) (delete name (sd_journals d)) (sd_legacy d).

(** Sizes of the encoded files. *)
Class StreamSizes := { snapshot_size : SubagentChat -> Z; journal_size : list StreamFrame -> Z }.

Context `{SZ : !StreamSizes} `{IC : !ImageCodecs}.

Definition image_error : RuntimeError := Storage "Stored Chat image is not valid base64".

Fixpoint apply_operations_of (ops : list StreamOperation) (c : SubagentChat) : result SubagentChat RuntimeError :=
  match ops with
  | [] => Ok c
  | op :: ops => let? c := apply_stream op c in apply_operations_of ops c
  end.

(** The frames of a journal over its snapshot. *)
Fixpoint replay_frames_of (frames : list StreamFrame) (c : SubagentChat) : result SubagentChat RuntimeError :=
  match frames with
  | [] => Ok c
  | f :: frames =>
      check? validate_stream_schema (fm_schema_version f) in
      let? c := apply_operations_of (fm_operations f) c in
      if bool_decide (ch_revision c <> fm_revision f) then Err (Storage "Subagent stream revision is inconsistent")
      else replay_frames_of frames c
  end.

Definition exists_stream (d : StreamDir) : bool := is_some (sd_head d).

(** [load]: the history, its files and the directory, where an empty journal is
    removed. *)
Definition load (d : StreamDir) : result (SubagentChat * StreamFiles * StreamDir) RuntimeError :=
  let missing := Storage "No such file or directory" in
  let? h := ok_or (sd_head d) missing in
  check? validate_stream_schema (sh_schema_version h) in
  let? s := ok_or (sd_snapshots d !! sh_snapshot h) missing in
  check? validate_stream_schema s.1 in
  match sd_journals d !! sh_journal h with
  | Some ((_ :: _) as frames) =>
      let? c := replay_frames_of frames s.2 in
      Ok (c, mkFiles (sh_journal h) (snapshot_size s.2) (journal_size frames) (Z.of_nat (length frames)), d)
  | Some [] => Ok (s.2, mkFiles (sh_journal h) (snapshot_size s.2) 0 0, remove_journal (sh_journal h) d)
  | None => Ok (s.2, mkFiles (sh_journal h) (snapshot_size s.2) 0 0, d)
  end.

(** [append]: one frame; the files after it, and the directory. *)
Definition append_frame (fault : WriteFault) (files : StreamFiles) (c : SubagentChat) (ops : list StreamOperation)
    (d : StreamDir) : result StreamFiles RuntimeError * StreamDir :=
  let frame := mkFrame FRAME_FORMAT_VERSION STREAM_SCHEMA_VERSION (u64_saturating_add (sf_journal_frames files) 1)
                 (ch_revision c) ops in
  let previous := sd_journals d !! sf_journal files in
  let write (frames torn : list StreamFrame) :=
    let d' := set_journal (sf_journal files) frames d in
    match fault with
    | WriteOk => (Ok (mkFiles (sf_journal files) (sf_snapshot_bytes files) (journal_size frames)
                        (u64_add (sf_journal_frames files) 1)), d')
    | WriteLost e => (Err e, d)
    | WriteTorn e => (Err e, set_journal (sf_journal files) torn d)
    | WriteKept e => (Err e, d')
    end in
  if bool_decide (sf_journal_frames files = 0)
  then match previous with Some _ => (Err (Storage "File exists"), d) | None => write [frame] [] end
  else match previous with
       | Some frames => write (frames ++ [frame]) frames
       | None => (Err (Storage "No such file or directory"), d)
       end.

Definition snapshot_name (generation : string) : string := SNAPSHOT_FILE +:+ "." +:+ generation.
Definition journal_name (generation : string) : string := JOURNAL_FILE +:+ "." +:+ generation.

Definition remove_other_generations (removed : string -> bool) (generation : string) (d : StreamDir) : StreamDir :=
  mkDir (sd_head d)
    (filter (fun e => e.1 = snapshot_name generation \/ removed e.1 = false) (sd_snapshots d))
    (filter (fun e => e.1 = journal_name generation \/ removed e.1 = false) (sd_journals d)) (sd_legacy d).

Definition publish_generation (fault : PublishFault) (generation : string) (c : SubagentChat) (d : StreamDir)
  : result StreamFiles RuntimeError * StreamDir :=
  let written := set_snapshot (snapshot_name generation) (STREAM_SCHEMA_VERSION, c) d in
  let head := mkHead STREAM_SCHEMA_VERSION (snapshot_name generation) (journal_name generation) in
  match pf_snapshot fault with
  | WriteLost e | WriteTorn e => (Err e, d)
  | WriteKept e => (Err e, written)
  | WriteOk =>
      match pf_head fault with
      | WriteLost e | WriteTorn e => (Err e, written)
      | WriteKept e => (Err e, set_head head written)
      | WriteOk => (Ok (mkFiles (journal_name generation) (snapshot_size c) 0 0),
                    remove_other_generations (pf_removed fault) generation (set_head head written))
      end
  end.

(** *** The older format *)

Definition frame_revision (f : HistoryFrame) : Z :=
  match f with FFull r _ _ | FAppendText r _ _ _ _ | FUpsert r _ _ | FSetPlan r _ => r end.

Definition set_revision (r : Z) (c : SubagentChat) : SubagentChat :=
  mkSubChat r (ch_messages c) (ch_message_meta c) (ch_current_plan c).
Definition set_chat_meta (meta : MessageMeta) (c : SubagentChat) : SubagentChat :=
  mkSubChat (ch_revision c) (ch_messages c) meta (ch_current_plan c).

(** [TextAppend::apply]. *)
Definition apply_text_append (ident : string) (role : AgentMessageRole) (text : string) (c : SubagentChat)
  : result SubagentChat RuntimeError :=
  let? stored := ok_or (find_message ident (ch_messages c)) (Storage "Subagent text append has no stored message") in
  match cm_message (st_chat stored) with
  | MAgentMessage _ stored_role _ _ =>
      if bool_decide (stored_role <> role) then Err (Storage "Subagent text append has a different message role")
      else Ok (set_chat_messages (update_message ident (push_row_chunk text) (ch_messages c)) c)
  | _ => Err (Storage "Subagent text append has a different message kind")
  end.

Fixpoint replay_legacy (snapshot_revision : Z) (frames : list HistoryFrame) (c : SubagentChat)
  : result SubagentChat RuntimeError :=
  match frames with
  | [] => Ok c
  | f :: frames =>
      let revision := frame_revision f in
      if bool_decide (revision <= snapshot_revision) then replay_legacy snapshot_revision frames c
      else if bool_decide (revision <> u64_saturating_add (ch_revision c) 1)
      then Err (Storage "Subagent history journal sequence is invalid")
      else
        let? c := match f with
                  | FFull _ schema next =>
                      check? validate_history_schema schema in
                      if bool_decide (revision <> ch_revision next)
                      then Err (Storage "Subagent history frame revision is inconsistent") else Ok next
                  | FAppendText _ ident role text meta =>
                      let? c := apply_text_append ident role text c in Ok (set_revision revision (set_chat_meta meta c))
                  | FUpsert _ m meta =>
                      let ident := cm_identity (st_chat m) in
                      Ok (set_revision revision (set_chat_meta meta (set_chat_messages
                            (match find_message ident (ch_messages c) with
                             | Some _ => update_message ident (fun _ => m) (ch_messages c)
                             | None => ch_messages c ++ [m]
                             end) c)))
                  | FSetPlan _ plan => Ok (mkSubChat revision (ch_messages c) (ch_message_meta c) plan)
                  end in
        replay_legacy snapshot_revision frames c
  end.

(** [str::contains] and [str::ends_with]. *)
Fixpoint contains (needle l : list Z) : bool :=
  bool_decide (take (length needle) l = needle) || match l with [] => false | _ :: l => contains needle l end.
Definition ends_with (suffix l : list Z) : bool := bool_decide (drop (length l - length suffix) l = suffix).

Definition legacy_placeholder (m : StoredMessage) : bool :=
  let ident := bytes_of (cm_identity (st_chat m)) in
  contains (bytes_of ":user:collab:") ident && ends_with (bytes_of ":prompt") ident.
Definition mark_boundary (m : StoredMessage) : StoredMessage :=
  if contains (bytes_of ":codex:") (bytes_of (cm_identity (st_chat m))) then
    match cm_message (st_chat m) with
    | MActivity id title status created col [StepText text _] =>
        set_row_message (MActivity id title status created col [StepText text (Some "agent_boundary"%string)]) m
    | _ => m
    end
  else m.

Definition load_history (l : LegacyHistory) : result SubagentChat RuntimeError :=
  check? validate_history_schema (lg_schema_version l) in
  let? c := replay_legacy (ch_revision (lg_chat l)) (lg_frames l) (lg_chat l) in
  Ok (set_chat_messages (mark_boundary <$> filter (fun m => legacy_placeholder m = false) (ch_messages c)) c).

(** [migrate]; [kept_files] tells that the removal of the old files failed and
    [lookup] the display sizes of the Task's image files.  The
    stream that was just written reads back as it was written. *)
Definition migrate (fault : PublishFault) (generation : string) (kept_files : bool) (lookup : string -> option (Z * Z)) (d : StreamDir)
  : result (SubagentChat * StreamFiles) RuntimeError * StreamDir :=
  match sd_legacy d with
  | None => (Err (Storage "No such file or directory"), d)
  | Some l =>
      match load_history l with
      | Err e => (Err e, d)
      | Ok history =>
          match externalize_messages (ch_messages history) with
          | None => (Err image_error, d)
          | Some (ms, _) =>
              let c := set_chat_messages (add_missing_dimensions lookup ms) history in
              match publish_generation fault generation c d with
              | (Err e, d) => (Err e, d)
              | (Ok _, d) =>
                  match load d with
                  | Err e => (Err e, d)
                  | Ok (_, files, d) =>
                      (Ok (c, files), mkDir (sd_head d) (sd_snapshots d) (sd_journals d) (if kept_files then sd_legacy d else None))
                  end
              end
          end
      end
  end.

(** ** The catalog and the open histories of a Task *)

Record OpenHistory := mkOpen { oh_chat : SubagentChat; oh_files : StreamFiles }.
Record TaskSubagents := mkTaskSubagents { ts_catalog : CatalogFile; ts_histories : gmap string OpenHistory }.
Record TaskDir := mkTaskDir { td_catalog : option CatalogFile; td_streams : gmap string StreamDir }.

Definition stream_dir (td : TaskDir) (id : string) : StreamDir := default no_dir (td_streams td !! id).
Definition set_stream_dir (id : string) (d : StreamDir) (td : TaskDir) : TaskDir :=
  mkTaskDir (td_catalog td) (<[id := d]> (td_streams td)).
Definition set_entries (entries : list SubagentRecord) (c : CatalogFile) : CatalogFile :=
  mkCatalog (ca_schema_version c) (ca_revision c) (ca_next_spawn_order c) entries.
Definition set_catalog (c : CatalogFile) (ts : TaskSubagents) : TaskSubagents := mkTaskSubagents c (ts_histories ts).
Definition set_histories (h : gmap string OpenHistory) (ts : TaskSubagents) : TaskSubagents := mkTaskSubagents (ts_catalog ts) h.

(** The first entry that [p] selects, changed. *)
Fixpoint update_entry (p : SubagentRecord -> bool) (f : SubagentRecord -> SubagentRecord) (entries : list SubagentRecord)
  : list SubagentRecord :=
  match entries with
  | [] => []
  | e :: entries => if p e then f e :: entries else e :: update_entry p f entries
  end.
Definition has_id (id : string) (r : SubagentRecord) : bool := bool_decide (sr_subagent_id r = id).
Definition has_native (id : string) (r : SubagentRecord) : bool := bool_decide (sr_native_session_id r = id).
Definition find_entry (p : SubagentRecord -> bool) (entries : list SubagentRecord) : option SubagentRecord :=
  head (filter (fun e => p e = true) entries).

Definition load_catalog (td : TaskDir) : result CatalogFile RuntimeError :=
  match td_catalog td with
  | None => Ok (mkCatalog CATALOG_SCHEMA_VERSION 0 0 [])
  | Some c => check? validate_catalog_schema (ca_schema_version c) in Ok c
  end.

(** The result, the catalog in memory and the directory. *)
Definition write_catalog (fault : WriteFault) (c : CatalogFile) (td : TaskDir)
  : result unit RuntimeError * CatalogFile * TaskDir :=
  let c' := mkCatalog CATALOG_SCHEMA_VERSION (ca_revision c) (ca_next_spawn_order c) (ca_entries c) in
  let td' := mkTaskDir (Some c') (td_streams td) in
  match fault with
  | WriteOk => (Ok tt, c', td')
  | WriteLost e | WriteTorn e => (Err e, c, td)
  | WriteKept e => (Err e, c, td')
  end.

Record OpenFault := mkOpenFault {
  of_read : option RuntimeError; of_catalog : WriteFault; of_publish : PublishFault; of_generation : string;
  of_kept_files : bool; of_dimensions : string -> option (Z * Z);
}.

Definition open_history (fault : OpenFault) (id : string) (ts : TaskSubagents) (td : TaskDir)
  : result OpenHistory RuntimeError * TaskSubagents * TaskDir :=
  let d := stream_dir td id in
  let '(opened, ts, td) :=
    match of_read fault with
    | Some e => (Err e, ts, td)
    | None =>
        if exists_stream d then
          match load d with
          | Ok (c, files, d) => (Ok (c, files), ts, set_stream_dir id d td)
          | Err e => (Err e, ts, td)
          end
        else match sd_legacy d with
        | Some _ =>
            let '(r, catalog, td) :=
              if bool_decide (ca_schema_version (ts_catalog ts) < CATALOG_SCHEMA_VERSION)
              then write_catalog (of_catalog fault) (ts_catalog ts) td else (Ok tt, ts_catalog ts, td) in
            let ts := set_catalog catalog ts in
            match r with
            | Err e => (Err e, ts, td)
            | Ok _ =>
                let '(r, d) := migrate (of_publish fault) (of_generation fault) (of_kept_files fault) (of_dimensions fault) d in
                (r, ts, set_stream_dir id d td)
            end
        | None => (Err (Storage "Subagent history is missing"), ts, td)
        end
    end in
  match opened with
  | Err e => (Err e, ts, td)
  | Ok (c, files) =>
      (Ok (mkOpen c files),
       set_catalog (set_entries (update_entry (has_id id) (fun r => set_record_history (ch_revision c) (sr_history_available r) r)
                                   (ca_entries (ts_catalog ts))) (ts_catalog ts)) ts, td)
  end.

(** ** Batches *)

Inductive CommittedSubagentChange :=
| CsAppend (m : ChatMessage)
| CsUpsert (m : ChatMessage)
| CsAppendText (message_id text : string)
| CsPlan (plan : option AgentPlan).

Record CommittedSubagentRevision := mkRevision {
  cr_subagent_id : string; cr_revision : Z; cr_change : option CommittedSubagentChange;
}.
Record CommittedSubagentBatch := mkSubBatch {
  sb_revisions : list CommittedSubagentRevision; sb_catalog_revision : Z; sb_entries : list SubagentRecord;
}.

Definition committed_change (c : SubagentChat) (change : HistoryChange) (message_count : nat) : option CommittedSubagentChange :=
  match change with
  | HAppendText ident text =>
      m ← find_message ident (ch_messages c); Some (CsAppendText (cm_message_id (st_chat m)) text)
  | HUpsert ident =>
      m ← find_message ident (ch_messages c);
      Some (if bool_decide (message_count < length (ch_messages c))%nat then CsAppend (st_chat m) else CsUpsert (st_chat m))
  | HPlan => Some (CsPlan (ch_current_plan c))
  end.

Record PendingHistory := mkPending { ph_operations : list StreamOperation; ph_writes : list nat; ph_revisions : list nat }.
Record BatchState := mkBatchState {
  bs_pending : gmap string PendingHistory; bs_revisions : list CommittedSubagentRevision; bs_catalog_changed : bool;
  bs_catalog_persist : bool; bs_stopped : gset string; bs_abandoned : list PendingHistory;
}.
Definition no_batch : BatchState := mkBatchState ∅ [] false false ∅ [].

(** Faults and fresh identifiers of a batch, by the index of the write or by the
    history. *)
Record BatchFaults := mkBatchFaults {
  bf_open : nat -> OpenFault; bf_spawn : nat -> PublishFault; bf_spawn_id : nat -> string;
  bf_spawn_generation : nat -> string; bf_images : nat -> option RuntimeError;
  bf_append : string -> WriteFault; bf_publish : string -> PublishFault; bf_generation : string -> string;
  bf_catalog : WriteFault; bf_reload : option RuntimeError; bf_now : nat -> Z;
}.

(** What a batch works on. *)
Record Work := mkWork_ { wk_task : TaskSubagents; wk_dir : TaskDir; wk_batch : BatchState }.

Definition bump_catalog (persist : bool) (w : Work) : Work :=
  let c := ts_catalog (wk_task w) in
  let b := wk_batch w in
  mkWork_ (set_catalog (mkCatalog (ca_schema_version c) (u64_saturating_add (ca_revision c) 1) (ca_next_spawn_order c) (ca_entries c))
             (wk_task w)) (wk_dir w)
    (mkBatchState (bs_pending b) (bs_revisions b) true (bs_catalog_persist b || persist) (bs_stopped b) (bs_abandoned b)).
Definition patch_entry (p : SubagentRecord -> bool) (f : SubagentRecord -> SubagentRecord) (w : Work) : Work :=
  let c := ts_catalog (wk_task w) in
  mkWork_ (set_catalog (set_entries (update_entry p f (ca_entries c)) c) (wk_task w)) (wk_dir w) (wk_batch w).
Definition set_work_histories (f : gmap string OpenHistory -> gmap string OpenHistory) (w : Work) : Work :=
  mkWork_ (set_histories (f (ts_histories (wk_task w))) (wk_task w)) (wk_dir w) (wk_batch w).
Definition set_work_batch (f : BatchState -> BatchState) (w : Work) : Work := mkWork_ (wk_task w) (wk_dir w) (f (wk_batch w)).

Definition spawn (faults : BatchFaults) (task_id : string) (index : nat) (native parent name delegated : string)
    (capabilities : SubagentCapabilitiesRecord) (details : list SubagentDetailRecord) (w : Work)
  : result unit RuntimeError * Work :=
  let c := ts_catalog (wk_task w) in
  if is_some (find_entry (has_native native) (ca_entries c)) then (Ok tt, w)
  else
    let parent_id := sr_subagent_id <$> find_entry (has_native parent) (ca_entries c) in
    let id := bf_spawn_id faults index in
    let chat := empty_chat task_id in
    let '(r, d) := publish_generation (bf_spawn faults index) (bf_spawn_generation faults index) chat (stream_dir (wk_dir w) id) in
    let w := mkWork_ (wk_task w) (set_stream_dir id d (wk_dir w)) (wk_batch w) in
    match r with
    | Err e => (Err e, w)
    | Ok files =>
        let order := u64_saturating_add (ca_next_spawn_order c) 1 in
        let record := mkSubagent id native parent parent_id name delegated SrWaitingForActivity capabilities order 0 true details in
        let w := set_work_histories <[id := mkOpen chat files]> w in
        let w := mkWork_ (set_catalog (mkCatalog (ca_schema_version c) (ca_revision c) order (ca_entries c ++ [record])) (wk_task w))
                   (wk_dir w) (wk_batch w) in
        (Ok tt, bump_catalog true w)
    end.

(** A changed message may carry new images; the history with its next
    revision, its operation and its published change. *)
Definition finish_write (image_fault : option RuntimeError) (message_count : nat) (changed : HistoryChange * SubagentChat)
  : result (SubagentChat * StreamOperation * option CommittedSubagentChange) RuntimeError :=
  let '(change, c) := changed in
  let? c := match change with
            | HAppendText _ _ => Ok c
            | _ =>
                match image_fault with
                | Some e => Err e
                | None => let? ms := ok_or (externalize_messages (ch_messages c)) image_error in Ok (set_chat_messages ms.1 c)
                end
            end in
  let? sop := describe c change in
  Ok (bump_revision c, sop, committed_change c change message_count).

Definition apply_history_write (image_fault : option RuntimeError) (now : Z) (op : SubagentOperation) (c : SubagentChat)
  : option (result (SubagentChat * StreamOperation * option CommittedSubagentChange) RuntimeError) :=
  r ← apply_to_history op now c; Some (let? r := r in finish_write image_fault (length (ch_messages c)) r).

(** Queues the operation of a history write. *)
Definition queue_operation (id : string) (index : nat) (sop : StreamOperation) (revision : CommittedSubagentRevision)
    (b : BatchState) : BatchState :=
  let p := default (mkPending [] [] []) (bs_pending b !! id) in
  mkBatchState (<[id := mkPending (ph_operations p ++ [sop]) (ph_writes p ++ [index]) (ph_revisions p ++ [length (bs_revisions b)])]>
                  (bs_pending b))
    (bs_revisions b ++ [revision]) (bs_catalog_changed b) (bs_catalog_persist b) (bs_stopped b) (bs_abandoned b).

(** Gives up what the batch has queued for a history. *)
Definition abandon (id : string) (b : BatchState) : BatchState :=
  mkBatchState (delete id (bs_pending b)) (bs_revisions b) (bs_catalog_changed b) (bs_catalog_persist b) (bs_stopped b)
    (bs_abandoned b ++ option_list (bs_pending b !! id)).
Definition set_stopped (f : gset string -> gset string) (b : BatchState) : BatchState :=
  mkBatchState (bs_pending b) (bs_revisions b) (bs_catalog_changed b) (bs_catalog_persist b) (f (bs_stopped b)) (bs_abandoned b).

(** A write of a history that is open. *)
Definition write_open (faults : BatchFaults) (index : nat) (write : SubagentWrite) (id : string) (open : OpenHistory) (w : Work)
  : result unit RuntimeError * Work :=
  match apply_history_write (bf_images faults index) (bf_now faults index) (sw_operation write) (oh_chat open) with
  | None => (Ok tt, w)
  | Some (Err e) => (Err e, set_work_batch (abandon id) (set_work_histories (delete id) w))
  | Some (Ok (c, sop, change)) =>
      let w := set_work_histories <[id := mkOpen c (oh_files open)]> w in
      let w := set_work_batch (queue_operation id index sop (mkRevision id (ch_revision c) change)) w in
      let before := find_entry (has_native (sw_native_session_id write)) (ca_entries (ts_catalog (wk_task w))) in
      let waits := match before with Some r => bool_decide (sr_status r = SrWaitingForActivity) | None => false end in
      let lost := match before with Some r => negb (sr_history_available r) | None => false end in
      let w := patch_entry (has_native (sw_native_session_id write)) (fun r =>
                 let r := set_record_history (ch_revision c) true r in
                 if bool_decide (sr_status r = SrWaitingForActivity) then set_record_status SrRunning r else r) w in
      (Ok tt, bump_catalog (lost || waits) w)
  end.

Definition apply_write (faults : BatchFaults) (task_id : string) (index : nat) (write : SubagentWrite) (w : Work)
  : result unit RuntimeError * Work :=
  match sw_operation write with
  | SubSpawn parent name delegated capabilities details =>
      spawn faults task_id index (sw_native_session_id write) parent name delegated capabilities details w
  | op =>
      match find_entry (has_native (sw_native_session_id write)) (ca_entries (ts_catalog (wk_task w))) with
      | None => (Err (TaskNotFound "subagent native session"), w)
      | Some record =>
          if negb (changes_history op) then
            let record := apply_to_record op record in
            let w := patch_entry (has_native (sw_native_session_id write)) (apply_to_record op) w in
            let w := set_work_batch (set_stopped (if is_terminal (sr_status record) then union {[sr_subagent_id record]}
                                                  else fun s => s ∖ {[sr_subagent_id record]})) w in
            (Ok tt, bump_catalog true w)
          else
            let id := sr_subagent_id record in
            match ts_histories (wk_task w) !! id with
            | Some open => write_open faults index write id open w
            | None =>
                let '(r, ts, td) := open_history (bf_open faults index) id (wk_task w) (wk_dir w) in
                let w := mkWork_ ts td (wk_batch w) in
                match r with
                | Ok open => write_open faults index write id open (set_work_histories <[id := open]> w)
                | Err e =>
                    if sr_history_available record
                    then (Err e, bump_catalog true (patch_entry (has_native (sw_native_session_id write))
                                   (fun r => set_record_history (sr_history_revision r) false r) w))
                    else (Err e, w)
                end
            end
      end
  end.

Fixpoint apply_writes (faults : BatchFaults) (task_id : string) (index : nat) (writes : list SubagentWrite) (w : Work)
  : list (result unit RuntimeError) * Work :=
  match writes with
  | [] => ([], w)
  | write :: writes =>
      let '(outcome, w) := apply_write faults task_id index write w in
      let '(outcomes, w) := apply_writes faults task_id (S index) writes w in
      (outcome :: outcomes, w)
  end.

Definition fail_writes (e : RuntimeError) (indices : list nat) (outcomes : list (result unit RuntimeError))
  : list (result unit RuntimeError) := foldl (fun outs i => <[i := Err e]> outs) outcomes indices.

(** What the writing of histories changes besides the work. *)
Record Persisted := mkPersisted {
  pe_work : Work; pe_outcomes : list (result unit RuntimeError); pe_unpublished : gset nat;
}.

Definition persist_history (faults : BatchFaults) (id : string) (pending : PendingHistory) (p : Persisted) : Persisted :=
  let w := pe_work p in
  match ts_histories (wk_task w) !! id with
  | None => p
  | Some open =>
      let '(r, d) := append_frame (bf_append faults id) (oh_files open) (oh_chat open) (ph_operations pending) (stream_dir (wk_dir w) id) in
      let w := mkWork_ (wk_task w) (set_stream_dir id d (wk_dir w)) (wk_batch w) in
      match r with
      | Err e =>
          let known := is_some (find_entry (has_id id) (ca_entries (ts_catalog (wk_task w)))) in
          let w := patch_entry (has_id id) (fun r => set_record_history (sr_history_revision r) false r)
                     (set_work_histories (delete id) w) in
          let w := set_work_batch (fun b => mkBatchState (bs_pending b) (bs_revisions b) (bs_catalog_changed b)
                     (bs_catalog_persist b || known) (bs_stopped b) (bs_abandoned b)) w in
          mkPersisted w (fail_writes e (ph_writes pending) (pe_outcomes p)) (list_to_set (ph_revisions pending) ∪ pe_unpublished p)
      | Ok files =>
          if negb (compaction_due files)
          then mkPersisted (set_work_histories <[id := mkOpen (oh_chat open) files]> w) (pe_outcomes p) (pe_unpublished p)
          else
            let '(r, d) := publish_generation (bf_publish faults id) (bf_generation faults id) (oh_chat open) d in
            let w := mkWork_ (wk_task w) (set_stream_dir id d (wk_dir w)) (wk_batch w) in
            mkPersisted (set_work_histories (match r with
                                             | Ok files => insert id (mkOpen (oh_chat open) files)
                                             | Err _ => delete id
                                             end) w) (pe_outcomes p) (pe_unpublished p)
      end
  end.

Definition unsaved : RuntimeError := Storage "Subagent history change was not saved".

Definition persist_histories (faults : BatchFaults) (w : Work) (outcomes : list (result unit RuntimeError)) : Persisted :=
  let b := wk_batch w in
  let p := foldl (fun p a => mkPersisted (pe_work p) (fail_writes unsaved (ph_writes a) (pe_outcomes p))
                               (list_to_set (ph_revisions a) ∪ pe_unpublished p))
             (mkPersisted w outcomes ∅) (bs_abandoned b) in
  foldl (fun p e => persist_history faults e.1 e.2 p) p (map_to_list (bs_pending b)).

Definition retained (unpublished : gset nat) (revisions : list CommittedSubagentRevision) : list CommittedSubagentRevision :=
  (filter (fun e => e.1 ∉ unpublished) (imap pair revisions)).*2.

Definition cached_task (cached : option TaskSubagents) (td : TaskDir) : result TaskSubagents RuntimeError :=
  match cached with
  | Some ts => Ok ts
  | None => let? c := load_catalog td in Ok (mkTaskSubagents c ∅)
  end.

Definition commit_batch (faults : BatchFaults) (task_id : string) (writes : list SubagentWrite)
    (cached : option TaskSubagents) (td : TaskDir)
  : option CommittedSubagentBatch * list (result unit RuntimeError) * option TaskSubagents * TaskDir :=
  match cached_task cached td with
  | Err e => (None, (fun _ => Err e) <$> writes, cached, td)
  | Ok ts =>
      let '(outcomes, w) := apply_writes faults task_id 0 writes (mkWork_ ts td no_batch) in
      let p := persist_histories faults w outcomes in
      let w := pe_work p in
      let finish ts td :=
        let ts := set_histories (filter (fun e => e.1 ∉ bs_stopped (wk_batch w)) (ts_histories ts)) ts in
        let revisions := retained (pe_unpublished p) (bs_revisions (wk_batch w)) in
        let committed :=
          if bs_catalog_changed (wk_batch w) || match revisions with [] => false | _ => true end
          then Some (mkSubBatch revisions (ca_revision (ts_catalog ts)) (ca_entries (ts_catalog ts))) else None in
        (committed, pe_outcomes p, Some ts, td) in
      if bs_catalog_persist (wk_batch w) then
        match write_catalog (bf_catalog faults) (ts_catalog (wk_task w)) (wk_dir w) with
        | (Ok _, c, td) => finish (set_catalog c (wk_task w)) td
        | (Err e, c, td) =>
            let reloaded := match bf_reload faults with Some e => Err e | None => load_catalog td end in
            (None, (fun _ => Err e) <$> writes,
             match reloaded with
             | Ok r => Some (mkTaskSubagents (mkCatalog (ca_schema_version r) (ca_revision c) (ca_next_spawn_order r) (ca_entries r)) ∅)
             | Err _ => None
             end, td)
        end
      else finish (wk_task w) (wk_dir w)
  end.

(** Reads a history: from memory while it is open, else from disk. *)
Definition history (fault : OpenFault) (id : string) (require_available : bool) (cached : option TaskSubagents) (td : TaskDir)
  : result SubagentChat RuntimeError * option TaskSubagents * TaskDir :=
  match cached_task cached td with
  | Err e => (Err e, cached, td)
  | Ok ts =>
      match find_entry (has_id id) (ca_entries (ts_catalog ts)) with
      | None => (Err (TaskNotFound "subagent_id"), Some ts, td)
      | Some r =>
          if require_available && negb (sr_history_available r)
          then (Err (Storage "Subagent history is unavailable"), Some ts, td)
          else match ts_histories ts !! id with
               | Some open => (Ok (oh_chat open), Some ts, td)
               | None =>
                   let '(r, ts, td) := open_history fault id ts td in
                   ((let? open := r in Ok (oh_chat open)), Some ts, td)
               end
      end
  end.
End Subagents.
