(* ===== verification/SubagentRules.v ===== *)
(** * Histories of Subagents on disk

    Proves of Subagents that the operation a change is journaled as, applied to
    the history before it, gives exactly the history after it; that through every
    batch, whatever write fails, an open history is what its files hold; that
    only durable revisions are published; and that a client that applies the
    published changes has the history. *)

From stdpp Require Import pretty.
From S2P Require Import Prelude Chat Records Journal Mutation Draft ChatImages Subagents.

Local Open Scope Z_scope.

Section SubagentRules.
Context `{CP : ChatPayloads} `{SZ : !StreamSizes} `{IC : !ImageCodecs}.

(** ** Images *)

Definition stable_row (m : StoredMessage) : Prop := externalize_row m = Some (m, []).
Definition plain_rows (ms : list StoredMessage) : Prop := Forall (fun m => plain_text (cm_message (st_chat m))) ms.

Lemma externalize_row_again m m' b : externalize_row m = Some (m', b) -> plain_text (cm_message (st_chat m')) -> stable_row m'.
Proof.
  unfold stable_row, externalize_row. destruct (externalize_message (cm_message (st_chat m))) as [[message b']|] eqn:E; cbn [mbind option_bind]; [|done].
  intros [= <- <-] Hp. cbn in Hp |- *. by rewrite (message_again _ _ _ E Hp).
Qed.

(** What no change of a row's message touches. *)
Definition place (m : StoredMessage) : Z * string * string * string :=
  (st_sequence m, cm_cursor (st_chat m), cm_identity (st_chat m), cm_message_id (st_chat m)).

Lemma externalize_row_place m m' b : externalize_row m = Some (m', b) -> place m' = place m.
Proof. unfold externalize_row. destruct (externalize_message _) as [[message b']|]; cbn; [|done]. by intros [= <- <-]. Qed.

Lemma externalize_messages_Some ms ms' b : externalize_messages ms = Some (ms', b) -> plain_rows ms' ->
  Forall stable_row ms' /\ place <$> ms' = place <$> ms.
Proof.
  intros H%map_moved_Some. induction H as [|x y l l' (c & Hx & _) _ IH]; [done|]. intros [Hp Hps]%Forall_cons. destruct (IH Hps) as [IH1 IH2].
  split; [constructor; [by eapply externalize_row_again|done]|]. rewrite !fmap_cons, IH2. f_equal. by eapply externalize_row_place.
Qed.

Lemma stable_same ms ms' b : Forall stable_row ms -> externalize_messages ms = Some (ms', b) -> ms' = ms.
Proof.
  intros Hs H%map_moved_Some. induction H as [|x y l l' (c & Hx & _) _ IH]; [done|].
  apply Forall_cons in Hs as [H1 H2]. unfold stable_row in H1. f_equal; [congruence|auto].
Qed.

(** Only the changed row has images to move. *)
Lemma externalize_changed l1 m l2 ms' b : Forall stable_row l1 -> Forall stable_row l2 ->
  externalize_messages (l1 ++ m :: l2) = Some (ms', b) -> exists m' c, externalize_row m = Some (m', c) /\ ms' = l1 ++ m' :: l2.
Proof.
  intros H1 H2 H%map_moved_Some. apply Forall2_app_inv_l in H as (l1' & rest & Hl1 & Hrest & ->).
  inversion Hrest as [|x m' r l2' (c & Hm & _) Hl2]; subst. exists m', c. split; [done|].
  assert (forall l l', Forall stable_row l -> Forall2 (fun x y => exists c, externalize_row x = Some (y, c) /\ c ⊆ b) l l' -> l' = l) as Hid.
  { intros l l' Hl Hf. induction Hf as [|x y l l' (c' & Hx & _) _ IH]; [done|]. apply Forall_cons in Hl as [Hs Hl].
    unfold stable_row in Hs. f_equal; [congruence|auto]. }
  by rewrite (Hid _ _ H1 Hl1), (Hid _ _ H2 Hl2).
Qed.

(** ** The first row of an identity *)

Lemma first_row ident ms m : find_message ident ms = Some m ->
  exists l1 l2, ms = l1 ++ m :: l2 /\ cm_identity (st_chat m) = ident /\ (ident ∉ cm_identity ∘ st_chat <$> l1) /\
    forall f, update_message ident f ms = l1 ++ f m :: l2.
Proof.
  induction ms as [|x ms IH]; cbn; [done|]. case_decide as Hx.
  - intros [= ->]. exists [], ms. split; [done|]. split; [done|]. split; [apply not_elem_of_nil|done].
  - intros Hf. destruct (IH Hf) as (l1 & l2 & -> & Hi & Hn & Hu). exists (x :: l1), l2. split; [done|]. split; [done|]. split.
    + rewrite fmap_cons. apply not_elem_of_cons. split; [|done]. intros E. by apply Hx.
    + intros f. by rewrite Hu.
Qed.

Lemma first_row_at ident l1 m l2 : (ident ∉ cm_identity ∘ st_chat <$> l1) -> cm_identity (st_chat m) = ident ->
  find_message ident (l1 ++ m :: l2) = Some m /\ forall f, update_message ident f (l1 ++ m :: l2) = l1 ++ f m :: l2.
Proof.
  intros Hn Hi. induction l1 as [|x l1 IH]; cbn.
  - rewrite decide_True by done. split; [done|]. intros f. by rewrite decide_True.
  - rewrite fmap_cons in Hn. apply not_elem_of_cons in Hn as [Hx Hn]. destruct (IH Hn) as [IH1 IH2].
    assert (cm_identity (st_chat x) <> ident) as Hx' by (intros E; by apply Hx).
    rewrite decide_False by done. split; [done|]. intros f. by rewrite decide_False, IH2.
Qed.

Lemma no_row ident ms : find_message ident ms = None <-> ident ∉ cm_identity ∘ st_chat <$> ms.
Proof.
  induction ms as [|x ms IH]; cbn [find_message]; [split; [intros _; apply not_elem_of_nil|done]|].
  rewrite fmap_cons, not_elem_of_cons, <- IH. cbn. case_decide as Hx; [|by split; [intros H|intros [_ H]]].
  split; [done|]. intros [Hn _]. by destruct Hn.
Qed.

(** ** A change is journaled exactly *)

(** Histories as they are kept: images moved, identities unique. *)
Record chat_ok (c : SubagentChat) : Prop := mkChatOk {
  co_stable : Forall stable_row (ch_messages c);
  co_unique : NoDup (cm_identity ∘ st_chat <$> ch_messages c);
  co_revision : ch_revision c <= u64_max;
}.

(** An append that is not an update brings a new identity. *)
Definition fresh_append (op : SubagentOperation) (c : SubagentChat) : Prop :=
  match op with
  | SubAppendMessage message false => identity message ∉ cm_identity ∘ st_chat <$> ch_messages c
  | _ => True
  end.

(** Metadata depend on the cursors and number of rows only. *)
Lemma meta_place updated_at c ms : place <$> ms = place <$> ch_messages c ->
  ch_message_meta (set_history_meta updated_at (set_chat_messages ms c)) = ch_message_meta (set_history_meta updated_at c).
Proof.
  intros Hp. unfold set_history_meta, set_chat_messages. cbn. f_equal.
  - f_equal. by rewrite <- (length_fmap place ms), Hp, length_fmap.
  - unfold place in Hp. destruct ms, (ch_messages c); simplify_eq/=; [done|]. f_equal. congruence.
  - apply (f_equal last) in Hp. rewrite !fmap_last in Hp. unfold place in Hp.
    destruct (last ms), (last (ch_messages c)); simplify_eq/=; [|done]. f_equal. congruence.
Qed.

Lemma settled_chat updated_at ms ms' c : place <$> ms' = place <$> ms ->
  set_chat_messages ms' (set_history_meta updated_at (set_chat_messages ms c)) = set_history_meta updated_at (set_chat_messages ms' c).
Proof.
  intros Hp. pose proof (meta_place updated_at (set_chat_messages ms c) ms' Hp) as Hm.
  unfold set_history_meta, set_chat_messages in *. cbn in *. by rewrite Hm.
Qed.

Lemma advance_is_set now c : exists updated_at, forall ms,
  advance_history_meta now (set_chat_messages ms c) = set_history_meta updated_at (set_chat_messages ms c).
Proof. eexists. intros ms. unfold advance_history_meta. cbn. reflexivity. Qed.

Lemma describe_upsert updated_at ms c ident m : find_message ident ms = Some m ->
  describe (set_history_meta updated_at (set_chat_messages ms c)) (HUpsert ident) = Ok (SoUpsertMessage m updated_at).
Proof. intros H. cbn. by rewrite H. Qed.

Lemma identities_place (ms ms' : list StoredMessage) : place <$> ms' = place <$> ms -> cm_identity ∘ st_chat <$> ms' = cm_identity ∘ st_chat <$> ms.
Proof.
  intros H. apply (f_equal (fmap (fun p => p.1.2))) in H. by rewrite <- !list_fmap_compose in H.
Qed.

(** The history after a change, when its images have moved. *)
Definition journaled (c c' : SubagentChat) (sop : StreamOperation) : Prop :=
  apply_stream sop c = Ok c' /\ chat_ok c'.

Lemma changed_row_journaled c l1 m m1 l2 now ms' b sop :
  chat_ok c -> ch_messages c = l1 ++ m :: l2 -> place m1 = place m -> (cm_identity (st_chat m) ∉ cm_identity ∘ st_chat <$> l1) ->
  externalize_messages (l1 ++ m1 :: l2) = Some (ms', b) -> plain_rows ms' ->
  let c1 := set_chat_messages ms' (advance_history_meta now (set_chat_messages (l1 ++ m1 :: l2) c)) in
  describe c1 (HUpsert (cm_identity (st_chat m))) = Ok sop -> journaled c (bump_revision c1) sop.
Proof.
  intros [Hs Hu _] Hms Hp Hn He Hpl0 c1 Hd. rewrite Hms in Hs. apply Forall_app in Hs as [Hs1 [Hsm Hs2]%Forall_cons].
  destruct (externalize_changed _ _ _ _ _ Hs1 Hs2 He) as (m' & b' & Hm' & ->).
  destruct (externalize_messages_Some _ _ _ He Hpl0) as [Hst Hpl]. apply externalize_row_place in Hm'.
  destruct (advance_is_set now c) as [u Hadv]. unfold c1 in *. rewrite Hadv, settled_chat in * by done.
  assert (cm_identity (st_chat m') = cm_identity (st_chat m)) as Hi by (unfold place in *; congruence).
  destruct (first_row_at _ l1 m' l2 Hn Hi) as [Hf _]. rewrite (describe_upsert _ _ _ _ _ Hf) in Hd. injection Hd as <-.
  destruct (first_row_at _ l1 m l2 Hn eq_refl) as [Hf0 Hup]. split.
  - cbn. rewrite Hms, Hi, Hf0, Hup. done.
  - split; [done| |apply Z.le_min_r]. cbn. rewrite (identities_place (l1 ++ m :: l2)); [by rewrite <- Hms|].
    rewrite !fmap_app, !fmap_cons, Hm', Hp. done.
Qed.

Lemma pushed_row_journaled c row now ms' b sop :
  chat_ok c -> (cm_identity (st_chat row) ∉ cm_identity ∘ st_chat <$> ch_messages c) ->
  externalize_messages (ch_messages c ++ [row]) = Some (ms', b) -> plain_rows ms' ->
  let c1 := set_chat_messages ms' (advance_history_meta now (set_chat_messages (ch_messages c ++ [row]) c)) in
  describe c1 (HUpsert (cm_identity (st_chat row))) = Ok sop -> journaled c (bump_revision c1) sop.
Proof.
  intros [Hs Hu _] Hn He Hpl0 c1 Hd.
  destruct (externalize_changed _ _ _ _ _ Hs (Forall_nil_2 _) He) as (m' & b' & Hm' & ->).
  destruct (externalize_messages_Some _ _ _ He Hpl0) as [Hst Hpl]. apply externalize_row_place in Hm'.
  destruct (advance_is_set now c) as [u Hadv]. unfold c1 in *. rewrite Hadv, settled_chat in * by done.
  assert (cm_identity (st_chat m') = cm_identity (st_chat row)) as Hi by (unfold place in *; congruence).
  destruct (first_row_at _ _ m' [] Hn Hi) as [Hf _]. rewrite (describe_upsert _ _ _ _ _ Hf) in Hd. injection Hd as <-.
  split.
  - cbn. rewrite Hi. apply no_row in Hn. by rewrite Hn.
  - split; [done| |apply Z.le_min_r]. cbn. rewrite fmap_app, NoDup_app. split; [done|]. split; [|apply NoDup_singleton].
    intros x Hx Hin. apply list_elem_of_singleton in Hin. apply Hn. unfold compose in Hin. by rewrite <- Hi, <- Hin.
Qed.

Lemma push_last_snoc chunk front text : push_last chunk (front ++ [PartText text]) = front ++ [PartText (text +:+ chunk)].
Proof.
  induction front as [|p front IH]; [done|]. cbn [app]. rewrite push_last_cons; [by rewrite IH|]. by destruct front.
Qed.

Lemma push_chunk_stable text m : stable_row m -> stable_row (push_row_chunk text m) /\ place (push_row_chunk text m) = place m.
Proof.
  unfold stable_row, externalize_row, push_row_chunk. intros H. destruct (cm_message (st_chat m)) eqn:Hm; rewrite ?Hm; try done.
  split; [|done]. cbn in *.
  assert (Forall (fun p => externalize_part p = Some (p, [])) parts) as Hp.
  { apply map_moved_none. destruct (map_moved externalize_part parts) as [[parts' b]|]; cbn in H; [|done]. injection H as H ->. rewrite <- H in Hm.
    cbn in Hm. by injection Hm as ->. }
  assert (map_moved externalize_part (push_chunk text parts) = Some (push_chunk text parts, [])) as ->; [|done].
  apply map_moved_none. unfold push_chunk. destruct (last parts) as [[]|] eqn:Hl.
  2-5: apply Forall_app; split; [done|]; by repeat constructor.
  apply last_Some in Hl as [front ->]. rewrite push_last_snoc. apply Forall_app in Hp as [Hp _]. apply Forall_app.
  split; [done|]. by repeat constructor.
Qed.

Lemma text_journaled c ident text now sop stored id role parts created :
  chat_ok c -> find_message ident (ch_messages c) = Some stored -> cm_message (st_chat stored) = MAgentMessage id role parts created ->
  let c1 := advance_history_meta now (set_chat_messages (update_message ident (push_row_chunk text) (ch_messages c)) c) in
  describe c1 (HAppendText ident text) = Ok sop -> journaled c (bump_revision c1) sop.
Proof.
  intros [Hs Hu _] Hf Hm c1 Hd. destruct (first_row _ _ _ Hf) as (l1 & l2 & Hms & Hi & Hn & Hup).
  destruct (advance_is_set now c) as [u Hadv]. unfold c1 in *. rewrite Hadv in *. cbn in Hd. injection Hd as <-. split.
  - unfold apply_stream, append_stream_text. rewrite Hf. cbn. unfold compose. by rewrite Hm.
  - rewrite Hms in Hs. apply Forall_app in Hs as [Hs1 [Hsm Hs2]%Forall_cons].
    destruct (push_chunk_stable text stored Hsm) as [Hst Hpl].
    split; [cbn; rewrite Hup..|apply Z.le_min_r]; [apply Forall_app; split; [done|by constructor]|].
    rewrite (identities_place (l1 ++ stored :: l2)); [by rewrite <- Hms|]. by rewrite !fmap_app, !fmap_cons, Hpl.
Qed.

(** The row [record_outcome_in] changes. *)
Lemma outcome_row tool outcome rows ident rows' : record_outcome_in tool outcome rows = Some (ident, rows') ->
  exists l1 m m' l2, rows = l1 ++ m :: l2 /\ rows' = l1 ++ m' :: l2 /\ cm_identity (st_chat m) = ident /\ place m' = place m.
Proof.
  revert rows'. induction rows as [|x rows IH]; intros rows'; cbn; [done|]. destruct (update_row_tool _ _ x) as [y|] eqn:E.
  - intros [= <- <-]. exists [], x, y, rows. split_and!; try done. unfold update_row_tool in E.
    destruct (cm_message (st_chat x)); try done. destruct (update_tool _ _ _); [|done]. by injection E as <-.
  - destruct (record_outcome_in tool outcome rows) as [[i r]|]; [|done]. cbn. intros [= -> <-].
    destruct (IH r eq_refl) as (l1 & m & m' & l2 & -> & -> & Hi & Hp). by exists (x :: l1), m, m', l2.
Qed.

Lemma unique_first (l1 : list StoredMessage) m l2 : NoDup (cm_identity ∘ st_chat <$> l1 ++ m :: l2) ->
  cm_identity (st_chat m) ∉ cm_identity ∘ st_chat <$> l1.
Proof. rewrite fmap_app, fmap_cons. intros [_ [H _]]%NoDup_app Hin. apply (H _ Hin). by left. Qed.

(** What a write that is not streamed text makes of the history. *)
Lemma upsert_inv fault n ident c1 c' sop ch : finish_write fault n (HUpsert ident, c1) = Ok (c', sop, ch) ->
  exists ms b, externalize_messages (ch_messages c1) = Some (ms, b) /\ describe (set_chat_messages ms c1) (HUpsert ident) = Ok sop /\
    c' = bump_revision (set_chat_messages ms c1) /\ ch = committed_change (set_chat_messages ms c1) (HUpsert ident) n.
Proof.
  unfold finish_write. destruct fault; [done|].
  destruct (externalize_messages (ch_messages c1)) as [[ms b]|]; cbn [ok_or result_bind fst]; [|done].
  destruct (describe _ _) as [s|] eqn:E; cbn [result_bind]; [|done]. intros [= <- <- <-]. by exists ms, b.
Qed.

Lemma push_journaled fault n ident message now c c' sop ch : chat_ok c -> (ident ∉ cm_identity ∘ st_chat <$> ch_messages c) ->
  finish_write fault n (push_message ident message now c) = Ok (c', sop, ch) -> plain_rows (ch_messages c') -> journaled c c' sop.
Proof.
  intros Hok Hn H Hpl. unfold push_message in H. apply upsert_inv in H as (ms & b & He & Hd & -> & _).
  by eapply (pushed_row_journaled c (mkStored _ (mkChat _ ident _ ident message no_timing)) now ms b sop).
Qed.

Lemma update_journaled fault n ident f stored now c c' sop ch : chat_ok c -> find_message ident (ch_messages c) = Some stored ->
  (forall m, place (f m) = place m) ->
  finish_write fault n (HUpsert ident, advance_history_meta now (set_chat_messages (update_message ident f (ch_messages c)) c))
    = Ok (c', sop, ch) -> plain_rows (ch_messages c') -> journaled c c' sop.
Proof.
  intros Hok Hf Hp H Hpl. apply upsert_inv in H as (ms & b & He & Hd & -> & _).
  destruct (first_row _ _ _ Hf) as (l1 & l2 & Hms & Hi & Hn & Hup). rewrite Hup in *. subst ident.
  by eapply (changed_row_journaled c l1 stored).
Qed.

Lemma part_journaled fault n message now c c' sop ch : chat_ok c ->
  (let? r := append_message_part message now c in finish_write fault n r) = Ok (c', sop, ch) -> plain_rows (ch_messages c') ->
  journaled c c' sop.
Proof.
  intros Hok H Hpl. unfold append_message_part in H. destruct (find_message (identity message) (ch_messages c)) as [stored|] eqn:Hf.
  2: { apply no_row in Hf. by eapply push_journaled. }
  destruct (cm_message (st_chat stored)) eqn:Hm; try done; destruct message; try done.
  - by eapply (update_journaled _ _ _ (set_row_message _)); [..|exact H|exact Hpl].
  - destruct parts0 as [|part [|]]; try done. case_bool_decide as Hr; [|done].
    destruct part; cbn [result_bind] in H; try by eapply (update_journaled _ _ _ (set_row_message _)); [..|exact H|exact Hpl].
    cbn in H. injection H as <- <- <-. by eapply text_journaled.
Qed.

Lemma stream_revision sop c c' : apply_stream sop c = Ok c' -> ch_revision c' = u64_saturating_add (ch_revision c) 1.
Proof.
  unfold apply_stream, append_stream_text. destruct sop as [ident text u|m u|plan]; [|by intros [= <-]..].
  destruct (cm_message ∘ st_chat <$> find_message ident (ch_messages c)) as [[]|]; cbn [result_bind]; try done; by intros [= <-].
Qed.

Lemma write_journaled fault now op c c' sop ch :
  chat_ok c -> fresh_append op c -> apply_history_write fault now op c = Some (Ok (c', sop, ch)) ->
  plain_rows (ch_messages c') -> journaled c c' sop.
Proof.
  intros Hok Hfr. unfold apply_history_write, apply_to_history.
  destruct op as [| | | |message upsert|message|plan|tool outcome]; cbn [fresh_append] in Hfr; try done;
    cbn [option_bind mbind]; intros [= H] Hpl.
  - cbn [result_bind] in H. unfold append_history_message in H. destruct upsert; [|by eapply push_journaled].
    destruct (find_message (identity message) (ch_messages c)) as [stored|] eqn:Hf;
      [by eapply (update_journaled _ _ _ (set_row_message _)); [..|exact H|exact Hpl]|].
    apply no_row in Hf. by eapply push_journaled.
  - by eapply part_journaled.
  - cbn in H. destruct fault; [done|]. destruct (externalize_messages (ch_messages c)) as [[ms b]|] eqn:He; [|done].
    apply (stable_same _ _ _ (co_stable _ Hok)) in He. subst ms. cbn in H. injection H as <- <- <-. destruct Hok. split; [done|]. split; [done..|apply Z.le_min_r].
  - unfold record_history_outcome in H.
    destruct (record_outcome_in tool outcome (ch_messages c)) as [[ident rows]|] eqn:Ho; cbn [ok_or result_bind] in H; [|done].
    apply upsert_inv in H as (ms & b & He & Hd & -> & _). apply outcome_row in Ho as (l1 & m & m' & l2 & Hms & -> & <- & Hp).
    eapply (changed_row_journaled c l1 m m' l2); try done. apply (unique_first l1 m l2). rewrite <- Hms. apply Hok.
Qed.

(** A write whose append is new and that leaves no image in the text of a user
    message: the moving of images must reach an end in one step. *)
Definition fresh_write (fault : option RuntimeError) (now : Z) (op : SubagentOperation) (c : SubagentChat) : Prop :=
  fresh_append op c /\
  forall c' sop ch, apply_history_write fault now op c = Some (Ok (c', sop, ch)) -> plain_rows (ch_messages c').

(** ** Files *)

(** What [load] reads: the head, the snapshot and the frames of the journal. *)
Record stored (d : StreamDir) (h : StreamHead) (base : SubagentChat) (frames : list StreamFrame) : Prop := mkStoredIn {
  so_head : sd_head d = Some h;
  so_version : sh_schema_version h = STREAM_SCHEMA_VERSION;
  so_snapshot : sd_snapshots d !! sh_snapshot h = Some (STREAM_SCHEMA_VERSION, base);
  so_journal : default [] (sd_journals d !! sh_journal h) = frames;
}.

Definition files_of (h : StreamHead) (base : SubagentChat) (frames : list StreamFrame) : StreamFiles :=
  mkFiles (sh_journal h) (snapshot_size base) (match frames with [] => 0 | _ => journal_size frames end) (Z.of_nat (length frames)).

Definition repaired (h : StreamHead) (d : StreamDir) : StreamDir :=
  match sd_journals d !! sh_journal h with Some [] => remove_journal (sh_journal h) d | _ => d end.

Lemma stream_schema_ok v : validate_stream_schema v = Ok tt <-> v = STREAM_SCHEMA_VERSION.
Proof. unfold validate_stream_schema. by case_bool_decide. Qed.

Lemma load_spec d c files d' : load d = Ok (c, files, d') <->
  exists h base frames, stored d h base frames /\ replay_frames_of frames base = Ok c /\ files = files_of h base frames /\ d' = repaired h d.
Proof.
  unfold load. split.
  - destruct (sd_head d) as [h|] eqn:Hh; cbn [ok_or result_bind]; [|done].
    destruct (validate_stream_schema (sh_schema_version h)) as [[]|] eqn:Hv; cbn [result_bind]; [|done].
    destruct (sd_snapshots d !! sh_snapshot h) as [[v base]|] eqn:Hs; cbn [ok_or result_bind fst snd]; [|done].
    destruct (validate_stream_schema v) as [[]|] eqn:Hv1; cbn [result_bind]; [|done].
    apply stream_schema_ok in Hv, Hv1. subst v. intros H. exists h, base, (default [] (sd_journals d !! sh_journal h)).
    split; [by split|]. unfold files_of, repaired. destruct (sd_journals d !! sh_journal h) as [[|f frames]|].
    + by injection H as <- <- <-.
    + change (default [] (Some (f :: frames))) with (f :: frames).
      destruct (replay_frames_of (f :: frames) base) as [c'|]; cbn [result_bind] in H; [|done]. by injection H as <- <- <-.
    + by injection H as <- <- <-.
  - intros (h & base & frames & [Hh Hv Hs Hj] & Hr & -> & ->). rewrite Hh. cbn [ok_or result_bind].
    apply stream_schema_ok in Hv. rewrite Hv. cbn [result_bind]. rewrite Hs. cbn [ok_or result_bind fst snd].
    rewrite (proj2 (stream_schema_ok _) eq_refl). cbn [result_bind]. unfold repaired, files_of.
    destruct (sd_journals d !! sh_journal h) as [[|f fs]|]; cbn in Hj; subst frames; cbn [result_bind].
    + cbn in Hr. by injection Hr as <-.
    + by rewrite Hr.
    + cbn in Hr. by injection Hr as <-.
Qed.

(** The files of a history hold it, and need no repair. *)
Definition holds (d : StreamDir) (c : SubagentChat) (files : StreamFiles) : Prop := load d = Ok (c, files, d).

(** What can be loaded is well formed; an older history has unique rows. *)
Record dir_ok (d : StreamDir) : Prop := mkDirOk {
  do_chat c files d' : load d = Ok (c, files, d') -> chat_ok c;
  do_legacy l c ms b lookup : sd_legacy d = Some l -> load_history l = Ok c -> externalize_messages (ch_messages c) = Some (ms, b) ->
    chat_ok (set_chat_messages (add_missing_dimensions lookup ms) c);
}.

Lemma load_repaired d c files d' : dir_ok d -> load d = Ok (c, files, d') -> holds d' c files /\ dir_ok d' /\ sd_legacy d' = sd_legacy d.
Proof.
  intros Hd Hl. pose proof (do_chat _ Hd _ _ _ Hl) as Hc. apply load_spec in Hl as (h & base & frames & Hst & Hr & Hf & ->).
  assert (stored (repaired h d) h base frames /\ repaired h (repaired h d) = repaired h d /\ sd_legacy (repaired h d) = sd_legacy d)
    as (Hst' & Hrep & Hleg).
  { destruct Hst as [Hh Hv Hs Hj]. unfold repaired. destruct (sd_journals d !! sh_journal h) as [[|f fs]|] eqn:E.
    - split; [|cbn; by rewrite lookup_delete_eq]. split; try done. cbn. by rewrite lookup_delete_eq.
    - rewrite E. split; [|done]. split; try done. by rewrite E.
    - rewrite E. split; [|done]. split; try done. by rewrite E. }
  assert (holds (repaired h d) c files) as Hh by (apply load_spec; exists h, base, frames; by rewrite Hrep).
  split; [done|]. split; [|done]. split; [|rewrite Hleg; apply Hd].
  intros c' files' d'' Hl'. unfold holds in Hh. rewrite Hh in Hl'. by injection Hl' as <- <- <-.
Qed.

Lemma replay_snoc frames f base : replay_frames_of (frames ++ [f]) base =
  (let? c := replay_frames_of frames base in replay_frames_of [f] c).
Proof.
  revert base. induction frames as [|g frames IH]; intros base; [done|]. cbn [app replay_frames_of].
  destruct (validate_stream_schema _); cbn [result_bind]; [|done]. destruct (apply_operations_of _ _); cbn [result_bind]; [|done].
  case_bool_decide; [done|]. apply IH.
Qed.

Lemma appended_frame frames base c0 c sequence ops : replay_frames_of frames base = Ok c0 -> apply_operations_of ops c0 = Ok c ->
  replay_frames_of (frames ++ [mkFrame FRAME_FORMAT_VERSION STREAM_SCHEMA_VERSION sequence (ch_revision c) ops]) base = Ok c.
Proof.
  intros Hr Ho. rewrite replay_snoc, Hr. cbn. rewrite Ho. cbn. by rewrite bool_decide_eq_false_2 by (intros Hn; by apply Hn).
Qed.

(** A generation whose names are not in use. *)
Record unused (generation : string) (d : StreamDir) : Prop := mkUnused {
  un_snapshot : sd_snapshots d !! snapshot_name generation = None;
  un_journal : sd_journals d !! journal_name generation = None;
  un_head h : sd_head d = Some h -> sh_journal h <> journal_name generation /\ sh_snapshot h <> snapshot_name generation;
}.

Definition short (d : StreamDir) : Prop :=
  forall name frames, sd_journals d !! name = Some frames -> Z.of_nat (length frames) < u64_max.

Lemma stored_unique d h base frames h' base' frames' : stored d h base frames -> stored d h' base' frames' ->
  h' = h /\ base' = base /\ frames' = frames.
Proof. intros [H1 H2 H3 H4] [G1 G2 G3 G4]. assert (h' = h) as -> by congruence. split; [done|]. split; congruence. Qed.

(** What the directory holds decides whether it is well formed. *)
Lemma dir_ok_stored d h base frames c : stored d h base frames -> replay_frames_of frames base = Ok c -> chat_ok c ->
  (forall l c ms b lookup, sd_legacy d = Some l -> load_history l = Ok c -> externalize_messages (ch_messages c) = Some (ms, b) ->
    chat_ok (set_chat_messages (add_missing_dimensions lookup ms) c)) -> dir_ok d.
Proof.
  intros Hst Hr Hc Hl. split; [|done]. intros c' files d' Hload. apply load_spec in Hload as (h' & base' & frames' & Hst' & Hr' & _).
  destruct (stored_unique _ _ _ _ _ _ _ Hst Hst') as (-> & -> & ->). congruence.
Qed.

Lemma holds_inv d c files : holds d c files -> exists h base frames,
  stored d h base frames /\ replay_frames_of frames base = Ok c /\ files = files_of h base frames /\
  sd_journals d !! sh_journal h = (match frames with [] => None | _ => Some frames end).
Proof.
  intros (h & base & frames & Hst & Hr & Hf & Hrep)%load_spec. exists h, base, frames. split; [done|]. split; [done|]. split; [done|].
  destruct Hst as [_ _ _ Hj]. unfold repaired in Hrep. destruct (sd_journals d !! sh_journal h) as [[|f fs]|] eqn:E; cbn in Hj; subst frames; try done.
  rewrite Hrep in E. cbn in E. by rewrite lookup_delete_eq in E.
Qed.

Lemma holds_intro d h base frames c : stored d h base frames -> replay_frames_of frames base = Ok c ->
  sd_journals d !! sh_journal h <> Some [] -> holds d c (files_of h base frames).
Proof.
  intros Hst Hr Hj. apply load_spec. exists h, base, frames. split_and!; try done. unfold repaired.
  by destruct (sd_journals d !! sh_journal h) as [[|]|].
Qed.

Lemma set_journal_stored d h base frames fs : stored d h base frames -> stored (set_journal (sh_journal h) fs d) h base fs.
Proof. intros [H1 H2 H3 H4]. split; try done. cbn. by rewrite lookup_insert_eq. Qed.

Lemma set_journal_unused g d h base frames fs : stored d h base frames -> unused g d -> unused g (set_journal (sh_journal h) fs d).
Proof.
  intros Hst [U1 U2 U3]. split; [done| |done]. cbn. rewrite lookup_insert_ne; [done|]. by apply (proj1 (U3 _ (so_head _ _ _ _ Hst))).
Qed.

(** The files of a history with one more frame. *)
Lemma files_snoc h base frames f : Z.of_nat (length frames) < u64_max ->
  files_of h base (frames ++ [f])
  = mkFiles (sh_journal h) (snapshot_size base) (journal_size (frames ++ [f])) (u64_add (Z.of_nat (length frames)) 1).
Proof.
  intros Hb. unfold files_of. rewrite u64_add_small by (unfold is_u64, u64_max in *; lia). rewrite length_app. cbn [length].
  replace (Z.of_nat (length frames + 1)) with (Z.of_nat (length frames) + 1) by lia. by destruct (frames ++ [f]) eqn:E; [destruct frames|].
Qed.

Lemma append_ok fault files c0 c ops d r d' : dir_ok d -> holds d c0 files -> apply_operations_of ops c0 = Ok c -> chat_ok c ->
  short d -> append_frame fault files c ops d = (r, d') ->
  dir_ok d' /\ (forall g, unused g d -> unused g d') /\ match r with Ok files' => holds d' c files' | Err _ => True end.
Proof.
  intros Hd Hh Ho Hc Hs. pose proof (do_chat _ Hd _ _ _ Hh) as Hc0. pose proof (do_legacy _ Hd) as Hleg.
  apply holds_inv in Hh as (h & base & frames & Hst & Hr & -> & Hj).
  set (frame := mkFrame FRAME_FORMAT_VERSION STREAM_SCHEMA_VERSION (u64_saturating_add (Z.of_nat (length frames)) 1) (ch_revision c) ops).
  pose proof (appended_frame frames base c0 c (u64_saturating_add (Z.of_nat (length frames)) 1) ops Hr Ho) as Hnew. fold frame in Hnew.
  pose proof (set_journal_stored d h base frames (frames ++ [frame]) Hst) as Hst1.
  pose proof (set_journal_stored d h base frames frames Hst) as Hst0.
  assert (dir_ok (set_journal (sh_journal h) (frames ++ [frame]) d)) as Hok1 by (by eapply dir_ok_stored).
  assert (dir_ok (set_journal (sh_journal h) frames d)) as Hok0 by (by eapply dir_ok_stored).
  assert (Z.of_nat (length frames) < u64_max) as Hb by (destruct frames; [done|]; by eapply Hs).
  assert (holds (set_journal (sh_journal h) (frames ++ [frame]) d) c
    (mkFiles (sh_journal h) (snapshot_size base) (journal_size (frames ++ [frame])) (u64_add (Z.of_nat (length frames)) 1))) as Hnewh.
  { rewrite <- files_snoc by done. apply holds_intro; [done|done|]. cbn. rewrite lookup_insert_eq. by destruct frames. }
  unfold append_frame. cbn [sf_journal sf_journal_frames files_of sf_snapshot_bytes]. fold frame. rewrite Hj.
  destruct frames as [|f fs]; cbn [length].
  - rewrite bool_decide_eq_true_2 by done. destruct fault; intros [= <- <-]; split_and!; eauto using set_journal_unused.
  - rewrite bool_decide_eq_false_2 by lia. destruct fault; intros [= <- <-]; split_and!; eauto using set_journal_unused.
Qed.

Lemma snapshot_name_inj g g' : snapshot_name g = snapshot_name g' -> g = g'.
Proof. unfold snapshot_name. intros H. by apply (inj (String.append _)), (inj (String.append _)) in H. Qed.
Lemma journal_name_inj g g' : journal_name g = journal_name g' -> g = g'.
Proof. unfold journal_name. intros H. by apply (inj (String.append _)), (inj (String.append _)) in H. Qed.

Lemma dir_ok_same d d' : (forall h base frames, stored d' h base frames -> stored d h base frames) -> sd_legacy d' = sd_legacy d ->
  dir_ok d -> dir_ok d'.
Proof.
  intros Hst Hleg Hd. split; [|rewrite Hleg; apply Hd]. intros c files d'' (h & base & frames & Hs & Hr & _)%load_spec.
  eapply (do_chat _ Hd). apply load_spec. exists h, base, frames. by split_and!; [apply Hst| |..].
Qed.

(** The directory once the head names the new generation. *)
Lemma published_stored g c d : unused g d ->
  stored (set_head (mkHead STREAM_SCHEMA_VERSION (snapshot_name g) (journal_name g)) (set_snapshot (snapshot_name g) (STREAM_SCHEMA_VERSION, c) d))
    (mkHead STREAM_SCHEMA_VERSION (snapshot_name g) (journal_name g)) c [].
Proof. intros [U1 U2 U3]. split; try done; cbn; [by rewrite lookup_insert_eq|by rewrite U2]. Qed.

Lemma cleaned_stored removed g d base : stored d (mkHead STREAM_SCHEMA_VERSION (snapshot_name g) (journal_name g)) base [] ->
  sd_journals d !! journal_name g = None ->
  stored (remove_other_generations removed g d) (mkHead STREAM_SCHEMA_VERSION (snapshot_name g) (journal_name g)) base [].
Proof.
  intros [H1 H2 H3 H4] Hj. cbn in H3. split; try done; cbn.
  - apply map_lookup_filter_Some. split; [done|]. by left.
  - rewrite map_lookup_filter_None_2; [done|by left].
Qed.

Lemma snapshot_unused g g' s d : g' <> g -> unused g' d -> unused g' (set_snapshot (snapshot_name g) s d).
Proof.
  intros Hg [U1 U2 U3]. split; try done. cbn. rewrite lookup_insert_ne; [done|]. intros H. by apply snapshot_name_inj in H.
Qed.
Lemma head_unused g g' d : g' <> g -> unused g' d ->
  unused g' (set_head (mkHead STREAM_SCHEMA_VERSION (snapshot_name g) (journal_name g)) d).
Proof.
  intros Hg [U1 U2 U3]. split; try done. cbn. intros h [= <-]. cbn. split; intros H; [apply journal_name_inj in H|apply snapshot_name_inj in H]; by subst.
Qed.
Lemma cleaned_unused removed g g' d : unused g' d -> unused g' (remove_other_generations removed g d).
Proof. intros [U1 U2 U3]. split; [| |done]; cbn; apply map_lookup_filter_None_2; by left. Qed.

Lemma publish_ok fault g c d r d' : dir_ok d -> chat_ok c -> unused g d -> publish_generation fault g c d = (r, d') ->
  dir_ok d' /\ (forall g', g' <> g -> unused g' d -> unused g' d') /\ sd_legacy d' = sd_legacy d /\ (short d -> short d') /\
  match r with Ok files => holds d' c files | Err _ => True end.
Proof.
  intros Hd Hc Hun. pose proof (do_legacy _ Hd) as Hleg. unfold publish_generation.
  set (h := mkHead STREAM_SCHEMA_VERSION (snapshot_name g) (journal_name g)). pose proof (published_stored g c d Hun) as Hpub. fold h in Hpub.
  assert (dir_ok (set_snapshot (snapshot_name g) (STREAM_SCHEMA_VERSION, c) d)) as Hd1.
  { apply (dir_ok_same d); [|done|exact Hd]. intros h' base frames [H1 H2 H3 H4]. split; try done. cbn in H3.
    rewrite lookup_insert_ne in H3; [done|]. intros H. by apply (proj2 (un_head _ _ Hun _ H1)). }
  assert (dir_ok (set_head h (set_snapshot (snapshot_name g) (STREAM_SCHEMA_VERSION, c) d))) as Hd2 by (by eapply dir_ok_stored).
  pose proof (cleaned_stored (pf_removed fault) g _ c Hpub (un_journal _ _ Hun)) as Hcl.
  destruct (pf_snapshot fault); [|intros [= <- <-]; split_and!; eauto using snapshot_unused..].
  destruct (pf_head fault); intros [= <- <-]; (split_and!; [|..]; eauto using snapshot_unused, head_unused, cleaned_unused).
  - by eapply dir_ok_stored.
  - intros Hs name frames [Hf _]%map_lookup_filter_Some. by eapply Hs.
  - apply (holds_intro _ h c []); [done|done|]. cbn. rewrite map_lookup_filter_None_2; [done|]. left. apply Hun.
Qed.

(** The next generation holds what the last one held, also when it is not finished. *)
Lemma publish_keeps fault g c d files r d' : unused g d -> holds d c files -> publish_generation fault g c d = (r, d') ->
  exists files' d'', load d' = Ok (c, files', d'').
Proof.
  intros Hun Hh. pose proof (published_stored g c d Hun) as Hpub. set (h := mkHead _ _ _) in Hpub.
  apply holds_inv in Hh as (h0 & base & frames & Hst & Hr & _ & _).
  assert (stored (set_snapshot (snapshot_name g) (STREAM_SCHEMA_VERSION, c) d) h0 base frames) as Hold.
  { destruct Hst as [H1 H2 H3 H4]. split; try done. cbn. rewrite lookup_insert_ne; [done|]. intros E. by apply (proj2 (un_head _ _ Hun _ H1)). }
  assert (forall d1 h1 base1 frames1, stored d1 h1 base1 frames1 -> replay_frames_of frames1 base1 = Ok c ->
    exists files' d'', load d1 = Ok (c, files', d'')) as Hload.
  { intros d1 h1 base1 frames1 Hs1 Hr1. eexists _, _. apply load_spec. by exists h1, base1, frames1. }
  unfold publish_generation. destruct (pf_snapshot fault); [|intros [= <- <-]; by eapply Hload..].
  destruct (pf_head fault); intros [= <- <-]; try by eapply Hload.
  eapply (Hload _ h c []); [|done]. apply cleaned_stored; [done|]. apply Hun.
Qed.

Lemma migrate_ok fault g kept lookup d r d' : dir_ok d -> unused g d -> migrate fault g kept lookup d = (r, d') ->
  dir_ok d' /\ (forall g', g' <> g -> unused g' d -> unused g' d') /\ (short d -> short d') /\
  match r with Ok (c, files) => holds d' c files | Err _ => True end.
Proof.
  intros Hd Hun. unfold migrate. destruct (sd_legacy d) as [l|] eqn:El; [|by intros [= <- <-]].
  destruct (load_history l) as [c|] eqn:Ec; [|by intros [= <- <-]].
  destruct (externalize_messages (ch_messages c)) as [[ms b]|] eqn:Em; [|by intros [= <- <-]].
  destruct (publish_generation fault g _ d) as [rp dp] eqn:Ep.
  destruct (publish_ok _ _ _ _ _ _ Hd (do_legacy _ Hd _ _ _ _ lookup El Ec Em) Hun Ep) as (Hdp & Hunp & Hlegp & Hsp & Hres).
  destruct rp as [files|e]; [|by intros [= <- <-]]. unfold holds in Hres. rewrite Hres. intros [= <- <-].
  set (d' := mkDir _ _ _ _). assert (holds d' (set_chat_messages (add_missing_dimensions lookup ms) c) files) as Hh.
  { apply holds_inv in Hres as (h & base & frames & [H1 H2 H3 H4] & Hr & -> & Hj). apply holds_intro; [by split|done|].
    cbn. rewrite Hj. by destruct frames. }
  split_and!; try done.
  - split; [|intros l' c' ms' b' lookup'; cbn; destruct kept; [apply (do_legacy _ Hdp)|done]].
    intros c' files' d'' Hl'. unfold holds in Hh. rewrite Hh in Hl'. injection Hl' as <- <- <-. by apply (do_chat _ Hdp _ _ _ Hres).
  - intros g' Hg U. by destruct (Hunp g' Hg U).
Qed.

(** *** Durable revisions *)

Definition durable (d : StreamDir) (revision : Z) : Prop :=
  exists c files d', load d = Ok (c, files, d') /\ revision <= ch_revision c.

(** A change of a directory that loses no revision. *)
Definition keeps (d d' : StreamDir) : Prop := forall revision, durable d revision -> durable d' revision.

#[local] Instance keeps_preorder : PreOrder keeps.
Proof. split; [by intros d r|]. intros d1 d2 d3 H1 H2 r H. by apply H2, H1. Qed.

Lemma keeps_loaded d d' c c' files files' x y : load d = Ok (c, files, x) -> load d' = Ok (c', files', y) ->
  ch_revision c <= ch_revision c' -> keeps d d'.
Proof. intros H1 H2 Hle r (c1 & f1 & x1 & Hl & Hr). exists c', files', y. split; [done|]. rewrite H1 in Hl. injection Hl as <- _ _. lia. Qed.

Lemma keeps_nothing d d' : sd_head d = None -> keeps d d'.
Proof. intros Hn r (c & f & x & (h & base & frames & [Hh _ _ _] & _)%load_spec & _). congruence. Qed.

Lemma operations_revision ops c c' : ch_revision c <= u64_max -> apply_operations_of ops c = Ok c' -> ch_revision c <= ch_revision c'.
Proof.
  revert c. induction ops as [|op ops IH]; intros c Hc; cbn [apply_operations_of]; [by intros [= <-]|].
  destruct (apply_stream op c) as [c1|] eqn:E; cbn [result_bind]; [|done]. apply stream_revision in E. intros H.
  apply IH in H; rewrite E in *; unfold u64_saturating_add in *; lia.
Qed.

Lemma append_keeps fault files c0 c ops d r d' : holds d c0 files -> chat_ok c0 -> apply_operations_of ops c0 = Ok c ->
  append_frame fault files c ops d = (r, d') -> keeps d d'.
Proof.
  intros Hh Hc Ho. pose proof (operations_revision _ _ _ (co_revision _ Hc) Ho) as Hle. pose proof Hh as Hload.
  apply holds_inv in Hh as (h & base & frames & Hst & Hr & -> & Hj).
  assert (forall d1 frames1 c1, stored d1 h base frames1 -> replay_frames_of frames1 base = Ok c1 -> ch_revision c0 <= ch_revision c1 -> keeps d d1) as Hk.
  { intros d1 frames1 c1 Hs1 Hr1 H1. eapply keeps_loaded; [exact Hload| |exact H1]. apply load_spec. by exists h, base, frames1. }
  pose proof (appended_frame frames base c0 c (u64_saturating_add (Z.of_nat (length frames)) 1) ops Hr Ho) as Hnew.
  pose proof (set_journal_stored d h base frames) as Hset.
  unfold append_frame. cbn [sf_journal sf_journal_frames files_of sf_snapshot_bytes]. rewrite Hj.
  destruct frames as [|f fs]; cbn [length].
  - rewrite bool_decide_eq_true_2 by done. destruct fault; intros [= <- <-]; try done; eapply Hk; eauto; lia.
  - rewrite bool_decide_eq_false_2 by lia. destruct fault; intros [= <- <-]; try done; eapply Hk; eauto; lia.
Qed.

(** ** Batches *)

Lemma stream_dir_eq id d td : stream_dir (set_stream_dir id d td) id = d.
Proof. unfold stream_dir. cbn. by rewrite lookup_insert_eq. Qed.
Lemma stream_dir_ne id id' d td : id <> id' -> stream_dir (set_stream_dir id d td) id' = stream_dir td id'.
Proof. intros H. unfold stream_dir. cbn. by rewrite lookup_insert_ne. Qed.

Definition grows (td td' : TaskDir) : Prop := forall id, keeps (stream_dir td id) (stream_dir td' id).

#[local] Instance grows_preorder : PreOrder grows.
Proof. split; [by intros td id|]. intros t1 t2 t3 H1 H2 id. etrans; [apply H1|apply H2]. Qed.

Lemma grows_at id d td : keeps (stream_dir td id) d -> grows td (set_stream_dir id d td).
Proof. intros Hk id'. destruct (decide (id = id')) as [<- |E]; [by rewrite stream_dir_eq|by rewrite stream_dir_ne]. Qed.

Lemma grows_same td td' : td_streams td' = td_streams td -> grows td td'.
Proof. intros E id. unfold stream_dir. by rewrite E. Qed.

Lemma open_grows fault id ts td r ts' td' : dir_ok (stream_dir td id) -> open_history fault id ts td = (r, ts', td') -> grows td td'.
Proof.
  intros Hd. unfold open_history. destruct (of_read fault); [by intros [= <- <- <-]|].
  destruct (exists_stream _) eqn:Ex.
  - destruct (load (stream_dir td id)) as [[[c files] d']|e] eqn:El; intros [= <- <- <-]; [|done]. apply grows_at.
    destruct (load_repaired _ _ _ _ Hd El) as (Hh & _). by eapply keeps_loaded.
  - destruct (sd_legacy _); [|by intros [= <- <- <-]].
    destruct (if bool_decide _ then _ else _) as [[rc catalog] td1] eqn:Ecat.
    assert (td_streams td1 = td_streams td) as E1.
    { revert Ecat. unfold write_catalog. case_bool_decide; [|by intros [= <- <- <-]]. destruct (of_catalog fault); by intros [= <- <- <-]. }
    destruct rc as [u|e]; [|intros [= <- <- <-]; by apply grows_same].
    destruct (migrate _ _ _ _ _) as [rm dm]. intros H. trans (set_stream_dir id dm td1);
      [etrans; [by apply grows_same|]; apply grows_at, keeps_nothing; unfold stream_dir, exists_stream in *; rewrite E1; by destruct (sd_head _)|].
    by destruct rm as [[c files]|e]; injection H as <- <- <-.
Qed.

(** What opening a history outside of a batch changes. *)
Lemma open_dirs fault id ts td r ts' td' : dir_ok (stream_dir td id) -> unused (of_generation fault) (stream_dir td id) ->
  open_history fault id ts td = (r, ts', td') ->
  dir_ok (stream_dir td' id) /\ (forall id', id' <> id -> stream_dir td' id' = stream_dir td id') /\ ts_histories ts' = ts_histories ts.
Proof.
  intros Hd Hun. unfold open_history. destruct (of_read fault); [by intros [= <- <- <-]|]. destruct (exists_stream _).
  - destruct (load (stream_dir td id)) as [[[c files] d']|e] eqn:El; intros [= <- <- <-]; [|done].
    destruct (load_repaired _ _ _ _ Hd El) as (_ & Hd' & _). rewrite stream_dir_eq. split; [done|]. split; [|done]. intros id' E. by rewrite stream_dir_ne.
  - destruct (sd_legacy _); [|by intros [= <- <- <-]].
    destruct (if bool_decide _ then _ else _) as [[rc catalog] td1] eqn:Ecat.
    assert (td_streams td1 = td_streams td) as E1.
    { revert Ecat. unfold write_catalog. case_bool_decide; [|by intros [= <- <- <-]]. destruct (of_catalog fault); by intros [= <- <- <-]. }
    assert (forall i, stream_dir td1 i = stream_dir td i) as E2 by (intros i; unfold stream_dir; by rewrite E1).
    destruct rc as [u|e]; [|intros [= <- <- <-]; by rewrite E2].
    destruct (migrate _ _ _ _ _) as [rm dm] eqn:Em. destruct (migrate_ok _ _ _ _ _ _ _ Hd Hun Em) as (Hdm & _).
    intros H. assert (td' = set_stream_dir id dm td1 /\ ts_histories ts' = ts_histories ts) as [-> ->] by (by destruct rm as [[c files]|e]; injection H as <- <- <-).
    rewrite stream_dir_eq. split; [done|]. split; [|done]. intros id' E. by rewrite stream_dir_ne.
Qed.

Lemma apply_operations_snoc ops sop c : apply_operations_of (ops ++ [sop]) c = (let? c := apply_operations_of ops c in apply_stream sop c).
Proof.
  revert c. induction ops as [|op ops IH]; intros c; cbn [app apply_operations_of].
  - cbn [result_bind]. by destruct (apply_stream sop c).
  - destruct (apply_stream op c); cbn [result_bind]; [apply IH|done].
Qed.

(** Fresh names: every generation and every Subagent gets its own. *)
Record distinct_names (f : BatchFaults) : Prop := mkDistinct {
  dn_open i j : of_generation (bf_open f i) = of_generation (bf_open f j) -> i = j;
  dn_spawn i j : bf_spawn_generation f i = bf_spawn_generation f j -> i = j;
  dn_open_spawn i j : of_generation (bf_open f i) <> bf_spawn_generation f j;
  dn_compact_open id i : bf_generation f id <> of_generation (bf_open f i);
  dn_compact_spawn id i : bf_generation f id <> bf_spawn_generation f i;
  dn_ids i j : bf_spawn_id f i = bf_spawn_id f j -> i = j;
}.

Section Batch.
Context (faults : BatchFaults) (task_id : string) (Hnames : distinct_names faults).

(** The names of the writes from [index] on are not in use. *)
Definition ready (index : nat) (d : StreamDir) : Prop :=
  (forall j, (index <= j)%nat -> unused (of_generation (bf_open faults j)) d /\ unused (bf_spawn_generation faults j) d) /\
  (forall id, unused (bf_generation faults id) d).

Definition pending_ops (w : Work) (id : string) : list StreamOperation :=
  match bs_pending (wk_batch w) !! id with Some p => ph_operations p | None => [] end.

(** A published revision waits for its history to be written, or is given up. *)
Definition revision_kept (w : Work) (k : nat) (r : CommittedSubagentRevision) : Prop :=
  (exists a, a ∈ bs_abandoned (wk_batch w) /\ k ∈ ph_revisions a) \/
  (exists p o, bs_pending (wk_batch w) !! cr_subagent_id r = Some p /\ k ∈ ph_revisions p /\
    ts_histories (wk_task w) !! cr_subagent_id r = Some o /\ cr_revision r <= ch_revision (oh_chat o)).

Record work_ok (index : nat) (w : Work) : Prop := mkWorkOk {
  wi_dir id : dir_ok (stream_dir (wk_dir w) id);
  wi_ready id : ready index (stream_dir (wk_dir w) id);
  wi_short id : short (stream_dir (wk_dir w) id);
  wi_open id o : ts_histories (wk_task w) !! id = Some o ->
    exists c0, holds (stream_dir (wk_dir w) id) c0 (oh_files o) /\
      apply_operations_of (pending_ops w id) c0 = Ok (oh_chat o) /\ chat_ok (oh_chat o);
  wi_pending id p : bs_pending (wk_batch w) !! id = Some p ->
    is_Some (ts_histories (wk_task w) !! id);
  wi_unopened j : (index <= j)%nat -> ts_histories (wk_task w) !! bf_spawn_id faults j = None;
  wi_fresh j : (index <= j)%nat -> stream_dir (wk_dir w) (bf_spawn_id faults j) = no_dir;
  wi_entries j : (index <= j)%nat -> bf_spawn_id faults j ∉ sr_subagent_id <$> ca_entries (ts_catalog (wk_task w));
  wi_revisions k r : bs_revisions (wk_batch w) !! k = Some r -> revision_kept w k r;
}.

Lemma ready_later index d : ready index d -> ready (S index) d.
Proof. intros [H1 H2]. split; [|done]. intros j Hj. apply H1. lia. Qed.

Lemma work_later index w : work_ok index w -> work_ok (S index) w.
Proof.
  intros [H1 H2 H3 H4 H5 H5' H8 H6 H7]. split; auto using ready_later.
  - intros j Hj. apply H5'. lia.
  - intros j Hj. apply H8. lia.
  - intros j Hj. apply H6. lia.
Qed.

(** A generation published for the write at [index]. *)
Lemma ready_publish index g d d' : (g = of_generation (bf_open faults index) \/ g = bf_spawn_generation faults index) ->
  ready index d -> (forall g', g' <> g -> unused g' d -> unused g' d') -> ready (S index) d'.
Proof.
  intros Hg [H1 H2] Hun. split.
  - intros j Hj. destruct (H1 j ltac:(lia)) as [U1 U2]. split; apply Hun; try done; destruct Hg as [-> | ->].
    + intros E. apply (dn_open _ Hnames) in E. lia.
    + apply (dn_open_spawn _ Hnames).
    + intros E. by apply (dn_open_spawn _ Hnames index j).
    + intros E. apply (dn_spawn _ Hnames) in E. lia.
  - intros id. apply Hun; [|done]. destruct Hg as [-> | ->]; [apply (dn_compact_open _ Hnames)|apply (dn_compact_spawn _ Hnames)].
Qed.

(** Changes of the catalog that keep the ids of the Subagents. *)
Definition same_files (w w' : Work) : Prop :=
  wk_dir w' = wk_dir w /\ ts_histories (wk_task w') = ts_histories (wk_task w) /\
  bs_pending (wk_batch w') = bs_pending (wk_batch w) /\ bs_abandoned (wk_batch w') = bs_abandoned (wk_batch w) /\
  bs_revisions (wk_batch w') = bs_revisions (wk_batch w).

Lemma work_same index w w' : same_files w w' ->
  (forall j, (index <= j)%nat -> bf_spawn_id faults j ∉ sr_subagent_id <$> ca_entries (ts_catalog (wk_task w'))) ->
  work_ok index w -> work_ok index w'.
Proof.
  intros (E1 & E2 & E3 & E4 & E5) Hent [H1 H2 H3 H4 H5 H5' H8 H6 H7]. split; try done.
  - intros id. by rewrite E1.
  - intros id. by rewrite E1.
  - intros id. by rewrite E1.
  - intros id o Ho. rewrite E2 in Ho. unfold pending_ops. rewrite E1, E3. by apply H4.
  - intros id p Hp. rewrite E3 in Hp. rewrite E2. by apply H5 with p.
  - intros j Hj. rewrite E2. by apply H5'.
  - intros j Hj. rewrite E1. by apply H8.
  - intros k r Hr. rewrite E5 in Hr. unfold revision_kept. rewrite E2, E3, E4. by apply H7.
Qed.

Lemma update_entry_ids p f entries : (forall r, sr_subagent_id (f r) = sr_subagent_id r) ->
  sr_subagent_id <$> update_entry p f entries = sr_subagent_id <$> entries.
Proof.
  intros Hf. induction entries as [|e entries IH]; [done|]. cbn [update_entry]. destruct (p e); rewrite !fmap_cons, ?Hf, ?IH; done.
Qed.

Lemma bump_ok index persist w : work_ok index w -> work_ok index (bump_catalog persist w).
Proof. intros H. apply (work_same _ w); [done| |done]. apply H. Qed.

Lemma patch_ok index p f w : (forall r, sr_subagent_id (f r) = sr_subagent_id r) -> work_ok index w -> work_ok index (patch_entry p f w).
Proof.
  intros Hf H. apply (work_same _ w); [done| |done]. intros j Hj. cbn. rewrite update_entry_ids by done. by apply H.
Qed.

(** A directory that no open history uses may change. *)
Lemma dir_changed index w id d ts td : work_ok index w -> ts_histories (wk_task w) !! id = None ->
  td_streams td = <[id := d]> (td_streams (wk_dir w)) ->
  ts_histories ts = ts_histories (wk_task w) ->
  sr_subagent_id <$> ca_entries (ts_catalog ts) = sr_subagent_id <$> ca_entries (ts_catalog (wk_task w)) ->
  dir_ok d -> short d -> ready (S index) d -> (forall j, (S index <= j)%nat -> id <> bf_spawn_id faults j) ->
  work_ok (S index) (mkWork_ ts td (wk_batch w)).
Proof.
  intros Hw Hnone Htd Hh Hids Hd Hs Hr Hid. apply work_later in Hw as [H1 H2 H3 H4 H5 H5' H8 H6 H7].
  assert (forall id', id' <> id -> stream_dir td id' = stream_dir (wk_dir w) id') as Hne
    by (intros id' E; unfold stream_dir; by rewrite Htd, lookup_insert_ne by done).
  assert (stream_dir td id = d) as Heq by (unfold stream_dir; by rewrite Htd, lookup_insert_eq).
  split; cbn [wk_dir wk_task wk_batch].
  - intros id'. destruct (decide (id' = id)) as [-> |E]; [by rewrite Heq|by rewrite Hne].
  - intros id'. destruct (decide (id' = id)) as [-> |E]; [by rewrite Heq|by rewrite Hne].
  - intros id'. destruct (decide (id' = id)) as [-> |E]; [by rewrite Heq|by rewrite Hne].
  - intros id' o Ho. rewrite Hh in Ho. rewrite Hne; [by apply H4|]. intros ->. congruence.
  - intros id' p Hp. rewrite Hh. by apply H5 with p.
  - intros j Hj. rewrite Hh. by apply H5'.
  - intros j Hj. rewrite Hne; [by apply H8|]. intros E. by apply (Hid j Hj).
  - intros j Hj. rewrite Hids. by apply H6.
  - intros k r Hk. unfold revision_kept. cbn. rewrite Hh. by apply H7.
Qed.

Lemma legacy_ready index d d' : ready index d -> sd_head d' = sd_head d -> sd_snapshots d' = sd_snapshots d ->
  (forall name, sd_journals d' !! name = sd_journals d !! name \/ sd_journals d' !! name = None) -> ready (S index) d'.
Proof.
  intros Hr Hh Hs Hj. apply ready_later in Hr as [R1 R2].
  assert (forall g, unused g d -> unused g d') as Hun.
  { intros g [U1 U2 U3]. split; [by rewrite Hs| |by rewrite Hh]. destruct (Hj (journal_name g)) as [-> | ->]; done. }
  split; [|auto]. intros j Hj'. destruct (R1 j Hj'). auto.
Qed.

Lemma repaired_ready index h d : ready index d -> ready (S index) (repaired h d).
Proof.
  intros Hr. eapply legacy_ready; [exact Hr|..]; unfold repaired; try by destruct (sd_journals d !! sh_journal h) as [[|]|].
  intros name. destruct (sd_journals d !! sh_journal h) as [[|]|]; auto. cbn.
  destruct (decide (name = sh_journal h)) as [-> |]; [rewrite lookup_delete_eq; auto|rewrite lookup_delete_ne; auto].
Qed.

Lemma repaired_short h d : short d -> short (repaired h d).
Proof.
  intros Hs. unfold repaired. destruct (sd_journals d !! sh_journal h) as [[|]|]; try done. intros name frames Hf.
  cbn in Hf. apply lookup_delete_Some in Hf as [_ Hf]. by eapply Hs.
Qed.

Lemma correct_ids id c (ts : TaskSubagents) :
  sr_subagent_id <$> update_entry (has_id id) (fun r => set_record_history (ch_revision c) (sr_history_available r) r) (ca_entries (ts_catalog ts))
  = sr_subagent_id <$> ca_entries (ts_catalog ts).
Proof. by apply update_entry_ids. Qed.

Lemma open_work_ok index id w r ts td : work_ok index w -> ts_histories (wk_task w) !! id = None ->
  (forall j, (S index <= j)%nat -> id <> bf_spawn_id faults j) ->
  open_history (bf_open faults index) id (wk_task w) (wk_dir w) = (r, ts, td) ->
  work_ok (S index) (mkWork_ ts td (wk_batch w)) /\ ts_histories ts = ts_histories (wk_task w) /\
  match r with Ok o => holds (stream_dir td id) (oh_chat o) (oh_files o) /\ chat_ok (oh_chat o) | Err _ => True end.
Proof.
  intros Hw Hnone Hid. unfold open_history. set (d := stream_dir (wk_dir w) id).
  pose proof (wi_dir _ _ Hw id) as Hd. pose proof (wi_ready _ _ Hw id) as Hr. pose proof (wi_short _ _ Hw id) as Hs. fold d in Hd, Hr, Hs.
  assert (forall ts' td' (e : RuntimeError), ts_histories ts' = ts_histories (wk_task w) ->
    sr_subagent_id <$> ca_entries (ts_catalog ts') = sr_subagent_id <$> ca_entries (ts_catalog (wk_task w)) ->
    td_streams td' = td_streams (wk_dir w) -> (Err e, ts', td') = (r, ts, td) ->
    work_ok (S index) (mkWork_ ts td (wk_batch w)) /\ ts_histories ts = ts_histories (wk_task w) /\
    match r with Ok o => holds (stream_dir td id) (oh_chat o) (oh_files o) /\ chat_ok (oh_chat o) | Err _ => True end) as Herr.
  { intros ts' td' e E1 E2 E3 [= <- <- <-]. split; [|done]. apply work_later.
    apply (work_same _ (mkWork_ (wk_task w) td' (wk_batch w))); [done| |].
    - intros j Hj. cbn. rewrite E2. by apply Hw.
    - destruct Hw as [H1 H2 H3 H4 H5 H5' H8 H6 H7]. assert (forall i, stream_dir td' i = stream_dir (wk_dir w) i) as Hsd
        by (intros i; unfold stream_dir; by rewrite E3). split; cbn [wk_dir wk_task wk_batch]; intros *; rewrite ?Hsd; eauto. }
  destruct (of_read (bf_open faults index)) as [e|]; [by apply Herr|].
  destruct (exists_stream d).
  - destruct (load d) as [[[c files] d']|e] eqn:El; [|by apply Herr]. intros [= <- <- <-].
    pose proof (do_chat _ Hd _ _ _ El) as Hc. destruct (load_repaired _ _ _ _ Hd El) as (Hh & Hd' & _).
    apply load_spec in El as (h & base & frames & _ & _ & _ & ->).
    split; [|split; [done|]; split; [by rewrite stream_dir_eq|done]].
    apply (dir_changed _ _ id (repaired h d)); try done; [cbn; by apply correct_ids|by apply repaired_short|by apply repaired_ready].
  - destruct (sd_legacy d) as [l|] eqn:Eleg; [|by apply Herr].
    destruct (if bool_decide (ca_schema_version (ts_catalog (wk_task w)) < CATALOG_SCHEMA_VERSION) then _ else _) as [[rc catalog] td1] eqn:Ecat.
    assert (td_streams td1 = td_streams (wk_dir w) /\ ca_entries catalog = ca_entries (ts_catalog (wk_task w))) as [E1 E2].
    { revert Ecat. unfold write_catalog. case_bool_decide; [|by intros [= <- <- <-]].
      destruct (of_catalog (bf_open faults index)); by intros [= <- <- <-]. }
    destruct rc as [u|e]; [|apply Herr; cbn; by rewrite ?E2].
    destruct (migrate _ _ _ _ d) as [rm dm] eqn:Em.
    destruct (migrate_ok _ _ _ _ _ _ _ Hd (proj1 (proj1 Hr index ltac:(lia))) Em) as (Hdm & Hun & Hsm & Hres).
    assert (ready (S index) dm) as Hrm by (eapply ready_publish; [by left|exact Hr|done]).
    destruct rm as [[c files]|e].
    + intros [= <- <- <-]. split; [|split; [done|]; rewrite stream_dir_eq; split; [done|by apply (do_chat _ Hdm _ _ _ Hres)]].
      apply (dir_changed _ _ id dm); try done; [cbn; by rewrite E1| |by apply Hsm]. cbn. rewrite update_entry_ids by done. by rewrite E2.
    + intros [= <- <- <-]. split; [|done]. apply (dir_changed _ _ id dm); try done; [cbn; by rewrite E1|cbn; by rewrite E2|by apply Hsm].
Qed.

(** ** Writes of a batch *)

Lemma queued_ops id index sop r w id' : pending_ops (set_work_batch (queue_operation id index sop r) w) id'
  = if decide (id = id') then pending_ops w id' ++ [sop] else pending_ops w id'.
Proof.
  unfold pending_ops, queue_operation. cbn. destruct (decide (id = id')) as [<- |E];
    [rewrite lookup_insert_eq; by destruct (bs_pending (wk_batch w) !! id)|by rewrite lookup_insert_ne].
Qed.

Lemma queued_revision id index sop r w o c k r' : ts_histories (wk_task w) !! id = Some o -> ch_revision (oh_chat o) <= ch_revision c ->
  cr_subagent_id r = id -> cr_revision r <= ch_revision c ->
  (forall k r, bs_revisions (wk_batch w) !! k = Some r -> revision_kept w k r) ->
  let w' := set_work_batch (queue_operation id index sop r) (set_work_histories <[id := mkOpen c (oh_files o)]> w) in
  bs_revisions (wk_batch w') !! k = Some r' -> revision_kept w' k r'.
Proof.
  intros Ho Hc Hid Hr Hall w' Hk. cbn in Hk. unfold revision_kept, w'. cbn. apply lookup_app_Some in Hk as [Hk|[Hge Hk]].
  - destruct (Hall _ _ Hk) as [Ha|(p & o' & Hp & Hin & Ho' & Hle)]; [by left|]. right.
    destruct (decide (id = cr_subagent_id r')) as [E|E].
    + rewrite <- E in *. rewrite Hp, !lookup_insert_eq. cbn. eexists _, _. split; [done|]. split; [set_solver|]. split; [done|]. cbn.
      assert (o' = o) as -> by congruence. lia.
    + rewrite !lookup_insert_ne by done. by exists p, o'.
  - apply list_lookup_singleton_Some in Hk as [Hk ->]. right. rewrite Hid, !lookup_insert_eq. eexists _, _. split; [done|].
    cbn. split; [|by split]. apply elem_of_app. right. apply list_elem_of_singleton. lia.
Qed.

(** A change of an open history is queued with it. *)
Lemma queued_ok index i id o c sop r w : work_ok index w -> ts_histories (wk_task w) !! id = Some o -> journaled (oh_chat o) c sop ->
  cr_subagent_id r = id -> cr_revision r = ch_revision c ->
  work_ok index (set_work_batch (queue_operation id i sop r) (set_work_histories <[id := mkOpen c (oh_files o)]> w)).
Proof.
  intros Hw Ho [Hj Hc] Hid Hr. pose proof (stream_revision _ _ _ Hj) as Hrev. destruct Hw as [H1 H2 H3 H4 H5 H5' H8 H6 H7].
  destruct (H4 _ _ Ho) as (c0 & Hh & Hops & Hco). pose proof (co_revision _ Hco) as Hmax. split; try done.
  - intros id' o' Ho'. rewrite queued_ops. cbn in *. destruct (decide (id = id')) as [<- |E].
    + rewrite lookup_insert_eq in Ho'. injection Ho' as <-. exists c0. cbn. split; [done|]. split; [|done].
      change (pending_ops _ id) with (pending_ops w id). by rewrite apply_operations_snoc, Hops.
    + rewrite lookup_insert_ne in Ho' by done. by apply H4.
  - cbn. intros id' p Hp. destruct (decide (id = id')) as [<- |E]; [by rewrite lookup_insert_eq|].
    cbn in Hp. rewrite lookup_insert_ne in Hp by done. rewrite lookup_insert_ne by done. by eapply H5.
  - cbn. intros j Hj'. rewrite lookup_insert_ne; [by apply H5'|]. intros ->. rewrite (H5' j Hj') in Ho. done.
  - intros k r' Hk. eapply (queued_revision id i sop r w o c); try done; [|lia].
    rewrite Hrev. unfold u64_saturating_add. lia.
Qed.

(** A history is closed and its queued changes are given up. *)
Lemma abandoned_ok index id w : work_ok index w -> work_ok index (set_work_batch (abandon id) (set_work_histories (delete id) w)).
Proof.
  intros [H1 H2 H3 H4 H5 H5' H8 H6 H7]. split; try done; cbn.
  - intros id' o [E Ho]%lookup_delete_Some. unfold pending_ops. cbn. rewrite lookup_delete_ne by done. by apply H4.
  - intros id' p [E Hp]%lookup_delete_Some. rewrite lookup_delete_ne by done. by eapply H5.
  - intros j Hj. apply lookup_delete_None. right. by apply H5'.
  - intros k r Hk. unfold revision_kept. cbn. destruct (H7 _ _ Hk) as [(a & Ha & Hin)|(p & o & Hp & Hin & Ho & Hle)].
    + left. exists a. split; [set_solver|done].
    + destruct (decide (id = cr_subagent_id r)) as [-> |E].
      * left. exists p. rewrite Hp. cbn. split; [set_solver|done].
      * right. rewrite !lookup_delete_ne by done. by exists p, o.
Qed.

Lemma write_open_ok index i write id o w r w' : work_ok index w -> ts_histories (wk_task w) !! id = Some o ->
  fresh_write (bf_images faults i) (bf_now faults i) (sw_operation write) (oh_chat o) -> write_open faults i write id o w = (r, w') ->
  work_ok index w'.
Proof.
  intros Hw Ho [Hfr Hpl]. unfold write_open. destruct (apply_history_write _ _ _ _) as [[[[c sop] change]|e]|] eqn:Ew.
  - destruct (wi_open _ _ Hw _ _ Ho) as (c0 & _ & _ & Hco). pose proof (write_journaled _ _ _ _ _ _ _ Hco Hfr Ew (Hpl _ _ _ eq_refl)) as Hj.
    intros [= <- <-]. apply bump_ok, patch_ok; [intros x; by case_bool_decide|]. by apply queued_ok.
  - intros [= <- <-]. by apply abandoned_ok.
  - by intros [= <- <-].
Qed.

(** A history that was just read or created is opened. *)
Lemma opened_ok index id o w : work_ok index w -> ts_histories (wk_task w) !! id = None ->
  holds (stream_dir (wk_dir w) id) (oh_chat o) (oh_files o) -> chat_ok (oh_chat o) ->
  (forall j, (index <= j)%nat -> id <> bf_spawn_id faults j) -> work_ok index (set_work_histories <[id := o]> w).
Proof.
  intros [H1 H2 H3 H4 H5 H5' H8 H6 H7] Hnone Hh Hc Hid.
  assert (bs_pending (wk_batch w) !! id = None) as Hp.
  { destruct (bs_pending (wk_batch w) !! id) eqn:E; [|done]. destruct (H5 _ _ E). congruence. }
  split; try done; cbn.
  - intros id' o' Ho. destruct (decide (id = id')) as [<- |E].
    + rewrite lookup_insert_eq in Ho. injection Ho as <-. exists (oh_chat o). unfold pending_ops. cbn. by rewrite Hp.
    + rewrite lookup_insert_ne in Ho by done. by apply H4.
  - intros id' p Hp'. destruct (decide (id = id')) as [<- |E]; [by rewrite lookup_insert_eq|]. rewrite lookup_insert_ne by done. by eapply H5.
  - intros j Hj. rewrite lookup_insert_ne by (by apply Hid). by apply H5'.
  - intros k r Hk. unfold revision_kept. cbn. destruct (H7 _ _ Hk) as [Ha|(p & o' & Hp' & Hin & Ho & Hle)]; [by left|].
    right. exists p, o'. rewrite lookup_insert_ne; [done|]. intros ->. congruence.
Qed.

Lemma empty_chat_ok : chat_ok (empty_chat task_id).
Proof. split; [constructor|constructor|done]. Qed.

Lemma spawn_ok index native parent name delegated capabilities details w r w' : work_ok index w ->
  spawn faults task_id index native parent name delegated capabilities details w = (r, w') -> work_ok (S index) w'.
Proof.
  intros Hw. unfold spawn. destruct (is_some _); [intros [= <- <-]; by apply work_later|].
  set (id := bf_spawn_id faults index). destruct (publish_generation _ _ _ _) as [rp d] eqn:Ep.
  pose proof (wi_unopened _ _ Hw index ltac:(lia)) as Hnone. fold id in Hnone.
  destruct (publish_ok _ _ _ _ _ _ (wi_dir _ _ Hw id) empty_chat_ok (proj2 (proj1 (wi_ready _ _ Hw id) index ltac:(lia))) Ep)
    as (Hd & Hun & _ & Hs & Hres).
  assert (forall j, (S index <= j)%nat -> id <> bf_spawn_id faults j) as Hid.
  { intros j Hj E. apply (dn_ids _ Hnames) in E. lia. }
  assert (ready (S index) d) as Hr by (eapply ready_publish; [by right|apply (wi_ready _ _ Hw id)|done]).
  assert (work_ok (S index) (mkWork_ (wk_task w) (set_stream_dir id d (wk_dir w)) (wk_batch w))) as Hw1
    by (apply (dir_changed _ _ id d); try done; apply Hs, Hw).
  destruct rp as [files|e]; intros [= <- <-]; [|done]. apply bump_ok.
  pose proof (opened_ok (S index) id (mkOpen (empty_chat task_id) files) _ Hw1 Hnone) as Hop. cbn [wk_dir oh_chat oh_files] in Hop.
  rewrite stream_dir_eq in Hop. specialize (Hop Hres empty_chat_ok Hid). refine (work_same _ _ _ _ _ Hop); [done|].
  cbn. intros j Hj. rewrite fmap_app. intros [Hin|Hin]%elem_of_app; [by apply (wi_entries _ _ Hw1 j Hj)|].
  apply list_elem_of_singleton in Hin. by apply (Hid j Hj).
Qed.

Lemma spawn_grows index native parent name delegated capabilities details w r w' : work_ok index w ->
  spawn faults task_id index native parent name delegated capabilities details w = (r, w') -> grows (wk_dir w) (wk_dir w').
Proof.
  intros Hw. unfold spawn. destruct (is_some _); [by intros [= <- <-]|]. destruct (publish_generation _ _ _ _) as [rp d].
  intros H. trans (set_stream_dir (bf_spawn_id faults index) d (wk_dir w)); [|by destruct rp; injection H as <- <-].
  apply grows_at, keeps_nothing. by rewrite (wi_fresh _ _ Hw index ltac:(lia)).
Qed.

Lemma write_open_dir i write id o w : wk_dir (write_open faults i write id o w).2 = wk_dir w.
Proof. unfold write_open. by destruct (apply_history_write _ _ _ _) as [[[[c sop] change]|e]|]. Qed.

Lemma apply_write_grows index write w r w' : work_ok index w -> apply_write faults task_id index write w = (r, w') -> grows (wk_dir w) (wk_dir w').
Proof.
  intros Hw. unfold apply_write. destruct (sw_operation write) eqn:Eop; [by apply spawn_grows|..].
  all: destruct (find_entry _ _) as [record|]; [|by intros [= <- <-]]; cbn [changes_history negb]; try by intros [= <- <-].
  all: destruct (ts_histories (wk_task w) !! _) as [o|]; [intros H; apply (f_equal (wk_dir ∘ snd)) in H; cbn in H; by rewrite write_open_dir in H; rewrite H|].
  all: destruct (open_history _ _ _ _) as [[ro ts] td] eqn:Eo; apply open_grows in Eo; [|apply Hw].
  all: destruct ro as [o|e]; [intros H; apply (f_equal (wk_dir ∘ snd)) in H; cbn in H; rewrite write_open_dir in H; by rewrite <- H|].
  all: by destruct (sr_history_available record); intros [= <- <-].
Qed.

Lemma found_entry p entries (record : SubagentRecord) : find_entry p entries = Some record -> record ∈ entries.
Proof. unfold find_entry. intros H. apply head_Some_elem_of in H. by apply list_elem_of_filter in H as [_ H]. Qed.

(** The history a write works on, once it is open. *)
Definition target (index : nat) (write : SubagentWrite) (w : Work) : option SubagentChat :=
  record ← find_entry (has_native (sw_native_session_id write)) (ca_entries (ts_catalog (wk_task w)));
  match ts_histories (wk_task w) !! sr_subagent_id record with
  | Some o => Some (oh_chat o)
  | None =>
      match (open_history (bf_open faults index) (sr_subagent_id record) (wk_task w) (wk_dir w)).1.1 with
      | Ok o => Some (oh_chat o)
      | Err _ => None
      end
  end.

(** Every write of the batch is fresh for the history it works on. *)
Fixpoint fresh_run (index : nat) (writes : list SubagentWrite) (w : Work) : Prop :=
  match writes with
  | [] => True
  | write :: writes =>
      (forall c, target index write w = Some c -> fresh_write (bf_images faults index) (bf_now faults index) (sw_operation write) c) /\
      fresh_run (S index) writes (apply_write faults task_id index write w).2
  end.

Lemma record_write_ok index native op s w : work_ok index w -> (forall r, sr_subagent_id (apply_to_record op r) = sr_subagent_id r) ->
  work_ok (S index) (bump_catalog true (set_work_batch (set_stopped s) (patch_entry (has_native native) (apply_to_record op) w))).
Proof.
  intros Hw Hid. apply bump_ok. apply (patch_ok index (has_native native) (apply_to_record op)) in Hw; [|done]. apply work_later in Hw.
  refine (work_same _ _ _ _ _ Hw); [done|]. apply Hw.
Qed.

Lemma apply_to_record_id op r : sr_subagent_id (apply_to_record op r) = sr_subagent_id r.
Proof. destruct op; cbn; try done; repeat case_match; done. Qed.

Lemma history_write_ok index write record w r w' : work_ok index w ->
  find_entry (has_native (sw_native_session_id write)) (ca_entries (ts_catalog (wk_task w))) = Some record ->
  (forall c, target index write w = Some c -> fresh_write (bf_images faults index) (bf_now faults index) (sw_operation write) c) ->
  (match ts_histories (wk_task w) !! sr_subagent_id record with
   | Some open => write_open faults index write (sr_subagent_id record) open w
   | None =>
       let '(r, ts, td) := open_history (bf_open faults index) (sr_subagent_id record) (wk_task w) (wk_dir w) in
       let w := mkWork_ ts td (wk_batch w) in
       match r with
       | Ok open => write_open faults index write (sr_subagent_id record) open (set_work_histories <[sr_subagent_id record := open]> w)
       | Err e =>
           if sr_history_available record
           then (Err e, bump_catalog true (patch_entry (has_native (sw_native_session_id write))
                          (fun r => set_record_history (sr_history_revision r) false r) w))
           else (Err e, w)
       end
   end) = (r, w') -> work_ok (S index) w'.
Proof.
  intros Hw Hrec Hfr. unfold target in Hfr. rewrite Hrec in Hfr. cbn [mbind option_bind] in Hfr. set (id := sr_subagent_id record) in *.
  assert (forall j, (S index <= j)%nat -> id <> bf_spawn_id faults j) as Hid.
  { intros j Hj E. apply (wi_entries _ _ Hw j ltac:(lia)). rewrite <- E. apply list_elem_of_fmap. exists record. split; [done|]. by eapply found_entry. }
  destruct (ts_histories (wk_task w) !! id) as [o|] eqn:Ho.
  - intros H. eapply write_open_ok; [by apply work_later| |by apply Hfr|exact H]. done.
  - destruct (open_history _ _ _ _) as [[ro ts] td] eqn:Eo. cbn [fst] in Hfr.
    destruct (open_work_ok _ _ _ _ _ _ Hw Ho Hid Eo) as (Hw1 & Hts & Hres). destruct ro as [o|e].
    + destruct Hres as [Hh Hc]. intros H. eapply write_open_ok; [| |by apply Hfr|exact H].
      * apply opened_ok; try done. cbn. by rewrite Hts.
      * cbn. by rewrite lookup_insert_eq.
    + destruct (sr_history_available record); intros [= <- <-]; [|done]. by apply bump_ok, patch_ok.
Qed.

Lemma apply_write_ok index write w r w' : work_ok index w ->
  (forall c, target index write w = Some c -> fresh_write (bf_images faults index) (bf_now faults index) (sw_operation write) c) ->
  apply_write faults task_id index write w = (r, w') -> work_ok (S index) w'.
Proof.
  intros Hw Hfr. unfold apply_write. destruct (sw_operation write) eqn:Eop; [by apply spawn_ok|..].
  all: destruct (find_entry _ _) as [record|] eqn:Erec; [|intros [= <- <-]; by apply work_later]; rewrite <- Eop in *.
  all: try by (rewrite Eop; cbn [changes_history negb]; intros [= <- <-]; apply record_write_ok, apply_to_record_id).
  all: rewrite Eop; cbn [changes_history negb]; by eapply history_write_ok.
Qed.

Lemma apply_writes_ok writes index w outcomes w' : work_ok index w -> fresh_run index writes w ->
  apply_writes faults task_id index writes w = (outcomes, w') ->
  work_ok (index + length writes) w' /\ length outcomes = length writes /\ grows (wk_dir w) (wk_dir w').
Proof.
  revert index w outcomes w'. induction writes as [|write writes IH]; intros index w outcomes w' Hw Hfr; cbn [apply_writes].
  - intros [= <- <-]. by rewrite Nat.add_0_r.
  - destruct Hfr as [Hf Hfr]. destruct (apply_write _ _ _ _ _) as [r w1] eqn:E1. cbn [snd] in Hfr.
    destruct (apply_writes faults task_id (S index) writes w1) as [outs w2] eqn:E2. intros [= <- <-].
    pose proof (apply_write_ok _ _ _ _ _ Hw Hf E1) as Hw1. destruct (IH _ _ _ _ Hw1 Hfr E2) as (Hw2 & Hl & Hg).
    cbn [length]. rewrite Nat.add_succ_r, Hl. split; [done|]. split; [done|]. etrans; [by eapply apply_write_grows|done].
Qed.

(** ** The histories are written *)

(** An open history whose queued operations [pd] wait to be written. *)
Record waits (w : Work) (id : string) (pd : PendingHistory) (o : OpenHistory) : Prop := mkWaits {
  wa_open : ts_histories (wk_task w) !! id = Some o;
  wa_holds : exists c0, holds (stream_dir (wk_dir w) id) c0 (oh_files o) /\ apply_operations_of (ph_operations pd) c0 = Ok (oh_chat o);
  wa_chat : chat_ok (oh_chat o);
  wa_short : short (stream_dir (wk_dir w) id);
  wa_unused : unused (bf_generation faults id) (stream_dir (wk_dir w) id);
}.

(** While the histories [rest] are still to be written. *)
Record persist_ok (rest : list (string * PendingHistory)) (revs : list CommittedSubagentRevision) (p : Persisted) : Prop := mkPersistOk {
  po_dir id : dir_ok (stream_dir (wk_dir (pe_work p)) id);
  po_waits id pd : (id, pd) ∈ rest -> exists o, waits (pe_work p) id pd o /\
    forall k r, revs !! k = Some r -> k ∈ ph_revisions pd -> cr_subagent_id r = id -> k ∉ pe_unpublished p -> cr_revision r <= ch_revision (oh_chat o);
  po_open id o : (id ∉ fst <$> rest) -> ts_histories (wk_task (pe_work p)) !! id = Some o ->
    holds (stream_dir (wk_dir (pe_work p)) id) (oh_chat o) (oh_files o);
  po_revisions k r : revs !! k = Some r -> k ∈ pe_unpublished p \/
    (exists pd, (cr_subagent_id r, pd) ∈ rest /\ k ∈ ph_revisions pd) \/
    ((cr_subagent_id r ∉ fst <$> rest) /\ durable (stream_dir (wk_dir (pe_work p)) (cr_subagent_id r)) (cr_revision r));
}.

(** What the writing of the history [id] may change. *)
Record only_history (id : string) (w w' : Work) : Prop := mkOnly {
  on_dirs id' : id' <> id -> stream_dir (wk_dir w') id' = stream_dir (wk_dir w) id';
  on_histories id' : id' <> id -> ts_histories (wk_task w') !! id' = ts_histories (wk_task w) !! id';
}.

Lemma waits_only id w w' id' pd o : only_history id w w' -> id' <> id -> waits w id' pd o -> waits w' id' pd o.
Proof. intros [H1 H2] E [W1 W2 W3 W4 W5]. split; rewrite ?H1, ?H2 by done; done. Qed.

(** One history is written: it is what its files hold or it is closed. *)
Lemma persisted_one rest revs id pd p w' outcomes unpublished : persist_ok ((id, pd) :: rest) revs p -> (id ∉ fst <$> rest) ->
  only_history id (pe_work p) w' -> dir_ok (stream_dir (wk_dir w') id) ->
  (forall o, ts_histories (wk_task w') !! id = Some o -> holds (stream_dir (wk_dir w') id) (oh_chat o) (oh_files o)) ->
  pe_unpublished p ⊆ unpublished ->
  (forall k r, revs !! k = Some r -> cr_subagent_id r = id -> k ∈ unpublished \/ durable (stream_dir (wk_dir w') id) (cr_revision r)) ->
  persist_ok rest revs (mkPersisted w' outcomes unpublished).
Proof.
  intros [P1 P2 P3 P4] Hn Ho Hd Hh Hsub Hrev. split; cbn [pe_work pe_unpublished].
  - intros id'. destruct (decide (id' = id)) as [-> |E]; [done|]. rewrite (on_dirs _ _ _ Ho) by done. apply P1.
  - intros id' pd' Hin. assert (id' <> id) as E by (intros ->; apply Hn, list_elem_of_fmap; by exists (id, pd')).
    destruct (P2 id' pd' ltac:(by right)) as (o & Hw & Hle). exists o. split; [by eapply waits_only|]. intros k r Hk Hin' Hid Hnot.
    apply (Hle k r); try done. set_solver.
  - intros id' o Hnot Ho'. destruct (decide (id' = id)) as [-> |E]; [by apply Hh|].
    rewrite (on_dirs _ _ _ Ho) by done. rewrite (on_histories _ _ _ Ho) in Ho' by done. apply P3; [|done].
    rewrite fmap_cons. apply not_elem_of_cons. done.
  - intros k r Hk. destruct (decide (cr_subagent_id r = id)) as [E|E].
    + rewrite E. destruct (Hrev k r Hk E); tauto.
    + rewrite (on_dirs _ _ _ Ho) by done. destruct (P4 k r Hk) as [H|[(pd' & Hin & Hin')|H]]; [left; set_solver| |right; right; set_solver].
      right. left. exists pd'. split; [|done]. apply elem_of_cons in Hin as [Hin|Hin]; [|done]. by injection Hin.
Qed.

(** A published revision of a history that waits was queued with it. *)
Lemma waiting_revision rest revs id pd p o k r : persist_ok ((id, pd) :: rest) revs p -> (id ∉ fst <$> rest) -> waits (pe_work p) id pd o ->
  revs !! k = Some r -> cr_subagent_id r = id ->
  k ∈ pe_unpublished p \/ (k ∈ ph_revisions pd /\ cr_revision r <= ch_revision (oh_chat o)).
Proof.
  intros [P1 P2 P3 P4] Hn Hw Hk Hid. destruct (decide (k ∈ pe_unpublished p)) as [Hu|Hu]; [by left|]. right.
  destruct (P4 k r Hk) as [H|[(pd' & Hin & Hin')|[H _]]]; [done| |destruct H; rewrite Hid; by left].
  rewrite Hid in Hin. apply elem_of_cons in Hin as [[= ->]|Hin]; [|destruct Hn; apply list_elem_of_fmap; by exists (id, pd')].
  split; [done|]. destruct (P2 id pd ltac:(by left)) as (o' & Hw' & Hle).
  assert (o' = o) as -> by (pose proof (wa_open _ _ _ _ Hw'); pose proof (wa_open _ _ _ _ Hw); congruence). by apply (Hle k r).
Qed.

Lemma persist_history_ok rest revs id pd p : persist_ok ((id, pd) :: rest) revs p -> (id ∉ fst <$> rest) ->
  persist_ok rest revs (persist_history faults id pd p).
Proof.
  intros Hp Hn. destruct (po_waits _ _ _ Hp id pd ltac:(by left)) as (o & Hw & _).
  pose proof (fun k r => waiting_revision _ _ _ _ _ _ k r Hp Hn Hw) as Hrev.
  destruct (wa_holds _ _ _ _ Hw) as (c0 & Hh & Hops). unfold persist_history. rewrite (wa_open _ _ _ _ Hw).
  destruct (append_frame _ _ _ _ _) as [ra d] eqn:Ea.
  destruct (append_ok _ _ _ _ _ _ _ _ (po_dir _ _ _ Hp id) Hh Hops (wa_chat _ _ _ _ Hw) (wa_short _ _ _ _ Hw) Ea) as (Hd & Hun & Hres).
  destruct ra as [files|e]; [destruct (negb _)|].
  - eapply persisted_one; try done; cbn; rewrite ?stream_dir_eq; try done.
    + split; cbn; intros id' E; [by rewrite stream_dir_ne|by rewrite lookup_insert_ne].
    + intros o'. rewrite lookup_insert_eq. by intros [= <-].
    + intros k r Hk Hid. destruct (Hrev k r Hk Hid) as [H|[_ H]]; [by left|]. right. by exists (oh_chat o), files, d.
  - destruct (publish_generation _ _ _ _) as [rp d'] eqn:Ep. pose proof (Hun _ (wa_unused _ _ _ _ Hw)) as Hun'.
    destruct (publish_ok _ _ _ _ _ _ Hd (wa_chat _ _ _ _ Hw) Hun' Ep) as (Hd' & _ & _ & _ & Hres').
    destruct (publish_keeps _ _ _ _ _ _ _ Hun' Hres Ep) as (files' & d'' & Hl).
    eapply persisted_one; try done; cbn; rewrite ?stream_dir_eq; try done.
    + split; cbn; intros id' E; [by rewrite !stream_dir_ne|]. destruct rp; [by rewrite lookup_insert_ne|by rewrite lookup_delete_ne].
    + intros o'. destruct rp; [rewrite lookup_insert_eq; by intros [= <-]|by rewrite lookup_delete_eq].
    + intros k r Hk Hid. destruct (Hrev k r Hk Hid) as [H|[_ H]]; [by left|]. right. by exists (oh_chat o), files', d''.
  - eapply persisted_one; try done; cbn; rewrite ?stream_dir_eq; try done.
    + split; cbn; intros id' E; [by rewrite stream_dir_ne|by rewrite lookup_delete_ne].
    + intros o'. by rewrite lookup_delete_eq.
    + set_solver.
    + intros k r Hk Hid. left. destruct (Hrev k r Hk Hid) as [H|[H _]]; set_solver.
Qed.

Lemma persist_history_grows rest revs id pd p : persist_ok ((id, pd) :: rest) revs p ->
  grows (wk_dir (pe_work p)) (wk_dir (pe_work (persist_history faults id pd p))).
Proof.
  intros Hp. destruct (po_waits _ _ _ Hp id pd ltac:(by left)) as (o & Hw & _). pose proof (po_dir _ _ _ Hp id) as Hd0.
  destruct (wa_holds _ _ _ _ Hw) as (c0 & Hh & Hops). unfold persist_history. rewrite (wa_open _ _ _ _ Hw).
  destruct (append_frame _ _ _ _ _) as [ra d] eqn:Ea.
  pose proof (append_keeps _ _ _ _ _ _ _ _ Hh (do_chat _ Hd0 _ _ _ Hh) Hops Ea) as Hk.
  destruct (append_ok _ _ _ _ _ _ _ _ Hd0 Hh Hops (wa_chat _ _ _ _ Hw) (wa_short _ _ _ _ Hw) Ea) as (_ & Hun & Hres).
  destruct ra as [files|e]; [destruct (negb _)|]; [by apply grows_at| |by apply grows_at].
  destruct (publish_generation _ _ _ _) as [rp d'] eqn:Ep. cbn.
  destruct (publish_keeps _ _ _ _ _ _ _ (Hun _ (wa_unused _ _ _ _ Hw)) Hres Ep) as (files' & d'' & Hl).
  trans (set_stream_dir id d (wk_dir (pe_work p))); [by apply grows_at|]. apply grows_at. rewrite stream_dir_eq. by eapply keeps_loaded.
Qed.

Definition same_batch (w w' : Work) : Prop :=
  bs_revisions (wk_batch w') = bs_revisions (wk_batch w) /\ bs_stopped (wk_batch w') = bs_stopped (wk_batch w).

Lemma persist_history_batch id pd p : same_batch (pe_work p) (pe_work (persist_history faults id pd p)).
Proof.
  unfold persist_history. destruct (ts_histories _ !! id) as [o|]; [|done]. destruct (append_frame _ _ _ _ _) as [[files|e] d]; [|done].
  destruct (negb _); [done|]. by destruct (publish_generation _ _ _ _) as [rp d'].
Qed.

Lemma persist_rest_ok rest revs p : NoDup (fst <$> rest) -> persist_ok rest revs p ->
  let p' := foldl (fun p e => persist_history faults e.1 e.2 p) p rest in
  persist_ok [] revs p' /\ grows (wk_dir (pe_work p)) (wk_dir (pe_work p')) /\ same_batch (pe_work p) (pe_work p').
Proof.
  revert p. induction rest as [|[id pd] rest IH]; intros p Hnd Hp; [done|]. rewrite fmap_cons in Hnd. apply NoDup_cons in Hnd as [Hn Hnd].
  cbn [foldl fst snd]. destruct (IH _ Hnd (persist_history_ok _ _ _ _ _ Hp Hn)) as (H1 & H2 & H3). split; [done|]. split.
  - etrans; [by eapply persist_history_grows|done].
  - destruct (persist_history_batch id pd p) as [B1 B2], H3 as [B3 B4]. split; congruence.
Qed.

Lemma give_up_ok abandoned p :
  let p' := foldl (fun p a => mkPersisted (pe_work p) (fail_writes unsaved (ph_writes a) (pe_outcomes p))
                                (list_to_set (ph_revisions a) ∪ pe_unpublished p)) p abandoned in
  pe_work p' = pe_work p /\ pe_unpublished p ⊆ pe_unpublished p' /\
  forall a k, a ∈ abandoned -> k ∈ ph_revisions a -> k ∈ pe_unpublished p'.
Proof.
  revert p. induction abandoned as [|a abandoned IH]; intros p; cbn [foldl]; [by split_and!; [| |intros ? ? ?%not_elem_of_nil]|].
  destruct (IH (mkPersisted (pe_work p) (fail_writes unsaved (ph_writes a) (pe_outcomes p)) (list_to_set (ph_revisions a) ∪ pe_unpublished p)))
    as (H1 & H2 & H3). cbn [pe_unpublished] in H2. split; [done|]. split; [set_solver|].
  intros a' k [-> |Hin]%elem_of_cons Hk; [set_solver|by eapply H3].
Qed.

Lemma persist_histories_ok index w outcomes : work_ok index w ->
  let p := persist_histories faults w outcomes in
  persist_ok [] (bs_revisions (wk_batch w)) p /\ grows (wk_dir w) (wk_dir (pe_work p)) /\ same_batch w (pe_work p).
Proof.
  intros [H1 H2 H3 H4 H5 H5' H8 H6 H7]. unfold persist_histories. destruct (give_up_ok (bs_abandoned (wk_batch w)) (mkPersisted w outcomes ∅)) as (G1 & _ & G3).
  set (p0 := foldl _ (mkPersisted w outcomes ∅) _) in *. cbn [pe_work] in G1. rewrite <- G1 in *.
  apply persist_rest_ok; [apply NoDup_fst_map_to_list|]. split.
  - intros id. apply H1.
  - intros id pd Hin%elem_of_map_to_list. destruct (H5 _ _ Hin) as [o Ho]. destruct (H4 _ _ Ho) as (c0 & Hh & Hops & Hc). exists o. split.
    + unfold pending_ops in Hops. rewrite Hin in Hops. split; eauto. apply H2.
    + intros k r Hk Hkin Hid Hnot. destruct (H7 _ _ Hk) as [(a & Ha & Hka)|(p & o' & Hp & _ & Ho' & Hle)]; [destruct Hnot; by eapply G3|].
      rewrite Hid in *. congruence.
  - intros id o Hnot Ho. destruct (H4 _ _ Ho) as (c0 & Hh & Hops & _). unfold pending_ops in Hops.
    destruct (bs_pending (wk_batch (pe_work p0)) !! id) as [pd|] eqn:E; [|by injection Hops as <-].
    destruct Hnot. apply list_elem_of_fmap. exists (id, pd). split; [done|]. by apply elem_of_map_to_list.
  - intros k r Hk. destruct (H7 _ _ Hk) as [(a & Ha & Hka)|(p & o & Hp & Hkin & _)]; [left; by eapply G3|].
    right. left. exists p. split; [by apply elem_of_map_to_list|done].
Qed.
End Batch.

(** ** A Task's Subagents over time *)

(** Every open history is what its files hold. *)
Record task_ok (cached : option TaskSubagents) (td : TaskDir) : Prop := mkTaskOk {
  to_dir id : dir_ok (stream_dir td id);
  to_open ts id o : cached = Some ts -> ts_histories ts !! id = Some o -> holds (stream_dir td id) (oh_chat o) (oh_files o);
}.

(** Identifiers a batch draws are fresh, and no journal is at the end of its counter. *)
Record batch_ready (faults : BatchFaults) (ts : TaskSubagents) (td : TaskDir) : Prop := mkBatchReady {
  br_names : distinct_names faults;
  br_unused id : ready faults 0 (stream_dir td id);
  br_short id : short (stream_dir td id);
  br_new j : stream_dir td (bf_spawn_id faults j) = no_dir;
  br_ids j : bf_spawn_id faults j ∉ sr_subagent_id <$> ca_entries (ts_catalog ts);
}.

(** A batch, the reading of a history, or a restart of the server. *)
Inductive subagent_step (task_id : string) (s : option TaskSubagents * TaskDir) :
    option CommittedSubagentBatch -> option TaskSubagents * TaskDir -> Prop :=
| step_batch faults writes committed outcomes cached td :
    (forall ts, cached_task s.1 s.2 = Ok ts -> batch_ready faults ts s.2 /\ fresh_run faults task_id 0 writes (mkWork_ ts s.2 no_batch)) ->
    commit_batch faults task_id writes s.1 s.2 = (committed, outcomes, cached, td) -> subagent_step task_id s committed (cached, td)
| step_read fault id available r cached td :
    (forall id, unused (of_generation fault) (stream_dir s.2 id)) ->
    history fault id available s.1 s.2 = (r, cached, td) -> subagent_step task_id s None (cached, td)
| step_restart : subagent_step task_id s None (None, s.2).

Definition subagent_steps (task_id : string) : relation (option TaskSubagents * TaskDir) :=
  rtc (fun s s' => exists committed, subagent_step task_id s committed s').

Lemma nothing_held c files : ~ holds no_dir c files.
Proof. done. Qed.

Lemma cached_ok cached td ts : task_ok cached td -> cached_task cached td = Ok ts -> task_ok (Some ts) td.
Proof.
  intros [H1 H2]. unfold cached_task. destruct cached as [ts'|]; [by intros [= ->]|].
  destruct (load_catalog td) as [c|]; cbn [result_bind]; [|done]. intros [= <-]. split; [done|]. intros ts id o [= <-]. cbn. by rewrite lookup_empty.
Qed.

Lemma start_ok faults ts td : task_ok (Some ts) td -> batch_ready faults ts td -> work_ok faults 0 (mkWork_ ts td no_batch).
Proof.
  intros [H1 H2] [N U S F I]. split; cbn; try done.
  - intros id o Ho. pose proof (H2 _ _ _ eq_refl Ho) as Hh. exists (oh_chat o). split_and!; [done|done|]. by eapply (do_chat _ (H1 id)).
  - intros j _. destruct (ts_histories ts !! bf_spawn_id faults j) as [o|] eqn:E; [|done]. apply H2 in E; [|done]. by rewrite F in E.
Qed.

Lemma retained_elem unpublished revs r : r ∈ retained unpublished revs -> exists k, revs !! k = Some r /\ k ∉ unpublished.
Proof.
  unfold retained. intros ([k r'] & -> & [Hn Hin]%list_elem_of_filter)%list_elem_of_fmap. apply elem_of_lookup_imap in Hin as (i & x & [= -> ->] & Hi).
  by exists i.
Qed.

(** The state a batch leaves, and the revisions it publishes. *)
Definition committed_durably (committed : option CommittedSubagentBatch) (td : TaskDir) : Prop :=
  forall b r, committed = Some b -> r ∈ sb_revisions b -> durable (stream_dir td (cr_subagent_id r)) (cr_revision r).

Lemma persisted_task faults revs p td ts : persist_ok faults [] revs p -> td_streams td = td_streams (wk_dir (pe_work p)) ->
  ts_histories ts ⊆ ts_histories (wk_task (pe_work p)) -> task_ok (Some ts) td.
Proof.
  intros [P1 P2 P3 P4] Htd Hh. assert (forall i, stream_dir td i = stream_dir (wk_dir (pe_work p)) i) as E by (intros i; unfold stream_dir; by rewrite Htd).
  split; [intros id; by rewrite E|]. intros ts' id o [= <-] Ho. rewrite E. apply P3; [apply not_elem_of_nil|]. by eapply lookup_weaken.
Qed.

(** The catalog was written, or did not need to be. *)
Lemma finished_ok faults p td ts1 td1 : persist_ok faults [] (bs_revisions (wk_batch (pe_work p))) p -> grows td (wk_dir (pe_work p)) ->
  td_streams td1 = td_streams (wk_dir (pe_work p)) -> ts_histories ts1 = ts_histories (wk_task (pe_work p)) ->
  let ts2 := set_histories (filter (fun e => e.1 ∉ bs_stopped (wk_batch (pe_work p))) (ts_histories ts1)) ts1 in
  let revisions := retained (pe_unpublished p) (bs_revisions (wk_batch (pe_work p))) in
  task_ok (Some ts2) td1 /\ grows td td1 /\
  committed_durably (if bs_catalog_changed (wk_batch (pe_work p)) || match revisions with [] => false | _ => true end
                     then Some (mkSubBatch revisions (ca_revision (ts_catalog ts2)) (ca_entries (ts_catalog ts2))) else None) td1.
Proof.
  intros Hp Hg E Hts. split_and!.
  - eapply persisted_task; [done|done|]. cbn. rewrite Hts. apply map_filter_subseteq.
  - etrans; [exact Hg|]. by apply grows_same.
  - intros b r Hb. destruct (_ || _); [|done]. injection Hb as <-. intros (k & Hk & Hnot)%retained_elem. unfold stream_dir. rewrite E.
    destruct (po_revisions _ _ _ _ Hp k r Hk) as [H|[(pd & H & _)|[_ H]]]; [done|by apply not_elem_of_nil in H|done].
Qed.

(** The catalog was not written: every history is closed. *)
Lemma reloaded_ok faults revs p td td1 (c : CatalogFile) (reloaded : result CatalogFile RuntimeError) :
  persist_ok faults [] revs p -> grows td (wk_dir (pe_work p)) -> td_streams td1 = td_streams (wk_dir (pe_work p)) ->
  task_ok (match reloaded with
           | Ok r => Some (mkTaskSubagents (mkCatalog (ca_schema_version r) (ca_revision c) (ca_next_spawn_order r) (ca_entries r)) ∅)
           | Err _ => None
           end) td1 /\ grows td td1 /\ committed_durably None td1.
Proof.
  intros Hp Hg E. split_and!; [|etrans; [exact Hg|]; by apply grows_same|done].
  assert (forall c, task_ok (Some (mkTaskSubagents c ∅)) td1) as H by (intros c'; eapply persisted_task; [done|done|apply map_empty_subseteq]).
  destruct reloaded; [apply H|]. destruct (H c). by split.
Qed.

Lemma commit_ok faults task_id writes cached td committed outcomes cached' td' : task_ok cached td ->
  (forall ts, cached_task cached td = Ok ts -> batch_ready faults ts td /\ fresh_run faults task_id 0 writes (mkWork_ ts td no_batch)) ->
  commit_batch faults task_id writes cached td = (committed, outcomes, cached', td') ->
  task_ok cached' td' /\ grows td td' /\ committed_durably committed td'.
Proof.
  intros Hok Hready. unfold commit_batch. destruct (cached_task cached td) as [ts|e] eqn:Ec; [|by intros [= <- <- <- <-]].
  destruct (Hready ts eq_refl) as [Hr Hfr]. pose proof (start_ok _ _ _ (cached_ok _ _ _ Hok Ec) Hr) as Hw.
  destruct (apply_writes _ _ _ _ _) as [outs w] eqn:Ea. destruct (apply_writes_ok faults task_id (br_names _ _ _ Hr) _ _ _ _ _ Hw Hfr Ea) as (Hw' & _ & Hg).
  destruct (persist_histories_ok faults (br_names _ _ _ Hr) _ w outs Hw') as (Hp & Hg' & Hb & _). set (p := persist_histories faults w outs) in *.
  rewrite <- Hb in Hp. assert (grows td (wk_dir (pe_work p))) as Hgp by (by etrans).
  destruct (bs_catalog_persist _).
  - unfold write_catalog. set (c := mkCatalog _ _ _ _). set (td1 := mkTaskDir _ _).
    destruct (bf_catalog faults) as [|e|e|e]; intros [= <- <- <- <-]; [|by eapply reloaded_ok..].
    exact (finished_ok faults p td (set_catalog c (wk_task (pe_work p))) td1 Hp Hgp eq_refl eq_refl).
  - intros [= <- <- <- <-]. by eapply finished_ok.
Qed.

Lemma read_ok fault id available cached td r cached' td' : task_ok cached td -> (forall id, unused (of_generation fault) (stream_dir td id)) ->
  history fault id available cached td = (r, cached', td') -> task_ok cached' td' /\ grows td td'.
Proof.
  intros Hok Hun. unfold history. destruct (cached_task cached td) as [ts|e] eqn:Ec; [|by intros [= <- <- <-]].
  pose proof (cached_ok _ _ _ Hok Ec) as [H1 H2]. assert (task_ok (Some ts) td) as Hts by done.
  destruct (find_entry _ _) as [record|]; [|by intros [= <- <- <-]]. destruct (_ && _); [by intros [= <- <- <-]|].
  destruct (ts_histories ts !! id) as [o|] eqn:Ho; [by intros [= <- <- <-]|].
  destruct (open_history fault id ts td) as [[ro ts'] td''] eqn:Eo. intros [= <- <- <-].
  destruct (open_dirs _ _ _ _ _ _ _ (H1 id) (Hun id) Eo) as (Hd & Hne & Hh). split; [|by eapply open_grows].
  split; [intros id'; destruct (decide (id' = id)) as [-> |E]; [done|by rewrite Hne]|].
  intros ts'' id' o [= <-] Ho'. rewrite Hh in Ho'. rewrite Hne; [by eapply H2|]. intros ->. congruence.
Qed.

Lemma step_ok task_id s committed s' : task_ok s.1 s.2 -> subagent_step task_id s committed s' ->
  task_ok s'.1 s'.2 /\ grows s.2 s'.2 /\ committed_durably committed s'.2.
Proof.
  intros Hok [faults writes c outcomes cached td Hr Hc|fault id available r cached td Hun Hh|].
  - by eapply commit_ok.
  - destruct (read_ok _ _ _ _ _ _ _ _ Hok Hun Hh). by split_and!.
  - split_and!; [|done|done]. by destruct Hok; split.
Qed.

Lemma steps_ok task_id s s' : task_ok s.1 s.2 -> subagent_steps task_id s s' -> task_ok s'.1 s'.2 /\ grows s.2 s'.2.
Proof.
  intros Hok Hs. induction Hs as [s|s1 s2 s3 [c Hs] _ IH]; [done|]. destruct (step_ok _ _ _ _ Hok Hs) as (H1 & H2 & _).
  destruct (IH H1) as [H3 H4]. split; [done|]. by etrans.
Qed.

(** ** Theorems *)

(** A change of a Subagent's history is journaled exactly: the operation the
    store appends for a streamed message, part, plan or permission outcome, when
    it is replayed over the history before the change, gives the history the
    change made in memory - rows, metadata, plan and revision - images moved out
    included, and keeps the history well formed. *)
Theorem subagent_change_is_journaled fault now op c c' sop change : chat_ok c -> fresh_append op c ->
  apply_history_write fault now op c = Some (Ok (c', sop, change)) -> plain_rows (ch_messages c') ->
  apply_stream sop c = Ok c' /\ chat_ok c' /\ ch_revision c' = u64_saturating_add (ch_revision c) 1.
Proof.
  intros Hc Hf Hw Hpl. destruct (write_journaled _ _ _ _ _ _ _ Hc Hf Hw Hpl) as [H1 H2]. split_and!; [done|done|]. by eapply stream_revision.
Qed.


(** C14. A revision of a Subagent history is published only once it is durable, and
    stays so: after any later batches with any failures, reads, migrations,
    compactions and restarts, the history loads with that revision or a newer
    one. *)
Theorem published_revisions_survive task_id s b s' s'' r : task_ok s.1 s.2 -> subagent_step task_id s (Some b) s' ->
  r ∈ sb_revisions b -> subagent_steps task_id s' s'' ->
  exists c files d, load (stream_dir s''.2 (cr_subagent_id r)) = Ok (c, files, d) /\ cr_revision r <= ch_revision c.
Proof.
  intros Hok Hstep Hin Hs. destruct (step_ok _ _ _ _ Hok Hstep) as (H1 & _ & H3). destruct (steps_ok _ _ _ H1 Hs) as [_ Hg].
  apply Hg. by eapply H3.
Qed.
End SubagentRules.

(** ** Witnesses *)

Module SubagentWitness.
Import ChatWitness.

#[global] Instance sizes : StreamSizes := {| snapshot_size := fun _ => 1; journal_size := fun frames => Z.of_nat (length frames) |}.
#[global] Instance codecs : ImageCodecs :=
  {| base64_decode := fun s => Some (bytes_of s); sha256 := fun b => b; image_header := fun _ => None;
     legacy_captures := fun _ => []; legacy_removed := fun s => s |}.

Lemma all_plain ms : plain_rows ms.
Proof. apply Forall_forall. intros m _. by destruct (cm_message (st_chat m)). Qed.

Lemma all_fresh fault now op c : fresh_append op c -> fresh_write fault now op c.
Proof. split; [done|]. intros. apply all_plain. Qed.

Definition no_fault : PublishFault := mkPublishFault WriteOk WriteOk (fun _ => true).
Definition opening (generation : string) : OpenFault := mkOpenFault None WriteOk no_fault generation false (fun _ => None).
Definition numbered (prefix : string) (i : nat) : string := prefix +:+ pretty i.

(** A run of a batch; [append] is the fault of the journal of every history. *)
Definition run (tag : string) (append : WriteFault) : BatchFaults :=
  mkBatchFaults (fun i => opening (numbered ("o" +:+ tag) i)) (fun _ => no_fault) (numbered ("id" +:+ tag))
    (numbered ("s" +:+ tag)) (fun _ => None) (fun _ => append) (fun _ => no_fault) (fun _ => "c" +:+ tag) WriteOk None (fun i => Z.of_nat i).

Definition spawned : SubagentWrite :=
  mkSubagentWrite "child" (SubSpawn "root" "Scout" "look" (mkCapabilities true true) []).
Definition said (text : string) : SubagentWrite :=
  mkSubagentWrite "child" (SubAppendMessagePart (MAgentMessage "m" RoleAgent [PartText text] "1")).
Definition called : SubagentWrite := mkSubagentWrite "child" (SubAppendMessage row true).

Definition empty_dir : TaskDir := mkTaskDir None ∅.
Definition first_batch := commit_batch (run "1" WriteOk) "t" [spawned; said "a"; said "b"; called] None empty_dir.
Definition after_first : option TaskSubagents * TaskDir := (first_batch.1.2, first_batch.2).

Lemma numbered_inj prefix i j : numbered prefix i = numbered prefix j -> i = j.
Proof. unfold numbered. intros H. apply (inj (String.append prefix)) in H. by apply (inj pretty) in H. Qed.

Lemma run_distinct tag append : distinct_names (run tag append).
Proof. split; cbn; intros *; try apply numbered_inj; done. Qed.

Lemma empty_stream id : stream_dir empty_dir id = no_dir.
Proof. done. Qed.

Lemma empty_ok : task_ok None empty_dir.
Proof. split; [|done]. intros id. rewrite empty_stream. by split. Qed.

Lemma empty_unused g : unused g no_dir.
Proof. by split. Qed.

Lemma first_step : subagent_step "t" (None, empty_dir) first_batch.1.1.1 after_first.
Proof.
  apply (step_batch _ _ (run "1" WriteOk) [spawned; said "a"; said "b"; called] first_batch.1.1.1 first_batch.1.1.2);
    [|fold first_batch; by rewrite <- !surjective_pairing].
  intros ts [= <-]. split.
  - split; [apply run_distinct|..]; intros *; cbn [snd]; rewrite ?empty_stream; [|done|done|apply not_elem_of_nil].
    split; intros *; [split|]; apply empty_unused.
  - cbn [fresh_run]. split_and!; [by intros; apply all_fresh..|done].
Qed.

(** The only history after the first batch. *)
Definition kept : StreamDir := stream_dir after_first.2 "id10".
Definition kept_snapshot := default (0, empty_chat "t") (sd_snapshots kept !! snapshot_name "s10").
Definition kept_frames := default [] (sd_journals kept !! journal_name "s10").

Lemma kept_shape : kept = mkDir (Some (mkHead 1 (snapshot_name "s10") (journal_name "s10"))) {[snapshot_name "s10" := kept_snapshot]}
  {[journal_name "s10" := kept_frames]} None.
Proof. vm_compute. reflexivity. Qed.

Lemma kept_only : td_streams after_first.2 = {["id10" := kept]}.
Proof. vm_compute. reflexivity. Qed.

Lemma kept_dirs id : stream_dir after_first.2 id = if decide (id = "id10"%string) then kept else no_dir.
Proof.
  unfold stream_dir. rewrite kept_only. case_decide as E; [by rewrite E, lookup_singleton_eq|by rewrite lookup_singleton_ne].
Qed.

Lemma kept_unused g id : g <> "s10"%string -> unused g (stream_dir after_first.2 id).
Proof.
  intros Hg. rewrite kept_dirs. case_decide; [|apply empty_unused]. rewrite kept_shape. split; cbn [sd_snapshots sd_journals sd_head].
  - rewrite lookup_singleton_ne; [done|]. intros E. by apply snapshot_name_inj in E.
  - rewrite lookup_singleton_ne; [done|]. intros E. by apply journal_name_inj in E.
  - intros h [= <-]. cbn. split; intros E; [apply journal_name_inj in E|apply snapshot_name_inj in E]; congruence.
Qed.

(** The second batch's frame is written but reported as failed. *)
Definition fault : WriteFault := WriteKept (Storage "sync").
Definition second_batch := commit_batch (run "2" fault) "t" [said "c"] after_first.1 after_first.2.
Definition after_second : option TaskSubagents * TaskDir := (second_batch.1.2, second_batch.2).

Lemma second_step : subagent_step "t" after_first second_batch.1.1.1 after_second.
Proof.
  apply (step_batch _ _ (run "2" fault) [said "c"] second_batch.1.1.1 second_batch.1.1.2);
    [|fold second_batch; by rewrite <- !surjective_pairing].
  intros ts Hts. assert (sr_subagent_id <$> ca_entries (ts_catalog ts) = ["id10"%string]) as Hids by (vm_compute in Hts; by injection Hts as <-).
  split; [|split; [by intros; apply all_fresh|done]].
  split; [apply run_distinct|..]; intros *.
  - split; intros *; [split|]; by apply kept_unused.
  - rewrite kept_dirs. case_decide; [|done]. rewrite kept_shape. unfold short. cbn [sd_journals].
    intros name frames [_ <-]%lookup_singleton_Some. done.
  - rewrite kept_dirs. by case_decide.
  - rewrite Hids. intros E%list_elem_of_singleton. done.
Qed.

Definition published : CommittedSubagentBatch := default (mkSubBatch [] 0 []) first_batch.1.1.1.
Definition last_published : CommittedSubagentRevision :=
  mkRevision "id10" 3 (sb_revisions published !! 2%nat ≫= cr_change).

Lemma published_is : first_batch.1.1.1 = Some published.
Proof. vm_compute. reflexivity. Qed.

Definition restarted : option TaskSubagents * TaskDir := (None, after_second.2).

Lemma published_revisions_survive_witness :
  cr_revision last_published = 3 /\
  exists c files d, load (stream_dir restarted.2 (cr_subagent_id last_published)) = Ok (c, files, d) /\
    cr_revision last_published <= ch_revision c.
Proof.
  split; [reflexivity|].
  apply (published_revisions_survive "t" (None, empty_dir) published after_first restarted last_published empty_ok).
  - rewrite <- published_is. exact first_step.
  - apply list_elem_of_lookup. exists 2%nat. vm_compute. reflexivity.
  - eapply rtc_l; [eexists; exact second_step|]. apply rtc_once. exists None. exact (step_restart "t" after_second).
Defined.

Definition open_tasks : TaskSubagents := default (mkTaskSubagents (mkCatalog 0 0 0 []) ∅) after_first.1.
Definition opened : OpenHistory :=
  default (mkOpen (empty_chat "t") (mkFiles "" 0 0 0)) (ts_histories open_tasks !! "id10").


(** The image of a streamed part is moved out, and journaled so. *)
Definition chat : SubagentChat := oh_chat opened.
Definition pictured : SubagentOperation :=
  SubAppendMessagePart (MAgentMessage "m" RoleAgent [PartImage "image/png" "data" None None None None None] "2").
Definition written := match apply_history_write None 5 pictured chat with Some (Ok (c, sop, change)) => (c, sop, change) | _ => (chat, SoSetPlan None, None) end.

Lemma subagent_change_is_journaled_witness :
  apply_stream written.1.2 chat = Ok written.1.1 /\ chat_ok written.1.1 /\ ch_revision written.1.1 = 4.
Proof.
  apply (subagent_change_is_journaled None 5 pictured chat written.1.1 written.1.2 written.2).
  - split; [vm_compute; repeat constructor| |vm_compute; done]. apply (bool_decide_unpack _). vm_compute. exact I.
  - exact I.
  - vm_compute. reflexivity.
  - apply all_plain.
Defined.

(** A Tool update erases the permission outcome recorded in the history. *)
Definition asked : SubagentChat := (append_history_message (update Running) true 1 (empty_chat "t")).2.
Definition decided : SubagentChat := match record_history_outcome "call" outcome 2 asked with Ok r => r.2 | Err _ => asked end.
Definition finished : SubagentChat := (append_history_message (update Completed) true 3 decided).2.
Definition recorded (c : SubagentChat) : list (option (list ToolPermissionOutcome * option BackgroundCommandOutcome)) :=
  outcomes_in (Some "call"%string) ∘ cm_message ∘ st_chat <$> ch_messages c.

Example tool_update_erases_the_decision :
  recorded decided = [Some ([outcome], None)] /\ recorded finished = [Some ([], None)].
Proof. split; vm_compute; reflexivity. Qed.
End SubagentWitness.
