(* ===== verification/Paging.v ===== *)
(** * Pages of a Chat

    Models the reading side of [openaide-rs/app-server/src/storage/message_store.rs]
    (the tail page, the page before a cursor, where a page starts, the light
    summaries of Tool rows) and [subagent_page_before] of [storage/subagents.rs].

    Shows that a client that starts with the tail and asks for the page before
    the first cursor it has, until no page is before, has read the whole Chat in
    order, each row once, in a bounded number of requests; and where a page may
    start.  Artifacts are read through an argument, and the presentation of a
    saved command ([agent/command_presentation]) is another. *)

From stdpp Require Import pretty.
From S2P Require Import Prelude Chat Records Journal Mutation ChatImages Subagents.

Local Open Scope Z_scope.

Definition TARGET_CHAT_TURNS : nat := 10.
Definition MAX_SEMANTIC_WINDOW_RECORDS : nat := 500.

Section Paging.
Context `{CP : ChatPayloads}.

Record MessagePage := mkPage {
  mp_task_id : string; mp_items : list ChatMessage; mp_has_before : bool; mp_total_count : Z; mp_version : Z;
  mp_start_cursor : option string; mp_end_cursor : option string;
}.

(** Rows that a page does not separate: Tool activities and thoughts. *)
Definition is_work (m : StoredMessage) : bool :=
  match cm_message (st_chat m) with
  | MActivity _ _ _ _ _ _ | MAgentMessage _ RoleThought _ _ => true
  | _ => false
  end.
Definition at_row (p : StoredMessage -> bool) (messages : list StoredMessage) (index : nat) : bool :=
  match messages !! index with Some m => p m | None => false end.

(** The scan from [index] back over [steps] rows. *)
Fixpoint scan_turns (messages : list StoredMessage) (steps index user_turns : nat) (turn_start : option nat) : option nat :=
  match steps with
  | O => turn_start
  | S steps =>
      let index := (index - 1)%nat in
      if at_row is_user_row messages index then
        if bool_decide (S user_turns = TARGET_CHAT_TURNS) then Some index
        else scan_turns messages steps index (S user_turns) (Some index)
      else scan_turns messages steps index user_turns turn_start
  end.

Fixpoint run_back (messages : list StoredMessage) (run_start : nat) : nat :=
  match run_start with
  | O => O
  | S before => if at_row is_work messages run_start then run_back messages before else run_start
  end.

Definition chat_page_start (messages : list StoredMessage) (requested_start end_ : nat) : nat :=
  if bool_decide (requested_start = 0%nat) || bool_decide (length messages <= requested_start)%nat then requested_start
  else
    let scan_floor := (end_ - MAX_SEMANTIC_WINDOW_RECORDS)%nat in
    let turn_start := scan_turns messages (end_ - scan_floor) end_ 0 None in
    let requested_start := match turn_start with Some t => Nat.min requested_start t | None => requested_start end in
    if negb (at_row is_work messages requested_start) then requested_start
    else
      let run_start := run_back messages requested_start in
      if at_row is_user_row messages run_start then run_start else S run_start.

Fixpoint position (p : StoredMessage -> bool) (messages : list StoredMessage) : option nat :=
  match messages with
  | [] => None
  | m :: messages => if p m then Some 0%nat else S <$> position p messages
  end.

Definition page_before_index (messages : list StoredMessage) (before_cursor : string) : result nat RuntimeError :=
  let by_cursor := ok_or (position (fun m => bool_decide (cm_cursor (st_chat m) = before_cursor)) messages) (InvalidParams "before_cursor") in
  match to_sequence before_cursor with
  | Ok before => match position (fun m => bool_decide (st_sequence m = before)) messages with Some index => Ok index | None => by_cursor end
  | Err _ => by_cursor
  end.

(** ** Light summaries *)

Definition eq_ignore_ascii_case (a b : string) : bool := bool_decide (to_ascii_lowercase a = to_ascii_lowercase b).
Definition has_path_separator (subject : string) : bool :=
  existsb (fun b => bool_decide (b = 47) || bool_decide (b = 92)) (bytes_of subject).

(** An execute row without a presentation, or whose only action reads full paths. *)
Definition needs_execute_presentation (name : string) (presentation : option ToolPresentation) : bool :=
  bool_decide (name = "execute"%string) &&
  match presentation with
  | None => true
  | Some p =>
      match actions p with
      | [action] =>
          bool_decide (action_kind action = PKRead) &&
          match action_subjects action with Some subjects => existsb has_path_separator subjects | None => false end
      | _ => false
      end
  end.
Definition needs_view_presentation (name : string) (presentation : option ToolPresentation) (summary : option string) : bool :=
  bool_decide (name = "read"%string) && negb (is_some presentation) &&
  match summary with Some s => eq_ignore_ascii_case s "name view_image" | None => false end.

Definition set_summaries (presentation : option ToolPresentation) (summary : option string) (t : ToolStep) : ToolStep :=
  mkTool (ts_tool_call_id t) (ts_name t) (ts_status t) presentation (ts_description t) summary (ts_output_preview t)
    (ts_detail_artifact_id t) (ts_details t) (ts_permission_outcomes t) (ts_background_outcome t) (ts_pending t).

Section Summaries.
Context (read_tool_artifact : string -> result ActivityToolDetails RuntimeError)
        (infer_saved_execute_presentation : list string -> option ToolPresentation).

Definition inferred (details : ActivityToolDetails) : option ToolPresentation :=
  input ← ad_input details; infer_saved_execute_presentation (in_command input).

Definition summarize_tool (t : ToolStep) : ToolStep :=
  let needs_summary := should_replace_input_summary (ts_name t) (ts_input_summary t) in
  let execute := needs_execute_presentation (ts_name t) (ts_presentation t) in
  let view := needs_view_presentation (ts_name t) (ts_presentation t) (ts_input_summary t) in
  if negb needs_summary && negb (execute || view) then t
  else
    let presentation := if execute then ts_details t ≫= inferred else ts_presentation t in
    let presentation := if view then ts_details t ≫= legacy_view_presentation else presentation in
    match ts_details t, ts_detail_artifact_id t with
    | None, Some artifact_id =>
        match read_tool_artifact artifact_id with
        | Ok details =>
            let summary := match lightweight_detail_summary details with
                           | Some s => if needs_summary then Some s else ts_input_summary t
                           | None => ts_input_summary t
                           end in
            let presentation := if execute then inferred details else presentation in
            let presentation := if view then legacy_view_presentation details else presentation in
            set_summaries presentation summary t
        | Err _ => set_summaries presentation (ts_input_summary t) t
        end
    | _, _ => set_summaries presentation (ts_input_summary t) t
    end.

Definition with_lightweight_tool_summaries (c : ChatMessage) : ChatMessage :=
  match cm_message c with
  | MActivity id title status created col steps =>
      set_message (MActivity id title status created col
        ((fun step => match step with StepTool t => StepTool (summarize_tool t) | _ => step end) <$> steps)) (cm_timing c) c
  | _ => c
  end.

(** ** Pages *)

Definition slice {A} (start end_ : nat) (l : list A) : list A := drop start (take end_ l).

Definition page_from_projection (p : TaskProjection) (start end_ : nat) : MessagePage :=
  let items := (fun m => with_lightweight_tool_summaries (st_chat m)) <$> slice start end_ (pj_messages p) in
  mkPage (tr_task_id (pj_task p)) items (bool_decide (0 < start)%nat) (Z.of_nat (length (pj_messages p))) (mm_version (pj_message_meta p))
    (cm_cursor <$> head items) (cm_cursor <$> last items).

Definition clamp_limit (limit : nat) : nat := Nat.min (Nat.max limit 1) 500.

Definition tail_page (limit : nat) (p : TaskProjection) : MessagePage :=
  let limit := clamp_limit limit in
  let total := length (pj_messages p) in
  page_from_projection p (chat_page_start (pj_messages p) (total - limit) total) total.

Definition page_before (before_cursor : string) (limit : nat) (p : TaskProjection) : result MessagePage RuntimeError :=
  let limit := clamp_limit limit in
  let? end_ := page_before_index (pj_messages p) before_cursor in
  Ok (page_from_projection p (chat_page_start (pj_messages p) (end_ - limit) end_) end_).

(** A client that reads back from a page until nothing is before it. *)
Fixpoint read_back (fuel limit : nat) (p : TaskProjection) (page : MessagePage) : option (list ChatMessage) :=
  if negb (mp_has_before page) then Some (mp_items page)
  else
    match fuel with
    | O => None
    | S fuel =>
        cursor ← mp_start_cursor page;
        match page_before cursor limit p with
        | Ok before => earlier ← read_back fuel limit p before; Some (earlier ++ mp_items page)
        | Err _ => None
        end
    end.
End Summaries.

(** [subagent_page_before], for the history that was read. *)
Definition subagent_page_before (task_id before_cursor : string) (limit : nat) (c : SubagentChat) : result MessagePage RuntimeError :=
  let? end_ := ok_or (position (fun m => bool_decide (cm_cursor (st_chat m) = before_cursor)) (ch_messages c)) (InvalidParams "before_cursor") in
  let start := chat_page_start (ch_messages c) (end_ - clamp_limit limit) end_ in
  let items := st_chat <$> slice start end_ (ch_messages c) in
  Ok (mkPage task_id items (bool_decide (0 < start)%nat) (Z.of_nat (length (ch_messages c))) (ch_revision c)
        (cm_cursor <$> head items) (cm_cursor <$> last items)).

(** ** Cursors *)

Lemma digit_char x : (x < 10)%N -> Z.of_N (Ascii.N_of_ascii (pretty_N_char x)) = 48 + Z.of_N x.
Proof.
  intros H. assert (x = 0 \/ x = 1 \/ x = 2 \/ x = 3 \/ x = 4 \/ x = 5 \/ x = 6 \/ x = 7 \/ x = 8 \/ x = 9)%N as Hx by lia.
  by repeat destruct Hx as [-> |Hx]; [..|rewrite Hx].
Qed.

Lemma digit_ok d : (d < 10)%N -> is_digit (48 + Z.of_N d) = true.
Proof. intros H. unfold is_digit. apply bool_decide_eq_true. lia. Qed.

Definition digits_value (acc : Z) (l : list Z) : Z := foldl (fun acc b => 10 * acc + (b - 48)) acc l.

Lemma pretty_go_digits x s : Forall (fun b => is_digit b = true) (bytes_of s) ->
  Forall (fun b => is_digit b = true) (bytes_of (pretty_N_go x s)) /\
  digits_value 0 (bytes_of (pretty_N_go x s)) = digits_value (Z.of_N x) (bytes_of s) /\ (length (bytes_of s) <= length (bytes_of (pretty_N_go x s)))%nat.
Proof.
  revert s. induction (N.lt_wf_0 x) as [x _ IH]; intros s Hs. assert (x = 0 \/ 0 < x)%N as [-> |Hx] by lia; [done|].
  rewrite pretty_N_go_step by done. assert (x `mod` 10 < 10)%N as Hd by (by apply N.mod_lt).
  assert (bytes_of (String (pretty_N_char (x `mod` 10)) s) = 48 + Z.of_N (x `mod` 10) :: bytes_of s) as Hb
    by (unfold bytes_of; cbn [String.list_ascii_of_string fmap list_fmap]; by rewrite digit_char).
  destruct (IH (x `div` 10)%N ltac:(by apply N.div_lt) (String (pretty_N_char (x `mod` 10)) s)) as (H1 & H2 & H3).
  { rewrite Hb. constructor; [by apply digit_ok|done]. }
  rewrite Hb in H2, H3. split_and!; [done| |clear - H3; cbn [length] in H3; lia]. rewrite H2. cbn. f_equal.
  rewrite N2Z.inj_div, N2Z.inj_mod. change (Z.of_N 10) with 10. pose proof (Z.div_mod (Z.of_N x) 10). lia.
Qed.

Lemma pretty_digits n : Forall (fun b => is_digit b = true) (bytes_of (pretty n)) /\ digits_value 0 (bytes_of (pretty n)) = Z.of_N n /\
  bytes_of (pretty n) <> [].
Proof.
  unfold pretty, pretty_N. case_decide as E; [subst n; by split_and!; [repeat constructor|..]|].
  rewrite pretty_N_go_step by lia. assert (n `mod` 10 < 10)%N as Hd by (by apply N.mod_lt).
  assert (bytes_of (String (pretty_N_char (n `mod` 10)) "") = [48 + Z.of_N (n `mod` 10)]) as Hb
    by (unfold bytes_of; cbn [String.list_ascii_of_string fmap list_fmap]; by rewrite digit_char).
  destruct (pretty_go_digits (n `div` 10)%N (String (pretty_N_char (n `mod` 10)) "")) as (H1 & H2 & H3).
  { rewrite Hb. constructor; [by apply digit_ok|done]. }
  rewrite Hb in H2, H3. split_and!; [done| |intros E'; rewrite E' in H3; clear - H3; cbn in H3; lia]. rewrite H2. cbn.
  rewrite N2Z.inj_div, N2Z.inj_mod. change (Z.of_N 10) with 10. pose proof (Z.div_mod (Z.of_N n) 10). lia.
Qed.

Lemma parse_pretty bound n : Z.of_N n < bound -> parse_unsigned bound (pretty n) = Some (Z.of_N n).
Proof.
  intros Hn. destruct (pretty_digits n) as (H1 & H2 & H3). unfold parse_unsigned.
  assert (match bytes_of (pretty n) with 43 :: (_ :: _) as rest => drop 1 rest | l => l end = bytes_of (pretty n)) as ->.
  { destruct (bytes_of (pretty n)) as [|b l]; [done|]. apply Forall_cons in H1 as [Hb _]. unfold is_digit in Hb. apply bool_decide_eq_true in Hb.
    destruct b as [|b|b]; try lia. repeat (destruct b as [b|b|]; try done; try lia). }
  rewrite bool_decide_eq_false_2 by done. assert (forallb is_digit (bytes_of (pretty n)) = true) as ->.
  { apply forallb_forall. intros b Hb. rewrite Forall_forall in H1. by apply H1, list_elem_of_In. }
  cbn [negb orb]. fold (digits_value 0 (bytes_of (pretty n))). rewrite H2. by rewrite bool_decide_eq_true_2.
Qed.

Lemma bytes_of_app a b : bytes_of (a +:+ b) = bytes_of a ++ bytes_of b.
Proof. induction a as [|c a IH]; [done|]. change (String c a +:+ b) with (String c (a +:+ b)). unfold bytes_of in *.
  cbn. f_equal. exact IH. Qed.

Lemma cursor_round_trip sequence : 0 <= sequence < u64_modulus -> to_sequence (from_sequence sequence) = Ok sequence.
Proof.
  intros H. unfold to_sequence, from_sequence. rewrite bytes_of_app.
  assert (strip_prefix (bytes_of "m:") (bytes_of "m:" ++ bytes_of (pretty (Z.to_N sequence))) = Some (bytes_of (pretty (Z.to_N sequence)))) as ->
    by (by apply strip_prefix_Some).
  cbn [ok_or result_bind]. rewrite of_bytes_of, parse_pretty by lia. cbn. f_equal. lia.
Qed.

(** Rows as the store numbers them. *)
Record rows_numbered (messages : list StoredMessage) : Prop := mkNumbered {
  rn_unique : NoDup (st_sequence <$> messages);
  rn_cursor : Forall (fun m => 0 <= st_sequence m < u64_modulus /\ cm_cursor (st_chat m) = from_sequence (st_sequence m)) messages;
}.

Lemma position_at {A} `{EqDecision A} (f : StoredMessage -> A) messages i m : NoDup (f <$> messages) -> messages !! i = Some m ->
  position (fun x => bool_decide (f x = f m)) messages = Some i.
Proof.
  revert i. induction messages as [|x messages IH]; intros i Hnd Hi; [done|]. rewrite fmap_cons in Hnd. apply NoDup_cons in Hnd as [Hn Hnd].
  cbn. destruct i as [|i]; cbn in Hi; [injection Hi as ->; by rewrite bool_decide_eq_true_2|].
  rewrite bool_decide_eq_false_2; [by rewrite (IH i Hnd Hi)|]. intros E. apply Hn. rewrite E. apply list_elem_of_fmap. exists m.
  split; [done|]. by eapply list_elem_of_lookup_2.
Qed.

Lemma page_before_index_at messages i m : rows_numbered messages -> messages !! i = Some m ->
  page_before_index messages (cm_cursor (st_chat m)) = Ok i.
Proof.
  intros [Hu Hc] Hi. rewrite Forall_lookup in Hc. destruct (Hc i m Hi) as [Hs ->]. unfold page_before_index.
  rewrite cursor_round_trip by done. by rewrite (position_at st_sequence _ i m Hu Hi).
Qed.

(** ** Where a page starts *)

Lemma scan_user messages steps index turns found t : (forall f, found = Some f -> at_row is_user_row messages f = true) ->
  scan_turns messages steps index turns found = Some t -> at_row is_user_row messages t = true.
Proof.
  revert index turns found. induction steps as [|steps IH]; intros index turns found Hf; cbn; [apply Hf|].
  destruct (at_row is_user_row messages (index - 1)) eqn:E; [|by apply IH]. case_bool_decide; [by intros [= <-]|]. apply IH. by intros f [= <-].
Qed.

Lemma user_is_not_work messages i : at_row is_user_row messages i = true -> at_row is_work messages i = false.
Proof. unfold at_row, is_user_row, is_work. destruct (messages !! i) as [m|]; [|done]. by destruct (cm_message (st_chat m)). Qed.

Lemma run_back_spec messages n : let r := run_back messages n in
  (r <= n)%nat /\ (forall i, (r < i <= n)%nat -> at_row is_work messages i = true) /\ (r = 0%nat \/ at_row is_work messages r = false).
Proof.
  induction n as [|n (IH1 & IH2 & IH3)]; cbn; [split_and!; [lia|intros i Hi; lia|auto]|].
  destruct (at_row is_work messages (S n)) eqn:E; [|split_and!; [lia|intros i Hi; lia|auto]].
  split_and!; [lia| |done]. intros i Hi. destruct (decide (i = S n)) as [-> |]; [done|]. apply IH2. lia.
Qed.

(** Nothing before the start of the page belongs to its first row: the row is not
    work, or the row before it is not, or only one row is before it. *)
Definition unsplit (messages : list StoredMessage) (start : nat) : Prop :=
  at_row is_work messages start = true -> (start <= 1)%nat \/ at_row is_work messages (start - 1) = false.

Lemma start_inner messages requested : at_row is_work messages 0 = false \/ (0 < requested)%nat ->
  let start := if negb (at_row is_work messages requested) then requested
               else let run_start := run_back messages requested in
                    if at_row is_user_row messages run_start then run_start else S run_start in
  (start <= requested)%nat /\ unsplit messages start.
Proof.
  intros H0. destruct (at_row is_work messages requested) eqn:E; cbn [negb]; [|split; [done|intros; congruence]].
  destruct (run_back_spec messages requested) as (H1 & H2 & H3). cbn zeta. set (r := run_back messages requested) in *.
  assert (r < requested)%nat as Hlt. { destruct (decide (r = requested)) as [Er|]; [|lia]. rewrite Er in H3. destruct H3 as [->|H3]; [destruct H0; [congruence|lia]|congruence]. }
  destruct (at_row is_user_row messages r) eqn:Eu.
  - split; [lia|]. apply user_is_not_work in Eu. intros Ew. congruence.
  - split; [lia|]. intros _. replace (S r - 1)%nat with r by lia. destruct H3 as [->|H3]; [left; lia|by right].
Qed.

Lemma page_start_spec messages requested end_ : (requested <= end_ <= length messages)%nat ->
  (chat_page_start messages requested end_ <= requested)%nat /\
  ((requested < length messages)%nat -> unsplit messages (chat_page_start messages requested end_)).
Proof.
  intros Hr. unfold chat_page_start. destruct (bool_decide (requested = 0%nat)) eqn:E0; cbn [orb].
  { apply bool_decide_eq_true in E0. subst. split; [done|]. intros _ _. left. lia. }
  apply bool_decide_eq_false in E0. case_bool_decide as El; [split; [done|lia]|].
  set (steps := (end_ - _)%nat). destruct (scan_turns messages steps end_ 0 None) as [t|] eqn:Es.
  - apply scan_user in Es; [|done]. apply user_is_not_work in Es.
    destruct (start_inner messages (Nat.min requested t)) as [H1 H2]; [destruct t; [auto|right; lia]|]. split; [etrans; [exact H1|lia]|done].
  - destruct (start_inner messages requested) as [H1 H2]; [right; lia|]. done.
Qed.

(** How many user rows there are from [start] on, over [n] rows. *)
Definition user_rows (messages : list StoredMessage) (start n : nat) : nat :=
  length (filter (fun i => at_row is_user_row messages i = true) (seq start n)).

Lemma user_rows_S messages start n : user_rows messages start (S n) =
  (user_rows messages start n + if at_row is_user_row messages (start + n) then 1 else 0)%nat.
Proof.
  unfold user_rows. rewrite seq_S, filter_app, length_app, filter_cons, filter_nil. destruct (at_row is_user_row messages (start + n)); [|done].
  by rewrite decide_True.
Qed.

Lemma scan_found messages steps index turns f : (index <= f)%nat -> exists t, scan_turns messages steps index turns (Some f) = Some t /\ (t <= f)%nat.
Proof.
  revert index turns f. induction steps as [|steps IH]; intros index turns f Hi; cbn; [by exists f|].
  destruct (at_row _ _ _); [|apply IH; lia]. case_bool_decide; [exists (index - 1)%nat; split; [done|lia]|].
  destruct (IH (index - 1)%nat (S turns) (index - 1)%nat ltac:(lia)) as (t & Ht & Hle). exists t. split; [done|lia].
Qed.

Lemma scan_reaches messages steps turns found u n : (n < steps)%nat -> at_row is_user_row messages u = true ->
  (turns + user_rows messages u (S n) <= TARGET_CHAT_TURNS)%nat ->
  exists t, scan_turns messages steps (u + S n) turns found = Some t /\ (t <= u)%nat.
Proof.
  intros Hn Hu. revert n turns found Hn. induction steps as [|steps IH]; intros n turns found Hn Hc; [lia|]. cbn [scan_turns].
  replace (u + S n - 1)%nat with (u + n)%nat by lia. rewrite user_rows_S in Hc.
  destruct (at_row is_user_row messages (u + n)) eqn:E.
  - case_bool_decide as Et.
    + exists (u + n)%nat. split; [done|]. destruct n as [|n]; [lia|]. rewrite user_rows_S in Hc.
      assert (1 <= user_rows messages u (S n))%nat as Hone.
      { clear - Hu. induction n as [|n IHn]; rewrite user_rows_S; [rewrite Nat.add_0_r, Hu; lia|lia]. }
      rewrite user_rows_S in Hone. lia.
    + destruct n as [|n]; [rewrite Nat.add_0_r; by apply scan_found|]. apply IH; [lia|]. lia.
  - destruct n as [|n]; [rewrite Nat.add_0_r in E; congruence|]. apply IH; [lia|]. lia.
Qed.

(** A page of a Chat starts no later than it was asked to, reaches back to
    every user row among the ten newest turns that lie within the last 500 rows
    before its end, and does not separate a row of work (a Tool activity or a
    thought) from the work right before it, except when that leaves a single row
    before the page. *)
Theorem page_starts_at_a_turn messages requested end_ : (requested <= end_ <= length messages)%nat -> (requested < length messages)%nat ->
  let start := chat_page_start messages requested end_ in
  (start <= requested)%nat /\ unsplit messages start /\
  (forall u, (end_ - MAX_SEMANTIC_WINDOW_RECORDS <= u < end_)%nat -> at_row is_user_row messages u = true ->
     (user_rows messages u (end_ - u) <= TARGET_CHAT_TURNS)%nat -> (start <= u)%nat).
Proof.
  intros Hr Hl start. destruct (page_start_spec messages requested end_ Hr) as [H1 H2]. split_and!; [done|by apply H2|].
  intros u Hu Huser Hcount. unfold start, chat_page_start. destruct (bool_decide (requested = 0%nat)) eqn:E0; cbn [orb].
  { apply bool_decide_eq_true in E0. lia. }
  rewrite bool_decide_eq_false_2 by lia. destruct (scan_reaches messages (end_ - (end_ - MAX_SEMANTIC_WINDOW_RECORDS)) 0 None u (end_ - u - 1)) as (t & Ht & Hle);
    [lia|done|by replace (S (end_ - u - 1)) with (end_ - u)%nat by lia|].
  replace (u + S (end_ - u - 1))%nat with end_ in Ht by lia. rewrite Ht. apply scan_user in Ht as Htu; [|done]. apply user_is_not_work in Htu.
  apply bool_decide_eq_false in E0. destruct (start_inner messages (Nat.min requested t)) as [H3 _]; [destruct t; [auto|right; lia]|].
  etrans; [exact H3|lia].
Qed.

(** ** Reading back *)

Lemma slice_app {A} (l : list A) a b c : (a <= b <= c)%nat -> slice a b l ++ slice b c l = slice a c l.
Proof.
  intros H. unfold slice. rewrite <- (take_drop b (take c l)) at 2. rewrite take_take, Nat.min_l by lia. rewrite drop_app. f_equal.
  destruct (decide (length l < b)%nat) as [Hl|Hl].
  - assert (drop b (take c l) = []) as -> by (apply drop_ge; rewrite length_take; lia). by rewrite drop_nil.
  - replace (a - length (take b l))%nat with 0%nat by (rewrite length_take; lia). done.
Qed.

Section Reading.
Context (read_tool_artifact : string -> result ActivityToolDetails RuntimeError)
        (infer_saved_execute_presentation : list string -> option ToolPresentation).

Abbreviation shown := (with_lightweight_tool_summaries read_tool_artifact infer_saved_execute_presentation).
Abbreviation page_of := (page_from_projection read_tool_artifact infer_saved_execute_presentation).
Abbreviation before := (page_before read_tool_artifact infer_saved_execute_presentation).

Lemma shown_cursor c : cm_cursor (shown c) = cm_cursor c.
Proof. unfold with_lightweight_tool_summaries. by destruct (cm_message c). Qed.

Lemma page_start_cursor p start end_ m : (start < end_)%nat -> pj_messages p !! start = Some m ->
  mp_start_cursor (page_of p start end_) = Some (cm_cursor (st_chat m)).
Proof.
  intros Hlt Hm. cbn. rewrite <- (shown_cursor (st_chat m)). f_equal. unfold slice.
  rewrite (drop_S (take end_ (pj_messages p)) m start); [done|]. by rewrite lookup_take_lt.
Qed.

Lemma read_back_all p limit fuel start end_ : rows_numbered (pj_messages p) -> (start <= end_ <= length (pj_messages p))%nat ->
  (start < end_ \/ start = 0)%nat -> (start <= fuel)%nat ->
  read_back read_tool_artifact infer_saved_execute_presentation fuel limit p (page_of p start end_)
  = Some ((fun m => shown (st_chat m)) <$> take end_ (pj_messages p)).
Proof.
  intros Hn. revert start end_. induction fuel as [|fuel IH]; intros start end_ Hle Hne Hf.
  - assert (start = 0)%nat as -> by lia. by unfold read_back, page_from_projection, slice.
  - destruct (decide (start = 0%nat)) as [-> |Hs]; [by unfold read_back, page_from_projection, slice|].
    destruct (lookup_lt_is_Some_2 (pj_messages p) start ltac:(lia)) as [m Hm]. cbn [read_back].
    assert (mp_has_before (page_of p start end_) = true) as -> by (cbn; apply bool_decide_eq_true; lia). cbn [negb].
    rewrite (page_start_cursor p start end_ m) by (done || lia). cbn [mbind option_bind].
    unfold page_before. rewrite (page_before_index_at _ _ _ Hn Hm). cbn [result_bind].
    set (start' := chat_page_start (pj_messages p) (start - clamp_limit limit) start).
    assert (start' <= start - clamp_limit limit)%nat as Hs' by (apply page_start_spec; lia).
    assert (1 <= clamp_limit limit)%nat as Hlim by (unfold clamp_limit; lia).
    rewrite IH by lia. cbn [mbind option_bind]. f_equal. cbn [mp_items page_from_projection]. rewrite <- fmap_app. f_equal.
    replace (take start (pj_messages p)) with (slice 0 start (pj_messages p)) by done.
    rewrite slice_app by lia. done.
Qed.

(** C35. Paging loses and repeats nothing: a client that takes the tail page of a
    Chat and then asks, as long as a page says that more is before it, for the
    page before its first cursor, whatever limit it asks with, gets every row of
    the Chat once and in order, and needs no more requests than the Chat has
    rows. *)
Theorem pages_tile_the_history p limit : rows_numbered (pj_messages p) ->
  read_back read_tool_artifact infer_saved_execute_presentation (length (pj_messages p)) limit p
    (tail_page read_tool_artifact infer_saved_execute_presentation limit p)
  = Some ((fun m => shown (st_chat m)) <$> pj_messages p).
Proof.
  intros Hn. unfold tail_page. set (total := length (pj_messages p)).
  assert (chat_page_start (pj_messages p) (total - clamp_limit limit) total <= total - clamp_limit limit)%nat as Hs by (apply page_start_spec; lia).
  assert (1 <= clamp_limit limit)%nat as Hlim by (unfold clamp_limit; lia).
  rewrite (read_back_all p limit) by (done || lia). by rewrite take_ge.
Qed.
End Reading.
End Paging.

(** ** Witnesses *)

Module PagingWitness.
Import ChatWitness.

Definition row (q : Z) (m : NormalizedMessage) : StoredMessage :=
  mkStored q (mkChat (from_sequence q) (identity m) "t" (identity m) m (mkTiming None None None)).
Definition asked (q : Z) : StoredMessage := row q (MUser (pretty q) "hi" "1" []).
Definition work (q : Z) : StoredMessage := row q (MActivity (pretty q) "Run" Running "1" false []).
Definition said (q : Z) : StoredMessage := row q (MAgentMessage (pretty q) RoleAgent [PartText "ok"] "1").

Definition rows : list StoredMessage := [asked 1; work 2; work 3; said 4; said 5; said 6; said 7].
Definition chat : TaskProjection := mkProjection (RecordWitness.sample "t") rows (JournalWitness.meta 7) ∅.
Definition no_artifact (id : string) : result ActivityToolDetails RuntimeError := Err (TaskNotFound id).

Lemma rows_ok : rows_numbered rows.
Proof. split; apply (bool_decide_unpack _); vm_compute; exact I. Qed.

Lemma pages_tile_the_history_witness :
  read_back no_artifact (fun _ => None) 7 2 chat (tail_page no_artifact (fun _ => None) 2 chat) = Some (st_chat <$> rows).
Proof. exact (pages_tile_the_history no_artifact (fun _ => None) chat 2 rows_ok). Defined.

Lemma page_starts_at_a_turn_witness :
  let start := chat_page_start rows 2 4 in (start <= 2)%nat /\ unsplit rows start /\ start = 0%nat.
Proof.
  destruct (page_starts_at_a_turn rows 2 4) as (H1 & H2 & H3); [vm_compute; lia|vm_compute; lia|]. split_and!; [done|done|]. reflexivity.
Defined.

(** A history that begins with work: its first row is cut off from the rest. *)
Example first_row_is_cut_off : chat_page_start [work 1; work 2; work 3] 2 3 = 1%nat.
Proof. reflexivity. Qed.
End PagingWitness.
