(* ===== verification/Pairing.v ===== *)
(** * Pairing codes

    [remote_devices/pairing_code.rs]: the text a QR code carries between an App
    Server and a new device, and the labels a device reports about itself.

    A string is its UTF-8 bytes.  Keys and base32 belong to third-party packages
    and are the class [KeyCodecs], with what the code relies on in
    [KeyCodecsLaws]. *)

From S2P Require Import Prelude Records.
Local Open Scope Z_scope.

(** ** Characters of a UTF-8 string *)

Definition continuation (b : Z) : bool := bool_decide (128 <= b < 192).

(** [str::chars], each character as its bytes: a byte that starts a character
    and the continuation bytes after it. *)
Fixpoint chars (l : list Z) : list (list Z) :=
  match l with
  | [] => []
  | b :: l =>
      match chars l with
      | [] => [[b]]
      | g :: gs => if option_map continuation (head l) is Some true then (b :: g) :: gs else [b] :: g :: gs
      end
  end.

Definition between (a b x : Z) : bool := bool_decide (a <= x <= b).

(** The well-formed byte sequences of one character. *)
Definition valid_char (c : list Z) : bool :=
  match c with
  | [a] => between 0 127 a
  | [a; b] => between 194 223 a && continuation b
  | [a; b; c] =>
      (bool_decide (a = 224) && between 160 191 b || between 225 236 a && continuation b
       || bool_decide (a = 237) && between 128 159 b || between 238 239 a && continuation b)
      && continuation c
  | [a; b; c; d] =>
      (bool_decide (a = 240) && between 144 191 b || between 241 243 a && continuation b
       || bool_decide (a = 244) && between 128 143 b)
      && continuation c && continuation d
  | _ => false
  end.

Definition valid_utf8 (l : list Z) : bool := forallb valid_char (chars l).
Definition from_utf8 (l : list Z) : option (list Z) := if valid_utf8 l then Some l else None.

(** [char::is_control]: U+0000 to U+001F and U+007F to U+009F. *)
Definition is_control (c : list Z) : bool :=
  match c with
  | [a] => between 0 31 a || bool_decide (a = 127)
  | [a; b] => bool_decide (a = 194) && between 128 159 b
  | _ => false
  end.

Definition is_char_boundary (l : list Z) (i : nat) : bool :=
  bool_decide (i = O) || bool_decide (i = length l) ||
  match l !! i with Some b => negb (continuation b) | None => false end.

(** The loop that moves [end] back to a boundary; zero is one. *)
Fixpoint floor_boundary (l : list Z) (i : nat) : nat :=
  if is_char_boundary l i then i else match i with S i => floor_boundary l i | O => O end.

Definition MAX_LABEL_BYTES : nat := 64.

Definition clamp_bytes (label : list Z) : list Z :=
  let label := trim_bytes label in
  let end_ := floor_boundary label (length label `min` MAX_LABEL_BYTES) in
  concat (List.filter (fun c => negb (is_control c)) (chars (take end_ label))).

Definition clamp_label (label : string) : string := of_bytes (clamp_bytes (bytes_of label)).

(** ** Lemmas on characters *)

Definition shaped (c : list Z) : Prop :=
  exists b t, c = b :: t /\ continuation b = false /\ Forall (fun x => continuation x = true) t.

Lemma chars_nonempty b l : exists t gs, chars (b :: l) = (b :: t) :: gs.
Proof. cbn. destruct (chars l) as [|g gs]; [by exists [], []|]. destruct (option_map _ _) as [[]|]; eauto. Qed.

Lemma chars_cons b c l :
  chars (b :: c :: l) =
    if continuation c then (b :: default [] (head (chars (c :: l)))) :: tail (chars (c :: l))
    else [b] :: chars (c :: l).
Proof.
  destruct (chars_nonempty c l) as (t & gs & E).
  change (chars (b :: c :: l)) with
    (match chars (c :: l) with
     | [] => [[b]]
     | g :: gs => if continuation c then (b :: g) :: gs else [b] :: g :: gs end).
  by rewrite E.
Qed.

Lemma concat_chars l : concat (chars l) = l.
Proof.
  induction l as [|b l IH]; [done|]. destruct l as [|c l]; [done|]. rewrite chars_cons.
  destruct (chars_nonempty c l) as (t & gs & E). rewrite E in *. destruct (continuation c); cbn in *; by rewrite IH.
Qed.

(** A character starts where a byte is no continuation. *)
Lemma chars_app l b t : continuation b = false -> chars (l ++ b :: t) = chars l ++ chars (b :: t).
Proof.
  intros Hb. induction l as [|a l IH]; [done|]. destruct l as [|c l].
  - cbn [app]. by rewrite chars_cons, Hb.
  - cbn [app] in IH |- *. rewrite !chars_cons, IH. destruct (chars_nonempty c l) as (t' & gs & E).
    rewrite E. by destruct (continuation c).
Qed.

Lemma chars_continuations b t :
  Forall (fun x => continuation x = true) t -> chars (b :: t) = [b :: t].
Proof.
  revert b. induction t as [|c t IH]; intros b Ht; [done|].
  apply Forall_cons in Ht as [Hc Ht]. by rewrite chars_cons, Hc, (IH c Ht).
Qed.

Lemma chars_concat cs : Forall shaped cs -> chars (concat cs) = cs.
Proof.
  induction cs as [|c cs IH] using rev_ind; [done|]. rewrite Forall_app, Forall_singleton.
  intros [Hcs (b & t & -> & Hb & Ht)]. rewrite concat_app. cbn [concat]. rewrite app_nil_r, chars_app by done.
  by rewrite IH, chars_continuations.
Qed.

Lemma between_not_continuation a b x : between a b x = true -> (b < 128 \/ 192 <= a) -> continuation x = false.
Proof. unfold between, continuation. intros H%bool_decide_eq_true ?. apply bool_decide_eq_false. lia. Qed.
Lemma between_continuation a b x : between a b x = true -> 128 <= a -> b < 192 -> continuation x = true.
Proof. unfold between, continuation. intros H%bool_decide_eq_true ??. apply bool_decide_eq_true. lia. Qed.

(** Case analysis of a Boolean combination of byte tests. *)
Ltac byte_tests :=
  repeat match goal with
  | H : orb _ _ = true |- _ => apply orb_true_iff in H as [H|H]
  | H : andb _ _ = true |- _ => apply andb_true_iff in H as [? ?]
  | H : bool_decide _ = true |- _ => apply bool_decide_eq_true in H
  | H : between _ _ _ = true |- _ => unfold between in H
  | H : continuation _ = true |- _ => unfold continuation in H
  end.

Lemma valid_char_shaped c : valid_char c = true -> shaped c.
Proof.
  assert (forall a b x, between a b x = true -> 128 <= a -> b < 192 -> continuation x = true) as Hc
    by apply between_continuation.
  destruct c as [|a [|b [|d [|e [|? ?]]]]]; cbn; try done; intros H.
  all: exists a; eexists; split; [reflexivity|].
  all: byte_tests; subst.
  all: (split; [apply bool_decide_eq_false; lia|]).
  all: repeat constructor.
  all: apply bool_decide_eq_true; lia.
Qed.

(** The first byte of a character says how long it is. *)
Lemma valid_char_length c c' more :
  valid_char c = true -> valid_char c' = true -> c' = c ++ more -> more = [].
Proof.
  destruct c as [|a [|b [|d [|e [|? ?]]]]]; try done; destruct c' as [|a' [|b' [|d' [|e' [|? ?]]]]]; try done;
    intros H H' [=]; subst; try done; cbn in H, H'; byte_tests; lia.
Qed.

Lemma valid_utf8_chars l : valid_utf8 l = true <-> Forall (fun c => valid_char c = true) (chars l).
Proof. unfold valid_utf8. by rewrite forallb_forall, <- List.Forall_forall. Qed.

Lemma valid_utf8_concat cs : Forall (fun c => valid_char c = true) cs -> valid_utf8 (concat cs) = true.
Proof.
  intros Hcs. apply valid_utf8_chars. rewrite chars_concat; [done|].
  eapply Forall_impl; [exact Hcs|]. apply valid_char_shaped.
Qed.

(** Cutting off a character at either end leaves a valid string. *)
Lemma valid_utf8_tail w l : valid_char w = true -> valid_utf8 (w ++ l) = true -> valid_utf8 l = true.
Proof.
  intros Hw Hl. pose proof (valid_char_shaped _ Hw) as (b & t & -> & Hb & Ht).
  rewrite valid_utf8_chars in Hl. destruct l as [|c l]; [done|].
  destruct (continuation c) eqn:Hc.
  - exfalso. assert (exists more gs, chars ((b :: t) ++ c :: l) = ((b :: t) ++ c :: more) :: gs) as (more & gs & E).
    { clear -Hc Ht. revert b. induction t as [|d t IH]; intros b; cbn [app].
      - rewrite chars_cons, Hc. destruct (chars_nonempty c l) as (more & gs & ->). by exists more, gs.
      - apply Forall_cons in Ht as [Hd Ht]. destruct (IH Ht d) as (more & gs & E).
        cbn [app] in E. rewrite chars_cons, Hd, E. by exists more, gs. }
    rewrite E in Hl. apply Forall_cons in Hl as [Hl _].
    by pose proof (valid_char_length _ _ _ Hw Hl eq_refl).
  - rewrite valid_utf8_chars. cbn [app] in Hl. change (b :: t ++ c :: l) with ((b :: t) ++ c :: l) in Hl.
    rewrite chars_app in Hl by done. by apply Forall_app in Hl as [_ Hl].
Qed.

Lemma valid_utf8_front l w : valid_char w = true -> valid_utf8 (l ++ w) = true -> valid_utf8 l = true.
Proof.
  intros Hw Hl. pose proof (valid_char_shaped _ Hw) as (b & t & -> & Hb & Ht).
  rewrite valid_utf8_chars, chars_app in Hl by done. rewrite valid_utf8_chars. by apply Forall_app in Hl as [Hl _].
Qed.

Lemma whitespace_valid w : w ∈ whitespace -> valid_char w = true.
Proof. intros Hw. revert w Hw. apply Forall_forall. apply (bool_decide_unpack _). vm_compute. exact I. Qed.

Lemma trim_start_valid l : valid_utf8 l = true -> valid_utf8 (trim_start l) = true.
Proof.
  unfold trim_start. generalize (length l). intros n. revert l. induction n as [|n IH]; intros l Hl; cbn [strip_all]; [done|].
  destruct (strip_one whitespace l) as [rest|] eqn:E; [|done]. apply IH.
  apply strip_one_spec in E as (w & Hw & ->). eapply valid_utf8_tail; [by apply whitespace_valid|done].
Qed.

Lemma trim_end_valid l : valid_utf8 l = true -> valid_utf8 (trim_end l) = true.
Proof.
  unfold trim_end. generalize (length l). intros n. rewrite <- (rev_involutive l) at 1. generalize (rev l). clear l.
  induction n as [|n IH]; intros l Hl; cbn [strip_all]; [done|].
  destruct (strip_one (@rev Z <$> whitespace) l) as [rest|] eqn:E; [|done]. apply IH.
  apply strip_one_spec in E as (w & Hw & ->). apply list_elem_of_fmap in Hw as (v & -> & Hv).
  rewrite rev_app_distr, rev_involutive in Hl. eapply valid_utf8_front; [by apply whitespace_valid|done].
Qed.

Lemma floor_boundary_ok l i : (floor_boundary l i <= i)%nat /\ is_char_boundary l (floor_boundary l i) = true.
Proof.
  induction i as [|i [IH IH']]; cbn [floor_boundary]; [done|].
  destruct (is_char_boundary l (S i)) eqn:E; [done|]. split; [lia|done].
Qed.

(** A string cut at a boundary keeps the characters before it. *)
Lemma chars_take l i : is_char_boundary l i = true -> exists rest, chars l = chars (take i l) ++ rest.
Proof.
  unfold is_char_boundary. intros [[H%bool_decide_eq_true|H%bool_decide_eq_true]%orb_true_iff|H]%orb_true_iff.
  - subst. by exists (chars l).
  - subst. exists []. by rewrite firstn_all, app_nil_r.
  - destruct (l !! i) as [b|] eqn:E; [|done]. apply negb_true_iff in H.
    exists (chars (drop i l)). rewrite <- (take_drop i l) at 1. rewrite (drop_S _ _ _ E). by apply chars_app.
Qed.

Lemma clamp_chars label : valid_utf8 label = true ->
  exists cs rest, chars (trim_bytes label) = cs ++ rest /\ (length (concat cs) <= MAX_LABEL_BYTES)%nat /\
    chars (clamp_bytes label) = List.filter (fun c => negb (is_control c)) cs /\
    Forall (fun c => valid_char c = true) (chars (clamp_bytes label)).
Proof.
  intros Hl. assert (valid_utf8 (trim_bytes label) = true) as Ht by by apply trim_end_valid, trim_start_valid.
  unfold clamp_bytes. set (t := trim_bytes label) in *.
  destruct (floor_boundary_ok t (length t `min` MAX_LABEL_BYTES)) as [Hle Hb].
  set (i := floor_boundary _ _) in *. destruct (chars_take t i Hb) as [rest Hr].
  exists (chars (take i t)), rest. rewrite concat_chars, length_take.
  apply valid_utf8_chars in Ht. rewrite Hr in Ht. apply Forall_app in Ht as [Ht _].
  assert (Forall (fun c => valid_char c = true) (List.filter (fun c => negb (is_control c)) (chars (take i t)))) as Hf.
  { apply Forall_forall. intros c Hc%list_elem_of_In%filter_In. destruct Hc as [Hc%list_elem_of_In _].
    by eapply Forall_forall in Ht. }
  rewrite (chars_concat (List.filter _ _)); [split; [done|split; [lia|done]]|].
  eapply Forall_impl; [exact Hf|]. apply valid_char_shaped.
Qed.

Lemma clamp_bytes_short label : valid_utf8 label = true -> (length (clamp_bytes label) <= MAX_LABEL_BYTES)%nat.
Proof.
  intros Hl. destruct (clamp_chars label Hl) as (cs & rest & _ & Hlen & Hc & _).
  rewrite <- (concat_chars (clamp_bytes label)), Hc. etrans; [|exact Hlen]. clear.
  induction cs as [|c cs IH]; cbn; [done|]. destruct (negb _); cbn; rewrite ?length_app; lia.
Qed.

Lemma clamp_bytes_plain label :
  valid_utf8 label = true -> Forall (fun c => is_control c = false) (chars (clamp_bytes label)).
Proof.
  intros Hl. destruct (clamp_chars label Hl) as (cs & rest & _ & _ & Hc & _). rewrite Hc.
  apply Forall_forall. intros c [_ H]%list_elem_of_In%filter_In. by apply negb_true_iff.
Qed.

Lemma clamp_bytes_valid label : valid_utf8 label = true -> valid_utf8 (clamp_bytes label) = true.
Proof. intros Hl. destruct (clamp_chars label Hl) as (cs & rest & _ & _ & _ & Hv). by apply valid_utf8_chars. Qed.

(** The characters of a valid string are bytes. *)
Lemma valid_utf8_bytes l : valid_utf8 l = true -> bytes_ok l.
Proof.
  intros Hl%valid_utf8_chars. rewrite <- (concat_chars l). induction Hl as [|c cs Hc _ IH]; [constructor|].
  cbn. apply Forall_app. split; [|done]. clear -Hc.
  destruct c as [|a [|b [|d [|e [|? ?]]]]]; try done; cbn in Hc; byte_tests; subst; repeat constructor; lia.
Qed.

Lemma clamp_label_bytes label :
  valid_utf8 (bytes_of label) = true -> bytes_of (clamp_label label) = clamp_bytes (bytes_of label).
Proof. intros H. unfold clamp_label. by rewrite bytes_of_bytes by by apply valid_utf8_bytes, clamp_bytes_valid. Qed.

(** ** Keys and base32 *)

(** What [iroh] and [data_encoding] provide: public and secret keys with their
    bytes and text, and base32 without padding. *)
Class KeyCodecs := {
  PublicKey : Type;
  PublicKey_eq_dec :: EqDecision PublicKey;
  key_bytes : PublicKey -> list Z;
  key_from_bytes : list Z -> option PublicKey;
  key_to_string : PublicKey -> string;
  key_parse : string -> option PublicKey;
  SecretKey : Type;
  secret_bytes : SecretKey -> list Z;
  secret_parse : string -> option SecretKey;
  secret_public : SecretKey -> PublicKey;
  base32_encode : list Z -> list Z;
  base32_decode : list Z -> option (list Z) }.

(** The hexadecimal text of [store.rs]. *)
Definition hex_digit (d : Z) : Z := if bool_decide (d < 10) then 48 + d else 87 + d.
Definition hex (bytes : list Z) : string :=
  of_bytes (bytes ≫= (fun b => [hex_digit (b / 16); hex_digit (b mod 16)])).

(** Documented behaviour the code relies on: keys have 32 bytes and are
    recovered from their bytes and text; base32 uses [A-Z2-7] and decodes what it
    encodes. *)
Class KeyCodecsLaws `{KeyCodecs} := {
  key_bytes_length k : length (key_bytes k) = 32%nat;
  key_bytes_ok k : bytes_ok (key_bytes k);
  key_from_bytes_of k : key_from_bytes (key_bytes k) = Some k;
  key_parse_of k : key_parse (key_to_string k) = Some k;
  secret_bytes_length k : length (secret_bytes k) = 32%nat;
  secret_parse_hex k : secret_parse (hex (secret_bytes k)) = Some k;
  base32_alphabet l : Forall (fun b => 65 <= b <= 90 \/ 50 <= b <= 55) (base32_encode l);
  base32_round_trip l : bytes_ok l -> base32_decode (base32_encode l) = Some l }.

Lemma key_to_string_inj `{KeyCodecsLaws} k k' : key_to_string k = key_to_string k' -> k = k'.
Proof. intros E. apply (f_equal key_parse) in E. rewrite !key_parse_of in E. by injection E. Qed.

(** ** Codes *)

Definition INVITE_PREFIX : list Z := bytes_of "OAI1".
Definition JOIN_PREFIX : list Z := bytes_of "OAJ1".
Definition KEY_LEN : nat := 32.
Definition INVITE_SECRET_LEN : nat := 16.

Inductive PairingCodeError := NotAPairingCode | WrongKind | Malformed.

(** The [thiserror] text. *)
Definition pairing_error_text (e : PairingCodeError) : string :=
  match e with
  | NotAPairingCode => "this is not an OpenAIDE pairing code"
  | WrongKind => "this code adds a device to a computer; open it on the new device"
  | Malformed => "the pairing code is damaged; read it again"
  end.

Section Codes.
Context `{KeyCodecs}.

Record InviteCode := mkInviteCode { ic_server : PublicKey; ic_secret : list Z }.
Record JoinCode := mkJoinCode { jc_device : PublicKey; jc_name : string; jc_model : option string }.

Definition invite_encode (c : InviteCode) : string :=
  of_bytes (INVITE_PREFIX ++ base32_encode (key_bytes (ic_server c) ++ ic_secret c)).

Definition to_ascii_uppercase (c : list Z) : list Z :=
  match c with [b] => if between 97 122 b then [b - 32] else [b] | _ => c end.

(** The code without the white space, dashes and case a person or app added. *)
Definition cleaned (code : list Z) : list Z :=
  concat (to_ascii_uppercase <$>
    List.filter (fun c => negb (bool_decide (c ∈ whitespace)) && negb (bool_decide (c = [45]))) (chars code)).

Definition decode_payload (code prefix other_prefix : list Z) : result (list Z) PairingCodeError :=
  let code := cleaned code in
  match strip_prefix prefix code with
  | None => Err (if is_some (strip_prefix other_prefix code) then WrongKind else NotAPairingCode)
  | Some payload => ok_or (base32_decode payload) Malformed
  end.

Definition public_key (bytes : list Z) : result PublicKey PairingCodeError :=
  if bool_decide (length bytes = KEY_LEN) then ok_or (key_from_bytes bytes) Malformed else Err Malformed.

Definition invite_decode (code : string) : result InviteCode PairingCodeError :=
  let? bytes := decode_payload (bytes_of code) INVITE_PREFIX JOIN_PREFIX in
  if bool_decide (length bytes <> (KEY_LEN + INVITE_SECRET_LEN)%nat) then Err Malformed
  else let? server := public_key (take KEY_LEN bytes) in Ok (mkInviteCode server (drop KEY_LEN bytes)).

(** A label and the bytes after it. *)
Definition take_label (rest : list Z) : result (string * list Z) PairingCodeError :=
  match rest with
  | [] => Err Malformed
  | len :: tail =>
      let len := Z.to_nat len in
      if bool_decide (MAX_LABEL_BYTES < len)%nat || bool_decide (length tail < len)%nat then Err Malformed
      else let? label := ok_or (from_utf8 (take len tail)) Malformed in
           Ok (of_bytes (clamp_bytes label), drop len tail)
  end.

Definition nonempty (s : string) : option string := if bool_decide (s = ""%string) then None else Some s.

Definition push_label (label : string) : list Z :=
  let label := clamp_bytes (bytes_of label) in Z.of_nat (length label) mod 256 :: label.

Definition join_encode (j : JoinCode) : string :=
  of_bytes (JOIN_PREFIX ++ base32_encode
    (key_bytes (jc_device j) ++ push_label (jc_name j) ++ push_label (default ""%string (jc_model j)))).

Definition join_decode (code : string) : result JoinCode PairingCodeError :=
  let? bytes := decode_payload (bytes_of code) JOIN_PREFIX INVITE_PREFIX in
  if bool_decide (length bytes < KEY_LEN)%nat then Err Malformed
  else
    let? device := public_key (take KEY_LEN bytes) in
    let? name := take_label (drop KEY_LEN bytes) in
    let? model := take_label name.2 in
    if bool_decide (model.2 <> []) || bool_decide (name.1 = ""%string) then Err Malformed
    else Ok (mkJoinCode device name.1 (nonempty model.1)).
End Codes.

(** ** Reading a code back *)

(** [retyped code typed]: [typed] is [code] with white space and dashes put in
    and letters in lower case. *)
Inductive retyped : list Z -> list Z -> Prop :=
| retyped_end : retyped [] []
| retyped_space w code typed : w ∈ [45] :: whitespace -> retyped code typed -> retyped code (w ++ typed)
| retyped_same b code typed : retyped code typed -> retyped (b :: code) (b :: typed)
| retyped_lower b code typed : 65 <= b <= 90 -> retyped code typed -> retyped (b :: code) (b + 32 :: typed).

(** Upper case letters and digits. *)
Definition code_byte (b : Z) : Prop := 65 <= b <= 90 \/ 48 <= b <= 57.

Lemma noise_shaped w : w ∈ [45] :: whitespace -> shaped w.
Proof.
  intros [->|Hw]%elem_of_cons; [by exists 45, []|]. by apply valid_char_shaped, whitespace_valid.
Qed.

Lemma chars_single b typed :
  continuation b = false -> (forall c, head typed = Some c -> continuation c = false) ->
  chars (b :: typed) = [b] :: chars typed.
Proof. intros Hb Ht. destruct typed as [|c typed]; [done|]. by rewrite chars_cons, Ht. Qed.

Lemma retyped_head code typed :
  retyped code typed -> Forall code_byte code -> forall c, head typed = Some c -> continuation c = false.
Proof.
  assert (forall b, 48 <= b <= 122 -> continuation b = false) as Hlow
    by (intros b ?; apply bool_decide_eq_false; lia).
  induction 1 as [|w code typed Hw _ IH|b code typed _ _|b code typed Hb _ _]; intros Hc c; [done| | |].
  - destruct (noise_shaped w Hw) as (b & t & -> & Hb & _). cbn. by intros [= <-].
  - apply Forall_cons in Hc as [Hb _]. cbn. intros [= <-]. apply Hlow. unfold code_byte in Hb. lia.
  - cbn. intros [= <-]. apply Hlow. lia.
Qed.

Lemma cleaned_single b typed :
  continuation b = false -> ~ [b] ∈ whitespace -> b <> 45 ->
  (forall c, head typed = Some c -> continuation c = false) ->
  cleaned (b :: typed) = to_ascii_uppercase [b] ++ cleaned typed.
Proof.
  intros Hb Hw Hd Ht. unfold cleaned. rewrite chars_single by done. cbn [List.filter].
  rewrite bool_decide_eq_false_2 by done. rewrite bool_decide_eq_false_2 by congruence. done.
Qed.

Lemma not_whitespace b : 48 <= b <= 122 -> ~ [b] ∈ whitespace.
Proof.
  intros Hb Hw. assert (Forall (fun w => forall x, w = [x] -> x < 48) whitespace) as H.
  { repeat constructor; intros x; try discriminate; intros [= <-]; lia. }
  rewrite Forall_forall in H. specialize (H _ Hw b eq_refl). lia.
Qed.

Lemma cleaned_retyped code typed : retyped code typed -> Forall code_byte code -> cleaned typed = code.
Proof.
  induction 1 as [|w code typed Hw Hr IH|b code typed Hr IH|b code typed Hb Hr IH]; intros Hc.
  - done.
  - destruct (noise_shaped w Hw) as (b & t & -> & Hb & Ht). unfold cleaned in *.
    assert (chars ((b :: t) ++ typed) = (b :: t) :: chars typed) as ->.
    { destruct typed as [|c typed]; [by rewrite app_nil_r, chars_continuations|].
      rewrite chars_app; [by rewrite chars_continuations|].
      by eapply retyped_head. }
    cbn [List.filter]. replace (negb _ && negb _) with false; [auto|]. symmetry. apply andb_false_iff.
    rewrite !negb_false_iff, !bool_decide_eq_true. apply elem_of_cons in Hw. tauto.
  - apply Forall_cons in Hc as [Hb Hc]. unfold code_byte in Hb.
    rewrite cleaned_single, IH; [|done|apply bool_decide_eq_false; lia|apply not_whitespace; lia|lia
      |by eapply retyped_head].
    cbn. unfold between. rewrite bool_decide_eq_false_2 by lia. done.
  - apply Forall_cons in Hc as [_ Hc].
    rewrite cleaned_single, IH; [|done|apply bool_decide_eq_false; lia|apply not_whitespace; lia|lia
      |by eapply retyped_head].
    cbn. unfold between. rewrite bool_decide_eq_true_2 by lia. cbn. f_equal. lia.
Qed.

Section RoundTrip.
Context `{KeyCodecsLaws}.

Lemma base32_code l : Forall code_byte (base32_encode l).
Proof. eapply Forall_impl; [apply base32_alphabet|]. unfold code_byte. cbn. lia. Qed.

Lemma code_bytes_ok l : Forall code_byte l -> bytes_ok l.
Proof. intros Hl. eapply Forall_impl; [exact Hl|]. unfold code_byte. cbn. lia. Qed.

(** A code that was retyped decodes to the payload it was made of. *)
Lemma decode_payload_retyped prefix other payload typed :
  Forall code_byte prefix -> bytes_ok payload ->
  retyped (bytes_of (of_bytes (prefix ++ base32_encode payload))) typed ->
  decode_payload typed prefix other = Ok payload.
Proof.
  intros Hp Hb Hr. assert (Forall code_byte (prefix ++ base32_encode payload)) as Hc
    by (apply Forall_app; split; [done|apply base32_code]).
  rewrite bytes_of_bytes in Hr by by apply code_bytes_ok.
  unfold decode_payload. rewrite (cleaned_retyped _ _ Hr Hc).
  rewrite (proj2 (strip_prefix_spec prefix _ (base32_encode payload)) eq_refl).
  by rewrite base32_round_trip.
Qed.

Lemma join_prefix_code : Forall code_byte JOIN_PREFIX.
Proof. unfold code_byte. repeat constructor; vm_compute; intuition congruence. Qed.

Lemma take_label_pushed label rest :
  valid_utf8 (bytes_of label) = true ->
  take_label (push_label label ++ rest) = Ok (clamp_label (clamp_label label), rest).
Proof.
  intros Hl. pose proof (clamp_bytes_short _ Hl) as Hs. pose proof (clamp_bytes_valid _ Hl) as Hv.
  unfold push_label, take_label, clamp_label at 1. rewrite (clamp_label_bytes _ Hl).
  set (b := clamp_bytes (bytes_of label)) in *. unfold MAX_LABEL_BYTES in *. cbn [app].
  rewrite Z.mod_small, Nat2Z.id by lia.
  rewrite !bool_decide_eq_false_2 by (rewrite ?length_app; lia). cbn [orb].
  rewrite take_app_length, drop_app_length. unfold from_utf8. by rewrite Hv.
Qed.

Lemma push_label_ok label : valid_utf8 (bytes_of label) = true -> bytes_ok (push_label label).
Proof.
  intros Hl. apply Forall_cons. split; [apply Z.mod_pos_bound; lia|].
  by apply valid_utf8_bytes, clamp_bytes_valid.
Qed.

(** A join request survives being retyped: with white space and dashes
    anywhere and letters in either case, the code decodes to the same key and to
    the labels clamped as they are for storage, unless the name is empty. *)
Theorem join_code_round_trip (j : JoinCode) typed :
  valid_utf8 (bytes_of (jc_name j)) = true ->
  valid_utf8 (bytes_of (default ""%string (jc_model j))) = true ->
  clamp_label (clamp_label (jc_name j)) <> ""%string ->
  retyped (bytes_of (join_encode j)) (bytes_of typed) ->
  join_decode typed =
    Ok (mkJoinCode (jc_device j) (clamp_label (clamp_label (jc_name j)))
          (nonempty (clamp_label (clamp_label (default ""%string (jc_model j)))))).
Proof.
  intros Hn Hm Hne Hr. unfold join_decode.
  rewrite (decode_payload_retyped JOIN_PREFIX _ _ _ join_prefix_code) with (2 := Hr).
  - cbn [result_bind]. rewrite bool_decide_eq_false_2 by (rewrite length_app, key_bytes_length; unfold KEY_LEN; lia).
    rewrite take_app_le, drop_app_le, take_ge, drop_ge by (rewrite key_bytes_length; unfold KEY_LEN; lia).
    unfold public_key. rewrite bool_decide_eq_true_2 by apply key_bytes_length.
    rewrite key_from_bytes_of. cbn [result_bind ok_or app]. rewrite take_label_pushed by done. cbn [result_bind snd].
    rewrite <- (app_nil_r (push_label (default _ _))), take_label_pushed by done. cbn [result_bind fst snd].
    rewrite bool_decide_eq_false_2 by tauto. rewrite bool_decide_eq_false_2 by done. reflexivity.
  - apply Forall_app. split; [apply key_bytes_ok|]. apply Forall_app. split; by apply push_label_ok.
Qed.
End RoundTrip.

(** ** Instances *)

Module PairingWitness.

(** Two keys, with two letters for each byte in place of base32. *)
Inductive Key := KeyA | KeyB.
#[global] Instance Key_eq_dec : EqDecision Key.
Proof. solve_decision. Defined.

Definition bytes_of_key (k : Key) : list Z := replicate 32 (match k with KeyA => 1 | KeyB => 2 end).
Definition key_text (k : Key) : string := match k with KeyA => "key-a" | KeyB => "key-b" end.
Definition find_key {A} `{EqDecision A} (f : Key -> A) (x : A) : option Key :=
  if bool_decide (f KeyA = x) then Some KeyA else if bool_decide (f KeyB = x) then Some KeyB else None.

Fixpoint letters (l : list Z) : list Z :=
  match l with [] => [] | b :: l => 65 + b / 16 mod 16 :: 65 + b mod 16 :: letters l end.
Fixpoint of_letters (l : list Z) : option (list Z) :=
  match l with
  | [] => Some []
  | a :: b :: l => rest ← of_letters l; Some ((a - 65) * 16 + (b - 65) :: rest)
  | _ => None
  end.

#[global] Instance toy_codecs : KeyCodecs := {|
  PublicKey := Key; key_bytes := bytes_of_key; key_from_bytes := find_key bytes_of_key;
  key_to_string := key_text; key_parse := find_key key_text;
  SecretKey := Key; secret_bytes := bytes_of_key; secret_parse := find_key (fun k => hex (bytes_of_key k));
  secret_public := id; base32_encode := letters; base32_decode := of_letters |}.

Lemma letters_back l : bytes_ok l -> of_letters (letters l) = Some l.
Proof.
  induction l as [|b l IH]; intros Hl; [done|]. apply Forall_cons in Hl as [Hb Hl]. cbn in Hb.
  cbn [letters of_letters]. rewrite IH by done. cbn. f_equal. f_equal.
  rewrite (Z.mod_small (b / 16)) by (split; [apply Z.div_pos|apply Z.div_lt_upper_bound]; lia).
  pose proof (Z.div_mod b 16). lia.
Qed.

#[global] Instance toy_laws : KeyCodecsLaws.
Proof.
  split.
  - done.
  - intros []; unfold bytes_ok; cbn; repeat constructor; lia.
  - by intros [].
  - by intros [].
  - done.
  - intros []; vm_compute; reflexivity.
  - induction l as [|b l IH]; cbn [base32_encode toy_codecs letters]; constructor; [|constructor; [|exact IH]];
      left; [pose proof (Z.mod_pos_bound (b / 16) 16)|pose proof (Z.mod_pos_bound b 16)]; lia.
  - apply letters_back.
Qed.

Definition phone : JoinCode := mkJoinCode KeyB "Phone" None.
Definition typed : string := " -" +:+ join_encode phone +:+ "-".

Lemma retyped_refl l : retyped l l.
Proof. induction l; constructor; done. Qed.

Lemma retyped_phone : retyped (bytes_of (join_encode phone)) (bytes_of typed).
Proof.
  assert (forall l, retyped l (l ++ [45])) as Hend.
  { induction l as [|b l IH]; [apply (retyped_space [45] [] []); [left|constructor]|]. by constructor. }
  change (bytes_of typed) with (([32] : list Z) ++ ([45] ++ (bytes_of (join_encode phone +:+ "-")))).
  apply retyped_space; [apply (bool_decide_unpack _); by vm_compute|]. apply retyped_space; [left|].
  assert (bytes_of (join_encode phone +:+ "-") = bytes_of (join_encode phone) ++ [45]) as -> by by vm_compute.
  apply Hend.
Qed.

Lemma join_code_round_trip_witness :
  join_decode typed = Ok (mkJoinCode KeyB (clamp_label (clamp_label "Phone")) (nonempty (clamp_label (clamp_label "")))).
Proof.
  apply (join_code_round_trip phone typed); [by vm_compute..| |exact retyped_phone].
  by vm_compute.
Defined.

(** What arrives is the label that was sent. *)
Example phone_label :
  match join_decode typed with
  | Ok (mkJoinCode KeyB name None) => bool_decide (name = "Phone"%string)
  | _ => false
  end = true.
Proof. vm_compute. reflexivity. Qed.
End PairingWitness.
