(* ===== verification/Questions.v ===== *)
(** * Questions of an Agent

    Models [agent/acp_elicitation_form.rs] with [acp_elicitation_form/string_format.rs]
    and the question types of [app-server-protocol/src/server_requests.rs]: the
    schema an Agent sends is normalized to a form that clients render, and the
    answer of a client is decoded and validated against the form.

    Floating-point numbers are the bits of the [f64].  The maps of the source are
    ordered by their keys ([BTreeMap]); [btree_entries] lists a map in that order.
    The [regex] crate and the size of a serialized value are the class
    [FormCodecs]. *)

From stdpp Require Import sorting.
From S2P Require Import Prelude Chat Records Pairing.

Local Open Scope Z_scope.

(** ** Floating-point numbers *)

Definition f64_exponent (bits : Z) : Z := Z.land (Z.shiftr bits 52) 2047.
Definition f64_is_finite (bits : Z) : bool := negb (bool_decide (f64_exponent bits = 2047)).
Definition f64_is_nan (bits : Z) : bool :=
  bool_decide (f64_exponent bits = 2047) && negb (bool_decide (Z.land bits (2 ^ 52 - 1) = 0)).

(** The order of the numbers: sign and magnitude; both zeros are equal. *)
Definition f64_rank (bits : Z) : Z := if bool_decide (bits < 2 ^ 63) then bits else 2 ^ 63 - bits.
Definition f64_lt (a b : Z) : bool :=
  negb (f64_is_nan a) && negb (f64_is_nan b) && bool_decide (f64_rank a < f64_rank b).

(** [n as f64] for a positive integer: to the nearest, ties to the even mantissa. *)
Definition f64_of_u64 (n : Z) : Z :=
  let e := Z.log2 n in
  let mantissa :=
    if bool_decide (e <= 52) then Z.shiftl n (52 - e)
    else
      let half := 2 ^ (e - 53) in
      let low := Z.land n (2 ^ (e - 52) - 1) in
      let up := bool_decide (half < low) || bool_decide (low = half) && Z.testbit n (e - 52) in
      Z.shiftr n (e - 52) + (if up then 1 else 0) in
  Z.shiftl (e + 1023) 52 + (mantissa - 2 ^ 52).

Definition is_i64 (n : Z) : bool := bool_decide (- 2 ^ 63 <= n < 2 ^ 63).

(** The bits of a finite number. *)
Definition finite_bits (bits : Z) : Prop := 0 <= bits < u64_modulus /\ f64_is_finite bits = true.

(** ** Maps in the order of their keys *)

Definition entry_le {A} (a b : string * A) : Prop := String.leb a.1 b.1 = true.
#[global] Instance entry_le_dec {A} (a b : string * A) : Decision (entry_le a b).
Proof. unfold entry_le. apply _. Defined.

Definition btree_entries {A} (m : gmap string A) : list (string * A) := merge_sort entry_le (map_to_list m).

Lemma btree_entries_perm {A} (m : gmap string A) : btree_entries m ≡ₚ map_to_list m.
Proof. apply merge_sort_Permutation. Qed.

(** ** Forms and answers *)

Module Form.

Inductive QuestionStringFormat := Email | Uri | Date | DateTime.

Record QuestionOption := mkOption { o_value : string; o_label : string; o_description : option string }.

(** The parts all fields have. *)
Record FieldHead := mkHead { h_key : string; h_title : string; h_description : option string; h_required : bool }.

Inductive QuestionField :=
| StringField (head : FieldHead) (default : option string) (min_length max_length : option Z)
    (pattern : option string) (format : option QuestionStringFormat)
| NumberField (head : FieldHead) (default minimum maximum : option Z)
| IntegerField (head : FieldHead) (default minimum maximum : option Z)
| BooleanField (head : FieldHead) (default : option bool)
| SingleSelect (head : FieldHead) (default : option string) (options : list QuestionOption)
| MultiSelect (head : FieldHead) (default : list string) (min_items max_items : option Z)
    (options : list QuestionOption).

Record QuestionRequestParams := mkParams { q_message : string; q_fields : list QuestionField }.

Definition field_head (f : QuestionField) : FieldHead :=
  match f with
  | StringField h _ _ _ _ _ | NumberField h _ _ _ | IntegerField h _ _ _ | BooleanField h _
  | SingleSelect h _ _ | MultiSelect h _ _ _ _ => h
  end.
Definition field_key (f : QuestionField) : string := h_key (field_head f).
Definition field_required (f : QuestionField) : bool := h_required (field_head f).

Inductive QuestionValue :=
| VString (s : string)
| VInteger (n : Z)
| VNumber (bits : Z)
| VBoolean (b : bool)
| VStringArray (l : list string).

#[global] Instance QuestionValue_eq_dec : EqDecision QuestionValue.
Proof. solve_decision. Defined.

Inductive QuestionRequestResponse := Submit (content : gmap string QuestionValue) | Cancel.

(** ** The schema of the Agent *)

Record EnumOption := mkEnum { e_value : string; e_title : string; e_description : option string }.
Inductive MultiSelectItems := Untitled (values : list string) | Titled (options : list EnumOption).

Inductive PropertySchema :=
| PString (title description : option string) (min_length max_length : option Z) (pattern : option string)
    (format : option QuestionStringFormat) (default : option string) (enum_values : option (list string))
    (one_of : option (list EnumOption))
| PNumber (title description : option string) (minimum maximum default : option Z)
| PInteger (title description : option string) (minimum maximum default : option Z)
| PBoolean (title description : option string) (default : option bool)
| PArray (title description : option string) (min_items max_items : option Z) (items : MultiSelectItems)
    (default : list string).

Record ElicitationSchema := mkSchema { properties : gmap string PropertySchema; required : list string }.

End Form.
Import Form.

(** [Regex::new], with [is_match] of the expression it returns, and the number of
    bytes [serde_json::to_vec] writes for a request and for the content of an answer. *)
Class FormCodecs := {
  regex_new : string -> option (string -> bool);
  request_bytes : string -> ElicitationSchema -> Z;
  content_bytes : gmap string QuestionValue -> Z;
}.

(** ** Decoding an answer

    The [Deserialize] implementations that serde derives: [QuestionValue] is
    untagged, so the first variant that fits wins; [QuestionRequestResponse] is
    tagged by its member [action], or by the first element of an array. *)

Fixpoint strings_of (l : list JsonValue) : option (list string) :=
  match l with
  | [] => Some []
  | v :: l => s ← as_str v; rest ← strings_of l; Some (s :: rest)
  end.

Definition decode_value (v : JsonValue) : option QuestionValue :=
  match v with
  | JString s => Some (VString s)
  | JNumber n => if is_i64 n then Some (VInteger n) else Some (VNumber (f64_of_u64 n))
  | JFloat bits => Some (VNumber bits)
  | JBool b => Some (VBoolean b)
  | JArray l => VStringArray <$> strings_of l
  | JNull | JObject _ => None
  end.

Fixpoint decode_fields (fields : list (string * JsonValue)) : option (gmap string QuestionValue) :=
  match fields with
  | [] => Some ∅
  | (k, v) :: fields => value ← decode_value v; rest ← decode_fields fields; Some (<[k := value]> rest)
  end.

Definition decode_content (v : JsonValue) : option (gmap string QuestionValue) := as_object v ≫= decode_fields.

Definition decode_response (v : JsonValue) : option QuestionRequestResponse :=
  match v with
  | JObject fields =>
      tag ← field "action" fields ≫= as_str;
      if bool_decide (tag = "submit"%string)
      then content ← field "content" fields; Submit <$> decode_content content
      else if bool_decide (tag = "cancel"%string) then Some Cancel else None
  | JArray (t :: rest) =>
      tag ← as_str t;
      if bool_decide (tag = "submit"%string)
      then match rest with [content] => Submit <$> decode_content content | _ => None end
      else if bool_decide (tag = "cancel"%string)
      then match rest with [] => Some Cancel | _ => None end
      else None
  | _ => None
  end.

(** The [Serialize] implementations of the same types. *)
Definition encode_value (v : QuestionValue) : JsonValue :=
  match v with
  | VString s => JString s
  | VInteger n => JNumber n
  | VNumber bits => if f64_is_finite bits then JFloat bits else JNull
  | VBoolean b => JBool b
  | VStringArray l => JArray (JString <$> l)
  end.

Definition encode_response (r : QuestionRequestResponse) : JsonValue :=
  match r with
  | Submit content =>
      JObject [("action"%string, JString "submit");
               ("content"%string, JObject (prod_map id encode_value <$> btree_entries content))]
  | Cancel => JObject [("action"%string, JString "cancel")]
  end.

(** ** Validation of an answer *)

Section Questions.
Context `{FormCodecs}.

Definition MAX_FIELDS : nat := 32.
Definition MAX_CHOICES : nat := 100.
Definition MAX_TOTAL_BYTES : Z := 256 * 1024.
Definition MAX_STRING_BYTES : Z := 16 * 1024.
Definition MAX_PATTERN_BYTES : Z := 1024.

Definition invalid {T} (message : string) : result T RuntimeError := Err (InvalidParams message).

Definition enforce_budget (bytes : Z) (label : string) : result unit RuntimeError :=
  if bool_decide (MAX_TOTAL_BYTES < bytes) then invalid (label +:+ " exceeds 256 KiB") else Ok tt.

Definition str_len (s : string) : Z := Z.of_nat (String.length s).
Definition char_count (s : string) : Z := Z.of_nat (length (chars (bytes_of s))).

(** [str::split_once] at a byte, [str::contains] and [str::ends_with] of one byte. *)
Fixpoint split_at_byte (sep : Z) (l : list Z) : option (list Z * list Z) :=
  match l with
  | [] => None
  | b :: l => if bool_decide (b = sep) then Some ([], l) else p ← split_at_byte sep l; Some (b :: p.1, p.2)
  end.
Definition contains_byte (b : Z) (l : list Z) : bool := bool_decide (b ∈ l).
Definition ends_with_byte (b : Z) (l : list Z) : bool := bool_decide (last l = Some b).

Definition DATE_EXPRESSION : string := "^\d{4}-\d{2}-\d{2}$".

Definition valid_format (format : QuestionStringFormat) (value : string) : bool :=
  let l := bytes_of value in
  match format with
  | Email => if split_at_byte 64 l is Some (local, domain)
             then negb (bool_decide (local = [])) && contains_byte 46 domain else false
  | Uri => if split_at_byte 58 l is Some (scheme, rest)
           then negb (bool_decide (scheme = [])) && negb (bool_decide (rest = [])) else false
  | Date => if regex_new DATE_EXPRESSION is Some is_match then is_match value else false
  | DateTime => contains_byte 84 l && (ends_with_byte 90 l || contains_byte 43 l)
  end.

(** [Option::is_some_and]. *)
Definition is_some_and {A} (o : option A) (f : A -> bool) : bool := match o with Some a => f a | None => false end.

Definition allows (options : list QuestionOption) (value : string) : bool :=
  existsb (fun o => bool_decide (o_value o = value)) options.

Definition validate_value (field : QuestionField) (value : QuestionValue) : result unit RuntimeError :=
  match field, value with
  | StringField _ _ min_length max_length pattern format, VString value =>
      if bool_decide (MAX_STRING_BYTES < str_len value)
         || is_some_and min_length (fun min => bool_decide (char_count value < min))
         || is_some_and max_length (fun max => bool_decide (max < char_count value))
         || is_some_and pattern (fun p => negb (is_some_and (regex_new p) (fun is_match => is_match value)))
         || is_some_and format (fun f => negb (valid_format f value))
      then invalid "elicitation string value does not match its schema" else Ok tt
  | SingleSelect _ _ options, VString value =>
      if negb (allows options value) then invalid "elicitation selection is not allowed" else Ok tt
  | NumberField _ _ minimum maximum, VNumber value =>
      if negb (f64_is_finite value)
         || is_some_and minimum (fun min => f64_lt value min)
         || is_some_and maximum (fun max => f64_lt max value)
      then invalid "elicitation number is outside its range" else Ok tt
  | IntegerField _ _ minimum maximum, VInteger value =>
      if is_some_and minimum (fun min => bool_decide (value < min))
         || is_some_and maximum (fun max => bool_decide (max < value))
      then invalid "elicitation integer is outside its range" else Ok tt
  | BooleanField _ _, VBoolean _ => Ok tt
  | MultiSelect _ _ min_items max_items options, VStringArray values =>
      if bool_decide (size (list_to_set values : gset string) <> length values)
         || is_some_and min_items (fun min => bool_decide (Z.of_nat (length values) < min))
         || is_some_and max_items (fun max => bool_decide (max < Z.of_nat (length values)))
         || existsb (fun value => negb (allows options value)) values
      then invalid "elicitation multi-selection does not match its schema" else Ok tt
  | _, _ => invalid "elicitation response value has the wrong type"
  end.

(** The loop over the fields. *)
Fixpoint validate_fields (content : gmap string QuestionValue) (fields : list QuestionField) : result unit RuntimeError :=
  match fields with
  | [] => Ok tt
  | field :: fields =>
      match content !! field_key field with
      | None =>
          if field_required field then invalid "elicitation response is missing a required field"
          else validate_fields content fields
      | Some value => check? validate_value field value in validate_fields content fields
      end
  end.

Definition validate_content (form : QuestionRequestParams) (content : gmap string QuestionValue)
  : result unit RuntimeError :=
  if bool_decide (dom content ⊆ list_to_set (field_key <$> q_fields form)) then validate_fields content (q_fields form)
  else invalid "elicitation response contains an unknown field".

Definition validate_product_response (form : QuestionRequestParams) (response : QuestionRequestResponse)
  : result unit RuntimeError :=
  match response with
  | Submit content =>
      check? enforce_budget (content_bytes content) "elicitation response" in validate_content form content
  | Cancel => Ok tt
  end.

(** ** Normalizing a schema *)

Definition plain_options (values : list string) : list QuestionOption := (fun v => mkOption v v None) <$> values.
Definition titled_options (values : list EnumOption) : list QuestionOption :=
  (fun o => mkOption (e_value o) (e_title o) (e_description o)) <$> values.

Definition validate_options (options : list QuestionOption) : result unit RuntimeError :=
  if bool_decide (options = []) || bool_decide (MAX_CHOICES < length options)%nat
     || bool_decide (size (list_to_set (o_value <$> options) : gset string) <> length options)
  then invalid "elicitation choices must be unique and contain 1 to 100 items" else Ok tt.

(** [min.zip(max).is_some_and(|(min, max)| min > max)]. *)
Definition exceeds (gt : Z -> Z -> bool) (min max : option Z) : bool :=
  match min, max with Some min, Some max => gt min max | _, _ => false end.

Definition normalize_field (required : gset string) (key : string) (property : PropertySchema)
  : result QuestionField RuntimeError :=
  let head title description := mkHead key (default key title) description (bool_decide (key ∈ required)) in
  match property with
  | PString title description min_length max_length pattern format value enum_values one_of =>
      if is_some enum_values && is_some one_of
      then invalid "string field cannot contain both enum and oneOf"
      else if is_some_and pattern (fun p => bool_decide (MAX_PATTERN_BYTES < str_len p) || negb (is_some (regex_new p)))
      then invalid "string field pattern is invalid or exceeds 1 KiB"
      else
        match (match enum_values with Some l => Some (plain_options l) | None => titled_options <$> one_of end) with
        | Some options =>
            check? validate_options options in
            Ok (SingleSelect (head title description) value options)
        | None =>
            if exceeds (fun a b => bool_decide (b < a)) min_length max_length
            then invalid "string field minimum exceeds maximum"
            else Ok (StringField (head title description) value min_length max_length pattern format)
        end
  | PNumber title description minimum maximum value =>
      if existsb (fun o => is_some_and o (fun bits => negb (f64_is_finite bits))) [minimum; maximum; value]
         || exceeds (fun a b => f64_lt b a) minimum maximum
      then invalid "number field range/default is invalid"
      else Ok (NumberField (head title description) value minimum maximum)
  | PInteger title description minimum maximum value =>
      if exceeds (fun a b => bool_decide (b < a)) minimum maximum
      then invalid "integer field minimum exceeds maximum"
      else Ok (IntegerField (head title description) value minimum maximum)
  | PBoolean title description value => Ok (BooleanField (head title description) value)
  | PArray title description min_items max_items items value =>
      if exceeds (fun a b => bool_decide (b < a)) min_items max_items
      then invalid "multi-select minimum exceeds maximum"
      else
        let options := match items with Untitled values => plain_options values | Titled options => titled_options options end in
        check? validate_options options in
        Ok (MultiSelect (head title description) value min_items max_items options)
  end.

(** [map(normalize_field).collect::<Result<Vec<_>, _>>()]. *)
Fixpoint normalize_fields (required : gset string) (l : list (string * PropertySchema))
  : result (list QuestionField) RuntimeError :=
  match l with
  | [] => Ok []
  | (key, property) :: l =>
      let? f := normalize_field required key property in
      let? fs := normalize_fields required l in Ok (f :: fs)
  end.

Definition field_default (f : QuestionField) : option QuestionValue :=
  match f with
  | StringField _ v _ _ _ _ | SingleSelect _ v _ => VString <$> v
  | NumberField _ v _ _ => VNumber <$> v
  | IntegerField _ v _ _ => VInteger <$> v
  | BooleanField _ v => VBoolean <$> v
  | MultiSelect _ v _ _ _ => if bool_decide (v = []) then None else Some (VStringArray v)
  end.

(** The last of equal keys wins, as in [collect]. *)
Definition defaults (form : QuestionRequestParams) : gmap string QuestionValue :=
  list_to_map (reverse (omap (fun f => v ← field_default f; Some (field_key f, v)) (q_fields form))).

(** The loop that checks the defaults. *)
Fixpoint validate_defaults (values : gmap string QuestionValue) (fields : list QuestionField) : result unit RuntimeError :=
  match fields with
  | [] => Ok tt
  | f :: fields =>
      match values !! field_key f with
      | Some v => check? validate_value f v in validate_defaults values fields
      | None => validate_defaults values fields
      end
  end.

Definition normalize_form (message : string) (schema : ElicitationSchema) : result QuestionRequestParams RuntimeError :=
  if bool_decide (trim message = ""%string) then invalid "elicitation message must not be empty"
  else
    check? enforce_budget (request_bytes message schema) "elicitation request" in
    if bool_decide (MAX_FIELDS < size (properties schema))%nat then invalid "elicitation schema exceeds 32 fields"
    else
      let required_keys : gset string := list_to_set (required schema) in
      if bool_decide (size required_keys <> length (required schema))
         || negb (bool_decide (required_keys ⊆ dom (properties schema)))
      then invalid "elicitation required fields must be unique schema properties"
      else
        let? fields := normalize_fields required_keys (btree_entries (properties schema)) in
        let form := mkParams message fields in
        check? validate_defaults (defaults form) (q_fields form) in
        Ok form.

(** ** What a valid answer is *)

Definition within (lo hi : option Z) (n : Z) : Prop :=
  (forall min, lo = Some min -> min <= n) /\ (forall max, hi = Some max -> n <= max).

Definition within_f64 (lo hi : option Z) (n : Z) : Prop :=
  (forall min, lo = Some min -> f64_lt n min = false) /\ (forall max, hi = Some max -> f64_lt max n = false).

(** The values a field admits, read off the schema. *)
Inductive admits : QuestionField -> QuestionValue -> Prop :=
| admits_string h d lo hi pattern format s :
    str_len s <= MAX_STRING_BYTES -> within lo hi (char_count s) ->
    (forall p, pattern = Some p -> exists is_match, regex_new p = Some is_match /\ is_match s = true) ->
    (forall f, format = Some f -> valid_format f s = true) ->
    admits (StringField h d lo hi pattern format) (VString s)
| admits_single h d options s : s ∈ o_value <$> options -> admits (SingleSelect h d options) (VString s)
| admits_number h d lo hi n : f64_is_finite n = true -> within_f64 lo hi n -> admits (NumberField h d lo hi) (VNumber n)
| admits_integer h d lo hi n : within lo hi n -> admits (IntegerField h d lo hi) (VInteger n)
| admits_boolean h d b : admits (BooleanField h d) (VBoolean b)
| admits_multi h d lo hi options l :
    NoDup l -> within lo hi (Z.of_nat (length l)) -> l ⊆ o_value <$> options ->
    admits (MultiSelect h d lo hi options) (VStringArray l).

(** An answer names fields of the form only, leaves no required field out and
    gives each field it names a value the field admits. *)
Record answers (form : QuestionRequestParams) (content : gmap string QuestionValue) : Prop := {
  an_known : forall k v, content !! k = Some v -> k ∈ field_key <$> q_fields form;
  an_required : forall f, f ∈ q_fields form -> field_required f = true -> is_Some (content !! field_key f);
  an_admitted : forall f v, f ∈ q_fields form -> content !! field_key f = Some v -> admits f v;
}.

(** ** Validation decides what a valid answer is *)

Lemma distinct_size (l : list string) : size (list_to_set l : gset string) = length l <-> NoDup l.
Proof.
  split; [|apply size_list_to_set]. induction l as [|x l IH]; [constructor|]. cbn [list_to_set length].
  destruct (decide (x ∈ l)) as [Hx|Hx].
  - rewrite subseteq_union_1_L by set_solver.
    intros Hs. exfalso.
    rewrite <- (list_to_set_elements_L (list_to_set l)), size_list_to_set in Hs by apply NoDup_elements.
    assert (length (elements (list_to_set l : gset string)) <= length l)%nat; [|lia].
    apply submseteq_length, NoDup_submseteq; [apply NoDup_elements|]. set_solver.
  - rewrite size_union, size_singleton by set_solver. intros Hs. constructor; [done|]. apply IH. lia.
Qed.

Lemma is_some_and_true {A} (o : option A) f : is_some_and o f = true <-> exists a, o = Some a /\ f a = true.
Proof. destruct o; cbn; naive_solver. Qed.
Lemma is_some_and_false {A} (o : option A) f : is_some_and o f = false <-> forall a, o = Some a -> f a = false.
Proof. destruct o; cbn; naive_solver. Qed.

Lemma allows_spec options value : allows options value = true <-> value ∈ o_value <$> options.
Proof.
  unfold allows. rewrite existsb_exists, list_elem_of_fmap. split.
  - intros (o & Ho%list_elem_of_In & E%bool_decide_eq_true). eauto.
  - intros (o & -> & Ho). exists o. split; [by apply list_elem_of_In|]. by apply bool_decide_eq_true.
Qed.

Lemma out_of_range lo hi n :
  is_some_and lo (fun min => bool_decide (n < min)) || is_some_and hi (fun max => bool_decide (max < n)) = false
  <-> within lo hi n.
Proof.
  rewrite orb_false_iff, !is_some_and_false. unfold within. split; intros [Hl Hh]; split.
  - intros min E. apply Hl in E as ?%bool_decide_eq_false. lia.
  - intros max E. apply Hh in E as ?%bool_decide_eq_false. lia.
  - intros min E. apply Hl in E. apply bool_decide_eq_false. lia.
  - intros max E. apply Hh in E. apply bool_decide_eq_false. lia.
Qed.

Lemma guard_ok {T} (b : bool) m (v : T) : (if b then invalid m else Ok v) = Ok v <-> b = false.
Proof. by destruct b. Qed.

Lemma validate_value_iff f v : validate_value f v = Ok tt <-> admits f v.
Proof.
  destruct f, v; cbn -[str_len char_count]; try (split; [discriminate|by inversion 1]).
  - rewrite guard_ok, !orb_false_iff, bool_decide_eq_false, !is_some_and_false.
    split.
    + intros ((((Hb & Hl) & Hh) & Hp) & Hf). constructor; [lia|..].
      * apply out_of_range. by rewrite orb_false_iff, !is_some_and_false.
      * intros p E. apply Hp in E. apply negb_false_iff, is_some_and_true in E. done.
      * intros f E. apply Hf in E. by apply negb_false_iff in E.
    + intros Ha. inversion Ha as [??????? Hb Hw Hp Hf| | | | | ]; subst. apply out_of_range in Hw.
      rewrite orb_false_iff, !is_some_and_false in Hw. destruct Hw as [Hl Hh].
      repeat split; [lia|done|done|..].
      * intros p E. apply negb_false_iff, is_some_and_true. by apply Hp.
      * intros f E. apply negb_false_iff. by apply Hf.
  - rewrite guard_ok, !orb_false_iff, negb_false_iff, !is_some_and_false. split.
    + intros [[Hf Hl] Hh]. constructor; [done|]. by split.
    + intros Ha. inversion Ha as [ | |????? Hfin [Hl Hh]| | | ]; subst. done.
  - rewrite guard_ok, out_of_range. split; [by constructor|by inversion 1].
  - split; [constructor|done].
  - rewrite guard_ok, negb_false_iff, allows_spec. split; [by constructor|by inversion 1].
  - rewrite guard_ok, orb_false_iff, <- orb_assoc, orb_false_iff, out_of_range, bool_decide_eq_false.
    assert (existsb (fun value => negb (allows options value)) l = false <-> l ⊆ o_value <$> options) as ->.
    { rewrite <- not_true_iff_false, existsb_exists. split.
      - intros Hn x Hx. destruct (allows options x) eqn:E; [by apply allows_spec|]. exfalso. apply Hn.
        exists x. split; [by apply list_elem_of_In|]. by rewrite E.
      - intros Hs (x & Hx%list_elem_of_In & E%negb_true_iff). apply Hs, allows_spec in Hx. congruence. }
    split.
    + intros [[Hd Hw] Hs]. constructor; [|done..]. apply distinct_size. lia.
    + inversion_clear 1. split; [split; [|done]|done]. intros Hn. by apply Hn, distinct_size.
Qed.

Lemma result_unit_ok {E} (r : result unit E) (k : result unit E) : (check? r in k) = Ok tt <-> r = Ok tt /\ k = Ok tt.
Proof. destruct r as [[]|e]; cbn; naive_solver. Qed.

Lemma validate_fields_iff content fields :
  validate_fields content fields = Ok tt <->
  Forall (fun f => (field_required f = true -> is_Some (content !! field_key f)) /\
                   forall v, content !! field_key f = Some v -> admits f v) fields.
Proof.
  induction fields as [|f fields IH]; [done|]. cbn [validate_fields]. rewrite Forall_cons, <- IH.
  destruct (content !! field_key f) as [v|] eqn:E.
  - rewrite result_unit_ok, validate_value_iff. split.
    + intros [Ha Hr]. split; [|done]. split; [by eexists|]. by intros ? [= <-].
    + intros [[_ Ha] Hr]. split; [|done]. by apply Ha.
  - destruct (field_required f); split.
    + done.
    + intros [[Hr _] _]. destruct (Hr eq_refl) as [? [=]].
    + intros Hr. split; [|done]. by split.
    + by intros [_ Hr].
Qed.

Lemma validate_content_iff form content : validate_content form content = Ok tt <-> answers form content.
Proof.
  unfold validate_content. case_bool_decide as Hd.
  - rewrite validate_fields_iff, Forall_forall. split.
    + intros Hf. split.
      * intros k v Hk%elem_of_dom_2. set_solver.
      * intros f Hin. by apply Hf.
      * intros f v Hin. by apply Hf.
    + intros [Hk Hr Ha] f Hin. split; [by apply Hr|]. intros v. by apply Ha.
  - split; [done|]. intros [Hk _ _]. destruct Hd. intros k [v Hv]%elem_of_dom.
    apply elem_of_list_to_set. by eapply Hk.
Qed.

(** An answer is accepted exactly when it is within the size budget, names only
    fields of the form, leaves no required field out, and gives every field it
    names a value that the schema of the field admits. *)
Theorem answer_accepted_iff form content :
  validate_product_response form (Submit content) = Ok tt <->
  content_bytes content <= MAX_TOTAL_BYTES /\ answers form content.
Proof.
  unfold validate_product_response, enforce_budget. rewrite result_unit_ok, validate_content_iff.
  case_bool_decide; split; intros [? ?]; split; done || lia.
Qed.

(** ** Normalized forms *)

Definition options_ok (options : list QuestionOption) : Prop :=
  (1 <= length options <= MAX_CHOICES)%nat /\ NoDup (o_value <$> options).

Definition field_ok (f : QuestionField) : Prop :=
  match f with
  | StringField _ _ lo hi pattern _ =>
      (forall a b, lo = Some a -> hi = Some b -> a <= b) /\
      (forall p, pattern = Some p -> str_len p <= MAX_PATTERN_BYTES /\ is_Some (regex_new p))
  | NumberField _ _ lo hi =>
      (forall a, lo = Some a \/ hi = Some a -> f64_is_finite a = true) /\
      (forall a b, lo = Some a -> hi = Some b -> f64_lt b a = false)
  | IntegerField _ _ lo hi => forall a b, lo = Some a -> hi = Some b -> a <= b
  | BooleanField _ _ => True
  | SingleSelect _ _ options => options_ok options
  | MultiSelect _ _ lo hi options => (forall a b, lo = Some a -> hi = Some b -> a <= b) /\ options_ok options
  end.

Lemma validate_options_ok options : validate_options options = Ok tt -> options_ok options.
Proof.
  unfold validate_options, options_ok. rewrite guard_ok, !orb_false_iff, !bool_decide_eq_false.
  intros [[Hn Hm] Hd]. destruct options as [|o options]; [done|]. cbn [length] in *. split; [lia|].
  apply distinct_size. rewrite length_fmap. cbn [length]. lia.
Qed.

Lemma exceeds_le lo hi :
  exceeds (fun a b => bool_decide (b < a)) lo hi = false -> forall a b, lo = Some a -> hi = Some b -> a <= b.
Proof. intros E a b -> ->. cbn in E. apply bool_decide_eq_false in E. lia. Qed.

(** Steps through the guards of a successful normalization. *)
Ltac guards H :=
  repeat first
    [ match type of H with (if ?b then invalid _ else _) = Ok _ => destruct b eqn:?; [discriminate H|] end
    | match type of H with result_bind _ _ = Ok _ =>
        let u := fresh "u" in let Hu := fresh "Hu" in apply result_bind_ok in H as (u & Hu & H) end
    | match type of H with Ok _ = Ok _ => injection H as <- end ].

Lemma normalize_field_ok req key property f :
  normalize_field req key property = Ok f ->
  field_key f = key /\ field_required f = bool_decide (key ∈ req) /\ field_ok f.
Proof.
  intros Hf. destruct property; cbn [normalize_field] in Hf.
  - guards Hf. destruct enum_values as [l|]; [|destruct one_of as [l|]]; cbn [fmap option_fmap option_map] in Hf; guards Hf.
    1,2: split; [done|]; split; [done|]; destruct u; by apply validate_options_ok.
    split; [done|]. split; [done|]. split; [intros a b; by apply exceeds_le|]. intros p ->.
    match goal with E : is_some_and _ _ = false |- _ => cbn in E; apply orb_false_iff in E as [E1 E2] end.
    apply bool_decide_eq_false in E1. split; [lia|]. by destruct (regex_new p).
  - guards Hf. split; [done|]. split; [done|].
    match goal with E : orb _ _ = false |- _ => apply orb_false_iff in E as [E1 E2] end.
    cbn in E1. rewrite !orb_false_iff, !is_some_and_false in E1. destruct E1 as (Hl & Hh & _). split.
    + intros a [E|E]; [apply Hl in E|apply Hh in E]; by apply negb_false_iff in E.
    + intros a b -> ->. done.
  - guards Hf. split; [done|]. split; [done|]. intros a b. by apply exceeds_le.
  - injection Hf as <-. done.
  - guards Hf. split; [done|]. split; [done|]. split; [intros a b; by apply exceeds_le|]. destruct u. by apply validate_options_ok.
Qed.

Lemma normalize_fields_ok req l fields :
  normalize_fields req l = Ok fields ->
  field_key <$> fields = l.*1 /\
  Forall (fun f => field_required f = bool_decide (field_key f ∈ req) /\ field_ok f) fields.
Proof.
  revert fields. induction l as [|[key property] l IH]; intros fields Hf; cbn [normalize_fields] in Hf.
  - injection Hf as <-. done.
  - guards Hf. destruct (IH _ Hu0) as [Hk Hall]. destruct (normalize_field_ok _ _ _ _ Hu) as (Ek & Er & Eo).
    cbn. rewrite Ek, Hk. split; [done|]. constructor; [|done]. by rewrite Ek.
Qed.

Lemma validate_defaults_ok values fields :
  validate_defaults values fields = Ok tt ->
  forall f v, f ∈ fields -> values !! field_key f = Some v -> admits f v.
Proof.
  induction fields as [|g fields IH]; intros Hv f v Hin; [by apply elem_of_nil in Hin|]. cbn [validate_defaults] in Hv.
  destruct (values !! field_key g) as [w|] eqn:Eg.
  - apply result_unit_ok in Hv as [Hg Hv]. apply elem_of_cons in Hin as [->|Hin]; [|by apply IH].
    intros E. rewrite Eg in E. injection E as <-. by apply validate_value_iff.
  - apply elem_of_cons in Hin as [->|Hin]; [congruence|by apply IH].
Qed.

(** With distinct keys the default of a field is found under its key. *)
Lemma defaults_lookup form f :
  NoDup (field_key <$> q_fields form) -> f ∈ q_fields form -> defaults form !! field_key f = field_default f.
Proof.
  unfold defaults. intros Hd Hf. set (g := fun f => v ← field_default f; Some (field_key f, v)).
  assert (NoDup (reverse (omap g (q_fields form))).*1) as Hnd.
  { rewrite (reverse_Permutation _).
    clear Hf. induction (q_fields form) as [|h l IH]; [constructor|]. apply NoDup_cons in Hd as [Hn Hd].
    cbn. unfold g at 1. destruct (field_default h) as [v|] eqn:E; cbn; [|by apply IH]. constructor; [|by apply IH].
    intros Hin. apply Hn. apply list_elem_of_fmap in Hin as ([k w] & -> & Hin). apply list_elem_of_omap in Hin as (h' & Hh' & Eg).
    unfold g in Eg. destruct (field_default h'); [|done]. injection Eg as <- <-. apply list_elem_of_fmap. eauto. }
  destruct (field_default f) as [v|] eqn:Ed.
  - apply elem_of_list_to_map; [done|]. apply elem_of_reverse, list_elem_of_omap. exists f. split; [done|]. unfold g. by rewrite Ed.
  - apply not_elem_of_list_to_map. intros Hin. apply list_elem_of_fmap in Hin as ([k w] & Hk & Hin).
    apply elem_of_reverse, list_elem_of_omap in Hin as (h & Hh & Eg). unfold g in Eg.
    destruct (field_default h) as [x|] eqn:Eh; [|done]. injection Eg as <- <-. cbn in Hk.
    assert (f = h) as ->; [|congruence]. clear -Hd Hf Hh Hk.
    apply list_elem_of_lookup in Hf as [i Hi], Hh as [j Hj].
    assert (i = j) as ->; [|congruence]. apply (NoDup_lookup _ _ _ (field_key f) Hd).
    + rewrite list_lookup_fmap, Hi. done.
    + rewrite list_lookup_fmap, Hj. cbn. by rewrite Hk.
Qed.

Record form_ok (schema : ElicitationSchema) (form : QuestionRequestParams) : Prop := {
  fo_message : trim (q_message form) <> ""%string;
  fo_keys : field_key <$> q_fields form = (btree_entries (properties schema)).*1;
  fo_distinct : NoDup (field_key <$> q_fields form);
  fo_bounded : (length (q_fields form) <= MAX_FIELDS)%nat;
  fo_required : forall f, f ∈ q_fields form -> field_required f = true <-> field_key f ∈ required schema;
  fo_fields : forall f, f ∈ q_fields form -> field_ok f;
  fo_defaults : forall f v, f ∈ q_fields form -> field_default f = Some v -> admits f v;
}.

Lemma normalize_form_ok message schema form :
  normalize_form message schema = Ok form -> form_ok schema form.
Proof.
  unfold normalize_form. intros Hn. case_bool_decide as Hm; [discriminate|]. apply result_bind_ok in Hn as ([] & _ & Hn).
  case_bool_decide as Hs; [discriminate|]. cbv zeta in Hn.
  match type of Hn with (if ?b then _ else _) = _ => destruct b; [discriminate|] end.
  apply result_bind_ok in Hn as (fields & Hf & Hn). apply result_bind_ok in Hn as ([] & Hv & [= <-]).
  apply normalize_fields_ok in Hf as [Hk Hall]. rewrite Forall_forall in Hall.
  assert (NoDup (field_key <$> fields)) as Hd.
  { rewrite Hk. rewrite (btree_entries_perm (properties schema)). apply NoDup_fst_map_to_list. }
  split; cbn; [done|done|done|..].
  - rewrite <- (length_fmap field_key), Hk, length_fmap, (Permutation_length (btree_entries_perm _)).
    rewrite length_map_to_list. lia.
  - intros f Hin. destruct (Hall f Hin) as [-> _]. rewrite bool_decide_eq_true. set_solver.
  - intros f Hin. by apply Hall.
  - intros f v Hin E. eapply validate_defaults_ok; [exact Hv|done|].
    by rewrite defaults_lookup.
Qed.

(** A form that reaches a client is well formed: its fields are the
    properties of the schema in the order of their distinct keys, at most 32, the
    required ones are those the schema names, ranges are not empty, choices are
    distinct and between 1 and 100, patterns compile, and every default is a value
    its field admits. *)
Theorem normalized_form_is_well_formed message schema form :
  normalize_form message schema = Ok form -> form_ok schema form.
Proof. apply normalize_form_ok. Qed.

(** The defaults of a normalized form answer it when no required field is without one. *)
Lemma defaults_answer schema form :
  form_ok schema form ->
  (forall f, f ∈ q_fields form -> field_required f = true -> is_Some (field_default f)) ->
  answers form (defaults form).
Proof.
  intros Hok Hr. pose proof (fo_distinct _ _ Hok) as Hd. split.
  - intros k v Hk. unfold defaults in Hk. apply elem_of_list_to_map_2, elem_of_reverse, list_elem_of_omap in Hk as (f & Hf & E).
    destruct (field_default f); [|done]. injection E as <- <-. apply list_elem_of_fmap. eauto.
  - intros f Hin Hreq. rewrite defaults_lookup by done. by apply Hr.
  - intros f v Hin. rewrite defaults_lookup by done. by apply (fo_defaults _ _ Hok).
Qed.

(** ** Answers through JSON *)

(** The values JSON can carry: an [i64] or a finite number. *)
Definition representable (v : QuestionValue) : Prop :=
  match v with VInteger n => is_i64 n = true | VNumber bits => f64_is_finite bits = true | _ => True end.

Lemma strings_of_strings l : strings_of (JString <$> l) = Some l.
Proof. induction l as [|s l IH]; [done|]. cbn. by rewrite IH. Qed.

Lemma decode_encode_value v : representable v -> decode_value (encode_value v) = Some v.
Proof.
  destruct v; cbn [encode_value representable]; intros Hv; cbn [decode_value].
  - done.
  - by rewrite Hv.
  - by rewrite Hv.
  - done.
  - by rewrite strings_of_strings.
Qed.

Lemma decode_encode_fields l :
  Forall (fun e : string * QuestionValue => representable e.2) l ->
  decode_fields (prod_map id encode_value <$> l) = Some (list_to_map l).
Proof.
  induction l as [|[k v] l IH]; [done|]. rewrite Forall_cons. intros [Hv Hl]. cbn [fmap list_fmap prod_map id fst snd decode_fields].
  rewrite (decode_encode_value v Hv). cbn. by rewrite IH.
Qed.

Lemma btree_entries_map {A} (m : gmap string A) : list_to_map (btree_entries m) = m.
Proof.
  rewrite <- (list_to_map_to_list m) at 2. apply list_to_map_proper; [|apply btree_entries_perm].
  rewrite (btree_entries_perm m). apply NoDup_fst_map_to_list.
Qed.

Lemma decode_encode_content content :
  map_Forall (fun _ v => representable v) content ->
  decode_content (JObject (prod_map id encode_value <$> btree_entries content)) = Some content.
Proof.
  intros Hc. unfold decode_content. cbn [as_object mbind option_bind]. rewrite decode_encode_fields, btree_entries_map; [done|].
  apply Forall_forall. intros [k v] Hin. rewrite (btree_entries_perm content) in Hin.
  apply elem_of_map_to_list in Hin. by apply (Hc k).
Qed.

(** An answer survives serialization. *)
Lemma response_decodes r :
  (forall content, r = Submit content -> map_Forall (fun _ v => representable v) content) ->
  decode_response (encode_response r) = Some r.
Proof.
  destruct r as [content|]; [|done]. intros Hr.
  change (Submit <$> decode_content (JObject (prod_map id encode_value <$> btree_entries content)) = Some (Submit content)).
  by rewrite decode_encode_content by (by apply Hr).
Qed.

(** An answer survives serialization: decoding what was encoded gives the
    same answer, for every integer of 64 bits and every finite number. *)
Theorem answer_round_trip r :
  (forall content, r = Submit content -> map_Forall (fun _ v => representable v) content) ->
  decode_response (encode_response r) = Some r.
Proof. apply response_decodes. Qed.

(** A client that submits a form as it was shown is not refused: when every
    required field has a default, the defaults of a normalized form, sent as JSON
    and decoded again, pass validation (as long as they fit the size budget). *)
Theorem defaults_are_accepted message schema form :
  normalize_form message schema = Ok form ->
  (forall f, f ∈ q_fields form -> field_required f = true -> is_Some (field_default f)) ->
  (forall f n, f ∈ q_fields form -> field_default f = Some (VInteger n) -> is_i64 n = true) ->
  content_bytes (defaults form) <= MAX_TOTAL_BYTES ->
  exists r, decode_response (encode_response (Submit (defaults form))) = Some r /\
            validate_product_response form r = Ok tt.
Proof.
  intros Hn Hr Hi Hb. apply normalize_form_ok in Hn as Hok.
  pose proof (defaults_answer _ _ Hok Hr) as Ha. exists (Submit (defaults form)). split.
  - apply response_decodes. intros ? [= <-] k v Hk.
    pose proof (an_known _ _ Ha _ _ Hk) as (f & -> & Hf)%list_elem_of_fmap.
    rewrite defaults_lookup in Hk by (done || apply (fo_distinct _ _ Hok)).
    pose proof (fo_defaults _ _ Hok _ _ Hf Hk) as Had. inversion Had; subst; cbn; try done. by eapply Hi.
  - cbn. apply result_unit_ok. unfold enforce_budget. rewrite bool_decide_eq_false_2 by lia. split; [done|].
    by apply validate_content_iff.
Qed.

(** A JSON number without a fraction is decoded as an integer, which a number
    field refuses whatever its range. *)
Theorem whole_number_is_refused h d lo hi n v :
  is_i64 n = true -> decode_value (JNumber n) = Some v ->
  validate_value (NumberField h d lo hi) v = invalid "elicitation response value has the wrong type".
Proof. cbn [decode_value]. intros ->. by intros [= <-]. Qed.

End Questions.

(** ** Witnesses *)

Module QuestionWitness.

#[local] Instance plain_codecs : FormCodecs := {|
  regex_new := fun p => if bool_decide (p = ""%string) then None else Some (fun _ => true);
  request_bytes := fun _ _ => 100;
  content_bytes := fun c => Z.of_nat (size c);
|}.

Definition one_and_a_half : Z := 4609434218613702656.

Definition schema : ElicitationSchema := mkSchema
  (<["name"%string := PString None None (Some 1) (Some 8) (Some "^[a-z]+$"%string) None (Some "demo"%string) None None]>
  (<["ratio"%string := PNumber None None (Some 0) None (Some one_and_a_half)]>
  (<["count"%string := PInteger (Some "Count"%string) None (Some 1) (Some 10) (Some 2)]>
  (<["tags"%string := PArray None None None (Some 2) (Untitled ["a"%string; "b"%string]) ["b"%string]]> ∅))))
  ["name"%string].

Definition form : QuestionRequestParams :=
  match normalize_form "Configure" schema with Ok f => f | Err _ => mkParams "" [] end.

Example form_of_schema : normalize_form "Configure" schema = Ok form.
Proof. vm_compute. reflexivity. Qed.

Example form_order : field_key <$> q_fields form = ["count"; "name"; "ratio"; "tags"]%string.
Proof. vm_compute. reflexivity. Qed.

Lemma normalized_form_is_well_formed_witness : form_ok schema form.
Proof. exact (normalized_form_is_well_formed "Configure" schema form form_of_schema). Defined.

Example form_defaults :
  forallb (fun f => is_some (field_default f)) (q_fields form) = true /\
  forallb (fun f => match field_default f with Some (VInteger n) => is_i64 n | _ => true end) (q_fields form) = true.
Proof. vm_compute. done. Qed.

Lemma form_defaults_present f : f ∈ q_fields form -> is_Some (field_default f).
Proof.
  intros Hf%list_elem_of_In. destruct form_defaults as [Hall _]. rewrite forallb_forall in Hall. specialize (Hall f Hf).
  by destruct (field_default f).
Qed.

Lemma form_integers f n : f ∈ q_fields form -> field_default f = Some (VInteger n) -> is_i64 n = true.
Proof.
  intros Hf%list_elem_of_In E. destruct form_defaults as [_ Hall]. rewrite forallb_forall in Hall. specialize (Hall f Hf).
  by rewrite E in Hall.
Qed.

Lemma defaults_are_accepted_witness :
  exists r, decode_response (encode_response (Submit (defaults form))) = Some r /\ validate_product_response form r = Ok tt.
Proof.
  refine (defaults_are_accepted "Configure" schema form _ _ _ _).
  - exact form_of_schema.
  - intros f Hf _. exact (form_defaults_present f Hf).
  - exact form_integers.
  - apply (bool_decide_unpack _). vm_compute. exact I.
Defined.

(** The client shows 1.5 and accepts 2; the App Server accepts 1.5 only. *)
Example two_is_refused :
  validate_value (NumberField (mkHead "ratio" "ratio" None false) None (Some 0) None) (VInteger 2)
  = invalid "elicitation response value has the wrong type" /\ decode_value (JNumber 2) = Some (VInteger 2).
Proof. split; reflexivity. Qed.

Lemma whole_number_is_refused_witness :
  validate_value (NumberField (mkHead "ratio" "ratio" None false) None (Some 0) None) (VInteger 2)
  = invalid "elicitation response value has the wrong type".
Proof. exact (whole_number_is_refused (mkHead "ratio" "ratio" None false) None (Some 0) None 2 (VInteger 2) eq_refl eq_refl). Defined.

Lemma answer_round_trip_witness : decode_response (encode_response (Submit {["n"%string := VInteger 3]})) = Some (Submit {["n"%string := VInteger 3]}).
Proof.
  apply (answer_round_trip (Submit {["n"%string := VInteger 3]})). intros content [= <-] k v Hk.
  apply lookup_singleton_Some in Hk as [_ <-]. reflexivity.
Defined.

End QuestionWitness.
