(* ===== verification/RequestRuntime.v ===== *)
(** * Requests an Agent or the App Server waits for

    Models [openaide-rs/app-server/src/server_requests/runtime.rs] and its modules
    [lifecycle.rs], [permissions.rs], [questions.rs] and [waitable.rs]: the broker
    of [ServerRequests] with the waiters of the threads that opened a request.

    Every method runs under one mutex.  A thread that waits holds the mutex except
    while it sleeps on the condition variable, so one round of its loop is an
    atomic operation ([poll_permission], [poll_question], [poll_waitable]) that
    returns nothing when the thread goes on waiting.  [open_waitable_client_request]
    takes the mutex twice and is two operations of an execution.  Decoding of
    parameters for a snapshot and the serialized form of a question are
    parameters. *)

From S2P Require Import Prelude Protocol ClientLifecycle Chat Records Questions ServerRequests.
Import Form.

Local Open Scope Z_scope.

Definition SECRET_READ : string := "secret/read".
Definition SHELL_OPEN_EXTERNAL : string := "shell/openExternal".
Definition SHELL_SHOW_NOTIFICATION : string := "shell/showNotification".
Definition SHELL_REVEAL_FILE : string := "shell/revealFile".

(** ** Permissions *)

Inductive PermissionDecision := DecisionApproved | DecisionDenied.
#[global] Instance PermissionDecision_eq_dec : EqDecision PermissionDecision.
Proof. solve_decision. Defined.

Inductive AgentPermissionOptionKind := AllowOnce | AllowAlways | RejectOnce | RejectAlways.

Record AgentPermissionOption := mkPermissionOption {
  po_option_id : string;
  po_name : string;
  po_kind : AgentPermissionOptionKind;
}.

Record AgentToolCallRef := mkToolCallRef { tc_id : string; tc_title : string; tc_kind : option string }.

Record AgentPermissionRequest := mkPermissionRequest {
  pq_request_id : string;
  pq_title : string;
  pq_description : option string;
  pq_scope : option string;
  pq_risk : option string;
  pq_tool_call : AgentToolCallRef;
  pq_options : list AgentPermissionOption;
}.

Inductive AgentPermissionOutcome := Selected (option_id : string) | Cancelled.

Record PermissionResponse := mkPermissionResponse {
  rs_outcome : AgentPermissionOutcome;
  rs_decision : option PermissionDecision;
}.

Record PermissionWaiter := mkPermissionWaiter {
  pw_options : gmap string PermissionDecision;
  pw_outcome : option PermissionResponse;
}.

Definition permission_decision (kind : AgentPermissionOptionKind) : PermissionDecision :=
  match kind with AllowOnce | AllowAlways => DecisionApproved | RejectOnce | RejectAlways => DecisionDenied end.

Definition permission_option_kind (kind : AgentPermissionOptionKind) : string :=
  match kind with
  | AllowOnce => "allowOnce" | AllowAlways => "allowAlways"
  | RejectOnce => "rejectOnce" | RejectAlways => "rejectAlways"
  end.

(** [collect] into a [HashMap]: the last of equal ids wins. *)
Definition new_permission_waiter (request : AgentPermissionRequest) : PermissionWaiter :=
  mkPermissionWaiter
    (list_to_map (reverse ((fun o => (po_option_id o, permission_decision (po_kind o))) <$> pq_options request)))
    None.

Definition allows_option (w : PermissionWaiter) (option_id : string) : bool := is_some (pw_options w !! option_id).

Definition option_id_from_result (result : JsonValue) : option string :=
  match json_get "optionId" result with
  | Some v => as_str v
  | None => json_get "option_id" result ≫= as_str
  end.

(** [json!]. *)
Definition json_object (fields : list (string * JsonValue)) : JsonValue :=
  JObject (foldl (fun acc f => insert_field f.1 f.2 acc) [] fields).
Definition json_option (o : option string) : JsonValue := match o with Some s => JString s | None => JNull end.

Definition permission_params (request : AgentPermissionRequest) : JsonValue :=
  json_object
    [("requestId"%string, JString (pq_request_id request));
     ("title"%string, JString (pq_title request));
     ("description"%string, json_option (pq_description request));
     ("scope"%string, json_option (pq_scope request));
     ("risk"%string, json_option (pq_risk request));
     ("toolCall"%string, json_object
        [("id"%string, JString (tc_id (pq_tool_call request)));
         ("title"%string, JString (tc_title (pq_tool_call request)));
         ("kind"%string, json_option (tc_kind (pq_tool_call request)))]);
     ("options"%string, JArray ((fun o => json_object
        [("optionId"%string, JString (po_option_id o));
         ("name"%string, JString (po_name o));
         ("kind"%string, JString (permission_option_kind (po_kind o)))]) <$> pq_options request))].

Definition set_permission_outcome (waiters : gmap string PermissionWaiter) (id option_id : string)
  : bool * gmap string PermissionWaiter :=
  match waiters !! id with
  | None => (false, waiters)
  | Some w =>
      if is_some (pw_outcome w) then (false, waiters)
      else match pw_options w !! option_id with
           | None => (false, waiters)
           | Some decision =>
               (true, <[id := mkPermissionWaiter (pw_options w)
                                (Some (mkPermissionResponse (Selected option_id) (Some decision)))]> waiters)
           end
  end.

(** ** The runtime *)

Record QuestionWaiter := mkQuestionWaiter { qw_form : QuestionRequestParams; qw_result : option QuestionRequestResponse }.

Section RequestRuntime.
Context `{PayloadTypes} `{FormCodecs}.
Context (parse_permission : JsonValue -> option Protocol.PermissionRequestParams)
        (parse_question : JsonValue -> option Protocol.QuestionRequestParams)
        (encode_form : QuestionRequestParams -> JsonValue).

Abbreviation Broker := (ServerRequestBroker (Value := JsonValue)).
Abbreviation Answer := (ServerRequestAnswer (Value := JsonValue)).
Abbreviation Draft := (ServerRequestDraft (Value := JsonValue)).
Abbreviation RequestDelivery := (ServerRequestDelivery (Value := JsonValue)).
Abbreviation broker_open := (ServerRequests.open parse_permission parse_question).

(** [WaitableRequest] is its [result]. *)
Record Runtime := mkRuntime {
  broker : Broker;
  permission_waiters : gmap string PermissionWaiter;
  waitable_requests : gmap string (option JsonValue);
  question_waiters : gmap string QuestionWaiter;
}.

Definition new_runtime : Runtime := mkRuntime ServerRequests.new ∅ ∅ ∅.

Definition with_broker (b : Broker) (rt : Runtime) : Runtime :=
  mkRuntime b (permission_waiters rt) (waitable_requests rt) (question_waiters rt).
Definition with_permissions (m : gmap string PermissionWaiter) (rt : Runtime) : Runtime :=
  mkRuntime (broker rt) m (waitable_requests rt) (question_waiters rt).
Definition with_waitable (m : gmap string (option JsonValue)) (rt : Runtime) : Runtime :=
  mkRuntime (broker rt) (permission_waiters rt) m (question_waiters rt).
Definition with_questions (m : gmap string QuestionWaiter) (rt : Runtime) : Runtime :=
  mkRuntime (broker rt) (permission_waiters rt) (waitable_requests rt) m.

(** *** Opening *)

Definition runtime_open (draft : Draft) (deliveries : list Delivery) (now : string) (rt : Runtime)
  : OpenRequestOutcome * Runtime :=
  let '(o, b) := broker_open draft deliveries now (broker rt) in (o, with_broker b rt).

Definition open_permission_request (task_id : string) (request : AgentPermissionRequest)
    (deliveries : list Delivery) (now : string) (rt : Runtime) : option string * Runtime :=
  let draft := mkDraft (ScopeTask task_id) "permission/request" (pq_title request) (permission_params request) in
  match broker_open draft deliveries now (broker rt) with
  | (Unavailable _, b) => (None, with_broker b rt)
  | (Opened snapshot deliveries, b) =>
      let b := defer_deliveries deliveries b in
      let id := pr_request_id snapshot in
      (Some id, with_permissions (<[id := new_permission_waiter request]> (permission_waiters rt)) (with_broker b rt))
  end.

Definition open_question_request (task_id : string) (form : QuestionRequestParams) (now : string) (rt : Runtime)
  : option string * Runtime :=
  let draft := mkDraft (ScopeTask task_id) QUESTION_REQUEST "Question" (encode_form form) in
  match broker_open draft [] now (broker rt) with
  | (Unavailable _, b) => (None, with_broker b rt)
  | (Opened snapshot deliveries, b) =>
      let b := defer_deliveries deliveries b in
      let id := pr_request_id snapshot in
      (Some id, with_questions (<[id := mkQuestionWaiter form None]> (question_waiters rt)) (with_broker b rt))
  end.

Definition open_waitable_request (scope : PendingRequestScope) (deliveries : list Delivery) (method title : string)
    (params : JsonValue) (now : string) (rt : Runtime)
  : result (string * list RequestDelivery) RuntimeError * Runtime :=
  match broker_open (mkDraft scope method title params) deliveries now (broker rt) with
  | (Unavailable _, b) => (Err (NotReady "server request is unavailable"), with_broker b rt)
  | (Opened snapshot deliveries, b) =>
      let id := pr_request_id snapshot in
      (Ok (id, deliveries), with_waitable (<[id := None]> (waitable_requests rt)) (with_broker b rt))
  end.

Definition runtime_defer (deliveries : list RequestDelivery) (rt : Runtime) : Runtime :=
  with_broker (defer_deliveries deliveries (broker rt)) rt.

Definition open_waitable_client_request (client : string) (delivery : Delivery) (method title : string)
    (params : JsonValue) (now : string) (rt : Runtime)
  : result (string * list RequestDelivery) RuntimeError * Runtime :=
  let '(opened, rt) := open_waitable_request (ScopeClient client) [delivery] method title params now rt in
  match opened with
  | Err e => (Err e, rt)
  | Ok (id, deliveries) => (Ok (id, deliveries), runtime_defer deliveries rt)
  end.

(** A member that [skip_serializing_if] leaves out when it is absent. *)
Definition json_member (k : string) (o : option string) : list (string * JsonValue) :=
  match o with Some s => [(k, JString s)] | None => [] end.

Definition open_secret_read_request (client : string) (delivery : Delivery) (key : string) (label : option string)
    (now : string) (rt : Runtime) :=
  open_waitable_client_request client delivery SECRET_READ (default "Secret needed"%string label)
    (json_object (("key"%string, JString key) :: json_member "label" label)) now rt.

Definition open_task_secret_read_request (task_id key : string) (label : option string) (now : string) (rt : Runtime) :=
  open_waitable_request (ScopeTask task_id) [] SECRET_READ (default "Secret needed"%string label)
    (json_object (("key"%string, JString key) :: json_member "label" label)) now rt.

Inductive ShellNotificationLevel := LevelInfo | LevelWarning | LevelError.
Record ShellNotificationAction := mkNotificationAction { na_action_id : string; na_label : string }.

Definition level_name (level : ShellNotificationLevel) : string :=
  match level with LevelInfo => "info" | LevelWarning => "warning" | LevelError => "error" end.

(** An empty list of actions is not serialized. *)
Definition notification_params (level : ShellNotificationLevel) (message : string) (actions : list ShellNotificationAction)
  : JsonValue :=
  json_object ([("level"%string, JString (level_name level)); ("message"%string, JString message)] ++
    if bool_decide (length actions = 0%nat) then []
    else [("actions"%string, JArray ((fun a => json_object
            [("actionId"%string, JString (na_action_id a)); ("label"%string, JString (na_label a))]) <$> actions))]).

Definition open_shell_notification_request (client : string) (delivery : Delivery) (level : ShellNotificationLevel)
    (message : string) (actions : list ShellNotificationAction) (now : string) (rt : Runtime) :=
  open_waitable_client_request client delivery SHELL_SHOW_NOTIFICATION message
    (notification_params level message actions) now rt.

Definition open_shell_open_external_request (client : string) (delivery : Delivery) (url : string)
    (message : option string) (now : string) (rt : Runtime) :=
  open_waitable_client_request client delivery SHELL_OPEN_EXTERNAL url
    (json_object (("url"%string, JString url) :: json_member "message" message)) now rt.

Definition open_shell_reveal_file_request (client : string) (delivery : Delivery) (file_handle_id : string)
    (label : option string) (now : string) (rt : Runtime) :=
  open_waitable_client_request client delivery SHELL_REVEAL_FILE (default "Reveal file"%string label)
    (json_object ([("originatingClientInstanceId"%string, JString client); ("fileHandleId"%string, JString file_handle_id)]
                    ++ json_member "label" label)) now rt.

(** *** One round of a waiting thread *)

Definition cancelled_response : PermissionResponse := mkPermissionResponse Cancelled None.

Definition poll_permission (cancelled : bool) (id : string) (rt : Runtime) : option PermissionResponse * Runtime :=
  if cancelled then
    (Some cancelled_response,
     with_permissions (delete id (permission_waiters rt)) (with_broker (interrupt_request id (broker rt)).2 rt))
  else
    match permission_waiters rt !! id with
    | None => (Some cancelled_response, rt)
    | Some w =>
        match pw_outcome w with
        | Some outcome => (Some outcome, with_permissions (delete id (permission_waiters rt)) rt)
        | None => (None, rt)
        end
    end.

Definition poll_question (cancelled : bool) (id : string) (rt : Runtime) : option QuestionRequestResponse * Runtime :=
  if cancelled then
    (Some Cancel,
     with_questions (delete id (question_waiters rt)) (with_broker (interrupt_request id (broker rt)).2 rt))
  else
    match question_waiters rt !! id with
    | None => (Some Cancel, rt)
    | Some w =>
        match qw_result w with
        | Some result => (Some result, with_questions (delete id (question_waiters rt)) rt)
        | None => (None, rt)
        end
    end.

Definition poll_waitable (cancelled timed_out : bool) (id : string) (rt : Runtime)
  : option (result JsonValue RuntimeError) * Runtime :=
  let fail_wait what :=
    (Some (Err (NotReady what)),
     with_waitable (delete id (waitable_requests rt)) (with_broker (interrupt_request id (broker rt)).2 rt)) in
  if cancelled then fail_wait "server request cancelled"%string
  else
    match waitable_requests rt !! id with
    | None => (Some (Err (NotReady "server request is unavailable")), rt)
    | Some (Some result) => (Some (Ok result), with_waitable (delete id (waitable_requests rt)) rt)
    | Some None => if timed_out then fail_wait "server request timed out"%string else (None, rt)
    end.

(** *** Answers *)

Definition waiter_allows_option (rt : Runtime) (id option_id : string) : bool :=
  match permission_waiters rt !! id with Some w => allows_option w option_id | None => false end.

Definition auto_approve_permission (id option_id : string) (rt : Runtime) : bool * Runtime :=
  if negb (waiter_allows_option rt id option_id) then (false, rt)
  else
    match resolve_request_without_responder id (broker rt) with
    | (None, b) => (false, with_broker b rt)
    | (Some _, b) =>
        let '(accepted, waiters) := set_permission_outcome (permission_waiters rt) id option_id in
        (accepted, with_permissions waiters (with_broker b rt))
    end.

Definition normalized_answer_for_waiter (rt : Runtime) (id : string) (answer : Answer) : Answer :=
  if negb (is_some (permission_waiters rt !! id)) then answer
  else
    match answer with
    | AnswerResult result =>
        match option_id_from_result result with
        | Some option_id =>
            if waiter_allows_option rt id option_id then AnswerResult result
            else AnswerInvalid "unknown permission option"
        | None => AnswerInvalid "missing permission optionId"
        end
    | AnswerInvalid message => AnswerInvalid message
    end.

Definition normalize_question_answer (rt : Runtime) (id : string) (answer : Answer) : Answer :=
  match question_waiters rt !! id with
  | None => answer
  | Some w =>
      match answer with
      | AnswerInvalid message => AnswerInvalid message
      | AnswerResult value =>
          match decode_response value with
          | Some response =>
              if is_ok (validate_product_response (qw_form w) response) then AnswerResult value
              else AnswerInvalid "question response does not match the requested schema"
          | None => AnswerInvalid "invalid question response"
          end
      end
  end.

Definition set_question_result (id : string) (value : JsonValue) (waiters : gmap string QuestionWaiter)
  : bool * gmap string QuestionWaiter :=
  match waiters !! id, decode_response value with
  | Some w, Some response => (true, <[id := mkQuestionWaiter (qw_form w) (Some response)]> waiters)
  | _, _ => (false, waiters)
  end.

Definition set_waitable_result (id : string) (value : JsonValue) (m : gmap string (option JsonValue))
  : gmap string (option JsonValue) :=
  match m !! id with Some _ => <[id := Some value]> m | None => m end.

(** What an accepted answer does to the waiters. *)
Definition settle_answer (id : string) (value : JsonValue) (rt : Runtime) : Runtime :=
  let rt :=
    match option_id_from_result value with
    | Some option_id =>
        let '(accepted, waiters) := set_permission_outcome (permission_waiters rt) id option_id in
        let rt := with_permissions waiters rt in
        if accepted then rt else with_broker (interrupt_request id (broker rt)).2 rt
    | None => rt
    end in
  let rt := with_waitable (set_waitable_result id value (waitable_requests rt)) rt in
  with_questions (set_question_result id value (question_waiters rt)).2 rt.

Definition runtime_respond (responder id : string) (answer : Answer) (scopes : list ResponderScope) (rt : Runtime)
  : ResponseOutcome * Runtime :=
  let answer := normalize_question_answer rt id (normalized_answer_for_waiter rt id answer) in
  let '(outcome, b) := handle_response_from_scopes responder id answer scopes (broker rt) in
  let rt := with_broker b rt in
  match outcome with
  | ResponseAccepted _ _ _ value => (outcome, settle_answer id value rt)
  | _ => (outcome, rt)
  end.

(** *** Lifecycle *)

Definition remove_waiters (id : string) (rt : Runtime) : Runtime :=
  mkRuntime (broker rt) (delete id (permission_waiters rt)) (delete id (waitable_requests rt))
    (delete id (question_waiters rt)).

Definition remove_outcome (rt : Runtime) (o : RequestLifecycleOutcome) : Runtime :=
  match o with RequestInterrupted id _ => remove_waiters id rt end.

Definition runtime_interrupt (id : string) (rt : Runtime) : option PendingRequestScope * Runtime :=
  let '(scope, b) := interrupt_request id (broker rt) in (scope, remove_waiters id (with_broker b rt)).

(** The body of [interrupt_task_requests] and of [observe_responder_loss]. *)
Definition observe_responder_loss (observed : list RequestLifecycleOutcome * Broker) (rt : Runtime)
  : list RequestLifecycleOutcome * Runtime :=
  (observed.1, foldl remove_outcome (with_broker observed.2 rt) observed.1).

Definition interrupt_task_requests (task_id : string) (rt : Runtime) : nat * Runtime :=
  let '(outcomes, rt) := observe_responder_loss (interrupt_scope (ScopeTask task_id) (broker rt)) rt in
  (length outcomes, rt).

Definition runtime_unavailable (client : string) (rt : Runtime) : list RequestLifecycleOutcome * Runtime :=
  observe_responder_loss (observe_responder_unavailable client (broker rt)) rt.

Definition runtime_available (d : Delivery) (scopes : list ResponderScope) (rt : Runtime)
  : list RequestDelivery * Runtime :=
  let '(ds, b) := observe_responder_available d scopes (broker rt) in (ds, with_broker b rt).

Definition runtime_subscription_added (d : Delivery) (task_id : string) (rt : Runtime)
  : list RequestDelivery * Runtime :=
  let '(ds, b) := observe_subscription_added d task_id (broker rt) in (ds, with_broker b rt).

Definition runtime_subscription_removed (client task_id : string) (rt : Runtime)
  : list RequestLifecycleOutcome * Runtime :=
  observe_responder_loss (observe_subscription_removed client task_id (broker rt)) rt.

Definition runtime_forget_auth_terminal (id : string) (rt : Runtime) : Runtime :=
  with_broker (forget_auth_terminal_exchange id (broker rt))
    (with_waitable (delete id (waitable_requests rt)) rt).

Definition has_pending_for_task (task_id : string) (rt : Runtime) : bool :=
  negb (bool_decide (length (pending_for_task task_id (broker rt)) = 0%nat)).

(** ** Executions *)

Inductive RuntimeOp :=
| ROpen (draft : Draft) (deliveries : list Delivery) (now : string)
| RAskPermission (task_id : string) (request : AgentPermissionRequest) (deliveries : list Delivery) (now : string)
| RAskQuestion (task_id : string) (form : QuestionRequestParams) (now : string)
| ROpenWaitable (scope : PendingRequestScope) (deliveries : list Delivery) (method title : string) (params : JsonValue) (now : string)
| RDefer (deliveries : list RequestDelivery)
| RPollPermission (cancelled : bool) (id : string)
| RPollQuestion (cancelled : bool) (id : string)
| RPollWaitable (cancelled timed_out : bool) (id : string)
| RAutoApprove (id option_id : string)
| RRespond (responder id : string) (answer : Answer) (scopes : list ResponderScope)
| RInterrupt (id : string)
| RInterruptTask (task_id : string)
| RAvailable (d : Delivery) (scopes : list ResponderScope)
| RUnavailable (client : string)
| RSubscriptionAdded (d : Delivery) (task_id : string)
| RSubscriptionRemoved (client task_id : string)
| RForgetAuthTerminal (id : string).

(** Who waits for a request. *)
Inductive WaitKind := WaitPermission (request : AgentPermissionRequest) | WaitQuestion | WaitClient.

(** What is seen from outside: a request that a thread will wait for, the grant of
    an option by a client or by the policy of the Task, and the response that the
    thread of a permission returns. *)
Inductive RuntimeEvent :=
| Asked (id : string) (kind : WaitKind)
| Granted (id option_id : string)
| Returned (id : string) (response : PermissionResponse).

Definition asked_event (kind : WaitKind) (id : option string) : list RuntimeEvent :=
  match id with Some id => [Asked id kind] | None => [] end.

Definition grants (id : string) (outcome : ResponseOutcome (Value := JsonValue)) : list RuntimeEvent :=
  match outcome with
  | ResponseAccepted _ _ _ value =>
      match option_id_from_result value with Some option_id => [Granted id option_id] | None => [] end
  | _ => []
  end.

Definition apply_op (op : RuntimeOp) (rt : Runtime) : list RuntimeEvent * Runtime :=
  match op with
  | ROpen draft deliveries now => ([], (runtime_open draft deliveries now rt).2)
  | RAskPermission task_id request deliveries now =>
      let '(id, rt) := open_permission_request task_id request deliveries now rt in
      (asked_event (WaitPermission request) id, rt)
  | RAskQuestion task_id form now =>
      let '(id, rt) := open_question_request task_id form now rt in (asked_event WaitQuestion id, rt)
  | ROpenWaitable scope deliveries method title params now =>
      let '(r, rt) := open_waitable_request scope deliveries method title params now rt in
      (asked_event WaitClient (match r with Ok (id, _) => Some id | Err _ => None end), rt)
  | RDefer deliveries => ([], runtime_defer deliveries rt)
  | RPollPermission cancelled id =>
      let '(response, rt) := poll_permission cancelled id rt in
      (match response with Some response => [Returned id response] | None => [] end, rt)
  | RPollQuestion cancelled id => ([], (poll_question cancelled id rt).2)
  | RPollWaitable cancelled timed_out id => ([], (poll_waitable cancelled timed_out id rt).2)
  | RAutoApprove id option_id =>
      let '(approved, rt) := auto_approve_permission id option_id rt in
      (if approved then [Granted id option_id] else [], rt)
  | RRespond responder id answer scopes =>
      let '(outcome, rt) := runtime_respond responder id answer scopes rt in (grants id outcome, rt)
  | RInterrupt id => ([], (runtime_interrupt id rt).2)
  | RInterruptTask task_id => ([], (interrupt_task_requests task_id rt).2)
  | RAvailable d scopes => ([], (runtime_available d scopes rt).2)
  | RUnavailable client => ([], (runtime_unavailable client rt).2)
  | RSubscriptionAdded d task_id => ([], (runtime_subscription_added d task_id rt).2)
  | RSubscriptionRemoved client task_id => ([], (runtime_subscription_removed client task_id rt).2)
  | RForgetAuthTerminal id => ([], runtime_forget_auth_terminal id rt)
  end.

(** A thread waits for, or forgets, the request it opened itself. *)
Definition op_ok (trace : list RuntimeEvent) (op : RuntimeOp) : Prop :=
  match op with
  | RPollPermission _ id => exists request, Asked id (WaitPermission request) ∈ trace
  | RPollQuestion _ id => Asked id WaitQuestion ∈ trace
  | RPollWaitable _ _ id | RForgetAuthTerminal id => Asked id WaitClient ∈ trace
  | _ => True
  end.

(** The states after [n] operations, with the events so far. *)
Inductive reaches : nat -> list RuntimeEvent -> Runtime -> Prop :=
| reaches_new : reaches 0 [] new_runtime
| reaches_step n trace rt op :
    reaches n trace rt -> op_ok trace op -> reaches (S n) (trace ++ (apply_op op rt).1) (apply_op op rt).2.

(** ** The status of a request *)

Definition status_of (b : Broker) (id : string) : option RequestStatus := pd_status <$> records b !! id.
Definition pending_in (b : Broker) (id : string) : Prop := status_of b id = Some Pending.

Lemma status_insert id r r' (b : Broker) j :
  records b !! id = Some r -> pd_status r' = pd_status r ->
  status_of (set_records (<[id := r']> (records b)) b) j = status_of b j.
Proof.
  intros Hr Hs. unfold status_of. cbn. rewrite lookup_insert. case_decide; [subst|done]. rewrite Hr. cbn. by rewrite Hs.
Qed.

Lemma status_fmap f (b : Broker) j : (forall r, pd_status (f r) = pd_status r) ->
  status_of (set_records (f <$> records b) b) j = status_of b j.
Proof. intros Hf. unfold status_of. cbn. rewrite lookup_fmap. destruct (records b !! j); cbn; by rewrite ?Hf. Qed.

Lemma status_stale client (r : PendingRecord (Value := JsonValue)) : pd_status (mark_responder_stale client r) = pd_status r.
Proof. unfold mark_responder_stale. by split_test. Qed.

Lemma status_mark_and_build id ds (b : Broker) j : status_of (mark_and_build_deliveries id ds b).2 j = status_of b j.
Proof.
  unfold mark_and_build_deliveries. destruct (records b !! id) as [r|] eqn:Hr; [|done]. cbn [snd].
  eapply status_insert; [done|]. generalize (filter (fun d => can_deliver_to r (d_client d) = true) (scan_unseen [] ds)).
  clear Hr. intros l. revert r. induction l as [|d l IH]; intros r; [done|]. cbn [foldl]. by rewrite IH.
Qed.

Lemma status_offers d ids (acc : list RequestDelivery * Broker) j :
  status_of (foldl (offer_request d) acc ids).2 j = status_of acc.2 j.
Proof.
  revert acc. induction ids as [|id ids IH]; intros [out b]; [done|]. cbn [foldl]. rewrite IH. unfold offer_request.
  set (b1 := match records b !! id with Some _ => _ | None => _ end).
  pose proof (status_mark_and_build id [d] b1 j) as Hm. destruct (mark_and_build_deliveries id [d] b1) as [more b2]. cbn [snd] in *.
  rewrite Hm. unfold b1. destruct (records b !! id) eqn:Hr; [|done]. by eapply status_insert.
Qed.

Lemma status_defer ds (b : Broker) j : status_of (defer_deliveries ds b) j = status_of b j.
Proof.
  unfold defer_deliveries. revert b. induction ds as [|d ds IH]; intros b; [done|]. cbn [foldl]. rewrite IH.
  destruct (records b !! _) eqn:Hr; [|done]. by eapply status_insert.
Qed.

Lemma status_available d scopes (b : Broker) j : status_of (observe_responder_available d scopes b).2 j = status_of b j.
Proof. unfold observe_responder_available. by rewrite status_offers. Qed.

Lemma status_subscription_removed client task_id (b : Broker) j :
  status_of (observe_subscription_removed client task_id b).2 j = status_of b j.
Proof.
  unfold observe_subscription_removed. destruct (available_responders b !! client); cbn [snd].
  - etrans; [apply (status_fmap _ (set_available _ b))|done]. intros r. destruct (_ && _); [apply status_stale|done].
  - apply status_fmap. intros r. destruct (_ && _); [apply status_stale|done].
Qed.

Lemma status_finish s id (b : Broker) j : j <> id -> status_of (finish_request s id b).2 j = status_of b j.
Proof.
  intros Hj. unfold finish_request. destruct (records b !! id) as [r|]; [|done]. split_test; [done|].
  unfold status_of. cbn. by rewrite lookup_insert_ne.
Qed.

(** The record of an answered request is no longer pending; otherwise nothing ends. *)
Lemma status_respond responder id answer scopes (b : Broker) :
  let '(o, b') := handle_response_from_scopes responder id answer scopes b in
  (forall j, j <> id -> status_of b' j = status_of b j) /\
  match o with
  | ResponseAccepted id' _ _ value =>
      id' = id /\ answer = AnswerResult value /\ pending_in b id /\ status_of b' id = Some Resolved
  | _ => status_of b' id = status_of b id
  end.
Proof.
  unfold handle_response_from_scopes. destruct (records b !! id) as [r|] eqn:Hr; [|done].
  set (r1 := if bool_decide _ && _ then _ else _).
  assert (pd_status r1 = pd_status r) as Hs by (unfold r1; by destruct (_ && _)).
  set (b1 := set_records (<[id := r1]> (records b)) b).
  assert (forall j, status_of b1 j = status_of b j) as H1 by (intros j; by eapply status_insert).
  destruct (pd_responders r1 !! responder) as [[]|]; try done;
    (destruct (pd_status r1) eqn:Hp; try done; destruct answer as [value|]; [|done]; split;
     [intros j Hj; rewrite <- H1; unfold status_of; cbn; by rewrite !lookup_insert_ne|];
     split; [done|]; split; [done|]; unfold pending_in, status_of; cbn; rewrite Hr, lookup_insert_eq; cbn; by rewrite <- Hs).
Qed.

Lemma status_open draft deliveries now (b : Broker) :
  let '(o, b') := broker_open draft deliveries now b in
  (forall j, status_of b' j = status_of b j \/ pending_in b' j) /\
  match o with Opened snapshot _ => pending_in b' (pr_request_id snapshot) | Unavailable _ => True end.
Proof.
  pose proof (open_spec parse_permission parse_question draft deliveries now b) as Ho.
  destruct (broker_open draft deliveries now b) as [[snapshot ds|] b'].
  - destruct Ho as (_ & r' & sent & Hr & Hsn & Hid & Hp & _). unfold pending_in, status_of. rewrite Hr, Hid. split.
    + intros j. rewrite lookup_insert. case_decide; [right; cbn; by rewrite Hp|by left].
    + rewrite lookup_insert_eq. cbn. by rewrite Hp.
  - destruct Ho as [_ Hr]. split; [|done]. intros j. left. unfold status_of. by rewrite Hr.
Qed.

Lemma keyed_step op (b : Broker) : keyed b -> keyed (step parse_permission parse_question op b).2.
Proof.
  intros Hk id r' Hr'. destruct (step_step_ok parse_permission parse_question op b Hk) as [Hrec _ _ _].
  destruct (Hrec id r' Hr') as [(r & Hr & [E _ _ _])|(_ & _ & E)]; [|done]. rewrite E. by apply Hk.
Qed.

(** ** Waiters

    A waiter is held under an id that was issued to a request of its kind. *)

Definition asked_ids (trace : list RuntimeEvent) : list string :=
  omap (fun e => match e with Asked id _ => Some id | _ => None end) trace.

(** A thread waits for [id] and has no answer yet. *)
Definition waits (rt : Runtime) (id : string) : Prop :=
  (exists w, permission_waiters rt !! id = Some w /\ pw_outcome w = None) \/
  waitable_requests rt !! id = Some None \/
  (exists w, question_waiters rt !! id = Some w /\ qw_result w = None).

(** What a permission waiter was asked and what it was given. *)
Definition permission_ok (trace : list RuntimeEvent) (id : string) (w : PermissionWaiter) : Prop :=
  exists request, Asked id (WaitPermission request) ∈ trace /\ pw_options w = pw_options (new_permission_waiter request) /\
  forall response, pw_outcome w = Some response ->
    exists option_id decision, response = mkPermissionResponse (Selected option_id) (Some decision) /\
      pw_options w !! option_id = Some decision /\ Granted id option_id ∈ trace.

Record live (n : nat) (trace : list RuntimeEvent) (rt : Runtime) : Prop := {
  lv_next : 1 <= next_request_id (broker rt) <= Z.of_nat n + 1;
  lv_keyed : keyed (broker rt);
  lv_nodup : NoDup (asked_ids trace);
  lv_issued : forall id, id ∈ asked_ids trace -> issued (broker rt) id;
  lv_permission : forall id w, permission_waiters rt !! id = Some w -> permission_ok trace id w;
  lv_waitable : forall id v, waitable_requests rt !! id = Some v -> Asked id WaitClient ∈ trace;
  lv_question : forall id w, question_waiters rt !! id = Some w -> Asked id WaitQuestion ∈ trace;
  lv_pending : forall id, waits rt id -> pending_in (broker rt) id;
}.

Lemma asked_elem id kind trace : Asked id kind ∈ trace -> id ∈ asked_ids trace.
Proof. intros Hin. apply list_elem_of_omap. by exists (Asked id kind). Qed.

Lemma asked_unique id kind kind' trace :
  NoDup (asked_ids trace) -> Asked id kind ∈ trace -> Asked id kind' ∈ trace -> kind = kind'.
Proof.
  intros Hd H1 H2. apply list_elem_of_lookup in H1 as [i Hi], H2 as [j Hj]. revert i j Hi Hj.
  induction trace as [|e trace IH]; intros i j Hi Hj; [done|].
  assert (forall m k, trace !! m = Some (Asked id k) -> id ∈ asked_ids trace) as Hin
    by (intros m k Hm%list_elem_of_lookup_2; by eapply asked_elem).
  destruct e as [id0 k0| |]; cbn in Hd.
  - apply NoDup_cons in Hd as [Hn Hd]. destruct i as [|i], j as [|j]; cbn in Hi, Hj; simplify_eq.
    + done.
    + destruct Hn. eauto.
    + destruct Hn. eauto.
    + by eapply IH.
  - destruct i, j; [done..|]. by eapply IH.
  - destruct i, j; [done..|]. by eapply IH.
Qed.

Lemma permission_ok_mono trace trace' id w : permission_ok trace id w -> permission_ok (trace ++ trace') id w.
Proof.
  intros (request & Ha & He & Ho). exists request. split; [by apply elem_of_app; left|]. split; [done|].
  intros response Hr. destruct (Ho response Hr) as (o & d & -> & Hd & Hg). exists o, d. split; [done|]. split; [done|].
  by apply elem_of_app; left.
Qed.

Lemma live_new : live 0 [] new_runtime.
Proof.
  split; cbn; [done|by intros id r [=]|constructor|by intros id ?%elem_of_nil|by intros id w [=]|by intros id v [=]
    |by intros id w [=]|]. by intros id [(w & [=] & _)|[[=]|(w & [=] & _)]].
Qed.

(** A step after which nobody new waits: waiters are only taken away or answered. *)
Lemma live_quiet n trace out rt rt' :
  live n trace rt -> asked_ids out = [] ->
  next_request_id (broker rt) <= next_request_id (broker rt') <= next_request_id (broker rt) + 1 -> keyed (broker rt') ->
  (forall id w, permission_waiters rt' !! id = Some w ->
     permission_waiters rt !! id = Some w \/ permission_ok (trace ++ out) id w) ->
  (forall id, is_Some (waitable_requests rt' !! id) -> is_Some (waitable_requests rt !! id)) ->
  (forall id, is_Some (question_waiters rt' !! id) -> is_Some (question_waiters rt !! id)) ->
  (forall id, waits rt' id -> waits rt id /\
     (status_of (broker rt') id = status_of (broker rt) id \/ pending_in (broker rt') id)) ->
  live (S n) (trace ++ out) rt'.
Proof.
  intros Hl Ho Hn Hk Hp Hw Hq Hs. destruct Hl as [L1 L2 L3 L4 L5 L6 L7 L8].
  assert (asked_ids (trace ++ out) = asked_ids trace) as E
    by (unfold asked_ids in *; by rewrite omap_app, Ho, app_nil_r).
  split; rewrite ?E.
  - lia.
  - done.
  - done.
  - intros id (k & Hk' & ->)%L4. exists k. split; [lia|done].
  - intros id w [Hold|]%Hp; [|done]. by apply permission_ok_mono, L5.
  - intros id v Hv. destruct (Hw id) as [v' Hv']; [by eexists|]. apply elem_of_app. left. by eapply L6.
  - intros id w Hv. destruct (Hq id) as [w' Hw']; [by eexists|]. apply elem_of_app. left. by eapply L7.
  - intros id [Hold [Es|Hp']]%Hs; [|done]. unfold pending_in. rewrite Es. by apply L8.
Qed.

(** Only the broker changes, and no request ends. *)
Lemma live_broker n trace b rt :
  live n trace rt -> next_request_id (broker rt) <= next_request_id b <= next_request_id (broker rt) + 1 -> keyed b ->
  (forall id, status_of b id = status_of (broker rt) id \/ pending_in b id) -> live (S n) (trace ++ []) (with_broker b rt).
Proof.
  intros Hl Hn Hk Hs. apply (live_quiet n trace [] rt); [done..|by left|done|done|].
  intros id Hw. split; [done|]. apply Hs.
Qed.

Lemma keyed_same (b b' : Broker) : same_requests b b' -> keyed b -> keyed b'.
Proof.
  intros [_ Hr] Hk id r' Hr'. specialize (Hr id). rewrite Hr' in Hr. destruct (records b !! id) eqn:E; [|done].
  rewrite (ev_snapshot _ _ Hr). by apply Hk.
Qed.

Lemma keyed_open draft ds now (b : Broker) : keyed b -> keyed (broker_open draft ds now b).2.
Proof.
  intros Hk. pose proof (keyed_step (OpOpen draft ds now) b Hk) as Hs. cbn [step] in Hs. by destruct (broker_open draft ds now b).
Qed.

(** The id that is issued next belongs to nobody. *)
Lemma live_fresh n trace rt :
  live n trace rt -> Z.of_nat n < u64_max -> request_id_string (next_request_id (broker rt)) ∉ asked_ids trace.
Proof.
  intros Hl Hn Hin. apply (lv_issued _ _ _ Hl) in Hin as (k & Hk & E). pose proof (lv_next _ _ _ Hl).
  apply request_id_string_inj in E; lia.
Qed.

(** A step that issues the next id to a new waiter. *)
Lemma live_opened n trace rt rt' kind :
  let id := request_id_string (next_request_id (broker rt)) in
  live n trace rt -> Z.of_nat n + 1 < u64_max ->
  next_request_id (broker rt') = u64_add (next_request_id (broker rt)) 1 -> keyed (broker rt') ->
  pending_in (broker rt') id -> (forall j, j <> id -> status_of (broker rt') j = status_of (broker rt) j) ->
  (forall j, j <> id -> permission_waiters rt' !! j = permission_waiters rt !! j /\
     waitable_requests rt' !! j = waitable_requests rt !! j /\ question_waiters rt' !! j = question_waiters rt !! j) ->
  (forall w, permission_waiters rt' !! id = Some w ->
     exists request, kind = WaitPermission request /\ w = new_permission_waiter request) ->
  (forall v, waitable_requests rt' !! id = Some v -> kind = WaitClient) ->
  (forall w, question_waiters rt' !! id = Some w -> kind = WaitQuestion) ->
  live (S n) (trace ++ [Asked id kind]) rt'.
Proof.
  intros id Hl Hn Hnext Hk Hp Hs Hj Hip Hiw Hiq. pose proof (live_fresh _ _ _ Hl ltac:(lia)) as Hfresh. fold id in Hfresh.
  destruct Hl as [L1 L2 L3 L4 L5 L6 L7 L8].
  assert (next_request_id (broker rt') = next_request_id (broker rt) + 1) as Hnext'
    by (rewrite Hnext; apply u64_add_small; unfold is_u64, u64_max in *; lia).
  assert (asked_ids (trace ++ [Asked id kind]) = asked_ids trace ++ [id]) as E by (unfold asked_ids; by rewrite omap_app).
  assert (Asked id kind ∈ trace ++ [Asked id kind]) as Hlast by (apply elem_of_app; right; by left).
  split; rewrite ?E.
  - lia.
  - done.
  - apply NoDup_app. split; [done|]. split; [|apply NoDup_singleton]. intros x Hx ->%list_elem_of_singleton. done.
  - intros j [(k & Hk' & ->)%L4| ->%list_elem_of_singleton]%elem_of_app; [exists k; split; [lia|done]|].
    exists (next_request_id (broker rt)). split; [lia|done].
  - intros j w. destruct (decide (j = id)) as [->|Hne].
    + intros (request & -> & ->)%Hip. by exists request.
    + destruct (Hj j Hne) as (-> & _ & _). intros Hw. by apply permission_ok_mono, L5.
  - intros j v. destruct (decide (j = id)) as [->|Hne]; [by intros ->%Hiw|].
    destruct (Hj j Hne) as (_ & -> & _). intros Hv. apply elem_of_app. left. by eapply L6.
  - intros j w. destruct (decide (j = id)) as [->|Hne]; [by intros ->%Hiq|].
    destruct (Hj j Hne) as (_ & _ & ->). intros Hv. apply elem_of_app. left. by eapply L7.
  - intros j. destruct (decide (j = id)) as [->|Hne]; [done|]. destruct (Hj j Hne) as (E1 & E2 & E3).
    intros Hw. unfold pending_in. rewrite Hs by done. apply L8. unfold waits in *. by rewrite E1, E2, E3 in Hw.
Qed.

(** Nobody waits under the next id. *)
Lemma live_free n trace rt :
  live n trace rt -> Z.of_nat n < u64_max ->
  let id := request_id_string (next_request_id (broker rt)) in
  permission_waiters rt !! id = None /\ waitable_requests rt !! id = None /\ question_waiters rt !! id = None.
Proof.
  intros Hl Hn id. pose proof (live_fresh _ _ _ Hl Hn) as Hf. fold id in Hf. split; [|split]; apply eq_None_not_Some; intros [w Hw].
  - destruct (lv_permission _ _ _ Hl _ _ Hw) as (request & Ha & _). by apply Hf, (asked_elem _ (WaitPermission request)).
  - apply (lv_waitable _ _ _ Hl) in Hw. by apply Hf, (asked_elem _ WaitClient).
  - apply (lv_question _ _ _ Hl) in Hw. by apply Hf, (asked_elem _ WaitQuestion).
Qed.

(** The broker after a request was opened, its deliveries put off or not. *)
Lemma opened_broker draft ds now (b : Broker) snapshot sent b' b'' :
  keyed b -> broker_open draft ds now b = (Opened snapshot sent, b') -> (b'' = b' \/ b'' = defer_deliveries sent b') ->
  let id := request_id_string (next_request_id b) in
  pr_request_id snapshot = id /\ next_request_id b'' = u64_add (next_request_id b) 1 /\ keyed b'' /\ pending_in b'' id /\
  forall j, j <> id -> status_of b'' j = status_of b j.
Proof.
  intros Hk E Hb id. pose proof (open_spec parse_permission parse_question draft ds now b) as Ho.
  pose proof (keyed_open draft ds now b Hk) as Hk'. rewrite E in Ho, Hk'. cbn [snd] in Hk'.
  destruct Ho as (Hn & r' & sent' & Hr & _ & Hid & Hp & _).
  assert (forall j, status_of b'' j = status_of b' j) as Es by (destruct Hb as [->| ->]; [done|intros j; apply status_defer]).
  split; [done|]. split; [|split; [|split]].
  - destruct Hb as [->| ->]; [done|]. by rewrite (sq_next _ _ (same_requests_defer sent b')).
  - destruct Hb as [->| ->]; [done|]. by eapply keyed_same; [apply same_requests_defer|].
  - unfold pending_in. rewrite Es. unfold status_of. rewrite Hr, lookup_insert_eq. cbn. by rewrite Hp.
  - intros j Hj. rewrite Es. unfold status_of. rewrite Hr, lookup_insert_ne; [done|]. intros <-. by apply Hj.
Qed.

Lemma live_unavailable_open n trace rt draft ds now b reason :
  live n trace rt -> broker_open draft ds now (broker rt) = (Unavailable reason, b) ->
  live (S n) (trace ++ []) (with_broker b rt).
Proof.
  intros Hl E. pose proof (open_spec parse_permission parse_question draft ds now (broker rt)) as Ho.
  pose proof (keyed_open draft ds now (broker rt) (lv_keyed _ _ _ Hl)) as Hk. rewrite E in Ho, Hk. destruct Ho as [Hn Hr].
  apply live_broker; [done|lia|done|]. intros j. left. unfold status_of. by rewrite Hr.
Qed.

(** Case analysis of a request that is opened for a waiter. *)
Ltac opening Hl Hn :=
  match goal with |- context [broker_open ?d ?ds ?now ?b] =>
    let E := fresh "E" in destruct (broker_open d ds now b) as [[snapshot sent|reason] b'] eqn:E;
    [|cbn; by apply (live_unavailable_open _ _ _ _ _ _ _ _ Hl E)];
    cbn [asked_event fst snd]
  end.

Lemma live_ask_permission n trace rt task_id request ds now :
  live n trace rt -> Z.of_nat n + 1 < u64_max ->
  live (S n) (trace ++ (apply_op (RAskPermission task_id request ds now) rt).1) (apply_op (RAskPermission task_id request ds now) rt).2.
Proof.
  intros Hl Hn. cbn [apply_op]. unfold open_permission_request. opening Hl Hn.
  destruct (opened_broker _ _ _ _ _ _ _ _ (lv_keyed _ _ _ Hl) E (or_intror eq_refl)) as (Hid & Hnext & Hk & Hp & Hs).
  rewrite Hid. destruct (live_free _ _ _ Hl ltac:(lia)) as (_ & Fw & Fq).
  apply (live_opened n trace rt); cbn; [done..| | | |].
  - intros j Hj. by rewrite lookup_insert_ne by congruence.
  - intros w. rewrite lookup_insert_eq. intros [= <-]. eauto.
  - intros v. by rewrite Fw.
  - intros w. by rewrite Fq.
Qed.

Lemma live_ask_question n trace rt task_id form now :
  live n trace rt -> Z.of_nat n + 1 < u64_max ->
  live (S n) (trace ++ (apply_op (RAskQuestion task_id form now) rt).1) (apply_op (RAskQuestion task_id form now) rt).2.
Proof.
  intros Hl Hn. cbn [apply_op]. unfold open_question_request. opening Hl Hn.
  destruct (opened_broker _ _ _ _ _ _ _ _ (lv_keyed _ _ _ Hl) E (or_intror eq_refl)) as (Hid & Hnext & Hk & Hp & Hs).
  rewrite Hid. destruct (live_free _ _ _ Hl ltac:(lia)) as (Fp & Fw & _).
  apply (live_opened n trace rt); cbn; [done..| | | |].
  - intros j Hj. by rewrite lookup_insert_ne by congruence.
  - intros w. by rewrite Fp.
  - intros v. by rewrite Fw.
  - done.
Qed.

Lemma live_open_waitable n trace rt scope ds method title params now :
  live n trace rt -> Z.of_nat n + 1 < u64_max ->
  live (S n) (trace ++ (apply_op (ROpenWaitable scope ds method title params now) rt).1)
    (apply_op (ROpenWaitable scope ds method title params now) rt).2.
Proof.
  intros Hl Hn. cbn [apply_op]. unfold open_waitable_request. opening Hl Hn.
  destruct (opened_broker _ _ _ _ _ _ _ _ (lv_keyed _ _ _ Hl) E (or_introl eq_refl)) as (Hid & Hnext & Hk & Hp & Hs).
  rewrite Hid. destruct (live_free _ _ _ Hl ltac:(lia)) as (Fp & _ & Fq).
  apply (live_opened n trace rt); cbn; [done..| | | |].
  - intros j Hj. by rewrite lookup_insert_ne by congruence.
  - intros w. by rewrite Fp.
  - done.
  - intros w. by rewrite Fq.
Qed.

Lemma next_finish st id (b : Broker) : next_request_id (finish_request st id b).2 = next_request_id b.
Proof. unfold finish_request. destruct (records b !! id); [|done]. by split_test. Qed.

Lemma keyed_finish st id (b : Broker) : st <> Pending -> keyed b -> keyed (finish_request st id b).2.
Proof.
  intros Hs Hk j r' Hr'. destruct (finish_ok st id b Hs) as [Hrec _ _ _].
  destruct (Hrec j r' Hr') as [(r & Hr & [E _ _ _])|(_ & _ & E)]; [|done]. rewrite E. by apply Hk.
Qed.

(** A request that was answered is not interrupted. *)
Lemma finish_ended st id (b : Broker) : status_of b id <> Some Pending -> (finish_request st id b).2 = b.
Proof.
  unfold finish_request, status_of. intros Hs. destruct (records b !! id) as [r|]; [|done]. cbn in Hs.
  rewrite bool_decide_eq_true_2 by congruence. done.
Qed.

(** The waiters of one id are of one kind. *)
Lemma live_kind n trace rt id kind :
  live n trace rt -> Asked id kind ∈ trace ->
  (forall w, permission_waiters rt !! id = Some w -> exists request, kind = WaitPermission request) /\
  (forall v, waitable_requests rt !! id = Some v -> kind = WaitClient) /\
  (forall w, question_waiters rt !! id = Some w -> kind = WaitQuestion).
Proof.
  intros Hl Ha. pose proof (lv_nodup _ _ _ Hl) as Hd. split; [|split].
  - intros w (request & Hr & _)%(lv_permission _ _ _ Hl). exists request. by eapply asked_unique.
  - intros v Hv%(lv_waitable _ _ _ Hl). by eapply asked_unique.
  - intros w Hv%(lv_question _ _ _ Hl). by eapply asked_unique.
Qed.

(** A step that removes waiters, ends the request [id] and leaves nobody waiting for it. *)
Lemma live_ending n trace out rt rt' id :
  live n trace rt -> asked_ids out = [] ->
  next_request_id (broker rt') = next_request_id (broker rt) -> keyed (broker rt') ->
  (forall j, j <> id -> status_of (broker rt') j = status_of (broker rt) j) ->
  (forall j w, permission_waiters rt' !! j = Some w ->
     permission_waiters rt !! j = Some w \/ permission_ok (trace ++ out) j w) ->
  (forall j, is_Some (waitable_requests rt' !! j) -> is_Some (waitable_requests rt !! j)) ->
  (forall j, is_Some (question_waiters rt' !! j) -> is_Some (question_waiters rt !! j)) ->
  (forall j, j <> id -> waits rt' j -> waits rt j) -> ~ waits rt' id ->
  live (S n) (trace ++ out) rt'.
Proof.
  intros Hl Ho Hn Hk Hs Hp Hw Hq Hj Hid. apply (live_quiet n trace out rt); [done|done|lia|done..|].
  intros j Hwaits. destruct (decide (j = id)) as [->|Hne]; [done|]. split; [by apply Hj|]. left. by apply Hs.
Qed.

Lemma lookup_delete_sub {A} (m : gmap string A) id j v : delete id m !! j = Some v -> m !! j = Some v.
Proof. by intros [_ ?]%lookup_delete_Some. Qed.

Lemma is_Some_delete_sub {A} (m : gmap string A) id j : is_Some (delete id m !! j) -> is_Some (m !! j).
Proof. intros [v Hv%lookup_delete_sub]. by eexists. Qed.

Lemma live_poll_permission n trace rt cancelled id :
  live n trace rt -> (exists request, Asked id (WaitPermission request) ∈ trace) ->
  live (S n) (trace ++ (apply_op (RPollPermission cancelled id) rt).1) (apply_op (RPollPermission cancelled id) rt).2.
Proof.
  intros Hl [request Ha]. destruct (live_kind _ _ _ _ _ Hl Ha) as (_ & Kw & Kq). cbn [apply_op]. unfold poll_permission.
  destruct cancelled.
  - apply (live_ending n trace _ rt _ id); cbn; [done|done|apply next_finish|by apply keyed_finish, (lv_keyed _ _ _ Hl)
      |intros j; apply status_finish|intros j w ?%lookup_delete_sub; by left|done|done|..].
    + intros j Hne [(w & Hw%lookup_delete_sub & Ho)|Hw]; [left; eauto|by right].
    + unfold waits. cbn. intros [(w & [Hne _]%lookup_delete_Some & _)|[Hw%Kw|(w & Hw%Kq & _)]]; done.
  - destruct (permission_waiters rt !! id) as [w|] eqn:Hw; [destruct (pw_outcome w) as [outcome|]|].
    + apply (live_quiet n trace _ rt); cbn; [done|done|lia|by apply (lv_keyed _ _ _ Hl)
        |intros j w' ?%lookup_delete_sub; by left|done|done|].
      intros j Hwaits. split; [|by left]. destruct Hwaits as [(w' & Hw'%lookup_delete_sub & Ho)|Hw']; [left; eauto|by right].
    + apply (live_quiet n trace _ rt); cbn; [done|done|lia|by apply (lv_keyed _ _ _ Hl)|by left|done|done|].
      intros j Hwaits. split; [done|by left].
    + apply (live_quiet n trace _ rt); cbn; [done|done|lia|by apply (lv_keyed _ _ _ Hl)|by left|done|done|].
      intros j Hwaits. split; [done|by left].
Qed.

Lemma live_poll_question n trace rt cancelled id :
  live n trace rt -> Asked id WaitQuestion ∈ trace ->
  live (S n) (trace ++ []) (poll_question cancelled id rt).2.
Proof.
  intros Hl Ha. destruct (live_kind _ _ _ _ _ Hl Ha) as (Kp & Kw & _). unfold poll_question. destruct cancelled.
  - apply (live_ending n trace _ rt _ id); cbn; [done|done|apply next_finish|by apply keyed_finish, (lv_keyed _ _ _ Hl)
      |intros j; apply status_finish|by left|done|intros j; apply is_Some_delete_sub|..].
    + intros j Hne [Hw|[Hw|(w & Hw%lookup_delete_sub & Ho)]]; [by left|right; by left|right; right; eauto].
    + unfold waits. cbn. intros [(w & [? [=]]%Kp & _)|[[=]%Kw|(w & [Hne _]%lookup_delete_Some & _)]]. done.
  - destruct (question_waiters rt !! id) as [w|] eqn:Hw; [destruct (qw_result w)|].
    + apply (live_quiet n trace _ rt); cbn; [done|done|lia|by apply (lv_keyed _ _ _ Hl)|by left|done
        |intros j; apply is_Some_delete_sub|].
      intros j Hwaits. split; [|by left].
      destruct Hwaits as [Hp|[Hv|(w' & Hw'%lookup_delete_sub & Ho)]]; [by left|right; by left|right; right; eauto].
    + apply (live_quiet n trace _ rt); [done|done|cbn; lia|by apply (lv_keyed _ _ _ Hl)|by left|done|done|by split; [|left]].
    + apply (live_quiet n trace _ rt); [done|done|cbn; lia|by apply (lv_keyed _ _ _ Hl)|by left|done|done|by split; [|left]].
Qed.

Lemma live_poll_waitable n trace rt cancelled timed_out id :
  live n trace rt -> Asked id WaitClient ∈ trace ->
  live (S n) (trace ++ []) (poll_waitable cancelled timed_out id rt).2.
Proof.
  intros Hl Ha. destruct (live_kind _ _ _ _ _ Hl Ha) as (Kp & _ & Kq).
  assert (live (S n) (trace ++ [])
            (with_waitable (delete id (waitable_requests rt)) (with_broker (interrupt_request id (broker rt)).2 rt))) as Hend.
  { apply (live_ending n trace _ rt _ id); cbn; [done|done|apply next_finish|by apply keyed_finish, (lv_keyed _ _ _ Hl)
      |intros j; apply status_finish|by left|intros j; apply is_Some_delete_sub|done|..].
    - intros j Hne [Hw|[Hw%lookup_delete_sub|Hw]]; [by left|right; by left|right; by right].
    - unfold waits. cbn. intros [(w & [? [=]]%Kp & _)|[[Hne _]%lookup_delete_Some|(w & [=]%Kq & _)]]. done. }
  assert (live (S n) (trace ++ []) rt) as Hsame.
  { apply (live_quiet n trace _ rt); [done|done|lia|by apply (lv_keyed _ _ _ Hl)|by left|done|done|by split; [|left]]. }
  unfold poll_waitable. destruct cancelled; [done|].
  destruct (waitable_requests rt !! id) as [[value|]|] eqn:Hw; [|by destruct timed_out|done].
  apply (live_quiet n trace _ rt); cbn; [done|done|lia|by apply (lv_keyed _ _ _ Hl)|by left
    |intros j; apply is_Some_delete_sub|done|].
  intros j Hwaits. split; [|by left].
  destruct Hwaits as [Hp|[Hv%lookup_delete_sub|Hq]]; [by left|right; by left|right; by right].
Qed.

(** *** Answers *)

(** Setting the outcome of a waiter that admits the option: afterwards it has one. *)
Lemma set_permission_outcome_spec waiters id option_id :
  let '(accepted, waiters') := set_permission_outcome waiters id option_id in
  (forall j, j <> id -> waiters' !! j = waiters !! j) /\
  match waiters !! id with
  | None => waiters' = waiters /\ accepted = false
  | Some w =>
      (waiters' = waiters /\ accepted = false /\ (pw_outcome w <> None \/ pw_options w !! option_id = None)) \/
      (exists decision, accepted = true /\ pw_outcome w = None /\ pw_options w !! option_id = Some decision /\
         waiters' !! id = Some (mkPermissionWaiter (pw_options w)
           (Some (mkPermissionResponse (Selected option_id) (Some decision)))))
  end.
Proof.
  unfold set_permission_outcome. destruct (waiters !! id) as [w|] eqn:Hw; [|done].
  destruct (pw_outcome w) eqn:Ho; cbn [is_some]; [split; [done|]; left; split; [done|]; split; [done|]; by left|].
  destruct (pw_options w !! option_id) as [decision|] eqn:Hd; [|split; [done|]; left; split; [done|]; split; [done|]; by right].
  split; [intros j Hj; by rewrite lookup_insert_ne|]. right. exists decision. rewrite lookup_insert_eq. eauto.
Qed.

(** An answer that passes both checks settles whoever waits for it. *)
Lemma normalized_answers rt id answer value :
  normalize_question_answer rt id (normalized_answer_for_waiter rt id answer) = AnswerResult value ->
  (forall w, permission_waiters rt !! id = Some w ->
     exists option_id, option_id_from_result value = Some option_id /\ is_Some (pw_options w !! option_id)) /\
  (forall w, question_waiters rt !! id = Some w ->
     exists response, decode_response value = Some response /\ validate_product_response (qw_form w) response = Ok tt).
Proof.
  intros Hn. assert (normalized_answer_for_waiter rt id answer = AnswerResult value) as Hp.
  { unfold normalize_question_answer in Hn. destruct (question_waiters rt !! id); [|done].
    destruct (normalized_answer_for_waiter rt id answer) as [v|]; [|done].
    destruct (decode_response v); [|done]. destruct (is_ok _); [done|done]. }
  split.
  - intros w Hw. unfold normalized_answer_for_waiter in Hp. rewrite Hw in Hp. cbn [is_some negb] in Hp.
    destruct answer as [v|]; [|done]. destruct (option_id_from_result v) as [option_id|] eqn:Ho; [|done].
    destruct (waiter_allows_option rt id option_id) eqn:Ha; [|done]. injection Hp as ->. exists option_id. split; [done|].
    unfold waiter_allows_option in Ha. rewrite Hw in Ha. unfold allows_option in Ha. by destruct (pw_options w !! option_id).
  - intros w Hw. unfold normalize_question_answer in Hn. rewrite Hw, Hp in Hn.
    destruct (decode_response value) as [response|]; [|done]. exists response. split; [done|].
    destruct (validate_product_response _ _) as [[]|]; done.
Qed.

(** What settling does, for an id whose request has ended. *)
Lemma settle_answer_spec id value rt :
  status_of (broker rt) id <> Some Pending ->
  let rt' := settle_answer id value rt in
  broker rt' = broker rt /\
  waitable_requests rt' = set_waitable_result id value (waitable_requests rt) /\
  question_waiters rt' = (set_question_result id value (question_waiters rt)).2 /\
  permission_waiters rt' =
    match option_id_from_result value with
    | Some option_id => (set_permission_outcome (permission_waiters rt) id option_id).2
    | None => permission_waiters rt
    end.
Proof.
  intros Hs rt'. unfold rt', settle_answer. destruct (option_id_from_result value) as [option_id|]; [|done].
  destruct (set_permission_outcome (permission_waiters rt) id option_id) as [accepted waiters]. destruct accepted; [done|].
  cbn. unfold interrupt_request. by rewrite finish_ended.
Qed.

Lemma set_waitable_spec id value m j :
  (forall v, set_waitable_result id value m !! j = Some v -> is_Some (m !! j)) /\
  set_waitable_result id value m !! id <> Some None /\
  (j <> id -> set_waitable_result id value m !! j = m !! j).
Proof.
  unfold set_waitable_result. destruct (m !! id) as [v0|] eqn:E.
  - split; [|split].
    + intros v. destruct (decide (j = id)) as [->|]; [by eexists|]. rewrite lookup_insert_ne by done. by eexists.
    + by rewrite lookup_insert_eq.
    + intros Hj. by rewrite lookup_insert_ne.
  - split; [by eexists|]. split; [congruence|done].
Qed.

Lemma set_question_spec id value m j :
  let m' := (set_question_result id value m).2 in
  (forall w, m' !! j = Some w -> is_Some (m !! j)) /\
  (decode_response value <> None -> forall w, m' !! id = Some w -> qw_result w <> None) /\
  (j <> id -> m' !! j = m !! j).
Proof.
  unfold set_question_result. destruct (m !! id) as [w0|] eqn:E; [destruct (decode_response value) as [response|]|];
    cbn [snd]; (split; [|split]).
  - intros w. destruct (decide (j = id)) as [->|]; [by eexists|]. rewrite lookup_insert_ne by done. by eexists.
  - intros _ w. rewrite lookup_insert_eq. by intros [= <-].
  - intros Hj. by rewrite lookup_insert_ne.
  - by eexists.
  - done.
  - done.
  - by eexists.
  - intros _ w. by rewrite E.
  - done.
Qed.

Lemma asked_grants id o : asked_ids (grants id o) = [].
Proof. destruct o; try done. unfold grants. by destruct (option_id_from_result _). Qed.

(** After an answer that passed the checks nobody waits for its request, and nobody else is affected. *)
Lemma settle_answer_waits id value rt :
  status_of (broker rt) id <> Some Pending ->
  (forall w, permission_waiters rt !! id = Some w ->
     exists option_id, option_id_from_result value = Some option_id /\ is_Some (pw_options w !! option_id)) ->
  (forall w, question_waiters rt !! id = Some w -> is_Some (decode_response value)) ->
  (forall j, j <> id -> waits (settle_answer id value rt) j -> waits rt j) /\ ~ waits (settle_answer id value rt) id.
Proof.
  intros Hnp Hp Hq. destruct (settle_answer_spec id value rt Hnp) as (_ & Ew & Eq & Ep). split.
  - intros j Hj. unfold waits. rewrite Ep, Ew, Eq.
    destruct (set_waitable_spec id value (waitable_requests rt) j) as (_ & _ & ->); [|done].
    destruct (set_question_spec id value (question_waiters rt) j) as (_ & _ & ->); [|done].
    destruct (option_id_from_result value) as [option_id|]; [|done].
    pose proof (set_permission_outcome_spec (permission_waiters rt) id option_id) as Hset.
    destruct (set_permission_outcome (permission_waiters rt) id option_id) as [accepted waiters]. destruct Hset as [Hne _].
    cbn [snd]. by rewrite Hne.
  - unfold waits. rewrite Ep, Ew, Eq. intros [(w & Hw & Hout)|[Hw|(w & Hw & Hout)]].
    + destruct (option_id_from_result value) as [option_id|] eqn:Eo.
      * pose proof (set_permission_outcome_spec (permission_waiters rt) id option_id) as Hset.
        destruct (set_permission_outcome (permission_waiters rt) id option_id) as [accepted waiters]. destruct Hset as [_ Hset].
        cbn [snd] in Hw. destruct (permission_waiters rt !! id) as [w0|] eqn:Hw0; [|destruct Hset; congruence].
        destruct (Hp w0 eq_refl) as (o & [= <-] & Ho).
        destruct Hset as [(-> & _ & [Hn|Hn])|(d & _ & _ & _ & Hd)];
          [congruence|rewrite Hn in Ho; by destruct Ho|rewrite Hd in Hw; by injection Hw as <-].
      * destruct (Hp w Hw) as (o & [=] & _).
    + by destruct (set_waitable_spec id value (waitable_requests rt) id) as (_ & ? & _).
    + destruct (set_question_spec id value (question_waiters rt) id) as (Hsub & Hdec & _).
      destruct (Hsub w Hw) as [w0 Hw0]. destruct (Hq w0 Hw0) as [response Hr]. by eapply Hdec; [by rewrite Hr|..].
Qed.

Lemma live_respond n trace rt responder id answer scopes :
  live n trace rt ->
  live (S n) (trace ++ (apply_op (RRespond responder id answer scopes) rt).1) (apply_op (RRespond responder id answer scopes) rt).2.
Proof.
  intros Hl. cbn [apply_op]. unfold runtime_respond.
  set (answer' := normalize_question_answer rt id (normalized_answer_for_waiter rt id answer)).
  pose proof (status_respond responder id answer' scopes (broker rt)) as Hs.
  pose proof (same_requests_respond responder id answer' scopes (broker rt)) as Hsame.
  destruct (handle_response_from_scopes responder id answer' scopes (broker rt)) as [o b] eqn:E. cbn [snd] in Hsame.
  assert (keyed b) as Hk by (eapply keyed_same; [done|apply (lv_keyed _ _ _ Hl)]).
  pose proof (sq_next _ _ Hsame) as Hnext. destruct Hs as [Hother Ho].
  assert (status_of b id = status_of (broker rt) id -> live (S n) (trace ++ []) (with_broker b rt)) as Hrest.
  { intros Hid. apply live_broker; [done|lia|done|]. intros j. left. destruct (decide (j = id)) as [->|]; [done|by apply Hother]. }
  destruct o as [id' scope who value| | | | | |]; try (by apply Hrest). cbn [fst snd].
  destruct Ho as (-> & Ea & Hpend & Hres). destruct (normalized_answers rt id answer value Ea) as [Hp Hq].
  assert (status_of (broker (with_broker b rt)) id <> Some Pending) as Hnp by (cbn; congruence).
  destruct (settle_answer_spec id value (with_broker b rt) Hnp) as (Eb & Ew & Eq & Ep).
  cbn -[settle_answer] in Eb, Ew, Eq, Ep.
  destruct (settle_answer_waits id value (with_broker b rt) Hnp Hp) as [Hsettled Hdone].
  { intros w (response & Hr & _)%Hq. by eexists. }
  apply (live_ending n trace _ rt _ id); rewrite ?Eb, ?Ew, ?Eq, ?Ep.
  - done.
  - apply asked_grants.
  - done.
  - done.
  - done.
  - intros j w. cbn [grants]. destruct (option_id_from_result value) as [option_id|]; [|by left].
    pose proof (set_permission_outcome_spec (permission_waiters rt) id option_id) as Hset.
    destruct (set_permission_outcome (permission_waiters rt) id option_id) as [accepted waiters]. destruct Hset as [Hne Hset].
    cbn [snd]. destruct (decide (j = id)) as [->|Hj]; [|rewrite Hne by done; by left].
    destruct (permission_waiters rt !! id) as [w0|] eqn:Hw0; [|destruct Hset as [-> _]; rewrite Hw0; by left].
    destruct Hset as [(-> & _ & _)|(d & _ & _ & Hd & ->)]; [rewrite Hw0; by left|]. intros [= <-]. right.
    destruct (lv_permission _ _ _ Hl _ _ Hw0) as (request & Ha & He & _). exists request.
    split; [by apply elem_of_app; left|]. split; [done|]. intros response [= <-]. exists option_id, d.
    split; [done|]. split; [done|]. apply elem_of_app. right. by left.
  - intros j [v Hv]. by eapply set_waitable_spec.
  - intros j [w Hw]. by eapply set_question_spec.
  - intros j Hj Hw. by apply Hsettled in Hw.
  - done.
Qed.

Lemma live_auto_approve n trace rt id option_id :
  live n trace rt ->
  live (S n) (trace ++ (apply_op (RAutoApprove id option_id) rt).1) (apply_op (RAutoApprove id option_id) rt).2.
Proof.
  intros Hl. cbn [apply_op]. unfold auto_approve_permission.
  assert (live (S n) (trace ++ []) rt) as Hsame.
  { apply (live_quiet n trace _ rt); [done|done|lia|by apply (lv_keyed _ _ _ Hl)|by left|done|done|by split; [|left]]. }
  destruct (waiter_allows_option rt id option_id) eqn:Ha; cbn [negb]; [|done].
  unfold resolve_request_without_responder.
  pose proof (keyed_finish Resolved id (broker rt) ltac:(done) (lv_keyed _ _ _ Hl)) as Hk.
  pose proof (next_finish Resolved id (broker rt)) as Hn.
  pose proof (fun j => status_finish Resolved id (broker rt) j) as Hst.
  destruct (finish_request Resolved id (broker rt)) as [[scope|] b] eqn:E; cbn [fst snd] in Hk, Hn, Hst.
  2: { assert (b = broker rt) as ->; [|by destruct rt].
       unfold finish_request in E. destruct (records (broker rt) !! id); [|by injection E]. destruct (bool_decide _); by injection E. }
  unfold waiter_allows_option in Ha. destruct (permission_waiters rt !! id) as [w|] eqn:Hw; [|done].
  destruct (lv_permission _ _ _ Hl _ _ Hw) as (request & Hask & He & _).
  destruct (live_kind _ _ _ _ _ Hl Hask) as (_ & Kw & Kq).
  pose proof (set_permission_outcome_spec (permission_waiters rt) id option_id) as Hset.
  destruct (set_permission_outcome (permission_waiters rt) id option_id) as [accepted waiters]. destruct Hset as [Hne Hset].
  rewrite Hw in Hset. cbn [fst snd].
  apply (live_ending n trace _ rt _ id); [done|by destruct accepted|done|done|done|..].
  - cbn. intros j w'. destruct (decide (j = id)) as [->|Hj]; [|rewrite Hne by done; by left].
    destruct Hset as [(-> & _ & _)|(d & -> & _ & Hd & ->)]; [by left|]. intros [= <-]. right.
    exists request. split; [by apply elem_of_app; left|]. split; [done|]. intros response [= <-]. exists option_id, d.
    split; [done|]. split; [done|]. apply elem_of_app. right. by left.
  - done.
  - done.
  - intros j Hj. unfold waits. cbn. by rewrite Hne.
  - unfold waits. cbn. intros [(w' & Hw' & Hout)|[Hv%Kw|(w' & Hv%Kq & _)]]; [|done..].
    destruct Hset as [(-> & _ & [Hn'|Hn'])|(d & _ & _ & _ & Hd)]; [congruence| |].
    + unfold allows_option in Ha. by rewrite Hn' in Ha.
    + rewrite Hd in Hw'. by injection Hw' as <-.
Qed.

(** *** Ends of requests *)

Definition outcome_id (o : RequestLifecycleOutcome) : string := match o with RequestInterrupted id _ => id end.

Lemma waits_remove id j rt : waits (remove_waiters id rt) j -> waits rt j /\ j <> id.
Proof.
  unfold waits. cbn. intros [(w & [Hne Hw]%lookup_delete_Some & Ho)|[[Hne Hw]%lookup_delete_Some|(w & [Hne Hw]%lookup_delete_Some & Ho)]];
    (split; [|done]).
  - left. eauto.
  - right. by left.
  - right. right. eauto.
Qed.

Lemma remove_outcomes os rt :
  let rt' := foldl remove_outcome rt os in
  broker rt' = broker rt /\
  (forall j w, permission_waiters rt' !! j = Some w -> permission_waiters rt !! j = Some w) /\
  (forall j, is_Some (waitable_requests rt' !! j) -> is_Some (waitable_requests rt !! j)) /\
  (forall j, is_Some (question_waiters rt' !! j) -> is_Some (question_waiters rt !! j)) /\
  (forall j, waits rt' j -> waits rt j /\ j ∉ outcome_id <$> os).
Proof.
  revert rt. induction os as [|[id sc] os IH]; intros rt.
  - cbn. do 4 (split; [done|]). intros j Hw. by split; [|apply not_elem_of_nil].
  - cbn [foldl remove_outcome]. destruct (IH (remove_waiters id rt)) as (-> & Hp & Hw & Hq & Hj). split; [done|].
    split; [|split; [|split]].
    + intros j w Hjw%Hp. by apply lookup_delete_sub in Hjw.
    + intros j Hjw%Hw. by apply is_Some_delete_sub in Hjw.
    + intros j Hjw%Hq. by apply is_Some_delete_sub in Hjw.
    + intros j [[Hwj Hne]%waits_remove Hn]%Hj. split; [done|]. cbn. by apply not_elem_of_cons.
Qed.

(** A request that is interrupted loses its waiters, so the loss of a responder
    strands nobody. *)
Lemma live_loss n trace rt P other (b : Broker) :
  live n trace rt -> next_request_id b = next_request_id (broker rt) -> records b = records (broker rt) ->
  (forall r, P r = true -> pd_status r = Pending) -> (forall r, evolves r (other r)) ->
  (forall r, pd_status (other r) = pd_status r) ->
  live (S n) (trace ++ []) (observe_responder_loss (interrupt_where P other b) rt).2.
Proof.
  intros Hl Hn Hb HP Ho Hs. unfold observe_responder_loss. cbn [fst snd].
  assert (keyed b) as Hkb by (intros id r Hr; rewrite Hb in Hr; by apply (lv_keyed _ _ _ Hl)).
  pose proof (same_requests_interrupt_where P other b HP Ho) as Hsame.
  destruct (remove_outcomes (interrupt_where P other b).1 (with_broker (interrupt_where P other b).2 rt)) as (Eb & Hp & Hw & Hq & Hj).
  apply (live_quiet n trace _ rt); rewrite ?Eb; [done|done| | |by left; apply Hp|done|done|].
  - cbn [broker with_broker]. rewrite (sq_next _ _ Hsame). lia.
  - by eapply keyed_same.
  - intros id [Hwaits Hnot]%Hj. split; [done|]. left. unfold status_of. cbn [broker with_broker interrupt_where snd records set_records].
    rewrite lookup_fmap, Hb. destruct (records (broker rt) !! id) as [r|] eqn:Hr; [|done]. cbn. f_equal.
    destruct (P r) eqn:EP; [|by apply Hs]. destruct Hnot. cbn [interrupt_where fst].
    apply list_elem_of_fmap. exists (interrupted_outcome r).
    split; [cbn; symmetry; apply Hkb; by rewrite Hb|]. apply list_elem_of_fmap. exists r. split; [done|].
    apply list_elem_of_filter. split; [done|]. apply list_elem_of_fmap. exists (id, r). split; [done|].
    by rewrite Hb, elem_of_map_to_list.
Qed.

Lemma pending_is_pending (r : PendingRecord (Value := JsonValue)) c : is_pending r && c = true -> pd_status r = Pending.
Proof. intros [Hp _]%andb_true_iff. unfold is_pending in Hp. by apply bool_decide_eq_true in Hp. Qed.

Lemma live_unavailable n trace rt client : live n trace rt -> live (S n) (trace ++ []) (runtime_unavailable client rt).2.
Proof.
  intros Hl. unfold runtime_unavailable, observe_responder_unavailable. apply live_loss; [done|done|done|..].
  - intros r. apply pending_is_pending.
  - intros r. destruct (_ && _); [apply evolves_stale|done].
  - intros r. destruct (_ && _); [apply status_stale|done].
Qed.

Lemma live_interrupt_task n trace rt task_id : live n trace rt -> live (S n) (trace ++ []) (interrupt_task_requests task_id rt).2.
Proof.
  intros Hl. unfold interrupt_task_requests. destruct (observe_responder_loss _ rt) as [os rt'] eqn:E. cbn [snd].
  change rt' with (os, rt').2. rewrite <- E. unfold interrupt_scope. apply live_loss; [done|done|done| |done|done].
  intros r. apply pending_is_pending.
Qed.

Lemma live_subscription_removed n trace rt client task_id :
  live n trace rt -> live (S n) (trace ++ []) (runtime_subscription_removed client task_id rt).2.
Proof.
  intros Hl. unfold runtime_subscription_removed, observe_responder_loss.
  pose proof (keyed_step (OpSubscriptionRemoved client task_id) (broker rt) (lv_keyed _ _ _ Hl)) as Hk. cbn [step] in Hk.
  pose proof (status_subscription_removed client task_id (broker rt)) as Hs.
  assert ((observe_subscription_removed client task_id (broker rt)).1 = [] /\
          next_request_id (observe_subscription_removed client task_id (broker rt)).2 = next_request_id (broker rt)) as [E En]
    by (unfold observe_subscription_removed; by destruct (available_responders _ !! _)).
  rewrite E. cbn [foldl snd]. apply live_broker; [done|lia| |intros id; left; apply Hs].
  by destruct (observe_subscription_removed client task_id (broker rt)).
Qed.

Lemma live_interrupt n trace rt id : live n trace rt -> live (S n) (trace ++ []) (runtime_interrupt id rt).2.
Proof.
  intros Hl. unfold runtime_interrupt, interrupt_request.
  pose proof (keyed_finish Interrupted id (broker rt) ltac:(done) (lv_keyed _ _ _ Hl)) as Hk.
  pose proof (next_finish Interrupted id (broker rt)) as Hn.
  pose proof (fun j => status_finish Interrupted id (broker rt) j) as Hst.
  destruct (finish_request Interrupted id (broker rt)) as [scope b]. cbn [fst snd] in *.
  apply (live_ending n trace _ rt _ id); [done..| | | | |].
  - cbn. intros j w ?%lookup_delete_sub. by left.
  - intros j. apply is_Some_delete_sub.
  - intros j. apply is_Some_delete_sub.
  - intros j _ [Hw _]%waits_remove. done.
  - by intros [_ ?]%waits_remove.
Qed.

Lemma live_available n trace rt d scopes : live n trace rt -> live (S n) (trace ++ []) (runtime_available d scopes rt).2.
Proof.
  intros Hl. unfold runtime_available. pose proof (available_same d scopes (broker rt)) as Hs.
  pose proof (status_available d scopes (broker rt)) as Hst.
  destruct (observe_responder_available d scopes (broker rt)) as [ds b]. cbn [snd] in *.
  apply live_broker; [done|rewrite (sq_next _ _ Hs); lia|eapply keyed_same; [done|apply (lv_keyed _ _ _ Hl)]|].
  intros id. left. apply Hst.
Qed.

Lemma live_forget n trace rt id :
  live n trace rt -> Asked id WaitClient ∈ trace -> live (S n) (trace ++ []) (runtime_forget_auth_terminal id rt).
Proof.
  intros Hl Ha. destruct (live_kind _ _ _ _ _ Hl Ha) as (Kp & _ & Kq).
  pose proof (keyed_step (OpForgetAuthTerminal id) (broker rt) (lv_keyed _ _ _ Hl)) as Hk. cbn [step snd] in Hk.
  apply (live_ending n trace _ rt _ id); cbn; [done|done| |done| |by left|intros j; apply is_Some_delete_sub|done|..].
  - unfold forget_auth_terminal_exchange. by destruct (is_auth_terminal_exchange id (broker rt)).
  - intros j Hj. unfold forget_auth_terminal_exchange. destruct (is_auth_terminal_exchange id (broker rt)); [|done].
    unfold status_of. cbn. by rewrite lookup_delete_ne.
  - intros j Hj [Hw|[Hw%lookup_delete_sub|Hw]]; [by left|right; by left|right; by right].
  - unfold waits. cbn. intros [(w & [? [=]]%Kp & _)|[[Hne _]%lookup_delete_Some|(w & [=]%Kq & _)]]. done.
Qed.

Lemma live_step n trace rt op :
  live n trace rt -> op_ok trace op -> Z.of_nat n + 1 < u64_max ->
  live (S n) (trace ++ (apply_op op rt).1) (apply_op op rt).2.
Proof.
  intros Hl Hop Hn. destruct op; cbn [op_ok] in Hop.
  - cbn [apply_op fst snd]. unfold runtime_open.
    pose proof (status_open draft deliveries now (broker rt)) as Hs.
    pose proof (keyed_open draft deliveries now (broker rt) (lv_keyed _ _ _ Hl)) as Hk.
    pose proof (open_spec parse_permission parse_question draft deliveries now (broker rt)) as Ho.
    destruct (broker_open draft deliveries now (broker rt)) as [o b]. cbn [snd] in *. destruct Hs as [Hs _].
    apply live_broker; [done| |done|done]. pose proof (lv_next _ _ _ Hl). destruct o.
    + destruct Ho as [-> _]. rewrite u64_add_small; unfold is_u64, u64_max in *; lia.
    + destruct Ho as [-> _]. lia.
  - by apply live_ask_permission.
  - by apply live_ask_question.
  - by apply live_open_waitable.
  - cbn [apply_op fst snd]. pose proof (same_requests_defer deliveries (broker rt)) as Hs.
    apply live_broker; [done|rewrite (sq_next _ _ Hs); lia|eapply keyed_same; [done|apply (lv_keyed _ _ _ Hl)]|].
    intros id. left. apply status_defer.
  - by apply live_poll_permission.
  - by apply live_poll_question.
  - by apply live_poll_waitable.
  - by apply live_auto_approve.
  - by apply live_respond.
  - by apply live_interrupt.
  - by apply live_interrupt_task.
  - by apply live_available.
  - by apply live_unavailable.
  - cbn [apply_op fst snd]. unfold runtime_subscription_added, observe_subscription_added.
    by apply (live_available n trace rt d).
  - by apply live_subscription_removed.
  - by apply live_forget.
Qed.

Lemma reaches_live n trace rt : reaches n trace rt -> Z.of_nat n < u64_max -> live n trace rt.
Proof.
  induction 1 as [|n trace rt op Hr IH Hop]; intros Hn; [apply live_new|]. apply live_step; [apply IH; lia|done|lia].
Qed.

(** ** Theorems *)

(** C22. No Agent waits for a request that has ended: in every execution, when the
    request [id] is not pending (it was answered, interrupted, forgotten or never
    opened), the next round of whichever thread waits for it returns. *)
Theorem ended_request_releases_its_waiter n trace rt id :
  reaches n trace rt -> Z.of_nat n < u64_max -> ~ pending_in (broker rt) id ->
  is_Some (poll_permission false id rt).1 /\ is_Some (poll_question false id rt).1 /\
  is_Some (poll_waitable false false id rt).1.
Proof.
  intros Hr Hn Hend. pose proof (reaches_live _ _ _ Hr Hn) as Hl.
  assert (~ waits rt id) as Hw by (intros Hw; by apply Hend, (lv_pending _ _ _ Hl)).
  unfold poll_permission, poll_question, poll_waitable. split; [|split].
  - destruct (permission_waiters rt !! id) as [w|] eqn:E; [|by eexists].
    destruct (pw_outcome w) eqn:Eo; [by eexists|]. destruct Hw. left. eauto.
  - destruct (question_waiters rt !! id) as [w|] eqn:E; [|by eexists].
    destruct (qw_result w) eqn:Eo; [by eexists|]. destruct Hw. right. right. eauto.
  - destruct (waitable_requests rt !! id) as [[v|]|] eqn:E; [by eexists| |by eexists]. destruct Hw. right. by left.
Qed.

(** C23. An Agent is never told of a permission that nobody gave: a selected option
    that a waiting thread returns is one of the options of its own request, with
    the decision of that option, and was granted before, by an accepted answer of
    a client or by the policy of the Task. *)
Theorem permission_is_granted n trace rt cancelled id option_id decision rt' :
  reaches n trace rt -> Z.of_nat n < u64_max ->
  poll_permission cancelled id rt = (Some (mkPermissionResponse (Selected option_id) decision), rt') ->
  exists request o, Asked id (WaitPermission request) ∈ trace /\ Granted id option_id ∈ trace /\
    o ∈ pq_options request /\ po_option_id o = option_id /\ decision = Some (permission_decision (po_kind o)).
Proof.
  intros Hr Hn Hp. pose proof (reaches_live _ _ _ Hr Hn) as Hl. unfold poll_permission in Hp.
  destruct cancelled; [discriminate|]. destruct (permission_waiters rt !! id) as [w|] eqn:Hw; [|discriminate].
  destruct (pw_outcome w) as [response|] eqn:Ho; [|discriminate]. injection Hp as -> _.
  destruct (lv_permission _ _ _ Hl _ _ Hw) as (request & Ha & He & Hout).
  destruct (Hout _ Ho) as (o & d & [= <- ->] & Hd & Hg). rewrite He in Hd. cbn in Hd.
  apply elem_of_list_to_map_2, elem_of_reverse, list_elem_of_fmap in Hd as (opt & [= -> ->] & Hopt). eauto 8.
Qed.

End RequestRuntime.

(** ** Witnesses *)

Module RuntimeWitness.
#[local] Existing Instance string_payloads.
#[local] Existing Instance QuestionWitness.plain_codecs.

Definition parse (v : JsonValue) : option (@Protocol.PermissionRequestParams string_payloads) := Some ""%string.
Definition parse_q (v : JsonValue) : option (@Protocol.QuestionRequestParams string_payloads) := Some ""%string.
Definition encode (f : QuestionRequestParams) : JsonValue := JString (q_message f).

Definition request : AgentPermissionRequest :=
  mkPermissionRequest "agent-1" "Run the tests?" None None None (mkToolCallRef "tool-1" "cargo test" None)
    [mkPermissionOption "yes" "Allow" AllowOnce; mkPermissionOption "no" "Reject" RejectOnce].
Definition client : Delivery := mkDelivery "c1" "conn-1" [CapPermission].

Definition exec (op : RuntimeOp) (s : list RuntimeEvent * Runtime) : list RuntimeEvent * Runtime :=
  (s.1 ++ (apply_op parse parse_q encode op s.2).1, (apply_op parse parse_q encode op s.2).2).

Definition ask : RuntimeOp := RAskPermission "task" request [client] "now".
Definition answer : RuntimeOp :=
  RRespond "c1" "server-request-1" (AnswerResult (JObject [("optionId"%string, JString "yes")])) [ResponderClient "c1"].
Definition asked : list RuntimeEvent * Runtime := exec ask ([], new_runtime).
Definition answered : list RuntimeEvent * Runtime := exec answer asked.

Lemma exec_reaches n s op :
  reaches parse parse_q encode n s.1 s.2 -> op_ok s.1 op -> reaches parse parse_q encode (S n) (exec op s).1 (exec op s).2.
Proof. intros Hr Hop. by apply reaches_step. Qed.

Lemma answered_reached : reaches parse parse_q encode 2 answered.1 answered.2.
Proof.
  exact (exec_reaches 1 asked answer (exec_reaches 0 ([], new_runtime) ask (reaches_new parse parse_q encode) I) I).
Qed.

Example answered_trace : answered.1 = [Asked "server-request-1" (WaitPermission request); Granted "server-request-1" "yes"].
Proof. vm_compute. reflexivity. Qed.

Example answered_status : status_of (broker answered.2) "server-request-1" = Some Resolved.
Proof. vm_compute. reflexivity. Qed.

Example unanswered_status : (poll_permission false "server-request-1" asked.2).1 = None.
Proof. vm_compute. reflexivity. Qed.

Lemma answered_not_pending : ~ pending_in (broker answered.2) "server-request-1".
Proof. unfold pending_in. rewrite answered_status. discriminate. Qed.

Lemma ended_request_releases_its_waiter_witness :
  is_Some (poll_permission false "server-request-1" answered.2).1 /\
  is_Some (poll_question false "server-request-1" answered.2).1 /\
  is_Some (poll_waitable false false "server-request-1" answered.2).1.
Proof.
  refine (ended_request_releases_its_waiter parse parse_q encode 2 answered.1 answered.2 "server-request-1"
    answered_reached _ answered_not_pending). apply (bool_decide_unpack _). vm_compute. exact I.
Defined.

Example answered_poll :
  poll_permission false "server-request-1" answered.2 =
  (Some (mkPermissionResponse (Selected "yes") (Some DecisionApproved)), (poll_permission false "server-request-1" answered.2).2).
Proof. vm_compute. reflexivity. Qed.

Lemma permission_is_granted_witness :
  exists request o, Asked "server-request-1" (WaitPermission request) ∈ answered.1 /\ Granted "server-request-1" "yes" ∈ answered.1 /\
    o ∈ pq_options request /\ po_option_id o = "yes"%string /\ Some DecisionApproved = Some (permission_decision (po_kind o)).
Proof.
  refine (permission_is_granted parse parse_q encode 2 answered.1 answered.2 false "server-request-1" "yes"
    (Some DecisionApproved) _ answered_reached _ answered_poll). apply (bool_decide_unpack _). vm_compute. exact I.
Defined.

End RuntimeWitness.
