(* ===== verification/RemoteDevices.v ===== *)
(** * Remote devices

    [remote_devices.rs] and [remote_devices/store.rs]: the trust list, the pending
    invite and the live connections of the App Shells on other machines, and the
    part of [remote_devices/edge.rs] that keeps the network endpoint in step.

    [World] is the state behind the mutex, the trust file, and what the
    operations did to the outside: the commands sent to the edge, in order, and
    how often the gateway was told of a change.  A write of the file can fail
    before or after the file was replaced ([WriteFault]).  Clocks and generated
    keys are arguments. *)

From S2P Require Import Prelude Protocol Records Pairing.
Local Open Scope Z_scope.
Create Rewrite HintDb remote.

(** ** The trust file *)

Record StoredRemoteDevice := mkDevice {
  device_id : string;
  sd_name : string;
  sd_model : option string;
  added_at_ms : Z;
  added_by : option string;
  last_seen_at_ms : option Z }.

Record StoredRemoteDevices := mkStored {
  secret_key_text : option string;
  devices : list StoredRemoteDevice }.

#[global] Instance StoredRemoteDevice_eq_dec : EqDecision StoredRemoteDevice.
Proof. solve_decision. Defined.
#[global] Instance StoredRemoteDevices_eq_dec : EqDecision StoredRemoteDevices.
Proof. solve_decision. Defined.

Definition no_devices : StoredRemoteDevices := mkStored None [].

(** The file: absent, not readable as the format, or holding a value. *)
Inductive TrustFile := Missing | Damaged | Holding (value : StoredRemoteDevices).

(** Where a write fails: before the new file is in place, or after, in the sync
    of the directory or the change of permissions. *)
Inductive WriteFault := Replaced | FailsBefore | FailsAfter.

Definition store_read (file : TrustFile) : result StoredRemoteDevices RuntimeError :=
  match file with
  | Missing => Ok no_devices
  | Damaged => Err (Storage "the trust file is not readable")
  | Holding value => Ok value
  end.

Definition store_write (fault : WriteFault) (value : StoredRemoteDevices) (file : TrustFile)
  : result unit RuntimeError * TrustFile :=
  match fault with
  | Replaced => (Ok tt, Holding value)
  | FailsBefore => (Err (Storage "write failed"), file)
  | FailsAfter => (Err (Storage "write failed"), Holding value)
  end.

(** ** Data *)

Inductive RemoteAccessState := Off | Starting | On | Failed.
Inductive RemoteDevicePath := Direct | Relayed.
Record RemoteDeviceConnection := mkConnection { rc_path : RemoteDevicePath; rc_address : option string }.
#[global] Instance RemoteAccessState_eq_dec : EqDecision RemoteAccessState.
Proof. solve_decision. Defined.
#[global] Instance RemoteDevicePath_eq_dec : EqDecision RemoteDevicePath.
Proof. solve_decision. Defined.
#[global] Instance RemoteDeviceConnection_eq_dec : EqDecision RemoteDeviceConnection.
Proof. solve_decision. Defined.

Inductive InviteRejection := NoInvite | Expired | WrongSecret | StorageRejection.

Record Invite := mkInvite { iv_secret : list Z; iv_added_by : string; iv_expires_at_ms : Z }.
Record ConnectedDevice := mkConnected { cd_connection : RemoteDeviceConnection; open_connections : Z }.

Record RemoteDeviceSummary := mkDeviceSummary {
  rs_device_id : string;
  rs_name : string;
  rs_model : option string;
  rs_added_at_ms : Z;
  rs_added_by : option string;
  rs_last_seen_at_ms : option Z;
  rs_connection : option RemoteDeviceConnection }.

Record DeviceCollectionSnapshot := mkDeviceSnapshot {
  dc_remote_access : RemoteAccessState;
  dc_server_name : string;
  dc_devices : list RemoteDeviceSummary }.

Record DevicesCreateInviteResult := mkInviteResult { ir_code : string; ir_expires_at_ms : Z }.
Record DevicesPreviewJoinRequestResult := mkPreview {
  pv_device_id : string;
  pv_name : string;
  pv_model : option string;
  pv_server_name : string;
  pv_already_trusted : bool }.

Definition INVITE_LIFETIME_MS : Z := 10 * 60 * 1000.

(** The fold keeps the differing bits of all bytes. *)
Definition constant_time_eq (expected actual : list Z) : bool :=
  bool_decide (length expected = length actual) &&
  bool_decide (foldl (fun difference p => Z.lor difference (Z.lxor p.1 p.2)) 0 (zip expected actual) = 0).

Section RemoteDevices.
Context `{KeyCodecs} `{PayloadTypes}.

Inductive EdgeCommand := Reconcile | AnnounceTrust (device : PublicKey) | Disconnect (device : PublicKey).
#[global] Instance EdgeCommand_eq_dec : EqDecision EdgeCommand.
Proof. solve_decision. Defined.

Record World := mkWorld {
  stored : StoredRemoteDevices;
  invite : option Invite;
  access : RemoteAccessState;
  connections : gmap string ConnectedDevice;
  connection_devices : gmap string string;
  edge_attached : bool;
  changed_attached : bool;
  server_name : string;
  file : TrustFile;
  sent : list EdgeCommand;
  notified : nat }.

Definition set_stored v w := mkWorld v (invite w) (access w) (connections w) (connection_devices w)
  (edge_attached w) (changed_attached w) (server_name w) (file w) (sent w) (notified w).
Definition set_invite v w := mkWorld (stored w) v (access w) (connections w) (connection_devices w)
  (edge_attached w) (changed_attached w) (server_name w) (file w) (sent w) (notified w).
Definition set_access_state v w := mkWorld (stored w) (invite w) v (connections w) (connection_devices w)
  (edge_attached w) (changed_attached w) (server_name w) (file w) (sent w) (notified w).
Definition set_connections v w := mkWorld (stored w) (invite w) (access w) v (connection_devices w)
  (edge_attached w) (changed_attached w) (server_name w) (file w) (sent w) (notified w).
Definition set_connection_devices v w := mkWorld (stored w) (invite w) (access w) (connections w) v
  (edge_attached w) (changed_attached w) (server_name w) (file w) (sent w) (notified w).
Definition set_attached e c w := mkWorld (stored w) (invite w) (access w) (connections w) (connection_devices w)
  e c (server_name w) (file w) (sent w) (notified w).
Definition set_trust_file v w := mkWorld (stored w) (invite w) (access w) (connections w) (connection_devices w)
  (edge_attached w) (changed_attached w) (server_name w) v (sent w) (notified w).

(** [State::send]. *)
Definition send (command : EdgeCommand) (w : World) : World :=
  if edge_attached w
  then mkWorld (stored w) (invite w) (access w) (connections w) (connection_devices w) (edge_attached w)
         (changed_attached w) (server_name w) (file w) (sent w ++ [command]) (notified w)
  else w.

Definition notify (w : World) : World :=
  if changed_attached w
  then mkWorld (stored w) (invite w) (access w) (connections w) (connection_devices w) (edge_attached w)
         (changed_attached w) (server_name w) (file w) (sent w) (S (notified w))
  else w.

(** [self.inner.store.write]. *)
Definition write (fault : WriteFault) (value : StoredRemoteDevices) (w : World) : result unit RuntimeError * World :=
  let r := store_write fault value (file w) in (r.1, set_trust_file r.2 w).

(** ** The identity *)

Definition secret_key (s : StoredRemoteDevices) : option SecretKey := text ← secret_key_text s; secret_parse text.

(** With the key [SecretKey::generate] would give. *)
Definition ensure_secret_key (generated : SecretKey) (s : StoredRemoteDevices) : SecretKey * StoredRemoteDevices :=
  match secret_key s with
  | Some key => (key, s)
  | None => (generated, mkStored (Some (hex (secret_bytes generated))) (devices s))
  end.

Definition forget_secret_key (s : StoredRemoteDevices) : StoredRemoteDevices := mkStored None (devices s).

Definition wants_endpoint (w : World) : bool :=
  negb (bool_decide (devices (stored w) = [])) || is_some (invite w).

Definition endpoint_secret_key (w : World) : option SecretKey :=
  if wants_endpoint w then secret_key (stored w) else None.

Definition forget_identity_if_unused (fault : WriteFault) (w : World) : World :=
  if wants_endpoint w || negb (is_some (secret_key (stored w))) then w
  else let s := forget_secret_key (stored w) in
       match write fault s w with (Ok _, w) => set_stored s w | (Err _, w) => w end.

(** ** Trust *)

Definition is_device (id : string) (d : StoredRemoteDevice) : bool := bool_decide (device_id d = id).
Definition without (id : string) (ds : list StoredRemoteDevice) : list StoredRemoteDevice :=
  List.filter (fun d => negb (is_device id d)) ds.

Definition is_trusted_id (id : string) (w : World) : bool := existsb (is_device id) (devices (stored w)).
Definition is_trusted (device : PublicKey) (w : World) : bool := is_trusted_id (key_to_string device) w.

Definition trust (device : PublicKey) (name : string) (model : option string) (by_ : string) (now_ms : Z)
    (s : StoredRemoteDevices) : StoredRemoteDevices :=
  let id := key_to_string device in
  let name := clamp_label name in
  mkStored (secret_key_text s)
    (without id (devices s) ++
     [mkDevice id (if bool_decide (name = ""%string) then "Unnamed device"%string else name)
        (model ← model; nonempty (clamp_label model)) now_ms (Some by_) None]).

(** ** Errors *)

Definition remote_access_unavailable : ProtocolError :=
  mkProtocolError CapabilityUnavailable "Remote devices are not available in this app" false None.
Definition pairing_code_error (e : PairingCodeError) : ProtocolError :=
  mkProtocolError ValidationFailed (pairing_error_text e) true None.
Definition storage_error (_ : RuntimeError) : ProtocolError :=
  mkProtocolError Protocol.Internal "OpenAIDE could not save the device list" true None.
Definition device_not_found : ProtocolError :=
  mkProtocolError NotFound "This device is no longer connected to this computer" true None.

(** ** Operations *)

(** A file that cannot be read leaves remote access off. *)
Definition open (host_name : string) (file : TrustFile) : World :=
  mkWorld (match store_read file with Ok s => s | Err _ => no_devices end)
    None Off ∅ ∅ false false host_name file [] 0.

Definition on_changed (w : World) : World := set_attached (edge_attached w) true w.
Definition attach_edge (w : World) : World := send Reconcile (set_attached true (changed_attached w) w).

Definition set_access (a : RemoteAccessState) (w : World) : World :=
  if bool_decide (access w = a) then w else notify (set_access_state a w).

Definition redeem_invite (device : PublicKey) (secret : list Z) (name : string) (model : option string)
    (now_ms : Z) (fault : WriteFault) (w : World) : result unit InviteRejection * World :=
  match invite w with
  | None => (Err NoInvite, w)
  | Some iv =>
      if bool_decide (iv_expires_at_ms iv <= now_ms) then (Err Expired, set_invite None w)
      else if negb (constant_time_eq (iv_secret iv) secret) then (Err WrongSecret, w)
      else
        let s := trust device name model (iv_added_by iv) now_ms (stored w) in
        match write fault s w with
        | (Err _, w) => (Err StorageRejection, w)
        | (Ok _, w) => (Ok tt, notify (set_invite None (set_stored s w)))
        end
  end.

Definition device_connected (device : PublicKey) (connection : RemoteDeviceConnection) (w : World) : World :=
  let id := key_to_string device in
  let entry := default (mkConnected connection 0) (connections w !! id) in
  notify (set_connections (<[id := mkConnected connection (open_connections entry +64 1)]> (connections w)) w).

Definition device_path_changed (device : PublicKey) (connection : RemoteDeviceConnection) (w : World) : World :=
  let id := key_to_string device in
  match connections w !! id with
  | None => w
  | Some entry =>
      if bool_decide (cd_connection entry = connection) then w
      else notify (set_connections (<[id := mkConnected connection (open_connections entry)]> (connections w)) w)
  end.

(** [iter_mut().find] on a list of devices, with the last-seen time set. *)
Fixpoint touch (id : string) (now_ms : Z) (ds : list StoredRemoteDevice) : option (list StoredRemoteDevice) :=
  match ds with
  | [] => None
  | d :: ds =>
      if is_device id d
      then Some (mkDevice (device_id d) (sd_name d) (sd_model d) (added_at_ms d) (added_by d) (Some now_ms) :: ds)
      else ds ← touch id now_ms ds; Some (d :: ds)
  end.

Definition owned_by_other (id : string) (m : gmap string string) : gmap string string :=
  filter (fun p => p.2 <> id) m.

Definition device_disconnected (device : PublicKey) (now_ms : Z) (fault : WriteFault) (w : World) : World :=
  let id := key_to_string device in
  match connections w !! id with
  | None => w
  | Some entry =>
      let left := u64_saturating_sub (open_connections entry) 1 in
      if bool_decide (0 < left)
      then set_connections (<[id := mkConnected (cd_connection entry) left]> (connections w)) w
      else
        let w := set_connection_devices (owned_by_other id (connection_devices w))
                   (set_connections (delete id (connections w)) w) in
        notify match touch id now_ms (devices (stored w)) with
               | None => w
               | Some ds =>
                   let s := mkStored (secret_key_text (stored w)) ds in
                   match write fault s w with (Ok _, w) => set_stored s w | (Err _, w) => w end
               end
  end.

Definition note_protocol_connection (device : PublicKey) (connection_id : string) (w : World) : World :=
  set_connection_devices (<[connection_id := key_to_string device]> (connection_devices w)) w.

Definition snapshot (w : World) : DeviceCollectionSnapshot :=
  mkDeviceSnapshot (access w) (server_name w)
    ((fun d => mkDeviceSummary (device_id d) (sd_name d) (sd_model d) (added_at_ms d) (added_by d)
                 (last_seen_at_ms d) (cd_connection <$> connections w !! device_id d)) <$> devices (stored w)).

Definition create_invite (by_ : string) (now_ms : Z) (generated_key generated_secret : SecretKey)
    (fault : WriteFault) (w : World) : result DevicesCreateInviteResult ProtocolError * World :=
  if negb (edge_attached w) then (Err remote_access_unavailable, w)
  else
    let '(key, s) := ensure_secret_key generated_key (stored w) in
    let '(written, w) :=
      if bool_decide (s <> stored w)
      then match write fault s w with
           | (Err e, w) => (Err (storage_error e), w)
           | (Ok _, w) => (Ok tt, set_stored s w)
           end
      else (Ok tt, w) in
    match written with
    | Err e => (Err e, w)
    | Ok _ =>
        let secret := take INVITE_SECRET_LEN (secret_bytes generated_secret) in
        let expires_at_ms := u64_saturating_add now_ms INVITE_LIFETIME_MS in
        let w := send Reconcile (set_invite (Some (mkInvite secret by_ expires_at_ms)) w) in
        (Ok (mkInviteResult (invite_encode (mkInviteCode (secret_public key) secret)) expires_at_ms), w)
    end.

Definition cancel_invite (fault : WriteFault) (w : World) : World :=
  match invite w with
  | None => w
  | Some _ => send Reconcile (forget_identity_if_unused fault (set_invite None w))
  end.

Definition preview_join_request (code : string) (w : World) : result DevicesPreviewJoinRequestResult ProtocolError :=
  match join_decode code with
  | Err e => Err (pairing_code_error e)
  | Ok join => Ok (mkPreview (key_to_string (jc_device join)) (jc_name join) (jc_model join) (server_name w)
                     (is_trusted_id (key_to_string (jc_device join)) w))
  end.

Definition approve_join_request (code by_ : string) (now_ms : Z) (generated_key : SecretKey)
    (fault : WriteFault) (w : World) : result unit ProtocolError * World :=
  match join_decode code with
  | Err e => (Err (pairing_code_error e), w)
  | Ok join =>
      if negb (edge_attached w) then (Err remote_access_unavailable, w)
      else
        let s := (ensure_secret_key generated_key (stored w)).2 in
        let s := trust (jc_device join) (jc_name join) (jc_model join) by_ now_ms s in
        match write fault s w with
        | (Err e, w) => (Err (storage_error e), w)
        | (Ok _, w) => (Ok tt, send (AnnounceTrust (jc_device join)) (send Reconcile (set_stored s w)))
        end
  end.

Definition remove (id : string) (fault : WriteFault) (w : World) : result unit ProtocolError * World :=
  let ds := without id (devices (stored w)) in
  if bool_decide (length ds = length (devices (stored w))) then (Err device_not_found, w)
  else
    let s := mkStored (secret_key_text (stored w)) ds in
    let s := if bool_decide (ds = []) && negb (is_some (invite w)) then forget_secret_key s else s in
    match write fault s w with
    | (Err e, w) => (Err (storage_error e), w)
    | (Ok _, w) =>
        let w := set_connection_devices (owned_by_other id (connection_devices w))
                   (set_connections (delete id (connections w)) (set_stored s w)) in
        let w := match key_parse id with Some device => send (Disconnect device) w | None => w end in
        (Ok tt, send Reconcile w)
    end.

Definition device_name_for_connection (connection_id : string) (w : World) : option string :=
  id ← connection_devices w !! connection_id;
  sd_name <$> List.find (is_device id) (devices (stored w)).

(** ** The endpoint of the edge

    [reconcile] with what [bind] answers; closing the old endpoint is silent. *)
Definition reconcile (binds : bool) (endpoint : option PublicKey) (w : World) : bool * option PublicKey * World :=
  let wanted := secret_public <$> endpoint_secret_key w in
  if bool_decide (endpoint = wanted) then (false, endpoint, w)
  else match wanted with
       | None => (true, None, set_access Off w)
       | Some key =>
           let w := set_access Starting w in
           if binds then (true, Some key, set_access On w) else (true, None, set_access Failed w)
       end.

(** ** Runs

    Every method holds the mutex, so an execution is a sequence of operations. *)

Inductive Op :=
| OpOnChanged
| OpAttachEdge
| OpRedeem (device : PublicKey) (secret : list Z) (name : string) (model : option string) (now_ms : Z) (fault : WriteFault)
| OpConnected (device : PublicKey) (connection : RemoteDeviceConnection)
| OpPathChanged (device : PublicKey) (connection : RemoteDeviceConnection)
| OpDisconnected (device : PublicKey) (now_ms : Z) (fault : WriteFault)
| OpNote (device : PublicKey) (connection_id : string)
| OpCreateInvite (by_ : string) (now_ms : Z) (generated_key generated_secret : SecretKey) (fault : WriteFault)
| OpCancelInvite (fault : WriteFault)
| OpApprove (code by_ : string) (now_ms : Z) (generated_key : SecretKey) (fault : WriteFault)
| OpRemove (id : string) (fault : WriteFault).

Inductive Outcome :=
| Done
| Redeemed (r : result unit InviteRejection)
| Invited (r : result DevicesCreateInviteResult ProtocolError)
| Answered (r : result unit ProtocolError).

Definition step (op : Op) (w : World) : Outcome * World :=
  match op with
  | OpOnChanged => (Done, on_changed w)
  | OpAttachEdge => (Done, attach_edge w)
  | OpRedeem device secret name model now fault =>
      let r := redeem_invite device secret name model now fault w in (Redeemed r.1, r.2)
  | OpConnected device connection => (Done, device_connected device connection w)
  | OpPathChanged device connection => (Done, device_path_changed device connection w)
  | OpDisconnected device now fault => (Done, device_disconnected device now fault w)
  | OpNote device connection_id => (Done, note_protocol_connection device connection_id w)
  | OpCreateInvite by_ now key secret fault => let r := create_invite by_ now key secret fault w in (Invited r.1, r.2)
  | OpCancelInvite fault => (Done, cancel_invite fault w)
  | OpApprove code by_ now key fault => let r := approve_join_request code by_ now key fault w in (Answered r.1, r.2)
  | OpRemove id fault => let r := remove id fault w in (Answered r.1, r.2)
  end.

Inductive run : World -> list (Op * Outcome) -> World -> Prop :=
| run_nil w : run w [] w
| run_snoc w trace w1 op : run w trace w1 -> run w (trace ++ [(op, (step op w1).1)]) (step op w1).2.

(** ** The edge

    [edge.rs]: the loop that handles the commands in the order they were sent,
    loses its endpoint and checks it through the relay, and the task of each
    connection a device opens.  A connection is a key and a stable id. *)

Inductive CheckOutcome := Reached | Skipped (stage : string) | Unreached (stage : string).
Definition FAILURES_BEFORE_REBIND : Z := 2.

(** [RelayHealth::record]: whether to bind again, and the new count. *)
Definition record_check (outcome : CheckOutcome) (failures : Z) : bool * Z :=
  match outcome with
  | Reached => (false, 0)
  | Skipped _ => (false, failures)
  | Unreached _ => if bool_decide (FAILURES_BEFORE_REBIND <= failures + 1) then (true, 0) else (false, failures + 1)
  end.

Definition Link : Type := PublicKey * Z.

(** Connections that passed the trust check and are not yet in the table, the
    table, those that wait for the close of a removal, those that were closed,
    and the requests that were forwarded. *)
Record Links := mkLinks {
  arrived : list Link;
  table : list Link;
  closing : list Link;
  closed : list Link;
  forwarded : list Link }.

Record Edge := mkEdge {
  world : World;
  handled : nat;
  endpoint : option PublicKey;
  checking : bool;
  health : Z;
  announced : list PublicKey;
  links : Links }.

(** Connections of the removed device leave the table; they are closed after a
    grace period, or when the endpoint stops. *)
Definition disconnect (device : PublicKey) (l : Links) : Links :=
  mkLinks (arrived l) (filter (fun k => k.1 <> device) (table l))
    (closing l ++ filter (fun k => k.1 = device) (table l)) (closed l) (forwarded l).
Definition close_removed (l : Links) : Links :=
  mkLinks (arrived l) (table l) [] (closed l ++ closing l) (forwarded l).

Definition rebind_edge (binds : bool) (e : option PublicKey) (w : World) : option PublicKey * World :=
  match e with
  | None => (None, w)
  | Some _ => let r := reconcile binds None w in (r.1.2, r.2)
  end.

Inductive Event :=
| Called (op : Op)
| Command (binds : bool)
| EndpointClosed
| CheckTimer
| CheckFinished (outcome : CheckOutcome) (binds : bool)
| GraceOver
| Arrives (link : Link)
| Registers (link : Link) (connection : RemoteDeviceConnection)
| OpensStream (link : Link) (connection_id : option string)
| Ends (link : Link) (now_ms : Z) (fault : WriteFault).

Definition set_links (l : Links) (e : Edge) : Edge :=
  mkEdge (world e) (handled e) (endpoint e) (checking e) (health e) (announced e) l.
Definition set_world (w : World) (e : Edge) : Edge :=
  mkEdge w (handled e) (endpoint e) (checking e) (health e) (announced e) (links e).
Definition next_command (e : Edge) : Edge :=
  mkEdge (world e) (S (handled e)) (endpoint e) (checking e) (health e) (announced e) (links e).

(** The arms of the loop that handle a command. *)
Definition handle_command (binds : bool) (command : EdgeCommand) (e : Edge) : Edge :=
  match command with
  | Reconcile =>
      let '(changed, ep, w) := reconcile binds (endpoint e) (world e) in
      let l := if changed && is_some (endpoint e) then close_removed (links e) else links e in
      if changed then mkEdge w (handled e) ep false 0 (announced e) l
      else mkEdge w (handled e) ep (checking e) (health e) (announced e) l
  | AnnounceTrust device =>
      if is_some (endpoint e)
      then mkEdge (world e) (handled e) (endpoint e) (checking e) (health e) (announced e ++ [device]) (links e)
      else e
  | Disconnect device => set_links (disconnect device (links e)) e
  end.

(** [serve_device]: refused unless trusted, then entered in the table and
    reported; each stream is forwarded while the device is trusted, and one that
    is not leads to the end of the connection. *)
Definition serve_arrives (link : Link) (e : Edge) : Edge :=
  let l := links e in
  if is_trusted link.1 (world e)
  then set_links (mkLinks (arrived l ++ [link]) (table l) (closing l) (closed l) (forwarded l)) e
  else set_links (mkLinks (arrived l) (table l) (closing l) (closed l ++ [link]) (forwarded l)) e.

Definition serve_registers (link : Link) (connection : RemoteDeviceConnection) (e : Edge) : Edge :=
  let l := links e in
  if bool_decide (link ∈ arrived l)
  then set_world (device_connected link.1 connection (world e))
         (set_links (mkLinks (filter (fun k => k <> link) (arrived l)) (table l ++ [link]) (closing l) (closed l) (forwarded l)) e)
  else e.

Definition serve_ends (link : Link) (now_ms : Z) (fault : WriteFault) (e : Edge) : Edge :=
  let l := links e in
  set_world (device_disconnected link.1 now_ms fault (world e))
    (set_links (mkLinks (arrived l) (filter (fun k => k <> link) (table l)) (closing l) (closed l ++ [link]) (forwarded l)) e).

Definition serve_stream (link : Link) (connection_id : option string) (e : Edge) : Edge :=
  let l := links e in
  if is_trusted link.1 (world e)
  then set_world (match connection_id with
                  | Some id => note_protocol_connection link.1 id (world e)
                  | None => world e
                  end)
         (set_links (mkLinks (arrived l) (table l) (closing l) (closed l) (forwarded l ++ [link])) e)
  else e.

Definition edge_step (event : Event) (e : Edge) : Edge :=
  match event with
  | Called op => set_world (step op (world e)).2 e
  | Command binds =>
      match sent (world e) !! handled e with
      | None => e
      | Some command => next_command (handle_command binds command e)
      end
  | EndpointClosed =>
      match endpoint e with
      | None => e
      | Some _ =>
          mkEdge (set_access Failed (world e)) (handled e) None (checking e) (health e) (announced e) (links e)
      end
  | CheckTimer =>
      mkEdge (world e) (handled e) (endpoint e) (checking e || is_some (endpoint e)) (health e) (announced e) (links e)
  | CheckFinished outcome binds =>
      if checking e then
        let '(rebind, failures) := record_check outcome (health e) in
        let r := if rebind then rebind_edge binds (endpoint e) (world e) else (endpoint e, world e) in
        mkEdge r.2 (handled e) r.1 false failures (announced e) (links e)
      else e
  | GraceOver => set_links (close_removed (links e)) e
  | Arrives link => serve_arrives link e
  | Registers link connection => serve_registers link connection e
  | OpensStream link connection_id => serve_stream link connection_id e
  | Ends link now_ms fault => serve_ends link now_ms fault e
  end.

(** ** The contract

    What a client may rely on: who is trusted, and the invite that can still be
    spent.  [permitted] lists the only ways either changes. *)

Record Contract := mkContract { trusted : gset string; pending : option (list Z * Z) }.

(** A refusal, or an operation that only reports connections. *)
Definition keeps_trust (op : Op) (o : Outcome) : bool :=
  match op, o with
  | OpRedeem _ _ _ _ _ _, Redeemed (Err Expired) => false
  | OpRedeem _ _ _ _ _ _, Redeemed (Err _) => true
  | OpCreateInvite _ _ _ _ _, Invited (Err _) => true
  | OpApprove _ _ _ _ _, Answered (Err _) | OpRemove _ _, Answered (Err _) => true
  | OpOnChanged, Done | OpAttachEdge, Done | OpConnected _ _, Done | OpPathChanged _ _, Done
  | OpDisconnected _ _ _, Done | OpNote _ _, Done => true
  | _, _ => false
  end.

Inductive permitted (c : Contract) : Op -> Outcome -> Contract -> Prop :=
| may_redeem device secret name model now fault expires :
    pending c = Some (secret, expires) -> now < expires ->
    permitted c (OpRedeem device secret name model now fault) (Redeemed (Ok tt))
      (mkContract ({[key_to_string device]} ∪ trusted c) None)
| may_expire device secret name model now fault s expires :
    pending c = Some (s, expires) -> expires <= now ->
    permitted c (OpRedeem device secret name model now fault) (Redeemed (Err Expired)) (mkContract (trusted c) None)
| may_approve code by_ now key fault join :
    join_decode code = Ok join ->
    permitted c (OpApprove code by_ now key fault) (Answered (Ok tt))
      (mkContract ({[key_to_string (jc_device join)]} ∪ trusted c) (pending c))
| may_remove id fault :
    id ∈ trusted c ->
    permitted c (OpRemove id fault) (Answered (Ok tt)) (mkContract (trusted c ∖ {[id]}) (pending c))
| may_invite by_ now key secret fault server :
    let code := take INVITE_SECRET_LEN (secret_bytes secret) in
    let expires := u64_saturating_add now INVITE_LIFETIME_MS in
    permitted c (OpCreateInvite by_ now key secret fault)
      (Invited (Ok (mkInviteResult (invite_encode (mkInviteCode server code)) expires)))
      (mkContract (trusted c) (Some (code, expires)))
| may_cancel fault : permitted c (OpCancelInvite fault) Done (mkContract (trusted c) None)
| may_keep op o : keeps_trust op o = true -> permitted c op o c.

Inductive permitted_run : Contract -> list (Op * Outcome) -> Contract -> Prop :=
| permitted_nil c : permitted_run c [] c
| permitted_snoc c trace c1 op o c2 :
    permitted_run c trace c1 -> permitted c1 op o c2 -> permitted_run c (trace ++ [(op, o)]) c2.

Definition ids (s : StoredRemoteDevices) : gset string := list_to_set (device_id <$> devices s).
Definition contract (w : World) : Contract :=
  mkContract (ids (stored w)) ((fun iv => (iv_secret iv, iv_expires_at_ms iv)) <$> invite w).
End RemoteDevices.

(** ** Lemmas *)

Lemma constant_time_eq_spec expected actual : constant_time_eq expected actual = true <-> expected = actual.
Proof.
  unfold constant_time_eq. rewrite andb_true_iff, !bool_decide_eq_true.
  assert (forall l a, foldl (fun d (p : Z * Z) => Z.lor d (Z.lxor p.1 p.2)) a l = 0 <->
            a = 0 /\ Forall (fun p => p.1 = p.2) l) as Hfold.
  { induction l as [|p l IH]; intros a; cbn [foldl]; [by split; [split|intros [? _]]|].
    rewrite IH, Z.lor_eq_0_iff, Z.lxor_eq_0_iff, Forall_cons. tauto. }
  rewrite Hfold. clear Hfold. split; [|by intros ->; split; [|split; [|induction actual; constructor]]].
  intros (Hlen & _ & Hall). revert actual Hlen Hall. induction expected as [|a expected IH]; intros [|b actual] Hlen Hall;
    try done. cbn in *. apply Forall_cons in Hall as [Hab Hall]. cbn in Hab. subst. f_equal. apply IH; [lia|done].
Qed.

Section Laws.
Context `{KeyCodecs} `{PayloadTypes}.
Implicit Types w : World.

(** What an operation leaves alone, for rewriting. *)
Lemma send_fields c w :
  stored (send c w) = stored w /\ invite (send c w) = invite w /\ file (send c w) = file w /\
  access (send c w) = access w /\ connections (send c w) = connections w /\
  connection_devices (send c w) = connection_devices w /\ edge_attached (send c w) = edge_attached w.
Proof. unfold send. by destruct (edge_attached w) eqn:E. Qed.

Lemma notify_fields w :
  stored (notify w) = stored w /\ invite (notify w) = invite w /\ file (notify w) = file w /\
  access (notify w) = access w /\ connections (notify w) = connections w /\
  connection_devices (notify w) = connection_devices w /\ edge_attached (notify w) = edge_attached w /\
  sent (notify w) = sent w.
Proof. unfold notify. by destruct (changed_attached w). Qed.

Lemma stored_send c w : stored (send c w) = stored w. Proof. apply send_fields. Qed.
Lemma invite_send c w : invite (send c w) = invite w. Proof. apply send_fields. Qed.
Lemma file_send c w : file (send c w) = file w. Proof. apply send_fields. Qed.
Lemma edge_send c w : edge_attached (send c w) = edge_attached w. Proof. apply send_fields. Qed.
Lemma sent_send c w : sent (send c w) = sent w ++ (if edge_attached w then [c] else []).
Proof. unfold send. destruct (edge_attached w); cbn; [done|]. by rewrite app_nil_r. Qed.
Lemma stored_notify w : stored (notify w) = stored w. Proof. apply notify_fields. Qed.
Lemma invite_notify w : invite (notify w) = invite w. Proof. apply notify_fields. Qed.
Lemma file_notify w : file (notify w) = file w. Proof. apply notify_fields. Qed.
Lemma edge_notify w : edge_attached (notify w) = edge_attached w. Proof. apply notify_fields. Qed.
Lemma sent_notify w : sent (notify w) = sent w. Proof. apply notify_fields. Qed.
Lemma access_send c w : access (send c w) = access w. Proof. apply send_fields. Qed.
Lemma access_notify w : access (notify w) = access w. Proof. apply notify_fields. Qed.

End Laws.

#[export] Hint Rewrite @stored_send @invite_send @file_send @edge_send @sent_send
  @stored_notify @invite_notify @file_notify @edge_notify @sent_notify
  @access_send @access_notify : remote.

Ltac remote := autorewrite with remote; cbn [stored invite file edge_attached sent access set_stored set_invite
  set_connections set_connection_devices set_trust_file set_attached set_access_state].

Section Trust.
Context `{KeyCodecs} `{PayloadTypes}.
Implicit Types w : World.

Lemma contract_of w w' : stored w' = stored w -> invite w' = invite w -> contract w' = contract w.
Proof. unfold contract. by intros -> ->. Qed.

Lemma contract_file f w : contract (set_trust_file f w) = contract w.
Proof. done. Qed.

Lemma elem_ids id s : id ∈ ids s <-> exists d, d ∈ devices s /\ device_id d = id.
Proof. unfold ids. rewrite elem_of_list_to_set, list_elem_of_fmap. naive_solver. Qed.

Lemma elem_without id d ds : d ∈ without id ds <-> d ∈ ds /\ device_id d <> id.
Proof.
  unfold without, is_device. rewrite list_elem_of_In, filter_In, <- list_elem_of_In, negb_true_iff, bool_decide_eq_false. done.
Qed.

Lemma ids_without id key ds : ids (mkStored key (without id ds)) = ids (mkStored key ds) ∖ {[id]}.
Proof.
  apply set_eq. intros x. rewrite elem_of_difference, elem_of_singleton, !elem_ids. cbn.
  setoid_rewrite elem_without. naive_solver.
Qed.

Lemma ids_trust device name model by_ now s :
  ids (trust device name model by_ now s) = {[key_to_string device]} ∪ ids s.
Proof.
  apply set_eq. intros x. rewrite elem_of_union, elem_of_singleton, !elem_ids. cbn.
  setoid_rewrite elem_of_app. setoid_rewrite elem_without. setoid_rewrite list_elem_of_singleton. split.
  - intros (d & [[Hd _]| ->] & <-); [right; eauto|by left].
  - intros [->|(d & Hd & <-)].
    + eexists. split; [by right|done].
    + destruct (decide (device_id d = key_to_string device)) as [E|E].
      * eexists. split; [by right|done].
      * exists d. auto.
Qed.

Lemma touch_ids id now ds ds' : touch id now ds = Some ds' -> device_id <$> ds' = device_id <$> ds.
Proof.
  revert ds'. induction ds as [|d ds IH]; intros ds'; cbn [touch]; [done|]. destruct (is_device id d).
  - by intros [= <-].
  - destruct (touch id now ds) as [ds1|]; [|done]. intros [= <-]. cbn. f_equal. by apply IH.
Qed.

(** A removal shortens the list exactly when the device is in it. *)
Lemma without_length id ds key :
  length (without id ds) = length ds <-> id ∉ ids (mkStored key ds).
Proof.
  rewrite elem_ids. cbn. split.
  - intros Hl (d & Hd & <-). apply list_elem_of_split in Hd as (a & b & ->). unfold without in Hl.
    rewrite List.filter_app in Hl. cbn in Hl. unfold is_device in Hl at 2. rewrite bool_decide_eq_true_2 in Hl by done.
    cbn in Hl. rewrite !length_app in Hl. cbn in Hl.
    pose proof (List.filter_length_le (fun d' => negb (is_device (device_id d) d')) a).
    pose proof (List.filter_length_le (fun d' => negb (is_device (device_id d) d')) b). lia.
  - intros Hn. f_equal. induction ds as [|d ds IH]; [done|]. cbn. unfold is_device at 1.
    rewrite bool_decide_eq_false_2; [cbn; f_equal; apply IH|].
    + intros (d' & Hd & E). apply Hn. exists d'. split; [by right|done].
    + intros E. apply Hn. exists d. split; [left|done].
Qed.

Lemma disconnected_contract device now fault w : contract (device_disconnected device now fault w) = contract w.
Proof.
  unfold device_disconnected. destruct (connections w !! _) as [entry|]; [|done]. split_test; [done|].
  unfold contract. remote. destruct (touch _ _ _) as [ds|] eqn:Ht; [|done]. cbn in Ht. apply touch_ids in Ht.
  destruct fault; cbn; [|done|done]. unfold ids. cbn. by rewrite Ht.
Qed.

Lemma redeem_permitted device secret name model now fault w :
  permitted (contract w) (OpRedeem device secret name model now fault)
    (step (OpRedeem device secret name model now fault) w).1
    (contract (step (OpRedeem device secret name model now fault) w).2).
Proof.
  cbn [step]. unfold redeem_invite. destruct (invite w) as [iv|] eqn:Hi; [|by apply may_keep].
  split_test.
  { cbn [fst snd]. eapply may_expire; [|done]. unfold contract. by rewrite Hi. }
  destruct (negb _) eqn:Hc; [by apply may_keep|].
  apply negb_false_iff, constant_time_eq_spec in Hc as <-. unfold write. destruct fault; cbn [store_write fst snd].
  - unfold contract at 2. remote. rewrite ids_trust. cbn [fmap option_map].
    eapply (may_redeem (contract w)) with (expires := iv_expires_at_ms iv); [|lia]. unfold contract. by rewrite Hi.
  - rewrite contract_file. by apply may_keep.
  - rewrite contract_file. by apply may_keep.
Qed.

Lemma ensure_devices key s : devices (ensure_secret_key key s).2 = devices s.
Proof. unfold ensure_secret_key. by destruct (secret_key s). Qed.

Lemma ids_devices s s' : devices s = devices s' -> ids s = ids s'.
Proof. unfold ids. by intros ->. Qed.

Lemma create_permitted by_ now key secret fault w :
  permitted (contract w) (OpCreateInvite by_ now key secret fault)
    (step (OpCreateInvite by_ now key secret fault) w).1
    (contract (step (OpCreateInvite by_ now key secret fault) w).2).
Proof.
  cbn [step]. unfold create_invite. destruct (negb _); [by apply may_keep|].
  pose proof (ensure_devices key (stored w)) as Hd. destruct (ensure_secret_key key (stored w)) as [k s] eqn:Hs.
  cbn [snd] in Hd. unfold write. split_test.
  - destruct fault; cbn [store_write fst snd]; [|by rewrite contract_file; apply may_keep..].
    unfold contract at 2. remote. rewrite (ids_devices s (stored w)) by done. apply (may_invite (contract w)).
  - cbn [fst snd]. unfold contract at 2. remote. apply (may_invite (contract w)).
Qed.

Lemma forget_unused_fields fault w :
  devices (stored (forget_identity_if_unused fault w)) = devices (stored w) /\
  invite (forget_identity_if_unused fault w) = invite w.
Proof. unfold forget_identity_if_unused. destruct (_ || _); [done|]. by destruct fault. Qed.

Lemma step_permitted op w : permitted (contract w) op (step op w).1 (contract (step op w).2).
Proof.
  destruct op as [| |device secret name model now fault| | | | |by_ now key secret fault|fault|code by_ now key fault|id fault].
  - by apply may_keep.
  - cbn [step fst snd]. unfold attach_edge. rewrite (contract_of w (send _ _)) by (by remote). by apply may_keep.
  - apply redeem_permitted.
  - cbn [step fst snd]. unfold device_connected. rewrite (contract_of w (notify _)) by (by remote). by apply may_keep.
  - cbn [step fst snd]. unfold device_path_changed. destruct (_ !! _); [|by apply may_keep].
    split_test; [by apply may_keep|]. rewrite (contract_of w (notify _)) by (by remote). by apply may_keep.
  - cbn [step fst snd]. rewrite disconnected_contract. by apply may_keep.
  - by apply may_keep.
  - apply create_permitted.
  - cbn [step fst snd]. unfold cancel_invite. destruct (invite w) as [iv|] eqn:Hi.
    + destruct (forget_unused_fields fault (set_invite None w)) as [Hd Hv].
      unfold contract at 2. remote. rewrite Hv, (ids_devices _ (stored w)) by done. cbn. apply (may_cancel (contract w)).
    + assert (contract w = mkContract (trusted (contract w)) None) as E by (unfold contract; by rewrite Hi).
      rewrite E at 2. apply may_cancel.
  - cbn [step]. unfold approve_join_request. destruct (join_decode code) as [join|e] eqn:Hj; [|by apply may_keep].
    destruct (negb _); [by apply may_keep|]. unfold write.
    destruct fault; cbn [store_write fst snd]; [|by rewrite contract_file; apply may_keep..].
    unfold contract at 2. remote. rewrite ids_trust, (ids_devices _ (stored w)) by apply ensure_devices.
    by apply (may_approve (contract w)).
  - cbn [step]. unfold remove. split_test; [by apply may_keep|]. unfold write.
    destruct fault; cbn [store_write fst snd]; [|by rewrite contract_file; apply may_keep..].
    rewrite (without_length id _ (secret_key_text (stored w))) in n. unfold contract at 2.
    assert (forall w, stored (match key_parse id with Some d => send (Disconnect d) w | None => w end) = stored w /\
                      invite (match key_parse id with Some d => send (Disconnect d) w | None => w end) = invite w) as Hk.
    { intros v. by destruct (key_parse id); remote. }
    remote. rewrite (proj1 (Hk _)), (proj2 (Hk _)). cbn.
    rewrite (ids_devices _ (mkStored (secret_key_text (stored w)) (without id (devices (stored w))))) by (cbn; by destruct (bool_decide (without id (devices (stored w)) = []) && _)).
    rewrite ids_without. apply (may_remove (contract w)). apply dec_stable. intros Hn. apply n. done.
Qed.

(** C16. Trust is only what was granted.  In every execution the trusted keys and
    the pending invite change as the contract permits: a key becomes trusted by
    presenting, before it expires, the secret of the invite that was last created
    and is not yet spent or cancelled, which spends the invite, or by the approval
    of its own join code; it stops being trusted by its removal; a refused or
    failed operation changes nothing. *)
Theorem trust_is_granted w trace w' : run w trace w' -> permitted_run (contract w) trace (contract w').
Proof.
  induction 1 as [w|w trace w1 op _ IH]; [constructor|]. econstructor; [exact IH|]. apply step_permitted.
Qed.

(** A device that presents an invite is accepted exactly when an invite is
    pending, has not expired and has that secret, and the new list is on disk. *)
Theorem invite_redeemed_iff device secret name model now fault w :
  (redeem_invite device secret name model now fault w).1 = Ok tt <->
  exists iv, invite w = Some iv /\ now < iv_expires_at_ms iv /\ iv_secret iv = secret /\ fault = Replaced.
Proof.
  unfold redeem_invite. destruct (invite w) as [iv|]; [|split; [done|by intros (? & [=] & _)]]. split_test.
  { split; [done|]. intros (? & [= <-] & ? & _). lia. }
  destruct (constant_time_eq (iv_secret iv) secret) eqn:E; cbn [negb].
  - apply constant_time_eq_spec in E as <-. unfold write. destruct fault; cbn.
    + split; [|done]. intros _. exists iv. repeat split; lia.
    + split; [done|]. by intros (? & _ & _ & _ & [=]).
    + split; [done|]. by intros (? & _ & _ & _ & [=]).
  - split; [done|]. intros (? & [= <-] & _ & Hs & _). apply constant_time_eq_spec in Hs. congruence.
Qed.
End Trust.

(** ** The device list and the identity *)

(** A label a row can show: UTF-8 of at most 64 bytes without control characters. *)
Definition label_ok (s : string) : Prop :=
  valid_utf8 (bytes_of s) = true /\ (length (bytes_of s) <= MAX_LABEL_BYTES)%nat /\
  Forall (fun c => is_control c = false) (chars (bytes_of s)).

Definition device_ok (d : StoredRemoteDevice) : Prop :=
  sd_name d <> ""%string /\ label_ok (sd_name d) /\
  match sd_model d with Some m => m <> ""%string /\ label_ok m | None => True end.

Definition list_ok (s : StoredRemoteDevices) : Prop :=
  NoDup (device_id <$> devices s) /\ Forall device_ok (devices s).

(** The text of the operations' arguments is UTF-8, as Rust's [str] is. *)
Definition op_text `{KeyCodecs} (op : Op) : Prop :=
  match op with
  | OpRedeem _ _ name model _ _ =>
      valid_utf8 (bytes_of name) = true /\ valid_utf8 (bytes_of (default ""%string model)) = true
  | _ => True
  end.

Lemma clamp_label_ok s : valid_utf8 (bytes_of s) = true -> label_ok (clamp_label s).
Proof.
  intros Hs. unfold label_ok. rewrite clamp_label_bytes by done.
  split; [by apply clamp_bytes_valid|]. split; [by apply clamp_bytes_short|by apply clamp_bytes_plain].
Qed.

Section Invariants.
Context `{KeyCodecs} `{PayloadTypes}.
Implicit Types w : World.

Definition devices_ok (w : World) : Prop :=
  list_ok (stored w) /\ (wants_endpoint w = true -> is_Some (secret_key (stored w))).

Lemma list_ok_without id key key' ds : list_ok (mkStored key ds) -> list_ok (mkStored key' (without id ds)).
Proof.
  unfold list_ok. cbn. intros [Hnd Hok]. split.
  - clear Hok. induction ds as [|d ds IH]; cbn in *; [constructor|].
    apply NoDup_cons in Hnd as [Hd Hnd]. destruct (negb _); cbn; [|by apply IH]. constructor; [|by apply IH].
    intros (d' & E & [Hd' _]%elem_without)%list_elem_of_fmap. apply Hd. apply list_elem_of_fmap. eauto.
  - apply Forall_forall. intros d [Hd _]%elem_without. by eapply Forall_forall in Hok.
Qed.

Lemma trusted_device_ok device name model by_ now s :
  valid_utf8 (bytes_of name) = true -> valid_utf8 (bytes_of (default ""%string model)) = true ->
  list_ok s -> list_ok (trust device name model by_ now s).
Proof.
  intros Hn Hm Hok. destruct s as [key ds].
  apply (list_ok_without (key_to_string device) key key) in Hok as [Hnd Hok]. split; cbn in *.
  - rewrite fmap_app. cbn. apply NoDup_app. split; [done|]. split; [|apply NoDup_singleton].
    intros x (d & -> & [_ Hd]%elem_without)%list_elem_of_fmap. by intros E%list_elem_of_singleton.
  - apply Forall_app. split; [done|]. apply Forall_singleton. unfold device_ok. cbn. split_and!.
    + by split_test.
    + split_test; [|by apply clamp_label_ok]. apply (bool_decide_unpack _). by vm_compute.
    + destruct model as [m|]; cbn; [|done]. unfold nonempty. split_test; [done|]. split; [done|by apply clamp_label_ok].
Qed.

Lemma take_label_valid rest label more : take_label rest = Ok (label, more) -> valid_utf8 (bytes_of label) = true.
Proof.
  unfold take_label. destruct rest as [|len tail]; [done|]. destruct (_ || _); [done|]. unfold from_utf8.
  destruct (valid_utf8 _) eqn:Hv; cbn; [|done]. intros [= <- _]. apply clamp_bytes_valid in Hv.
  by rewrite bytes_of_bytes by by apply valid_utf8_bytes.
Qed.

(** The labels of a decoded code are UTF-8. *)
Lemma join_decode_valid code j : join_decode code = Ok j ->
  valid_utf8 (bytes_of (jc_name j)) = true /\ valid_utf8 (bytes_of (default ""%string (jc_model j))) = true.
Proof.
  unfold join_decode. intros (bytes & _ & Hj)%result_bind_ok. split_test; [done|].
  apply result_bind_ok in Hj as (device & _ & Hj).
  apply result_bind_ok in Hj as ([name r] & Hn & Hj). apply result_bind_ok in Hj as ([model r'] & Hm & Hj).
  cbn in *. destruct (_ || _); [done|]. injection Hj as <-. cbn. apply take_label_valid in Hn, Hm.
  split; [done|]. unfold nonempty. by split_test.
Qed.

Lemma list_ok_devices s s' : devices s' = devices s -> list_ok s -> list_ok s'.
Proof. unfold list_ok. by intros ->. Qed.

Lemma touch_ok id now ds ds' : touch id now ds = Some ds' -> Forall device_ok ds -> Forall device_ok ds'.
Proof.
  revert ds'. induction ds as [|d ds IH]; intros ds'; cbn [touch]; [done|]. destruct (is_device id d).
  - intros [= <-] [Hd Hds]%Forall_cons. by constructor.
  - destruct (touch id now ds) as [ds1|]; [|done]. intros [= <-] [Hd Hds]%Forall_cons. constructor; [done|]. auto.
Qed.

(** The state after a removal, whether or not the text of the id is a key. *)
Lemma removed_fields id w :
  let w' := match key_parse id with Some d => send (Disconnect d) w | None => w end in
  stored w' = stored w /\ invite w' = invite w /\ file w' = file w /\ edge_attached w' = edge_attached w.
Proof. cbn. by destruct (key_parse id); remote. Qed.

Lemma is_some_iff {A} (o : option A) : is_some o = true <-> is_Some o.
Proof. by destruct o; cbn; split; try done; intros [? [=]]. Qed.

Lemma wants_iff w : wants_endpoint w = true <-> devices (stored w) <> [] \/ is_Some (invite w).
Proof. unfold wants_endpoint. rewrite orb_true_iff, negb_true_iff, bool_decide_eq_false, is_some_iff. done. Qed.

Lemma devices_ok_same w w' : stored w' = stored w -> invite w' = invite w -> devices_ok w -> devices_ok w'.
Proof. unfold devices_ok. rewrite !wants_iff. by intros -> ->. Qed.

Lemma ensured_key `{!KeyCodecsLaws} key s :
  secret_key (ensure_secret_key key s).2 = Some (ensure_secret_key key s).1.
Proof.
  unfold ensure_secret_key. destruct (secret_key s) as [k|] eqn:E; [done|]. unfold secret_key. cbn. apply secret_parse_hex.
Qed.

Lemma redeem_ok device secret name model now fault w :
  valid_utf8 (bytes_of name) = true -> valid_utf8 (bytes_of (default ""%string model)) = true ->
  devices_ok w -> devices_ok (redeem_invite device secret name model now fault w).2.
Proof.
  intros Hn Hm Hok. pose proof Hok as [Hl Hk]. unfold redeem_invite.
  destruct (invite w) as [iv|] eqn:Hi; [|done]. split_test.
  { split; [done|]. intros Hw. apply Hk. apply wants_iff. cbn. rewrite wants_iff in Hw. cbn in Hw.
    destruct Hw as [Hw|[? [=]]]. by left. }
  destruct (negb _); [done|]. unfold write. destruct fault; cbn [store_write fst snd]; [|done|done].
  split; remote; [by apply trusted_device_ok|]. intros _. apply Hk. apply wants_iff. right. by rewrite Hi.
Qed.

Lemma create_ok `{!KeyCodecsLaws} by_ now key secret fault w :
  devices_ok w -> devices_ok (create_invite by_ now key secret fault w).2.
Proof.
  intros Hok. pose proof Hok as [Hl Hk]. unfold create_invite. destruct (negb _); [done|].
  pose proof (ensure_devices key (stored w)) as Hd. pose proof (ensured_key key (stored w)) as He.
  destruct (ensure_secret_key key (stored w)) as [k s] eqn:Hs. cbn [fst snd] in Hd, He.
  split_test; unfold write.
  - destruct fault; cbn [store_write fst snd]; [|done|done]. split; remote; [by eapply list_ok_devices|]. eauto.
  - apply dec_stable in n. subst s. cbn [fst snd]. split; remote; [done|]. eauto.
Qed.

Lemma cancel_ok fault w : devices_ok w -> devices_ok (cancel_invite fault w).
Proof.
  intros Hok. pose proof Hok as [Hl Hk].
  unfold cancel_invite. destruct (invite w) as [iv|]; [|done]. unfold forget_identity_if_unused.
  destruct (_ || _) eqn:Hu.
  + split; remote; [done|]. rewrite wants_iff. remote. intros Hw. apply Hk, wants_iff. destruct Hw as [Hw|[? [=]]]. by left.
  + apply orb_false_iff in Hu as [Hu _].
    assert (forall w', devices (stored w') = devices (stored w) -> invite w' = None -> wants_endpoint w' = true -> False) as Hno.
    { intros w' Hd Hi [Hw|[? Hw]]%wants_iff; [|congruence]. apply not_true_iff_false in Hu. apply Hu, wants_iff.
      left. cbn. congruence. }
    destruct fault; cbn [write store_write fst snd].
    * split; remote; [by eapply list_ok_devices|]. intros Hw. exfalso. eapply Hno; [| |exact Hw]; by remote.
    * split; remote; [done|]. intros Hw. exfalso. eapply Hno; [| |exact Hw]; by remote.
    * split; remote; [done|]. intros Hw. exfalso. eapply Hno; [| |exact Hw]; by remote.
Qed.

Lemma remove_ok id fault w : devices_ok w -> devices_ok (remove id fault w).2.
Proof.
  intros Hok. pose proof Hok as [Hl Hk].
  unfold remove. split_test; [done|]. unfold write. destruct fault; cbn [store_write fst snd]; [|done|done].
  match goal with |- context [set_stored ?s' _] => set (s := s') end.
  match goal with |- context [send Reconcile (match _ with Some d => send _ ?v | None => _ end)] => set (w1 := v) end.
  destruct (removed_fields id w1) as (Hs & Hi & _ & _).
  assert (devices s = without id (devices (stored w))) as Hd by (unfold s; by destruct (_ && _)).
  split; remote.
  + rewrite Hs. cbn. destruct (stored w) as [k ds]. cbn in *.
    apply (list_ok_devices (mkStored k (without id ds))); [done|]. by eapply list_ok_without.
  + rewrite wants_iff. remote. rewrite Hs, Hi. cbn. rewrite Hd. intros Hw. unfold s.
    destruct (bool_decide (without id (devices (stored w)) = []) && negb (is_some (invite w))) eqn:Hc.
    * simp_all. destruct Hw as [Hw|Hw%is_some_iff]; [done|congruence].
    * cbn. apply Hk, wants_iff. destruct Hw as [Hw|Hw]; [|by right]. left. intros E. by rewrite E in Hw.
Qed.

Lemma step_devices_ok `{!KeyCodecsLaws} op w : op_text op -> devices_ok w -> devices_ok (step op w).2.
Proof.
  intros Ht Hok. pose proof Hok as [Hl Hk].
  destruct op as [| |device secret name model now fault| | |device now fault| |by_ now key secret fault|fault
                 |code by_ now key fault|id fault]; cbn [step snd].
  - done.
  - apply (devices_ok_same w); unfold attach_edge; by remote.
  - destruct Ht. by apply redeem_ok.
  - apply (devices_ok_same w); unfold device_connected; by remote.
  - unfold device_path_changed. destruct (connections w !! _); [|done]. split_test; [done|].
    apply (devices_ok_same w); by remote.
  - unfold device_disconnected. destruct (connections w !! _) as [entry|]; [|done]. split_test; [done|].
    destruct (touch _ _ _) as [ds|] eqn:E; [|by apply (devices_ok_same w); remote]. cbn in E. unfold write.
    destruct fault; cbn [store_write fst snd]; [|by apply (devices_ok_same w); remote..].
    split; remote.
    + destruct Hl as [Hnd Hd]. split; cbn; [by erewrite touch_ids|by eapply touch_ok].
    + rewrite wants_iff. remote. cbn. intros Hw. apply Hk. apply wants_iff. destruct Hw as [Hw|Hw]; [|by right].
      left. intros En. rewrite En in E. done.
  - done.
  - by apply create_ok.
  - by apply cancel_ok.
  - unfold approve_join_request. destruct (join_decode code) as [join|e] eqn:Hj; [|done]. destruct (negb _); [done|].
    unfold write. destruct fault; cbn [store_write fst snd]; [|done|done]. apply join_decode_valid in Hj as [Hn Hm].
    split; remote; [apply trusted_device_ok; [done..|]; eapply list_ok_devices; [apply ensure_devices|done]|].
    intros _. pose proof (ensured_key key (stored w)). eauto.
  - by apply remove_ok.
Qed.

(** The list stays well formed: in every execution each key has one entry,
    every name and model is UTF-8 of at most 64 bytes without control characters
    and not empty, and the App Server has an identity to listen with whenever a
    device is trusted or an invite is pending. *)
Theorem device_list_is_well_formed `{!KeyCodecsLaws} w trace w' :
  run w trace w' -> Forall (fun p => op_text p.1) trace -> devices_ok w -> devices_ok w'.
Proof.
  induction 1 as [w|w trace w1 op _ IH]; [done|]. intros [Ht Hop]%Forall_app Hok.
  rewrite Forall_singleton in Hop. apply step_devices_ok; [done|]. by apply IH.
Qed.

(** ** Restarts *)

Definition fault_of (op : Op) : WriteFault :=
  match op with
  | OpRedeem _ _ _ _ _ f | OpDisconnected _ _ f | OpCreateInvite _ _ _ _ f | OpCancelInvite f
  | OpApprove _ _ _ _ f | OpRemove _ f => f
  | _ => Replaced
  end.

(** Opening the file again gives the list in memory. *)
Definition synced (w : World) : Prop := stored (open (server_name w) (file w)) = stored w.

Lemma synced_same w w' : stored w' = stored w -> file w' = file w -> synced w -> synced w'.
Proof. unfold synced. cbn. by intros -> ->. Qed.

Lemma synced_held w : file w = Holding (stored w) -> synced w.
Proof. unfold synced. cbn. by intros ->. Qed.

Lemma step_synced op w : fault_of op <> FailsAfter -> synced w -> synced (step op w).2.
Proof.
  intros Hf Hs.
  destruct op as [| |device secret name model now fault| | |device now fault| |by_ now key secret fault|fault
                 |code by_ now key fault|id fault]; cbn [step snd fault_of] in *.
  - done.
  - unfold attach_edge. apply (synced_same w); by remote.
  - unfold redeem_invite. destruct (invite w); [|done]. split_test; [done|]. destruct (negb _); [done|].
    destruct fault; [|done|done]. apply synced_held. cbn [write store_write fst snd]. by remote.
  - unfold device_connected. apply (synced_same w); by remote.
  - unfold device_path_changed. destruct (connections w !! _); [|done]. split_test; [done|].
    apply (synced_same w); by remote.
  - unfold device_disconnected. destruct (connections w !! _); [|done]. split_test; [done|].
    destruct (touch _ _ _); [|by apply (synced_same w); remote].
    destruct fault; [|by apply (synced_same w); remote|done]. apply synced_held. cbn [write store_write fst snd]. by remote.
  - done.
  - unfold create_invite. destruct (negb _); [done|]. destruct (ensure_secret_key _ _) as [k s]. split_test.
    + destruct fault; [|done|done]. apply synced_held. cbn [write store_write fst snd]. by remote.
    + apply (synced_same w); cbn [snd]; by remote.
  - unfold cancel_invite. destruct (invite w); [|done]. unfold forget_identity_if_unused.
    destruct (_ || _); [apply (synced_same w); by remote|].
    destruct fault; [|by apply (synced_same w); remote|done]. apply synced_held. cbn [write store_write fst snd]. by remote.
  - unfold approve_join_request. destruct (join_decode code); [|done]. destruct (negb _); [done|].
    destruct fault; [|done|done]. apply synced_held. cbn [write store_write fst snd]. by remote.
  - unfold remove. split_test; [done|]. destruct fault; [|done|done]. cbn [write store_write fst snd].
    apply synced_held. remote. match goal with |- context [match _ with Some d => send _ ?v | None => _ end] =>
      destruct (removed_fields id v) as (-> & _ & -> & _) end. by remote.
Qed.

(** Trust survives a restart: unless a write failed after it replaced the
    file, the list a restarted App Server reads is the one the last state had,
    also when the file was damaged at first and nothing was written since. *)
Theorem trust_survives_restart host saved trace w :
  run (open host saved) trace w -> Forall (fun p => fault_of p.1 <> FailsAfter) trace ->
  stored (open (server_name w) (file w)) = stored w.
Proof.
  intros Hr. fold (synced w). remember (open host saved) as w0 eqn:E. revert E.
  induction Hr as [w|w trace w1 op _ IH]; intros ->; [done|]. intros [Ht Hop]%Forall_app.
  rewrite Forall_singleton in Hop. apply step_synced; [done|]. by apply IH.
Qed.

(** ** Removal *)

Lemma trusted_without other id ds :
  existsb (is_device other) (without id ds) = if decide (other = id) then false else existsb (is_device other) ds.
Proof.
  induction ds as [|d ds IH]; cbn; [by destruct (decide _)|]. fold (without id ds).
  assert (forall x, is_device x d = bool_decide (device_id d = x)) as Hx by done.
  destruct (decide (device_id d = id)) as [E|E]; rewrite !Hx.
  - rewrite bool_decide_eq_true_2 by done. cbn. rewrite IH. destruct (decide (other = id)); [done|].
    by rewrite bool_decide_eq_false_2 by congruence.
  - rewrite bool_decide_eq_false_2 by done. cbn. rewrite IH, Hx. destruct (decide (other = id)); [|done].
    by rewrite bool_decide_eq_false_2 by congruence.
Qed.

(** Removing a device forgets it: the key is not trusted any more and every
    other key is as before, its connections and the connections labelled with it
    are dropped, the shorter list is on disk, the edge is told to close the
    device's connections and then to look at its endpoint again, and with the
    last use the identity is gone. *)
Theorem removed_device_is_forgotten id fault w :
  (remove id fault w).1 = Ok tt ->
  let w' := (remove id fault w).2 in
  (forall other, is_trusted_id other w' = if decide (other = id) then false else is_trusted_id other w) /\
  connections w' = delete id (connections w) /\
  (forall connection, connection_devices w' !! connection <> Some id) /\
  file w' = Holding (stored w') /\
  (edge_attached w = true ->
   sent w' = sent w ++ (match key_parse id with Some k => [Disconnect k] | None => [] end) ++ [Reconcile]) /\
  (wants_endpoint w' = false -> secret_key_text (stored w') = None).
Proof.
  unfold remove. split_test; [done|]. destruct fault; [|done|done]. intros _. cbn [write store_write fst snd].
  match goal with |- context [set_stored ?s' _] => set (s := s') end.
  match goal with |- context [send Reconcile (match _ with Some d => send _ ?v | None => _ end)] => set (w1 := v) end.
  set (w2 := match key_parse id with Some d => send (Disconnect d) w1 | None => w1 end).
  destruct (removed_fields id w1) as (Hs & Hi & Hf & He). fold w2 in Hs, Hi, Hf, He.
  assert (connections w2 = connections w1 /\ connection_devices w2 = connection_devices w1) as [Hc Hcd].
  { unfold w2. destruct (key_parse id); [|done]. split; apply send_fields. }
  pose proof (send_fields Reconcile w2) as (Hs' & Hi' & Hf' & _ & Hc' & Hcd' & _).
  assert (devices s = without id (devices (stored w))) as Hd by (unfold s; by destruct (_ && _)).
  split_and!.
  - intros other. unfold is_trusted_id. rewrite Hs', Hs. cbn. rewrite Hd. apply trusted_without.
  - by rewrite Hc', Hc.
  - intros connection. rewrite Hcd', Hcd. cbn. intros [_ E]%map_lookup_filter_Some. by apply E.
  - by rewrite Hf', Hf, Hs', Hs.
  - intros Ha. rewrite sent_send, He. unfold w2. cbn. rewrite Ha.
    destruct (key_parse id); [rewrite sent_send; cbn; rewrite Ha, <- app_assoc|]; done.
  - intros Hw. rewrite Hs', Hs. cbn. unfold s. apply not_true_iff_false in Hw. rewrite wants_iff, Hs', Hs, Hi', Hi in Hw.
    cbn in Hw. rewrite Hd in Hw. rewrite bool_decide_eq_true_2 by (apply dec_stable; tauto).
    destruct (invite w); [|done]. exfalso. apply Hw. right. by eexists.
Qed.
End Invariants.

(** ** The endpoint follows trust *)

Section Endpoint.
Context `{KeyCodecs} `{PayloadTypes}.
Implicit Types w : World.

Definition wanted (w : World) : option PublicKey := secret_public <$> endpoint_secret_key w.

(** An invite that expires while no device is trusted ends the use of the
    endpoint without a word to the edge; every other operation tells it. *)
Definition tells_edge (op : Op) (w : World) : Prop :=
  match op with
  | OpRedeem _ _ _ _ now _ =>
      match invite w with Some iv => now < iv_expires_at_ms iv \/ devices (stored w) <> [] | None => True end
  | _ => True
  end.

Lemma wanted_same w w' :
  (devices (stored w') = [] <-> devices (stored w) = []) -> (is_Some (invite w') <-> is_Some (invite w)) ->
  secret_key_text (stored w') = secret_key_text (stored w) -> wanted w' = wanted w.
Proof.
  intros Hd Hi Hk. unfold wanted, endpoint_secret_key, secret_key. rewrite Hk.
  assert (wants_endpoint w' = wants_endpoint w) as ->; [|done].
  apply eq_iff_eq_true. rewrite !wants_iff. tauto.
Qed.

Lemma wanted_fields w w' : stored w' = stored w -> invite w' = invite w -> wanted w' = wanted w.
Proof. intros Hs Hi. apply wanted_same; by rewrite ?Hs, ?Hi. Qed.

Lemma touch_nonempty id now ds ds' : touch id now ds = Some ds' -> ds' <> [] /\ ds <> [].
Proof. intros Ht. apply touch_ids in Ht as E. destruct ds; [done|]. by destruct ds'. Qed.

(** What the edge sees of an operation. *)
Definition seen (w w' : World) : Prop :=
  edge_attached w' = true /\ access w' = access w /\
  exists more, sent w' = sent w ++ more /\ (Reconcile ∈ more \/ wanted w' = wanted w).

Lemma seen_same w w' :
  edge_attached w = true -> edge_attached w' = edge_attached w -> access w' = access w -> sent w' = sent w ->
  wanted w' = wanted w -> seen w w'.
Proof. intros Ha He Hac Hs Hw. split; [congruence|]. split; [done|]. exists []. rewrite app_nil_r. auto. Qed.

Lemma seen_reconciled w w' :
  edge_attached w' = true -> access w' = access w -> sent w' = sent w -> seen w (send Reconcile w').
Proof.
  intros He Hac Hs. split; [by remote|]. split; [by remote|]. exists [Reconcile].
  rewrite sent_send, He, Hs. split; [done|]. left. left.
Qed.

Lemma remove_seen id fault w : edge_attached w = true -> seen w (remove id fault w).2.
Proof.
  intros Ha. unfold remove. split_test; [by apply seen_same|].
  destruct fault; cbn [write store_write fst snd]; [|by apply seen_same..].
  split; [|split].
  - remote. destruct (key_parse id); by remote.
  - remote. destruct (key_parse id); by remote.
  - eexists (match key_parse id with Some k => [Disconnect k] | None => [] end ++ [Reconcile]). remote.
    split; [|left; set_solver]. destruct (key_parse id); remote; rewrite Ha; cbn; by rewrite <- ?app_assoc.
Qed.

Lemma step_seen op w : edge_attached w = true -> tells_edge op w -> seen w (step op w).2.
Proof.
  intros Ha Ht.
  destruct op as [| |device secret name model now fault| | |device now fault| |by_ now key secret fault|fault
                 |code by_ now key fault|id fault]; cbn [step snd tells_edge] in *.
  - by apply seen_same.
  - by apply seen_reconciled.
  - unfold redeem_invite. destruct (invite w) as [iv|] eqn:Hi; [|by apply seen_same]. split_test.
    { cbn [snd]. apply seen_same; try done. destruct Ht as [Ht|Ht]; [lia|]. unfold wanted, endpoint_secret_key.
      rewrite (proj2 (wants_iff w)) by by left. by rewrite (proj2 (wants_iff (set_invite None w))) by by left. }
    destruct (negb _); [by apply seen_same|].
    destruct fault; cbn [write store_write fst snd]; [|by apply seen_same..].
    apply seen_same; try by remote. unfold wanted, endpoint_secret_key.
    rewrite (proj2 (wants_iff w)) by by rewrite Hi; right.
    rewrite (proj2 (wants_iff _)); [by remote|]. left. remote. cbn. by destruct (without _ _).
  - apply seen_same; try done; unfold device_connected; [by remote..|apply wanted_fields; by remote].
  - unfold device_path_changed. destruct (connections w !! _); [|by apply seen_same].
    split_test; [by apply seen_same|]. apply seen_same; try by remote. apply wanted_fields; by remote.
  - unfold device_disconnected. destruct (connections w !! _); [|by apply seen_same].
    split_test; [by apply seen_same|].
    destruct (touch _ _ _) as [ds|] eqn:E; [|apply seen_same; try (by remote); apply wanted_fields; by remote].
    cbn in E. destruct fault; cbn [write store_write fst snd];
      [|apply seen_same; try (by remote); apply wanted_fields; by remote..].
    apply seen_same; try by remote. apply touch_nonempty in E as [E E'].
    apply wanted_same; remote; cbn; [|done..]. tauto.
  - by apply seen_same.
  - unfold create_invite. rewrite Ha. cbn [negb]. destruct (ensure_secret_key _ _) as [k s]. split_test.
    + destruct fault; cbn [write store_write fst snd]; [|by apply seen_same..]. by apply seen_reconciled.
    + cbn [snd]. by apply seen_reconciled.
  - unfold cancel_invite. destruct (invite w); [|by apply seen_same]. unfold forget_identity_if_unused.
    destruct (_ || _); [by apply seen_reconciled|]. destruct fault; by apply seen_reconciled.
  - unfold approve_join_request. destruct (join_decode code) as [join|]; [|by apply seen_same]. rewrite Ha. cbn [negb].
    destruct fault; cbn [write store_write fst snd]; [|by apply seen_same..].
    split; [by remote|]. split; [by remote|]. exists [Reconcile; AnnounceTrust (jc_device join)]. remote. rewrite Ha.
    rewrite <- app_assoc. split; [done|]. left. left.
  - by apply remove_seen.
Qed.

(** The edge when the App Server starts it. *)
Definition started (host : string) (file : TrustFile) : Edge :=
  mkEdge (attach_edge (open host file)) 0 None false 0 [] (mkLinks [] [] [] [] []).

(** Events in which the network does not fail. *)
Definition calm (event : Event) (e : Edge) : Prop :=
  match event with
  | Called op => tells_edge op (world e)
  | Command binds => binds = true
  | EndpointClosed => False
  | CheckFinished outcome binds =>
      binds = true /\ ((record_check outcome (health e)).1 = true -> is_Some (wanted (world e)))
  | _ => True
  end.

Inductive calm_run : Edge -> list Event -> Edge -> Prop :=
| calm_nil e : calm_run e [] e
| calm_snoc e events e1 event :
    calm_run e events e1 -> calm event e1 -> calm_run e (events ++ [event]) (edge_step event e1).

Definition access_of (endpoint : option PublicKey) : RemoteAccessState := if is_some endpoint then On else Off.

Definition in_step (e : Edge) : Prop :=
  edge_attached (world e) = true /\ (handled e <= length (sent (world e)))%nat /\
  access (world e) = access_of (endpoint e) /\
  (Reconcile ∈ drop (handled e) (sent (world e)) \/ endpoint e = wanted (world e)).

Lemma set_access_fields a w :
  stored (set_access a w) = stored w /\ invite (set_access a w) = invite w /\ sent (set_access a w) = sent w /\
  edge_attached (set_access a w) = edge_attached w /\ access (set_access a w) = a.
Proof. unfold set_access. split_test; [done|]. by split_and!; remote. Qed.

Lemma set_access_wanted a w : wanted (set_access a w) = wanted w.
Proof. apply wanted_fields; apply set_access_fields. Qed.

(** A reconciled endpoint is the wanted one. *)
Lemma reconcile_ok e w :
  access w = access_of e ->
  let '(changed, e', w') := reconcile true e w in
  e' = wanted w /\ wanted w' = wanted w /\ access w' = access_of e' /\ sent w' = sent w /\
  edge_attached w' = edge_attached w.
Proof.
  intros Ha. unfold reconcile. fold (wanted w). split_test; [by subst|].
  destruct (wanted w) as [key|] eqn:Hw.
  - pose proof (set_access_fields Starting w) as (_ & _ & H1 & H2 & _).
    pose proof (set_access_fields On (set_access Starting w)) as (_ & _ & H3 & H4 & H5).
    rewrite !set_access_wanted, H3, H1, H4, H2. done.
  - pose proof (set_access_fields Off w) as (_ & _ & H1 & H2 & H3). rewrite set_access_wanted, H1, H2, H3. done.
Qed.

(** An operation on the device list, however it was called. *)
Lemma in_step_seen e e' :
  in_step e -> handled e' = handled e -> endpoint e' = endpoint e -> seen (world e) (world e') -> in_step e'.
Proof.
  intros (Ha & Hh & Hac & Hp) Eh Ee (Ha' & Hac' & more & Hs & Hw). unfold in_step.
  rewrite Eh, Ee, Hs, length_app. split; [done|]. split; [lia|]. split; [congruence|]. rewrite drop_app_le by lia.
  destruct Hp as [Hp|Hp]; [left; set_solver|]. destruct Hw as [Hw|Hw]; [left; set_solver|]. right. congruence.
Qed.

Lemma in_step_command command e :
  in_step e -> sent (world e) !! handled e = Some command -> in_step (next_command (handle_command true command e)).
Proof.
  intros (Ha & Hh & Hac & Hp) Hl. pose proof (lookup_lt_Some _ _ _ Hl) as Hlt.
  rewrite (drop_S _ _ _ Hl), elem_of_cons in Hp. unfold in_step. destruct command as [|d|d]; cbn [handle_command].
  - pose proof (reconcile_ok (endpoint e) (world e) Hac) as Hr.
    destruct (reconcile true (endpoint e) (world e)) as [[changed ep] w']. destruct Hr as (-> & Hw & Hac' & Hs & Ha').
    destruct changed; cbn; rewrite Hs, Hw, Ha'; auto.
  - destruct (is_some (endpoint e)); cbn; (split_and!; [done|lia|done|]); destruct Hp as [[[=]|Hp]|Hp]; auto.
  - cbn. split_and!; [done|lia|done|]. destruct Hp as [[[=]|Hp]|Hp]; auto.
Qed.

Lemma in_step_event event e : in_step e -> calm event e -> in_step (edge_step event e).
Proof.
  intros Hi Hc. pose proof Hi as (Ha & Hh & Hac & Hp).
  destruct event as [op|binds| | |outcome binds| |link|link connection|link id|link now fault]; cbn [edge_step calm] in *.
  - apply (in_step_seen e); [done..|]. by apply step_seen.
  - subst binds. destruct (sent (world e) !! handled e) as [c|] eqn:Hl; [|done]. by apply in_step_command.
  - done.
  - done.
  - destruct (checking e); [|done]. destruct Hc as [-> Hk].
    destruct (record_check outcome (health e)) as [rebind failures]. cbn [fst] in Hk.
    destruct rebind; [|done]. unfold rebind_edge. destruct (endpoint e) as [k|] eqn:He; [|done].
    destruct (Hk eq_refl) as [key Hkey].
    unfold in_step, reconcile. fold (wanted (world e)). rewrite Hkey. rewrite bool_decide_eq_false_2 by done. cbn.
    pose proof (set_access_fields Starting (world e)) as (_ & _ & H1 & H2 & _).
    pose proof (set_access_fields On (set_access Starting (world e))) as (_ & _ & H3 & H4 & H5).
    rewrite !set_access_wanted, H3, H1, H4, H2, H5. auto.
  - done.
  - unfold serve_arrives. by destruct (is_trusted _ _).
  - unfold serve_registers. split_test; [|done]. apply (in_step_seen e); [done..|].
    apply (step_seen (OpConnected link.1 connection)); done.
  - unfold serve_stream. destruct (is_trusted _ _); [|done]. apply (in_step_seen e); [done..|].
    destruct id as [id|]; [by apply (step_seen (OpNote link.1 id))|by apply seen_same].
  - apply (in_step_seen e); [done..|]. apply (step_seen (OpDisconnected link.1 now fault)); done.
Qed.

(** The endpoint follows trust: once the edge has handled every command, it
    listens under the App Server's identity exactly while a device is trusted or
    an invite is pending, and the state it shows says so.  Assumed are that
    binding succeeds, that no invite is found expired while no device is trusted,
    and that no failed relay check falls between the end of the last use and the
    command that follows it. *)
Theorem endpoint_follows_trust host file events e :
  calm_run (started host file) events e -> handled e = length (sent (world e)) ->
  endpoint e = secret_public <$> endpoint_secret_key (world e) /\
  access (world e) = (if is_some (endpoint e) then On else Off).
Proof.
  intros Hr Hh. assert (in_step e) as (_ & _ & Hac & Hp).
  { remember (started host file) as e0 eqn:E. revert E. clear Hh.
    induction Hr as [e|e events e1 event _ IH Hc]; intros ->; [|apply in_step_event; auto].
    unfold in_step. cbn. split_and!; [done|lia|done|]. left. left. }
  split; [|done]. destruct Hp as [Hp|Hp]; [|done]. rewrite Hh, drop_all in Hp. by apply elem_of_nil in Hp.
Qed.
End Endpoint.

(** ** Instances *)

Module DevicesWitness.
Import PairingWitness.

#[local] Existing Instance string_payloads.

Definition empty : World := open "desk" Missing.
Definition secret : list Z := take INVITE_SECRET_LEN (bytes_of_key KeyB).

(** A device redeems an invite, connects, another joins by its code, the first
    is removed. *)
Definition ops : list Op :=
  [OpAttachEdge; OpCreateInvite "desk" 1000 KeyA KeyB Replaced;
   OpRedeem KeyB secret "Phone" (Some "Pixel"%string) 2000 Replaced;
   OpRedeem KeyA secret "Thief" None 2001 Replaced;
   OpConnected KeyB (mkConnection Direct None); OpNote KeyB "connection-1";
   OpApprove typed "desk" 3000 KeyA Replaced].

Fixpoint play (ops : list Op) (w : World) : list (Op * Outcome) * World :=
  match ops with
  | [] => ([], w)
  | op :: ops => let r := step op w in let rest := play ops r.2 in ((op, r.1) :: rest.1, rest.2)
  end.

Lemma play_run w trace w1 ops : run w trace w1 -> run w (trace ++ (play ops w1).1) (play ops w1).2.
Proof.
  revert trace w1. induction ops as [|op ops IH]; intros trace w1 Hr; cbn; [by rewrite app_nil_r|].
  rewrite cons_middle, app_assoc. apply IH. by constructor.
Qed.

Lemma play_ops ops w : (play ops w).1.*1 = ops.
Proof. revert w. induction ops as [|op ops IH]; intros w; cbn; [done|]. f_equal. apply IH. Qed.

Lemma ops_run : run empty (play ops empty).1 (play ops empty).2.
Proof. exact (play_run empty [] empty ops (run_nil empty)). Qed.

Definition paired : World := (play ops empty).2.

(** The second redemption of the invite was refused. *)
Example spent_invite :
  match (play ops empty).1 !! 3%nat with
  | Some (OpRedeem KeyA _ _ _ _ _, Redeemed (Err NoInvite)) => true
  | _ => false
  end = true.
Proof. vm_compute. reflexivity. Qed.

Lemma trust_is_granted_witness :
  permitted_run (contract empty) (play ops empty).1 (contract paired).
Proof. apply (trust_is_granted empty (play ops empty).1 paired). exact ops_run. Defined.

Lemma no_devices_ok : devices_ok empty.
Proof. split; [split; constructor|done]. Qed.

Lemma ops_text : Forall (fun p => op_text p.1) (play ops empty).1.
Proof.
  assert (Forall op_text ops) as H by (unfold ops; repeat constructor; by vm_compute).
  apply Forall_forall. intros p Hp. rewrite Forall_forall in H. apply H.
  rewrite <- (play_ops ops empty). apply list_elem_of_fmap. eauto.
Qed.

Lemma device_list_is_well_formed_witness : devices_ok paired.
Proof.
  apply (device_list_is_well_formed empty (play ops empty).1 paired); [exact ops_run|exact ops_text|exact no_devices_ok].
Defined.

Lemma ops_whole : Forall (fun p => fault_of p.1 <> FailsAfter) (play ops empty).1.
Proof.
  assert (Forall (fun op => fault_of op <> FailsAfter) ops) as H by (unfold ops; by repeat constructor).
  apply Forall_forall. intros p Hp. rewrite Forall_forall in H. apply H.
  rewrite <- (play_ops ops empty). apply list_elem_of_fmap. eauto.
Qed.

Lemma trust_survives_restart_witness : stored (open (server_name paired) (file paired)) = stored paired.
Proof. apply (trust_survives_restart "desk" Missing (play ops empty).1 paired); [exact ops_run|exact ops_whole]. Defined.

Lemma phone_removable : (remove "key-b" Replaced paired).1 = Ok tt.
Proof. vm_compute. reflexivity. Qed.

Lemma removed_device_is_forgotten_witness :
  let w' := (remove "key-b" Replaced paired).2 in
  (forall other, is_trusted_id other w' = if decide (other = "key-b"%string) then false else is_trusted_id other paired) /\
  connections w' = delete "key-b"%string (connections paired) /\
  (forall connection, connection_devices w' !! connection <> Some "key-b"%string) /\
  file w' = Holding (stored w') /\
  (edge_attached paired = true ->
   sent w' = sent paired ++ (match key_parse "key-b" with Some k => [Disconnect k] | None => [] end) ++ [Reconcile]) /\
  (wants_endpoint w' = false -> secret_key_text (stored w') = None).
Proof. exact (removed_device_is_forgotten "key-b" Replaced paired phone_removable). Defined.

(** The edge binds for the invite and keeps its endpoint for the device. *)
Definition events : list Event :=
  [Command true; Called (OpCreateInvite "desk" 1000 KeyA KeyB Replaced); Command true;
   Called (OpRedeem KeyB secret "Phone" None 2000 Replaced); CheckTimer; CheckFinished (Unreached "timeout") true].

Definition edge_play (events : list Event) : Edge := foldl (fun e ev => edge_step ev e) (started "desk" Missing) events.

Lemma events_calm : calm_run (started "desk" Missing) events (edge_play events).
Proof.
  assert (forall l, (forall n ev, l !! n = Some ev -> calm ev (edge_play (take n l))) ->
                    calm_run (started "desk" Missing) l (edge_play l)) as H.
  { induction l as [|ev l IH] using rev_ind; intros Hc; [constructor|].
    unfold edge_play. rewrite foldl_snoc. constructor.
    - apply IH. intros n ev' Hn. specialize (Hc n ev'). rewrite take_app_le in Hc
        by (apply lookup_lt_Some in Hn; lia). apply Hc. by rewrite lookup_app_l by by apply lookup_lt_Some in Hn.
    - specialize (Hc (length l) ev). rewrite take_app_length in Hc. apply Hc.
      by rewrite lookup_app_r, Nat.sub_diag. }
  apply H. intros n ev Hn. destruct n as [|[|[|[|[|[|n]]]]]]; [injection Hn as <-..|done].
  - done.
  - done.
  - done.
  - vm_compute. by left.
  - done.
  - split; [done|]. vm_compute. discriminate.
Qed.

Lemma endpoint_follows_trust_witness :
  endpoint (edge_play events) = secret_public <$> endpoint_secret_key (world (edge_play events)) /\
  access (world (edge_play events)) = (if is_some (endpoint (edge_play events)) then On else Off).
Proof. apply (endpoint_follows_trust "desk" Missing events (edge_play events)); [exact events_calm|by vm_compute]. Defined.

Example endpoint_is_bound : endpoint (edge_play events) = Some KeyA.
Proof. vm_compute. reflexivity. Qed.

(** A damaged trust file is overwritten by the next invite. *)
Example damaged_file_is_replaced :
  let w := attach_edge (open "desk" Damaged) in
  file w = Damaged /\
  file (create_invite "desk" 0 KeyA KeyB Replaced w).2 = Holding (mkStored (Some (hex (bytes_of_key KeyA))) []).
Proof. vm_compute. split; reflexivity. Qed.

(** An invite found expired leaves the identity in place and the edge untold,
    though nothing uses either. *)
Example expired_invite_keeps_identity :
  let w := (create_invite "desk" 0 KeyA KeyB Replaced (attach_edge empty)).2 in
  let w' := (redeem_invite KeyB secret "Phone" None INVITE_LIFETIME_MS Replaced w).2 in
  wants_endpoint w' = false /\ is_some (secret_key_text (stored w')) = true /\ length (sent w') = length (sent w).
Proof. vm_compute. split_and!; reflexivity. Qed.

(** A failed relay check handled before the removal of the last device: the
    endpoint is gone and the App Server still shows remote access as on. *)
Example rebind_leaves_access_on :
  let e := edge_play (events ++ [Called (OpRemove "key-b" Replaced); CheckTimer; CheckFinished (Unreached "timeout") true;
                                 Command true; Command true]) in
  handled e = length (sent (world e)) /\ endpoint e = None /\ access (world e) = On.
Proof. vm_compute. split_and!; reflexivity. Qed.

(** A write that fails after the file was replaced: the device was refused, and
    is trusted after the next start. *)
Example refused_device_is_trusted_later :
  let w := (create_invite "desk" 0 KeyA KeyB Replaced (attach_edge empty)).2 in
  let r := redeem_invite KeyB secret "Phone" None 1 FailsAfter w in
  r.1 = Err StorageRejection /\ is_trusted KeyB r.2 = false /\ is_trusted KeyB (open "desk" (file r.2)) = true.
Proof. vm_compute. split_and!; reflexivity. Qed.
End DevicesWitness.
