(* ===== verification/Methods.v ===== *)
(** * Method names

    The names of the client methods ([methods/names.rs] of the protocol crate) and
    the two halves of the routing table of [protocol_edge/routing.rs]: the methods
    the gateway answers itself and those it hands to a product handler. *)

From S2P Require Import Prelude.

Definition FILE_VIEWER_LIST_DIRECTORY : string := "fileViewer/listDirectory".
Definition FILE_VIEWER_SEARCH : string := "fileViewer/search".
Definition FILE_VIEWER_EXISTING_FILES : string := "fileViewer/existingFiles".
Definition FILE_VIEWER_CHANGES : string := "fileViewer/changes".
Definition FILE_VIEWER_DIFF : string := "fileViewer/diff".
Definition CLIENT_PROBE : string := "client/probe".
Definition CLIENT_INITIALIZE : string := "client/initialize".
Definition CLIENT_CAPABILITIES_CHANGED : string := "client/capabilitiesChanged".
Definition CLIENT_HEARTBEAT : string := "client/heartbeat".
Definition CLIENT_DETACH : string := "client/detach".
Definition CLIENT_UPDATE_SHUTDOWN_PREPARE : string := "client/updateShutdownPrepare".
Definition CLIENT_UPDATE_SHUTDOWN_COMMIT : string := "client/updateShutdownCommit".
Definition CLIENT_UPDATE_SHUTDOWN_ABORT : string := "client/updateShutdownAbort".
Definition CLIENT_REPLACEMENT_IMPACT : string := "client/replacementImpact".
Definition PENDING_REQUEST_RESOLVE : string := "pendingRequest/resolve".
Definition STATE_SUBSCRIBE : string := "state/subscribe".
Definition STATE_UNSUBSCRIBE : string := "state/unsubscribe".
Definition DIAGNOSTICS_GET_RUNTIME : string := "diagnostics/getRuntime".
Definition DIAGNOSTICS_RECORD_CLIENT_EVENTS : string := "diagnostics/recordClientEvents".
Definition DIAGNOSTICS_LIST_SUPPORT_EXPORT : string := "diagnostics/listSupportExport".
Definition DIAGNOSTICS_CREATE_SUPPORT_EXPORT : string := "diagnostics/createSupportExport".
Definition SUPPORT_RECOVER_STUCK_SESSIONS : string := "support/recoverStuckSessions".
Definition AGENT_PROBE : string := "agent/probe".
Definition AGENT_AUTHENTICATE : string := "agent/authenticate".
Definition AGENT_CANCEL_AUTHENTICATE : string := "agent/cancelAuthenticate".
Definition AGENT_LOGOUT : string := "agent/logout".
Definition AGENT_REFRESH_ACCOUNT_LIMITS : string := "agent/refreshAccountLimits".
Definition AGENT_LIST_SESSIONS : string := "agent/listSessions".
Definition AGENT_CREATE_CUSTOM : string := "agent/createCustom".
Definition AGENT_UPDATE_CUSTOM_METADATA : string := "agent/updateCustomMetadata".
Definition AGENT_REPLACE_CUSTOM : string := "agent/replaceCustom".
Definition AGENT_DELETE_CUSTOM : string := "agent/deleteCustom".
Definition AGENT_SET_ENABLED : string := "agent/setEnabled".
Definition SETTINGS_GET_AGENT_DETAILS : string := "settings/getAgentDetails".
Definition SETTINGS_GET_MCP_SERVERS : string := "settings/getMcpServers".
Definition MCP_GET_SERVER_DETAILS : string := "mcp/getServerDetails".
Definition MCP_CREATE_SERVER : string := "mcp/createServer".
Definition MCP_UPDATE_SERVER : string := "mcp/updateServer".
Definition MCP_DELETE_SERVER : string := "mcp/deleteServer".
Definition MCP_SET_SERVER_ENABLED : string := "mcp/setServerEnabled".
Definition SETTINGS_GET_SKILLS : string := "settings/getSkills".
Definition SETTINGS_GET_SKILL_DETAILS : string := "settings/getSkillDetails".
Definition SETTINGS_GET_PREFERENCES : string := "settings/getPreferences".
Definition SETTINGS_UPDATE_PREFERENCES : string := "settings/updatePreferences".
Definition SETTINGS_UPDATE_NEW_TASK_DEFAULTS : string := "settings/updateNewTaskDefaults".
Definition SETTINGS_GET_RUNTIME : string := "settings/getRuntime".
Definition SETTINGS_UPDATE_RUNTIME : string := "settings/updateRuntime".
Definition SETTINGS_RESET_TASK_HISTORY : string := "settings/resetTaskHistory".
Definition DEVICES_CREATE_INVITE : string := "devices/createInvite".
Definition DEVICES_CANCEL_INVITE : string := "devices/cancelInvite".
Definition DEVICES_PREVIEW_JOIN_REQUEST : string := "devices/previewJoinRequest".
Definition DEVICES_APPROVE_JOIN_REQUEST : string := "devices/approveJoinRequest".
Definition DEVICES_REMOVE : string := "devices/remove".
Definition TERMINALS_OPEN : string := "terminals/open".
Definition TERMINALS_ATTACH : string := "terminals/attach".
Definition TERMINALS_CLOSE : string := "terminals/close".
Definition ATTACHMENT_LIST_ROOTS : string := "attachment/listRoots".
Definition ATTACHMENT_LIST_DIRECTORY : string := "attachment/listDirectory".
Definition ATTACHMENT_CREATE_FILE_REFERENCE : string := "attachment/createFileReference".
Definition ATTACHMENT_CREATE_LOCAL_FILE_REFERENCES : string := "attachment/createLocalFileReferences".
Definition ATTACHMENT_CREATE_PASTED_IMAGE : string := "attachment/createPastedImage".
Definition ATTACHMENT_CREATE_EMBEDDED_CANDIDATE : string := "attachment/createEmbeddedCandidate".
Definition ATTACHMENT_CONFIRM_EMBEDDED : string := "attachment/confirmEmbedded".
Definition ATTACHMENT_REFRESH_HANDLES : string := "attachment/refreshHandles".
Definition ATTACHMENT_RELEASE : string := "attachment/release".
Definition ATTACHMENT_REVEAL : string := "attachment/reveal".
Definition ATTACHMENT_REVEAL_SENT : string := "attachment/revealSent".
Definition SHELL_RESOLVE_FILE_REVEAL : string := "shell/resolveFileReveal".
Definition WORKSPACE_LIST_ROOTS : string := "workspace/listRoots".
Definition WORKSPACE_LIST_DIRECTORY : string := "workspace/listDirectory".
Definition PROJECT_ADD : string := "project/add".
Definition PROJECT_RENAME : string := "project/rename".
Definition PROJECT_REMOVE : string := "project/remove".
Definition PROJECT_REFRESH : string := "project/refresh".
Definition WORKTREE_REFRESH : string := "worktree/refresh".
Definition WORKTREE_CREATE : string := "worktree/create".
Definition WORKTREE_RECREATE : string := "worktree/recreate".
Definition WORKTREE_REMOVAL_PREFLIGHT : string := "worktree/removalPreflight".
Definition WORKTREE_REMOVE : string := "worktree/remove".
Definition WORKTREE_RENAME : string := "worktree/rename".
Definition WORKTREE_RESOLVE_FOLDER : string := "worktree/resolveFolder".
Definition WORKTREE_LINKED_TASKS : string := "worktree/linkedTasks".
Definition TASK_ACQUIRE_IN_WORKTREE : string := "task/acquireInWorktree".
Definition TASK_ACQUIRE : string := "task/acquire".
Definition TASK_SEARCH_FILES : string := "task/searchFiles".
Definition TASK_ADOPT_NATIVE_SESSION : string := "task/adoptNativeSession".
Definition TASK_QUEUE_APPEND : string := "task/queueAppend".
Definition TASK_QUEUE_REMOVE : string := "task/queueRemove".
Definition TASK_QUEUE_TAKE : string := "task/queueTake".
Definition TASK_QUEUE_MOVE : string := "task/queueMove".
Definition TASK_QUEUE_RESUME : string := "task/queueResume".
Definition TASK_SEND : string := "task/send".
Definition TASK_RESOLVE_CONFIG_PREFERENCES : string := "task/resolveConfigPreferences".
Definition TASK_SET_CONFIG_OPTION : string := "task/setConfigOption".
Definition TASK_SET_PERMISSION_POLICY : string := "task/setPermissionPolicy".
Definition TASK_SET_TITLE : string := "task/setTitle".
Definition TASK_SET_PINNED : string := "task/setPinned".
Definition TASK_CLOSE_PLAN : string := "task/closePlan".
Definition TASK_TOOL_IMAGE_PREVIEW : string := "task/toolImagePreview".
Definition TASK_IMAGE : string := "task/image".
Definition FILE_VIEWER_OPEN : string := "fileViewer/open".
Definition FILE_VIEWER_OPEN_FROM_HANDLE : string := "fileViewer/openFromHandle".
Definition FILE_VIEWER_REFRESH : string := "fileViewer/refresh".
Definition FILE_VIEWER_RELEASE : string := "fileViewer/release".
Definition TASK_CANCEL : string := "task/cancel".
Definition TASK_STOP_BACKGROUND_COMMAND : string := "task/stopBackgroundCommand".
Definition TASK_STOP_SUBAGENT : string := "task/stopSubagent".
Definition TASK_OPEN : string := "task/open".
Definition TASK_RELOAD_NATIVE_SESSION : string := "task/reloadNativeSession".
Definition TASK_MARK_READ : string := "task/markRead".
Definition TASK_CHAT_PAGE : string := "task/chatPage".
Definition TASK_COMPOSER_HISTORY : string := "task/composerHistory".
Definition TASK_LIST : string := "task/list".
Definition TASK_NAVIGATION_REFRESH : string := "taskNavigation/refresh".
Definition TASK_ATTENTION_WAIT : string := "taskAttention/wait".
Definition TASK_NAVIGATION_LOAD_MORE : string := "taskNavigation/loadMore".
Definition NATIVE_SESSION_ARCHIVE : string := "nativeSession/archive".
Definition NATIVE_SESSION_SET_TITLE : string := "nativeSession/setTitle".
Definition NATIVE_SESSION_SET_PINNED : string := "nativeSession/setPinned".
Definition NATIVE_SESSION_RESTORE : string := "nativeSession/restore".
Definition NATIVE_SESSION_DELETE : string := "nativeSession/delete".
Definition NATIVE_SESSION_FORK : string := "nativeSession/fork".
Definition TASK_RELEASE : string := "task/release".
Definition TASK_ARCHIVE : string := "task/archive".
Definition TASK_ARCHIVE_OLDER : string := "task/archiveOlder".
Definition TASK_RESTORE : string := "task/restore".

Definition CLIENT_METHODS : list string :=
  [CLIENT_PROBE; CLIENT_INITIALIZE; CLIENT_CAPABILITIES_CHANGED; CLIENT_HEARTBEAT; CLIENT_DETACH;
   CLIENT_UPDATE_SHUTDOWN_PREPARE; CLIENT_UPDATE_SHUTDOWN_COMMIT; CLIENT_UPDATE_SHUTDOWN_ABORT;
   CLIENT_REPLACEMENT_IMPACT; PENDING_REQUEST_RESOLVE; STATE_SUBSCRIBE; STATE_UNSUBSCRIBE;
   DIAGNOSTICS_GET_RUNTIME; DIAGNOSTICS_RECORD_CLIENT_EVENTS; DIAGNOSTICS_LIST_SUPPORT_EXPORT;
   DIAGNOSTICS_CREATE_SUPPORT_EXPORT; SUPPORT_RECOVER_STUCK_SESSIONS; AGENT_PROBE; AGENT_AUTHENTICATE;
   AGENT_CANCEL_AUTHENTICATE; AGENT_LOGOUT; AGENT_REFRESH_ACCOUNT_LIMITS; AGENT_LIST_SESSIONS;
   AGENT_CREATE_CUSTOM; AGENT_UPDATE_CUSTOM_METADATA; AGENT_REPLACE_CUSTOM; AGENT_DELETE_CUSTOM;
   AGENT_SET_ENABLED; SETTINGS_GET_AGENT_DETAILS; SETTINGS_GET_MCP_SERVERS; MCP_GET_SERVER_DETAILS;
   MCP_CREATE_SERVER; MCP_UPDATE_SERVER; MCP_DELETE_SERVER; MCP_SET_SERVER_ENABLED; SETTINGS_GET_SKILLS;
   SETTINGS_GET_SKILL_DETAILS; SETTINGS_GET_PREFERENCES; SETTINGS_UPDATE_PREFERENCES;
   SETTINGS_UPDATE_NEW_TASK_DEFAULTS; SETTINGS_GET_RUNTIME; SETTINGS_UPDATE_RUNTIME;
   SETTINGS_RESET_TASK_HISTORY; DEVICES_CREATE_INVITE; DEVICES_CANCEL_INVITE; DEVICES_PREVIEW_JOIN_REQUEST;
   DEVICES_APPROVE_JOIN_REQUEST; DEVICES_REMOVE; TERMINALS_OPEN; TERMINALS_ATTACH; TERMINALS_CLOSE;
   ATTACHMENT_LIST_ROOTS; ATTACHMENT_LIST_DIRECTORY; ATTACHMENT_CREATE_FILE_REFERENCE;
   ATTACHMENT_CREATE_LOCAL_FILE_REFERENCES; ATTACHMENT_CREATE_PASTED_IMAGE;
   ATTACHMENT_CREATE_EMBEDDED_CANDIDATE; ATTACHMENT_CONFIRM_EMBEDDED; ATTACHMENT_REFRESH_HANDLES;
   ATTACHMENT_RELEASE; ATTACHMENT_REVEAL; ATTACHMENT_REVEAL_SENT; SHELL_RESOLVE_FILE_REVEAL;
   WORKSPACE_LIST_ROOTS; WORKSPACE_LIST_DIRECTORY; PROJECT_ADD; PROJECT_RENAME; PROJECT_REMOVE; PROJECT_REFRESH;
   WORKTREE_REFRESH; WORKTREE_CREATE; WORKTREE_RECREATE; WORKTREE_REMOVAL_PREFLIGHT; WORKTREE_REMOVE;
   WORKTREE_RENAME; WORKTREE_RESOLVE_FOLDER; WORKTREE_LINKED_TASKS; TASK_ACQUIRE_IN_WORKTREE; TASK_ACQUIRE;
   TASK_SEARCH_FILES; TASK_ADOPT_NATIVE_SESSION; TASK_QUEUE_APPEND; TASK_QUEUE_REMOVE; TASK_QUEUE_TAKE;
   TASK_QUEUE_MOVE; TASK_QUEUE_RESUME; TASK_SEND; TASK_SET_CONFIG_OPTION; TASK_RESOLVE_CONFIG_PREFERENCES;
   TASK_SET_PERMISSION_POLICY; TASK_SET_TITLE; TASK_SET_PINNED; TASK_CLOSE_PLAN; TASK_TOOL_IMAGE_PREVIEW;
   TASK_IMAGE; FILE_VIEWER_LIST_DIRECTORY; FILE_VIEWER_SEARCH; FILE_VIEWER_EXISTING_FILES; FILE_VIEWER_CHANGES;
   FILE_VIEWER_DIFF; FILE_VIEWER_OPEN; FILE_VIEWER_OPEN_FROM_HANDLE; FILE_VIEWER_REFRESH; FILE_VIEWER_RELEASE;
   TASK_CANCEL; TASK_STOP_BACKGROUND_COMMAND; TASK_STOP_SUBAGENT; TASK_OPEN; TASK_MARK_READ; TASK_CHAT_PAGE;
   TASK_COMPOSER_HISTORY; TASK_LIST; TASK_NAVIGATION_REFRESH; TASK_NAVIGATION_LOAD_MORE; TASK_ATTENTION_WAIT;
   NATIVE_SESSION_ARCHIVE; NATIVE_SESSION_SET_TITLE; NATIVE_SESSION_SET_PINNED; NATIVE_SESSION_RESTORE;
   NATIVE_SESSION_FORK; NATIVE_SESSION_DELETE; TASK_RELEASE; TASK_ARCHIVE; TASK_ARCHIVE_OLDER; TASK_RESTORE].

(** The arms of the routing table that [Gateway] models. *)
Definition GATEWAY_METHODS : list string :=
  [CLIENT_PROBE; CLIENT_INITIALIZE; CLIENT_CAPABILITIES_CHANGED; CLIENT_HEARTBEAT; CLIENT_DETACH;
   CLIENT_UPDATE_SHUTDOWN_PREPARE; CLIENT_UPDATE_SHUTDOWN_COMMIT; CLIENT_UPDATE_SHUTDOWN_ABORT;
   CLIENT_REPLACEMENT_IMPACT; PENDING_REQUEST_RESOLVE; STATE_SUBSCRIBE; STATE_UNSUBSCRIBE].

(** The arms that lead to product handlers. *)
Definition PRODUCT_METHODS : list string :=
  [FILE_VIEWER_LIST_DIRECTORY; FILE_VIEWER_SEARCH; FILE_VIEWER_EXISTING_FILES; FILE_VIEWER_CHANGES;
   FILE_VIEWER_DIFF; DIAGNOSTICS_GET_RUNTIME; DIAGNOSTICS_RECORD_CLIENT_EVENTS; DIAGNOSTICS_LIST_SUPPORT_EXPORT;
   DIAGNOSTICS_CREATE_SUPPORT_EXPORT; SUPPORT_RECOVER_STUCK_SESSIONS; AGENT_PROBE; AGENT_AUTHENTICATE;
   AGENT_CANCEL_AUTHENTICATE; AGENT_LOGOUT; AGENT_REFRESH_ACCOUNT_LIMITS; AGENT_LIST_SESSIONS;
   AGENT_CREATE_CUSTOM; AGENT_UPDATE_CUSTOM_METADATA; AGENT_REPLACE_CUSTOM; AGENT_DELETE_CUSTOM;
   AGENT_SET_ENABLED; SETTINGS_GET_AGENT_DETAILS; SETTINGS_GET_MCP_SERVERS; MCP_GET_SERVER_DETAILS;
   MCP_CREATE_SERVER; MCP_UPDATE_SERVER; MCP_DELETE_SERVER; MCP_SET_SERVER_ENABLED; SETTINGS_GET_SKILLS;
   SETTINGS_GET_SKILL_DETAILS; SETTINGS_GET_PREFERENCES; SETTINGS_UPDATE_PREFERENCES;
   SETTINGS_UPDATE_NEW_TASK_DEFAULTS; SETTINGS_GET_RUNTIME; SETTINGS_UPDATE_RUNTIME;
   SETTINGS_RESET_TASK_HISTORY; DEVICES_CREATE_INVITE; DEVICES_CANCEL_INVITE; DEVICES_PREVIEW_JOIN_REQUEST;
   DEVICES_APPROVE_JOIN_REQUEST; DEVICES_REMOVE; TERMINALS_OPEN; TERMINALS_ATTACH; TERMINALS_CLOSE;
   ATTACHMENT_LIST_ROOTS; ATTACHMENT_LIST_DIRECTORY; ATTACHMENT_CREATE_FILE_REFERENCE;
   ATTACHMENT_CREATE_LOCAL_FILE_REFERENCES; ATTACHMENT_CREATE_PASTED_IMAGE;
   ATTACHMENT_CREATE_EMBEDDED_CANDIDATE; ATTACHMENT_CONFIRM_EMBEDDED; ATTACHMENT_REFRESH_HANDLES;
   ATTACHMENT_RELEASE; ATTACHMENT_REVEAL; ATTACHMENT_REVEAL_SENT; SHELL_RESOLVE_FILE_REVEAL;
   WORKSPACE_LIST_ROOTS; WORKSPACE_LIST_DIRECTORY; PROJECT_ADD; PROJECT_RENAME; PROJECT_REMOVE; PROJECT_REFRESH;
   WORKTREE_REFRESH; WORKTREE_CREATE; WORKTREE_RECREATE; WORKTREE_REMOVAL_PREFLIGHT; WORKTREE_REMOVE;
   WORKTREE_RENAME; WORKTREE_RESOLVE_FOLDER; WORKTREE_LINKED_TASKS; TASK_ACQUIRE_IN_WORKTREE; TASK_ACQUIRE;
   TASK_SEARCH_FILES; TASK_ADOPT_NATIVE_SESSION; TASK_QUEUE_APPEND; TASK_QUEUE_REMOVE; TASK_QUEUE_TAKE;
   TASK_QUEUE_MOVE; TASK_QUEUE_RESUME; TASK_SEND; TASK_RESOLVE_CONFIG_PREFERENCES; TASK_SET_CONFIG_OPTION;
   TASK_SET_PERMISSION_POLICY; TASK_SET_TITLE; TASK_SET_PINNED; TASK_CLOSE_PLAN; TASK_TOOL_IMAGE_PREVIEW;
   TASK_IMAGE; FILE_VIEWER_OPEN; FILE_VIEWER_OPEN_FROM_HANDLE; FILE_VIEWER_REFRESH; FILE_VIEWER_RELEASE;
   TASK_CANCEL; TASK_STOP_BACKGROUND_COMMAND; TASK_STOP_SUBAGENT; TASK_OPEN; TASK_RELOAD_NATIVE_SESSION;
   TASK_MARK_READ; TASK_CHAT_PAGE; TASK_COMPOSER_HISTORY; TASK_LIST; TASK_NAVIGATION_REFRESH;
   TASK_ATTENTION_WAIT; TASK_NAVIGATION_LOAD_MORE; NATIVE_SESSION_ARCHIVE; NATIVE_SESSION_SET_TITLE;
   NATIVE_SESSION_SET_PINNED; NATIVE_SESSION_RESTORE; NATIVE_SESSION_DELETE; NATIVE_SESSION_FORK; TASK_RELEASE;
   TASK_ARCHIVE; TASK_ARCHIVE_OLDER; TASK_RESTORE].

(** Every declared method has its own arm and no name has two arms; one method
    that is routed is missing from the declared list. *)
Lemma routing_table_is_complete :
  NoDup (GATEWAY_METHODS ++ PRODUCT_METHODS) /\
  (forall m, m ∈ GATEWAY_METHODS ++ PRODUCT_METHODS <->
     m ∈ CLIENT_METHODS \/ m = TASK_RELOAD_NATIVE_SESSION) /\
  TASK_RELOAD_NATIVE_SESSION ∉ CLIENT_METHODS.
Proof.
  split; [apply (bool_decide_unpack _); vm_compute; exact I|].
  split; [|apply (bool_decide_unpack _); vm_compute; exact I]. intros m.
  assert (Hl : Forall (fun m => m ∈ GATEWAY_METHODS ++ PRODUCT_METHODS) (TASK_RELOAD_NATIVE_SESSION :: CLIENT_METHODS) /\
               Forall (fun m => m ∈ TASK_RELOAD_NATIVE_SESSION :: CLIENT_METHODS) (GATEWAY_METHODS ++ PRODUCT_METHODS))
    by (split; apply (bool_decide_unpack _); vm_compute; exact I).
  rewrite !Forall_forall in Hl. destruct Hl as [H1 H2].
  split; [intros [->|?]%H2%elem_of_cons; auto|intros [?| ->]; apply H1, elem_of_cons; auto].
Qed.
