(* ===== verification/Gateway.v ===== *)
(** * The gateway

    Models the core of [protocol_edge/]: [routing.rs] (admission of a message),
    [protocol_edge.rs] (initialize, subscribe, unsubscribe), [client_handlers.rs]
    (heartbeat, detach, capabilities and the update barrier),
    [server_request_handlers.rs] (answers, expiry, shutdown, draining),
    [responses.rs] and the gateway's part of [shared_gateway.rs] and
    [task_handlers/publication.rs].  It composes the client hub, the process
    lifecycle, the state stream, the request runtime and the Project registry.

    One mutex serializes the gateway, so each operation is atomic.  A request of a
    method that belongs to a product workflow (Tasks, worktrees, settings and the
    like) is admitted here and handed on as [Product]; what such a workflow does
    to the gateway is to publish ([OpPublish]) or to open requests.  Effects on
    workflow objects are recorded in the order they happen ([g_calls]).  What a
    handler reads from outside the gateway (snapshots, blockers of a shutdown,
    open terminals) is the [Env] of the call.  Decoding of parameters by serde is
    the class [GatewayCodecs]. *)

From S2P Require Import Prelude Protocol Methods ClientLifecycle TaskChangeLog Chat Records Questions ServerRequests RequestRuntime.
From S2P Require Import StateSync Projects.
Import Form.

Local Open Scope Z_scope.

Definition APP_SERVER_PROTOCOL_VERSION : ProtocolVersion := mkVersion 3 0.

(** ** Data *)

(** The params of the modelled methods; decoding gives them or the text of the error. *)
Inductive PendingRequestResolution :=
| ResolvePermission (option_id : string)
| ResolveQuestion (response : QuestionRequestResponse).

Record UpdateShutdownBarrier := mkBarrier { b_owner : string; b_attempt_id : string; b_committed : bool }.

Inductive UpdateShutdownBlockedReason := ActiveWork | OtherClients.
Inductive UpdateShutdownPrepareResult := Ready | Blocked (reason : UpdateShutdownBlockedReason).

Record ShutdownBlockers := mkBlockers { active_turns : Z; pending_task_requests : Z }.

Record AppServerProbeFacts := mkFacts { pf_fingerprint : string; pf_protocol_version : string; pf_app_version : string }.

(** Calls of the gateway on workflow objects. *)
Inductive WorkflowCall :=
| KeepAlive (client : string)
| DiscardResources (client : string)
| ReleaseLeases (client : string)
| ReleaseViewer (client : string)
| RefreshCatalog
| StopServices.

Section Gateway.
Context `{PT : PayloadTypes} `{CP : ChatPayloads} `{FC : FormCodecs}.
Context (parse_permission : JsonValue -> option Protocol.PermissionRequestParams)
        (parse_question : JsonValue -> option Protocol.QuestionRequestParams)
        (encode_form : Form.QuestionRequestParams -> JsonValue)
        (json_len : TaskChanges -> option Z).

Class GatewayCodecs := {
  decode_probe : JsonValue -> result unit string;
  decode_initialize : JsonValue -> result InitializeParams string;
  decode_subscribe : JsonValue -> result (SubscriptionScope * option Z) string;
  decode_unsubscribe : JsonValue -> result SubscriptionScope string;
  decode_capabilities : JsonValue -> result (option ClientCapabilities * option (list string)) string;
  decode_heartbeat : JsonValue -> result unit string;
  decode_detach : JsonValue -> result unit string;
  decode_impact : JsonValue -> result unit string;
  decode_prepare : JsonValue -> result (string * bool) string;
  decode_commit : JsonValue -> result string string;
  decode_abort : JsonValue -> result string string;
  decode_resolve : JsonValue -> result (string * PendingRequestResolution) string;
}.

Inductive GatewayResult :=
| ResProbe (facts : AppServerProbeFacts) (lifecycle : App.LifecycleState)
| ResInitialize (snapshot : ClientSnapshot)
| ResCapabilities (projects : ProjectCollectionSnapshot)
| ResHeartbeat
| ResDetach
| ResImpact (other_clients : list AttachedClientSummary) (turns requests terminals : Z)
| ResPrepare (r : UpdateShutdownPrepareResult)
| ResCommit
| ResAbort
| ResResolve
| ResSubscribe (r : StateSubscribeResult)
| ResUnsubscribe (scope : SubscriptionScope)
| ResNull.

(** [meta] is the client request id that the envelope of a response repeats. *)
Inductive GatewayResponse :=
| GResult (r : GatewayResult) (meta : option string)
| GError (e : ProtocolError) (meta : option string).

Inductive GatewayOutcome :=
| Respond (connection_id id : string) (response : GatewayResponse)
    (events : list StateEventDelivery) (server_requests : list (ServerRequestDelivery (Value := JsonValue)))
| Noop
| Product (method : string) (params : JsonValue).

Inductive InboundProtocolMessage :=
| ClientRequest (id method : string) (params : JsonValue) (meta : option string)
| ClientNotification (method : string) (params : JsonValue)
| ClientResponse (request_id : string) (answer : ServerRequestAnswer (Value := JsonValue)).

(** What a handler reads from outside the gateway at the time of the call; the
    snapshot of a client carries the requests that are pending for it. *)
Record Env := mkEnv {
  env_provider : SnapshotProvider;
  env_client_snapshot : ClientContext -> string -> result ClientSnapshot ProtocolError;
  env_with_requests : ClientSnapshot -> list PendingRequestSnapshot -> ClientSnapshot;
  env_task_with_requests : TaskSnapshot -> list PendingRequestSnapshot -> TaskSnapshot;
  env_task_id : TaskSnapshot -> string;
  env_projects : Registry -> result ProjectCollectionSnapshot ProtocolError;
  env_navigation : TaskNavigationSection -> option TaskNavigationSnapshot;
  env_blockers : option ShutdownBlockers;
  env_terminals : Z;
  env_facts : AppServerProbeFacts;
}.

Record Gateway := mkGateway {
  g_hub : ClientHub;
  g_lifecycle : App.LifecycleState;
  g_stream : StateStream;
  g_requests : Runtime;
  g_pending : list StateEventDelivery;
  g_roots : Registry;
  g_entries_generation : Z;
  g_barrier : option UpdateShutdownBarrier;
  g_calls : list WorkflowCall;
}.

Definition new_gateway (policy : ClientLivenessPolicy) (root : string) (roots : Registry) : Gateway :=
  mkGateway (ClientLifecycle.new policy) App.initial (StateSync.new root) new_runtime [] roots 0 None [].

Definition set_hub (x : ClientHub) (g : Gateway) : Gateway :=
  mkGateway x (g_lifecycle g) (g_stream g) (g_requests g) (g_pending g) (g_roots g) (g_entries_generation g) (g_barrier g) (g_calls g).
Definition set_lifecycle (x : App.LifecycleState) (g : Gateway) : Gateway :=
  mkGateway (g_hub g) x (g_stream g) (g_requests g) (g_pending g) (g_roots g) (g_entries_generation g) (g_barrier g) (g_calls g).
Definition set_stream (x : StateStream) (g : Gateway) : Gateway :=
  mkGateway (g_hub g) (g_lifecycle g) x (g_requests g) (g_pending g) (g_roots g) (g_entries_generation g) (g_barrier g) (g_calls g).
Definition set_requests (x : Runtime) (g : Gateway) : Gateway :=
  mkGateway (g_hub g) (g_lifecycle g) (g_stream g) x (g_pending g) (g_roots g) (g_entries_generation g) (g_barrier g) (g_calls g).
Definition set_pending (x : list StateEventDelivery) (g : Gateway) : Gateway :=
  mkGateway (g_hub g) (g_lifecycle g) (g_stream g) (g_requests g) x (g_roots g) (g_entries_generation g) (g_barrier g) (g_calls g).
Definition set_roots (x : Registry) (g : Gateway) : Gateway :=
  mkGateway (g_hub g) (g_lifecycle g) (g_stream g) (g_requests g) (g_pending g) x (g_entries_generation g) (g_barrier g) (g_calls g).
Definition set_generation (x : Z) (g : Gateway) : Gateway :=
  mkGateway (g_hub g) (g_lifecycle g) (g_stream g) (g_requests g) (g_pending g) (g_roots g) x (g_barrier g) (g_calls g).
Definition set_barrier (x : option UpdateShutdownBarrier) (g : Gateway) : Gateway :=
  mkGateway (g_hub g) (g_lifecycle g) (g_stream g) (g_requests g) (g_pending g) (g_roots g) (g_entries_generation g) x (g_calls g).
Definition call (c : WorkflowCall) (g : Gateway) : Gateway :=
  mkGateway (g_hub g) (g_lifecycle g) (g_stream g) (g_requests g) (g_pending g) (g_roots g) (g_entries_generation g) (g_barrier g)
    (g_calls g ++ [c]).

(** ** Responses *)

Definition g_result (conn id : string) (meta : option string) (r : GatewayResult) : GatewayOutcome :=
  Respond conn id (GResult r meta) [] [].
Definition result_with_events_and_server_requests (conn id : string) (meta : option string) (r : GatewayResult)
    (events : list StateEventDelivery) (requests : list (ServerRequestDelivery (Value := JsonValue))) : GatewayOutcome :=
  Respond conn id (GResult r meta) events requests.
Definition result_with_events (conn id : string) (meta : option string) (r : GatewayResult)
    (events : list StateEventDelivery) : GatewayOutcome :=
  Respond conn id (GResult r meta) events [].
Definition g_error (conn id : string) (meta : option string) (e : ProtocolError) : GatewayOutcome :=
  Respond conn id (GError e meta) [] [].

Definition not_initialized (method : string) : ProtocolError :=
  mkProtocolError NotInitialized "client/initialize must succeed before product requests" true
    (Some (mkErrorTarget (Some method) None None)).
Definition invalid_params (error : string) : ProtocolError :=
  mkProtocolError InvalidRequest ("Invalid params: " +:+ error) false (Some (mkErrorTarget None (Some "params"%string) None)).
Definition invalid_update_shutdown_attempt : ProtocolError :=
  mkProtocolError InvalidRequest "Update shutdown attempt id must be between 1 and 128 characters" false None.
Definition update_shutdown_in_progress (method : string) : ProtocolError :=
  mkProtocolError ServerStopping "The App Server is preparing for an application update" true
    (Some (mkErrorTarget (Some method) None None)).
Definition incompatible_protocol (method : string) : ProtocolError :=
  mkProtocolError IncompatibleProtocol "Update OpenAIDE on your computer" false
    (Some (mkErrorTarget (Some method) (Some "protocolVersion"%string) None)).
Definition update_shutdown_readiness_failed : ProtocolError :=
  mkProtocolError Protocol.Internal "Could not determine whether the App Server is ready to update" true None.
Definition replacement_impact_failed : ProtocolError :=
  mkProtocolError Protocol.Internal "Could not determine what replacing the App Server would interrupt" true None.

Definition unsupported_method (method : string) : ProtocolError :=
  mkProtocolError InvalidRequest ("Unsupported method: " +:+ method) false None.

(** ** Publication *)

(** [publish_committed] for the clients of the hub.  [None] does not arise on
    reachable streams. *)
Definition publish (scope : EventScope) (payload : AppServerEventPayload) (g : Gateway) : list StateEventDelivery * Gateway :=
  match publish_committed json_len scope payload (delivery_for (g_hub g)) (g_stream g) with
  | Some (events, stream) => (events, set_stream stream g)
  | None => ([], g)
  end.

Definition root_of (g : Gateway) : string := state_root_id (g_stream g).

Definition publish_navigation_section (env : Env) (acc : list StateEventDelivery * Gateway) (section : TaskNavigationSection)
  : list StateEventDelivery * Gateway :=
  let '(events, g) := acc in
  match env_navigation env section with
  | None => (events, g)
  | Some navigation =>
      let '(more, g) := publish (EventStateRoot (root_of g)) (NavigationReplaced navigation) g in (events ++ more, g)
  end.

Definition publish_navigation_replacement (env : Env) (g : Gateway) : list StateEventDelivery * Gateway :=
  foldl (publish_navigation_section env) ([], set_generation (u64_add (g_entries_generation g) 1) g)
    [SectionTasks; SectionArchive].

Definition publish_project_collection_update (env : Env) (g : Gateway) : option (list StateEventDelivery) * Gateway :=
  match env_projects env (g_roots g) with
  | Err _ => (None, g)
  | Ok projects =>
      let '(events, g) := publish (EventStateRoot (root_of g)) (ProjectCollectionUpdated projects) g in
      let '(more, g) := publish_navigation_replacement env g in
      (Some (events ++ more), g)
  end.

(** [if projects_changed { publish.unwrap_or_default() } else { Vec::new() }]. *)
Definition project_events (changed : bool) (env : Env) (g : Gateway) : list StateEventDelivery * Gateway :=
  if changed then let '(events, g) := publish_project_collection_update env g in (default [] events, g) else ([], g).

Definition queue_project_collection_update (env : Env) (g : Gateway) : Gateway :=
  let '(events, g) := publish_project_collection_update env g in
  match events with Some events => set_pending (g_pending g ++ events) g | None => g end.

Definition publish_task_snapshot_replaced (task_id : string) (g : Gateway) : list StateEventDelivery * Gateway :=
  publish (EventTask (root_of g) task_id) (TaskRequestsUpdated task_id (pending_for_task task_id (broker (g_requests g)))) g.

Definition read_token_for_client (g : Gateway) : string := cursor_read_token (cursors (g_stream g)).

Definition publish_client_snapshot_replaced (env : Env) (ctx : ClientContext) (g : Gateway) : list StateEventDelivery * Gateway :=
  match env_client_snapshot env ctx (read_token_for_client g) with
  | Err _ => ([], g)
  | Ok snapshot =>
      let snapshot := env_with_requests env snapshot (pending_for_client (client_instance_id ctx) (broker (g_requests g))) in
      publish (EventClient (root_of g) (client_instance_id ctx)) (SnapshotReplaced snapshot) g
  end.

Definition publish_request_resolution (env : Env) (ctx : ClientContext) (scope : PendingRequestScope) (g : Gateway)
  : list StateEventDelivery * Gateway :=
  match scope with
  | ScopeTask task_id => publish_task_snapshot_replaced task_id g
  | ScopeClient client =>
      if bool_decide (client = client_instance_id ctx) then publish_client_snapshot_replaced env ctx g else ([], g)
  end.

(** ** Requests to clients *)

Definition responder_scopes (ctx : ClientContext) (g : Gateway) : list ResponderScope :=
  ResponderClient (client_instance_id ctx) ::
  omap (fun scope => match scope with SubTask task_id => Some (ResponderTask task_id) | _ => None end)
    (subscriptions_for_client (client_instance_id ctx) (g_stream g)).

Definition server_request_response_error (outcome : ResponseOutcome (Value := JsonValue)) : ProtocolError :=
  match outcome with
  | InvalidResponse _ _ message => mkProtocolError ValidationFailed message true None
  | UnauthorizedResponder _ _ =>
      mkProtocolError Unauthorized "This client cannot answer that permission request." false None
  | AlreadyResolved _ | UnknownRequest _ | StaleRequest _ _ | ResponseInterrupted _ =>
      mkProtocolError RequestAlreadyResolved "Permission request is no longer answerable." false None
  | ResponseAccepted _ _ _ _ =>
      mkProtocolError Protocol.Internal "server request response was already accepted" false None
  end.

Definition resolution_answer (r : PendingRequestResolution) : ServerRequestAnswer (Value := JsonValue) :=
  match r with
  | ResolvePermission option_id => AnswerResult (json_object [("optionId"%string, JString option_id)])
  | ResolveQuestion response => AnswerResult (encode_response response)
  end.

(** A client without a delivery, at which the source panics, does not arise. *)
Definition deliver_to_responder (ctx : ClientContext) (g : Gateway)
  : list (ServerRequestDelivery (Value := JsonValue)) * Gateway :=
  match delivery_for (g_hub g) (client_instance_id ctx) with
  | None => ([], g)
  | Some d =>
      let '(requests, rt) := runtime_available d (responder_scopes ctx g) (g_requests g) in (requests, set_requests rt g)
  end.

Definition drain_event_deliveries (conn : string) (g : Gateway) : list StateEventDelivery * Gateway :=
  let mine (e : StateEventDelivery) := d_connection (sed_delivery e) = conn in
  (filter mine (g_pending g), set_pending (filter (fun e => ~ mine e) (g_pending g)) g).

Definition drain_server_requests (conn : string) (g : Gateway)
  : list (ServerRequestDelivery (Value := JsonValue)) * Gateway :=
  match context_for_connection conn (g_hub g) with
  | None => ([], g)
  | Some ctx => deliver_to_responder ctx g
  end.

(** ** Handlers *)

Section Handlers.
Context `{GC : GatewayCodecs}.

Definition handle_client_probe (conn id : string) (params : JsonValue) (meta : option string) (env : Env) (g : Gateway)
  : GatewayOutcome * Gateway :=
  match decode_probe params with
  | Err e => (g_error conn id meta (invalid_params e), g)
  | Ok _ => (g_result conn id meta (ResProbe (env_facts env) (g_lifecycle g)), g)
  end.

(** The update barrier at [client/initialize]: a reload of its owner clears it. *)
Definition pass_barrier (client : string) (g : Gateway) : option Gateway :=
  match g_barrier g with
  | None => Some g
  | Some b => if bool_decide (b_owner b = client) then Some (set_barrier None g) else None
  end.

Definition version_accepted (params : InitializeParams) : bool :=
  match init_protocol_version params with
  | Some version => accepts_client APP_SERVER_PROTOCOL_VERSION version
  | None => true
  end.

(** The part of [handle_initialize] after the admission. *)
Definition initialize_client (conn id : string) (params : InitializeParams) (meta : option string) (now : Z) (env : Env) (g : Gateway)
  : GatewayOutcome * Gateway :=
  let '(projects_changed, roots) :=
    replace_client_workspace_roots (init_client_instance_id params) (init_workspace_roots params) (g_roots g) in
  let g := set_roots roots g in
  let '(outcome, hub) := initialize conn params now (g_hub g) in
  let g := set_hub hub g in
  let '(ctx, g) := match outcome with
                   | ReattachedClient ctx => (ctx, call (KeepAlive (client_instance_id ctx)) g)
                   | NewClient ctx => (ctx, call (DiscardResources (client_instance_id ctx)) g)
                   end in
  let '(requests, g) := deliver_to_responder ctx g in
  match env_client_snapshot env ctx (read_token_for_client g) with
  | Err e => (g_error conn id meta e, g)
  | Ok snapshot =>
      let snapshot := env_with_requests env snapshot (pending_for_client (client_instance_id ctx) (broker (g_requests g))) in
      let '(events, g) := project_events projects_changed env g in
      (result_with_events_and_server_requests conn id meta (ResInitialize snapshot) events requests, g)
  end.

Definition handle_initialize (conn id : string) (params : JsonValue) (meta : option string) (now : Z) (env : Env) (g : Gateway)
  : GatewayOutcome * Gateway :=
  match decode_initialize params with
  | Err e => (g_error conn id meta (invalid_params e), g)
  | Ok params =>
      if negb (version_accepted params) then (g_error conn id meta (incompatible_protocol CLIENT_INITIALIZE), g) else
      match pass_barrier (init_client_instance_id params) g with
      | None => (g_error conn id meta (update_shutdown_in_progress CLIENT_INITIALIZE), g)
      | Some g =>
          let '(admission, lifecycle) := App.admit_initialize (g_lifecycle g) in
          let g := set_lifecycle lifecycle g in
          match admission with
          | App.Rejected e => (g_error conn id meta e, g)
          | _ => initialize_client conn id params meta now env g
          end
      end
  end.

Definition add_pending_to_subscription_snapshot (env : Env) (g : Gateway) (snapshot : SubscriptionSnapshot) : SubscriptionSnapshot :=
  let pending task_id := pending_for_task task_id (broker (g_requests g)) in
  match snapshot with
  | SnapTask task => SnapTask (env_task_with_requests env task (pending (env_task_id env task)))
  | SnapTaskResume r =>
      SnapTaskResume (mkResume (rs_task_id r) (rs_known_revision r) (rs_changes r) (rs_history_sync r)
        (pending (rs_task_id r)) (rs_subagents r) (rs_workspace_available r))
  | _ => snapshot
  end.

Definition is_navigation (scope : SubscriptionScope) : bool :=
  match scope with SubTaskNavigation _ _ => true | _ => false end.

Definition handle_subscribe (conn id : string) (params : JsonValue) (meta : option string) (env : Env) (g : Gateway)
  : GatewayOutcome * Gateway :=
  match decode_subscribe params with
  | Err e => (g_error conn id meta (invalid_params e), g)
  | Ok (scope, known_revision) =>
      match context_for_connection conn (g_hub g) with
      | None => (g_error conn id meta (not_initialized STATE_SUBSCRIBE), g)
      | Some ctx =>
          let '(r, stream) :=
            @subscribe_with_membership _ (env_provider env) ctx scope known_revision (g_stream g) in
          let g := set_stream stream g in
          match r with
          | Err e => (g_error conn id meta e, g)
          | Ok (r, added) =>
              let r := mkSubscribeResult (sr_cursor r) (sr_scope r) (add_pending_to_subscription_snapshot env g (sr_snapshot r)) in
              let g := if added && is_navigation (sr_scope r) then call RefreshCatalog g else g in
              match sr_scope r, delivery_for (g_hub g) (client_instance_id ctx) with
              | SubTask task_id, Some d =>
                  let '(requests, rt) := runtime_subscription_added d task_id (g_requests g) in
                  (Respond conn id (GResult (ResSubscribe r) meta) [] requests, set_requests rt g)
              | _, _ => (g_result conn id meta (ResSubscribe r), g)
              end
          end
      end
  end.

Definition handle_unsubscribe (conn id : string) (params : JsonValue) (meta : option string) (g : Gateway)
  : GatewayOutcome * Gateway :=
  match decode_unsubscribe params with
  | Err e => (g_error conn id meta (invalid_params e), g)
  | Ok scope =>
      match context_for_connection conn (g_hub g) with
      | None => (g_error conn id meta (not_initialized STATE_UNSUBSCRIBE), g)
      | Some ctx =>
          let '(result, stream) := unsubscribe ctx scope (g_stream g) in
          let g := set_stream stream g in
          let g := match scope with
                   | SubTask task_id =>
                       set_requests (runtime_subscription_removed (client_instance_id ctx) task_id (g_requests g)).2 g
                   | _ => g
                   end in
          (g_result conn id meta (ResUnsubscribe result), g)
      end
  end.

(** *** Clients *)

Definition activity (conn : string) (now : Z) (g : Gateway) : bool * Gateway :=
  let '(client, hub) := observe_connection_activity conn now (g_hub g) in
  let g := set_hub hub g in
  match client with Some client => (true, call (KeepAlive client) g) | None => (false, g) end.

Definition handle_client_capabilities_changed (conn id : string) (params : JsonValue) (meta : option string) (env : Env) (g : Gateway)
  : GatewayOutcome * Gateway :=
  match decode_capabilities params with
  | Err e => (g_error conn id meta (invalid_params e), g)
  | Ok (caps, roots) =>
      match context_for_connection conn (g_hub g) with
      | None => (g_error conn id meta (not_initialized CLIENT_CAPABILITIES_CHANGED), g)
      | Some ctx =>
          let client := client_instance_id ctx in
          let g := match caps with
                   | Some caps => set_hub (update_capabilities client caps (g_hub g)).2 g
                   | None => g
                   end in
          let '(projects_changed, g) :=
            match roots with
            | Some roots =>
                let '(changed, r) := replace_client_workspace_roots client roots (g_roots g) in (changed, set_roots r g)
            | None => (false, g)
            end in
          match env_projects env (g_roots g) with
          | Err e => (g_error conn id meta e, g)
          | Ok projects =>
              let '(events, g) := project_events projects_changed env g in
              (result_with_events conn id meta (ResCapabilities projects) events, g)
          end
      end
  end.

Definition handle_client_heartbeat (conn id : string) (params : JsonValue) (meta : option string) (g : Gateway)
  : GatewayOutcome * Gateway :=
  match decode_heartbeat params with
  | Err e => (g_error conn id meta (invalid_params e), g)
  | Ok _ =>
      let '(events, g) := drain_event_deliveries conn g in
      (result_with_events conn id meta ResHeartbeat events, g)
  end.

Definition begin_draining_after_last_client (last_client : bool) (g : Gateway) : Gateway :=
  if last_client then set_lifecycle (App.begin_draining (g_lifecycle g)) g else g.

(** What every way of losing a client does before its workspace roots go. *)
Definition forget_client (client : string) (g : Gateway) : Gateway :=
  let g := set_requests (runtime_unavailable client (g_requests g)).2 g in
  let g := set_stream (drop_client_subscriptions client (g_stream g)) g in
  call (ReleaseLeases client) g.

Definition remove_roots (client : string) (g : Gateway) : bool * Gateway :=
  let '(changed, roots) := remove_client_workspace_roots client (g_roots g) in (changed, set_roots roots g).

Definition remove_expired_client_workspace_roots (client : string) (env : Env) (g : Gateway) : Gateway :=
  let '(changed, g) := remove_roots client g in
  if changed then queue_project_collection_update env g else g.

Definition detach_client (client : string) (env : Env) (g : Gateway) : Gateway :=
  let '(outcome, hub) := detach client (g_hub g) in
  let g := set_hub hub g in
  match outcome with
  | DetachUnknownClient => g
  | Detached _ last_client =>
      let g := remove_expired_client_workspace_roots client env (forget_client client g) in
      begin_draining_after_last_client last_client (call (ReleaseViewer client) g)
  end.

Definition handle_client_detach (conn id : string) (params : JsonValue) (meta : option string) (env : Env) (g : Gateway)
  : GatewayOutcome * Gateway :=
  match decode_detach params with
  | Err e => (g_error conn id meta (invalid_params e), g)
  | Ok _ =>
      match context_for_connection conn (g_hub g) with
      | None => (g_error conn id meta (not_initialized CLIENT_DETACH), g)
      | Some ctx => (g_result conn id meta ResDetach, detach_client (client_instance_id ctx) env g)
      end
  end.

Definition saturating_u32 (count : Z) : Z := if bool_decide (count <= 2 ^ 32 - 1) then count else 2 ^ 32 - 1.

Definition handle_client_replacement_impact (conn id : string) (params : JsonValue) (meta : option string) (env : Env) (g : Gateway)
  : GatewayOutcome * Gateway :=
  match decode_impact params with
  | Err e => (g_error conn id meta (invalid_params e), g)
  | Ok _ =>
      match context_for_connection conn (g_hub g) with
      | None => (g_error conn id meta (not_initialized CLIENT_REPLACEMENT_IMPACT), g)
      | Some ctx =>
          match env_blockers env with
          | None => (g_error conn id meta replacement_impact_failed, g)
          | Some blockers =>
              (g_result conn id meta
                 (ResImpact (other_client_summaries (client_instance_id ctx) (g_hub g))
                    (saturating_u32 (active_turns blockers)) (saturating_u32 (pending_task_requests blockers))
                    (saturating_u32 (env_terminals env))), g)
          end
      end
  end.

(** *** The update barrier *)

Definition valid_update_attempt_id (attempt_id : string) : bool :=
  negb (bool_decide (attempt_id = ""%string)) && bool_decide (String.length attempt_id <= 128)%nat.

Definition owns (b : UpdateShutdownBarrier) (client attempt_id : string) : bool :=
  bool_decide (b_owner b = client) && bool_decide (b_attempt_id b = attempt_id).

(** The decision about a first [prepare]. *)
Definition update_blocked (client : string) (stop_active_work : bool) (env : Env) (g : Gateway)
  : result (option UpdateShutdownBlockedReason) ProtocolError :=
  if bool_decide (other_owners client (g_hub g) <> []) then Ok (Some OtherClients) else
  match env_blockers env with
  | None => Err update_shutdown_readiness_failed
  | Some blockers =>
      if negb stop_active_work &&
         (bool_decide (0 < active_turns blockers) || bool_decide (0 < pending_task_requests blockers)
          || bool_decide (0 < env_terminals env))
      then Ok (Some ActiveWork) else Ok None
  end.

Definition handle_update_shutdown_prepare (conn id : string) (params : JsonValue) (meta : option string) (env : Env) (g : Gateway)
  : GatewayOutcome * Gateway :=
  match decode_prepare params with
  | Err e => (g_error conn id meta (invalid_params e), g)
  | Ok (attempt_id, stop_active_work) =>
      if negb (valid_update_attempt_id attempt_id) then (g_error conn id meta invalid_update_shutdown_attempt, g) else
      match context_for_connection conn (g_hub g) with
      | None => (g_error conn id meta (not_initialized CLIENT_UPDATE_SHUTDOWN_PREPARE), g)
      | Some ctx =>
          let client := client_instance_id ctx in
          match g_barrier g with
          | Some b =>
              (g_result conn id meta (ResPrepare (if owns b client attempt_id then Ready else Blocked OtherClients)), g)
          | None =>
              match update_blocked client stop_active_work env g with
              | Err e => (g_error conn id meta e, g)
              | Ok (Some reason) => (g_result conn id meta (ResPrepare (Blocked reason)), g)
              | Ok None => (g_result conn id meta (ResPrepare Ready), set_barrier (Some (mkBarrier client attempt_id false)) g)
              end
          end
      end
  end.

Definition handle_update_shutdown_commit (conn id : string) (params : JsonValue) (meta : option string) (g : Gateway)
  : GatewayOutcome * Gateway :=
  match decode_commit params with
  | Err e => (g_error conn id meta (invalid_params e), g)
  | Ok attempt_id =>
      match context_for_connection conn (g_hub g) with
      | None => (g_error conn id meta (not_initialized CLIENT_UPDATE_SHUTDOWN_COMMIT), g)
      | Some ctx =>
          match g_barrier g with
          | Some b =>
              if owns b (client_instance_id ctx) attempt_id
              then (g_result conn id meta ResCommit, set_barrier (Some (mkBarrier (b_owner b) (b_attempt_id b) true)) g)
              else (g_error conn id meta invalid_update_shutdown_attempt, g)
          | None => (g_error conn id meta invalid_update_shutdown_attempt, g)
          end
      end
  end.

Definition handle_update_shutdown_abort (conn id : string) (params : JsonValue) (meta : option string) (g : Gateway)
  : GatewayOutcome * Gateway :=
  match decode_abort params with
  | Err e => (g_error conn id meta (invalid_params e), g)
  | Ok attempt_id =>
      match context_for_connection conn (g_hub g) with
      | None => (g_error conn id meta (not_initialized CLIENT_UPDATE_SHUTDOWN_ABORT), g)
      | Some ctx =>
          let owned := match g_barrier g with Some b => owns b (client_instance_id ctx) attempt_id | None => false end in
          if owned then (g_result conn id meta ResAbort, set_barrier None g)
          else (g_error conn id meta invalid_update_shutdown_attempt, g)
      end
  end.

(** *** Answers to server requests *)

Definition handle_pending_request_resolve (conn id : string) (params : JsonValue) (meta : option string) (env : Env) (g : Gateway)
  : GatewayOutcome * Gateway :=
  match decode_resolve params with
  | Err e => (g_error conn id meta (invalid_params e), g)
  | Ok (request_id, resolution) =>
      match context_for_connection conn (g_hub g) with
      | None => (g_error conn id meta (not_initialized PENDING_REQUEST_RESOLVE), g)
      | Some ctx =>
          let '(outcome, rt) := runtime_respond (client_instance_id ctx) request_id (resolution_answer resolution)
                                  (responder_scopes ctx g) (g_requests g) in
          let g := set_requests rt g in
          match outcome with
          | ResponseAccepted _ scope _ _ =>
              let '(events, g) := publish_request_resolution env ctx scope g in
              (result_with_events conn id meta ResResolve events, g)
          | _ => (g_error conn id meta (server_request_response_error outcome), g)
          end
      end
  end.

Definition handle_client_response (conn request_id : string) (answer : ServerRequestAnswer (Value := JsonValue)) (env : Env) (g : Gateway)
  : GatewayOutcome * Gateway :=
  match context_for_connection conn (g_hub g) with
  | None => (Noop, g)
  | Some ctx =>
      let terminal_exchange := is_auth_terminal_exchange request_id (broker (g_requests g)) in
      let '(outcome, rt) := runtime_respond (client_instance_id ctx) request_id answer (responder_scopes ctx g) (g_requests g) in
      let g := set_requests rt g in
      match outcome with
      | ResponseAccepted _ scope _ _ =>
          if terminal_exchange then (Noop, g) else
          let '(events, g) := publish_request_resolution env ctx scope g in
          match events with
          | [] => (Noop, g)
          | _ => (Respond conn "" (GResult ResNull None) events [], g)
          end
      | _ => (g_error conn request_id None (server_request_response_error outcome), g)
      end
  end.

(** *** The life of clients and of the server *)

Definition handle_transport_closed (conn : string) (now : Z) (g : Gateway) : TransportClosedOutcome * Gateway :=
  let '(outcome, hub) := observe_transport_closed conn now (g_hub g) in
  let g := set_hub hub g in
  match outcome with
  | EnteredReconnectGrace client _ => (outcome, set_requests (runtime_unavailable client (g_requests g)).2 g)
  | UnknownConnection => (outcome, g)
  end.

Definition expire_client_after_reconnect_grace (client : string) (now : Z) (env : Env) (g : Gateway) : ClientExpiryOutcome * Gateway :=
  let '(outcome, hub) := expire_after_grace client now (g_hub g) in
  let g := set_hub hub g in
  match outcome with
  | Expired _ last_client =>
      (outcome, begin_draining_after_last_client last_client
                  (remove_expired_client_workspace_roots client env (forget_client client g)))
  | _ => (outcome, g)
  end.

Definition expire_one (acc : bool * Gateway) (client : string) : bool * Gateway :=
  let '(projects_changed, g) := acc in
  let '(changed, g) := remove_roots client (forget_client client g) in
  (projects_changed || changed, g).

Definition expiry_outcomes (batch : ClientExpiryBatch) : list ClientExpiryOutcome :=
  let last := if last_client_expired batch then Some (Nat.pred (length (expired batch))) else None in
  imap (fun i client => Expired client (bool_decide (Some i = last))) (expired batch).

Definition expire_inactive (now : Z) (env : Env) (g : Gateway) : list ClientExpiryOutcome * Gateway :=
  let '(batch, hub) := expire_inactive_clients now (g_hub g) in
  let '(projects_changed, g) := foldl expire_one (false, set_hub hub g) (expired batch) in
  let g := if projects_changed then queue_project_collection_update env g else g in
  (expiry_outcomes batch, begin_draining_after_last_client (last_client_expired batch) g).

Definition shutdown (stopped : result unit RuntimeError) (g : Gateway)
  : result App.ShutdownCompletion RuntimeError * Gateway :=
  let '(outcome, lifecycle) := App.request_shutdown (g_lifecycle g) in
  let g := set_lifecycle lifecycle g in
  match outcome with
  | App.AlreadyStopping => (Ok App.CleanRelease, g)
  | App.ShutdownPlanned _ =>
      let g := call StopServices g in
      match stopped with
      | Ok _ => (Ok (App.complete_shutdown true), g)
      | Err e => (Err e, g)
      end
  end.

Definition should_shutdown_after_last_client (g : Gateway) : bool :=
  bool_decide (g_lifecycle g = App.Draining) && has_ever_initialized (g_hub g) && negb (has_initialized_clients (g_hub g)).

(** ** Routing *)

Definition update_shutdown_control (method : string) : bool :=
  bool_decide (method ∈ [CLIENT_INITIALIZE; CLIENT_HEARTBEAT; CLIENT_DETACH; CLIENT_UPDATE_SHUTDOWN_PREPARE;
                         CLIENT_UPDATE_SHUTDOWN_COMMIT; CLIENT_UPDATE_SHUTDOWN_ABORT]).

Definition needs_client (method : string) : bool :=
  negb (bool_decide (method = CLIENT_INITIALIZE)) && negb (bool_decide (method = CLIENT_PROBE)).

Definition is_method (a b : string) : bool := bool_decide (a = b).

(** The routing table; product handlers run on the state after the admission. *)
Definition dispatch (conn id method : string) (params : JsonValue) (meta : option string) (now : Z) (env : Env) (g : Gateway)
  : GatewayOutcome * Gateway :=
  if is_method method CLIENT_PROBE then handle_client_probe conn id params meta env g
  else if is_method method CLIENT_INITIALIZE then handle_initialize conn id params meta now env g
  else if is_method method CLIENT_CAPABILITIES_CHANGED then handle_client_capabilities_changed conn id params meta env g
  else if is_method method CLIENT_HEARTBEAT then handle_client_heartbeat conn id params meta g
  else if is_method method CLIENT_DETACH then handle_client_detach conn id params meta env g
  else if is_method method CLIENT_REPLACEMENT_IMPACT then handle_client_replacement_impact conn id params meta env g
  else if is_method method CLIENT_UPDATE_SHUTDOWN_PREPARE then handle_update_shutdown_prepare conn id params meta env g
  else if is_method method CLIENT_UPDATE_SHUTDOWN_COMMIT then handle_update_shutdown_commit conn id params meta g
  else if is_method method CLIENT_UPDATE_SHUTDOWN_ABORT then handle_update_shutdown_abort conn id params meta g
  else if is_method method PENDING_REQUEST_RESOLVE then handle_pending_request_resolve conn id params meta env g
  else if is_method method STATE_SUBSCRIBE then handle_subscribe conn id params meta env g
  else if is_method method STATE_UNSUBSCRIBE then handle_unsubscribe conn id params meta g
  else if bool_decide (method ∈ PRODUCT_METHODS) then (Product method params, g)
  else (g_error conn id meta (unsupported_method method), g).

Definition handle_request (conn id method : string) (params : JsonValue) (meta : option string) (now : Z) (env : Env) (g : Gateway)
  : GatewayOutcome * Gateway :=
  if needs_client method && negb (is_some (context_for_connection conn (g_hub g)))
  then (g_error conn id meta (not_initialized method), g) else
  let g := if needs_client method then (activity conn now g).2 else g in
  if is_some (g_barrier g) && negb (update_shutdown_control method)
  then (g_error conn id meta (update_shutdown_in_progress method), g)
  else dispatch conn id method params meta now env g.

Definition handle_inbound_inner (conn : string) (message : InboundProtocolMessage) (now : Z) (env : Env) (g : Gateway)
  : GatewayOutcome * Gateway :=
  match message with
  | ClientRequest id method params meta => handle_request conn id method params meta now env g
  | ClientResponse request_id answer => handle_client_response conn request_id answer env g
  | ClientNotification _ _ => (Noop, g)
  end.

(** [SharedRpcGateway::handle_inbound]: completion is evidence of liveness too. *)
Definition handle_inbound (conn : string) (message : InboundProtocolMessage) (now completed : Z) (env : Env) (g : Gateway)
  : GatewayOutcome * Gateway :=
  let '(outcome, g) := handle_inbound_inner conn message now env g in
  (outcome, set_hub (observe_connection_activity conn completed (g_hub g)).2 g).

(** [event_wire_messages]: what of the events of an answer goes over the wire. *)
Definition event_wire_messages (conn : string) (events : list StateEventDelivery) : list AppServerEvent :=
  sed_event <$> filter (fun e => d_connection (sed_delivery e) = conn) events.

(** ** Executions *)

Inductive GatewayOp :=
| GInbound (conn : string) (message : InboundProtocolMessage) (now completed : Z) (env : Env)
| GTransportClosed (conn : string) (now : Z)
| GExpireAfterGrace (client : string) (now : Z) (env : Env)
| GExpireInactive (now : Z) (env : Env)
| GActivity (conn : string) (now : Z)
| GDrainEvents (conn : string)
| GDrainRequests (conn : string)
| GPublish (scope : EventScope) (payload : AppServerEventPayload)
| GProductPublish (conn : string) (scope : EventScope) (payload : AppServerEventPayload)
| GRequests (op : RuntimeOp)
| GShutdown (stopped : result unit RuntimeError).

(** What an operation sends: an answer with its events, the events a product
    handler puts into its answer, drained events, and drained requests.  Events
    that background work publishes are queued for the links. *)
Inductive GatewayEvent :=
| EvAnswer (conn : string) (outcome : GatewayOutcome)
| EvProduct (conn : string) (events : list StateEventDelivery)
| EvDrained (conn : string) (events : list StateEventDelivery)
| EvRequests (conn : string) (requests : list (ServerRequestDelivery (Value := JsonValue))).

Definition queue_events (events : list StateEventDelivery) (g : Gateway) : Gateway := set_pending (g_pending g ++ events) g.

Definition gateway_step (op : GatewayOp) (g : Gateway) : list GatewayEvent * Gateway :=
  match op with
  | GInbound conn message now completed env =>
      let '(outcome, g) := handle_inbound conn message now completed env g in ([EvAnswer conn outcome], g)
  | GTransportClosed conn now => ([], (handle_transport_closed conn now g).2)
  | GExpireAfterGrace client now env => ([], (expire_client_after_reconnect_grace client now env g).2)
  | GExpireInactive now env => ([], (expire_inactive now env g).2)
  | GActivity conn now => ([], (activity conn now g).2)
  | GDrainEvents conn => let '(events, g) := drain_event_deliveries conn g in ([EvDrained conn events], g)
  | GDrainRequests conn => let '(requests, g) := drain_server_requests conn g in ([EvRequests conn requests], g)
  | GPublish scope payload => let '(events, g) := publish scope payload g in ([], queue_events events g)
  | GProductPublish conn scope payload => let '(events, g) := publish scope payload g in ([EvProduct conn events], g)
  | GRequests op => ([], set_requests (RequestRuntime.apply_op parse_permission parse_question encode_form op (g_requests g)).2 g)
  | GShutdown stopped => ([], (shutdown stopped g).2)
  end.

Fixpoint gateway_run (ops : list GatewayOp) (g : Gateway) : list GatewayEvent * Gateway :=
  match ops with
  | [] => ([], g)
  | op :: ops =>
      let '(out, g) := gateway_step op g in
      let '(outs, g) := gateway_run ops g in (out ++ outs, g)
  end.

(** ** The invariant

    Subscriptions and workspace roots belong to initialized clients.  [X] are the
    clients that have left the hub and are being cleaned up. *)

Hypothesis json_len_nonneg : forall c n, json_len c = Some n -> 0 <= n.

Definition known (X : list string) (hub : ClientHub) (client : string) : Prop :=
  is_Some (clients hub !! client) \/ client ∈ X.

Record gateway_inv (X : list string) (g : Gateway) : Prop := {
  gi_hub : hub_inv (g_hub g);
  gi_stream : sync_inv (g_stream g);
  gi_subs : forall s, s ∈ subscriptions (g_stream g) -> known X (g_hub g) (sub_client s);
  gi_roots : forall client, is_Some (client_projects (rg_state (g_roots g)) !! client) -> known X (g_hub g) client;
}.

(** The parts of the gateway that the invariant reads. *)
Definition view (g : Gateway) : ClientHub * StateStream * Registry := (g_hub g, g_stream g, g_roots g).

Lemma inv_view X g g' : view g' = view g -> gateway_inv X g -> gateway_inv X g'.
Proof. unfold view. intros [= Hh Hs Hr] [H1 H2 H3 H4]. split; rewrite ?Hh, ?Hs, ?Hr; done. Qed.

Lemma inv_publish X scope payload g : gateway_inv X g -> gateway_inv X (publish scope payload g).2.
Proof.
  intros [H1 H2 H3 H4]. unfold publish.
  destruct (publish_total json_len json_len_nonneg scope payload (delivery_for (g_hub g)) (g_stream g) H2)
    as (out & st & -> & Hi & Hs & _). split; cbn; rewrite ?Hs; done.
Qed.

Lemma inv_hub X hub g : hub_inv hub -> (forall c, is_Some (clients (g_hub g) !! c) -> is_Some (clients hub !! c) \/ c ∈ X) ->
  gateway_inv [] g -> gateway_inv X (set_hub hub g).
Proof.
  intros Hh Hc [H1 H2 H3 H4]. split; cbn; try done.
  - intros s Hs. destruct (H3 s Hs) as [?|?%not_elem_of_nil]; [by apply Hc|done].
  - intros c Hr. destruct (H4 c Hr) as [?|?%not_elem_of_nil]; [by apply Hc|done].
Qed.

Lemma inv_navigation X env g : gateway_inv X g -> gateway_inv X (publish_navigation_replacement env g).2.
Proof.
  intros Hi. unfold publish_navigation_replacement. cbn [foldl].
  assert (forall acc section, gateway_inv X acc.2 -> gateway_inv X (publish_navigation_section env acc section).2) as Hstep.
  { intros [es g'] section Hg. unfold publish_navigation_section.
    destruct (env_navigation env section) as [nav|]; [|done].
    pose proof (inv_publish X (EventStateRoot (root_of g')) (NavigationReplaced nav) g' Hg).
    by destruct (publish _ _ _). }
  apply Hstep, Hstep. by apply (inv_view X g).
Qed.

Lemma inv_projects X env g : gateway_inv X g -> gateway_inv X (publish_project_collection_update env g).2.
Proof.
  intros Hi. unfold publish_project_collection_update. destruct (env_projects env (g_roots g)) as [projects|]; [|done].
  pose proof (inv_publish X (EventStateRoot (root_of g)) (ProjectCollectionUpdated projects) g Hi) as H1.
  destruct (publish _ _ _) as [events g1]. cbn [snd] in H1.
  pose proof (inv_navigation X env g1 H1). by destruct (publish_navigation_replacement _ _).
Qed.

Lemma inv_project_events X changed env g : gateway_inv X g -> gateway_inv X (project_events changed env g).2.
Proof.
  intros Hi. unfold project_events. destruct changed; [|done].
  pose proof (inv_projects X env g Hi). by destruct (publish_project_collection_update _ _).
Qed.

Lemma inv_queue_projects X env g : gateway_inv X g -> gateway_inv X (queue_project_collection_update env g).
Proof.
  intros Hi. unfold queue_project_collection_update. pose proof (inv_projects X env g Hi) as H1.
  destruct (publish_project_collection_update _ _) as [[events|] g1]; [|done]. by apply (inv_view X g1).
Qed.

Lemma inv_resolution X env ctx scope g : gateway_inv X g -> gateway_inv X (publish_request_resolution env ctx scope g).2.
Proof.
  intros Hi. unfold publish_request_resolution, publish_client_snapshot_replaced, publish_task_snapshot_replaced.
  destruct scope; [|by apply inv_publish]. split_test; [|done].
  destruct (env_client_snapshot _ _ _); [by apply inv_publish|done].
Qed.

Lemma inv_deliver X ctx g : gateway_inv X g -> gateway_inv X (deliver_to_responder ctx g).2.
Proof.
  intros Hi. unfold deliver_to_responder. destruct (delivery_for _ _) as [d|]; [|done].
  destruct (runtime_available _ _ _). by apply (inv_view X g).
Qed.

(** Cleaning up one client that has left. *)
Lemma inv_forget X client g : gateway_inv (client :: X) g ->
  gateway_inv (client :: X) (forget_client client g) /\
  forall s, s ∈ subscriptions (g_stream (forget_client client g)) -> sub_client s <> client.
Proof.
  intros [H1 H2 H3 H4]. split.
  - split; cbn; [done|by apply (sync_inv_drop json_len)| |done]. intros s [_ Hs]%list_elem_of_filter. by apply H3.
  - cbn. by intros s [? _]%list_elem_of_filter.
Qed.

Lemma inv_clean X client g : gateway_inv (client :: X) g -> gateway_inv X (remove_roots client (forget_client client g)).2.
Proof.
  intros Hi. destruct (inv_forget X client g Hi) as [[H1 H2 H3 H4] Hne]. unfold remove_roots. cbn in *. split; cbn; [done|done| |].
  - intros s Hs. destruct (H3 s Hs) as [?|[?|?]%elem_of_cons]; [by left|by destruct (Hne s)|by right].
  - intros c [ps [Hc Hp]%lookup_delete_Some]. destruct (H4 c) as [?|[?|?]%elem_of_cons]; [by eexists|by left|by subst|by right].
Qed.

Lemma inv_draining X last g : gateway_inv X g -> gateway_inv X (begin_draining_after_last_client last g).
Proof. intros Hi. unfold begin_draining_after_last_client. destruct last; [|done]. by apply (inv_view X g). Qed.

Lemma inv_clean_and_publish X client env g : gateway_inv (client :: X) g ->
  gateway_inv X (remove_expired_client_workspace_roots client env (forget_client client g)).
Proof.
  intros Hi%inv_clean. unfold remove_expired_client_workspace_roots. destruct (remove_roots _ _) as [[] g1]; [|done].
  by apply inv_queue_projects.
Qed.

Lemma set_client_grows id r hub c : is_Some (clients hub !! c) -> is_Some (clients (set_client id r hub) !! c).
Proof. intros Hc. cbn. rewrite lookup_insert. by case_decide. Qed.

Lemma activity_grows conn now hub c :
  is_Some (clients hub !! c) -> is_Some (clients (observe_connection_activity conn now hub).2 !! c).
Proof.
  intros Hc. unfold observe_connection_activity. destruct (connections hub !! conn) as [id|]; [|done].
  destruct (clients hub !! id); [|done]. by apply set_client_grows.
Qed.

Lemma inv_hub_activity conn now g :
  gateway_inv [] g -> gateway_inv [] (set_hub (observe_connection_activity conn now (g_hub g)).2 g).
Proof.
  intros Hi. apply inv_hub; [apply (hub_inv_step _ (OpActivity conn now)), Hi| |done].
  intros c Hc. left. by apply activity_grows.
Qed.

Lemma inv_activity conn now g : gateway_inv [] g -> gateway_inv [] (activity conn now g).2.
Proof.
  intros Hi%(inv_hub_activity conn now). unfold activity. destruct (observe_connection_activity _ _ _) as [[client|] hub]; [|done].
  by apply (inv_view [] (set_hub hub g)).
Qed.

Lemma inv_transport_closed conn now g : gateway_inv [] g -> gateway_inv [] (handle_transport_closed conn now g).2.
Proof.
  intros Hi. unfold handle_transport_closed.
  assert (gateway_inv [] (set_hub (observe_transport_closed conn now (g_hub g)).2 g)) as Hh.
  { apply inv_hub; [apply (hub_inv_step _ (OpTransportClosed conn now)), Hi| |done]. intros c Hc. left.
    unfold observe_transport_closed. destruct (connections _ !! conn) as [id|]; [|done]. cbn.
    destruct (clients _ !! id); [by apply (set_client_grows _ _ (set_connections _ _))|done]. }
  destruct (observe_transport_closed _ _ _) as [[] hub]; [by apply (inv_view [] (set_hub hub g))|done].
Qed.

Lemma inv_remove_client client g :
  gateway_inv [] g -> gateway_inv [client] (set_hub (remove_client client (g_hub g)) g).
Proof.
  intros Hi. apply inv_hub; [by apply hub_inv_remove_client, Hi| |done].
  intros c Hc. destruct (decide (c = client)) as [->|Hne]; [right; by left|left]. cbn. by rewrite lookup_delete_ne.
Qed.

Lemma inv_detach client env g : gateway_inv [] g -> gateway_inv [] (detach_client client env g).
Proof.
  intros Hi. unfold detach_client, detach. destruct (clients (g_hub g) !! client); [|by apply (inv_view [] g)].
  pose proof (inv_clean_and_publish [] client env _ (inv_remove_client client g Hi)) as Hc.
  apply inv_draining. by eapply inv_view; [|exact Hc].
Qed.

Lemma inv_expire_after_grace client now env g :
  gateway_inv [] g -> gateway_inv [] (expire_client_after_reconnect_grace client now env g).2.
Proof.
  intros Hi. unfold expire_client_after_reconnect_grace, expire_after_grace.
  destruct (clients (g_hub g) !! client) as [r|]; [|by apply (inv_view [] g)].
  destruct (reconnect_expires_at r); [|by apply (inv_view [] g)]. split_test; [by apply (inv_view [] g)|].
  apply inv_draining, inv_clean_and_publish. by apply inv_remove_client.
Qed.

Lemma inv_expire_all X b g : gateway_inv X g -> gateway_inv [] (foldl expire_one (b, g) X).2.
Proof.
  revert b g. induction X as [|c X IH]; intros b g Hi; [done|]. cbn [foldl]. unfold expire_one at 2.
  pose proof (inv_clean X c g Hi) as Hc. destruct (remove_roots _ _) as [changed g1]. by apply IH.
Qed.

Lemma inv_expire_inactive now env g : gateway_inv [] g -> gateway_inv [] (expire_inactive now env g).2.
Proof.
  intros Hi. unfold expire_inactive.
  pose proof (hub_inv_step (g_hub g) (OpExpireInactive now) (gi_hub _ _ Hi)) as Hh. cbn [apply_op ClientLifecycle.apply_op] in Hh.
  assert (gateway_inv (expired (expire_inactive_clients now (g_hub g)).1)
            (set_hub (expire_inactive_clients now (g_hub g)).2 g)) as H1.
  { apply inv_hub; [done| |done]. intros c [r Hr]. cbn. set (hub := foldl (enter_grace _) _ _).
    destruct (decide (c ∈ select (grace_over now) hub)) as [?|Hn]; [by right|left].
    rewrite (proj1 (remove_all _ _)), bool_decide_eq_false_2 by done. unfold hub. rewrite sweep_grace, Hr. by eexists. }
  destruct (expire_inactive_clients _ _) as [batch hub].
  pose proof (inv_expire_all (expired batch) false _ H1) as H2. destruct (foldl expire_one _ _) as [changed g1].
  apply inv_draining. destruct changed; [by apply inv_queue_projects|done].
Qed.

Lemma replaced_roots client roots r c :
  is_Some (client_projects (rg_state (replace_client_workspace_roots client roots r).2) !! c) ->
  c = client \/ is_Some (client_projects (rg_state r) !! c).
Proof.
  unfold replace_client_workspace_roots. cbn. destruct (project_contexts_from_workspace_roots roots).
  - intros [x [_ ?]%lookup_delete_Some]. right. by eexists.
  - rewrite lookup_insert. case_decide; auto.
Qed.

Lemma inv_set_roots X client roots g : known X (g_hub g) client -> gateway_inv X g ->
  gateway_inv X (set_roots (replace_client_workspace_roots client roots (g_roots g)).2 g).
Proof.
  intros Hk [H1 H2 H3 H4]. split; cbn -[replace_client_workspace_roots]; [done..|].
  intros c [->|Hc]%replaced_roots; [done|by apply H4].
Qed.

Lemma inv_admit_client conn params now g :
  gateway_inv [] g ->
  gateway_inv [] (set_hub (initialize conn params now (g_hub g)).2
    (set_roots (replace_client_workspace_roots (init_client_instance_id params) (init_workspace_roots params) (g_roots g)).2 g)).
Proof.
  intros Hi.
  assert (forall c, is_Some (clients (g_hub g) !! c) -> is_Some (clients (initialize conn params now (g_hub g)).2 !! c)) as Hm.
  { intros c Hc. cbn. rewrite lookup_insert. by case_decide. }
  assert (gateway_inv [] (set_hub (initialize conn params now (g_hub g)).2 g)) as H1.
  { apply inv_hub; [by apply hub_inv_initialize, Hi| |done]. intros c Hc. left. by apply Hm. }
  assert (known [] (initialize conn params now (g_hub g)).2 (init_client_instance_id params)) as Hk.
  { left. cbn. rewrite lookup_insert_eq. by eexists. }
  exact (inv_view [] _ _ eq_refl (inv_set_roots [] _ (init_workspace_roots params) (set_hub (initialize conn params now (g_hub g)).2 g) Hk H1)).
Qed.

Lemma inv_initialize_client conn id params meta now env g :
  gateway_inv [] g -> gateway_inv [] (initialize_client conn id params meta now env g).2.
Proof.
  intros Hi%(inv_admit_client conn params now). unfold initialize_client.
  destruct (replace_client_workspace_roots _ _ _) as [changed roots]. cbn [g_hub set_roots snd] in *.
  destruct (initialize conn params now (g_hub g)) as [outcome hub]. cbn [snd] in *.
  set (g1 := set_hub hub (set_roots roots g)) in *.
  assert (exists ctx g2, match outcome with
    | NewClient ctx => (ctx, call (DiscardResources (client_instance_id ctx)) g1)
    | ReattachedClient ctx => (ctx, call (KeepAlive (client_instance_id ctx)) g1) end = (ctx, g2) /\ gateway_inv [] g2)
    as (ctx & g2 & -> & H2) by (destruct outcome; eexists _, _; (split; [done|]); by apply (inv_view [] g1)).
  apply (inv_deliver _ ctx) in H2. destruct (deliver_to_responder ctx g2) as [requests g3].
  destruct (env_client_snapshot _ _ _); [|done]. apply (inv_project_events _ changed env) in H2.
  by destruct (project_events _ _ _).
Qed.

Lemma inv_initialize conn id params meta now env g :
  gateway_inv [] g -> gateway_inv [] (handle_initialize conn id params meta now env g).2.
Proof.
  intros Hi. unfold handle_initialize. destruct (decode_initialize params) as [ps|]; [|done].
  destruct (negb _); [done|]. unfold pass_barrier.
  assert (forall g', view g' = view g -> gateway_inv [] (let '(admission, lifecycle) := App.admit_initialize (g_lifecycle g') in
    match admission with App.Rejected e => (g_error conn id meta e, set_lifecycle lifecycle g')
    | _ => initialize_client conn id ps meta now env (set_lifecycle lifecycle g') end).2) as Hadmit.
  { intros g' Hv. destruct (App.admit_initialize _) as [[]  lifecycle];
      [apply inv_initialize_client|apply inv_initialize_client|]; by apply (inv_view [] g). }
  destruct (g_barrier g); [|by apply Hadmit]. split_test; [by apply Hadmit|done].
Qed.

Lemma subscribe_known X `{SnapshotProvider} ctx scope known_revision st hub :
  (forall s, s ∈ subscriptions st -> known X hub (sub_client s)) -> known X hub (client_instance_id ctx) ->
  forall s, s ∈ subscriptions (subscribe_with_membership ctx scope known_revision st).2 -> known X hub (sub_client s).
Proof.
  intros Hs Hk s. unfold subscribe_with_membership. cbn. destruct (match scope with SubTask _ => _ | _ => _ end); [|by apply Hs].
  unfold upsert_subscription. cbn. split_test; cbn.
  - destruct scope; cbn; apply Hs.
  - destruct scope; cbn; intros [?| ->%list_elem_of_singleton]%elem_of_app; auto.
Qed.

(** The context of a connection is an initialized client. *)
Lemma context_known conn hub ctx : hub_inv hub -> context_for_connection conn hub = Some ctx ->
  is_Some (clients hub !! client_instance_id ctx) /\ connections hub !! conn = Some (client_instance_id ctx) /\ connection_id ctx = conn.
Proof.
  intros Hi (id & Hc & (r & Hr & ->)%fmap_Some)%bind_Some. destruct (hi_conn _ Hi _ _ Hc) as (r' & Hr' & Hrc & _).
  simplify_eq. rewrite (hi_key _ Hi _ _ Hr). split; [by eexists|done].
Qed.

Lemma inv_subscribe conn id params meta env g :
  gateway_inv [] g -> gateway_inv [] (handle_subscribe conn id params meta env g).2.
Proof.
  intros Hi. unfold handle_subscribe. destruct (decode_subscribe params) as [[scope known_revision]|]; [|done].
  destruct (context_for_connection conn (g_hub g)) as [ctx|] eqn:Hctx; [|done].
  destruct (context_known _ _ _ (gi_hub _ _ Hi) Hctx) as (Hk & _).
  assert (gateway_inv [] (set_stream (@subscribe_with_membership _ (env_provider env) ctx scope known_revision (g_stream g)).2 g)) as H1.
  { destruct Hi as [? ? ? ?]. split; cbn -[subscribe_with_membership]; [done| | |done].
    - by apply (sync_inv_subscribe json_len).
    - apply subscribe_known; [done|by left]. }
  destruct (@subscribe_with_membership _ _ _ _ _ _) as [[[r added]|] stream]; [|done]. cbn [sr_scope].
  assert (forall b, gateway_inv [] (if b : bool then call RefreshCatalog (set_stream stream g) else set_stream stream g)) as H2.
  { intros []; [|done]. by eapply inv_view; [|exact H1]. }
  specialize (H2 (added && is_navigation (sr_scope r))). destruct (sr_scope r); try done.
  destruct (delivery_for _ _); [|done]. destruct (runtime_subscription_added _ _ _). by eapply inv_view; [|exact H2].
Qed.

Lemma inv_unsubscribe conn id params meta g :
  gateway_inv [] g -> gateway_inv [] (handle_unsubscribe conn id params meta g).2.
Proof.
  intros Hi. unfold handle_unsubscribe. destruct (decode_unsubscribe params) as [scope|]; [|done].
  destruct (context_for_connection conn (g_hub g)) as [ctx|]; [|done].
  assert (gateway_inv [] (set_stream (unsubscribe ctx scope (g_stream g)).2 g)) as H1.
  { destruct Hi as [? ? Hs ?]. split; cbn -[unsubscribe]; [done|by apply (sync_inv_unsubscribe json_len)| |done].
    intros s [_ ?]%list_elem_of_filter. by apply Hs. }
  destruct (unsubscribe ctx scope (g_stream g)) as [result stream].
  destruct scope; try done; by eapply inv_view; [|exact H1].
Qed.

Lemma inv_capabilities conn id params meta env g :
  gateway_inv [] g -> gateway_inv [] (handle_client_capabilities_changed conn id params meta env g).2.
Proof.
  intros Hi. unfold handle_client_capabilities_changed. destruct (decode_capabilities params) as [[caps roots]|]; [|done].
  destruct (context_for_connection conn (g_hub g)) as [ctx|] eqn:Hctx; [|done]. set (client := client_instance_id ctx).
  destruct (context_known _ _ _ (gi_hub _ _ Hi) Hctx) as (Hk & _).
  assert (forall c, gateway_inv [] (set_hub (update_capabilities client c (g_hub g)).2 g) /\
    known [] (update_capabilities client c (g_hub g)).2 client) as Hcap.
  { intros c. assert (forall j, is_Some (clients (g_hub g) !! j) -> is_Some (clients (update_capabilities client c (g_hub g)).2 !! j)) as Hg.
    { intros j Hj. unfold update_capabilities. destruct (clients (g_hub g) !! client); [by apply set_client_grows|done]. }
    split; [|by left; apply Hg]. apply inv_hub; [apply (hub_inv_step _ (OpCapabilities client c)), Hi| |done].
    intros j Hj. left. by apply Hg. }
  assert (exists g1, match caps with Some c => set_hub (update_capabilities client c (g_hub g)).2 g | None => g end = g1 /\
    gateway_inv [] g1 /\ known [] (g_hub g1) client) as (g1 & -> & H1 & Hk1).
  { destruct caps as [c|]; eexists; (split; [done|]); [apply Hcap|split; [done|by left]]. }
  assert (exists changed g2, match roots with
    | Some roots => let '(changed, r) := replace_client_workspace_roots client roots (g_roots g1) in (changed, set_roots r g1)
    | None => (false, g1) end = (changed, g2) /\ gateway_inv [] g2) as (changed & g2 & -> & H2).
  { destruct roots as [roots|]; [|by eexists _, _]. apply (inv_set_roots [] client roots) in H1; [|done].
    destruct (replace_client_workspace_roots _ _ _). by eexists _, _. }
  destruct (env_projects _ _); [|done]. apply (inv_project_events _ changed env) in H2. by destruct (project_events _ _ _).
Qed.

Lemma inv_answer conn id params meta env g :
  gateway_inv [] g -> gateway_inv [] (handle_pending_request_resolve conn id params meta env g).2.
Proof.
  intros Hi. unfold handle_pending_request_resolve. destruct (decode_resolve params) as [[request_id resolution]|]; [|done].
  destruct (context_for_connection conn (g_hub g)) as [ctx|]; [|done].
  destruct (runtime_respond _ _ _ _ _) as [outcome rt].
  assert (gateway_inv [] (set_requests rt g)) as H1 by by apply (inv_view [] g).
  destruct outcome; try done. apply (inv_resolution _ env ctx scope) in H1. by destruct (publish_request_resolution _ _ _ _).
Qed.

Lemma inv_response conn request_id answer env g :
  gateway_inv [] g -> gateway_inv [] (handle_client_response conn request_id answer env g).2.
Proof.
  intros Hi. unfold handle_client_response. destruct (context_for_connection conn (g_hub g)) as [ctx|]; [|done].
  destruct (runtime_respond _ _ _ _ _) as [outcome rt].
  assert (gateway_inv [] (set_requests rt g)) as H1 by by apply (inv_view [] g).
  destruct outcome; try done. destruct (is_auth_terminal_exchange _ _); [done|].
  apply (inv_resolution _ env ctx scope) in H1. by destruct (publish_request_resolution _ _ _ _) as [[] ?].
Qed.

(** The other handlers touch neither the hub, nor the stream, nor the roots. *)
Lemma quiet_handlers conn id params meta env g :
  view (handle_client_probe conn id params meta env g).2 = view g /\
  view (handle_client_heartbeat conn id params meta g).2 = view g /\
  view (handle_client_replacement_impact conn id params meta env g).2 = view g /\
  view (handle_update_shutdown_prepare conn id params meta env g).2 = view g /\
  view (handle_update_shutdown_commit conn id params meta g).2 = view g /\
  view (handle_update_shutdown_abort conn id params meta g).2 = view g.
Proof.
  unfold handle_client_probe, handle_client_heartbeat, handle_client_replacement_impact, handle_update_shutdown_prepare,
    handle_update_shutdown_commit, handle_update_shutdown_abort. repeat split; repeat (case_match; try done).
Qed.

Lemma inv_dispatch conn id method params meta now env g :
  gateway_inv [] g -> gateway_inv [] (dispatch conn id method params meta now env g).2.
Proof.
  intros Hi. destruct (quiet_handlers conn id params meta env g) as (Q1 & Q2 & Q3 & Q4 & Q5 & Q6). unfold dispatch.
  repeat match goal with |- gateway_inv _ (if is_method method ?m then _ else _).2 => destruct (is_method method m) end;
    first [by apply (inv_view [] g)|by apply inv_initialize|by apply inv_capabilities|by apply inv_answer
          |by apply inv_subscribe|by apply inv_unsubscribe|idtac].
  - unfold handle_client_detach. destruct (decode_detach params); [|done].
    destruct (context_for_connection _ _); [by apply inv_detach|done].
  - by destruct (bool_decide _).
Qed.

Lemma inv_inbound conn message now completed env g :
  gateway_inv [] g -> gateway_inv [] (handle_inbound conn message now completed env g).2.
Proof.
  intros Hi. unfold handle_inbound.
  assert (gateway_inv [] (handle_inbound_inner conn message now env g).2) as H1.
  { destruct message as [id method params meta| |]; cbn; [|done|by apply inv_response]. unfold handle_request.
    destruct (_ && _); [done|]. set (g1 := if needs_client method then _ else _).
    assert (gateway_inv [] g1) by (unfold g1; destruct (needs_client method); [by apply inv_activity|done]).
    destruct (_ && _); [done|]. by apply inv_dispatch. }
  destruct (handle_inbound_inner _ _ _ _ _). by apply inv_hub_activity.
Qed.

Lemma inv_step op g : gateway_inv [] g -> gateway_inv [] (gateway_step op g).2.
Proof.
  intros Hi. destruct op; cbn [gateway_step].
  - pose proof (inv_inbound conn message now completed env g Hi). by destruct (handle_inbound _ _ _ _ _ _).
  - by apply inv_transport_closed.
  - by apply inv_expire_after_grace.
  - by apply inv_expire_inactive.
  - by apply inv_activity.
  - by apply (inv_view [] g).
  - unfold drain_server_requests. destruct (context_for_connection _ _) as [ctx|]; [|done].
    apply (inv_deliver _ ctx) in Hi. by destruct (deliver_to_responder _ _).
  - apply (inv_publish _ scope payload) in Hi. destruct (publish _ _ _) as [events g1]. by apply (inv_view [] g1).
  - apply (inv_publish _ scope payload) in Hi. by destruct (publish _ _ _).
  - by apply (inv_view [] g).
  - apply (inv_view [] g); [|done]. unfold shutdown. by destruct (App.request_shutdown _) as [[] ?], stopped.
Qed.

Lemma inv_run ops g : gateway_inv [] g -> gateway_inv [] (gateway_run ops g).2.
Proof.
  revert g. induction ops as [|op ops IH]; intros g Hi; [done|]. cbn.
  apply (inv_step op) in Hi. destruct (gateway_step op g) as [out g1]. specialize (IH g1 Hi). by destruct (gateway_run ops g1).
Qed.

Lemma inv_new policy root roots : client_projects (rg_state roots) = ∅ -> gateway_inv [] (new_gateway policy root roots).
Proof.
  intros Hr. split; cbn; [by apply hub_inv_new|by apply (sync_inv_new json_len)| |].
  - by intros s Hs%not_elem_of_nil.
  - rewrite Hr. by intros c [? Hc%lookup_empty_Some].
Qed.

Lemma delivery_names hub : names_client (delivery_for hub).
Proof. intros client d. unfold delivery_for. by intros (r & _ & [= <-])%bind_Some. Qed.

Lemma delivery_connection hub client c : hub_inv hub -> connections hub !! c = Some client ->
  forall d, delivery_for hub client = Some d -> d_connection d = c.
Proof.
  intros Hi Hc d (r & Hr & [= <-])%bind_Some. destruct (hi_conn _ Hi _ _ Hc) as (r' & Hr' & <- & _). by simplify_eq.
Qed.


(** ** Admission *)

Lemma no_activity conn now hub : context_for_connection conn hub = None -> observe_connection_activity conn now hub = (None, hub).
Proof.
  unfold context_for_connection, observe_connection_activity. destruct (connections hub !! conn) as [id|]; [|done]. cbn.
  by destruct (clients hub !! id).
Qed.

Lemma no_completion conn now g : context_for_connection conn (g_hub g) = None ->
  set_hub (observe_connection_activity conn now (g_hub g)).2 g = g.
Proof. intros Hc. rewrite no_activity by done. by destruct g. Qed.

(** A connection that no initialized client owns can do nothing but probe and
    initialize: every other request, whatever its method and parameters, is
    refused as not initialized, an answer to a server request is ignored, and the
    gateway is left exactly as it was. *)
Theorem uninitialized_connection_is_inert conn message now completed env g :
  context_for_connection conn (g_hub g) = None ->
  match message with ClientRequest _ method _ _ => method <> CLIENT_INITIALIZE /\ method <> CLIENT_PROBE | _ => True end ->
  handle_inbound conn message now completed env g
  = (match message with
     | ClientRequest id method _ meta => g_error conn id meta (not_initialized method)
     | _ => Noop
     end, g).
Proof.
  intros Hctx Hm. unfold handle_inbound. destruct message as [id method params meta| |request_id answer]; cbn.
  - unfold handle_request, needs_client. destruct Hm. rewrite !bool_decide_eq_false_2 by done. cbn. rewrite Hctx. cbn.
    by rewrite no_completion.
  - by rewrite no_completion.
  - unfold handle_client_response. rewrite Hctx. by rewrite no_completion.
Qed.

(** ** What operations leave alone *)

(** The barrier stays, and the queue of events only grows at its end. *)
Definition frames (g g' : Gateway) : Prop :=
  g_barrier g' = g_barrier g /\ exists more, g_pending g' = g_pending g ++ more.

#[local] Instance frames_preorder : PreOrder frames.
Proof.
  split.
  - intros g. split; [done|]. exists []. by rewrite app_nil_r.
  - intros g1 g2 g3 [B1 (m1 & H1)] [B2 (m2 & H2)]. split; [by rewrite B2|]. exists (m1 ++ m2). by rewrite H2, H1, app_assoc.
Qed.

Lemma frames_same g g' : g_barrier g' = g_barrier g -> g_pending g' = g_pending g -> frames g g'.
Proof. intros Hb Hp. split; [done|]. exists []. by rewrite Hp, app_nil_r. Qed.

Lemma frames_publish scope payload g : frames g (publish scope payload g).2.
Proof. unfold publish. destruct (publish_committed _ _ _ _ _) as [[]|]; by apply frames_same. Qed.

Lemma frames_navigation env g : frames g (publish_navigation_replacement env g).2.
Proof.
  assert (forall acc section, frames acc.2 (publish_navigation_section env acc section).2) as Hstep.
  { intros [es g'] section. unfold publish_navigation_section. destruct (env_navigation env section) as [nav|]; [|done].
    pose proof (frames_publish (EventStateRoot (root_of g')) (NavigationReplaced nav) g').
    by destruct (publish _ _ _). }
  unfold publish_navigation_replacement. cbn [foldl]. etrans; [|apply Hstep]. etrans; [|apply Hstep]. by apply frames_same.
Qed.

Lemma frames_projects env g : frames g (publish_project_collection_update env g).2.
Proof.
  unfold publish_project_collection_update. destruct (env_projects env (g_roots g)) as [projects|]; [|done].
  pose proof (frames_publish (EventStateRoot (root_of g)) (ProjectCollectionUpdated projects) g) as H1.
  destruct (publish _ _ _) as [events g1]. pose proof (frames_navigation env g1).
  destruct (publish_navigation_replacement _ _). by etrans.
Qed.

Lemma frames_project_events changed env g : frames g (project_events changed env g).2.
Proof.
  unfold project_events. destruct changed; [|done]. pose proof (frames_projects env g).
  by destruct (publish_project_collection_update _ _).
Qed.

Lemma frames_queue_projects env g : frames g (queue_project_collection_update env g).
Proof.
  unfold queue_project_collection_update. pose proof (frames_projects env g) as H1.
  destruct (publish_project_collection_update _ _) as [[events|] g1]; [|done]. etrans; [exact H1|]. split; [done|]. by exists events.
Qed.

Lemma frames_resolution env ctx scope g : frames g (publish_request_resolution env ctx scope g).2.
Proof.
  unfold publish_request_resolution, publish_client_snapshot_replaced. destruct scope; [|apply frames_publish].
  split_test; [|done]. destruct (env_client_snapshot _ _ _); [apply frames_publish|done].
Qed.

Lemma frames_deliver ctx g : frames g (deliver_to_responder ctx g).2.
Proof. unfold deliver_to_responder. destruct (delivery_for _ _); [|done]. destruct (runtime_available _ _ _). by apply frames_same. Qed.

Lemma frames_clean client env g : frames g (remove_expired_client_workspace_roots client env (forget_client client g)).
Proof.
  unfold remove_expired_client_workspace_roots, remove_roots. destruct (remove_client_workspace_roots _ _) as [[] roots].
  - etrans; [|apply frames_queue_projects]. by apply frames_same.
  - by apply frames_same.
Qed.

Lemma frames_draining last g : frames g (begin_draining_after_last_client last g).
Proof. unfold begin_draining_after_last_client. destruct last; by apply frames_same. Qed.

Lemma frames_detach client env g : frames g (detach_client client env g).
Proof.
  unfold detach_client. destruct (detach client (g_hub g)) as [[] hub]; [|by apply frames_same].
  etrans; [|apply frames_draining]. etrans; [|by apply frames_same]. etrans; [|apply frames_clean]. by apply frames_same.
Qed.

Lemma frames_expire_all X b g : frames g (foldl expire_one (b, g) X).2.
Proof.
  revert b g. induction X as [|c X IH]; intros b g; [done|]. cbn [foldl]. unfold expire_one at 2, remove_roots.
  destruct (remove_client_workspace_roots _ _). etrans; [|apply IH]. by apply frames_same.
Qed.

Lemma frames_initialize_client conn id params meta now env g : frames g (initialize_client conn id params meta now env g).2.
Proof.
  unfold initialize_client. destruct (replace_client_workspace_roots _ _ _) as [changed roots].
  destruct (initialize _ _ _ _) as [outcome hub]. set (g1 := set_hub hub _).
  assert (exists ctx g2, match outcome with
    | NewClient ctx => (ctx, call (DiscardResources (client_instance_id ctx)) g1)
    | ReattachedClient ctx => (ctx, call (KeepAlive (client_instance_id ctx)) g1) end = (ctx, g2) /\ frames g g2)
    as (ctx & g2 & -> & H2) by (destruct outcome; eexists _, _; (split; [done|]); by apply frames_same).
  pose proof (frames_deliver ctx g2) as H3. destruct (deliver_to_responder ctx g2) as [requests g3].
  cbn [snd] in H3. destruct (env_client_snapshot _ _ _); [|by etrans].
  pose proof (frames_project_events changed env g3) as H4. destruct (project_events _ _ _). cbn [snd] in *.
  by do 2 (etrans; [eassumption|]).
Qed.

(** [client/initialize] keeps the barrier, unless its owner is back. *)
Lemma initialize_frames conn id params meta now env g :
  frames g (handle_initialize conn id params meta now env g).2 \/
  exists ps b, decode_initialize params = Ok ps /\ version_accepted ps = true /\ g_barrier g = Some b /\
    b_owner b = init_client_instance_id ps /\ frames (set_barrier None g) (handle_initialize conn id params meta now env g).2.
Proof.
  unfold handle_initialize. destruct (decode_initialize params) as [ps|]; [|by left].
  destruct (version_accepted ps) eqn:Hv; cbn; [|by left]. unfold pass_barrier.
  assert (forall g', frames g' (let '(admission, lifecycle) := App.admit_initialize (g_lifecycle g') in
    match admission with App.Rejected e => (g_error conn id meta e, set_lifecycle lifecycle g')
    | _ => initialize_client conn id ps meta now env (set_lifecycle lifecycle g') end).2) as Hadmit.
  { intros g'. destruct (App.admit_initialize _) as [[] lifecycle];
      [etrans; [|apply frames_initialize_client]|etrans; [|apply frames_initialize_client]|]; by apply frames_same. }
  destruct (g_barrier g) as [b|] eqn:Hb; [|left; apply Hadmit]. split_test; [|by left].
  right. exists ps, b. split; [done|]. split; [done|]. split; [done|]. split; [done|]. apply Hadmit.
Qed.

Lemma frames_subscribe conn id params meta env g : frames g (handle_subscribe conn id params meta env g).2.
Proof.
  unfold handle_subscribe. destruct (decode_subscribe params) as [[scope known_revision]|]; [|done].
  destruct (context_for_connection _ _) as [ctx|]; [|done].
  destruct (subscribe_with_membership _ _ _ _) as [[[r added]|] stream]; [|by apply frames_same]. cbn [sr_scope].
  set (g1 := if added && _ then _ else _). assert (frames g g1) as H1 by (unfold g1; destruct (added && _); by apply frames_same).
  destruct (sr_scope r); try done. destruct (delivery_for _ _); [|done].
  destruct (runtime_subscription_added _ _ _). etrans; [exact H1|]. by apply frames_same.
Qed.

Lemma frames_capabilities conn id params meta env g : frames g (handle_client_capabilities_changed conn id params meta env g).2.
Proof.
  unfold handle_client_capabilities_changed. destruct (decode_capabilities params) as [[caps roots]|]; [|done].
  destruct (context_for_connection _ _) as [ctx|]; [|done]. set (g1 := match caps with Some _ => _ | None => _ end).
  assert (frames g g1) as H1 by (unfold g1; destruct caps; by apply frames_same).
  assert (exists changed g2, match roots with
    | Some roots => let '(changed, r) := replace_client_workspace_roots (client_instance_id ctx) roots (g_roots g1) in (changed, set_roots r g1)
    | None => (false, g1) end = (changed, g2) /\ frames g1 g2) as (changed & g2 & -> & H2).
  { destruct roots as [roots|]; [|by eexists _, _]. destruct (replace_client_workspace_roots _ _ _).
    eexists _, _. split; [done|]. by apply frames_same. }
  destruct (env_projects _ _); [|by etrans]. pose proof (frames_project_events changed env g2).
  destruct (project_events _ _ _). by do 2 (etrans; [eassumption|]).
Qed.

Lemma frames_resolve conn id params meta env g : frames g (handle_pending_request_resolve conn id params meta env g).2.
Proof.
  unfold handle_pending_request_resolve. destruct (decode_resolve params) as [[request_id resolution]|]; [|done].
  destruct (context_for_connection _ _) as [ctx|]; [|done]. destruct (runtime_respond _ _ _ _ _) as [outcome rt].
  assert (frames g (set_requests rt g)) as H1 by by apply frames_same.
  destruct outcome; try done. pose proof (frames_resolution env ctx scope (set_requests rt g)).
  destruct (publish_request_resolution _ _ _ _). by etrans.
Qed.

Lemma frames_response conn request_id answer env g : frames g (handle_client_response conn request_id answer env g).2.
Proof.
  unfold handle_client_response. destruct (context_for_connection _ _) as [ctx|]; [|done].
  destruct (runtime_respond _ _ _ _ _) as [outcome rt]. assert (frames g (set_requests rt g)) as H1 by by apply frames_same.
  destruct outcome; try done. destruct (is_auth_terminal_exchange _ _); [done|].
  pose proof (frames_resolution env ctx scope (set_requests rt g)). destruct (publish_request_resolution _ _ _ _) as [[] ?]; by etrans.
Qed.

Lemma frames_unsubscribe conn id params meta g : frames g (handle_unsubscribe conn id params meta g).2.
Proof.
  unfold handle_unsubscribe. destruct (decode_unsubscribe params) as [scope|]; [|done].
  destruct (context_for_connection _ _); [|done]. destruct scope; by apply frames_same.
Qed.

(** The methods whose handlers are not covered by [frames]. *)
Definition special (method : string) : bool :=
  bool_decide (method ∈ [CLIENT_INITIALIZE; CLIENT_HEARTBEAT; CLIENT_UPDATE_SHUTDOWN_PREPARE;
                         CLIENT_UPDATE_SHUTDOWN_COMMIT; CLIENT_UPDATE_SHUTDOWN_ABORT]).

Lemma frames_dispatch conn id method params meta now env g :
  special method = false -> frames g (dispatch conn id method params meta now env g).2.
Proof.
  intros Hs. unfold dispatch, is_method.
  repeat match goal with |- frames _ (if bool_decide (method = ?m) then _ else _).2 =>
    destruct (bool_decide_reflect (method = m)) as [->|]; [try (vm_compute in Hs; discriminate Hs)|] end.
  - unfold handle_client_probe. by destruct (decode_probe params).
  - apply frames_capabilities.
  - unfold handle_client_detach. destruct (decode_detach params); [|done]. destruct (context_for_connection _ _); [|done].
    apply frames_detach.
  - apply frames_same; unfold handle_client_replacement_impact; by repeat (case_match; try done).
  - apply frames_resolve.
  - apply frames_subscribe.
  - apply frames_unsubscribe.
  - by destruct (bool_decide _).
Qed.

Lemma frames_activity conn now g : frames g (activity conn now g).2.
Proof. unfold activity. destruct (observe_connection_activity _ _ _) as [[] ?]; by apply frames_same. Qed.

(** Activity of one connection changes no client's context. *)
Lemma activity_clients conn now hub c :
  context <$> clients (observe_connection_activity conn now hub).2 !! c = context <$> clients hub !! c.
Proof.
  unfold observe_connection_activity. destruct (connections hub !! conn) as [id|]; [|done].
  destruct (clients hub !! id) as [r|] eqn:E; [|done]. cbn. rewrite lookup_insert. case_decide; [|done]. subst. by rewrite E.
Qed.

Lemma activity_connections conn now hub : connections (observe_connection_activity conn now hub).2 = connections hub.
Proof.
  unfold observe_connection_activity. destruct (connections hub !! conn) as [id|]; [|done]. by destruct (clients hub !! id).
Qed.

Lemma activity_context conn now g conn' :
  context_for_connection conn' (g_hub (activity conn now g).2) = context_for_connection conn' (g_hub g).
Proof.
  pose proof (activity_clients conn now (g_hub g)) as Hc. pose proof (activity_connections conn now (g_hub g)) as Hn.
  unfold activity. destruct (observe_connection_activity conn now (g_hub g)) as [client hub]. cbn [snd] in *.
  unfold context_for_connection. destruct client; cbn; rewrite Hn; destruct (connections (g_hub g) !! conn'); cbn; [apply Hc|done|apply Hc|done].
Qed.

(** ** The update barrier *)

(** The two requests that lift the barrier: the owner aborts this attempt, or the
    owner initializes again. *)
Definition releases (owner attempt : string) (op : GatewayOp) (g : Gateway) : Prop :=
  match op with
  | GInbound conn (ClientRequest _ method params _) _ _ _ =>
      (method = CLIENT_INITIALIZE /\ exists ps, decode_initialize params = Ok ps /\ init_client_instance_id ps = owner) \/
      (method = CLIENT_UPDATE_SHUTDOWN_ABORT /\ decode_abort params = Ok attempt /\
       exists ctx, context_for_connection conn (g_hub g) = Some ctx /\ client_instance_id ctx = owner)
  | _ => False
  end.

Fixpoint never_released (owner attempt : string) (ops : list GatewayOp) (g : Gateway) : Prop :=
  match ops with
  | [] => True
  | op :: ops => ~ releases owner attempt op g /\ never_released owner attempt ops (gateway_step op g).2
  end.

(** The barrier of this attempt is up, and stays committed once it was. *)
Definition holds_barrier (b : UpdateShutdownBarrier) (g : Gateway) : Prop :=
  exists c, g_barrier g = Some (mkBarrier (b_owner b) (b_attempt_id b) c) /\ (b_committed b = true -> c = true).

Lemma holds_frames b g g' : frames g g' -> holds_barrier b g -> holds_barrier b g'.
Proof. intros [Hb _] (c & Hc & Hcc). exists c. by rewrite Hb. Qed.

Definition not_product (outcome : GatewayOutcome) : Prop := forall method params, outcome <> Product method params.

(** Only the product arms of the table hand a request on. *)
Lemma dispatch_product conn id method params meta now env g method' params' :
  (dispatch conn id method params meta now env g).1 = Product method' params' -> method ∈ PRODUCT_METHODS.
Proof.
  unfold dispatch. intros Hd.
  repeat match type of Hd with (if is_method method ?m then _ else _).1 = _ => destruct (is_method method m) end.
  - unfold handle_client_probe in Hd. by case_match.
  - unfold handle_initialize, initialize_client in Hd. by repeat case_match.
  - unfold handle_client_capabilities_changed in Hd. by repeat case_match.
  - unfold handle_client_heartbeat in Hd. by repeat case_match.
  - unfold handle_client_detach in Hd. by repeat case_match.
  - unfold handle_client_replacement_impact in Hd. by repeat case_match.
  - unfold handle_update_shutdown_prepare in Hd. by repeat case_match.
  - unfold handle_update_shutdown_commit in Hd. by repeat case_match.
  - unfold handle_update_shutdown_abort in Hd. by repeat case_match.
  - unfold handle_pending_request_resolve in Hd. by repeat case_match.
  - unfold handle_subscribe in Hd. by repeat case_match.
  - unfold handle_unsubscribe in Hd. by repeat case_match.
  - destruct (bool_decide_reflect (method ∈ PRODUCT_METHODS)); [done|discriminate Hd].
Qed.

(** A control request under a barrier. *)
Lemma control_request b conn id method params meta now env g :
  holds_barrier b g -> update_shutdown_control method = true ->
  ~ releases (b_owner b) (b_attempt_id b) (GInbound conn (ClientRequest id method params meta) now now env) g ->
  holds_barrier b (dispatch conn id method params meta now env g).2.
Proof.
  intros Hb Hc Hn. destruct (special method) eqn:Hs; [|by eapply holds_frames, Hb; apply frames_dispatch].
  pose proof Hb as (c & Hc1 & Hcc). unfold dispatch, is_method.
  repeat match goal with |- context [if bool_decide (method = ?m) then _ else _] =>
    destruct (bool_decide_reflect (method = m)) as [->|]; [try (vm_compute in Hs; discriminate Hs)|] end.
  - destruct (initialize_frames conn id params meta now env g) as [Hf|(ps & b' & Hd & _ & Hb' & Ho & _)].
    + by apply (holds_frames b g).
    + exfalso. apply Hn. left. split; [done|]. exists ps. split; [done|]. rewrite Hc1 in Hb'. by simplify_eq.
  - unfold handle_client_heartbeat. destruct (decode_heartbeat params); [|done]. by exists c.
  - unfold handle_update_shutdown_prepare. destruct (decode_prepare params) as [[]|]; [|done]. destruct (negb _); [done|].
    destruct (context_for_connection _ _); [|done]. by rewrite Hc1.
  - unfold handle_update_shutdown_commit. destruct (decode_commit params); [|done].
    destruct (context_for_connection _ _); [|done]. rewrite Hc1. destruct (owns _ _ _); [|done]. by exists true.
  - unfold handle_update_shutdown_abort. destruct (decode_abort params) as [attempt|] eqn:Hd; [|done].
    destruct (context_for_connection _ _) as [ctx|] eqn:Hctx; [|done]. rewrite Hc1.
    destruct (owns _ _ _) eqn:Ho; [|done]. exfalso. unfold owns in Ho. apply andb_true_iff in Ho as [?%bool_decide_eq_true ?%bool_decide_eq_true].
    cbn in *. subst. apply Hn. right. split; [done|]. split; [done|]. by exists ctx.
  - exfalso. unfold special in Hs. apply bool_decide_eq_true in Hs. repeat (apply elem_of_cons in Hs as [Hs|Hs]; [done|]).
    by apply not_elem_of_nil in Hs.
Qed.

Lemma barrier_inbound b conn message now completed env g :
  holds_barrier b g -> ~ releases (b_owner b) (b_attempt_id b) (GInbound conn message now completed env) g ->
  holds_barrier b (handle_inbound conn message now completed env g).2 /\
  not_product (handle_inbound conn message now completed env g).1.
Proof.
  intros Hb Hn. unfold handle_inbound.
  assert (holds_barrier b (handle_inbound_inner conn message now env g).2 /\
          not_product (handle_inbound_inner conn message now env g).1) as [H1 H2].
  { destruct message as [id method params meta| |request_id answer]; cbn; [| |].
    - unfold handle_request. destruct (_ && _); [done|]. set (g1 := if needs_client method then _ else _).
      assert (frames g g1 /\ forall c, context_for_connection c (g_hub g1) = context_for_connection c (g_hub g)) as [Hf Hctx].
      { unfold g1. destruct (needs_client method); [|done]. split; [apply frames_activity|intros; apply activity_context]. }
      pose proof (holds_frames b _ _ Hf Hb) as Hb1. destruct Hb1 as (c & Hc & Hcc). rewrite Hc. cbn.
      destruct (update_shutdown_control method) eqn:Hctl; cbn; [|by split; [exists c|]]. split.
      + apply control_request; [by exists c|done|]. intros Hr. apply Hn. cbn in *. by rewrite Hctx in Hr.
      + intros m p Hp%dispatch_product. unfold update_shutdown_control in Hctl. apply bool_decide_eq_true in Hctl.
        revert Hp. repeat (apply elem_of_cons in Hctl as [->|Hctl]; [apply (bool_decide_unpack _); vm_compute; exact I|]).
        by apply not_elem_of_nil in Hctl.
    - done.
    - split; [by eapply holds_frames, Hb; apply frames_response|]. intros m p. unfold handle_client_response.
      by repeat case_match. }
  destruct (handle_inbound_inner _ _ _ _ _) as [outcome g1]. done.
Qed.

(** Operations that are not requests of clients. *)
Lemma frames_background op g :
  match op with GInbound _ _ _ _ _ | GDrainEvents _ => False | _ => True end -> frames g (gateway_step op g).2.
Proof.
  intros Hop. destruct op; cbn [gateway_step] in *; try done.
  - unfold handle_transport_closed. destruct (observe_transport_closed _ _ _) as [[] ?]; by apply frames_same.
  - unfold expire_client_after_reconnect_grace. destruct (expire_after_grace _ _ _) as [[] hub]; try by apply frames_same.
    etrans; [|apply frames_draining]. etrans; [|apply frames_clean]. by apply frames_same.
  - unfold expire_inactive. destruct (expire_inactive_clients _ _) as [batch hub].
    pose proof (frames_expire_all (expired batch) false (set_hub hub g)) as Hf. destruct (foldl expire_one _ _) as [changed g1].
    etrans; [|apply frames_draining]. etrans; [by apply frames_same|]. etrans; [exact Hf|].
    destruct changed; [apply frames_queue_projects|done].
  - apply frames_activity.
  - unfold drain_server_requests. destruct (context_for_connection _ _) as [ctx|]; [|done].
    pose proof (frames_deliver ctx g). by destruct (deliver_to_responder _ _).
  - pose proof (frames_publish scope payload g) as Hf. destruct (publish _ _ _) as [events g1]. etrans; [exact Hf|].
    split; [done|]. by exists events.
  - pose proof (frames_publish scope payload g). by destruct (publish _ _ _).
  - by apply frames_same.
  - unfold shutdown. destruct (App.request_shutdown _) as [[] ?], stopped; by apply frames_same.
Qed.

Definition answers_not_product (out : list GatewayEvent) : Prop :=
  forall conn outcome, EvAnswer conn outcome ∈ out -> not_product outcome.

Lemma barrier_step b op g : holds_barrier b g -> ~ releases (b_owner b) (b_attempt_id b) op g ->
  holds_barrier b (gateway_step op g).2 /\ answers_not_product (gateway_step op g).1.
Proof.
  clear json_len_nonneg. intros Hb Hn. destruct op.
  1: { destruct (barrier_inbound b conn message now completed env g Hb Hn) as [H1 H2]. cbn.
       destruct (handle_inbound _ _ _ _ _ _) as [outcome g1]. split; [done|]. intros c o [= -> ->]%list_elem_of_singleton. exact H2. }
  all: split; [|intros c o Ho; cbn in Ho; repeat case_match; set_solver].
  all: try (eapply holds_frames, Hb; by apply frames_background).
  destruct Hb as (c & Hc & Hcc). by exists c.
Qed.

(** Once an update barrier is up it stays up, for the same owner and attempt
    and never losing its commitment, whatever clients send, however clients come,
    go or expire and whatever background work publishes, until that owner aborts
    that attempt or initializes again; and while it is up no request reaches a
    product handler. *)
Theorem update_barrier_holds b ops g :
  g_barrier g = Some b -> never_released (b_owner b) (b_attempt_id b) ops g ->
  (exists c, g_barrier (gateway_run ops g).2 = Some (mkBarrier (b_owner b) (b_attempt_id b) c) /\ (b_committed b = true -> c = true)) /\
  (forall conn outcome, EvAnswer conn outcome ∈ (gateway_run ops g).1 -> forall method params, outcome <> Product method params).
Proof.
  intros Hb Hn. change (holds_barrier b (gateway_run ops g).2 /\ answers_not_product (gateway_run ops g).1).
  assert (holds_barrier b g) as Hh by (exists (b_committed b); by destruct b). clear Hb.
  revert g Hn Hh. induction ops as [|op ops IH]; intros g Hn Hh; cbn.
  { split; [done|]. by intros c o Hc%not_elem_of_nil. }
  destruct Hn as [Hr Hn]. destruct (barrier_step b op g Hh Hr) as [H1 H2]. cbn in Hn.
  destruct (gateway_step op g) as [out g1]. destruct (IH g1 Hn H1) as [H3 H4]. destruct (gateway_run ops g1) as [outs g2].
  split; [done|]. intros c o [?|?]%elem_of_app; eauto.
Qed.

(** ** The queue of events *)

Definition drained_for (conn : string) (e : GatewayEvent) : list StateEventDelivery :=
  match e with
  | EvDrained c events => if bool_decide (c = conn) then events else []
  | EvAnswer c (Respond _ _ (GResult ResHeartbeat _) events _) => if bool_decide (c = conn) then events else []
  | _ => []
  end.

Definition queued_for (conn : string) (g : Gateway) : list StateEventDelivery :=
  filter (fun e => d_connection (sed_delivery e) = conn) (g_pending g).

Lemma drain_spec conn c g :
  (if bool_decide (c = conn) then (drain_event_deliveries c g).1 else []) ++ queued_for conn (drain_event_deliveries c g).2
  = queued_for conn g.
Proof.
  unfold drain_event_deliveries, queued_for. cbn. rewrite list_filter_filter. split_test; [subst c|].
  - rewrite (filter_none (fun e => _ /\ _)); [by rewrite app_nil_r|]. naive_solver.
  - cbn. apply list_filter_iff. naive_solver.
Qed.

Lemma frames_queue conn g g' : frames g g' -> exists more, queued_for conn g' = queued_for conn g ++ more.
Proof. intros [_ (more & Hm)]. eexists. unfold queued_for. by rewrite Hm, filter_app. Qed.

(** Only a heartbeat drains the queue in an answer. *)
Lemma dispatch_drains_nothing conn0 conn id method params meta now env g :
  method <> CLIENT_HEARTBEAT -> drained_for conn0 (EvAnswer conn (dispatch conn id method params meta now env g).1) = [].
Proof.
  intros Hm. unfold dispatch, is_method. rewrite (bool_decide_eq_false_2 (method = CLIENT_HEARTBEAT)) by done.
  repeat match goal with |- context [if bool_decide (method = ?m) then _ else _] => destruct (bool_decide (method = m)) end.
  - unfold handle_client_probe. by case_match.
  - unfold handle_initialize, initialize_client. by repeat case_match.
  - unfold handle_client_capabilities_changed. by repeat case_match.
  - unfold handle_client_detach. by repeat case_match.
  - unfold handle_client_replacement_impact. by repeat case_match.
  - unfold handle_update_shutdown_prepare. by repeat case_match.
  - unfold handle_update_shutdown_commit. by repeat case_match.
  - unfold handle_update_shutdown_abort. by repeat case_match.
  - unfold handle_pending_request_resolve. by repeat case_match.
  - unfold handle_subscribe. by repeat case_match.
  - unfold handle_unsubscribe. by repeat case_match.
  - by destruct (bool_decide _).
Qed.

(** The queue grows at its end, at most, unless a heartbeat drains it. *)
Lemma dispatch_pending conn id method params meta now env g :
  method <> CLIENT_HEARTBEAT -> exists more, g_pending (dispatch conn id method params meta now env g).2 = g_pending g ++ more.
Proof.
  intros Hm. destruct (special method) eqn:Hs; [|apply (frames_dispatch conn id method params meta now env g Hs)].
  unfold dispatch, is_method.
  repeat match goal with |- context [if bool_decide (method = ?m) then _ else _] =>
    destruct (bool_decide_reflect (method = m)) as [->|]; [try (vm_compute in Hs; discriminate Hs)|] end.
  - destruct (initialize_frames conn id params meta now env g) as [[_ Hf]|(ps & b & _ & _ & _ & _ & [_ Hf])]; exact Hf.
  - done.
  - exists []. rewrite app_nil_r. unfold handle_update_shutdown_prepare. by repeat case_match.
  - exists []. rewrite app_nil_r. unfold handle_update_shutdown_commit. by repeat case_match.
  - exists []. rewrite app_nil_r. unfold handle_update_shutdown_abort. by repeat case_match.
  - by destruct (bool_decide _); exists []; rewrite app_nil_r.
Qed.

(** What one operation drains for a connection, with what it leaves queued. *)
Definition drains (conn : string) (out : list GatewayEvent) (g g' : Gateway) : Prop :=
  exists later, (out ≫= drained_for conn) ++ queued_for conn g' = queued_for conn g ++ later.

Lemma drains_pending conn out g g' : out ≫= drained_for conn = [] ->
  (exists more, g_pending g' = g_pending g ++ more) -> drains conn out g g'.
Proof. intros Ho (more & Hm). unfold drains, queued_for. rewrite Ho, Hm, filter_app. by eexists. Qed.

Lemma drains_request conn0 conn id method params meta now env g :
  drains conn0 [EvAnswer conn (handle_request conn id method params meta now env g).1] g
    (handle_request conn id method params meta now env g).2.
Proof.
  assert (forall e, drains conn0 [EvAnswer conn (g_error conn id meta e)] g g) as Herr.
  { intros e. apply drains_pending; [done|]. exists []. by rewrite app_nil_r. }
  unfold handle_request. destruct (_ && _); [apply Herr|]. set (g1 := if needs_client method then _ else _).
  assert (g_pending g1 = g_pending g) as Hg.
  { unfold g1, activity. destruct (needs_client method); [|done]. by destruct (observe_connection_activity _ _ _) as [[] ?]. }
  assert (forall out g', drains conn0 out g1 g' -> drains conn0 out g g') as Hd
    by (intros out g' (later & Hl); exists later; rewrite Hl; unfold queued_for; by rewrite Hg).
  apply Hd. destruct (_ && _).
  { apply drains_pending; [done|]. exists []. by rewrite app_nil_r. }
  destruct (decide (method = CLIENT_HEARTBEAT)) as [->|Hm].
  - change (dispatch conn id CLIENT_HEARTBEAT params meta now env g1) with (handle_client_heartbeat conn id params meta g1).
    unfold handle_client_heartbeat. destruct (decode_heartbeat params).
    + exists []. rewrite app_nil_r, <- (drain_spec conn0 conn g1). cbn. by rewrite app_nil_r.
    + apply drains_pending; [done|]. exists []. by rewrite app_nil_r.
  - apply drains_pending; [|by apply dispatch_pending]. unfold mbind. cbn -[dispatch drained_for]. by rewrite dispatch_drains_nothing.
Qed.

Lemma drains_step conn0 op g : drains conn0 (gateway_step op g).1 g (gateway_step op g).2.
Proof.
  destruct op; try (apply drains_pending; [cbn; by repeat case_match|by apply frames_background]).
  - cbn [gateway_step]. unfold handle_inbound.
    assert (forall o g', drains conn0 [EvAnswer conn o] g g' ->
      drains conn0 [EvAnswer conn o] g (set_hub (observe_connection_activity conn completed (g_hub g')).2 g')) as Hd
      by (intros o g' (later & Hl); by exists later).
    destruct message as [id method params meta| |request_id answer]; cbn [handle_inbound_inner].
    + pose proof (drains_request conn0 conn id method params meta now env g) as H. destruct (handle_request _ _ _ _ _ _ _ _). by apply Hd.
    + apply Hd, drains_pending; [done|]. exists []. by rewrite app_nil_r.
    + pose proof (frames_response conn request_id answer env g) as [_ Hf].
      assert (drained_for conn0 (EvAnswer conn (handle_client_response conn request_id answer env g).1) = []) as Ho
        by (unfold handle_client_response; by repeat case_match).
      destruct (handle_client_response _ _ _ _ _) as [o g']. apply Hd, drains_pending; [|done]. unfold mbind. cbn -[drained_for] in *. by rewrite Ho.
  - exists []. rewrite app_nil_r, <- (drain_spec conn0 conn g). cbn. by rewrite app_nil_r.
Qed.

(** The queue of background events is a fair pipe to each connection: in
    every execution the events queued for a connection come out to it exactly
    once and in order, by its heartbeats and its link, before any event queued
    later, and none is dropped while the connection does not drain. *)
Theorem queued_events_drain_in_order conn ops g :
  exists later,
    ((gateway_run ops g).1 ≫= drained_for conn) ++ queued_for conn (gateway_run ops g).2 = queued_for conn g ++ later.
Proof.
  revert g. induction ops as [|op ops IH]; intros g; cbn [gateway_run].
  { exists []. by rewrite app_nil_r. }
  destruct (drains_step conn op g) as (l1 & H1). destruct (gateway_step op g) as [out g1]. cbn [fst snd] in H1.
  destruct (IH g1) as (l2 & H2). destruct (gateway_run ops g1) as [outs g2]. cbn [fst snd] in *.
  exists (l1 ++ l2). by rewrite bind_app, <- app_assoc, H2, !app_assoc, H1.
Qed.

(** ** When the barrier goes up *)

Lemma no_other_owners id hub c r :
  other_owners id hub = [] -> clients hub !! c = Some r -> c <> id -> role (context r) = ShellHold.
Proof.
  unfold other_owners. intros Ho%fmap_nil_inv Hc Hne. destruct (decide (role (context r) = ShellHold)) as [?|Hr]; [done|].
  assert ((c, r) ∈ filter (fun kv : string * ClientRecord => kv.1 <> id /\ role (context kv.2) <> ShellHold) (map_to_list (clients hub))) as Hin
    by (apply list_elem_of_filter; split; [done|by apply elem_of_map_to_list]).
  rewrite Ho in Hin. by apply not_elem_of_nil in Hin.
Qed.

(** The conditions of the first [prepare] of an attempt. *)
Definition may_prepare (b : UpdateShutdownBarrier) (conn : string) (params : JsonValue) (env : Env) (g : Gateway) : Prop :=
  exists ctx stop blockers,
    context_for_connection conn (g_hub g) = Some ctx /\ b_owner b = client_instance_id ctx /\ b_committed b = false /\
    decode_prepare params = Ok (b_attempt_id b, stop) /\ (1 <= String.length (b_attempt_id b) <= 128)%nat /\
    (forall c r, clients (g_hub g) !! c = Some r -> c <> b_owner b -> role (context r) = ShellHold) /\
    env_blockers env = Some blockers /\
    (stop = true \/ (active_turns blockers <= 0 /\ pending_task_requests blockers <= 0 /\ env_terminals env <= 0)).

Lemma prepare_sets conn id params meta env g b :
  g_barrier g = None -> g_barrier (handle_update_shutdown_prepare conn id params meta env g).2 = Some b ->
  may_prepare b conn params env g.
Proof.
  intros Hn. unfold handle_update_shutdown_prepare. destruct (decode_prepare params) as [[attempt stop]|] eqn:Hd; [|cbn; by rewrite Hn].
  destruct (valid_update_attempt_id attempt) eqn:Hv; cbn; [|by rewrite Hn].
  destruct (context_for_connection conn (g_hub g)) as [ctx|] eqn:Hctx; [|cbn; by rewrite Hn]. rewrite Hn. unfold update_blocked.
  destruct (bool_decide_reflect (other_owners (client_instance_id ctx) (g_hub g) <> [])) as [|Ho]; [cbn; by rewrite Hn|]. destruct (env_blockers env) as [blockers|] eqn:Hb; [|cbn; by rewrite Hn].
  destruct (negb stop && _) eqn:Hw; [cbn; by rewrite Hn|]. cbn. intros [= <-].
  exists ctx, stop, blockers. do 3 (split; [done|]). cbn. split; [done|]. split.
  { unfold valid_update_attempt_id in Hv. apply andb_true_iff in Hv as [H1 H2%bool_decide_eq_true].
    split; [|done]. destruct attempt; [discriminate H1|]. cbn. lia. }
  split. { intros c r. apply no_other_owners. destruct (other_owners _ _); [done|]. exfalso. by apply Ho. }
  split; [done|]. destruct stop; [by left|right]. cbn in Hw. apply orb_false_iff in Hw as [[H1 H2]%orb_false_iff H3].
  apply bool_decide_eq_false in H1, H2, H3. lia.
Qed.

Lemma dispatch_sets conn id method params meta now env g b :
  g_barrier g = None -> g_barrier (dispatch conn id method params meta now env g).2 = Some b ->
  method = CLIENT_UPDATE_SHUTDOWN_PREPARE /\ may_prepare b conn params env g.
Proof.
  intros Hn. destruct (special method) eqn:Hs.
  2: { destruct (frames_dispatch conn id method params meta now env g Hs) as [-> _]. by rewrite Hn. }
  unfold dispatch, is_method.
  repeat match goal with |- context [if bool_decide (method = ?m) then _ else _] =>
    destruct (bool_decide_reflect (method = m)) as [->|]; [try (vm_compute in Hs; discriminate Hs)|] end.
  - destruct (initialize_frames conn id params meta now env g) as [[-> _]|(ps & b' & _ & _ & Hb & _)]; [by rewrite Hn|congruence].
  - unfold handle_client_heartbeat. destruct (decode_heartbeat params); cbn; by rewrite Hn.
  - intros Hb. split; [done|]. by apply (prepare_sets conn id params meta env g b).
  - unfold handle_update_shutdown_commit. rewrite Hn. by repeat (case_match; cbn; rewrite ?Hn).
  - unfold handle_update_shutdown_abort. rewrite Hn. by repeat (case_match; cbn; rewrite ?Hn).
  - by destruct (bool_decide _); cbn; rewrite Hn.
Qed.

(** An update barrier goes up for one reason only: an initialized client, at a
    time when every other client is a mere hold of a shell, asked to prepare an
    attempt with a valid id, and either accepted that active work stops or there
    was none: no running turn, no pending request, no open terminal.  The new
    barrier belongs to that client and attempt and is not committed. *)
Theorem update_barrier_is_guarded op g b :
  g_barrier g = None -> g_barrier (gateway_step op g).2 = Some b ->
  exists conn id params meta now completed env,
    op = GInbound conn (ClientRequest id CLIENT_UPDATE_SHUTDOWN_PREPARE params meta) now completed env /\
    may_prepare b conn params env g.
Proof.
  intros Hn Hb. destruct op.
  2,3,4,5,7,8,9,10,11: exfalso; match type of Hb with g_barrier (gateway_step ?op _).2 = _ =>
    destruct (frames_background op g I) as [Hf _]; rewrite Hf, Hn in Hb; discriminate Hb end.
  2: { cbn in Hb. by rewrite Hn in Hb. }
  cbn [gateway_step] in Hb. unfold handle_inbound in Hb.
  destruct message as [id method params meta| |request_id answer]; cbn [handle_inbound_inner] in Hb.
  2: { cbn in Hb. by rewrite Hn in Hb. }
  2: { destruct (frames_response conn request_id answer env g) as [Hf _].
       destruct (handle_client_response _ _ _ _ _). cbn in *. by rewrite Hf, Hn in Hb. }
  assert (g_barrier (handle_request conn id method params meta now env g).2 = Some b) as H1
    by (by destruct (handle_request _ _ _ _ _ _ _ _)).
  clear Hb. unfold handle_request in H1. destruct (_ && _); [cbn in H1; by rewrite Hn in H1|]. set (g1 := if needs_client method then _ else _) in H1.
  assert (g_barrier g1 = None /\ context_for_connection conn (g_hub g1) = context_for_connection conn (g_hub g) /\
    forall c, context <$> clients (g_hub g1) !! c = context <$> clients (g_hub g) !! c) as (Hg & Hctx & Hcl).
  { unfold g1. destruct (needs_client method); [|done]. destruct (frames_activity conn now g) as [-> _]. split; [done|].
    split; [apply activity_context|]. intros c. pose proof (activity_clients conn now (g_hub g) c) as Ha.
    unfold activity. by destruct (observe_connection_activity _ _ _) as [[] ?]. }
  rewrite Hg in H1. destruct (dispatch_sets conn id method params meta now env g1 b Hg H1) as (-> & ctx & stop & blockers & H2 & H3 & H4 & H5 & H6 & H7 & H8).
  exists conn, id, params, meta, now, completed, env. split; [done|]. exists ctx, stop, blockers. rewrite <- Hctx.
  do 5 (split; [done|]). split; [|done]. intros c r Hc Hne. specialize (Hcl c). rewrite Hc in Hcl.
  destruct (clients (g_hub g1) !! c) as [r'|] eqn:Hr; [|done]. injection Hcl as <-. by apply (H7 c r').
Qed.

End Handlers.
End Gateway.

(** ** Examples *)

Module GatewayWitness.
#[local] Existing Instance string_payloads.
#[local] Existing Instance ChatWitness.string_chat.
#[local] Existing Instance QuestionWitness.plain_codecs.

(** Parameters that carry one text. *)
Definition text_of (v : JsonValue) : string := match v with JString s => s | _ => ""%string end.

#[local] Instance text_codecs : GatewayCodecs := {|
  decode_probe := fun _ => Ok tt;
  decode_initialize := fun v => Ok (mkInitialize (text_of v) (mkShell Desktop None None) SurfaceHome (mkCapabilities [] []) [] None Interactive);
  decode_subscribe := fun _ => Ok (SubProjects, None);
  decode_unsubscribe := fun _ => Ok SubProjects;
  decode_capabilities := fun v => Ok (None, Some [text_of v]);
  decode_heartbeat := fun _ => Ok tt;
  decode_detach := fun _ => Ok tt;
  decode_impact := fun _ => Ok tt;
  decode_prepare := fun v => Ok (text_of v, false);
  decode_commit := fun v => Ok (text_of v);
  decode_abort := fun v => Ok (text_of v);
  decode_resolve := fun v => Ok (text_of v, ResolvePermission "yes")
|}.

Definition snapshots : SnapshotProvider :=
  {| provider_snapshot := fun _ _ _ => Ok (SnapProjects ("p"%string : @ProjectCollectionSnapshot string_payloads));
     task_resume_basis := fun _ _ => Ok None |}.

Definition quiet : Env := mkEnv snapshots (fun _ _ => Ok ("snapshot"%string : @ClientSnapshot string_payloads)) (fun s _ => s) (fun t _ => t)
  (fun t => t) (fun _ => Ok ("p"%string : @ProjectCollectionSnapshot string_payloads)) (fun _ => None)
  (Some (mkBlockers 0 0)) 0 (mkFacts "root" "3.0" "1.0").

Definition parse (v : JsonValue) : option (@Protocol.PermissionRequestParams string_payloads) := None.
Definition parse_q (v : JsonValue) : option (@Protocol.QuestionRequestParams string_payloads) := None.
Definition encode (f : QuestionRequestParams) : JsonValue := JNull.
Definition size (c : TaskChanges) : option Z := Some 10.

Lemma size_nonneg : forall c n, size c = Some n -> 0 <= n.
Proof. by intros c n [= <-]. Defined.

Definition ask (conn method text : string) : GatewayOp :=
  GInbound conn (ClientRequest "1" method (JString text) None) 0 0 quiet.

Abbreviation exec := (gateway_run parse parse_q encode size).
Abbreviation one := (gateway_step parse parse_q encode size).
Definition fresh : Gateway := new_gateway (mkPolicy 100 30) "root" (from_workspace_roots []).

Definition attach : list GatewayOp :=
  [ask "conn-1" CLIENT_INITIALIZE "c1"; ask "conn-1" STATE_SUBSCRIBE ""; ask "conn-2" CLIENT_INITIALIZE "c2"].
Definition projects_event : AppServerEventPayload := ProjectCollectionUpdated ("p"%string : @ProjectCollectionSnapshot string_payloads).

Example attached_subscriptions : subscriptions (g_stream (exec attach fresh).2) = [mkSubscription "c1" SubProjects].
Proof. vm_compute. reflexivity. Qed.


Example stranger_is_unknown : context_for_connection "conn-3" (g_hub (exec attach fresh).2) = None.
Proof. vm_compute. reflexivity. Qed.

Lemma uninitialized_connection_is_inert_witness :
  handle_inbound size "conn-3" (ClientRequest "7" TASK_SEND JNull None) 5 6 quiet (exec attach fresh).2
  = (g_error "conn-3" "7" None (not_initialized TASK_SEND), (exec attach fresh).2).
Proof.
  refine (uninitialized_connection_is_inert size "conn-3" (ClientRequest "7" TASK_SEND JNull None) 5 6 quiet _ stranger_is_unknown _).
  split; discriminate.
Defined.

(** One client alone prepares an update. *)
Definition alone : Gateway := (exec [ask "conn-1" CLIENT_INITIALIZE "c1"] fresh).2.
Definition prepare : GatewayOp := ask "conn-1" CLIENT_UPDATE_SHUTDOWN_PREPARE "attempt".
Definition barrier : UpdateShutdownBarrier := mkBarrier "c1" "attempt" false.

Example barrier_is_up : g_barrier (one prepare alone).2 = Some barrier.
Proof. vm_compute. reflexivity. Qed.

Lemma update_barrier_is_guarded_witness :
  exists conn id params meta now completed env,
    prepare = GInbound conn (ClientRequest id CLIENT_UPDATE_SHUTDOWN_PREPARE params meta) now completed env /\
    may_prepare barrier conn params env alone.
Proof.
  exact (update_barrier_is_guarded parse parse_q encode size prepare alone barrier ltac:(vm_compute; reflexivity) barrier_is_up).
Defined.

Definition refused : list GatewayOp :=
  [ask "conn-2" CLIENT_INITIALIZE "c2"; ask "conn-1" TASK_SEND ""; ask "conn-1" CLIENT_UPDATE_SHUTDOWN_COMMIT "attempt";
   ask "conn-1" CLIENT_UPDATE_SHUTDOWN_ABORT "other"].

Lemma refused_never_releases : never_released parse parse_q encode size "c1" "attempt" refused (one prepare alone).2.
Proof.
  cbn [never_released refused]. repeat split.
  all: intros [(Hm & ps & Hd & Ho)|(Hm & Hd & _)]; try discriminate Hm.
  - injection Hd as <-. discriminate Ho.
  - discriminate Hd.
Qed.

Lemma update_barrier_holds_witness :
  exists c, g_barrier (exec refused (one prepare alone).2).2 = Some (mkBarrier "c1" "attempt" c) /\ (false = true -> c = true).
Proof.
  exact (proj1 (update_barrier_holds parse parse_q encode size barrier refused (one prepare alone).2 barrier_is_up refused_never_releases)).
Defined.

(** The events that an answer carries for other connections reach nobody: when a
    client reports other workspace roots, the subscribed client's event travels
    in the reporter's answer, of which only the reporter's own events are
    written, and the queue of the subscriber stays empty. *)
Example events_for_others_are_lost :
  match (exec (attach ++ [ask "conn-2" CLIENT_CAPABILITIES_CHANGED "/work"]) fresh) with
  | (out, g) =>
      match last out with
      | Some (EvAnswer conn (Respond _ _ _ events _)) =>
          d_connection ∘ sed_delivery <$> events = ["conn-1"%string] /\ event_wire_messages conn events = [] /\ queued_for "conn-1" g = []
      | _ => False
      end
  end.
Proof. vm_compute. done. Qed.

(** Events queued for a connection that is gone stay queued: nothing removes them
    but a drain by that connection, and the client is back on another one. *)
Example events_of_a_lost_connection_stay :
  let g := (exec (attach ++ [GPublish (EventStateRoot "root") projects_event; GTransportClosed "conn-1" 10;
                             ask "conn-1b" CLIENT_INITIALIZE "c1"; ask "conn-1b" CLIENT_HEARTBEAT ""]) fresh).2 in
  length (queued_for "conn-1" g) = 1%nat /\ connections (g_hub g) !! "conn-1"%string = None.
Proof. vm_compute. done. Qed.

(** A barrier outlives its owner: after the owner has expired every request of the
    others is still refused. *)
Example barrier_outlives_its_owner :
  let g := (exec [prepare; GTransportClosed "conn-1" 10; GExpireAfterGrace "c1" 200 quiet] alone).2 in
  g_barrier g = Some barrier /\ clients (g_hub g) !! "c1"%string = None /\
  match (one (ask "conn-2" CLIENT_INITIALIZE "c2") g).1 with
  | [EvAnswer _ (Respond _ _ (GError e _) _ _)] => err_code e = ServerStopping
  | _ => False
  end.
Proof. vm_compute. done. Qed.

End GatewayWitness.
