(* ===== verification/Updates.v ===== *)
(** * Publication of Task updates

    Models [task_events.rs] (the updates that committed work sends),
    [protocol_edge/task_handlers/publication.rs] (how one update becomes events
    for the clients) and [protocol_edge/task_update_publisher.rs] (the thread that
    consumes the updates in coalesced batches).

    The navigation projection of a Project is a function argument ([ReadEntries]):
    what the storage shows at the time of the read.  Its result is [None] when the
    read fails and [Some None] when the Project has no group.  The order of reads
    and publications under the protocol lock is a transition system at the end. *)

From stdpp Require Import sorting.
From S2P Require Import Prelude Chat Records Publication.
From S2P Require Import Protocol ClientLifecycle TaskChangeLog Questions ServerRequests RequestRuntime StateSync Projects Gateway.

Local Open Scope Z_scope.

Section Updates.
Context `{PT : PayloadTypes} `{CP : ChatPayloads} `{FC : FormCodecs}.
Context (json_len : TaskChanges -> option Z) (detail_revision : ToolDetailSnapshot -> Z) (catalog_revision : SubagentCatalogSnapshot -> Z).

Abbreviation Gateway := (Gateway.Gateway).
Abbreviation publish := (Gateway.publish json_len).

(** ** Updates ([task_events.rs]) *)

Record TerminalOutputAppend := mkTerminalAppend { ta_terminal_id : string; ta_data : string }.

Record ToolDetailUpdate := mkDetailUpdate {
  td_artifact_id : string;
  td_details : ToolDetailSnapshot;
  td_terminal_appends : list TerminalOutputAppend;
}.

Record CommittedTaskChange := mkCommittedChange {
  cc_changes : TaskChanges;
  cc_tool_details : list ToolDetailUpdate;
  cc_navigation : option CommittedNavigationChange;
}.

Inductive TaskUpdateKind :=
| KChanged (change : CommittedTaskChange)
| KHistorySync (history_sync : TaskHistorySyncSnapshot)
| KToolDetailChanged (artifact_id : string) (deltas : list ToolDetailDelta)
| KSubagentCatalogChanged (catalog : SubagentCatalogSnapshot)
| KSubagentHistoryChanged (subagent_id : string) (chat : list TaskChatChange) (current_plan : option (option AgentPlanSnapshot))
| KNavigationProjectEntriesChanged (project_id : string)
| KNavigationRefreshStateChanged (refresh : TaskNavigationRefreshState).

Record TaskUpdate := mkUpdate { tu_task_id : string; tu_revision : Z; tu_kind : TaskUpdateKind }.

Definition append_delta (a : TerminalOutputAppend) : ToolDetailDelta := DeltaAppendTerminal (ta_terminal_id a) (ta_data a).

(** The notifier: a channel whose queue is given, or none when it is disabled. *)
Abbreviation TaskUpdateNotifier := (option (list TaskUpdate)).

Definition notify_update (update : TaskUpdate) (n : TaskUpdateNotifier) : TaskUpdateNotifier := (fun queue => queue ++ [update]) <$> n.

Definition task_changed (task_id : string) (revision : Z) (change : CommittedTaskChange) : TaskUpdateNotifier -> TaskUpdateNotifier :=
  notify_update (mkUpdate task_id revision (KChanged change)).

Definition streamed_chat_changed (task_id : string) (revision : Z) (chat : list TaskChatChange) : TaskUpdateNotifier -> TaskUpdateNotifier :=
  task_changed task_id revision (mkCommittedChange (mkChanges None None None None None None None None None None None None None chat false) [] None).

Definition history_sync_updated (task_id : string) (revision : Z) (history_sync : TaskHistorySyncSnapshot)
  : TaskUpdateNotifier -> TaskUpdateNotifier := notify_update (mkUpdate task_id revision (KHistorySync history_sync)).

Definition tool_detail_changed (task_id artifact_id : string) (artifact_sequence : Z) (appends : list TerminalOutputAppend)
  (n : TaskUpdateNotifier) : TaskUpdateNotifier :=
  match appends with
  | [] => n
  | _ => notify_update (mkUpdate task_id artifact_sequence (KToolDetailChanged artifact_id (append_delta <$> appends))) n
  end.

Definition subagent_catalog_changed (catalog : SubagentCatalogSnapshot) : TaskUpdateNotifier -> TaskUpdateNotifier :=
  notify_update (mkUpdate (catalog_task_id catalog) (catalog_revision catalog) (KSubagentCatalogChanged catalog)).

Definition subagent_history_changed (task_id subagent_id : string) (revision : Z) (chat : list TaskChatChange)
  (current_plan : option (option AgentPlanSnapshot)) : TaskUpdateNotifier -> TaskUpdateNotifier :=
  notify_update (mkUpdate task_id revision (KSubagentHistoryChanged subagent_id chat current_plan)).

Definition navigation_project_entries_changed (project_id : string) : TaskUpdateNotifier -> TaskUpdateNotifier :=
  notify_update (mkUpdate "" 0 (KNavigationProjectEntriesChanged project_id)).

Definition navigation_refresh_state_changed (refresh : TaskNavigationRefreshState) : TaskUpdateNotifier -> TaskUpdateNotifier :=
  notify_update (mkUpdate "" 0 (KNavigationRefreshStateChanged refresh)).

(** ** Navigation entries ([PreparedProjectEntries]) *)

Abbreviation ReadEntries := (TaskNavigationSection -> string -> option (option (Z * list TaskNavigationEntry * bool * bool))).

Record PreparedProjectEntries := mkPrepared { pp_generation : Z; pp_payloads : list AppServerEventPayload }.

Definition section_payload (read : ReadEntries) (project_id : string) (section : TaskNavigationSection) : list AppServerEventPayload :=
  match read section project_id with
  | None => []
  | Some group =>
      let '(task_count, entries, has_more, loading) := default (0, [], false, false) group in
      [ProjectEntriesReplaced section project_id task_count entries has_more loading]
  end.

Definition project_entries_payloads (read : ReadEntries) (project_id : string) : list AppServerEventPayload :=
  [SectionTasks; SectionArchive] ≫= section_payload read project_id.

(** The Project whose entries an update re-projects. *)
Definition update_project (update : TaskUpdate) : option string :=
  match tu_kind update with
  | KNavigationProjectEntriesChanged project_id => Some project_id
  | KChanged change =>
      match cc_navigation change with Some (NavProjectEntriesChanged project_id) => Some project_id | _ => None end
  | _ => None
  end.

Definition for_update (update : TaskUpdate) (read : ReadEntries) (generation : Z) : option PreparedProjectEntries :=
  project_id ← update_project update; Some (mkPrepared generation (project_entries_payloads read project_id)).

(** ** Publication under the protocol lock *)

(** [events.extend(publish)] over a list of payloads. *)
Fixpoint publish_all (scope : EventScope) (payloads : list AppServerEventPayload) (g : Gateway) : list StateEventDelivery * Gateway :=
  match payloads with
  | [] => ([], g)
  | payload :: payloads =>
      let '(events, g) := publish scope payload g in
      let '(more, g) := publish_all scope payloads g in (events ++ more, g)
  end.

Definition publish_project_entries (payloads : list AppServerEventPayload) (g : Gateway) : list StateEventDelivery * Gateway :=
  publish_all (EventStateRoot (root_of g)) payloads g.

Definition bump_generation (g : Gateway) : Gateway := set_generation (u64_add (g_entries_generation g) 1) g.

(** What [publish_project_entries_replaced] reads, and what it publishes. *)
Definition replaced_entries (read : ReadEntries) (project_id : string) (g : Gateway) : list AppServerEventPayload * Gateway :=
  (project_entries_payloads read project_id, bump_generation g).

Definition publish_project_entries_replaced (read : ReadEntries) (project_id : string) (g : Gateway) : list StateEventDelivery * Gateway :=
  let '(payloads, g) := replaced_entries read project_id g in publish_project_entries payloads g.

(** The payloads that [publish_entries_for_update] publishes: those prepared ahead
    of the lock, unless a request has published fresher ones since. *)
Definition entries_for_update (read : ReadEntries) (project_id : string) (prepared : option PreparedProjectEntries) (g : Gateway)
  : list AppServerEventPayload * Gateway :=
  match prepared with
  | Some prepared =>
      if bool_decide (pp_generation prepared = g_entries_generation g) then (pp_payloads prepared, g)
      else replaced_entries read project_id g
  | None => replaced_entries read project_id g
  end.

Definition publish_entries_for_update (read : ReadEntries) (project_id : string) (prepared : option PreparedProjectEntries) (g : Gateway)
  : list StateEventDelivery * Gateway :=
  let '(payloads, g) := entries_for_update read project_id prepared g in publish_project_entries payloads g.

Definition publish_task_payload (task_id : string) (payload : AppServerEventPayload) (g : Gateway) : list StateEventDelivery * Gateway :=
  publish (EventTask (root_of g) task_id) payload g.

Definition publish_refresh_state_changed (refresh : TaskNavigationRefreshState) (g : Gateway) : list StateEventDelivery * Gateway :=
  publish (EventStateRoot (root_of g)) (RefreshStateChanged refresh) g.

Definition publish_task_updated (task : TaskSummary) (g : Gateway) : list StateEventDelivery * Gateway :=
  publish (EventStateRoot (root_of g)) (TaskUpdated (ts_project_id task) task) g.

Definition publish_history_sync (task_id : string) (history_sync : TaskHistorySyncSnapshot) (g : Gateway) :=
  publish_task_payload task_id (TaskHistorySyncUpdated task_id history_sync) g.

Definition publish_tool_detail_change (task_id artifact_id : string) (revision : Z) (deltas : list ToolDetailDelta) (g : Gateway) :=
  publish_task_payload task_id (ToolDetailChanged task_id artifact_id revision deltas) g.

(** The event of one changed tool detail of a commit. *)
Definition detail_payload (task_id : string) (detail : ToolDetailUpdate) : AppServerEventPayload :=
  ToolDetailChanged task_id (td_artifact_id detail) (detail_revision (td_details detail))
    (DeltaReplaceDetails (td_details detail) :: (append_delta <$> td_terminal_appends detail)).

Definition publish_committed_task_change (read : ReadEntries) (task_id : string) (revision : Z) (change : CommittedTaskChange)
    (prepared : option PreparedProjectEntries) (g : Gateway) : list StateEventDelivery * Gateway :=
  let '(events, g) := publish_task_payload task_id (TaskChanged task_id revision (cc_changes change)) g in
  let '(details, g) := publish_all (EventTask (root_of g) task_id) (detail_payload task_id <$> cc_tool_details change) g in
  let '(navigation, g) :=
    match cc_navigation change with
    | None => ([], g)
    | Some (NavTaskUpdated task) => publish_task_updated task g
    | Some (NavProjectEntriesChanged project_id) => publish_entries_for_update read project_id prepared g
    end in
  (events ++ details ++ navigation, g).

(** Statuses that end the requests of a Task. *)
Definition closes_requests (status : TaskStatus) : bool :=
  match status with
  | StatusStopping | StatusIdle | StatusInterrupted | StatusFailed | StatusCompleted => true
  | _ => false
  end.

Definition clears_transient_requests (update : TaskUpdate) : bool :=
  match tu_kind update with
  | KChanged change => match ch_task (cc_changes change) with Some task => closes_requests (ts_status task) | None => false end
  | _ => false
  end.

(** The match on the kind of the update. *)
Definition publish_kind (read : ReadEntries) (update : TaskUpdate) (prepared : option PreparedProjectEntries) (g : Gateway)
  : list StateEventDelivery * Gateway :=
  let task_id := tu_task_id update in
  match tu_kind update with
  | KNavigationProjectEntriesChanged project_id => publish_entries_for_update read project_id prepared g
  | KNavigationRefreshStateChanged refresh => publish_refresh_state_changed refresh g
  | KHistorySync history_sync => publish_history_sync task_id history_sync g
  | KChanged change => publish_committed_task_change read task_id (tu_revision update) change prepared g
  | KToolDetailChanged artifact_id deltas => publish_tool_detail_change task_id artifact_id (tu_revision update) deltas g
  | KSubagentCatalogChanged catalog => publish_task_payload task_id (SubagentCatalogUpdated catalog) g
  | KSubagentHistoryChanged subagent_id chat current_plan =>
      publish_task_payload task_id (SubagentHistoryChanged task_id subagent_id (tu_revision update) chat current_plan) g
  end.

Definition publish_prepared_task_update (read : ReadEntries) (update : TaskUpdate) (prepared : option PreparedProjectEntries) (g : Gateway)
  : list StateEventDelivery * Gateway :=
  let task_id := tu_task_id update in
  let '(events, g) := publish_kind read update prepared g in
  let pending := pending_for_task task_id (broker (g_requests g)) in
  let '(requests, g) :=
    if negb (bool_decide (length pending = 0%nat)) || clears_transient_requests update
    then publish_task_payload task_id (TaskRequestsUpdated task_id pending) g else ([], g) in
  (events ++ requests, queue_events (events ++ requests) g).

Definition publish_task_update (read : ReadEntries) (update : TaskUpdate) (g : Gateway) : list StateEventDelivery * Gateway :=
  publish_prepared_task_update read update None g.

Definition publish_committed_task_update_for_connection (read : ReadEntries) (conn : string) (update : TaskUpdate) (g : Gateway)
  : list StateEventDelivery * list (ServerRequestDelivery (Value := JsonValue)) * Gateway :=
  let '(_, g) := publish_task_update read update g in
  let '(events, g) := drain_event_deliveries conn g in
  let '(requests, g) := drain_server_requests conn g in
  (events, requests, g).

(** ** Coalescing ([task_update_publisher.rs]) *)

Definition MAX_BATCH : nat := 1024.

(** The filter over the reversed batch, with the targets that follow. *)
Definition keep_update (later : gset string * bool) (update : TaskUpdate) : bool * (gset string * bool) :=
  let '(later_projects, later_refresh_state) := later in
  match tu_kind update with
  | KNavigationProjectEntriesChanged project_id =>
      (negb (bool_decide (project_id ∈ later_projects)), ({[project_id]} ∪ later_projects, later_refresh_state))
  | KNavigationRefreshStateChanged _ => (negb later_refresh_state, (later_projects, true))
  | KChanged change =>
      (true, match cc_navigation change with
             | Some (NavProjectEntriesChanged project_id) => ({[project_id]} ∪ later_projects, later_refresh_state)
             | _ => later
             end)
  | _ => (true, later)
  end.

Fixpoint filter_reversed (later : gset string * bool) (batch : list TaskUpdate) : list TaskUpdate :=
  match batch with
  | [] => []
  | update :: batch =>
      let '(keep, later) := keep_update later update in
      let rest := filter_reversed later batch in if keep then update :: rest else rest
  end.

Definition coalesce (batch : list TaskUpdate) : list TaskUpdate := reverse (filter_reversed (∅, false) (reverse batch)).

(** ** What coalescing changes

    A client's view for a reference: the entries of each Project as last projected,
    the refresh state, and the updates that carry values or deltas, in order.  Every
    projection within a batch reads the same storage. *)

Record ClientView := mkView {
  vw_entries : gmap string (list AppServerEventPayload);
  vw_refresh : option TaskNavigationRefreshState;
  vw_stream : list TaskUpdate;
}.

Definition project_entries (read : ReadEntries) (update : TaskUpdate) (m : gmap string (list AppServerEventPayload)) :=
  match update_project update with Some p => <[p := project_entries_payloads read p]> m | None => m end.

Definition apply_update (read : ReadEntries) (v : ClientView) (update : TaskUpdate) : ClientView :=
  let entries := project_entries read update (vw_entries v) in
  match tu_kind update with
  | KNavigationProjectEntriesChanged _ => mkView entries (vw_refresh v) (vw_stream v)
  | KNavigationRefreshStateChanged refresh => mkView entries (Some refresh) (vw_stream v)
  | _ => mkView entries (vw_refresh v) (vw_stream v ++ [update])
  end.

(** Equal views, up to what later updates will replace. *)
Record agree (later : gset string * bool) (v w : ClientView) : Prop := {
  ag_entries : forall p, (p ∉ later.1) -> vw_entries v !! p = vw_entries w !! p;
  ag_refresh : later.2 = false -> vw_refresh v = vw_refresh w;
  ag_stream : vw_stream v = vw_stream w;
}.

Lemma agree_eq v w : agree (∅, false) v w -> v = w.
Proof.
  intros [He Hr Hs]. destruct v, w. cbn in *. f_equal; [|by apply Hr|done]. apply map_eq. intros p. apply He. set_solver.
Qed.

Lemma agree_project read p P R v w u :
  agree ({[p]} ∪ P, R) v w -> update_project u = Some p ->
  forall q, (q ∉ P) -> project_entries read u (vw_entries v) !! q = project_entries read u (vw_entries w) !! q.
Proof.
  intros [He _ _] Hu q Hq. unfold project_entries. rewrite Hu, !lookup_insert. case_decide; [done|]. apply He. cbn. set_solver.
Qed.

Lemma agree_step read later u v w :
  agree (keep_update later u).2 v w ->
  agree later (if (keep_update later u).1 then apply_update read v u else v) (apply_update read w u).
Proof.
  destruct later as [P R]. intros Ha. unfold apply_update, keep_update in *. pose proof Ha as [He Hr Hs].
  destruct (tu_kind u) as [change| | | | |p|refresh] eqn:Hk; cbn in *.
  1: { destruct (update_project u) as [p|] eqn:Hu.
       - pose proof Hu as Hn. unfold update_project in Hn. rewrite Hk in Hn.
         destruct (cc_navigation change) as [[|q]|]; try done. injection Hn as ->.
         split; cbn; [by apply (agree_project read p P R)|done|by rewrite Hs].
       - assert (later_same : agree (P, R) v w).
         { unfold update_project in Hu. rewrite Hk in Hu. by destruct (cc_navigation change) as [[]|]. }
         destruct later_same as [He' Hr' Hs']. split; cbn; [|done|by rewrite Hs'].
         intros q Hq. unfold project_entries. rewrite Hu. by apply He'. }
  5: { assert (update_project u = Some p) as Hu by (unfold update_project; by rewrite Hk).
       destruct (bool_decide_reflect (p ∈ P)) as [Hp|Hp]; cbn; split; cbn; try done.
       - intros q Hq. unfold project_entries. rewrite Hu, lookup_insert_ne by set_solver. apply He. set_solver.
       - by apply (agree_project read p P R). }
  5: { assert (update_project u = None) as Hu by (unfold update_project; by rewrite Hk).
       destruct R; cbn; split; cbn; try done; intros q Hq; unfold project_entries; rewrite Hu; by apply He. }
  all: assert (update_project u = None) as Hu by (unfold update_project; by rewrite Hk).
  all: split; cbn; [intros q Hq; unfold project_entries; rewrite Hu; by apply He|done|by rewrite Hs].
Qed.

Lemma agree_filter read v later l :
  agree later (foldr (fun u w => apply_update read w u) v (filter_reversed later l)) (foldr (fun u w => apply_update read w u) v l).
Proof.
  revert later. induction l as [|u l IH]; intros later; [by split|]. cbn [filter_reversed foldr].
  pose proof (agree_step read later u _ _ (IH (keep_update later u).2)) as H.
  destruct (keep_update later u) as [[] later']; exact H.
Qed.

Lemma sublist_reverse {A} (l k : list A) : sublist l k -> sublist (reverse l) (reverse k).
Proof.
  induction 1; rewrite ?reverse_cons; [done|by apply sublist_app|]. by apply sublist_inserts_r.
Qed.

Lemma coalesce_sublist batch : sublist (coalesce batch) batch.
Proof.
  assert (forall l later, sublist (filter_reversed later l) l) as Hf.
  { intros l. induction l as [|u l IH]; intros later; [done|]. cbn. destruct (keep_update later u) as [[] later'].
    - by apply sublist_skip.
    - by apply sublist_cons. }
  unfold coalesce. rewrite <- (reverse_involutive batch) at 2. apply sublist_reverse, Hf.
Qed.

(** C21. Coalescing a batch of updates is invisible to clients: for every batch and
    every storage the projections read, publishing only the coalesced updates
    leaves each client with the same navigation entries, the same refresh state and
    the same stream of other updates in the same order as publishing them all;
    what is published keeps its order in the batch. *)
Theorem coalescing_is_invisible read v batch :
  foldl (apply_update read) v (coalesce batch) = foldl (apply_update read) v batch /\ sublist (coalesce batch) batch.
Proof.
  split; [|apply coalesce_sublist].
  assert (forall l, foldl (apply_update read) v (reverse l) = foldr (fun u w => apply_update read w u) v l) as Hfold.
  { intros l. induction l as [|u l IH]; [done|]. by rewrite reverse_cons, foldl_snoc, IH. }
  unfold coalesce. rewrite Hfold, (agree_eq _ _ (agree_filter read v (∅, false) (reverse batch))), <- Hfold.
  by rewrite reverse_involutive.
Qed.

(** ** Reads ahead of the lock

    The publisher thread loads the generation, reads the projection of a Project
    while others commit, then takes the lock; requests publish under the lock.
    [entries_at v] is what the storage shows after [v] commits. *)

Section Ahead.
Context (entries_at : Z -> ReadEntries).

(** Every read saw one of the storage versions from [lo] to [hi]. *)
Definition reads_between (lo hi : Z) (read : ReadEntries) : Prop :=
  forall section project_id, exists v, lo <= v <= hi /\ read section project_id = entries_at v section project_id.

Record World := mkWorld {
  w_version : Z;
  w_gateway : Gateway;
  w_flight : option (TaskUpdate * Z * Z);
}.

(** A publication of navigation entries: the Project and its payloads. *)
Abbreviation EntriesOut := (string * list AppServerEventPayload)%type.

Inductive entries_step : World -> list EntriesOut -> World -> Prop :=
| StepCommit v g f : entries_step (mkWorld v g f) [] (mkWorld (v + 1) g f)
| StepLoad v g update p :
    update_project update = Some p ->
    entries_step (mkWorld v g None) [] (mkWorld v g (Some (update, g_entries_generation g, v)))
| StepPublish v g update p generation v0 read :
    update_project update = Some p -> reads_between v0 v read ->
    let prepared := for_update update read generation in
    entries_step (mkWorld v g (Some (update, generation, v0)))
      [(p, (entries_for_update (entries_at v) p prepared g).1)]
      (mkWorld v (publish_prepared_task_update (entries_at v) update prepared g).2 None)
| StepRequest v g f p :
    entries_step (mkWorld v g f) [(p, (replaced_entries (entries_at v) p g).1)]
      (mkWorld v (publish_project_entries_replaced (entries_at v) p g).2 f).

Inductive entries_run (w0 : World) : nat -> list EntriesOut -> World -> Prop :=
| RunStart : entries_run w0 0 [] w0
| RunStep n outs w out w' : entries_run w0 n outs w -> entries_step w out w' -> entries_run w0 (S n) (outs ++ out) w'.

Lemma publish_generation scope payload g : g_entries_generation (publish scope payload g).2 = g_entries_generation g.
Proof. unfold Gateway.publish. by destruct (publish_committed _ _ _ _ _) as [[]|]. Qed.

Lemma publish_all_generation scope payloads g : g_entries_generation (publish_all scope payloads g).2 = g_entries_generation g.
Proof.
  revert g. induction payloads as [|payload payloads IH]; intros g; [done|]. cbn.
  pose proof (publish_generation scope payload g) as H1. destruct (publish _ _ _) as [events g1].
  specialize (IH g1). destruct (publish_all _ _ _). cbn in *. congruence.
Qed.

Lemma entries_generation read p prepared g g' : g_entries_generation g' = g_entries_generation g ->
  g_entries_generation (publish_entries_for_update read p prepared g').2 = g_entries_generation (entries_for_update read p prepared g).2.
Proof.
  intros Hg. unfold publish_entries_for_update, publish_project_entries.
  assert (g_entries_generation (entries_for_update read p prepared g').2 = g_entries_generation (entries_for_update read p prepared g).2) as H1.
  { unfold entries_for_update, replaced_entries, bump_generation. destruct prepared as [prepared|]; cbn; rewrite Hg; [|done].
    by destruct (bool_decide _). }
  destruct (entries_for_update read p prepared g') as [payloads g1]. by rewrite publish_all_generation.
Qed.

Lemma prepared_generation read update p prepared g : update_project update = Some p ->
  g_entries_generation (publish_prepared_task_update read update prepared g).2
  = g_entries_generation (entries_for_update read p prepared g).2.
Proof.
  intros Hu.
  assert (g_entries_generation (publish_kind read update prepared g).2 = g_entries_generation (entries_for_update read p prepared g).2) as H1.
  { unfold publish_kind. unfold update_project in Hu. destruct (tu_kind update) as [change| | | | |q|]; try done.
    2: { injection Hu as ->. by apply entries_generation. }
    destruct (cc_navigation change) as [[|q]|] eqn:Hn; try done. injection Hu as ->.
    unfold publish_committed_task_change, publish_task_payload. rewrite Hn.
    match goal with |- context [publish ?s ?x ?y] => pose proof (publish_generation s x y) as G1; destruct (publish s x y) as [e1 g1] end.
    match goal with |- context [publish_all ?s ?x ?y] => pose proof (publish_all_generation s x y) as G2; destruct (publish_all s x y) as [e2 g2] end.
    cbn [fst snd] in *. rewrite <- (entries_generation read p prepared g g2) by congruence.
    by destruct (publish_entries_for_update _ _ _ _). }
  unfold publish_prepared_task_update. destruct (publish_kind _ _ _ _) as [events g1]. cbn [fst snd] in *.
  destruct (_ || _); [|done]. unfold publish_task_payload.
  match goal with |- context [publish ?s ?x ?y] => pose proof (publish_generation s x y) as G1; destruct (publish s x y) as [e1 g2] end.
  cbn in *. congruence.
Qed.

(** The span of versions one publication shows. *)
Definition shows (out : EntriesOut) (span : Z * Z) : Prop :=
  span.1 <= span.2 /\ exists read, reads_between span.1 span.2 read /\ out.2 = project_entries_payloads read out.1.

Definition no_later (a b : Z * Z) : Prop := a.2 <= b.1.

Lemma reads_now v : reads_between v v (entries_at v).
Proof. intros section p. exists v. split; [lia|done]. Qed.

(** The invariant: what was published, and what is in flight. *)
Record ahead_ok (start : Z) (n : nat) (outs : list EntriesOut) (w : World) : Prop := {
  ah_spans : exists spans, Forall2 shows outs spans /\ StronglySorted no_later spans /\
    Forall (fun s => s.2 <= w_version w) spans /\
    match w_flight w with
    | Some (_, generation, v0) =>
        v0 <= w_version w /\ generation <= g_entries_generation (w_gateway w) /\
        (generation = g_entries_generation (w_gateway w) -> Forall (fun s => s.2 <= v0) spans)
    | None => True
    end;
  ah_generation : start <= g_entries_generation (w_gateway w) <= start + Z.of_nat n;
}.

Lemma sorted_snoc spans s : StronglySorted no_later spans -> Forall (fun a => a.2 <= s.1) spans -> StronglySorted no_later (spans ++ [s]).
Proof.
  intros Hs Ha. apply StronglySorted_app. split; [|split; [done|repeat constructor]].
  intros a b Hin ->%list_elem_of_singleton. rewrite Forall_forall in Ha. by apply Ha.
Qed.

Lemma ahead_commit start n outs v g f :
  ahead_ok start n outs (mkWorld v g f) -> ahead_ok start (S n) (outs ++ []) (mkWorld (v + 1) g f).
Proof.
  rewrite app_nil_r. intros [(spans & H1 & H2 & H3 & H4) Hg]. cbn in *. split; [|cbn; lia]. exists spans. cbn.
  split; [done|]. split; [done|]. split; [eapply Forall_impl; [exact H3|cbn; lia]|].
  destruct f as [[[update generation] v0]|]; [|done]. destruct H4 as (? & ? & ?). repeat split; [lia|done|done].
Qed.

Lemma ahead_load start n outs v g update :
  ahead_ok start n outs (mkWorld v g None) -> ahead_ok start (S n) (outs ++ []) (mkWorld v g (Some (update, g_entries_generation g, v))).
Proof.
  rewrite app_nil_r. intros [(spans & H1 & H2 & H3 & H4) Hg]. cbn in *. split; [|cbn; lia]. exists spans. cbn.
  repeat split; [done..|lia|lia|done].
Qed.

(** A publication of what the storage shows now. *)
Lemma ahead_fresh start n outs v g f g' f' p :
  ahead_ok start n outs (mkWorld v g f) -> start + Z.of_nat n < u64_max -> 0 <= start ->
  g_entries_generation g' = u64_add (g_entries_generation g) 1 -> f' = f \/ f' = None ->
  ahead_ok start (S n) (outs ++ [(p, project_entries_payloads (entries_at v) p)]) (mkWorld v g' f').
Proof.
  intros [(spans & H1 & H2 & H3 & H4) Hg] Hn Hs Hg' Hf. cbn in *.
  rewrite u64_add_small in Hg' by (unfold is_u64; unfold u64_max in *; lia). split; [|cbn; lia].
  exists (spans ++ [(v, v)]). cbn. split.
  { apply Forall2_app; [done|]. repeat constructor; cbn; [lia|]. exists (entries_at v). split; [apply reads_now|done]. }
  split; [by apply sorted_snoc|]. split; [apply Forall_app; split; [done|]; repeat constructor; cbn; lia|].
  destruct Hf as [->| ->]; [|done]. destruct f as [[[update generation] v0]|]; [|done].
  destruct H4 as (? & ? & ?). repeat split; [lia|lia|lia].
Qed.

Lemma ahead_step start n outs w out w' :
  ahead_ok start n outs w -> start + Z.of_nat n < u64_max -> 0 <= start -> entries_step w out w' -> ahead_ok start (S n) (outs ++ out) w'.
Proof.
  intros Ha Hn Hs Hstep. destruct Hstep as [v g f|v g update p Hu|v g update p generation v0 read Hu Hread|v g f p].
  - by apply ahead_commit.
  - by apply ahead_load.
  - pose proof (prepared_generation (entries_at v) update p prepared g Hu) as Hgen.
    unfold prepared, for_update in *. rewrite Hu in *. cbn [mbind option_bind] in *.
    unfold entries_for_update in *. cbn [pp_generation pp_payloads] in *.
    destruct (bool_decide_reflect (generation = g_entries_generation g)) as [Heq|Hne].
    + destruct Ha as [(spans & H1 & H2 & H3 & H4 & H5 & H6) Hg]. cbn in *. split; [|cbn; lia].
      exists (spans ++ [(v0, v)]). cbn. split.
      { apply Forall2_app; [done|]. repeat constructor; cbn; [lia|]. by exists read. }
      split; [apply sorted_snoc; [done|by apply H6]|]. split; [|done]. apply Forall_app; split; [done|]. repeat constructor. cbn. lia.
    + cbn [fst replaced_entries]. apply (ahead_fresh start n outs v g _ _ None p Ha Hn Hs); [exact Hgen|by right].
  - cbn [fst replaced_entries]. apply (ahead_fresh start n outs v g f _ f p Ha Hn Hs); [|by left].
    unfold publish_project_entries_replaced, publish_project_entries. cbn. by rewrite publish_all_generation.
Qed.

Lemma ahead_run w0 n outs w : w_flight w0 = None -> 0 <= g_entries_generation (w_gateway w0) ->
  g_entries_generation (w_gateway w0) + Z.of_nat n <= u64_max -> entries_run w0 n outs w ->
  ahead_ok (g_entries_generation (w_gateway w0)) n outs w.
Proof.
  intros Hf H0 Hn Hr. induction Hr as [|n outs w out w' Hr IH Hstep].
  - split; [|lia]. exists []. rewrite Hf. repeat constructor.
  - apply (ahead_step _ n outs w); [apply IH; lia|lia|done|done].
Qed.


End Ahead.
End Updates.

(** ** Examples *)

Module UpdateWitness.
#[local] Existing Instance string_payloads.
#[local] Existing Instance ChatWitness.string_chat.
#[local] Existing Instance QuestionWitness.plain_codecs.

Definition size (c : TaskChanges) : option Z := Some 10.
Definition detail (d : @ToolDetailSnapshot string_payloads) : Z := 0.

(** The number of Tasks of a Project tells the version of the storage. *)
Definition counted (v : Z) (section : TaskNavigationSection) (p : string)
  : option (option (Z * list TaskNavigationEntry * bool * bool)) := Some (Some (v, [], false, false)).

Definition invalidated (p : string) : TaskUpdate := mkUpdate "" 0 (KNavigationProjectEntriesChanged p).
Definition refreshed (r : TaskNavigationRefreshState) : TaskUpdate := mkUpdate "" 0 (KNavigationRefreshStateChanged r).
Definition synced (t : string) : TaskUpdate := mkUpdate t 1 (KHistorySync ("h"%string : @TaskHistorySyncSnapshot string_payloads)).

Example coalesced :
  coalesce [invalidated "a"; refreshed Refreshing; synced "t"; invalidated "b"; invalidated "a"; refreshed RefreshIdle]
  = [synced "t"; invalidated "b"; invalidated "a"; refreshed RefreshIdle].
Proof. vm_compute. reflexivity. Qed.

Abbreviation step := (entries_step size detail counted).
Definition here : Gateway := GatewayWitness.fresh.
Definition start : World := mkWorld 0 here None.
Definition loaded : World := mkWorld 0 here (Some (invalidated "a", 0, 0)).
Definition committed : World := mkWorld 1 here (Some (invalidated "a", 0, 0)).
Definition overtaken : World := mkWorld 1 (publish_project_entries_replaced size (counted 1) "a" here).2 (Some (invalidated "a", 0, 0)).
Definition finished : World :=
  mkWorld 1 (publish_prepared_task_update size detail (counted 1) (invalidated "a") (for_update (invalidated "a") (counted 0) 0)
    (w_gateway overtaken)).2 None.

(** The publisher reads version 0 and is overtaken by a request that shows version
    1: it reads again. *)
Definition shown : list (string * list AppServerEventPayload) :=
  [("a"%string, project_entries_payloads (counted 1) "a"); ("a"%string, project_entries_payloads (counted 1) "a")].

Lemma old_read : reads_between counted 0 1 (counted 0).
Proof. intros section p. exists 0. split; [lia|reflexivity]. Qed.

Lemma overtaken_generation : bool_decide (0 = g_entries_generation (w_gateway overtaken)) = false.
Proof. vm_compute. reflexivity. Qed.

Lemma run_overtaken : entries_run size detail counted start 4 shown finished.
Proof.
  refine (RunStep size detail counted start 3 [("a"%string, project_entries_payloads (counted 1) "a")] overtaken
    [("a"%string, project_entries_payloads (counted 1) "a")] finished _ _).
  - refine (RunStep size detail counted start 2 [] committed [("a"%string, project_entries_payloads (counted 1) "a")] overtaken _
      (StepRequest size detail counted 1 here (w_flight committed) "a")).
    refine (RunStep size detail counted start 1 [] loaded [] committed _ (StepCommit size detail counted 0 here (w_flight loaded))).
    exact (RunStep size detail counted start 0 [] start [] loaded (RunStart size detail counted start)
      (StepLoad size detail counted 0 here (invalidated "a") "a" eq_refl)).
  - pose proof (StepPublish size detail counted 1 (w_gateway overtaken) (invalidated "a") "a" 0 0 (counted 0) eq_refl old_read) as H.
    cbn zeta in H. unfold for_update, entries_for_update in H. cbn [mbind option_bind update_project invalidated tu_kind pp_generation] in H.
    rewrite overtaken_generation in H. exact H.
Qed.


End UpdateWitness.
