(* ===== verification/Http.v ===== *)
(** * The HTTP listener and the bridge of Remote Devices

    [protocol_edge/local_http/listener/http.rs] reads one request;
    [auth_status] and [valid_connection_id] decide whom it is from.
    [remote_devices/bridge.rs] forwards the requests of a trusted device to that
    listener, with the local credential in place of whatever the device sent.

    Text is UTF-8 bytes.  A stream is the list of what its reads return: bytes,
    never none of them, or an error; at the end of the list it is closed. *)

From S2P Require Import Prelude Protocol Records Mutation Pairing RemoteDevices.
Local Open Scope Z_scope.

(** ** Text *)

Definition CRLF : list Z := [13; 10].
Definition HEAD_END : list Z := [13; 10; 13; 10].

(** [windows(needle.len()).position], for a needle that is not empty. *)
Fixpoint find (needle l : list Z) : option nat :=
  match strip_prefix needle l with
  | Some _ => Some O
  | None => match l with [] => None | _ :: l => S <$> find needle l end
  end.

(** [str::split] at every line break of two bytes. *)
Definition onto_first (b : Z) (ls : list (list Z)) : list (list Z) :=
  match ls with line :: ls => (b :: line) :: ls | [] => [[b]] end.
Fixpoint split_crlf (l : list Z) : list (list Z) :=
  match l with
  | [] => [[]]
  | b :: rest =>
      match rest with
      | c :: rest' =>
          if bool_decide (b = 13 /\ c = 10) then [] :: split_crlf rest' else onto_first b (split_crlf rest)
      | [] => [[b]]
      end
  end.

(** [str::lines]: at line feeds, without a carriage return before them, and with
    no empty line at the end. *)
Definition strip_cr (l : list Z) : list Z :=
  match rev l with 13 :: front => rev front | _ => l end.
Fixpoint lines_from (line l : list Z) : list (list Z) :=
  match l with
  | [] => if bool_decide (line = []) then [] else [line]
  | b :: l => if bool_decide (b = 10) then strip_cr line :: lines_from [] l else lines_from (line ++ [b]) l
  end.
Definition lines (l : list Z) : list (list Z) := lines_from [] l.

(** [str::split_once] at one byte. *)
Fixpoint split_once (sep : Z) (l : list Z) : option (list Z * list Z) :=
  match l with
  | [] => None
  | b :: l => if bool_decide (b = sep) then Some ([], l)
              else r ← split_once sep l; Some (b :: r.1, r.2)
  end.

Definition ascii_lower (b : Z) : Z := if between 65 90 b then b + 32 else b.
Definition eq_ignore_ascii_case (a b : list Z) : bool := bool_decide (ascii_lower <$> a = ascii_lower <$> b).
Definition is_ascii_whitespace (b : Z) : bool := bool_decide (b ∈ [9; 10; 12; 13; 32]).

(** ** Reading a request *)

Definition MAX_HEADER_BYTES : nat := 16 * 1024.
Definition MAX_BODY_BYTES : Z := 10 * 1024 * 1024.

Inductive HttpError := ReadFailed | MalformedRequest (reason : string).

(** What one read of a stream gives. *)
Inductive Read := ReadBytes (bytes : list Z) | ReadError.

Definition header_end_index (bytes : list Z) : option nat := find HEAD_END bytes.

(** The index of the end of the head, all bytes read and the rest of the stream. *)
Fixpoint read_headers (stream : list Read) (bytes : list Z) : result (nat * list Z * list Read) HttpError :=
  match stream with
  | [] => Err (MalformedRequest "connection closed before headers completed")
  | ReadError :: _ => Err ReadFailed
  | ReadBytes chunk :: stream =>
      let bytes := bytes ++ chunk in
      match header_end_index bytes with
      | Some index => Ok (index, bytes, stream)
      | None =>
          if bool_decide (MAX_HEADER_BYTES < length bytes)%nat then Err (MalformedRequest "headers are too large")
          else read_headers stream bytes
      end
  end.

Fixpoint read_body (stream : list Read) (bytes : list Z) (body_start : nat) (content_length : Z)
  : result (list Z) HttpError :=
  if bool_decide (Z.of_nat (length bytes - body_start) < content_length) then
    match stream with
    | [] => Err (MalformedRequest "connection closed before body completed")
    | ReadError :: _ => Err ReadFailed
    | ReadBytes chunk :: stream => read_body stream (bytes ++ chunk) body_start content_length
    end
  else Ok bytes.

(** [split_whitespace] on bytes: the words between white-space characters. *)
Fixpoint words_from (fuel : nat) (l word : list Z) : list (list Z) :=
  let close := if bool_decide (word = []) then [] else [word] in
  match fuel, l with
  | S fuel, b :: rest =>
      match strip_one whitespace l with
      | Some rest => close ++ words_from fuel rest []
      | None => words_from fuel rest (word ++ [b])
      end
  | _, _ => close
  end.
Definition split_whitespace (l : list Z) : list (list Z) := words_from (S (length l)) l [].

Definition request_method (headers : list Z) : result (list Z) HttpError :=
  let? request_line := ok_or (head (lines headers)) (MalformedRequest "missing request line") in
  ok_or (head (split_whitespace request_line)) (MalformedRequest "missing method").

Definition request_target (headers : list Z) : result (list Z) HttpError :=
  ok_or (line ← head (lines headers); split_whitespace line !! 1%nat) (MalformedRequest "missing request target").

(** The value of a header line with the name. *)
Definition header_of (name line : list Z) : option (list Z) :=
  r ← split_once 58 line; if eq_ignore_ascii_case r.1 name then Some (trim_bytes r.2) else None.

Fixpoint find_map {A B} (f : A -> option B) (l : list A) : option B :=
  match l with [] => None | x :: l => match f x with Some y => Some y | None => find_map f l end end.

Definition header_value (headers name : list Z) : option (list Z) :=
  find_map (header_of name) (drop 1 (lines headers)).

Definition parse_usize (l : list Z) : option Z := parse_unsigned u64_modulus (of_bytes l).

Definition content_length (headers method : list Z) : result Z HttpError :=
  match header_value headers (bytes_of "content-length") with
  | None =>
      if bool_decide (method = bytes_of "OPTIONS") || bool_decide (method = bytes_of "GET") then Ok 0
      else Err (MalformedRequest "missing Content-Length")
  | Some value => ok_or (parse_usize value) (MalformedRequest "invalid Content-Length")
  end.

Definition hex_value (b : Z) : option Z :=
  if between 48 57 b then Some (b - 48) else if between 97 102 b then Some (b - 97 + 10)
  else if between 65 70 b then Some (b - 65 + 10) else None.

(** The bytes of [percent_decode], before the lossy conversion to text. *)
Fixpoint percent_bytes (l : list Z) : list Z :=
  match l with
  | [] => []
  | 37 :: ((h :: (w :: rest)) as tail) =>
      match hex_value h, hex_value w with
      | Some high, Some low => high * 16 + low :: percent_bytes rest
      | _, _ => 37 :: percent_bytes tail
      end
  | b :: tail => b :: percent_bytes tail
  end.

(** [String::from_utf8_lossy]: each maximal invalid sequence becomes U+FFFD.
    [lossy_char] gives the length of the character or sequence at the front and
    whether it is valid. *)
Definition byte_at (l : list Z) (i : nat) : Z := default 0 (l !! i).
Definition lossy_char (l : list Z) : nat * bool :=
  let a := byte_at l 0 in let b := byte_at l 1 in let c := byte_at l 2 in let d := byte_at l 3 in
  if between 0 127 a then (1%nat, true)
  else if between 194 223 a then if continuation b then (2%nat, true) else (1%nat, false)
  else if between 224 239 a then
    if (bool_decide (a = 224) && between 160 191 b) || (between 225 236 a && continuation b)
       || (bool_decide (a = 237) && between 128 159 b) || (between 238 239 a && continuation b)
    then if continuation c then (3%nat, true) else (2%nat, false)
    else (1%nat, false)
  else if between 240 244 a then
    if (bool_decide (a = 240) && between 144 191 b) || (between 241 243 a && continuation b)
       || (bool_decide (a = 244) && between 128 143 b)
    then if continuation c then if continuation d then (4%nat, true) else (3%nat, false) else (2%nat, false)
    else (1%nat, false)
  else (1%nat, false).
Fixpoint lossy (fuel : nat) (l : list Z) : list Z :=
  match fuel, l with
  | S fuel, _ :: _ =>
      let '(n, valid) := lossy_char l in
      (if valid then take n l else [239; 191; 189]) ++ lossy fuel (drop n l)
  | _, _ => []
  end.
Definition from_utf8_lossy (l : list Z) : list Z := lossy (length l) l.
Definition percent_decode (value : list Z) : list Z := from_utf8_lossy (percent_bytes value).

(** [split(sep)] at one byte. *)
Fixpoint split_byte (sep : Z) (l : list Z) : list (list Z) :=
  match l with
  | [] => [[]]
  | b :: l => match split_byte sep l with
              | piece :: pieces => if bool_decide (b = sep) then [] :: piece :: pieces else (b :: piece) :: pieces
              | [] => [[b]]
              end
  end.

Definition ends_with (suffix l : list Z) : bool := is_some (strip_prefix (rev suffix) (rev l)).
Definition target_path (target : list Z) : list Z := default [] (head (split_byte 63 target)).
Definition is_upload_target (target : list Z) : bool :=
  ends_with (bytes_of "/upload") (target_path target) || ends_with (bytes_of "/upload/chunk") (target_path target).

Record HttpRequest := mkHttpRequest {
  rq_method : list Z;
  rq_target : list Z;
  rq_authorization : option (list Z);
  rq_connection_id : option (list Z);
  rq_client_instance_id : option (list Z);
  rq_task_id : option (list Z);
  rq_file_name : option (list Z);
  rq_upload_id : option (list Z);
  rq_upload_offset : option Z;
  rq_upload_size : option Z;
  rq_upload_cancel : bool;
  rq_session_id : option (list Z);
  rq_after_header_present : bool;
  rq_after_sequence : option Z;
  rq_accepts_event_stream : bool;
  rq_websocket_upgrade : bool;
  rq_websocket_key : option (list Z);
  rq_websocket_version : option (list Z);
  rq_content_length : Z;
  rq_initial_body : list Z;
  rq_body : list Z }.

Definition read_http_request (stream : list Read) : result HttpRequest HttpError :=
  let? r := read_headers stream [] in
  let '(header_end, bytes, stream) := r in
  let? headers := ok_or (from_utf8 (take header_end bytes)) (MalformedRequest "headers are not UTF-8") in
  let? method := request_method headers in
  let? target := request_target headers in
  let value name := header_value headers (bytes_of name) in
  let? length_ := content_length headers method in
  let is_upload := is_upload_target target in
  if negb is_upload && bool_decide (MAX_BODY_BYTES < length_) then Err (MalformedRequest "body is too large")
  else
    let body_start := (header_end + 4)%nat in
    let? bytes := if is_upload then Ok bytes else read_body stream bytes body_start length_ in
    let body_end := Z.min (Z.of_nat (length bytes)) (u64_saturating_add (Z.of_nat body_start) length_) in
    let initial_body := drop body_start (take (Z.to_nat body_end) bytes) in
    let? body := if is_upload then Ok [] else ok_or (from_utf8 initial_body) (MalformedRequest "body is not UTF-8") in
    Ok (mkHttpRequest method target (value "authorization"%string) (value "x-openaide-connection-id"%string)
          (value "x-openaide-client-instance-id"%string) (value "x-openaide-task-id"%string)
          (percent_decode <$> value "x-openaide-file-name"%string) (value "x-openaide-upload-id"%string)
          (value "x-openaide-upload-offset"%string ≫= parse_usize)
          (value "x-openaide-upload-size"%string ≫= parse_usize)
          (bool_decide (value "x-openaide-upload-cancel"%string = Some (bytes_of "true")))
          (value "x-openaide-session-id"%string)
          (is_some (value "x-openaide-after"%string))
          (value "x-openaide-after"%string ≫= parse_usize)
          (match value "accept"%string with
           | Some v => existsb (fun item => bool_decide (trim_bytes item = bytes_of "text/event-stream")) (split_byte 44 v)
           | None => false end)
          (match value "upgrade"%string with Some v => eq_ignore_ascii_case v (bytes_of "websocket") | None => false end)
          (value "sec-websocket-key"%string) (value "sec-websocket-version"%string)
          length_ initial_body body).

(** ** Who a request is from *)

Inductive AuthStatus := Authorized | MissingCredential | InvalidCredential.

Definition auth_status (authorization : option (list Z)) (expected_token : list Z) : AuthStatus :=
  match authorization with
  | None => MissingCredential
  | Some value =>
      match strip_prefix (bytes_of "Bearer ") value with
      | Some token => if bool_decide (token = expected_token) then Authorized else InvalidCredential
      | None => InvalidCredential
      end
  end.

Definition connection_byte (b : Z) : bool :=
  between 48 57 b || between 65 90 b || between 97 122 b || bool_decide (b ∈ [45; 95; 46; 58]).

Definition valid_connection_id (value : option (list Z)) : option string :=
  value ← value;
  let value := trim_bytes value in
  if bool_decide (value = []) || negb (forallb connection_byte value) then None
  else Some ("local-http:" +:+ of_bytes value).

(** ** The bridge *)

Definition MAX_HEAD_BYTES : nat := 16 * 1024.

Inductive BridgeError := HeadTimeout | InvalidHead | StreamClosed | LocalUnavailable.

Record TrustedHead := mkTrustedHead { th_bytes : list Z; th_connection_id : option (list Z) }.

(** The head with its end, and what was read of the body. *)
Fixpoint read_head (recv : list Read) (buffer : list Z) : result (list Z * list Z * list Read) BridgeError :=
  match find HEAD_END buffer with
  | Some end_ =>
      let n := (end_ + length HEAD_END)%nat in Ok (take n buffer, drop n buffer, recv)
  | None =>
      if bool_decide (MAX_HEAD_BYTES < length buffer)%nat then Err InvalidHead
      else match recv with
           | [] | ReadError :: _ => Err StreamClosed
           | ReadBytes chunk :: recv => read_head recv (buffer ++ chunk)
           end
  end.

Definition is_single_line (line : list Z) : bool := forallb (fun b => negb (bool_decide (b ∈ [13; 10]))) line.

Definition CONNECTION_ID_HEADER : list Z := bytes_of "x-openaide-connection-id".

(** The loop over the header lines. *)
Fixpoint trust_lines (ls : list (list Z)) (bytes : list Z) (connection_id : option (list Z))
  : result (list Z * option (list Z)) BridgeError :=
  match ls with
  | [] => Ok (bytes, connection_id)
  | [] :: ls => trust_lines ls bytes connection_id
  | line :: ls =>
      let? r := ok_or (split_once 58 line) InvalidHead in
      let '(name, value) := r in
      if bool_decide (name = []) || existsb is_ascii_whitespace name || negb (is_single_line line) then Err InvalidHead
      else if eq_ignore_ascii_case name (bytes_of "authorization") then trust_lines ls bytes connection_id
      else
        let connection_id :=
          if eq_ignore_ascii_case name CONNECTION_ID_HEADER then Some (trim_bytes value) else connection_id in
        trust_lines ls (bytes ++ line ++ CRLF) connection_id
  end.

Definition authorization_line (auth_token : list Z) : list Z := bytes_of "Authorization: Bearer " ++ auth_token.

Definition trust_head (head auth_token : list Z) : result TrustedHead BridgeError :=
  let? head := ok_or (from_utf8 head) InvalidHead in
  match split_crlf head with
  | request_line :: ls =>
      if bool_decide (request_line = []) || negb (is_single_line request_line) then Err InvalidHead
      else
        let bytes := request_line ++ CRLF ++ authorization_line auth_token ++ CRLF in
        let? r := trust_lines ls bytes None in
        Ok (mkTrustedHead (r.1 ++ CRLF) r.2)
  | [] => Err InvalidHead
  end.

(** What [forward] writes to the listener before it copies the rest: the trusted
    head and the start of the body. *)
Definition forward_start (recv : list Read) (auth_token : list Z) : result (TrustedHead * list Z * list Read) BridgeError :=
  let? r := read_head recv [] in
  let '(head, body_start, rest) := r in
  let? trusted := trust_head head auth_token in
  Ok (trusted, th_bytes trusted ++ body_start, rest).

(** ** Lines *)

(** Lines with line breaks between them. *)
Fixpoint joined (ls : list (list Z)) : list Z :=
  match ls with [] => [] | [l] => l | l :: ls => l ++ CRLF ++ joined ls end.

Lemma joined_cons l ls : ls <> [] -> joined (l :: ls) = l ++ CRLF ++ joined ls.
Proof. by destruct ls. Qed.

Lemma split_crlf_step b l : ~ (b = 13 /\ head l = Some 10) -> split_crlf (b :: l) = onto_first b (split_crlf l).
Proof.
  intros Hn. destruct l as [|c l]; [done|]. cbn [split_crlf]. rewrite bool_decide_eq_false_2; [done|].
  intros [-> ->]. by apply Hn.
Qed.

Lemma split_crlf_break l : split_crlf (CRLF ++ l) = [] :: split_crlf l.
Proof. cbn [CRLF app split_crlf]. by rewrite bool_decide_eq_true_2. Qed.

Lemma split_crlf_nonempty l : split_crlf l <> [].
Proof.
  destruct l as [|b l]; [done|]. destruct l as [|c l]; [done|]. cbn [split_crlf]. split_test; [done|].
  unfold onto_first. by case_match.
Qed.

Lemma single_cons b l : is_single_line (b :: l) = true <-> b <> 13 /\ b <> 10 /\ is_single_line l = true.
Proof.
  cbn. rewrite andb_true_iff, negb_true_iff, bool_decide_eq_false. split; [intros [Hb Hl]|intros (H1 & H2 & Hl)].
  - split; [intros ->; apply Hb; set_solver|]. split; [intros ->; apply Hb; set_solver|done].
  - split; [|done]. intros [?|[?|[]%elem_of_nil]%elem_of_cons]%elem_of_cons; done.
Qed.

(** The split of a text before a line break does not look across it. *)
Lemma split_crlf_app l rest : split_crlf (l ++ CRLF ++ rest) = split_crlf l ++ split_crlf rest.
Proof.
  remember (length l) as n eqn:Hn. revert l Hn. induction n as [n IH] using lt_wf_ind. intros l ->.
  destruct l as [|b l]; [done|].
  destruct (decide (b = 13 /\ head l = Some 10)) as [[-> Hl]|Hb].
  - destruct l as [|c l]; [done|]. injection Hl as ->.
    change ((13 :: 10 :: l) ++ CRLF ++ rest) with (CRLF ++ (l ++ CRLF ++ rest)).
    change (13 :: 10 :: l) with (CRLF ++ l). rewrite !split_crlf_break. cbn [app]. f_equal.
    apply (IH (length l)); [cbn; lia|done].
  - change ((b :: l) ++ CRLF ++ rest) with (b :: (l ++ CRLF ++ rest)).
    rewrite split_crlf_step by (intros [-> Hh]; apply Hb; split; [done|]; by destruct l).
    rewrite (split_crlf_step b l) by done. rewrite (IH (length l)) by (cbn; lia || done).
    pose proof (split_crlf_nonempty l). by destruct (split_crlf l).
Qed.

Lemma joined_split l : joined (split_crlf l) = l.
Proof.
  remember (length l) as n eqn:Hn. revert l Hn. induction n as [n IH] using lt_wf_ind. intros l ->.
  destruct l as [|b l]; [done|].
  destruct (decide (b = 13 /\ head l = Some 10)) as [[-> Hl]|Hb].
  - destruct l as [|c l]; [done|]. injection Hl as ->.
    change (13 :: 10 :: l) with (CRLF ++ l). rewrite split_crlf_break.
    rewrite joined_cons by apply split_crlf_nonempty. cbn [app]. rewrite (IH (length l)); cbn; [done|lia|done].
  - rewrite split_crlf_step by done. pose proof (split_crlf_nonempty l) as Hne.
    specialize (IH (length l) ltac:(cbn; lia) l eq_refl).
    destruct (split_crlf l) as [|line ls]; [done|]. destruct ls as [|l' ls].
    + cbn in *. by rewrite IH.
    + rewrite joined_cons in * by done. cbn in *. by rewrite IH.
Qed.

Lemma lines_from_single line l rest :
  is_single_line l = true -> lines_from line (l ++ CRLF ++ rest) = (line ++ l) :: lines_from [] rest.
Proof.
  revert line. induction l as [|b l IH]; intros line Hl; cbn.
  - unfold strip_cr. rewrite rev_unit. by rewrite rev_involutive, app_nil_r.
  - apply single_cons in Hl as (_ & Hb & Hl). rewrite bool_decide_eq_false_2 by done.
    change (l ++ 13 :: 10 :: rest) with (l ++ CRLF ++ rest). by rewrite IH, <- app_assoc.
Qed.

Lemma lines_from_last line l :
  is_single_line l = true -> lines_from line l = if bool_decide (line ++ l = []) then [] else [line ++ l].
Proof.
  revert line. induction l as [|b l IH]; intros line Hl; cbn; [by rewrite app_nil_r|].
  apply single_cons in Hl as (_ & Hb & Hl). rewrite bool_decide_eq_false_2 by done. by rewrite IH, <- app_assoc.
Qed.

(** The lines of joined lines, less an empty one at the end. *)
Lemma lines_joined ls :
  Forall (fun l => is_single_line l = true) ls ->
  exists tail, ls = lines (joined ls) ++ tail /\ (tail = [] \/ tail = [[]]).
Proof.
  unfold lines. induction ls as [|l ls IH]; intros Hls; [by exists []; auto|].
  apply Forall_cons in Hls as [Hl Hls]. destruct ls as [|l' ls].
  - cbn [joined]. rewrite lines_from_last by done. cbn. split_test; [subst; exists [[]]; auto|exists []; auto].
  - rewrite joined_cons, lines_from_single by done. destruct (IH Hls) as (tail & E & Ht).
    exists tail. split; [|done]. cbn [app]. f_equal. exact E.
Qed.

Lemma lines_joined_full ls :
  Forall (fun l => is_single_line l = true) ls -> Forall (fun l => l <> []) ls -> lines (joined ls) = ls.
Proof.
  intros Hs Hne. destruct (lines_joined ls Hs) as (tail & E & [->| ->]); [by rewrite app_nil_r in E|].
  rewrite E in Hne. apply Forall_app in Hne as [_ Hne]. rewrite Forall_singleton in Hne. done.
Qed.

(** ** The end of a head *)

Lemma find_unfold needle l :
  find needle l = match strip_prefix needle l with
                  | Some _ => Some O
                  | None => match l with [] => None | _ :: l => S <$> find needle l end
                  end.
Proof. by destruct l. Qed.

Lemma find_line l rest :
  is_single_line l = true -> find HEAD_END (l ++ rest) = (fun n => (length l + n)%nat) <$> find HEAD_END rest.
Proof.
  induction l as [|b l IH]; intros Hl; cbn [app length].
  - by destruct (find HEAD_END rest).
  - apply single_cons in Hl as (Hb & _ & Hl). cbn [find HEAD_END strip_prefix].
    rewrite bool_decide_eq_false_2 by congruence. fold HEAD_END. rewrite IH by done. by destruct (find HEAD_END rest).
Qed.

Lemma find_break rest :
  strip_prefix CRLF rest = None -> find HEAD_END (CRLF ++ rest) = (fun n => S (S n)) <$> find HEAD_END rest.
Proof.
  intros Hr. assert (strip_prefix HEAD_END (CRLF ++ rest) = strip_prefix CRLF rest) as E by reflexivity.
  rewrite find_unfold, E, Hr. cbn [CRLF app]. rewrite find_unfold.
  assert (strip_prefix HEAD_END (10 :: rest) = None) as -> by reflexivity. by destruct (find HEAD_END rest).
Qed.

Lemma joined_length_wire ls body :
  Forall (fun l => is_single_line l = true) ls -> Forall (fun l => l <> []) ls -> ls <> [] ->
  find HEAD_END (joined ls ++ HEAD_END ++ body) = Some (length (joined ls)).
Proof.
  induction ls as [|l ls IH]; intros Hs Hne Hls; [done|]. apply Forall_cons in Hs as [Hl Hs], Hne as [Hn Hne].
  destruct ls as [|l' ls].
  - cbn [joined]. rewrite find_line by done. assert (find HEAD_END (HEAD_END ++ body) = Some O) as -> by reflexivity.
    cbn. f_equal. lia.
  - rewrite joined_cons, <- !app_assoc, find_line by done. rewrite find_break.
    + rewrite IH by done. cbn. f_equal. rewrite !length_app. cbn. lia.
    + apply Forall_cons in Hs as [Hs _], Hne as [Hne _]. destruct l' as [|c l']; [done|].
      apply single_cons in Hs as (Hc & _ & _).
      assert (exists t, joined ((c :: l') :: ls) ++ HEAD_END ++ body = c :: t) as [t ->]
        by (destruct ls; eexists; reflexivity).
      cbn. by rewrite bool_decide_eq_false_2 by congruence.
Qed.

(** ** What the bridge keeps *)

(** A header line with a name other than [authorization]. *)
Definition kept_line (line : list Z) : bool :=
  match split_once 58 line with
  | Some (name, _) => negb (eq_ignore_ascii_case name (bytes_of "authorization"))
  | None => false
  end.
Definition kept (ls : list (list Z)) : list (list Z) := List.filter kept_line ls.
Definition with_breaks (ls : list (list Z)) : list Z := concat ((fun l => l ++ CRLF) <$> ls).

Lemma trust_lines_ok ls bytes connection_id r :
  trust_lines ls bytes connection_id = Ok r ->
  r.1 = bytes ++ with_breaks (kept ls) /\ Forall (fun l => is_single_line l = true) ls.
Proof.
  revert bytes connection_id. induction ls as [|line ls IH]; intros bytes cid; cbn [trust_lines].
  - intros [= <-]. by rewrite app_nil_r.
  - destruct line as [|b line]; [intros Hr%IH; destruct Hr; by split; [|constructor]|]. cbn [kept List.filter].
    set (l := b :: line). destruct (split_once 58 l) as [[name value]|] eqn:Hs; cbn [ok_or result_bind]; [|done].
    destruct (_ || _) eqn:Hbad; [done|]. apply orb_false_iff in Hbad as [_ Hl%negb_false_iff].
    unfold kept_line at 1. rewrite Hs. destruct (eq_ignore_ascii_case name (bytes_of "authorization")); cbn [negb].
    + intros [-> Hr]%IH. split; [done|by constructor].
    + intros [-> Hr]%IH. split; [|by constructor]. unfold with_breaks. cbn [fmap list_fmap concat].
      by rewrite <- !app_assoc.
Qed.

Lemma with_breaks_joined l ls : l ++ CRLF ++ with_breaks ls = joined (l :: ls) ++ CRLF.
Proof.
  revert l. induction ls as [|l' ls IH]; intros l; [done|].
  rewrite joined_cons by done. unfold with_breaks in *. cbn [fmap list_fmap concat].
  rewrite <- !app_assoc. f_equal. f_equal. by rewrite <- IH.
Qed.

Lemma trust_head_ok head token th :
  trust_head head token = Ok th ->
  exists request_line ls,
    split_crlf head = request_line :: ls /\ request_line <> [] /\
    is_single_line request_line = true /\ Forall (fun l => is_single_line l = true) ls /\
    valid_utf8 head = true /\
    th_bytes th = joined (request_line :: authorization_line token :: kept ls) ++ HEAD_END.
Proof.
  unfold trust_head, from_utf8. destruct (valid_utf8 head) eqn:Hv; cbn [ok_or result_bind]; [|done].
  destruct (split_crlf head) as [|rl ls]; [done|]. destruct (_ || _) eqn:Hbad; [done|].
  apply orb_false_iff in Hbad as [Hne%bool_decide_eq_false Hl%negb_false_iff].
  intros (r & Hr & [= <-])%result_bind_ok. apply trust_lines_ok in Hr as [Hr Hs].
  exists rl, ls. split_and!; try done. cbn [th_bytes]. rewrite Hr. rewrite joined_cons by done.
  change HEAD_END with (CRLF ++ CRLF). rewrite <- !app_assoc. f_equal. f_equal.
  rewrite (app_assoc (joined _) CRLF CRLF), <- with_breaks_joined. by rewrite <- !app_assoc.
Qed.

(** ** Names *)

Lemma eq_ignore_trans a b c :
  eq_ignore_ascii_case a b = true -> eq_ignore_ascii_case a c = true -> eq_ignore_ascii_case b c = true.
Proof. unfold eq_ignore_ascii_case. rewrite !bool_decide_eq_true. congruence. Qed.

Lemma find_map_app {A B} (f : A -> option B) l k :
  find_map f (l ++ k) = match find_map f l with Some y => Some y | None => find_map f k end.
Proof. induction l as [|x l IH]; cbn; [done|]. by destruct (f x). Qed.

(** Dropping the credentials does not change any other header. *)
Lemma find_map_kept name ls :
  eq_ignore_ascii_case name (bytes_of "authorization") = false ->
  find_map (header_of name) (kept ls) = find_map (header_of name) ls.
Proof.
  intros Hn. unfold kept. induction ls as [|l ls IH]; [done|]. cbn [List.filter find_map]. unfold kept_line at 1.
  destruct (split_once 58 l) as [[n v]|] eqn:Hs.
  - destruct (eq_ignore_ascii_case n (bytes_of "authorization")) eqn:Ha; cbn [negb].
    + unfold header_of at 2. rewrite Hs. cbn.
      destruct (eq_ignore_ascii_case n name) eqn:Hnn; [|exact IH].
      rewrite (eq_ignore_trans _ _ _ Hnn Ha) in Hn. done.
    + cbn [find_map]. by rewrite IH.
  - unfold header_of at 2. rewrite Hs. cbn. exact IH.
Qed.

Lemma kept_not_authorization l ls : l ∈ kept ls -> header_of (bytes_of "authorization") l = None.
Proof.
  unfold kept. rewrite list_elem_of_In. intros [_ Hk]%filter_In. unfold kept_line in Hk. unfold header_of.
  destruct (split_once 58 l) as [[n v]|]; [|done]. cbn [mbind option_bind fst snd]. apply negb_true_iff in Hk. by rewrite Hk.
Qed.

Lemma kept_nonempty ls : Forall (fun l => l <> []) (kept ls).
Proof. apply Forall_forall. unfold kept. intros l Hl%list_elem_of_In%filter_In. destruct Hl as [_ Hl]. by destruct l. Qed.

Lemma kept_sub (P : list Z -> Prop) ls : Forall P ls -> Forall P (kept ls).
Proof.
  rewrite !Forall_forall. intros HP l Hl. apply HP. unfold kept in Hl. rewrite list_elem_of_In in *. apply filter_In in Hl. tauto.
Qed.

(** ** The local token *)

(** Visible ASCII, as the tokens the App Server generates. *)
Definition token_ok (token : list Z) : Prop := token <> [] /\ Forall (fun b => 33 <= b <= 126) token.

Lemma visible_not_white (ws : list (list Z)) b l :
  forallb (fun w => match w with x :: _ => negb (between 33 126 x) | [] => false end) ws = true ->
  33 <= b <= 126 -> strip_one ws (b :: l) = None.
Proof.
  intros Hws Hb. apply strip_one_none. intros w Hw%list_elem_of_In. rewrite forallb_forall in Hws.
  specialize (Hws w Hw). destruct w as [|x w]; [done|]. apply negb_true_iff, bool_decide_eq_false in Hws.
  cbn. rewrite bool_decide_eq_false_2; [done|]. by intros ->.
Qed.

(** Text between visible characters, after one space. *)
Lemma trim_visible b l c :
  33 <= b <= 126 -> 33 <= c <= 126 -> trim_bytes (32 :: b :: l ++ [c]) = b :: l ++ [c].
Proof.
  intros Hb Hc. set (t := b :: l ++ [c]). assert (trim_start (32 :: t) = t) as E.
  { unfold trim_start. change (length (32 :: t)) with (S (length t)).
    change (strip_all (S (length t)) whitespace (32 :: t)) with (strip_all (length t) whitespace t).
    apply strip_all_none, visible_not_white; [reflexivity|done]. }
  unfold trim_bytes. rewrite E. unfold trim_end. rewrite strip_all_none; [apply rev_involutive|].
  unfold t. change (b :: l ++ [c]) with ((b :: l) ++ [c]). rewrite rev_unit.
  apply visible_not_white; [reflexivity|done].
Qed.

Lemma authorization_value token :
  token_ok token -> header_of (bytes_of "authorization") (authorization_line token) = Some (bytes_of "Bearer " ++ token).
Proof.
  intros [Hne Ht]. unfold header_of, authorization_line.
  assert (split_once 58 (bytes_of "Authorization: Bearer " ++ token) =
          Some (bytes_of "Authorization", 32 :: bytes_of "Bearer " ++ token)) as -> by reflexivity.
  cbn [mbind option_bind fst snd].
  assert (eq_ignore_ascii_case (bytes_of "Authorization") (bytes_of "authorization") = true) as -> by reflexivity.
  f_equal. destruct token as [|c token _] using rev_ind; [done|]. apply Forall_app in Ht as [_ Ht].
  rewrite Forall_singleton in Ht.
  change (bytes_of "Bearer ") with (66 :: bytes_of "earer "). cbn [app]. rewrite app_assoc.
  apply trim_visible; [lia|done].
Qed.

Lemma authorization_other name token :
  eq_ignore_ascii_case name (bytes_of "authorization") = false -> header_of name (authorization_line token) = None.
Proof.
  intros Hn. unfold header_of, authorization_line.
  assert (split_once 58 (bytes_of "Authorization: Bearer " ++ token) =
          Some (bytes_of "Authorization", 32 :: bytes_of "Bearer " ++ token)) as -> by reflexivity.
  cbn [mbind option_bind fst snd]. destruct (eq_ignore_ascii_case (bytes_of "Authorization") name) eqn:Hx; [|done].
  assert (eq_ignore_ascii_case (bytes_of "Authorization") (bytes_of "authorization") = true) as Hy by reflexivity.
  by rewrite (eq_ignore_trans _ _ _ Hx Hy) in Hn.
Qed.

Lemma token_single token : token_ok token -> is_single_line token = true.
Proof.
  intros [_ Ht]. induction Ht as [|b l Hb _ IH]; [done|]. apply single_cons. split; [lia|]. split; [lia|done].
Qed.

Lemma single_app a b : is_single_line (a ++ b) = is_single_line a && is_single_line b.
Proof. apply forallb_app. Qed.

Lemma authorization_single token : token_ok token -> is_single_line (authorization_line token) = true.
Proof. intros Ht. unfold authorization_line. rewrite single_app, (token_single token) by done. reflexivity. Qed.

(** ** Valid text *)

Lemma valid_head_shaped l c : valid_utf8 l = true -> head l = Some c -> continuation c = false.
Proof.
  destruct l as [|b l]; [done|]. intros Hv%valid_utf8_chars [= ->].
  destruct (chars_nonempty c l) as (t & gs & E). rewrite E in Hv. apply Forall_cons in Hv as [Hv _].
  apply valid_char_shaped in Hv as (b' & t' & E' & Hb & _). injection E' as -> ->. done.
Qed.

Lemma valid_break l r : valid_utf8 (l ++ CRLF ++ r) = true <-> valid_utf8 l = true /\ valid_utf8 r = true.
Proof.
  rewrite !valid_utf8_chars. cbn [CRLF app]. rewrite chars_app by done. rewrite Forall_app.
  split; intros [Hl Hr]; (split; [exact Hl|]).
  - apply valid_utf8_chars in Hr. apply (valid_utf8_tail [13]) in Hr; [|done].
    apply (valid_utf8_tail [10]) in Hr; [|done]. by apply valid_utf8_chars.
  - apply valid_utf8_chars in Hr as Hv.
    rewrite (chars_single 13 (10 :: r)); [|done|cbn; intros c Hc; by injection Hc as <-].
    rewrite (chars_single 10 r); [by repeat constructor|done|]. intros c Hc. by eapply valid_head_shaped.
Qed.

Lemma valid_joined ls : valid_utf8 (joined ls) = true <-> Forall (fun l => valid_utf8 l = true) ls.
Proof.
  induction ls as [|l ls IH]; [split; [constructor|done]|]. rewrite Forall_cons. destruct ls as [|l' ls].
  - cbn [joined]. split; [intros H; split; [done|constructor]|tauto].
  - by rewrite joined_cons, valid_break, IH by done.
Qed.

Lemma token_valid token : token_ok token -> valid_utf8 (authorization_line token) = true.
Proof.
  intros [_ Ht]. unfold authorization_line.
  assert (Forall (fun b => 0 <= b < 128) (bytes_of "Authorization: Bearer " ++ token)) as Hall.
  { apply Forall_app. split; [apply (bool_decide_unpack _); vm_compute; exact I|].
    eapply Forall_impl; [exact Ht|]. cbn. lia. }
  revert Hall. generalize (bytes_of "Authorization: Bearer " ++ token). intros l Hl.
  apply valid_utf8_chars. induction Hl as [|b l Hb Hl IH]; [constructor|].
  assert (continuation b = false) as Hcb by (apply bool_decide_eq_false; lia).
  rewrite chars_single; [constructor; [cbn; unfold between; apply bool_decide_eq_true; lia|exact IH]|done|].
  intros c Hc. destruct l as [|c' l]; [done|]. injection Hc as ->. apply Forall_cons in Hl as [Hc _].
  apply bool_decide_eq_false. lia.
Qed.

(** ** The request the listener reads *)

(** The lines of a head whose split has no stray line breaks. *)
Lemma head_lines h request_line ls :
  split_crlf (h ++ HEAD_END) = request_line :: ls -> request_line <> [] ->
  is_single_line request_line = true -> Forall (fun l => is_single_line l = true) ls ->
  exists more, lines h = request_line :: more /\ forall name, find_map (header_of name) ls = find_map (header_of name) more.
Proof.
  intros Hs Hne Hr Hl. change HEAD_END with (CRLF ++ CRLF ++ []) in Hs.
  rewrite split_crlf_app, split_crlf_break in Hs. change (split_crlf []) with [[] : list Z] in Hs.
  pose proof (split_crlf_nonempty h). destruct (split_crlf h) as [|rl0 ls0] eqn:Eh; [done|]. cbn [app] in Hs.
  injection Hs as -> <-. apply Forall_app in Hl as [Hl _].
  destruct (lines_joined (request_line :: ls0)) as (tail & E & Ht); [by constructor|].
  rewrite <- Eh, joined_split, Eh in E. destruct (lines h) as [|l more]; [destruct Ht; subst; naive_solver|].
  cbn [app] in E. injection E as <- ->. exists more. split; [done|]. intros name.
  rewrite !find_map_app. destruct (find_map (header_of name) more); [done|]. by destruct Ht; subst.
Qed.

Lemma find_prefix needle l n :
  find needle l = Some n -> exists h t, l = h ++ needle ++ t /\ length h = n.
Proof.
  revert n. induction l as [|b l IH]; intros n; rewrite find_unfold.
  - destruct (strip_prefix needle []) as [t|] eqn:E; [|done]. intros [= <-]. apply strip_prefix_spec in E.
    exists [], t. split; [exact E|done].
  - destruct (strip_prefix needle (b :: l)) as [t|] eqn:E.
    + intros [= <-]. apply strip_prefix_spec in E. exists [], t. split; [exact E|done].
    + destruct (find needle l) as [m|]; [|done]. intros [= <-]. destruct (IH m eq_refl) as (h & t & -> & <-).
      by exists (b :: h), t.
Qed.

(** A head that was read ends with its first empty line. *)
Lemma cut_head buffer n :
  find HEAD_END buffer = Some n ->
  exists h, take (n + length HEAD_END) buffer = h ++ HEAD_END /\
    find HEAD_END (take (n + length HEAD_END) buffer ++ drop (n + length HEAD_END) buffer) = Some (length h).
Proof.
  intros Hf. rewrite take_drop. pose proof Hf as (h & t & -> & <-)%find_prefix. exists h. split; [|done].
  rewrite <- length_app, app_assoc. apply take_app_length.
Qed.

Lemma read_head_ok recv buffer head body rest :
  read_head recv buffer = Ok (head, body, rest) ->
  exists h, head = h ++ HEAD_END /\ find HEAD_END (head ++ body) = Some (length h).
Proof.
  revert buffer. induction recv as [|r recv IH]; intros buffer; cbn [read_head];
    (destruct (find HEAD_END buffer) as [n|] eqn:Hf;
     [intros [= <- <- <-]; by apply cut_head|split_test; [done|]]).
  - done.
  - destruct r as [chunk|]; [|done]. apply IH.
Qed.

(** C17. Whatever a device sends, what the bridge forwards is authorized as the
    App Server's own and otherwise says what the device said.  The head the
    listener cuts off what it is sent is the whole rewritten head, so the body
    starts where the device's body started; it is UTF-8; its only credential is
    the local token; the request line and every other header, as the listener
    reads them, are those of the device's request. *)
Theorem forwarded_request_is_authorized recv token trusted start rest :
  token_ok token -> forward_start recv token = Ok (trusted, start, rest) ->
  exists h body n,
    read_head recv [] = Ok (h ++ HEAD_END, body, rest) /\
    header_end_index start = Some n /\ drop (n + 4) start = body /\ valid_utf8 (take n start) = true /\
    auth_status (header_value (take n start) (bytes_of "authorization")) token = Authorized /\
    (forall line, line ∈ drop 1 (lines (take n start)) -> header_of (bytes_of "authorization") line <> None ->
       line = authorization_line token) /\
    head (lines (take n start)) = head (lines h) /\
    (forall name, eq_ignore_ascii_case name (bytes_of "authorization") = false ->
       header_value (take n start) name = header_value h name).
Proof.
  intros Ht. unfold forward_start. intros ([[hd body] rest'] & Hr & Hf)%result_bind_ok.
  apply result_bind_ok in Hf as (th & Hth & [= <- <- <-]).
  destruct (read_head_ok _ _ _ _ _ Hr) as (h & -> & _).
  apply trust_head_ok in Hth as (rl & ls & Hs & Hne & Hrl & Hls & Hv & Hb).
  destruct (head_lines h rl ls Hs Hne Hrl Hls) as (more & Hm & Hfm).
  set (all := rl :: authorization_line token :: kept ls) in *.
  assert (Forall (fun l => is_single_line l = true) all) as Hsingle
    by (repeat constructor; [done|by apply authorization_single|by apply kept_sub]).
  assert (Forall (fun l => l <> []) all) as Hnonempty by (repeat constructor; [done|done|apply kept_nonempty]).
  pose proof (joined_length_wire all body Hsingle Hnonempty ltac:(done)) as Hfind.
  assert (lines (joined all) = all) as Hlines by by apply lines_joined_full.
  assert (th_bytes th ++ body = joined all ++ HEAD_END ++ body) as E by (rewrite Hb; by rewrite <- app_assoc).
  rewrite E. exists h, body, (length (joined all)). rewrite take_app_length. unfold header_value. rewrite Hlines, Hm.
  split_and!.
  - exact Hr.
  - exact Hfind.
  - change 4%nat with (length HEAD_END). by rewrite <- length_app, app_assoc, drop_app_length.
  - apply valid_joined. pose proof Hv as Hv'. rewrite <- (joined_split (h ++ HEAD_END)), Hs in Hv'.
    apply valid_joined, Forall_cons in Hv' as [? ?].
    repeat constructor; [done|by apply token_valid|by apply kept_sub].
  - unfold all. cbn [drop find_map]. rewrite authorization_value by done. unfold auth_status.
    assert (strip_prefix (bytes_of "Bearer ") (bytes_of "Bearer " ++ token) = Some token) as ->
      by by apply strip_prefix_spec.
    by rewrite bool_decide_eq_true_2.
  - unfold all. cbn [drop]. intros line [->|Hl]%elem_of_cons Hn; [done|].
    by rewrite (kept_not_authorization _ _ Hl) in Hn.
  - done.
  - intros name Hn. unfold all. cbn [drop find_map].
    rewrite authorization_other by done.
    rewrite find_map_kept by done. by rewrite Hfm, drop_0.
Qed.

(** ** Which device a connection belongs to *)

Section Labels.
Context `{KeyCodecs} `{PayloadTypes}.

(** [pairing_client_label] of [protocol_edge/device_handlers.rs]: who paired a
    device, as shown to the user. *)
Definition pairing_client_label (connection_id : string) (w : World) : string :=
  default (dc_server_name (snapshot w)) (device_name_for_connection connection_id w).

(** The bridge notes a connection under the text of its header, the gateway
    looks it up under the id made of that text, and the two are never the same:
    noting a connection does not change who is said to have paired over it. *)
Theorem noted_connection_is_not_found device value id (w : World) :
  valid_connection_id (Some value) = Some id ->
  pairing_client_label id (note_protocol_connection device (of_bytes (trim_bytes value)) w) =
  pairing_client_label id w.
Proof.
  unfold valid_connection_id. cbn [mbind option_bind]. destruct (_ || _); [done|]. intros [= <-].
  unfold pairing_client_label, device_name_for_connection, note_protocol_connection.
  cbn [connection_devices set_connection_devices stored]. rewrite lookup_insert_ne; [done|]. intros E. apply (f_equal String.length) in E.
  revert E. generalize (of_bytes (trim_bytes value)). intros t E.
  assert (forall a b, String.length (a +:+ b) = (String.length a + String.length b)%nat) as Hl.
  { induction a as [|c a IH]; intros b; [done|]. change (String c a +:+ b) with (String c (a +:+ b)). cbn. by rewrite IH. }
  rewrite Hl in E. cbn in E. lia.
Qed.
End Labels.

(** ** Instances *)

Module HttpWitness.
Import PairingWitness.

Definition token : list Z := bytes_of "local-token".

Lemma token_is_ok : token_ok token.
Proof. split; [done|]. apply (bool_decide_unpack _). vm_compute. exact I. Qed.

(** A request in two reads, with credentials and a second connection id. *)
Definition device_head : list Z :=
  joined (bytes_of <$> ["POST /app HTTP/1.1"; "AUTHORIZATION: Bearer guessed"; "X-OpenAIDE-Connection-Id: conn-1";
                        "x-openaide-connection-id: conn-2"; "Content-Length: 4"]%string).
Definition recv : list Read := [ReadBytes (take 30 device_head); ReadBytes (drop 30 device_head ++ HEAD_END ++ bytes_of "ping")].

Definition outcome : TrustedHead * list Z * list Read :=
  match forward_start recv token with Ok r => r | Err _ => (mkTrustedHead [] None, [], []) end.

Lemma recv_forwarded : forward_start recv token = Ok (outcome.1.1, outcome.1.2, outcome.2).
Proof. vm_compute. reflexivity. Qed.

Lemma forwarded_request_is_authorized_witness :
  exists h body n,
    read_head recv [] = Ok (h ++ HEAD_END, body, outcome.2) /\
    header_end_index outcome.1.2 = Some n /\ drop (n + 4) outcome.1.2 = body /\ valid_utf8 (take n outcome.1.2) = true /\
    auth_status (header_value (take n outcome.1.2) (bytes_of "authorization")) token = Authorized /\
    (forall line, line ∈ drop 1 (lines (take n outcome.1.2)) -> header_of (bytes_of "authorization") line <> None ->
       line = authorization_line token) /\
    head (lines (take n outcome.1.2)) = head (lines h) /\
    (forall name, eq_ignore_ascii_case name (bytes_of "authorization") = false ->
       header_value (take n outcome.1.2) name = header_value h name).
Proof.
  exact (forwarded_request_is_authorized recv token outcome.1.1 outcome.1.2 outcome.2 token_is_ok recv_forwarded).
Defined.

(** The listener reads the forwarded request; of two connection ids it takes the
    first, and the bridge notes the last. *)
Example bridge_notes_another_connection :
  match read_http_request (ReadBytes outcome.1.2 :: outcome.2) with
  | Ok r => bool_decide (rq_connection_id r = Some (bytes_of "conn-1")) && bool_decide (rq_body r = bytes_of "ping")
            && match auth_status (rq_authorization r) token with Authorized => true | _ => false end
  | Err _ => false
  end = true /\ th_connection_id outcome.1.1 = Some (bytes_of "conn-2").
Proof. vm_compute. split; reflexivity. Qed.

(** A bare line feed, white space before the colon, a line without a name. *)
Example smuggled_credentials_are_refused :
  forallb (fun line => match trust_head (joined [bytes_of "POST /app HTTP/1.1"; line] ++ HEAD_END) token with
                       | Err InvalidHead => true | _ => false end)
    [bytes_of "X: a" ++ [10] ++ bytes_of "Authorization: Bearer guessed"; bytes_of "Authorization : Bearer guessed";
     bytes_of "no-colon"; bytes_of ": Bearer guessed"; bytes_of "X: " ++ [255]] = true.
Proof. vm_compute. reflexivity. Qed.

#[local] Existing Instance string_payloads.

(** A paired phone's own connection is taken for one of this computer. *)
Example phone_pairs_as_the_computer :
  let value := bytes_of "conn-1" in
  let w := note_protocol_connection KeyB "conn-1" DevicesWitness.paired in
  match valid_connection_id (Some value) with
  | Some id => (pairing_client_label id w, pairing_client_label "conn-1" w)
  | None => (""%string, ""%string)
  end = ("desk"%string, "Phone"%string).
Proof. vm_compute. reflexivity. Qed.
End HttpWitness.
