(* ===== verification/Attachments.v ===== *)
(** * Attachments of a message that is being written

    Models [openaide-rs/app-server/src/attachment_runtime.rs] with its modules
    [ownership], [path_validation], [resources], [handles], [reservation],
    [embedded] and [file_browser], and [validate_base64_media] of [media.rs].

    A client holds ids of resources the server keeps: entries of a directory
    listing, candidates for an embedded copy, and handles that a send consumes.
    Every resource has an owner, a client and a Task, and expires.  A send
    reserves its handles, and then commits or is dropped.

    The mutex makes a locked region one step; an operation that leaves the lock
    to look at the file system is the composition of its regions, and [step] lets
    other regions happen between them.  The file system is an argument, [Disk];
    times are milliseconds, the time read for pruning comes before the one read
    for a new expiry.  Paths are bytes, and the components of [Projects].

    Shows that a handle is consumed by one send only and a candidate confirmed
    only once, that a send that is dropped can be tried again, that clients reach
    their own resources only, that files that are opened lie under the root they
    were chosen in, and that inline images keep to their limits. *)

From stdpp Require Import pretty.
From S2P Require Import Prelude Chat Records Mutation Projects ChatImages Pairing Http.
Local Open Scope Z_scope.

(** ** The file system *)

Abbreviation Path := (list Z).

Record Metadata := mkMetadata { md_is_dir : bool; md_is_file : bool; md_len : Z }.
Inductive ReadError := InvalidData | OtherKind (message : string).

(** What [std::env] and [std::fs] answer at one moment.  An item of a directory
    is its file name. *)
Record Disk := mkDisk {
  current_dir : option Path;
  fs_canonicalize : Path -> result PathBuf string;
  fs_metadata : Path -> result Metadata string;
  fs_read_to_string : Path -> result string ReadError;
  fs_read_dir : Path -> result (list (result (list Z) string)) string;
}.

(** ** Ownership *)

Record AttachmentOwner := mkOwner { ao_client_instance_id : string; ao_task_id : string }.
#[global] Instance AttachmentOwner_eq_dec : EqDecision AttachmentOwner.
Proof. solve_decision. Defined.

Definition belongs_to (actual owner : AttachmentOwner) : bool := bool_decide (actual = owner).
Definition belongs_to_task (actual owner : AttachmentOwner) : bool := bool_decide (ao_task_id actual = ao_task_id owner).
Definition belongs_to_task_id (actual : AttachmentOwner) (task_id : string) : bool := bool_decide (ao_task_id actual = task_id).
Definition belongs_to_client (actual : AttachmentOwner) (client : string) : bool :=
  bool_decide (ao_client_instance_id actual = client).

Inductive AttachmentRuntimeError :=
| UnknownHandle | WrongTask | DuplicateHandle | InvalidRoot | OutsideAllowedRoot | UnknownEntry | NotDirectory
| NotFile | NotText | TooLarge | InvalidImage | ReadFailed (message : string).

(** ** Paths under an allowed root *)

Record AllowedRoot := mkAllowedRoot { selected_root : PathBuf; resolved_root : PathBuf }.
#[global] Instance PathBuf_eq_dec : EqDecision PathBuf.
Proof. solve_decision. Defined.
#[global] Instance AllowedRoot_eq_dec : EqDecision AllowedRoot.
Proof. solve_decision. Defined.

Inductive ValidatedPathKind := KindDirectory | KindFile (size_bytes : Z).

(** [std::path::absolute], as components. *)
Definition absolute (disk : Disk) (path : Path) : option (list Component) :=
  if bool_decide (path = []) then None
  else if has_root path then Some (components path)
  else (fun dir => components dir ++ components path) <$> current_dir disk.

Definition lexical_component (normalized : PathBuf) (c : Component) : PathBuf :=
  match c with
  | CurDir => normalized
  | ParentDir => (pop normalized).2
  | Normal segment => push segment normalized
  | RootDir => mkPath true []
  end.
Definition normalize_lexically (path : list Component) : PathBuf := foldl lexical_component (mkPath false []) path.

Definition lexical_absolute (disk : Disk) (path : Path) : result PathBuf AttachmentRuntimeError :=
  ok_or (normalize_lexically <$> absolute disk path) (ReadFailed "Attachment path could not be normalized").

Definition canonicalize (disk : Disk) (path : Path) (message : string) : result PathBuf AttachmentRuntimeError :=
  match fs_canonicalize disk path with Ok p => Ok p | Err _ => Err (ReadFailed message) end.
Definition metadata (disk : Disk) (path : Path) : result Metadata AttachmentRuntimeError :=
  match fs_metadata disk path with Ok md => Ok md | Err _ => Err (ReadFailed "Attachment metadata is unavailable") end.

(** [Path::starts_with]: whole components. *)
Fixpoint segments_start (l base : list (list Z)) : bool :=
  match base, l with
  | [], _ => true
  | b :: base, s :: l => bool_decide (s = b) && segments_start l base
  | _ :: _, [] => false
  end.
Definition path_starts_with (p base : PathBuf) : bool :=
  if pb_root base then pb_root p && segments_start (pb_segments p) (pb_segments base)
  else match pb_segments base with [] => true | _ => negb (pb_root p) && segments_start (pb_segments p) (pb_segments base) end.

(** [AllowedRoot::new]. *)
Definition allowed_root_new (disk : Disk) (path : Path) : result AllowedRoot AttachmentRuntimeError :=
  let? selected := lexical_absolute disk path in
  let? resolved := canonicalize disk path "Allowed root could not be resolved" in
  let? md := metadata disk (path_bytes resolved) in
  if negb (md_is_dir md) then Err NotDirectory else Ok (mkAllowedRoot selected resolved).

Definition classify (disk : Disk) (root : AllowedRoot) (selected_path : Path) : result ValidatedPathKind AttachmentRuntimeError :=
  let? selected := lexical_absolute disk selected_path in
  if negb (path_starts_with selected (selected_root root)) then Err OutsideAllowedRoot
  else
    let? resolved := canonicalize disk (path_bytes selected) "Attachment path could not be resolved" in
    if negb (path_starts_with resolved (resolved_root root)) then Err OutsideAllowedRoot
    else
      let? md := metadata disk (path_bytes resolved) in
      if md_is_dir md then Ok KindDirectory
      else if md_is_file md then Ok (KindFile (md_len md))
      else Err NotFile.

Definition validate_directory (disk : Disk) (root : AllowedRoot) (selected_path : Path) : result unit AttachmentRuntimeError :=
  let? kind := classify disk root selected_path in
  match kind with KindDirectory => Ok tt | KindFile _ => Err NotDirectory end.
Definition validate_file (disk : Disk) (root : AllowedRoot) (selected_path : Path) : result Z AttachmentRuntimeError :=
  let? kind := classify disk root selected_path in
  match kind with KindFile size => Ok size | KindDirectory => Err NotFile end.

(** ** Images *)

Inductive MediaDataError := MediaInvalid | MediaTooLarge.

Definition validate_base64_media `{ImageCodecs} (media_type expected_prefix data : string) (max_bytes : Z) : result Z MediaDataError :=
  if negb (starts_with expected_prefix media_type)
     || negb (bool_decide (length (trim_bytes (bytes_of media_type)) = length (bytes_of media_type)))
  then Err MediaInvalid
  else
    let? decoded := ok_or (base64_decode data) MediaInvalid in
    if bool_decide (decoded = []) then Err MediaInvalid
    else if bool_decide (max_bytes < Z.of_nat (length decoded)) then Err MediaTooLarge
    else Ok (Z.of_nat (length decoded)).
Definition validate_base64_image `{ImageCodecs} (media_type data : string) (max_bytes : Z) : result Z MediaDataError :=
  validate_base64_media media_type "image/" data max_bytes.
Definition validate_base64_audio `{ImageCodecs} (media_type data : string) (max_bytes : Z) : result Z MediaDataError :=
  validate_base64_media media_type "audio/" data max_bytes.

Definition media_error (e : MediaDataError) : AttachmentRuntimeError :=
  match e with MediaInvalid => InvalidImage | MediaTooLarge => TooLarge end.

Definition PASTED_IMAGE_MAX_BYTES : Z := 5 * 1024 * 1024.
Definition validate_pasted_image `{ImageCodecs} (mime_type data : string) : result Z AttachmentRuntimeError :=
  match validate_base64_image mime_type data PASTED_IMAGE_MAX_BYTES with Ok size => Ok size | Err e => Err (media_error e) end.

(** [rsplit] always yields a last piece. *)
Definition safe_image_label (label : string) : string :=
  let trimmed := trim_bytes (bytes_of label) in
  let last_segment := trim_bytes (default trimmed (head (rsplit [47; 92] trimmed [] []))) in
  if bool_decide (last_segment = []) then "Pasted image" else of_bytes (concat (take 80 (chars last_segment))).

(** An object of [json!] has its keys in order. *)
Definition image_payload (mime_type data : string) (size_bytes : Z) : JsonValue :=
  JObject [("data"%string, JString data); ("mimeType"%string, JString mime_type); ("sizeBytes"%string, JNumber size_bytes)].

Record ComposerImage := mkComposerImage { ci_label : string; ci_mime_type : string; ci_data : string }.

Record ResolvedSendAttachments := mkResolved { chat_attachments : list Attachment; agent_attachments : list Attachment }.

Definition IMAGE_MAX_BYTES : Z := 5 * 1024 * 1024.
Definition MESSAGE_IMAGE_MAX_BYTES : Z := 8 * 1024 * 1024.

(** The loop of [from_inline_images]. *)
Fixpoint inline_images `{ImageCodecs} (images : list ComposerImage) (total : Z) (attachments : list Attachment)
  : result (list Attachment) AttachmentRuntimeError :=
  match images with
  | [] => Ok attachments
  | image :: images =>
      match validate_base64_image (ci_mime_type image) (ci_data image) IMAGE_MAX_BYTES with
      | Err e => Err (media_error e)
      | Ok size =>
          match u64_checked_add total size with
          | None => Err TooLarge
          | Some total =>
              if bool_decide (total <= MESSAGE_IMAGE_MAX_BYTES) then
                inline_images images total
                  (attachments ++ [mkAttachment "image" (safe_image_label (ci_label image)) None
                                     (Some (image_payload (ci_mime_type image) (ci_data image) size))])
              else Err TooLarge
          end
      end
  end.
Definition from_inline_images `{ImageCodecs} (images : list ComposerImage) : result ResolvedSendAttachments AttachmentRuntimeError :=
  let? attachments := inline_images images 0 [] in Ok (mkResolved attachments attachments).

Definition from_persisted (chat agent : list Attachment) : ResolvedSendAttachments := mkResolved chat agent.
Definition resolved_is_empty (r : ResolvedSendAttachments) : bool :=
  bool_decide (chat_attachments r = []) && bool_decide (agent_attachments r = []).
Definition contains_images (r : ResolvedSendAttachments) : bool :=
  existsb (fun a => bool_decide (att_kind a = "image"%string)) (agent_attachments r).
Definition clone_with_inline_images `{ImageCodecs} (images : list ComposerImage) (r : ResolvedSendAttachments)
  : result ResolvedSendAttachments AttachmentRuntimeError :=
  let? inline := from_inline_images images in
  Ok (mkResolved (chat_attachments r ++ chat_attachments inline) (agent_attachments r ++ agent_attachments inline)).

(** ** Resources *)

Inductive AttachmentTarget :=
| FileReference (path : Path) (allowed_root : AllowedRoot)
| EmbeddedSnapshot (path : Path) (allowed_root : AllowedRoot)
| PastedImage (mime_type data : string) (size_bytes : Z)
| QueuedSnapshot (chat_attachment agent_attachment : Attachment).

Record PreSendAttachmentHandle := mkHandle {
  ph_owner : AttachmentOwner; ph_label : string; ph_target : AttachmentTarget; ph_expires_at : Z }.

Record EmbeddedAttachmentCandidateHandle := mkCandidate {
  ch_owner : AttachmentOwner; ch_label : string; ch_path : Path; ch_allowed_root : AllowedRoot;
  ch_size_bytes : option Z; ch_expires_at : Z }.

Inductive FileBrowserEntryKind := EntryDirectory | EntryFile.
#[global] Instance FileBrowserEntryKind_eq_dec : EqDecision FileBrowserEntryKind.
Proof. solve_decision. Defined.

Record FileBrowserEntryHandle := mkEntry {
  fe_owner : AttachmentOwner; fe_root_id : string; fe_label : string; fe_path : Path; fe_allowed_root : AllowedRoot;
  fe_kind : FileBrowserEntryKind; fe_expires_at : Z }.

(** [Path::to_string_lossy]. *)
Definition to_string_lossy (path : Path) : string := of_bytes (from_utf8_lossy path).

Definition kind_name (t : AttachmentTarget) : string :=
  match t with
  | FileReference _ _ => "file_reference"
  | EmbeddedSnapshot _ _ => "embedded_snapshot"
  | PastedImage _ _ _ => "image"
  | QueuedSnapshot _ _ => "embedded_snapshot"
  end.

Definition EMBEDDED_TEXT_MAX_BYTES : Z := 256 * 1024.

(** [PreSendAttachmentHandle::chat_attachment] and [agent_attachment]. *)
Definition handle_chat_attachment (h : PreSendAttachmentHandle) : Attachment :=
  match ph_target h with
  | QueuedSnapshot chat _ => chat
  | PastedImage mime_type data size => mkAttachment (kind_name (ph_target h)) (ph_label h) None (Some (image_payload mime_type data size))
  | FileReference path _ | EmbeddedSnapshot path _ =>
      mkAttachment (kind_name (ph_target h)) (ph_label h) (Some (to_string_lossy path)) None
  end.

Definition handle_agent_attachment (disk : Disk) (h : PreSendAttachmentHandle) : result Attachment AttachmentRuntimeError :=
  match ph_target h with
  | QueuedSnapshot _ agent => Ok agent
  | FileReference path root =>
      check? validate_file disk root path in
      Ok (mkAttachment (kind_name (ph_target h)) (ph_label h) (Some (to_string_lossy path)) None)
  | EmbeddedSnapshot path root =>
      check? validate_file disk root path in
      match fs_read_to_string disk path with
      | Err _ => Err (ReadFailed "Embedded attachment could not be read")
      | Ok text =>
          if bool_decide (EMBEDDED_TEXT_MAX_BYTES < Z.of_nat (length (bytes_of text))) then Err TooLarge
          else Ok (mkAttachment (kind_name (ph_target h)) (ph_label h) None
                     (Some (JObject [("mimeType"%string, JString "text/plain"); ("text"%string, JString text)])))
      end
  | PastedImage mime_type data size =>
      Ok (mkAttachment (kind_name (ph_target h)) (ph_label h) None (Some (image_payload mime_type data size)))
  end.

(** ** The state *)

Record AttachmentRuntimeState := mkState {
  next_id : Z; next_candidate_id : Z; next_entry_id : Z;
  handles : gmap string PreSendAttachmentHandle;
  candidates : gmap string EmbeddedAttachmentCandidateHandle;
  entries : gmap string FileBrowserEntryHandle;
  reserved_handles : gset string;
}.

Definition runtime_new : AttachmentRuntimeState := mkState 0 0 0 ∅ ∅ ∅ ∅.

Definition set_handles (h : gmap string PreSendAttachmentHandle) (s : AttachmentRuntimeState) : AttachmentRuntimeState :=
  mkState (next_id s) (next_candidate_id s) (next_entry_id s) h (candidates s) (entries s) (reserved_handles s).
Definition set_reserved (r : gset string) (s : AttachmentRuntimeState) : AttachmentRuntimeState :=
  mkState (next_id s) (next_candidate_id s) (next_entry_id s) (handles s) (candidates s) (entries s) r.

Definition ABANDONED_RESOURCE_TTL : Z := 30 * 60 * 1000.
Definition expires_at (now : Z) : Z := now + ABANDONED_RESOURCE_TTL.

Definition remove_orphaned_reservations (s : AttachmentRuntimeState) : AttachmentRuntimeState :=
  set_reserved (filter (fun id => is_Some (handles s !! id)) (reserved_handles s)) s.

(** The [retain]s of [prune_expired] and of the two [discard]s. *)
Definition retain (kh : string -> PreSendAttachmentHandle -> bool) (kc : EmbeddedAttachmentCandidateHandle -> bool)
    (ke : FileBrowserEntryHandle -> bool) (s : AttachmentRuntimeState) : AttachmentRuntimeState :=
  remove_orphaned_reservations
    (mkState (next_id s) (next_candidate_id s) (next_entry_id s)
       (filter (fun e => kh e.1 e.2 = true) (handles s)) (filter (fun e => kc e.2 = true) (candidates s))
       (filter (fun e => ke e.2 = true) (entries s)) (reserved_handles s)).

Definition prune_expired (now : Z) (s : AttachmentRuntimeState) : AttachmentRuntimeState :=
  retain (fun id h => bool_decide (now < ph_expires_at h) || bool_decide (id ∈ reserved_handles s))
         (fun c => bool_decide (now < ch_expires_at c)) (fun e => bool_decide (now < fe_expires_at e)) s.

Definition discard_resources_for_client (client : string) (s : AttachmentRuntimeState) : AttachmentRuntimeState :=
  retain (fun _ h => negb (belongs_to_client (ph_owner h) client)) (fun c => negb (belongs_to_client (ch_owner c) client))
         (fun e => negb (belongs_to_client (fe_owner e) client)) s.
Definition discard_resources_for_task (task_id : string) (s : AttachmentRuntimeState) : AttachmentRuntimeState :=
  retain (fun _ h => negb (belongs_to_task_id (ph_owner h) task_id)) (fun c => negb (belongs_to_task_id (ch_owner c) task_id))
         (fun e => negb (belongs_to_task_id (fe_owner e) task_id)) s.

Definition keep_handle (at_ : Z) (h : PreSendAttachmentHandle) : PreSendAttachmentHandle :=
  mkHandle (ph_owner h) (ph_label h) (ph_target h) at_.
Definition keep_candidate (at_ : Z) (c : EmbeddedAttachmentCandidateHandle) : EmbeddedAttachmentCandidateHandle :=
  mkCandidate (ch_owner c) (ch_label c) (ch_path c) (ch_allowed_root c) (ch_size_bytes c) at_.
Definition keep_entry (at_ : Z) (e : FileBrowserEntryHandle) : FileBrowserEntryHandle :=
  mkEntry (fe_owner e) (fe_root_id e) (fe_label e) (fe_path e) (fe_allowed_root e) (fe_kind e) at_.

Definition keep_alive_for_client (client : string) (now : Z) (s : AttachmentRuntimeState) : AttachmentRuntimeState :=
  let at_ := now + ABANDONED_RESOURCE_TTL in
  prune_expired now
    (mkState (next_id s) (next_candidate_id s) (next_entry_id s)
       ((fun h => if belongs_to_client (ph_owner h) client then keep_handle at_ h else h) <$> handles s)
       ((fun c => if belongs_to_client (ch_owner c) client then keep_candidate at_ c else c) <$> candidates s)
       ((fun e => if belongs_to_client (fe_owner e) client then keep_entry at_ e else e) <$> entries s)
       (reserved_handles s)).

(** ** Handles *)

Record RegisteredAttachmentHandle := mkRegistered { rh_handle_id : string; rh_label : string }.
Record PreSendAttachment := mkPreSend { pa_handle_id : string; pa_label : string }.

Definition handle_id_of (n : Z) : string := "attachment-handle-" +:+ pretty (Z.to_N n).
Definition candidate_id_of (n : Z) : string := "attachment-candidate-" +:+ pretty (Z.to_N n).
Definition entry_id_of (n : Z) : string := "file-entry-" +:+ pretty (Z.to_N n).

(** The insertion that the registrations share, once the state is pruned. *)
Definition insert_handle (later : Z) (owner : AttachmentOwner) (label : string) (target : AttachmentTarget)
    (s : AttachmentRuntimeState) : RegisteredAttachmentHandle * AttachmentRuntimeState :=
  let n := u64_add (next_id s) 1 in
  (mkRegistered (handle_id_of n) label,
   mkState n (next_candidate_id s) (next_entry_id s)
     (<[handle_id_of n := mkHandle owner label target (expires_at later)]> (handles s))
     (candidates s) (entries s) (reserved_handles s)).

Definition register_file_reference (now later : Z) (owner : AttachmentOwner) (label : string) (path : Path) (root : AllowedRoot)
    (s : AttachmentRuntimeState) : RegisteredAttachmentHandle * AttachmentRuntimeState :=
  insert_handle later owner label (FileReference path root) (prune_expired now s).
Definition register_queued_snapshot (now later : Z) (owner : AttachmentOwner) (chat agent : Attachment)
    (s : AttachmentRuntimeState) : RegisteredAttachmentHandle * AttachmentRuntimeState :=
  insert_handle later owner (att_label agent) (QueuedSnapshot chat agent) (prune_expired now s).
Definition register_pasted_image (now later : Z) (owner : AttachmentOwner) (label mime_type data : string) (size_bytes : Z)
    (s : AttachmentRuntimeState) : RegisteredAttachmentHandle * AttachmentRuntimeState :=
  insert_handle later owner label (PastedImage mime_type data size_bytes) (prune_expired now s).

Definition pre_send (r : RegisteredAttachmentHandle) : PreSendAttachment := mkPreSend (rh_handle_id r) (rh_label r).

Definition create_pasted_image `{ImageCodecs} (now later : Z) (owner : AttachmentOwner) (label mime_type data : string)
    (s : AttachmentRuntimeState) : result PreSendAttachment AttachmentRuntimeError * AttachmentRuntimeState :=
  match validate_pasted_image mime_type data with
  | Err e => (Err e, s)
  | Ok size =>
      let '(r, s) := register_pasted_image now later owner (safe_image_label label) mime_type data size s in
      (Ok (pre_send r), s)
  end.

(** [Path::parent], printed with single slashes. *)
Definition component_name (c : Component) : list Z :=
  match c with RootDir => [] | CurDir => [46] | ParentDir => [46; 46] | Normal s => s end.
Definition parent (path : Path) : option Path :=
  match components path with
  | [] | [RootDir] => None
  | RootDir :: cs => Some (path_bytes (mkPath true (component_name <$> removelast cs)))
  | cs => Some (path_bytes (mkPath false (component_name <$> removelast cs)))
  end.

Definition is_file (disk : Disk) (path : Path) : bool :=
  match fs_metadata disk path with Ok md => md_is_file md | Err _ => false end.

(** The label of a local file: [file_name().to_str()] is [None] for bytes that
    are not UTF-8. *)
Definition local_file_label (path : Path) (label : option string) : string :=
  let value := match label with
               | Some l => Some (bytes_of l)
               | None => name ← file_name path; if valid_utf8 name then Some name else None
               end in
  let value := v ← value; if bool_decide (v = []) then None else Some v in
  of_bytes (concat (take 160 (chars (default (bytes_of "Attached file") value)))).

Definition create_local_file_reference (disk : Disk) (now later : Z) (owner : AttachmentOwner) (path : Path) (label : option string)
    (s : AttachmentRuntimeState) : result PreSendAttachment AttachmentRuntimeError * AttachmentRuntimeState :=
  match fs_canonicalize disk path with
  | Err e => (Err (ReadFailed e), s)
  | Ok p =>
      let path := path_bytes p in
      if negb (is_file disk path) then (Err NotFile, s)
      else
        match (let? dir := ok_or (parent path) InvalidRoot in allowed_root_new disk dir) with
        | Err e => (Err e, s)
        | Ok root =>
            let '(r, s) := register_file_reference now later owner (local_file_label path label) path root s in
            (Ok (pre_send r), s)
        end
  end.

Definition handle_access_error (actual requested : AttachmentOwner) : AttachmentRuntimeError :=
  if belongs_to_task actual requested then UnknownHandle else WrongTask.

(** The checks that [refresh_handles] and [reserve_for_send] make of an id. *)
Definition check_handle (owner : AttachmentOwner) (seen : list string) (id : string) (s : AttachmentRuntimeState)
  : result PreSendAttachmentHandle AttachmentRuntimeError :=
  if bool_decide (id ∈ seen) then Err DuplicateHandle
  else
    let? handle := ok_or (handles s !! id) UnknownHandle in
    if bool_decide (id ∈ reserved_handles s) then Err UnknownHandle
    else if negb (belongs_to (ph_owner handle) owner) then Err (handle_access_error (ph_owner handle) owner)
    else Ok handle.

Definition extend (at_ : Z) (ids : list string) (m : gmap string PreSendAttachmentHandle) : gmap string PreSendAttachmentHandle :=
  foldl (fun m id => alter (keep_handle at_) id m) m ids.

Fixpoint refresh_loop (owner : AttachmentOwner) (ids seen : list string) (s : AttachmentRuntimeState)
  : result (list PreSendAttachment) AttachmentRuntimeError :=
  match ids with
  | [] => Ok []
  | id :: ids =>
      let? handle := check_handle owner seen id s in
      let? rest := refresh_loop owner ids (id :: seen) s in
      Ok (mkPreSend id (ph_label handle) :: rest)
  end.
Definition refresh_handles (now later : Z) (owner : AttachmentOwner) (ids : list string) (s : AttachmentRuntimeState)
  : result (list PreSendAttachment) AttachmentRuntimeError * AttachmentRuntimeState :=
  let s := prune_expired now s in
  match refresh_loop owner ids [] s with
  | Err e => (Err e, s)
  | Ok attachments => (Ok attachments, set_handles (extend (expires_at later) ids (handles s)) s)
  end.

Inductive AttachmentResourceId := ResourceHandle (id : string) | ResourceCandidate (id : string).
Inductive AttachmentReleaseStatus := Released | NoOp | Forbidden.

Definition release_one (owner : AttachmentOwner) (resource : AttachmentResourceId) (s : AttachmentRuntimeState)
  : AttachmentReleaseStatus * AttachmentRuntimeState :=
  match resource with
  | ResourceHandle id =>
      match handles s !! id with
      | None => (NoOp, s)
      | Some handle =>
          if negb (belongs_to (ph_owner handle) owner) then (Forbidden, s)
          else if bool_decide (id ∈ reserved_handles s) then (NoOp, s)
          else (Released, set_handles (delete id (handles s)) s)
      end
  | ResourceCandidate id =>
      match candidates s !! id with
      | None => (NoOp, s)
      | Some candidate =>
          if negb (belongs_to (ch_owner candidate) owner) then (Forbidden, s)
          else (Released, mkState (next_id s) (next_candidate_id s) (next_entry_id s) (handles s)
                            (delete id (candidates s)) (entries s) (reserved_handles s))
      end
  end.
Fixpoint release_all (owner : AttachmentOwner) (resources : list AttachmentResourceId) (s : AttachmentRuntimeState)
  : list (AttachmentResourceId * AttachmentReleaseStatus) * AttachmentRuntimeState :=
  match resources with
  | [] => ([], s)
  | r :: resources =>
      let '(status, s) := release_one owner r s in
      let '(outcomes, s) := release_all owner resources s in ((r, status) :: outcomes, s)
  end.
Definition release_resources (now : Z) (owner : AttachmentOwner) (resources : list AttachmentResourceId) (s : AttachmentRuntimeState)
  : list (AttachmentResourceId * AttachmentReleaseStatus) * AttachmentRuntimeState :=
  release_all owner resources (prune_expired now s).

(** ** Reservations of a send *)

Record AttachmentSendReservation := mkReservation { rv_handle_ids : list string; rv_attachments : ResolvedSendAttachments }.

Fixpoint resolve_loop (disk : Disk) (owner : AttachmentOwner) (ids seen : list string) (s : AttachmentRuntimeState)
  : result ResolvedSendAttachments AttachmentRuntimeError :=
  match ids with
  | [] => Ok (mkResolved [] [])
  | id :: ids =>
      let? handle := check_handle owner seen id s in
      let? agent := handle_agent_attachment disk handle in
      let? rest := resolve_loop disk owner ids (id :: seen) s in
      Ok (mkResolved (handle_chat_attachment handle :: chat_attachments rest) (agent :: agent_attachments rest))
  end.
Definition reserve_for_send (disk : Disk) (now later : Z) (owner : AttachmentOwner) (ids : list string) (s : AttachmentRuntimeState)
  : result AttachmentSendReservation AttachmentRuntimeError * AttachmentRuntimeState :=
  let s := prune_expired now s in
  match resolve_loop disk owner ids [] s with
  | Err e => (Err e, s)
  | Ok attachments =>
      (Ok (mkReservation ids attachments),
       set_reserved (reserved_handles s ∪ list_to_set ids) (set_handles (extend (expires_at later) ids (handles s)) s))
  end.

Definition resolved_with_inline_images `{ImageCodecs} (images : list ComposerImage) (r : AttachmentSendReservation)
  : result ResolvedSendAttachments AttachmentRuntimeError := clone_with_inline_images images (rv_attachments r).

(** [commit_with] and [Drop]; the reservation is consumed by either. *)
Definition commit_with (r : AttachmentSendReservation) (s : AttachmentRuntimeState) : AttachmentRuntimeState :=
  foldl (fun s id => set_reserved (reserved_handles s ∖ {[id]}) (set_handles (delete id (handles s)) s)) s (rv_handle_ids r).
Definition drop_reservation (r : AttachmentSendReservation) (s : AttachmentRuntimeState) : AttachmentRuntimeState :=
  foldl (fun s id => set_reserved (reserved_handles s ∖ {[id]}) s) s (rv_handle_ids r).

Record ResolvedRevealAttachment := mkReveal { ra_path : Path; ra_label : string }.

Definition resolve_for_reveal (disk : Disk) (now : Z) (owner : AttachmentOwner) (id : string) (s : AttachmentRuntimeState)
  : result ResolvedRevealAttachment AttachmentRuntimeError * AttachmentRuntimeState :=
  let s := prune_expired now s in
  (let? handle := ok_or (handles s !! id) UnknownHandle in
   if negb (belongs_to (ph_owner handle) owner) then Err (handle_access_error (ph_owner handle) owner)
   else match ph_target handle with
        | FileReference path root => check? validate_file disk root path in Ok (mkReveal path (ph_label handle))
        | EmbeddedSnapshot _ _ | PastedImage _ _ _ | QueuedSnapshot _ _ => Err NotFile
        end, s).

(** ** Embedded copies *)

Inductive AttachmentCandidateErrorCode := CodeUnknownCandidate | CodeWrongTask | CodeNotText | CodeTooLarge | CodeReadFailed.
Record AttachmentCandidateError := mkCandidateError {
  ce_candidate_id : string; ce_code : AttachmentCandidateErrorCode; ce_message : string }.
Record EmbeddedAttachmentCandidate := mkEmbeddedCandidate {
  ec_candidate_id : string; ec_label : string; ec_size_bytes : option Z }.

Definition unknown_candidate (id : string) : AttachmentCandidateError :=
  mkCandidateError id CodeUnknownCandidate "Unknown embedded candidate".
Definition candidate_access_error (id : string) (actual requested : AttachmentOwner) : AttachmentCandidateError :=
  if belongs_to_task actual requested then unknown_candidate id
  else mkCandidateError id CodeWrongTask "Embedded candidate belongs to another Task".
Definition candidate_error_from_runtime (id : string) (e : AttachmentRuntimeError) : AttachmentCandidateError :=
  match e with
  | NotText => mkCandidateError id CodeNotText "Embedded snapshots support UTF-8 text files only"
  | TooLarge => mkCandidateError id CodeTooLarge "Embedded snapshot is too large"
  | ReadFailed message => mkCandidateError id CodeReadFailed message
  | _ => mkCandidateError id CodeReadFailed "Embedded candidate could not be confirmed"
  end.

Definition is_utf8 (disk : Disk) (path : Path) : result bool AttachmentRuntimeError :=
  match fs_read_to_string disk path with
  | Ok _ => Ok true
  | Err InvalidData => Ok false
  | Err (OtherKind message) => Err (ReadFailed message)
  end.
Definition validate_embedded_file (disk : Disk) (path : Path) : result Z AttachmentRuntimeError :=
  match fs_metadata disk path with
  | Err message => Err (ReadFailed message)
  | Ok md =>
      if negb (md_is_file md) then Err NotFile
      else if bool_decide (EMBEDDED_TEXT_MAX_BYTES < md_len md) then Err TooLarge
      else let? text := is_utf8 disk path in if negb text then Err NotText else Ok (md_len md)
  end.

(** The first locked region of [create_embedded_candidate] and
    [create_file_reference]: the entry, cloned. *)
Definition lookup_entry (now : Z) (id : string) (s : AttachmentRuntimeState)
  : result FileBrowserEntryHandle AttachmentRuntimeError * AttachmentRuntimeState :=
  let s := prune_expired now s in (ok_or (entries s !! id) UnknownEntry, s).

(** What both check of the entry outside of the lock. *)
Definition check_entry (disk : Disk) (owner : AttachmentOwner) (entry : FileBrowserEntryHandle) : result unit AttachmentRuntimeError :=
  if negb (belongs_to (fe_owner entry) owner)
  then Err (if belongs_to_task (fe_owner entry) owner then UnknownEntry else WrongTask)
  else if negb (bool_decide (fe_kind entry = EntryFile)) then Err NotFile
  else check? validate_file disk (fe_allowed_root entry) (fe_path entry) in Ok tt.

Definition register_embedded_candidate (now later : Z) (owner : AttachmentOwner) (label : string) (path : Path) (root : AllowedRoot)
    (size_bytes : option Z) (s : AttachmentRuntimeState) : EmbeddedAttachmentCandidate * AttachmentRuntimeState :=
  let s := prune_expired now s in
  let n := u64_add (next_candidate_id s) 1 in
  (mkEmbeddedCandidate (candidate_id_of n) label size_bytes,
   mkState (next_id s) n (next_entry_id s) (handles s)
     (<[candidate_id_of n := mkCandidate owner label path root size_bytes (expires_at later)]> (candidates s))
     (entries s) (reserved_handles s)).

(** The moments of an operation in two locked regions: the first lock, the file
    system between them, the second lock and the expiry read under it. *)
Record Moments := mkMoments { mo_first : Z; mo_disk : Disk; mo_second : Z; mo_later : Z }.

Definition create_embedded_candidate (mo : Moments) (owner : AttachmentOwner) (entry_id : string) (s : AttachmentRuntimeState)
  : result EmbeddedAttachmentCandidate AttachmentRuntimeError * AttachmentRuntimeState :=
  let '(found, s) := lookup_entry (mo_first mo) entry_id s in
  match (let? entry := found in check? check_entry (mo_disk mo) owner entry in
         let? size := validate_embedded_file (mo_disk mo) (fe_path entry) in Ok (entry, size)) with
  | Err e => (Err e, s)
  | Ok (entry, size) =>
      let '(candidate, s) := register_embedded_candidate (mo_second mo) (mo_later mo) owner (fe_label entry) (fe_path entry)
                               (fe_allowed_root entry) (Some size) s in
      (Ok candidate, s)
  end.

(** [confirm_one_embedded]: the lookup, the checks outside of the lock, and the
    region that checks again, consumes the candidate and publishes the handle. *)
Definition confirm_lookup (now : Z) (id : string) (s : AttachmentRuntimeState)
  : result EmbeddedAttachmentCandidateHandle AttachmentCandidateError * AttachmentRuntimeState :=
  let s := prune_expired now s in (ok_or (candidates s !! id) (unknown_candidate id), s).

Definition confirm_check (disk : Disk) (owner : AttachmentOwner) (id : string) (c : EmbeddedAttachmentCandidateHandle)
  : result unit AttachmentCandidateError :=
  if negb (belongs_to (ch_owner c) owner) then Err (candidate_access_error id (ch_owner c) owner)
  else match validate_file disk (ch_allowed_root c) (ch_path c) with
       | Err e => Err (candidate_error_from_runtime id e)
       | Ok _ =>
           match validate_embedded_file disk (ch_path c) with
           | Err e => Err (candidate_error_from_runtime id e)
           | Ok _ => Ok tt
           end
       end.

Definition confirm_publish (now later : Z) (owner : AttachmentOwner) (id : string) (s : AttachmentRuntimeState)
  : result PreSendAttachment AttachmentCandidateError * AttachmentRuntimeState :=
  let s := prune_expired now s in
  match candidates s !! id with
  | None => (Err (unknown_candidate id), s)
  | Some c =>
      if negb (belongs_to (ch_owner c) owner) then (Err (candidate_access_error id (ch_owner c) owner), s)
      else
        let s := mkState (next_id s) (next_candidate_id s) (next_entry_id s) (handles s) (delete id (candidates s))
                   (entries s) (reserved_handles s) in
        let '(r, s) := insert_handle later (ch_owner c) (ch_label c) (EmbeddedSnapshot (ch_path c) (ch_allowed_root c)) s in
        (Ok (pre_send r), s)
  end.

Definition confirm_one_embedded (mo : Moments) (owner : AttachmentOwner) (id : string) (s : AttachmentRuntimeState)
  : result PreSendAttachment AttachmentCandidateError * AttachmentRuntimeState :=
  let '(found, s) := confirm_lookup (mo_first mo) id s in
  match (let? c := found in confirm_check (mo_disk mo) owner id c) with
  | Err e => (Err e, s)
  | Ok _ => confirm_publish (mo_second mo) (mo_later mo) owner id s
  end.

(** [confirm_embedded]: one list of moments, an element for each candidate. *)
Fixpoint confirm_loop (owner : AttachmentOwner) (ids : list (string * Moments)) (seen : list string) (s : AttachmentRuntimeState)
  : list PreSendAttachment * list AttachmentCandidateError * AttachmentRuntimeState :=
  match ids with
  | [] => ([], [], s)
  | (id, mo) :: ids =>
      if bool_decide (id ∈ seen) then
        let '(attachments, errors, s) := confirm_loop owner ids seen s in
        (attachments, mkCandidateError id CodeUnknownCandidate "Duplicate embedded candidate" :: errors, s)
      else
        let '(r, s) := confirm_one_embedded mo owner id s in
        let '(attachments, errors, s) := confirm_loop owner ids (id :: seen) s in
        match r with
        | Ok a => (a :: attachments, errors, s)
        | Err e => (attachments, e :: errors, s)
        end
  end.
Definition confirm_embedded (owner : AttachmentOwner) (ids : list (string * Moments)) (s : AttachmentRuntimeState)
  : list PreSendAttachment * list AttachmentCandidateError * AttachmentRuntimeState := confirm_loop owner ids [] s.

(** ** The file browser *)

Definition root_id : string := "task-root-1".

Definition safe_path_label (path : Path) : string :=
  match file_name path with
  | Some name => let label := to_string_lossy name in
                 if bool_decide (trim label = ""%string) then "Workspace" else label
  | None => "Workspace"
  end.

Definition list_roots (workspace_root : Path) : list (string * string) := [(root_id, safe_path_label workspace_root)].

Definition is_hidden_file_browser_directory (label : string) : bool :=
  starts_with "." label ||
  bool_decide (label ∈ ["build"%string; "coverage"%string; "dist"%string; "node_modules"%string; "qa-artifacts"%string;
                        "qa-scripts"%string; "target"%string; "test-results"%string; "tmp"%string]).

Record DiscoveredEntry := mkDiscovered {
  de_label : string; de_path : Path; de_kind : FileBrowserEntryKind; de_size_bytes : option Z }.

Definition sort_key (k : FileBrowserEntryKind) : Z := match k with EntryDirectory => 0 | EntryFile => 1 end.

(** [Path::join] with a file name. *)
Definition join_name (dir : Path) (name : list Z) : Path :=
  match last dir with
  | None | Some 47 => dir ++ name
  | Some _ => dir ++ 47 :: name
  end.

(** One item of [read_dir]: skipped when it cannot be classified or is hidden. *)
Definition discover_item (disk : Disk) (directory : Path) (root : AllowedRoot) (name : list Z) : option DiscoveredEntry :=
  let label := to_string_lossy name in
  let path := join_name directory name in
  match classify disk root path with
  | Ok KindDirectory => if is_hidden_file_browser_directory label then None else Some (mkDiscovered label path EntryDirectory None)
  | Ok (KindFile size) => Some (mkDiscovered label path EntryFile (Some size))
  | Err _ => None
  end.

Fixpoint discover_all (disk : Disk) (directory : Path) (root : AllowedRoot) (items : list (result (list Z) string))
  : result (list DiscoveredEntry) AttachmentRuntimeError :=
  match items with
  | [] => Ok []
  | Err e :: _ => Err (ReadFailed e)
  | Ok name :: items =>
      let? rest := discover_all disk directory root items in
      Ok (option_list (discover_item disk directory root name) ++ rest)
  end.

Section Lowercase.
(** [str::to_lowercase], the tables of Unicode. *)
Variable to_lowercase : string -> string.

Definition entry_after (a b : DiscoveredEntry) : bool :=
  match Z.compare (sort_key (de_kind a)) (sort_key (de_kind b)) with
  | Gt => true
  | Lt => false
  | Eq =>
      match String.compare (to_lowercase (de_label a)) (to_lowercase (de_label b)) with
      | Gt => true
      | Lt => false
      | Eq => match String.compare (de_label a) (de_label b) with Gt => true | _ => false end
      end
  end.
(** [sort_by] is stable, and so is insertion from the right. *)
Fixpoint insert_entry (e : DiscoveredEntry) (l : list DiscoveredEntry) : list DiscoveredEntry :=
  match l with
  | [] => [e]
  | e' :: l' => if entry_after e e' then e' :: insert_entry e l' else e :: l
  end.
Definition sort_entries (l : list DiscoveredEntry) : list DiscoveredEntry := foldr insert_entry [] l.

Definition discover_entries (disk : Disk) (directory : Path) (root : AllowedRoot)
  : result (list DiscoveredEntry) AttachmentRuntimeError :=
  match fs_read_dir disk directory with
  | Err e => Err (ReadFailed e)
  | Ok items => let? discovered := discover_all disk directory root items in Ok (sort_entries discovered)
  end.

(** [resolve_directory] keeps the lock while it looks at the file system. *)
Definition resolve_directory (disk : Disk) (now : Z) (owner : AttachmentOwner) (workspace_root : Path) (requested_root : string)
    (directory_id : option string) (s : AttachmentRuntimeState)
  : result (Path * string * AllowedRoot) AttachmentRuntimeError * AttachmentRuntimeState :=
  match directory_id with
  | Some id =>
      let s := prune_expired now s in
      (let? entry := ok_or (entries s !! id) UnknownEntry in
       if negb (belongs_to (fe_owner entry) owner)
       then Err (if belongs_to_task (fe_owner entry) owner then UnknownEntry else WrongTask)
       else if negb (bool_decide (fe_root_id entry = requested_root)) then Err WrongTask
       else if negb (bool_decide (fe_kind entry = EntryDirectory)) then Err NotDirectory
       else
         let? current := allowed_root_new disk workspace_root in
         if negb (bool_decide (fe_allowed_root entry = current)) then Err InvalidRoot
         else Ok (fe_path entry, fe_label entry, fe_allowed_root entry), s)
  | None =>
      (let? current := allowed_root_new disk workspace_root in
       Ok (workspace_root, safe_path_label workspace_root, current), s)
  end.

Record FileBrowserEntry := mkBrowserEntry {
  be_entry_id : string; be_label : string; be_kind : FileBrowserEntryKind; be_size_bytes : option Z; be_selectable : bool }.
Record FileBrowserDirectory := mkBrowserDirectory { bd_label : string; bd_root_id : string; bd_directory_id : option string }.
Record AttachmentListDirectoryResult := mkListing { ld_directory : FileBrowserDirectory; ld_entries : list FileBrowserEntry }.

Fixpoint register_entries (later : Z) (owner : AttachmentOwner) (requested_root : string) (root : AllowedRoot)
    (discovered : list DiscoveredEntry) (s : AttachmentRuntimeState) : list FileBrowserEntry * AttachmentRuntimeState :=
  match discovered with
  | [] => ([], s)
  | d :: discovered =>
      let n := u64_add (next_entry_id s) 1 in
      let s := mkState (next_id s) (next_candidate_id s) n (handles s) (candidates s)
                 (<[entry_id_of n := mkEntry owner requested_root (de_label d) (de_path d) root (de_kind d) (expires_at later)]> (entries s))
                 (reserved_handles s) in
      let '(rest, s) := register_entries later owner requested_root root discovered s in
      (mkBrowserEntry (entry_id_of n) (de_label d) (de_kind d) (de_size_bytes d) (bool_decide (de_kind d = EntryFile)) :: rest, s)
  end.
Definition register_listing (now later : Z) (owner : AttachmentOwner) (requested_root : string) (directory_id : option string)
    (directory_label : string) (root : AllowedRoot) (discovered : list DiscoveredEntry) (s : AttachmentRuntimeState)
  : AttachmentListDirectoryResult * AttachmentRuntimeState :=
  let '(listed, s) := register_entries later owner requested_root root discovered (prune_expired now s) in
  (mkListing (mkBrowserDirectory directory_label requested_root directory_id) listed, s).

Definition list_directory (mo : Moments) (owner : AttachmentOwner) (workspace_root : Path) (requested_root : string)
    (directory_id : option string) (s : AttachmentRuntimeState)
  : result AttachmentListDirectoryResult AttachmentRuntimeError * AttachmentRuntimeState :=
  if negb (bool_decide (requested_root = root_id)) then (Err InvalidRoot, s)
  else
    let '(directory, s) := resolve_directory (mo_disk mo) (mo_first mo) owner workspace_root requested_root directory_id s in
    match (let? d := directory in
           check? validate_directory (mo_disk mo) d.2 d.1.1 in
           let? discovered := discover_entries (mo_disk mo) d.1.1 d.2 in Ok (d, discovered)) with
    | Err e => (Err e, s)
    | Ok (d, discovered) =>
        let '(listing, s) := register_listing (mo_second mo) (mo_later mo) owner requested_root directory_id d.1.2 d.2 discovered s in
        (Ok listing, s)
    end.

End Lowercase.

Definition create_file_reference (mo : Moments) (owner : AttachmentOwner) (entry_id : string) (s : AttachmentRuntimeState)
  : result PreSendAttachment AttachmentRuntimeError * AttachmentRuntimeState :=
  let '(found, s) := lookup_entry (mo_first mo) entry_id s in
  match (let? entry := found in check? check_entry (mo_disk mo) owner entry in Ok entry) with
  | Err e => (Err e, s)
  | Ok entry =>
      let '(r, s) := register_file_reference (mo_second mo) (mo_later mo) owner (fe_label entry) (fe_path entry)
                       (fe_allowed_root entry) s in
      (Ok (pre_send r), s)
  end.

(** ** Back to the Composer *)

(** A pair of the loop of [restore_queued_for_composer]: an image, or a handle. *)
Definition restore_image (agent : Attachment) : result ComposerImage AttachmentRuntimeError :=
  let? payload := ok_or (att_payload agent) InvalidImage in
  let? data := ok_or (json_get "data" payload ≫= as_str) InvalidImage in
  let? mime_type := ok_or (json_get "mimeType" payload ≫= as_str) InvalidImage in
  Ok (mkComposerImage (att_label agent) mime_type data).

Definition restore_file (disk : Disk) (agent : Attachment) : result (Path * AllowedRoot) AttachmentRuntimeError :=
  let? path := ok_or (bytes_of <$> att_path agent) (ReadFailed "Queued file reference has no path") in
  let? dir := ok_or (parent path) InvalidRoot in
  let? root := allowed_root_new disk dir in
  check? validate_file disk root path in Ok (path, root).

Fixpoint restore_loop (disk : Disk) (now later : Z) (owner : AttachmentOwner) (pairs : list (Attachment * Attachment))
    (restored : list PreSendAttachment) (images : list ComposerImage) (s : AttachmentRuntimeState)
  : list PreSendAttachment * result (list ComposerImage) AttachmentRuntimeError * AttachmentRuntimeState :=
  match pairs with
  | [] => (restored, Ok images, s)
  | (chat, agent) :: pairs =>
      if bool_decide (att_kind agent = "image"%string) then
        match restore_image agent with
        | Err e => (restored, Err e, s)
        | Ok image => restore_loop disk now later owner pairs restored (images ++ [image]) s
        end
      else if bool_decide (att_kind agent = "file_reference"%string) then
        match restore_file disk agent with
        | Err e => (restored, Err e, s)
        | Ok (path, root) =>
            let '(r, s) := register_file_reference now later owner (att_label agent) path root s in
            restore_loop disk now later owner pairs (restored ++ [pre_send r]) images s
        end
      else
        let '(r, s) := register_queued_snapshot now later owner chat agent s in
        restore_loop disk now later owner pairs (restored ++ [pre_send r]) images s
  end.

Definition restore_queued_for_composer (disk : Disk) (now later : Z) (owner : AttachmentOwner) (chat agent : list Attachment)
    (s : AttachmentRuntimeState)
  : result (list PreSendAttachment * list ComposerImage) AttachmentRuntimeError * AttachmentRuntimeState :=
  if negb (bool_decide (length chat = length agent)) then (Err (ReadFailed "Queued attachment projections do not match"), s)
  else
    match restore_loop disk now later owner (zip chat agent) [] [] s with
    | (restored, Err e, s) =>
        (Err e, (release_resources now owner (ResourceHandle ∘ pa_handle_id <$> restored) s).2)
    | (restored, Ok images, s) => (Ok (restored, images), s)
    end.

(** ** Locked regions and their interleavings *)

(** What runs under one lock of the mutex. *)
Inductive Region :=
| RPrune (now : Z)
| RKeepAlive (client : string) (now : Z)
| RDiscardClient (client : string)
| RDiscardTask (task_id : string)
| RRegister (now later : Z) (owner : AttachmentOwner) (label : string) (target : AttachmentTarget)
| RCandidate (now later : Z) (owner : AttachmentOwner) (label : string) (path : Path) (root : AllowedRoot) (size_bytes : option Z)
| RListing (now later : Z) (owner : AttachmentOwner) (requested_root : string) (root : AllowedRoot) (discovered : list DiscoveredEntry)
| RRefresh (now later : Z) (owner : AttachmentOwner) (ids : list string)
| RRelease (now : Z) (owner : AttachmentOwner) (resources : list AttachmentResourceId)
| RReserve (disk : Disk) (now later : Z) (owner : AttachmentOwner) (ids : list string)
| RConfirm (now later : Z) (owner : AttachmentOwner) (id : string)
| RCommit (r : AttachmentSendReservation)
| RDrop (r : AttachmentSendReservation).

(** The runtime with the reservations that senders hold, the handles that sends
    consumed and the candidates that were confirmed so far. *)
Record World := mkWorld {
  w_state : AttachmentRuntimeState; w_live : list AttachmentSendReservation; w_sent : list string; w_confirmed : list string }.

Definition world_new : World := mkWorld runtime_new [] [] [].
Definition with_state (s : AttachmentRuntimeState) (w : World) : World := mkWorld s (w_live w) (w_sent w) (w_confirmed w).

(** Removes one occurrence. *)
Fixpoint take_out (r : AttachmentSendReservation) (live : list AttachmentSendReservation) : list AttachmentSendReservation :=
  match live with
  | [] => []
  | r' :: live => if bool_decide (rv_handle_ids r' = rv_handle_ids r) then live else r' :: take_out r live
  end.

Definition enter (g : Region) (w : World) : World :=
  let s := w_state w in
  match g with
  | RPrune now => with_state (prune_expired now s) w
  | RKeepAlive client now => with_state (keep_alive_for_client client now s) w
  | RDiscardClient client => with_state (discard_resources_for_client client s) w
  | RDiscardTask task_id => with_state (discard_resources_for_task task_id s) w
  | RRegister now later owner label target => with_state (insert_handle later owner label target (prune_expired now s)).2 w
  | RCandidate now later owner label path root size =>
      with_state (register_embedded_candidate now later owner label path root size s).2 w
  | RListing now later owner requested_root root discovered =>
      with_state (register_entries later owner requested_root root discovered (prune_expired now s)).2 w
  | RRefresh now later owner ids => with_state (refresh_handles now later owner ids s).2 w
  | RRelease now owner resources => with_state (release_resources now owner resources s).2 w
  | RReserve disk now later owner ids =>
      match reserve_for_send disk now later owner ids s with
      | (Ok r, s) => mkWorld s (r :: w_live w) (w_sent w) (w_confirmed w)
      | (Err _, s) => with_state s w
      end
  | RConfirm now later owner id =>
      match confirm_publish now later owner id s with
      | (Ok _, s) => mkWorld s (w_live w) (w_sent w) (id :: w_confirmed w)
      | (Err _, s) => with_state s w
      end
  | RCommit r => mkWorld (commit_with r s) (take_out r (w_live w)) (rv_handle_ids r ++ w_sent w) (w_confirmed w)
  | RDrop r => mkWorld (drop_reservation r s) (take_out r (w_live w)) (w_sent w) (w_confirmed w)
  end.

(** A path that lexical normalization leaves as it is: the one that is checked is
    the one that is opened. *)
Definition plain_path (path : Path) : Prop := exists names, Forall normal names /\ path = path_bytes (mkPath true names).
Definition target_plain (t : AttachmentTarget) : Prop :=
  match t with FileReference path _ | EmbeddedSnapshot path _ => plain_path path | _ => True end.

(** What the code has established when it enters a region: paths come from
    canonical files and listings, a reservation is held, no counter overflows. *)
Definition may_enter (g : Region) (w : World) : Prop :=
  match g with
  | RRegister _ _ _ _ target => next_id (w_state w) < u64_max /\ target_plain target
  | RCandidate _ _ _ _ path _ _ => next_candidate_id (w_state w) < u64_max /\ plain_path path
  | RListing _ _ _ _ _ discovered => Forall (fun d => plain_path (de_path d)) discovered
  | RConfirm _ _ _ _ => next_id (w_state w) < u64_max
  | RCommit r | RDrop r => r ∈ w_live w
  | _ => True
  end.

Inductive run : World -> Prop :=
| run_new : run world_new
| run_enter w g : run w -> may_enter g w -> run (enter g w).

(** ** Regions that only take away *)

(** Ids and targets are kept; a handle that is reserved and still there stays
    reserved. *)
Record keeps (s s' : AttachmentRuntimeState) : Prop := {
  kp_next : next_id s' = next_id s;
  kp_candidate : next_candidate_id s' = next_candidate_id s;
  kp_handles id h' : handles s' !! id = Some h' ->
    exists h, handles s !! id = Some h /\ ph_owner h' = ph_owner h /\ ph_label h' = ph_label h /\ ph_target h' = ph_target h;
  kp_candidates id c' : candidates s' !! id = Some c' ->
    exists c, candidates s !! id = Some c /\ ch_path c' = ch_path c /\ ch_allowed_root c' = ch_allowed_root c;
  kp_entries id e' : entries s' !! id = Some e' -> exists e, entries s !! id = Some e /\ fe_path e' = fe_path e;
  kp_reserved : reserved_handles s' ⊆ reserved_handles s;
  kp_still id : id ∈ reserved_handles s -> is_Some (handles s' !! id) -> id ∈ reserved_handles s';
  kp_registered : (forall id, id ∈ reserved_handles s -> is_Some (handles s !! id)) ->
    forall id, id ∈ reserved_handles s' -> is_Some (handles s' !! id);
}.

Lemma keeps_refl s : keeps s s.
Proof. constructor; naive_solver. Qed.

Lemma keeps_trans s1 s2 s3 : keeps s1 s2 -> keeps s2 s3 -> keeps s1 s3.
Proof.
  intros [N1 C1 H1 D1 E1 R1 S1 G1] [N2 C2 H2 D2 E2 R2 S2 G2]. constructor.
  - congruence.
  - congruence.
  - intros id h3 (h2 & Hh2 & ? & ? & ?)%H2. apply H1 in Hh2 as (h1 & ? & ? & ? & ?). exists h1. repeat split; congruence.
  - intros id c3 (c2 & Hc2 & ? & ?)%D2. apply D1 in Hc2 as (c1 & ? & ? & ?). exists c1. repeat split; congruence.
  - intros id e3 (e2 & He2 & ?)%E2. apply E1 in He2 as (e1 & ? & ?). exists e1. split; congruence.
  - set_solver.
  - intros id Hr Hs. apply S2; [|done]. apply S1; [done|]. destruct Hs as [h3 (h2 & ? & _)%H2]. by exists h2.
  - auto.
Qed.

Lemma retain_keeps kh kc ke s : keeps s (retain kh kc ke s).
Proof.
  constructor; cbn; try done.
  - intros id h' [H _]%map_lookup_filter_Some. by exists h'.
  - intros id c' [H _]%map_lookup_filter_Some. by exists c'.
  - intros id e' [H _]%map_lookup_filter_Some. by exists e'.
  - intros id [_ H]%elem_of_filter. done.
  - intros id Hr Hs. by apply elem_of_filter.
  - intros _ id [H _]%elem_of_filter. done.
Qed.

Lemma prune_keeps now s : keeps s (prune_expired now s).
Proof. apply retain_keeps. Qed.

Lemma keep_alive_keeps client now s : keeps s (keep_alive_for_client client now s).
Proof.
  eapply keeps_trans; [|apply prune_keeps]. constructor; cbn; try done.
  - intros id h'. rewrite lookup_fmap. intros (h & -> & H)%fmap_Some. exists h.
    by subst; destruct (belongs_to_client _ _).
  - intros id c'. rewrite lookup_fmap. intros (c & -> & H)%fmap_Some. exists c.
    by subst; destruct (belongs_to_client _ _).
  - intros id e'. rewrite lookup_fmap. intros (e & -> & H)%fmap_Some. exists e.
    by subst; destruct (belongs_to_client _ _).
  - intros H id Hr. rewrite lookup_fmap, fmap_is_Some. auto.
Qed.

Lemma extend_lookup at_ ids m id :
  extend at_ ids m !! id = (fun h => if bool_decide (id ∈ ids) then keep_handle at_ h else h) <$> m !! id.
Proof.
  revert m. unfold extend. induction ids as [|i ids IH]; intros m; cbn.
  - rewrite (bool_decide_eq_false_2 (id ∈ [])) by apply not_elem_of_nil. by destruct (m !! id).
  - rewrite IH. destruct (decide (i = id)) as [->|Hne].
    + rewrite lookup_alter_eq, (bool_decide_eq_true_2 (id ∈ id :: ids)) by constructor.
      destruct (m !! id); cbn; [|done]. by destruct (bool_decide _).
    + rewrite lookup_alter_ne by done. do 2 f_equal.
      destruct (bool_decide_reflect (id ∈ ids)) as [Hi|Hi].
      * by rewrite bool_decide_eq_true_2 by (by constructor).
      * rewrite bool_decide_eq_false_2; [done|]. rewrite elem_of_cons. naive_solver.
Qed.

Lemma extend_keeps at_ ids s : keeps s (set_handles (extend at_ ids (handles s)) s).
Proof.
  constructor; cbn; try done; try naive_solver.
  - intros id h'. rewrite extend_lookup. intros (h & -> & H)%fmap_Some. exists h. by subst; destruct (bool_decide _).
  - intros H id Hr. rewrite extend_lookup, fmap_is_Some. auto.
Qed.

Lemma refresh_keeps now later owner ids s : keeps s (refresh_handles now later owner ids s).2.
Proof.
  unfold refresh_handles. eapply keeps_trans; [apply (prune_keeps now)|].
  destruct (refresh_loop _ _ _ _); cbn; [apply extend_keeps|apply keeps_refl].
Qed.

Lemma release_one_keeps owner resource s : keeps s (release_one owner resource s).2.
Proof.
  destruct resource as [id|id]; cbn; (case_match eqn:El; [|apply keeps_refl]);
    (case_match eqn:Eb; [apply keeps_refl|]); cbn; [case_bool_decide as Hr; cbn; [apply keeps_refl|]|].
  - constructor; cbn; try done; try naive_solver.
    + intros id' h' [_ H]%lookup_delete_Some. by exists h'.
    + intros H id' Hin. rewrite lookup_delete_ne by congruence. auto.
  - constructor; cbn; try done; try naive_solver.
    intros id' c' [_ H]%lookup_delete_Some. by exists c'.
Qed.

Lemma release_all_keeps owner resources s : keeps s (release_all owner resources s).2.
Proof.
  revert s. induction resources as [|r resources IH]; intros s; cbn; [apply keeps_refl|].
  pose proof (release_one_keeps owner r s) as H. destruct (release_one owner r s) as [status s1].
  specialize (IH s1). destruct (release_all owner resources s1) as [outcomes s2]. cbn in *.
  by eapply keeps_trans.
Qed.

Lemma release_keeps now owner resources s : keeps s (release_resources now owner resources s).2.
Proof. eapply keeps_trans; [apply (prune_keeps now)|apply release_all_keeps]. Qed.

(** ** The invariant of every interleaving *)

Definition issued (name : Z -> string) (next : Z) (id : string) : Prop := exists n, 1 <= n <= next /\ id = name n.

Lemma issued_mono name next next' id : issued name next id -> next <= next' -> issued name next' id.
Proof. intros (n & ? & ->) ?. exists n. split; [lia|done]. Qed.

Lemma pretty_Z_inj n m : 0 <= n -> 0 <= m -> pretty (Z.to_N n) = pretty (Z.to_N m) -> n = m.
Proof. intros Hn Hm H. apply (inj pretty) in H. lia. Qed.
Lemma handle_id_fresh next : 0 <= next -> ~ issued handle_id_of next (handle_id_of (next + 1)).
Proof.
  intros Hn (n & Hb & H). unfold handle_id_of in H. apply (inj (String.append _)) in H. apply pretty_Z_inj in H; lia.
Qed.
Lemma candidate_id_fresh next : 0 <= next -> ~ issued candidate_id_of next (candidate_id_of (next + 1)).
Proof.
  intros Hn (n & Hb & H). unfold candidate_id_of in H. apply (inj (String.append _)) in H. apply pretty_Z_inj in H; lia.
Qed.

Definition live_ids (w : World) : list string := concat (rv_handle_ids <$> w_live w).

Record world_ok (w : World) : Prop := {
  wo_next : 0 <= next_id (w_state w) <= u64_max;
  wo_next_candidate : 0 <= next_candidate_id (w_state w) <= u64_max;
  wo_handle_ids id : is_Some (handles (w_state w) !! id) -> issued handle_id_of (next_id (w_state w)) id;
  wo_candidate_ids id : is_Some (candidates (w_state w) !! id) -> issued candidate_id_of (next_candidate_id (w_state w)) id;
  wo_distinct : NoDup (live_ids w ++ w_sent w);
  wo_issued id : id ∈ live_ids w ++ w_sent w -> issued handle_id_of (next_id (w_state w)) id;
  wo_reserved id : id ∈ reserved_handles (w_state w) <-> id ∈ live_ids w /\ is_Some (handles (w_state w) !! id);
  wo_sent id : id ∈ w_sent w -> handles (w_state w) !! id = None;
  wo_confirmed : NoDup (w_confirmed w);
  wo_confirmed_ids id : id ∈ w_confirmed w ->
    issued candidate_id_of (next_candidate_id (w_state w)) id /\ candidates (w_state w) !! id = None;
  wo_handle_paths id h : handles (w_state w) !! id = Some h -> target_plain (ph_target h);
  wo_candidate_paths id c : candidates (w_state w) !! id = Some c -> plain_path (ch_path c);
  wo_entry_paths id e : entries (w_state w) !! id = Some e -> plain_path (fe_path e);
}.

Lemma world_new_ok : world_ok world_new.
Proof.
  constructor; cbn; unfold u64_max, u64_modulus; try lia.
  1, 2: by intros id; rewrite lookup_empty; intros [? ?].
  1, 5: by constructor.
  1, 3, 4: by intros id ?%not_elem_of_nil.
  1: intros id; split; [by intros ?%not_elem_of_empty|by intros [?%not_elem_of_nil _]].
  all: intros id x; by rewrite lookup_empty.
Qed.

Lemma keeps_none s s' id : keeps s s' -> handles s !! id = None -> handles s' !! id = None.
Proof. intros K Hn. destruct (handles s' !! id) as [h'|] eqn:E; [|done]. apply (kp_handles _ _ K) in E as (h & ? & _). congruence. Qed.
Lemma keeps_no_candidate s s' id : keeps s s' -> candidates s !! id = None -> candidates s' !! id = None.
Proof. intros K Hn. destruct (candidates s' !! id) as [c'|] eqn:E; [|done]. apply (kp_candidates _ _ K) in E as (c & ? & _). congruence. Qed.

Lemma keeps_ok w s' : world_ok w -> keeps (w_state w) s' -> world_ok (with_state s' w).
Proof.
  intros W K. constructor; cbn; rewrite ?(kp_next _ _ K), ?(kp_candidate _ _ K); try apply W.
  - intros id [h' (h & Hh & _)%(kp_handles _ _ K)]. apply W. by exists h.
  - intros id [c' (c & Hc & _)%(kp_candidates _ _ K)]. apply W. by exists c.
  - intros id. split.
    + intros Hr. pose proof (kp_reserved _ _ K _ Hr) as Hr0. split; [by apply W|].
      apply (kp_registered _ _ K); [|done]. intros id0. by intros [_ ?]%(wo_reserved _ W).
    + intros [Hl [h' Hh']]. apply (kp_still _ _ K); [|by exists h']. apply W. split; [done|].
      apply (kp_handles _ _ K) in Hh' as (h & ? & _). by exists h.
  - intros id Hs. by eapply keeps_none, W.
  - intros id [Hi Hn]%(wo_confirmed_ids _ W). split; [done|by eapply keeps_no_candidate].
  - intros id h' (h & Hh & _ & _ & ->)%(kp_handles _ _ K). by eapply W.
  - intros id c' (c & Hc & -> & _)%(kp_candidates _ _ K). by eapply W.
  - intros id e' (e & He & ->)%(kp_entries _ _ K). by eapply W.
Qed.

(** A new handle has an id that nothing used. *)
Lemma insert_handle_ok later owner label target w :
  world_ok w -> next_id (w_state w) < u64_max -> target_plain target ->
  world_ok (with_state (insert_handle later owner label target (w_state w)).2 w).
Proof.
  intros W Hroom Ht. pose proof (wo_next _ W) as Hn.
  assert (u64_add (next_id (w_state w)) 1 = next_id (w_state w) + 1) as En.
  { apply u64_add_small. unfold is_u64. unfold u64_max in *. lia. }
  pose proof (handle_id_fresh _ (proj1 Hn)) as Hf. set (new := handle_id_of (next_id (w_state w) + 1)) in *.
  assert (forall id, id ∈ live_ids w ++ w_sent w -> new <> id) as Hnew.
  { intros id Hid ->. by apply Hf, (wo_issued _ W). }
  constructor; cbn; rewrite ?En; try apply W.
  - lia.
  - intros id [h' [[<- _]|[_ Hh]]%lookup_insert_Some].
    + exists (next_id (w_state w) + 1). split; [lia|done].
    + eapply issued_mono; [apply (wo_handle_ids _ W); by exists h'|lia].
  - intros id Hid. eapply issued_mono; [by apply (wo_issued _ W)|lia].
  - intros id. rewrite (wo_reserved _ W). split; intros [Hl Hh]; (split; [done|]).
    + destruct (decide (new = id)) as [<-|?]; [by rewrite lookup_insert_eq|by rewrite lookup_insert_ne].
    + rewrite lookup_insert_ne in Hh; [done|]. apply Hnew. by apply elem_of_app; left.
  - intros id Hs. rewrite lookup_insert_ne; [by apply W|]. apply Hnew. by apply elem_of_app; right.
  - intros id h [[_ <-]|[_ Hh]]%lookup_insert_Some; [done|by eapply W].
Qed.

Lemma insert_candidate_ok later owner label path root size now w :
  world_ok w -> next_candidate_id (w_state w) < u64_max -> plain_path path ->
  world_ok (with_state (register_embedded_candidate now later owner label path root size (w_state w)).2 w).
Proof.
  intros W0 Hroom Hp. pose proof (keeps_ok _ _ W0 (prune_keeps now (w_state w))) as W. unfold register_embedded_candidate.
  change (next_candidate_id (w_state w)) with (next_candidate_id (prune_expired now (w_state w))) in Hroom.
  generalize dependent (prune_expired now (w_state w)). intros s Hroom W. pose proof (wo_next_candidate _ W) as Hn. cbn in Hn.
  assert (u64_add (next_candidate_id s) 1 = next_candidate_id s + 1) as En.
  { apply u64_add_small. unfold is_u64. unfold u64_max in *. lia. }
  pose proof (candidate_id_fresh _ (proj1 Hn)) as Hf. cbn. rewrite En.
  set (new := candidate_id_of (next_candidate_id s + 1)) in *.
  constructor; cbn; try apply W.
  - lia.
  - intros id [c' [[<- _]|[_ Hc]]%lookup_insert_Some].
    + exists (next_candidate_id s + 1). split; [lia|done].
    + eapply issued_mono; [apply (wo_candidate_ids _ W); by exists c'|cbn; lia].
  - intros id [Hi Hc]%(wo_confirmed_ids _ W). cbn in *. split; [eapply issued_mono; [done|lia]|].
    rewrite lookup_insert_ne; [done|]. by intros ->.
  - intros id c [[_ <-]|[_ Hc]]%lookup_insert_Some; [done|by eapply W].
Qed.

Lemma register_entries_ok later owner requested_root root discovered w :
  world_ok w -> Forall (fun d => plain_path (de_path d)) discovered ->
  world_ok (with_state (register_entries later owner requested_root root discovered (w_state w)).2 w).
Proof.
  intros W Hd. destruct w as [s live sent confirmed]. unfold with_state. cbn [w_state w_live w_sent w_confirmed].
  revert s W. induction Hd as [|d discovered Hp Hd IH]; intros s W; cbn [register_entries]; [done|].
  match goal with |- context [register_entries _ _ _ _ _ ?s1] => specialize (IH s1) end.
  destruct (register_entries _ _ _ _ _ _) as [rest s2]. apply IH. constructor; cbn; try apply W.
  intros id e [[_ <-]|[_ He]]%lookup_insert_Some; [done|by eapply (wo_entry_paths _ W)].
Qed.

Lemma check_handle_ok owner seen id s h : check_handle owner seen id s = Ok h ->
  (id ∉ seen) /\ handles s !! id = Some h /\ (id ∉ reserved_handles s) /\ ph_owner h = owner.
Proof.
  unfold check_handle, belongs_to. case_bool_decide as Hs; [done|]. intros H. apply result_bind_ok in H as (h' & Hh & H).
  destruct (handles s !! id) as [h''|]; cbn in Hh; [|done]. injection Hh as <-.
  case_bool_decide as Hr; [done|]. case_bool_decide as Ho; cbn in H; [|done]. by injection H as <-.
Qed.

(** The answer of the loop of [reserve_for_send], element by element. *)
Lemma resolve_loop_ok disk owner ids seen s r : resolve_loop disk owner ids seen s = Ok r ->
  NoDup ids /\ (forall id, id ∈ ids -> (id ∉ seen)) /\
  exists hs, Forall2 (fun id h => handles s !! id = Some h /\ (id ∉ reserved_handles s) /\ ph_owner h = owner) ids hs /\
    chat_attachments r = handle_chat_attachment <$> hs /\
    Forall2 (fun h a => handle_agent_attachment disk h = Ok a) hs (agent_attachments r).
Proof.
  revert seen r. induction ids as [|id ids IH]; intros seen r; cbn.
  - intros [= <-]. repeat split; [constructor|by intros id ?%not_elem_of_nil|]. by exists [].
  - intros H. apply result_bind_ok in H as (h & Hh & H). apply result_bind_ok in H as (a & Ha & H).
    apply result_bind_ok in H as (rest & Hrest & H). injection H as <-.
    apply check_handle_ok in Hh as (Hs & Hl & Hr & Ho). apply IH in Hrest as (Hnd & Hsep & hs & H2 & Hc & Ha2).
    repeat split.
    + constructor; [|done]. intros Hin. by apply (Hsep _ Hin), elem_of_cons; left.
    + intros id' [->|Hin]%elem_of_cons; [done|]. intros Hs'. apply (Hsep _ Hin). by apply elem_of_cons; right.
    + exists (h :: hs). cbn. rewrite Hc. repeat split; by constructor.
Qed.

Lemma reserve_cases disk now later owner ids s :
  let p := prune_expired now s in
  (exists e, reserve_for_send disk now later owner ids s = (Err e, p)) \/
  (exists r, resolve_loop disk owner ids [] p = Ok r /\
     reserve_for_send disk now later owner ids s =
       (Ok (mkReservation ids r),
        set_reserved (reserved_handles p ∪ list_to_set ids) (set_handles (extend (expires_at later) ids (handles p)) p))).
Proof.
  cbn. unfold reserve_for_send. destruct (resolve_loop _ _ _ _ _) as [r|e]; [right|left]; eauto.
Qed.

Lemma Forall2_lookup_elem {A B} (P : A -> B -> Prop) l k x : Forall2 P l k -> x ∈ l -> exists y, y ∈ k /\ P x y.
Proof.
  induction 1 as [|a b l k Hab _ IH]; [by intros ?%not_elem_of_nil|].
  intros [->|Hin]%elem_of_cons; [exists b; split; [constructor|done]|].
  destruct (IH Hin) as (y & ? & ?). exists y. split; [by constructor|done].
Qed.

Lemma reserve_ok disk now later owner ids w : world_ok w -> world_ok (enter (RReserve disk now later owner ids) w).
Proof.
  intros W0. pose proof (keeps_ok _ _ W0 (prune_keeps now (w_state w))) as W. cbn.
  destruct (reserve_cases disk now later owner ids (w_state w)) as [[e ->]|(r & Hr & ->)]; [done|].
  generalize dependent (prune_expired now (w_state w)). intros s W Hr.
  apply resolve_loop_ok in Hr as (Hnd & _ & hs & H2 & _ & _).
  assert (forall id, id ∈ ids -> is_Some (handles s !! id) /\ (id ∉ live_ids w) /\ (id ∉ w_sent w)) as Hids.
  { intros id Hin. destruct (Forall2_lookup_elem _ _ _ _ H2 Hin) as (h & _ & Hl & Hres & _). split; [by exists h|].
    split; [|intros Hs; apply (wo_sent _ W) in Hs; cbn in Hs; congruence].
    intros Hlive. apply Hres, (wo_reserved _ W). split; [done|by exists h]. }
  set (s' := set_handles (extend (expires_at later) ids (handles s)) s).
  pose proof (keeps_ok _ s' W (extend_keeps (expires_at later) ids s)) as W'. clear W.
  assert (forall id, is_Some (handles s !! id) -> is_Some (handles s' !! id)) as Hs'.
  { intros id Hs. cbn. by rewrite extend_lookup, fmap_is_Some. }
  constructor; cbn -[extend]; try apply W'.
  - unfold live_ids. cbn. rewrite <- app_assoc. apply NoDup_app. split; [done|]. split; [|apply W'].
    intros id Hin. apply Hids in Hin as (_ & ? & ?). rewrite elem_of_app. tauto.
  - intros id. unfold live_ids. cbn. rewrite <- app_assoc, elem_of_app. intros [Hin|Hin].
    + apply (wo_handle_ids _ W'), Hs'. by apply Hids.
    + by apply (wo_issued _ W').
  - intros id. unfold live_ids. cbn -[extend]. rewrite elem_of_app, elem_of_union, elem_of_list_to_set.
    pose proof (wo_reserved _ W' id) as Hw. cbn -[extend live_ids] in Hw. fold (live_ids w).
    change (id ∈ live_ids (with_state s' (with_state s w))) with (id ∈ live_ids w) in Hw. rewrite Hw. split; [|tauto].
    intros [[? ?]|Hin]; [tauto|]. split; [by left|]. apply Hs'. by apply Hids.
Qed.

Lemma take_out_ids r live : r ∈ live ->
  concat (rv_handle_ids <$> live) ≡ₚ rv_handle_ids r ++ concat (rv_handle_ids <$> take_out r live).
Proof.
  induction live as [|r' live IH]; [by intros ?%not_elem_of_nil|]. intros Hin. cbn.
  case_bool_decide as E; [by rewrite E|]. apply elem_of_cons in Hin as [->|Hin]; [done|]. cbn.
  rewrite IH by done. rewrite !app_assoc. f_equiv. apply Permutation_app_comm.
Qed.

Lemma commit_lookup ids s id :
  let s' := foldl (fun s id => set_reserved (reserved_handles s ∖ {[id]}) (set_handles (delete id (handles s)) s)) s ids in
  handles s' !! id = (if bool_decide (id ∈ ids) then None else handles s !! id) /\
  (id ∈ reserved_handles s' <-> id ∈ reserved_handles s /\ (id ∉ ids)) /\
  candidates s' = candidates s /\ entries s' = entries s /\ next_id s' = next_id s /\
  next_candidate_id s' = next_candidate_id s.
Proof.
  revert s. induction ids as [|i ids IH]; intros s; cbn.
  - split; [done|]. split; [|done]. pose proof (not_elem_of_nil id). tauto.
  - destruct (IH (set_reserved (reserved_handles s ∖ {[i]}) (set_handles (delete i (handles s)) s))) as (-> & -> & H).
    cbn. split; [|split; [|done]].
    + destruct (decide (i = id)) as [->|Hne].
      * rewrite (bool_decide_eq_true_2 (id ∈ id :: ids)) by constructor.
        rewrite lookup_delete_eq. by destruct (bool_decide _).
      * rewrite lookup_delete_ne by done. rewrite (bool_decide_ext (id ∈ i :: ids) (id ∈ ids)); [done|].
        rewrite elem_of_cons. naive_solver.
    + rewrite elem_of_difference, elem_of_singleton, not_elem_of_cons. tauto.
Qed.

Lemma drop_lookup ids s id :
  let s' := foldl (fun s id => set_reserved (reserved_handles s ∖ {[id]}) s) s ids in
  handles s' = handles s /\ (id ∈ reserved_handles s' <-> id ∈ reserved_handles s /\ (id ∉ ids)) /\
  candidates s' = candidates s /\ entries s' = entries s /\ next_id s' = next_id s /\
  next_candidate_id s' = next_candidate_id s.
Proof.
  revert s. induction ids as [|i ids IH]; intros s; cbn.
  - split; [done|]. split; [|done]. pose proof (not_elem_of_nil id). tauto.
  - destruct (IH (set_reserved (reserved_handles s ∖ {[i]}) s)) as (-> & -> & H). cbn. split; [done|split; [|done]].
    rewrite elem_of_difference, elem_of_singleton, not_elem_of_cons. tauto.
Qed.

Lemma reservation_commit_ok r w : world_ok w -> r ∈ w_live w -> world_ok (enter (RCommit r) w).
Proof.
  intros W Hin. pose proof (take_out_ids _ _ Hin) as Hp. fold (live_ids w) in Hp. cbn.
  pose proof (fun id => commit_lookup (rv_handle_ids r) (w_state w) id) as Hc. cbn in Hc. fold (commit_with r (w_state w)) in Hc.
  destruct (Hc ""%string) as (_ & _ & Ecand & Eent & En & Enc).
  assert (forall id h, handles (commit_with r (w_state w)) !! id = Some h ->
    handles (w_state w) !! id = Some h /\ (id ∉ rv_handle_ids r)) as Hh.
  { intros id h. destruct (Hc id) as (-> & _). by case_bool_decide. }
  set (rest := concat (rv_handle_ids <$> take_out r (w_live w))) in *.
  assert (live_ids w ++ w_sent w ≡ₚ rest ++ rv_handle_ids r ++ w_sent w) as Hperm.
  { rewrite Hp, <- app_assoc. rewrite !app_assoc. f_equiv. apply Permutation_app_comm. }
  pose proof (wo_distinct _ W) as Hnd. rewrite Hp, <- app_assoc in Hnd. apply NoDup_app in Hnd as (_ & Hsep & _).
  constructor; unfold live_ids; cbn; fold rest; rewrite ?En, ?Enc, ?Ecand, ?Eent; try apply W.
  - intros id [h [Hl _]%Hh]. apply (wo_handle_ids _ W). by exists h.
  - rewrite <- Hperm. apply W.
  - intros id. rewrite <- Hperm. apply W.
  - intros id. destruct (Hc id) as (Hl & -> & _). rewrite (wo_reserved _ W id), Hl, Hp, elem_of_app. split.
    + intros [[[?|?] Hs] Hn]; [done|]. split; [done|]. by rewrite bool_decide_eq_false_2.
    + intros [Hr Hs]. case_bool_decide as Hi; [by destruct Hs|]. tauto.
  - intros id. rewrite elem_of_app. destruct (Hc id) as (-> & _). intros [Hi|Hs]; [by rewrite bool_decide_eq_true_2|].
    rewrite (wo_sent _ W _ Hs). by destruct (bool_decide _).
  - intros id h [Hl _]%Hh. by eapply W.
Qed.

Lemma drop_ok r w : world_ok w -> r ∈ w_live w -> world_ok (enter (RDrop r) w).
Proof.
  intros W Hin. pose proof (take_out_ids _ _ Hin) as Hp. fold (live_ids w) in Hp. cbn.
  pose proof (fun id => drop_lookup (rv_handle_ids r) (w_state w) id) as Hc. cbn in Hc. fold (drop_reservation r (w_state w)) in Hc.
  destruct (Hc ""%string) as (Eh & _ & Ecand & Eent & En & Enc).
  set (rest := concat (rv_handle_ids <$> take_out r (w_live w))) in *.
  pose proof (wo_distinct _ W) as Hnd. rewrite Hp, <- app_assoc in Hnd. apply NoDup_app in Hnd as (_ & Hsep & Hnd).
  constructor; unfold live_ids; cbn; fold rest; rewrite ?En, ?Enc, ?Ecand, ?Eent, ?Eh; try apply W.
  - done.
  - intros id Hid. apply (wo_issued _ W). rewrite Hp, <- app_assoc. apply elem_of_app. by right.
  - intros id. destruct (Hc id) as (_ & -> & _). rewrite (wo_reserved _ W id), Hp, elem_of_app. split; [tauto|].
    intros [Hr Hs]. repeat split; [by right|done|]. intros Hi. apply (Hsep _ Hi). apply elem_of_app. by left.
Qed.

Lemma confirm_ok now later owner id w :
  world_ok w -> next_id (w_state w) < u64_max -> world_ok (enter (RConfirm now later owner id) w).
Proof.
  intros W0 Hroom. pose proof (keeps_ok _ _ W0 (prune_keeps now (w_state w))) as W. cbn. unfold confirm_publish.
  change (next_id (w_state w)) with (next_id (prune_expired now (w_state w))) in Hroom.
  generalize dependent (prune_expired now (w_state w)). intros s Hroom W.
  destruct (candidates s !! id) as [c|] eqn:Ec; [|done]. destruct (negb _); [done|].
  set (s1 := mkState (next_id s) (next_candidate_id s) (next_entry_id s) (handles s) (delete id (candidates s))
               (entries s) (reserved_handles s)).
  assert (world_ok (mkWorld s1 (w_live w) (w_sent w) (id :: w_confirmed w))) as W1.
  { constructor; cbn; try apply W.
    - intros id' [c' [_ Hc']%lookup_delete_Some]. apply (wo_candidate_ids _ W). by exists c'.
    - constructor; [|apply W]. intros Hin. apply (wo_confirmed_ids _ W) in Hin as [_ Hn]. cbn in Hn. congruence.
    - intros id' [->|Hin]%elem_of_cons.
      + split; [apply (wo_candidate_ids _ W); by exists c|apply lookup_delete_eq].
      + apply (wo_confirmed_ids _ W) in Hin as [Hi Hn]. split; [done|]. cbn in Hn. by apply lookup_delete_None; right.
    - intros id' c' [_ Hc']%lookup_delete_Some. by eapply W. }
  apply (insert_handle_ok later (ch_owner c) (ch_label c) (EmbeddedSnapshot (ch_path c) (ch_allowed_root c))) in W1; [done|done|].
  by apply (wo_candidate_paths _ W id).
Qed.

Lemma enter_ok g w : world_ok w -> may_enter g w -> world_ok (enter g w).
Proof.
  intros W. destruct g; cbn [may_enter]; intros Hm.
  - by apply keeps_ok, prune_keeps.
  - by apply keeps_ok, keep_alive_keeps.
  - by apply keeps_ok, retain_keeps.
  - by apply keeps_ok, retain_keeps.
  - destruct Hm as [Hroom Ht]. by apply (insert_handle_ok later owner label target _ (keeps_ok _ _ W (prune_keeps now _))).
  - destruct Hm as [Hroom Hp]. by apply insert_candidate_ok.
  - by apply (register_entries_ok _ _ _ _ _ _ (keeps_ok _ _ W (prune_keeps now _))).
  - by apply keeps_ok, refresh_keeps.
  - by apply keeps_ok, release_keeps.
  - by apply reserve_ok.
  - by apply confirm_ok.
  - by apply reservation_commit_ok.
  - by apply drop_ok.
Qed.

Lemma attachment_run_ok w : run w -> world_ok w.
Proof. induction 1; [apply world_new_ok|by apply enter_ok]. Qed.

(** C24. However the locked regions of clients and senders interleave, a handle is
    consumed by one send at most and a candidate confirmed at most once; a
    consumed handle is gone, and the handles of the sends in flight are distinct,
    not consumed yet and, unless they were discarded, reserved. *)
Theorem attachment_is_sent_once w : run w ->
  NoDup (w_sent w) /\ NoDup (w_confirmed w) /\
  (forall id, id ∈ w_sent w -> handles (w_state w) !! id = None) /\
  (forall id, id ∈ w_confirmed w -> candidates (w_state w) !! id = None) /\
  NoDup (live_ids w) /\ (forall id, id ∈ live_ids w -> (id ∉ w_sent w)) /\
  (forall id, id ∈ reserved_handles (w_state w) <-> id ∈ live_ids w /\ is_Some (handles (w_state w) !! id)).
Proof.
  intros W%attachment_run_ok. pose proof (wo_distinct _ W) as Hnd. apply NoDup_app in Hnd as (H1 & H2 & H3).
  split; [done|]. do 2 (split; [by apply W|]). split; [intros id Hid; by apply (wo_confirmed_ids _ W)|].
  do 2 (split; [done|]). apply W.
Qed.

(** ** Files under their root *)

Lemma lexical_is_normalize p c : lexical_component p c = normalize true p c.
Proof. destruct c; cbn; try done. destruct (pop p) as [[] ?]; done. Qed.

Lemma lexical_all_normalize cs p : foldl lexical_component p cs = foldl (normalize true) p cs.
Proof. revert p. induction cs as [|c cs IH]; intros p; cbn; [done|]. by rewrite lexical_is_normalize. Qed.

Lemma plain_lexical disk names : Forall normal names ->
  lexical_absolute disk (path_bytes (mkPath true names)) = Ok (mkPath true names).
Proof.
  intros Hn. set (p := mkPath true names).
  assert (normal_path (path_bytes p) = p) as Hp.
  { apply canonical_prints; [|by destruct names]. exists [], names. split; [done|]. split; [done|by left]. }
  unfold normal_path in Hp. unfold lexical_absolute, absolute, normalize_lexically.
  rewrite bool_decide_eq_false_2 by done. change (has_root (path_bytes p)) with true in *. cbn [fmap option_fmap option_map ok_or].
  f_equal. by rewrite lexical_all_normalize.
Qed.

(** What [classify] has checked of the path that is opened. *)
Lemma classify_ok disk root path kind : plain_path path -> classify disk root path = Ok kind ->
  exists names resolved, path = path_bytes (mkPath true names) /\
    path_starts_with (mkPath true names) (selected_root root) = true /\
    fs_canonicalize disk path = Ok resolved /\ path_starts_with resolved (resolved_root root) = true.
Proof.
  intros (names & Hn & ->) H. unfold classify in H. rewrite plain_lexical in H by done. cbn [result_bind] in H.
  destruct (path_starts_with _ (selected_root root)) eqn:Es; [|done]. cbn [negb] in H.
  apply result_bind_ok in H as (resolved & Hc & H). unfold canonicalize in Hc.
  destruct (fs_canonicalize disk _) as [p|] eqn:Ec; [|done]. injection Hc as <-.
  destruct (path_starts_with p (resolved_root root)) eqn:Er; [|done]. eauto 10.
Qed.

Lemma validate_file_ok disk root path size : validate_file disk root path = Ok size -> classify disk root path = Ok (KindFile size).
Proof. unfold validate_file. intros H. apply result_bind_ok in H as ([|size'] & -> & H); [done|]. by injection H as <-. Qed.

(** A file as the system resolves it lies under the root. *)
Definition confined (disk : Disk) (path : Path) (root : AllowedRoot) : Prop :=
  exists resolved, fs_canonicalize disk path = Ok resolved /\ path_starts_with resolved (resolved_root root) = true.

Lemma plain_file_confined disk root path size : plain_path path -> validate_file disk root path = Ok size -> confined disk path root.
Proof. intros Hp H%validate_file_ok. destruct (classify_ok _ _ _ _ Hp H) as (names & resolved & _ & _ & ? & ?). by exists resolved. Qed.

Lemma agent_attachment_confined disk h a : target_plain (ph_target h) -> handle_agent_attachment disk h = Ok a ->
  match ph_target h with FileReference path root | EmbeddedSnapshot path root => confined disk path root | _ => True end.
Proof.
  unfold handle_agent_attachment. destruct (ph_target h) as [path root|path root| |]; cbn [target_plain]; try done;
    intros Hp H; apply result_bind_ok in H as (size & Hv & _); by eapply plain_file_confined.
Qed.

(** C26. A send or a reveal that succeeds opened the files of handles that the
    client registered for the Task itself, and every such file, as the system
    resolves its path at that moment, lies under the folder it was chosen in. *)
Theorem opened_files_are_confined w disk now owner : run w ->
  (forall later ids r s', reserve_for_send disk now later owner ids (w_state w) = (Ok r, s') ->
   forall id, id ∈ ids -> exists h, handles (w_state w) !! id = Some h /\ ph_owner h = owner /\
     match ph_target h with FileReference path root | EmbeddedSnapshot path root => confined disk path root | _ => True end) /\
  forall id v s'', resolve_for_reveal disk now owner id (w_state w) = (Ok v, s'') ->
    exists h root, handles (w_state w) !! id = Some h /\ ph_owner h = owner /\
      ph_target h = FileReference (ra_path v) root /\ confined disk (ra_path v) root.
Proof.
  intros W%attachment_run_ok. split.
  - intros later ids r s' Hr id Hin. destruct (reserve_cases disk now later owner ids (w_state w)) as [[e E]|(rs & Hrs & _)]; [congruence|].
    apply resolve_loop_ok in Hrs as (_ & _ & hs & H2 & _ & Ha).
    destruct (Forall2_lookup_elem _ _ _ _ H2 Hin) as (h & Hh & Hl & _ & Ho).
    destruct (Forall2_lookup_elem _ _ _ _ Ha Hh) as (a & _ & Hv).
    apply (kp_handles _ _ (prune_keeps now _)) in Hl as (h0 & Hl & Eo & _ & Et).
    exists h0. split; [done|]. split; [congruence|]. rewrite <- Et.
    eapply agent_attachment_confined; [|done]. rewrite Et. by eapply (wo_handle_paths _ W).
  - intros id v s'' H%(f_equal fst). unfold resolve_for_reveal in H. cbn [fst] in H. apply result_bind_ok in H as (h & Hl & H).
    destruct (handles (prune_expired now (w_state w)) !! id) as [h'|] eqn:El; [|done]. injection Hl as ->.
    unfold belongs_to in H. case_bool_decide as Ho; [|done]. cbn in H.
    destruct (ph_target h) as [path root| | |] eqn:Et; try done.
    apply result_bind_ok in H as (size & Hv & H). injection H as <-. cbn.
    apply (kp_handles _ _ (prune_keeps now _)) in El as (h0 & Hl & Eo & _ & Et0).
    exists h0, root. repeat split; [done|congruence|congruence|].
    eapply plain_file_confined; [|done]. pose proof (wo_handle_paths _ W _ _ Hl) as Hp. by rewrite <- Et0, Et in Hp.
Qed.

(** ** A send that is dropped *)

Definition same_handle (h h' : PreSendAttachmentHandle) : Prop :=
  ph_owner h' = ph_owner h /\ ph_label h' = ph_label h /\ ph_target h' = ph_target h.
Definition has_handle (id : string) (h : PreSendAttachmentHandle) (s : AttachmentRuntimeState) : Prop :=
  exists h', handles s !! id = Some h' /\ same_handle h h'.

(** The regions of others while a send holds its reservation: any but the end of
    the reservation itself and the discard of its owner's client or Task. *)
Definition leaves (owner : AttachmentOwner) (r : AttachmentSendReservation) (g : Region) : Prop :=
  match g with
  | RDiscardClient client => ao_client_instance_id owner <> client
  | RDiscardTask task_id => ao_task_id owner <> task_id
  | RCommit r' | RDrop r' => rv_handle_ids r' <> rv_handle_ids r
  | _ => True
  end.

Lemma same_handle_trans h1 h2 h3 : same_handle h1 h2 -> same_handle h2 h3 -> same_handle h1 h3.
Proof. unfold same_handle. intuition congruence. Qed.

Lemma has_handle_trans id h s h1 s1 : handles s !! id = Some h1 -> same_handle h h1 -> has_handle id h1 s1 -> has_handle id h s1.
Proof. intros _ Hs (h2 & ? & ?). exists h2. split; [done|by eapply same_handle_trans]. Qed.

Lemma retain_has kh kc ke s id h : handles s !! id = Some h -> kh id h = true -> has_handle id h (retain kh kc ke s).
Proof. intros Hl Hk. exists h. split; [|done]. cbn. by apply map_lookup_filter_Some. Qed.

Lemma prune_reserved now s id h : id ∈ reserved_handles s -> handles s !! id = Some h ->
  handles (prune_expired now s) !! id = Some h /\ id ∈ reserved_handles (prune_expired now s).
Proof.
  intros Hr Hl. assert (handles (prune_expired now s) !! id = Some h) as Hp.
  { cbn. apply map_lookup_filter_Some. split; [done|]. cbn. rewrite (bool_decide_eq_true_2 (id ∈ _)) by done. apply orb_true_r. }
  split; [done|]. apply (kp_still _ _ (prune_keeps now s)); [done|by exists h].
Qed.

Lemma release_all_reserved owner resources s id h : id ∈ reserved_handles s -> handles s !! id = Some h ->
  handles (release_all owner resources s).2 !! id = Some h.
Proof.
  revert s. induction resources as [|x resources IH]; intros s Hr Hl; cbn; [done|].
  assert (handles (release_one owner x s).2 !! id = Some h) as H1.
  { destruct x as [i|i]; cbn; repeat case_match; try done. cbn. rewrite lookup_delete_ne; [done|].
    intros ->. match goal with E : bool_decide (id ∈ _) = false |- _ => by rewrite bool_decide_eq_true_2 in E end. }
  pose proof (kp_still _ _ (release_one_keeps owner x s) id Hr ltac:(by exists h)) as Hr1.
  destruct (release_one owner x s) as [status s1]. specialize (IH s1 Hr1 H1).
  by destruct (release_all owner resources s1).
Qed.

Lemma register_entries_handles later owner requested_root root discovered s :
  handles (register_entries later owner requested_root root discovered s).2 = handles s.
Proof.
  revert s. induction discovered as [|d discovered IH]; intros s; cbn; [done|].
  match goal with |- context [register_entries _ _ _ _ _ ?s1] => specialize (IH s1) end.
  by destruct (register_entries _ _ _ _ _ _).
Qed.

Lemma extend_has at_ ids s id h : handles s !! id = Some h -> has_handle id h (set_handles (extend at_ ids (handles s)) s).
Proof.
  intros Hl. eexists. split; [cbn; by rewrite extend_lookup, Hl|]. by destruct (bool_decide _).
Qed.

Lemma insert_has later owner label target w id h : world_ok w -> next_id (w_state w) < u64_max ->
  handles (w_state w) !! id = Some h -> has_handle id h (insert_handle later owner label target (w_state w)).2.
Proof.
  intros W Hroom Hl. pose proof (wo_next _ W) as Hn. exists h. split; [|done]. cbn.
  rewrite u64_add_small by (unfold is_u64; unfold u64_max in *; lia).
  rewrite lookup_insert_ne; [done|]. intros <-. eapply handle_id_fresh; [apply Hn|]. apply (wo_handle_ids _ W). by exists h.
Qed.

Lemma concat_once {A} (f : A -> list string) l x y id :
  NoDup (concat (f <$> l)) -> x ∈ l -> y ∈ l -> id ∈ f x -> id ∈ f y -> f x = f y.
Proof.
  assert (forall z l, z ∈ l -> id ∈ f z -> id ∈ concat (f <$> l)) as Hin.
  { clear. intros z l. induction 1 as [z l|z z' l _ IH]; cbn; rewrite elem_of_app; tauto. }
  induction l as [|a l IH]; [by intros _ ?%not_elem_of_nil|]. cbn. intros (_ & Hd & Hnd)%NoDup_app Hx Hy Ix Iy.
  apply elem_of_cons in Hx as [->|Hx], Hy as [->|Hy]; [done| | |by apply IH].
  - exfalso. eapply Hd; [exact Ix|]. by eapply Hin.
  - exfalso. eapply Hd; [exact Iy|]. by eapply Hin.
Qed.

Lemma confirm_has now later owner id0 w id h : world_ok w -> next_id (w_state w) < u64_max ->
  id ∈ reserved_handles (w_state w) -> handles (w_state w) !! id = Some h ->
  has_handle id h (confirm_publish now later owner id0 (w_state w)).2.
Proof.
  intros W0 Hroom Hr Hl. pose proof (prune_reserved now _ _ _ Hr Hl) as [Hp _].
  pose proof (keeps_ok _ _ W0 (prune_keeps now (w_state w))) as W. unfold confirm_publish.
  change (next_id (w_state w)) with (next_id (prune_expired now (w_state w))) in Hroom.
  generalize dependent (prune_expired now (w_state w)). intros s Hroom Hp W.
  destruct (candidates s !! id0) as [c|]; [|by exists h]. destruct (negb _); [by exists h|].
  exact (insert_has later (ch_owner c) (ch_label c) (EmbeddedSnapshot (ch_path c) (ch_allowed_root c)) _ _ _ W Hroom Hp).
Qed.

(** A handle that is reserved outlives any region that leaves it. *)
Lemma enter_has g w r id h : world_ok w -> may_enter g w -> leaves (ph_owner h) r g ->
  r ∈ w_live w -> id ∈ rv_handle_ids r -> handles (w_state w) !! id = Some h -> has_handle id h (w_state (enter g w)).
Proof.
  intros W Hm Hg Hr Hid Hl.
  assert (id ∈ reserved_handles (w_state w)) as Hres.
  { apply (wo_reserved _ W). split; [|by exists h]. unfold live_ids. rewrite (take_out_ids _ _ Hr). apply elem_of_app. by left. }
  assert (forall now, handles (prune_expired now (w_state w)) !! id = Some h) as Hp by (intros now; by apply prune_reserved).
  destruct g; cbn [enter may_enter leaves] in *; unfold with_state; cbn [w_state].
  - by exists h.
  - set (f := fun h => if belongs_to_client (ph_owner h) client then keep_handle (now + ABANDONED_RESOURCE_TTL) h else h).
    exists (f h). split; [|unfold f; by destruct (belongs_to_client _ _)]. unfold keep_alive_for_client.
    apply prune_reserved; [done|]. cbn. by rewrite lookup_fmap, Hl.
  - apply retain_has; [done|]. unfold belongs_to_client. by rewrite bool_decide_eq_false_2.
  - apply retain_has; [done|]. unfold belongs_to_task_id. by rewrite bool_decide_eq_false_2.
  - destruct Hm as [Hroom _]. exact (insert_has _ _ _ _ _ _ _ (keeps_ok _ _ W (prune_keeps now _)) Hroom (Hp now)).
  - exists h. split; [exact (Hp now)|done].
  - exists h. rewrite register_entries_handles. split; [exact (Hp now)|done].
  - unfold refresh_handles. destruct (refresh_loop _ _ _ _); [exact (extend_has (expires_at later) ids _ _ _ (Hp now))|exists h; split; [exact (Hp now)|done]].
  - exists h. split; [|done]. apply release_all_reserved; [by eapply prune_reserved|done].
  - destruct (reserve_cases disk now later owner ids (w_state w)) as [[e ->]|(rs & _ & ->)];
      [exists h; split; [exact (Hp now)|done]|].
    exact (extend_has (expires_at later) ids _ _ _ (Hp now)).
  - pose proof (confirm_has now later owner id0 w id h W Hm Hres Hl) as Hc. by destruct (confirm_publish _ _ _ _ _) as [[] ?].
  - exists h. split; [|done]. unfold commit_with. destruct (commit_lookup (rv_handle_ids r0) (w_state w) id) as (-> & _).
    rewrite bool_decide_eq_false_2; [done|]. intros Hi. apply Hg.
    eapply concat_once; [|exact Hm|exact Hr|exact Hi|exact Hid]. pose proof (wo_distinct _ W) as Hnd. apply NoDup_app in Hnd as [Hnd _]. exact Hnd.
  - exists h. split; [|done]. unfold drop_reservation. by destruct (drop_lookup (rv_handle_ids r0) (w_state w) id) as (-> & _).
Qed.

Lemma enter_live g w owner r : leaves owner r g -> r ∈ w_live w -> r ∈ w_live (enter g w).
Proof.
  intros Hg Hr. destruct g; cbn in *; try done.
  - destruct (reserve_for_send _ _ _ _ _ _) as [[] ?]; cbn; [by constructor|done].
  - by destruct (confirm_publish _ _ _ _ _) as [[] ?].
  - induction (w_live w) as [|r' live IH]; cbn; [done|]. apply elem_of_cons in Hr as [->|Hr]; case_bool_decide as E;
      [done|constructor|done|constructor; auto].
  - induction (w_live w) as [|r' live IH]; cbn; [done|]. apply elem_of_cons in Hr as [->|Hr]; case_bool_decide as E;
      [done|constructor|done|constructor; auto].
Qed.

Fixpoint enter_all (gs : list Region) (w : World) : World :=
  match gs with [] => w | g :: gs => enter_all gs (enter g w) end.
Fixpoint may_enter_all (gs : list Region) (w : World) : Prop :=
  match gs with [] => True | g :: gs => may_enter g w /\ may_enter_all gs (enter g w) end.

Lemma enter_all_has gs w owner r : world_ok w -> may_enter_all gs w -> Forall (leaves owner r) gs -> r ∈ w_live w ->
  world_ok (enter_all gs w) /\ r ∈ w_live (enter_all gs w) /\
  forall id h, id ∈ rv_handle_ids r -> handles (w_state w) !! id = Some h -> ph_owner h = owner ->
    has_handle id h (w_state (enter_all gs w)).
Proof.
  revert w. induction gs as [|g gs IH]; intros w W Hm Hg Hr.
  - split; [done|]. split; [done|]. intros id h _ Hl _. by exists h.
  - cbn [may_enter_all enter_all] in *. destruct Hm as [Hm1 Hm]. apply Forall_cons in Hg as [Hg1 Hg].
    destruct (IH (enter g w)) as (W' & Hr' & Hh); [by apply enter_ok|done|done|by eapply enter_live|].
    split; [done|]. split; [done|]. intros id h Hid Hl Ho. subst owner.
    destruct (enter_has g w r id h) as (h1 & Hl1 & Hs1); [done..|].
    eapply has_handle_trans; [exact Hl1|done|]. apply Hh; [done|done|]. by destruct Hs1 as [-> _].
Qed.

(** What a send resolves depends on the owner, label and target of its handles. *)
Lemma resolve_loop_same disk owner ids seen s s' :
  (forall id h, id ∈ ids -> handles s !! id = Some h -> ph_owner h = owner -> has_handle id h s' /\ (id ∉ reserved_handles s')) ->
  forall r, resolve_loop disk owner ids seen s = Ok r -> resolve_loop disk owner ids seen s' = Ok r.
Proof.
  revert seen. induction ids as [|id ids IH]; intros seen Hs r; cbn; [done|]. intros H.
  apply result_bind_ok in H as (h & Hh & H). apply result_bind_ok in H as (a & Ha & H).
  apply result_bind_ok in H as (rest & Hrest & H). pose proof (check_handle_ok _ _ _ _ _ Hh) as (Hseen & Hl & Hr & Ho).
  destruct (Hs id h) as ((h' & Hl' & Eo & El & Et) & Hr'); [constructor|done|done|].
  assert (check_handle owner seen id s' = Ok h') as ->.
  { unfold check_handle. rewrite bool_decide_eq_false_2 by done. rewrite Hl'. cbn.
    rewrite bool_decide_eq_false_2 by done. unfold belongs_to. rewrite bool_decide_eq_true_2 by congruence. done. }
  cbn. assert (handle_agent_attachment disk h' = handle_agent_attachment disk h) as ->.
  { unfold handle_agent_attachment. by rewrite Et, El. }
  rewrite Ha. cbn. assert (handle_chat_attachment h' = handle_chat_attachment h) as ->.
  { unfold handle_chat_attachment. by rewrite Et, El. }
  erewrite IH; [|intros id' h0 Hin; apply Hs; by constructor|done]. done.
Qed.

(** A send that does not go through can be tried again: while it holds its
    reservation its handles outlive their expiry and whatever other clients and
    sends do, and once the reservation is dropped the same send, before the
    handles expire, resolves to the same attachments. *)
Theorem dropped_send_is_retried w disk now later owner ids r s1 gs now2 later2 :
  run w -> reserve_for_send disk now later owner ids (w_state w) = (Ok r, s1) ->
  may_enter_all gs (enter (RReserve disk now later owner ids) w) -> Forall (leaves owner r) gs ->
  let s2 := w_state (enter_all gs (enter (RReserve disk now later owner ids) w)) in
  (forall id h, id ∈ ids -> handles s2 !! id = Some h -> now2 < ph_expires_at h) ->
  (reserve_for_send disk now2 later2 owner ids (drop_reservation r s2)).1 = Ok r.
Proof.
  intros W%attachment_run_ok Hr Hm Hg s2 Hlive. pose proof (reserve_ok disk now later owner ids w W) as W1.
  destruct (reserve_cases disk now later owner ids (w_state w)) as [[e E]|(rs & Hrs & E)]; [congruence|].
  rewrite Hr in E. pose proof (f_equal snd E) as Es. apply (f_equal fst) in E. cbn [fst snd] in E, Es. injection E as ->.
  set (r := mkReservation ids rs) in *. set (w1 := mkWorld s1 (r :: w_live w) (w_sent w) (w_confirmed w)).
  assert (enter (RReserve disk now later owner ids) w = w1) as E1 by (cbn [enter]; by rewrite Hr).
  assert (s2 = w_state (enter_all gs w1)) as Es2 by (unfold s2; by rewrite E1). clearbody s2. rewrite E1 in *.
  destruct (enter_all_has gs w1 owner r W1 Hm Hg) as (W2 & Hr2 & Hh); [constructor|]. rewrite <- Es2 in Hh.
  assert (handles (drop_reservation r s2) = handles s2) as Eh by apply (drop_lookup ids s2 ""%string).
  unfold reserve_for_send. erewrite (resolve_loop_same _ _ _ _ (prune_expired now (w_state w))); [done| |exact Hrs].
  intros id h Hin Hl Ho. assert (id ∉ reserved_handles (drop_reservation r s2)) as Hnr.
  { intros Hd. by apply (drop_lookup ids s2 id) in Hd as [_ Hd]. }
  split; [|intros Hd; by apply (kp_reserved _ _ (prune_keeps _ _)) in Hd].
  destruct (Hh id (keep_handle (expires_at later) h)) as (h2 & Hl2 & Hs2); [done| |done|].
  { cbn [w1 w_state]. rewrite Es. cbn [handles set_reserved set_handles]. rewrite extend_lookup, Hl. cbn.
    by rewrite bool_decide_eq_true_2. }
  exists h2. split; [|done]. apply map_lookup_filter_Some. rewrite Eh. split; [done|]. cbn.
  by rewrite bool_decide_eq_true_2 by (by eapply Hlive).
Qed.

(** ** Limits of inline images *)

Section InlineImages.
Context `{ImageCodecs}.

Definition decoded_size (image : ComposerImage) : Z :=
  match base64_decode (ci_data image) with Some bytes => Z.of_nat (length bytes) | None => 0 end.

Lemma validate_media_ok media_type prefix data max size : validate_base64_media media_type prefix data max = Ok size ->
  starts_with prefix media_type = true /\
  exists bytes, base64_decode data = Some bytes /\ size = Z.of_nat (length bytes) /\ 0 < size <= max.
Proof.
  unfold validate_base64_media. destruct (starts_with prefix media_type); [|done]. cbn [negb orb].
  destruct (negb _); [done|]. intros H0. apply result_bind_ok in H0 as (bytes & Hb & H0).
  destruct (base64_decode data) as [bytes'|]; [|done]. injection Hb as ->.
  case_bool_decide as Hne; [done|]. case_bool_decide as Hm; [done|]. injection H0 as <-. split; [done|].
  exists bytes. repeat split; [|lia]. destruct bytes; [done|]. cbn. lia.
Qed.

(** The attachment of an inline image. *)
Definition inline_attachment (image : ComposerImage) : Attachment :=
  mkAttachment "image" (safe_image_label (ci_label image)) None
    (Some (image_payload (ci_mime_type image) (ci_data image) (decoded_size image))).

Lemma inline_images_ok images total attachments out : 0 <= total <= MESSAGE_IMAGE_MAX_BYTES ->
  inline_images images total attachments = Ok out ->
  out = attachments ++ (inline_attachment <$> images) /\
  Forall (fun i => 0 < decoded_size i <= IMAGE_MAX_BYTES /\ starts_with "image/" (ci_mime_type i) = true) images /\
  total + list_sum decoded_size images <= MESSAGE_IMAGE_MAX_BYTES.
Proof.
  revert total attachments. induction images as [|i images IH]; intros total attachments Ht; cbn [inline_images].
  - intros [= <-]. cbn. rewrite app_nil_r. repeat split; [constructor|lia].
  - unfold validate_base64_image. destruct (validate_base64_media _ _ _ _) as [size|] eqn:Ev; [|done].
    apply validate_media_ok in Ev as (Hp & bytes & Hb & -> & Hs).
    assert (decoded_size i = Z.of_nat (length bytes)) as Ed by (unfold decoded_size; by rewrite Hb).
    unfold u64_checked_add. case_bool_decide; [|done]. case_bool_decide as Hm; [|done].
    intros Hr. apply IH in Hr as (-> & Hall & Hsum); [|lia]. rewrite <- app_assoc. repeat split.
    + unfold inline_attachment. cbn. by rewrite Ed.
    + constructor; [|done]. rewrite Ed. done.
    + cbn. lia.
Qed.

(** What a send makes of the images a client sends inline: an attachment for
    each, in order, with the size of its data; and then every image has a media
    type of images and at most five megabytes, and all of them together at most
    eight.  A message past a limit is refused. *)
Theorem inline_images_within_limits images r :
  from_inline_images images = Ok r ->
  chat_attachments r = inline_attachment <$> images /\ agent_attachments r = chat_attachments r /\
  Forall (fun i => 0 < decoded_size i <= IMAGE_MAX_BYTES /\ starts_with "image/" (ci_mime_type i) = true) images /\
  list_sum decoded_size images <= MESSAGE_IMAGE_MAX_BYTES.
Proof.
  unfold from_inline_images. intros H0. apply result_bind_ok in H0 as (out & Ho & [= <-]).
  apply inline_images_ok in Ho as (-> & Hall & Hsum); [|unfold MESSAGE_IMAGE_MAX_BYTES; lia]. cbn in *. auto.
Qed.

End InlineImages.

(** ** Operations as their regions *)

Lemma enter_all_app gs gs' w : enter_all (gs ++ gs') w = enter_all gs' (enter_all gs w).
Proof. revert w. induction gs; cbn; auto. Qed.
Lemma may_enter_all_app gs gs' w : may_enter_all (gs ++ gs') w <-> may_enter_all gs w /\ may_enter_all gs' (enter_all gs w).
Proof. revert w. induction gs as [|g gs IH]; intros w; cbn; [tauto|]. rewrite IH. tauto. Qed.

(** A state that regions lead to, none of which begins or ends a reservation, when
    there is room for [k] more handles and a candidate. *)
Definition reaches (k : nat) (s s' : AttachmentRuntimeState) : Prop :=
  forall w, w_state w = s -> next_id s + Z.of_nat k <= u64_max -> next_candidate_id s < u64_max ->
    exists gs w', may_enter_all gs w /\ enter_all gs w = w' /\ w_state w' = s' /\ w_live w' = w_live w /\ w_sent w' = w_sent w.

Lemma confirm_one_reaches mo owner id s : reaches 1 s (confirm_one_embedded mo owner id s).2.
Proof.
  intros w <- Hroom _. unfold confirm_one_embedded, confirm_lookup.
  assert (next_id (prune_expired (mo_first mo) (w_state w)) < u64_max) as Hroom' by (cbn; lia).
  destruct (let? c := _ in _) as [u|e].
  - exists [RPrune (mo_first mo); RConfirm (mo_second mo) (mo_later mo) owner id].
    eexists. split; [by repeat split|]. split; [done|]. cbn -[prune_expired confirm_publish].
    by destruct (confirm_publish _ _ _ _ _) as [[] ?].
  - exists [RPrune (mo_first mo)]. eexists. by repeat split.
Qed.

Lemma create_file_reference_reaches mo owner id s :
  (forall i e, entries s !! i = Some e -> plain_path (fe_path e)) -> reaches 1 s (create_file_reference mo owner id s).2.
Proof.
  intros Hp w <- Hroom _. unfold create_file_reference, lookup_entry.
  destruct (let? entry := _ in _) as [entry|e] eqn:E; [|by exists [RPrune (mo_first mo)]; eexists].
  exists [RPrune (mo_first mo); RRegister (mo_second mo) (mo_later mo) owner (fe_label entry)
            (FileReference (fe_path entry) (fe_allowed_root entry))].
  eexists. split; [|done]. split; [done|]. split; [|done]. split; [cbn; lia|].
  apply result_bind_ok in E as (entry' & He & E). apply result_bind_ok in E as (_ & _ & [= ->]).
  destruct (entries (prune_expired _ _) !! id) as [e|] eqn:Ee; [|done]. injection He as ->.
  apply (kp_entries _ _ (prune_keeps _ _)) in Ee as (e0 & ? & Epath). cbn. rewrite Epath. by eapply Hp.
Qed.

Lemma create_embedded_candidate_reaches mo owner id s :
  (forall i e, entries s !! i = Some e -> plain_path (fe_path e)) -> reaches 1 s (create_embedded_candidate mo owner id s).2.
Proof.
  intros Hp w <- _ Hroom. unfold create_embedded_candidate, lookup_entry.
  destruct (let? entry := _ in _) as [[entry size]|e] eqn:E; [|by exists [RPrune (mo_first mo)]; eexists].
  exists [RPrune (mo_first mo); RCandidate (mo_second mo) (mo_later mo) owner (fe_label entry) (fe_path entry)
            (fe_allowed_root entry) (Some size)].
  eexists. split; [|done]. split; [done|]. split; [|done]. split; [done|].
  apply result_bind_ok in E as (entry' & He & E). apply result_bind_ok in E as (_ & _ & E).
  apply result_bind_ok in E as (size' & _ & [= -> _]).
  destruct (entries (prune_expired _ _) !! id) as [e|] eqn:Ee; [|done]. injection He as ->.
  apply (kp_entries _ _ (prune_keeps _ _)) in Ee as (e0 & ? & Epath). rewrite Epath. by eapply Hp.
Qed.

(** What the documentation of [std::fs] promises of a file system: a canonical
    path is absolute and has no dots, and the name of an item is one component. *)
Definition disk_plain (disk : Disk) : Prop :=
  (forall path p, fs_canonicalize disk path = Ok p -> pb_root p = true /\ Forall normal (pb_segments p)) /\
  (forall dir items name, fs_read_dir disk dir = Ok items -> Ok name ∈ items -> normal name).

Lemma join_slash_snoc names name : names <> [] -> join_slash (names ++ [name]) = join_slash names ++ 47 :: name.
Proof.
  induction names as [|n names IH]; [done|]. intros _. destruct names as [|n' names]; [done|].
  change (n ++ 47 :: join_slash ((n' :: names) ++ [name]) = (n ++ 47 :: join_slash (n' :: names)) ++ 47 :: name).
  rewrite IH by done. by rewrite <- app_assoc.
Qed.

Lemma join_slash_last names b : Forall normal names -> names <> [] -> last (join_slash names) = Some b -> b <> 47.
Proof.
  intros Hn Hne Hl ->. destruct names as [|name names _] using rev_ind; [done|].
  apply Forall_app in Hn as [_ Hn]. apply Forall_singleton in Hn as ((Hnil & _ & Hs & _) & _). apply Hs.
  destruct names as [|n names].
  - cbn in Hl. by apply last_Some_elem_of in Hl.
  - rewrite join_slash_snoc in Hl by done. rewrite last_app in Hl. destruct name as [|c name]; [done|].
    rewrite last_cons in Hl. destruct (last (c :: name)) eqn:E; [|by apply last_None in E].
    apply last_Some_elem_of. congruence.
Qed.

Lemma join_name_plain names name : Forall normal names ->
  join_name (path_bytes (mkPath true names)) name = path_bytes (mkPath true (names ++ [name])).
Proof.
  intros Hn. unfold join_name, path_bytes. cbn [pb_root pb_segments app]. destruct names as [|n names]; [done|].
  rewrite join_slash_snoc by done. rewrite last_cons.
  destruct (last (join_slash (n :: names))) as [b|] eqn:E.
  - apply join_slash_last in E; [|done|done]. repeat case_match; try done; by simplify_eq.
  - apply last_None in E. apply Forall_cons in Hn as [((Hne & _) & _) _]. by destruct n, names.
Qed.

Lemma discover_plain to_lowercase disk directory root discovered :
  disk_plain disk -> plain_path directory -> discover_entries to_lowercase disk directory root = Ok discovered ->
  Forall (fun d => plain_path (de_path d)) discovered.
Proof.
  intros [_ Hd] (names & Hn & ->) H. unfold discover_entries in H.
  destruct (fs_read_dir disk _) as [items|] eqn:Ei; [|done].
  apply result_bind_ok in H as (l & Hl & [= <-]).
  assert (Forall (fun d => plain_path (de_path d)) l) as Hall.
  { assert (forall name, Ok name ∈ items -> normal name) as Hnames by (intros; by eapply Hd). clear Hd Ei. revert l Hl Hnames.
    induction items as [|[name|e] items IH]; intros l Hl Hnames; cbn in Hl; [by injection Hl as <-| |done].
    apply result_bind_ok in Hl as (rest & Hrest & [= <-]). apply Forall_app. split.
    - assert (plain_path (join_name (path_bytes (mkPath true names)) name)) as Hp.
      { exists (names ++ [name]). split; [|by apply join_name_plain]. apply Forall_app. split; [done|].
        apply Forall_singleton, Hnames. constructor. }
      unfold discover_item. destruct (classify _ _ _) as [[|size]|]; [destruct (is_hidden_file_browser_directory _)| |]; by repeat constructor.
    - apply IH; [done|]. intros name' Hin. apply Hnames. by constructor. }
  clear -Hall. unfold sort_entries. induction Hall as [|d l Hd _ IH]; cbn; [done|].
  clear -Hd IH. induction IH as [|e l' He Hl IH]; cbn; [by repeat constructor|].
  destruct (entry_after _ _ _); by repeat constructor.
Qed.

Lemma list_directory_reaches to_lowercase mo owner workspace_root requested_root directory_id s :
  disk_plain (mo_disk mo) -> plain_path workspace_root -> (forall i e, entries s !! i = Some e -> plain_path (fe_path e)) ->
  reaches 0 s (list_directory to_lowercase mo owner workspace_root requested_root directory_id s).2.
Proof.
  intros Hdisk Hroot Hp w <- _ _. unfold list_directory. destruct (negb _); [by exists [], w|].
  destruct (resolve_directory _ _ _ _ _ _ _) as [dir s1] eqn:Er.
  assert (exists gs, may_enter_all gs w /\ enter_all gs w = with_state s1 w /\
    forall path label root, dir = Ok (path, label, root) -> plain_path path) as (gs & Hm & He & Hdir).
  { unfold resolve_directory in Er. destruct directory_id as [i|].
    - injection Er as <- <-. exists [RPrune (mo_first mo)]. split; [done|]. split; [done|].
      intros path label root H. apply result_bind_ok in H as (entry & Hi & H). repeat (case_match; [done|]).
      apply result_bind_ok in H as (current & _ & H). case_match; [done|]. injection H as <- _ _.
      destruct (filter _ (entries (w_state w)) !! i) as [e|] eqn:Ee; [|done]. injection Hi as ->.
      apply map_lookup_filter_Some in Ee as [Ee _]. by eapply Hp.
    - injection Er as <- <-. exists []. split; [done|]. split; [by destruct w|].
      intros path label root H. apply result_bind_ok in H as (current & _ & [= <- _ _]). done. }
  destruct (let? d := dir in _) as [[d discovered]|e] eqn:E.
  - apply result_bind_ok in E as ([[path label] root] & -> & E). apply result_bind_ok in E as (_ & _ & E).
    apply result_bind_ok in E as (l & Hl & [= <- <-]). cbn [fst snd] in *.
    unfold register_listing. destruct (register_entries _ _ _ _ _ _) as [listed s2] eqn:El.
    exists (gs ++ [RListing (mo_second mo) (mo_later mo) owner requested_root root l]), (with_state s2 w).
    split; [|split; [rewrite enter_all_app, He; cbn; by rewrite El|done]].
    assert (may_enter (RListing (mo_second mo) (mo_later mo) owner requested_root root l) (with_state s1 w)) as Hlast.
    { cbn. eapply discover_plain; [done|by eapply Hdir|exact Hl]. }
    apply may_enter_all_app. by rewrite He.
  - exists gs, (with_state s1 w). done.
Qed.

Lemma register_reaches now later owner label target s : target_plain target ->
  reaches 1 s (insert_handle later owner label target (prune_expired now s)).2.
Proof.
  intros Ht w <- Hroom _. exists [RRegister now later owner label target]. eexists. split; [|done].
  split; [|done]. split; [lia|done].
Qed.

Lemma reaches_refl s : reaches 0 s s.
Proof. intros w <- _ _. by exists [], w. Qed.

Lemma reaches_trans j k s s1 s2 : reaches j s s1 -> reaches k s1 s2 ->
  next_id s1 <= next_id s + Z.of_nat j -> next_candidate_id s1 = next_candidate_id s -> reaches (j + k) s s2.
Proof.
  intros H1 H2 Hn Hc w <- Hroom Hroomc.
  destruct (H1 w eq_refl) as (gs & w1 & Hm1 & E1 & Es1 & El1 & Et1); [lia|done|].
  destruct (H2 w1 Es1) as (gs' & w2 & Hm2 & E2 & Es2 & El2 & Et2); [lia|congruence|].
  exists (gs ++ gs'), w2. rewrite may_enter_all_app, enter_all_app, E1. repeat split; congruence || done.
Qed.

Lemma create_pasted_image_reaches `{ImageCodecs} now later owner label mime_type data s :
  reaches 1 s (create_pasted_image now later owner label mime_type data s).2.
Proof.
  unfold create_pasted_image. destruct (validate_pasted_image _ _).
  - by apply register_reaches.
  - by intros w <- _ _; exists [], w.
Qed.

Lemma create_local_file_reference_reaches disk now later owner path label s : disk_plain disk ->
  reaches 1 s (create_local_file_reference disk now later owner path label s).2.
Proof.
  intros [Hc _]. unfold create_local_file_reference. destruct (fs_canonicalize disk path) as [p|] eqn:Ep;
    [|by intros w <- _ _; exists [], w]. destruct (negb _); [by intros w <- _ _; exists [], w|].
  destruct (let? dir := _ in _) as [root|]; [|by intros w <- _ _; exists [], w].
  apply register_reaches. cbn. destruct (Hc _ _ Ep) as [Hr Hn]. destruct p as [r names]. cbn in *. subst r. by exists names.
Qed.

(** Queued file references name plain paths. *)
Definition queued_plain (agent : Attachment) : Prop := forall p, att_path agent = Some p -> plain_path (bytes_of p).

Lemma insert_handle_next later owner label target now s : 0 <= next_id s ->
  next_id (insert_handle later owner label target (prune_expired now s)).2 <= next_id s + 1.
Proof.
  intros H. cbn. unfold u64_add. apply Z.mod_le; [lia|]. unfold u64_modulus. lia.
Qed.

Lemma restore_loop_reaches disk now later owner pairs restored images s :
  0 <= next_id s -> Forall (fun p => queued_plain p.2) pairs ->
  reaches (length pairs) s (restore_loop disk now later owner pairs restored images s).2.
Proof.
  intros Hn Hp. revert restored images s Hn. induction Hp as [|[chat agent] pairs Ha _ IH]; intros restored images s Hn; cbn [restore_loop].
  - apply reaches_refl.
  - change (length ((chat, agent) :: pairs)) with (1 + length pairs)%nat.
    assert (forall label target, target_plain target -> forall restored images,
      reaches (1 + length pairs) s (restore_loop disk now later owner pairs restored images
        (insert_handle later owner label target (prune_expired now s)).2).2) as Hreg.
    { intros label target Ht restored' images'. eapply reaches_trans; [by apply register_reaches|apply IH| |done].
      - cbn. apply u64_add_range.
      - by apply insert_handle_next. }
    assert (forall s', reaches (length pairs) s s' -> reaches (1 + length pairs) s s') as Hweak.
    { intros s' Hr w Hw Hroom. apply Hr; [done|lia]. }
    destruct (bool_decide _); [|destruct (bool_decide _)].
    + destruct (restore_image agent); [by apply Hweak, IH|]. apply Hweak. by intros w <- _ _; exists [], w.
    + destruct (restore_file disk agent) as [[path root]|] eqn:Er; [|apply Hweak; by intros w <- _ _; exists [], w].
      apply Hreg. cbn. unfold restore_file in Er. apply result_bind_ok in Er as (p & Hpath & Er).
      do 3 apply result_bind_ok in Er as (? & _ & Er). injection Er as <- _.
      destruct (att_path agent) as [q|] eqn:Eq; [|done]. injection Hpath as <-. by apply Ha.
    + by apply Hreg.
Qed.

Lemma restore_queued_for_composer_reaches disk now later owner chat agent s :
  0 <= next_id s -> Forall queued_plain agent ->
  reaches (length (zip chat agent)) s (restore_queued_for_composer disk now later owner chat agent s).2.
Proof.
  intros Hn Hp. unfold restore_queued_for_composer. destruct (negb _); [by intros w <- _ _; exists [], w|].
  assert (Forall (fun p : Attachment * Attachment => queued_plain p.2) (zip chat agent)) as Hz.
  { clear -Hp. revert chat. induction Hp; intros [|c chat]; cbn; by repeat constructor. }
  pose proof (restore_loop_reaches disk now later owner (zip chat agent) [] [] s Hn Hz) as Hr.
  destruct (restore_loop _ _ _ _ _ _ _ _) as [[restored [images|e]] s1]; [done|]. cbn in *.
  intros w Hw Hroom Hroomc. destruct (Hr w Hw Hroom Hroomc) as (gs & w1 & Hm & E & Es & El & Et).
  exists (gs ++ [RRelease now owner (ResourceHandle ∘ pa_handle_id <$> restored)]). eexists.
  rewrite may_enter_all_app, enter_all_app, E. split; [done|]. split; [done|]. cbn. by rewrite Es.
Qed.

(** ** Release *)

Lemma release_all_outcomes owner resources s : (release_all owner resources s).1.*1 = resources.
Proof.
  revert s. induction resources as [|x resources IH]; intros s; cbn; [done|]. destruct (release_one owner x s) as [status s1].
  specialize (IH s1). destruct (release_all owner resources s1). cbn in *. by rewrite IH.
Qed.

Lemma release_one_spares owner x s id h : handles s !! id = Some h -> ph_owner h <> owner ->
  handles (release_one owner x s).2 !! id = Some h.
Proof.
  intros Hl Ho. destruct x as [i|i]; cbn.
  - destruct (handles s !! i) as [h'|] eqn:Ei; [|done]. unfold belongs_to. case_bool_decide as Eo; [|done]. cbn [negb].
    destruct (bool_decide _); [done|]. cbn. rewrite lookup_delete_ne; [done|]. by intros ->; simplify_eq.
  - destruct (candidates s !! i); [|done]. by destruct (negb _).
Qed.

(** A release answers every resource, in order, and leaves what is not the
    owner's and what a send has reserved. *)
Lemma release_is_independent now owner resources s :
  (release_resources now owner resources s).1.*1 = resources /\
  forall id h, handles (prune_expired now s) !! id = Some h ->
    ph_owner h <> owner \/ id ∈ reserved_handles (prune_expired now s) ->
    handles (release_resources now owner resources s).2 !! id = Some h.
Proof.
  split; [apply release_all_outcomes|]. unfold release_resources. generalize (prune_expired now s). intros s0 id h Hl [Ho|Hr];
    [|by apply release_all_reserved]. revert s0 Hl.
  induction resources as [|x resources IH]; intros s0 Hl; cbn; [done|].
  pose proof (release_one_spares owner x s0 id h Hl Ho) as H1. destruct (release_one owner x s0) as [status s1].
  specialize (IH s1 H1). by destruct (release_all owner resources s1).
Qed.

(** ** Examples *)

Module AttachmentWitness.

(** A file system without links: folder [/w], every other path is a text. *)
Definition toy_disk : Disk :=
  mkDisk (Some (bytes_of "/w")) (fun path => Ok (normal_path path))
    (fun path => Ok (if bool_decide (path = bytes_of "/w") then mkMetadata true false 0 else mkMetadata false true 5))
    (fun _ => Ok "hello"%string) (fun _ => Ok [Ok (bytes_of "b.txt"); Ok (bytes_of "a.txt")]).
Definition toy_root : AllowedRoot := mkAllowedRoot (mkPath true [bytes_of "w"]) (mkPath true [bytes_of "w"]).
Definition alice : AttachmentOwner := mkOwner "alice" "task-1".
Definition note : Path := bytes_of "/w/a.txt".

Example listing_is_sorted :
  (fun e => (be_entry_id e, be_label e)) <$>
    match (list_directory id (mkMoments 0 toy_disk 0 0) alice (bytes_of "/w") root_id None runtime_new).1 with
    | Ok l => ld_entries l | Err _ => [] end
  = [("file-entry-1", "a.txt"); ("file-entry-2", "b.txt")]%string.
Proof. vm_compute. reflexivity. Qed.

Example outside_is_refused : classify toy_disk toy_root (bytes_of "/w/../etc/passwd") = Err OutsideAllowedRoot.
Proof. vm_compute. reflexivity. Qed.

Lemma note_plain : plain_path note.
Proof.
  exists [bytes_of "w"; bytes_of "a.txt"]. split; [|done].
  repeat constructor; try (apply (bool_decide_unpack _); vm_compute; exact I).
Qed.

(** A file reference and a confirmed copy, the reference reserved by a send. *)
Definition opening : list Region :=
  [RRegister 0 0 alice "a.txt" (FileReference note toy_root);
   RCandidate 0 0 alice "a.txt" note toy_root (Some 5);
   RConfirm 0 0 alice "attachment-candidate-1"].
Definition opened : World := enter_all opening world_new.
Definition sending : World := enter (RReserve toy_disk 1 1 alice ["attachment-handle-1"%string; "attachment-handle-2"%string]) opened.
Definition held : AttachmentSendReservation :=
  match w_live sending with r :: _ => r | [] => mkReservation [] (mkResolved [] []) end.
Definition finished : World := enter (RCommit held) sending.

Lemma run_all gs w : run w -> may_enter_all gs w -> run (enter_all gs w).
Proof. revert w. induction gs as [|g gs IH]; intros w Hw; cbn; [done|]. intros [? ?]. apply IH; [by constructor|done]. Qed.

Lemma opened_run : run opened.
Proof.
  apply run_all; [constructor|]. split; [split; [done|apply note_plain]|]. split; [split; [done|apply note_plain]|]. done.
Qed.
Lemma finished_run : run finished.
Proof.
  constructor; [constructor; [apply opened_run|done]|]. cbn [may_enter]. unfold held.
  assert (w_live sending <> []) as Hne by (intros E; apply (f_equal length) in E; vm_compute in E; done).
  destruct (w_live sending) as [|r live]; [done|]. constructor.
Qed.

Example both_were_sent : w_sent finished = ["attachment-handle-1"%string; "attachment-handle-2"%string].
Proof. vm_compute. reflexivity. Qed.

Lemma attachment_is_sent_once_witness :
  w_sent finished = ["attachment-handle-1"%string; "attachment-handle-2"%string] /\ NoDup (w_sent finished) /\
  w_confirmed finished = ["attachment-candidate-1"%string] /\
  forall id, id ∈ w_sent finished -> handles (w_state finished) !! id = None.
Proof.
  pose proof (attachment_is_sent_once finished finished_run) as (H1 & _ & H2 & _).
  split; [vm_compute; reflexivity|]. split; [exact H1|]. split; [vm_compute; reflexivity|exact H2].
Defined.

Definition two : list string := ["attachment-handle-1"; "attachment-handle-2"]%string.

Lemma opened_files_are_confined_witness :
  is_ok (reserve_for_send toy_disk 1 1 alice two (w_state opened)).1 = true /\
  forall id, id ∈ two -> exists h, handles (w_state opened) !! id = Some h /\ ph_owner h = alice /\
    match ph_target h with FileReference path root | EmbeddedSnapshot path root => confined toy_disk path root | _ => True end.
Proof.
  assert (is_ok (reserve_for_send toy_disk 1 1 alice two (w_state opened)).1 = true) as Hok by (vm_compute; reflexivity).
  split; [exact Hok|]. destruct (reserve_for_send toy_disk 1 1 alice two (w_state opened)) as [[r|e] s'] eqn:E; [|discriminate Hok].
  exact (proj1 (opened_files_are_confined opened toy_disk 1 alice opened_run) _ _ _ _ E).
Defined.

(** Other regions while the send is held: the expiry of the owner's resources,
    a release, another registration. *)
Definition meanwhile : list Region :=
  [RPrune 1800001; RRelease 2000000 alice [ResourceHandle "attachment-handle-1"]; RKeepAlive "alice" 2000000;
   RRegister 2000000 2000000 (mkOwner "bob" "task-1") "x" (PastedImage "image/png" "" 0); RDiscardClient "bob"].
Definition after_meanwhile : AttachmentRuntimeState :=
  w_state (enter_all meanwhile (enter (RReserve toy_disk 1 1 alice two) opened)).

Lemma two_alive : forall id h, id ∈ two -> handles after_meanwhile !! id = Some h -> 2100000 < ph_expires_at h.
Proof.
  intros id h Hin Hl.
  assert (forall id, id ∈ two -> match handles after_meanwhile !! id with Some h => Z.ltb 2100000 (ph_expires_at h) | None => true end = true) as H.
  { clear. intros id [->|[->|[]%elem_of_nil]%elem_of_cons]%elem_of_cons; vm_compute; reflexivity. }
  specialize (H id Hin). rewrite Hl in H. by apply Z.ltb_lt.
Qed.

Lemma dropped_send_is_retried_witness :
  exists r, (reserve_for_send toy_disk 1 1 alice two (w_state opened)).1 = Ok r /\
    (reserve_for_send toy_disk 2100000 2100000 alice two (drop_reservation r after_meanwhile)).1 = Ok r.
Proof.
  assert (is_ok (reserve_for_send toy_disk 1 1 alice two (w_state opened)).1 = true) as Hok by (vm_compute; reflexivity).
  destruct (reserve_for_send toy_disk 1 1 alice two (w_state opened)) as [[r|e] s1] eqn:E; [|discriminate Hok].
  exists r. split; [reflexivity|].
  refine (dropped_send_is_retried opened toy_disk 1 1 alice two r s1 meanwhile 2100000 2100000 opened_run E _ _ two_alive).
  - do 3 (split; [exact I|]). split; [split; [vm_compute; reflexivity|exact I]|]. split; exact I.
  - repeat constructor; discriminate.
Defined.

#[local] Existing Instance ImageWitness.plain_codecs.
Definition snapshot : ComposerImage := mkComposerImage "/tmp/cat.png " "image/png" "data".

Lemma inline_images_within_limits_witness :
  exists r, from_inline_images [snapshot] = Ok r /\ chat_attachments r = [inline_attachment snapshot].
Proof.
  eexists. split; [vm_compute; reflexivity|].
  refine (proj1 (inline_images_within_limits [snapshot] _ _)). vm_compute. reflexivity.
Defined.

End AttachmentWitness.
