(* ===== verification/WebSocket.v ===== *)
(** * WebSocket messages

    [protocol_edge/local_http/listener/websocket.rs]: the server half of RFC 6455
    that the session and Terminal sockets use.  A stream is the bytes that still
    arrive before it closes; a read past them is the error [EndOfStream].

    The reading loop has as much fuel as there are bytes, and one more: every
    round takes the two bytes of a frame's header. *)

From S2P Require Import Prelude Records Pairing.
Local Open Scope Z_scope.

Definition OPCODE_CONTINUATION : Z := 0.
Definition OPCODE_TEXT : Z := 1.
Definition OPCODE_BINARY : Z := 2.
Definition OPCODE_CLOSE : Z := 8.
Definition OPCODE_PING : Z := 9.
Definition OPCODE_PONG : Z := 10.
Definition MAX_CONTROL_PAYLOAD_BYTES : Z := 125.

Inductive Incoming := Text (text : list Z) | Binary (bytes : list Z) | Ping (bytes : list Z) | Pong | Close.

Inductive SocketError := EndOfStream | Violation (reason : string) | TooLarge | OutOfFuel.

Record MessageReader := mkReader {
  reader : list Z;
  max_message_bytes : Z;
  partial : option (list Z);
  binary : bool }.

(** [read_exact], with the bytes after. *)
Definition read_exact (n : nat) (l : list Z) : result (list Z * list Z) SocketError :=
  if bool_decide (n <= length l)%nat then Ok (take n l, drop n l) else Err EndOfStream.

(** Big-endian numbers. *)
Definition from_be_bytes (l : list Z) : Z := foldl (fun acc b => acc * 256 + b) 0 l.
Fixpoint to_be_bytes (width : nat) (n : Z) : list Z :=
  match width with O => [] | S width => (n / 256 ^ Z.of_nat width) mod 256 :: to_be_bytes width n end.

Definition payload_length (short : Z) (l : list Z) : result (Z * list Z) SocketError :=
  if bool_decide (short = 126) then let? r := read_exact 2 l in Ok (from_be_bytes r.1, r.2)
  else if bool_decide (short = 127) then let? r := read_exact 8 l in Ok (from_be_bytes r.1, r.2)
  else Ok (short, l).

Definition unmask (mask payload : list Z) : list Z :=
  imap (fun i b => Z.lxor b (default 0 (mask !! (i mod 4)%nat))) payload.

(** A frame as the loop takes it off the stream. *)
Record Frame := mkFrame { finished : bool; opcode : Z; payload : list Z }.

Definition next_frame (r : MessageReader) : result (Frame * list Z) SocketError :=
  let? h := read_exact 2 (reader r) in
  let header0 := default 0 (h.1 !! 0%nat) in
  let header1 := default 0 (h.1 !! 1%nat) in
  let finished := negb (bool_decide (Z.land header0 128 = 0)) in
  if negb (bool_decide (Z.land header0 112 = 0)) then Err (Violation "reserved bits are set")
  else if bool_decide (Z.land header1 128 = 0) then Err (Violation "client frame is not masked")
  else
    let opcode := Z.land header0 15 in
    let is_control := negb (bool_decide (Z.land opcode 8 = 0)) in
    let? l := payload_length (Z.land header1 127) h.2 in
    if is_control && (negb finished || bool_decide (MAX_CONTROL_PAYLOAD_BYTES < l.1)) then
      Err (Violation "invalid control frame")
    else
      let buffered := match partial r with Some p => Z.of_nat (length p) | None => 0 end in
      if bool_decide (u64_saturating_sub (max_message_bytes r) buffered < l.1) then Err TooLarge
      else
        let? m := read_exact 4 l.2 in
        let? p := read_exact (Z.to_nat l.1) m.2 in
        Ok (mkFrame finished opcode (unmask m.1 p.1), p.2).

(** The end of a message: text has to be UTF-8. *)
Definition message (binary : bool) (bytes : list Z) : result Incoming SocketError :=
  if binary then Ok (Binary bytes) else if valid_utf8 bytes then Ok (Text bytes) else Err (Violation "text is not UTF-8").

(** What a frame does: an answer of the read, or what was received so far. *)
Inductive Taken := Answer (incoming : Incoming) | Held (partial : list Z) (binary : bool).

Definition take_frame (f : Frame) (partial : option (list Z)) (binary : bool) : result Taken SocketError :=
  if bool_decide (opcode f = OPCODE_PING) then Ok (Answer (Ping (payload f)))
  else if bool_decide (opcode f = OPCODE_PONG) then Ok (Answer Pong)
  else if bool_decide (opcode f = OPCODE_CLOSE) then Ok (Answer Close)
  else if (bool_decide (opcode f = OPCODE_TEXT) || bool_decide (opcode f = OPCODE_BINARY)) && negb (is_some partial) then
    Ok (Held (payload f) (bool_decide (opcode f = OPCODE_BINARY)))
  else if bool_decide (opcode f = OPCODE_CONTINUATION) then
    match partial with
    | Some p => Ok (Held (p ++ payload f) binary)
    | None => Err (Violation "continuation without a message")
    end
  else Err (Violation "unsupported frame").

Fixpoint read_loop (fuel : nat) (r : MessageReader) : result (Incoming * MessageReader) SocketError :=
  match fuel with
  | O => Err OutOfFuel
  | S fuel =>
      let? f := next_frame r in
      let? t := take_frame f.1 (partial r) (binary r) in
      match t with
      | Answer incoming => Ok (incoming, mkReader f.2 (max_message_bytes r) (partial r) (binary r))
      | Held p b =>
          if finished f.1
          then let? incoming := message b p in Ok (incoming, mkReader f.2 (max_message_bytes r) None b)
          else read_loop fuel (mkReader f.2 (max_message_bytes r) (Some p) b)
      end
  end.

Definition read (r : MessageReader) : result (Incoming * MessageReader) SocketError :=
  read_loop (S (length (reader r))) r.

(** ** Writing *)

Definition write_frame (opcode : Z) (payload : list Z) : list Z :=
  let length := Z.of_nat (length payload) in
  Z.lor 128 opcode ::
  (if bool_decide (length <= 125) then [length mod 256]
   else if bool_decide (length <= 65535) then 126 :: to_be_bytes 2 (length mod 65536)
   else 127 :: to_be_bytes 8 length) ++ payload.

Definition write_text (text : list Z) : list Z := write_frame OPCODE_TEXT text.
Definition write_binary (bytes : list Z) : list Z := write_frame OPCODE_BINARY bytes.
Definition write_pong (payload : list Z) : list Z := write_frame OPCODE_PONG payload.
Definition write_close (code : Z) (reason : list Z) : list Z :=
  write_frame OPCODE_CLOSE (take (Z.to_nat MAX_CONTROL_PAYLOAD_BYTES) (to_be_bytes 2 code ++ reason)).

(** ** The handshake *)

Definition u32_modulus : Z := 2 ^ 32.
Definition u32_add (a b : Z) : Z := (a + b) mod u32_modulus.
Definition u32_not (a : Z) : Z := u32_modulus - 1 - a.
Definition rotate_left (a : Z) (n : Z) : Z :=
  Z.lor (Z.shiftl a n mod u32_modulus) (Z.shiftr a (32 - n)).

(** The zero bytes up to 56 of the last block. *)
Fixpoint pad_zeros (fuel : nat) (l : list Z) : list Z :=
  match fuel with
  | O => l
  | S fuel => if bool_decide (Z.of_nat (length l) mod 64 = 56) then l else pad_zeros fuel (l ++ [0])
  end.
Definition sha1_padded (input : list Z) : list Z :=
  pad_zeros 64 (input ++ [128]) ++ to_be_bytes 8 (Z.of_nat (length input) * 8 mod u64_modulus).

Fixpoint chunks_exact (fuel n : nat) (l : list Z) : list (list Z) :=
  match fuel with
  | O => []
  | S fuel => if bool_decide (n <= length l)%nat then take n l :: chunks_exact fuel n (drop n l) else []
  end.

(** The words 16 to 79, each from the words before it. *)
Fixpoint expand (count : nat) (words : list Z) : list Z :=
  match count with
  | O => words
  | S count =>
      let i := length words in
      let at_ k := default 0 (words !! (i - k)%nat) in
      expand count (words ++ [rotate_left (Z.lxor (Z.lxor (Z.lxor (at_ 3%nat) (at_ 8%nat)) (at_ 14%nat)) (at_ 16%nat)) 1])
  end.

Record Sha := mkSha { sa : Z; sb : Z; sc : Z; sd : Z; se : Z }.

Definition sha_round (index : nat) (word : Z) (s : Sha) : Sha :=
  let '(mix, constant) :=
    if bool_decide (index <= 19)%nat then (Z.lor (Z.land (sb s) (sc s)) (Z.land (u32_not (sb s)) (sd s)), 0x5A827999)
    else if bool_decide (index <= 39)%nat then (Z.lxor (Z.lxor (sb s) (sc s)) (sd s), 0x6ED9EBA1)
    else if bool_decide (index <= 59)%nat then
      (Z.lor (Z.lor (Z.land (sb s) (sc s)) (Z.land (sb s) (sd s))) (Z.land (sc s) (sd s)), 0x8F1BBCDC)
    else (Z.lxor (Z.lxor (sb s) (sc s)) (sd s), 0xCA62C1D6) in
  mkSha (u32_add (u32_add (u32_add (u32_add (rotate_left (sa s) 5) mix) (se s)) constant) word)
    (sa s) (rotate_left (sb s) 30) (sc s) (sd s).

Fixpoint sha_rounds (index : nat) (words : list Z) (s : Sha) : Sha :=
  match words with [] => s | word :: words => sha_rounds (S index) words (sha_round index word s) end.

Definition sha_block (s : Sha) (block : list Z) : Sha :=
  let words := expand 64 (from_be_bytes <$> chunks_exact 16 4 block) in
  let t := sha_rounds 0 words s in
  mkSha (u32_add (sa s) (sa t)) (u32_add (sb s) (sb t)) (u32_add (sc s) (sc t)) (u32_add (sd s) (sd t))
    (u32_add (se s) (se t)).

Definition sha1 (input : list Z) : list Z :=
  let padded := sha1_padded input in
  let s := foldl sha_block (mkSha 0x67452301 0xEFCDAB89 0x98BADCFE 0x10325476 0xC3D2E1F0)
             (chunks_exact (length padded) 64 padded) in
  [sa s; sb s; sc s; sd s; se s] ≫= to_be_bytes 4.

Definition HANDSHAKE_GUID : string := "258EAFA5-E914-47DA-95CA-C5AB0DC85B11".

(** With the base64 encoder of the [base64] package. *)
Definition accept_key (base64 : list Z -> string) (key : list Z) : string :=
  base64 (sha1 (trim_bytes key ++ bytes_of HANDSHAKE_GUID)).

(** ** What a client sends

    The client half of RFC 6455: a masked frame, and the frames of a sequence of
    messages in fragments with control frames anywhere between them. *)

Record ClientFrame := mkClientFrame { cf_frame : Frame; cf_mask : list Z }.

(** The length of a masked payload. *)
Definition length_part (n : Z) : list Z :=
  if bool_decide (n <= 125) then [128 + n]
  else if bool_decide (n <= 65535) then 254 :: to_be_bytes 2 n else 255 :: to_be_bytes 8 n.

Definition client_bytes (f : ClientFrame) : list Z :=
  let p := payload (cf_frame f) in
  (if finished (cf_frame f) then 128 else 0) + opcode (cf_frame f) ::
  length_part (Z.of_nat (length p)) ++ cf_mask f ++ unmask (cf_mask f) p.

Definition frame_ok (f : ClientFrame) : Prop :=
  length (cf_mask f) = 4%nat /\ Z.of_nat (length (payload (cf_frame f))) < u64_modulus.

Definition control_answer (f : Frame) : option Incoming :=
  if bool_decide (opcode f = OPCODE_PING) then Some (Ping (payload f))
  else if bool_decide (opcode f = OPCODE_PONG) then Some Pong
  else if bool_decide (opcode f = OPCODE_CLOSE) then Some Close else None.

Definition buffered (p : option (list Z)) : Z := match p with Some p => Z.of_nat (length p) | None => 0 end.

(** [sends max p b fs messages]: after the fragments [p] of a message, binary if
    [b], the frames [fs] carry [messages] and end with none unfinished. *)
Inductive sends (max : Z) : option (list Z) -> bool -> list ClientFrame -> list Incoming -> Prop :=
| sends_end b : sends max None b [] []
| sends_control p b f fs incoming ms :
    control_answer (cf_frame f) = Some incoming -> finished (cf_frame f) = true ->
    Z.of_nat (length (payload (cf_frame f))) <= MAX_CONTROL_PAYLOAD_BYTES ->
    buffered p + Z.of_nat (length (payload (cf_frame f))) <= max ->
    frame_ok f -> sends max p b fs ms -> sends max p b (f :: fs) (incoming :: ms)
| sends_start b f fs ms :
    opcode (cf_frame f) = OPCODE_TEXT \/ opcode (cf_frame f) = OPCODE_BINARY ->
    finished (cf_frame f) = false -> Z.of_nat (length (payload (cf_frame f))) <= max -> frame_ok f ->
    sends max (Some (payload (cf_frame f))) (bool_decide (opcode (cf_frame f) = OPCODE_BINARY)) fs ms ->
    sends max None b (f :: fs) ms
| sends_whole b f fs ms incoming :
    opcode (cf_frame f) = OPCODE_TEXT \/ opcode (cf_frame f) = OPCODE_BINARY ->
    finished (cf_frame f) = true -> Z.of_nat (length (payload (cf_frame f))) <= max -> frame_ok f ->
    message (bool_decide (opcode (cf_frame f) = OPCODE_BINARY)) (payload (cf_frame f)) = Ok incoming ->
    sends max None (bool_decide (opcode (cf_frame f) = OPCODE_BINARY)) fs ms ->
    sends max None b (f :: fs) (incoming :: ms)
| sends_more p b f fs ms :
    opcode (cf_frame f) = OPCODE_CONTINUATION -> finished (cf_frame f) = false ->
    Z.of_nat (length p) + Z.of_nat (length (payload (cf_frame f))) <= max -> frame_ok f ->
    sends max (Some (p ++ payload (cf_frame f))) b fs ms -> sends max (Some p) b (f :: fs) ms
| sends_last p b f fs ms incoming :
    opcode (cf_frame f) = OPCODE_CONTINUATION -> finished (cf_frame f) = true ->
    Z.of_nat (length p) + Z.of_nat (length (payload (cf_frame f))) <= max -> frame_ok f ->
    message b (p ++ payload (cf_frame f)) = Ok incoming ->
    sends max None b fs ms -> sends max (Some p) b (f :: fs) (incoming :: ms).

(** The answers of repeated reads. *)
Inductive reads : MessageReader -> list Incoming -> MessageReader -> Prop :=
| reads_none r : reads r [] r
| reads_one r incoming r' ms r'' : read r = Ok (incoming, r') -> reads r' ms r'' -> reads r (incoming :: ms) r''.

(** ** Lemmas *)

Lemma to_be_bytes_length width n : length (to_be_bytes width n) = width.
Proof. induction width; cbn; congruence. Qed.

Lemma from_to_be width n acc :
  foldl (fun acc b => acc * 256 + b) acc (to_be_bytes width n) =
  acc * 256 ^ Z.of_nat width + n mod 256 ^ Z.of_nat width.
Proof.
  revert acc. induction width as [|width IH]; intros acc.
  - cbn. rewrite Z.mod_1_r. lia.
  - cbn [to_be_bytes foldl]. rewrite IH. rewrite Nat2Z.inj_succ, Z.pow_succ_r by lia.
    set (m := 256 ^ Z.of_nat width). assert (0 < m) by (apply Z.pow_pos_nonneg; lia).
    rewrite (Z.mul_comm 256 m), Z.rem_mul_r by lia. ring.
Qed.

Lemma from_to_be_small width n : 0 <= n < 256 ^ Z.of_nat width -> from_be_bytes (to_be_bytes width n) = n.
Proof. intros Hn. unfold from_be_bytes. rewrite from_to_be, Z.mod_small; lia. Qed.

Lemma read_exact_app n l rest : length l = n -> read_exact n (l ++ rest) = Ok (l, rest).
Proof.
  intros <-. unfold read_exact. rewrite bool_decide_eq_true_2 by (rewrite length_app; lia).
  by rewrite take_app_length, drop_app_length.
Qed.

Lemma unmask_length mask p : length (unmask mask p) = length p.
Proof. apply length_imap. Qed.

Lemma unmask_twice mask p : unmask mask (unmask mask p) = p.
Proof.
  unfold unmask. apply list_eq. intros i. rewrite !list_lookup_imap. destruct (p !! i) as [b|]; [|done].
  cbn. f_equal. by rewrite Z.lxor_assoc, Z.lxor_nilpotent, Z.lxor_0_r.
Qed.

(** The two bytes of a header, for the opcodes and lengths a client writes. *)
Lemma header_bits (fin : bool) (op : Z) :
  op ∈ [0; 1; 2; 8; 9; 10] ->
  let h := (if fin then 128 else 0) + op in
  Z.land h 112 = 0 /\ negb (bool_decide (Z.land h 128 = 0)) = fin /\ Z.land h 15 = op.
Proof.
  intros Hop. cbv zeta. repeat (apply elem_of_cons in Hop as [->|Hop]; [by destruct fin|]). by apply elem_of_nil in Hop.
Qed.

Lemma length_bits n : 0 <= n <= 127 -> Z.land (128 + n) 128 <> 0 /\ Z.land (128 + n) 127 = n.
Proof.
  intros Hn. assert (Forall (fun n => Z.land (128 + n) 128 <> 0 /\ Z.land (128 + n) 127 = n) (Z.of_nat <$> seq 0 128)) as H.
  { apply (bool_decide_unpack _). vm_compute. exact I. }
  rewrite Forall_forall in H. apply H. apply list_elem_of_fmap. exists (Z.to_nat n). split; [lia|].
  apply elem_of_seq. lia.
Qed.

Lemma length_part_ok n rest :
  0 <= n < u64_modulus ->
  exists h1 ext, length_part n = h1 :: ext /\ Z.land h1 128 <> 0 /\
    payload_length (Z.land h1 127) (ext ++ rest) = Ok (n, rest).
Proof.
  intros Hn. unfold length_part. split_test; [|split_test].
  - exists (128 + n), []. destruct (length_bits n) as [H1 H2]; [lia|]. split; [done|]. split; [done|].
    unfold payload_length. rewrite H2. by rewrite !bool_decide_eq_false_2 by lia.
  - exists 254, (to_be_bytes 2 n). split; [done|]. split; [done|]. change (Z.land 254 127) with 126.
    unfold payload_length. rewrite bool_decide_eq_true_2 by done.
    rewrite read_exact_app by apply to_be_bytes_length. cbn [result_bind fst snd].
    by rewrite from_to_be_small by (cbn; lia).
  - exists 255, (to_be_bytes 8 n). split; [done|]. split; [done|]. change (Z.land 255 127) with 127.
    unfold payload_length. rewrite bool_decide_eq_false_2, bool_decide_eq_true_2 by done.
    rewrite read_exact_app by apply to_be_bytes_length. cbn [result_bind fst snd].
    by rewrite from_to_be_small by (unfold u64_modulus in Hn; cbn; lia).
Qed.

Definition control_ok (f : Frame) : Prop :=
  Z.land (opcode f) 8 <> 0 -> finished f = true /\ Z.of_nat (length (payload f)) <= MAX_CONTROL_PAYLOAD_BYTES.

(** The loop takes off the stream the frame the client wrote. *)
Lemma next_frame_client f rest max p b :
  frame_ok f -> opcode (cf_frame f) ∈ [0; 1; 2; 8; 9; 10] -> control_ok (cf_frame f) ->
  buffered p + Z.of_nat (length (payload (cf_frame f))) <= max ->
  next_frame (mkReader (client_bytes f ++ rest) max p b) = Ok (cf_frame f, rest).
Proof.
  intros [Hmask Hlen] Hop Hctl Hmax. destruct (header_bits (finished (cf_frame f)) _ Hop) as (H1 & H2 & H3).
  set (n := Z.of_nat (length (payload (cf_frame f)))) in *.
  destruct (length_part_ok n ((cf_mask f ++ unmask (cf_mask f) (payload (cf_frame f))) ++ rest))
    as (h1 & ext & E & Hh & Hpl); [lia|].
  unfold client_bytes, next_frame. fold n. rewrite E. cbn [reader app].
  set (h0 := (if finished (cf_frame f) then 128 else 0) + opcode (cf_frame f)) in *.
  change (read_exact 2 (h0 :: h1 :: (ext ++ cf_mask f ++ unmask (cf_mask f) (payload (cf_frame f))) ++ rest))
    with (read_exact 2 ([h0; h1] ++ (ext ++ cf_mask f ++ unmask (cf_mask f) (payload (cf_frame f))) ++ rest)).
  rewrite read_exact_app by done. cbn [result_bind fst snd lookup list_lookup default].
  unfold id.
  rewrite H1, H2, H3. rewrite (bool_decide_eq_true_2 (0 = 0)) by done. cbn [negb].
  rewrite (bool_decide_eq_false_2 (Z.land h1 128 = 0)) by done. rewrite <- app_assoc, Hpl. cbn [result_bind fst snd].
  assert (negb (bool_decide (Z.land (opcode (cf_frame f)) 8 = 0)) &&
          (negb (finished (cf_frame f)) || bool_decide (MAX_CONTROL_PAYLOAD_BYTES < n)) = false) as ->.
  { split_test; [done|]. destruct (Hctl n0) as [-> Hc]. cbn. apply bool_decide_eq_false. unfold n. lia. }
  cbn [partial max_message_bytes]. fold (buffered p). rewrite bool_decide_eq_false_2
    by (unfold u64_saturating_sub; lia).
  rewrite <- app_assoc, read_exact_app by done. cbn [result_bind fst snd].
  unfold n. rewrite Nat2Z.id, read_exact_app by apply unmask_length. cbn [result_bind fst snd].
  rewrite unmask_twice. by destruct (cf_frame f).
Qed.

(** ** The loop ends *)

Lemma read_exact_ok n l r : read_exact n l = Ok r -> l = r.1 ++ r.2 /\ length r.1 = n.
Proof.
  unfold read_exact. split_test; [|done]. intros [= <-]. cbn. by rewrite take_drop, length_take_le by lia.
Qed.

Lemma read_exact_err n l e : read_exact n l = Err e -> e = EndOfStream.
Proof. unfold read_exact. split_test; congruence. Qed.

Lemma payload_length_ok short l r : payload_length short l = Ok r -> (length r.2 <= length l)%nat.
Proof.
  unfold payload_length. split_test; [|split_test].
  - intros (x & Hx & [= <-])%result_bind_ok. apply read_exact_ok in Hx as [-> _]. rewrite length_app. cbn. lia.
  - intros (x & Hx & [= <-])%result_bind_ok. apply read_exact_ok in Hx as [-> _]. rewrite length_app. cbn. lia.
  - by intros [= <-].
Qed.

Lemma payload_length_err short l e : payload_length short l = Err e -> e = EndOfStream.
Proof.
  unfold payload_length. split_test; [|split_test; [|done]];
    (destruct (read_exact _ l) as [r|e'] eqn:E; cbn; [done|]; intros [= <-]; by apply read_exact_err in E).
Qed.

(** A frame takes the two bytes of its header at least, and fits beside what is
    held of its message. *)
Lemma next_frame_ok r f rest :
  next_frame r = Ok (f, rest) ->
  (length rest < length (reader r))%nat /\
  Z.of_nat (length (payload f)) <= u64_saturating_sub (max_message_bytes r) (buffered (partial r)).
Proof.
  unfold next_frame. intros (h & Hh & Hf)%result_bind_ok. apply read_exact_ok in Hh as [-> Hh].
  destruct (negb _); [done|]. split_test; [done|]. apply result_bind_ok in Hf as (l & Hl & Hf).
  apply payload_length_ok in Hl. destruct (_ && _); [done|]. fold (buffered (partial r)) in Hf. split_test; [done|].
  apply result_bind_ok in Hf as (m & Hm & Hf). apply result_bind_ok in Hf as (q & Hq & [= <- <-]).
  apply read_exact_ok in Hm as [Hm _]. apply read_exact_ok in Hq as [Hq Hn]. cbn [payload].
  rewrite unmask_length, Hn. rewrite length_app, Hh. rewrite Hm, length_app, Hq, length_app in Hl.
  unfold u64_saturating_sub in *. split; lia.
Qed.

Lemma next_frame_err r e : next_frame r = Err e -> e <> OutOfFuel.
Proof.
  unfold next_frame. destruct (read_exact 2 _) as [h|e0] eqn:E; cbn [result_bind].
  2:{ intros [= <-]. apply read_exact_err in E. by subst. }
  destruct (negb _); [by intros [= <-]|]. split_test; [by intros [= <-]|].
  destruct (payload_length _ _) as [l|e0] eqn:El; cbn [result_bind].
  2:{ intros [= <-]. apply payload_length_err in El. by subst. }
  destruct (_ && _); [by intros [= <-]|]. split_test; [by intros [= <-]|].
  destruct (read_exact 4 _) as [m|e0] eqn:Em; cbn [result_bind].
  2:{ intros [= <-]. apply read_exact_err in Em. by subst. }
  destruct (read_exact _ m.2) as [q|e0] eqn:Eq; cbn [result_bind]; [done|].
  intros [= <-]. apply read_exact_err in Eq. by subst.
Qed.

Lemma take_frame_err f p b e : take_frame f p b = Err e -> e <> OutOfFuel.
Proof.
  unfold take_frame. repeat (split_test; [done|]). destruct (_ && negb _); [done|]. split_test; [|by intros [= <-]].
  destruct p; [done|]. by intros [= <-].
Qed.

Lemma message_err b p e : message b p = Err e -> e <> OutOfFuel.
Proof. unfold message. destruct b; [done|]. destruct (valid_utf8 p); [done|]. by intros [= <-]. Qed.

Lemma read_loop_fuel fuel fuel' r :
  (length (reader r) < fuel)%nat -> (length (reader r) < fuel')%nat ->
  read_loop fuel r = read_loop fuel' r /\ read_loop fuel r <> Err OutOfFuel.
Proof.
  revert fuel' r. induction fuel as [|fuel IH]; intros fuel' r Hf Hf'; [lia|]. destruct fuel' as [|fuel']; [lia|].
  cbn [read_loop]. destruct (next_frame r) as [[f rest]|e] eqn:En; cbn [result_bind fst snd].
  2:{ split; [done|]. intros [= ->]. by eapply next_frame_err. }
  destruct (take_frame f (partial r) (binary r)) as [t|e] eqn:Et; cbn [result_bind].
  2:{ split; [done|]. intros [= ->]. by eapply take_frame_err. }
  destruct t as [incoming|p b]; [done|]. destruct (finished f).
  - split; [done|]. destruct (message b p) eqn:Em; cbn; [done|]. intros [= ->]. by eapply message_err.
  - apply next_frame_ok in En as [Hn _]. apply IH; cbn [reader]; lia.
Qed.

(** Reading always ends: a message, a control frame, or an error. *)
Theorem read_terminates r : read r <> Err OutOfFuel.
Proof. apply (read_loop_fuel _ (S (length (reader r)))); lia. Qed.

(** ** Sizes *)

Definition incoming_size (i : Incoming) : Z :=
  match i with Text b | Binary b | Ping b => Z.of_nat (length b) | Pong | Close => 0 end.

Lemma take_frame_size f p b t :
  take_frame f p b = Ok t ->
  match t with
  | Answer i => incoming_size i <= Z.of_nat (length (payload f))
  | Held q _ => Z.of_nat (length q) <= buffered p + Z.of_nat (length (payload f))
  end.
Proof.
  unfold take_frame. split_test; [by intros [= <-]; cbn|]. split_test; [intros [= <-]; cbn; lia|].
  split_test; [intros [= <-]; cbn; lia|]. destruct (_ && negb _) eqn:E.
  { intros [= <-]. apply andb_true_iff in E as [_ E]. destruct p; [done|]. cbn. lia. }
  split_test; [|done]. destruct p as [q|]; [|done]. intros [= <-]. cbn. rewrite length_app. lia.
Qed.

Lemma read_loop_size fuel r incoming r' :
  read_loop fuel r = Ok (incoming, r') -> 0 <= buffered (partial r) <= max_message_bytes r ->
  incoming_size incoming <= max_message_bytes r /\
  max_message_bytes r' = max_message_bytes r /\ 0 <= buffered (partial r') <= max_message_bytes r.
Proof.
  revert r. induction fuel as [|fuel IH]; intros r; cbn [read_loop]; [done|].
  intros ([f rest] & Hf & H)%result_bind_ok Hb. apply result_bind_ok in H as (t & Ht & H).
  apply next_frame_ok in Hf as [_ Hs]. apply take_frame_size in Ht. cbn [fst snd] in *.
  unfold u64_saturating_sub in Hs. destruct t as [i|q b].
  - injection H as <- <-. cbn. lia.
  - destruct (finished f).
    + apply result_bind_ok in H as (i & Hi & [= <- <-]). cbn. split; [|lia].
      unfold message in Hi. destruct b; [injection Hi as <-; cbn; lia|].
      destruct (valid_utf8 q); [|done]. injection Hi as <-. cbn. lia.
    + apply IH in H; cbn in *; lia.
Qed.

(** Memory is bounded: a message that is returned, and the fragments held of
    one that is not complete, never exceed the limit of the reader. *)
Theorem messages_are_bounded r incoming r' :
  read r = Ok (incoming, r') -> 0 <= buffered (partial r) <= max_message_bytes r ->
  incoming_size incoming <= max_message_bytes r /\
  max_message_bytes r' = max_message_bytes r /\ 0 <= buffered (partial r') <= max_message_bytes r.
Proof. apply read_loop_size. Qed.

(** ** Messages come through *)

Lemma control_frames f incoming : control_answer f = Some incoming ->
  opcode f ∈ [0; 1; 2; 8; 9; 10] /\ forall p b, take_frame f p b = Ok (Answer incoming).
Proof.
  unfold control_answer, take_frame. split_test; [|split_test; [|split_test; [|done]]]; intros [= <-]; (split; [|done]);
    rewrite e; cbv; set_solver.
Qed.

Lemma data_frame f :
  opcode f = OPCODE_TEXT \/ opcode f = OPCODE_BINARY ->
  opcode f ∈ [0; 1; 2; 8; 9; 10] /\ control_ok f /\
  forall b, take_frame f None b = Ok (Held (payload f) (bool_decide (opcode f = OPCODE_BINARY))).
Proof. intros [E|E]; unfold control_ok, take_frame; rewrite E; (split; [cbv; set_solver|]); by split. Qed.

Lemma more_frame f p b :
  opcode f = OPCODE_CONTINUATION ->
  opcode f ∈ [0; 1; 2; 8; 9; 10] /\ control_ok f /\ take_frame f (Some p) b = Ok (Held (p ++ payload f) b).
Proof. intros E. unfold control_ok, take_frame. rewrite E. split; [cbv; set_solver|]. by split. Qed.

(** A read that does not answer goes on with the frames after it. *)
Lemma read_step f rest max p b :
  next_frame (mkReader (client_bytes f ++ rest) max p b) = Ok (cf_frame f, rest) ->
  read (mkReader (client_bytes f ++ rest) max p b) =
    (let? t := take_frame (cf_frame f) p b in
     match t with
     | Answer incoming => Ok (incoming, mkReader rest max p b)
     | Held q c =>
         if finished (cf_frame f) then let? incoming := message c q in Ok (incoming, mkReader rest max None c)
         else read (mkReader rest max (Some q) c)
     end).
Proof.
  intros Hn. unfold read at 1. cbn [read_loop]. rewrite Hn. cbn [result_bind fst snd partial binary max_message_bytes].
  destruct (take_frame _ p b) as [[i|q c]|e]; cbn [result_bind]; [done| |done].
  destruct (finished (cf_frame f)); [done|]. apply next_frame_ok in Hn as [Hn _]. cbn [reader] in Hn.
  apply read_loop_fuel; cbn [reader]; lia.
Qed.

Lemma reads_step r r' ms r'' : read r = read r' -> ms <> [] -> reads r' ms r'' -> reads r ms r''.
Proof. intros E Hne Hr. destruct Hr as [|r' i r1 ms r2 H1 H2]; [done|]. econstructor; [by rewrite E|done]. Qed.

(** A message in progress is still to come. *)
Lemma sends_pending max p b fs ms : sends max (Some p) b fs ms -> ms <> [].
Proof. remember (Some p) as q eqn:E. intros H. revert p E. induction H; intros q' E; try done. by eapply IHsends. Qed.

Lemma frames_read_from max p b fs ms rest :
  sends max p b fs ms ->
  exists b', reads (mkReader (concat (client_bytes <$> fs) ++ rest) max p b) ms (mkReader rest max None b').
Proof.
  intros Hs.
  induction Hs as [b|p b f fs i ms Hi Hfin Hlen Hmax Hok _ IH|b f fs ms Hop Hfin Hmax Hok Hs IH
                  |b f fs ms i Hop Hfin Hmax Hok Hm _ IH|p b f fs ms Hop Hfin Hmax Hok Hs IH
                  |p b f fs ms i Hop Hfin Hmax Hok Hm _ IH];
    [eexists; constructor|..]; destruct IH as [b' IH]; exists b'; cbn [fmap list_fmap concat]; rewrite <- app_assoc.
  - apply control_frames in Hi as [Hop Ht].
    assert (control_ok (cf_frame f)) as Hc by (by intros _). econstructor; [|exact IH].
    rewrite read_step by by apply next_frame_client. by rewrite Ht.
  - apply data_frame in Hop as (Hop & Hc & Ht). eapply reads_step; [|by eapply sends_pending|exact IH].
    rewrite read_step by by apply next_frame_client. by rewrite Ht, Hfin.
  - apply data_frame in Hop as (Hop & Hc & Ht). econstructor; [|exact IH].
    rewrite read_step by by apply next_frame_client. rewrite Ht, Hfin. cbn [result_bind]. by rewrite Hm.
  - destruct (more_frame _ p b Hop) as (Hop' & Hc & Ht). eapply reads_step; [|by eapply sends_pending|exact IH].
    rewrite read_step by by apply next_frame_client. by rewrite Ht, Hfin.
  - destruct (more_frame _ p b Hop) as (Hop' & Hc & Ht). econstructor; [|exact IH].
    rewrite read_step by by apply next_frame_client. rewrite Ht, Hfin. cbn [result_bind]. by rewrite Hm.
Qed.

(** C25. A client's frames are read as the messages they carry: however a message
    is cut into fragments, with whatever masks and control frames between them,
    repeated reads give the messages and control frames in order, and what comes
    after them on the stream is still there. *)
Theorem frames_are_read_back max fs ms rest :
  sends max None false fs ms ->
  exists b, reads (mkReader (concat (client_bytes <$> fs) ++ rest) max None false) ms (mkReader rest max None b).
Proof. apply frames_read_from. Qed.

(** What the server writes has the length of its payload before it, unmasked. *)
Theorem server_frame_has_length op payload :
  0 <= op < 16 -> Z.of_nat (length payload) < u64_modulus ->
  exists h1 ext, write_frame op payload = Z.lor 128 op :: h1 :: ext ++ payload /\ 0 <= h1 < 128 /\
    payload_length h1 (ext ++ payload) = Ok (Z.of_nat (length payload), payload).
Proof.
  intros Hop Hlen. unfold write_frame. set (n := Z.of_nat (length payload)) in *.
  assert (0 <= n) by lia. split_test; [|split_test].
  - exists (n mod 256), []. rewrite Z.mod_small by lia. split; [done|]. split; [lia|].
    unfold payload_length. by rewrite !bool_decide_eq_false_2 by lia.
  - exists 126, (to_be_bytes 2 n). rewrite Z.mod_small by lia. split; [done|]. split; [lia|].
    unfold payload_length. rewrite bool_decide_eq_true_2 by done. rewrite read_exact_app by apply to_be_bytes_length.
    cbn [result_bind fst snd]. by rewrite from_to_be_small by (cbn; lia).
  - exists 127, (to_be_bytes 8 n). split; [done|]. split; [lia|].
    unfold payload_length. rewrite bool_decide_eq_false_2, bool_decide_eq_true_2 by done.
    rewrite read_exact_app by apply to_be_bytes_length. cbn [result_bind fst snd].
    by rewrite from_to_be_small by (unfold u64_modulus in *; cbn; lia).
Qed.

(** ** Instances *)

Module SocketWitness.

Definition mask : list Z := [1; 2; 3; 4].

(** A text in two fragments with a ping between them, then a binary message. *)
Definition frames : list ClientFrame :=
  [mkClientFrame (mkFrame false OPCODE_TEXT (bytes_of "hel")) mask;
   mkClientFrame (mkFrame true OPCODE_PING [7]) mask;
   mkClientFrame (mkFrame true OPCODE_CONTINUATION (bytes_of "lo")) mask;
   mkClientFrame (mkFrame true OPCODE_BINARY [0; 255]) mask].
Definition messages : list Incoming := [Ping [7]; Text (bytes_of "hello"); Binary [0; 255]].

Lemma frames_sent : sends 100 None false frames messages.
Proof.
  assert (Forall frame_ok frames) as Hok by (unfold frames; repeat constructor).
  unfold frames in Hok. repeat (apply Forall_cons in Hok as [? Hok]).
  apply sends_start; [by left|done|by vm_compute|done|].
  apply sends_control; [done|done|by vm_compute|by vm_compute|done|].
  apply sends_last; [done|done|by vm_compute|done|by vm_compute|].
  apply sends_whole; [by right|done|by vm_compute|done|done|]. apply sends_end.
Qed.

Lemma frames_are_read_back_witness :
  exists b, reads (mkReader (concat (client_bytes <$> frames) ++ [9; 9]) 100 None false) messages (mkReader [9; 9] 100 None b).
Proof. exact (frames_are_read_back 100 frames messages [9; 9] frames_sent). Defined.

Definition first_reader : MessageReader := mkReader (concat (client_bytes <$> frames)) 100 None false.
Definition second_reader : MessageReader :=
  mkReader (concat (client_bytes <$> drop 2 frames)) 100 (Some (bytes_of "hel")) false.

Lemma first_read : read first_reader = Ok (Ping [7], second_reader).
Proof. vm_compute. reflexivity. Qed.

Lemma messages_are_bounded_witness :
  incoming_size (Ping [7]) <= 100 /\ max_message_bytes second_reader = 100 /\ 0 <= buffered (partial second_reader) <= 100.
Proof. apply (messages_are_bounded first_reader (Ping [7]) second_reader first_read). vm_compute. done. Defined.

Lemma server_frame_has_length_witness :
  exists h1 ext, write_frame OPCODE_TEXT (bytes_of "hello") = Z.lor 128 OPCODE_TEXT :: h1 :: ext ++ bytes_of "hello" /\
    0 <= h1 < 128 /\ payload_length h1 (ext ++ bytes_of "hello") = Ok (Z.of_nat (length (bytes_of "hello")), bytes_of "hello").
Proof. apply (server_frame_has_length OPCODE_TEXT (bytes_of "hello")); by vm_compute. Defined.

(** The digest of the example of RFC 6455, and a frame without a mask. *)
Example sample_digest :
  hex (sha1 (bytes_of "dGhlIHNhbXBsZSBub25jZQ==" ++ bytes_of HANDSHAKE_GUID)) =
  "b37a4f2cc0624f1690f64606cf385945b2bec4ea"%string.
Proof. vm_compute. reflexivity. Qed.

Example unmasked_frame_is_refused :
  read (mkReader (write_text (bytes_of "hello")) 100 None false) = Err (Violation "client frame is not masked").
Proof. vm_compute. reflexivity. Qed.
End SocketWitness.
