(* ===== verification/Uploads.v ===== *)
(** * Uploads and event streams of the HTTP edge

    - [Module Reliable]: [local_http/reliable_upload_chunks.rs], a frame of a
      resumable session that arrives in chunks and is put together in memory;
    - [Module Files]: [local_http/file_upload.rs], a file that arrives in chunks
      and is put together in a temporary file, with the name it is given;
    - [Module Streams]: [local_http/event_streams.rs], which event stream of a
      connection is the current one.

    Every operation holds its registry's mutex.  Times are in milliseconds; the
    age at which an upload is dropped is five minutes. *)

From stdpp Require Import pretty.
From S2P Require Import Prelude Records Pairing.
Local Open Scope Z_scope.

Definition STALE_UPLOAD_AGE : Z := 5 * 60 * 1000.

(** ** Frames in memory *)

Module Reliable.

Definition MAX_CHUNK_BYTES : Z := 512 * 1024.
Definition MAX_UPLOAD_BYTES : Z := 128 * 1024 * 1024.

Record PendingUpload := mkPending { total_size : Z; bytes : list Z; last_activity : Z }.
Abbreviation Key := (string * Z)%type.
Abbreviation Registry := (gmap Key PendingUpload).

Inductive AppendOutcome := Partial | Complete (text : list Z).
Inductive AppendError :=
| InvalidChunk | ChunkTooLarge | UploadTooLarge | MetadataMismatch | OffsetMismatch | InvalidUtf8 | StateUnavailable.

Definition fresh (now : Z) (uploads : Registry) : Registry :=
  filter (fun e => now - last_activity e.2 < STALE_UPLOAD_AGE) uploads.

Definition append (session_id : string) (sequence offset total : Z) (chunk : list Z) (now : Z) (uploads : Registry)
  : result AppendOutcome AppendError * Registry :=
  let size := Z.of_nat (length chunk) in
  if bool_decide (chunk = []) || bool_decide (total < offset) || bool_decide (total - offset < size)
  then (Err InvalidChunk, uploads)
  else if bool_decide (MAX_CHUNK_BYTES < size) then (Err ChunkTooLarge, uploads)
  else if bool_decide (MAX_UPLOAD_BYTES < total) then (Err UploadTooLarge, uploads)
  else
    let key := (session_id, sequence) in
    let uploads := fresh now uploads in
    let uploads := if bool_decide (offset = 0) then <[key := mkPending total [] now]> uploads else uploads in
    match uploads !! key with
    | None => (Err OffsetMismatch, uploads)
    | Some upload =>
        if negb (bool_decide (total_size upload = total)) then (Err MetadataMismatch, uploads)
        else if negb (bool_decide (Z.of_nat (length (bytes upload)) = offset)) then (Err OffsetMismatch, uploads)
        else
          let joined := bytes upload ++ chunk in
          if bool_decide (Z.of_nat (length joined) < total)
          then (Ok Partial, <[key := mkPending total joined now]> uploads)
          else (if valid_utf8 joined then Ok (Complete joined) else Err InvalidUtf8, delete key uploads)
    end.

(** A call and its answer. *)
Record Call := mkCall { c_key : Key; c_offset : Z; c_total : Z; c_chunk : list Z; c_now : Z }.

Definition apply (c : Call) (uploads : Registry) : result AppendOutcome AppendError * Registry :=
  append (c_key c).1 (c_key c).2 (c_offset c) (c_total c) (c_chunk c) (c_now c) uploads.

Inductive run : list (Call * result AppendOutcome AppendError) -> Registry -> Prop :=
| run_start : run [] ∅
| run_call trace uploads c :
    run trace uploads -> run (trace ++ [(c, (apply c uploads).1)]) (apply c uploads).2.

(** The bytes a caller has had accepted for a frame since it last began it. *)
Definition accept (key : Key) (so_far : list Z) (e : Call * result AppendOutcome AppendError) : list Z :=
  match e with
  | (c, Ok Partial) => if bool_decide (c_key c = key)
                       then (if bool_decide (c_offset c = 0) then [] else so_far) ++ c_chunk c else so_far
  | _ => so_far
  end.
Definition accepted (key : Key) (trace : list (Call * result AppendOutcome AppendError)) : list Z :=
  foldl (accept key) [] trace.

(** An upload in the registry is what its caller had accepted, not yet complete. *)
Definition registry_ok (trace : list (Call * result AppendOutcome AppendError)) (uploads : Registry) : Prop :=
  forall key u, uploads !! key = Some u ->
    bytes u = accepted key trace /\ Z.of_nat (length (bytes u)) < total_size u.

Lemma frame_accept_other key so_far c r : c_key c <> key -> accept key so_far (c, r) = so_far.
Proof. intros Hn. unfold accept. destruct r as [[]|]; [|done|done]. by rewrite bool_decide_eq_false_2. Qed.

Lemma frame_accepted_snoc key trace e : accepted key (trace ++ [e]) = accept key (accepted key trace) e.
Proof. unfold accepted. by rewrite foldl_snoc. Qed.

Lemma accept_refused key so_far c e : accept key so_far (c, Err e) = so_far.
Proof. done. Qed.

(** What the call finds under its key, once the stale uploads are gone. *)
Definition found (c : Call) (uploads : Registry) : Registry :=
  let uploads := fresh (c_now c) uploads in
  if bool_decide (c_offset c = 0) then <[c_key c := mkPending (c_total c) [] (c_now c)]> uploads else uploads.

Lemma fresh_sub now uploads key u : fresh now uploads !! key = Some u -> uploads !! key = Some u.
Proof. intros [H _]%map_lookup_filter_Some. done. Qed.

Lemma found_ok trace uploads c key u :
  registry_ok trace uploads -> (c_offset c = 0 -> 0 < c_total c) -> found c uploads !! key = Some u ->
  bytes u = (if bool_decide (c_key c = key) && bool_decide (c_offset c = 0) then [] else accepted key trace) /\
  Z.of_nat (length (bytes u)) < total_size u.
Proof.
  intros Hok Hpos Hu. unfold found in Hu. destruct (bool_decide_reflect (c_offset c = 0)) as [Ho|Ho].
  - destruct (decide (c_key c = key)) as [<-|Hk].
    + rewrite lookup_insert_eq in Hu. injection Hu as <-. rewrite bool_decide_eq_true_2 by done. cbn. auto.
    + rewrite lookup_insert_ne in Hu by done. rewrite bool_decide_eq_false_2 by done. cbn.
      by eapply Hok, fresh_sub.
  - rewrite andb_false_r. by eapply Hok, fresh_sub.
Qed.

(** The cases of a call. *)
Lemma apply_cases c uploads :
  let r := apply c uploads in
  (exists e, r = (Err e, uploads)) \/
  (c_offset c = 0 -> 0 < c_total c) /\
  (c_offset c <> 0 /\ (exists e, r = (Err e, found c uploads)) \/
   exists u, found c uploads !! c_key c = Some u /\ total_size u = c_total c /\
    Z.of_nat (length (bytes u)) = c_offset c /\
    Z.of_nat (length (bytes u ++ c_chunk c)) <= c_total c /\
    r = if bool_decide (Z.of_nat (length (bytes u ++ c_chunk c)) < c_total c)
        then (Ok Partial, <[c_key c := mkPending (c_total c) (bytes u ++ c_chunk c) (c_now c)]> (found c uploads))
        else (if valid_utf8 (bytes u ++ c_chunk c) then Ok (Complete (bytes u ++ c_chunk c)) else Err InvalidUtf8,
              delete (c_key c) (found c uploads))).
Proof.
  cbv zeta. unfold apply, append. destruct (_ || _) eqn:Hbad; [left; by eexists|].
  apply orb_false_iff in Hbad as [[Hne%bool_decide_eq_false H1%bool_decide_eq_false]%orb_false_iff H2%bool_decide_eq_false].
  split_test; [left; by eexists|]. split_test; [left; by eexists|]. right.
  rewrite <- (surjective_pairing (c_key c)). fold (found c uploads).
  assert (0 < Z.of_nat (length (c_chunk c))) as Hpos by (destruct (c_chunk c); cbn; lia || done).
  split; [lia|].
  assert (c_offset c = 0 -> found c uploads !! c_key c = Some (mkPending (c_total c) [] (c_now c))) as Hzero.
  { intros E. unfold found. rewrite bool_decide_eq_true_2 by done. apply lookup_insert_eq. }
  destruct (found c uploads !! c_key c) as [u|] eqn:Hu; [|left; split; [intros E; by apply Hzero in E|by eexists]].
  destruct (bool_decide_reflect (total_size u = c_total c)) as [Ht|Ht]; cbn [negb].
  2:{ left. split; [|by eexists]. intros E. apply Ht. apply Hzero in E. by injection E as ->. }
  destruct (bool_decide_reflect (Z.of_nat (length (bytes u)) = c_offset c)) as [Ho|Ho]; cbn [negb].
  2:{ left. split; [|by eexists]. intros E. apply Ho. specialize (Hzero E). injection Hzero as ->. cbn. lia. }
  right. exists u. split_and!; try done. rewrite length_app. lia.
Qed.

Lemma apply_ok trace uploads c :
  registry_ok trace uploads -> registry_ok (trace ++ [(c, (apply c uploads).1)]) (apply c uploads).2.
Proof.
  intros Hok key u. rewrite frame_accepted_snoc.
  assert (forall r, found c uploads !! key = Some u -> (c_offset c = 0 -> 0 < c_total c) -> c_key c <> key ->
    bytes u = accept key (accepted key trace) (c, r) /\ Z.of_nat (length (bytes u)) < total_size u) as Hother.
  { intros r Hu Hp Hk. rewrite frame_accept_other by done. pose proof (found_ok trace uploads c key u Hok Hp Hu) as Hf.
    by rewrite bool_decide_eq_false_2 in Hf. }
  destruct (apply_cases c uploads) as [[e E]|[Hp [[Hoff [e E]]|(v & Hv & Ht & Ho & Hl & E)]]]; rewrite E; cbn [fst snd].
  - apply Hok.
  - rewrite accept_refused. intros Hu. pose proof (found_ok trace uploads c key u Hok Hp Hu) as Hf.
    by rewrite (bool_decide_eq_false_2 (c_offset c = 0)), andb_false_r in Hf.
  - split_test; cbn [fst snd].
    + destruct (decide (c_key c = key)) as [<-|Hk].
      * rewrite lookup_insert_eq. intros [= <-]. cbn [bytes total_size]. split; [|done]. cbn [accept].
        pose proof (found_ok trace uploads c _ v Hok Hp Hv) as [-> _].
        rewrite !(bool_decide_eq_true_2 (c_key c = c_key c)) by done. by split_test.
      * rewrite lookup_insert_ne by done. intros Hu. by apply Hother.
    + destruct (decide (c_key c = key)) as [<-|Hk]; [by rewrite lookup_delete_eq|].
      rewrite lookup_delete_ne by done. intros Hu. by apply Hother.
Qed.

Lemma run_ok trace uploads : run trace uploads -> registry_ok trace uploads.
Proof. induction 1; [done|]. by apply apply_ok. Qed.

(** A frame that arrives in chunks is put together exactly: in every
    execution of the registry, whatever other frames, restarts, repeated and
    refused chunks come between, a call that completes a frame returns the chunks
    its caller had accepted since the frame last began, in order, with this one,
    and they are as long as was announced and UTF-8. *)
Theorem completed_frame_is_exact trace uploads c text :
  run trace uploads -> (apply c uploads).1 = Ok (Complete text) ->
  text = (if bool_decide (c_offset c = 0) then [] else accepted (c_key c) trace) ++ c_chunk c /\
  Z.of_nat (length text) = c_total c /\ valid_utf8 text = true /\ (apply c uploads).2 !! c_key c = None.
Proof.
  intros Hr%run_ok. destruct (apply_cases c uploads) as [[e E]|[Hp [[_ [e E]]|(v & Hv & Ht & Ho & Hl & E)]]];
    rewrite E; [done..|]. split_test; [done|]. cbn [fst snd]. destruct (valid_utf8 _) eqn:Hu; [|done]. intros [= <-].
  pose proof (found_ok trace uploads c _ v Hr Hp Hv) as [Hb _]. rewrite bool_decide_eq_true_2 in Hb by done.
  split; [by rewrite Hb|]. split; [lia|]. split; [done|]. apply lookup_delete_eq.
Qed.
End Reliable.

(** ** Files *)

Module Files.

Definition MAX_UPLOAD_CHUNK_BYTES : Z := 512 * 1024.

(** *** Names *)

Definition MAX_FILE_NAME_CHARACTERS : nat := 160.

(** Less, greater, colon, quote, slash, backslash, bar, question mark and star. *)
Definition reserved : list Z := [60; 62; 58; 34; 47; 92; 124; 63; 42].
Definition is_separator (c : list Z) : bool := bool_decide (c ∈ [[47]; [92]]).

(** [rsplit(['/', '\\']).next()]: what follows the last separator. *)
Definition basename (cs : list (list Z)) : list (list Z) :=
  foldl (fun acc c => if is_separator c then [] else acc ++ [c]) [] cs.

Definition is_alphanumeric (c : list Z) : bool :=
  match c with [b] => between 48 57 b || between 65 90 b || between 97 122 b | _ => false end.

Definition sanitize (c : list Z) : list Z :=
  if is_control c || bool_decide (c ∈ (fun b => [b]) <$> reserved) then [95] else c.

(** [rsplit_once('.')] on characters, with the two filters of its callers. *)
Fixpoint rsplit_once (cs : list (list Z)) : option (list (list Z) * list (list Z)) :=
  match cs with
  | [] => None
  | c :: cs => match rsplit_once cs with
               | Some (stem, extension) => Some (c :: stem, extension)
               | None => if bool_decide (c = [46]) then Some ([], cs) else None
               end
  end.
Definition split_extension (limit : option nat) (cs : list (list Z)) : option (list (list Z) * list (list Z)) :=
  r ← rsplit_once cs;
  if bool_decide (r.1 = []) || bool_decide (r.2 = []) ||
     match limit with Some n => bool_decide (n < length r.2)%nat | None => false end
  then None else Some r.

Definition shorten_upload_file_name (cs : list (list Z)) : list (list Z) :=
  if bool_decide (length cs <= MAX_FILE_NAME_CHARACTERS)%nat then cs
  else
    let suffix := match split_extension (Some 16%nat) cs with Some (_, extension) => [46] :: extension | None => [] end in
    take (MAX_FILE_NAME_CHARACTERS - length suffix) cs ++ suffix.

Definition to_ascii_uppercase_char (c : list Z) : list Z :=
  match c with [b] => if between 97 122 b then [b - 32] else [b] | _ => c end.

(** [file_name.split('.').next()]. *)
Fixpoint before_dot (cs : list (list Z)) : list (list Z) :=
  match cs with [] => [] | c :: cs => if bool_decide (c = [46]) then [] else c :: before_dot cs end.

Definition chars_of (s : string) : list (list Z) := chars (bytes_of s).

Definition is_windows_reserved_file_name (cs : list (list Z)) : bool :=
  let stem := to_ascii_uppercase_char <$> before_dot cs in
  bool_decide (stem ∈ chars_of <$> ["CON"; "PRN"; "AUX"; "NUL"]%string) ||
  (bool_decide (take 3 stem ∈ chars_of <$> ["COM"; "LPT"]%string) &&
   bool_decide (drop 3 stem ∈ chars_of <$> ["1"; "2"; "3"; "4"; "5"; "6"; "7"; "8"; "9"]%string)).

(** [trim_end_matches([' ', '.'])]. *)
Fixpoint trim_end_chars (cs : list (list Z)) : list (list Z) :=
  match cs with
  | [] => []
  | c :: cs => match trim_end_chars cs with
               | [] => if bool_decide (c ∈ [[32]; [46]]) then [] else [c]
               | rest => c :: rest
               end
  end.

Definition safe_name_chars (file_name : list Z) : list (list Z) :=
  let base := chars (trim_bytes (concat (basename (chars file_name)))) in
  let sanitized := trim_end_chars (sanitize <$> base) in
  if bool_decide (sanitized = []) || bool_decide (sanitized ∈ [[[46]]; [[46]; [46]]]) then chars_of "Attached file"
  else if is_windows_reserved_file_name sanitized then shorten_upload_file_name ([95] :: sanitized)
  else shorten_upload_file_name sanitized.

Definition safe_upload_file_name (file_name : string) : string := of_bytes (concat (safe_name_chars (bytes_of file_name))).

Definition safe_upload_directory_name (task_id : string) : string :=
  let cs := (fun c => if is_alphanumeric c || bool_decide (c ∈ [[45]; [95]]) then c else [95]) <$> chars_of task_id in
  match take 160 cs with [] => "unknown-task" | cs => of_bytes (concat cs) end.

Definition upload_file_name (file_name : string) (collision_index : Z) : string :=
  if bool_decide (collision_index = 1) then file_name
  else
    let suffix := chars_of ("-" +:+ pretty (Z.to_N collision_index)) in
    let '(stem, extension) :=
      match split_extension None (chars_of file_name) with
      | Some (stem, extension) => (stem, [46] :: extension)
      | None => (chars_of file_name, [])
      end in
    of_bytes (concat (take (160 - (length suffix + length extension)) stem ++ suffix ++ extension)).

(** *** The registry

    [files] is the directory of temporary files; a request carries the time, the
    name of the system's temporary directory, and how its file operations fail. *)

Record Session := mkSession {
  s_task_id : string;
  s_file_name : string;
  s_total_size : Z;
  s_received : Z;
  s_path : string;
  s_last_activity : Z }.

Abbreviation Key := (string * string)%type.
Record Registry := mkRegistry { sessions : gmap Key Session; files : gmap string (list Z) }.

Inductive IoFault := NoFault | CreateFails | WriteFailsAfter (written : nat) | FlushFails.

Record Request := mkRequest {
  client_instance_id : string;
  upload_id : string;
  task_id : string;
  file_name : string;
  total_size : Z;
  offset : Z;
  data : list Z;
  now : Z;
  temp_dir : string;
  fault : IoFault }.

Inductive AppendChunkOutcome := Partial (received : Z) | Complete (path task_id file_name : string).
Inductive ChunkUploadError :=
| InvalidUploadId | ChunkTooLarge (max : Z) | MissingSession | MetadataMismatch | OffsetMismatch (expected : Z)
| SizeExceeded | Io.

Definition validate_upload_id (id : string) : bool :=
  negb (bool_decide (bytes_of id = []) || bool_decide (128 < length (bytes_of id))%nat ||
        negb (forallb (fun b => between 48 57 b || between 65 90 b || between 97 122 b || bool_decide (b ∈ [45; 95]))
                (bytes_of id))).

(** The drop of a [PendingUpload] that was not kept. *)
Definition drop_file (path : string) (fs : gmap string (list Z)) : gmap string (list Z) := delete path fs.
Definition drop_files (gone : gmap Key Session) (fs : gmap string (list Z)) : gmap string (list Z) :=
  map_fold (fun _ s fs => drop_file (s_path s) fs) fs gone.

Definition is_fresh (now : Z) (s : Session) : Prop := now - s_last_activity s < STALE_UPLOAD_AGE.
Definition retain_fresh (now : Z) (r : Registry) : Registry :=
  mkRegistry (filter (fun e => now - s_last_activity e.2 < STALE_UPLOAD_AGE) (sessions r))
    (drop_files (filter (fun e => ~ (now - s_last_activity e.2 < STALE_UPLOAD_AGE)) (sessions r)) (files r)).

(** The first name that is not taken; the counter needs no more rounds than
    there are files, and the names with and without a number. *)
Fixpoint first_free (fuel : nat) (directory name : string) (index : Z) (fs : gmap string (list Z)) : option string :=
  match fuel with
  | O => None
  | S fuel =>
      let path := directory +:+ "/" +:+ upload_file_name name index in
      if bool_decide (is_Some (fs !! path)) then first_free fuel directory name (index + 1) fs else Some path
  end.

Definition temporary_upload (temp_dir task_id file_name : string) (fails : bool) (fs : gmap string (list Z))
  : option (string * gmap string (list Z)) :=
  let directory := temp_dir +:+ "/openaide/uploads/" +:+ safe_upload_directory_name task_id in
  if fails then None
  else path ← first_free (size fs + 2) directory (safe_upload_file_name file_name) 1 fs; Some (path, <[path := []]> fs).

(** The registry with a session for the key, if the request begins one. *)
Definition key_of (q : Request) : Key := (client_instance_id q, upload_id q).
Definition open_session (q : Request) (r : Registry) : option Registry :=
  if bool_decide (offset q = 0) && negb (is_some (sessions r !! key_of q)) then
    '(path, fs) ← temporary_upload (temp_dir q) (task_id q) (file_name q)
                    (match fault q with CreateFails => true | _ => false end) (files r);
    Some (mkRegistry (<[key_of q := mkSession (task_id q) (file_name q) (total_size q) 0 path (now q)]> (sessions r)) fs)
  else Some r.

Definition append (q : Request) (r : Registry) : result AppendChunkOutcome ChunkUploadError * Registry :=
  let size := Z.of_nat (length (data q)) in
  if negb (validate_upload_id (upload_id q)) then (Err InvalidUploadId, r)
  else if bool_decide (MAX_UPLOAD_CHUNK_BYTES < size) then (Err (ChunkTooLarge MAX_UPLOAD_CHUNK_BYTES), r)
  else if bool_decide (total_size q < offset q) || bool_decide (total_size q - offset q < size) then (Err SizeExceeded, r)
  else
    let key := key_of q in
    let r := retain_fresh (now q) r in
    match open_session q r with
    | None => (Err Io, r)
    | Some r =>
        match sessions r !! key with
        | None => (Err MissingSession, r)
        | Some s =>
            if negb (bool_decide (s_task_id s = task_id q) && bool_decide (s_file_name s = file_name q) &&
                     bool_decide (s_total_size s = total_size q)) then (Err MetadataMismatch, r)
            else if negb (bool_decide (s_received s = offset q)) then (Err (OffsetMismatch (s_received s)), r)
            else
              let content := default [] (files r !! s_path s) in
              match fault q with
              | WriteFailsAfter n => (Err Io, mkRegistry (sessions r) (<[s_path s := content ++ take n (data q)]> (files r)))
              | _ =>
                  let fs := <[s_path s := content ++ data q]> (files r) in
                  let received := s_received s +64 size in
                  if bool_decide (received < s_total_size s)
                  then (Ok (Partial received),
                        mkRegistry (<[key := mkSession (s_task_id s) (s_file_name s) (s_total_size s) received (s_path s) (now q)]>
                                      (sessions r)) fs)
                  else match fault q with
                       | FlushFails => (Err Io, mkRegistry (delete key (sessions r)) (drop_file (s_path s) fs))
                       | _ => (Ok (Complete (s_path s) (s_task_id s) (s_file_name s)), mkRegistry (delete key (sessions r)) fs)
                       end
              end
        end
    end.

Definition cancel (client upload : string) (r : Registry) : bool * Registry :=
  if negb (validate_upload_id upload) then (false, r)
  else match sessions r !! (client, upload) with
       | None => (false, r)
       | Some s => (true, mkRegistry (delete (client, upload) (sessions r)) (drop_file (s_path s) (files r)))
       end.

(** *** Lemmas on names *)

Lemma of_bytes_inj a b : bytes_ok a -> bytes_ok b -> of_bytes a = of_bytes b -> a = b.
Proof. intros Ha Hb E. apply (f_equal bytes_of) in E. by rewrite !bytes_of_bytes in E. Qed.

Lemma concat_bytes_ok cs : bytes_ok (concat cs) <-> Forall bytes_ok cs.
Proof.
  induction cs as [|c cs IH]; [split; constructor|]. cbn. rewrite Forall_cons, <- IH. unfold bytes_ok. apply Forall_app.
Qed.

Lemma chars_of_ok s : Forall bytes_ok (chars_of s).
Proof. apply concat_bytes_ok. unfold chars_of. rewrite concat_chars. apply bytes_of_ok. Qed.

Lemma rsplit_once_sub cs stem extension :
  rsplit_once cs = Some (stem, extension) -> cs = stem ++ [46] :: extension.
Proof.
  revert stem. induction cs as [|c cs IH]; intros stem; cbn; [done|]. destruct (rsplit_once cs) as [[st ex]|].
  - intros [= <- <-]. by rewrite (IH st eq_refl) at 1.
  - split_test; [|done]. intros [= <- <-]. by subst.
Qed.

Lemma digits_no_dash (n : N) : Forall (fun b => b <> 45) (bytes_of (pretty n)).
Proof.
  unfold pretty, pretty_N. case_decide; [by repeat constructor|].
  assert (forall s, Forall (fun b => b <> 45) (bytes_of s) -> Forall (fun b => b <> 45) (bytes_of (pretty_N_go n s))) as Hgo;
    [|apply Hgo; constructor].
  induction (N.lt_wf_0 n) as [x _ IH]. intros s Hs.
  destruct (decide (0 < x)%N) as [Hx|Hx].
  - rewrite pretty_N_go_step by done. destruct (decide (x / 10 = 0)%N) as [E|E].
    + rewrite E, pretty_N_go_0. cbn. constructor; [|done]. unfold pretty_N_char. by repeat case_match.
    + apply IH; [apply N.div_lt; lia|done|]. cbn. constructor; [|done]. unfold pretty_N_char. by repeat case_match.
  - replace x with 0%N by lia. by rewrite pretty_N_go_0.
Qed.

Lemma last_dash a b d e :
  Forall (fun x => x <> 45) d -> Forall (fun x => x <> 45) e -> a ++ 45 :: d = b ++ 45 :: e -> d = e.
Proof.
  intros Hd He. revert b. induction a as [|x a IH]; intros [|y b]; cbn; intros E.
  - by injection E.
  - injection E as <- E. exfalso. rewrite E in Hd. apply Forall_app in Hd as [_ Hd]. by apply Forall_cons in Hd as [Hd _].
  - injection E as -> E. exfalso. rewrite <- E in He. apply Forall_app in He as [_ He]. by apply Forall_cons in He as [He _].
  - injection E as _ E. by apply (IH b).
Qed.

(** The numbers after the first give different names. *)
Lemma upload_file_name_inj name i j :
  2 <= i -> 2 <= j -> upload_file_name name i = upload_file_name name j -> i = j.
Proof.
  intros Hi Hj. unfold upload_file_name. rewrite !bool_decide_eq_false_2 by lia.
  pose proof (chars_of_ok name) as Hname.
  destruct (match split_extension None (chars_of name) with
            | Some (stem, extension) => (stem, [46] :: extension) | None => (chars_of name, []) end)
    as [stem extension] eqn:Hse.
  assert (Forall bytes_ok stem /\ Forall bytes_ok extension) as [Hst Hex].
  { unfold split_extension in Hse. destruct (rsplit_once (chars_of name)) as [[st ex]|] eqn:Hr; cbn in Hse.
    - destruct (_ || _); injection Hse as <- <-; [done|]. apply rsplit_once_sub in Hr. rewrite Hr in Hname.
      by apply Forall_app in Hname.
    - by injection Hse as <- <-. }
  intros E. apply of_bytes_inj in E.
  - rewrite !concat_app, !app_assoc in E. apply app_inv_tail in E.
    assert (forall k, concat (chars_of ("-" +:+ pretty (Z.to_N k))) = 45 :: bytes_of (pretty (Z.to_N k))) as Hs
      by (intros k; unfold chars_of; by rewrite concat_chars).
    rewrite !Hs in E. apply last_dash in E; [|apply digits_no_dash..].
    apply (f_equal of_bytes) in E. rewrite !of_bytes_of in E. apply (inj pretty) in E. lia.
  - apply concat_bytes_ok. rewrite !Forall_app. split; [by apply Forall_take|]. split; [apply chars_of_ok|done].
  - apply concat_bytes_ok. rewrite !Forall_app. split; [by apply Forall_take|]. split; [apply chars_of_ok|done].
Qed.

Lemma append_inj (a b c : string) : a +:+ b = a +:+ c -> b = c.
Proof.
  induction a as [|x a IH]; [done|]. change (String x a +:+ b) with (String x (a +:+ b)).
  change (String x a +:+ c) with (String x (a +:+ c)). intros [= E]. auto.
Qed.

Lemma first_free_none fuel directory name index fs :
  first_free fuel directory name index fs = None ->
  forall k, index <= k < index + Z.of_nat fuel -> is_Some (fs !! (directory +:+ "/" +:+ upload_file_name name k)).
Proof.
  revert index. induction fuel as [|fuel IH]; intros index; cbn [first_free]; [lia|]. split_test; [|done].
  intros Hn k Hk. destruct (decide (k = index)) as [->|]; [done|]. apply (IH (index + 1)); [done|lia].
Qed.

(** The counter finds a free name. *)
Lemma first_free_some directory name fs : is_Some (first_free (size fs + 2) directory name 1 fs).
Proof.
  destruct (first_free (size fs + 2) directory name 1 fs) as [path|] eqn:E; [by eexists|]. exfalso.
  pose proof (first_free_none _ _ _ _ _ E) as Hall.
  set (path := fun k : nat => directory +:+ "/" +:+ upload_file_name name (Z.of_nat k)).
  assert (NoDup (path <$> seq 2 (S (size fs)))) as Hnd.
  { apply NoDup_fmap_2_strong; [|apply NoDup_seq]. intros i j Hi%elem_of_seq Hj%elem_of_seq Hij.
    apply append_inj in Hij. apply (append_inj "/") in Hij. apply upload_file_name_inj in Hij; lia. }
  assert (size (list_to_set (path <$> seq 2 (S (size fs))) : gset string) <= size (dom fs))%nat as Hsize.
  { apply subseteq_size. intros p Hp. apply elem_of_list_to_set, list_elem_of_fmap in Hp as (k & -> & Hk%elem_of_seq).
    apply elem_of_dom. apply Hall. lia. }
  rewrite size_list_to_set, length_fmap, length_seq, size_dom in Hsize by done. lia.
Qed.

Lemma first_free_new fuel directory name index fs path :
  first_free fuel directory name index fs = Some path -> fs !! path = None.
Proof.
  revert index. induction fuel as [|fuel IH]; intros index; cbn [first_free]; [done|].
  split_test; [apply IH|]. intros [= <-]. by apply eq_None_not_Some.
Qed.

Lemma temporary_upload_new dir task name fs :
  exists path, fs !! path = None /\ temporary_upload dir task name false fs = Some (path, <[path := []]> fs).
Proof.
  unfold temporary_upload. cbn. destruct (first_free_some (dir +:+ "/openaide/uploads/" +:+ safe_upload_directory_name task)
    (safe_upload_file_name name) fs) as [path E].
  rewrite E. exists path. split; [by eapply first_free_new|done].
Qed.

(** *** Runs *)

Inductive Op := OpAppend (q : Request) | OpCancel (client upload : string).

Definition step (op : Op) (r : Registry) : option (result AppendChunkOutcome ChunkUploadError) * Registry :=
  match op with
  | OpAppend q => let a := append q r in (Some a.1, a.2)
  | OpCancel client upload => (None, (cancel client upload r).2)
  end.

Abbreviation Trace := (list (Op * option (result AppendChunkOutcome ChunkUploadError))).

(** Executions that start with the files [fs] in the temporary directory. *)
Inductive run (fs : gmap string (list Z)) : Trace -> Registry -> Prop :=
| run_start : run fs [] (mkRegistry ∅ fs)
| run_step trace r op : run fs trace r -> run fs (trace ++ [(op, (step op r).1)]) (step op r).2.

(** The bytes accepted for an upload since it last began. *)
Definition accept (key : Key) (so_far : list Z) (e : Op * option (result AppendChunkOutcome ChunkUploadError)) : list Z :=
  match e with
  | (OpAppend q, Some (Ok (Partial _))) =>
      if bool_decide (key_of q = key) then (if bool_decide (offset q = 0) then [] else so_far) ++ data q else so_far
  | _ => so_far
  end.
Definition accepted (key : Key) (trace : Trace) : list Z := foldl (accept key) [] trace.

(** Sizes are machine integers, and no write of the file stops half way. *)
Definition op_ok (op : Op) : Prop :=
  match op with
  | OpAppend q => is_u64 (offset q) /\ is_u64 (total_size q) /\ match fault q with WriteFailsAfter _ => False | _ => True end
  | OpCancel _ _ => True
  end.

(** Each session's file holds the bytes [acc] gives for it, and is its own. *)
Definition holds (acc : Key -> list Z) (r : Registry) : Prop :=
  (forall key s, sessions r !! key = Some s ->
     files r !! s_path s = Some (acc key) /\ Z.of_nat (length (acc key)) = s_received s /\
     s_received s <= s_total_size s /\ is_u64 (s_total_size s)) /\
  (forall k1 k2 s1 s2, sessions r !! k1 = Some s1 -> sessions r !! k2 = Some s2 -> s_path s1 = s_path s2 -> k1 = k2).

Definition upd (acc : Key -> list Z) (key : Key) (v : list Z) : Key -> list Z := fun k => if decide (k = key) then v else acc k.

Lemma drop_files_other gone fs p :
  (forall k s, gone !! k = Some s -> s_path s <> p) -> drop_files gone fs !! p = fs !! p.
Proof.
  unfold drop_files. intros Hp. revert Hp. apply (map_fold_weak_ind (fun m g => (forall k s, g !! k = Some s -> s_path s <> p) -> m !! p = fs !! p)); [done|].
  intros k s g m Hk IH Hp. unfold drop_file. rewrite lookup_delete_ne by (apply (Hp k); apply lookup_insert_eq).
  apply IH. intros k' s' Hg. apply (Hp k'). rewrite lookup_insert_ne; [done|]. intros ->. congruence.
Qed.

(** A file that no session of the registry writes to stays as it is. *)
Definition unowned (p : string) (r : Registry) : Prop := forall k s, sessions r !! k = Some s -> s_path s <> p.

Lemma retain_fresh_holds acc now r : holds acc r -> holds acc (retain_fresh now r).
Proof.
  intros [Hf Hinj]. split.
  - intros key s [Hs Hfresh]%map_lookup_filter_Some. destruct (Hf key s Hs) as (Hc & Hrest). split; [|done].
    cbn [files retain_fresh]. rewrite drop_files_other; [done|]. intros k s' [Hs' Hstale]%map_lookup_filter_Some Hp.
    assert (k = key) as -> by (by eapply Hinj). cbn in *. congruence.
  - intros k1 k2 s1 s2 [H1 _]%map_lookup_filter_Some [H2 _]%map_lookup_filter_Some. by eapply Hinj.
Qed.

Lemma retain_fresh_unowned now r p c :
  unowned p r -> files r !! p = Some c -> unowned p (retain_fresh now r) /\ files (retain_fresh now r) !! p = Some c.
Proof.
  intros Hu Hc. split.
  - intros k s [Hs _]%map_lookup_filter_Some. by eapply Hu.
  - cbn. rewrite drop_files_other; [done|]. intros k s [Hs _]%map_lookup_filter_Some. by eapply Hu.
Qed.

(** A request that begins a session gets a new, empty file. *)
Lemma open_session_cases q r r' :
  open_session q r = Some r' ->
  r' = r \/
  offset q = 0 /\ sessions r !! key_of q = None /\
  exists path, files r !! path = None /\
    r' = mkRegistry (<[key_of q := mkSession (task_id q) (file_name q) (total_size q) 0 path (now q)]> (sessions r))
           (<[path := []]> (files r)).
Proof.
  unfold open_session. destruct (bool_decide (offset q = 0) && negb (is_some (sessions r !! key_of q))) eqn:E.
  - simp_all. destruct (sessions r !! key_of q); [done|]. destruct (match fault q with CreateFails => true | _ => false end) eqn:Ec.
    + cbn. done.
    + destruct (temporary_upload_new (temp_dir q) (task_id q) (file_name q) (files r)) as (path & Hp & Ht).
      rewrite Ht. cbn. intros [= <-]. right. eauto 6.
  - intros [= <-]. by left.
Qed.

Lemma open_session_holds acc q r r' :
  holds acc r -> is_u64 (total_size q) -> open_session q r = Some r' ->
  exists acc', holds acc' r' /\ (forall k, k <> key_of q -> acc' k = acc k) /\
    (acc' (key_of q) = acc (key_of q) \/ offset q = 0 /\ acc' (key_of q) = []) /\
    (r' = r /\ acc' = acc \/
     exists path, sessions r' !! key_of q = Some (mkSession (task_id q) (file_name q) (total_size q) 0 path (now q)) /\ offset q = 0).
Proof.
  intros [Hf Hinj] Hu [->|(Ho & Hn & path & Hp & ->)]%open_session_cases; [by exists acc; split; [|auto 6]|].
  exists (upd acc (key_of q) []). unfold upd. split; [split; cbn|].
  - intros key s. destruct (decide (key = key_of q)) as [->|Hk].
    + rewrite lookup_insert_eq. intros [= <-]. cbn. rewrite lookup_insert_eq. unfold is_u64 in *. lia || (split_and!; done || lia).
    + rewrite lookup_insert_ne by done. intros Hs. destruct (Hf key s Hs) as (Hc & Hrest). split; [|done].
      rewrite lookup_insert_ne; [done|]. intros ->. congruence.
  - intros k1 k2 s1 s2. destruct (decide (k1 = key_of q)) as [->|H1], (decide (k2 = key_of q)) as [->|H2]; [done| | |].
    + rewrite lookup_insert_eq, lookup_insert_ne by done. intros [= <-] Hs2 E. cbn in E. destruct (Hf k2 s2 Hs2) as [Hc _]. congruence.
    + rewrite lookup_insert_ne, lookup_insert_eq by done. intros Hs1 [= <-] E. cbn in E. destruct (Hf k1 s1 Hs1) as [Hc _]. congruence.
    + rewrite !lookup_insert_ne by done. apply Hinj.
  - split; [intros k Hk; by rewrite decide_False|]. rewrite decide_True by done. split; [by right|].
    right. exists path. cbn. by rewrite lookup_insert_eq.
Qed.

(** The registry after the bytes were written, by how much was announced. *)
Definition written (q : Request) (s : Session) (r : Registry) : result AppendChunkOutcome ChunkUploadError * Registry :=
  let fs := <[s_path s := default [] (files r !! s_path s) ++ data q]> (files r) in
  let received := s_received s +64 Z.of_nat (length (data q)) in
  if bool_decide (received < s_total_size s)
  then (Ok (Partial received),
        mkRegistry (<[key_of q := mkSession (s_task_id s) (s_file_name s) (s_total_size s) received (s_path s) (now q)]>
                      (sessions r)) fs)
  else match fault q with
       | FlushFails => (Err Io, mkRegistry (delete (key_of q) (sessions r)) (drop_file (s_path s) fs))
       | _ => (Ok (Complete (s_path s) (s_task_id s) (s_file_name s)), mkRegistry (delete (key_of q) (sessions r)) fs)
       end.

Lemma append_cases q r :
  op_ok (OpAppend q) ->
  (exists e, append q r = (Err e, r) \/ append q r = (Err e, retain_fresh (now q) r)) \/
  exists r' s, open_session q (retain_fresh (now q) r) = Some r' /\ sessions r' !! key_of q = Some s /\
    s_task_id s = task_id q /\ s_file_name s = file_name q /\ s_total_size s = total_size q /\ s_received s = offset q /\
    offset q + Z.of_nat (length (data q)) <= total_size q /\ append q r = written q s r'.
Proof.
  intros (Ho & Ht & Hfault). unfold append. destruct (negb _); [left; eauto|]. split_test; [left; eauto|].
  destruct (_ || _) eqn:Hb; [left; eauto|].
  apply orb_false_iff in Hb as [H1%bool_decide_eq_false H2%bool_decide_eq_false].
  destruct (open_session q (retain_fresh (now q) r)) as [r'|] eqn:Hopen; [|left; eauto].
  pose proof (open_session_cases _ _ _ Hopen) as Hcases.
  destruct (sessions r' !! key_of q) as [s|] eqn:Hs.
  2:{ destruct Hcases as [->|(_ & _ & path & _ & ->)]; [left; eauto|]. cbn in Hs. by rewrite lookup_insert_eq in Hs. }
  destruct (_ && _ && _) eqn:Hmeta; cbn [negb].
  2:{ destruct Hcases as [->|(_ & _ & path & _ & ->)]; [left; eauto|]. cbn in Hs. rewrite lookup_insert_eq in Hs.
      injection Hs as <-. cbn in Hmeta. by rewrite !bool_decide_eq_true_2 in Hmeta. }
  apply andb_true_iff in Hmeta as [[Htask%bool_decide_eq_true Hname%bool_decide_eq_true]%andb_true_iff Htot%bool_decide_eq_true].
  destruct (bool_decide_reflect (s_received s = offset q)) as [Hrec|Hrec]; cbn [negb].
  2:{ destruct Hcases as [->|(H0 & _ & path & _ & ->)]; [left; eauto|]. cbn in Hs. rewrite lookup_insert_eq in Hs.
      injection Hs as <-. cbn in Hrec. congruence. }
  right. exists r', s. split_and!; try done; [lia|]. unfold written. by destruct (fault q).
Qed.

Lemma delete_holds acc acc' key s r fs :
  holds acc r -> sessions r !! key = Some s -> (forall k, k <> key -> acc' k = acc k) ->
  (forall p, p <> s_path s -> fs !! p = files r !! p) -> holds acc' (mkRegistry (delete key (sessions r)) fs).
Proof.
  intros [Hf Hinj] Hs Hacc Hfs. split; cbn.
  - intros k v [Hk Hv]%lookup_delete_Some. rewrite Hacc by done. destruct (Hf k v Hv) as (Hc & Hrest). split; [|done].
    rewrite Hfs; [done|]. intros E. apply Hk. by eapply Hinj.
  - intros k1 k2 s1 s2 [_ H1]%lookup_delete_Some [_ H2]%lookup_delete_Some. by eapply Hinj.
Qed.

Lemma update_holds acc key s s' r v :
  holds acc r -> sessions r !! key = Some s -> s_path s' = s_path s ->
  Z.of_nat (length v) = s_received s' -> s_received s' <= s_total_size s' -> is_u64 (s_total_size s') ->
  holds (upd acc key v) (mkRegistry (<[key := s']> (sessions r)) (<[s_path s := v]> (files r))).
Proof.
  intros [Hf Hinj] Hs Hp Hl Hle Hu. unfold upd. split; cbn.
  - intros k t. destruct (decide (k = key)) as [->|Hk].
    + rewrite lookup_insert_eq. intros [= <-]. by rewrite Hp, lookup_insert_eq.
    + rewrite lookup_insert_ne by done. intros Ht. destruct (Hf k t Ht) as (Hc & Hrest). split; [|done].
      rewrite lookup_insert_ne; [done|]. intros E. apply Hk. by eapply Hinj.
  - intros k1 k2 s1 s2 H1 H2 E.
    assert (exists t1, sessions r !! k1 = Some t1 /\ s_path t1 = s_path s1) as (t1 & Ht1 & E1).
    { destruct (decide (k1 = key)) as [->|]; [rewrite lookup_insert_eq in H1; injection H1 as <-; eauto|].
      rewrite lookup_insert_ne in H1 by done. eauto. }
    assert (exists t2, sessions r !! k2 = Some t2 /\ s_path t2 = s_path s2) as (t2 & Ht2 & E2).
    { destruct (decide (k2 = key)) as [->|]; [rewrite lookup_insert_eq in H2; injection H2 as <-; eauto|].
      rewrite lookup_insert_ne in H2 by done. eauto. }
    eapply Hinj; [exact Ht1|exact Ht2|congruence].
Qed.

Lemma holds_ext acc acc' r :
  (forall k s, sessions r !! k = Some s -> acc' k = acc k) -> holds acc r -> holds acc' r.
Proof. intros E [Hf Hinj]. split; [|done]. intros k s Hs. rewrite (E k s Hs). by apply Hf. Qed.

Lemma file_accepted_snoc key trace e : accepted key (trace ++ [e]) = accept key (accepted key trace) e.
Proof. unfold accepted. by rewrite foldl_snoc. Qed.

Lemma file_accept_other key so_far q o : key_of q <> key -> accept key so_far (OpAppend q, o) = so_far.
Proof. intros Hn. unfold accept. destruct o as [[[]|]|]; try done. by rewrite bool_decide_eq_false_2. Qed.

(** What the file of a request's session holds before its bytes are written. *)
Lemma session_content trace q r r' s :
  holds (fun k => accepted k trace) r -> is_u64 (total_size q) ->
  open_session q (retain_fresh (now q) r) = Some r' -> sessions r' !! key_of q = Some s -> s_received s = offset q ->
  exists acc, holds acc r' /\ (forall k, k <> key_of q -> acc k = accepted k trace) /\
    acc (key_of q) = (if bool_decide (offset q = 0) then [] else accepted (key_of q) trace).
Proof.
  intros Hh Hu Ho Hs Hr. apply (retain_fresh_holds _ (now q)) in Hh.
  destruct (open_session_holds _ q _ _ Hh Hu Ho) as (acc & Hacc & Hother & Hkey & _).
  exists acc. split; [done|]. split; [done|]. destruct (proj1 Hacc _ _ Hs) as (_ & Hl & _).
  split_test; [|destruct Hkey as [->|[? _]]; done].
  destruct (acc (key_of q)); [done|]. cbn in Hl. lia.
Qed.

Lemma append_holds trace r q :
  holds (fun k => accepted k trace) r -> op_ok (OpAppend q) ->
  holds (fun k => accepted k (trace ++ [(OpAppend q, Some (append q r).1)])) (append q r).2.
Proof.
  intros Hh Hop. destruct (append_cases q r Hop) as [(e & [E|E])|(r' & s & Ho & Hs & _ & _ & Ht & Hr & Hle & E)]; rewrite E.
  - eapply holds_ext; [|exact Hh]. intros k t _. cbn [fst]. by rewrite file_accepted_snoc.
  - eapply holds_ext; [|apply retain_fresh_holds; exact Hh]. intros k t _. cbn [fst]. by rewrite file_accepted_snoc.
  - destruct Hop as (Ho64 & Ht64 & _).
    destruct (session_content trace q r r' s Hh Ht64 Ho Hs Hr) as (acc & Hacc & Hother & Hkey).
    pose proof (proj1 Hacc _ _ Hs) as (Hc & Hl & _). unfold written. rewrite Hc. cbn [default].
    assert (s_received s +64 Z.of_nat (length (data q)) = s_received s + Z.of_nat (length (data q))) as ->.
    { apply u64_add_small. unfold is_u64 in *. lia. }
    split_test; cbn [fst snd].
    + eapply holds_ext; [|eapply (update_holds acc); [exact Hacc|exact Hs|done|..]].
      * intros k t _. rewrite file_accepted_snoc. unfold upd. destruct (decide (k = key_of q)) as [->|Hk].
        -- cbn [accept]. rewrite bool_decide_eq_true_2 by done. by rewrite Hkey.
        -- rewrite file_accept_other by congruence. by rewrite Hother.
      * cbn. rewrite length_app. lia.
      * cbn. lia.
      * cbn. by rewrite Ht.
    + assert (forall k, k <> key_of q -> forall o, accepted k (trace ++ [(OpAppend q, o)]) = acc k) as Hk
        by (intros k Hk o; rewrite file_accepted_snoc, file_accept_other by congruence; by rewrite Hother).
      destruct (fault q); eapply (delete_holds acc); try done; try (intros k Hne; by apply Hk);
        intros p Hp; unfold drop_file; by rewrite ?lookup_delete_ne, lookup_insert_ne by congruence.
Qed.

Lemma cancel_holds trace r client upload :
  holds (fun k => accepted k trace) r ->
  holds (fun k => accepted k (trace ++ [(OpCancel client upload, None)])) (cancel client upload r).2.
Proof.
  intros Hh. apply (holds_ext (fun k => accepted k trace)); [intros k s _; by rewrite file_accepted_snoc|].
  unfold cancel. destruct (negb _); [done|]. destruct (sessions r !! (client, upload)) as [s|] eqn:Hs; [|done].
  eapply delete_holds; [exact Hh|exact Hs|done|]. intros p Hp. unfold drop_file. by rewrite lookup_delete_ne by congruence.
Qed.

Lemma run_holds fs trace r :
  run fs trace r -> Forall (fun e => op_ok e.1) trace -> holds (fun k => accepted k trace) r.
Proof.
  induction 1 as [|trace r op _ IH]; [by intros _; split|]. intros [Ht Hop]%Forall_app. rewrite Forall_singleton in Hop.
  destruct op as [q|client upload]; cbn [step fst snd]; [by apply append_holds; [apply IH|]|by apply cancel_holds, IH].
Qed.

(** A file that arrives in chunks is put together exactly: in every execution
    of the registry in which no write stops half way, a request that completes an
    upload leaves a file that holds the chunks accepted since the upload began, in
    order, with this one, as long as was announced, and that no other upload
    writes to. *)
Theorem completed_upload_is_exact fs trace r q path task name :
  run fs trace r -> Forall (fun e => op_ok e.1) trace -> op_ok (OpAppend q) ->
  (append q r).1 = Ok (Complete path task name) ->
  let bytes := (if bool_decide (offset q = 0) then [] else accepted (key_of q) trace) ++ data q in
  files (append q r).2 !! path = Some bytes /\ Z.of_nat (length bytes) = total_size q /\
  task = task_id q /\ name = file_name q /\ unowned path (append q r).2.
Proof.
  intros Hrun Htrace Hop. pose proof (run_holds _ _ _ Hrun Htrace) as Hh.
  destruct (append_cases q r Hop) as [(e & [E|E])|(r' & s & Ho & Hs & Htask & Hname & Ht & Hr & Hle & E)];
    rewrite E; [done..|]. destruct Hop as (Ho64 & Ht64 & Hfault).
  destruct (session_content trace q r r' s Hh Ht64 Ho Hs Hr) as (acc & Hacc & _ & Hkey).
  pose proof (proj1 Hacc _ _ Hs) as (Hc & Hl & _). unfold written. rewrite Hc. cbn [default]. rewrite <- Hkey.
  assert (s_received s +64 Z.of_nat (length (data q)) = s_received s + Z.of_nat (length (data q))) as ->.
  { apply u64_add_small. unfold is_u64 in *. lia. }
  split_test; [done|].
  assert (unowned (s_path s) (mkRegistry (delete (key_of q) (sessions r')) (files r'))) as Hun.
  { intros k t. cbn. intros [Hk Hkt]%lookup_delete_Some E'. apply Hk. by eapply (proj2 Hacc). }
  destruct (fault q); intros Heq; try discriminate Heq; try done; injection Heq as <- <- <-; cbn [snd files];
    rewrite lookup_insert_eq, length_app; (split_and!; [done|lia|done|done|exact Hun]).
Qed.

Lemma open_session_unowned q r r' p c :
  files r !! p = Some c -> unowned p r -> open_session q r = Some r' -> files r' !! p = Some c /\ unowned p r'.
Proof.
  intros Hc Hu [->|(_ & _ & path & Hp & ->)]%open_session_cases; [done|]. cbn.
  assert (path <> p) as Hne by (intros ->; congruence). split; [by rewrite lookup_insert_ne|].
  intros k s. cbn. destruct (decide (k = key_of q)) as [->|Hk].
  - rewrite lookup_insert_eq. by intros [= <-].
  - rewrite lookup_insert_ne by done. apply Hu.
Qed.

(** Uploads leave every other file alone: a file that was in the temporary
    directory and belongs to no unfinished upload is there unchanged after any
    request, also one whose writes fail. *)
Theorem other_files_are_kept r op p content :
  files r !! p = Some content -> unowned p r ->
  files (step op r).2 !! p = Some content /\ unowned p (step op r).2.
Proof.
  intros Hc Hu. destruct op as [q|client upload]; cbn [step snd].
  - unfold append. destruct (negb (validate_upload_id _)); [done|]. split_test; [done|]. destruct (_ || _); [done|].
    destruct (retain_fresh_unowned (now q) r p content Hu Hc) as [Hu1 Hc1].
    destruct (open_session q _) as [r'|] eqn:Hopen; [|done].
    destruct (open_session_unowned _ _ _ _ _ Hc1 Hu1 Hopen) as [Hc2 Hu2]. clear Hopen Hu1 Hc1.
    destruct (sessions r' !! key_of q) as [s|] eqn:Hs; [|done]. pose proof (Hu2 _ _ Hs) as Hne.
    destruct (negb (_ && _ && _)); [done|]. destruct (negb _); [done|].
    assert (forall m : gmap Key Session, (forall k t, m !! k = Some t -> s_path t <> p) ->
      forall v, files (mkRegistry m (<[s_path s := v]> (files r'))) !! p = Some content /\
                unowned p (mkRegistry m (<[s_path s := v]> (files r')))) as Hw
      by (intros m Hm v; split; [cbn; by rewrite lookup_insert_ne|exact Hm]).
    assert (forall k t, delete (key_of q) (sessions r') !! k = Some t -> s_path t <> p) as Hd
      by (intros k t [_ Hk]%lookup_delete_Some; by eapply Hu2).
    assert (forall v, s_path v = s_path s -> forall k t, <[key_of q := v]> (sessions r') !! k = Some t -> s_path t <> p) as Hi.
    { intros v Hv k t [[_ <-]|[_ Hk]]%lookup_insert_Some; [congruence|by eapply Hu2]. }
    destruct (fault q); try (split_test; [by apply Hw, Hi|]); try by apply Hw.
    split; [|exact Hd]. cbn. unfold drop_file. by rewrite lookup_delete_ne, lookup_insert_ne.
  - unfold cancel. destruct (negb _); [done|]. destruct (sessions r !! _) as [s|] eqn:Hs; [|done]. cbn.
    pose proof (Hu _ _ Hs) as Hne. split; [unfold drop_file; by rewrite lookup_delete_ne|].
    intros k t. cbn. intros [_ Hk]%lookup_delete_Some. by eapply Hu.
Qed.

(** *** Safe names *)

Definition safe_char (c : list Z) : Prop := is_control c = false /\ c ∉ (fun b => [b]) <$> reserved.

#[global] Instance safe_char_dec c : Decision (safe_char c).
Proof. unfold safe_char. apply _. Defined.

Lemma sanitize_safe c : safe_char (sanitize c).
Proof.
  unfold sanitize. destruct (is_control c || bool_decide (c ∈ (fun b => [b]) <$> reserved)) eqn:E.
  - apply (bool_decide_unpack _). vm_compute. exact I.
  - apply orb_false_iff in E as [E1 E2%bool_decide_eq_false]. by split.
Qed.

Lemma trim_end_chars_prefix cs : exists rest, cs = trim_end_chars cs ++ rest.
Proof.
  induction cs as [|c cs [rest IH]]; [by exists []|]. cbn. destruct (trim_end_chars cs) as [|d ds].
  - split_test; [by exists (c :: cs)|by exists cs].
  - exists rest. cbn. by rewrite IH at 1.
Qed.

Lemma split_extension_sub limit cs stem extension :
  split_extension limit cs = Some (stem, extension) ->
  cs = stem ++ [46] :: extension /\ match limit with Some n => (length extension <= n)%nat | None => True end.
Proof.
  unfold split_extension. destruct (rsplit_once cs) as [[st ex]|] eqn:E; cbn; [|done].
  destruct (_ || _) eqn:Hb; [done|]. intros [= <- <-]. split; [by apply rsplit_once_sub|].
  destruct limit; [|done]. apply orb_false_iff in Hb as [_ Hb%bool_decide_eq_false]. lia.
Qed.

Lemma shorten_ok cs :
  Forall safe_char cs -> cs <> [] -> cs ∉ [[[46]]; [[46]; [46]]] ->
  let r := shorten_upload_file_name cs in
  r <> [] /\ Forall safe_char r /\ (length r <= MAX_FILE_NAME_CHARACTERS)%nat /\ r ∉ [[[46]]; [[46]; [46]]].
Proof.
  intros Hs Hne Hdots. cbv zeta. unfold shorten_upload_file_name. split_test; [done|].
  set (suffix := match split_extension (Some 16%nat) cs with Some (_, e) => [46] :: e | None => [] end).
  assert (Forall safe_char suffix /\ (length suffix <= 17)%nat) as [Hsuf Hlen].
  { unfold suffix. destruct (split_extension (Some 16%nat) cs) as [[st ex]|] eqn:E; [|split; [constructor|cbn; lia]].
    apply split_extension_sub in E as [E Hl]. rewrite E in Hs. apply Forall_app in Hs as [_ Hs]. split; [done|]. cbn. lia. }
  assert (length (take (MAX_FILE_NAME_CHARACTERS - length suffix) cs ++ suffix) = MAX_FILE_NAME_CHARACTERS) as Hl.
  { rewrite length_app, length_take. unfold MAX_FILE_NAME_CHARACTERS in *. lia. }
  split_and!.
  - intros E. rewrite E in Hl. done.
  - apply Forall_app. split; [by apply Forall_take|done].
  - lia.
  - intros [E|[E|[]%elem_of_nil]%elem_of_cons]%elem_of_cons; rewrite E in Hl; done.
Qed.

(** The name a file is stored under is one name in its directory, whatever
    the client called it: not empty, not a dot or two, at most 160 characters,
    none of them a control character, a separator or reserved. *)
Theorem upload_name_is_safe file_name :
  let cs := safe_name_chars file_name in
  cs <> [] /\ Forall safe_char cs /\ (length cs <= MAX_FILE_NAME_CHARACTERS)%nat /\ cs ∉ [[[46]]; [[46]; [46]]].
Proof.
  cbv zeta. unfold safe_name_chars. set (base := chars _). set (cs := trim_end_chars (sanitize <$> base)).
  assert (Forall safe_char cs) as Hs.
  { destruct (trim_end_chars_prefix (sanitize <$> base)) as [rest E]. fold cs in E.
    assert (Forall safe_char (sanitize <$> base)) as H by (apply Forall_fmap, Forall_forall; intros c _; apply sanitize_safe).
    rewrite E in H. by apply Forall_app in H as [H _]. }
  destruct (_ || _) eqn:Hb.
  - split_and!; [done| |vm_compute; lia|]; apply (bool_decide_unpack _); vm_compute; exact I.
  - apply orb_false_iff in Hb as [Hne%bool_decide_eq_false Hd%bool_decide_eq_false].
    destruct (is_windows_reserved_file_name cs); [|by apply shorten_ok].
    apply shorten_ok; [constructor; [|done]|done|].
    + apply (bool_decide_unpack _). vm_compute. exact I.
    + intros [E|[E|[]%elem_of_nil]%elem_of_cons]%elem_of_cons; done.
Qed.
End Files.

(** ** Event streams *)

Module Streams.

Record EventStreamState := mkState { next_generation : Z; active : gmap string Z }.
Record EventStreamLease := mkLease { lease_connection : string; generation : Z }.

Definition begin (connection_id : string) (s : EventStreamState) : EventStreamLease * EventStreamState :=
  let generation := u64_saturating_add (next_generation s) 1 in
  (mkLease connection_id generation, mkState generation (<[connection_id := generation]> (active s))).

Definition is_active (connection_id : string) (s : EventStreamState) : bool := is_some (active s !! connection_id).
Definition is_current (lease : EventStreamLease) (s : EventStreamState) : bool :=
  bool_decide (active s !! lease_connection lease = Some (generation lease)).
Definition with_current {R} (lease : EventStreamLease) (action : R) (s : EventStreamState) : option R :=
  if is_current lease s then Some action else None.
Definition finish (lease : EventStreamLease) (s : EventStreamState) : EventStreamState :=
  if is_current lease s then mkState (next_generation s) (delete (lease_connection lease) (active s)) else s.

Inductive Op := Begin (connection_id : string) | Finish (lease : EventStreamLease).

(** The leases that were given out, newest last, and the state after. *)
Fixpoint play (ops : list Op) (given : list EventStreamLease) (s : EventStreamState)
  : list EventStreamLease * EventStreamState :=
  match ops with
  | [] => (given, s)
  | Begin id :: ops => let r := begin id s in play ops (given ++ [r.1]) r.2
  | Finish lease :: ops => play ops given (finish lease s)
  end.

Definition state_ok (given : list EventStreamLease) (s : EventStreamState) : Prop :=
  0 <= next_generation s /\
  (forall id g, active s !! id = Some g -> last (filter (fun l => lease_connection l = id) given) = Some (mkLease id g)) /\
  (forall l, l ∈ given -> generation l <= next_generation s) /\
  NoDup (generation <$> given).

Lemma begin_ok given id s :
  state_ok given s -> next_generation s < u64_max ->
  state_ok (given ++ [(begin id s).1]) (begin id s).2.
Proof.
  intros (Hpos & Hact & Hgen & Hnd) Hlt. unfold begin, u64_saturating_add. cbn [fst snd].
  rewrite Z.min_l by lia. split_and!; cbn.
  - lia.
  - intros id' g. destruct (decide (id' = id)) as [->|Hne].
    + rewrite lookup_insert_eq. intros [= <-]. rewrite filter_app, filter_cons_True by done. by rewrite filter_nil, last_snoc.
    + rewrite lookup_insert_ne by done. intros Hg. rewrite filter_app, filter_cons_False by done.
      rewrite filter_nil, app_nil_r. by apply Hact.
  - intros l [Hl|Hl%list_elem_of_singleton]%elem_of_app; [apply Hgen in Hl; lia|by subst].
  - rewrite fmap_app. cbn. apply NoDup_app. split; [done|]. split; [|apply NoDup_singleton].
    intros g (l & -> & Hl)%list_elem_of_fmap E%list_elem_of_singleton. apply Hgen in Hl. lia.
Qed.

Lemma stream_finish_ok given lease s : state_ok given s -> state_ok given (finish lease s).
Proof.
  intros (Hpos & Hact & Hgen & Hnd). unfold finish. destruct (is_current lease s); [|done]. split_and!; cbn; try done.
  intros id g [_ Hg]%lookup_delete_Some. by apply Hact.
Qed.

Lemma play_ok ops given s :
  state_ok given s -> next_generation s + Z.of_nat (length ops) < u64_max ->
  state_ok (play ops given s).1 (play ops given s).2.
Proof.
  revert given s. induction ops as [|[id|lease] ops IH]; intros given s Hok Hlt; cbn [play length] in *; [done| |].
  - apply IH; [apply begin_ok; [done|lia]|]. cbn. unfold u64_saturating_add. lia.
  - apply IH; [by apply stream_finish_ok|]. unfold finish. destruct (is_current lease s); cbn; lia.
Qed.

(** A connection has one event stream at a time: after any sequence of
    streams begun and finished, a lease that is current is the newest of its
    connection, so two leases in use for a connection are the same, and a stream
    that was replaced can neither take events nor end its successor. *)
Theorem current_stream_is_newest ops lease lease' :
  Z.of_nat (length ops) < u64_max ->
  let '(given, s) := play ops [] (mkState 0 ∅) in
  lease ∈ given -> lease' ∈ given -> is_current lease s = true -> lease_connection lease' = lease_connection lease ->
  last (filter (fun l => lease_connection l = lease_connection lease) given) = Some lease /\
  (is_current lease' s = true -> lease' = lease) /\
  (lease' <> lease -> finish lease' s = s /\ forall R (action : R), with_current lease' action s = None).
Proof.
  intros Hlt. pose proof (play_ok ops [] (mkState 0 ∅)) as Hok.
  destruct (play ops [] (mkState 0 ∅)) as [given s]. cbn [fst snd] in Hok.
  destruct Hok as (_ & Hact & _ & _); [split_and!; cbn; try done; [by intros ? ?%elem_of_nil|constructor]|cbn; lia|].
  intros _ _ Hc Hid. apply bool_decide_eq_true in Hc. pose proof (Hact _ _ Hc) as Hl.
  assert (is_current lease' s = true -> lease' = lease) as Hsame.
  { intros Hc'%bool_decide_eq_true. rewrite Hid, Hc in Hc'. injection Hc' as Hg. destruct lease, lease'. cbn in *. congruence. }
  split; [by destruct lease|]. split; [done|]. intros Hne.
  assert (is_current lease' s = false) as Hn by (apply not_true_iff_false; auto).
  split; [unfold finish; by rewrite Hn|]. intros R action. unfold with_current. by rewrite Hn.
Qed.
End Streams.

(** ** Instances *)

Module UploadWitness.

(** A frame in two chunks with a repeat between them. *)
Definition call (offset : Z) (text : string) : Reliable.Call := Reliable.mkCall ("session"%string, 1) offset 5 (bytes_of text) 0.

Fixpoint calls (cs : list Reliable.Call) (u : gmap (string * Z) Reliable.PendingUpload)
  : list (Reliable.Call * result Reliable.AppendOutcome Reliable.AppendError) * gmap (string * Z) Reliable.PendingUpload :=
  match cs with
  | [] => ([], u)
  | c :: cs => let r := Reliable.apply c u in let rest := calls cs r.2 in ((c, r.1) :: rest.1, rest.2)
  end.

Lemma calls_run cs trace u : Reliable.run trace u -> Reliable.run (trace ++ (calls cs u).1) (calls cs u).2.
Proof.
  revert trace u. induction cs as [|c cs IH]; intros trace u Hr; cbn; [by rewrite app_nil_r|].
  rewrite cons_middle, app_assoc. apply IH. by constructor.
Qed.

Definition half : list (Reliable.Call * result Reliable.AppendOutcome Reliable.AppendError) *
                  gmap (string * Z) Reliable.PendingUpload := calls [call 0 "hel"; call 0 "hel"] ∅.

Lemma half_completed : (Reliable.apply (call 3 "lo") half.2).1 = Ok (Reliable.Complete (bytes_of "hello")).
Proof. vm_compute. reflexivity. Qed.

Lemma completed_frame_is_exact_witness :
  bytes_of "hello" =
    (if bool_decide (Reliable.c_offset (call 3 "lo") = 0) then [] else Reliable.accepted ("session"%string, 1) half.1) ++ bytes_of "lo" /\
  Z.of_nat (length (bytes_of "hello")) = 5 /\ valid_utf8 (bytes_of "hello") = true /\
  (Reliable.apply (call 3 "lo") half.2).2 !! ("session"%string, 1) = None.
Proof.
  apply (Reliable.completed_frame_is_exact half.1 half.2 (call 3 "lo") (bytes_of "hello")).
  - exact (calls_run [call 0 "hel"; call 0 "hel"] [] ∅ Reliable.run_start).
  - exact half_completed.
Defined.

(** A file in two chunks. *)
Definition request (offset : Z) (text : string) (fault : Files.IoFault) : Files.Request :=
  Files.mkRequest "client" "upload-1" "task" "../notes.txt" 5 offset (bytes_of text) 0 "/tmp" fault.
Definition start : Files.Registry := Files.mkRegistry ∅ ∅.
Definition begun : Files.Registry := (Files.append (request 0 "hel" Files.NoFault) start).2.
Definition begun_trace : list (Files.Op * option (result Files.AppendChunkOutcome Files.ChunkUploadError)) :=
  [(Files.OpAppend (request 0 "hel" Files.NoFault), Some (Ok (Files.Partial 3)))].
Definition stored_path : string := "/tmp/openaide/uploads/task/notes.txt".

Lemma begun_run : Files.run ∅ begun_trace begun.
Proof.
  assert (Some (Files.append (request 0 "hel" Files.NoFault) start).1 = Some (Ok (Files.Partial 3))) as E by by vm_compute.
  unfold begun_trace. rewrite <- E.
  exact (Files.run_step ∅ [] start (Files.OpAppend (request 0 "hel" Files.NoFault)) (Files.run_start ∅)).
Qed.

Lemma request_ok offset text : 0 <= offset < 10 -> Files.op_ok (Files.OpAppend (request offset text Files.NoFault)).
Proof. intros H. unfold Files.op_ok, is_u64, u64_modulus. cbn. lia. Qed.

Lemma file_completed :
  (Files.append (request 3 "lo" Files.NoFault) begun).1 = Ok (Files.Complete stored_path "task" "../notes.txt").
Proof. vm_compute. reflexivity. Qed.

Lemma completed_upload_is_exact_witness :
  let bytes := (if bool_decide (Files.offset (request 3 "lo" Files.NoFault) = 0) then []
                else Files.accepted (Files.key_of (request 3 "lo" Files.NoFault)) begun_trace) ++ bytes_of "lo" in
  Files.files (Files.append (request 3 "lo" Files.NoFault) begun).2 !! stored_path = Some bytes /\
  Z.of_nat (length bytes) = 5 /\ "task"%string = "task"%string /\ "../notes.txt"%string = "../notes.txt"%string /\
  Files.unowned stored_path (Files.append (request 3 "lo" Files.NoFault) begun).2.
Proof.
  apply (Files.completed_upload_is_exact ∅ begun_trace begun (request 3 "lo" Files.NoFault) stored_path "task" "../notes.txt").
  - exact begun_run.
  - apply Forall_singleton. apply (request_ok 0 "hel"). lia.
  - apply (request_ok 3 "lo"). lia.
  - exact file_completed.
Defined.

Definition busy : Files.Registry := Files.mkRegistry ∅ {[ "/tmp/other"%string := [1] ]}.

Lemma other_files_are_kept_witness :
  Files.files (Files.step (Files.OpAppend (request 0 "hel" (Files.WriteFailsAfter 1))) busy).2 !! "/tmp/other"%string = Some [1] /\
  Files.unowned "/tmp/other" (Files.step (Files.OpAppend (request 0 "hel" (Files.WriteFailsAfter 1))) busy).2.
Proof.
  apply (Files.other_files_are_kept busy (Files.OpAppend (request 0 "hel" (Files.WriteFailsAfter 1))) "/tmp/other" [1]).
  - vm_compute. reflexivity.
  - intros k s. done.
Defined.

(** A write that stops half way leaves its bytes in the file, and the retry of
    the chunk follows them. *)
Example retried_chunk_is_repeated :
  let r := (Files.append (request 0 "hello" (Files.WriteFailsAfter 2)) start).2 in
  let done_ := Files.append (request 0 "hello" Files.NoFault) r in
  done_.1 = Ok (Files.Complete stored_path "task" "../notes.txt") /\
  Files.files done_.2 !! stored_path = Some (bytes_of "hehello").
Proof. vm_compute. split; reflexivity. Qed.

Lemma current_stream_is_newest_witness :
  let '(given, s) := Streams.play [Streams.Begin "a"; Streams.Begin "a"] [] (Streams.mkState 0 ∅) in
  Streams.mkLease "a" 2 ∈ given -> Streams.mkLease "a" 1 ∈ given -> Streams.is_current (Streams.mkLease "a" 2) s = true ->
  "a"%string = "a"%string ->
  last (filter (fun l => Streams.lease_connection l = "a"%string) given) = Some (Streams.mkLease "a" 2) /\
  (Streams.is_current (Streams.mkLease "a" 1) s = true -> Streams.mkLease "a" 1 = Streams.mkLease "a" 2) /\
  (Streams.mkLease "a" 1 <> Streams.mkLease "a" 2 ->
   Streams.finish (Streams.mkLease "a" 1) s = s /\ forall R (action : R), Streams.with_current (Streams.mkLease "a" 1) action s = None).
Proof.
  apply (Streams.current_stream_is_newest [Streams.Begin "a"; Streams.Begin "a"] (Streams.mkLease "a" 2) (Streams.mkLease "a" 1)).
  vm_compute. reflexivity.
Defined.
End UploadWitness.
