(* ===== verification/AgentProcesses.v ===== *)
(** * Agent processes

    Models [openaide-rs/app-server/src/agent/acp_agent_process_pool.rs], the pool
    of one process per Agent, [acp_process_lifetime.rs], which decides how long a
    process is kept, [acp_early_exit_backoff.rs], which holds back launches of an
    Agent that keeps failing, the locks of [acp_runtime_kernel.rs] and the
    retries of [acp_active_session_manager.rs].

    Calls run in threads that interleave at every lock and every wait: a thread
    has a program counter, the operations that it holds on processes and, while
    it has it, the lock of its Agent.  [step] takes one event: a turn of a
    thread, an answer or its absence, and what the worker of a process does.
    What an Agent answers, the registry of Agents and the provisioner are in the
    events; payloads that the pool passes through unread are left out, and so
    are locks poisoned by a panic.

    Shows that an idle process is retired only when nobody uses it, that an
    Agent has one live process, and that an operation loses its process only
    when this ends by itself or is told to stop; a deletion that launches a
    process breaks the last two, because it takes no lock. *)

From S2P Require Import Prelude Chat Records Journal Mutation.
Local Open Scope Z_scope.

(** ** Launches held back *)

Definition u32_max : Z := 2 ^ 32 - 1.

(** Durations and instants are in milliseconds. *)
Definition FIRST_WAIT : Z := 1000.
Definition LONGEST_WAIT : Z := 30 * 1000.

Record EarlyExits := mkExits { ee_count : Z; ee_retry_at : Z }.
Definition EarlyExitBackoff := gmap string EarlyExits.

(** [1u32.checked_shl]. *)
Definition checked_shl_one (n : Z) : option Z := if bool_decide (n < 32) then Some (Z.shiftl 1 n) else None.

Definition wait_after (exits : Z) : Z :=
  if bool_decide (exits <= 1) then 0
  else Z.min (FIRST_WAIT * default u32_max (checked_shl_one (exits - 2))) LONGEST_WAIT.

(** The number of exits and the wait that is left. *)
Definition held_back (agent_id : string) (now : Z) (b : EarlyExitBackoff) : option (Z * Z) :=
  exits ← b !! agent_id;
  if bool_decide (now < ee_retry_at exits) then Some (ee_count exits, ee_retry_at exits - now) else None.

Definition admit_launch (agent_id : string) (now : Z) (b : EarlyExitBackoff) : result unit RuntimeError :=
  match held_back agent_id now b with
  | None => Ok tt
  | Some _ => Err (NotReady "The Agent keeps exiting during startup. Try again shortly.")
  end.

Definition record_exit (agent_id : string) (now : Z) (b : EarlyExitBackoff) : EarlyExitBackoff :=
  let exits := default (mkExits 0 now) (b !! agent_id) in
  let count := Z.min (ee_count exits + 1) u32_max in
  <[agent_id := mkExits count (now + wait_after count)]> b.

Definition clear_exits (agent_id : string) (b : EarlyExitBackoff) : EarlyExitBackoff := delete agent_id b.

(** ** Errors of a process *)

(** [str::split_once] at a string, its second part. *)
Fixpoint split_after (marker l : list Z) : option (list Z) :=
  match strip_prefix marker l with
  | Some rest => Some rest
  | None => match l with [] => None | _ :: l => split_after marker l end
  end.

Fixpoint leading_digits (l : list Z) : list Z :=
  match l with b :: l => if is_digit b then b :: leading_digits l else [] | [] => [] end.

(** [str::parse] for [i32]. *)
Definition parse_i32 (l : list Z) : option Z :=
  match l with
  | 45 :: digits => if bool_decide (leading_digits digits = digits) then Z.opp <$> parse_unsigned (2 ^ 31 + 1) (of_bytes digits) else None
  | _ => parse_unsigned (2 ^ 31) (of_bytes l)
  end.

Definition numeric_status_after (message marker : string) : option Z :=
  suffix ← split_after (bytes_of marker) (bytes_of message);
  match trim_start suffix with
  | [] => None
  | b :: rest => parse_i32 (b :: leading_digits rest)
  end.

Definition process_exit_code (e : RuntimeError) : option Z := numeric_status_after (error_to_string e) "exit status:".

Definition strip_or_keep (prefix message : list Z) : list Z := default message (strip_prefix prefix message).
Definition strip_runtime_error_prefixes (message : list Z) : list Z :=
  foldl (fun m prefix => strip_or_keep (bytes_of prefix) m) message
    ["internal error: ACP error: "; "internal error: "; "runtime not ready: "].

Definition readable_attachment_stopped_message (raw : string) : string :=
  let message := trim_bytes (bytes_of raw) in
  if bool_decide (is_Some (split_after (bytes_of "Authentication required") message))
  then "Authentication required. Open Settings and authenticate this Agent before starting a Task."
  else of_bytes (strip_runtime_error_prefixes message).

Definition normalize_startup_error (e : RuntimeError) : RuntimeError :=
  match e with Internal message => NotReady message | e => e end.

(** ** The life of one process *)

Record ProcessIdleTimeouts := mkTimeouts { it_short : Z; it_long : Z }.
Definition default_idle_timeouts : ProcessIdleTimeouts := mkTimeouts (6 * 60 * 1000) (30 * 60 * 1000).

(** Why App Server stops a process. *)
Inductive ProcessStopReason :=
| ProbeTimeout | SessionStartTimeout | SessionStartProcessEnded | AuthEnvironmentChanged | AuthFailed | AuthReconnect
| AuthCancelled | StopLogout | AgentShutdown.

Definition is_request_timeout (reason : ProcessStopReason) : bool :=
  match reason with ProbeTimeout | SessionStartTimeout => true | _ => false end.

Definition STARTUP_INSTALL_GRACE : Z := 5 * 60 * 1000.

Section Processes.
Context `{EqDecision RequestId, !Countable RequestId}.

(** What the inspection of the transport tells apart. *)
Inductive Message :=
| Request (id : RequestId) (method : string)
| Response (id : RequestId)
| Notification.

(** [State] of the lifetime. *)
Record Lifetime := mkLifetime {
  lt_last_activity : Z; lt_long_retention : bool; lt_stopping : bool; lt_initialized : bool;
  lt_admitted_operations : Z; lt_agent_requests : gset RequestId }.

Definition following (now : Z) : Lifetime := mkLifetime now false false false 0 ∅.

Definition set_admitted (n : Z) (l : Lifetime) : Lifetime :=
  mkLifetime (lt_last_activity l) (lt_long_retention l) (lt_stopping l) (lt_initialized l) n (lt_agent_requests l).

Definition mark_initialized (l : Lifetime) : Lifetime :=
  mkLifetime (lt_last_activity l) (lt_long_retention l) (lt_stopping l) true (lt_admitted_operations l) (lt_agent_requests l).

(** [acquire], the lifetime with one more [ProcessOperation], and the drop of one. *)
Definition acquire (l : Lifetime) : option Lifetime :=
  if lt_stopping l then None else Some (set_admitted (lt_admitted_operations l +64 1) l).
Definition drop_operation (l : Lifetime) : Lifetime := set_admitted (u64_sub (lt_admitted_operations l) 1) l.

Definition retains (method : string) : bool :=
  bool_decide (method ∈ ["session/new"; "session/prompt"; "session/fork"; "session/set_config_option"; "session/set_mode";
                         "session/set_model"; "session/delete"]).

Definition observe (now : Z) (message : Message) (from_client : bool) (l : Lifetime) : Lifetime :=
  let '(long, requests) :=
    match message with
    | Request id method =>
        (lt_long_retention l || (from_client && retains method),
         if from_client then lt_agent_requests l else {[id]} ∪ lt_agent_requests l)
    | Response id => (lt_long_retention l, if from_client then lt_agent_requests l ∖ {[id]} else lt_agent_requests l)
    | Notification => (lt_long_retention l, lt_agent_requests l)
    end in
  mkLifetime now long (lt_stopping l) (lt_initialized l) (lt_admitted_operations l) requests.

(** One round of the loop of [expired]: the expiration is claimed, or the worker
    waits for a change and, when it has one, for its deadline. *)
Inductive Expiry := Claimed (timeout : Z) | WaitUntil (deadline : Z) | WaitForChange.

Definition expired (policy : ProcessIdleTimeouts) (now : Z) (l : Lifetime) : Expiry * Lifetime :=
  let timeout := if lt_long_retention l then it_long policy else it_short policy in
  if bool_decide (0 < lt_admitted_operations l) || negb (bool_decide (lt_agent_requests l = ∅)) then (WaitForChange, l)
  else
    let deadline := lt_last_activity l + timeout in
    if bool_decide (deadline <= now)
    then (Claimed timeout,
          mkLifetime (lt_last_activity l) (lt_long_retention l) true (lt_initialized l) (lt_admitted_operations l) (lt_agent_requests l))
    else (WaitUntil deadline, l).

(** ** The pool and its callers *)

(** The entries of an environment are in the order of their iteration. *)
Record AcpAuthEnvironment := mkAuthEnvironment {
  ae_env : list (string * string); ae_secret_env : list string; ae_secret_storage_agent_id : string }.

Record AcpAgentConfig := mkConfig {
  ac_agent_id : string; ac_command : string; ac_args : list string; ac_env : list (string * string); ac_secret_env : list string }.

(** A process; its index in [w_processes] is its identity.  [ap_closed] holds the
    result of the worker once its channels are gone, [ap_gone] is set at the end
    of the thread. *)
Record AgentProcess := mkProcess {
  ap_agent_id : string; ap_config : AcpAgentConfig; ap_lifetime : Lifetime; ap_launched_at : Z; ap_shutdown : bool;
  ap_closed : option (result unit RuntimeError); ap_gone : bool; ap_terminal_error : option string }.

Inductive Call :=
| OpenSession (agent_id : string)
| ListSessions (agent_id : string)
| ForkSession (agent_id : string)
| DeleteSession (agent_id : string)
| Probe (agent_id : string)
| Authenticate (agent_id : string) (environment : option AcpAuthEnvironment)
| Logout (agent_id : string)
| ReadAccountLimits (agent_id : string)
| CancelAuthentication (agent_id : string)
| ShutdownAgent (agent_id : string)
| UseSession (process : nat).

(** What follows a stop. *)
Inductive Next :=
| ThenSeek
| ThenRetry
| ThenProbe
| ThenReturn (r : result unit RuntimeError).

(** Where a thread is: before the lock of its Agent, before what its call does
    first, before [existing_process], before [acquire], before [launch_process],
    before the send, waiting for the answer, a listing whose send failed, before
    [existing_process] of a stop, before [stop_process], and done. *)
Inductive Pc :=
| Lock
| Start
| Seek
| Found (p : nat)
| Launch
| Send (p : nat)
| Wait (p : nat)
| Evict (p : nat)
| StopCurrent (reason : ProcessStopReason) (next : Next)
| Stop (p : nat) (reason : ProcessStopReason) (next : Next)
| Return (r : result unit RuntimeError).

(** [t_guards] are the processes of the [ProcessOperation]s that it holds. *)
Record Thread := mkThread {
  t_call : Call; t_pc : Pc; t_locked : bool; t_guards : list nat; t_attempt : Z; t_previous : option AcpAuthEnvironment }.

Record World := mkWorld {
  w_now : Z; w_timeouts : ProcessIdleTimeouts; w_pool : gmap string nat; w_processes : list AgentProcess;
  w_early_exits : EarlyExitBackoff; w_auth_environments : gmap string AcpAuthEnvironment; w_threads : list Thread }.

Definition call_agent (c : Call) : option string :=
  match c with
  | OpenSession a | ListSessions a | ForkSession a | DeleteSession a | Probe a | Authenticate a _ | Logout a | ReadAccountLimits a
  | CancelAuthentication a | ShutdownAgent a => Some a
  | UseSession _ => None
  end.

(** The first step of a call, by whether it takes the lock of its Agent. *)
Definition first_pc (c : Call) : Pc :=
  match c with
  | DeleteSession _ => Seek
  | CancelAuthentication _ => StopCurrent AuthCancelled (ThenReturn (Ok tt))
  | UseSession p => Found p
  | _ => Lock
  end.

(** The lock is held for the dispatch only. *)
Definition dispatches (c : Call) : bool := match c with ListSessions _ | ReadAccountLimits _ => true | _ => false end.

Definition set_pool (pool : gmap string nat) (w : World) : World :=
  mkWorld (w_now w) (w_timeouts w) pool (w_processes w) (w_early_exits w) (w_auth_environments w) (w_threads w).
Definition set_processes (ps : list AgentProcess) (w : World) : World :=
  mkWorld (w_now w) (w_timeouts w) (w_pool w) ps (w_early_exits w) (w_auth_environments w) (w_threads w).
Definition set_exits (b : EarlyExitBackoff) (w : World) : World :=
  mkWorld (w_now w) (w_timeouts w) (w_pool w) (w_processes w) b (w_auth_environments w) (w_threads w).
Definition set_auth (e : gmap string AcpAuthEnvironment) (w : World) : World :=
  mkWorld (w_now w) (w_timeouts w) (w_pool w) (w_processes w) (w_early_exits w) e (w_threads w).
Definition set_threads (ts : list Thread) (w : World) : World :=
  mkWorld (w_now w) (w_timeouts w) (w_pool w) (w_processes w) (w_early_exits w) (w_auth_environments w) ts.
Definition set_thread (i : nat) (t : Thread) (w : World) : World := set_threads (<[i := t]> (w_threads w)) w.

Definition on_lifetime (f : Lifetime -> Lifetime) (p : AgentProcess) : AgentProcess :=
  mkProcess (ap_agent_id p) (ap_config p) (f (ap_lifetime p)) (ap_launched_at p) (ap_shutdown p) (ap_closed p) (ap_gone p) (ap_terminal_error p).
Definition tell_shutdown (p : AgentProcess) : AgentProcess :=
  mkProcess (ap_agent_id p) (ap_config p) (ap_lifetime p) (ap_launched_at p) true (ap_closed p) (ap_gone p) (ap_terminal_error p).
Definition close (r : result unit RuntimeError) (p : AgentProcess) : AgentProcess :=
  mkProcess (ap_agent_id p) (ap_config p) (ap_lifetime p) (ap_launched_at p) (ap_shutdown p) (Some r) (ap_gone p) (ap_terminal_error p).
Definition set_gone (e : option string) (p : AgentProcess) : AgentProcess :=
  mkProcess (ap_agent_id p) (ap_config p) (ap_lifetime p) (ap_launched_at p) (ap_shutdown p) (ap_closed p) true e.

Definition set_pc (pc : Pc) (t : Thread) : Thread := mkThread (t_call t) pc (t_locked t) (t_guards t) (t_attempt t) (t_previous t).
Definition set_locked (b : bool) (t : Thread) : Thread := mkThread (t_call t) (t_pc t) b (t_guards t) (t_attempt t) (t_previous t).
Definition set_guards (g : list nat) (t : Thread) : Thread := mkThread (t_call t) (t_pc t) (t_locked t) g (t_attempt t) (t_previous t).
Definition set_attempt (n : Z) (t : Thread) : Thread := mkThread (t_call t) (t_pc t) (t_locked t) (t_guards t) n (t_previous t).
Definition set_previous (e : option AcpAuthEnvironment) (t : Thread) : Thread := mkThread (t_call t) (t_pc t) (t_locked t) (t_guards t) (t_attempt t) e.
Definition set_call (c : Call) (t : Thread) : Thread := mkThread c (t_pc t) (t_locked t) (t_guards t) (t_attempt t) (t_previous t).

Definition is_open (p : AgentProcess) : bool := bool_decide (ap_closed p = None).

(** [existing_process]. *)
Definition existing_process (agent_id : string) (w : World) : option nat :=
  id ← w_pool w !! agent_id; p ← w_processes w !! id;
  if negb (lt_stopping (ap_lifetime p)) && is_open p then Some id else None.

Definition remove_process (agent_id : string) (w : World) : World := set_pool (delete agent_id (w_pool w)) w.

(** [remove_process_if_current]. *)
Definition is_current (agent_id : string) (p : nat) (w : World) : bool := bool_decide (w_pool w !! agent_id = Some p).
Definition remove_process_if_current (agent_id : string) (p : nat) (w : World) : World :=
  if is_current agent_id p w then remove_process agent_id w else w.

Definition update_process (f : AgentProcess -> AgentProcess) (p : nat) (w : World) : World :=
  set_processes (alter f p (w_processes w)) w.

(** [stop_process]; nobody but the worker reads the flag. *)
Definition stop_deferred (now : Z) (reason : ProcessStopReason) (p : AgentProcess) : bool :=
  is_request_timeout reason && negb (lt_initialized (ap_lifetime p)) && bool_decide (now - ap_launched_at p < STARTUP_INSTALL_GRACE).
Definition stop_process (agent_id : string) (p : nat) (reason : ProcessStopReason) (w : World) : World :=
  match w_processes w !! p with
  | None => w
  | Some process =>
      if stop_deferred (w_now w) reason process then w
      else if is_current agent_id p w then update_process tell_shutdown p (remove_process agent_id w)
      else w
  end.

(** What the registry and the provisioner give for the Agent, and whether the
    command of a configuration can be found. *)
Record Launcher := mkLauncher {
  la_declared : result AcpAgentConfig RuntimeError; la_available : AcpAgentConfig -> result unit RuntimeError }.

(** The environment of a sign-in goes into the configuration. *)
Definition with_auth_environment (auth : option AcpAuthEnvironment) (c : AcpAgentConfig) : AcpAgentConfig :=
  match auth with
  | None => c
  | Some auth =>
      mkConfig (ae_secret_storage_agent_id auth) (ac_command c) (ac_args c) (ac_env c ++ ae_env auth) (ae_secret_env auth)
  end.

(** [launch_process]: the new process, with the operation of its caller. *)
Definition launch_process (la : Launcher) (agent_id : string) (w : World) : result (nat * World) RuntimeError :=
  check? admit_launch agent_id (w_now w) (w_early_exits w) in
  let? config := la_declared la in
  let config := with_auth_environment (w_auth_environments w !! agent_id) config in
  check? la_available la config in
  let p := length (w_processes w) in
  let lifetime := following (w_now w) in
  let lifetime := default lifetime (acquire lifetime) in
  let process := mkProcess agent_id config lifetime (w_now w) false None false None in
  Ok (p, set_pool (<[agent_id := p]> (w_pool w)) (set_processes (w_processes w ++ [process]) w)).

(** The drop of the operations of a thread. *)
Definition release (guards : list nat) (w : World) : World :=
  foldr (update_process (on_lifetime drop_operation)) w guards.

(** The end of a call: its operations and its lock are dropped. *)
Definition finish (i : nat) (t : Thread) (r : result unit RuntimeError) (w : World) : World :=
  set_thread i (set_pc (Return r) (set_locked false (set_guards [] t))) (release (t_guards t) w).

(** Another attempt, from the given step. *)
Definition retry (i : nat) (t : Thread) (pc : Pc) (w : World) : World :=
  set_thread i (set_pc pc (set_attempt (t_attempt t + 1) (set_guards [] t))) (release (t_guards t) w).

Definition has_environment (c : Call) : bool := match c with Authenticate _ (Some _) => true | _ => false end.

(** [restore_auth_environment]. *)
Definition restore_auth_environment (agent_id : string) (previous : option AcpAuthEnvironment) (w : World) : World :=
  set_auth (partial_alter (fun _ => previous) agent_id (w_auth_environments w)) w.
Definition restore_if (agent_id : string) (t : Thread) (w : World) : World :=
  if has_environment (t_call t) then restore_auth_environment agent_id (t_previous t) w else w.

(** The lock of the Agent is free. *)
Definition holds_lock (agent_id : string) (t : Thread) : bool := t_locked t && bool_decide (call_agent (t_call t) = Some agent_id).
Definition lock_free (agent_id : string) (w : World) : bool := negb (existsb (holds_lock agent_id) (w_threads w)).

Definition MAX_SESSION_OPEN_ATTEMPTS : Z := 2.

Definition continue (i : nat) (t : Thread) (agent_id : string) (next : Next) (w : World) : World :=
  match next with
  | ThenSeek => set_thread i (set_pc Seek t) w
  | ThenRetry => retry i t Seek w
  | ThenProbe => set_thread i (set_pc Seek (set_call (Probe agent_id) t)) w
  | ThenReturn r => finish i t r w
  end.

(** What a call does first. *)
Definition start_call (i : nat) (t : Thread) (agent_id : string) (w : World) : World :=
  match t_call t with
  | Authenticate _ (Some environment) =>
      set_thread i (set_pc (StopCurrent AuthEnvironmentChanged ThenSeek) (set_previous (w_auth_environments w !! agent_id) t))
        (set_auth (<[agent_id := environment]> (w_auth_environments w)) w)
  | ShutdownAgent _ =>
      set_thread i (set_pc (StopCurrent AgentShutdown (ThenReturn (Ok tt))) t) (set_exits (clear_exits agent_id (w_early_exits w)) w)
  | _ => set_thread i (set_pc Seek t) w
  end.

(** A process that is found is used, when it admits an operation. *)
Definition take_process (i : nat) (t : Thread) (p : nat) (w : World) : option World :=
  process ← w_processes w !! p;
  Some match acquire (ap_lifetime process) with
       | Some l =>
           let pc := match t_call t with UseSession _ => Wait p | _ => Send p end in
           set_thread i (set_pc pc (set_guards (p :: t_guards t) t)) (update_process (on_lifetime (fun _ => l)) p w)
       | None =>
           match t_call t with
           | UseSession _ => finish i t (Err (NotReady (default "Native Session attachment stopped" (ap_terminal_error process)))) w
           | _ => set_thread i (set_pc Launch t) w
           end
       end.

(** A launch; the first session of a new process goes with it. *)
Definition launch (la : Launcher) (i : nat) (t : Thread) (agent_id : string) (w : World) : World :=
  match launch_process la agent_id w with
  | Ok (p, w) =>
      let pc := match t_call t with OpenSession _ => Wait p | _ => Send p end in
      set_thread i (set_pc pc (set_guards (p :: t_guards t) t)) w
  | Err e => finish i t (Err e) (restore_if agent_id t w)
  end.

Definition ended_before (c : Call) : RuntimeError :=
  NotReady match c with
           | ForkSession _ => "ACP agent process ended before session fork"
           | DeleteSession _ => "ACP process ended before session deletion"
           | Probe _ => "ACP agent process ended before probe"
           | Authenticate _ _ => "ACP agent process ended before authentication"
           | Logout _ => "ACP agent process ended before logout"
           | ReadAccountLimits _ => "ACP agent process ended before account limits read"
           | _ => "ACP agent process ended before session listing"
           end.

(** Another attempt of a listing, which takes the lock again. *)
Definition list_again (i : nat) (t : Thread) (agent_id : string) (p : nat) (e : RuntimeError) (w : World) : World :=
  let w := remove_process_if_current agent_id p w in
  if bool_decide (t_attempt t = 1) then retry i t Lock w else finish i t (Err e) w.

Definition send_request (i : nat) (t : Thread) (agent_id : string) (p : nat) (w : World) : option World :=
  process ← w_processes w !! p;
  Some (if is_open process then set_thread i (set_pc (Wait p) (set_locked (t_locked t && negb (dispatches (t_call t))) t)) w
        else
          match t_call t with
          | OpenSession _ => set_thread i (set_pc Launch (set_guards [] t)) (release (t_guards t) (remove_process agent_id w))
          | ListSessions _ => set_thread i (set_pc (Evict p) (set_locked false t)) w
          | c => finish i t (Err (ended_before c)) w
          end).

(** A step of a thread that waits for nobody. *)
Definition turn (la : Launcher) (i : nat) (w : World) : option World :=
  t ← w_threads w !! i;
  match t_pc t, call_agent (t_call t) with
  | Found p, _ => take_process i t p w
  | Lock, Some a => if lock_free a w then Some (set_thread i (set_pc Start (set_locked true t)) w) else None
  | Start, Some a => Some (start_call i t a w)
  | Seek, Some a =>
      Some (set_thread i (set_pc (match existing_process a w with Some p => Found p | None => Launch end) t) w)
  | Launch, Some a => Some (launch la i t a w)
  | Send p, Some a => send_request i t a p w
  | Evict p, Some a => Some (list_again i t a p (ended_before (t_call t)) w)
  | StopCurrent reason next, Some a =>
      Some match existing_process a w with
           | Some p => set_thread i (set_pc (Stop p reason next) t) w
           | None => continue i t a next w
           end
  | Stop p reason next, Some a => Some (continue i t a next (stop_process a p reason w))
  | _, _ => None
  end.

(** The answer to the opening of a session. *)
Definition open_answered (i : nat) (t : Thread) (r : result bool RuntimeError) (w : World) : World :=
  finish i t (match r with Ok _ => Ok tt | Err e => Err (normalize_startup_error e) end) w.
Definition open_timed_out (i : nat) (t : Thread) (p : nat) (w : World) : World :=
  set_thread i (set_pc (Stop p SessionStartTimeout (ThenReturn (Err (NotReady "ACP session start timed out")))) t) w.
Definition open_lost (i : nat) (t : Thread) (p : nat) (w : World) : World :=
  let next := if bool_decide (t_attempt t < MAX_SESSION_OPEN_ATTEMPTS) then ThenRetry
              else ThenReturn (Err (NotReady "ACP session ended before startup completed")) in
  set_thread i (set_pc (Stop p SessionStartProcessEnded next) t) w.

(** The answer to a sign-in says whether the process must reconnect. *)
Definition authenticate_answered (i : nat) (t : Thread) (agent_id : string) (p : nat) (r : result bool RuntimeError) (w : World) : World :=
  match r with
  | Err e =>
      if has_environment (t_call t)
      then set_thread i (set_pc (StopCurrent AuthFailed (ThenReturn (Err e))) t) (restore_if agent_id t w)
      else finish i t (Err e) w
  | Ok true => set_thread i (set_pc (Stop p AuthReconnect ThenProbe) t) w
  | Ok false => finish i t (Ok tt) w
  end.

Definition logout_answered (i : nat) (t : Thread) (agent_id : string) (p : nat) (r : result bool RuntimeError) (w : World) : World :=
  match r with
  | Err e => finish i t (Err e) w
  | Ok _ =>
      set_thread i (set_pc (Stop p StopLogout (ThenReturn (Ok tt))) t) (set_auth (delete agent_id (w_auth_environments w)) w)
  end.

Definition probe_timed_out (i : nat) (t : Thread) (p : nat) (w : World) : World :=
  set_thread i (set_pc (Stop p ProbeTimeout (ThenReturn (Err (NotReady "ACP Agent probe timed out")))) t) w.

(** The sender of the answer to a listing goes with its connection. *)
Definition list_lost (i : nat) (t : Thread) (agent_id : string) (p : nat) (w : World) : option World :=
  process ← w_processes w !! p;
  if is_open process then None
  else Some (list_again i t agent_id p (NotReady "ACP agent process ended during session listing") w).

Definition list_unanswered : RuntimeError := NotReady "ACP session listing timed out".
Definition fork_unanswered : RuntimeError := NotReady "ACP session fork timed out".
Definition delete_unanswered : RuntimeError := OutcomeUnknown "Session deletion outcome is unknown; retry explicitly".
Definition limits_unanswered : RuntimeError := NotReady "ACP account limits read did not answer".

(** The answer of the process. *)
Definition answered (i : nat) (r : result bool RuntimeError) (w : World) : option World :=
  t ← w_threads w !! i;
  match t_pc t, t_call t with
  | Wait p, OpenSession _ => Some (open_answered i t r w)
  | Wait p, Authenticate a _ => Some (authenticate_answered i t a p r w)
  | Wait p, Logout a => Some (logout_answered i t a p r w)
  | Wait p, _ => Some (finish i t (match r with Ok _ => Ok tt | Err e => Err e end) w)
  | _, _ => None
  end.

(** No answer in time; a sign-in and a logout wait without a limit. *)
Definition timed_out (i : nat) (w : World) : option World :=
  t ← w_threads w !! i;
  match t_pc t, t_call t with
  | Wait p, OpenSession _ => Some (open_timed_out i t p w)
  | Wait p, ListSessions _ => Some (finish i t (Err list_unanswered) w)
  | Wait p, ForkSession _ => Some (finish i t (Err fork_unanswered) w)
  | Wait p, DeleteSession _ => Some (finish i t (Err delete_unanswered) w)
  | Wait p, Probe _ => Some (probe_timed_out i t p w)
  | Wait p, ReadAccountLimits _ => Some (finish i t (Err limits_unanswered) w)
  | _, _ => None
  end.

(** The sender of the answer is gone. *)
Definition answer_lost (i : nat) (w : World) : option World :=
  t ← w_threads w !! i;
  match t_pc t, t_call t with
  | Wait p, OpenSession _ => Some (open_lost i t p w)
  | Wait p, ListSessions a => list_lost i t a p w
  | Wait p, Authenticate _ _ => Some (finish i t (Err (NotReady "ACP agent process ended during authentication")) w)
  | Wait p, Logout _ => Some (finish i t (Err (NotReady "ACP agent process ended during logout")) w)
  | _, _ => timed_out i w
  end.

(** [lock_listing_dispatch] gives up. *)
Definition listing_gives_up (i : nat) (w : World) : option World :=
  t ← w_threads w !! i;
  match t_pc t, t_call t with
  | Lock, ListSessions _ => Some (finish i t (Err (NotReady "Agent is busy; retry history refresh")) w)
  | _, _ => None
  end.

(** ** The worker of a process *)

(** The thread holds a client of the process, which keeps its channels open. *)
Definition pc_process (pc : Pc) : option nat := match pc with Found p | Send p | Wait p | Evict p | Stop p _ _ => Some p | _ => None end.
Definition holds_client (p : nat) (t : Thread) : bool :=
  match t_call t, t_pc t with
  | UseSession _, _ => false
  | ReadAccountLimits _, Wait _ => false
  | _, pc => bool_decide (pc_process pc = Some p) || bool_decide (p ∈ t_guards t)
  end.
Definition has_client (p : nat) (w : World) : bool :=
  bool_decide (map_Exists (fun _ q => q = p) (w_pool w)) || existsb (holds_client p) (w_threads w).

(** The end of [run_acp_agent_process] by what its [select] sees: the connection
    ends, the process is told to stop, it is retired, or the sender of the
    shutdown is gone with the last client. *)
Definition worker_closes (r : result unit RuntimeError) (p : nat) (allowed : AgentProcess -> bool) (w : World) : option World :=
  process ← w_processes w !! p;
  if is_open process && allowed process then Some (update_process (close r) p w) else None.

(** The end of the thread: only this generation is removed. *)
Definition worker_ends (p : nat) (w : World) : option World :=
  process ← w_processes w !! p;
  if ap_gone process then None else
  match ap_closed process with
  | None => None
  | Some r =>
      let a := ap_agent_id process in
      let initialized := lt_initialized (ap_lifetime process) in
      let w := remove_process_if_current a p w in
      let w := if initialized then set_exits (clear_exits a (w_early_exits w)) w else w in
      Some match r with
           | Ok _ => update_process (set_gone None) p w
           | Err e =>
               let w := update_process (set_gone (Some (readable_attachment_stopped_message (error_to_string e)))) p w in
               if bool_decide (is_Some (process_exit_code e)) && negb initialized
               then set_exits (record_exit a (w_now w) (w_early_exits w)) w else w
           end
  end.

(** What the worker does with the lifetime while the connection is open. *)
Definition while_open (f : AgentProcess -> AgentProcess) (p : nat) (w : World) : option World :=
  process ← w_processes w !! p;
  if is_open process then Some (update_process f p w) else None.

Inductive Event :=
| Begin (c : Call)
| Turn (i : nat) (la : Launcher)
| Answer (i : nat) (r : result bool RuntimeError)
| TimeOut (i : nat)
| Lost (i : nat)
| GiveUp (i : nat)
| Tick (d : Z)
| Initialize (p : nat)
| Observe (p : nat) (message : Message) (from_client : bool)
| Expire (p : nat)
| Retire (p : nat)
| Shutdown (p : nat)
| Abandon (p : nat)
| ConnectionEnd (p : nat) (r : result unit RuntimeError)
| WorkerEnd (p : nat).

Definition step (e : Event) (w : World) : option World :=
  match e with
  | Begin c => Some (set_threads (w_threads w ++ [mkThread c (first_pc c) false [] 1 None]) w)
  | Turn i la => turn la i w
  | Answer i r => answered i r w
  | TimeOut i => timed_out i w
  | Lost i => answer_lost i w
  | GiveUp i => listing_gives_up i w
  | Tick d =>
      if bool_decide (0 <= d)
      then Some (mkWorld (w_now w + d) (w_timeouts w) (w_pool w) (w_processes w) (w_early_exits w) (w_auth_environments w) (w_threads w))
      else None
  | Initialize p => while_open (on_lifetime mark_initialized) p w
  | Observe p message from_client => while_open (on_lifetime (observe (w_now w) message from_client)) p w
  | Expire p => while_open (on_lifetime (fun l => (expired (w_timeouts w) (w_now w) l).2)) p w
  | Retire p => worker_closes (Ok tt) p (fun process => lt_stopping (ap_lifetime process)) w
  | Shutdown p => worker_closes (Ok tt) p ap_shutdown w
  | Abandon p => worker_closes (Ok tt) p (fun _ => negb (has_client p w)) w
  | ConnectionEnd p r => worker_closes r p (fun _ => true) w
  | WorkerEnd p => worker_ends p w
  end.

Fixpoint run (es : list Event) (w : World) : option World :=
  match es with [] => Some w | e :: es => w ← step e w; run es w end.

Definition new_pool : World := mkWorld 0 default_idle_timeouts ∅ [] ∅ ∅ [].

(** ** Operations are counted *)

Definition count (p : nat) (guards : list nat) : nat := length (filter (eq p) guards).
Definition held (p : nat) (ts : list Thread) : nat := sum_list_with (fun t => count p (t_guards t)) ts.
Definition total (ts : list Thread) : nat := sum_list_with (fun t => length (t_guards t)) ts.

Lemma sum_insert {A} (f : A -> nat) l i x y : l !! i = Some x ->
  (sum_list_with f (<[i := y]> l) + f x = sum_list_with f l + f y)%nat.
Proof.
  revert i. induction l as [|z l IH]; intros [|i] H; try done; simpl in H; simpl.
  - injection H as ->. lia.
  - specialize (IH _ H). lia.
Qed.

Lemma count_cons p q g : count p (q :: g) = ((if decide (p = q) then 1 else 0) + count p g)%nat.
Proof. unfold count. rewrite filter_cons. by destruct (decide _). Qed.

Lemma held_insert p ts i t t' : ts !! i = Some t ->
  (held p (<[i := t']> ts) + count p (t_guards t) = held p ts + count p (t_guards t'))%nat.
Proof. apply (sum_insert (fun t => count p (t_guards t))). Qed.

Lemma held_le_total p ts : (held p ts <= total ts)%nat.
Proof.
  unfold held, total. induction ts as [|t ts IH]; cbn; [done|]. pose proof (length_filter (eq p) (t_guards t)).
  unfold count in *. lia.
Qed.

Lemma count_pos p g : p ∈ g -> (0 < count p g)%nat.
Proof.
  induction 1 as [|? ? ? ? IH]; rewrite count_cons; [rewrite decide_True by done|]; lia.
Qed.

Lemma held_pos p ts t : t ∈ ts -> p ∈ t_guards t -> (0 < held p ts)%nat.
Proof.
  intros Ht Hp. apply list_elem_of_lookup in Ht as [i Hi]. pose proof (held_insert p ts i t (set_guards [] t) Hi) as H.
  pose proof (count_pos p _ Hp). change (count p (t_guards (set_guards [] t))) with O in H. lia.
Qed.

(** Each operation that is held is counted, and a retiring process has none. *)
Definition counts (ps : list AgentProcess) (ts : list Thread) : Prop := forall p process, ps !! p = Some process ->
  lt_admitted_operations (ap_lifetime process) = Z.of_nat (held p ts) mod u64_modulus /\
  (lt_stopping (ap_lifetime process) = true -> held p ts = O).

Record counted (n : nat) (w : World) : Prop := {
  co_total : (total (w_threads w) <= n)%nat;
  co_range : forall t p, t ∈ w_threads w -> p ∈ t_guards t -> (p < length (w_processes w))%nat;
  co_counts : counts (w_processes w) (w_threads w);
}.

(** The lifetime after the drop of some operations. *)
Lemma dropped n l : lt_admitted_operations (Nat.iter n drop_operation l) = (lt_admitted_operations l - Z.of_nat n) mod u64_modulus \/ n = O.
Proof.
  induction n as [|n IH]; [by right|left]. rewrite Nat.iter_succ. change (u64_sub (lt_admitted_operations (Nat.iter n drop_operation l)) 1 =
    (lt_admitted_operations l - Z.of_nat (S n)) mod u64_modulus). unfold u64_sub.
  destruct IH as [->| ->]; [|done]. rewrite Zminus_mod_idemp_l. f_equal. lia.
Qed.

Lemma drop_stopping n l : lt_stopping (Nat.iter n drop_operation l) = lt_stopping l.
Proof. induction n as [|n IH]; [done|]. by rewrite Nat.iter_succ. Qed.

(** What [release] does to each process. *)
Lemma release_lookup g w p : w_processes (release g w) !! p = on_lifetime (Nat.iter (count p g) drop_operation) <$> w_processes w !! p.
Proof.
  induction g as [|q g IH]; cbn [release foldr].
  - destruct (_ !! p) as [[]|]; done.
  - fold (release g w). unfold update_process. cbn [w_processes set_processes]. rewrite count_cons.
    destruct (decide (p = q)) as [->|Hne].
    + rewrite list_lookup_alter_eq, IH, <- option_fmap_compose. cbn [Nat.add]. by apply option_fmap_ext.
    + rewrite list_lookup_alter_ne by done. apply IH.
Qed.

Lemma release_world g w : w_threads (release g w) = w_threads w /\ w_pool (release g w) = w_pool w /\ w_now (release g w) = w_now w /\
  w_early_exits (release g w) = w_early_exits w /\ length (w_processes (release g w)) = length (w_processes w).
Proof.
  induction g as [|q g IH]; [done|]. cbn [release foldr]. fold (release g w). unfold update_process, set_processes. cbn.
  rewrite length_alter. done.
Qed.

(** Changes of the shared state that leave the lifetimes alone. *)
Definition kept (a b : AgentProcess) : Prop :=
  ap_agent_id b = ap_agent_id a /\ ap_lifetime b = ap_lifetime a /\ ap_closed b = ap_closed a /\ (ap_shutdown a = true -> ap_shutdown b = true).
Definition calm (w w' : World) : Prop := w_threads w' = w_threads w /\ Forall2 kept (w_processes w) (w_processes w') /\
  w_now w' = w_now w /\ w_early_exits w' ⊆ w_early_exits w.

Lemma kept_refl ps : Forall2 kept ps ps.
Proof. apply Forall_Forall2_diag, Forall_true. by intros. Qed.

Lemma calm_same w w' : w_threads w' = w_threads w -> w_processes w' = w_processes w -> w_now w' = w_now w -> w_early_exits w' = w_early_exits w ->
  calm w w'.
Proof. intros H1 H2 H3 H4. split; [done|]. rewrite H2, H4. split; [apply kept_refl|done]. Qed.

Lemma calm_tell w w' p : calm w w' -> calm w (update_process tell_shutdown p w').
Proof.
  intros (Ht & Hp & Hn). split; [done|]. split; [|done]. unfold update_process. cbn. apply Forall2_same_length_lookup_2.
  - rewrite length_alter. by eapply Forall2_length.
  - intros i a b Ha Hb. destruct (decide (i = p)) as [->|Hne].
    + rewrite list_lookup_alter_eq in Hb. apply fmap_Some in Hb as (b0 & Hb & ->). by destruct (Forall2_lookup_lr _ _ _ _ _ _ Hp Ha Hb) as (?&?&?&_).
    + rewrite list_lookup_alter_ne in Hb by done. by eapply Forall2_lookup_lr.
Qed.

Lemma remove_calm a p w : calm w (remove_process_if_current a p w).
Proof. unfold remove_process_if_current. destruct (is_current a p w); by apply calm_same. Qed.

Lemma stop_calm a p reason w : calm w (stop_process a p reason w).
Proof.
  unfold stop_process. destruct (_ !! p); [|by apply calm_same]. destruct (stop_deferred _ _ _); [by apply calm_same|].
  destruct (is_current a p w); [|by apply calm_same]. apply calm_tell. by apply calm_same.
Qed.

Lemma restore_calm a t w : calm w (restore_if a t w).
Proof. unfold restore_if. destruct (has_environment _); by apply calm_same. Qed.

(** What a step of a thread does to the operations. *)
Inductive moves (i : nat) (t : Thread) (w : World) : World -> Prop :=
| moved w1 t' : calm w w1 -> t_guards t' = t_guards t -> moves i t w (set_thread i t' w1)
| released w1 t' : calm w w1 -> t_guards t' = [] -> moves i t w (set_thread i t' (release (t_guards t) w1))
| acquired p process l t' : w_processes w !! p = Some process -> acquire (ap_lifetime process) = Some l ->
    t_guards t' = p :: t_guards t -> moves i t w (set_thread i t' (update_process (on_lifetime (fun _ => l)) p w))
| launched process pool t' : lt_admitted_operations (ap_lifetime process) = 1 -> lt_stopping (ap_lifetime process) = false ->
    t_guards t' = length (w_processes w) :: t_guards t ->
    moves i t w (set_thread i t' (set_pool pool (set_processes (w_processes w ++ [process]) w))).

Lemma finish_moves i t r w w1 : calm w w1 -> moves i t w (finish i t r w1).
Proof. intros H. by apply released. Qed.
Lemma retry_moves i t pc w w1 : calm w w1 -> moves i t w (retry i t pc w1).
Proof. intros H. by apply released. Qed.
Lemma same_moves i t t' w : t_guards t' = t_guards t -> moves i t w (set_thread i t' w).
Proof. intros H. apply moved; [by apply calm_same|done]. Qed.

Lemma continue_moves i t a next w w1 : calm w w1 -> moves i t w (continue i t a next w1).
Proof. intros H. destruct next; cbn; [by apply moved|by apply retry_moves|by apply moved|by apply finish_moves]. Qed.

Lemma list_again_moves i t a p e w : moves i t w (list_again i t a p e w).
Proof. unfold list_again. case_bool_decide; [apply retry_moves|apply finish_moves]; apply remove_calm. Qed.

Lemma launch_moves la i t a w : moves i t w (launch la i t a w).
Proof.
  unfold launch, launch_process. destruct (admit_launch _ _ _) as [[]|e]; cbn [result_bind]; [|apply finish_moves, restore_calm].
  destruct (la_declared la) as [c|e]; cbn [result_bind]; [|apply finish_moves, restore_calm].
  destruct (la_available la _) as [[]|e]; cbn [result_bind]; [|apply finish_moves, restore_calm]. by apply launched.
Qed.

Lemma take_moves i t p w w' : take_process i t p w = Some w' -> moves i t w w'.
Proof.
  unfold take_process. intros H. apply bind_Some in H as (process & Hp & [= <-]).
  destruct (acquire _) as [l|] eqn:E; [by eapply acquired|].
  destruct (t_call t); try (by apply same_moves); apply finish_moves; by apply calm_same.
Qed.

Lemma send_moves i t a p w w' : send_request i t a p w = Some w' -> moves i t w w'.
Proof.
  unfold send_request. intros H. apply bind_Some in H as (process & Hp & [= <-]). destruct (is_open process); [by apply same_moves|].
  destruct (t_call t); try (apply finish_moves; by apply calm_same); [|by apply same_moves]. apply released; [by apply calm_same|done].
Qed.

(** The thread that an event is about. *)
Definition thread_of (e : Event) : option nat :=
  match e with Turn i _ | Answer i _ | TimeOut i | Lost i | GiveUp i => Some i | _ => None end.

Lemma timed_out_moves i w w' : timed_out i w = Some w' -> exists t, w_threads w !! i = Some t /\ moves i t w w'.
Proof.
  unfold timed_out, open_timed_out, probe_timed_out. intros H. apply bind_Some in H as (t & Ht & H). exists t. split; [done|].
  destruct (t_pc t); try done; destruct (t_call t); try done; injection H as <-;
    first [by apply same_moves|apply finish_moves; by apply calm_same].
Qed.

Lemma lost_moves i w w' : answer_lost i w = Some w' -> exists t, w_threads w !! i = Some t /\ moves i t w w'.
Proof.
  unfold answer_lost, open_lost, list_lost. intros H. apply bind_Some in H as (t & Ht & H).
  destruct (t_pc t); try (by apply timed_out_moves); destruct (t_call t); try (by apply timed_out_moves); exists t; (split; [done|]);
    try (apply bind_Some in H as (process & Hp & H); destruct (is_open process); [done|]); injection H as <-;
    first [by apply same_moves|apply list_again_moves|apply finish_moves; by apply calm_same].
Qed.

Lemma answered_moves i r w w' : answered i r w = Some w' -> exists t, w_threads w !! i = Some t /\ moves i t w w'.
Proof.
  unfold answered, open_answered, authenticate_answered, logout_answered. intros H. apply bind_Some in H as (t & Ht & H). exists t. split; [done|].
  destruct (t_pc t) as [| | | | | |p| | | |]; try done; destruct (t_call t) eqn:Ec; try done; rewrite <- ?Ec in H; injection H as <-;
    try (apply finish_moves; by apply calm_same).
  - destruct r as [[]|e]; [by apply same_moves|apply finish_moves; by apply calm_same|].
    destruct (has_environment _); [|apply finish_moves; by apply calm_same]. apply moved; [apply restore_calm|done].
  - destruct r as [[]|e]; try (apply finish_moves; by apply calm_same); apply moved; try done; by apply calm_same.
Qed.

Lemma turn_moves la i w w' : turn la i w = Some w' -> exists t, w_threads w !! i = Some t /\ moves i t w w'.
Proof.
  unfold turn. intros H. apply bind_Some in H as (t & Ht & H). exists t. split; [done|].
  destruct (t_pc t) as [| | |p| |p|p|p|reason next|p reason next|r] eqn:Epc;
    try (apply (take_moves i t p); exact H); (destruct (call_agent (t_call t)) as [a|]; [|done]); try done.
  - destruct (lock_free a w); [injection H as <-; by apply same_moves|done].
  - injection H as <-. unfold start_call. destruct (t_call t) as [| | | | |? []| | | | |]; try (by apply same_moves);
      apply moved; try done; [by apply calm_same|]. split; [done|]. split; [apply kept_refl|]. split; [done|]. apply delete_subseteq.
  - injection H as <-. by apply same_moves.
  - injection H as <-. apply launch_moves.
  - apply (send_moves i t a p). exact H.
  - injection H as <-. apply list_again_moves.
  - injection H as <-. destruct (existing_process a w); [by apply same_moves|]. apply continue_moves. by apply calm_same.
  - injection H as <-. apply continue_moves, stop_calm.
Qed.

Lemma thread_moves e i w w' : thread_of e = Some i -> step e w = Some w' -> exists t, w_threads w !! i = Some t /\ moves i t w w'.
Proof.
  destruct e; cbn; intros H; try done; injection H as <-; intros H.
  - by eapply turn_moves.
  - by eapply answered_moves.
  - by apply timed_out_moves.
  - by apply lost_moves.
  - unfold listing_gives_up in H. apply bind_Some in H as (t & Ht & H). exists t. split; [done|].
    destruct (t_pc t); try done; destruct (t_call t); try done. injection H as <-. apply finish_moves. by apply calm_same.
Qed.

Lemma kept_counts ps ps' ts : Forall2 kept ps ps' -> counts ps ts -> counts ps' ts.
Proof.
  intros Hk Hc p b Hb. destruct (Forall2_lookup_r _ _ _ _ _ Hk Hb) as (a & Ha & Hag & Hl & _). rewrite Hl. by apply Hc.
Qed.

Lemma same_guards_counts ps ts i t t' : ts !! i = Some t -> t_guards t' = t_guards t -> counts ps ts -> counts ps (<[i := t']> ts).
Proof.
  intros Ht Hg Hc p a Ha. pose proof (held_insert p ts i t t' Ht) as H. rewrite Hg in H.
  replace (held p (<[i := t']> ts)) with (held p ts) by lia. by apply Hc.
Qed.

Lemma release_counts ts i t t' w : ts !! i = Some t -> t_guards t' = [] -> counts (w_processes w) ts ->
  counts (w_processes (release (t_guards t) w)) (<[i := t']> ts).
Proof.
  intros Ht Hg Hc p b Hb. rewrite release_lookup in Hb. apply fmap_Some in Hb as (a & Ha & ->). destruct (Hc p a Ha) as [H1 H2].
  pose proof (held_insert p ts i t t' Ht) as H. rewrite Hg in H. change (count p []) with O in H. cbn [on_lifetime ap_lifetime].
  rewrite drop_stopping. split; [|intros Hs; specialize (H2 Hs); lia].
  destruct (dropped (count p (t_guards t)) (ap_lifetime a)) as [->|E0].
  - rewrite H1, Zminus_mod_idemp_l. f_equal. lia.
  - rewrite E0 in *. change (lt_admitted_operations (ap_lifetime a) = Z.of_nat (held p (<[i := t']> ts)) mod u64_modulus). rewrite H1. f_equal. lia.
Qed.

Lemma acquire_counts ps ts i t t' p process l : ts !! i = Some t -> ps !! p = Some process -> acquire (ap_lifetime process) = Some l ->
  t_guards t' = p :: t_guards t -> counts ps ts -> counts (alter (on_lifetime (fun _ => l)) p ps) (<[i := t']> ts).
Proof.
  intros Ht Hp Ha Hg Hc q b Hb. pose proof (held_insert q ts i t t' Ht) as H. rewrite Hg, count_cons in H.
  destruct (decide (q = p)) as [->|Hne].
  - rewrite list_lookup_alter_eq, Hp in Hb. injection Hb as <-. destruct (Hc p _ Hp) as [H1 _]. unfold acquire in Ha.
    destruct (lt_stopping _) eqn:Es; [done|]. injection Ha as <-. cbn. rewrite Es. split; [|done].
    rewrite H1. unfold u64_add. rewrite Zplus_mod_idemp_l. f_equal. lia.
  - rewrite list_lookup_alter_ne in Hb by done. replace (held q (<[i := t']> ts)) with (held q ts) by lia. by apply Hc.
Qed.

Lemma launch_counts ps ts i t t' process : ts !! i = Some t -> t_guards t' = length ps :: t_guards t ->
  lt_admitted_operations (ap_lifetime process) = 1 -> lt_stopping (ap_lifetime process) = false ->
  held (length ps) ts = O -> counts ps ts -> counts (ps ++ [process]) (<[i := t']> ts).
Proof.
  intros Ht Hg H1 Hs H0 Hc q b Hb. pose proof (held_insert q ts i t t' Ht) as H. rewrite Hg, count_cons in H.
  apply lookup_app_Some in Hb as [Hb|[Hle Hb]].
  - pose proof (lookup_lt_Some _ _ _ Hb). rewrite decide_False in H by lia.
    replace (held q (<[i := t']> ts)) with (held q ts) by lia. by apply Hc.
  - destruct (q - length ps)%nat eqn:E; [|done]. injection Hb as <-. assert (q = length ps) as -> by lia.
    rewrite decide_True in H by done. rewrite Hs, H1. split; [|done]. replace (held _ _) with 1%nat by lia. done.
Qed.

Lemma held_none p ts : (forall t, t ∈ ts -> p ∉ t_guards t) -> held p ts = O.
Proof.
  intros H. destruct (held p ts) eqn:E; [done|]. exfalso. revert E H. unfold held. induction ts as [|t ts IH]; cbn; [done|]. intros E H.
  destruct (count p (t_guards t)) eqn:Ec.
  - apply IH; [done|]. intros t' Ht'. apply H. by right.
  - apply (H t); [left|]. clear -Ec. induction (t_guards t) as [|q g IH]; [done|]. rewrite count_cons in Ec.
    destruct (decide (p = q)) as [->|]; [left|right; by apply IH].
Qed.

Lemma insert_range (ts : list Thread) i t' n : (forall x p, x ∈ ts -> p ∈ t_guards x -> (p < n)%nat) ->
  (forall p, p ∈ t_guards t' -> (p < n)%nat) -> forall x p, x ∈ <[i := t']> ts -> p ∈ t_guards x -> (p < n)%nat.
Proof.
  intros H H' x p Hx Hp. apply list_elem_of_lookup in Hx as [j Hj]. destruct (decide (i = j)) as [<-|Hne].
  - assert (i < length ts)%nat as Hlt by (apply lookup_lt_Some in Hj; by rewrite length_insert in Hj).
    rewrite list_lookup_insert_eq in Hj by done. injection Hj as <-. by apply H'.
  - rewrite list_lookup_insert_ne in Hj by done. eapply H; [by eapply list_elem_of_lookup_2|done].
Qed.

Lemma moves_counted n i t w w' : counted n w -> w_threads w !! i = Some t -> moves i t w w' -> counted (S n) w'.
Proof.
  intros [Htot Hr Hc] Ht Hm. pose proof (list_elem_of_lookup_2 _ _ _ Ht) as Hin.
  assert (forall t', (length (t_guards t') <= S (length (t_guards t)))%nat -> (total (<[i := t']> (w_threads w)) <= S n)%nat) as Htot'.
  { intros t' Hle. pose proof (sum_insert (fun t => length (t_guards t)) (w_threads w) i t t' Ht) as H. unfold total in *. cbn beta in H. lia. }
  destruct Hm as [w1 t' (Hth & Hk & _) Hg|w1 t' (Hth & Hk & _) Hg|p process l t' Hp Ha Hg|process pool t' H1 Hs Hg].
  - split; cbn; rewrite ?Hth, <- ?(Forall2_length _ _ _ Hk).
    + apply Htot'. rewrite Hg. lia.
    + apply insert_range; [done|]. rewrite Hg. intros q. by apply Hr.
    + eapply same_guards_counts; [done..|]. by eapply kept_counts.
  - destruct (release_world (t_guards t) w1) as (Hth1 & _ & _ & _ & Hlen).
    split; cbn; rewrite ?Hth1, ?Hth, ?Hlen, <- ?(Forall2_length _ _ _ Hk).
    + apply Htot'. rewrite Hg. cbn. lia.
    + apply insert_range; [done|]. rewrite Hg. intros q Hq. by apply not_elem_of_nil in Hq.
    + apply release_counts; [done..|]. by eapply kept_counts.
  - split; cbn; rewrite ?length_alter.
    + apply Htot'. rewrite Hg. cbn. lia.
    + apply insert_range; [done|]. rewrite Hg. intros q [->|Hq]%elem_of_cons; [by apply lookup_lt_Some in Hp|by eapply Hr].
    + by eapply acquire_counts.
  - split; cbn; rewrite ?length_app; cbn [length].
    + apply Htot'. rewrite Hg. cbn. lia.
    + apply insert_range; [intros x q Hx Hq; specialize (Hr x q Hx Hq); lia|]. rewrite Hg.
      intros q [->|Hq]%elem_of_cons; [lia|]. specialize (Hr t q Hin Hq). lia.
    + eapply launch_counts; [done..| |done]. apply held_none. intros x Hx Hq. specialize (Hr x _ Hx Hq). lia.
Qed.

(** Changes of a lifetime that keep the operations. *)
Definition keeps_operations (f : AgentProcess -> AgentProcess) : Prop := forall a,
  lt_admitted_operations (ap_lifetime (f a)) = lt_admitted_operations (ap_lifetime a) /\ lt_stopping (ap_lifetime (f a)) = lt_stopping (ap_lifetime a).

Lemma update_counted n f p w : keeps_operations f -> counted n w -> counted (S n) (update_process f p w).
Proof.
  intros Hf [Htot Hr Hc]. split; cbn [update_process set_processes w_threads w_processes]; rewrite ?length_alter; [lia|done|]. intros q b Hb. destruct (decide (q = p)) as [->|Hne].
  - rewrite list_lookup_alter_eq in Hb. apply fmap_Some in Hb as (a & Ha & ->). destruct (Hf a) as [-> ->]. by apply Hc.
  - rewrite list_lookup_alter_ne in Hb by done. by apply Hc.
Qed.

Lemma expire_counted n p w : Z.of_nat n < u64_modulus -> counted n w ->
  counted (S n) (update_process (on_lifetime (fun l => (expired (w_timeouts w) (w_now w) l).2)) p w).
Proof.
  intros Hn [Htot Hr Hc]. split; cbn [update_process set_processes w_threads w_processes]; rewrite ?length_alter; [lia|done|]. intros q b Hb. destruct (decide (q = p)) as [->|Hne].
  - rewrite list_lookup_alter_eq in Hb. apply fmap_Some in Hb as (a & Ha & ->). destruct (Hc p a Ha) as [H1 H2]. cbn. unfold expired.
    case_bool_decide as H0; cbn; [done|]. destruct (bool_decide (lt_agent_requests _ = ∅)); cbn; [|done]. case_bool_decide; cbn; [|done].
    split; [done|]. intros _. pose proof (held_le_total p (w_threads w)). rewrite H1, Z.mod_small in H0 by lia. lia.
  - rewrite list_lookup_alter_ne in Hb by done. by apply Hc.
Qed.

Lemma world_counted n w w' : w_processes w' = w_processes w -> w_threads w' = w_threads w -> counted n w -> counted n w'.
Proof. intros Hp Ht [H1 H2 H3]. split; rewrite ?Hp, ?Ht; done. Qed.

Lemma ends_counted n p w w' : worker_ends p w = Some w' -> counted n w -> counted (S n) w'.
Proof.
  unfold worker_ends. intros H Hc. apply bind_Some in H as (a & Ha & H). destruct (ap_gone a); [done|]. destruct (ap_closed a) as [r|]; [|done].
  injection H as <-. destruct (remove_calm (ap_agent_id a) p w) as [Ht _].
  assert (forall e b w1, w_processes w1 = w_processes w -> w_threads w1 = w_threads w ->
    counted (S n) (set_exits b (update_process (set_gone e) p w1)) /\ counted (S n) (update_process (set_gone e) p w1)) as Hu.
  { intros e b w1 Hp1 Ht1. assert (counted (S n) (update_process (set_gone e) p w1)) as H1 by (apply update_counted; [by intros []|by eapply world_counted]).
    split; [|done]. by eapply world_counted; [| |exact H1]. }
  assert (w_processes (remove_process_if_current (ap_agent_id a) p w) = w_processes w) as Hp
    by (unfold remove_process_if_current; by destruct (is_current _ _ _)).
  destruct r; [|destruct (_ && _)]; apply (Hu _ ∅); by destruct (lt_initialized (ap_lifetime a)).
Qed.

Lemma closes_counted n r p allowed w w' : worker_closes r p allowed w = Some w' -> counted n w -> counted (S n) w'.
Proof.
  unfold worker_closes. intros H. apply bind_Some in H as (a & _ & H). destruct (_ && _); [|done]. injection H as <-.
  by apply update_counted.
Qed.

Lemma open_counted n f p w w' : keeps_operations f -> while_open f p w = Some w' -> counted n w -> counted (S n) w'.
Proof.
  unfold while_open. intros Hf H. apply bind_Some in H as (a & _ & H). destruct (is_open a); [|done]. injection H as <-. by apply update_counted.
Qed.

Lemma counted_succ n w : counted n w -> counted (S n) w.
Proof. intros []. by split; [lia|..]. Qed.

Lemma step_counted n e w w' : Z.of_nat n < u64_modulus -> counted n w -> step e w = Some w' -> counted (S n) w'.
Proof.
  intros Hn Hc H. destruct (thread_of e) as [i|] eqn:Ei.
  { destruct (thread_moves _ _ _ _ Ei H) as (t & Ht & Hm). by eapply moves_counted. }
  destruct e; try done; cbn in H.
  - injection H as <-. apply counted_succ. destruct Hc as [H1 H2 H3]. split; cbn.
    + unfold total. rewrite sum_list_with_app. cbn. unfold total in H1. lia.
    + intros t p [Ht|Ht]%elem_of_app; [by apply H2|]. apply list_elem_of_singleton in Ht as ->. intros Hp. by apply not_elem_of_nil in Hp.
    + intros p a Ha. replace (held p _) with (held p (w_threads w)); [by apply H3|]. unfold held. rewrite sum_list_with_app. cbn. lia.
  - case_bool_decide; [|done]. injection H as <-. apply counted_succ. by eapply world_counted; [| |exact Hc].
  - eapply open_counted; [|done..]. by intros [? ? []].
  - eapply open_counted; [|done..]. intros [? ? []]. cbn. unfold observe. by destruct message.
  - unfold while_open in H. apply bind_Some in H as (a & _ & H). destruct (is_open a); [|done]. injection H as <-. by apply expire_counted.
  - by eapply closes_counted.
  - by eapply closes_counted.
  - by eapply closes_counted.
  - by eapply closes_counted.
  - by eapply ends_counted.
Qed.

Lemma run_counted n es w w' : Z.of_nat (n + length es) < u64_modulus -> counted n w -> run es w = Some w' -> counted (n + length es) w'.
Proof.
  revert n w. induction es as [|e es IH]; intros n w Hn Hc H.
  - injection H as <-. cbn. by rewrite Nat.add_0_r.
  - cbn in H. apply bind_Some in H as (w1 & H1 & H). cbn in Hn |- *. replace (n + S (length es))%nat with (S n + length es)%nat in * by lia.
    apply (IH (S n) w1); [done| |done]. eapply step_counted; [|done..]. lia.
Qed.

Lemma new_counted : counted 0 new_pool.
Proof. split; [done|intros ? ? H; by apply not_elem_of_nil in H|by intros ? ?]. Qed.

(** ** One live process of each Agent *)

(** It serves requests and nothing has asked it to end. *)
Definition live (p : AgentProcess) : bool := is_open p && negb (lt_stopping (ap_lifetime p)) && negb (ap_shutdown p).

Record core (w : World) : Prop := {
  cr_entry : forall a p, w_pool w !! a = Some p -> exists process, w_processes w !! p = Some process /\ ap_agent_id process = a;
  cr_live : forall p process, w_processes w !! p = Some process -> live process = true -> w_pool w !! ap_agent_id process = Some p;
}.

(** The live processes of an Agent are among those of a list. *)
Definition among (a : string) (allowed : list nat) (w : World) : Prop := forall p process,
  w_processes w !! p = Some process -> ap_agent_id process = a -> live process = true -> p ∈ allowed.

(** A later world has no other live processes of the Agent. *)
Definition shrinks (a : string) (w w' : World) : Prop := forall p process', w_processes w' !! p = Some process' -> ap_agent_id process' = a ->
  live process' = true -> exists process, w_processes w !! p = Some process /\ ap_agent_id process = a /\ live process = true.

Lemma among_shrinks a allowed w w' : shrinks a w w' -> among a allowed w -> among a allowed w'.
Proof. intros Hs Ha p process Hp Hag Hl. destruct (Hs p process Hp Hag Hl) as (process0 & ? & ? & ?). by eapply Ha. Qed.

(** Changes that start no process. *)
Definition ages (p p' : AgentProcess) : Prop := ap_agent_id p' = ap_agent_id p /\ (live p' = true -> live p = true) /\
  (is_open p' = true -> is_open p = true).

Lemma ages_refl ps : Forall2 ages ps ps.
Proof. apply Forall_Forall2_diag, Forall_true. by intros. Qed.

Lemma ages_shrinks a w w' : Forall2 ages (w_processes w) (w_processes w') -> shrinks a w w'.
Proof.
  intros H p b Hb Hag Hl. destruct (Forall2_lookup_r _ _ _ _ _ H Hb) as (c & Hc & He & Hl' & _). exists c. rewrite <- He. by split; [|split; [|apply Hl']].
Qed.

Lemma kept_ages p p' : kept p p' -> ages p p'.
Proof.
  intros (H1 & H2 & H3 & H4). split; [done|]. unfold live, is_open. rewrite H2, H3. split; [|done]. destruct (ap_shutdown p); [rewrite H4 by done|];
    [by rewrite !andb_false_r|]. rewrite andb_true_r. by intros []%andb_prop.
Qed.

Lemma calm_ages w w' : calm w w' -> Forall2 ages (w_processes w) (w_processes w').
Proof. intros (_ & H & _). eapply Forall2_impl; [done|]. apply kept_ages. Qed.

Lemma update_ages f p w : (forall a, w_processes w !! p = Some a -> ages a (f a)) -> Forall2 ages (w_processes w) (w_processes (update_process f p w)).
Proof.
  intros Hf. cbn. apply Forall2_same_length_lookup_2; [by rewrite length_alter|]. intros i a b Ha Hb. destruct (decide (i = p)) as [->|Hne].
  - rewrite list_lookup_alter_eq, Ha in Hb. injection Hb as <-. by apply Hf.
  - rewrite list_lookup_alter_ne, Ha in Hb by done. injection Hb as <-. by split.
Qed.

Lemma release_ages g w : Forall2 ages (w_processes w) (w_processes (release g w)).
Proof.
  apply Forall2_same_length_lookup_2; [by destruct (release_world g w) as (_&_&_&_&->)|]. intros i a b Ha Hb.
  rewrite release_lookup, Ha in Hb. injection Hb as <-. split; [done|]. unfold live. cbn. split; [by rewrite drop_stopping|done].
Qed.

(** The pool stays right when processes age and only what has died leaves it. *)
Lemma core_ages w w' : core w -> Forall2 ages (w_processes w) (w_processes w') ->
  (forall a p, w_pool w' !! a = Some p -> w_pool w !! a = Some p) ->
  (forall a p process, w_pool w !! a = Some p -> w_pool w' !! a <> Some p -> w_processes w' !! p = Some process -> live process = false) ->
  core w'.
Proof.
  intros [He Hl] Hag Hp Hgone. split.
  - intros a p H. destruct (He a p (Hp _ _ H)) as (c & Hc & <-). destruct (Forall2_lookup_l _ _ _ _ _ Hag Hc) as (b & Hb & Hba & _).
    by exists b.
  - intros p b Hb Hlive. destruct (Forall2_lookup_r _ _ _ _ _ Hag Hb) as (c & Hc & Hba & Hlb & _). pose proof (Hl p c Hc (Hlb Hlive)) as H.
    rewrite Hba. destruct (decide (w_pool w' !! ap_agent_id c = Some p)) as [|Hne]; [done|].
    by rewrite (Hgone _ _ _ H Hne Hb) in Hlive.
Qed.

Lemma core_same_pool w w' : core w -> Forall2 ages (w_processes w) (w_processes w') -> w_pool w' = w_pool w -> core w'.
Proof. intros Hc Ha Hp. apply (core_ages w); [done..| |]; rewrite Hp; [done|]. intros a p process H Hne. by apply Hne in H. Qed.

Lemma core_remove a w : core w -> among a [] w -> core (remove_process a w).
Proof.
  intros Hc Hn. apply (core_ages w); [done|apply ages_refl|..]; cbn.
  - intros b p H. by apply lookup_delete_Some in H as [_ H].
  - intros b p process H Hne Hp. destruct (decide (a = b)) as [<-|Hab]; [|by rewrite lookup_delete_ne in Hne].
    destruct (live process) eqn:El; [|done]. destruct (cr_entry _ Hc _ _ H) as (c & Hcp & Hca). rewrite Hp in Hcp. injection Hcp as ->.
    by destruct (not_elem_of_nil p (Hn p c Hp Hca El)).
Qed.

Lemma core_evict a p w : core w -> (forall process, w_processes w !! p = Some process -> live process = false) -> core (remove_process_if_current a p w).
Proof.
  intros Hc Hd. unfold remove_process_if_current, is_current. case_bool_decide as Hcur; [|done].
  apply (core_ages w); [done|apply ages_refl|..]; cbn.
  - intros b q H. by apply lookup_delete_Some in H as [_ H].
  - intros b q process H Hne Hq. destruct (decide (a = b)) as [<-|Hab]; [|by rewrite lookup_delete_ne in Hne].
    rewrite Hcur in H. injection H as ->. by apply Hd.
Qed.

Lemma core_stop a p reason w : core w -> core (stop_process a p reason w).
Proof.
  intros Hc. unfold stop_process. destruct (_ !! p) as [process|] eqn:Ep; [|done]. destruct (stop_deferred _ _ _); [done|].
  unfold is_current. case_bool_decide as Hcur; [|done]. apply (core_ages w); [done|..].
  - apply calm_ages, calm_tell. by apply calm_same.
  - cbn. intros b q H. by apply lookup_delete_Some in H as [_ H].
  - cbn. intros b q c H Hne Hq. destruct (decide (a = b)) as [<-|Hab]; [|by rewrite lookup_delete_ne in Hne].
    rewrite Hcur in H. injection H as <-. rewrite list_lookup_alter_eq, Ep in Hq. injection Hq as <-. unfold live. cbn. by rewrite andb_false_r.
Qed.

(** Once closed, always closed. *)
Definition dead (p : nat) (w : World) : Prop := exists process, w_processes w !! p = Some process /\ is_open process = false.

Lemma ages_dead w w' p : Forall2 ages (w_processes w) (w_processes w') -> dead p w -> dead p w'.
Proof.
  intros Ha (c & Hc & Ho). destruct (Forall2_lookup_l _ _ _ _ _ Ha Hc) as (b & Hb & _ & _ & Hob). exists b. split; [done|].
  destruct (is_open b); [|done]. by rewrite Hob in Ho.
Qed.

Definition is_delete (c : Call) : bool := match c with DeleteSession _ => true | _ => false end.
Definition goes_on (next : Next) : bool := match next with ThenReturn _ => false | _ => true end.

(** A deletion takes no lock. *)
Definition exempt (t : Thread) : bool :=
  is_delete (t_call t) && match t_pc t with Evict _ | StopCurrent _ _ | Stop _ _ _ => false | _ => true end.

(** What a thread that takes the lock of its Agent knows where it is. *)
Definition knows (w : World) (a : string) (t : Thread) : Prop :=
  match t_pc t with
  | Start | Seek => t_locked t = true
  | Found p | Send p => t_locked t = true /\ among a [p] w
  | Launch => t_locked t = true /\ among a [] w
  | Wait _ => dispatches (t_call t) = false -> t_locked t = true
  | StopCurrent _ next | Stop _ _ next => goes_on next = true -> t_locked t = true
  | Evict p => dead p w
  | Lock | Return _ => True
  end.
Definition thread_ok (w : World) (a : string) (t : Thread) : Prop := exempt t = false -> knows w a t.

Record threads_ok (w : World) : Prop := {
  to_lock : forall i j t u a, w_threads w !! i = Some t -> w_threads w !! j = Some u -> holds_lock a t = true -> holds_lock a u = true -> i = j;
  to_thread : forall i t a, w_threads w !! i = Some t -> call_agent (t_call t) = Some a -> thread_ok w a t;
}.

Definition inv (w : World) : Prop := core w /\ threads_ok w.

Lemma to_knows w i t a : inv w -> w_threads w !! i = Some t -> call_agent (t_call t) = Some a -> is_delete (t_call t) = false -> knows w a t.
Proof. intros [_ H] Hi Ha Hd. apply (to_thread _ H i t a Hi Ha). unfold exempt. by rewrite Hd. Qed.

Ltac not_exempt H := unfold exempt in H; cbn in H; rewrite ?andb_true_r in H.

Lemma thread_ok_mono w w' a t : (t_locked t = true -> shrinks a w w') -> (forall p, dead p w -> dead p w') -> thread_ok w a t -> thread_ok w' a t.
Proof.
  intros Hs Hdead Ht Hd. specialize (Ht Hd). unfold knows in *. destruct (t_pc t); try done; try (by apply Hdead); destruct Ht as [Hl Ha]; (split; [done|]); eapply among_shrinks; eauto.
Qed.

Lemma lock_free_spec a w i t : lock_free a w = true -> w_threads w !! i = Some t -> holds_lock a t = false.
Proof.
  unfold lock_free. intros H Ht. destruct (holds_lock a t) eqn:E; [|done]. apply negb_true_iff in H.
  assert (existsb (holds_lock a) (w_threads w) = true) as H'; [|by rewrite H' in H].
  apply existsb_exists. exists t. split; [|done]. apply list_elem_of_In. by eapply list_elem_of_lookup_2.
Qed.

Lemma threads_insert w w' i t t' : threads_ok w -> w_threads w !! i = Some t -> w_threads w' = <[i := t']> (w_threads w) ->
  (forall j u a, j <> i -> w_threads w !! j = Some u -> holds_lock a u = true -> shrinks a w w') -> (forall p, dead p w -> dead p w') ->
  (forall a, holds_lock a t' = true -> holds_lock a t = true \/ lock_free a w = true) ->
  (forall a, call_agent (t_call t') = Some a -> thread_ok w' a t') -> threads_ok w'.
Proof.
  intros [Hlock Hth] Ht Hw Hs Hdead Hl Hok. pose proof (lookup_lt_Some _ _ _ Ht) as Hlt.
  assert (forall j u, w_threads w' !! j = Some u -> (j = i /\ u = t') \/ (j <> i /\ w_threads w !! j = Some u)) as Hcase.
  { intros j u Hj. rewrite Hw in Hj. destruct (decide (j = i)) as [->|Hne]; [left|right].
    - rewrite list_lookup_insert_eq in Hj by done. by injection Hj as <-.
    - by rewrite list_lookup_insert_ne in Hj by done. }
  assert (forall j u a, j <> i -> w_threads w !! j = Some u -> holds_lock a u = true -> holds_lock a t' = true -> False) as Hno.
  { intros j u a Hne Hj Hu Hi. destruct (Hl a Hi) as [H|H]; [by apply Hne, (Hlock j i u t a)|].
    by rewrite (lock_free_spec _ _ _ _ H Hj) in Hu. }
  split.
  - intros j k u v a Hj Hk Hu Hv. destruct (Hcase _ _ Hj) as [[-> ->]|[Hne Hj']], (Hcase _ _ Hk) as [[-> ->]|[Hne' Hk']]; try done.
    + by destruct (Hno k v a).
    + by destruct (Hno j u a).
    + by apply (Hlock j k u v a).
  - intros j u a Hj Ha. destruct (Hcase _ _ Hj) as [[-> ->]|[Hne Hj']]; [by apply Hok|].
    apply (thread_ok_mono w); [|done|by eapply Hth]. intros Hlk. eapply Hs; [done..|]. unfold holds_lock. rewrite Hlk. by apply bool_decide_eq_true.
Qed.

(** Changes of the shared state that a thread may make before it goes on. *)
Definition later (w w' : World) : Prop := core w' /\ Forall2 ages (w_processes w) (w_processes w') /\ w_threads w' = w_threads w.

Lemma ages_trans ps qs rs : Forall2 ages ps qs -> Forall2 ages qs rs -> Forall2 ages ps rs.
Proof.
  intros H1 H2. apply Forall2_same_length_lookup_2; [by rewrite (Forall2_length _ _ _ H1), (Forall2_length _ _ _ H2)|]. intros i x z Hx Hz.
  destruct (Forall2_lookup_l _ _ _ _ _ H1 Hx) as (y & Hy & Ha & Hl & Ho).
  destruct (Forall2_lookup_lr _ _ _ _ _ _ H2 Hy Hz) as (Ha' & Hl' & Ho'). split; [by rewrite Ha'|auto].
Qed.

Lemma later_same w w' : core w -> w_processes w' = w_processes w -> w_pool w' = w_pool w -> w_threads w' = w_threads w -> later w w'.
Proof. intros Hc Hp Ho Ht. assert (Forall2 ages (w_processes w) (w_processes w')) by (rewrite Hp; apply ages_refl). split; [|done]. by eapply core_same_pool. Qed.

Lemma later_stop a p reason w : core w -> later w (stop_process a p reason w).
Proof. intros Hc. split; [by apply core_stop|]. split; [apply calm_ages|]; apply stop_calm. Qed.

Lemma later_evict a p w : core w -> (forall process, w_processes w !! p = Some process -> live process = false) -> later w (remove_process_if_current a p w).
Proof. intros Hc Hd. split; [by apply core_evict|]. split; [apply calm_ages|]; apply remove_calm. Qed.

Lemma later_release g w w1 : later w w1 -> later w (release g w1).
Proof.
  intros (Hc & Ha & Ht). destruct (release_world g w1) as (Hth & Hp & _). pose proof (release_ages g w1). split; [by eapply core_same_pool|].
  split; [by eapply ages_trans|by rewrite Hth].
Qed.

Lemma advance w w1 i t t' : inv w -> w_threads w !! i = Some t -> later w w1 -> call_agent (t_call t') = call_agent (t_call t) ->
  (t_locked t' = true -> t_locked t = true) -> (forall a, call_agent (t_call t') = Some a -> thread_ok w1 a t') -> inv (set_thread i t' w1).
Proof.
  intros [Hc Ht] Hi (Hc1 & Ha & Hth) Hcall Hlk Hok. split.
  - eapply core_same_pool; [exact Hc1|apply ages_refl|done].
  - apply (threads_insert w _ i t t'); [done|done|cbn; by rewrite Hth|..].
    + intros j u a _ _ _. by apply ages_shrinks.
    + intros p. by apply ages_dead.
    + intros a. unfold holds_lock. rewrite Hcall. intros [Hl Hag]%andb_prop. left. by rewrite Hlk, Hag.
    + exact Hok.
Qed.

Lemma finish_inv w w1 i t r : inv w -> w_threads w !! i = Some t -> later w w1 -> inv (finish i t r w1).
Proof. intros H Hi Hl. apply (advance w _ i t); [done|done|by apply later_release|done|done|by intros]. Qed.

Lemma retry_inv w w1 i t pc : inv w -> w_threads w !! i = Some t -> later w w1 -> (pc = Lock \/ pc = Seek /\ t_locked t = true) -> inv (retry i t pc w1).
Proof.
  intros H Hi Hl Hpc. apply (advance w _ i t); [done|done|by apply later_release|done|done|]. intros a _ _. unfold knows. by destruct Hpc as [->|[-> Hlk]].
Qed.

Lemma continue_inv w w1 i t a next : inv w -> w_threads w !! i = Some t -> later w w1 -> call_agent (t_call t) = Some a ->
  (goes_on next = true -> t_locked t = true) -> inv (continue i t a next w1).
Proof.
  intros H Hi Hl Hcall Hlk. destruct next; cbn.
  - apply (advance w _ i t); [done..|]. intros b _ _. by apply Hlk.
  - apply (retry_inv w); [done..|]. right. split; [done|by apply Hlk].
  - apply (advance w _ i t); [done..|]. intros b _ _. by apply Hlk.
  - by apply (finish_inv w).
Qed.

Lemma existing_among a w p : core w -> existing_process a w = Some p -> among a [p] w.
Proof.
  intros Hc H q process Hq Hag Hl. apply bind_Some in H as (r & Hr & H). apply bind_Some in H as (c & _ & H).
  pose proof (cr_live _ Hc q process Hq Hl) as Hp. rewrite Hag, Hr in Hp. injection Hp as ->. destruct (_ && _); [|done].
  injection H as ->. by left.
Qed.

Lemma missing_among a w : core w -> existing_process a w = None -> among a [] w.
Proof.
  intros Hc H q process Hq Hag Hl. exfalso. pose proof (cr_live _ Hc q process Hq Hl) as Hp. rewrite Hag in Hp.
  unfold existing_process in H. rewrite Hp in H. cbn in H. rewrite Hq in H. cbn in H. unfold live in Hl.
  destruct (is_open process), (lt_stopping (ap_lifetime process)); done.
Qed.

Lemma among_none a w p process : among a [p] w -> w_processes w !! p = Some process -> live process = false -> among a [] w.
Proof.
  intros Ha Hp Hl q c Hq Hag Hc. pose proof (Ha q c Hq Hag Hc) as H. apply list_elem_of_singleton in H as ->.
  rewrite Hp in Hq. injection Hq as ->. by rewrite Hl in Hc.
Qed.

Lemma closed_dead process : is_open process = false -> live process = false.
Proof. unfold live. by intros ->. Qed.

Lemma dead_not_live w p process : dead p w -> w_processes w !! p = Some process -> live process = false.
Proof. intros (c & Hc & Ho) Hp. rewrite Hp in Hc. injection Hc as ->. by apply closed_dead. Qed.

Lemma move_inv w i t t' : inv w -> w_threads w !! i = Some t -> call_agent (t_call t') = call_agent (t_call t) -> (t_locked t' = true -> t_locked t = true) ->
  (forall a, call_agent (t_call t') = Some a -> thread_ok w a t') -> inv (set_thread i t' w).
Proof. intros H Hi Hc Hl Hok. apply (advance w _ i t); [done|done|by apply later_same; [apply H|..]|done..]. Qed.

Lemma end_inv w i t r : inv w -> w_threads w !! i = Some t -> inv (finish i t r w).
Proof. intros H Hi. apply (finish_inv w); [done..|]. by apply later_same; [apply H|..]. Qed.

Lemma send_inv w w' i t a p : inv w -> w_threads w !! i = Some t -> call_agent (t_call t) = Some a -> t_pc t = Send p ->
  send_request i t a p w = Some w' -> inv w'.
Proof.
  intros Hinv Hi Hcall Hpc H. pose proof (to_knows w i t a Hinv Hi Hcall) as Hok. unfold knows in Hok. rewrite Hpc in Hok.
  unfold send_request in H. apply bind_Some in H as (process & Hp & [= <-]). destruct (is_open process) eqn:Eo.
  { apply (move_inv w i t); [done..| |].
    - cbn. by intros []%andb_prop.
    - intros b _ Hd. not_exempt Hd. unfold knows. cbn. intros ->. rewrite andb_true_r. by destruct (Hok Hd). }
  destruct (t_call t) eqn:Ec; try (by apply end_inv).
  - destruct Hok as [Hlk Ham]; [done|]. assert (among agent_id [] w) as Hn.
    { injection Hcall as ->. by eapply among_none; [..|apply closed_dead]. }
    injection Hcall as ->. assert (later w (remove_process a w)) as Hl.
    { split; [apply core_remove; [apply Hinv|done]|]. split; [apply ages_refl|done]. }
    apply (later_release (t_guards t)) in Hl. apply (advance w _ i t); [done|done|done|by cbn; rewrite Ec|done|]. cbn. rewrite Ec. intros b [= <-] _. unfold knows. cbn. split; [done|].
    apply (among_shrinks a [] w); [apply ages_shrinks, Hl|done].
  - apply (move_inv w i t); [done|done|cbn; by rewrite Ec|done|]. intros b _ _. by exists process.
Qed.

Lemma take_inv w w' i t p : inv w -> w_threads w !! i = Some t -> t_pc t = Found p -> take_process i t p w = Some w' -> inv w'.
Proof.
  intros Hinv Hi Hpc H. unfold take_process in H. apply bind_Some in H as (process & Hp & [= <-]).
  destruct (acquire (ap_lifetime process)) as [l|] eqn:El; unfold acquire in El; destruct (lt_stopping (ap_lifetime process)) eqn:Es; try done.
  - injection El as <-.
    assert (Forall2 ages (w_processes w) (w_processes (update_process (on_lifetime (fun _ => set_admitted (lt_admitted_operations (ap_lifetime process) +64 1)
              (ap_lifetime process))) p w))) as Ha.
    { apply update_ages. intros c Hc. rewrite Hp in Hc. injection Hc as <-. by split. }
    apply (advance w _ i t); [done|done| |done|done|].
    { split; [|done]. by eapply core_same_pool; [apply Hinv|..]. }
    intros a Hcall. pose proof (to_knows w i t a Hinv Hi Hcall) as Hok. unfold thread_ok, exempt, knows in *. rewrite Hpc in Hok. cbn in Hcall |- *.
    destruct (t_call t); cbn in *; try done; intros Hd; destruct (Hok Hd) as [Hl Ham]; (split; [done|]);
      (apply (among_shrinks a [p] w); [by apply ages_shrinks|done]).
  - destruct (t_call t) eqn:Ec; try (by apply end_inv); (apply (move_inv w i t); [done|done|cbn; by rewrite Ec|done|]);
      intros a Hcall Hd; not_exempt Hd; cbn in Hcall; rewrite Ec in Hcall, Hd;
      pose proof (to_knows w i t a Hinv Hi ltac:(by rewrite Ec)) as Hok; unfold knows in *; rewrite Hpc, Ec in Hok;
      destruct (Hok Hd) as [Hl Ham]; (split; [done|]); (eapply among_none; [done..|]); unfold live; rewrite Es; cbn; by rewrite andb_false_r.
Qed.

Lemma core_launch w a p process : core w -> among a [] w -> p = length (w_processes w) -> ap_agent_id process = a ->
  core (set_pool (<[a := p]> (w_pool w)) (set_processes (w_processes w ++ [process]) w)).
Proof.
  intros [He Hl] Hn -> Ha. split; cbn.
  - intros b q [[<- <-]|[Hne H]]%lookup_insert_Some.
    + exists process. by rewrite list_lookup_middle.
    + destruct (He b q H) as (c & Hc & Hb). exists c. split; [by apply lookup_app_l_Some|done].
  - intros q c Hq Hlive. apply lookup_app_Some in Hq as [Hq|[Hle Hq]].
    + destruct (decide (a = ap_agent_id c)) as [Heq|Hne]; [|rewrite lookup_insert_ne by done; by apply Hl].
      by destruct (not_elem_of_nil q (Hn q c Hq (eq_sym Heq) Hlive)).
    + destruct (q - length (w_processes w))%nat eqn:E; [|done]. injection Hq as ->. rewrite Ha, lookup_insert_eq. f_equal. lia.
Qed.

Lemma launch_inv la w i t a : inv w -> w_threads w !! i = Some t -> call_agent (t_call t) = Some a -> t_pc t = Launch -> is_delete (t_call t) = false ->
  inv (launch la i t a w).
Proof.
  intros Hinv Hi Hcall Hpc Hd. pose proof (to_knows w i t a Hinv Hi Hcall Hd) as Hok. unfold knows in Hok. rewrite Hpc in Hok. destruct Hok as [Hlk Ham].
  assert (forall e, inv (finish i t (Err e) (restore_if a t w))) as Hend.
  { intros e. apply (finish_inv w); [done..|]. unfold restore_if. destruct (has_environment _); by apply later_same; [apply Hinv|..]. }
  unfold launch, launch_process. destruct (admit_launch _ _ _) as [[]|e]; cbn [result_bind]; [|apply Hend].
  destruct (la_declared la) as [c|e]; cbn [result_bind]; [|apply Hend]. destruct (la_available la _) as [[]|e]; cbn [result_bind]; [|apply Hend].
  set (process := mkProcess a _ _ _ _ _ _ _). set (p := length (w_processes w)).
  assert (core (set_pool (<[a := p]> (w_pool w)) (set_processes (w_processes w ++ [process]) w))) as Hc by by apply core_launch; [apply Hinv|..].
  split; [eapply core_same_pool; [exact Hc|apply ages_refl|done]|].
  apply (threads_insert w _ i t (set_pc (match t_call t with OpenSession _ => Wait p | _ => Send p end) (set_guards (p :: t_guards t) t))); [apply Hinv|done|done|..].
  - intros j u b Hne Hj Hu q c' Hq Hag Hl. cbn in Hq. apply lookup_app_Some in Hq as [Hq|[Hle Hq]]; [by exists c'|].
    destruct (q - length (w_processes w))%nat; [|done]. injection Hq as <-. cbn in Hag. subst b. exfalso. apply Hne.
    apply (to_lock _ (proj2 Hinv) j i u t a); [done..|]. unfold holds_lock. rewrite Hlk. by apply bool_decide_eq_true.
  - intros q (c' & Hc' & Ho). exists c'. split; [by apply lookup_app_l_Some|done].
  - intros b Hb. by left.
  - intros b Hb _. cbn in Hb. rewrite Hcall in Hb. injection Hb as <-. unfold knows. cbn. assert (among a [p] (set_thread i (set_pc (Send p) (set_guards (p :: t_guards t) t))
      (set_pool (<[a := p]> (w_pool w)) (set_processes (w_processes w ++ [process]) w)))) as Hp.
    { intros q c' Hq Hag Hl. cbn in Hq. apply lookup_app_Some in Hq as [Hq|[Hle Hq]]; [by destruct (not_elem_of_nil q (Ham q c' Hq Hag Hl))|].
      destruct (q - length (w_processes w))%nat eqn:E; [|done]. apply list_elem_of_singleton. unfold p. lia. }
    destruct (t_call t); try done.
Qed.

Lemma list_again_inv w i t a p e : inv w -> w_threads w !! i = Some t -> dead p w -> inv (list_again i t a p e w).
Proof.
  intros H Hi Hd. assert (later w (remove_process_if_current a p w)) as Hl.
  { apply later_evict; [apply H|]. intros process. by apply dead_not_live. }
  unfold list_again. case_bool_decide; [apply (retry_inv w); [done..|by left]|by apply (finish_inv w)].
Qed.

Lemma timed_out_inv w w' i : inv w -> timed_out i w = Some w' -> inv w'.
Proof.
  unfold timed_out, open_timed_out, probe_timed_out. intros Hinv H. apply bind_Some in H as (t & Hi & H).
  destruct (t_pc t) eqn:Epc; try done; destruct (t_call t) eqn:Ec; try done; injection H as <-; try (by apply end_inv);
    (apply (move_inv w i t); [done|done|cbn; by rewrite Ec|done|by intros a _ _]).
Qed.

Lemma lost_inv w w' i : inv w -> answer_lost i w = Some w' -> inv w'.
Proof.
  unfold answer_lost, open_lost, list_lost. intros Hinv H. apply bind_Some in H as (t & Hi & H).
  destruct (t_pc t) eqn:Epc; try (by eapply timed_out_inv); destruct (t_call t) eqn:Ec; try (by eapply timed_out_inv).
  - injection H as <-. apply (move_inv w i t); [done|done|cbn; by rewrite Ec|done|]. intros a Hcall Hd. intros _.
    pose proof (to_knows w i t a Hinv Hi Hcall ltac:(by rewrite Ec)) as Hok. unfold knows in Hok. rewrite Epc, Ec in Hok. by apply Hok.
  - apply bind_Some in H as (process & Hp & H). destruct (is_open process) eqn:Eo; [done|]. injection H as <-. apply list_again_inv; [done..|].
    by exists process.
  - injection H as <-. by apply end_inv.
  - injection H as <-. by apply end_inv.
Qed.

Lemma answered_inv w w' i r : inv w -> answered i r w = Some w' -> inv w'.
Proof.
  unfold answered, open_answered, authenticate_answered, logout_answered. intros Hinv H. apply bind_Some in H as (t & Hi & H).
  destruct (t_pc t) as [| | | | | |p| | | |] eqn:Epc; try done; destruct (t_call t) eqn:Ec; try done; rewrite <- ?Ec in H; injection H as <-;
    try (by apply end_inv).
  - destruct r as [[]|e]; [|by apply end_inv|].
    + apply (move_inv w i t); [done..|]. intros a Hcall Hd. intros _.
      pose proof (to_knows w i t a Hinv Hi Hcall ltac:(by rewrite Ec)) as Hok. unfold knows in Hok. rewrite Epc, Ec in Hok. by apply Hok.
    + destruct (has_environment (t_call t)) eqn:Eh; [|by apply end_inv]. apply (advance w _ i t); [done|done| |done|done|by intros a _ _].
      unfold restore_if. rewrite Eh. by apply later_same; [apply Hinv|..].
  - destruct r as [b|e]; [|by apply end_inv]. apply (advance w _ i t); [done|done| |done|done|by intros a _ _].
    by apply later_same; [apply Hinv|..].
Qed.

Lemma seek_inv w i t a : inv w -> w_threads w !! i = Some t -> call_agent (t_call t) = Some a -> t_pc t = Seek ->
  inv (set_thread i (set_pc (match existing_process a w with Some p => Found p | None => Launch end) t) w).
Proof.
  intros Hinv Hi Hcall Hpc. apply (move_inv w i t); [done..|]. intros b Hb Hd. cbn in Hb. rewrite Hcall in Hb. injection Hb as <-.
  assert (is_delete (t_call t) = false) as Hd' by (not_exempt Hd; by destruct (existing_process a w); rewrite andb_true_r in Hd).
  pose proof (to_knows w i t a Hinv Hi Hcall Hd') as Hok. unfold knows in *. rewrite Hpc in Hok. cbn.
  destruct (existing_process a w) eqn:E; (split; [done|]); (apply existing_among || apply missing_among); try done; apply Hinv.
Qed.

Lemma start_inv w i t a : inv w -> w_threads w !! i = Some t -> call_agent (t_call t) = Some a -> t_pc t = Start -> inv (start_call i t a w).
Proof.
  intros Hinv Hi Hcall Hpc. pose proof (to_knows w i t a Hinv Hi Hcall) as Hok. unfold knows in Hok. rewrite Hpc in Hok.
  assert (forall w1 t', w_processes w1 = w_processes w -> w_pool w1 = w_pool w -> w_threads w1 = w_threads w -> t_call t' = t_call t -> t_locked t' = t_locked t ->
    (t_pc t' = Seek \/ is_delete (t_call t) = false /\ exists r n, t_pc t' = StopCurrent r n) -> inv (set_thread i t' w1)) as Hgo.
  { intros w1 t' H1 H2 H3 H4 H5 H6. apply (advance w _ i t); [done|done|by apply later_same; [apply Hinv|..]|by rewrite H4|by rewrite H5|].
    intros b Hb Hd. unfold knows, exempt in *. rewrite H4, H5 in *.
    destruct H6 as [Hpc'|(Hd' & r & n & Hpc')]; rewrite Hpc' in *; [rewrite andb_true_r in Hd|]; auto. }
  unfold start_call. destruct (t_call t) as [| | | | |? []| | | | |] eqn:Ec; apply Hgo; try done; cbn;
    first [by left|right; split; [done|by do 2 eexists]].
Qed.

#[local] Instance pc_launch_dec (pc : Pc) : Decision (pc = Launch).
Proof. destruct pc; first [by left|by right]. Defined.

(** A deletion is about to launch a process. *)
Definition delete_launches (e : Event) (w : World) : bool :=
  match e with
  | Turn i _ => match w_threads w !! i with Some t => is_delete (t_call t) && bool_decide (t_pc t = Launch) | None => false end
  | _ => false
  end.

Lemma turn_inv la w w' i : inv w -> delete_launches (Turn i la) w = false -> turn la i w = Some w' -> inv w'.
Proof.
  unfold turn. intros Hinv Ho H. apply bind_Some in H as (t & Hi & H). cbn in Ho. rewrite Hi in Ho.
  destruct (t_pc t) as [| | |p| |p|p|p|reason next|p reason next|r] eqn:Epc; try (by apply (take_inv w w' i t p));
    (destruct (call_agent (t_call t)) as [a|] eqn:Ecall; [|done]); try done.
  - destruct (lock_free a w) eqn:El; [|done]. injection H as <-. destruct Hinv as [Hc Hth].
    split; [eapply core_same_pool; [exact Hc|apply ages_refl|done]|]. apply (threads_insert w _ i t (set_pc Start (set_locked true t))); try done.
    + intros j u b _ _ _. apply ages_shrinks, ages_refl.
    + intros b. unfold holds_lock. cbn. rewrite Ecall. intros Hb%bool_decide_eq_true. injection Hb as <-. by right.
  - injection H as <-. by apply start_inv.
  - injection H as <-. by apply seek_inv.
  - injection H as <-. rewrite bool_decide_eq_true_2, andb_true_r in Ho by done. by apply launch_inv.
  - by apply (send_inv w w' i t a p).
  - injection H as <-. apply list_again_inv; [done..|]. pose proof (to_thread _ (proj2 Hinv) i t a Hi Ecall) as Hok.
    unfold thread_ok, exempt, knows in Hok. rewrite Epc, andb_false_r in Hok. by apply Hok.
  - injection H as <-. pose proof (to_thread _ (proj2 Hinv) i t a Hi Ecall) as Hok.
    unfold thread_ok, exempt, knows in Hok. rewrite Epc, andb_false_r in Hok. specialize (Hok eq_refl). destruct (existing_process a w).
    + apply (move_inv w i t); [done..|]. by intros b _ _.
    + apply (continue_inv w); try done. by apply later_same; [apply Hinv|..].
  - injection H as <-. pose proof (to_thread _ (proj2 Hinv) i t a Hi Ecall) as Hok.
    unfold thread_ok, exempt, knows in Hok. rewrite Epc, andb_false_r in Hok. specialize (Hok eq_refl).
    apply (continue_inv w); try done. apply later_stop, Hinv.
Qed.

Lemma later_inv w w' : inv w -> later w w' -> inv w'.
Proof.
  intros [Hc [Hlock Hth]] (Hc' & Ha & Ht). split; [done|]. split; rewrite Ht; [done|]. intros i t a Hi Hag.
  apply (thread_ok_mono w); [intros _; by apply ages_shrinks|intros p; by apply ages_dead|by eapply Hth].
Qed.

Lemma update_inv w f p : inv w -> (forall a, w_processes w !! p = Some a -> ages a (f a)) -> inv (update_process f p w).
Proof.
  intros H Hf. pose proof (update_ages f p w Hf) as Ha. apply (later_inv w); [done|]. split; [|done].
  by eapply core_same_pool; [apply H|..].
Qed.

Lemma begin_inv w c : inv w -> inv (set_threads (w_threads w ++ [mkThread c (first_pc c) false [] 1 None]) w).
Proof.
  intros [Hc [Hlock Hth]]. split; [eapply core_same_pool; [exact Hc|apply ages_refl|done]|]. split; cbn.
  - assert (forall i t a, (w_threads w ++ [mkThread c (first_pc c) false [] 1 None]) !! i = Some t -> holds_lock a t = true -> w_threads w !! i = Some t) as H.
    { intros i t a Hi Hl. apply lookup_app_Some in Hi as [Hi|[Hle Hi]]; [done|]. destruct (i - _)%nat; [|done]. by injection Hi as <-. }
    intros i j t u a Hi Hj Ht Hu. eapply Hlock; eauto.
  - intros i t a Hi Ha. apply lookup_app_Some in Hi as [Hi|[Hle Hi]].
    { apply (thread_ok_mono w); [intros _; apply ages_shrinks, ages_refl|done|by eapply Hth]. }
    destruct (i - _)%nat; [|done]. injection Hi as <-. by destruct c.
Qed.

Lemma gone_ages e a : ages a (set_gone e a).
Proof. by split. Qed.

Lemma ends_inv w w' p : inv w -> worker_ends p w = Some w' -> inv w'.
Proof.
  unfold worker_ends. intros Hinv H. apply bind_Some in H as (a & Ha & H). destruct (ap_gone a); [done|].
  destruct (ap_closed a) as [r|] eqn:Ec; [|done]. injection H as <-.
  assert (live a = false) as Hl by (apply closed_dead; unfold is_open; by rewrite Ec).
  assert (inv (remove_process_if_current (ap_agent_id a) p w)) as H1.
  { apply (later_inv w); [done|]. apply later_evict; [apply Hinv|]. intros b Hb. rewrite Ha in Hb. by injection Hb as <-. }
  assert (forall b w1, inv w1 -> inv (set_exits b w1)) as Hx by (intros b w1 Hw; apply (later_inv w1); [done|by apply later_same; [apply Hw|..]]).
  assert (inv (if lt_initialized (ap_lifetime a) then set_exits (clear_exits (ap_agent_id a) (w_early_exits (remove_process_if_current (ap_agent_id a) p w)))
    (remove_process_if_current (ap_agent_id a) p w) else remove_process_if_current (ap_agent_id a) p w)) as H2 by (destruct (lt_initialized _); [by apply Hx|done]).
  destruct r; [|destruct (_ && _); [apply Hx|]]; (apply update_inv; [done|]); intros b _; apply gone_ages.
Qed.

Lemma closes_inv w w' r p allowed : inv w -> worker_closes r p allowed w = Some w' -> inv w'.
Proof.
  unfold worker_closes. intros Hinv H. apply bind_Some in H as (a & Ha & H). destruct (_ && _); [|done]. injection H as <-. by apply update_inv.
Qed.

Lemma open_inv w w' f p : (forall a, ages a (f a)) -> inv w -> while_open f p w = Some w' -> inv w'.
Proof.
  unfold while_open. intros Hf Hinv H. apply bind_Some in H as (a & Ha & H). destruct (is_open a); [|done]. injection H as <-. by apply update_inv.
Qed.

Lemma expired_ages timeouts now a : ages a (on_lifetime (fun l => (expired timeouts now l).2) a).
Proof.
  split; [done|]. split; [|done]. unfold live, expired. cbn. destruct (_ || _); [done|]. case_bool_decide; [|done]. cbn. by rewrite andb_false_r.
Qed.

Lemma step_inv e w w' : inv w -> delete_launches e w = false -> step e w = Some w' -> inv w'.
Proof.
  intros Hinv Ho H. destruct e; cbn in H.
  - injection H as <-. by apply begin_inv.
  - by eapply turn_inv.
  - by eapply answered_inv.
  - by eapply timed_out_inv.
  - by eapply lost_inv.
  - unfold listing_gives_up in H. apply bind_Some in H as (t & Ht & H). destruct (t_pc t); try done; destruct (t_call t); try done.
    injection H as <-. by apply end_inv.
  - case_bool_decide; [|done]. injection H as <-. apply (later_inv w); [done|]. by apply later_same; [apply Hinv|..].
  - eapply open_inv; [|done..]. by intros a.
  - eapply open_inv; [|done..]. intros a. split; [done|]. unfold live, observe. cbn. by destruct message.
  - eapply open_inv; [|done..]. intros a. apply expired_ages.
  - by eapply closes_inv.
  - by eapply closes_inv.
  - by eapply closes_inv.
  - by eapply closes_inv.
  - by eapply ends_inv.
Qed.

(** No deletion launches a process. *)
Fixpoint orderly (es : list Event) (w : World) : bool :=
  match es with
  | [] => true
  | e :: es => negb (delete_launches e w) && match step e w with Some w => orderly es w | None => true end
  end.

Lemma reachable_inv es w w' : inv w -> orderly es w = true -> run es w = Some w' -> inv w'.
Proof.
  revert w. induction es as [|e es IH]; intros w Hinv Ho H; cbn in *; [by injection H as <-|]. apply andb_prop in Ho as [Hd Ho].
  apply negb_true_iff in Hd. apply bind_Some in H as (w1 & H1 & H). rewrite H1 in Ho. apply (IH w1); [|done..]. by eapply step_inv.
Qed.

Lemma new_inv : inv new_pool.
Proof. split; split; cbn; intros; done. Qed.

(** C27. Any two live processes of an Agent are the same, the one that calls find: as
    long as no deletion launches a process beside the lock of its Agent, in every
    interleaving of calls, answers, failures and retirements. *)
Theorem one_live_process es w p q a b : run es new_pool = Some w -> orderly es new_pool = true ->
  w_processes w !! p = Some a -> w_processes w !! q = Some b -> live a = true -> live b = true -> ap_agent_id a = ap_agent_id b ->
  p = q /\ existing_process (ap_agent_id a) w = Some p.
Proof.
  intros Hrun Ho Hp Hq Ha Hb Hab. destruct (reachable_inv _ _ _ new_inv Ho Hrun) as [[_ Hl] _]. pose proof (Hl p a Hp Ha) as H1.
  pose proof (Hl q b Hq Hb) as H2. rewrite <- Hab, H1 in H2. split; [by injection H2|]. unfold existing_process. rewrite H1. cbn. rewrite Hp. cbn.
  unfold live in Ha. by destruct (is_open a), (lt_stopping (ap_lifetime a)).
Qed.

(** ** Operations keep their process *)

Lemma moves_closed i t w w' p a a' : moves i t w w' -> w_processes w !! p = Some a -> w_processes w' !! p = Some a' -> ap_closed a' = ap_closed a.
Proof.
  intros Hm Ha Ha'. destruct Hm as [w1 t' (_ & Hk & _) _|w1 t' (_ & Hk & _) _|q c l t' Hq _ _|c pool t' _ _ _]; cbn [set_thread set_threads w_processes] in Ha'.
  - by destruct (Forall2_lookup_lr _ _ _ _ _ _ Hk Ha Ha') as (_ & _ & ? & _).
  - rewrite release_lookup in Ha'. apply fmap_Some in Ha' as (b & Hb & ->). by destruct (Forall2_lookup_lr _ _ _ _ _ _ Hk Ha Hb) as (_ & _ & ? & _).
  - cbn in Ha'. destruct (decide (p = q)) as [->|Hne].
    + rewrite list_lookup_alter_eq, Ha in Ha'. by injection Ha' as <-.
    + rewrite list_lookup_alter_ne, Ha in Ha' by done. by injection Ha' as <-.
  - cbn in Ha'. rewrite lookup_app_l in Ha' by (by eapply lookup_lt_Some). rewrite Ha in Ha'. by injection Ha' as <-.
Qed.

Lemma update_closed f q w p a a' : (forall c, ap_closed (f c) = ap_closed c) -> w_processes w !! p = Some a ->
  w_processes (update_process f q w) !! p = Some a' -> ap_closed a' = ap_closed a.
Proof.
  intros Hf Ha Ha'. cbn in Ha'. destruct (decide (p = q)) as [->|Hne].
  - rewrite list_lookup_alter_eq, Ha in Ha'. by injection Ha' as <-.
  - rewrite list_lookup_alter_ne, Ha in Ha' by done. by injection Ha' as <-.
Qed.

Lemma ends_closed q w w' p a a' : worker_ends q w = Some w' -> w_processes w !! p = Some a -> w_processes w' !! p = Some a' -> ap_closed a' = ap_closed a.
Proof.
  unfold worker_ends. intros H Ha Ha'. apply bind_Some in H as (c & Hc & H). destruct (ap_gone c); [done|]. destruct (ap_closed c) as [r|]; [|done].
  injection H as <-. assert (forall e, w_processes (update_process (set_gone e) q w) !! p = Some a' -> ap_closed a' = ap_closed a) as Hu
    by (intros e; by apply update_closed).
  assert (w_processes (remove_process_if_current (ap_agent_id c) q w) = w_processes w) as Hp
    by (unfold remove_process_if_current; by destruct (is_current _ _ _)).
  destruct r, (lt_initialized (ap_lifetime c)); rewrite ?andb_false_r in Ha'; try destruct (bool_decide _); eapply Hu; cbn in *; by rewrite Hp in Ha'.
Qed.

Lemma closes_spec r q allowed w w' p a a' : worker_closes r q allowed w = Some w' -> w_processes w !! p = Some a -> w_processes w' !! p = Some a' ->
  is_open a = true -> is_open a' = false -> q = p /\ allowed a = true.
Proof.
  unfold worker_closes. intros H Ha Ha' Ho Hc. apply bind_Some in H as (c & Hq & H). destruct (is_open c); [|done].
  destruct (allowed c) eqn:Eal; [|done]. injection H as <-. cbn in Ha'. destruct (decide (p = q)) as [->|Hne].
  - rewrite Ha in Hq. by injection Hq as ->.
  - rewrite list_lookup_alter_ne, Ha in Ha' by done. injection Ha' as <-. by rewrite Ho in Hc.
Qed.

Lemma while_open_closed f q w w' p a a' : (forall c, ap_closed (f c) = ap_closed c) -> while_open f q w = Some w' -> w_processes w !! p = Some a ->
  w_processes w' !! p = Some a' -> ap_closed a' = ap_closed a.
Proof.
  unfold while_open. intros Hf H. apply bind_Some in H as (c & Hc & H). destruct (is_open c); [|done]. injection H as <-. by apply update_closed.
Qed.

(** What closes a process. *)
Lemma closing_step e w w' p a a' : step e w = Some w' -> w_processes w !! p = Some a -> w_processes w' !! p = Some a' ->
  is_open a = true -> is_open a' = false ->
  (e = Retire p /\ lt_stopping (ap_lifetime a) = true) \/ (e = Shutdown p /\ ap_shutdown a = true) \/ (e = Abandon p /\ has_client p w = false) \/
  exists r, e = ConnectionEnd p r.
Proof.
  intros H Ha Ha' Ho Hc. assert (ap_closed a' <> ap_closed a) as Hne by (intros E; unfold is_open in *; by rewrite E, Ho in Hc).
  destruct (thread_of e) as [i|] eqn:Ei.
  { destruct (thread_moves _ _ _ _ Ei H) as (t & Ht & Hm). by destruct (Hne (moves_closed _ _ _ _ _ _ _ Hm Ha Ha')). }
  destruct e as [c| | | | | |d|q|q m b|q|q|q|q|q r|q]; try done; cbn in H.
  - injection H as <-. cbn in Ha'. rewrite Ha in Ha'. by injection Ha' as <-.
  - case_bool_decide; [|done]. injection H as <-. cbn in Ha'. rewrite Ha in Ha'. by injection Ha' as <-.
  - destruct Hne. by eapply while_open_closed; [|exact H|..].
  - destruct Hne. by eapply while_open_closed; [|exact H|..].
  - destruct Hne. by eapply while_open_closed; [|exact H|..].
  - destruct (closes_spec _ _ _ _ _ _ _ _ H Ha Ha' Ho Hc) as [-> ?]. by left.
  - destruct (closes_spec _ _ _ _ _ _ _ _ H Ha Ha' Ho Hc) as [-> ?]. by right; left.
  - destruct (closes_spec _ _ _ _ _ _ _ _ H Ha Ha' Ho Hc) as [-> ?%negb_true_iff]. by right; right; left.
  - destruct (closes_spec _ _ _ _ _ _ _ _ H Ha Ha' Ho Hc) as [-> _]. right; right; right. by exists r.
  - by destruct (Hne (ends_closed _ _ _ _ _ _ H Ha Ha')).
Qed.

(** C19. An operation that a thread holds keeps its process: while it does, the
    process is neither retired nor abandoned, and it closes only when its
    connection ends by itself or after it was told to stop. *)
Theorem operation_keeps_process es w e w' p a a' t : run es new_pool = Some w -> orderly es new_pool = true -> Z.of_nat (length es) < u64_modulus ->
  step e w = Some w' -> w_processes w !! p = Some a -> w_processes w' !! p = Some a' -> is_open a = true -> is_open a' = false ->
  t ∈ w_threads w -> p ∈ t_guards t -> lt_stopping (ap_lifetime a) = false /\ (ap_shutdown a = true \/ exists r, e = ConnectionEnd p r).
Proof.
  intros Hrun Ho Hn H Ha Ha' Hopen Hc Ht Hg. destruct (reachable_inv _ _ _ new_inv Ho Hrun) as [[_ Hl] _].
  assert (counted (length es) w) as [_ _ Hco] by (by apply (run_counted 0 es new_pool); [|apply new_counted|]).
  pose proof (held_pos p _ t Ht Hg) as Hpos. assert (lt_stopping (ap_lifetime a) = false) as Hs.
  { destruct (lt_stopping _) eqn:E; [|done]. destruct (Hco p a Ha) as [_ H0]. specialize (H0 E). lia. }
  split; [done|]. destruct (closing_step _ _ _ _ _ _ H Ha Ha' Hopen Hc) as [[_ E]|[[_ E]|[[_ E]|E]]]; [by rewrite Hs in E|by left| |by right].
  left. destruct (ap_shutdown a) eqn:Esh; [done|]. assert (live a = true) as Hlive by (unfold live; by rewrite Hopen, Hs, Esh).
  unfold has_client in E. apply orb_false_iff in E as [E _]. apply bool_decide_eq_false in E. destruct E.
  exists (ap_agent_id a), p. split; [by apply Hl|done].
Qed.

(** ** Launches are held back for a bounded time *)

Lemma wait_after_bounds n : 0 <= wait_after n <= LONGEST_WAIT.
Proof.
  unfold wait_after, LONGEST_WAIT. case_bool_decide; [lia|]. unfold checked_shl_one. case_bool_decide; cbn [from_option id].
  - rewrite Z.shiftl_1_l. assert (0 < 2 ^ (n - 2)) by (apply Z.pow_pos_nonneg; lia). unfold FIRST_WAIT. lia.
  - unfold FIRST_WAIT, u32_max. lia.
Qed.

(** The waits double from one second up to the limit. *)
Lemma wait_after_doubles n : 2 <= n -> wait_after n = Z.min (1000 * 2 ^ (n - 2)) LONGEST_WAIT.
Proof.
  intros Hn. unfold wait_after. rewrite bool_decide_eq_false_2 by lia. unfold checked_shl_one. case_bool_decide as H; cbn [from_option id].
  - by rewrite Z.shiftl_1_l.
  - assert (2 ^ 32 <= 2 ^ (n - 2)) by (apply Z.pow_le_mono_r; lia). unfold FIRST_WAIT, u32_max, LONGEST_WAIT. lia.
Qed.

(** Each entry was made by an exit: its wait ends in time. *)
Definition exits_ok (w : World) : Prop := forall a e, w_early_exits w !! a = Some e -> 1 <= ee_count e /\ ee_retry_at e <= w_now w + wait_after (ee_count e).

Lemma exits_subset w w' : exits_ok w -> w_early_exits w' ⊆ w_early_exits w -> w_now w <= w_now w' -> exits_ok w'.
Proof. intros H Hs Hn a e He. destruct (H a e (lookup_weaken _ _ _ _ He Hs)) as [H1 H2]. split; [done|lia]. Qed.

Lemma moves_exits i t w w' : moves i t w w' -> exits_ok w -> exits_ok w'.
Proof.
  intros Hm H. destruct Hm as [w1 t' (_ & _ & Hn & He) _|w1 t' (_ & _ & Hn & He) _|p c l t' _ _ _|c pool t' _ _ _]; apply (exits_subset w); cbn; try done.
  - by rewrite Hn.
  - by destruct (release_world (t_guards t) w1) as (_ & _ & _ & -> & _).
  - destruct (release_world (t_guards t) w1) as (_ & _ & -> & _). by rewrite Hn.
Qed.

Lemma ends_exits p w w' : worker_ends p w = Some w' -> exits_ok w -> exits_ok w'.
Proof.
  unfold worker_ends. intros H Hok. apply bind_Some in H as (a & Ha & H). destruct (ap_gone a); [done|]. destruct (ap_closed a) as [r|]; [|done].
  injection H as <-. set (w1 := remove_process_if_current _ _ _). assert (w_early_exits w1 = w_early_exits w /\ w_now w1 = w_now w) as [He Hn]
    by (unfold w1, remove_process_if_current; by destruct (is_current _ _ _)).
  set (w2 := if lt_initialized _ then _ else _). assert (exits_ok w2) as H2.
  { apply (exits_subset w); [done| |]; unfold w2; destruct (lt_initialized _); cbn; rewrite ?He, ?Hn; try done. apply delete_subseteq. }
  clearbody w2. destruct r as [[]|e]; [by apply (exits_subset w2)|]. destruct (_ && _); [|by apply (exits_subset w2)].
  intros b x. cbn. unfold record_exit. intros [[<- <-]|[Hne Hx]]%lookup_insert_Some; [cbn|by apply (H2 b x)].
  split; [|lia]. destruct (w_early_exits w2 !! ap_agent_id a) as [y|] eqn:Ey; cbn; [destruct (H2 _ _ Ey)|]; unfold u32_max; lia.
Qed.

Lemma open_exits f p w w' : exits_ok w -> while_open f p w = Some w' -> exits_ok w'.
Proof.
  unfold while_open. intros Hok H. apply bind_Some in H as (a & _ & H). destruct (is_open a); [|done]. injection H as <-. by apply (exits_subset w).
Qed.

Lemma closes_exits r p allowed w w' : exits_ok w -> worker_closes r p allowed w = Some w' -> exits_ok w'.
Proof.
  unfold worker_closes. intros Hok H. apply bind_Some in H as (a & _ & H). destruct (_ && _); [|done]. injection H as <-. by apply (exits_subset w).
Qed.

Lemma step_exits e w w' : exits_ok w -> step e w = Some w' -> exits_ok w'.
Proof.
  intros Hok H. destruct (thread_of e) as [i|] eqn:Ei.
  { destruct (thread_moves _ _ _ _ Ei H) as (t & Ht & Hm). by eapply moves_exits. }
  destruct e; try done; cbn in H; try (by eapply open_exits); try (by eapply closes_exits).
  - injection H as <-. by apply (exits_subset w).
  - case_bool_decide; [|done]. injection H as <-. apply (exits_subset w); cbn; [done..|lia].
  - by eapply ends_exits.
Qed.

Lemma run_exits es w w' : exits_ok w -> run es w = Some w' -> exits_ok w'.
Proof.
  revert w. induction es as [|e es IH]; intros w Hok H; cbn in H; [by injection H as <-|]. apply bind_Some in H as (w1 & H1 & H).
  apply (IH w1); [|done]. by eapply step_exits.
Qed.

(** A launch is refused only after two exits in a row before [initialize]; the
    wait that is left is at most the one of the last exit, which doubles from
    one second and is never more than thirty, so that a launch after these is
    admitted. *)
Theorem held_back_is_bounded es w a : run es new_pool = Some w ->
  admit_launch a (w_now w + LONGEST_WAIT) (w_early_exits w) = Ok tt /\
  forall n wait, held_back a (w_now w) (w_early_exits w) = Some (n, wait) -> 2 <= n /\ 0 < wait <= Z.min (1000 * 2 ^ (n - 2)) LONGEST_WAIT.
Proof.
  intros Hrun. assert (exits_ok w) as Hok by (by eapply run_exits; [|exact Hrun]). split.
  - unfold admit_launch, held_back. destruct (w_early_exits w !! a) as [e|] eqn:Ee; cbn; [|done]. destruct (Hok a e Ee) as [_ H].
    pose proof (wait_after_bounds (ee_count e)). by rewrite bool_decide_eq_false_2 by lia.
  - unfold held_back. intros n wait H. apply bind_Some in H as (e & Ee & H). case_bool_decide as Hlt; [|done]. injection H as <- <-.
    destruct (Hok a e Ee) as [H1 H2]. assert (2 <= ee_count e) as Hn.
    { destruct (decide (ee_count e = 1)) as [E1|]; [|lia]. rewrite E1 in H2. unfold wait_after in H2. rewrite bool_decide_eq_true_2 in H2 by lia. lia. }
    rewrite wait_after_doubles in H2 by done. split; [done|]. lia.
Qed.
End Processes.

(** ** Witnesses *)

Module AgentProcessWitness.
Definition config : AcpAgentConfig := mkConfig "a" "agent" [] [] [].
Definition launcher : Launcher := mkLauncher (Ok config) (fun _ => Ok tt).
Definition ev := @Event nat.
Definition turns (i n : nat) : list ev := replicate n (Turn i launcher).

(** A session is opened, and a prompt uses it. *)
Definition session_opened : list ev :=
  [Begin (OpenSession "a")] ++ turns 0 4 ++ [Initialize 0; Answer 0 (Ok false); Begin (UseSession 0)] ++ turns 1 1.
Definition state (es : list ev) : @World nat _ _ := default new_pool (run es new_pool).

(** A listing and a probe share the process of the session. *)
Definition shared : list ev := session_opened ++ [Begin (ListSessions "a")] ++ turns 2 5 ++ [Begin (Probe "a")] ++ turns 3 5.

Lemma one_live_process_witness : exists a, w_processes (state shared) !! 0%nat = Some a /\
  0%nat = 0%nat /\ existing_process (ap_agent_id a) (state shared) = Some 0%nat.
Proof.
  assert (is_Some (w_processes (state shared) !! 0%nat)) as [a Ha] by (vm_compute; eauto). exists a. split; [exact Ha|].
  assert (live a = true) as Hl by (vm_compute in Ha; by injection Ha as <-).
  apply (one_live_process shared (state shared) 0 0 a a); [by vm_compute|by vm_compute|exact Ha|exact Ha|exact Hl|exact Hl|reflexivity].
Defined.

Lemma operation_keeps_process_witness : exists a t, w_processes (state shared) !! 0%nat = Some a /\ t ∈ w_threads (state shared) /\ 0%nat ∈ t_guards t /\
  lt_stopping (ap_lifetime a) = false /\ (ap_shutdown a = true \/ exists r, @ConnectionEnd nat 0 (Ok tt) = ConnectionEnd 0 r).
Proof.
  assert (is_Some (w_processes (state shared) !! 0%nat)) as [a Ha] by (vm_compute; eauto).
  assert (is_Some (w_threads (state shared) !! 1%nat)) as [t Ht] by (vm_compute; eauto).
  assert (is_Some (step (ConnectionEnd 0 (Ok tt)) (state shared))) as [w' Hw] by (vm_compute; eauto).
  exists a, t. pose proof (list_elem_of_lookup_2 _ _ _ Ht) as Hin. assert (0%nat ∈ t_guards t) as Hg by (vm_compute in Ht; injection Ht as <-; by left).
  assert (is_open a = true) as Ho by (vm_compute in Ha; by injection Ha as <-).
  assert (w_processes w' !! 0%nat = Some (close (Ok tt) a)) as Ha' by (vm_compute in Hw, Ha; injection Hw as <-; by injection Ha as <-).
  split; [exact Ha|]. split; [exact Hin|]. split; [exact Hg|].
  apply (operation_keeps_process shared (state shared) (ConnectionEnd 0 (Ok tt)) w' 0 a (close (Ok tt) a) t);
    [by vm_compute|by vm_compute|by vm_compute|exact Hw|exact Ha|exact Ha'|exact Ho|reflexivity|exact Hin|exact Hg].
Defined.

(** A process that exits before it answers [initialize], twice. *)
Definition early_exit (i : nat) : list ev :=
  [Begin (Probe "a")] ++ turns i 5 ++ [ConnectionEnd i (Err (Internal "ACP error: Process exited with exit status: 1")); WorkerEnd i; Lost i] ++ turns i 1.
Definition failing : list ev := early_exit 0 ++ early_exit 1.

Lemma held_back_is_bounded_witness : held_back "a" 0 (w_early_exits (state failing)) = Some (2, 1000) /\
  2 <= 2 /\ 0 < 1000 <= Z.min (1000 * 2 ^ (2 - 2)) LONGEST_WAIT.
Proof.
  assert (held_back "a" (w_now (state failing)) (w_early_exits (state failing)) = Some (2, 1000)) as H by by vm_compute.
  split; [exact H|]. apply (held_back_is_bounded failing (state failing) "a"); [by vm_compute|exact H].
Defined.

(** Idle for the short time, the process is retired, and the next call gets another. *)
Example idle_process_is_replaced :
  let w := state ([Begin (Probe "a")] ++ turns 0 5 ++ [Initialize 0; Answer 0 (Ok false); Tick 360000; Begin (Probe "a")] ++ turns 1 3 ++ [Expire 0] ++ turns 1 3) in
  w_pool w !! "a" = Some 1%nat /\ (lt_stopping ∘ ap_lifetime <$> w_processes w) = [true; false].
Proof. by vm_compute. Qed.

(** A deletion takes no lock: it can launch a process beside that of a session
    that is being opened, which takes its place in the pool; the process of the
    session then ends under a prompt that uses it, although nobody told it to. *)
Example deletion_ends_a_running_session :
  let es := [Begin (OpenSession "a")] ++ turns 0 3 ++ [Begin (DeleteSession "a")] ++ turns 1 1 ++ turns 0 1 ++ turns 1 1 ++
            [Initialize 0; Answer 0 (Ok false); Begin (UseSession 0)] ++ turns 2 1 in
  (t_guards <$> w_threads (state es)) = [[]; [1%nat]; [0%nat]] /\
  (live <$> w_processes (state es)) = [true; true] /\ (live <$> w_processes (state (es ++ [Abandon 0]))) = [false; true].
Proof. by vm_compute. Qed.

(** A sign-in that is cancelled fails and keeps its environment, which every
    later launch gets; one that the Agent refuses restores the one before. *)
Definition environment : AcpAuthEnvironment := mkAuthEnvironment [("TOKEN", "new")] [] "a".
Definition signing_in : list ev := [Begin (Authenticate "a" (Some environment))] ++ turns 0 6.

Example cancelled_sign_in_keeps_its_environment :
  let w := state (signing_in ++ [Begin (CancelAuthentication "a")] ++ turns 1 2 ++ [Shutdown 0; Lost 0]) in
  (t_pc <$> w_threads w !! 0%nat) = Some (Return (Err (NotReady "ACP agent process ended during authentication"))) /\
  w_auth_environments w !! "a" = Some environment.
Proof. by vm_compute. Qed.

Example refused_sign_in_restores_its_environment :
  let w := state (signing_in ++ [Answer 0 (Err (ErrAuthRequired "no"))] ++ turns 0 2) in
  (t_pc <$> w_threads w !! 0%nat) = Some (Return (Err (ErrAuthRequired "no"))) /\ w_auth_environments w !! "a" = None.
Proof. by vm_compute. Qed.
End AgentProcessWitness.
